(* ===== verification/_CoqProject ===== *)
-Q . S2P
Prelude.v
CInt.v
Buf.v
Sort.v
ListRt.v
HashMap.v
Str.v
Arc.v
Task.v
Json.v
RngClock.v
Atomic.v
Vec.v
Net.v
Http.v
HostIO.v
PosIO.v
Exec.v
Gui.v
GuiX11.v
GuiWin.v
FreeMap.v
FreeList.v
FreeAlloc.v
FreeRun.v
FreeStr.v
FreeEnv.v
FreeBuf.v
FreeTask.v
FreeIO.v
Concur.v
WinArc.v
WinList.v
FreeLoad.v
FreeSys.v
Locks.v
ExecWin.v
WinMap.v
WinIO.v
HostBuf.v
WebView.v
