(* ===== verification/Prelude.v ===== *)
(** * The L++ runtime of SamarDB

    SamarDB is written in L++; what its compiled programs call is the C runtime under
    src/runtime/.  This library models that runtime and proves it correct, function by function.

    ** The program

    The runtime exists three times.  The _host_ runtime (lpp_runtime.c, lpp_map.c, lpp_buf.c, lpp_int.c,
    lpp_str.c, lpp_clock_rng.c, lpp_atomic.c, lpp_concur.c, lpp_exec.c, lpp_dir.c, lpp_gui.c) links with
    the C library.  The
    _freestanding_ runtime (linux_x86_64_min.c) has its own copy of everything for statically
    linked programs, on system calls alone, and windows_x86_64_min.c is its counterpart on the functions of
    kernel32.  In all of them, every heap object has a reference count in
    front of its payload; lists, maps, closures, tuples and tasks own references, which they take
    and drop with [lpp_arc_retain] and [lpp_arc_release]; the destructor of an object releases what
    it owns, so a release can cascade.  Weak handles and borrowed slices recognise a dead object by
    its generation; arenas share one life among many objects.

    ** The files

    - [Prelude]: machine integers ([uwrap], [swrap], [chk64]), the outcome monad with its two kinds of
      statement ([wp]: the call returns and its result has a property; [within]: it does, unless there is no
      room for it, as for coordinates whose sums overflow), arrays ([rd], [wr]), strings, calls into the
      reference counter ([arc_ev]), tactics, shared lemmas.
    - [CInt]: lpp_int.c, every function with the body of each compiler.
    - [Buf]: lpp_buf.c, byte buffers and CRC-32 with its lazily built table.
    - [Sort]: the introsort of lpp_runtime.c (insertion sort, heap sort, quick sort).
    - [ListRt]: [LppList] of lpp_runtime.c, all operations.
    - [HashMap]: lpp_map.c, open addressing with tombstones.
    - [Str]: lpp_str.c, strings, number conversions, random numbers.
    - [Arc]: the reference counter, weak handles and arenas of lpp_runtime.c, as a machine of
      calls over a heap of headers.
    - [Task]: closures, tuples, tasks and slices of lpp_runtime.c, over [Arc].
    - [Json]: the JSON parser and accessors of lpp_runtime.c, with the allocations they make.
    - [RngClock]: lpp_clock_rng.c.  [Atomic]: lpp_atomic.c, both bodies.  [Concur]: the threads of
      lpp_concur.c under every interleaving.  [Vec]: the vector intrinsics of lpp_runtime.c.
    - [Net], [Http]: the socket table, the socket builtins and the HTTP client of lpp_runtime.c.
      [HostIO], [PosIO]: its files, console and positional durable files.  [Exec]: lpp_exec.c, lpp_dir.c
      and the command builtins of lpp_runtime.c, on POSIX; [ExecWin]: the Windows bodies of lpp_exec.c and
      lpp_dir.c.  [Locks]: the mutexes and read-write locks of lpp_concur.c, both bodies.
    - [Gui], [GuiX11], [GuiWin]: lpp_gui.c, the raylib layer with the input it reads and the two backends,
      which implement the interface [Gui.GuiBackend] of the layer.
    - [WebView]: lpp_webview.c, the windows that show web pages on Windows.
    - [HostBuf]: the files of lpp_buf.c, over [HostIO], and the system metrics of lpp_runtime.c.
    - [FreeMap], [FreeList], [FreeAlloc], [FreeRun], [FreeStr], [FreeEnv], [FreeBuf], [FreeTask], [FreeIO]:
      linux_x86_64_min.c; the names of its functions get the suffix [_fs].  [FreeAlloc] models
      memory byte by byte: the allocator, the headers, weak handles, arenas and raw pointers;
      [FreeRun] the runs of a program over it, with destructors, for weak handles and slices;
      [FreeBuf] and [FreeTask] lay their objects out in that memory; [FreeIO] has the builtins that
      transfer data: files, sockets, the console, pipes.
    - [FreeSys]: the sockets and commands of the same file as programs over a kernel that sees the history of
      system calls and answers one after the other.  [FreeLoad]: its dynamic loader, over the bytes of a file.
    - [WinArc], [WinList], [WinMap], [WinIO]: windows_x86_64_min.c, its counter, lists, maps and files; the
      names of its functions get the suffix [_w].

    ** How code is modelled

    A C integer is a [Z] with its wrap-around written out; signed overflow is [Undef] through
    [chk64].  A call returns an [outcome]: [Ok] with the new state, [Panic] (the program is
    stopped with status 101), [Undef] (the C standard or the machine gives the operation no
    meaning: overflow, an access outside a block, use of freed memory), or [NoFuel].  A theorem
    that says a call returns [Ok] therefore also says that it terminates and that no access leaves
    its block.  State is passed explicitly; calls into the reference counter made by lists and maps
    are recorded in order as events, and [Arc] gives them their meaning.  The order and the guards of
    the code are kept, the unhappy branches too.

    Fuel appears only where a loop or a recursion is not structural.  Where the bound depends on the
    data the definitions compute it (the length of a string or an array, the number of slots of a
    table, the nesting depth the parser allows, the 64 bits of an exponent), and the theorems prove
    that it is enough; where a cascade of releases depends on the heap the fuel is an argument and the
    theorems state how much suffices.

    What the runtime does not define itself is an argument with a promise: sockets ([Net.SocketApi],
    [Net.SocketLaws]), the streams of the C library over a tree of files and directories ([HostIO.Stdio]),
    descriptors ([PosIO.Posix]), the files of Windows ([WinIO.Win32Files]), the Linux kernel as a record of
    calls that may refuse anything ([FreeIO.sys] with [FreeIO.Descriptors]; [FreeIO.posix], made of a choice of
    answers, for what a kernel that grants a call then does), and as a function of the history of calls
    ([FreeSys.LinuxFds]), the locks of the system ([Locks.MutexLaws], [Locks.RwLaws]), the X server
    ([GuiX11.XSystem], [GuiX11.XLaws]), the window system of Windows ([GuiWin.WinSystem], [GuiWin.WinLaws]),
    WebView2 ([WebView.WebSystem], [WebView.WebLaws]), the system allocator ([allocator], [allocation], with
    the classes [ListRt.SysAlloc] and [HashMap.AddrSpace]: no block is larger than the address space),
    [mmap] (the class [Kernel] in [FreeAlloc]: a page-aligned unmapped range of user addresses), compiled
    code behind a function pointer (destructors, comparison functions, the code of tasks and threads), the
    contents of /proc/self/environ, the clock.  Every theorem with such a hypothesis has an instance at a
    concrete function.

    ** What the theorems show

    - Memory: under every sequence of calls the host counter never frees an object that is still
      referenced and never touches a freed one ([Arc.arc_safe]), reclaims what is dropped
      ([Arc.arc_reclaims]), and weak handles see exactly the live object they were taken from
      ([Arc.weak_handle_sees]).  The freestanding allocator never hands out overlapping blocks and never
      writes to another object ([FreeAlloc.allocator_sound]); its weak handles and slices stop at a
      recycled block, destructors running or not ([FreeRun.weak_handle_after_release],
      [FreeTask.freestanding_slice_safe]).
    - Containers refine their abstract specification: the map a finite map
      ([HashMap.map_implements_finite_map]), the list a sequence ([ListRt.list_implements_sequence],
      [FreeList.freestanding_list_is_sequence]), and the references they take and drop balance over
      their whole life ([HashMap.map_lifetime_balanced], [ListRt.list_lifetime_balanced]).
    - Algorithms: the introsort returns a permutation in order, for every comparison that is the strict part
      of a total preorder (the class [Sort.SortOrder]; [Sort.introsort_sorts]); binary search, replace and
      split, CRC-32, checked arithmetic, bit counts and number conversions meet independent definitions.
    - The runtimes agree: map, list, strings, buffers, tuples, tasks and slices of the freestanding runtime
      compute what the host's compute ([FreeMap.freestanding_map_agrees], [FreeStr.freestanding_strings_exact],
      [FreeBuf.freestanding_buf_agrees]), the reference counter, lists and maps of the Windows one do the same
      ([WinArc.win_arc_lockstep], [WinList.win_list_agrees], [WinMap.win_map_agrees]), and where they do not
      the difference is a theorem.
    - Input and output: no file builtin leaves a descriptor or a stream open whatever the system answers, but
      for [lpp_file_copy] when its source cannot be closed ([HostIO.copy_leaks_stream]); files read back what was written ([FreeIO.file_io_exact], [HostIO.host_files_exact],
      [PosIO.positional_roundtrip], [WinIO.win_files_exact], [HostBuf.buf_files_roundtrip]), and what is
      sent or read from a command is exactly the bytes of the program however the kernel cuts it up
      ([FreeIO.stream_io_exact], [Exec.command_output_exact]).
    - Network: handles are typed by what they were opened for ([Net.socket_table_typed]), no socket is lost
      ([Net.sockets_are_accounted_for]), a request has exactly the bytes its URL asks for
      ([Http.http_requests_exact]).  On Linux alone, the descriptors a call leaves open are the one it returns
      ([FreeSys.freestanding_sockets_exact]).
    - Processes: the child runs the command and nothing else of the program, the parent gets its status or all
      its output and waits for it ([FreeSys.freestanding_commands_exact], [Exec.command_output_exact],
      [ExecWin.command_output_win_exact]).
    - The dynamic loader maps and unmaps in pairs whatever file it is given, and finds exactly the symbols a
      well-formed file names ([FreeLoad.loader_balanced], [FreeLoad.loader_finds_symbols]).
    - Windows on screen: the objects a backend holds are those of the windows in its table
      ([GuiX11.x11_windows_accounted], [GuiWin.win32_windows_live]), shapes go to the back buffer, typed
      characters wait in a queue, and the raylib layer needs of a backend only its laws.  Coordinates whose
      sums overflow, and a context X11 refuses, are the only ways such a run can go wrong.  A web view holds
      exactly the COM objects of its windows and uses no other ([WebView.webview_references_accounted]);
      what a completion that comes too late does is shown too.
    - Protocols: a task runs once, threads deliver their results and free their records under every
      interleaving, the wrappers around locks add and lose nothing of what the system's locks promise
      ([Locks.locks_exclude]), atomic counters lose nothing, the JSON parser
      releases all it does not return.

    ** Not modelled

    Functions on [double] (formatting, square roots, powers, the wheel and the rounded shapes of raylib),
    because the model has no floating point: where a double is only moved its bits are.  The bodies for
    Windows of the files of the host; panic and crash handler, message box and screenshot, which only
    forward; the metrics on macOS.  In linux_x86_64_min.c the entry point, which is assembly, and the stubs
    of C library functions that only satisfy the linker.  The weak memory model behind the atomic
    operations: each is one step.  In windows_x86_64_min.c the strings, buffers, tuples, tasks and slices,
    which repeat the code of the modelled runtimes, and the console, directories, processes and threads,
    which forward to Win32; its size classes, which have no caller.  The vendored webview.h, which the
    runtime does not call, and the adapter of the Rust network library.  COM calls of the web view are taken
    not to run its window procedure in between.

    ** Plan

    Left: the strings, buffers, tasks and slices of windows_x86_64_min.c, by agreement with the Linux ones; the
    files of the host on Windows; floating point. *)

From Stdlib Require Export ZArith Lia Bool.
From stdpp Require Export base list_numbers numbers strings tactics decidable.
From stdpp Require Export list.

#[export] Set Default Goal Selector "!".
#[global] Open Scope Z_scope.

(** ** Machine integers

    A C integer of width [w] is a [Z].  [uwrap w] is the value conversion to
    [uintw_t]; [swrap w] the conversion to [intw_t] (two's complement, the
    implementation-defined conversion every supported compiler performs). *)

Definition uwrap (w z : Z) : Z := z mod 2 ^ w.
Definition swrap (w z : Z) : Z := (z + 2 ^ (w - 1)) mod 2 ^ w - 2 ^ (w - 1).

Definition u64 : Z -> Z := uwrap 64.
Definition i64 : Z -> Z := swrap 64.
Definition u32 : Z -> Z := uwrap 32.
Definition i32 : Z -> Z := swrap 32.
Definition u16 : Z -> Z := uwrap 16.
Definition i16 : Z -> Z := swrap 16.
Definition u8 : Z -> Z := uwrap 8.
Definition i8 : Z -> Z := swrap 8.

Definition INT64_MAX : Z := 2 ^ 63 - 1.
Definition INT64_MIN : Z := - 2 ^ 63.
Definition is_i64 (z : Z) : bool := (INT64_MIN <=? z) && (z <=? INT64_MAX).
Definition is_u64 (z : Z) : bool := (0 <=? z) && (z <? 2 ^ 64).
Definition is_byte (z : Z) : bool := (0 <=? z) && (z <? 256).

(** C truth values. *)
Definition b2z (b : bool) : Z := if b then 1 else 0.

(** ** Outcomes of a runtime call

    [Panic] is [lpp_panic] (print the reason, exit with status 101); [Undef] an
    operation the C standard leaves undefined (signed overflow, an access outside an
    object); [NoFuel] a loop that was cut off by the model's fuel. *)

Inductive outcome (A : Type) : Type :=
| Ok (a : A)
| Panic (reason : string)
| Undef
| NoFuel.
Arguments Ok {A} a.
Arguments Panic {A} reason.
Arguments Undef {A}.
Arguments NoFuel {A}.

Definition obind {A B} (m : outcome A) (f : A -> outcome B) : outcome B :=
  match m with
  | Ok a => f a
  | Panic r => Panic r
  | Undef => Undef
  | NoFuel => NoFuel
  end.

Declare Scope rt_scope.
Delimit Scope rt_scope with rt.
Notation "'let!' x ':=' m 'in' k" := (obind m (fun x => k))
  (at level 10, x name, m at level 200, k at level 200) : rt_scope.
Notation "'let!' ' p ':=' m 'in' k" := (obind m (fun x => match x with p => k end))
  (at level 10, p pattern, m at level 200, k at level 200) : rt_scope.
#[global] Open Scope rt_scope.

(** A signed 64-bit result that does not fit is undefined behaviour, and so is an [int] that does not. *)
Definition chk64 (z : Z) : outcome Z := if is_i64 z then Ok z else Undef.
Definition chk32 (z : Z) : outcome Z := if (- 2 ^ 31 <=? z) && (z <? 2 ^ 31) then Ok z else Undef.

(** Total correctness of a call: it returns, with a result satisfying [Q]. *)
Definition wp {A} (m : outcome A) (Q : A -> Prop) : Prop :=
  match m with Ok a => Q a | _ => False end.

Lemma wp_ok {A} (a : A) (Q : A -> Prop) : Q a -> wp (Ok a) Q.
Proof. done. Qed.

Lemma wp_bind {A B} (m : outcome A) (f : A -> outcome B) (Q : B -> Prop) :
  wp m (fun a => wp (f a) Q) -> wp (obind m f) Q.
Proof. by destruct m. Qed.

Lemma wp_mono {A} (m : outcome A) (P Q : A -> Prop) :
  wp m P -> (forall a, P a -> Q a) -> wp m Q.
Proof. destruct m; simpl; naive_solver. Qed.

Lemma wp_chk64 z (Q : Z -> Prop) :
  INT64_MIN <= z <= INT64_MAX -> Q z -> wp (chk64 z) Q.
Proof. intros H HQ. unfold chk64, is_i64. rewrite !(proj2 (Z.leb_le _ _)) by lia. done. Qed.

Lemma wp_inv {A} (m : outcome A) (Q : A -> Prop) :
  wp m Q -> exists a, m = Ok a /\ Q a.
Proof. destruct m; simpl; naive_solver. Qed.

(** [m] gives a value with [Q], unless there is no [room] for it: then it may also be undefined. *)
Definition within {A} (room : Prop) (m : outcome A) (Q : A -> Prop) : Prop :=
  match m with Ok a => Q a | Undef => ~ room | _ => False end.

Lemma within_bind {A B} room (m : outcome A) (f : A -> outcome B) (Q : B -> Prop) :
  within room m (fun a => within room (f a) Q) -> within room (obind m f) Q.
Proof. by destruct m. Qed.

Lemma within_mono {A} (room : Prop) (m : outcome A) (P Q : A -> Prop) :
  within room m P -> (forall a, P a -> Q a) -> within room m Q.
Proof. destruct m; cbn; naive_solver. Qed.

Lemma within_less {A} (room room' : Prop) (m : outcome A) (Q : A -> Prop) :
  within room m Q -> (room' -> room) -> within room' m Q.
Proof. destruct m; cbn; tauto. Qed.

Lemma within_wp {A} (room : Prop) (m : outcome A) (Q : A -> Prop) : within room m Q -> room -> wp m Q.
Proof. destruct m; cbn; tauto. Qed.

Lemma wp_within {A} (room : Prop) (m : outcome A) (Q : A -> Prop) : wp m Q -> within room m Q.
Proof. by destruct m. Qed.

(** ** Calls into the reference counter

    List and map operations call [lpp_arc_retain] and [lpp_arc_release] on the
    references they store and drop.  A call of one of them is modelled together with
    the sequence of those calls, in order. *)

Inductive arc_ev : Type :=
| Retain (p : Z)
| Release (p : Z).

#[export] Instance arc_ev_eq_dec : EqDecision arc_ev.
Proof. solve_decision. Defined.

(** ** Strings

    A C string is the list of its bytes (0..255) up to and without the terminating NUL.
    A [const char *] argument is an [option]: [None] is the NULL pointer. *)

Abbreviation cstr := (list Z) (only parsing).

Definition ws (c : Z) : bool := (c =? 32) || (c =? 9) || (c =? 10) || (c =? 13).

(** The byte a pointer into a string reads: the terminator at the end. *)
Definition chr0 (s : cstr) : Z := match s with [] => 0 | c :: _ => c end.

(** No byte of a C string is NUL, and each is an [unsigned char]. *)
Definition cstr_ok (s : cstr) : Prop := Forall (fun c => 1 <= c < 256) s.

(** What a builtin that returns a [Str] hands back: NULL, the shared immortal empty string
    of [lpp_empty_str], or a fresh ARC string owned by the caller. *)
Inductive str_ret : Type :=
| SNull
| SEmpty
| SOwned (s : cstr).

Definition str_val (r : str_ret) : option cstr :=
  match r with SNull => None | SEmpty => Some [] | SOwned s => Some s end.

(** The system allocator as the calls of one operation see it: whether the [k]-th
    allocation of the operation, asking for [n] bytes, is granted. *)
Abbreviation allocator := (nat -> Z -> bool).

(** ** Toolchains

    Several functions have a body per compiler ([#if defined(_MSC_VER)] /
    [__GNUC__ || __clang__] / [#else]); the model takes the branch as an argument. *)
Inductive toolchain : Type := Msvc | Gnu | Portable.

(** ** Tactics and hints *)

Create HintDb rt discriminated.
#[export] Hint Resolve wp_ok : rt.

(** Turn boolean comparisons of the code into propositions. *)
Ltac bool_to_prop :=
  cbv beta in *;
  repeat match goal with
  | H : _ && _ = true |- _ => apply andb_true_iff in H as [? ?]
  | H : _ || _ = false |- _ => apply orb_false_iff in H as [? ?]
  | H : (_ <=? _) = true |- _ => apply Z.leb_le in H
  | H : (_ <=? _) = false |- _ => apply Z.leb_gt in H
  | H : (_ <? _) = true |- _ => apply Z.ltb_lt in H
  | H : (_ <? _) = false |- _ => apply Z.ltb_ge in H
  | H : (_ >=? _) = true |- _ => rewrite Z.geb_leb in H; apply Z.leb_le in H
  | H : (_ >=? _) = false |- _ => rewrite Z.geb_leb in H; apply Z.leb_gt in H
  | H : (_ >? _) = true |- _ => rewrite Z.gtb_ltb in H; apply Z.ltb_lt in H
  | H : (_ >? _) = false |- _ => rewrite Z.gtb_ltb in H; apply Z.ltb_ge in H
  | H : (_ =? _) = true |- _ => apply Z.eqb_eq in H
  | H : (_ =? _) = false |- _ => apply Z.eqb_neq in H
  | H : negb _ = true |- _ => apply negb_true_iff in H
  | H : negb _ = false |- _ => apply negb_false_iff in H
  end.

(** Case split on the first test of the goal. *)
Ltac split_test :=
  match goal with
  | |- context [if ?b then _ else _] => let E := fresh "E" in destruct b eqn:E; bool_to_prop
  end.

(** Reduce the closed powers of two that bounds are written with. *)
Ltac pow2 :=
  unfold INT64_MAX, INT64_MIN in *;
  change (2 ^ 64) with 18446744073709551616 in *;
  change (2 ^ 63) with 9223372036854775808 in *;
  change (2 ^ 32) with 4294967296 in *;
  change (2 ^ 31) with 2147483648 in *;
  change (2 ^ 16) with 65536 in *;
  change (2 ^ 8) with 256 in *.

(** Linear arithmetic with constant divisions and remainders. *)
Ltac dlia := Z.to_euclidean_division_equations; lia.

(** ** Lemmas on machine integers *)

Lemma chk64_ok z : INT64_MIN <= z <= INT64_MAX -> chk64 z = Ok z.
Proof. intros H. unfold chk64, is_i64. by rewrite !(proj2 (Z.leb_le _ _)) by lia. Qed.

Lemma chk32_ok z : - 2 ^ 31 <= z < 2 ^ 31 -> chk32 z = Ok z.
Proof. intros H. unfold chk32. by rewrite (proj2 (Z.leb_le _ _)), (proj2 (Z.ltb_lt _ _)) by lia. Qed.

Lemma chk64_abs z : Z.abs z <= INT64_MAX -> chk64 z = Ok z.
Proof. intros H. apply chk64_ok. pow2. lia. Qed.

Lemma chk64_bad z : INT64_MAX < z -> chk64 z = Undef.
Proof. intros H. unfold chk64, is_i64. by rewrite (proj2 (Z.leb_gt z _)), andb_false_r by lia. Qed.

(** What fits a signed integer of 64 and of 32 bits. *)
Definition fits64 (z : Z) : Prop := INT64_MIN <= z <= INT64_MAX.
Definition fits32 (z : Z) : Prop := - 2 ^ 31 <= z < 2 ^ 31.

Lemma within_chk64 (room : Prop) z (Q : Z -> Prop) : (room -> fits64 z) -> (fits64 z -> Q z) -> within room (chk64 z) Q.
Proof.
  intros Hr Hq. unfold fits64 in *. destruct (decide (INT64_MIN <= z <= INT64_MAX)) as [H|H].
  - rewrite chk64_ok by done. by apply Hq.
  - unfold chk64, is_i64. replace (_ && _) with false; [by intros ?%Hr|]. symmetry. apply andb_false_iff. rewrite !Z.leb_gt. lia.
Qed.

Lemma within_chk32 (room : Prop) z (Q : Z -> Prop) : (room -> fits32 z) -> (fits32 z -> Q z) -> within room (chk32 z) Q.
Proof.
  intros Hr Hq. unfold fits32 in *. destruct (decide (- 2 ^ 31 <= z < 2 ^ 31)) as [H|H].
  - rewrite chk32_ok by done. by apply Hq.
  - unfold chk32. replace (_ && _) with false; [by intros ?%Hr|]. symmetry. apply andb_false_iff. rewrite Z.leb_gt, Z.ltb_ge. lia.
Qed.

Lemma uwrap_range w z : 0 <= w -> 0 <= uwrap w z < 2 ^ w.
Proof. intros. apply Z.mod_pos_bound. apply Z.pow_pos_nonneg; lia. Qed.

Lemma pow2_half w : 0 < w -> 2 ^ w = 2 * 2 ^ (w - 1).
Proof. intros. rewrite <- Z.pow_succ_r by lia. f_equal. lia. Qed.

Lemma swrap_range w z : 0 < w -> - 2 ^ (w - 1) <= swrap w z < 2 ^ (w - 1).
Proof.
  intros. unfold swrap.
  pose proof (Z.mod_pos_bound (z + 2 ^ (w - 1)) (2 ^ w) ltac:(apply Z.pow_pos_nonneg; lia)).
  rewrite (pow2_half w) in * by lia. lia.
Qed.

Lemma uwrap_id w z : 0 <= z < 2 ^ w -> uwrap w z = z.
Proof. apply Z.mod_small. Qed.

Lemma swrap_id w z : 0 < w -> - 2 ^ (w - 1) <= z < 2 ^ (w - 1) -> swrap w z = z.
Proof.
  intros Hw Hz. unfold swrap. rewrite Z.mod_small; [lia|].
  rewrite (pow2_half w) by lia. lia.
Qed.

(** Converting to signed keeps the residue. *)
Lemma swrap_uwrap w z : 0 < w -> swrap w (uwrap w z) = swrap w z.
Proof.
  intros. unfold swrap, uwrap. rewrite Zplus_mod_idemp_l. done.
Qed.

Lemma uwrap_swrap w z : 0 < w -> uwrap w (swrap w z) = uwrap w z.
Proof.
  intros. unfold swrap, uwrap.
  rewrite Zminus_mod_idemp_l. f_equal. lia.
Qed.

Lemma swrap_add w a b : swrap w (swrap w a + b) = swrap w (a + b).
Proof.
  unfold swrap. f_equal.
  replace ((a + 2 ^ (w - 1)) mod 2 ^ w - 2 ^ (w - 1) + b + 2 ^ (w - 1)) with ((a + 2 ^ (w - 1)) mod 2 ^ w + b) by lia.
  rewrite Zplus_mod_idemp_l. f_equal. lia.
Qed.

Lemma uwrap_uwrap w z : uwrap w (uwrap w z) = uwrap w z.
Proof. unfold uwrap. apply Zmod_mod. Qed.

Lemma u64_i64 z : u64 (i64 z) = u64 z.
Proof. by apply uwrap_swrap. Qed.
Lemma i64_u64 z : i64 (u64 z) = i64 z.
Proof. by apply swrap_uwrap. Qed.
Lemma u64_range z : 0 <= u64 z < 2 ^ 64.
Proof. by apply uwrap_range. Qed.
Lemma i64_range z : INT64_MIN <= i64 z <= INT64_MAX.
Proof. pose proof (swrap_range 64 z ltac:(lia)). unfold i64. pow2. simpl (64 - 1) in *. pow2. lia. Qed.
Lemma i64_id z : INT64_MIN <= z <= INT64_MAX -> i64 z = z.
Proof. intros. apply swrap_id; [lia|]. simpl (64 - 1). pow2. lia. Qed.
Lemma u64_id z : 0 <= z < 2 ^ 64 -> u64 z = z.
Proof. apply uwrap_id. Qed.
Lemma u64_u64 z : u64 (u64 z) = u64 z.
Proof. apply uwrap_uwrap. Qed.

(** A signed value and its unsigned image determine each other. *)
Lemma u64_inj a b :
  INT64_MIN <= a <= INT64_MAX -> INT64_MIN <= b <= INT64_MAX -> u64 a = u64 b -> a = b.
Proof. intros Ha Hb H. by rewrite <- (i64_id a), <- (i64_id b), <- i64_u64, H, i64_u64. Qed.

Create Rewrite HintDb rt_norm.
#[export] Hint Rewrite u64_i64 i64_u64 u64_u64 : rt_norm.

(** Bits of wrapped values. *)
Lemma uwrap_testbit w z i :
  0 <= w -> 0 <= i -> Z.testbit (uwrap w z) i = (i <? w) && Z.testbit z i.
Proof.
  intros Hw Hi. unfold uwrap. destruct (Z.ltb_spec i w).
  - by rewrite Z.mod_pow2_bits_low.
  - by rewrite Z.mod_pow2_bits_high.
Qed.

Lemma testbit_high w z i : 0 <= z < 2 ^ w -> 0 <= w <= i -> Z.testbit z i = false.
Proof.
  intros Hz Hi. rewrite <- (uwrap_id w z Hz), uwrap_testbit by lia.
  by rewrite (proj2 (Z.ltb_ge i w)) by lia.
Qed.

(** Bits above [w] being clear bounds a number. *)
Lemma bound_by_testbit w z :
  0 <= w -> 0 <= z -> (forall i, w <= i -> Z.testbit z i = false) -> z < 2 ^ w.
Proof.
  intros Hw Hz H.
  assert (z = uwrap w z) as ->; [|apply uwrap_range; lia].
  apply Z.bits_inj'. intros i Hi. rewrite uwrap_testbit by lia.
  destruct (Z.ltb_spec i w); [done|]. by rewrite H.
Qed.

(** Disjoint bit fields: addition is bitwise or. *)
Lemma add_lor w p q : 0 <= p < 2 ^ w -> 0 <= w -> p + 2 ^ w * q = Z.lor p (Z.shiftl q w).
Proof.
  intros Hp Hw. rewrite Z.shiftl_mul_pow2, (Z.mul_comm q) by lia.
  rewrite <- Z.lxor_lor, Z.add_nocarry_lxor; try done;
    apply Z.bits_inj'; intros i Hi;
    rewrite Z.bits_0, Z.land_spec, (Z.mul_comm _ q), Z.mul_pow2_bits by lia;
    (destruct (Z.ltb_spec i w);
     [rewrite (Z.testbit_neg_r q) by lia; by rewrite andb_false_r|by rewrite (testbit_high w p) by lia]).
Qed.

Lemma land_bound w a b : 0 <= a < 2 ^ w -> 0 <= w -> 0 <= Z.land a b < 2 ^ w.
Proof.
  intros Ha Hw. assert (0 <= Z.land a b) by (apply Z.land_nonneg; lia). split; [done|].
  apply bound_by_testbit; [lia..|]. intros i Hi. rewrite Z.land_spec, (testbit_high w a) by lia. done.
Qed.

Lemma lor_bound w a b : 0 <= a < 2 ^ w -> 0 <= b < 2 ^ w -> 0 <= w -> 0 <= Z.lor a b < 2 ^ w.
Proof.
  intros Ha Hb Hw. assert (0 <= Z.lor a b) by (apply Z.lor_nonneg; lia). split; [done|].
  apply bound_by_testbit; [lia..|]. intros i Hi.
  by rewrite Z.lor_spec, (testbit_high w a), (testbit_high w b) by lia.
Qed.

Lemma lxor_bound w a b : 0 <= a < 2 ^ w -> 0 <= b < 2 ^ w -> 0 <= w -> 0 <= Z.lxor a b < 2 ^ w.
Proof.
  intros Ha Hb Hw. assert (0 <= Z.lxor a b) by (apply Z.lxor_nonneg; lia). split; [done|].
  apply bound_by_testbit; [lia..|]. intros i Hi.
  by rewrite Z.lxor_spec, (testbit_high w a), (testbit_high w b) by lia.
Qed.

(** A finite range check, used by evaluation. *)
Lemma forallb_seqZ (f : Z -> bool) n b : forallb f (seqZ 0 n) = true -> 0 <= b < n -> f b = true.
Proof.
  intros H Hb. rewrite forallb_forall in H. apply H. rewrite <- list_elem_of_In, elem_of_seqZ. lia.
Qed.

Lemma Forall_weaken {A} (P Q : A -> Prop) (l : list A) :
  Forall P l -> (forall x, P x -> Q x) -> Forall Q l.
Proof. intros H HPQ. induction H; auto. Qed.

(** ** Arrays

    A C array is the list of its cells; reading or writing outside it is undefined. *)

Definition rd {A} (v : list A) (i : Z) : outcome A :=
  if i <? 0 then Undef
  else match v !! Z.to_nat i with Some x => Ok x | None => Undef end.

Definition wr {A} (v : list A) (i : Z) (x : A) : outcome (list A) :=
  if (i <? 0) || (i >=? Z.of_nat (length v)) then Undef else Ok (<[Z.to_nat i := x]> v).

Lemma rd_ok {A} (v : list A) i x : 0 <= i -> v !! Z.to_nat i = Some x -> rd v i = Ok x.
Proof. intros Hi Hx. unfold rd. by rewrite (proj2 (Z.ltb_ge i 0)), Hx by lia. Qed.

Lemma wr_ok {A} (v : list A) i x :
  0 <= i < Z.of_nat (length v) -> wr v i x = Ok (<[Z.to_nat i := x]> v).
Proof.
  intros Hi. unfold wr. by rewrite (proj2 (Z.ltb_ge i 0)), Z.geb_leb, (proj2 (Z.leb_gt _ i)) by lia.
Qed.

Lemma wp_rd {A} (v : list A) i (Q : A -> Prop) :
  0 <= i < Z.of_nat (length v) -> (forall x, v !! Z.to_nat i = Some x -> Q x) -> wp (rd v i) Q.
Proof.
  intros Hi HQ. destruct (lookup_lt_is_Some_2 v (Z.to_nat i)) as [x Hx]; [lia|].
  rewrite (rd_ok v i x) by (lia || done). by apply HQ.
Qed.

Lemma wp_wr {A} (v : list A) i x (Q : list A -> Prop) :
  0 <= i < Z.of_nat (length v) -> Q (<[Z.to_nat i := x]> v) -> wp (wr v i x) Q.
Proof. intros Hi HQ. by rewrite wr_ok. Qed.

Lemma obind_ret {A} (m : outcome A) : obind m Ok = m.
Proof. by destruct m. Qed.

(** A sequence of stores at distinct offsets from a base. *)
Fixpoint wr_all {A} (d : list A) (off : Z) (ws : list (Z * A)) : outcome (list A) :=
  match ws with
  | [] => Ok d
  | (i, x) :: r => let! d := wr d (off + i) x in wr_all d off r
  end.

Lemma wr_all_spec {A} (ws : list (Z * A)) : forall (d : list A) off,
  0 <= off -> Forall (fun w => 0 <= w.1 /\ off + w.1 < Z.of_nat (length d)) ws -> NoDup (ws.*1) ->
  exists d', wr_all d off ws = Ok d' /\ length d' = length d /\
    (forall i x, (i, x) ∈ ws -> d' !! Z.to_nat (off + i) = Some x) /\
    (forall j, (forall i x, (i, x) ∈ ws -> Z.to_nat (off + i) <> j) -> d' !! j = d !! j) /\
    (forall P : A -> Prop, Forall P d -> Forall P (ws.*2) -> Forall P d').
Proof.
  induction ws as [|[i x] ws IH]; intros d off Hoff Hin Hnd.
  { exists d. split_and!; try done. intros i x H. by apply elem_of_nil in H. }
  inversion Hin as [|? ? [Hi Hi'] Hin']; subst. cbn in Hnd. apply NoDup_cons in Hnd as [Hni Hnd].
  cbn [fst] in *. cbn [wr_all]. rewrite wr_ok by lia. cbn [obind].
  destruct (IH (<[Z.to_nat (off + i):=x]> d) off) as (d' & He & Hl & Hr & Hf & HP).
  { done. }
  { by rewrite length_insert. }
  { done. }
  rewrite length_insert in Hl. exists d'. split_and!; try done.
  - intros i' x' [[= -> ->]|H]%elem_of_cons; [|by apply Hr].
    rewrite Hf; [by apply list_lookup_insert_eq; lia|].
    intros i' x' H Heq. assert (i' = i) as ->.
    { rewrite Forall_forall in Hin'. apply Hin' in H as Hb. simpl in Hb. lia. }
    apply Hni. apply list_elem_of_fmap. by exists (i, x').
  - intros j Hj. rewrite Hf.
    + apply list_lookup_insert_ne. apply (Hj i x). by left.
    + intros i' x' H. apply (Hj i' x'). by right.
  - intros P Hd Hws. cbn in Hws. apply Forall_cons in Hws as [??]. apply HP; [by apply Forall_insert|done].
Qed.
