(* ===== verification/CInt.v ===== *)
(** * Integer builtins (runtime/lpp_int.c)

    Every function of the file: the unsigned views of [Int], rotations, bit counts and byte
    swaps with the bodies of all three compilers, truncations, the overflow-checked and the
    wrapping arithmetic, and the unsigned number printers and parser.  A value of the L++
    type [Int] is a [Z] in the [int64_t] range. *)

From Stdlib Require Import Btauto.
From stdpp Require Import list.
From S2P Require Import Prelude.

Definition lpp_shr_u (a b : Z) : Z :=
  if (b <? 0) || (b >=? 64) then 0 else i64 (Z.shiftr (u64 a) b).

Definition lpp_shl_u (a b : Z) : Z :=
  if (b <? 0) || (b >=? 64) then 0 else i64 (u64 (Z.shiftl (u64 a) b)).

Definition lpp_div_u (a b : Z) : outcome Z :=
  if b =? 0 then Panic "unsigned integer division by zero"
  else Ok (i64 (u64 a / u64 b)).

Definition lpp_rem_u (a b : Z) : outcome Z :=
  if b =? 0 then Panic "unsigned integer modulo by zero"
  else Ok (i64 (u64 a mod u64 b)).

Definition lpp_lt_u (a b : Z) : Z := b2z (u64 a <? u64 b).
Definition lpp_le_u (a b : Z) : Z := b2z (u64 a <=? u64 b).
Definition lpp_gt_u (a b : Z) : Z := b2z (u64 a >? u64 b).
Definition lpp_ge_u (a b : Z) : Z := b2z (u64 a >=? u64 b).
Definition lpp_min_u (a b : Z) : Z := if u64 a <? u64 b then a else b.
Definition lpp_max_u (a b : Z) : Z := if u64 a >? u64 b then a else b.

(** ** Printing and parsing unsigned numbers *)

Definition digit_char (d : Z) : Z := if d <? 10 then 48 + d else 87 + d.

(** The conversion of [printf] for an unsigned value in a base. *)
Fixpoint digits (base : Z) (fuel : nat) (v : Z) : cstr :=
  match fuel with
  | O => []
  | S f => if v <? base then [digit_char v]
           else digits base f (v / base) ++ [digit_char (v mod base)]
  end.

Definition fmt_llu (v : Z) : cstr := digits 10 20 v.
Definition fmt_llx (v : Z) : cstr := digits 16 16 v.

(** [snprintf(buf, 32, ...)] keeps at most 31 characters. *)
Definition snprintf32 (s : cstr) : cstr := take 31 s.

Definition lpp_u64_to_str (al : allocator) (a : Z) : str_ret :=
  let buf := snprintf32 (fmt_llu (u64 a)) in
  if al 0%nat (Z.of_nat (length buf) + 1) then SOwned buf else SEmpty.

Definition lpp_u64_to_hex (al : allocator) (a : Z) : str_ret :=
  let buf := snprintf32 (fmt_llx (u64 a)) in
  if al 0%nat (Z.of_nat (length buf) + 1) then SOwned buf else SEmpty.

Definition is_digit (c : Z) : bool := (48 <=? c) && (c <=? 57).

Fixpoint skip_ws (s : cstr) : cstr :=
  match s with
  | c :: r => if ws c then skip_ws r else s
  | [] => []
  end.

Fixpoint parse_hex (s : cstr) (val : Z) : Z :=
  match s with
  | [] => val
  | c :: r =>
      if is_digit c then parse_hex r (Z.lor (u64 (Z.shiftl val 4)) (c - 48))
      else if (97 <=? c) && (c <=? 102) then parse_hex r (Z.lor (u64 (Z.shiftl val 4)) (c - 97 + 10))
      else if (65 <=? c) && (c <=? 70) then parse_hex r (Z.lor (u64 (Z.shiftl val 4)) (c - 65 + 10))
      else val
  end.

Fixpoint parse_dec (s : cstr) (val : Z) : Z :=
  match s with
  | [] => val
  | c :: r => if is_digit c then parse_dec r (u64 (val * 10 + (c - 48))) else val
  end.

Definition lpp_str_to_u64 (s : option cstr) : Z :=
  match s with
  | None => 0
  | Some s =>
      let s := skip_ws s in
      i64 (match s with
           | c0 :: c1 :: r =>
               if (c0 =? 48) && ((c1 =? 120) || (c1 =? 88)) then parse_hex r 0 else parse_dec s 0
           | _ => parse_dec s 0
           end)
  end.

(** ** Rotations *)

Definition lpp_rotl64 (a b : Z) : Z :=
  let v := u64 a in
  let shift := Z.land b 63 in
  if shift =? 0 then a
  else i64 (Z.lor (u64 (Z.shiftl v shift)) (Z.shiftr v (64 - shift))).

Definition lpp_rotr64 (a b : Z) : Z :=
  let v := u64 a in
  let shift := Z.land b 63 in
  if shift =? 0 then a
  else i64 (Z.lor (Z.shiftr v shift) (u64 (Z.shiftl v (64 - shift)))).

Definition lpp_rotl32 (a b : Z) : Z :=
  let v := u32 a in
  let shift := Z.land b 31 in
  if shift =? 0 then v
  else u32 (Z.lor (u32 (Z.shiftl v shift)) (Z.shiftr v (32 - shift))).

Definition lpp_rotr32 (a b : Z) : Z :=
  let v := u32 a in
  let shift := Z.land b 31 in
  if shift =? 0 then v
  else u32 (Z.lor (Z.shiftr v shift) (u32 (Z.shiftl v (32 - shift)))).

(** ** Bit counts *)

Fixpoint clz_loop (fuel : nat) (v count : Z) : outcome Z :=
  match fuel with
  | O => NoFuel
  | S f => if Z.land v 0x8000000000000000 =? 0
           then clz_loop f (u64 (Z.shiftl v 1)) (count + 1)
           else Ok count
  end.

(** [_BitScanReverse64] gives the index of the most significant set bit;
    [__builtin_clzll] the number of leading zero bits of a nonzero argument. *)
Definition lpp_clz64 (t : toolchain) (a : Z) : outcome Z :=
  let v := u64 a in
  if v =? 0 then Ok 64
  else match t with
       | Msvc => Ok (63 - Z.log2 v)
       | Gnu => Ok (63 - Z.log2 v)
       | Portable => clz_loop 65 v 0
       end.

Fixpoint ctz_loop (fuel : nat) (v count : Z) : outcome Z :=
  match fuel with
  | O => NoFuel
  | S f => if Z.land v 1 =? 0 then ctz_loop f (Z.shiftr v 1) (count + 1) else Ok count
  end.

Fixpoint ctz_pos (p : positive) : Z :=
  match p with xO q => 1 + ctz_pos q | _ => 0 end.

(** [_BitScanForward64] and [__builtin_ctzll]: index of the least significant set bit. *)
Definition lowest_bit (v : Z) : Z := match v with Zpos p => ctz_pos p | _ => 0 end.

Definition lpp_ctz64 (t : toolchain) (a : Z) : outcome Z :=
  let v := u64 a in
  if v =? 0 then Ok 64
  else match t with
       | Msvc => Ok (lowest_bit v)
       | Gnu => Ok (lowest_bit v)
       | Portable => ctz_loop 65 v 0
       end.

Fixpoint count_ones (n : nat) (v : Z) : Z :=
  match n with
  | O => 0
  | S m => b2z (Z.testbit v 0) + count_ones m (Z.shiftr v 1)
  end.

(** The portable body of the population count, step by step in [uint64_t]. *)
Definition swar1 (v : Z) : Z := u64 (v - Z.land (Z.shiftr v 1) 0x5555555555555555).
Definition swar2 (v : Z) : Z :=
  u64 (Z.land v 0x3333333333333333 + Z.land (Z.shiftr v 2) 0x3333333333333333).
Definition swar3 (v : Z) : Z := Z.land (u64 (v + Z.shiftr v 4)) 0x0F0F0F0F0F0F0F0F.
Definition swar4 (v : Z) : Z := Z.shiftr (u64 (v * 0x0101010101010101)) 56.

(** [__popcnt64] and [__builtin_popcountll] count the one bits. *)
Definition lpp_popcount64 (t : toolchain) (a : Z) : Z :=
  let v := u64 a in
  match t with
  | Msvc => count_ones 64 v
  | Gnu => count_ones 64 v
  | Portable => i64 (swar4 (swar3 (swar2 (swar1 v))))
  end.

(** ** Byte swaps *)

(** Little-endian bytes of a value and back. *)
Fixpoint le_bytes (n : nat) (v : Z) : list Z :=
  match n with O => [] | S m => u8 v :: le_bytes m (Z.shiftr v 8) end.
Fixpoint le_value (bs : list Z) : Z :=
  match bs with [] => 0 | b :: r => Z.lor b (Z.shiftl (le_value r) 8) end.

(** The intrinsics reverse the bytes of their operand. *)
Definition byteswap (n : nat) (v : Z) : Z := le_value (reverse (le_bytes n v)).

Definition lpp_bswap16 (a : Z) : Z :=
  let v := u16 a in u16 (Z.lor (Z.shiftr v 8) (Z.shiftl v 8)).

Definition lpp_bswap32 (t : toolchain) (a : Z) : Z :=
  let v := u32 a in
  match t with
  | Msvc => byteswap 4 v
  | Gnu => byteswap 4 v
  | Portable =>
      Z.lor (Z.lor (Z.lor (Z.land (Z.shiftr v 24) 0xFF) (Z.land (Z.shiftr v 8) 0xFF00))
                   (Z.land (u32 (Z.shiftl v 8)) 0xFF0000))
            (Z.land (u32 (Z.shiftl v 24)) 0xFF000000)
  end.

Definition lpp_bswap64 (t : toolchain) (a : Z) : Z :=
  let v := u64 a in
  i64 (match t with
       | Msvc => byteswap 8 v
       | Gnu => byteswap 8 v
       | Portable =>
           Z.lor (Z.lor (Z.lor (Z.lor (Z.lor (Z.lor (Z.lor
             (u64 (Z.shiftl (Z.land v 0x00000000000000FF) 56))
             (u64 (Z.shiftl (Z.land v 0x000000000000FF00) 40)))
             (u64 (Z.shiftl (Z.land v 0x0000000000FF0000) 24)))
             (u64 (Z.shiftl (Z.land v 0x00000000FF000000) 8)))
             (Z.shiftr (Z.land v 0x000000FF00000000) 8))
             (Z.shiftr (Z.land v 0x0000FF0000000000) 24))
             (Z.shiftr (Z.land v 0x00FF000000000000) 40))
             (Z.shiftr (Z.land v 0xFF00000000000000) 56)
       end).

(** ** Truncations *)

Definition lpp_trunc_u8 (a : Z) : Z := u8 a.
Definition lpp_trunc_u16 (a : Z) : Z := u16 a.
Definition lpp_trunc_u32 (a : Z) : Z := u32 a.
Definition lpp_trunc_i8 (a : Z) : Z := i8 a.
Definition lpp_trunc_i16 (a : Z) : Z := i16 a.
Definition lpp_trunc_i32 (a : Z) : Z := i32 a.

(** ** Checked and wrapping arithmetic

    The GNU builtins compute the infinite-precision result and report whether it fits; the
    other branch tests the operands first and then computes in [int64_t], where a result
    that does not fit is undefined.  [Z.quot] is C's division. *)

Definition builtin_overflow (exact : Z) (msg : string) : outcome Z :=
  if is_i64 exact then Ok exact else Panic msg.

Definition lpp_add_checked (t : toolchain) (a b : Z) : outcome Z :=
  let msg := "integer addition overflow"%string in
  match t with
  | Gnu => builtin_overflow (a + b) msg
  | _ => if ((b >? 0) && (a >? INT64_MAX - b)) || ((b <? 0) && (a <? INT64_MIN - b))
         then Panic msg else chk64 (a + b)
  end.

Definition lpp_sub_checked (t : toolchain) (a b : Z) : outcome Z :=
  let msg := "integer subtraction overflow"%string in
  match t with
  | Gnu => builtin_overflow (a - b) msg
  | _ => if ((b <? 0) && (a >? INT64_MAX + b)) || ((b >? 0) && (a <? INT64_MIN + b))
         then Panic msg else chk64 (a - b)
  end.

Definition lpp_mul_checked (t : toolchain) (a b : Z) : outcome Z :=
  let msg := "integer multiplication overflow"%string in
  match t with
  | Gnu => builtin_overflow (a * b) msg
  | _ =>
      if a >? 0 then
        if b >? 0 then (if a >? Z.quot INT64_MAX b then Panic msg else chk64 (a * b))
        else (if b <? Z.quot INT64_MIN a then Panic msg else chk64 (a * b))
      else
        if b >? 0 then (if a <? Z.quot INT64_MIN b then Panic msg else chk64 (a * b))
        else (if negb (a =? 0) && (b <? Z.quot INT64_MAX a) then Panic msg else chk64 (a * b))
  end.

Definition lpp_add_wrap (a b : Z) : Z := i64 (u64 (u64 a + u64 b)).
Definition lpp_sub_wrap (a b : Z) : Z := i64 (u64 (u64 a - u64 b)).
Definition lpp_mul_wrap (a b : Z) : Z := i64 (u64 (u64 a * u64 b)).

(** ** Checked arithmetic *)

Lemma div_lt_iff x a b : 0 < b -> x / b < a <-> x < a * b.
Proof.
  intros Hb. split; intros H.
  - pose proof (Z.mul_succ_div_gt x b Hb). nia.
  - apply Z.div_lt_upper_bound; lia.
Qed.

Lemma quot_max_pos b : 0 < b -> Z.quot INT64_MAX b = INT64_MAX / b.
Proof. intros. apply Z.quot_div_nonneg; [done|lia]. Qed.

Lemma quot_max_neg a : a < 0 -> Z.quot INT64_MAX a = - (INT64_MAX / (- a)).
Proof.
  intros. replace a with (- - a) at 1 by lia. rewrite Z.quot_opp_r by lia.
  by rewrite quot_max_pos by lia.
Qed.

Lemma quot_min_pos b : 0 < b -> Z.quot INT64_MIN b = - ((INT64_MAX + 1) / b).
Proof.
  intros. replace INT64_MIN with (- (INT64_MAX + 1)) by done. rewrite Z.quot_opp_l by lia.
  by rewrite Z.quot_div_nonneg by done || lia.
Qed.

Lemma is_i64_true z : INT64_MIN <= z <= INT64_MAX -> is_i64 z = true.
Proof. intros. unfold is_i64. by rewrite !(proj2 (Z.leb_le _ _)) by lia. Qed.
Lemma is_i64_false z : ~ INT64_MIN <= z <= INT64_MAX -> is_i64 z = false.
Proof.
  intros. unfold is_i64. destruct (Z.leb_spec INT64_MIN z), (Z.leb_spec z INT64_MAX); lia || done.
Qed.

(** Reading off an overflow test: it fires exactly when the exact result does not fit. *)
Lemma overflow_test (c : bool) (z : Z) (msg : string) :
  (c = true <-> ~ INT64_MIN <= z <= INT64_MAX) ->
  (if c then Panic msg else chk64 z) = builtin_overflow z msg.
Proof.
  intros H. unfold builtin_overflow, chk64. destruct c.
  - rewrite is_i64_false; [done|]. by apply H.
  - rewrite is_i64_true; [done|].
    destruct (Z_le_dec INT64_MIN z), (Z_le_dec z INT64_MAX); try lia;
      (assert (false = true) by (apply H; lia)); done.
Qed.

Lemma add_checked_exact t a b :
  INT64_MIN <= a <= INT64_MAX -> INT64_MIN <= b <= INT64_MAX ->
  lpp_add_checked t a b = builtin_overflow (a + b) "integer addition overflow".
Proof.
  intros Ha Hb. destruct t; [|done|]; apply overflow_test;
    rewrite orb_true_iff, !andb_true_iff, Z.gtb_ltb, !Z.gtb_ltb, !Z.ltb_lt; pow2; lia.
Qed.

Lemma sub_checked_exact t a b :
  INT64_MIN <= a <= INT64_MAX -> INT64_MIN <= b <= INT64_MAX ->
  lpp_sub_checked t a b = builtin_overflow (a - b) "integer subtraction overflow".
Proof.
  intros Ha Hb. destruct t; [|done|]; apply overflow_test;
    rewrite orb_true_iff, !andb_true_iff, Z.gtb_ltb, !Z.gtb_ltb, !Z.ltb_lt; pow2; lia.
Qed.

(** The four sign cases of the guarded multiplication. *)
Lemma mul_guard_exact a b :
  INT64_MIN <= a <= INT64_MAX -> INT64_MIN <= b <= INT64_MAX ->
  lpp_mul_checked Portable a b = builtin_overflow (a * b) "integer multiplication overflow".
Proof.
  intros Ha Hb. unfold lpp_mul_checked.
  destruct (a >? 0) eqn:Ea, (b >? 0) eqn:Eb; bool_to_prop; apply overflow_test.
  - rewrite quot_max_pos, Z.gtb_ltb, Z.ltb_lt, div_lt_iff by lia. pow2. nia.
  - rewrite quot_min_pos, Z.ltb_lt by lia.
    enough ((INT64_MAX + 1) / a < - b <-> a * b < INT64_MIN) by (pow2; nia).
    rewrite div_lt_iff by lia. pow2. nia.
  - rewrite quot_min_pos, Z.ltb_lt by lia.
    enough ((INT64_MAX + 1) / b < - a <-> a * b < INT64_MIN) by (pow2; nia).
    rewrite div_lt_iff by lia. pow2. nia.
  - rewrite andb_true_iff, negb_true_iff, Z.eqb_neq, Z.ltb_lt.
    destruct (decide (a = 0)) as [->|Hz]; [pow2; lia|].
    rewrite quot_max_neg by lia.
    enough (INT64_MAX / (- a) < - b <-> INT64_MAX < a * b) by (pow2; nia).
    rewrite div_lt_iff by lia. pow2. nia.
Qed.

Lemma mul_checked_exact t a b :
  INT64_MIN <= a <= INT64_MAX -> INT64_MIN <= b <= INT64_MAX ->
  lpp_mul_checked t a b = builtin_overflow (a * b) "integer multiplication overflow".
Proof. intros Ha Hb. destruct t; [|done|]; by apply mul_guard_exact. Qed.

(** ** Bit counts: the three bodies agree *)

Lemma land_pow2 v k : 0 <= k -> Z.land v (2 ^ k) = if Z.testbit v k then 2 ^ k else 0.
Proof.
  intros Hk. apply Z.bits_inj'. intros i Hi. rewrite Z.land_spec, Z.pow2_bits_eqb by lia.
  destruct (Z.eqb_spec k i) as [<-|Hne].
  - destruct (Z.testbit v k); [by rewrite Z.pow2_bits_true by lia|by rewrite Z.bits_0].
  - rewrite andb_false_r. destruct (Z.testbit v k); [|by rewrite Z.bits_0].
    by rewrite Z.pow2_bits_false by lia.
Qed.

Lemma clz_loop_S f v count :
  clz_loop (S f) v count =
    if Z.land v (2 ^ 63) =? 0 then clz_loop f (u64 (Z.shiftl v 1)) (count + 1) else Ok count.
Proof. done. Qed.

Lemma ctz_loop_S f v count :
  ctz_loop (S f) v count =
    if Z.land v 1 =? 0 then ctz_loop f (Z.shiftr v 1) (count + 1) else Ok count.
Proof. done. Qed.

Lemma clz_loop_spec n : forall v c,
  0 < v < 2 ^ 64 -> 63 - Z.log2 v <= Z.of_nat n -> clz_loop (S n) v c = Ok (c + (63 - Z.log2 v)).
Proof.
  induction n as [|n IH]; intros v c Hv Hn;
    rewrite clz_loop_S, land_pow2 by lia;
    pose proof (Z.log2_spec v ltac:(lia)) as Hl;
    (assert (Z.log2 v <= 63) by (enough (Z.log2 v < 64) by lia; apply Z.log2_lt_pow2; lia));
    destruct (decide (Z.log2 v = 63)) as [El|El].
  1, 3: rewrite <- El, Z.bit_log2 by lia; rewrite (proj2 (Z.eqb_neq _ _)) by lia; f_equal; lia.
  { lia. }
  rewrite Z.bits_above_log2 by lia. cbn [Z.eqb].
  assert (v < 2 ^ 63) by (apply Z.log2_lt_pow2; lia).
  rewrite Z.shiftl_mul_pow2, u64_id by (change (2 ^ 1) with 2; pow2; lia).
  rewrite IH.
  - rewrite Z.log2_mul_pow2 by lia. f_equal. lia.
  - change (2 ^ 1) with 2. pow2. lia.
  - rewrite Z.log2_mul_pow2 by lia. lia.
Qed.

Lemma ctz_pos_bound p : 0 <= ctz_pos p /\ 2 ^ ctz_pos p <= Zpos p.
Proof.
  induction p as [p IH|p IH|]; cbn [ctz_pos]; try lia.
  rewrite Z.pow_add_r by lia. lia.
Qed.

Lemma ctz_loop_spec p : forall n c,
  ctz_pos p <= Z.of_nat n -> ctz_loop (S n) (Zpos p) c = Ok (c + ctz_pos p).
Proof.
  induction p as [p IH|p IH|]; intros n c Hn; rewrite ctz_loop_S; cbn [ctz_pos].
  - change (Z.land (Zpos p~1) 1 =? 0) with false. f_equal. lia.
  - change (Z.land (Zpos p~0) 1 =? 0) with true. change (Z.shiftr (Zpos p~0) 1) with (Zpos p).
    pose proof (ctz_pos_bound p). cbn [ctz_pos] in Hn. destruct n as [|n]; [lia|].
    rewrite IH by lia. f_equal. lia.
  - change (Z.land 1 1 =? 0) with false. f_equal. lia.
Qed.

(** The index of the lowest set bit: that bit is set and all below it are clear. *)
Lemma ctz_pos_testbit p :
  Z.testbit (Zpos p) (ctz_pos p) = true /\
  forall i, 0 <= i < ctz_pos p -> Z.testbit (Zpos p) i = false.
Proof.
  induction p as [p IH|p IH|]; cbn [ctz_pos]; [by split; [|lia]| |by split; [|lia]].
  destruct IH as [IH1 IH2]. pose proof (ctz_pos_bound p).
  change (Zpos p~0) with (2 * Zpos p). split.
  - by rewrite Z.add_1_l, Z.testbit_even_succ by lia.
  - intros i Hi. destruct (decide (i = 0)) as [->|Hi0]; [apply Z.testbit_even_0|].
    replace i with (Z.succ (i - 1)) by lia. rewrite Z.testbit_even_succ by lia. apply IH2. lia.
Qed.

Lemma clz64_value t a : u64 a <> 0 -> lpp_clz64 t a = Ok (63 - Z.log2 (u64 a)).
Proof.
  intros Hv. unfold lpp_clz64. rewrite (proj2 (Z.eqb_neq _ _)) by done.
  pose proof (u64_range a). destruct t; [done|done|].
  rewrite clz_loop_spec; [done|lia|]. pose proof (Z.log2_nonneg (u64 a)). lia.
Qed.

Lemma ctz64_value t a : u64 a <> 0 -> lpp_ctz64 t a = Ok (lowest_bit (u64 a)).
Proof.
  intros Hv. unfold lpp_ctz64. rewrite (proj2 (Z.eqb_neq _ _)) by done.
  pose proof (u64_range a) as Hr. destruct t; [done|done|].
  destruct (u64 a) as [|p|p] eqn:E; [done| |lia].
  cbn [lowest_bit]. rewrite ctz_loop_spec; [done|].
  pose proof (ctz_pos_bound p). enough (ctz_pos p < 64) by lia.
  apply (Z.pow_lt_mono_r_iff 2); lia.
Qed.

(** *** The SWAR population count, byte by byte *)

Lemma land_split b m x y :
  0 <= b < 2 ^ 8 -> 0 <= m < 2 ^ 8 ->
  Z.land (b + 2 ^ 8 * x) (m + 2 ^ 8 * y) = Z.land b m + 2 ^ 8 * Z.land x y.
Proof.
  intros Hb Hm. rewrite !add_lor by (auto using land_bound with lia).
  apply Z.bits_inj'. intros i Hi.
  rewrite !Z.land_spec, !Z.lor_spec, !Z.land_spec, !Z.shiftl_spec, Z.land_spec by lia.
  destruct (Z.ltb_spec i 8).
  - rewrite !(Z.testbit_neg_r _ (i - 8)) by lia. btauto.
  - rewrite (testbit_high 8 b), (testbit_high 8 m) by lia. btauto.
Qed.

(** A value as the weighted sum of its bytes. *)
Definition bsum (bs : list Z) : Z := foldr (fun b acc => b + 2 ^ 8 * acc) 0 bs.

Lemma bsum_cons b bs : bsum (b :: bs) = b + 2 ^ 8 * bsum bs.
Proof. done. Qed.

Abbreviation bytes_ok := (Forall (fun b : Z => 0 <= b < 2 ^ 8)).

Lemma bsum_bound bs : bytes_ok bs -> 0 <= bsum bs < 2 ^ (8 * Z.of_nat (length bs)).
Proof.
  induction 1 as [|b bs Hb _ IH]; [done|]. rewrite bsum_cons. cbn [length].
  rewrite Nat2Z.inj_succ, Z.mul_succ_r, Z.pow_add_r by lia. pow2. nia.
Qed.

Lemma bsum_exists n : forall v,
  0 <= v < 2 ^ (8 * Z.of_nat n) -> exists bs, length bs = n /\ bytes_ok bs /\ v = bsum bs.
Proof.
  induction n as [|n IH]; intros v Hv.
  { exists []. simpl in *. repeat split; [constructor|]. unfold bsum. simpl. lia. }
  rewrite Nat2Z.inj_succ, Z.mul_succ_r, Z.pow_add_r in Hv by lia.
  destruct (IH (v / 2 ^ 8)) as (bs & Hl & Hok & Hs).
  { split; [apply Z.div_pos; lia|]. apply Z.div_lt_upper_bound; lia. }
  exists (v mod 2 ^ 8 :: bs). split; [simpl; lia|]. split.
  - constructor; [by apply Z.mod_pos_bound|done].
  - rewrite bsum_cons, <- Hs. rewrite Z.add_comm. by apply Z.div_mod.
Qed.

Definition mask (m : Z) (n : nat) : Z := bsum (replicate n m).

Lemma shiftr_split k b x :
  0 <= b < 2 ^ 8 -> 0 <= k <= 8 ->
  Z.shiftr (b + 2 ^ 8 * x) k = (Z.shiftr b k + 2 ^ (8 - k) * (x mod 2 ^ k)) + 2 ^ 8 * Z.shiftr x k.
Proof.
  intros Hb Hk. rewrite !Z.shiftr_div_pow2 by lia.
  assert (E : 2 ^ 8 = 2 ^ k * 2 ^ (8 - k)) by (rewrite <- Z.pow_add_r by lia; f_equal; lia).
  rewrite (Z.div_mod x (2 ^ k)) at 1 by (apply Z.pow_nonzero; lia).
  rewrite E at 1. rewrite <- Z.mul_assoc, (Z.mul_comm (2 ^ k)), Z.div_add by (apply Z.pow_nonzero; lia).
  rewrite E. ring.
Qed.

(** The finite checks on one byte and the bits its neighbour shifts in. *)
Definition byte_check (k m : Z) : bool :=
  forallb (fun b => forallb (fun c =>
    (Z.shiftr b k + 2 ^ (8 - k) * c <? 256)
    && (Z.land (Z.shiftr b k + 2 ^ (8 - k) * c) m =? Z.land (Z.shiftr b k) m))
    (seqZ 0 (2 ^ k))) (seqZ 0 256).

Lemma byte_check_spec k m b c :
  byte_check k m = true -> 0 <= b < 256 -> 0 <= c < 2 ^ k ->
  Z.shiftr b k + 2 ^ (8 - k) * c < 256 /\
  Z.land (Z.shiftr b k + 2 ^ (8 - k) * c) m = Z.land (Z.shiftr b k) m.
Proof.
  unfold byte_check. intros H Hb Hc.
  apply (forallb_seqZ _ _ b) in H; [|done]. apply (forallb_seqZ _ _ c) in H; [|done].
  bool_to_prop. done.
Qed.

(** Shift-and-mask works byte by byte. *)
Lemma shift_mask_bytes k m bs :
  byte_check k m = true -> 0 <= k <= 8 -> 0 <= m < 2 ^ 8 -> bytes_ok bs ->
  Z.land (Z.shiftr (bsum bs) k) (mask m (length bs)) = bsum ((fun b => Z.land (Z.shiftr b k) m) <$> bs).
Proof.
  intros Hc Hk Hm. induction 1 as [|b bs Hb _ IH].
  { unfold bsum, mask. simpl. by rewrite Z.shiftr_0_l. }
  unfold mask in *. cbn [length replicate fmap list_fmap]. rewrite !bsum_cons, shiftr_split by lia.
  destruct (byte_check_spec k m b (bsum bs mod 2 ^ k) Hc) as [H1 H2];
    [done|by apply Z.mod_pos_bound, Z.pow_pos_nonneg; lia|].
  rewrite land_split.
  - rewrite H2. by rewrite IH.
  - split; [|done]. pose proof (Z.mod_pos_bound (bsum bs) (2 ^ k) ltac:(apply Z.pow_pos_nonneg; lia)).
    assert (0 <= Z.shiftr b k) by (apply Z.shiftr_nonneg; lia).
    assert (0 <= 2 ^ (8 - k)) by (apply Z.pow_nonneg; lia). nia.
  - done.
Qed.

Lemma bsum_zip (f g h : Z -> Z) (bs : list Z) :
  (forall b, h b = f b + g b) -> bsum (f <$> bs) + bsum (g <$> bs) = bsum (h <$> bs).
Proof.
  intros H. induction bs as [|b bs IH]; [done|]. cbn [fmap list_fmap] in *.
  rewrite !bsum_cons, H, <- IH. ring.
Qed.

Definition byte1 (b : Z) : Z := b - Z.land (Z.shiftr b 1) 0x55.
Definition byte2 (b : Z) : Z := Z.land b 0x33 + Z.land (Z.shiftr b 2) 0x33.
Definition byte3 (b : Z) : Z := Z.land (b + Z.shiftr b 4) 0x0F.

(** What one byte goes through, checked on all 256 bytes. *)
Definition swar_byte_check : bool :=
  forallb (fun b =>
    let b1 := byte1 b in let b2 := byte2 b1 in
    is_byte b1 && is_byte b2 && (b2 <=? 0x44) && (Z.land b2 0x0F <=? 4)
    && (byte3 b2 =? count_ones 8 b) && (0 <=? byte3 b2) && (byte3 b2 <=? 8)
    && forallb (fun c => Z.land (b2 + (Z.shiftr b2 4 + 16 * c)) 0x0F =? byte3 b2) (seqZ 0 16))
    (seqZ 0 256).

Lemma swar_byte b :
  0 <= b < 256 ->
  let b1 := byte1 b in let b2 := byte2 b1 in
  0 <= b1 < 256 /\ 0 <= b2 <= 0x44 /\ Z.land b2 0x0F <= 4 /\
  byte3 b2 = count_ones 8 b /\ 0 <= byte3 b2 <= 8 /\
  forall c, 0 <= c < 16 -> Z.land (b2 + (Z.shiftr b2 4 + 16 * c)) 0x0F = byte3 b2.
Proof.
  intros Hb. assert (H : swar_byte_check = true) by (vm_compute; done).
  apply (forallb_seqZ _ _ b) in H; [|done]. cbv zeta in *. unfold is_byte in H. bool_to_prop.
  repeat split; try lia.
  intros c Hc. match goal with H : forallb _ _ = true |- _ => apply (forallb_seqZ _ _ c) in H end;
    [by bool_to_prop|done].
Qed.

Lemma count_ones_split n m v :
  count_ones (n + m) v = count_ones n v + count_ones m (Z.shiftr v (Z.of_nat n)).
Proof.
  revert v. induction n as [|n IH]; intros v; [by rewrite Z.shiftr_0_r|].
  cbn [Nat.add count_ones]. rewrite IH, Z.shiftr_shiftr by lia.
  replace (1 + Z.of_nat n) with (Z.of_nat (S n)) by lia. lia.
Qed.

Lemma count_ones_ext n : forall v w,
  (forall i, 0 <= i < Z.of_nat n -> Z.testbit v i = Z.testbit w i) -> count_ones n v = count_ones n w.
Proof.
  induction n as [|n IH]; intros v w H; [done|]. cbn [count_ones]. f_equal.
  - by rewrite H by lia.
  - apply IH. intros i Hi. rewrite !Z.shiftr_spec by lia. apply H. lia.
Qed.

Lemma count_ones_bsum bs :
  bytes_ok bs -> count_ones (8 * length bs) (bsum bs) = foldr Z.add 0 (count_ones 8 <$> bs).
Proof.
  induction 1 as [|b bs Hb _ IH]; [done|].
  rewrite bsum_cons. cbn [length fmap list_fmap foldr].
  replace (8 * S (length bs))%nat with (8 + 8 * length bs)%nat by lia.
  rewrite count_ones_split, <- IH. f_equal.
  - apply count_ones_ext. intros i Hi. change (Z.of_nat 8) with 8 in Hi. rewrite add_lor, Z.lor_spec, Z.shiftl_spec_low by lia.
    by rewrite orb_false_r.
  - change (Z.of_nat 8) with 8. rewrite Z.shiftr_div_pow2, (Z.mul_comm (2 ^ 8)), Z.div_add, Z.div_small by lia. done.
Qed.

Lemma swar1_bytes bs :
  bytes_ok bs -> length bs = 8%nat -> swar1 (bsum bs) = bsum (byte1 <$> bs) /\ bytes_ok (byte1 <$> bs).
Proof.
  intros Hok Hl.
  assert (Hok1 : bytes_ok (byte1 <$> bs)).
  { apply Forall_fmap. eapply Forall_weaken; [done|]. intros b Hb. by apply swar_byte. }
  split; [|done]. unfold swar1.
  change 0x5555555555555555 with (mask 0x55 8). rewrite <- Hl, shift_mask_bytes; [|done..].
  assert (E : bsum bs = bsum (byte1 <$> bs) + bsum ((fun b => Z.land (Z.shiftr b 1) 0x55) <$> bs)).
  { rewrite (bsum_zip _ _ id); [by rewrite list_fmap_id|]. intros b. unfold byte1, id. lia. }
  pose proof (bsum_bound _ Hok1) as Hb. rewrite length_fmap, Hl in Hb.
  rewrite E, u64_id; lia.
Qed.

Lemma land_mask_bytes m bs :
  0 <= m < 2 ^ 8 -> bytes_ok bs ->
  Z.land (bsum bs) (mask m (length bs)) = bsum ((fun b => Z.land b m) <$> bs).
Proof.
  intros Hm. induction 1 as [|b bs Hb _ IH]; [done|].
  unfold mask in *. cbn [length replicate fmap list_fmap]. rewrite !bsum_cons, land_split, IH; done.
Qed.

Lemma swar2_bytes bs :
  bytes_ok bs -> bytes_ok (byte2 <$> bs) -> length bs = 8%nat -> swar2 (bsum bs) = bsum (byte2 <$> bs).
Proof.
  intros Hok Hok2 Hl. unfold swar2.
  change 0x3333333333333333 with (mask 0x33 8). rewrite <- Hl, shift_mask_bytes, land_mask_bytes; [|done..].
  rewrite (bsum_zip _ _ byte2) by done.
  pose proof (bsum_bound _ Hok2) as Hb. rewrite length_fmap, Hl in Hb. by apply u64_id.
Qed.

(** The third step adds the two nibbles of a byte; nothing carries over, because after the
    second step every nibble is at most 4. *)
Definition nib_ok (b : Z) : Prop :=
  0 <= b <= 0x44 /\ Z.land b 0x0F <= 4 /\
  forall c, 0 <= c < 16 -> Z.land (b + (Z.shiftr b 4 + 16 * c)) 0x0F = byte3 b.

Lemma nib_low b : nib_ok b -> b mod 16 <= 4.
Proof.
  intros (_ & H & _). change 0x0F with (Z.ones 4) in H. rewrite Z.land_ones in H by lia. done.
Qed.

Lemma swar3_add bs :
  Forall nib_ok bs -> exists bs',
    length bs' = length bs /\ bytes_ok bs' /\ bsum bs + Z.shiftr (bsum bs) 4 = bsum bs' /\
    bsum ((fun b => Z.land b 0x0F) <$> bs') = bsum (byte3 <$> bs).
Proof.
  induction 1 as [|b bs Hb Hbs (bs' & Hl & Hok & Hs & Hm)].
  { exists []. split_and!; done. }
  set (c := bsum bs mod 2 ^ 4).
  assert (Hc : 0 <= c <= 4).
  { subst c. destruct Hbs as [|b' bs0 Hb' _]; [done|]. rewrite bsum_cons.
    replace (2 ^ 8 * bsum bs0) with ((16 * bsum bs0) * 2 ^ 4) by lia.
    rewrite Z.mod_add by done. pose proof (nib_low b' Hb').
    pose proof (Z.mod_pos_bound b' 16 ltac:(lia)). change (2 ^ 4) with 16. lia. }
  destruct Hb as (Hr & Hlo & Hck).
  assert (Hs4 : 0 <= Z.shiftr b 4 <= 4) by (rewrite Z.shiftr_div_pow2 by lia; change (2 ^ 4) with 16; dlia).
  exists ((b + (Z.shiftr b 4 + 16 * c)) :: bs'). cbn [length fmap list_fmap]. rewrite !bsum_cons. split_and!.
  - lia.
  - constructor; [pow2; lia|done].
  - rewrite shiftr_split, <- Hs by (pow2; lia). fold c. change (2 ^ (8 - 4)) with 16. ring.
  - rewrite Hck, Hm by lia. done.
Qed.

Lemma swar3_bytes bs :
  Forall nib_ok bs -> length bs = 8%nat -> swar3 (bsum bs) = bsum (byte3 <$> bs).
Proof.
  intros Hn Hl. destruct (swar3_add bs Hn) as (bs' & Hl' & Hok & Hs & Hm).
  unfold swar3. pose proof (bsum_bound _ Hok) as Hb. rewrite Hl', Hl in Hb.
  rewrite Hs, u64_id by done. change 0x0F0F0F0F0F0F0F0F with (mask 0x0F 8).
  by rewrite <- Hl, <- Hl', land_mask_bytes by done.
Qed.

(** Multiplying by 0x0101...01 adds all bytes into the top one. *)
Lemma swar4_bytes bs :
  Forall (fun b => 0 <= b <= 8) bs -> length bs = 8%nat -> swar4 (bsum bs) = foldr Z.add 0 bs.
Proof.
  intros Hb Hl. destruct bs as [|a [|b [|c [|d [|e [|f [|g [|h [|]]]]]]]]]; try done.
  repeat match goal with H : Forall _ (_ :: _) |- _ => inversion_clear H end.
  unfold bsum, swar4, u64, uwrap. cbn [foldr]. rewrite Z.shiftr_div_pow2 by lia.
  set (r := a + 2^8 * (a + b) + 2^16 * (a + b + c) + 2^24 * (a + b + c + d)
            + 2^32 * (a + b + c + d + e) + 2^40 * (a + b + c + d + e + f)
            + 2^48 * (a + b + c + d + e + f + g)).
  set (q := (b + c + d + e + f + g + h) + 2^8 * (c + d + e + f + g + h)
            + 2^16 * (d + e + f + g + h) + 2^24 * (e + f + g + h) + 2^32 * (f + g + h)
            + 2^40 * (g + h) + 2^48 * h).
  set (sum := a + (b + (c + (d + (e + (f + (g + (h + 0)))))))).
  assert (0 <= r < 2 ^ 56) by (subst r; lia).
  symmetry. apply (Z.div_unique_pos _ _ _ r); [done|].
  symmetry. apply (Z.mod_unique_pos _ _ q); [subst r sum; lia|subst r q sum; ring].
Qed.

Lemma popcount_swar v : 0 <= v < 2 ^ 64 -> swar4 (swar3 (swar2 (swar1 v))) = count_ones 64 v.
Proof.
  intros Hv. destruct (bsum_exists 8 v Hv) as (bs & Hl & Hok & ->).
  destruct (swar1_bytes bs Hok Hl) as [-> Hok1].
  assert (Hn : Forall nib_ok (byte2 <$> (byte1 <$> bs))).
  { rewrite !Forall_fmap. eapply Forall_weaken; [done|]. intros b Hb. unfold nib_ok. simpl.
    pose proof (swar_byte b Hb). cbv zeta in *. tauto. }
  rewrite swar2_bytes; [|done| |by rewrite length_fmap].
  2: { eapply Forall_weaken; [done|]. intros b (Hb & _). pow2. lia. }
  rewrite swar3_bytes by (done || by rewrite !length_fmap).
  rewrite swar4_bytes; [|rewrite !Forall_fmap; eapply Forall_weaken; [done|]|by rewrite !length_fmap].
  2: { intros b Hb. by apply swar_byte. }
  change 64%nat with (8 * 8)%nat. rewrite <- Hl at 2. rewrite count_ones_bsum by done.
  clear -Hok. induction Hok as [|b bs Hb _ IH]; [done|]. cbn. f_equal; [|done]. by apply swar_byte.
Qed.

(** ** Rotations *)

Lemma rotl_bits w v s i :
  0 <= v < 2 ^ w -> 0 < s < w -> 0 <= i < w ->
  Z.testbit (Z.lor (uwrap w (Z.shiftl v s)) (Z.shiftr v (w - s))) i = Z.testbit v ((i - s) mod w).
Proof.
  intros Hv Hs Hi. rewrite Z.lor_spec, uwrap_testbit, Z.shiftl_spec, Z.shiftr_spec by lia.
  rewrite (proj2 (Z.ltb_lt i w)) by lia. destruct (Z.ltb_spec i s).
  - rewrite (Z.testbit_neg_r v (i - s)) by lia. cbn.
    rewrite <- (Z_mod_plus_full (i - s) 1), Z.mod_small by lia. f_equal. lia.
  - rewrite (testbit_high w v (i + (w - s))) by lia. rewrite Z.mod_small by lia.
    by rewrite orb_false_r.
Qed.

Lemma rotr_bits w v s i :
  0 <= v < 2 ^ w -> 0 < s < w -> 0 <= i < w ->
  Z.testbit (Z.lor (Z.shiftr v s) (uwrap w (Z.shiftl v (w - s)))) i = Z.testbit v ((i + s) mod w).
Proof.
  intros Hv Hs Hi. rewrite Z.lor_comm. replace s with (w - (w - s)) at 2 by lia.
  rewrite rotl_bits by lia. f_equal.
  replace (i - (w - s)) with (i + s + (-1) * w) by lia. by rewrite Z_mod_plus_full.
Qed.

Lemma shift_amount_mod w k x b : w = 2 ^ k -> 0 <= k -> (x + Z.land b (Z.ones k)) mod w = (x + b) mod w.
Proof. intros -> Hk. rewrite Z.land_ones by lia. by rewrite Zplus_mod_idemp_r. Qed.

Lemma shift_amount_sub w k x b : w = 2 ^ k -> 0 <= k -> (x - Z.land b (Z.ones k)) mod w = (x - b) mod w.
Proof. intros -> Hk. rewrite Z.land_ones by lia. by rewrite Zminus_mod_idemp_r. Qed.

Lemma shift_amount_range k b : 0 <= k -> 0 <= Z.land b (Z.ones k) < 2 ^ k.
Proof. intros. rewrite Z.land_ones by lia. apply Z.mod_pos_bound, Z.pow_pos_nonneg; lia. Qed.

Lemma rotl64_bits a b i :
  0 <= i < 64 -> Z.testbit (u64 (lpp_rotl64 a b)) i = Z.testbit (u64 a) ((i - b) mod 64).
Proof.
  intros Hi. unfold lpp_rotl64. change 63 with (Z.ones 6).
  rewrite <- (shift_amount_sub 64 6 i b) by done. pose proof (shift_amount_range 6 b ltac:(lia)).
  change (2 ^ 6) with 64 in *. pose proof (u64_range a). split_test.
  - rewrite E, Z.mod_small by lia. f_equal. lia.
  - rewrite u64_i64. unfold u64 at 1. rewrite uwrap_testbit, (proj2 (Z.ltb_lt i 64)) by lia.
    cbn [andb]. apply rotl_bits; [done|lia|lia].
Qed.

Lemma rotr64_bits a b i :
  0 <= i < 64 -> Z.testbit (u64 (lpp_rotr64 a b)) i = Z.testbit (u64 a) ((i + b) mod 64).
Proof.
  intros Hi. unfold lpp_rotr64. change 63 with (Z.ones 6).
  rewrite <- (shift_amount_mod 64 6 i b) by done. pose proof (shift_amount_range 6 b ltac:(lia)).
  change (2 ^ 6) with 64 in *. pose proof (u64_range a). split_test.
  - rewrite E, Z.mod_small by lia. f_equal. lia.
  - rewrite u64_i64. unfold u64 at 1. rewrite uwrap_testbit, (proj2 (Z.ltb_lt i 64)) by lia.
    cbn [andb]. apply rotr_bits; [done|lia|lia].
Qed.

Lemma rotl32_bits a b i :
  0 <= i < 32 -> Z.testbit (lpp_rotl32 a b) i = Z.testbit (u32 a) ((i - b) mod 32).
Proof.
  intros Hi. unfold lpp_rotl32. change 31 with (Z.ones 5).
  rewrite <- (shift_amount_sub 32 5 i b) by done. pose proof (shift_amount_range 5 b ltac:(lia)).
  change (2 ^ 5) with 32 in *. pose proof (uwrap_range 32 a ltac:(lia)). split_test.
  - rewrite E, Z.mod_small by lia. f_equal. lia.
  - unfold u32 at 1. rewrite uwrap_testbit, (proj2 (Z.ltb_lt i 32)) by lia.
    cbn [andb]. apply rotl_bits; [done|lia|lia].
Qed.

Lemma rotr32_bits a b i :
  0 <= i < 32 -> Z.testbit (lpp_rotr32 a b) i = Z.testbit (u32 a) ((i + b) mod 32).
Proof.
  intros Hi. unfold lpp_rotr32. change 31 with (Z.ones 5).
  rewrite <- (shift_amount_mod 32 5 i b) by done. pose proof (shift_amount_range 5 b ltac:(lia)).
  change (2 ^ 5) with 32 in *. pose proof (uwrap_range 32 a ltac:(lia)). split_test.
  - rewrite E, Z.mod_small by lia. f_equal. lia.
  - unfold u32 at 1. rewrite uwrap_testbit, (proj2 (Z.ltb_lt i 32)) by lia.
    cbn [andb]. apply rotr_bits; [done|lia|lia].
Qed.

(** Two [w]-bit values with the same low bits are equal. *)
Lemma bits_inj_w w x y :
  0 <= w -> 0 <= x < 2 ^ w -> 0 <= y < 2 ^ w ->
  (forall i, 0 <= i < w -> Z.testbit x i = Z.testbit y i) -> x = y.
Proof.
  intros Hw Hx Hy H. apply Z.bits_inj'. intros i Hi. destruct (Z.ltb_spec i w); [by apply H|].
  by rewrite !(testbit_high w) by lia.
Qed.

Lemma rotl64_range a b : INT64_MIN <= a <= INT64_MAX -> INT64_MIN <= lpp_rotl64 a b <= INT64_MAX.
Proof. intros. unfold lpp_rotl64. split_test; [done|apply i64_range]. Qed.

Lemma rotr64_range a b : INT64_MIN <= a <= INT64_MAX -> INT64_MIN <= lpp_rotr64 a b <= INT64_MAX.
Proof. intros. unfold lpp_rotr64. split_test; [done|apply i64_range]. Qed.

Lemma rotr64_rotl64 a b : INT64_MIN <= a <= INT64_MAX -> lpp_rotr64 (lpp_rotl64 a b) b = a.
Proof.
  intros Ha. apply u64_inj; [by apply rotr64_range, rotl64_range|done|].
  apply (bits_inj_w 64); [lia|apply u64_range..|]. intros i Hi.
  rewrite rotr64_bits, rotl64_bits by (try apply Z.mod_pos_bound; lia).
  rewrite Zminus_mod_idemp_l. replace (i + b - b) with i by lia. by rewrite Z.mod_small by lia.
Qed.

Lemma rot32_range x s : 0 <= u32 x < 2 ^ 32 -> 0 <= lpp_rotr32 x s < 2 ^ 32.
Proof. intros. unfold lpp_rotr32. split_test; [done|by apply uwrap_range]. Qed.

Lemma rotr32_rotl32 a b : lpp_rotr32 (lpp_rotl32 a b) b = u32 a.
Proof.
  apply (bits_inj_w 32); [lia|apply rot32_range; by apply uwrap_range|by apply uwrap_range|].
  intros i Hi. pose proof (Z.mod_pos_bound (i + b) 32 ltac:(lia)).
  rewrite rotr32_bits by lia. unfold u32 at 1.
  rewrite uwrap_testbit, (proj2 (Z.ltb_lt _ _)), rotl32_bits by lia. cbn [andb].
  rewrite Zminus_mod_idemp_l. replace (i + b - b) with i by lia. by rewrite Z.mod_small by lia.
Qed.

(** ** Byte swaps *)

Lemma le_bytes_length n v : length (le_bytes n v) = n.
Proof. revert v. induction n; intros; simpl; auto. Qed.

Lemma le_bytes_lookup n : forall v j,
  (j < n)%nat -> le_bytes n v !! j = Some (u8 (Z.shiftr v (8 * Z.of_nat j))).
Proof.
  induction n as [|n IH]; intros v j Hj; [lia|]. destruct j as [|j]; cbn [le_bytes lookup list_lookup].
  - by rewrite Z.shiftr_0_r.
  - rewrite IH by lia. rewrite Z.shiftr_shiftr by lia. do 3 f_equal. lia.
Qed.

Lemma le_bytes_ok n v : bytes_ok (le_bytes n v).
Proof. revert v. induction n; intros; simpl; constructor; [by apply uwrap_range|auto]. Qed.

Lemma le_value_bound bs : bytes_ok bs -> 0 <= le_value bs < 2 ^ (8 * Z.of_nat (length bs)).
Proof.
  intros H. replace (le_value bs) with (bsum bs); [by apply bsum_bound|].
  induction H as [|b bs Hb _ IH]; [done|]. rewrite bsum_cons, add_lor, IH by lia. done.
Qed.

Lemma le_value_bits bs j r :
  bytes_ok bs -> 0 <= r < 8 ->
  Z.testbit (le_value bs) (8 * Z.of_nat j + r) = default false ((fun b => Z.testbit b r) <$> bs !! j).
Proof.
  intros Hok Hr. revert j. induction Hok as [|b bs Hb _ IH]; intros j; [by rewrite Z.bits_0|].
  cbn [le_value]. rewrite Z.lor_spec, Z.shiftl_spec by lia. destruct j as [|j].
  - rewrite Z.add_0_l, (Z.testbit_neg_r _ (r - 8)) by lia. by rewrite orb_false_r.
  - rewrite (testbit_high 8 b) by lia. cbn [orb lookup list_lookup].
    replace (8 * Z.of_nat (S j) + r - 8) with (8 * Z.of_nat j + r) by lia. apply IH.
Qed.

Lemma le_bytes_value n v : 0 <= v < 2 ^ (8 * Z.of_nat n) -> le_value (le_bytes n v) = v.
Proof.
  intros Hv. pose proof (le_value_bound _ (le_bytes_ok n v)) as Hb. rewrite le_bytes_length in Hb.
  apply (bits_inj_w (8 * Z.of_nat n)); [lia|done|done|]. intros i Hi.
  set (j := Z.to_nat (i / 8)). set (r := i mod 8).
  assert (Hj : (j < n)%nat) by (subst j; apply Nat2Z.inj_lt; rewrite Z2Nat.id; dlia).
  assert (E : i = 8 * Z.of_nat j + r) by (subst j r; rewrite Z2Nat.id; dlia).
  assert (0 <= r < 8) by (subst r; dlia).
  rewrite E, le_value_bits, le_bytes_lookup by (done || apply le_bytes_ok). cbn.
  unfold u8. rewrite uwrap_testbit, (proj2 (Z.ltb_lt _ _)), Z.shiftr_spec by lia. cbn. f_equal. lia.
Qed.

Lemma le_value_le_bytes bs : bytes_ok bs -> le_bytes (length bs) (le_value bs) = bs.
Proof.
  induction 1 as [|b bs Hb Hbs IH]; [done|]. cbn [length le_bytes le_value]. f_equal.
  - apply (bits_inj_w 8); [lia|by apply uwrap_range|done|]. intros i Hi. unfold u8.
    rewrite uwrap_testbit, (proj2 (Z.ltb_lt _ _)), Z.lor_spec, Z.shiftl_spec_low by lia.
    by rewrite orb_false_r.
  - rewrite Z.shiftr_lor, Z.shiftr_shiftl_l, (Z.shiftr_div_pow2 b), Z.div_small by lia.
    by rewrite Z.shiftl_0_r, Z.lor_0_l, IH.
Qed.

Lemma byteswap_bound n v : 0 <= byteswap n v < 2 ^ (8 * Z.of_nat n).
Proof.
  unfold byteswap. pose proof (le_value_bound (reverse (le_bytes n v))) as H.
  rewrite length_reverse, le_bytes_length in H. apply H. apply Forall_reverse, le_bytes_ok.
Qed.

Lemma byteswap_involutive n v : 0 <= v < 2 ^ (8 * Z.of_nat n) -> byteswap n (byteswap n v) = v.
Proof.
  intros Hv. unfold byteswap at 1. unfold byteswap.
  rewrite <- (le_bytes_length n v) at 1. rewrite <- length_reverse.
  rewrite le_value_le_bytes by apply Forall_reverse, le_bytes_ok.
  by rewrite reverse_involutive, le_bytes_value.
Qed.

Lemma byteswap_bits n v j r :
  (j < n)%nat -> 0 <= r < 8 ->
  Z.testbit (byteswap n v) (8 * Z.of_nat j + r) = Z.testbit v (8 * Z.of_nat (n - S j) + r).
Proof.
  intros Hj Hr. unfold byteswap. rewrite le_value_bits by (done || apply Forall_reverse, le_bytes_ok).
  rewrite reverse_lookup, le_bytes_length by (rewrite le_bytes_length; lia).
  rewrite le_bytes_lookup by lia. cbn. unfold u8.
  rewrite uwrap_testbit, (proj2 (Z.ltb_lt _ _)), Z.shiftr_spec by lia. cbn. f_equal. lia.
Qed.

(** One byte of a value, selected by a mask. *)
Lemma byte_field_bits v k m :
  0 <= k -> 0 <= m -> Z.testbit (Z.land v (Z.shiftl (Z.ones 8) k)) m = (k <=? m) && (m <? k + 8) && Z.testbit v m.
Proof.
  intros Hk Hm. rewrite Z.land_spec, Z.shiftl_spec by lia. rewrite andb_comm. f_equal.
  destruct (Z.leb_spec k m); cbn [andb]; [|by rewrite Z.testbit_neg_r by lia].
  rewrite Z.testbit_ones_nonneg by lia. destruct (Z.ltb_spec (m - k) 8), (Z.ltb_spec m (k + 8)); lia || done.
Qed.

(** Decide the comparisons of bit indices. *)
Ltac decide_cmp :=
  repeat match goal with
  | |- context [?a <=? ?b] =>
      first [rewrite (proj2 (Z.leb_le a b)) by lia|rewrite (proj2 (Z.leb_gt a b)) by lia]
  | |- context [?a <? ?b] =>
      first [rewrite (proj2 (Z.ltb_lt a b)) by lia|rewrite (proj2 (Z.ltb_ge a b)) by lia]
  end.

Lemma index_byte (n : nat) i :
  0 <= i < 8 * Z.of_nat n -> exists j r, i = 8 * Z.of_nat j + r /\ (j < n)%nat /\ 0 <= r < 8.
Proof.
  intros Hi. exists (Z.to_nat (i / 8)), (i mod 8).
  split_and!; [rewrite Z2Nat.id|apply Nat2Z.inj_lt; rewrite Z2Nat.id| |]; dlia.
Qed.

(** Push a bit test through the operations of the swap expressions and decide it. *)
Ltac swap_bits :=
  repeat first [rewrite Z.lor_spec|rewrite uwrap_testbit by lia|rewrite Z.shiftl_spec by lia
               |rewrite Z.shiftr_spec by lia];
  repeat match goal with
  | |- context [Z.testbit (Z.land ?v (Z.shiftl (Z.ones 8) ?k)) ?m] =>
      first [rewrite (Z.testbit_neg_r (Z.land v (Z.shiftl (Z.ones 8) k)) m) by lia
            |rewrite (byte_field_bits v k m) by lia]
  end;
  decide_cmp; cbn [andb orb]; rewrite ?orb_false_r; try (f_equal; lia).

Lemma bswap64_portable a : u64 (lpp_bswap64 Portable a) = byteswap 8 (u64 a).
Proof.
  unfold lpp_bswap64. rewrite u64_i64. set (v := u64 a).
  change 0x00000000000000FF with (Z.shiftl (Z.ones 8) 0).
  change 0x000000000000FF00 with (Z.shiftl (Z.ones 8) 8).
  change 0x0000000000FF0000 with (Z.shiftl (Z.ones 8) 16).
  change 0x00000000FF000000 with (Z.shiftl (Z.ones 8) 24).
  change 0x000000FF00000000 with (Z.shiftl (Z.ones 8) 32).
  change 0x0000FF0000000000 with (Z.shiftl (Z.ones 8) 40).
  change 0x00FF000000000000 with (Z.shiftl (Z.ones 8) 48).
  change 0xFF00000000000000 with (Z.shiftl (Z.ones 8) 56).
  apply (bits_inj_w 64); [lia|apply u64_range|apply (byteswap_bound 8)|].
  intros i Hi. destruct (index_byte 8 i) as (j & r & -> & Hj & Hr); [lia|].
  rewrite byteswap_bits by lia. unfold u64.
  do 8 (destruct j as [|j]; [cbn [Nat.sub] in *; swap_bits|]). lia.
Qed.

Lemma bswap32_portable a : lpp_bswap32 Portable a = byteswap 4 (u32 a).
Proof.
  unfold lpp_bswap32. set (v := u32 a).
  assert (Hv : 0 <= v < 2 ^ 32) by by apply uwrap_range.
  change 0xFF with (Z.shiftl (Z.ones 8) 0). change 0xFF00 with (Z.shiftl (Z.ones 8) 8).
  change 0xFF0000 with (Z.shiftl (Z.ones 8) 16). change 0xFF000000 with (Z.shiftl (Z.ones 8) 24).
  assert (Hf : forall x k, 0 <= k <= 24 -> 0 <= Z.land x (Z.shiftl (Z.ones 8) k) < 2 ^ 32).
  { intros x k Hk. rewrite Z.land_comm. apply land_bound; [|lia]. rewrite Z.shiftl_mul_pow2 by lia.
    pose proof (Z.pow_le_mono_r 2 k 24 ltac:(lia) ltac:(lia)).
    pose proof (Z.pow_pos_nonneg 2 k ltac:(lia) ltac:(lia)).
    change (Z.ones 8) with 255. change (2 ^ 24) with 16777216 in *. pow2. nia. }
  apply (bits_inj_w 32); [lia|repeat apply lor_bound; try apply Hf; lia|apply (byteswap_bound 4)|].
  intros i Hi. destruct (index_byte 4 i) as (j & r & -> & Hj & Hr); [lia|].
  rewrite byteswap_bits by lia.
  do 4 (destruct j as [|j]; [cbn [Nat.sub] in *; swap_bits; unfold u32; swap_bits|]). lia.
Qed.

(** ** Printing and parsing *)

Lemma digits_length base f v : (length (digits base f v) <= f)%nat.
Proof.
  revert v. induction f as [|f IH]; intros v; [done|]. cbn [digits].
  destruct (v <? base); [simpl; lia|]. rewrite length_app. specialize (IH (v / base)). simpl. lia.
Qed.

Lemma digits_nonempty base f v : f <> O -> digits base f v <> [].
Proof.
  destruct f as [|f]; [done|]. intros _. cbn [digits]. destruct (v <? base); [done|].
  intros H. apply app_eq_nil in H as [_ H]. done.
Qed.

Lemma digits_range base f v : 2 <= base <= 16 -> 0 <= v ->
  Forall (fun c => exists d, 0 <= d < base /\ c = digit_char d) (digits base f v).
Proof.
  intros Hb. revert v. induction f as [|f IH]; intros v Hv; [constructor|]. cbn [digits]. split_test.
  - repeat constructor. exists v. lia.
  - apply Forall_app. split; [apply IH, Z.div_pos; lia|].
    repeat constructor. exists (v mod base). split; [apply Z.mod_pos_bound; lia|done].
Qed.

Lemma snprintf32_digits base f v : (f <= 31)%nat -> snprintf32 (digits base f v) = digits base f v.
Proof. intros Hf. apply take_ge. pose proof (digits_length base f v). lia. Qed.

Lemma digit_char_dec d : 0 <= d < 10 -> is_digit (digit_char d) = true /\ digit_char d - 48 = d.
Proof.
  intros Hd. unfold digit_char, is_digit. decide_cmp. split; [done|lia].
Qed.

(** Parsing the printed digits appends the value, modulo 2^64. *)
Lemma parse_dec_digits f : forall v acc r,
  f <> O -> 0 <= v < 10 ^ Z.of_nat f ->
  parse_dec (digits 10 f v ++ r) acc =
    parse_dec r (u64 (acc * 10 ^ Z.of_nat (length (digits 10 f v)) + v)).
Proof.
  induction f as [|f IH]; intros v acc r Hf Hv; [done|]. cbn [digits]. split_test.
  - cbn [app parse_dec length]. destruct (digit_char_dec v) as [-> ->]; [lia|].
    change (10 ^ Z.of_nat 1) with 10. done.
  - destruct f as [|f]; [change (10 ^ Z.of_nat 1) with 10 in Hv; lia|].
    rewrite Nat2Z.inj_succ, Z.pow_succ_r in Hv by lia.
    rewrite <- app_assoc, IH; [|done|split; [apply Z.div_pos; lia|apply Z.div_lt_upper_bound; lia]].
    cbn [app parse_dec].
    destruct (digit_char_dec (v mod 10)) as [-> ->]; [apply Z.mod_pos_bound; lia|].
    f_equal. rewrite length_app, Nat2Z.inj_add, Z.pow_add_r by lia. change (10 ^ Z.of_nat (length [_])) with 10.
    unfold u64, uwrap. rewrite <- Z.add_mod_idemp_l, Z.mul_mod_idemp_l, Z.add_mod_idemp_l by done.
    f_equal. generalize (Z.div_mod v 10 ltac:(done)).
    generalize (v / 10) (v mod 10). intros q m ->. ring.
Qed.

Lemma hex_step val d : 0 <= d < 16 -> Z.lor (u64 (Z.shiftl val 4)) d = u64 (val * 16 + d).
Proof.
  intros Hd. unfold u64, uwrap. rewrite Z.shiftl_mul_pow2 by lia.
  assert (E : (val * 2 ^ 4) mod 2 ^ 64 = 2 ^ 4 * (val mod 2 ^ 60)).
  { replace (2 ^ 64) with (2 ^ 60 * 2 ^ 4) by done. rewrite Z.mul_mod_distr_r by done. ring. }
  rewrite E, Z.lor_comm. rewrite (Z.mul_comm (2 ^ 4)), <- Z.shiftl_mul_pow2, <- add_lor by lia.
  pose proof (Z.mod_pos_bound val (2 ^ 60) ltac:(done)).
  replace (val * 16 + d) with (d + 2 ^ 4 * (val mod 2 ^ 60) + (val / 2 ^ 60) * 2 ^ 64).
  - rewrite Z_mod_plus_full, (Z.mod_small (d + _)) by lia. done.
  - change (2 ^ 64) with (2 ^ 60 * 16). generalize (Z.div_mod val (2 ^ 60) ltac:(done)).
    generalize (val / 2 ^ 60) (val mod 2 ^ 60). intros q m ->. ring.
Qed.

Lemma parse_hex_digit d r acc :
  0 <= d < 16 -> parse_hex (digit_char d :: r) acc = parse_hex r (u64 (acc * 16 + d)).
Proof.
  intros Hd. rewrite <- hex_step by lia. cbn [parse_hex]. unfold digit_char, is_digit.
  destruct (Z.ltb_spec d 10); decide_cmp; cbn [andb]; do 2 f_equal; lia.
Qed.

Lemma parse_hex_digits f : forall v acc r,
  f <> O -> 0 <= v < 16 ^ Z.of_nat f ->
  parse_hex (digits 16 f v ++ r) acc =
    parse_hex r (u64 (acc * 16 ^ Z.of_nat (length (digits 16 f v)) + v)).
Proof.
  induction f as [|f IH]; intros v acc r Hf Hv; [done|]. cbn [digits]. split_test.
  - cbn [app length]. by rewrite parse_hex_digit by lia.
  - destruct f as [|f]; [change (16 ^ Z.of_nat 1) with 16 in Hv; lia|].
    rewrite Nat2Z.inj_succ, Z.pow_succ_r in Hv by lia.
    rewrite <- app_assoc, IH; [|done|split; [apply Z.div_pos; lia|apply Z.div_lt_upper_bound; lia]].
    cbn [app]. rewrite parse_hex_digit by (apply Z.mod_pos_bound; lia).
    f_equal. rewrite length_app, Nat2Z.inj_add, Z.pow_add_r by lia. change (16 ^ Z.of_nat (length [_])) with 16.
    unfold u64, uwrap. rewrite <- Z.add_mod_idemp_l, Z.mul_mod_idemp_l, Z.add_mod_idemp_l by done.
    f_equal. generalize (Z.div_mod v 16 ltac:(done)).
    generalize (v / 16) (v mod 16). intros q m ->. ring.
Qed.

(** A string of decimal digits is read as decimal: no white space, no 0x prefix. *)
Lemma str_to_u64_digits s :
  Forall (fun c => exists d, 0 <= d < 10 /\ c = digit_char d) s ->
  lpp_str_to_u64 (Some s) = i64 (parse_dec s 0).
Proof.
  intros H. unfold lpp_str_to_u64.
  assert (Hc : forall d, 0 <= d < 10 -> 48 <= digit_char d <= 57).
  { intros d Hd. unfold digit_char. decide_cmp. lia. }
  assert (Hs : skip_ws s = s).
  { destruct H as [|c r (d & Hd & ->) _]; [done|]. cbn [skip_ws]. specialize (Hc d Hd).
    unfold ws. by rewrite !(proj2 (Z.eqb_neq _ _)) by lia. }
  rewrite Hs. f_equal. destruct H as [|c r (d & Hd & ->) H]; [done|].
  destruct H as [|c' r' (d' & Hd' & ->) _]; [done|]. specialize (Hc d' Hd').
  rewrite (proj2 (Z.eqb_neq (digit_char d') 120)), (proj2 (Z.eqb_neq (digit_char d') 88)) by lia.
  by rewrite andb_false_r.
Qed.

Lemma str_to_u64_printed a :
  INT64_MIN <= a <= INT64_MAX -> lpp_str_to_u64 (Some (snprintf32 (fmt_llu (u64 a)))) = a.
Proof.
  intros Ha. pose proof (u64_range a) as Hr. unfold fmt_llu. rewrite snprintf32_digits by lia.
  rewrite str_to_u64_digits by (apply digits_range; lia).
  rewrite <- (app_nil_r (digits _ _ _)), parse_dec_digits; [|done|pow2; change (10 ^ Z.of_nat 20) with 100000000000000000000; lia].
  cbn [parse_dec]. by rewrite Z.mul_0_l, Z.add_0_l, u64_u64, i64_u64, i64_id.
Qed.

Lemma str_to_u64_hex_printed a :
  INT64_MIN <= a <= INT64_MAX ->
  lpp_str_to_u64 (Some ([48; 120] ++ snprintf32 (fmt_llx (u64 a)))) = a.
Proof.
  intros Ha. pose proof (u64_range a) as Hr. unfold fmt_llx. rewrite snprintf32_digits by lia.
  change (i64 (parse_hex (digits 16 16 (u64 a)) 0) = a).
  rewrite <- (app_nil_r (digits _ _ _)), parse_hex_digits; [|done|exact Hr].
  cbn [parse_hex]. by rewrite Z.mul_0_l, Z.add_0_l, u64_u64, i64_u64, i64_id.
Qed.

(** ** The properties of the integer builtins *)

(** C20. the overflow-checked operations return the exact mathematical result when it fits in
    [int64_t] and panic otherwise, with every compiler's body; in particular the hand-written
    guards of the branch without [__builtin_*_overflow] never let an overflowing signed
    operation, which C leaves undefined, be executed. *)
Theorem checked_arith_exact (t : toolchain) (a b : Z) :
  INT64_MIN <= a <= INT64_MAX -> INT64_MIN <= b <= INT64_MAX ->
  lpp_add_checked t a b =
    (if is_i64 (a + b) then Ok (a + b) else Panic "integer addition overflow") /\
  lpp_sub_checked t a b =
    (if is_i64 (a - b) then Ok (a - b) else Panic "integer subtraction overflow") /\
  lpp_mul_checked t a b =
    (if is_i64 (a * b) then Ok (a * b) else Panic "integer multiplication overflow").
Proof.
  intros Ha Hb. split_and!;
    [by apply add_checked_exact|by apply sub_checked_exact|by apply mul_checked_exact].
Qed.

Lemma checked_arith_exact_witness :
  lpp_add_checked Msvc INT64_MAX 1 = Panic "integer addition overflow" /\
  lpp_mul_checked Portable (-1) INT64_MIN = Panic "integer multiplication overflow".
Proof.
  split.
  - exact (proj1 (checked_arith_exact Msvc INT64_MAX 1 ltac:(vm_compute; done) ltac:(vm_compute; done))).
  - exact (proj2 (proj2 (checked_arith_exact Portable (-1) INT64_MIN
                           ltac:(vm_compute; done) ltac:(vm_compute; done)))).
Defined.

(** the bit counts do not depend on the compiler.  Leading zeros: the value lies between
    the powers of two the count says; trailing zeros: the lowest set bit; the population
    count's SWAR body computes the number of one bits. *)
Theorem bit_counts_agree (t : toolchain) (a : Z) :
  (u64 a = 0 -> lpp_clz64 t a = Ok 64 /\ lpp_ctz64 t a = Ok 64) /\
  (u64 a <> 0 ->
     (exists n, lpp_clz64 t a = Ok n /\ 0 <= n < 64 /\ 2 ^ (63 - n) <= u64 a < 2 ^ (64 - n)) /\
     (exists n, lpp_ctz64 t a = Ok n /\ 0 <= n < 64 /\ Z.testbit (u64 a) n = true /\
                forall i, 0 <= i < n -> Z.testbit (u64 a) i = false)) /\
  lpp_popcount64 t a = count_ones 64 (u64 a).
Proof.
  pose proof (u64_range a) as Hr. split_and!.
  - intros Hz. unfold lpp_clz64, lpp_ctz64. by rewrite Hz.
  - intros Hz. pose proof (Z.log2_spec (u64 a) ltac:(lia)) as Hl.
    pose proof (Z.log2_nonneg (u64 a)). assert (Z.log2 (u64 a) < 64) by (apply Z.log2_lt_pow2; lia).
    split.
    + exists (63 - Z.log2 (u64 a)). rewrite clz64_value by done.
      replace (63 - (63 - Z.log2 (u64 a))) with (Z.log2 (u64 a)) by lia.
      replace (64 - (63 - Z.log2 (u64 a))) with (Z.succ (Z.log2 (u64 a))) by lia.
      split_and!; done || lia.
    + exists (lowest_bit (u64 a)). rewrite ctz64_value by done. clear Hl.
      destruct (u64 a) as [|p|p] eqn:E; [done| |lia]. cbn [lowest_bit].
      destruct (ctz_pos_testbit p), (ctz_pos_bound p). split_and!; try done.
      apply (Z.pow_lt_mono_r_iff 2); lia.
  - destruct t; [done|done|]. unfold lpp_popcount64. rewrite popcount_swar by done.
    apply i64_id. assert (H : forall n v, 0 <= count_ones n v <= Z.of_nat n).
    { induction n as [|n IH]; intros v; [done|]. cbn [count_ones]. specialize (IH (Z.shiftr v 1)).
      destruct (Z.testbit v 0); cbn [b2z]; lia. }
    specialize (H 64%nat (u64 a)). pow2. lia.
Qed.

(** Rotations move bit [i - b] to bit [i] modulo the width, for any (also negative or
    oversized) amount, and the right rotation undoes the left one. *)
Theorem rotations_are_cyclic (a b : Z) :
  INT64_MIN <= a <= INT64_MAX ->
  (forall i, 0 <= i < 64 -> Z.testbit (u64 (lpp_rotl64 a b)) i = Z.testbit (u64 a) ((i - b) mod 64)) /\
  lpp_rotr64 (lpp_rotl64 a b) b = a /\
  (forall i, 0 <= i < 32 -> Z.testbit (lpp_rotl32 a b) i = Z.testbit (u32 a) ((i - b) mod 32)) /\
  lpp_rotr32 (lpp_rotl32 a b) b = lpp_trunc_u32 a.
Proof.
  intros Ha. split_and!; auto using rotl64_bits, rotr64_rotl64, rotl32_bits, rotr32_rotl32.
Qed.

Lemma rotations_are_cyclic_witness : lpp_rotr64 (lpp_rotl64 (-2) 71) 71 = -2.
Proof. exact (proj1 (proj2 (rotations_are_cyclic (-2) 71 ltac:(vm_compute; done)))). Defined.

(** Printing an [Int] as an unsigned number and parsing it gives the number back, in
    decimal and (after the 0x prefix) in hexadecimal. *)
Theorem u64_print_parse (al : allocator) (a : Z) :
  INT64_MIN <= a <= INT64_MAX -> (forall k n, al k n = true) ->
  lpp_str_to_u64 (str_val (lpp_u64_to_str al a)) = a /\
  exists hex, lpp_u64_to_hex al a = SOwned hex /\ lpp_str_to_u64 (Some ([48; 120] ++ hex)) = a.
Proof.
  intros Ha Hal. unfold lpp_u64_to_str, lpp_u64_to_hex. rewrite !Hal. split.
  - by apply str_to_u64_printed.
  - eexists. split; [done|]. by apply str_to_u64_hex_printed.
Qed.

Lemma u64_print_parse_witness :
  lpp_str_to_u64 (str_val (lpp_u64_to_str (fun _ _ => true) (-1))) = -1.
Proof.
  exact (proj1 (u64_print_parse (fun _ _ => true) (-1) ltac:(vm_compute; done) ltac:(done))).
Defined.
