(* ===== verification/Buf.v ===== *)
(** * Binary buffers (runtime/lpp_buf.c)

    A buffer is one allocation: an 8-byte [int64_t] size followed by that many bytes.  Its
    model is the pair of the header field and the byte array; a NULL handle is [None].
    Reads and writes go through [rd] and [wr], so an access outside the allocation would be
    [Undef].  The lazily built CRC-32 table is explicit state. *)

From Stdlib Require Import Btauto.
From S2P Require Import Prelude CInt.

Record Buf : Type := mkBuf { bsize : Z; bdata : list Z }.

(** What [lpp_buf_alloc] establishes and every operation keeps. *)
Definition buf_ok (b : Buf) : Prop :=
  bsize b = Z.of_nat (length (bdata b)) /\ bsize b <= INT64_MAX - 8 /\ bytes_ok (bdata b).

(** ** Allocation and bytes *)

Definition lpp_buf_alloc (al : allocator) (size : Z) : outcome (option Buf) :=
  if size <? 0 then Ok None
  else let! total := chk64 (8 + size) in
       if al 0%nat total then Ok (Some (mkBuf size (replicate (Z.to_nat size) 0))) else Ok None.

Definition lpp_buf_len (p : option Buf) : Z :=
  match p with None => 0 | Some b => bsize b end.

Definition lpp_buf_get8 (p : option Buf) (offset : Z) : outcome Z :=
  match p with
  | None => Ok 0
  | Some b => if (offset <? 0) || (offset >=? bsize b) then Ok 0 else rd (bdata b) offset
  end.

Definition lpp_buf_set8 (p : option Buf) (offset value : Z) : outcome (option Buf) :=
  match p with
  | None => Ok None
  | Some b =>
      if (offset <? 0) || (offset >=? bsize b) then Ok (Some b)
      else let! d := wr (bdata b) offset (u8 (Z.land value 0xFF)) in Ok (Some (mkBuf (bsize b) d))
  end.

(** The bounds test [offset < 0 || offset + k > size] of the multi-byte accessors: the
    addition is only evaluated for a nonnegative offset, and is signed. *)
Definition out_of_bounds (offset k size : Z) : outcome bool :=
  if offset <? 0 then Ok true
  else let! e := chk64 (offset + k) in Ok (e >? size).

(** A store through [base = data + offset] after that test. *)
Definition buf_store (p : option Buf) (offset k : Z) (f : list Z -> outcome (list Z)) :
    outcome (option Buf) :=
  match p with
  | None => Ok None
  | Some b =>
      let! oob := out_of_bounds offset k (bsize b) in
      if oob : bool then Ok (Some b)
      else let! d := f (bdata b) in Ok (Some (mkBuf (bsize b) d))
  end.

(** A load after that test; 0 when it fails. *)
Definition buf_load (p : option Buf) (offset k : Z) (f : list Z -> outcome Z) : outcome Z :=
  match p with
  | None => Ok 0
  | Some b =>
      let! oob := out_of_bounds offset k (bsize b) in
      if oob : bool then Ok 0 else f (bdata b)
  end.

(** ** 16-, 32- and 64-bit accessors *)

Definition lpp_buf_set32le (p : option Buf) (offset value : Z) : outcome (option Buf) :=
  buf_store p offset 4 (fun d =>
    let v := u32 value in
    let! d := wr d offset (u8 v) in
    let! d := wr d (offset + 1) (u8 (Z.shiftr v 8)) in
    let! d := wr d (offset + 2) (u8 (Z.shiftr v 16)) in
    wr d (offset + 3) (u8 (Z.shiftr v 24))).

Definition lpp_buf_get32le (p : option Buf) (offset : Z) : outcome Z :=
  buf_load p offset 4 (fun d =>
    let! b0 := rd d offset in let! b1 := rd d (offset + 1) in
    let! b2 := rd d (offset + 2) in let! b3 := rd d (offset + 3) in
    Ok (Z.lor (Z.lor (Z.lor b0 (u32 (Z.shiftl b1 8))) (u32 (Z.shiftl b2 16))) (u32 (Z.shiftl b3 24)))).

Definition lpp_buf_set16le (p : option Buf) (offset value : Z) : outcome (option Buf) :=
  buf_store p offset 2 (fun d =>
    let v := u16 value in
    let! d := wr d offset (u8 v) in
    wr d (offset + 1) (u8 (Z.shiftr v 8))).

Definition lpp_buf_get16le (p : option Buf) (offset : Z) : outcome Z :=
  buf_load p offset 2 (fun d =>
    let! b0 := rd d offset in let! b1 := rd d (offset + 1) in
    Ok (Z.lor b0 (Z.shiftl b1 8))).

Definition lpp_buf_set16be (p : option Buf) (offset value : Z) : outcome (option Buf) :=
  buf_store p offset 2 (fun d =>
    let v := u16 value in
    let! d := wr d offset (u8 (Z.shiftr v 8)) in
    wr d (offset + 1) (u8 v)).

Definition lpp_buf_get16be (p : option Buf) (offset : Z) : outcome Z :=
  buf_load p offset 2 (fun d =>
    let! b0 := rd d offset in let! b1 := rd d (offset + 1) in
    Ok (Z.lor (Z.shiftl b0 8) b1)).

Definition lpp_buf_set32be (p : option Buf) (offset value : Z) : outcome (option Buf) :=
  buf_store p offset 4 (fun d =>
    let v := u32 value in
    let! d := wr d offset (u8 (Z.shiftr v 24)) in
    let! d := wr d (offset + 1) (u8 (Z.shiftr v 16)) in
    let! d := wr d (offset + 2) (u8 (Z.shiftr v 8)) in
    wr d (offset + 3) (u8 v)).

Definition lpp_buf_get32be (p : option Buf) (offset : Z) : outcome Z :=
  buf_load p offset 4 (fun d =>
    let! b0 := rd d offset in let! b1 := rd d (offset + 1) in
    let! b2 := rd d (offset + 2) in let! b3 := rd d (offset + 3) in
    Ok (Z.lor (Z.lor (Z.lor (u32 (Z.shiftl b0 24)) (u32 (Z.shiftl b1 16))) (u32 (Z.shiftl b2 8))) b3)).

(** The loops [for (int i = 0; i < 8; i++)], from iteration [i] on, [n] iterations left. *)
Fixpoint set64le_loop (n : nat) (i v : Z) (d : list Z) (offset : Z) : outcome (list Z) :=
  match n with
  | O => Ok d
  | S m => let! d := wr d (offset + i) (u8 (Z.land (Z.shiftr v (i * 8)) 0xFF)) in
           set64le_loop m (i + 1) v d offset
  end.

Definition lpp_buf_set64le (p : option Buf) (offset value : Z) : outcome (option Buf) :=
  buf_store p offset 8 (fun d => set64le_loop 8 0 (u64 value) d offset).

Fixpoint get64le_loop (n : nat) (i r : Z) (d : list Z) (offset : Z) : outcome Z :=
  match n with
  | O => Ok r
  | S m => let! b := rd d (offset + i) in
           get64le_loop m (i + 1) (Z.lor r (u64 (Z.shiftl b (i * 8)))) d offset
  end.

Definition lpp_buf_get64le (p : option Buf) (offset : Z) : outcome Z :=
  buf_load p offset 8 (fun d => let! r := get64le_loop 8 0 0 d offset in Ok (i64 r)).

Fixpoint set64be_loop (n : nat) (i v : Z) (d : list Z) (offset : Z) : outcome (list Z) :=
  match n with
  | O => Ok d
  | S m => let! d := wr d (offset + (7 - i)) (u8 (Z.land (Z.shiftr v (i * 8)) 0xFF)) in
           set64be_loop m (i + 1) v d offset
  end.

Definition lpp_buf_set64be (p : option Buf) (offset value : Z) : outcome (option Buf) :=
  buf_store p offset 8 (fun d => set64be_loop 8 0 (u64 value) d offset).

Fixpoint get64be_loop (n : nat) (i r : Z) (d : list Z) (offset : Z) : outcome Z :=
  match n with
  | O => Ok r
  | S m => let! b := rd d (offset + (7 - i)) in
           get64be_loop m (i + 1) (Z.lor r (u64 (Z.shiftl b (i * 8)))) d offset
  end.

Definition lpp_buf_get64be (p : option Buf) (offset : Z) : outcome Z :=
  buf_load p offset 8 (fun d => let! r := get64be_loop 8 0 0 d offset in Ok (i64 r)).

(** ** Copies and strings *)

(** [memcpy] of [(size_t)len] bytes between two distinct buffers: undefined unless both
    ranges lie inside their allocation. *)
Definition memcpy (d : list Z) (doff : Z) (s : list Z) (soff len : Z) : outcome (list Z) :=
  if (0 <=? doff) && (doff + u64 len <=? Z.of_nat (length d)) &&
     (0 <=? soff) && (soff + u64 len <=? Z.of_nat (length s))
  then Ok (take (Z.to_nat doff) d ++ take (Z.to_nat (u64 len)) (drop (Z.to_nat soff) s)
             ++ drop (Z.to_nat (doff + u64 len)) d)
  else Undef.

Definition lpp_buf_copy (dst : option Buf) (dst_off : Z) (src : option Buf) (src_off len : Z) :
    outcome (option Buf) :=
  match dst, src with
  | Some d, Some s =>
      let! oob := out_of_bounds dst_off len (bsize d) in
      if oob : bool then Ok dst
      else let! oob := out_of_bounds src_off len (bsize s) in
           if oob : bool then Ok dst
           else let! c := memcpy (bdata d) dst_off (bdata s) src_off len in
                Ok (Some (mkBuf (bsize d) c))
  | _, _ => Ok dst
  end.

Definition lpp_str_len (s : option cstr) : Z :=
  match s with None => 0 | Some s => Z.of_nat (length s) end.

(** The bytes up to the first NUL: what a reader of the returned [char *] sees. *)
Fixpoint until_nul (bs : list Z) : cstr :=
  match bs with [] => [] | b :: r => if b =? 0 then [] else b :: until_nul r end.

Definition lpp_buf_to_str (al : allocator) (p : option Buf) (off len : Z) : outcome str_ret :=
  match p with
  | None => Ok SEmpty
  | Some b =>
      if (off <? 0) || (len <? 0) then Ok SEmpty
      else let! e := chk64 (off + len) in
           if e >? bsize b then Ok SEmpty
           else if al 0%nat (len + 1) then
             let! s := memcpy (replicate (Z.to_nat (len + 1)) 0) 0 (bdata b) off len in
             Ok (SOwned (until_nul (take (Z.to_nat len) s)))
           else Ok SEmpty
  end.

Definition lpp_buf_write_str (p : option Buf) (offset : Z) (str : option cstr) :
    outcome (Z * option Buf) :=
  match p, str with
  | Some b, Some s =>
      let len := Z.of_nat (length s) in
      let! oob := out_of_bounds offset len (bsize b) in
      if oob : bool then Ok (-1, p)
      else let! d := memcpy (bdata b) offset s 0 len in
           let new_end := offset + len in
           Ok (len, Some (mkBuf (if new_end >? bsize b then new_end else bsize b) d))
  | _, _ => Ok (-1, p)
  end.

Definition lpp_buf_read_str (al : allocator) (p : option Buf) (offset len : Z) : outcome str_ret :=
  lpp_buf_to_str al p offset len.

(** ** CRC-32 *)

Record CrcTable : Type := mkCrc { crc32_table : list Z; crc32_table_ready : bool }.

(** The static initial value: a zeroed table, not ready. *)
Definition crc_init : CrcTable := mkCrc (replicate 256 0) false.

Definition crc_shift (crc : Z) : Z :=
  Z.lxor (Z.shiftr crc 1) (if Z.land crc 1 =? 0 then 0 else 0xEDB88320).

Fixpoint crc_entry (n : nat) (crc : Z) : Z :=
  match n with O => crc | S m => crc_entry m (crc_shift crc) end.

Definition crc32_init_table (t : CrcTable) : CrcTable :=
  if crc32_table_ready t then t
  else mkCrc ((fun i => crc_entry 8 i) <$> seqZ 0 256) true.

Fixpoint crc_loop (n : nat) (i : Z) (tbl : list Z) (crc : Z) (d : list Z) (off : Z) : outcome Z :=
  match n with
  | O => Ok crc
  | S m => let! b := rd d (off + i) in
           let! e := rd tbl (Z.land (Z.lxor crc b) 0xFF) in
           crc_loop m (i + 1) tbl (Z.lxor e (Z.shiftr crc 8)) d off
  end.

Definition lpp_buf_crc32 (t : CrcTable) (p : option Buf) (off len : Z) : outcome (Z * CrcTable) :=
  match p with
  | None => Ok (0, t)
  | Some b =>
      if (off <? 0) || (len <? 0) then Ok (0, t)
      else let! e := chk64 (off + len) in
           if e >? bsize b then Ok (0, t)
           else let t := crc32_init_table t in
                let! crc := crc_loop (Z.to_nat len) 0 (crc32_table t) 0xFFFFFFFF (bdata b) off in
                Ok (Z.lxor crc 0xFFFFFFFF, t)
  end.

(** ** Lemmas *)

Lemma out_of_bounds_in offset k size :
  0 <= offset -> 0 <= k -> offset + k <= size -> size <= INT64_MAX ->
  out_of_bounds offset k size = Ok false.
Proof.
  intros H1 H2 H3 H4. unfold out_of_bounds, chk64.
  rewrite (proj2 (Z.ltb_ge _ _)), is_i64_true by (pow2; lia). cbn [obind].
  by rewrite Z.gtb_ltb, (proj2 (Z.ltb_ge _ _)) by lia.
Qed.

Lemma out_of_bounds_out offset k size :
  offset < 0 \/ size < offset + k <= INT64_MAX -> 0 <= k ->
  out_of_bounds offset k size = Ok true.
Proof.
  intros [H|H] Hk; unfold out_of_bounds.
  - by rewrite (proj2 (Z.ltb_lt _ _)) by lia.
  - destruct (Z.ltb_spec offset 0); [done|]. unfold chk64. rewrite is_i64_true by (pow2; lia). cbn [obind].
    by rewrite Z.gtb_ltb, (proj2 (Z.ltb_lt _ _)) by lia.
Qed.

(** A k-byte field was stored: it reads back, the rest of the buffer is as before. *)
Definition stored (b b' : Buf) (offset : Z) (bs : list Z) : Prop :=
  buf_ok b' /\ bsize b' = bsize b /\
  (forall i, (i < length bs)%nat -> bdata b' !! Z.to_nat (offset + Z.of_nat i) = bs !! i) /\
  (forall j, (j < Z.to_nat offset)%nat \/ (Z.to_nat offset + length bs <= j)%nat ->
             bdata b' !! j = bdata b !! j).

Lemma buf_store_stored b offset f bs (order : list Z) :
  buf_ok b -> 0 <= offset -> offset + Z.of_nat (length bs) <= bsize b -> bytes_ok bs ->
  order ≡ₚ seqZ 0 (Z.of_nat (length bs)) ->
  f (bdata b) = wr_all (bdata b) offset ((fun i => (i, default 0 (bs !! Z.to_nat i))) <$> order) ->
  exists b', buf_store (Some b) offset (Z.of_nat (length bs)) f = Ok (Some b') /\ stored b b' offset bs.
Proof.
  intros (Hs & Hm & Hd) Hoff Hle Hbs Hperm Hf. unfold buf_store.
  rewrite out_of_bounds_in by lia. cbn [obind]. rewrite Hf.
  set (ws := (fun i => (i, default 0 (bs !! Z.to_nat i))) <$> order).
  assert (Hk : ws.*1 = order).
  { subst ws. clear. induction order; cbn; by f_equal. }
  destruct (wr_all_spec ws (bdata b) offset) as (d' & -> & Hl & Hr & Hfr & HP).
  { done. }
  { subst ws. apply Forall_fmap, Forall_forall. intros i Hi. rewrite Hperm, elem_of_seqZ in Hi.
    simpl. lia. }
  { rewrite Hk, Hperm. apply NoDup_seqZ. }
  cbn [obind]. eexists. split; [done|]. unfold stored. cbn [bsize bdata]. split_and!.
  - split_and!; cbn [bsize bdata]; [lia|done|]. apply HP; [done|].
    apply Forall_fmap, Forall_fmap, Forall_forall. intros i Hi. simpl.
    destruct (bs !! Z.to_nat i) eqn:E; [|done]. by apply (proj1 (Forall_lookup _ _) Hbs _ _ E).
  - done.
  - intros i Hi. destruct (lookup_lt_is_Some_2 bs i Hi) as [x Hx]. rewrite Hx. apply Hr.
    apply list_elem_of_fmap. exists (Z.of_nat i). rewrite Nat2Z.id, Hx. split; [done|].
    rewrite Hperm, elem_of_seqZ. lia.
  - intros j Hj. apply Hfr. intros i x Hin. apply list_elem_of_fmap in Hin as (i' & [= -> _] & Hin).
    rewrite Hperm, elem_of_seqZ in Hin. lia.
Qed.

(** Reading a stored field back. *)
Lemma stored_rd b b' offset bs i x :
  stored b b' offset bs -> 0 <= offset -> (i < length bs)%nat -> bs !! i = Some x ->
  rd (bdata b') (offset + Z.of_nat i) = Ok x.
Proof. intros (_ & _ & Hr & _) Ho Hi Hx. apply rd_ok; [lia|]. by rewrite Hr. Qed.

Lemma buf_load_in b offset k f :
  buf_ok b -> 0 <= offset -> 0 <= k -> offset + k <= bsize b ->
  buf_load (Some b) offset k f = f (bdata b).
Proof. intros (_ & Hm & _) Ho Hk Hle. unfold buf_load. by rewrite out_of_bounds_in by lia. Qed.

Lemma le_bytes2 v : le_bytes 2 v = [u8 v; u8 (Z.shiftr v 8)].
Proof. done. Qed.
Lemma le_bytes4 v :
  le_bytes 4 v = [u8 v; u8 (Z.shiftr v 8); u8 (Z.shiftr v 16); u8 (Z.shiftr v 24)].
Proof. cbn [le_bytes]. by rewrite !Z.shiftr_shiftr by lia. Qed.
Lemma le_bytes8 v :
  le_bytes 8 v = [u8 v; u8 (Z.shiftr v 8); u8 (Z.shiftr v 16); u8 (Z.shiftr v 24);
                  u8 (Z.shiftr v 32); u8 (Z.shiftr v 40); u8 (Z.shiftr v 48); u8 (Z.shiftr v 56)].
Proof. cbn [le_bytes]. by rewrite !Z.shiftr_shiftr by lia. Qed.

Lemma u8_land v : u8 (Z.land v 0xFF) = u8 v.
Proof. unfold u8, uwrap. change 0xFF with (Z.ones 8). rewrite Z.land_ones by lia. apply Zmod_mod. Qed.

Lemma le_value2 a b : le_value [a; b] = Z.lor a (Z.shiftl b 8).
Proof. cbn [le_value]. by rewrite Z.shiftl_0_l, Z.lor_0_r. Qed.
Lemma le_value4 a b c d :
  le_value [a; b; c; d] = Z.lor (Z.lor (Z.lor a (Z.shiftl b 8)) (Z.shiftl c 16)) (Z.shiftl d 24).
Proof.
  cbn [le_value]. rewrite Z.shiftl_0_l, Z.lor_0_r, !Z.shiftl_lor, !Z.shiftl_shiftl, !Z.lor_assoc by lia. done.
Qed.
Lemma le_value8 a b c d e f g h :
  le_value [a; b; c; d; e; f; g; h] =
    Z.lor (Z.lor (Z.lor (Z.lor (Z.lor (Z.lor (Z.lor a (Z.shiftl b 8)) (Z.shiftl c 16))
      (Z.shiftl d 24)) (Z.shiftl e 32)) (Z.shiftl f 40)) (Z.shiftl g 48)) (Z.shiftl h 56).
Proof.
  cbn [le_value]. rewrite Z.shiftl_0_l, Z.lor_0_r, !Z.shiftl_lor, !Z.shiftl_shiftl, !Z.lor_assoc by lia. done.
Qed.

(** A byte shifted inside the word is not truncated. *)
Lemma shl_byte w b k : 0 <= b < 2 ^ 8 -> 0 <= k -> k + 8 <= w -> uwrap w (Z.shiftl b k) = Z.shiftl b k.
Proof.
  intros Hb Hk Hw. apply uwrap_id. rewrite Z.shiftl_mul_pow2 by lia.
  pose proof (Z.pow_pos_nonneg 2 k ltac:(lia) Hk).
  assert (2 ^ 8 * 2 ^ k <= 2 ^ w) by (rewrite <- Z.pow_add_r by lia; apply Z.pow_le_mono_r; lia). nia.
Qed.

(** Two chains of stores with the same stores are equal. *)
Ltac chain_eq :=
  cbn; rewrite Z.add_0_r; unfold obind;
  repeat (case_match; simplify_eq/=; try done).

Section accessors.
Context (b : Buf) (offset value : Z) (Hb : buf_ok b) (Hoff : 0 <= offset).

Lemma set16le_stored : offset + 2 <= bsize b -> exists b',
  lpp_buf_set16le (Some b) offset value = Ok (Some b') /\ stored b b' offset (le_bytes 2 (u16 value)).
Proof.
  intros H. apply (buf_store_stored b offset _ (le_bytes 2 (u16 value)) [0; 1]);
    [done|done|done|apply le_bytes_ok|done|]. chain_eq.
Qed.

Lemma set16be_stored : offset + 2 <= bsize b -> exists b',
  lpp_buf_set16be (Some b) offset value = Ok (Some b') /\
  stored b b' offset (reverse (le_bytes 2 (u16 value))).
Proof.
  intros H. apply (buf_store_stored b offset _ (reverse (le_bytes 2 (u16 value))) [0; 1]);
    [done|done|done|apply Forall_reverse, le_bytes_ok|done|].
  chain_eq.
Qed.

Lemma set32le_stored : offset + 4 <= bsize b -> exists b',
  lpp_buf_set32le (Some b) offset value = Ok (Some b') /\ stored b b' offset (le_bytes 4 (u32 value)).
Proof.
  intros H. apply (buf_store_stored b offset _ (le_bytes 4 (u32 value)) [0; 1; 2; 3]);
    [done|done|done|apply le_bytes_ok|done|]. rewrite le_bytes4. chain_eq.
Qed.

Lemma set32be_stored : offset + 4 <= bsize b -> exists b',
  lpp_buf_set32be (Some b) offset value = Ok (Some b') /\
  stored b b' offset (reverse (le_bytes 4 (u32 value))).
Proof.
  intros H. apply (buf_store_stored b offset _ (reverse (le_bytes 4 (u32 value))) [0; 1; 2; 3]);
    [done|done|done|apply Forall_reverse, le_bytes_ok|done|]. rewrite le_bytes4. chain_eq.
Qed.

Lemma set64le_stored : offset + 8 <= bsize b -> exists b',
  lpp_buf_set64le (Some b) offset value = Ok (Some b') /\ stored b b' offset (le_bytes 8 (u64 value)).
Proof.
  intros H. apply (buf_store_stored b offset _ (le_bytes 8 (u64 value)) (seqZ 0 8));
    [done|done|done|apply le_bytes_ok|done|]. rewrite le_bytes8.
  cbn [set64le_loop]. rewrite !u8_land, Z.shiftr_0_r. done.
Qed.

Lemma set64be_stored : offset + 8 <= bsize b -> exists b',
  lpp_buf_set64be (Some b) offset value = Ok (Some b') /\
  stored b b' offset (reverse (le_bytes 8 (u64 value))).
Proof.
  intros H. apply (buf_store_stored b offset _ (reverse (le_bytes 8 (u64 value))) (reverse (seqZ 0 8)));
    [done|done|done|apply Forall_reverse, le_bytes_ok|apply reverse_Permutation|]. rewrite le_bytes8.
  cbn [set64be_loop]. rewrite !u8_land, Z.shiftr_0_r. done.
Qed.

End accessors.

(** ** Reading a field back *)

Section read_back.
Context (b b' : Buf) (offset : Z) (Hoff : 0 <= offset).

Lemma stored_loads bs :
  stored b b' offset bs ->
  forall k x, 0 <= k -> bs !! Z.to_nat k = Some x -> rd (bdata b') (offset + k) = Ok x.
Proof.
  intros H k x Hk Hx. rewrite <- (Z2Nat.id k) by done.
  eapply stored_rd; [done|done|by eapply lookup_lt_Some|done].
Qed.

Lemma stored_load_in bs k f :
  stored b b' offset bs -> 0 <= k -> offset + k <= bsize b ->
  buf_load (Some b') offset k f = f (bdata b').
Proof. intros (Hok & Hsz & _) Hk Hle. apply buf_load_in; [done|done|done|lia]. Qed.

Lemma get16_value x y :
  bytes_ok [x; y] -> stored b b' offset [x; y] -> offset + 2 <= bsize b ->
  lpp_buf_get16le (Some b') offset = Ok (le_value [x; y]) /\
  lpp_buf_get16be (Some b') offset = Ok (le_value [y; x]).
Proof.
  intros Hok H Hle. pose proof (stored_loads _ H) as Hr.
  unfold lpp_buf_get16le, lpp_buf_get16be. rewrite !(stored_load_in _ 2 _ H) by lia.
  pose proof (Hr 0 x ltac:(done) eq_refl) as Hr0. rewrite Z.add_0_r in Hr0.
  rewrite Hr0, (Hr 1 y) by done. cbn [obind].
  rewrite !le_value2, (Z.lor_comm y). done.
Qed.

Lemma get32_value x y z w :
  bytes_ok [x; y; z; w] -> stored b b' offset [x; y; z; w] -> offset + 4 <= bsize b ->
  lpp_buf_get32le (Some b') offset = Ok (le_value [x; y; z; w]) /\
  lpp_buf_get32be (Some b') offset = Ok (le_value [w; z; y; x]).
Proof.
  intros Hok H Hle. pose proof (stored_loads _ H) as Hr.
  repeat match goal with H : Forall _ (_ :: _) |- _ => inversion_clear H end.
  unfold lpp_buf_get32le, lpp_buf_get32be. rewrite !(stored_load_in _ 4 _ H) by lia.
  pose proof (Hr 0 x ltac:(done) eq_refl) as Hr0. rewrite Z.add_0_r in Hr0.
  rewrite Hr0, (Hr 1 y), (Hr 2 z), (Hr 3 w) by done. cbn [obind].
  unfold u32. rewrite !shl_byte, !le_value4 by lia. split; [done|].
  f_equal. apply Z.bits_inj'. intros i Hi. rewrite !Z.lor_spec. btauto.
Qed.

Lemma get64_value x0 x1 x2 x3 x4 x5 x6 x7 :
  bytes_ok [x0; x1; x2; x3; x4; x5; x6; x7] ->
  stored b b' offset [x0; x1; x2; x3; x4; x5; x6; x7] -> offset + 8 <= bsize b ->
  lpp_buf_get64le (Some b') offset = Ok (i64 (le_value [x0; x1; x2; x3; x4; x5; x6; x7])) /\
  lpp_buf_get64be (Some b') offset = Ok (i64 (le_value [x7; x6; x5; x4; x3; x2; x1; x0])).
Proof.
  intros Hok H Hle. pose proof (stored_loads _ H) as Hr.
  repeat match goal with H : Forall _ (_ :: _) |- _ => inversion_clear H end.
  unfold lpp_buf_get64le, lpp_buf_get64be. rewrite !(stored_load_in _ 8 _ H) by lia.
  cbn [get64le_loop get64be_loop].
  repeat match goal with |- context [offset + ?k] => progress (let k' := eval vm_compute in k in change k with k') end.
  rewrite (Hr 0 x0), (Hr 1 x1), (Hr 2 x2), (Hr 3 x3), (Hr 4 x4),
    (Hr 5 x5), (Hr 6 x6), (Hr 7 x7) by done. cbn [obind].
  repeat match goal with |- context [Z.shiftl _ ?k] => progress (let k' := eval vm_compute in k in change k with k') end.
  unfold u64. rewrite !shl_byte, !Z.shiftl_0_r, !Z.lor_0_l, !le_value8 by lia. done.
Qed.

End read_back.

(** ** CRC-32: table-driven equals bit by bit *)

(** The reference: shift in every bit of every byte. *)
Definition crc_bitwise (crc : Z) (bs : list Z) : Z :=
  foldl (fun c b => crc_entry 8 (Z.lxor c b)) crc bs.

Lemma land_1 v : Z.land v 1 = if Z.testbit v 0 then 1 else 0.
Proof. change 1 with (2 ^ 0) at 1. rewrite land_pow2 by lia. done. Qed.

Lemma crc_shift_bit v : crc_shift v = Z.lxor (Z.shiftr v 1) (if Z.testbit v 0 then 0xEDB88320 else 0).
Proof. unfold crc_shift. rewrite land_1. by destruct (Z.testbit v 0). Qed.

(** One step is linear over exclusive or, hence so are eight. *)
Lemma crc_shift_lxor a b : crc_shift (Z.lxor a b) = Z.lxor (crc_shift a) (crc_shift b).
Proof.
  rewrite !crc_shift_bit, Z.shiftr_lxor, Z.lxor_spec. apply Z.bits_inj'. intros i Hi.
  rewrite !Z.lxor_spec. destruct (Z.testbit a 0), (Z.testbit b 0); cbn [xorb]; rewrite ?Z.bits_0; btauto.
Qed.

Lemma crc_entry_lxor n : forall a b, crc_entry n (Z.lxor a b) = Z.lxor (crc_entry n a) (crc_entry n b).
Proof. induction n as [|n IH]; intros; [done|]. cbn [crc_entry]. by rewrite crc_shift_lxor, IH. Qed.

Lemma crc_shift_bound v : 0 <= v < 2 ^ 32 -> 0 <= crc_shift v < 2 ^ 32.
Proof.
  intros Hv. rewrite crc_shift_bit. apply lxor_bound; [|destruct (Z.testbit v 0); done|lia].
  rewrite Z.shiftr_div_pow2 by lia. change (2 ^ 1) with 2. dlia.
Qed.

Lemma crc_entry_bound n : forall v, 0 <= v < 2 ^ 32 -> 0 <= crc_entry n v < 2 ^ 32.
Proof. induction n as [|n IH]; intros v Hv; [done|]. apply IH. by apply crc_shift_bound. Qed.

(** A value whose low bits are zero is only shifted. *)
Lemma crc_entry_high n : forall v, crc_entry n (Z.shiftl v (Z.of_nat n)) = v.
Proof.
  induction n as [|n IH]; intros v; [by rewrite Z.shiftl_0_r|]. cbn [crc_entry].
  rewrite crc_shift_bit, Z.shiftl_spec_low, Z.lxor_0_r, Z.shiftr_shiftl_l by lia.
  replace (Z.of_nat (S n) - 1) with (Z.of_nat n) by lia. apply IH.
Qed.

Lemma split_low8 v : v = Z.lxor (Z.land v 0xFF) (Z.shiftl (Z.shiftr v 8) 8).
Proof.
  change 0xFF with (Z.ones 8). apply Z.bits_inj'. intros i Hi.
  rewrite Z.lxor_spec, Z.land_spec, Z.testbit_ones_nonneg, Z.shiftl_spec by lia.
  destruct (Z.ltb_spec i 8).
  - rewrite (Z.testbit_neg_r _ (i - 8)) by lia. by rewrite andb_true_r, xorb_false_r.
  - rewrite Z.shiftr_spec by lia. replace (i - 8 + 8) with i by lia. by rewrite andb_false_r.
Qed.

Lemma crc_table_step crc b :
  0 <= crc -> 0 <= b < 2 ^ 8 ->
  crc_entry 8 (Z.lxor crc b) = Z.lxor (crc_entry 8 (Z.land (Z.lxor crc b) 0xFF)) (Z.shiftr crc 8).
Proof.
  intros Hc Hb. rewrite (split_low8 (Z.lxor crc b)) at 1. rewrite crc_entry_lxor.
  f_equal. change 8 with (Z.of_nat 8) at 2. rewrite crc_entry_high, Z.shiftr_lxor.
  rewrite (Z.shiftr_div_pow2 b), Z.div_small, Z.lxor_0_r by lia. done.
Qed.

(** The table is either untouched or complete. *)
Definition crc_inv (t : CrcTable) : Prop :=
  crc32_table_ready t = true -> crc32_table t = (fun i => crc_entry 8 i) <$> seqZ 0 256.

Lemma crc32_init_table_done t :
  crc_inv t -> crc32_table (crc32_init_table t) = (fun i => crc_entry 8 i) <$> seqZ 0 256 /\
               crc32_table_ready (crc32_init_table t) = true.
Proof.
  intros H. unfold crc32_init_table. destruct (crc32_table_ready t) eqn:E; [|done]. by split; [apply H|].
Qed.

Lemma crc_table_rd i :
  0 <= i < 256 -> rd ((fun i => crc_entry 8 i) <$> seqZ 0 256) i = Ok (crc_entry 8 i).
Proof.
  intros Hi. apply rd_ok; [lia|].
  rewrite list_lookup_fmap, lookup_seqZ_lt, Z2Nat.id by lia. done.
Qed.

Lemma crc_loop_spec n : forall i crc d off,
  0 <= off -> 0 <= i -> off + i + Z.of_nat n <= Z.of_nat (length d) -> bytes_ok d -> 0 <= crc < 2 ^ 32 ->
  crc_loop n i ((fun i => crc_entry 8 i) <$> seqZ 0 256) crc d off =
    Ok (crc_bitwise crc (take n (drop (Z.to_nat (off + i)) d))).
Proof.
  induction n as [|n IH]; intros i crc d off Ho Hi Hle Hd Hc; [done|]. cbn [crc_loop].
  destruct (lookup_lt_is_Some_2 d (Z.to_nat (off + i))) as [b Hb]; [lia|].
  rewrite (rd_ok d _ b) by (done || lia). cbn [obind].
  assert (Hbr : 0 <= b < 2 ^ 8) by (eapply (proj1 (Forall_lookup _ _) Hd); done).
  assert (0 <= Z.land (Z.lxor crc b) 0xFF < 256).
  { change 0xFF with (Z.ones 8). rewrite Z.land_ones by lia. by apply Z.mod_pos_bound. }
  rewrite crc_table_rd by done. cbn [obind]. rewrite <- crc_table_step by lia.
  rewrite IH; [|lia|lia|lia|done|].
  2: { apply crc_entry_bound, lxor_bound; [done|pow2; lia|lia]. }
  rewrite (drop_S d b (Z.to_nat (off + i))) by done. cbn [take crc_bitwise foldl].
  replace (Z.to_nat (off + (i + 1))) with (S (Z.to_nat (off + i))) by lia. done.
Qed.

(** ** The standard: division of polynomials over GF(2)

    IEEE 802.3 defines the CRC by long division, without tables, shifts of a register or
    reflected constants: the bits of the message are the coefficients of a polynomial, highest
    power first, each byte sent with its least significant bit first; the first 32 of them are
    complemented and 32 zeros appended; the remainder by the generator is complemented, its
    highest coefficient being the lowest bit of the result. *)

(** [x^32 + x^26 + x^23 + x^22 + x^16 + x^12 + x^11 + x^10 + x^8 + x^7 + x^5 + x^4 + x^2 + x + 1]. *)
Definition generator : list nat := [32; 26; 23; 22; 16; 12; 11; 10; 8; 7; 5; 4; 2; 1; 0]%nat.
Definition generator_bits : list bool := (fun e => existsb (Nat.eqb e) generator) <$> reverse (seq 0 33).

(** The sum, coefficient by coefficient, of [g] and the leading terms of [l]. *)
Fixpoint add_bits (g l : list bool) : list bool :=
  match g, l with
  | a :: g, b :: l => xorb a b :: add_bits g l
  | _, _ => l
  end.
(** Long division, [n] steps. *)
Fixpoint gf2_mod (n : nat) (dividend : list bool) : list bool :=
  match n, dividend with
  | S n, b :: _ => gf2_mod n (tail (if b then add_bits generator_bits dividend else dividend))
  | _, _ => dividend
  end.

(** The [k] lowest bits of [v], the lowest first, and the number they write. *)
Fixpoint bits_of (k : nat) (v : Z) : list bool :=
  match k with O => [] | S k => Z.testbit v 0 :: bits_of k (Z.shiftr v 1) end.
Fixpoint bits_value (l : list bool) : Z :=
  match l with [] => 0 | b :: l => Z.b2z b + 2 * bits_value l end.

Definition wire_bits (bs : list Z) : list bool := bs ≫= bits_of 8.
Definition crc32_ieee (bs : list Z) : Z :=
  let message := wire_bits bs in
  let dividend := add_bits (replicate 32 true) (message ++ replicate 32 false) in
  bits_value (negb <$> gf2_mod (length message) dividend).

Lemma bits_of_length k : forall v, length (bits_of k v) = k.
Proof. induction k as [|k IH]; intros v; [done|]. cbn. by rewrite IH. Qed.

Lemma add_bits_length g : forall l, length (add_bits g l) = length l.
Proof. induction g as [|a g IH]; intros [|b l]; try done. cbn. by rewrite IH. Qed.

Lemma bits_of_lxor k : forall a b l, (k <= length l)%nat ->
  add_bits (bits_of k a) (add_bits (bits_of k b) l) = add_bits (bits_of k (Z.lxor a b)) l.
Proof.
  induction k as [|k IH]; intros a b l Hl; [done|]. destruct l as [|c l]; [done|]. cbn [bits_of add_bits length] in *.
  rewrite IH, Z.shiftr_lxor, Z.lxor_spec by lia. f_equal. by destruct (Z.testbit a 0), (Z.testbit b 0), c.
Qed.

(** The bit above the value adds nothing. *)
Lemma bits_of_more k : forall v l, 0 <= v < 2 ^ Z.of_nat k -> add_bits (bits_of (S k) v) l = add_bits (bits_of k v) l.
Proof.
  induction k as [|k IH]; intros v l Hv.
  - assert (v = 0) as -> by (cbn in Hv; lia). destruct l as [|[] l]; done.
  - destruct l as [|c l]; [done|]. rewrite Nat2Z.inj_succ, Z.pow_succ_r in Hv by lia.
    change (bits_of (S (S k)) v) with (Z.testbit v 0 :: bits_of (S k) (Z.shiftr v 1)). cbn [add_bits].
    rewrite IH; [done|]. rewrite Z.shiftr_div_pow2 by lia. change (2 ^ 1) with 2. dlia.
Qed.

Lemma bits_value_of k : forall v, 0 <= v < 2 ^ Z.of_nat k -> bits_value (bits_of k v) = v.
Proof.
  induction k as [|k IH]; intros v Hv; [cbn in *; lia|]. rewrite Nat2Z.inj_succ, Z.pow_succ_r in Hv by lia.
  cbn [bits_of bits_value]. rewrite Z.bit0_odd. pose proof (Zdiv2_odd_eqn v) as Ho. rewrite IH.
  - rewrite <- Z.div2_spec. unfold Z.b2z. destruct (Z.odd v); lia.
  - rewrite <- Z.div2_spec. destruct (Z.odd v); lia.
Qed.

Lemma bits_of_not k : forall v, negb <$> bits_of k v = bits_of k (Z.lxor v (Z.ones (Z.of_nat k))).
Proof.
  induction k as [|k IH]; intros v; [done|]. cbn [bits_of fmap list_fmap]. rewrite IH, Z.lxor_spec.
  rewrite Z.ones_spec_low by lia. rewrite xorb_true_r, Z.shiftr_lxor. f_equal. do 2 f_equal.
  rewrite !Z.ones_equiv, Z.shiftr_div_pow2, Nat2Z.inj_succ, Z.pow_succ_r by lia. change (2 ^ 1) with 2. dlia.
Qed.

Lemma add_zeros k : forall v, add_bits (bits_of k v) (replicate k false) = bits_of k v.
Proof. induction k as [|k IH]; intros v; [done|]. cbn. by rewrite IH, xorb_false_r. Qed.

(** The register holds the reflected generator without its leading term. *)
Lemma generator_tail : generator_bits = true :: bits_of 32 0xEDB88320.
Proof. vm_compute. done. Qed.

Lemma gf2_step n c m l : 0 <= c < 2 ^ 32 -> (32 <= length l)%nat ->
  gf2_mod (S n) (add_bits (bits_of 32 c) (m :: l)) = gf2_mod n (add_bits (bits_of 32 (crc_shift (Z.lxor c (Z.b2z m)))) l).
Proof.
  intros Hc Hl. change (bits_of 32 c) with (Z.testbit c 0 :: bits_of 31 (Z.shiftr c 1)). cbn [add_bits gf2_mod].
  assert (0 <= Z.shiftr c 1 < 2 ^ Z.of_nat 31) as Hc'.
  { rewrite Z.shiftr_div_pow2 by lia. change (2 ^ 1) with 2. change (2 ^ Z.of_nat 31) with 2147483648. change (2 ^ 32) with 4294967296 in Hc. dlia. }
  rewrite <- bits_of_more by done. rewrite crc_shift_bit, Z.lxor_spec, Z.b2z_bit0, Z.shiftr_lxor.
  assert (Z.shiftr (Z.b2z m) 1 = 0) as -> by (by destruct m). rewrite Z.lxor_0_r. f_equal.
  destruct (xorb (Z.testbit c 0) m); cbn [tail]; [|by rewrite Z.lxor_0_r].
  rewrite generator_tail. cbn [add_bits tail]. rewrite bits_of_lxor by done. by rewrite Z.lxor_comm.
Qed.

Definition shift_in (c : Z) (m : bool) : Z := crc_shift (Z.lxor c (Z.b2z m)).
Lemma shift_in_bound c m : 0 <= c < 2 ^ 32 -> 0 <= shift_in c m < 2 ^ 32.
Proof. intros Hc. apply crc_shift_bound, lxor_bound; [done|by destruct m|lia]. Qed.

Lemma gf2_mod_register ms : forall c, 0 <= c < 2 ^ 32 ->
  gf2_mod (length ms) (add_bits (bits_of 32 c) (ms ++ replicate 32 false)) = bits_of 32 (foldl shift_in c ms).
Proof.
  induction ms as [|m ms IH]; intros c Hc; [by rewrite add_zeros|]. cbn [length app foldl].
  rewrite gf2_step by (rewrite ?length_app, ?length_replicate; lia || done). apply IH. by apply shift_in_bound.
Qed.

Lemma shift_in_byte k : forall c b, 0 <= b < 2 ^ Z.of_nat k -> foldl shift_in c (bits_of k b) = crc_entry k (Z.lxor c b).
Proof.
  induction k as [|k IH]; intros c b Hb.
  { assert (b = 0) as -> by (cbn in Hb; lia). by rewrite Z.lxor_0_r. }
  rewrite Nat2Z.inj_succ, Z.pow_succ_r in Hb by lia. cbn [bits_of foldl crc_entry].
  rewrite IH by (rewrite <- Z.div2_spec; pose proof (Zdiv2_odd_eqn b); destruct (Z.odd b); lia). f_equal.
  unfold shift_in. rewrite !crc_shift_bit, !Z.lxor_spec, Z.b2z_bit0, !Z.shiftr_lxor.
  assert (Z.shiftr (Z.b2z (Z.testbit b 0)) 1 = 0) as -> by (by destruct (Z.testbit b 0)). rewrite Z.lxor_0_r.
  rewrite !Z.lxor_assoc. f_equal. apply Z.lxor_comm.
Qed.

Lemma wire_bits_register bs : forall c, bytes_ok bs -> foldl shift_in c (wire_bits bs) = crc_bitwise c bs.
Proof.
  induction bs as [|b bs IH]; intros c Hb; [done|]. apply Forall_cons in Hb as [Hb Hbs]. unfold wire_bits in *. cbn [mbind list_bind crc_bitwise foldl].
  rewrite foldl_app, shift_in_byte by done. by apply IH.
Qed.

Lemma crc_bitwise_bound bs : forall crc, bytes_ok bs -> 0 <= crc < 2 ^ 32 -> 0 <= crc_bitwise crc bs < 2 ^ 32.
Proof.
  induction bs as [|b bs IH]; intros crc Hb Hc; [done|]. apply Forall_cons in Hb as [Hb Hbs]. cbn [crc_bitwise foldl].
  apply IH; [done|]. apply crc_entry_bound, lxor_bound; [done|pow2; lia|lia].
Qed.

(** The register machine computes the remainder of the division. *)
Lemma crc_bitwise_ieee bs : bytes_ok bs -> Z.lxor (crc_bitwise 0xFFFFFFFF bs) 0xFFFFFFFF = crc32_ieee bs.
Proof.
  intros Hb. unfold crc32_ieee. change (replicate 32 true) with (bits_of 32 0xFFFFFFFF).
  rewrite gf2_mod_register, wire_bits_register, bits_of_not by done. change (Z.ones (Z.of_nat 32)) with 0xFFFFFFFF.
  rewrite bits_value_of; [done|]. apply lxor_bound; [|done|lia]. by apply crc_bitwise_bound.
Qed.

Lemma memcpy_in d doff s soff (len : nat) :
  0 <= doff -> doff + Z.of_nat len <= Z.of_nat (length d) ->
  0 <= soff -> soff + Z.of_nat len <= Z.of_nat (length s) -> Z.of_nat len < 2 ^ 64 ->
  memcpy d doff s soff (Z.of_nat len) =
    Ok (take (Z.to_nat doff) d ++ take len (drop (Z.to_nat soff) s) ++ drop (Z.to_nat doff + len) d).
Proof.
  intros. unfold memcpy. rewrite u64_id by lia.
  rewrite !(proj2 (Z.leb_le _ _)) by lia. cbn [andb].
  by rewrite Nat2Z.id, Z2Nat.inj_add, Nat2Z.id by lia.
Qed.

(** The two copies of a growing buffer: its content into a larger block, a chunk behind it. *)
Lemma memcpy_grow (buf : list Z) (len n : nat) : (len <= length buf)%nat -> (len <= n)%nat -> Z.of_nat n < 2 ^ 64 ->
  memcpy (replicate n 0) 0 buf 0 (Z.of_nat len) = Ok (take len buf ++ replicate (n - len) 0).
Proof.
  intros. rewrite memcpy_in by (rewrite ?length_replicate; lia). change (Z.to_nat 0) with 0%nat.
  by rewrite take_0, drop_0, drop_replicate.
Qed.

Lemma memcpy_chunk (buf got : list Z) (len : nat) : (len + length got <= length buf)%nat -> Z.of_nat (length buf) < 2 ^ 64 ->
  memcpy buf (Z.of_nat len) got 0 (Z.of_nat (length got)) = Ok (take len buf ++ got ++ drop (len + length got) buf).
Proof.
  intros. rewrite memcpy_in by lia. change (Z.to_nat 0) with 0%nat. by rewrite Nat2Z.id, drop_0, firstn_all.
Qed.

(** Behind the first [len] bytes of [out], the next chunk of [out]: its first [len + n] bytes. *)
Lemma take_chunk (out : list Z) (len n : nat) (buf : list Z) : take len buf = take len out -> (len <= length buf)%nat -> (len <= length out)%nat ->
  let got := take n (drop len out) in
  take (len + length got) (take len buf ++ got ++ drop (len + length got) buf) = take (len + length got) out.
Proof.
  intros Hpre Hb Ho got. rewrite Hpre, app_assoc, take_app_le by (rewrite length_app, length_take; lia).
  rewrite take_ge by (rewrite length_app, length_take; lia). unfold got. rewrite take_take_drop, length_take, length_drop.
  destruct (Nat.le_ge_cases n (length out - len)); [f_equal; lia|]. rewrite !take_ge by lia. done.
Qed.

Lemma until_nul_stop c r : until_nul (c ++ 0 :: r) = until_nul c.
Proof. induction c as [|x c IH]; [done|]. cbn. destruct (x =? 0); [done|]. by rewrite IH. Qed.

(** The terminator behind a full buffer's content. *)
Lemma until_nul_wr (out buf : list Z) : take (length out) buf = out -> (length out < length buf)%nat ->
  exists buf', wr buf (Z.of_nat (length out)) 0 = Ok buf' /\ until_nul buf' = until_nul out.
Proof.
  intros Ht Hl. rewrite wr_ok by lia. eexists. split; [done|]. rewrite Nat2Z.id.
  rewrite <- (take_drop (length out) buf), Ht, insert_app_r_alt, Nat.sub_diag by lia.
  destruct (drop (length out) buf) eqn:Ed; [apply (f_equal length) in Ed; rewrite length_drop in Ed; cbn in Ed; lia|].
  apply until_nul_stop.
Qed.

Lemma until_nul_id s : cstr_ok s -> until_nul s = s.
Proof.
  induction 1 as [|c s Hc _ IH]; [done|]. cbn [until_nul].
  rewrite (proj2 (Z.eqb_neq _ _)) by lia. by rewrite IH.
Qed.

Lemma cstr_bytes s : cstr_ok s -> bytes_ok s.
Proof. intros H. eapply Forall_weaken; [done|]. intros c Hc. simpl in *. pow2. lia. Qed.

Lemma buf_to_str_slice al b off (len : nat) :
  buf_ok b -> al 0%nat (Z.of_nat len + 1) = true -> 0 <= off -> off + Z.of_nat len <= bsize b ->
  lpp_buf_to_str al (Some b) off (Z.of_nat len) =
    Ok (SOwned (until_nul (take len (drop (Z.to_nat off) (bdata b))))).
Proof.
  intros (Hs & Hm & Hd) Hal Ho Hle. unfold lpp_buf_to_str, chk64.
  rewrite (proj2 (Z.ltb_ge off 0)), (proj2 (Z.ltb_ge (Z.of_nat len) 0)) by lia. cbn [orb].
  rewrite is_i64_true by (pow2; lia). cbn [obind]. rewrite Z.gtb_ltb, (proj2 (Z.ltb_ge _ _)), Hal by lia.
  rewrite memcpy_in by (rewrite ?length_replicate; pow2; lia). cbn [obind Z.to_nat take app].
  do 3 f_equal. rewrite Nat2Z.id. rewrite take_0, app_nil_l.
  apply take_app_length'.
  rewrite length_take, length_drop. lia.
Qed.

(** ** The properties of buffers *)

(** for each of the six fixed-width fields, a store inside the buffer succeeds, keeps the
    buffer well formed, changes no byte outside the field, and the matching load returns the
    stored value truncated to the width (the signed value itself for 64 bits). *)
Theorem buf_field_roundtrip (b : Buf) (offset value : Z) :
  buf_ok b -> 0 <= offset ->
  (offset + 2 <= bsize b ->
     (exists b', lpp_buf_set16le (Some b) offset value = Ok (Some b') /\
        stored b b' offset (le_bytes 2 (u16 value)) /\ lpp_buf_get16le (Some b') offset = Ok (u16 value)) /\
     (exists b', lpp_buf_set16be (Some b) offset value = Ok (Some b') /\
        stored b b' offset (reverse (le_bytes 2 (u16 value))) /\
        lpp_buf_get16be (Some b') offset = Ok (u16 value))) /\
  (offset + 4 <= bsize b ->
     (exists b', lpp_buf_set32le (Some b) offset value = Ok (Some b') /\
        stored b b' offset (le_bytes 4 (u32 value)) /\ lpp_buf_get32le (Some b') offset = Ok (u32 value)) /\
     (exists b', lpp_buf_set32be (Some b) offset value = Ok (Some b') /\
        stored b b' offset (reverse (le_bytes 4 (u32 value))) /\
        lpp_buf_get32be (Some b') offset = Ok (u32 value))) /\
  (offset + 8 <= bsize b -> INT64_MIN <= value <= INT64_MAX ->
     (exists b', lpp_buf_set64le (Some b) offset value = Ok (Some b') /\
        stored b b' offset (le_bytes 8 (u64 value)) /\ lpp_buf_get64le (Some b') offset = Ok value) /\
     (exists b', lpp_buf_set64be (Some b) offset value = Ok (Some b') /\
        stored b b' offset (reverse (le_bytes 8 (u64 value))) /\
        lpp_buf_get64be (Some b') offset = Ok value)).
Proof.
  intros Hb Ho. split_and!.
  - intros Hle. split.
    + destruct (set16le_stored b offset value Hb Ho Hle) as (b' & He & Hs). exists b'.
      split_and!; [done..|]. rewrite <- (le_bytes_value 2 (u16 value)) by by apply uwrap_range.
      by apply (get16_value b b' offset Ho _ _ (le_bytes_ok 2 _) Hs).
    + destruct (set16be_stored b offset value Hb Ho Hle) as (b' & He & Hs). exists b'.
      split_and!; [done..|]. rewrite <- (le_bytes_value 2 (u16 value)) by by apply uwrap_range.
      by apply (get16_value b b' offset Ho _ _ (proj2 (Forall_reverse _ _) (le_bytes_ok 2 _)) Hs).
  - intros Hle. split.
    + destruct (set32le_stored b offset value Hb Ho Hle) as (b' & He & Hs). exists b'.
      split_and!; [done..|]. rewrite <- (le_bytes_value 4 (u32 value)) by by apply uwrap_range.
      by apply (get32_value b b' offset Ho _ _ _ _ (le_bytes_ok 4 _) Hs).
    + destruct (set32be_stored b offset value Hb Ho Hle) as (b' & He & Hs). exists b'.
      split_and!; [done..|]. rewrite <- (le_bytes_value 4 (u32 value)) by by apply uwrap_range.
      by apply (get32_value b b' offset Ho _ _ _ _ (proj2 (Forall_reverse _ _) (le_bytes_ok 4 _)) Hs).
  - intros Hle Hv. split.
    + destruct (set64le_stored b offset value Hb Ho Hle) as (b' & He & Hs). exists b'.
      split_and!; [done..|]. rewrite <- (i64_id value), <- i64_u64 at 1 by done.
      rewrite <- (le_bytes_value 8 (u64 value)) by apply u64_range.
      by apply (get64_value b b' offset Ho _ _ _ _ _ _ _ _ (le_bytes_ok 8 _) Hs).
    + destruct (set64be_stored b offset value Hb Ho Hle) as (b' & He & Hs). exists b'.
      split_and!; [done..|]. rewrite <- (i64_id value), <- i64_u64 at 1 by done.
      rewrite <- (le_bytes_value 8 (u64 value)) by apply u64_range.
      by apply (get64_value b b' offset Ho _ _ _ _ _ _ _ _ (proj2 (Forall_reverse _ _) (le_bytes_ok 8 _)) Hs).
Qed.

Lemma buf_field_roundtrip_witness :
  exists b', lpp_buf_set32be (Some (mkBuf 6 [0; 0; 0; 0; 0; 9])) 1 0x11223344 = Ok (Some b') /\
             lpp_buf_get32be (Some b') 1 = Ok 0x11223344.
Proof.
  destruct (buf_field_roundtrip (mkBuf 6 [0; 0; 0; 0; 0; 9]) 1 0x11223344) as (_ & H & _).
  - split_and!; [done|vm_compute; done|repeat constructor; done].
  - done.
  - destruct (H ltac:(vm_compute; done)) as (_ & b' & He & _ & Hg). by exists b'.
Defined.

(** C19. CRC-32.  On every buffer and for every range that is an [int64_t] in its end, the
    table-driven loop gives the CRC-32 of IEEE 802.3 of the bytes of the range - the complemented
    remainder of the division by the generator polynomial over GF(2), defined on lists of bits
    without any of the code's shifts, tables or constants - and 0 for a range that is not inside
    the buffer.  It does so whether the table is still untouched or was built by an earlier
    call, and leaves it untouched or completely built. *)
Theorem buf_crc32_is_crc32 (t : CrcTable) (b : Buf) (off len : Z) :
  t = crc_init \/ t = crc32_init_table crc_init -> buf_ok b -> off + len <= INT64_MAX ->
  exists t', (t' = t \/ t' = crc32_init_table crc_init) /\ lpp_buf_crc32 t (Some b) off len =
    Ok (if (0 <=? off) && (0 <=? len) && (off + len <=? bsize b)
        then crc32_ieee (take (Z.to_nat len) (drop (Z.to_nat off) (bdata b))) else 0, t').
Proof.
  intros Ht (Hs & Hm & Hd) Hsum. unfold lpp_buf_crc32.
  destruct (Z.ltb_spec off 0) as [|Ho]; [rewrite (proj2 (Z.leb_gt 0 off)) by done; eauto|].
  destruct (Z.ltb_spec len 0) as [|Hl]; [rewrite (proj2 (Z.leb_gt 0 len)), andb_false_r by done; eauto|].
  rewrite !(proj2 (Z.leb_le 0 _)) by done. cbn [orb andb]. unfold chk64. rewrite is_i64_true by (pow2; lia). cbn [obind].
  rewrite Z.gtb_ltb, Z.ltb_antisym. destruct (Z.leb_spec (off + len) (bsize b)); cbn [negb]; [|eauto].
  assert (crc_inv t) as Hi by (by destruct Ht as [->| ->]).
  assert (crc32_init_table t = crc32_init_table crc_init) as Ht' by (by destruct Ht as [->| ->]).
  exists (crc32_init_table t). split; [by right|]. destruct (crc32_init_table_done t Hi) as [Htab _].
  rewrite Htab, crc_loop_spec by (done || lia). cbn [obind]. rewrite crc_bitwise_ieee, Z.add_0_r; [done|].
  by apply Forall_take, Forall_drop.
Qed.

(** The check value of the CRC-32 standard: the digits 1 to 9. *)
Lemma buf_crc32_is_crc32_witness :
  exists t', (t' = crc_init \/ t' = crc32_init_table crc_init) /\
    lpp_buf_crc32 crc_init (Some (mkBuf 9 [49; 50; 51; 52; 53; 54; 55; 56; 57])) 0 9 = Ok (0xCBF43926, t').
Proof.
  destruct (buf_crc32_is_crc32 crc_init (mkBuf 9 [49; 50; 51; 52; 53; 54; 55; 56; 57]) 0 9) as (t' & Ht & He).
  - by left.
  - split_and!; [done|vm_compute; done|repeat constructor; done].
  - discriminate.
  - exists t'. split; [exact Ht|]. rewrite He. vm_compute. done.
Defined.

(** A string written into a buffer reads back as the same string, the rest of the buffer
    is untouched and its recorded size does not change. *)
Theorem buf_str_roundtrip (al : allocator) (b : Buf) (offset : Z) (s : cstr) :
  buf_ok b -> cstr_ok s -> 0 <= offset -> offset + Z.of_nat (length s) <= bsize b ->
  (forall k n, al k n = true) ->
  exists b', lpp_buf_write_str (Some b) offset (Some s) = Ok (Z.of_nat (length s), Some b') /\
    buf_ok b' /\ bsize b' = bsize b /\
    lpp_buf_read_str al (Some b') offset (lpp_str_len (Some s)) = Ok (SOwned s) /\
    (forall j, (j < Z.to_nat offset)%nat \/ (Z.to_nat offset + length s <= j)%nat ->
               bdata b' !! j = bdata b !! j).
Proof.
  intros (Hs & Hm & Hd) Hok Ho Hle Hal. unfold lpp_buf_write_str.
  rewrite out_of_bounds_in by (pow2; lia). cbn [obind].
  rewrite memcpy_in by (pow2; lia). cbn [obind]. rewrite drop_0, (take_ge s) by lia.
  rewrite Z.gtb_ltb, (proj2 (Z.ltb_ge _ _)) by lia. eexists. split; [done|]. cbn [bsize bdata].
  set (d := take (Z.to_nat offset) (bdata b) ++ s ++ drop (Z.to_nat offset + length s) (bdata b)).
  assert (Hlen : length d = length (bdata b)).
  { subst d. rewrite !length_app, length_take, length_drop. lia. }
  assert (Hb' : buf_ok (mkBuf (bsize b) d)).
  { split_and!; cbn; [lia|done|]. subst d. rewrite !Forall_app.
    split_and!; [by apply Forall_take|by apply cstr_bytes|by apply Forall_drop]. }
  assert (Htl : length (take (Z.to_nat offset) (bdata b)) = Z.to_nat offset) by (rewrite length_take; lia).
  split_and!; [done|done| |].
  - unfold lpp_buf_read_str, lpp_str_len. rewrite buf_to_str_slice by (done || apply Hal). cbn [bdata].
    subst d. rewrite drop_app_length' by done. rewrite take_app_length. by rewrite until_nul_id.
  - intros j [Hj|Hj]; subst d.
    + rewrite lookup_app_l by lia. by rewrite lookup_take_lt by lia.
    + rewrite lookup_app_r by lia. rewrite Htl, lookup_app_r by lia.
      rewrite lookup_drop. f_equal. lia.
Qed.

Lemma buf_str_roundtrip_witness :
  exists b', lpp_buf_write_str (Some (mkBuf 5 [0; 0; 0; 0; 0])) 2 (Some [104; 105]) = Ok (2, Some b') /\
    lpp_buf_read_str (fun _ _ => true) (Some b') 2 2 = Ok (SOwned [104; 105]).
Proof.
  destruct (buf_str_roundtrip (fun _ _ => true) (mkBuf 5 [0; 0; 0; 0; 0]) 2 [104; 105])
    as (b' & Hw & _ & _ & Hr & _).
  - split_and!; [done|vm_compute; done|repeat constructor; done].
  - repeat constructor; done.
  - done.
  - done.
  - done.
  - by exists b'.
Defined.

(** what the bounds tests guarantee, and where they stop.  On a well-formed buffer no
    accessor reads or writes outside the allocation as long as [offset + width] does not
    exceed INT64_MAX; for a larger offset the test itself overflows (undefined), and
    [lpp_buf_copy] with a negative length passes both tests and calls [memcpy] with a
    huge size (undefined). *)
Theorem buf_bounds (b : Buf) (offset value : Z) :
  buf_ok b ->
  (offset + 4 <= INT64_MAX ->
     exists p, lpp_buf_set32le (Some b) offset value = Ok (Some p) /\ buf_ok p /\ bsize p = bsize b /\
               (~ (0 <= offset /\ offset + 4 <= bsize b) -> p = b)) /\
  (INT64_MAX < offset + 4 -> lpp_buf_set32le (Some b) offset value = Undef) /\
  (forall len, INT64_MIN <= len < 0 -> lpp_buf_copy (Some b) 0 (Some b) 0 len = Undef).
Proof.
  intros Hb. pose proof Hb as (Hs & Hm & Hd). split_and!.
  - intros Ho. destruct (decide (0 <= offset /\ offset + 4 <= bsize b)) as [[H1 H2]|Hn].
    + destruct (set32le_stored b offset value Hb H1 H2) as (b' & He & Hok & Hsz & _).
      exists b'. split_and!; [done..|]. intros []. lia.
    + exists b. unfold lpp_buf_set32le, buf_store. rewrite out_of_bounds_out by lia. done.
  - intros Ho. unfold lpp_buf_set32le, buf_store, out_of_bounds, chk64.
    rewrite (proj2 (Z.ltb_ge offset 0)) by (pow2; lia). by rewrite is_i64_false by lia.
  - intros len Hl. unfold lpp_buf_copy, out_of_bounds, chk64. cbn [Z.ltb Z.compare].
    rewrite Z.add_0_l, is_i64_true by (pow2; lia). cbn [obind].
    rewrite Z.gtb_ltb, (proj2 (Z.ltb_ge _ _)) by lia. unfold memcpy.
    assert (Hu : u64 len = len + 2 ^ 64).
    { unfold u64, uwrap. rewrite <- (Z_mod_plus_full len 1). apply Z.mod_small. pow2. lia. }
    rewrite Hu, (proj2 (Z.leb_gt _ (Z.of_nat (length (bdata b))))) by (pow2; lia). done.
Qed.

Lemma buf_bounds_witness :
  lpp_buf_set32le (Some (mkBuf 4 [1; 2; 3; 4])) INT64_MAX 7 = Undef /\
  lpp_buf_copy (Some (mkBuf 4 [1; 2; 3; 4])) 0 (Some (mkBuf 4 [1; 2; 3; 4])) 0 (-1) = Undef.
Proof.
  destruct (buf_bounds (mkBuf 4 [1; 2; 3; 4]) INT64_MAX 7) as (_ & H1 & H2).
  - split_and!; [done|vm_compute; done|repeat constructor; done].
  - split; [apply H1; vm_compute; done|apply H2; vm_compute; done].
Defined.
