(* ===== verification/Sort.v ===== *)
(** * The list sorts (runtime/lpp_runtime.c, "Introsort-lite")

    [lpp_insertion_sort], [lpp_sift_down], [lpp_heap_sort] and [lpp_quick_sort] of the host
    runtime.  An [int64_t *v] with its length is the list of those cells; [v + j + 1] is the
    corresponding sublist, so a recursive call works on its own cells and the results are put
    back together.  Every access goes through [rd] and [wr], so a result [Ok] also says that
    no index leaves the array.  The comparison [before] is a parameter, as in the code. *)

From stdpp Require Import sorting.
From S2P Require Import Prelude.

Definition swap (v : list Z) (i j : Z) : outcome (list Z) :=
  let! x := rd v i in
  let! y := rd v j in
  let! v := wr v i y in
  wr v j x.

(** The three orders a list is sorted by. *)
Definition lpp_i64_lt (a b : Z) : bool := a <? b.
Definition lpp_i64_gt (a b : Z) : bool := a >? b.
Definition lpp_u64_lt (a b : Z) : bool := u64 a <? u64 b.

Section sorts.
Context (before : Z -> Z -> bool).

(** The inner loop of the insertion sort; [m] is [j + 1]. *)
Fixpoint ins_shift (m : nat) (v : list Z) (key : Z) : outcome (list Z) :=
  match m with
  | O => wr v 0 key
  | S j =>
      let! x := rd v (Z.of_nat j) in
      if before key x then
        let! v := wr v (Z.of_nat j + 1) x in ins_shift j v key
      else wr v (Z.of_nat j + 1) key
  end.

(** [for (i = 1; i < n; ++i)], with [k] iterations left. *)
Fixpoint ins_outer (k i : nat) (v : list Z) : outcome (list Z) :=
  match k with
  | O => Ok v
  | S k' =>
      let! key := rd v (Z.of_nat i) in
      let! v := ins_shift i v key in
      ins_outer k' (S i) v
  end.

Definition lpp_insertion_sort (v : list Z) : outcome (list Z) := ins_outer (length v - 1) 1 v.

Fixpoint lpp_sift_down (fuel : nat) (v : list Z) (root n : Z) : outcome (list Z) :=
  match fuel with
  | O => NoFuel
  | S f =>
      let child := 2 * root + 1 in
      if child >=? n then Ok v
      else
        let! child :=
          (if child + 1 <? n then
             let! x := rd v child in
             let! y := rd v (child + 1) in
             Ok (if before x y then child + 1 else child)
           else Ok child) in
        let! x := rd v root in
        let! y := rd v child in
        if negb (before x y) then Ok v
        else let! v := swap v root child in lpp_sift_down f v child n
  end.

(** [for (i = n / 2 - 1; i >= 0; --i)]: [k] is [i + 1]. *)
Fixpoint heap_build (k : nat) (v : list Z) : outcome (list Z) :=
  match k with
  | O => Ok v
  | S i => let! v := lpp_sift_down (S (length v)) v (Z.of_nat i) (Z.of_nat (length v)) in heap_build i v
  end.

(** [for (end = n - 1; end > 0; --end)]. *)
Fixpoint heap_drain (e : nat) (v : list Z) : outcome (list Z) :=
  match e with
  | O => Ok v
  | S e' =>
      let! v := swap v 0 (Z.of_nat e) in
      let! v := lpp_sift_down (S (length v)) v 0 (Z.of_nat e) in
      heap_drain e' v
  end.

Definition lpp_heap_sort (v : list Z) : outcome (list Z) :=
  let! v := heap_build (Nat.div2 (length v)) v in
  heap_drain (length v - 1) v.

(** [do { ++i; } while (i < n && before(v[i], pivot))]. *)
Fixpoint scan_up (fuel : nat) (v : list Z) (pivot i : Z) : outcome Z :=
  match fuel with
  | O => NoFuel
  | S f =>
      let i := i + 1 in
      if i <? Z.of_nat (length v) then
        let! x := rd v i in
        if before x pivot then scan_up f v pivot i else Ok i
      else Ok i
  end.

(** [do { --j; } while (j > 0 && before(pivot, v[j]))]. *)
Fixpoint scan_down (fuel : nat) (v : list Z) (pivot j : Z) : outcome Z :=
  match fuel with
  | O => NoFuel
  | S f =>
      let j := j - 1 in
      if j >? 0 then
        let! x := rd v j in
        if before pivot x then scan_down f v pivot j else Ok j
      else Ok j
  end.

Fixpoint hoare (fuel : nat) (v : list Z) (pivot i j : Z) : outcome (list Z * Z) :=
  match fuel with
  | O => NoFuel
  | S f =>
      let! i := scan_up (S (length v)) v pivot i in
      let! j := scan_down (S (length v)) v pivot j in
      if i >=? j then Ok (v, j)
      else let! v := swap v i j in hoare f v pivot i j
  end.

(** [if (before(v[a], v[b])) swap(v[a], v[b])]. *)
Definition cond_swap (v : list Z) (a b : Z) : outcome (list Z) :=
  let! x := rd v a in
  let! y := rd v b in
  if before x y then swap v a b else Ok v.

(** One round of the quicksort loop: median of three to [v[0]], Hoare partition, pivot to its
    place [j]. *)
Definition partition (v : list Z) : outcome (list Z * Z) :=
  let n := Z.of_nat (length v) in
  let mid := n / 2 in
  let last := n - 1 in
  let! v := cond_swap v mid 0 in
  let! v := cond_swap v last 0 in
  let! v := cond_swap v last mid in
  let! v := swap v mid 0 in
  let! pivot := rd v 0 in
  let! '(v, j) := hoare (S (length v)) v pivot 0 n in
  let! v := swap v 0 j in
  Ok (v, j).

(** The loop runs at most [depth] rounds, because each round decrements it. *)
Fixpoint lpp_quick_sort (depth : nat) (v : list Z) : outcome (list Z) :=
  let n := Z.of_nat (length v) in
  if n >? 16 then
    match depth with
    | O => lpp_heap_sort v
    | S d =>
        let! '(v, j) := partition v in
        let! p := rd v j in
        let l := take (Z.to_nat j) v in
        let r := drop (Z.to_nat j + 1) v in
        if j <? n - j - 1 then
          let! l := lpp_quick_sort d l in
          let! r := lpp_quick_sort d r in
          Ok (l ++ [p] ++ r)
        else
          let! r := lpp_quick_sort d r in
          let! l := lpp_quick_sort d l in
          Ok (l ++ [p] ++ r)
    end
  else lpp_insertion_sort v.

(** [for (m = len; m > 1; m >>= 1) depth += 2]. *)
Fixpoint depth_limit (fuel : nat) (m depth : Z) : outcome Z :=
  match fuel with
  | O => NoFuel
  | S f => if m >? 1 then depth_limit f (Z.shiftr m 1) (depth + 2) else Ok depth
  end.

(** [lpp_list_sort_with] on the cells of the list. *)
Definition sort_cells (v : list Z) : outcome (list Z) :=
  if (length v <? 2)%nat then Ok v
  else let! depth := depth_limit 64 (Z.of_nat (length v)) 0 in
       lpp_quick_sort (Z.to_nat depth) v.

End sorts.

Example sort_ex :
  sort_cells lpp_i64_lt [5; 3; 9; 1; 7; 7; 2; -4; 0; 12; 11; 10; 8; 6; 4; 13; 3; 20; 19; 15]
  = Ok [-4; 0; 1; 2; 3; 3; 4; 5; 6; 7; 7; 8; 9; 10; 11; 12; 13; 15; 19; 20].
Proof. vm_compute. done. Qed.

(** ** What a comparison has to be *)

(** [before] is the strict part of a total preorder. *)
Class SortOrder (before : Z -> Z -> bool) : Prop := {
  before_asym x y : before x y = true -> before y x = false;
  before_trans x y z : before y x = false -> before z y = false -> before z x = false
}.

#[export] Instance i64_lt_order : SortOrder lpp_i64_lt.
Proof. split; unfold lpp_i64_lt; intros; bool_to_prop; apply Z.ltb_ge; lia. Qed.
#[export] Instance i64_gt_order : SortOrder lpp_i64_gt.
Proof. split; unfold lpp_i64_gt; intros; bool_to_prop; rewrite Z.gtb_ltb; apply Z.ltb_ge; lia. Qed.
#[export] Instance u64_lt_order : SortOrder lpp_u64_lt.
Proof. split; unfold lpp_u64_lt; intros; bool_to_prop; apply Z.ltb_ge; lia. Qed.

(** ** Array lemmas *)

Lemma rd_total (v : list Z) i : 0 <= i < Z.of_nat (length v) -> rd v i = Ok (v !!! Z.to_nat i).
Proof. intros Hi. apply rd_ok; [lia|]. apply list_lookup_lookup_total_lt. lia. Qed.

Lemma swap_ok v i j :
  0 <= i < Z.of_nat (length v) -> 0 <= j < Z.of_nat (length v) ->
  swap v i j = Ok (<[Z.to_nat j := v !!! Z.to_nat i]> (<[Z.to_nat i := v !!! Z.to_nat j]> v)).
Proof.
  intros Hi Hj. unfold swap. rewrite !rd_total by lia. cbn [obind].
  rewrite wr_ok by lia. cbn [obind]. rewrite wr_ok by (rewrite length_insert; lia). done.
Qed.

Definition swapped (v : list Z) (i j : nat) : list Z := <[j := v !!! i]> (<[i := v !!! j]> v).

Lemma swapped_length v i j : length (swapped v i j) = length v.
Proof. unfold swapped. by rewrite !length_insert. Qed.

Lemma swapped_l v i j : (i < length v)%nat -> (j < length v)%nat -> swapped v i j !!! i = v !!! j.
Proof.
  intros Hi Hj. unfold swapped. destruct (decide (i = j)) as [->|Hne].
  - by rewrite list_lookup_total_insert_eq by (rewrite length_insert; lia).
  - rewrite list_lookup_total_insert_ne by done. by apply list_lookup_total_insert_eq.
Qed.

Lemma swapped_r v i j : (i < length v)%nat -> (j < length v)%nat -> swapped v i j !!! j = v !!! i.
Proof. intros Hi Hj. unfold swapped. by rewrite list_lookup_total_insert_eq by (rewrite length_insert; lia). Qed.

Lemma swapped_other v i j k : k <> i -> k <> j -> swapped v i j !!! k = v !!! k.
Proof. intros. unfold swapped. by rewrite !list_lookup_total_insert_ne by done. Qed.

(** The value at a position after a swap. *)
Lemma swapped_lookup v i j k :
  (i < length v)%nat -> (j < length v)%nat ->
  swapped v i j !!! k = v !!! (if decide (k = i) then j else if decide (k = j) then i else k).
Proof.
  intros Hi Hj. repeat case_decide; subst;
    [by apply swapped_l|by apply swapped_r|by apply swapped_other].
Qed.

Lemma swapped_perm v i j : (i < length v)%nat -> (j < length v)%nat -> swapped v i j ≡ₚ v.
Proof.
  intros Hi Hj. apply Permutation_inj. split; [apply swapped_length|].
  set (f := fun k => if decide (k = i) then j else if decide (k = j) then i else k).
  exists f. split.
  - intros a b. unfold f. repeat case_decide; intros; subst; congruence || lia.
  - intros k. destruct (decide (k < length v)%nat) as [Hk|Hk].
    + assert (f k < length v)%nat by (unfold f; repeat case_decide; lia).
      rewrite (list_lookup_lookup_total_lt (swapped v i j)) by (rewrite swapped_length; lia).
      rewrite list_lookup_lookup_total_lt by lia. f_equal. by apply swapped_lookup.
    + assert (f k = k) as -> by (unfold f; repeat case_decide; lia).
      rewrite !lookup_ge_None_2; [done|lia|rewrite swapped_length; lia].
Qed.

(** Swapping inside a region keeps what all its elements satisfy. *)
Lemma swapped_forall v i j (n : nat) (P : Z -> Prop) :
  (i < n)%nat -> (j < n)%nat -> (n <= length v)%nat ->
  (forall k, (k < n)%nat -> P (v !!! k)) -> forall k, (k < n)%nat -> P (swapped v i j !!! k).
Proof.
  intros Hi Hj Hn HP k Hk. rewrite swapped_lookup by lia. apply HP. repeat case_decide; lia.
Qed.

Lemma wp_swap v i j (Q : list Z -> Prop) :
  0 <= i < Z.of_nat (length v) -> 0 <= j < Z.of_nat (length v) ->
  Q (swapped v (Z.to_nat i) (Z.to_nat j)) -> wp (swap v i j) Q.
Proof. intros Hi Hj HQ. by rewrite swap_ok by lia. Qed.

Lemma wp_rd_total (v : list Z) i (Q : Z -> Prop) :
  0 <= i < Z.of_nat (length v) -> Q (v !!! Z.to_nat i) -> wp (rd v i) Q.
Proof. intros Hi HQ. by rewrite rd_total. Qed.

Section correctness.
Context (before : Z -> Z -> bool) `{!SortOrder before}.

(** "Not after": the order the result is sorted by. *)
Definition le (x y : Z) : Prop := before y x = false.

Lemma le_of_before x y : before x y = true -> le x y.
Proof. apply before_asym. Qed.
Lemma le_trans x y z : le x y -> le y z -> le x z.
Proof. unfold le. eauto using before_trans. Qed.
Lemma le_refl x : le x x.
Proof. unfold le. destruct (before x x) eqn:E; [|done]. pose proof (before_asym _ _ E). congruence. Qed.
Lemma le_total x y : le x y \/ le y x.
Proof. unfold le. destruct (before y x) eqn:E; [right; by apply before_asym|by left]. Qed.

(** The cells below [k] are in order. *)
Definition sorted_upto (v : list Z) (k : nat) : Prop :=
  forall a b, (a < b)%nat -> (b < k)%nat -> le (v !!! a) (v !!! b).
Definition sorted (v : list Z) : Prop := sorted_upto v (length v).

(** ** Insertion sort *)

Lemma ins_shift_spec m : forall v i key,
  (m <= i)%nat -> (i < length v)%nat ->
  (forall a b, (a < b)%nat -> (b <= i)%nat -> a <> m -> b <> m -> le (v !!! a) (v !!! b)) ->
  (forall b, (m < b)%nat -> (b <= i)%nat -> le key (v !!! b)) ->
  wp (ins_shift before m v key) (fun v' =>
    v' ≡ₚ <[m := key]> v /\ sorted_upto v' (S i)).
Proof.
  induction m as [|j IH]; intros v i key Hm Hi HA HB; cbn [ins_shift].
  - apply wp_wr; [lia|]. split; [done|]. intros a b Hab Hb. change (Z.to_nat 0) with 0%nat.
    destruct (decide (a = 0)%nat) as [->|].
    + rewrite list_lookup_total_insert_eq, list_lookup_total_insert_ne by lia. apply HB; lia.
    + rewrite !list_lookup_total_insert_ne by lia. apply HA; lia.
  - apply wp_bind, wp_rd_total; [lia|]. rewrite Nat2Z.id. destruct (before key (v !!! j)) eqn:E.
    + apply wp_bind, wp_wr; [lia|]. replace (Z.to_nat (Z.of_nat j + 1)) with (S j) by lia.
      eapply wp_mono; [apply (IH _ i)|].
      * lia.
      * rewrite length_insert. lia.
      * intros a b Hab Hb Ha' Hb'. destruct (decide (a = S j)) as [->|].
        { rewrite list_lookup_total_insert_eq, list_lookup_total_insert_ne by lia. apply HA; lia. }
        destruct (decide (b = S j)) as [->|].
        { rewrite list_lookup_total_insert_ne, list_lookup_total_insert_eq by lia. apply HA; lia. }
        rewrite !list_lookup_total_insert_ne by lia. apply HA; lia.
      * intros b Hb Hbi. destruct (decide (b = S j)) as [->|].
        { rewrite list_lookup_total_insert_eq by lia. by apply le_of_before. }
        rewrite list_lookup_total_insert_ne by lia. apply HB; lia.
      * intros v' [Hp Hs]. split; [|done]. rewrite Hp.
        pose proof (swapped_perm (<[S j:=key]> v) j (S j)) as Hsw.
        rewrite length_insert in Hsw. specialize (Hsw ltac:(lia) ltac:(lia)).
        unfold swapped in Hsw.
        rewrite list_lookup_total_insert_eq, list_lookup_total_insert_ne in Hsw by lia.
        rewrite (list_insert_insert_ne (<[S j:=key]> v) (S j) j), list_insert_insert_eq in Hsw by lia.
        done.
    + apply wp_wr; [lia|]. replace (Z.to_nat (Z.of_nat j + 1)) with (S j) by lia.
      split; [done|]. intros a b Hab Hb. destruct (decide (a = S j)) as [->|].
      { rewrite list_lookup_total_insert_eq, list_lookup_total_insert_ne by lia. apply HB; lia. }
      destruct (decide (b = S j)) as [->|].
      { rewrite list_lookup_total_insert_ne, list_lookup_total_insert_eq by lia.
        apply le_trans with (v !!! j); [|done].
        destruct (decide (a = j)) as [->|]; [apply le_refl|apply HA; lia]. }
      rewrite !list_lookup_total_insert_ne by lia. apply HA; lia.
Qed.

Lemma ins_outer_spec k : forall i v,
  (1 <= i)%nat -> (i + k = length v)%nat -> sorted_upto v i ->
  wp (ins_outer before k i v) (fun v' => v' ≡ₚ v /\ sorted v').
Proof.
  induction k as [|k IH]; intros i v Hi Hlen Hs; cbn [ins_outer].
  - split; [done|]. unfold sorted. by replace (length v) with i by lia.
  - apply wp_bind, wp_rd_total; [lia|]. rewrite Nat2Z.id. apply wp_bind.
    eapply wp_mono; [apply (ins_shift_spec i v i)|]; try lia.
    + intros a b Hab Hb Ha' Hb'. apply Hs; lia.
    + intros v1 [Hp1 Hs1]. rewrite list_insert_id in Hp1.
      2: { apply list_lookup_lookup_total_lt. lia. }
      eapply wp_mono; [apply IH|].
      * lia.
      * rewrite Hp1. lia.
      * done.
      * intros v2 [Hp2 Hs2]. split; [by rewrite Hp2|done].
Qed.

Lemma insertion_sort_spec v : wp (lpp_insertion_sort before v) (fun v' => v' ≡ₚ v /\ sorted v').
Proof.
  unfold lpp_insertion_sort. destruct v as [|x v].
  { split; [done|]. intros a b Hab Hb. simpl in Hb. lia. }
  apply ins_outer_spec; [lia|simpl; lia|]. intros a b Hab Hb. lia.
Qed.

(** ** Heap sort *)

(** The node [i] is not before its children among the first [n] cells. *)
Definition heap_at (v : list Z) (n i : nat) : Prop :=
  forall c, (c = 2 * i + 1 \/ c = 2 * i + 2)%nat -> (c < n)%nat -> le (v !!! c) (v !!! i).

(** What a repair starting at [r] may assume: only [r] can be out of order with its children,
    and its children are in order with its parent. *)
Definition heap_but (v : list Z) (s n r : nat) : Prop :=
  (forall i, (s <= i)%nat -> i <> r -> heap_at v n i) /\
  (forall p c, (s <= p)%nat -> (r = 2 * p + 1 \/ r = 2 * p + 2)%nat ->
     (c = 2 * r + 1 \/ c = 2 * r + 2)%nat -> (c < n)%nat -> le (v !!! c) (v !!! p)).

Lemma heap_but_swap v s n r c :
  heap_but v s n r -> (s <= r)%nat -> (c = 2 * r + 1 \/ c = 2 * r + 2)%nat -> (c < n)%nat ->
  (n <= length v)%nat ->
  (forall o, (o = 2 * r + 1 \/ o = 2 * r + 2)%nat -> (o < n)%nat -> le (v !!! o) (v !!! c)) ->
  le (v !!! r) (v !!! c) ->
  heap_but (swapped v r c) s n c.
Proof.
  intros [H1 H2] Hs Hc Hcn Hn Hmax Hrc. split.
  - intros i Hi Hic k Hk Hkn. destruct (decide (i = r)) as [->|Hir].
    + rewrite (swapped_l v r c) by lia. destruct (decide (k = c)) as [->|].
      * by rewrite swapped_r by lia.
      * rewrite swapped_other by lia. by apply Hmax.
    + rewrite (swapped_other v r c i) by lia. destruct (decide (k = r)) as [->|Hkr].
      * rewrite swapped_l by lia. by apply (H2 i c).
      * rewrite swapped_other by lia. by apply H1.
  - intros p k Hp Hpc Hk Hkn. assert (p = r) as -> by lia.
    rewrite (swapped_l v r c), swapped_other by lia. apply (H1 c); [lia|lia|done|done].
Qed.

(** The child [lpp_sift_down] compares the root with: the larger of the two. *)
Lemma pick_child v r n (Q : Z -> Prop) :
  (n <= length v)%nat -> (2 * r + 1 < n)%nat ->
  (forall c, (c = 2 * r + 1 \/ c = 2 * r + 2)%nat -> (c < n)%nat ->
     (forall o, (o = 2 * r + 1 \/ o = 2 * r + 2)%nat -> (o < n)%nat -> le (v !!! o) (v !!! c)) ->
     Q (Z.of_nat c)) ->
  wp (if 2 * Z.of_nat r + 1 + 1 <? Z.of_nat n then
        let! x := rd v (2 * Z.of_nat r + 1) in
        let! y := rd v (2 * Z.of_nat r + 1 + 1) in
        Ok (if before x y then 2 * Z.of_nat r + 1 + 1 else 2 * Z.of_nat r + 1)
      else Ok (2 * Z.of_nat r + 1)) Q.
Proof.
  intros Hn Hr HQ. destruct (Z.ltb_spec (2 * Z.of_nat r + 1 + 1) (Z.of_nat n)).
  - apply wp_bind, wp_rd_total; [lia|]. apply wp_bind, wp_rd_total; [lia|].
    replace (Z.to_nat (2 * Z.of_nat r + 1)) with (2 * r + 1)%nat by lia.
    replace (Z.to_nat (2 * Z.of_nat r + 1 + 1)) with (2 * r + 2)%nat by lia.
    destruct (before _ _) eqn:E; cbn [wp].
    + replace (2 * Z.of_nat r + 1 + 1) with (Z.of_nat (2 * r + 2)) by lia.
      apply HQ; [lia..|]. intros o [->| ->] _; [by apply le_of_before|apply le_refl].
    + replace (2 * Z.of_nat r + 1) with (Z.of_nat (2 * r + 1)) by lia.
      apply HQ; [lia..|]. intros o [->| ->] _; [apply le_refl|done].
  - cbn [wp]. replace (2 * Z.of_nat r + 1) with (Z.of_nat (2 * r + 1)) by lia.
    apply HQ; [lia..|]. intros o [->| ->] Ho; [apply le_refl|lia].
Qed.

(** What a repair of the heap on the first [n] cells keeps of the array. *)
Definition touches (v v' : list Z) (n : nat) : Prop :=
  v' ≡ₚ v /\ (forall k, (n <= k)%nat -> v' !!! k = v !!! k) /\
  (forall P : Z -> Prop, (forall k, (k < n)%nat -> P (v !!! k)) -> forall k, (k < n)%nat -> P (v' !!! k)).

Lemma touches_refl v n : touches v v n.
Proof. by split_and!. Qed.

Lemma touches_trans v1 v2 v3 n : touches v1 v2 n -> touches v2 v3 n -> touches v1 v3 n.
Proof.
  intros (H1 & H2 & H3) (G1 & G2 & G3). split_and!.
  - by rewrite G1.
  - intros k Hk. by rewrite G2, H2.
  - intros P HP. by apply G3, H3.
Qed.

Lemma touches_swapped v i j n :
  (i < n)%nat -> (j < n)%nat -> (n <= length v)%nat -> touches v (swapped v i j) n.
Proof.
  intros Hi Hj Hn. split_and!.
  - apply swapped_perm; lia.
  - intros k Hk. apply swapped_other; lia.
  - intros P HP. by apply swapped_forall.
Qed.

Lemma touches_length v v' n : touches v v' n -> length v' = length v.
Proof. intros (H & _). by rewrite H. Qed.

Lemma sift_down_spec fuel : forall v s r n,
  (s <= r)%nat -> (n <= length v)%nat -> (n - r < fuel)%nat ->
  heap_but v s n r ->
  wp (lpp_sift_down before fuel v (Z.of_nat r) (Z.of_nat n)) (fun v' =>
    touches v v' n /\ (forall i, (s <= i)%nat -> heap_at v' n i)).
Proof.
  induction fuel as [|f IH]; intros v s r n Hs Hn Hf Hb; [lia|]. cbn [lpp_sift_down].
  split_test.
  { split; [apply touches_refl|]. intros i Hi. destruct (decide (i = r)) as [->|]; [|by apply Hb].
    intros c Hc Hcn. lia. }
  apply wp_bind, pick_child; [lia..|]. intros c Hc Hcn Hmax.
  apply wp_bind, wp_rd_total; [lia|]. apply wp_bind, wp_rd_total; [lia|]. rewrite !Nat2Z.id.
  split_test.
  - split; [apply touches_refl|]. intros i Hi. destruct (decide (i = r)) as [->|]; [|by apply Hb].
    intros o Ho Hon. apply le_trans with (v !!! c); [by apply Hmax|done].
  - apply wp_bind, wp_swap; [lia..|]. rewrite !Nat2Z.id.
    eapply wp_mono; [apply (IH _ s)|]; rewrite ?swapped_length; try lia.
    + apply heap_but_swap; try done. by apply le_of_before.
    + intros v' [Ht Hh]. split; [|done]. eapply touches_trans; [|done]. apply touches_swapped; lia.
Qed.

(** The root of a heap is not before any of its cells. *)
Lemma heap_root v n :
  (forall i, heap_at v n i) -> forall i, (i < n)%nat -> le (v !!! i) (v !!! 0%nat).
Proof.
  intros Hh i. induction i as [i IH] using lt_wf_ind. intros Hi.
  destruct i as [|i]; [apply le_refl|].
  assert (exists p, (S i = 2 * p + 1 \/ S i = 2 * p + 2)%nat) as [p Hp].
  { destruct (Nat.Even_or_Odd i) as [[p ->]|[p ->]]; exists p; lia. }
  apply le_trans with (v !!! p); [by apply Hh|]. apply IH; lia.
Qed.

Lemma heap_build_spec k : forall v,
  (k <= length v)%nat -> (forall i, (k <= i)%nat -> heap_at v (length v) i) ->
  wp (heap_build before k v) (fun v' => v' ≡ₚ v /\ forall i, heap_at v' (length v') i).
Proof.
  induction k as [|i IH]; intros v Hk Hh; cbn [heap_build].
  - split; [done|]. intros. apply Hh. lia.
  - apply wp_bind. eapply wp_mono; [apply (sift_down_spec _ v i i (length v)); try lia|].
    + split; [intros; apply Hh; lia|]. intros p c. lia.
    + intros v1 [Ht Hh1]. pose proof (touches_length _ _ _ Ht) as Hl.
      eapply wp_mono; [apply IH|].
      * lia.
      * by rewrite Hl.
      * intros v2 [Hp Hh2]. split; [|done]. rewrite Hp. apply Ht.
Qed.

Lemma heap_drain_spec e : forall v,
  (e < length v)%nat -> (forall i, heap_at v (S e) i) ->
  (forall a b, (e < a)%nat -> (a < b)%nat -> (b < length v)%nat -> le (v !!! a) (v !!! b)) ->
  (forall a b, (a <= e)%nat -> (e < b)%nat -> (b < length v)%nat -> le (v !!! a) (v !!! b)) ->
  wp (heap_drain before e v) (fun v' => v' ≡ₚ v /\ sorted v').
Proof.
  induction e as [|e IH]; intros v He Hh Hs Hsep; cbn [heap_drain].
  { split; [done|]. intros a b Hab Hb. destruct a; [apply Hsep|apply Hs]; lia. }
  apply wp_bind, wp_swap; [lia..|]. change (Z.to_nat 0) with 0%nat. rewrite Nat2Z.id.
  set (w := swapped v 0 (S e)). assert (length w = length v) as Hlw by apply swapped_length.
  assert (forall k, (k < S (S e))%nat -> le (w !!! k) (v !!! 0%nat)) as Hmax.
  { intros k Hk. apply (swapped_forall v 0 (S e) (S (S e)) (fun x => le x (v !!! 0%nat))); try lia.
    intros i Hi. by apply (heap_root v (S (S e))). }
  assert (forall b, (S e < b)%nat -> w !!! b = v !!! b) as Hhi.
  { intros b Hb. apply swapped_other; lia. }
  assert (w !!! S e = v !!! 0%nat) as Htop by (apply swapped_r; lia).
  apply wp_bind. eapply wp_mono; [apply (sift_down_spec _ w 0 0 (S e)); try lia|].
  { split; [|intros p c ? [?|?]; lia]. intros i _ Hi c Hc Hcn.
    unfold w. rewrite !swapped_other by lia. apply (Hh i); [done|lia]. }
  intros v1 [(Hp1 & Hf1 & HP1) Hh1]. assert (length v1 = length v) as Hl1 by (rewrite Hp1; done).
  eapply wp_mono; [apply IH|].
  - lia.
  - intros. apply Hh1. lia.
  - intros a b Ha Hab Hb. rewrite !Hf1 by lia. rewrite (Hhi b) by lia.
    destruct (decide (a = S e)) as [->|].
    + rewrite Htop. apply Hsep; lia.
    + rewrite Hhi by lia. apply Hs; lia.
  - intros a b Ha Hb Hbl. rewrite (Hf1 b) by lia.
    apply (HP1 (fun x => le x (w !!! b))); [|lia]. intros k Hk.
    destruct (decide (b = S e)) as [->|].
    + rewrite Htop. apply Hmax. lia.
    + rewrite (Hhi b) by lia. apply le_trans with (v !!! 0%nat); [apply Hmax; lia|apply Hsep; lia].
  - intros v2 [Hp2 Hs2]. split; [|done]. rewrite Hp2, Hp1. apply swapped_perm; lia.
Qed.

Lemma heap_sort_spec v : wp (lpp_heap_sort before v) (fun v' => v' ≡ₚ v /\ sorted v').
Proof.
  unfold lpp_heap_sort. apply wp_bind. eapply wp_mono; [apply heap_build_spec|].
  - rewrite Nat.div2_div. apply Nat.Div0.div_le_upper_bound. lia.
  - intros i Hi c Hc Hcn. pose proof (Nat.div2_odd (length v)). destruct (Nat.odd _); simpl in *; lia.
  - intros v1 [Hp1 Hh1]. destruct (decide (length v1 = 0)%nat) as [Hz|].
    + apply nil_length_inv in Hz. subst. simpl. split; [done|]. intros a b ? Hb. simpl in Hb. lia.
    + eapply wp_mono; [apply heap_drain_spec|]; try lia.
      * by replace (S (length v1 - 1)) with (length v1) by lia.
      * intros v2 [Hp2 Hs2]. split; [by rewrite Hp2|done].
Qed.

(** ** Quicksort *)

Lemma scan_up_spec fuel : forall v pivot i,
  (i < length v)%nat -> (length v - i < fuel)%nat ->
  wp (scan_up before fuel v pivot (Z.of_nat i)) (fun r => exists i', r = Z.of_nat i' /\
    (i < i' <= length v)%nat /\
    (forall k, (i < k < i')%nat -> le (v !!! k) pivot) /\
    ((i' < length v)%nat -> le pivot (v !!! i'))).
Proof.
  induction fuel as [|f IH]; intros v pivot i Hi Hf; [lia|]. cbn [scan_up].
  replace (Z.of_nat i + 1) with (Z.of_nat (S i)) by lia. split_test.
  - apply wp_bind, wp_rd_total; [lia|]. rewrite Nat2Z.id. split_test.
    + eapply wp_mono; [apply IH; lia|]. intros r (i' & -> & Hr & Hlow & Hat). exists i'.
      split_and!; [done|lia|lia| |done]. intros k Hk.
      destruct (decide (k = S i)) as [->|]; [by apply le_of_before|apply Hlow; lia].
    + exists (S i). split_and!; [done|lia|lia| |done]. intros k Hk. lia.
  - exists (S i). split_and!; [done|lia|lia| |lia]. intros k Hk. lia.
Qed.

Lemma scan_down_spec fuel : forall v pivot j,
  (0 < j <= length v)%nat -> (j < fuel)%nat ->
  wp (scan_down before fuel v pivot (Z.of_nat j)) (fun r => exists j', r = Z.of_nat j' /\
    (j' < j)%nat /\
    (forall k, (j' < k < j)%nat -> le pivot (v !!! k)) /\
    ((0 < j')%nat -> le (v !!! j') pivot)).
Proof.
  induction fuel as [|f IH]; intros v pivot j Hj Hf; [lia|]. cbn [scan_down].
  destruct j as [|j]; [lia|]. replace (Z.of_nat (S j) - 1) with (Z.of_nat j) by lia. split_test.
  - apply wp_bind, wp_rd_total; [lia|]. rewrite Nat2Z.id. split_test.
    + eapply wp_mono; [apply IH; lia|]. intros r (j' & -> & Hr & Hhigh & Hat). exists j'.
      split_and!; [done|lia| |done]. intros k Hk.
      destruct (decide (k = j)) as [->|]; [by apply le_of_before|apply Hhigh; lia].
    + exists j. split_and!; [done|lia| |done]. intros k Hk. lia.
  - exists j. split_and!; [done|lia| |lia]. intros k Hk. lia.
Qed.

Lemma hoare_spec fuel : forall v pivot i j,
  (i < j <= length v)%nat -> (j - i < fuel)%nat -> v !!! 0%nat = pivot ->
  (forall k, (0 < k <= i)%nat -> le (v !!! k) pivot) ->
  (forall k, (j <= k < length v)%nat -> le pivot (v !!! k)) ->
  wp (hoare before fuel v pivot (Z.of_nat i) (Z.of_nat j)) (fun '(v', r) => exists j', r = Z.of_nat j' /\
    v' ≡ₚ v /\ v' !!! 0%nat = pivot /\ (j' < length v)%nat /\
    (forall k, (k <= j')%nat -> le (v' !!! k) pivot) /\
    (forall k, (j' < k < length v)%nat -> le pivot (v' !!! k))).
Proof.
  induction fuel as [|f IH]; intros v pivot i j Hij Hf H0 Hlo Hhi; [lia|]. cbn [hoare].
  apply wp_bind. eapply wp_mono; [apply scan_up_spec; lia|]. intros ? (i' & -> & Hi' & Hup & Hati).
  apply wp_bind. eapply wp_mono; [apply scan_down_spec; lia|]. intros ? (j' & -> & Hj' & Hdn & Hatj).
  assert (forall k, (0 < k < i')%nat -> le (v !!! k) pivot) as Hlo'.
  { intros k Hk. destruct (decide (k <= i)%nat); [apply Hlo|apply Hup]; lia. }
  assert (forall k, (j' < k < length v)%nat -> le pivot (v !!! k)) as Hhi'.
  { intros k Hk. destruct (decide (j <= k)%nat); [apply Hhi|apply Hdn]; lia. }
  split_test.
  - exists j'. split_and!; try done; [lia|]. intros k Hk. destruct (decide (k = 0)%nat) as [->|].
    { rewrite H0. apply le_refl. }
    destruct (decide (k = j')) as [->|]; [apply Hatj; lia|apply Hlo'; lia].
  - apply wp_bind, wp_swap; [lia..|]. rewrite !Nat2Z.id.
    eapply wp_mono; [apply IH|].
    + rewrite swapped_length. lia.
    + lia.
    + by rewrite swapped_other by lia.
    + intros k Hk. destruct (decide (k = i')) as [->|].
      * rewrite swapped_l by lia. apply Hatj. lia.
      * rewrite swapped_other by lia. apply Hlo'. lia.
    + rewrite swapped_length. intros k Hk. destruct (decide (k = j')) as [->|].
      * rewrite swapped_r by lia. apply Hati. lia.
      * rewrite swapped_other by lia. apply Hhi'. lia.
    + intros [v' r] (j2 & -> & Hp & Hrest). exists j2. rewrite swapped_length in Hrest.
      split_and!; try apply Hrest; [done|]. rewrite Hp. apply swapped_perm; lia.
Qed.

Lemma cond_swap_perm v a b (Q : list Z -> Prop) :
  0 <= a < Z.of_nat (length v) -> 0 <= b < Z.of_nat (length v) ->
  (forall v', v' ≡ₚ v -> length v' = length v -> Q v') -> wp (cond_swap before v a b) Q.
Proof.
  intros Ha Hb HQ. unfold cond_swap.
  apply wp_bind, wp_rd_total; [lia|]. apply wp_bind, wp_rd_total; [lia|]. split_test.
  - apply wp_swap; [lia..|]. apply HQ; [apply swapped_perm; lia|apply swapped_length].
  - by apply HQ.
Qed.

Lemma partition_spec v :
  (2 <= length v)%nat ->
  wp (partition before v) (fun '(v', r) => exists j, r = Z.of_nat j /\ (j < length v)%nat /\ v' ≡ₚ v /\
    (forall k, (k < j)%nat -> le (v' !!! k) (v' !!! j)) /\
    (forall k, (j < k < length v)%nat -> le (v' !!! j) (v' !!! k))).
Proof.
  intros Hn. unfold partition. set (n := Z.of_nat (length v)).
  assert (0 <= n / 2 < n) as Hmid by (subst n; split; [dlia|]; apply Z.div_lt_upper_bound; lia).
  apply wp_bind, cond_swap_perm; [lia..|]. intros v1 Hp1 Hl1.
  apply wp_bind, cond_swap_perm; [lia..|]. intros v2 Hp2 Hl2.
  apply wp_bind, cond_swap_perm; [lia..|]. intros v3 Hp3 Hl3.
  apply wp_bind, wp_swap; [lia..|]. set (v4 := swapped v3 _ _).
  assert (v4 ≡ₚ v) as Hp4.
  { unfold v4. rewrite swapped_perm by lia. by rewrite Hp3, Hp2. }
  assert (length v4 = length v) as Hl4 by (by rewrite Hp4). clearbody v4.
  apply wp_bind, wp_rd_total; [lia|]. change (Z.to_nat 0) with 0%nat. apply wp_bind.
  unfold n. rewrite <- Hl4. eapply wp_mono; [apply (hoare_spec _ v4 _ 0)|]; try (lia || done).
  intros [v5 r] (j & -> & Hp5 & H0 & Hj & Hle & Hge). assert (length v5 = length v) as Hl5 by (by rewrite Hp5).
  apply wp_bind, wp_swap; [lia..|]. change (Z.to_nat 0) with 0%nat. rewrite Nat2Z.id. cbn [wp].
  exists j. split_and!; [done|lia| | |].
  - rewrite swapped_perm by lia. by rewrite Hp5.
  - intros k Hk. rewrite (swapped_r v5 0 j), H0 by lia. rewrite swapped_lookup by lia. apply Hle.
    repeat case_decide; lia.
  - intros k Hk. rewrite (swapped_r v5 0 j), H0 by lia. rewrite swapped_other by lia. apply Hge. lia.
Qed.

(** ** The whole sort *)

Definition sorts (m : outcome (list Z)) (v : list Z) : Prop :=
  wp m (fun v' => v' ≡ₚ v /\ StronglySorted le v').

Lemma sorted_strongly v : sorted v -> StronglySorted le v.
Proof.
  induction v as [|x v IH]; intros Hs; constructor.
  - apply IH. intros a b Hab Hb. apply (Hs (S a) (S b)); simpl; lia.
  - apply (Forall_lookup_total_2 (A:=Z) _). intros k Hk. apply (Hs 0%nat (S k)); simpl; lia.
Qed.

Lemma sorts_intro m v : wp m (fun v' => v' ≡ₚ v /\ sorted v') -> sorts m v.
Proof. intros H. eapply wp_mono; [done|]. intros v' [? ?]. split; [done|by apply sorted_strongly]. Qed.

(** Sorting the two sides of a partition sorts the whole. *)
Lemma join_sides v l r j :
  (j < length v)%nat ->
  (forall k, (k < j)%nat -> le (v !!! k) (v !!! j)) ->
  (forall k, (j < k < length v)%nat -> le (v !!! j) (v !!! k)) ->
  l ≡ₚ take j v -> r ≡ₚ drop (S j) v -> StronglySorted le l -> StronglySorted le r ->
  l ++ [v !!! j] ++ r ≡ₚ v /\ StronglySorted le (l ++ [v !!! j] ++ r).
Proof.
  intros Hj Hlo Hhi Hl Hr Hsl Hsr.
  assert (Forall (fun x => le x (v !!! j)) l) as Hfl.
  { rewrite Hl. apply (Forall_lookup_total_2 (A:=Z) _). intros k Hk. rewrite length_take in Hk.
    rewrite lookup_total_take_lt by lia. apply Hlo. lia. }
  assert (Forall (le (v !!! j)) r) as Hfr.
  { rewrite Hr. apply (Forall_lookup_total_2 (A:=Z) _). intros k Hk. rewrite length_drop in Hk.
    rewrite lookup_total_drop. apply Hhi. lia. }
  split.
  - rewrite Hl, Hr. simpl. rewrite take_drop_middle; [done|]. by apply list_lookup_lookup_total_lt.
  - apply StronglySorted_app. split_and!; [|done|by constructor].
    intros x y Hx Hy. rewrite Forall_forall in Hfl, Hfr.
    apply elem_of_cons in Hy as [->|Hy]; [by apply Hfl|]. eapply le_trans; [by apply Hfl|by apply Hfr].
Qed.

Lemma quick_sort_spec depth : forall v, sorts (lpp_quick_sort before depth v) v.
Proof.
  induction depth as [|d IH]; intros v; cbn [lpp_quick_sort]; split_test;
    try (apply sorts_intro, heap_sort_spec || apply sorts_intro, insertion_sort_spec).
  apply wp_bind. eapply wp_mono; [apply partition_spec; lia|].
  intros [v1 ?] (j & -> & Hj & Hp & Hlo & Hhi).
  assert (length v1 = length v) as Hl by (by rewrite Hp). rewrite <- Hl in Hj, Hhi.
  apply wp_bind, wp_rd_total; [lia|]. rewrite Nat2Z.id. replace (j + 1)%nat with (S j) by lia.
  split_test; (apply wp_bind; eapply wp_mono; [apply IH|]; intros x [Hx Hsx];
    apply wp_bind; eapply wp_mono; [apply IH|]; intros y [Hy Hsy]; cbn [wp];
    rewrite <- Hp; apply join_sides; done).
Qed.

Lemma depth_limit_total fuel : forall m d,
  0 <= m < 2 ^ Z.of_nat fuel -> exists d', depth_limit (S fuel) m d = Ok d'.
Proof.
  induction fuel as [|f IH]; intros m d Hm.
  - simpl in Hm. cbn [depth_limit]. rewrite Z.gtb_ltb, (proj2 (Z.ltb_ge _ _)) by lia. by eexists.
  - change (exists d', (if m >? 1 then depth_limit (S f) (Z.shiftr m 1) (d + 2) else Ok d) = Ok d').
    split_test; [|by eexists]. apply IH.
    rewrite Z.shiftr_div_pow2 by lia. rewrite Nat2Z.inj_succ, Z.pow_succ_r in Hm by lia.
    change (2 ^ 1) with 2. split; [dlia|]. apply Z.div_lt_upper_bound; lia.
Qed.

Lemma sort_cells_spec v : Z.of_nat (length v) <= INT64_MAX -> sorts (sort_cells before v) v.
Proof.
  intros Hl. unfold sort_cells. destruct (Nat.ltb_spec (length v) 2) as [Hs|_].
  { split; [done|]. destruct v as [|x [|y v]]; [by constructor|by repeat constructor|simpl in Hs; lia]. }
  destruct (depth_limit_total 63 (Z.of_nat (length v)) 0) as [d Hd].
  { change (2 ^ Z.of_nat 63) with (2 ^ 63). pow2. lia. }
  rewrite Hd. apply quick_sort_spec.
Qed.
End correctness.

(** C3. [lpp_list_sort_with] sorts: for every comparison that is the strict part of a total
    preorder (all three the runtime passes are) and every list that fits in memory, the call
    returns, no access leaves the array, and the cells it leaves are a permutation of the
    cells it was given in which no later element is before an earlier one.  The bounded
    recursion depth never shows: when it runs out the heapsort takes over. *)
Theorem introsort_sorts before `{!SortOrder before} v :
  Z.of_nat (length v) <= INT64_MAX ->
  exists v', sort_cells before v = Ok v' /\ v' ≡ₚ v /\ StronglySorted (fun x y => before y x = false) v'.
Proof. intros Hl. destruct (wp_inv _ _ (sort_cells_spec before v Hl)) as (v' & ? & ? & ?). by exists v'. Qed.

Lemma introsort_sorts_witness :
  exists v', sort_cells lpp_u64_lt [3; -1; 2] = Ok v' /\ v' ≡ₚ [3; -1; 2] /\
    StronglySorted (fun x y => lpp_u64_lt y x = false) v'.
Proof. apply (introsort_sorts lpp_u64_lt [3; -1; 2]). vm_compute. discriminate. Defined.

(** Two lists with the same elements sort to the same list, whatever their initial order. *)
Lemma sort_cells_canonical v w :
  Z.of_nat (length v) <= INT64_MAX -> v ≡ₚ w -> sort_cells lpp_i64_lt v = sort_cells lpp_i64_lt w.
Proof.
  intros Hl Hp. pose proof (Permutation_length Hp) as Hlen.
  destruct (wp_inv _ _ (sort_cells_spec lpp_i64_lt v Hl)) as (v' & -> & Hv & Hsv).
  destruct (wp_inv _ _ (sort_cells_spec lpp_i64_lt w ltac:(lia))) as (w' & -> & Hw & Hsw).
  f_equal. assert (AntiSymm eq (le lpp_i64_lt)) as Ha.
  { intros x y Hx Hy. unfold le, lpp_i64_lt in *. bool_to_prop. lia. }
  eapply (StronglySorted_unique (le lpp_i64_lt)); [done|done|]. by rewrite Hv, Hw.
Qed.
