(* ===== verification/ListRt.v ===== *)
(** * The runtime list (runtime/lpp_runtime.c, "List<Int>")

    [LppList] with every operation of the host runtime on it.  [data] is the block the C field
    points to, as the list of its [cap] cells (cells above [len] hold whatever the allocator
    left there); the callbacks [retain_element] and [drop_element] are either NULL or the two
    ARC functions, so each is a boolean.  A list argument is an [option]: [None] is the NULL
    pointer.  An operation returns the new list with the calls it made into the reference
    counter, in order; the theorems relate it to the sequence [elems] the list stands for. *)

From S2P Require Import Prelude Sort.

Record LppList := mk_list {
  data : list Z;
  len : Z;
  cap : Z;
  retain_element : bool;
  drop_element : bool
}.

Definition set_data (l : LppList) (d : list Z) : LppList :=
  mk_list d (len l) (cap l) (retain_element l) (drop_element l).
Definition set_len (l : LppList) (n : Z) : LppList :=
  mk_list (data l) n (cap l) (retain_element l) (drop_element l).
Definition set_block (l : LppList) (d : list Z) (c : Z) : LppList :=
  mk_list d (len l) c (retain_element l) (drop_element l).

(** The filter of both element callbacks: only what can be a heap pointer is counted. *)
Definition arc_like (v : Z) : bool :=
  negb ((v =? 0) || negb (Z.land v 7 =? 0) || (u64 v <? 0x1000)).
Definition lpp_list_arc_retain_element (v : Z) : list arc_ev := if arc_like v then [Retain v] else [].
Definition lpp_list_arc_drop_element (v : Z) : list arc_ev := if arc_like v then [Release v] else [].

(** [if (l->retain_element) l->retain_element(value)], and the same for dropping. *)
Definition call_retain (l : LppList) (v : Z) : list arc_ev :=
  if retain_element l then lpp_list_arc_retain_element v else [].
Definition call_drop (l : LppList) (v : Z) : list arc_ev :=
  if drop_element l then lpp_list_arc_drop_element v else [].

(** [memmove] of [n] cells inside one block. *)
Definition memmove (d : list Z) (dst src n : Z) : outcome (list Z) :=
  if (0 <=? dst) && (0 <=? src) && (0 <=? n) && (dst + n <=? Z.of_nat (length d))
     && (src + n <=? Z.of_nat (length d))
  then Ok (take (Z.to_nat dst) d ++ take (Z.to_nat n) (drop (Z.to_nat src) d)
           ++ drop (Z.to_nat (dst + n)) d)
  else Undef.

(** What [realloc] answers and leaves in new cells. *)
Record allocation := {
  granted : Z -> bool;          (* is a request of this many bytes served? *)
  junk : nat -> Z               (* the contents of a fresh cell *)
}.

(** [realloc(data, (size_t)new_cap * sizeof(int64_t))]: the size is computed in [size_t]. *)
Definition realloc_cells (al : allocation) (d : list Z) (new_cap : Z) : option (list Z) :=
  let bytes := u64 (u64 new_cap * 8) in
  if granted al bytes then
    let n := Z.to_nat (bytes / 8) in
    Some (take n d ++ map (junk al) (seq (length d) (n - length d)))
  else None.

(** ** Construction and destruction *)

Definition lpp_list_new_with_ownership (alloc_ok : bool) (retain drop : bool) : outcome LppList :=
  if alloc_ok then Ok (mk_list [] 0 0 retain drop)
  else Panic "out of memory while creating list".
Definition lpp_list_new (alloc_ok : bool) : outcome LppList :=
  lpp_list_new_with_ownership alloc_ok false false.
Definition lpp_list_new_arc (alloc_ok : bool) : outcome LppList :=
  lpp_list_new_with_ownership alloc_ok true true.

(** [for (i = from; i < from + k; ++i) l->drop_element(l->data[i])]. *)
Fixpoint drop_loop (l : LppList) (k : nat) (from : Z) : outcome (list arc_ev) :=
  match k with
  | O => Ok []
  | S k' =>
      let! x := rd (data l) from in
      let! ev := drop_loop l k' (from + 1) in
      Ok (lpp_list_arc_drop_element x ++ ev)
  end.

Definition drop_range (l : LppList) (from to : Z) : outcome (list arc_ev) :=
  if drop_element l then drop_loop l (Z.to_nat (to - from)) from else Ok [].

Definition lpp_list_destroy (l : LppList) : outcome (LppList * list arc_ev) :=
  let! ev := drop_range l 0 (len l) in
  Ok (mk_list [] 0 0 (retain_element l) (drop_element l), ev).

(** ** Operations *)

Definition lpp_list_push (al : allocation) (xs : option LppList) (value : Z)
  : outcome (LppList * list arc_ev) :=
  match xs with
  | None => Panic "push attempted on null list pointer"
  | Some l =>
      let! l :=
        (if len l =? cap l then
           if cap l >? INT64_MAX / 2 then Panic "list capacity overflow"
           else
             let new_cap := if cap l =? 0 then 8 else cap l * 2 in
             if new_cap >? INT64_MAX / 8 then Panic "list allocation size overflow"
             else match realloc_cells al (data l) new_cap with
                  | None => Panic "out of memory while growing list"
                  | Some d => Ok (set_block l d new_cap)
                  end
         else Ok l) in
      let ev := call_retain l value in
      let! d := wr (data l) (len l) value in
      Ok (set_len (set_data l d) (len l + 1), ev)
  end.

Definition lpp_list_push_arc (al : allocation) (xs : option LppList) (value : Z)
  : outcome (LppList * list arc_ev) :=
  let xs := match xs with
              | Some l => if negb (retain_element l)
                          then Some (mk_list (data l) (len l) (cap l) true true) else Some l
              | None => None
              end in
  lpp_list_push al xs value.

(** A [double] is stored as its 64-bit pattern. *)
Definition lpp_list_push_float (al : allocation) (xs : option LppList) (bits : Z) :=
  lpp_list_push al xs (i64 bits).
Definition lpp_list_push_bool (al : allocation) (xs : option LppList) (value : Z) :=
  lpp_list_push al xs (if value =? 0 then 0 else 1).

Definition lpp_list_get (xs : option LppList) (index : Z) : outcome Z :=
  match xs with
  | None => Panic "list index access attempted on null list pointer"
  | Some l =>
      if (index <? 0) || (index >=? len l)
      then Panic "list index out of bounds: index %lld, len %lld"
      else rd (data l) index
  end.
Definition lpp_list_get_float (xs : option LppList) (index : Z) : outcome Z :=
  let! ival := lpp_list_get xs index in Ok (u64 ival).
Definition lpp_list_get_bool (xs : option LppList) (index : Z) : outcome Z :=
  let! v := lpp_list_get xs index in Ok (b2z (negb (v =? 0))).
Definition lpp_list_get_arc (xs : option LppList) (index : Z) : outcome Z := lpp_list_get xs index.

Definition lpp_list_set (xs : option LppList) (index value : Z) : outcome (LppList * list arc_ev) :=
  match xs with
  | None => Panic "list set attempted on null list pointer"
  | Some l =>
      if (index <? 0) || (index >=? len l)
      then Panic "list index out of bounds on set: index %lld, len %lld"
      else
        let ev1 := if negb (value =? 0) then call_retain l value else [] in
        let! old := rd (data l) index in
        let ev2 := if negb (old =? 0) then call_drop l old else [] in
        let! d := wr (data l) index value in
        Ok (set_data l d, ev1 ++ ev2)
  end.
Definition lpp_list_set_bool (xs : option LppList) (index value : Z) :=
  lpp_list_set xs index (if value =? 0 then 0 else 1).
Definition lpp_list_set_float (xs : option LppList) (index bits : Z) :=
  lpp_list_set xs index (i64 bits).
Definition lpp_list_set_arc (xs : option LppList) (index value : Z) := lpp_list_set xs index value.

Definition lpp_list_len (xs : option LppList) : Z := match xs with Some l => len l | None => 0 end.
Definition lpp_list_capacity (xs : option LppList) : Z :=
  match xs with Some l => cap l | None => 0 end.

Definition lpp_list_pop (xs : option LppList) : outcome (LppList * Z) :=
  match xs with
  | None => Panic "list pop attempted on empty or null list"
  | Some l =>
      if len l <=? 0 then Panic "list pop attempted on empty or null list"
      else
        let l := set_len l (len l - 1) in
        let! x := rd (data l) (len l) in
        Ok (l, x)
  end.

Definition lpp_list_insert (al : allocation) (xs : option LppList) (index value : Z)
  : outcome (LppList * list arc_ev) :=
  match xs with
  | None => Panic "list insert attempted on null pointer"
  | Some l =>
      if (index <? 0) || (index >? len l)
      then Panic "list insert index %lld out of bounds (len %lld)"
      else
        let! l :=
          (if len l =? cap l then
             let! new_cap := (if cap l =? 0 then Ok 8 else chk64 (cap l * 2)) in
             match realloc_cells al (data l) new_cap with
             | None => Panic "out of memory while inserting into list"
             | Some d => Ok (set_block l d new_cap)
             end
           else Ok l) in
        let! d := (if index <? len l then memmove (data l) (index + 1) index (len l - index)
                   else Ok (data l)) in
        let ev := call_retain l value in
        let! d := wr d index value in
        Ok (set_len (set_data l d) (len l + 1), ev)
  end.

Definition lpp_list_remove (xs : option LppList) (index : Z) : outcome (LppList * Z) :=
  match xs with
  | None => Panic "list remove attempted on null pointer"
  | Some l =>
      if (index <? 0) || (index >=? len l)
      then Panic "list remove index %lld out of bounds (len %lld)"
      else
        let! val := rd (data l) index in
        let! d := (if index <? len l - 1 then memmove (data l) index (index + 1) (len l - index - 1)
                   else Ok (data l)) in
        Ok (set_len (set_data l d) (len l - 1), val)
  end.

(** Operations that accept NULL return the list they were given. *)
Definition lpp_list_reserve (al : allocation) (xs : option LppList) (capacity : Z)
  : outcome (option LppList) :=
  match xs with
  | None => Ok None
  | Some l =>
      if capacity <=? cap l then Ok (Some l)
      else match realloc_cells al (data l) capacity with
           | None => Panic "out of memory in list_reserve"
           | Some d => Ok (Some (set_block l d capacity))
           end
  end.

Definition lpp_list_clear (xs : option LppList) : outcome (option LppList * list arc_ev) :=
  match xs with
  | None => Ok (None, [])
  | Some l => let! ev := drop_range l 0 (len l) in Ok (Some (set_len l 0), ev)
  end.

Definition lpp_list_truncate (xs : option LppList) (new_len : Z)
  : outcome (option LppList * list arc_ev) :=
  match xs with
  | None => Ok (None, [])
  | Some l =>
      if (new_len >=? len l) || (new_len <? 0) then Ok (Some l, [])
      else let! ev := drop_range l new_len (len l) in Ok (Some (set_len l new_len), ev)
  end.

Definition lpp_list_swap (xs : option LppList) (i j : Z) : outcome LppList :=
  match xs with
  | None => Panic "list swap on null pointer"
  | Some l =>
      if (i <? 0) || (i >=? len l) || (j <? 0) || (j >=? len l)
      then Panic "list swap indices out of bounds"
      else let! d := swap (data l) i j in Ok (set_data l d)
  end.

(** [while (i < j) { swap; i++; j--; }]. *)
Fixpoint reverse_loop (fuel : nat) (d : list Z) (i j : Z) : outcome (list Z) :=
  match fuel with
  | O => NoFuel
  | S f => if i <? j then let! d := swap d i j in reverse_loop f d (i + 1) (j - 1) else Ok d
  end.

Definition lpp_list_reverse (xs : option LppList) : outcome (option LppList) :=
  match xs with
  | None => Ok None
  | Some l =>
      if len l <=? 1 then Ok (Some l)
      else let! d := reverse_loop (S (Z.to_nat (len l))) (data l) 0 (len l - 1) in
           Ok (Some (set_data l d))
  end.

Definition lpp_list_sort_with (xs : option LppList) (before : Z -> Z -> bool)
  : outcome (option LppList) :=
  match xs with
  | None => Ok None
  | Some l =>
      if len l <? 2 then Ok (Some l)
      else
        let! v := sort_cells before (take (Z.to_nat (len l)) (data l)) in
        Ok (Some (set_data l (v ++ drop (Z.to_nat (len l)) (data l))))
  end.
Definition lpp_list_sort (xs : option LppList) := lpp_list_sort_with xs lpp_i64_lt.
Definition lpp_list_sort_desc (xs : option LppList) := lpp_list_sort_with xs lpp_i64_gt.
Definition lpp_list_sort_u (xs : option LppList) := lpp_list_sort_with xs lpp_u64_lt.

(** [for (i = from; i < from + k; ++i) if (l->data[i] == value) return i]. *)
Fixpoint index_loop (d : list Z) (value : Z) (k : nat) (i : Z) : outcome Z :=
  match k with
  | O => Ok (-1)
  | S k' => let! x := rd d i in if x =? value then Ok i else index_loop d value k' (i + 1)
  end.
Definition lpp_list_index_of (xs : option LppList) (value : Z) : outcome Z :=
  match xs with
  | None => Ok (-1)
  | Some l => index_loop (data l) value (Z.to_nat (len l)) 0
  end.

Fixpoint bsearch (fuel : nat) (d : list Z) (value lo hi : Z) : outcome Z :=
  match fuel with
  | O => NoFuel
  | S f =>
      if lo <=? hi then
        let mid := lo + (hi - lo) / 2 in
        let! probe := rd d mid in
        if probe =? value then Ok mid
        else if probe <? value then bsearch f d value (mid + 1) hi
        else bsearch f d value lo (mid - 1)
      else Ok (- (lo + 1))
  end.
Definition lpp_list_binary_search (xs : option LppList) (value : Z) : outcome Z :=
  match xs with
  | None => Ok (-1)
  | Some l => bsearch 64 (data l) value 0 (len l - 1)
  end.

(** The source of an extension: NULL, another list, or the destination itself. *)
Inductive extend_src := NoSrc | Other (s : LppList) | Itself.

(** [for (i = 0; i < add; ++i)]: the cells already written are seen by later reads when the
    source is the destination. *)
Fixpoint extend_loop (d : LppList) (src : LppList -> list Z) (k : nat) (i : Z)
  : outcome (LppList * list arc_ev) :=
  match k with
  | O => Ok (d, [])
  | S k' =>
      let! v := rd (src d) i in
      let ev := call_retain d v in
      let! c := wr (data d) (len d + i) v in
      let! '(d, ev') := extend_loop (set_data d c) src k' (i + 1) in
      Ok (d, ev ++ ev')
  end.

Definition lpp_list_extend (al : allocation) (dst : option LppList) (src : extend_src)
  : outcome (LppList * list arc_ev) :=
  match dst with
  | None => Panic "list extend attempted on null destination"
  | Some d =>
      let go (add : Z) (cells : LppList -> list Z) :=
        if add =? 0 then Ok (d, [])
        else
          let! total := chk64 (len d + add) in
          let! r := lpp_list_reserve al (Some d) total in
          match r with
          | None => Ok (d, [])
          | Some d =>
              let! '(d, ev) := extend_loop d cells (Z.to_nat add) 0 in
              Ok (set_len d (len d + add), ev)
          end in
      match src with
      | NoSrc => Ok (d, [])
      | Other s => go (len s) (fun _ => data s)
      | Itself => go (len d) data
      end
  end.

(** ** The invariant and the sequence a list stands for *)

Definition elems (l : LppList) : list Z := take (Z.to_nat (len l)) (data l).

Record list_wf (l : LppList) : Prop := {
  wf_len : 0 <= len l <= cap l;
  wf_cap : Z.of_nat (length (data l)) = cap l;
  wf_size : cap l * 8 <= INT64_MAX;
  wf_owned : retain_element l = drop_element l
}.
#[export] Hint Resolve wf_len wf_cap wf_size wf_owned : rt.

(** No object is larger than [PTRDIFF_MAX] bytes, so no such request is served. *)
Class SysAlloc (al : allocation) : Prop :=
  granted_bound : forall n, granted al n = true -> n <= INT64_MAX.

Lemma elems_length l : list_wf l -> Z.of_nat (length (elems l)) = len l.
Proof. intros [? ? ? ?]. unfold elems. rewrite length_take. lia. Qed.

Lemma realloc_grow al `{!SysAlloc al} d c :
  Z.of_nat (length d) <= c -> c * 8 < 2 ^ 64 ->
  (granted al (c * 8) = true ->
     exists js, realloc_cells al d c = Some (d ++ js) /\ Z.of_nat (length (d ++ js)) = c /\
       c * 8 <= INT64_MAX) /\
  (granted al (c * 8) = false -> realloc_cells al d c = None).
Proof.
  intros Hd Hc. unfold realloc_cells. rewrite (u64_id c), (u64_id (c * 8)) by lia.
  split; intros Hg; rewrite Hg; [|done].
  eexists. rewrite Z.div_mul, take_ge by lia. split; [done|].
  rewrite length_app, length_map, length_seq. apply granted_bound in Hg. lia.
Qed.

(** ** The abstract sequence *)

Inductive list_op :=
| OPush (v : Z) | OPushArc (v : Z) | OSet (i v : Z) | OPop | OInsert (i v : Z) | ORemove (i : Z)
| OReserve (c : Z) | OClear | OTruncate (n : Z) | OSwap (i j : Z) | OReverse
| OSort (before : Z -> Z -> bool) | OExtend (src : extend_src).

(** An operation as the code runs it: the new list, the value returned (0 for [void]) and the
    calls into the reference counter. *)
Definition some_of (m : outcome (option LppList * list arc_ev)) : outcome (LppList * Z * list arc_ev) :=
  let! '(o, ev) := m in match o with Some l => Ok (l, 0, ev) | None => Undef end.
Definition list_step (al : allocation) (op : list_op) (l : LppList) : outcome (LppList * Z * list arc_ev) :=
  match op with
  | OPush v => let! '(l, ev) := lpp_list_push al (Some l) v in Ok (l, 0, ev)
  | OPushArc v => let! '(l, ev) := lpp_list_push_arc al (Some l) v in Ok (l, 0, ev)
  | OSet i v => let! '(l, ev) := lpp_list_set (Some l) i v in Ok (l, 0, ev)
  | OPop => let! '(l, x) := lpp_list_pop (Some l) in Ok (l, x, [])
  | OInsert i v => let! '(l, ev) := lpp_list_insert al (Some l) i v in Ok (l, 0, ev)
  | ORemove i => let! '(l, x) := lpp_list_remove (Some l) i in Ok (l, x, [])
  | OReserve c => some_of (let! o := lpp_list_reserve al (Some l) c in Ok (o, []))
  | OClear => some_of (lpp_list_clear (Some l))
  | OTruncate n => some_of (lpp_list_truncate (Some l) n)
  | OSwap i j => let! l := lpp_list_swap (Some l) i j in Ok (l, 0, [])
  | OReverse => some_of (let! o := lpp_list_reverse (Some l) in Ok (o, []))
  | OSort before => some_of (let! o := lpp_list_sort_with (Some l) before in Ok (o, []))
  | OExtend src => let! '(l, ev) := lpp_list_extend al (Some l) src in Ok (l, 0, ev)
  end.

Definition retains (o : bool) (v : Z) : list arc_ev := if o && arc_like v then [Retain v] else [].
Definition releases (o : bool) (v : Z) : list arc_ev := if o && arc_like v then [Release v] else [].

Definition src_elems (src : extend_src) (xs : list Z) : list Z :=
  match src with NoSrc => [] | Other s => elems s | Itself => xs end.

Definition in_range (i : Z) (xs : list Z) : bool := (0 <=? i) && (i <? Z.of_nat (length xs)).

(** When the operation is defined on the sequence. *)
Definition list_pre (op : list_op) (xs : list Z) : bool :=
  match op with
  | OSet i _ | ORemove i => in_range i xs
  | OSwap i j => in_range i xs && in_range j xs
  | OInsert i _ => (0 <=? i) && (i <=? Z.of_nat (length xs))
  | OPop => negb (Z.of_nat (length xs) =? 0)
  | _ => true
  end.

(** What it does to the sequence, to the ownership mode and to the reference counts. *)
Definition list_spec (op : list_op) (xs : list Z) (o : bool)
    (xs' : list Z) (o' : bool) (r : Z) (ev : list arc_ev) : Prop :=
  match op with
  | OPush v => xs' = xs ++ [v] /\ o' = o /\ ev = retains o v
  | OPushArc v => xs' = xs ++ [v] /\ o' = true /\ ev = retains true v
  | OSet i v => xs' = <[Z.to_nat i := v]> xs /\ o' = o /\
                ev = retains o v ++ releases o (xs !!! Z.to_nat i)
  | OPop => xs = xs' ++ [r] /\ o' = o /\ ev = []
  | OInsert i v => xs' = take (Z.to_nat i) xs ++ v :: drop (Z.to_nat i) xs /\ o' = o /\ ev = retains o v
  | ORemove i => xs = take (Z.to_nat i) xs' ++ r :: drop (Z.to_nat i) xs' /\ o' = o /\ ev = []
  | OReserve _ => xs' = xs /\ o' = o /\ ev = []
  | OClear => xs' = [] /\ o' = o /\ ev = mbind (releases o) xs
  | OTruncate n =>
      let k := if n <? 0 then length xs else Z.to_nat n in
      xs' = take k xs /\ o' = o /\ ev = mbind (releases o) (drop k xs)
  | OSwap i j => xs' = swapped xs (Z.to_nat i) (Z.to_nat j) /\ o' = o /\ ev = []
  | OReverse => xs' = reverse xs /\ o' = o /\ ev = []
  | OSort before =>
      xs' ≡ₚ xs /\ Sorted.StronglySorted (fun x y => before y x = false) xs' /\ o' = o /\ ev = []
  | OExtend src => xs' = xs ++ src_elems src xs /\ o' = o /\ ev = mbind (retains o) (src_elems src xs)
  end.

(** The capacity an operation asks the allocator for, if any. *)
Definition doubled (l : LppList) : Z := if cap l =? 0 then 8 else cap l * 2.
Definition src_len (src : extend_src) (l : LppList) : Z :=
  match src with NoSrc => 0 | Other s => len s | Itself => len l end.
Definition request (op : list_op) (l : LppList) : option Z :=
  match op with
  | OPush _ | OPushArc _ | OInsert _ _ => if len l =? cap l then Some (doubled l) else None
  | OReserve c => if c >? cap l then Some c else None
  | OExtend src => if (0 <? src_len src l) && (len l + src_len src l >? cap l)
                   then Some (len l + src_len src l) else None
  | _ => None
  end.
Definition served (al : allocation) (op : list_op) (l : LppList) : bool :=
  match request op l with Some c => granted al (c * 8) | None => true end.

(** Arguments the theorems cover: a real order, a well-formed source, and a capacity whose
    size in bytes is representable. *)
Definition op_wf (op : list_op) : Prop :=
  match op with
  | OSort before => SortOrder before
  | OExtend (Other s) => list_wf s
  | OReserve c => c * 8 <= INT64_MAX
  | _ => True
  end.

(** The operation ran as the sequence says. *)
Definition runs_as (m : outcome (LppList * Z * list arc_ev)) (op : list_op) (l : LppList) : Prop :=
  wp m (fun '(l', r, ev) => list_wf l' /\
    list_spec op (elems l) (retain_element l) (elems l') (retain_element l') r ev).
Definition panics {A} (m : outcome A) : Prop := exists msg, m = Panic msg.

(** ** The operations implement the sequence *)

Lemma call_retain_eq l v : call_retain l v = retains (retain_element l) v.
Proof. unfold call_retain, retains, lpp_list_arc_retain_element. by destruct (retain_element l). Qed.

Lemma call_drop_eq l v : list_wf l -> call_drop l v = releases (retain_element l) v.
Proof. intros Hl. unfold call_drop, releases, lpp_list_arc_drop_element. rewrite (wf_owned l Hl). by destruct (drop_element l). Qed.

(** Storing at [len] and counting it appends. *)
Lemma take_store {A} (d : list A) n v :
  (n < length d)%nat -> take (S n) (<[n := v]> d) = take n d ++ [v].
Proof.
  intros Hn. rewrite (take_S_r _ _ v) by (by apply list_lookup_insert_eq).
  by rewrite take_insert_ge.
Qed.

(** Shifting the tail of a block up by one cell and storing in the gap inserts. *)
Lemma shift_up_insert (d : list Z) (i n : nat) v :
  (i < n)%nat -> (n < length d)%nat ->
  take (S n) (<[i := v]> (take (S i) d ++ take (n - i) (drop i d) ++ drop (S n) d))
  = take i (take n d) ++ v :: drop i (take n d).
Proof.
  intros Hi Hn. destruct (lookup_lt_is_Some_2 d i) as [x Hx]; [lia|].
  rewrite (take_S_r d i x Hx), <- (assoc_L (++)). rewrite insert_app_r_alt by (rewrite length_take; lia).
  rewrite length_take, Nat.min_l, Nat.sub_diag by lia. cbn.
  rewrite take_app_ge by (rewrite length_take; lia). rewrite length_take, Nat.min_l by lia.
  replace (S n - i)%nat with (S (n - i)) by lia. cbn.
  rewrite take_take, Nat.min_l, skipn_firstn_comm by lia. f_equal. f_equal.
  rewrite take_app_le by (rewrite length_take, length_drop; lia). by rewrite take_take, Nat.min_id.
Qed.

(** Shifting it down over a cell removes that cell. *)
Lemma shift_down_remove (d : list Z) (i n : nat) x :
  d !! i = Some x -> (S i < n)%nat -> (n <= length d)%nat ->
  let r := take (n - 1) (take i d ++ take (n - i - 1) (drop (S i) d) ++ drop (n - 1) d) in
  take n d = take i r ++ x :: drop i r.
Proof.
  intros Hx Hi Hn r. assert (r = take i d ++ take (n - i - 1) (drop (S i) d)) as ->.
  { unfold r. rewrite (assoc_L (++)). rewrite take_app_le.
    2: { rewrite length_app, !length_take, length_drop. lia. }
    apply take_ge. rewrite length_app, !length_take, length_drop. lia. }
  rewrite take_app_le, take_take, Nat.min_id by (rewrite length_take; lia).
  rewrite drop_app_ge by (rewrite length_take; lia).
  rewrite length_take, Nat.min_l, Nat.sub_diag, drop_0 by lia.
  rewrite <- (take_drop_middle d i x Hx) at 1.
  rewrite take_app_ge by (rewrite length_take; lia). rewrite length_take, Nat.min_l by lia.
  by destruct (n - i)%nat eqn:E; [lia|]; cbn; rewrite Nat.sub_0_r.
Qed.

Lemma memmove_ok d dst src n :
  0 <= dst -> 0 <= src -> 0 <= n -> dst + n <= Z.of_nat (length d) -> src + n <= Z.of_nat (length d) ->
  memmove d dst src n = Ok (take (Z.to_nat dst) d ++ take (Z.to_nat n) (drop (Z.to_nat src) d)
    ++ drop (Z.to_nat (dst + n)) d).
Proof. intros. unfold memmove. by rewrite !(proj2 (Z.leb_le _ _)) by lia. Qed.

Lemma memmove_length d dst src n d' : memmove d dst src n = Ok d' -> length d' = length d.
Proof.
  unfold memmove. split_test; [|done]. intros [= <-].
  rewrite !length_app, !length_take, !length_drop. lia.
Qed.

Section steps.
Context (al : allocation) `{!SysAlloc al}.

(** Doubling: served with the cells kept, or refused. *)
Lemma grow_block l :
  list_wf l -> len l = cap l ->
  (granted al (doubled l * 8) = true ->
     exists d, realloc_cells al (data l) (doubled l) = Some d /\ list_wf (set_block l d (doubled l)) /\
       elems (set_block l d (doubled l)) = elems l /\ len l < doubled l) /\
  (granted al (doubled l * 8) = false -> realloc_cells al (data l) (doubled l) = None).
Proof.
  intros Hl Hfull. destruct Hl as [H1 H2 H3 H4].
  assert (Z.of_nat (length (data l)) <= doubled l /\ len l < doubled l /\ doubled l * 8 < 2 ^ 64) as (Hd & Hlt & Hb).
  { unfold doubled. pow2. destruct (Z.eqb_spec (cap l) 0); lia. }
  destruct (realloc_grow al (data l) (doubled l) Hd Hb) as [Hyes Hno]. split; [|done].
  intros Hg. destruct (Hyes Hg) as (js & -> & Hlen & Hsz). exists (data l ++ js).
  split_and!; [done| | |done].
  - split; simpl; [lia|done|done|done].
  - unfold elems. simpl. rewrite take_app_le by lia. done.
Qed.

Lemma store_last l v :
  list_wf l -> len l < cap l ->
  wp (wr (data l) (len l) v) (fun d =>
    list_wf (set_len (set_data l d) (len l + 1)) /\
    elems (set_len (set_data l d) (len l + 1)) = elems l ++ [v]).
Proof.
  intros [H1 H2 H3 H4] Hlt. apply wp_wr; [lia|]. split.
  - split; simpl; rewrite ?length_insert; try lia. done.
  - unfold elems. simpl. replace (Z.to_nat (len l + 1)) with (S (Z.to_nat (len l))) by lia.
    apply take_store. lia.
Qed.

Lemma push_spec l v :
  list_wf l ->
  (served al (OPush v) l = true ->
     wp (lpp_list_push al (Some l) v) (fun '(l', ev) => list_wf l' /\ elems l' = elems l ++ [v] /\
       retain_element l' = retain_element l /\ ev = retains (retain_element l) v)) /\
  (served al (OPush v) l = false -> panics (lpp_list_push al (Some l) v)).
Proof.
  intros Hl. unfold served, request, lpp_list_push. destruct (Z.eqb_spec (len l) (cap l)) as [Hfull|Hroom].
  - pose proof Hl as [? ? ? ?].
    assert ((cap l >? INT64_MAX / 2) = false) as ->.
    { rewrite Z.gtb_ltb. apply Z.ltb_ge. pow2. change ((9223372036854775808 - 1) / 2) with 4611686018427387903. lia. }
    change (if cap l =? 0 then 8 else cap l * 2) with (doubled l).
    destruct (grow_block l Hl Hfull) as [Hyes Hno]. split; intros Hg.
    + destruct (Hyes Hg) as (d & Hd & Hwf & He & Hlt).
      assert ((doubled l >? INT64_MAX / 8) = false) as ->.
      { pose proof (wf_size _ Hwf) as Hs. cbn in Hs. rewrite Z.gtb_ltb. apply Z.ltb_ge. pow2.
        change ((9223372036854775808 - 1) / 8) with 1152921504606846975. lia. }
      rewrite Hd. cbn [obind]. apply wp_bind. eapply wp_mono; [apply (store_last _ v Hwf); exact Hlt|].
      intros d' [Hw' He']. cbn [wp]. rewrite call_retain_eq. split_and!; [done|by rewrite He', He|done|done].
    + destruct (doubled l >? INT64_MAX / 8); [by eexists|]. rewrite (Hno Hg). by eexists.
  - split; [intros _|done]. cbn [obind]. apply wp_bind. pose proof Hl as [? ? ? ?].
    eapply wp_mono; [apply (store_last _ v Hl); lia|].
    intros d' [Hw' He']. cbn [wp]. rewrite call_retain_eq. done.
Qed.

Lemma push_refines l v : list_wf l ->
  (served al (OPush v) l = true -> runs_as (list_step al (OPush v) l) (OPush v) l) /\
  (served al (OPush v) l = false -> panics (list_step al (OPush v) l)).
Proof.
  intros Hl. destruct (push_spec l v Hl) as [Hy Hn]. split; intros Hs.
  - unfold runs_as, list_step. apply wp_bind. eapply wp_mono; [by apply Hy|].
    intros [l' ev] (? & ? & ? & ?). done.
  - destruct (Hn Hs) as [msg Hm]. exists msg. unfold list_step. by rewrite Hm.
Qed.

Lemma push_arc_refines l v : list_wf l ->
  (served al (OPushArc v) l = true -> runs_as (list_step al (OPushArc v) l) (OPushArc v) l) /\
  (served al (OPushArc v) l = false -> panics (list_step al (OPushArc v) l)).
Proof.
  intros Hl. set (m := mk_list (data l) (len l) (cap l) true true).
  assert (list_wf m) as Hm by (destruct Hl; by split).
  assert (lpp_list_push_arc al (Some l) v = lpp_list_push al (Some m) v) as Heq.
  { unfold lpp_list_push_arc. destruct (retain_element l) eqn:Er; simpl; [|done].
    pose proof (wf_owned _ Hl). destruct l; simpl in *; subst. done. }
  destruct (push_spec m v Hm) as [Hy Hn]. unfold runs_as, list_step. rewrite Heq. split; intros Hs.
  - apply wp_bind. eapply wp_mono; [by apply Hy|]. intros [l' ev] (? & ? & ? & ?). done.
  - destruct (Hn Hs) as [msg Hmm]. exists msg. by rewrite Hmm.
Qed.

(** *** Index based operations *)

Lemma in_range_spec i l : list_wf l -> in_range i (elems l) = true <-> 0 <= i < len l.
Proof. intros Hl. unfold in_range. rewrite elems_length by done. rewrite andb_true_iff, Z.leb_le, Z.ltb_lt. done. Qed.

(** The guard of the code is the complement of the range. *)
Lemma in_range_guard i l : list_wf l -> (i <? 0) || (i >=? len l) = negb (in_range i (elems l)).
Proof.
  intros Hl. unfold in_range. rewrite elems_length by done.
  rewrite Z.geb_leb, negb_andb, <- Z.ltb_antisym, <- Z.leb_antisym. done.
Qed.

Lemma elems_lookup l i x :
  list_wf l -> 0 <= i < len l -> data l !! Z.to_nat i = Some x -> elems l !! Z.to_nat i = Some x.
Proof. intros _ Hi Hx. unfold elems. by rewrite lookup_take_lt by lia. Qed.

Lemma elems_total l i : list_wf l -> 0 <= i < len l -> data l !!! Z.to_nat i = elems l !!! Z.to_nat i.
Proof. intros _ Hi. unfold elems. by rewrite lookup_total_take_lt by lia. Qed.

(** The value test before a callback is implied by the callback's own filter. *)
Lemma nonzero_filter v (ev : list arc_ev) : (v = 0 -> ev = []) -> (if negb (v =? 0) then ev else []) = ev.
Proof. intros H. destruct (Z.eqb_spec v 0); simpl; [|done]. symmetry. auto. Qed.

Lemma arc_like_zero : arc_like 0 = false.
Proof. done. Qed.

Lemma set_wf l d : list_wf l -> length d = length (data l) -> list_wf (set_data l d).
Proof. intros [? ? ? ?] Hd. split; simpl; rewrite ?Hd; done. Qed.

Lemma set_refines l i v : list_wf l ->
  (in_range i (elems l) = true -> runs_as (list_step al (OSet i v) l) (OSet i v) l) /\
  (in_range i (elems l) = false -> panics (list_step al (OSet i v) l)).
Proof.
  intros Hl. unfold runs_as, list_step, lpp_list_set. rewrite in_range_guard by done.
  split; intros Hi; rewrite Hi; cbn [negb]; [|by eexists].
  apply in_range_spec in Hi; [|done]. pose proof Hl as [? ? ? ?].
  apply wp_bind, wp_bind, wp_rd_total; [lia|]. apply wp_bind, wp_wr; [lia|]. cbn [wp].
  split; [apply set_wf; [done|apply length_insert]|]. split_and!.
  - unfold elems. simpl. by rewrite take_insert_lt by lia.
  - done.
  - rewrite call_retain_eq, call_drop_eq by done. rewrite (elems_total l i) by (done || lia).
    rewrite !nonzero_filter; [done|..]; intros ->; unfold retains, releases; rewrite arc_like_zero;
      by rewrite andb_false_r.
Qed.

Lemma pop_refines l : list_wf l ->
  (list_pre OPop (elems l) = true -> runs_as (list_step al OPop l) OPop l) /\
  (list_pre OPop (elems l) = false -> panics (list_step al OPop l)).
Proof.
  intros Hl. unfold runs_as, list_step, lpp_list_pop, list_pre. rewrite elems_length by done.
  pose proof Hl as [? ? ? ?]. destruct (Z.leb_spec (len l) 0), (Z.eqb_spec (len l) 0); try lia;
    split; intros; try done; [by eexists|].
  apply wp_bind, wp_bind. simpl data. simpl len. apply wp_rd_total; [lia|]. cbn [wp].
  split; [split; simpl; done || lia|]. split_and!; [|done..]. unfold elems. simpl.
  replace (Z.to_nat (len l)) with (S (Z.to_nat (len l - 1))) by lia.
  apply take_S_r. apply list_lookup_lookup_total_lt. lia.
Qed.

Lemma swap_refines l i j : list_wf l ->
  (list_pre (OSwap i j) (elems l) = true -> runs_as (list_step al (OSwap i j) l) (OSwap i j) l) /\
  (list_pre (OSwap i j) (elems l) = false -> panics (list_step al (OSwap i j) l)).
Proof.
  intros Hl. unfold runs_as, list_step, lpp_list_swap, list_pre.
  rewrite <- orb_assoc, !in_range_guard, <- negb_andb by done.
  split; intros Hi; rewrite Hi; cbn [negb]; [|by eexists].
  apply andb_true_iff in Hi as [Hi Hj]. apply in_range_spec in Hi, Hj; [|done..]. pose proof Hl as [? ? ? ?].
  apply wp_bind, wp_bind, wp_swap; [lia..|]. cbn [wp].
  split; [apply set_wf; [done|apply swapped_length]|]. split_and!; [|done..].
  unfold swapped. rewrite !elems_total by (done || lia). unfold elems. simpl.
  by rewrite !take_insert_lt by lia.
Qed.

(** The body of [lpp_list_insert] once there is room. *)
Lemma insert_cells l i v : list_wf l -> len l < cap l -> 0 <= i <= len l ->
  wp (let! d := (if i <? len l then memmove (data l) (i + 1) i (len l - i) else Ok (data l)) in
      wr d i v) (fun d =>
    list_wf (set_len (set_data l d) (len l + 1)) /\
    elems (set_len (set_data l d) (len l + 1)) =
      take (Z.to_nat i) (elems l) ++ v :: drop (Z.to_nat i) (elems l)).
Proof.
  intros Hl Hlt Hi. pose proof Hl as [? ? ? ?]. destruct (Z.ltb_spec i (len l)).
  - rewrite memmove_ok by lia. cbn [obind].
    replace (Z.to_nat (i + 1)) with (S (Z.to_nat i)) by lia.
    replace (Z.to_nat (i + 1 + (len l - i))) with (S (Z.to_nat (len l))) by lia.
    replace (Z.to_nat (len l - i)) with (Z.to_nat (len l) - Z.to_nat i)%nat by lia.
    set (d := _ ++ _ ++ _). assert (length d = length (data l)) as Hd.
    { unfold d. rewrite !length_app, !length_take, !length_drop. lia. }
    apply wp_wr; [lia|]. split.
    + split; simpl; rewrite ?length_insert, ?Hd; done || lia.
    + unfold elems, d. simpl. replace (Z.to_nat (len l + 1)) with (S (Z.to_nat (len l))) by lia.
      apply shift_up_insert; lia.
  - cbn [obind]. assert (i = len l) as -> by lia.
    eapply wp_mono; [by apply store_last|]. intros d [Hw He]. split; [done|].
    pose proof (elems_length l Hl). rewrite He, take_ge, drop_ge by lia. done.
Qed.

Lemma insert_refines l i v : list_wf l ->
  (list_pre (OInsert i v) (elems l) = true -> served al (OInsert i v) l = true ->
     runs_as (list_step al (OInsert i v) l) (OInsert i v) l) /\
  (list_pre (OInsert i v) (elems l) = false \/ served al (OInsert i v) l = false ->
     panics (list_step al (OInsert i v) l)).
Proof.
  intros Hl. unfold runs_as, list_step, lpp_list_insert, list_pre, served, request.
  rewrite elems_length, Z.gtb_ltb, (Z.leb_antisym i 0), (Z.leb_antisym (len l) i), <- negb_orb by done.
  destruct (_ || _) eqn:Eg; cbn [negb]; [split; [done|intros _; by eexists]|].
  bool_to_prop. assert (0 <= i <= len l) as Hi by lia.
  assert (forall l1, list_wf l1 -> elems l1 = elems l -> len l1 = len l -> retain_element l1 = retain_element l ->
    len l1 < cap l1 ->
    wp (let! d := (if i <? len l1 then memmove (data l1) (i + 1) i (len l1 - i) else Ok (data l1)) in
        let ev := call_retain l1 v in let! d := wr d i v in
        Ok (set_len (set_data l1 d) (len l1 + 1), ev)) (fun '(l', ev) =>
      list_wf l' /\ list_spec (OInsert i v) (elems l) (retain_element l) (elems l') (retain_element l') 0 ev)) as Hgo.
  { intros l1 Hw He Hn Hr Hlt. pose proof (insert_cells l1 i v Hw Hlt ltac:(lia)) as Hc.
    destruct (if i <? len l1 then _ else _); try done. cbn [obind] in *.
    apply wp_bind. eapply wp_mono; [exact Hc|]. intros d' [Hw' He']. cbn [wp list_spec].
    rewrite call_retain_eq, Hr, He', He. done. }
  destruct (Z.eqb_spec (len l) (cap l)) as [Hfull|Hroom].
  - assert ((if cap l =? 0 then Ok 8 else chk64 (cap l * 2)) = Ok (doubled l)) as ->.
    { unfold doubled, chk64, is_i64. destruct (cap l =? 0); [done|]. pose proof Hl as [? ? ? ?]. pow2.
      by rewrite !(proj2 (Z.leb_le _ _)) by lia. }
    cbn [obind]. destruct (grow_block l Hl Hfull) as [Hyes Hno].
    destruct (granted al (doubled l * 8)) eqn:Hg; (split; [intros _ Hs|intros [Hs|Hs]]); try done.
    + destruct (Hyes eq_refl) as (d & -> & Hwf & He & Hlt). cbn [obind].
      apply wp_bind. eapply wp_mono; [by apply Hgo|]. by intros [l' ev].
    + rewrite Hno by done. by eexists.
  - split; [|intros [?|?]; done]. intros _ _. cbn [obind]. apply wp_bind. pose proof Hl as [? ? ? ?].
    eapply wp_mono; [apply Hgo; done || lia|]. by intros [l' ev].
Qed.

Lemma remove_refines l i : list_wf l ->
  (in_range i (elems l) = true -> runs_as (list_step al (ORemove i) l) (ORemove i) l) /\
  (in_range i (elems l) = false -> panics (list_step al (ORemove i) l)).
Proof.
  intros Hl. unfold runs_as, list_step, lpp_list_remove. rewrite in_range_guard by done.
  split; intros Hi; rewrite Hi; cbn [negb]; [|by eexists].
  apply in_range_spec in Hi; [|done]. pose proof Hl as [? ? ? ?].
  apply wp_bind, wp_bind, wp_rd; [lia|]. intros x Hx. apply wp_bind.
  destruct (Z.ltb_spec i (len l - 1)).
  - rewrite memmove_ok by lia. cbn [wp]. split.
    + split; simpl; rewrite ?length_app, ?length_take, ?length_drop; done || lia.
    + split_and!; [|done..]. unfold elems. simpl.
      replace (Z.to_nat (len l - 1)) with (Z.to_nat (len l) - 1)%nat by lia.
      replace (Z.to_nat (i + 1)) with (S (Z.to_nat i)) by lia.
      replace (Z.to_nat (len l - i - 1)) with (Z.to_nat (len l) - Z.to_nat i - 1)%nat by lia.
      replace (Z.to_nat (i + (len l - i - 1))) with (Z.to_nat (len l) - 1)%nat by lia.
      apply shift_down_remove; [done|lia..].
  - cbn [wp]. split; [split; simpl; done || lia|]. split_and!; [|done..]. unfold elems. simpl.
    assert (Z.to_nat (len l) = S (Z.to_nat i)) as -> by lia.
    replace (Z.to_nat (len l - 1)) with (Z.to_nat i) by lia.
    rewrite (take_S_r _ _ x) by done. rewrite take_take, Nat.min_id.
    rewrite drop_ge; [done|]. rewrite length_take. lia.
Qed.

(** *** Reserving *)

Lemma reserve_spec l c : list_wf l -> len l <= c -> c * 8 < 2 ^ 64 ->
  (served al (OReserve c) l = true ->
     wp (lpp_list_reserve al (Some l) c) (fun o => exists l', o = Some l' /\ list_wf l' /\
       elems l' = elems l /\ len l' = len l /\ c <= cap l' /\ retain_element l' = retain_element l)) /\
  (served al (OReserve c) l = false -> panics (lpp_list_reserve al (Some l) c)).
Proof.
  intros Hl Hc Hb. unfold served, request, lpp_list_reserve. pose proof Hl as [? Hcap ? ?].
  rewrite Z.gtb_ltb, Z.ltb_antisym. destruct (Z.leb_spec c (cap l)); cbn [negb].
  - split; [|done]. intros _. exists l. done.
  - destruct (realloc_grow al (data l) c ltac:(lia) Hb) as [Hyes Hno]. split; intros Hg.
    + destruct (Hyes Hg) as (js & -> & Hlen & Hsz). eexists. split; [done|].
      split_and!; simpl; [split; simpl; done || lia| |done|lia|done].
      unfold elems. simpl. by rewrite take_app_le by lia.
    + rewrite Hno by done. by eexists.
Qed.

Lemma reserve_refines l c : list_wf l -> c * 8 <= INT64_MAX ->
  (served al (OReserve c) l = true -> runs_as (list_step al (OReserve c) l) (OReserve c) l) /\
  (served al (OReserve c) l = false -> panics (list_step al (OReserve c) l)).
Proof.
  intros Hl Hc. unfold runs_as, list_step, some_of. destruct (decide (len l <= c)) as [Hle|Hgt].
  - destruct (reserve_spec l c Hl Hle ltac:(pow2; lia)) as [Hyes Hno]. split; intros Hs.
    + apply wp_bind, wp_bind. eapply wp_mono; [by apply Hyes|].
      intros o (l' & -> & Hw & He & Hn & _ & Hr). cbn [wp]. done.
    + destruct (Hno Hs) as [msg ->]. by eexists.
  - unfold served, request, lpp_list_reserve. pose proof Hl as [? ? ? ?].
    rewrite Z.gtb_ltb, (proj2 (Z.ltb_ge _ _)), (proj2 (Z.leb_le _ _)) by lia. split; [|done]. done.
Qed.

(** *** Dropping a range of elements *)

Lemma drop_loop_spec l k : forall from,
  (from + k <= length (data l))%nat ->
  drop_loop l k (Z.of_nat from) = Ok (mbind lpp_list_arc_drop_element (take k (drop from (data l)))).
Proof.
  induction k as [|k IH]; intros from Hk; cbn [drop_loop]; [by rewrite take_0|].
  destruct (lookup_lt_is_Some_2 (data l) from) as [x Hx]; [lia|].
  rewrite (rd_ok _ _ x) by (rewrite ?Nat2Z.id; lia || done). cbn [obind].
  replace (Z.of_nat from + 1) with (Z.of_nat (S from)) by lia. rewrite IH by lia. cbn [obind].
  by rewrite (drop_S _ x from Hx).
Qed.

Lemma drop_range_spec l from : list_wf l -> 0 <= from <= len l ->
  drop_range l from (len l) = Ok (mbind (releases (retain_element l)) (drop (Z.to_nat from) (elems l))).
Proof.
  intros Hl Hf. pose proof Hl as [? ? ? Ho]. unfold drop_range. rewrite Ho. destruct (drop_element l).
  - rewrite <- (Z2Nat.id from) at 2 by lia. rewrite drop_loop_spec by lia. f_equal.
    unfold elems. rewrite skipn_firstn_comm. f_equal. f_equal. lia.
  - f_equal. by induction (drop (Z.to_nat from) (elems l)).
Qed.

Lemma truncate_refines l n : list_wf l -> runs_as (list_step al (OTruncate n) l) (OTruncate n) l.
Proof.
  intros Hl. unfold runs_as, list_step, some_of, lpp_list_truncate. pose proof (elems_length l Hl) as Hn.
  pose proof Hl as [? ? ? ?]. rewrite Z.geb_leb. destruct (Z.leb_spec (len l) n); cbn [orb obind wp].
  { split; [done|]. cbn [list_spec]. destruct (Z.ltb_spec n 0); [lia|].
    rewrite take_ge, drop_ge by lia. done. }
  destruct (Z.ltb_spec n 0) as [Hneg|Hpos]; cbn [obind wp list_spec].
  { split; [done|]. rewrite (proj2 (Z.ltb_lt _ _)), take_ge, drop_ge by lia. done. }
  rewrite drop_range_spec by (done || lia). cbn [obind wp]. split; [split; simpl; done || lia|].
  rewrite (proj2 (Z.ltb_ge _ _)) by lia. split_and!; [|done..].
  unfold elems. simpl. by rewrite take_take, Nat.min_l by lia.
Qed.

Lemma clear_refines l : list_wf l -> runs_as (list_step al OClear l) OClear l.
Proof.
  intros Hl. unfold runs_as, list_step, some_of, lpp_list_clear. pose proof Hl as [? ? ? ?].
  rewrite drop_range_spec by (done || lia). cbn [obind wp]. split; [split; simpl; done || lia|]. done.
Qed.

(** *** Reversing *)

Lemma reverse_loop_spec fuel : forall d i j,
  (i <= S j)%nat -> (j < length d)%nat -> (j - i < fuel)%nat ->
  wp (reverse_loop fuel d (Z.of_nat i) (Z.of_nat j)) (fun d' => length d' = length d /\
    forall k, d' !!! k = d !!! (if decide (i <= k <= j)%nat then i + j - k else k)%nat).
Proof.
  induction fuel as [|f IH]; intros d i j Hij Hj Hf; [lia|]. cbn [reverse_loop].
  destruct (Z.ltb_spec (Z.of_nat i) (Z.of_nat j)).
  - apply wp_bind, wp_swap; [lia..|]. rewrite !Nat2Z.id.
    replace (Z.of_nat i + 1) with (Z.of_nat (S i)) by lia.
    replace (Z.of_nat j - 1) with (Z.of_nat (j - 1)) by lia.
    eapply wp_mono; [apply IH; rewrite ?swapped_length; lia|]. intros d' [Hl Hk].
    rewrite swapped_length in Hl. split; [done|]. intros k. rewrite Hk, swapped_lookup by lia.
    f_equal. repeat case_decide; lia.
  - split; [done|]. intros k. f_equal. repeat case_decide; lia.
Qed.

Lemma reverse_refines l : list_wf l -> runs_as (list_step al OReverse l) OReverse l.
Proof.
  intros Hl. unfold runs_as, list_step, some_of, lpp_list_reverse. pose proof (elems_length l Hl) as Hn.
  pose proof Hl as [? ? ? ?]. destruct (Z.leb_spec (len l) 1); cbn [obind wp list_spec].
  { split; [done|]. split_and!; [|done..]. destruct (elems l) as [|x [|y xs]]; simpl in Hn; done || lia. }
  apply wp_bind, wp_bind, wp_bind. change 0 with (Z.of_nat 0).
  replace (len l - 1) with (Z.of_nat (Z.to_nat (len l) - 1)) by lia.
  eapply wp_mono; [apply reverse_loop_spec; lia|]. intros d [Hd Hk]. cbn [wp obind].
  split; [by apply set_wf|]. split_and!; [|done..].
  assert (length (elems (set_data l d)) = length (elems l)) as Hlen.
  { unfold elems. simpl. rewrite !length_take. lia. }
  apply list_eq_same_length with (length (elems l)); [by rewrite length_reverse|done|].
  intros i x y Hi. rewrite reverse_lookup by done.
  rewrite !list_lookup_alt. intros [? <-] [? <-]. unfold elems. simpl.
  rewrite length_take. rewrite !lookup_total_take_lt by lia. rewrite Hk. case_decide; [|lia]. f_equal. lia.
Qed.

(** *** Sorting *)

Lemma sort_refines l before : list_wf l -> SortOrder before ->
  runs_as (list_step al (OSort before) l) (OSort before) l.
Proof.
  intros Hl Hb. unfold runs_as, list_step, some_of, lpp_list_sort_with. pose proof (elems_length l Hl) as Hn.
  pose proof Hl as [? ? ? ?]. destruct (Z.ltb_spec (len l) 2); cbn [obind wp list_spec].
  { split; [done|]. split_and!; [done| |done..].
    destruct (elems l) as [|x [|y xs]]; simpl in Hn; [by constructor|by repeat constructor|lia]. }
  apply wp_bind, wp_bind, wp_bind. fold (elems l).
  eapply wp_mono; [apply (sort_cells_spec before (elems l)); pow2; lia|]. intros v [Hp Hs]. cbn [wp obind].
  assert (length v = length (elems l)) as Hlv by (by rewrite Hp).
  assert (elems (set_data l (v ++ drop (Z.to_nat (len l)) (data l))) = v) as He.
  { unfold elems. simpl. rewrite take_app_le by lia. apply take_ge. lia. }
  rewrite He. split; [|done]. apply set_wf; [done|]. rewrite length_app, length_drop. lia.
Qed.

(** *** Extending *)

Lemma extend_loop_spec d (src : LppList -> list Z) ys :
  let n := Z.to_nat (len d) in
  list_wf d -> (n + length ys <= length (data d))%nat ->
  (forall c, length c = length (data d) -> take n c = take n (data d) ->
     forall j y, ys !! j = Some y -> src (set_data d c) !! j = Some y) ->
  forall k i c, (i + k = length ys)%nat -> length c = length (data d) ->
    take (n + i) c = take n (data d) ++ take i ys ->
    wp (extend_loop (set_data d c) src k (Z.of_nat i)) (fun '(d', ev) => exists c', d' = set_data d c' /\
      length c' = length (data d) /\ take (n + length ys) c' = take n (data d) ++ ys /\
      ev = mbind (retains (retain_element d)) (drop i ys)).
Proof.
  intros n Hd Hroom Hsrc. pose proof Hd as [? ? ? ?].
  induction k as [|k IH]; intros i c Hik Hc Ht; cbn [extend_loop].
  - exists c. split_and!; try done.
    + replace (length ys) with i by lia. rewrite Ht. f_equal. apply take_ge. lia.
    + by rewrite drop_ge by lia.
  - destruct (lookup_lt_is_Some_2 ys i) as [y Hy]; [lia|].
    assert (take n c = take n (data d)) as Hpre.
    { rewrite <- (take_take_drop c n i), take_drop_commute in Ht. apply app_inj_1 in Ht; [apply Ht|].
      rewrite !length_take. lia. }
    rewrite (rd_ok _ _ y); [|lia|rewrite Nat2Z.id; by apply (Hsrc c)]. cbn [obind].
    rewrite wr_ok by (simpl; subst n; lia). cbn [obind].
    replace (Z.of_nat i + 1) with (Z.of_nat (S i)) by lia.
    replace (Z.to_nat (len (set_data d c) + Z.of_nat i)) with (n + i)%nat by (simpl; subst n; lia).
    change (set_data (set_data d c) (<[(n + i)%nat:=y]> (data (set_data d c))))
      with (set_data d (<[(n + i)%nat:=y]> c)).
    apply wp_bind. eapply wp_mono; [apply (IH (S i))|].
    + lia.
    + by rewrite length_insert.
    + rewrite <- plus_n_Sm, take_store, Ht by lia. rewrite (take_S_r _ _ y Hy). by rewrite (assoc_L (++)).
    + intros [d' ev] (c' & -> & Hl' & Ht' & ->). cbn [wp]. exists c'. split_and!; try done.
      rewrite (drop_S _ y i Hy). rewrite call_retain_eq. done.
Qed.

(** The part of [lpp_list_extend] after its NULL tests. *)
Lemma extend_body l add src ys :
  list_wf l -> 0 < add -> Z.of_nat (length ys) = add -> add * 8 <= INT64_MAX ->
  (forall l1 c, list_wf l1 -> elems l1 = elems l -> len l1 = len l -> length c = length (data l1) ->
     take (Z.to_nat (len l1)) c = take (Z.to_nat (len l1)) (data l1) ->
     forall j y, ys !! j = Some y -> src (set_data l1 c) !! j = Some y) ->
  let m := (let! total := chk64 (len l + add) in
            let! r := lpp_list_reserve al (Some l) total in
            match r with
            | None => Ok (l, [])
            | Some d => let! '(d, ev) := extend_loop d src (Z.to_nat add) 0 in
                        Ok (set_len d (len d + add), ev)
            end) in
  (served al (OReserve (len l + add)) l = true ->
     wp m (fun '(l', ev) => list_wf l' /\ elems l' = elems l ++ ys /\
       retain_element l' = retain_element l /\ ev = mbind (retains (retain_element l)) ys)) /\
  (served al (OReserve (len l + add)) l = false -> panics m).
Proof.
  intros Hl Hadd Hys Hsz Hsrc m. subst m. pose proof Hl as [? ? ? ?].
  unfold chk64, is_i64. rewrite !(proj2 (Z.leb_le _ _)) by (pow2; lia). cbn [andb obind].
  destruct (reserve_spec l (len l + add) Hl ltac:(lia) ltac:(pow2; lia)) as [Hyes Hno]. split; intros Hs.
  - apply wp_bind. eapply wp_mono; [by apply Hyes|].
    intros o (d & -> & Hw & He & Hn & Hc & Hr). cbn [wp]. pose proof Hw as [? ? ? ?]. apply wp_bind.
    assert (set_data d (data d) = d) as Hid by (by destruct d).
    rewrite <- Hid at 1. change 0 with (Z.of_nat 0) at 1.
    eapply wp_mono; [apply (extend_loop_spec d src ys)|].
    + done.
    + lia.
    + intros c. by apply Hsrc.
    + lia.
    + done.
    + by rewrite Nat.add_0_r, take_0, app_nil_r.
    + intros [d' ev] (c' & -> & Hlc & Htc & ->). cbn [wp]. split_and!; simpl.
      * split; simpl; rewrite ?Hlc; done || lia.
      * unfold elems at 1. simpl. replace (Z.to_nat (len d + add)) with (Z.to_nat (len d) + length ys)%nat by lia.
        rewrite Htc. by rewrite <- He.
      * done.
      * by rewrite drop_0, Hr.
  - destruct (Hno Hs) as [msg ->]. by eexists.
Qed.

Lemma extend_refines l src : list_wf l -> op_wf (OExtend src) ->
  (served al (OExtend src) l = true -> runs_as (list_step al (OExtend src) l) (OExtend src) l) /\
  (served al (OExtend src) l = false -> panics (list_step al (OExtend src) l)).
Proof.
  intros Hl Hsrc. pose proof (elems_length l Hl) as Hn. pose proof Hl as [? ? ? ?].
  assert (0 <= src_len src l /\ Z.of_nat (length (src_elems src (elems l))) = src_len src l /\
    src_len src l * 8 <= INT64_MAX) as (Hge & Hlen & Hsz).
  { destruct src as [|s|]; simpl; try (pow2; lia). pose proof (elems_length s Hsrc). destruct Hsrc. lia. }
  unfold runs_as, list_step, lpp_list_extend, served, request.
  destruct (Z.eqb_spec (src_len src l) 0) as [Hz|Hnz].
  { assert (src_elems src (elems l) = []) as He by (apply nil_length_inv; lia).
    rewrite Hz in *. cbn [Z.ltb andb Z.compare]. split; [|done]. intros _.
    destruct src as [|s|]; simpl in Hz; rewrite ?Hz; cbn [Z.eqb obind wp list_spec];
      rewrite He, app_nil_r; done. }
  rewrite (proj2 (Z.ltb_lt 0 _)) by lia. cbn [andb].
  destruct src as [|s|]; cbn [src_len src_elems op_wf list_spec] in *; [lia|..];
    rewrite (proj2 (Z.eqb_neq _ 0)) by lia.
  - destruct (extend_body l (len s) (fun _ => data s) (elems s)) as [Hyes Hno]; try done || lia.
    { intros l1 c _ _ _ _ _ j y Hj. unfold elems in Hj. apply lookup_take_Some in Hj as [? _]. done. }
    split; intros Hs.
    + apply wp_bind. eapply wp_mono; [by apply Hyes|]. by intros [l' ev].
    + destruct (Hno Hs) as [msg ->]. by eexists.
  - destruct (extend_body l (len l) data (elems l)) as [Hyes Hno]; try done || lia.
    { intros l1 c _ He Hn1 _ Ht j y Hj. rewrite <- He in Hj. unfold elems in Hj. rewrite <- Ht in Hj.
      apply lookup_take_Some in Hj as [? _]. done. }
    split; intros Hs.
    + apply wp_bind. eapply wp_mono; [by apply Hyes|]. by intros [l' ev].
    + destruct (Hno Hs) as [msg ->]. by eexists.
Qed.
End steps.

(** Operations whose only failure is the allocator's, or only a bad argument. *)
Lemma by_served (b : bool) (P Q : Prop) :
  (b = true -> P) /\ (b = false -> Q) -> (true = true -> b = true -> P) /\ (true = false \/ b = false -> Q).
Proof. intros [HP HQ]. split; [by auto|]. intros [?|?]; [done|by auto]. Qed.
Lemma by_pre (b : bool) (P Q : Prop) :
  (b = true -> P) /\ (b = false -> Q) -> (b = true -> true = true -> P) /\ (b = false \/ true = false -> Q).
Proof. intros [HP HQ]. split; [by auto|]. intros [?|?]; [by auto|done]. Qed.

Lemma list_step_spec al `{!SysAlloc al} op l :
  list_wf l -> op_wf op ->
  (list_pre op (elems l) = true -> served al op l = true -> runs_as (list_step al op l) op l) /\
  (list_pre op (elems l) = false \/ served al op l = false -> panics (list_step al op l)).
Proof.
  intros Hl Hop. destruct op; cbn [op_wf] in Hop;
    try (split; [intros _ _|intros [?|?]; done]);
    eauto using clear_refines, truncate_refines, reverse_refines, sort_refines.
  - by apply by_served, push_refines.
  - by apply by_served, push_arc_refines.
  - by apply by_pre, set_refines.
  - by apply by_pre, pop_refines.
  - by apply insert_refines.
  - by apply by_pre, remove_refines.
  - by apply by_served, reserve_refines.
  - by apply by_pre, swap_refines.
  - by apply by_served, extend_refines.
Qed.

(** C4. The growable array of the runtime implements a sequence: on a well-formed list every
    operation whose index arguments are in range and whose memory request (if it makes one) is
    served returns, leaves a well-formed list, and has exactly the effect of the sequence
    operation on the elements, on the ownership mode and on the reference counts (which
    references are retained and released, in which order; an extension of a list by itself
    included).  In every other case it panics; it never touches memory outside the block. *)
Theorem list_implements_sequence al `{!SysAlloc al} op l :
  list_wf l -> op_wf op ->
  (list_pre op (elems l) = true -> served al op l = true -> runs_as (list_step al op l) op l) /\
  (list_pre op (elems l) = false \/ served al op l = false -> panics (list_step al op l)).
Proof. apply list_step_spec; done. Qed.

(** An allocator that serves every request of at most a mebibyte, for the witnesses. *)
Definition small_alloc : allocation := {| granted := fun n => n <=? 2 ^ 20; junk := fun _ => 170 |}.
#[export] Instance small_alloc_sys : SysAlloc small_alloc.
Proof. intros n Hn. simpl in Hn. bool_to_prop. pow2. lia. Qed.

Definition list_example : LppList := mk_list [4096; 0; 8192; 99] 3 4 true true.

Lemma list_implements_sequence_witness :
  runs_as (list_step small_alloc (OExtend Itself) list_example) (OExtend Itself) list_example.
Proof.
  apply (list_implements_sequence small_alloc (OExtend Itself) list_example).
  - split; simpl; pow2; lia || done.
  - exact I.
  - reflexivity.
  - reflexivity.
Defined.

(** ** Ownership of the elements *)

Definition occ {A} `{EqDecision A} (x : A) (xs : list A) : nat := length (filter (fun y => y = x) xs).

Lemma occ_app {A} `{EqDecision A} (x : A) xs ys : occ x (xs ++ ys) = (occ x xs + occ x ys)%nat.
Proof. unfold occ. by rewrite filter_app, length_app. Qed.
Lemma occ_cons {A} `{EqDecision A} (x y : A) ys : occ x (y :: ys) = ((if decide (y = x) then 1 else 0) + occ x ys)%nat.
Proof. unfold occ. rewrite filter_cons. by case_decide. Qed.
Lemma occ_nil {A} `{EqDecision A} (x : A) : occ x [] = 0%nat.
Proof. done. Qed.
#[export] Instance occ_perm {A} `{EqDecision A} (x : A) : Proper ((≡ₚ) ==> (=)) (occ x).
Proof. intros xs ys H. unfold occ. by rewrite H. Qed.
Create Rewrite HintDb occ.
#[export] Hint Rewrite @occ_app @occ_cons @occ_nil : occ.

(** References an operation hands to its caller without touching their counts. *)
Definition handed (op : list_op) (r : Z) : list Z :=
  match op with OPop | ORemove _ => [r] | _ => [] end.

Fixpoint list_run (al : allocation) (ops : list list_op) (l : LppList)
  : outcome (LppList * list arc_ev * list Z) :=
  match ops with
  | [] => Ok (l, [], [])
  | op :: ops =>
      let! '(l, r, ev) := list_step al op l in
      let! '(l, ev', out) := list_run al ops l in
      Ok (l, ev ++ ev', handed op r ++ out)
  end.

Lemma occ_retains p v : arc_like p = true ->
  occ (Retain p) (retains true v) = occ p [v] /\ occ (Release p) (retains true v) = 0%nat.
Proof.
  intros Hp. unfold retains. simpl. destruct (arc_like v) eqn:E; autorewrite with occ; repeat case_decide; simplify_eq; (done || congruence).
Qed.
Lemma occ_releases p v : arc_like p = true ->
  occ (Release p) (releases true v) = occ p [v] /\ occ (Retain p) (releases true v) = 0%nat.
Proof.
  intros Hp. unfold releases. simpl. destruct (arc_like v) eqn:E; autorewrite with occ; repeat case_decide; simplify_eq; (done || congruence).
Qed.
Lemma occ_bind_retains p xs : arc_like p = true ->
  occ (Retain p) (mbind (retains true) xs) = occ p xs /\ occ (Release p) (mbind (retains true) xs) = 0%nat.
Proof.
  intros Hp. induction xs as [|x xs [IH1 IH2]]; [done|]. rewrite bind_cons, !occ_app, (occ_cons p x xs).
  pose proof (occ_retains p x Hp) as [H1 H2]. rewrite H1, H2, IH1, IH2. autorewrite with occ. lia.
Qed.
Lemma occ_bind_releases p xs : arc_like p = true ->
  occ (Release p) (mbind (releases true) xs) = occ p xs /\ occ (Retain p) (mbind (releases true) xs) = 0%nat.
Proof.
  intros Hp. induction xs as [|x xs [IH1 IH2]]; [done|]. rewrite bind_cons, !occ_app, (occ_cons p x xs).
  pose proof (occ_releases p x Hp) as [H1 H2]. rewrite H1, H2, IH1, IH2. autorewrite with occ. lia.
Qed.

(** One operation of the sequence keeps the books: what it retains it stores, what it releases
    it no longer stores, and what it hands out it no longer stores either. *)
Lemma spec_balance op xs xs' r ev p :
  list_pre op xs = true -> list_spec op xs true xs' true r ev -> arc_like p = true ->
  (occ (Retain p) ev + occ p xs = occ (Release p) ev + occ p xs' + occ p (handed op r))%nat.
Proof.
  intros Hpre Hs Hp. destruct op; cbn [list_spec handed list_pre] in *.
  1,2: destruct Hs as (-> & _ & ->); rewrite occ_app; destruct (occ_retains p v Hp) as [-> ->];
    rewrite occ_nil; lia.
  - destruct Hs as (-> & _ & ->). rewrite !occ_app.
    destruct (occ_retains p v Hp) as [-> ->].
    destruct (occ_releases p (xs !!! Z.to_nat i) Hp) as [-> ->].
    unfold in_range in Hpre. bool_to_prop.
    assert (xs !! Z.to_nat i = Some (xs !!! Z.to_nat i)) as Hx by (apply list_lookup_lookup_total_lt; lia).
    rewrite <- (take_drop_middle xs _ _ Hx) at 1. rewrite insert_take_drop by lia.
    autorewrite with occ. lia.
  - destruct Hs as (-> & _ & ->). rewrite occ_app. autorewrite with occ. lia.
  - destruct Hs as (-> & _ & ->). destruct (occ_retains p v Hp) as [-> ->].
    rewrite <- (take_drop (Z.to_nat i) xs) at 1. autorewrite with occ. lia.
  - destruct Hs as (-> & _ & ->). rewrite <- (take_drop (Z.to_nat i) xs') at 3. autorewrite with occ. lia.
  - destruct Hs as (-> & _ & ->). autorewrite with occ. lia.
  - destruct Hs as (-> & _ & ->). destruct (occ_bind_releases p xs Hp) as [-> ->]. autorewrite with occ. lia.
  - destruct Hs as (-> & _ & ->). set (k := if n <? 0 then length xs else Z.to_nat n).
    destruct (occ_bind_releases p (drop k xs) Hp) as [-> ->].
    rewrite <- (take_drop k xs) at 1. autorewrite with occ. lia.
  - destruct Hs as (-> & _ & ->). bool_to_prop. unfold in_range in *. bool_to_prop.
    rewrite swapped_perm by lia. autorewrite with occ. lia.
  - destruct Hs as (-> & _ & ->). rewrite reverse_Permutation. autorewrite with occ. lia.
  - destruct Hs as (Hperm & _ & _ & ->). rewrite Hperm. autorewrite with occ. lia.
  - destruct Hs as (-> & _ & ->). destruct (occ_bind_retains p (src_elems src xs) Hp) as [-> ->].
    autorewrite with occ. lia.
Qed.

(** A call that returns was applicable and served, so it ran as the sequence does. *)
Lemma step_ok_spec al `{!SysAlloc al} op l l' r ev :
  list_wf l -> op_wf op -> list_step al op l = Ok (l', r, ev) ->
  list_pre op (elems l) = true /\ list_wf l' /\
  list_spec op (elems l) (retain_element l) (elems l') (retain_element l') r ev.
Proof.
  intros Hl Hop Hs. destruct (list_step_spec al op l Hl Hop) as [Hyes Hno].
  destruct (list_pre op (elems l)) eqn:Hp; [|by destruct Hno as [? Hm]; [by left|]; rewrite Hm in Hs].
  destruct (served al op l) eqn:Hg; [|by destruct Hno as [? Hm]; [by right|]; rewrite Hm in Hs].
  specialize (Hyes eq_refl eq_refl). unfold runs_as in Hyes. rewrite Hs in Hyes. cbn in Hyes. by destruct Hyes.
Qed.

Lemma run_balance al `{!SysAlloc al} ops p : arc_like p = true -> Forall op_wf ops -> forall l l' ev out,
  list_wf l -> retain_element l = true -> list_run al ops l = Ok (l', ev, out) ->
  list_wf l' /\ retain_element l' = true /\
  (occ (Retain p) ev + occ p (elems l) = occ (Release p) ev + occ p (elems l') + occ p out)%nat.
Proof.
  intros Hp Hops. induction Hops as [|op ops Hop Hops IH]; intros l l' ev out Hl Ho Hrun; cbn [list_run] in Hrun.
  - simplify_eq. autorewrite with occ. split_and!; [done..|lia].
  - destruct (list_step al op l) as [[[l1 r] ev1]| | |] eqn:Hs; simplify_eq/=.
    destruct (list_run al ops l1) as [[[l2 ev2] out2]| | |] eqn:Hr; simplify_eq/=.
    destruct (step_ok_spec al op l l1 r ev1 Hl Hop Hs) as (Hpre & Hw1 & Hsp).
    assert (retain_element l1 = true) as Ho1.
    { rewrite Ho in Hsp. destruct op; cbn [list_spec] in Hsp; destruct_and?; done. }
    rewrite Ho, Ho1 in Hsp. pose proof (spec_balance _ _ _ _ _ p Hpre Hsp Hp) as Hb.
    destruct (IH l1 l' ev2 out2 Hw1 Ho1 Hr) as (? & ? & ?). split_and!; [done..|].
    autorewrite with occ. lia.
Qed.

Lemma destroy_spec l : list_wf l ->
  exists l0, lpp_list_destroy l = Ok (l0, mbind (releases (retain_element l)) (elems l)).
Proof.
  intros Hl. unfold lpp_list_destroy. pose proof Hl as [? ? ? ?].
  rewrite drop_range_spec by (done || lia). by eexists.
Qed.

(** C9. A list of references leaks nothing and frees nothing twice: over the whole life of a
    list made by [lpp_list_new_arc], whatever operations run in between, every reference the
    list ever retained is released exactly once, by the operation that drops it or by
    [lpp_list_destroy], except the ones handed to the caller by [pop] and [remove], whose
    ownership moves out with them. *)
Theorem list_lifetime_balanced al `{!SysAlloc al} ops l0 l ev out p :
  Forall op_wf ops -> arc_like p = true ->
  lpp_list_new_arc true = Ok l0 -> list_run al ops l0 = Ok (l, ev, out) ->
  exists gone evd, lpp_list_destroy l = Ok (gone, evd) /\
    occ (Retain p) (ev ++ evd) = (occ (Release p) (ev ++ evd) + occ p out)%nat.
Proof.
  intros Hops Hp [= <-] Hrun.
  destruct (run_balance al ops p Hp Hops (mk_list [] 0 0 true true) l ev out) as (Hw & Ho & Hb); [|done..|].
  { split; simpl; [lia|done|pow2; lia|done]. }
  destruct (destroy_spec l Hw) as [g Hg]. exists g. eexists. split; [exact Hg|]. rewrite Ho.
  destruct (occ_bind_releases p (elems l) Hp) as [H1 H2]. rewrite !occ_app, H1, H2.
  change (occ p (elems (mk_list [] 0 0 true true))) with 0%nat in Hb. lia.
Qed.

Definition life_ops : list list_op := [OPush 4096; OPushArc 8192; OSet 0 8192; OExtend Itself; OPop; OTruncate 2].

Lemma list_lifetime_balanced_witness :
  exists gone evd,
    lpp_list_destroy (mk_list [8192; 8192; 8192; 8192; 170; 170; 170; 170] 2 8 true true) = Ok (gone, evd) /\
    occ (Retain 8192) ([Retain 4096; Retain 8192; Retain 8192; Release 4096; Retain 8192; Retain 8192; Release 8192] ++ evd)
    = (occ (Release 8192) ([Retain 4096; Retain 8192; Retain 8192; Release 4096; Retain 8192; Retain 8192; Release 8192] ++ evd)
       + occ 8192%Z [8192%Z])%nat.
Proof.
  apply (list_lifetime_balanced small_alloc life_ops (mk_list [] 0 0 true true)).
  - repeat constructor.
  - reflexivity.
  - reflexivity.
  - vm_compute. reflexivity.
Defined.

(** ** Searching *)

Lemma bsearch_spec fuel : forall (d xs : list Z) value lo hi,
  prefix xs d -> Sorted.StronglySorted Z.le xs ->
  0 <= lo -> lo <= hi + 1 -> hi < Z.of_nat (length xs) -> hi - lo + 1 < 2 ^ Z.of_nat fuel ->
  (forall k, (Z.of_nat k < lo) -> forall x, xs !! k = Some x -> x < value) ->
  (forall k, (hi < Z.of_nat k) -> forall x, xs !! k = Some x -> value < x) ->
  wp (bsearch (S fuel) d value lo hi) (fun r =>
    (0 <= r /\ xs !! Z.to_nat r = Some value) \/
    (r < 0 /\ let at_ := Z.to_nat (- r - 1) in
       (at_ <= length xs)%nat /\ Forall (fun x => x < value) (take at_ xs) /\ Forall (Z.lt value) (drop at_ xs))).
Proof.
  induction fuel as [|f IH]; intros d xs value lo hi [tl ->] Hs H0 Hlo Hhi Hf Hlow Hhigh.
  all: assert (forall m, m = lo -> hi < lo -> (m <= Z.of_nat (length xs)) ->
    Forall (fun x => x < value) (take (Z.to_nat m) xs) /\ Forall (Z.lt value) (drop (Z.to_nat m) xs)) as Hend
    by (intros m -> Hlt _; split; apply Forall_lookup; intros k x;
        [rewrite lookup_take_Some; intros [Hx Hk]; apply (Hlow k); [lia|done]
        |rewrite lookup_drop; intros Hx; apply (Hhigh (Z.to_nat lo + k)%nat); [lia|done]]).
  - cbn [bsearch]. simpl in Hf. rewrite (proj2 (Z.leb_gt _ _)) by lia. cbn [wp]. right.
    replace (- - (lo + 1) - 1) with lo by lia. split; [lia|]. split; [lia|]. apply Hend; lia.
  - rewrite Nat2Z.inj_succ, Z.pow_succ_r in Hf by lia. remember (S f) as f'. cbn [bsearch].
    destruct (Z.leb_spec lo hi) as [Hle|Hgt].
    2: { cbn [wp]. right. replace (- - (lo + 1) - 1) with lo by lia. split; [lia|]. split; [lia|]. apply Hend; lia. }
    subst f'. set (mid := lo + (hi - lo) / 2).
    assert (lo <= mid <= hi /\ mid - lo <= (hi - lo) / 2 /\ hi - mid <= (hi - lo + 1) / 2) as (Hm & Hm1 & Hm2)
      by (unfold mid; dlia).
    apply wp_bind, wp_rd; [rewrite length_app; lia|]. intros probe Hprobe.
    rewrite lookup_app_l in Hprobe by lia.
    assert (Hsort : forall i j x y, (i <= j)%nat -> xs !! i = Some x -> xs !! j = Some y -> x <= y).
    { intros i j x y Hij Hx Hy. destruct (decide (i = j)) as [->|]; [simplify_eq; lia|].
      rewrite <- (take_drop_middle xs i x Hx) in Hs. apply sorting.StronglySorted_app in Hs as (_ & _ & Hs).
      inversion Hs as [|? ? _ Hf2]; subst. rewrite Forall_lookup in Hf2. apply (Hf2 (j - S i)%nat).
      rewrite lookup_drop. by replace (S i + (j - S i))%nat with j by lia. }
    destruct (Z.eqb_spec probe value) as [->|Hne].
    { left. cbn [wp]. split; [lia|done]. }
    destruct (Z.ltb_spec probe value).
    + apply IH; try done || lia; [by eexists|dlia|]. intros k Hk x Hx.
      assert (x <= probe); [|lia]. apply (Hsort k (Z.to_nat mid)); [lia|done|done].
    + apply IH; try done || lia; [by eexists|dlia|]. intros k Hk x Hx.
      assert (probe <= x); [|lia]. apply (Hsort (Z.to_nat mid) k); [lia|done|done].
Qed.

(** [lpp_list_binary_search] on a well-formed ascending list returns after at most 64
    probes, all inside the list: a non-negative answer is an index that holds the value, and a
    negative answer [r] says the value is absent and that [-r - 1] is where to insert it, with
    everything below it smaller and everything above it larger. *)
Theorem binary_search_finds l value :
  list_wf l -> Sorted.StronglySorted Z.le (elems l) ->
  exists r, lpp_list_binary_search (Some l) value = Ok r /\
    ((0 <= r /\ elems l !! Z.to_nat r = Some value) \/
     (r < 0 /\ let at_ := Z.to_nat (- r - 1) in (at_ <= length (elems l))%nat /\
       Forall (fun x => x < value) (take at_ (elems l)) /\ Forall (Z.lt value) (drop at_ (elems l)))).
Proof.
  intros Hl Hs. pose proof (elems_length l Hl) as Hn. pose proof Hl as [? ? ? ?].
  apply (wp_inv (lpp_list_binary_search (Some l) value)).
  apply (bsearch_spec 63); try done || lia.
  - apply prefix_take.
  - change (2 ^ Z.of_nat 63) with (2 ^ 63). pow2. lia.
  - intros k Hk x Hx. apply lookup_lt_Some in Hx. lia.
Qed.

Definition bs_example : LppList := mk_list [-5; 3; 3; 9; 0] 4 5 false false.

Lemma binary_search_finds_witness :
  exists r, lpp_list_binary_search (Some bs_example) 4 = Ok r /\
    ((0 <= r /\ elems bs_example !! Z.to_nat r = Some 4) \/
     (r < 0 /\ let at_ := Z.to_nat (- r - 1) in
       (at_ <= length (elems bs_example))%nat /\
       Forall (fun x => x < 4) (take at_ (elems bs_example)) /\
       Forall (Z.lt 4) (drop at_ (elems bs_example)))).
Proof.
  apply (binary_search_finds bs_example 4).
  - split; simpl; pow2; lia || done.
  - vm_compute. repeat constructor; discriminate.
Defined.

(** [lpp_list_index_of] is the first position that holds the value. *)
Lemma index_loop_spec d value k : forall i,
  (i + k <= length d)%nat ->
  index_loop d value k (Z.of_nat i) =
    Ok (match list_find (fun x => x = value) (take k (drop i d)) with
        | Some (j, _) => Z.of_nat (i + j) | None => -1 end).
Proof.
  induction k as [|k IH]; intros i Hk; cbn [index_loop]; [by rewrite take_0|].
  destruct (lookup_lt_is_Some_2 d i) as [x Hx]; [lia|].
  rewrite (rd_ok _ _ x) by (rewrite ?Nat2Z.id; lia || done). cbn [obind].
  rewrite (drop_S _ x i Hx). cbn [take list_find].
  destruct (Z.eqb_spec x value) as [->|Hne].
  - rewrite decide_True by done. by rewrite Nat.add_0_r.
  - rewrite decide_False by done. replace (Z.of_nat i + 1) with (Z.of_nat (S i)) by lia.
    rewrite IH by lia. f_equal. destruct (list_find _ _) as [[j y]|]; simpl; [|done]. by rewrite Nat.add_succ_r.
Qed.

Lemma index_of_spec l value : list_wf l ->
  lpp_list_index_of (Some l) value =
    Ok (match list_find (fun x => x = value) (elems l) with Some (j, _) => Z.of_nat j | None => -1 end).
Proof.
  intros [? ? ? ?]. simpl. change 0 with (Z.of_nat 0). rewrite index_loop_spec by lia. by rewrite drop_0.
Qed.

(** [lpp_list_reserve] does not check the size it asks for: [(size_t)capacity * 8] wraps,
    so for every capacity of the form [2^61 + k] (with [k] at least the present capacity) the
    block really has [k] cells while the list believes it has [2^61 + k].  The list is no
    longer well formed, and pushing onto it once its [k] cells are full writes outside the
    block.  ([lpp_list_push] guards the same computation.) *)
Theorem reserve_size_wraps al l k v :
  list_wf l -> cap l < k -> k * 8 <= INT64_MAX -> granted al (k * 8) = true ->
  exists l', lpp_list_reserve al (Some l) (2 ^ 61 + k) = Ok (Some l') /\
    Z.of_nat (length (data l')) = k /\ cap l' = 2 ^ 61 + k /\ ~ list_wf l' /\
    lpp_list_push al (Some (set_len l' k)) v = Undef.
Proof.
  intros [H1 H2 H3 H4] Hk Hsz Hg. unfold lpp_list_reserve.
  change (2 ^ 61) with 2305843009213693952. pow2.
  rewrite (proj2 (Z.leb_gt _ _)) by lia.
  assert (u64 (u64 (2305843009213693952 + k) * 8) = k * 8) as Hu.
  { rewrite (u64_id (_ + k)) by (pow2; lia). unfold u64, uwrap. pow2.
    replace ((2305843009213693952 + k) * 8) with (k * 8 + 1 * 18446744073709551616) by lia.
    rewrite Z.mod_add by lia. apply Z.mod_small. lia. }
  unfold realloc_cells. rewrite Hu, Hg. eexists. split; [done|].
  set (d := _ ++ _). assert (Z.of_nat (length d) = k) as Hd.
  { unfold d. rewrite Z.div_mul, length_app, length_take, length_map, length_seq by lia. lia. }
  cbn [set_block data cap]. split_and!; [done|done| |].
  - intros [_ Hc _ _]. simpl in Hc. lia.
  - unfold lpp_list_push. simpl len. simpl cap. simpl data. rewrite (proj2 (Z.eqb_neq _ _)) by lia. cbn [obind].
    unfold wr. simpl data. simpl len. rewrite Hd. rewrite (proj2 (Z.ltb_ge k 0)) by lia.
    by rewrite Z.geb_leb, Z.leb_refl.
Qed.

Lemma reserve_size_wraps_witness :
  exists l', lpp_list_reserve small_alloc (Some (mk_list [] 0 0 false false)) (2 ^ 61 + 1) = Ok (Some l') /\
    Z.of_nat (length (data l')) = 1 /\ cap l' = 2 ^ 61 + 1 /\ ~ list_wf l' /\
    lpp_list_push small_alloc (Some (set_len l' 1)) 7 = Undef.
Proof.
  apply (reserve_size_wraps small_alloc (mk_list [] 0 0 false false) 1 7).
  - split; simpl; pow2; lia || done.
  - reflexivity.
  - discriminate.
  - reflexivity.
Defined.

(** ** Filling a new list

    Shared by the builtins that return lists. *)

(** The allocator serves a list of [n] elements. *)
Definition serves_list (al : allocation) (n : Z) : Prop :=
  forall c, 0 <= c <= Z.max 8 (2 * n) -> granted al (c * 8) = true.

(** A list whose capacity never outran what was asked for its length. *)
Definition tight (l : LppList) (n : Z) : Prop := list_wf l /\ cap l <= Z.max 8 (2 * n) /\ len l <= n.

Lemma tight_served al l n v : tight l n -> len l < n -> serves_list al n -> served al (OPush v) l = true.
Proof.
  intros (Hl & Hc & Hn) Hlt Hs. unfold served, request, doubled. pose proof Hl as [? ? ? ?].
  destruct (Z.eqb_spec (len l) (cap l)); [|done]. apply Hs. destruct (Z.eqb_spec (cap l) 0); lia.
Qed.

Lemma push_cap al l v l' ev : lpp_list_push al (Some l) v = Ok (l', ev) ->
  cap l' = (if len l =? cap l then doubled l else cap l) /\ len l' = len l + 1.
Proof.
  unfold lpp_list_push, doubled. destruct (len l =? cap l).
  - repeat (destruct (_ >? _); [done|]). destruct (realloc_cells _ _ _); [|done]. cbn [obind].
    destruct (wr _ _ _); [|done..]. intros [= <- <-]. done.
  - cbn [obind]. destruct (wr _ _ _); [|done..]. intros [= <- <-]. done.
Qed.

Lemma push_tight al `{!SysAlloc al} l v n : tight l n -> len l < n -> serves_list al n ->
  wp (lpp_list_push al (Some l) v) (fun '(l', ev) => tight l' n /\ elems l' = elems l ++ [v] /\
    retain_element l' = retain_element l /\ ev = retains (retain_element l) v).
Proof.
  intros Ht Hlt Hs. pose proof (tight_served al l n v Ht Hlt Hs) as Hsv. destruct Ht as (Hl & Hc & Hn).
  destruct (push_spec al l v Hl) as [Hyes _]. specialize (Hyes Hsv).
  destruct (lpp_list_push al (Some l) v) as [[l' ev]| | |] eqn:E; try done. cbn [wp] in *.
  destruct Hyes as (Hw & He & Hr & ->). apply push_cap in E as [Hcap Hlen].
  split_and!; try done. split_and!; [done| |lia]. rewrite Hcap. unfold doubled.
  destruct (Z.eqb_spec (len l) (cap l)); [|done]. destruct (Z.eqb_spec (cap l) 0); lia.
Qed.

Lemma push_arc_owned al l v : list_wf l -> retain_element l = true ->
  lpp_list_push_arc al (Some l) v = lpp_list_push al (Some l) v.
Proof. intros Hl Hr. unfold lpp_list_push_arc. by rewrite Hr. Qed.

Lemma new_tight arc n l : 0 <= n -> lpp_list_new_with_ownership true arc arc = Ok l ->
  tight l n /\ elems l = [] /\ retain_element l = arc /\ len l = 0.
Proof.
  intros Hn [= <-]. split_and!; [|done..]. split_and!; simpl; [|lia|lia].
  split; simpl; [lia|done|pow2; lia|done].
Qed.
