(* ===== verification/HashMap.v ===== *)
(** * The runtime hash map (runtime/lpp_map.c)

    [LppMap] with open addressing and linear probing, as written: slots are empty (0), occupied
    (1) or deleted (2), an insertion rehashes when seven tenths of the slots are in use, a
    lookup stops at the first empty slot.  A string key is the pointer itself ([int64_t]), so
    every function that hashes or compares keys takes the memory it reads strings from,
    [mem : Z -> option cstr] ([None] where no string lives).  The theorems relate a map to a
    finite map from keys to values. *)

From stdpp Require Import gmap.
From S2P Require Import Prelude ListRt.

Record LppMapEntry := mk_entry {
  key : Z;
  val : Z;
  is_str_key : Z;
  occupied : Z
}.
Record LppMap := mk_map {
  entries : list LppMapEntry;
  mcap : Z;
  mlen : Z;
  arc_values : bool
}.
#[export] Instance entry_inhabited : Inhabited LppMapEntry := populate (mk_entry 0 0 0 0).

(** What [calloc] leaves in a slot. *)
Definition empty_entry : LppMapEntry := mk_entry 0 0 0 0.

(** ** Hashing *)

Definition hash_step (h c : Z) : Z := u64 (Z.lxor h c * 1099511628211).
Definition hash_bytes (s : cstr) : Z := fold_left hash_step s 14695981039346656037.

Definition lpp_hash_int (k : Z) : Z :=
  let k := u64 k in
  let k := u64 (u64 (Z.lnot k) + u64 (Z.shiftl k 21)) in
  let k := Z.lxor k (Z.shiftr k 24) in
  let k := u64 (u64 (k + u64 (Z.shiftl k 3)) + u64 (Z.shiftl k 8)) in
  let k := Z.lxor k (Z.shiftr k 14) in
  let k := u64 (u64 (k + u64 (Z.shiftl k 2)) + u64 (Z.shiftl k 4)) in
  let k := Z.lxor k (Z.shiftr k 28) in
  u64 (k + u64 (Z.shiftl k 31)).

(** The hash functions are opaque to the proofs, which hold for any hash. *)
#[global] Opaque lpp_hash_int hash_bytes.

(** Operations of the map that only look at slots; [cap] is the number of slots. *)
Fixpoint find_slot (hit : LppMapEntry -> outcome bool) (fuel : nat) (es : list LppMapEntry)
    (cap idx start_idx : Z) : outcome (option Z) :=
  match fuel with
  | O => NoFuel
  | S f =>
      let! e := rd es idx in
      if occupied e =? 0 then Ok None
      else
        let! b := hit e in
        if b then Ok (Some idx)
        else
          let idx := (idx + 1) mod cap in
          if idx =? start_idx then Ok None else find_slot hit f es cap idx start_idx
  end.

(** The loop of [lpp_map_put_internal]: the slot that holds the key, or the empty slot it stops
    at with the first tombstone it passed. *)
Fixpoint put_slot (hit : LppMapEntry -> outcome bool) (fuel : nat) (es : list LppMapEntry)
    (cap idx first_tombstone : Z) : outcome (Z + Z * Z) :=
  match fuel with
  | O => NoFuel
  | S f =>
      let! e := rd es idx in
      if occupied e =? 0 then Ok (inr (idx, first_tombstone))
      else
        let! b := hit e in
        if b then Ok (inl idx)
        else
          let ft := if (occupied e =? 2) && (first_tombstone =? -1) then idx else first_tombstone in
          put_slot hit f es cap ((idx + 1) mod cap) ft
  end.

(** [while (m->entries[idx].occupied == 1) idx = (idx + 1) % m->cap]. *)
Fixpoint free_slot (fuel : nat) (es : list LppMapEntry) (cap idx : Z) : outcome Z :=
  match fuel with
  | O => NoFuel
  | S f =>
      let! e := rd es idx in
      if occupied e =? 1 then free_slot f es cap ((idx + 1) mod cap) else Ok idx
  end.

Fixpoint count_used (es : list LppMapEntry) : Z :=
  match es with
  | [] => 0
  | e :: es => (if negb (occupied e =? 0) then 1 else 0) + count_used es
  end.

(** [lpp_arc_release] of every live value, in slot order. *)
Fixpoint release_values (es : list LppMapEntry) : list arc_ev :=
  match es with
  | [] => []
  | e :: es => (if occupied e =? 1 then [Release (val e)] else []) ++ release_values es
  end.

Section with_memory.
Context (mem : Z -> option cstr).

(** A NULL string hashes to 0; a pointer to no string is not readable. *)
Definition lpp_hash_str (p : Z) : outcome Z :=
  if p =? 0 then Ok 0
  else match mem p with Some s => Ok (hash_bytes s) | None => Undef end.

Definition hash_key (is_str key : Z) : outcome Z :=
  if negb (is_str =? 0) then lpp_hash_str key else Ok (lpp_hash_int key).

(** [strcmp(p, q) == 0]. *)
Definition str_eq (p q : Z) : outcome bool :=
  match mem p, mem q with
  | Some s, Some t => Ok (bool_decide (s = t))
  | _, _ => Undef
  end.

(** Does an entry hold the key?  The three forms the code has. *)
Definition hit_int (k : Z) (e : LppMapEntry) : outcome bool :=
  Ok ((occupied e =? 1) && (is_str_key e =? 0) && (key e =? k)).
Definition hit_str (p : Z) (e : LppMapEntry) : outcome bool :=
  if (occupied e =? 1) && (is_str_key e =? 1) then str_eq (key e) p else Ok false.
Definition hit_put (is_str k : Z) (e : LppMapEntry) : outcome bool :=
  if (occupied e =? 1) && (is_str_key e =? is_str) then
    if negb (is_str =? 0) then str_eq (key e) k else Ok (key e =? k)
  else Ok false.

(** ** Construction *)

Definition lpp_map_destroy (m : LppMap) : LppMap * list arc_ev :=
  (mk_map [] 0 0 (arc_values m), if arc_values m then release_values (entries m) else []).

(** [None] is the NULL the code returns when the object itself cannot be allocated. *)
Definition lpp_map_new_with_mode (al : allocation) (object_ok : bool) (arc : bool)
  : outcome (option LppMap) :=
  if object_ok then
    if granted al (16 * 24) then Ok (Some (mk_map (replicate 16 empty_entry) 16 0 arc))
    else Panic "out of memory while allocating map"
  else Ok None.
Definition lpp_map_new (al : allocation) (object_ok : bool) := lpp_map_new_with_mode al object_ok false.
Definition lpp_map_new_arc (al : allocation) (object_ok : bool) := lpp_map_new_with_mode al object_ok true.

(** ** Rehashing *)

Definition reinsert (cap : Z) (acc : list LppMapEntry * Z) (e : LppMapEntry)
  : outcome (list LppMapEntry * Z) :=
  let '(es, n) := acc in
  if occupied e =? 1 then
    let! h := hash_key (is_str_key e) (key e) in
    let! idx := free_slot (S (length es)) es cap (h mod cap) in
    let! es := wr es idx (mk_entry (key e) (val e) (is_str_key e) 1) in
    Ok (es, n + 1)
  else Ok (es, n).

Fixpoint reinsert_all (cap : Z) (old : list LppMapEntry) (acc : list LppMapEntry * Z)
  : outcome (list LppMapEntry * Z) :=
  match old with
  | [] => Ok acc
  | e :: old => let! acc := reinsert cap acc e in reinsert_all cap old acc
  end.

Definition lpp_map_rehash (al : allocation) (m : LppMap) (new_cap : Z) : outcome LppMap :=
  if granted al (new_cap * 24) then
    let! '(es, n) := reinsert_all new_cap (entries m) (replicate (Z.to_nat new_cap) empty_entry, 0) in
    Ok (mk_map es new_cap n (arc_values m))
  else Panic "out of memory while rehashing map".

(** ** Insertion *)

Definition make_room (al : allocation) (m : LppMap) : outcome LppMap :=
  let! used10 := chk64 (count_used (entries m) * 10) in
  let! cap7 := chk64 (mcap m * 7) in
  if used10 >=? cap7 then
    let! len100 := chk64 (mlen m * 100) in
    let! cap35 := chk64 (mcap m * 35) in
    let! new_cap := (if len100 <? cap35 then Ok (mcap m) else chk64 (mcap m * 2)) in
    let new_cap := if new_cap <? 16 then 16 else new_cap in
    lpp_map_rehash al m new_cap
  else Ok m.

Definition lpp_map_put_internal (al : allocation) (mp : option LppMap) (k v is_str : Z)
  : outcome (option LppMap * list arc_ev) :=
  match mp with
  | None => Ok (None, [])
  | Some m =>
      let! m := make_room al m in
      let! h := hash_key is_str k in
      let! slot := put_slot (hit_put is_str k) (S (length (entries m))) (entries m) (mcap m)
                     (h mod mcap m) (-1) in
      match slot with
      | inl idx =>
          let! e := rd (entries m) idx in
          let ev := if arc_values m then [Retain v; Release (val e)] else [] in
          let! es := wr (entries m) idx (mk_entry (key e) v (is_str_key e) (occupied e)) in
          Ok (Some (mk_map es (mcap m) (mlen m) (arc_values m)), ev)
      | inr (idx, first_tombstone) =>
          let idx := if negb (first_tombstone =? -1) then first_tombstone else idx in
          let ev := if arc_values m then [Retain v] else [] in
          let! es := wr (entries m) idx (mk_entry k v is_str 1) in
          Ok (Some (mk_map es (mcap m) (mlen m + 1) (arc_values m)), ev)
      end
  end.
Definition lpp_map_put (al : allocation) (mp : option LppMap) (k v : Z) := lpp_map_put_internal al mp k v 0.
Definition lpp_map_put_str (al : allocation) (mp : option LppMap) (p v : Z) := lpp_map_put_internal al mp p v 1.

(** ** Lookup *)

(** The common shape of [get], [has] and [remove]: the slot of an integer key. *)
Definition find_int (m : LppMap) (k : Z) : outcome (option Z) :=
  let idx := lpp_hash_int k mod mcap m in
  find_slot (hit_int k) (S (length (entries m))) (entries m) (mcap m) idx idx.
Definition find_str (m : LppMap) (p : Z) : outcome (option Z) :=
  let! h := lpp_hash_str p in
  let idx := h mod mcap m in
  find_slot (hit_str p) (S (length (entries m))) (entries m) (mcap m) idx idx.

Definition val_at (m : LppMap) (slot : option Z) : outcome Z :=
  match slot with Some idx => let! e := rd (entries m) idx in Ok (val e) | None => Ok 0 end.
Definition found (slot : option Z) : Z := match slot with Some _ => 1 | None => 0 end.

Definition lpp_map_get (mp : option LppMap) (k : Z) : outcome Z :=
  match mp with
  | None => Ok 0
  | Some m => if mlen m =? 0 then Ok 0 else let! s := find_int m k in val_at m s
  end.
Definition lpp_map_get_str (mp : option LppMap) (p : Z) : outcome Z :=
  match mp with
  | None => Ok 0
  | Some m => if (p =? 0) || (mlen m =? 0) then Ok 0 else let! s := find_str m p in val_at m s
  end.
Definition lpp_map_has (mp : option LppMap) (k : Z) : outcome Z :=
  match mp with
  | None => Ok 0
  | Some m => if mlen m =? 0 then Ok 0 else let! s := find_int m k in Ok (found s)
  end.
Definition lpp_map_has_str (mp : option LppMap) (p : Z) : outcome Z :=
  match mp with
  | None => Ok 0
  | Some m => if (p =? 0) || (mlen m =? 0) then Ok 0 else let! s := find_str m p in Ok (found s)
  end.
Definition lpp_map_len (mp : option LppMap) : Z := match mp with Some m => mlen m | None => 0 end.
Definition lpp_map_capacity (mp : option LppMap) : Z := match mp with Some m => mcap m | None => 0 end.

(** ** Removal *)

Definition remove_at (m : LppMap) (slot : option Z) : outcome (LppMap * list arc_ev) :=
  match slot with
  | None => Ok (m, [])
  | Some idx =>
      let! e := rd (entries m) idx in
      let ev := if arc_values m then [Release (val e)] else [] in
      let! es := wr (entries m) idx (mk_entry (key e) (val e) (is_str_key e) 2) in
      Ok (mk_map es (mcap m) (mlen m - 1) (arc_values m), ev)
  end.
Definition lpp_map_remove (mp : option LppMap) (k : Z) : outcome (option LppMap * list arc_ev) :=
  match mp with
  | None => Ok (None, [])
  | Some m =>
      if mlen m =? 0 then Ok (Some m, [])
      else let! s := find_int m k in let! '(m, ev) := remove_at m s in Ok (Some m, ev)
  end.
Definition lpp_map_remove_str (mp : option LppMap) (p : Z) : outcome (option LppMap * list arc_ev) :=
  match mp with
  | None => Ok (None, [])
  | Some m =>
      if (p =? 0) || (mlen m =? 0) then Ok (Some m, [])
      else let! s := find_str m p in let! '(m, ev) := remove_at m s in Ok (Some m, ev)
  end.

Definition lpp_map_clear (mp : option LppMap) : option LppMap * list arc_ev :=
  match mp with
  | None => (None, [])
  | Some m => (Some (mk_map (replicate (length (entries m)) empty_entry) (mcap m) 0 (arc_values m)),
               if arc_values m then release_values (entries m) else [])
  end.

(** ** Snapshots *)

(** The loop of [lpp_map_values]. *)
Fixpoint values_loop (al : allocation) (arc : bool) (es : list LppMapEntry) (l : LppList)
  : outcome (LppList * list arc_ev) :=
  match es with
  | [] => Ok (l, [])
  | e :: es =>
      if occupied e =? 1 then
        let! '(l, ev) := (if arc then lpp_list_push_arc al (Some l) (val e)
                          else lpp_list_push al (Some l) (val e)) in
        let! '(l, ev') := values_loop al arc es l in
        Ok (l, ev ++ ev')
      else values_loop al arc es l
  end.
Definition lpp_map_values (al : allocation) (list_ok : bool) (mp : option LppMap)
  : outcome (LppList * list arc_ev) :=
  match mp with
  | Some m =>
      if mlen m =? 0 then let! l := lpp_list_new list_ok in Ok (l, [])
      else
        let! l := (if arc_values m then lpp_list_new_arc list_ok else lpp_list_new list_ok) in
        values_loop al (arc_values m) (entries m) l
  | None => let! l := lpp_list_new list_ok in Ok (l, [])
  end.

(** The loop of [lpp_map_keys].  [dup n] is the address [lpp_arc_alloc] returns for the [n]-th
    copy (0 when it fails); the copies made are collected with their contents, each of them
    born with one reference. *)
Fixpoint keys_loop (al : allocation) (dup : nat -> Z) (es : list LppMapEntry) (n : nat) (l : LppList)
  : outcome (LppList * list arc_ev * list (Z * cstr)) :=
  match es with
  | [] => Ok (l, [], [])
  | e :: es =>
      if occupied e =? 1 then
        if negb (is_str_key e =? 0) then
          let! s := (if key e =? 0 then Ok [] else match mem (key e) with Some s => Ok s | None => Undef end) in
          let copies := if dup n =? 0 then [] else [(dup n, s)] in
          let! '(l, ev) := lpp_list_push_arc al (Some l) (dup n) in
          let! '(l, ev', copies') := keys_loop al dup es (S n) l in
          Ok (l, ev ++ ev', copies ++ copies')
        else
          let! '(l, ev) := lpp_list_push al (Some l) (key e) in
          let! '(l, ev', copies') := keys_loop al dup es n l in
          Ok (l, ev ++ ev', copies')
      else keys_loop al dup es n l
  end.
Definition has_str (es : list LppMapEntry) : bool :=
  existsb (fun e => (occupied e =? 1) && negb (is_str_key e =? 0)) es.
Definition lpp_map_keys (al : allocation) (dup : nat -> Z) (list_ok : bool) (mp : option LppMap)
  : outcome (LppList * list arc_ev * list (Z * cstr)) :=
  match mp with
  | Some m =>
      if mlen m =? 0 then let! l := lpp_list_new list_ok in Ok (l, [], [])
      else
        let! l := (if has_str (entries m) then lpp_list_new_arc list_ok else lpp_list_new list_ok) in
        keys_loop al dup (entries m) 0 l
  | None => let! l := lpp_list_new list_ok in Ok (l, [], [])
  end.

(** Floats are stored as their bit patterns. *)
Definition lpp_map_put_float (al : allocation) (mp : option LppMap) (k bits : Z) := lpp_map_put al mp k (i64 bits).
Definition lpp_map_get_float (mp : option LppMap) (k : Z) : outcome Z :=
  let! v := lpp_map_get mp k in Ok (u64 v).
Definition lpp_map_put_str_float (al : allocation) (mp : option LppMap) (p bits : Z) :=
  lpp_map_put_str al mp p (i64 bits).
Definition lpp_map_get_str_float (mp : option LppMap) (p : Z) : outcome Z :=
  let! v := lpp_map_get_str mp p in Ok (u64 v).

End with_memory.

(** ** Abstract keys and the finite map a table stands for *)

Inductive mkey := KInt (k : Z) | KStr (s : cstr).
#[export] Instance mkey_eq_dec : EqDecision mkey.
Proof. solve_decision. Defined.
#[export] Instance mkey_countable : Countable mkey.
Proof.
  refine (inj_countable' (fun k => match k with KInt z => inl z | KStr s => inr s end)
    (fun x => match x with inl z => KInt z | inr s => KStr s end) _). by intros [].
Defined.

Definition ahash (K : mkey) : Z := match K with KInt k => lpp_hash_int k | KStr s => hash_bytes s end.

(** *** Positions of a probe sequence *)

Definition pos (cap h t : Z) : Z := (h + t) mod cap.
Definition dist (cap h i : Z) : Z := (i - h) mod cap.

Section positions.
Context (cap : Z) (Hcap : 0 < cap).

Lemma pos_range h t : 0 <= pos cap h t < cap.
Proof. by apply Z.mod_pos_bound. Qed.
Lemma dist_range h i : 0 <= dist cap h i < cap.
Proof. by apply Z.mod_pos_bound. Qed.
Lemma pos_dist h i : 0 <= i < cap -> pos cap h (dist cap h i) = i.
Proof.
  intros Hi. unfold pos, dist. rewrite Zplus_mod_idemp_r. replace (h + (i - h)) with i by lia.
  by apply Z.mod_small.
Qed.
Lemma dist_pos h t : 0 <= t < cap -> dist cap h (pos cap h t) = t.
Proof.
  intros Ht. unfold pos, dist. rewrite Zminus_mod_idemp_l. replace (h + t - h) with t by lia.
  by apply Z.mod_small.
Qed.
Lemma pos_succ h t : (pos cap h t + 1) mod cap = pos cap h (t + 1).
Proof. unfold pos. rewrite Zplus_mod_idemp_l. f_equal. lia. Qed.
Lemma pos_0 h : 0 <= h < cap -> pos cap h 0 = h.
Proof. intros. unfold pos. rewrite Z.add_0_r. by apply Z.mod_small. Qed.
(** The sequence is back at its start after [cap] steps, not before. *)
Lemma pos_back h t : 0 <= h < cap -> 0 < t <= cap -> pos cap h t = h -> t = cap.
Proof.
  intros Hh Ht Hp. destruct (decide (t = cap)); [done|].
  pose proof (dist_pos h t ltac:(lia)) as Hd. rewrite Hp in Hd. unfold dist in Hd.
  rewrite Z.sub_diag, Z.mod_0_l in Hd by lia. lia.
Qed.
End positions.

Section tables.
Context (mem : Z -> option cstr) (Hnull : mem 0 = None).

Definition akey (is_str k : Z) : option mkey := if is_str =? 0 then Some (KInt k) else KStr <$> mem k.
Definition kv (e : LppMapEntry) : option (mkey * Z) :=
  if occupied e =? 1 then (fun K => (K, val e)) <$> akey (is_str_key e) (key e) else None.
Definition lk (e : LppMapEntry) : option mkey := fst <$> kv e.

Definition entry_ok (e : LppMapEntry) : Prop :=
  (occupied e = 0 \/ occupied e = 1 \/ occupied e = 2) /\
  (occupied e = 1 -> (is_str_key e = 0 \/ is_str_key e = 1) /\ is_Some (akey (is_str_key e) (key e))).

Lemma lk_occupied e K : lk e = Some K -> occupied e = 1.
Proof. unfold lk, kv. destruct (Z.eqb_spec (occupied e) 1); done. Qed.

Lemma lk_kv e K : lk e = Some K <-> kv e = Some (K, val e).
Proof.
  unfold lk, kv. destruct (occupied e =? 1); [|done]. destruct (akey _ _); simpl; [|done].
  split; intros; simplify_eq; done.
Qed.

Lemma entry_ok_live e : entry_ok e -> occupied e = 1 -> is_Some (lk e).
Proof.
  intros [_ H] Ho. destruct (H Ho) as [_ [K HK]]. exists K. unfold lk, kv. by rewrite Ho, HK.
Qed.

Lemma hash_key_spec is_str k K :
  is_str = 0 \/ is_str = 1 -> akey is_str k = Some K -> hash_key mem is_str k = Ok (ahash K).
Proof.
  unfold akey, hash_key, lpp_hash_str. intros [-> | ->]; cbn [Z.eqb negb]; [intros H; by injection H as <-|].
  destruct (Z.eqb_spec k 0) as [->|]; [by rewrite Hnull|].
  destruct (mem k); [intros H; by injection H as <-|done].
Qed.

(** All three key tests decide the same thing. *)
Lemma hit_put_spec is_str k K e :
  is_str = 0 \/ is_str = 1 -> akey is_str k = Some K -> entry_ok e ->
  hit_put mem is_str k e = Ok (bool_decide (lk e = Some K)).
Proof.
  intros Hs HK [Ho1 Ho2]. unfold hit_put. destruct (Z.eqb_spec (occupied e) 1) as [Ho|Hno]; cbn [andb].
  2: { rewrite bool_decide_eq_false_2; [done|]. intros H%lk_occupied. done. }
  destruct (Ho2 Ho) as [Hs' [K' HK']]. unfold lk, kv. rewrite Ho, HK'. cbn.
  unfold akey in HK, HK'.
  destruct Hs as [-> | ->], Hs' as [Hs' | Hs']; rewrite Hs' in *; cbn [Z.eqb negb] in *.
  - injection HK as <-. injection HK' as <-. f_equal.
    destruct (Z.eqb_spec (key e) k) as [Hk|Hk].
    + by rewrite Hk, bool_decide_eq_true_2.
    + rewrite bool_decide_eq_false_2; [done|]. intros H. by injection H.
  - injection HK as <-. destruct (mem (key e)); [injection HK' as <-|done].
    by rewrite bool_decide_eq_false_2.
  - injection HK' as <-. destruct (mem k); [injection HK as <-|done].
    by rewrite bool_decide_eq_false_2.
  - unfold str_eq. destruct (mem (key e)) as [s|]; [|done]. destruct (mem k) as [t|]; [|done].
    injection HK as <-. injection HK' as <-. f_equal.
    apply bool_decide_ext. split; [by intros ->|by intros [= ->]].
Qed.

Lemma hit_int_put k e : hit_int k e = hit_put mem 0 k e.
Proof. unfold hit_int, hit_put. by destruct (occupied e =? 1), (is_str_key e =? 0). Qed.
Lemma hit_str_put p e : hit_str mem p e = hit_put mem 1 p e.
Proof. done. Qed.

(** *** The table invariant *)

Definition used_at (es : list LppMapEntry) (i : Z) : Prop :=
  exists e, es !! Z.to_nat i = Some e /\ occupied e <> 0.

(** Every live entry is found by probing from its hash: no empty slot comes before it; and no
    key is stored twice. *)
Record table (es : list LppMapEntry) (cap : Z) : Prop := {
  t_len : Z.of_nat (length es) = cap;
  t_ok : Forall entry_ok es;
  t_reach : forall i e K, 0 <= i -> es !! Z.to_nat i = Some e -> lk e = Some K ->
    forall t, 0 <= t < dist cap (ahash K mod cap) i -> used_at es (pos cap (ahash K mod cap) t);
  t_uniq : forall i j e e' K, es !! i = Some e -> es !! j = Some e' ->
    lk e = Some K -> lk e' = Some K -> i = j
}.

Definition kvs (es : list LppMapEntry) : list (mkey * Z) := omap kv es.
Definition abs (es : list LppMapEntry) : gmap mkey Z := list_to_map (kvs es).

Lemma elem_of_kvs es x : x ∈ kvs es <-> exists i e, es !! i = Some e /\ kv e = Some x.
Proof.
  unfold kvs. rewrite list_elem_of_omap. split.
  - intros (e & [i Hi]%list_elem_of_lookup & Hx). by exists i, e.
  - intros (i & e & Hi & Hx). exists e. split; [by eapply list_elem_of_lookup_2|done].
Qed.

Lemma kvs_NoDup es :
  (forall i j e e' K, es !! i = Some e -> es !! j = Some e' -> lk e = Some K -> lk e' = Some K -> i = j) ->
  NoDup (kvs es).*1.
Proof.
  induction es as [|e es IH]; intros Hu; [constructor|]. unfold kvs in *. cbn [omap list_omap].
  assert (NoDup (omap kv es).*1) as Hnd.
  { apply IH. intros i j e1 e2 K H1 H2 H3 H4. by pose proof (Hu (S i) (S j) e1 e2 K H1 H2 H3 H4) as [= ->]. }
  destruct (kv e) as [[K v]|] eqn:Ekv; [|done]. cbn. constructor; [|done].
  intros ([K' v'] & -> & Hin)%list_elem_of_fmap. apply elem_of_kvs in Hin as (j & e' & Hj & He').
  pose proof (Hu 0%nat (S j) e e' K' eq_refl Hj) as H. unfold lk in H. rewrite Ekv, He' in H.
  by specialize (H eq_refl eq_refl).
Qed.

Lemma abs_lookup es cap K v : table es cap ->
  abs es !! K = Some v <-> exists i e, es !! i = Some e /\ kv e = Some (K, v).
Proof.
  intros [_ _ _ Hu]. unfold abs. rewrite <- elem_of_list_to_map by (by apply kvs_NoDup). apply elem_of_kvs.
Qed.

Lemma abs_none es cap K : table es cap ->
  abs es !! K = None <-> forall i e, es !! i = Some e -> lk e <> Some K.
Proof.
  intros Ht. rewrite eq_None_not_Some. split.
  - intros Hn i e Hi He. apply Hn. exists (val e). eapply abs_lookup; [done|]. exists i, e. by rewrite <- lk_kv.
  - intros Hn [v (i & e & Hi & He)%(abs_lookup _ _ _ _ Ht)]. apply (Hn i e Hi). unfold lk. by rewrite He.
Qed.

(** *** Counting slots *)

Lemma count_used_insert es : forall i e e', es !! i = Some e ->
  count_used (<[i := e']> es) + b2z (negb (occupied e =? 0)) = count_used es + b2z (negb (occupied e' =? 0)).
Proof.
  induction es as [|x es IH]; intros [|i] e e' He; simplify_eq/=.
  - unfold b2z. destruct (negb _), (negb _); lia.
  - specialize (IH i e e' He). lia.
Qed.

Lemma count_used_bound es : 0 <= count_used es <= Z.of_nat (length es).
Proof. induction es as [|e es IH]; cbn [count_used length]; [lia|]. destruct (negb _); lia. Qed.

Lemma empty_slot es : count_used es < Z.of_nat (length es) ->
  exists i e, es !! i = Some e /\ occupied e = 0.
Proof.
  induction es as [|x es IH]; cbn [count_used length]; [lia|].
  destruct (Z.eqb_spec (occupied x) 0) as [Hx|]; cbn [negb]; intros H; [by exists 0%nat, x|].
  destruct IH as (i & e & ? & ?); [lia|]. by exists (S i), e.
Qed.

Lemma kvs_length_insert es : forall i e e', es !! i = Some e ->
  (length (kvs (<[i := e']> es)) + length (option_list (kv e)) = length (kvs es) + length (option_list (kv e')))%nat.
Proof.
  induction es as [|x es IH]; intros [|i] e e' He; simplify_eq/=; unfold kvs in *; cbn [omap list_omap].
  - destruct (kv e), (kv e'); simpl; lia.
  - specialize (IH i e e' He). destruct (kv x); simpl; lia.
Qed.

Lemma kvs_le_used es : Z.of_nat (length (kvs es)) <= count_used es.
Proof.
  induction es as [|x es IH]; unfold kvs in *; cbn [omap list_omap count_used length]; [lia|].
  unfold kv at 1. destruct (Z.eqb_spec (occupied x) 1) as [->|]; cbn.
  - destruct (akey _ _); simpl; lia.
  - destruct (negb _); lia.
Qed.

(** *** The probing loops *)

Section probing.
Context (es : list LppMapEntry) (cap : Z) (Hcap : 0 < cap) (Ht : table es cap).
Context (K : mkey) (hit : LppMapEntry -> outcome bool)
  (Hhit : forall e, entry_ok e -> hit e = Ok (bool_decide (lk e = Some K))).
#[local] Abbreviation h := (ahash K mod cap).

Lemma start_range : 0 <= h < cap.
Proof. by apply Z.mod_pos_bound. Qed.

Lemma slot_at t : exists e, es !! Z.to_nat (pos cap h t) = Some e /\ entry_ok e /\ rd es (pos cap h t) = Ok e.
Proof.
  pose proof (pos_range cap Hcap h t) as Hp. pose proof (t_len _ _ Ht).
  destruct (lookup_lt_is_Some_2 es (Z.to_nat (pos cap h t))) as [e He]; [lia|].
  exists e. split_and!; [done| |apply rd_ok; [lia|done]].
  pose proof (t_ok _ _ Ht) as Hok. rewrite Forall_lookup in Hok. eauto.
Qed.

(** An empty slot in the probe sequence of a key ends the search for it. *)
Lemma absent_if_empty t e :
  0 <= t < cap -> es !! Z.to_nat (pos cap h t) = Some e -> occupied e = 0 ->
  (forall t', 0 <= t' < t -> forall e', es !! Z.to_nat (pos cap h t') = Some e' -> lk e' <> Some K) ->
  forall i e', es !! i = Some e' -> lk e' <> Some K.
Proof.
  intros Htr He Ho Hbefore i e' Hi Hk. apply lookup_lt_Some in Hi as Hlt. pose proof (t_len _ _ Ht) as Hl.
  assert (0 <= Z.of_nat i < cap) as Hir by lia. pose proof (dist_range cap Hcap h (Z.of_nat i)) as Hd.
  pose proof (pos_dist cap h (Z.of_nat i) Hir) as Hpd.
  destruct (Z.lt_trichotomy (dist cap h (Z.of_nat i)) t) as [Hlt'|[Heq|Hgt]].
  - apply (Hbefore (dist cap h (Z.of_nat i)) ltac:(lia) e'); [|done]. by rewrite Hpd, Nat2Z.id.
  - rewrite <- Heq, Hpd, Nat2Z.id in He. simplify_eq. apply lk_occupied in Hk. lia.
  - destruct (t_reach _ _ Ht (Z.of_nat i) e' K ltac:(lia)) with (t := t) as (e2 & He2 & Ho2);
      [by rewrite Nat2Z.id|done|lia|]. rewrite He in He2. simplify_eq.
Qed.

Lemma find_slot_spec fuel : forall t,
  0 <= t < cap -> cap - t < Z.of_nat fuel ->
  (forall t', 0 <= t' < t -> forall e', es !! Z.to_nat (pos cap h t') = Some e' -> lk e' <> Some K) ->
  wp (find_slot hit fuel es cap (pos cap h t) h) (fun r =>
    match r with
    | Some i => 0 <= i < cap /\ exists e, es !! Z.to_nat i = Some e /\ lk e = Some K
    | None => forall i e, es !! i = Some e -> lk e <> Some K
    end).
Proof.
  induction fuel as [|f IH]; intros t Htr Hf Hb; [lia|]. cbn [find_slot].
  destruct (slot_at t) as (e & He & Hok & ->). cbn [obind].
  destruct (Z.eqb_spec (occupied e) 0) as [Ho|Ho]; [cbn [wp]; by apply (absent_if_empty t e)|].
  rewrite Hhit by done. cbn [obind]. case_bool_decide as Hk.
  { split; [apply pos_range; lia|]. by exists e. }
  assert (forall t', 0 <= t' < t + 1 -> forall e', es !! Z.to_nat (pos cap h t') = Some e' -> lk e' <> Some K) as Hb'.
  { intros t' Ht' e' He'. destruct (decide (t' = t)) as [->|]; [congruence|]. apply (Hb t'); [lia|done]. }
  rewrite pos_succ by done. destruct (Z.eqb_spec (pos cap h (t + 1)) h) as [Hback|Hnb].
  - apply (pos_back cap Hcap h (t + 1) start_range ltac:(lia)) in Hback. intros i e' Hi.
    apply lookup_lt_Some in Hi as Hlt. pose proof (t_len _ _ Ht). assert (0 <= Z.of_nat i < cap) as Hir by lia.
    pose proof (dist_range cap Hcap h (Z.of_nat i)).
    apply (Hb' (dist cap h (Z.of_nat i))); [lia|]. by rewrite pos_dist, Nat2Z.id.
  - apply IH; [|lia|done]. destruct (decide (t + 1 = cap)) as [Heq|]; [|lia].
    exfalso. apply Hnb. rewrite Heq. unfold pos. rewrite <- (Z.mul_1_l cap) at 2.
    rewrite Z.mod_add by lia. apply Z.mod_small, start_range.
Qed.

(** Where a new key goes: a slot without a live entry all of whose predecessors are in use. *)
Definition target (i : Z) : Prop :=
  0 <= i < cap /\ (exists e, es !! Z.to_nat i = Some e /\ lk e = None) /\
  (forall t, 0 <= t < dist cap h i -> used_at es (pos cap h t)).

Lemma target_pos t e :
  0 <= t < cap -> es !! Z.to_nat (pos cap h t) = Some e -> lk e = None ->
  (forall t', 0 <= t' < t -> used_at es (pos cap h t')) -> target (pos cap h t).
Proof.
  intros Htr He Hk Hu. split; [apply pos_range; lia|]. split; [by exists e|].
  rewrite dist_pos by done. done.
Qed.

Lemma put_slot_spec fuel : forall t ft,
  0 <= t -> (exists t0 e0, t <= t0 < cap /\ es !! Z.to_nat (pos cap h t0) = Some e0 /\ occupied e0 = 0) ->
  cap - t < Z.of_nat fuel ->
  (forall t', 0 <= t' < t -> used_at es (pos cap h t')) ->
  (forall t', 0 <= t' < t -> forall e', es !! Z.to_nat (pos cap h t') = Some e' -> lk e' <> Some K) ->
  (ft = -1 \/ target ft) ->
  wp (put_slot hit fuel es cap (pos cap h t) ft) (fun r =>
    match r with
    | inl i => 0 <= i < cap /\ exists e, es !! Z.to_nat i = Some e /\ lk e = Some K
    | inr (i, ft') => target (if negb (ft' =? -1) then ft' else i) /\
        forall i e, es !! i = Some e -> lk e <> Some K
    end).
Proof.
  induction fuel as [|f IH]; intros t ft Ht0 (t0 & e0 & Htr & He0 & Ho0) Hf Hu Hb Hft; [lia|]. cbn [put_slot].
  destruct (slot_at t) as (e & He & Hok & ->). cbn [obind].
  destruct (Z.eqb_spec (occupied e) 0) as [Ho|Ho].
  { split; [|by apply (absent_if_empty t e); [lia|..]].
    destruct Hft as [->|Hft].
    - cbn [Z.eqb negb]. apply (target_pos t e); [lia|done| |done].
      destruct (lk e) eqn:Hk; [apply lk_occupied in Hk; lia|done].
    - destruct (Z.eqb_spec ft (-1)) as [->|]; [|done]. destruct Hft as [? _]. lia. }
  rewrite Hhit by done. cbn [obind]. case_bool_decide as Hk.
  { split; [apply pos_range; lia|]. by exists e. }
  rewrite pos_succ by done. apply IH.
  - lia.
  - exists t0, e0. split_and!; try done; [|lia]. destruct (decide (t0 = t)) as [->|]; [|lia].
    rewrite He in He0. simplify_eq.
  - lia.
  - intros t' Ht'. destruct (decide (t' = t)) as [->|]; [by exists e|]. apply Hu. lia.
  - intros t' Ht' e' He'. destruct (decide (t' = t)) as [->|]; [congruence|]. apply (Hb t'); [lia|done].
  - destruct (Z.eqb_spec (occupied e) 2) as [Ho2|]; cbn [andb]; [|done].
    destruct (Z.eqb_spec ft (-1)); [|done]. right. apply (target_pos t e); [lia|done| |done].
    destruct (lk e) eqn:Hk'; [apply lk_occupied in Hk'; lia|done].
Qed.

Lemma free_slot_spec fuel : forall t,
  0 <= t -> (exists t0 e0, t <= t0 < cap /\ es !! Z.to_nat (pos cap h t0) = Some e0 /\ occupied e0 <> 1) ->
  cap - t < Z.of_nat fuel ->
  (forall t', 0 <= t' < t -> used_at es (pos cap h t')) ->
  wp (free_slot fuel es cap (pos cap h t)) target.
Proof.
  induction fuel as [|f IH]; intros t Ht0 (t0 & e0 & Htr & He0 & Ho0) Hf Hu; [lia|]. cbn [free_slot].
  destruct (slot_at t) as (e & He & Hok & ->). cbn [obind].
  destruct (Z.eqb_spec (occupied e) 1) as [Ho|Ho].
  - rewrite pos_succ by done. apply IH; [lia| |lia|].
    + exists t0, e0. split_and!; try done; [|lia]. destruct (decide (t0 = t)) as [->|]; [|lia].
      rewrite He in He0. simplify_eq.
    + intros t' Ht'. destruct (decide (t' = t)) as [->|]; [exists e; split; [done|lia]|]. apply Hu. lia.
  - apply (target_pos t e); [lia|done| |done]. destruct (lk e) eqn:Hk; [apply lk_occupied in Hk; lia|done].
Qed.

(** An empty slot is somewhere on the probe sequence. *)
Lemma empty_on_path : count_used es < cap ->
  exists t0 e0, 0 <= t0 < cap /\ es !! Z.to_nat (pos cap h t0) = Some e0 /\ occupied e0 = 0.
Proof.
  intros Hu. pose proof (t_len _ _ Ht) as Hl. destruct (empty_slot es) as (i & e & Hi & He); [lia|].
  apply lookup_lt_Some in Hi as Hlt. exists (dist cap h (Z.of_nat i)), e.
  split; [by apply dist_range|]. rewrite pos_dist by lia. by rewrite Nat2Z.id.
Qed.
End probing.

(** *** Storing into a slot *)

Lemma used_at_insert es i e' j :
  occupied e' <> 0 -> used_at es j -> used_at (<[i := e']> es) j.
Proof.
  intros Ho (e & He & Hoe). unfold used_at. destruct (decide (i = Z.to_nat j)) as [->|].
  - exists e'. split; [|done]. apply list_lookup_insert_eq. by eapply lookup_lt_Some.
  - exists e. by rewrite list_lookup_insert_ne.
Qed.

(** Storing an entry in use keeps the invariant if its key (when it is live) is nowhere else and
    is reached from its hash. *)
Lemma table_insert es cap i e' :
  table es cap -> 0 <= i < cap -> entry_ok e' -> occupied e' <> 0 ->
  (forall K, lk e' = Some K ->
     (forall t, 0 <= t < dist cap (ahash K mod cap) i -> used_at es (pos cap (ahash K mod cap) t)) /\
     (forall j e, es !! j = Some e -> lk e = Some K -> j = Z.to_nat i)) ->
  table (<[Z.to_nat i := e']> es) cap.
Proof.
  intros Ht Hi Hok Ho Hnew. pose proof Ht as [Hl Hall Hreach Huniq]. split.
  - by rewrite length_insert.
  - by apply Forall_insert.
  - intros j e K Hj He Hk t Htr. apply used_at_insert; [done|].
    destruct (decide (i = j)) as [<-|Hne].
    + rewrite list_lookup_insert_eq in He by lia. simplify_eq. by apply (Hnew K).
    + rewrite list_lookup_insert_ne in He by lia. by apply (Hreach j e K).
  - assert (forall a b e1 e2 K, a <> b -> <[Z.to_nat i:=e']> es !! a = Some e1 ->
      <[Z.to_nat i:=e']> es !! b = Some e2 -> lk e1 = Some K -> lk e2 = Some K ->
      a <> Z.to_nat i -> False) as Hcase.
    { intros a b e1 e2 K Hab H1 H2 Hk1 Hk2 Ha. rewrite list_lookup_insert_ne in H1 by done.
      destruct (decide (b = Z.to_nat i)) as [->|].
      - rewrite list_lookup_insert_eq in H2 by lia. simplify_eq. by apply Hab, (Hnew K Hk2) with e1.
      - rewrite list_lookup_insert_ne in H2 by done. by apply Hab, (Huniq a b e1 e2 K). }
    intros a b e1 e2 K H1 H2 Hk1 Hk2. destruct (decide (a = b)) as [|Hab]; [done|]. exfalso.
    destruct (decide (a = Z.to_nat i)) as [->|]; [eapply (Hcase b (Z.to_nat i)); eauto; congruence|].
    eapply (Hcase a b); eauto.
Qed.

Lemma abs_insert es cap i e' K v :
  table es cap -> table (<[Z.to_nat i := e']> es) cap -> 0 <= i < cap ->
  abs (<[Z.to_nat i := e']> es) !! K = Some v <->
  kv e' = Some (K, v) \/ exists j e, j <> Z.to_nat i /\ es !! j = Some e /\ kv e = Some (K, v).
Proof.
  intros Ht Ht' Hi. pose proof (t_len _ _ Ht). rewrite (abs_lookup _ cap) by done. split.
  - intros (j & e & Hj & He). destruct (decide (j = Z.to_nat i)) as [->|].
    + rewrite list_lookup_insert_eq in Hj by lia. simplify_eq. by left.
    + rewrite list_lookup_insert_ne in Hj by done. right. by exists j, e.
  - intros [He|(j & e & Hne & Hj & He)].
    + exists (Z.to_nat i), e'. split; [|done]. apply list_lookup_insert_eq. lia.
    + exists j, e. by rewrite list_lookup_insert_ne.
Qed.

(** Storing a live entry for [K] where [K] is, or where nothing is while [K] is nowhere. *)
Lemma abs_put es cap i e e' K v :
  table es cap -> table (<[Z.to_nat i := e']> es) cap -> 0 <= i < cap ->
  es !! Z.to_nat i = Some e -> kv e' = Some (K, v) ->
  (lk e = Some K \/ lk e = None /\ forall j e, es !! j = Some e -> lk e <> Some K) ->
  abs (<[Z.to_nat i := e']> es) = <[K := v]> (abs es).
Proof.
  intros Ht Ht' Hi He He' Hold. apply map_eq. intros k. apply option_eq. intros w.
  rewrite (abs_insert es cap), He' by done. rewrite lookup_insert_Some, (abs_lookup es cap) by done. split.
  - intros [H|(j & e2 & Hne & Hj & He2)]; [left; by simplify_eq|]. right. split; [|by exists j, e2].
    intros <-. assert (lk e2 = Some K) as Hk2 by (unfold lk; by rewrite He2).
    destruct Hold as [Hk|[_ Habs]]; [|by apply (Habs j e2)].
    apply Hne. by eapply (t_uniq _ _ Ht).
  - intros [[-> ->]|(Hne & j & e2 & Hj & He2)]; [by left|]. right. exists j, e2. split_and!; try done.
    intros ->. simplify_eq. destruct Hold as [Hk|[Hk _]]; unfold lk in Hk; rewrite He2 in Hk; simplify_eq/=.
Qed.

Lemma abs_remove es cap i e e' K :
  table es cap -> table (<[Z.to_nat i := e']> es) cap -> 0 <= i < cap ->
  es !! Z.to_nat i = Some e -> lk e = Some K -> kv e' = None ->
  abs (<[Z.to_nat i := e']> es) = delete K (abs es).
Proof.
  intros Ht Ht' Hi He Hk He'. apply map_eq. intros k. apply option_eq. intros w.
  rewrite (abs_insert es cap), He' by done. rewrite lookup_delete_Some, (abs_lookup es cap) by done. split.
  - intros [?|(j & e2 & Hne & Hj & He2)]; [done|]. split; [|by exists j, e2].
    intros <-. assert (lk e2 = Some K) as Hk2 by (unfold lk; by rewrite He2).
    apply Hne. by eapply (t_uniq _ _ Ht).
  - intros (Hne & j & e2 & Hj & He2). right. exists j, e2. split_and!; try done.
    intros ->. simplify_eq. unfold lk in Hk. rewrite He2 in Hk. simplify_eq/=.
Qed.

Lemma abs_size es cap : table es cap -> size (abs es) = length (kvs es).
Proof.
  intros Ht. unfold abs. apply map_size_list_to_map, kvs_NoDup. eapply t_uniq. done.
Qed.

(** *** Putting a new key at its target *)

Lemma table_place es cap K i e' v :
  0 < cap -> table es cap -> target es cap K i -> entry_ok e' -> kv e' = Some (K, v) ->
  (forall j e, es !! j = Some e -> lk e <> Some K) ->
  table (<[Z.to_nat i := e']> es) cap /\ abs (<[Z.to_nat i := e']> es) = <[K := v]> (abs es) /\
  length (kvs (<[Z.to_nat i := e']> es)) = S (length (kvs es)) /\
  count_used (<[Z.to_nat i := e']> es) <= count_used es + 1.
Proof.
  intros Hcap Ht (Hi & (e & He & Hk) & Hreach) Hok Hkv Habs.
  assert (lk e' = Some K) as Hk' by (unfold lk; by rewrite Hkv).
  assert (table (<[Z.to_nat i := e']> es) cap) as Ht'.
  { apply table_insert; try done; [by rewrite (lk_occupied _ _ Hk')|].
    intros K0 HK0. rewrite Hk' in HK0. injection HK0 as <-. split; [done|].
    intros j e2 Hj Hk2. by destruct (Habs j e2). }
  split_and!; [done| | |].
  - apply (abs_put _ _ _ e _ K v Ht Ht' Hi He Hkv). right. done.
  - pose proof (kvs_length_insert es _ e e' He) as Hc. rewrite Hkv in Hc.
    assert (kv e = None) as Hn by (unfold lk in Hk; by destruct (kv e)). rewrite Hn in Hc. simpl in Hc. lia.
  - pose proof (count_used_insert es _ e e' He) as Hc. unfold b2z in Hc.
    destruct (negb (occupied e =? 0)), (negb (occupied e' =? 0)); lia.
Qed.

(** *** Rehashing *)

(** The state of the copying loop: no tombstones, everything counted. *)
Record fresh_table (es : list LppMapEntry) (cap n : Z) : Prop := {
  f_table : table es cap;
  f_count : count_used es = n;
  f_len : Z.of_nat (length (kvs es)) = n
}.

Lemma fresh_slot es cap n i e : fresh_table es cap n -> es !! i = Some e -> lk e = None -> occupied e = 0.
Proof.
  intros [Ht Hc Hl] Hi Hk. pose proof (kvs_le_used (<[i := empty_entry]> es)) as Hle.
  pose proof (kvs_length_insert es i e empty_entry Hi) as H1.
  pose proof (count_used_insert es i e empty_entry Hi) as H2. simpl in H1, H2.
  assert (kv e = None) as Hn by (unfold lk in Hk; by destruct (kv e)). rewrite Hn in H1. simpl in H1.
  destruct (Z.eqb_spec (occupied e) 0); [done|]. simpl in H2. lia.
Qed.

Lemma kvs_replicate n : kvs (replicate n empty_entry) = [].
Proof. unfold kvs. induction n as [|n IH]; [done|]. exact IH. Qed.

Lemma replicate_fresh n : fresh_table (replicate n empty_entry) (Z.of_nat n) 0.
Proof.
  assert (forall i e, replicate n empty_entry !! i = Some e -> e = empty_entry) as Hr.
  { intros i e H. by apply lookup_replicate in H as [-> _]. }
  split.
  - split.
    + by rewrite length_replicate.
    + apply Forall_replicate. split; [by left|done].
    + intros i e K _ He Hk. apply Hr in He. subst. done.
    + intros i j e e' K He _ Hk. apply Hr in He. subst. done.
  - clear Hr. induction n as [|n IH]; [done|]. cbn. by rewrite IH.
  - by rewrite kvs_replicate.
Qed.

Lemma reinsert_all_spec cap (Hcap : 0 < cap) old : forall es n,
  fresh_table es cap n -> Forall entry_ok old -> n + Z.of_nat (length (kvs old)) < cap ->
  NoDup (kvs old).*1 ->
  (forall x e, e ∈ old -> kv e = Some x -> abs es !! x.1 = None) ->
  wp (reinsert_all mem cap old (es, n)) (fun '(es', n') =>
    fresh_table es' cap n' /\ n' = n + Z.of_nat (length (kvs old)) /\
    abs es' = list_to_map (kvs old) ∪ abs es).
Proof.
  induction old as [|e old IH]; intros es n Hf Hok Hroom Hnd Hdisj; cbn [reinsert_all].
  { cbn [wp]. unfold kvs. simpl. rewrite map_empty_union. split_and!; [done|lia|done]. }
  apply Forall_cons in Hok as [Hoke Hok].
  assert (forall x e0, e0 ∈ old -> kv e0 = Some x -> abs es !! x.1 = None) as Hdisj'.
  { intros x e0 H. apply Hdisj. by right. }
  unfold reinsert. destruct (Z.eqb_spec (occupied e) 1) as [Ho|Ho].
  2: { assert (kvs (e :: old) = kvs old) as Heq.
       { unfold kvs. cbn [omap list_omap]. unfold kv at 1. by rewrite (proj2 (Z.eqb_neq _ _)). }
       rewrite Heq in *. cbn [obind]. by apply IH. }
  destruct Hoke as [Hoc Hoke]. destruct (Hoke Ho) as [Hs [K HK]].
  assert (kv e = Some (K, val e)) as Hkv by (unfold kv; by rewrite Ho, HK).
  assert (kvs (e :: old) = (K, val e) :: kvs old) as Heq.
  { unfold kvs. cbn [omap list_omap]. by rewrite Hkv. }
  rewrite Heq in *. cbn in Hnd. apply NoDup_cons in Hnd as [HnK Hnd]. cbn [length] in Hroom.
  rewrite (hash_key_spec _ _ K Hs HK). cbn [obind]. pose proof Hf as [Ht Hc Hl].
  assert (abs es !! K = None) as Habs by (apply (Hdisj (K, val e) e); [by left|done]).
  rewrite (abs_none es cap) in Habs by done.
  apply wp_bind, wp_bind. rewrite <- (pos_0 cap (ahash K mod cap)) by (by apply Z.mod_pos_bound).
  eapply wp_mono; [apply (free_slot_spec es cap Hcap Ht K); [lia| | |]|].
  - destruct (empty_on_path es cap Hcap Ht K) as (t0 & e0 & H1 & H2 & H3); [lia|].
    exists t0, e0. split_and!; try done; lia.
  - pose proof (t_len _ _ Ht). lia.
  - intros t'. lia.
  - intros i Htg. pose proof Htg as (Hi & (e1 & He1 & Hk1) & _). pose proof (t_len _ _ Ht) as Hlen.
    set (e' := mk_entry (key e) (val e) (is_str_key e) 1).
    destruct (table_place es cap K i e' (val e)) as (Ht' & Ha' & Hk' & Hu'); try done.
    { split; [simpl; lia|]. intros _. simpl. split; [done|]. by exists K. }
    { unfold kv, e'. simpl. by rewrite HK. }
    assert (count_used (<[Z.to_nat i := e']> es) = n + 1) as Hu2.
    { pose proof (count_used_insert es _ e1 e' He1) as Hci.
      rewrite (fresh_slot es cap n _ e1 Hf He1 Hk1) in Hci. simpl in Hci. lia. }
    apply wp_bind, wp_wr; [lia|]. cbn [wp].
    eapply wp_mono; [apply IH|].
    + split; [done|done|lia].
    + done.
    + lia.
    + done.
    + intros x e0 Hin Hkv0. rewrite Ha'. rewrite lookup_insert_ne; [by apply (Hdisj' x e0)|].
      intros HKx. apply HnK. apply list_elem_of_fmap. exists x. split; [done|].
      unfold kvs. apply list_elem_of_omap. by exists e0.
    + intros [es' n'] (Hf' & Hn' & Ha2). split_and!; [done|cbn [length]; lia|].
      rewrite Ha2, Ha'. cbn [list_to_map foldr]. rewrite <- insert_union_r.
      * by rewrite insert_union_l.
      * by apply not_elem_of_list_to_map_1.
Qed.
End tables.

(** ** The map implements a finite map *)

(** User space is at most [2^57] bytes (five-level paging), so no larger request is served. *)
Class AddrSpace (al : allocation) : Prop :=
  addr_bound : forall n, granted al n = true -> n <= 2 ^ 57.

Record map_wf (mem : Z -> option cstr) (m : LppMap) : Prop := {
  m_table : table mem (entries m) (mcap m);
  m_cap : 16 <= mcap m <= 2 ^ 53;
  m_len : mlen m = Z.of_nat (length (kvs mem (entries m)));
  m_room : count_used (entries m) < mcap m
}.
Definition mabs (mem : Z -> option cstr) (m : LppMap) : gmap mkey Z := abs mem (entries m).

(** A key as the compiled program passes it: an integer or a string pointer. *)
Inductive ckey := CInt (k : Z) | CStr (p : Z).
Definition ckey_mode (k : ckey) : Z := match k with CInt _ => 0 | CStr _ => 1 end.
Definition ckey_arg (k : ckey) : Z := match k with CInt k => k | CStr p => p end.
Definition ckey_abs (mem : Z -> option cstr) (k : ckey) : option mkey := akey mem (ckey_mode k) (ckey_arg k).

Inductive map_op := MPut (k : ckey) (v : Z) | MRemove (k : ckey) | MClear
| MGet (k : ckey) | MHas (k : ckey) | MLen.

Definition map_result (m : outcome (option LppMap * list arc_ev)) : outcome (LppMap * Z * list arc_ev) :=
  let! '(o, ev) := m in match o with Some m => Ok (m, 0, ev) | None => Undef end.
Definition map_step (mem : Z -> option cstr) (al : allocation) (op : map_op) (m : LppMap)
  : outcome (LppMap * Z * list arc_ev) :=
  match op with
  | MPut (CInt k) v => map_result (lpp_map_put mem al (Some m) k v)
  | MPut (CStr p) v => map_result (lpp_map_put_str mem al (Some m) p v)
  | MRemove (CInt k) => map_result (lpp_map_remove (Some m) k)
  | MRemove (CStr p) => map_result (lpp_map_remove_str mem (Some m) p)
  | MClear => map_result (Ok (lpp_map_clear (Some m)))
  | MGet (CInt k) => let! v := lpp_map_get (Some m) k in Ok (m, v, [])
  | MGet (CStr p) => let! v := lpp_map_get_str mem (Some m) p in Ok (m, v, [])
  | MHas (CInt k) => let! v := lpp_map_has (Some m) k in Ok (m, v, [])
  | MHas (CStr p) => let! v := lpp_map_has_str mem (Some m) p in Ok (m, v, [])
  | MLen => Ok (m, lpp_map_len (Some m), [])
  end.

Definition vals (M : gmap mkey Z) : list Z := (map_to_list M).*2.

Definition op_key (op : map_op) : option ckey :=
  match op with MPut k _ | MRemove k | MGet k | MHas k => Some k | _ => None end.
(** The key argument is readable. *)
Definition op_live (mem : Z -> option cstr) (op : map_op) : Prop :=
  match op_key op with Some k => is_Some (ckey_abs mem k) | None => True end.

(** What an operation does to the finite map, what it returns, and which references it retains
    and releases ([arc]: the values are references). *)
Definition map_spec (mem : Z -> option cstr) (op : map_op) (arc : bool) (M M' : gmap mkey Z) (r : Z)
    (ev : list arc_ev) : Prop :=
  let keyed (k : ckey) (P : mkey -> Prop) := match ckey_abs mem k with Some K => P K | None => False end in
  match op with
  | MPut k v => keyed k (fun K => M' = <[K := v]> M /\ r = 0 /\
      ev = if arc then Retain v :: match M !! K with Some w => [Release w] | None => [] end else [])
  | MRemove k => keyed k (fun K => M' = delete K M /\ r = 0 /\
      ev = if arc then match M !! K with Some w => [Release w] | None => [] end else [])
  | MClear => M' = ∅ /\ r = 0 /\ (if arc then ev ≡ₚ Release <$> vals M else ev = [])
  | MGet k => keyed k (fun K => M' = M /\ ev = [] /\ r = default 0 (M !! K))
  | MHas k => keyed k (fun K => M' = M /\ ev = [] /\ r = b2z (bool_decide (is_Some (M !! K))))
  | MLen => M' = M /\ ev = [] /\ r = Z.of_nat (size M)
  end.

(** The capacity an insertion asks for, if it has to rehash. *)
Definition room_request (m : LppMap) : option Z :=
  if count_used (entries m) * 10 >=? mcap m * 7
  then Some (if mlen m * 100 <? mcap m * 35 then mcap m else mcap m * 2) else None.
Definition map_served (al : allocation) (op : map_op) (m : LppMap) : bool :=
  match op with
  | MPut _ _ => match room_request m with Some c => granted al (c * 24) | None => true end
  | _ => true
  end.

Section refinement.
Context (mem : Z -> option cstr) (Hnull : mem 0 = None) (al : allocation) `{!AddrSpace al}.

Lemma map_entries_ok m : map_wf mem m -> Forall (entry_ok mem) (entries m).
Proof. intros Hm. eapply t_ok, m_table. done. Qed.

Lemma rehash_spec m new_cap : map_wf mem m -> mcap m <= new_cap -> granted al (new_cap * 24) = true ->
  wp (lpp_map_rehash mem al m new_cap) (fun m' => map_wf mem m' /\ mabs mem m' = mabs mem m /\
    arc_values m' = arc_values m /\ mlen m' = mlen m /\ mcap m' = new_cap /\
    count_used (entries m') = mlen m).
Proof.
  intros [Ht Hc Hl Hr] Hnc Hg. unfold lpp_map_rehash. rewrite Hg. apply addr_bound in Hg. apply wp_bind.
  pose proof (kvs_le_used mem (entries m)) as Hlive.
  eapply wp_mono; [apply (reinsert_all_spec mem Hnull new_cap ltac:(lia))|].
  - rewrite <- (Z2Nat.id new_cap) at 2 by lia. apply replicate_fresh.
  - by eapply t_ok.
  - lia.
  - apply kvs_NoDup. by eapply t_uniq.
  - intros x e _ _. rewrite <- (Z2Nat.id new_cap) by lia.
    eapply (abs_none mem); [eapply f_table; apply replicate_fresh|].
    intros i e' He'. apply lookup_replicate in He' as [-> _]. done.
  - intros [es n] (Hf & Hn & Ha). destruct Hf as [Ht' Hc' Hl']. cbn [wp]. split_and!; simpl; try done; [|  |lia|lia].
    + split; simpl; [done|change (2 ^ 53) with 9007199254740992; change (2 ^ 57) with 144115188075855872 in Hg; lia|lia|lia].
    + unfold mabs. simpl. rewrite Ha.
      assert (abs mem (replicate (Z.to_nat new_cap) empty_entry) = ∅) as ->.
      { unfold abs. assert (kvs mem (replicate (Z.to_nat new_cap) empty_entry) = []) as ->; [|done].
        apply kvs_replicate. }
      by rewrite (right_id_L ∅ (∪)).
Qed.

Lemma make_room_spec m : map_wf mem m ->
  (map_served al (MPut (CInt 0) 0) m = true ->
     wp (make_room mem al m) (fun m' => map_wf mem m' /\ mabs mem m' = mabs mem m /\
       arc_values m' = arc_values m /\ mlen m' = mlen m /\ count_used (entries m') + 1 < mcap m')) /\
  (map_served al (MPut (CInt 0) 0) m = false -> panics (make_room mem al m)).
Proof.
  intros Hm. pose proof Hm as [Ht Hc Hl Hr]. pose proof (count_used_bound (entries m)) as Hcb.
  pose proof (kvs_le_used mem (entries m)) as Hlive. change (2 ^ 53) with 9007199254740992 in Hc.
  assert (forall z, 0 <= z <= 9007199254740992 * 100 -> chk64 z = Ok z) as Hchk.
  { intros z Hz. unfold chk64, is_i64. by rewrite !(proj2 (Z.leb_le _ _)) by (pow2; lia). }
  unfold make_room, map_served, room_request. rewrite !Hchk by lia. cbn [obind].
  rewrite Z.geb_leb. destruct (Z.leb_spec (mcap m * 7) (count_used (entries m) * 10)) as [Hfull|Hok].
  2: { split; [intros _|done]. split_and!; try done. lia. }
  cbn [obind].
  set (nc := if mlen m * 100 <? mcap m * 35 then mcap m else mcap m * 2).
  assert ((if mlen m * 100 <? mcap m * 35 then Ok (mcap m) else Ok (mcap m * 2)) = Ok nc) as ->.
  { unfold nc. by destruct (_ <? _). }
  assert (mcap m <= nc /\ mlen m + 1 < nc) as [Hge Hroom].
  { unfold nc. destruct (Z.ltb_spec (mlen m * 100) (mcap m * 35)); lia. }
  cbn [obind]. rewrite (proj2 (Z.ltb_ge nc 16)) by lia. split; intros Hg.
  - eapply wp_mono; [by apply rehash_spec|]. intros m' (Hw & Ha & Harc & Hlen & Hcap & Hu).
    split_and!; try done. lia.
  - unfold lpp_map_rehash. rewrite Hg. by eexists.
Qed.

(** *** Searching *)

(** What a search answers: the slot of the key, or that the finite map has no such key. *)
Definition search_result (m : LppMap) (K : mkey) (r : option Z) : Prop :=
  match r with
  | Some i => 0 <= i < mcap m /\ exists e, entries m !! Z.to_nat i = Some e /\ lk mem e = Some K /\
                mabs mem m !! K = Some (val e)
  | None => mabs mem m !! K = None
  end.

Lemma found_value m i e K : map_wf mem m -> entries m !! i = Some e -> lk mem e = Some K ->
  mabs mem m !! K = Some (val e).
Proof.
  intros Hm He Hk. eapply abs_lookup; [by apply m_table|]. exists i, e. split; [done|]. by apply lk_kv.
Qed.

Lemma find_slot_wf m hit K h : map_wf mem m ->
  (forall e, entry_ok mem e -> hit e = Ok (bool_decide (lk mem e = Some K))) ->
  h = ahash K mod mcap m ->
  wp (find_slot hit (S (length (entries m))) (entries m) (mcap m) h h) (search_result m K).
Proof.
  intros Hm Hhit ->. pose proof Hm as [Ht Hc Hl Hr]. pose proof (t_len _ _ _ Ht) as Hlen.
  assert (0 < mcap m) as Hcap by lia. pose proof (Z.mod_pos_bound (ahash K) (mcap m) Hcap) as Hh.
  rewrite <- (pos_0 (mcap m) (ahash K mod mcap m)) at 1 by lia.
  eapply wp_mono; [apply (find_slot_spec mem _ _ Hcap Ht K hit Hhit); [lia|lia|intros t'; lia]|].
  intros [i|]; unfold search_result.
  - intros (Hi & e & He & Hk). split; [done|]. exists e. split_and!; try done. by eapply found_value.
  - intros Hno. by eapply abs_none.
Qed.

Lemma find_int_spec m k : map_wf mem m -> wp (find_int m k) (search_result m (KInt k)).
Proof.
  intros Hm. apply find_slot_wf; [done| |done]. intros e He. rewrite (hit_int_put mem).
  by apply hit_put_spec; [left|..].
Qed.

Lemma find_str_spec m p s : map_wf mem m -> mem p = Some s ->
  wp (find_str mem m p) (search_result m (KStr s)).
Proof.
  intros Hm Hp. unfold find_str, lpp_hash_str. destruct (Z.eqb_spec p 0) as [->|]; [congruence|].
  rewrite Hp. cbn [obind]. apply find_slot_wf; [done| |done]. intros e He. rewrite hit_str_put.
  apply hit_put_spec; [by right| |done]. unfold akey. simpl. by rewrite Hp.
Qed.

(** An empty map answers without looking. *)
Lemma len_zero m K : map_wf mem m -> mlen m = 0 -> mabs mem m !! K = None.
Proof.
  intros Hm H0. pose proof (abs_size mem (entries m) _ (m_table _ _ Hm)) as Hs.
  rewrite (m_len _ _ Hm) in H0. assert (mabs mem m = ∅) as ->; [|done].
  apply map_size_empty_inv. unfold mabs. lia.
Qed.

Lemma search_str_ptr p s : mem p = Some s -> p <> 0.
Proof. intros Hp ->. congruence. Qed.

Lemma val_at_spec m K r : search_result m K r ->
  val_at m r = Ok (default 0 (mabs mem m !! K)).
Proof.
  destruct r as [i|]; cbn [search_result val_at].
  - intros (Hi & e & He & Hk & ->). by rewrite (rd_ok _ _ e) by (lia || done).
  - by intros ->.
Qed.

Lemma found_spec m K r : search_result m K r -> found r = b2z (bool_decide (is_Some (mabs mem m !! K))).
Proof.
  destruct r as [i|]; cbn [search_result found].
  - intros (_ & e & _ & _ & ->). by rewrite bool_decide_eq_true_2.
  - intros ->. by rewrite bool_decide_eq_false_2 by (by intros [? ?]).
Qed.

(** *** Removal *)

Lemma remove_at_spec m K r : map_wf mem m -> search_result m K r ->
  wp (remove_at m r) (fun '(m', ev) => map_wf mem m' /\ mabs mem m' = delete K (mabs mem m) /\
    arc_values m' = arc_values m /\
    ev = if arc_values m then match mabs mem m !! K with Some w => [Release w] | None => [] end else []).
Proof.
  intros Hm Hr. pose proof Hm as [Ht Hc Hl Hroom]. pose proof (t_len _ _ _ Ht) as Hlen.
  destruct r as [i|]; cbn [search_result remove_at] in *.
  - destruct Hr as (Hi & e & He & Hk & Hv). rewrite (rd_ok _ _ e) by (lia || done). cbn [obind].
    apply wp_bind, wp_wr; [lia|]. cbn [wp]. set (e' := mk_entry _ _ _ _).
    pose proof (kvs_length_insert mem _ _ e e' He) as Hcnt. pose proof (count_used_insert _ _ e e' He) as Hu.
    assert (kv mem e = Some (K, val e)) as Hkv by (by apply lk_kv). rewrite Hkv in Hcnt.
    rewrite (lk_occupied _ _ _ Hk) in Hu. simpl in Hcnt, Hu.
    assert (table mem (<[Z.to_nat i := e']> (entries m)) (mcap m)) as Ht'.
    { apply table_insert; try done. split; [simpl; lia|done]. }
    split_and!; [split; simpl; done || lia| |done|by rewrite Hv].
    by apply (abs_remove mem _ (mcap m) i e e' K).
  - cbn [wp]. split_and!; [done| |done|rewrite Hr; by destruct (arc_values m)].
    by rewrite delete_id.
Qed.

(** *** Insertion *)

Lemma put_spec m is_str k K v : map_wf mem m -> (is_str = 0 \/ is_str = 1) -> akey mem is_str k = Some K ->
  (map_served al (MPut (CInt 0) 0) m = true ->
     wp (lpp_map_put_internal mem al (Some m) k v is_str) (fun '(o, ev) => exists m', o = Some m' /\
       map_wf mem m' /\ mabs mem m' = <[K := v]> (mabs mem m) /\ arc_values m' = arc_values m /\
       ev = if arc_values m then Retain v :: match mabs mem m !! K with Some w => [Release w] | None => [] end
            else [])) /\
  (map_served al (MPut (CInt 0) 0) m = false -> panics (lpp_map_put_internal mem al (Some m) k v is_str)).
Proof.
  intros Hm Hs HK. unfold lpp_map_put_internal. destruct (make_room_spec m Hm) as [Hyes Hno].
  split; intros Hg; [|by destruct (Hno Hg) as [msg ->]; eexists].
  apply wp_bind. eapply wp_mono; [by apply Hyes|].
  intros m1 (Hm1 & <- & <- & _ & Hroom1). clear Hyes Hno Hg Hm m.
  rewrite (hash_key_spec mem Hnull _ _ K Hs HK). cbn [obind].
  pose proof Hm1 as [Ht Hc Hl Hroom]. pose proof (t_len _ _ _ Ht) as Hlen.
  assert (0 < mcap m1) as Hcap by lia. pose proof (Z.mod_pos_bound (ahash K) (mcap m1) Hcap) as Hh.
  apply wp_bind. rewrite <- (pos_0 (mcap m1) (ahash K mod mcap m1)) by lia.
  eapply wp_mono; [apply (put_slot_spec mem _ _ Hcap Ht K); [|lia| |lia|intros t'; lia|intros t'; lia|by left]|].
  { intros e He. by apply hit_put_spec. }
  { by apply (empty_on_path mem). }
  intros [i|[i ft]].
  - intros (Hi & e & He & Hk). rewrite (rd_ok _ _ e) by (lia || done). cbn [obind].
    apply wp_bind, wp_wr; [lia|]. cbn [wp]. set (e' := mk_entry _ _ _ _).
    assert (kv mem e = Some (K, val e)) as Hkv by (by apply lk_kv).
    assert (kv mem e' = Some (K, v)) as Hkv'.
    { pose proof Hk as Hk2. unfold lk, kv in Hk2. unfold e', kv. cbn [occupied is_str_key key val].
      rewrite (lk_occupied _ _ _ Hk) in *. cbn in *. destruct (akey mem (is_str_key e) (key e)); simplify_eq/=. done. }
    pose proof (kvs_length_insert mem _ _ e e' He) as Hcnt. pose proof (count_used_insert _ _ e e' He) as Hu.
    rewrite Hkv, Hkv' in Hcnt. simpl in Hcnt, Hu.
    assert (table mem (<[Z.to_nat i := e']> (entries m1)) (mcap m1)) as Ht'.
    { apply table_insert; try done.
      - pose proof (map_entries_ok m1 Hm1) as Hok. rewrite Forall_lookup in Hok. by apply (Hok _ _ He).
      - simpl. rewrite (lk_occupied _ _ _ Hk). done.
      - intros K0. unfold lk. rewrite Hkv'. intros HK0. injection HK0 as <-. split.
        + intros t. by apply (t_reach _ _ _ Ht i e K); [lia|..].
        + intros j e2 Hj Hk2. by eapply (t_uniq _ _ _ Ht). }
    eexists. split; [done|]. split_and!; [split; simpl; done || lia| |done|].
    + apply (abs_put mem _ (mcap m1) i e e' K v); try done. by left.
    + by rewrite (found_value m1 _ e K Hm1 He Hk).
  - intros [Htg Habs]. set (i' := if negb (ft =? -1) then ft else i) in *.
    apply wp_bind. pose proof Htg as (Hi & _). apply wp_wr; [lia|]. cbn [wp].
    destruct (table_place mem (entries m1) (mcap m1) K i' (mk_entry k v is_str 1) v) as (Ht' & Ha & Hn & Hu);
      try done.
    { split; [simpl; lia|]. intros _. simpl. split; [done|by exists K]. }
    { unfold kv. simpl. by rewrite HK. }
    eexists. split; [done|]. split_and!; [split; simpl; done || lia|done|done|].
    unfold mabs. by rewrite (proj2 (abs_none mem _ _ K Ht) Habs).
Qed.

Lemma release_values_eq es : Forall (entry_ok mem) es -> release_values es = Release <$> (kvs mem es).*2.
Proof.
  induction 1 as [|e es He Hes IH]; [done|]. cbn [release_values]. unfold kvs in *. cbn [omap list_omap].
  destruct (Z.eqb_spec (occupied e) 1) as [Ho|Ho].
  - destruct (entry_ok_live mem e He Ho) as [K HK%lk_kv]. rewrite HK. simpl. by rewrite IH.
  - unfold kv at 1. rewrite (proj2 (Z.eqb_neq _ _)) by done. simpl. by rewrite IH.
Qed.

Lemma vals_kvs m : map_wf mem m -> vals (mabs mem m) ≡ₚ (kvs mem (entries m)).*2.
Proof.
  intros Hm. unfold vals, mabs, abs. rewrite map_to_list_to_map; [done|].
  apply kvs_NoDup. eapply t_uniq, m_table. done.
Qed.

Lemma clear_spec m : map_wf mem m -> exists m' ev, lpp_map_clear (Some m) = (Some m', ev) /\
  map_wf mem m' /\ mabs mem m' = ∅ /\ arc_values m' = arc_values m /\
  if arc_values m then ev ≡ₚ Release <$> vals (mabs mem m) else ev = [].
Proof.
  intros Hm. pose proof Hm as [Ht Hc Hl Hr]. do 2 eexists. split; [done|].
  pose proof (t_len _ _ _ Ht) as Hlen. destruct (replicate_fresh mem (length (entries m))) as [Ht' Hu Hk].
  rewrite Hlen in Ht'. split_and!.
  - split; simpl; try done; rewrite ?Hk, ?Hu; lia || done.
  - unfold mabs, abs. simpl. by rewrite kvs_replicate.
  - done.
  - destruct (arc_values m); [|done]. rewrite release_values_eq by (by apply map_entries_ok).
    by rewrite (vals_kvs m Hm).
Qed.
End refinement.

(** The operation ran as the finite map says. *)
Definition map_runs_as (mem : Z -> option cstr) (al : allocation) (op : map_op) (m : LppMap) : Prop :=
  wp (map_step mem al op m) (fun '(m', r, ev) => map_wf mem m' /\ arc_values m' = arc_values m /\
    map_spec mem op (arc_values m) (mabs mem m) (mabs mem m') r ev).

Section whole.
Context (mem : Z -> option cstr) (Hnull : mem 0 = None) (al : allocation) `{!AddrSpace al}.

(** A search, or the shortcut the code takes on an empty map. *)
Lemma search_or_empty {A} m K (find : outcome (option Z)) (after : option Z -> outcome A) (Q : A -> Prop) (x : A) :
  map_wf mem m -> wp find (search_result mem m K) ->
  (mabs mem m !! K = None -> Q x) ->
  (forall r, search_result mem m K r -> wp (after r) Q) ->
  wp (if mlen m =? 0 then Ok x else let! r := find in after r) Q.
Proof.
  intros Hm Hf Hempty Hafter. destruct (Z.eqb_spec (mlen m) 0) as [H0|].
  - by apply Hempty, len_zero.
  - apply wp_bind. by eapply wp_mono.
Qed.

Lemma put_refines m k v : map_wf mem m -> is_Some (ckey_abs mem k) ->
  (map_served al (MPut k v) m = true -> map_runs_as mem al (MPut k v) m) /\
  (map_served al (MPut k v) m = false -> panics (map_step mem al (MPut k v) m)).
Proof.
  intros Hm [K HK]. unfold map_runs_as, map_spec. rewrite HK. unfold map_step, map_result.
  destruct (put_spec mem Hnull al m (ckey_mode k) (ckey_arg k) K v Hm) as [Hyes Hno];
    [destruct k; [by left|by right]|done|].
  change (map_served al (MPut k v) m) with (map_served al (MPut (CInt 0) 0) m).
  split; intros Hg.
  - destruct k as [k|p]; (apply wp_bind; eapply wp_mono; [by apply Hyes|];
      intros [o ev] (m' & -> & Hm' & Ha & Harc & ->); cbn [wp]; split_and!; done).
  - destruct (Hno Hg) as [msg Hmsg]. exists msg. unfold lpp_map_put, lpp_map_put_str.
    destruct k; cbn [ckey_arg ckey_mode] in Hmsg; by rewrite Hmsg.
Qed.

Lemma map_remove_refines m k : map_wf mem m -> is_Some (ckey_abs mem k) -> map_runs_as mem al (MRemove k) m.
Proof.
  intros Hm [K HK]. unfold map_runs_as, map_spec. rewrite HK. unfold map_step, map_result.
  assert (forall f, wp f (search_result mem m K) ->
    wp (if mlen m =? 0 then Ok (Some m, []) else let! r := f in let! '(m', ev) := remove_at m r in Ok (Some m', ev))
      (fun '(o, ev) => exists m', o = Some m' /\ map_wf mem m' /\ arc_values m' = arc_values m /\
        mabs mem m' = delete K (mabs mem m) /\
        ev = if arc_values m then match mabs mem m !! K with Some w => [Release w] | None => [] end else [])) as Hgo.
  { intros f Hf. apply (search_or_empty m K); [done|done| |].
    - intros Hn. exists m. split_and!; try done; [by rewrite delete_id|]. rewrite Hn. by destruct (arc_values m).
    - intros r Hr. apply wp_bind. eapply wp_mono; [by apply remove_at_spec|].
      intros [m' ev] (Hm' & Ha & Harc & ->). cbn [wp]. exists m'. done. }
  destruct k as [k|p]; unfold ckey_abs, akey in HK; cbn [ckey_mode ckey_arg Z.eqb] in HK;
    apply wp_bind; unfold lpp_map_remove, lpp_map_remove_str.
  - injection HK as <-. eapply wp_mono; [apply Hgo; by apply find_int_spec|].
    intros [o ev] (m' & -> & ? & ? & ? & ->). cbn [wp]. done.
  - destruct (mem p) as [s|] eqn:Hp; [|done]. injection HK as <-.
    rewrite (proj2 (Z.eqb_neq p 0)) by (by eapply search_str_ptr). cbn [orb].
    eapply wp_mono; [apply Hgo; by apply find_str_spec|].
    intros [o ev] (m' & -> & ? & ? & ? & ->). cbn [wp]. done.
Qed.

(** A query through [after] returns [answer (M !! K)]. *)
Lemma query_refines m k K (after : option Z -> outcome Z) (answer : option Z -> Z) :
  map_wf mem m -> ckey_abs mem k = Some K -> answer None = 0 ->
  (forall r, search_result mem m K r -> after r = Ok (answer (mabs mem m !! K))) ->
  (match k with
   | CInt k => if mlen m =? 0 then Ok 0 else let! s := find_int m k in after s
   | CStr p => if (p =? 0) || (mlen m =? 0) then Ok 0 else let! s := find_str mem m p in after s
   end) = Ok (answer (mabs mem m !! K)).
Proof.
  intros Hm HK H0 Hafter.
  assert (forall f, wp f (search_result mem m K) ->
    (if mlen m =? 0 then Ok 0 else let! s := f in after s) = Ok (answer (mabs mem m !! K))) as Hgo.
  { intros f Hf. pose proof (search_or_empty m K f after (fun z => z = answer (mabs mem m !! K)) 0 Hm Hf) as Hw.
    apply wp_inv in Hw as (z & -> & ->); [done|by intros ->|]. intros r Hr. by rewrite Hafter. }
  destruct k as [k|p]; unfold ckey_abs, akey in HK; cbn [ckey_mode ckey_arg Z.eqb] in HK.
  - injection HK as <-. apply Hgo. by apply find_int_spec.
  - destruct (mem p) as [s|] eqn:Hp; [|done]. injection HK as <-.
    rewrite (proj2 (Z.eqb_neq p 0)) by (by eapply search_str_ptr). apply Hgo. by apply find_str_spec.
Qed.

Lemma get_refines m k : map_wf mem m -> is_Some (ckey_abs mem k) -> map_runs_as mem al (MGet k) m.
Proof.
  intros Hm [K HK]. unfold map_runs_as, map_spec. rewrite HK.
  pose proof (query_refines m k K (val_at m) (default 0) Hm HK eq_refl (val_at_spec mem m K)) as Hq.
  destruct k; cbn [map_step]; unfold lpp_map_get, lpp_map_get_str; rewrite Hq; cbn; done.
Qed.

Lemma has_refines m k : map_wf mem m -> is_Some (ckey_abs mem k) -> map_runs_as mem al (MHas k) m.
Proof.
  intros Hm [K HK]. unfold map_runs_as, map_spec. rewrite HK.
  pose proof (query_refines m k K (fun s => Ok (found s)) (fun o => b2z (bool_decide (is_Some o))) Hm HK eq_refl) as Hq.
  destruct k; cbn [map_step]; unfold lpp_map_has, lpp_map_has_str;
    (rewrite Hq; [cbn; done|intros r Hr; by rewrite (found_spec mem m K)]).
Qed.

Lemma map_step_spec op m :
  map_wf mem m -> op_live mem op ->
  (map_served al op m = true -> map_runs_as mem al op m) /\
  (map_served al op m = false -> panics (map_step mem al op m)).
Proof.
  intros Hm Hop. destruct op; [by apply put_refines| | | | |]; (split; [intros _|done]).
  - by apply map_remove_refines.
  - destruct (clear_spec mem m Hm) as (m' & ev & He & Hm' & Ha & Harc & Hev).
    unfold map_runs_as, map_step, map_result. rewrite He. cbn. done.
  - by apply get_refines.
  - by apply has_refines.
  - unfold map_runs_as. cbn. split_and!; try done. rewrite (m_len _ _ Hm). unfold mabs.
    by rewrite (abs_size _ _ _ (m_table _ _ Hm)).
Qed.
End whole.

(** C2. The hash map implements a finite map from keys to values.  On a well-formed map every
    operation with a readable key returns (if the allocator serves the rehash an insertion may
    need), keeps the map well formed - live entries are reachable from their hash, no key is
    stored twice, the length is the number of live entries, at least one slot is empty so every
    probe ends - and does to the finite map, returns, retains and releases exactly what the
    specification says, with tombstones, wrap-around and rehashing invisible.  Otherwise the
    operation panics. *)
Theorem map_implements_finite_map mem al `{!AddrSpace al} op m :
  mem 0 = None -> map_wf mem m -> op_live mem op ->
  (map_served al op m = true -> map_runs_as mem al op m) /\
  (map_served al op m = false -> panics (map_step mem al op m)).
Proof. intros. by apply map_step_spec. Qed.

Definition some_strings (p : Z) : option cstr := if p =? 4096 then Some [107; 49] else None.
#[export] Instance small_alloc_addr : AddrSpace small_alloc.
Proof. intros n Hn. simpl in Hn. bool_to_prop. change (2 ^ 57) with 144115188075855872. lia. Qed.

(** A new map is well formed and empty. *)
Lemma new_map_wf mem al arc m :
  lpp_map_new_with_mode al true arc = Ok (Some m) -> map_wf mem m /\ mabs mem m = ∅ /\ arc_values m = arc.
Proof.
  unfold lpp_map_new_with_mode. destruct (granted _ _); [|done]. intros [= <-].
  destruct (replicate_fresh mem 16) as [Ht Hu Hk]. split_and!; [|unfold mabs, abs; simpl; done|done].
  split; simpl; [done|change (2 ^ 53) with 9007199254740992; lia|done|lia].
Qed.

Definition new_map_16 : LppMap := mk_map (replicate 16 empty_entry) 16 0 true.

Lemma map_implements_finite_map_witness :
  map_runs_as some_strings small_alloc (MPut (CStr 4096) 77) new_map_16.
Proof.
  apply (map_implements_finite_map some_strings small_alloc (MPut (CStr 4096) 77) new_map_16).
  - reflexivity.
  - apply (new_map_wf some_strings small_alloc true). reflexivity.
  - exists (KStr [107; 49]). reflexivity.
  - reflexivity.
Defined.

(** ** Ownership of the values *)

Fixpoint map_run (mem : Z -> option cstr) (al : allocation) (ops : list map_op) (m : LppMap)
  : outcome (LppMap * list arc_ev) :=
  match ops with
  | [] => Ok (m, [])
  | op :: ops =>
      let! '(m, _, ev) := map_step mem al op m in
      let! '(m, ev') := map_run mem al ops m in
      Ok (m, ev ++ ev')
  end.

Lemma vals_insert_fresh K v (M : gmap mkey Z) : M !! K = None -> vals (<[K := v]> M) ≡ₚ v :: vals M.
Proof. intros H. unfold vals. by rewrite map_to_list_insert. Qed.

Lemma vals_present K w (M : gmap mkey Z) : M !! K = Some w -> vals M ≡ₚ w :: vals (delete K M).
Proof. intros H. rewrite <- (insert_delete_id M K w H) at 1. apply vals_insert_fresh, lookup_delete_eq. Qed.

Lemma occ_map_release p xs : occ (Release p) (Release <$> xs) = occ p xs /\ occ (Retain p) (Release <$> xs) = 0%nat.
Proof.
  induction xs as [|x xs [IH1 IH2]]; [done|]. cbn [fmap list_fmap]. rewrite !occ_cons, IH1, IH2.
  repeat case_decide; simplify_eq; done.
Qed.

(** One operation retains what it stores and releases what it forgets. *)
Lemma map_spec_balance mem op M M' r ev p :
  map_spec mem op true M M' r ev ->
  (occ (Retain p) ev + occ p (vals M) = occ (Release p) ev + occ p (vals M'))%nat.
Proof.
  destruct op as [k v|k| |k|k|]; cbn [map_spec]; try (destruct (ckey_abs mem k) as [K|]; [|done]).
  - intros (-> & _ & ->). destruct (M !! K) as [w|] eqn:HM.
    + rewrite (vals_present K w M HM). rewrite <- insert_delete_eq, vals_insert_fresh by apply lookup_delete_eq.
      autorewrite with occ. repeat case_decide; simplify_eq; lia.
    + rewrite vals_insert_fresh by done. autorewrite with occ. repeat case_decide; simplify_eq; lia.
  - intros (-> & _ & ->). destruct (M !! K) as [w|] eqn:HM.
    + rewrite (vals_present K w M HM). autorewrite with occ. repeat case_decide; simplify_eq; lia.
    + rewrite delete_id by done. done.
  - intros (-> & _ & ->). destruct (occ_map_release p (vals M)) as [-> ->]. done.
  - intros (-> & -> & _). done.
  - intros (-> & -> & _). done.
  - intros (-> & -> & _). done.
Qed.

(** C8. A map that owns references keeps the books over its whole life: after any sequence of
    operations on a map made by [lpp_map_new_arc], [lpp_map_destroy] releases exactly the
    references still stored, so every reference the map retained has been released as often as
    it was retained - overwriting, removing, clearing and rehashing included. *)
Theorem map_lifetime_balanced mem al `{!AddrSpace al} ops m0 m ev p :
  mem 0 = None -> Forall (op_live mem) ops ->
  lpp_map_new_arc al true = Ok (Some m0) -> map_run mem al ops m0 = Ok (m, ev) ->
  occ (Retain p) (ev ++ (lpp_map_destroy m).2) = occ (Release p) (ev ++ (lpp_map_destroy m).2).
Proof.
  intros Hnull Hops Hnew Hrun. apply (new_map_wf mem) in Hnew as (Hm0 & Ha0 & Harc0).
  assert (map_wf mem m /\ arc_values m = true /\
    (occ (Retain p) ev + occ p (vals (mabs mem m0)) = occ (Release p) ev + occ p (vals (mabs mem m)))%nat)
    as (Hm & Harc & Hb).
  { clear Ha0. revert m0 ev Hm0 Harc0 Hrun. induction Hops as [|op ops Hop Hops IH];
      intros m0 ev Hm0 Harc0 Hrun; cbn [map_run] in Hrun.
    - injection Hrun as <- <-. autorewrite with occ. split_and!; done.
    - destruct (map_step mem al op m0) as [[[m1 r] ev1]| | |] eqn:Hs; simplify_eq/=.
      destruct (map_run mem al ops m1) as [[m2 ev2]| | |] eqn:Hr; simplify_eq/=.
      destruct (map_step_spec mem Hnull al op m0 Hm0 Hop) as [Hyes Hno].
      destruct (map_served al op m0); [|by destruct Hno as [? Hn]; [done|]; rewrite Hn in Hs].
      specialize (Hyes eq_refl). unfold map_runs_as in Hyes. rewrite Hs, Harc0 in Hyes.
      destruct Hyes as (Hm1 & Harc1 & Hsp). apply (map_spec_balance mem _ _ _ _ _ p) in Hsp.
      destruct (IH m1 ev2 Hm1 Harc1 Hr) as (? & ? & ?). split_and!; [done..|]. autorewrite with occ. lia. }
  rewrite Ha0 in Hb. cbn [lpp_map_destroy snd]. rewrite Harc.
  rewrite (release_values_eq mem) by (by apply map_entries_ok). rewrite <- (vals_kvs mem m Hm).
  destruct (occ_map_release p (vals (mabs mem m))) as [H1 H2]. rewrite !occ_app, H1, H2.
  change (occ p (vals ∅)) with 0%nat in Hb. lia.
Qed.

Lemma map_lifetime_balanced_witness :
  let ops := [MPut (CInt 5) 4096; MPut (CStr 4096) 4104; MPut (CInt 5) 4112; MRemove (CStr 4096)] in
  match map_run some_strings small_alloc ops new_map_16 with
  | Ok (m, ev) => occ (Retain 4112) (ev ++ (lpp_map_destroy m).2) = occ (Release 4112) (ev ++ (lpp_map_destroy m).2)
  | _ => False
  end.
Proof.
  intros ops. destruct (map_run some_strings small_alloc ops new_map_16) as [[m ev]| | |] eqn:E;
    [|vm_compute in E; discriminate..].
  apply (map_lifetime_balanced some_strings small_alloc ops new_map_16 m ev 4112).
  - reflexivity.
  - repeat constructor; eexists; reflexivity.
  - reflexivity.
  - exact E.
Defined.

(** ** Snapshots of keys and values *)

Lemma values_loop_spec mem al `{!SysAlloc al} arc es n : forall l,
  Forall (entry_ok mem) es -> tight l n -> len l + Z.of_nat (length (kvs mem es)) <= n ->
  serves_list al n -> retain_element l = arc ->
  wp (values_loop al arc es l) (fun '(l', ev) => tight l' n /\ retain_element l' = arc /\
    elems l' = elems l ++ (kvs mem es).*2 /\ ev = mbind (retains arc) ((kvs mem es).*2)).
Proof.
  induction es as [|e es IH]; intros l Hok Ht Hn Hs Hr; cbn [values_loop].
  { cbn [wp]. by rewrite app_nil_r. }
  apply Forall_cons in Hok as [He Hok].
  destruct (Z.eqb_spec (occupied e) 1) as [Ho|Ho].
  - destruct (entry_ok_live mem e He Ho) as [K HK%lk_kv].
    assert (kvs mem (e :: es) = (K, val e) :: kvs mem es) as Hkv.
    { unfold kvs. cbn [omap list_omap]. by rewrite HK. }
    rewrite Hkv in *. cbn [length] in Hn. cbn [fmap list_fmap snd].
    assert ((if arc then lpp_list_push_arc al (Some l) (val e) else lpp_list_push al (Some l) (val e))
      = lpp_list_push al (Some l) (val e)) as ->.
    { destruct arc; [|done]. apply push_arc_owned; [apply Ht|done]. }
    apply wp_bind. eapply wp_mono; [apply (push_tight al l (val e) n Ht); [lia|done]|].
    intros [l1 ev1] (Ht1 & He1 & Hr1 & ->). apply wp_bind.
    assert (len l1 = len l + 1) as Hl1.
    { rewrite <- (elems_length l1), <- (elems_length l) by (apply Ht || apply Ht1).
      rewrite He1, length_app. simpl. lia. }
    eapply wp_mono; [apply (IH l1); try done; [lia|congruence]|].
    intros [l2 ev2] (Ht2 & Hr2 & He2 & ->). cbn [wp]. split_and!; try done.
    + rewrite He2, He1, <- (assoc_L (++)). done.
    + rewrite bind_cons. by rewrite Hr.
  - assert (kvs mem (e :: es) = kvs mem es) as Hkv.
    { unfold kvs. cbn [omap list_omap]. unfold kv at 1. by rewrite (proj2 (Z.eqb_neq _ _)). }
    rewrite Hkv in *. by apply IH.
Qed.

(** [lpp_map_values] is a faithful snapshot: on a well-formed map, with memory for it, it
    returns a well-formed list that holds each value of the finite map exactly as often as it
    occurs, and when the values are references it takes exactly one reference for each, so the
    snapshot keeps them alive independently of the map. *)
Theorem map_values_snapshot mem al `{!SysAlloc al} m :
  map_wf mem m -> serves_list al (mlen m) ->
  exists l ev, lpp_map_values al true (Some m) = Ok (l, ev) /\ list_wf l /\
    elems l ≡ₚ vals (mabs mem m) /\
    (mlen m <> 0 -> retain_element l = arc_values m) /\ ev = mbind (retains (arc_values m)) (elems l).
Proof.
  intros Hm Hs. pose proof (m_len _ _ Hm) as Hlen. pose proof (vals_kvs mem m Hm) as Hv.
  unfold lpp_map_values. destruct (Z.eqb_spec (mlen m) 0) as [H0|H0].
  { destruct (new_tight false 0 (mk_list [] 0 0 false false) ltac:(lia) eq_refl) as ((Hw & _) & He & _).
    do 2 eexists. split; [done|]. split_and!; try done. rewrite Hv.
    assert (kvs mem (entries m) = []) as -> by (apply nil_length_inv; lia). done. }
  set (arc := arc_values m). destruct (new_tight arc (mlen m) (mk_list [] 0 0 arc arc) ltac:(lia) eq_refl) as (Ht & He & Hr & Hl0).
  assert ((if arc then lpp_list_new_arc true else lpp_list_new true) = Ok (mk_list [] 0 0 arc arc)) as -> by (by destruct arc).
  cbn [obind].
  destruct (wp_inv _ _ (values_loop_spec mem al arc (entries m) (mlen m) _ (map_entries_ok mem m Hm) Ht ltac:(lia) Hs Hr))
    as ([l ev] & -> & (Hw & _) & Hr' & He' & ->).
  exists l. eexists. split; [done|]. rewrite He in He'. simpl in He'. split_and!; try done.
  - by rewrite He', Hv.
  - by rewrite He'.
Qed.

(** A map with one string entry, built by the code. *)
Definition one_map : LppMap :=
  match map_step some_strings small_alloc (MPut (CStr 4096) 8192) new_map_16 with
  | Ok (m, _, _) => m
  | _ => new_map_16
  end.
Lemma one_map_wf : map_wf some_strings one_map.
Proof.
  destruct (new_map_wf some_strings small_alloc true new_map_16 eq_refl) as (Hm & _).
  destruct (map_step_spec some_strings eq_refl small_alloc (MPut (CStr 4096) 8192) new_map_16 Hm) as [Hyes _].
  { by exists (KStr [107; 49]). }
  specialize (Hyes eq_refl). unfold one_map, map_runs_as in *.
  destruct (map_step _ _ _ _) as [[[m r] ev]| | |]; try done. apply Hyes.
Qed.

Lemma map_values_snapshot_witness :
  exists l ev, lpp_map_values small_alloc true (Some one_map) = Ok (l, ev) /\ list_wf l /\
    elems l ≡ₚ vals (mabs some_strings one_map) /\
    (mlen one_map <> 0 -> retain_element l = arc_values one_map) /\
    ev = mbind (retains (arc_values one_map)) (elems l).
Proof.
  apply (map_values_snapshot some_strings small_alloc one_map).
  - exact one_map_wf.
  - intros c Hc. apply Z.leb_le. change (mlen one_map) with 1 in Hc. simpl. lia.
Defined.

(** What the copying loop of [lpp_map_keys] does to an owning list: it retains everything it
    stores and releases nothing. *)
Lemma keys_loop_spec mem al `{!SysAlloc al} dup es : forall n l l' ev copies,
  list_wf l -> retain_element l = true -> keys_loop mem al dup es n l = Ok (l', ev, copies) ->
  list_wf l' /\ retain_element l' = true /\
  exists ys, elems l' = elems l ++ ys /\ ev = mbind (retains true) ys /\
    forall p s, (p, s) ∈ copies -> p ∈ ys.
Proof.
  induction es as [|e es IH]; intros n l l' ev copies Hl Hr Hrun; cbn [keys_loop] in Hrun.
  { simplify_eq. split_and!; [done..|]. exists []. rewrite app_nil_r. split_and!; [done..|].
    intros p s H. by apply elem_of_nil in H. }
  assert (forall v l1 ev1, lpp_list_push al (Some l) v = Ok (l1, ev1) ->
    list_wf l1 /\ retain_element l1 = true /\ elems l1 = elems l ++ [v] /\ ev1 = retains true v) as Hpush.
  { intros v l1 ev1 E. destruct (push_spec al l v Hl) as [Hyes Hno].
    destruct (served al (OPush v) l); [|by destruct Hno as [? Hn]; [done|]; rewrite Hn in E].
    specialize (Hyes eq_refl). rewrite E, Hr in Hyes. destruct Hyes as (? & ? & ? & ?). done. }
  destruct (occupied e =? 1); [|by eapply IH]. destruct (negb (is_str_key e =? 0)).
  - destruct (if key e =? 0 then _ else _) as [str| | |]; try done. cbn [obind] in Hrun.
    rewrite push_arc_owned in Hrun by done.
    destruct (lpp_list_push al (Some l) (dup n)) as [[l1 ev1]| | |] eqn:E; try done. cbn [obind] in Hrun.
    destruct (Hpush _ _ _ E) as (Hl1 & Hr1 & He1 & ->).
    destruct (keys_loop mem al dup es (S n) l1) as [[[l2 ev2] copies2]| | |] eqn:E2; try done. cbn [obind] in Hrun.
    simplify_eq. destruct (IH _ _ _ _ _ Hl1 Hr1 E2) as (? & ? & ys & Hy1 & -> & Hy3).
    split_and!; [done..|]. exists (dup n :: ys). split_and!.
    + by rewrite Hy1, He1, <- (assoc_L (++)).
    + by rewrite bind_cons.
    + intros p s [Hin|Hin]%elem_of_app; [|right; by eapply Hy3].
      destruct (dup n =? 0); [by apply elem_of_nil in Hin|]. apply list_elem_of_singleton in Hin. simplify_eq. left.
  - destruct (lpp_list_push al (Some l) (key e)) as [[l1 ev1]| | |] eqn:E; try done. cbn [obind] in Hrun.
    destruct (Hpush _ _ _ E) as (Hl1 & Hr1 & He1 & ->).
    destruct (keys_loop mem al dup es n l1) as [[[l2 ev2] copies2]| | |] eqn:E2; try done. cbn [obind] in Hrun.
    simplify_eq. destruct (IH _ _ _ _ _ Hl1 Hr1 E2) as (? & ? & ys & Hy1 & -> & Hy3).
    split_and!; [done..|]. exists (key e :: ys). split_and!.
    + by rewrite Hy1, He1, <- (assoc_L (++)).
    + by rewrite bind_cons.
    + intros p s Hin. right. by eapply Hy3.
Qed.

(** [lpp_map_keys] leaks every string it copies.  A copy is born with one reference,
    [lpp_list_push_arc] takes a second one for the list, and nothing gives the first one back
    ([lpp_str_split] and [lpp_dir_list] release it after the push): when the list of keys is
    destroyed, retains and releases of each copy cancel out, so its birth reference is still
    there and its memory is never reclaimed. *)
Theorem map_keys_leak_copies mem al `{!SysAlloc al} dup m l ev copies p s :
  has_str (entries m) = true -> mlen m <> 0 ->
  lpp_map_keys mem al dup true (Some m) = Ok (l, ev, copies) -> (p, s) ∈ copies -> arc_like p = true ->
  exists gone evd, lpp_list_destroy l = Ok (gone, evd) /\
    p ∈ elems l /\ occ (Retain p) (ev ++ evd) = occ (Release p) (ev ++ evd).
Proof.
  intros Hhs Hn Hrun Hin Hp. unfold lpp_map_keys in Hrun.
  rewrite (proj2 (Z.eqb_neq _ _) Hn), Hhs in Hrun. cbn [lpp_list_new_arc lpp_list_new_with_ownership obind] in Hrun.
  destruct (new_tight true 0 (mk_list [] 0 0 true true) ltac:(lia) eq_refl) as ((Hw & _) & He & Hr & _).
  destruct (keys_loop_spec mem al dup _ _ _ _ _ _ Hw Hr Hrun) as (Hl & Hrl & ys & Hys & -> & Hc).
  rewrite He in Hys. simpl in Hys. destruct (destroy_spec l Hl) as [g Hg]. exists g. eexists. split; [exact Hg|].
  rewrite Hrl, Hys. split; [by eapply Hc|].
  destruct (occ_bind_retains p ys Hp) as [H1 H2], (occ_bind_releases p ys Hp) as [H3 H4].
  rewrite !occ_app. lia.
Qed.

Lemma map_keys_leak_copies_witness :
  match lpp_map_keys some_strings small_alloc (fun _ => 16384) true (Some one_map) with
  | Ok (l, ev, copies) => (16384, [107; 49]) ∈ copies /\
      exists gone evd, lpp_list_destroy l = Ok (gone, evd) /\ 16384 ∈ elems l /\
        occ (Retain 16384) (ev ++ evd) = occ (Release 16384) (ev ++ evd)
  | _ => False
  end.
Proof.
  destruct (lpp_map_keys some_strings small_alloc (fun _ => 16384) true (Some one_map))
    as [[[l ev] copies]| | |] eqn:E; [|vm_compute in E; discriminate..].
  assert ((16384, [107; 49]) ∈ copies) as Hin.
  { vm_compute in E. injection E as _ _ <-. left. }
  split; [exact Hin|].
  apply (map_keys_leak_copies some_strings small_alloc (fun _ => 16384) one_map l ev copies 16384 [107; 49]).
  - reflexivity.
  - discriminate.
  - exact E.
  - exact Hin.
  - reflexivity.
Defined.

(** [lpp_map_put_str] keeps the caller's pointer: once the caller's string is gone, a later
    lookup that meets the entry reads freed memory, even for another, live key. *)
Example put_str_borrows_key :
  let before := fun p => if p =? 4096 then Some [97] else if p =? 8192 then Some [97] else None in
  let after := fun p => if p =? 8192 then Some [97] else None in
  exists m, map_step before small_alloc (MPut (CStr 4096) 1) new_map_16 = Ok (m, 0, [Retain 1]) /\
    lpp_map_get_str before (Some m) 8192 = Ok 1 /\ lpp_map_get_str after (Some m) 8192 = Undef.
Proof. eexists. split; [vm_compute; reflexivity|]. split; vm_compute; reflexivity. Qed.
