(* ===== verification/Str.v ===== *)
(** * String, number and random builtins (runtime/lpp_str.c)

    A string is the list of its bytes without the terminating NUL; a fresh ARC block is a
    zeroed byte array of the size asked for, written through bounds-checked copies, and the
    string it holds is what a reader sees up to the first NUL.  The C library functions the
    file uses ([strstr], [strncmp], [strcmp], [strtoll], [snprintf] with [%lld]) are written out
    as definitions.  Not modelled: the functions on [double] and the clock. *)

From S2P Require Import Prelude CInt Buf ListRt.

(** ** The C library *)

Definition slen (s : cstr) : Z := Z.of_nat (length s).

(** [strncmp(s, p, strlen(p)) == 0]. *)
Fixpoint starts (p s : cstr) : bool :=
  match p, s with
  | [], _ => true
  | _ :: _, [] => false
  | a :: p, b :: s => (a =? b) && starts p s
  end.

(** [strstr]: the offset of the first occurrence. *)
Fixpoint strstr (s needle : cstr) : option nat :=
  if starts needle s then Some 0%nat
  else match s with [] => None | _ :: s => S <$> strstr s needle end.

(** [strcmp]: the difference of the first bytes that differ. *)
Fixpoint strcmp (a b : cstr) : Z :=
  match a, b with
  | [], [] => 0
  | [], y :: _ => 0 - y
  | x :: _, [] => x
  | x :: a, y :: b => if x =? y then strcmp a b else x - y
  end.

(** [isspace] in the C locale. *)
Definition isspace (c : Z) : bool := (c =? 32) || ((9 <=? c) && (c <=? 13)).
Fixpoint skip_space (s : cstr) : cstr :=
  match s with c :: r => if isspace c then skip_space r else s | [] => [] end.
Fixpoint dec_value (s : cstr) (acc : Z) : Z :=
  match s with c :: r => if is_digit c then dec_value r (acc * 10 + (c - 48)) else acc | [] => acc end.
Definition saturate (z : Z) : Z := Z.max INT64_MIN (Z.min INT64_MAX z).

(** [strtoll(s, NULL, 10)]: saturates at the ends of the range. *)
Definition strtoll10 (s : cstr) : Z :=
  match skip_space s with
  | 45 :: r => saturate (- dec_value r 0)
  | 43 :: r => saturate (dec_value r 0)
  | r => saturate (dec_value r 0)
  end.

(** [%lld]. *)
Definition fmt_lld (v : Z) : cstr := if v <? 0 then 45 :: digits 10 20 (- v) else digits 10 20 v.

(** A fresh string: [None] when the allocation fails. *)
Definition fresh_str (al : allocator) (k : nat) (n : Z) (fill : list Z -> outcome (list Z))
  : outcome (option cstr) :=
  if al k n then let! out := fill (replicate (Z.to_nat n) 0) in Ok (Some (until_nul out)) else Ok None.

(** [if (!out) return lpp_empty_str()], or no test at all (a store through NULL). *)
Definition or_empty (m : outcome (option cstr)) : outcome str_ret :=
  let! o := m in Ok (match o with Some s => SOwned s | None => SEmpty end).
Definition unchecked (m : outcome (option cstr)) : outcome str_ret :=
  let! o := m in match o with Some s => Ok (SOwned s) | None => Undef end.

(** ** The builtins *)

Definition lpp_str_concat (al : allocator) (a b : option cstr) : outcome str_ret :=
  let a := default [] a in
  let b := default [] b in
  or_empty (fresh_str al 0 (slen a + slen b + 1) (fun out =>
    let! out := memcpy out 0 a 0 (slen a) in
    let! out := memcpy out (slen a) b 0 (slen b) in
    wr out (slen a + slen b) 0)).

(** [lpp_str_split].  [addr k] is the address of the [k]-th piece; the result is the list, the
    calls into the reference counter, and the pieces that were allocated. *)
Section split.
Context (al : allocator) (la : allocation) (addr : nat -> Z) (ch : Z).

(** One piece: allocate, copy, push (the list retains), release the birth reference. *)
Definition emit (k : nat) (l : LppList) (piece : cstr) : outcome (LppList * list arc_ev * list (Z * cstr)) :=
  let! o := fresh_str al k (slen piece + 1) (fun out =>
    let! out := memcpy out 0 piece 0 (slen piece) in wr out (slen piece) 0) in
  match o with
  | Some s =>
      let! '(l, ev) := lpp_list_push_arc la (Some l) (addr k) in
      Ok (l, ev ++ [Release (addr k)], [(addr k, s)])
  | None => Ok (l, [], [])
  end.

(** [cur] is the text between [start] and [s]. *)
Fixpoint split_loop (s cur : cstr) (k : nat) (l : LppList) : outcome (LppList * list arc_ev * list (Z * cstr)) :=
  match s with
  | [] => emit k l cur
  | c :: r =>
      if c =? ch then
        let! '(l, ev, ps) := emit k l cur in
        let! '(l, ev', ps') := split_loop r [] (S k) l in
        Ok (l, ev ++ ev', ps ++ ps')
      else split_loop r (cur ++ [c]) k l
  end.
End split.

Definition lpp_str_split (al : allocator) (la : allocation) (addr : nat -> Z) (list_ok : bool)
    (s : option cstr) (delim : Z) : outcome (LppList * list arc_ev * list (Z * cstr)) :=
  let! l := lpp_list_new_arc list_ok in
  match s with
  | None | Some [] => Ok (l, [], [])
  | Some s => split_loop al la addr (u8 delim) s [] 0 l
  end.

Definition lpp_str_find (haystack needle : option cstr) : Z :=
  match haystack, needle with
  | Some h, Some n => match strstr h n with Some k => Z.of_nat k | None => -1 end
  | _, _ => -1
  end.

(** [while ((scan = strstr(scan, old))) { count++; scan += olen; }]. *)
Fixpoint count_matches (fuel : nat) (scan old : cstr) : outcome Z :=
  match fuel with
  | O => NoFuel
  | S f => match strstr scan old with
           | None => Ok 0
           | Some k => let! n := count_matches f (drop (k + length old) scan) old in Ok (n + 1)
           end
  end.

(** The copying loop: [dst] is an offset into [out]. *)
Fixpoint replace_loop (fuel : nat) (out : list Z) (dst : Z) (src old new_ : cstr) : outcome (list Z) :=
  match fuel with
  | O => NoFuel
  | S f =>
      match src with
      | [] => Ok out
      | _ =>
          match strstr src old with
          | None => memcpy out dst (src ++ [0]) 0 (slen src + 1)
          | Some k =>
              let prefix := Z.of_nat k in
              let! out := memcpy out dst src 0 prefix in
              let! out := memcpy out (dst + prefix) new_ 0 (slen new_) in
              replace_loop f out (dst + prefix + slen new_) (drop (k + length old) src) old new_
          end
      end
  end.

Definition lpp_str_replace (al : allocator) (s old new_ : option cstr) : outcome str_ret :=
  let s := default [] s in
  match old with
  | None | Some [] =>
      or_empty (fresh_str al 0 (slen s + 1) (fun out => memcpy out 0 (s ++ [0]) 0 (slen s + 1)))
  | Some old =>
      let new_ := default [] new_ in
      let! count := count_matches (S (length s)) s old in
      let delta := slen new_ - slen old in
      let! prod := chk64 (count * delta) in
      if (count >? 0) && (delta >? 0) && (slen s >? INT64_MAX - prod)
      then Panic "str_replace: output size overflow"
      else
        let! n := chk64 (slen s + prod) in
        let n := if n <? 0 then 0 else n in
        let outlen := u64 (n + 1) in
        or_empty (fresh_str al 0 (i64 outlen) (fun out =>
          replace_loop (S (length s)) out 0 s old new_))
  end.

Definition lpp_str_substr (al : allocator) (s : option cstr) (start length : Z) : outcome str_ret :=
  let s := default [] s in
  let start := if start <? 0 then 0 else start in
  if start >? slen s then Ok SEmpty
  else
    let remain := slen s - start in
    let copy := if (length <? 0) || (length >? remain) then remain else length in
    or_empty (fresh_str al 0 (copy + 1) (fun out =>
      let! out := memcpy out 0 s start copy in wr out copy 0)).

(** [while (end > s && isblank(end[-1])) end--], on the reversed text. *)
Definition rstrip (s : cstr) : cstr := reverse (skip_ws (reverse s)).
Definition lpp_str_trim (al : allocator) (s : option cstr) : outcome str_ret :=
  match s with
  | None => Ok SEmpty
  | Some s =>
      let t := rstrip (skip_ws s) in
      or_empty (fresh_str al 0 (slen t + 1) (fun out =>
        let! out := memcpy out 0 t 0 (slen t) in wr out (slen t) 0))
  end.

(** [for (i = 0; i < n; i++) memcpy(out + i * slen, s, slen)]. *)
Fixpoint repeat_loop (k : nat) (i : Z) (out : list Z) (s : cstr) : outcome (list Z) :=
  match k with
  | O => Ok out
  | S k => let! out := memcpy out (i * slen s) s 0 (slen s) in repeat_loop k (i + 1) out s
  end.
Definition lpp_str_repeat (al : allocator) (s : option cstr) (n : Z) : outcome str_ret :=
  match s with
  | None => Ok SEmpty
  | Some s =>
      if n <=? 0 then Ok SEmpty
      else if slen s =? 0 then Ok SEmpty
      else if slen s >? INT64_MAX / n then Panic "str_repeat: length overflow"
      else
        let total := u64 (slen s * n) in
        or_empty (fresh_str al 0 (i64 (total + 1)) (fun out =>
          let! out := repeat_loop (Z.to_nat n) 0 out s in wr out total 0))
  end.

Definition lpp_char_at (al : allocator) (s : option cstr) (idx : Z) : outcome str_ret :=
  match s with
  | None => Ok SNull
  | Some s =>
      if (idx <? 0) || (idx >=? slen s) then Ok SNull
      else unchecked (fresh_str al 0 2 (fun out =>
             let! c := rd s idx in let! out := wr out 0 c in wr out 1 0))
  end.
Definition lpp_ord (s : option cstr) : Z := match s with Some (c :: _) => u8 c | _ => 0 end.
Definition lpp_chr (al : allocator) (code : Z) : outcome str_ret :=
  unchecked (fresh_str al 0 2 (fun out => let! out := wr out 0 (Z.land code 0xFF) in wr out 1 0)).

Definition lpp_str_contains (haystack needle : option cstr) : Z :=
  match haystack, needle with
  | Some h, Some n => match strstr h n with Some _ => 1 | None => 0 end
  | _, _ => 0
  end.
Definition lpp_str_starts_with (s prefix : option cstr) : Z :=
  match s, prefix with Some s, Some p => b2z (starts p s) | _, _ => 0 end.
Definition lpp_str_ends_with (s suffix : option cstr) : Z :=
  match s, suffix with
  | Some s, Some x =>
      if slen x >? slen s then 0
      else b2z (strcmp (drop (length s - length x) s) x =? 0)
  | _, _ => 0
  end.

Definition up (c : Z) : Z := if (97 <=? c) && (c <=? 122) then c - 32 else c.
Definition down (c : Z) : Z := if (65 <=? c) && (c <=? 90) then c + 32 else c.
(** [for (i = 0; i < len; i++) out[i] = f(s[i])]. *)
Fixpoint map_loop (f : Z -> Z) (k : nat) (i : Z) (out : list Z) (s : cstr) : outcome (list Z) :=
  match k with
  | O => Ok out
  | S k => let! c := rd s i in let! out := wr out i (f c) in map_loop f k (i + 1) out s
  end.
Definition case_copy (f : Z -> Z) (al : allocator) (s : option cstr) : outcome str_ret :=
  match s with
  | None => Ok SNull
  | Some s => unchecked (fresh_str al 0 (slen s + 1) (fun out =>
      let! out := map_loop f (length s) 0 out s in wr out (slen s) 0))
  end.
Definition lpp_str_upper : allocator -> option cstr -> outcome str_ret := case_copy up.
Definition lpp_str_lower : allocator -> option cstr -> outcome str_ret := case_copy down.

(** [strcpy] of a short buffer into a block of its size. *)
Definition copied (al : allocator) (s : cstr) : outcome str_ret :=
  or_empty (fresh_str al 0 (slen s + 1) (fun out => memcpy out 0 (s ++ [0]) 0 (slen s + 1))).
Definition lpp_int_to_str (al : allocator) (v : Z) : outcome str_ret := copied al (snprintf32 (fmt_lld v)).
Definition lpp_bool_to_str (al : allocator) (v : Z) : outcome str_ret :=
  copied al (if negb (i8 v =? 0) then [116; 114; 117; 101] else [102; 97; 108; 115; 101]).
Definition lpp_str_to_int (s : option cstr) : Z := match s with None => 0 | Some s => strtoll10 s end.

(** The pointers are compared first; [same] says they are equal. *)
Fixpoint eq_loop (a b : cstr) : bool :=
  match a with
  | [] => match b with [] => true | y :: _ => 0 =? y end
  | x :: a' => match b with [] => x =? 0 | y :: b' => if x =? y then eq_loop a' b' else false end
  end.
Definition lpp_str_eq (same : bool) (a b : option cstr) : Z :=
  if same then 1 else match a, b with Some a, Some b => b2z (eq_loop a b) | _, _ => 0 end.
Definition lpp_str_cmp (same : bool) (a b : option cstr) : Z :=
  if same then 0 else match a, b with None, _ => -1 | _, None => 1 | Some a, Some b => strcmp a b end.

(** ** Integer helpers and the random generator *)

Definition lpp_abs (x : Z) : outcome Z := if x <? 0 then chk64 (- x) else Ok x.
Definition lpp_min (a b : Z) : Z := if a <? b then a else b.
Definition lpp_max (a b : Z) : Z := if a >? b then a else b.

(** [while (exp > 0) { if (exp & 1) r *= base; base *= base; exp >>= 1; }]. *)
Fixpoint pow_loop (fuel : nat) (base exp r : Z) : outcome Z :=
  match fuel with
  | O => NoFuel
  | S f =>
      if exp >? 0 then
        let! r := (if negb (Z.land exp 1 =? 0) then chk64 (r * base) else Ok r) in
        let! base := chk64 (base * base) in
        pow_loop f base (Z.shiftr exp 1) r
      else Ok r
  end.
Definition lpp_int_pow (base exp : Z) : outcome Z := pow_loop 64 base exp 1.

Definition lpp_random_seed (seed : Z) : Z := u64 seed.
Definition xorshift (x : Z) : Z :=
  let x := Z.lxor x (u64 (Z.shiftl x 13)) in
  let x := Z.lxor x (Z.shiftr x 7) in
  Z.lxor x (u64 (Z.shiftl x 17)).
(** [now] is what [time(NULL)] returns; the result is the number and the new state. *)
Definition lpp_random (now state : Z) : Z * Z :=
  let state := if state =? 0 then Z.lxor (u64 now) 0x1234567890ABCDEF else state in
  let state := xorshift state in
  (Z.land state 0x7FFFFFFFFFFFFFFF, state).
Definition lpp_random_range (now state lo hi : Z) : outcome (Z * Z) :=
  if lo >=? hi then Ok (lo, state)
  else
    let '(r, state) := lpp_random now state in
    let! span := chk64 (hi - lo) in
    Ok (lo + Z.rem r span, state).

(** ** Filling a zeroed block from the left *)

Lemma slen_app a b : slen (a ++ b) = slen a + slen b.
Proof. unfold slen. rewrite length_app. lia. Qed.
Lemma slen_nonneg s : 0 <= slen s.
Proof. unfold slen. lia. Qed.

(** Copying [k] bytes of [s] right behind what is already written. *)
Lemma memcpy_append (w s : list Z) (k r : nat) (off : Z) :
  off = Z.of_nat (length w) -> (k <= length s)%nat -> Z.of_nat (length s) <= INT64_MAX ->
  memcpy (w ++ replicate (k + r) 0) off s 0 (Z.of_nat k) = Ok ((w ++ take k s) ++ replicate r 0).
Proof.
  intros -> Hk Hs. rewrite memcpy_in by (rewrite ?length_app, ?length_replicate; pow2; lia).
  rewrite Nat2Z.id, drop_0. f_equal. rewrite take_app_length, <- (assoc_L (++)). do 2 f_equal.
  rewrite drop_app_ge by lia. replace (length w + k - length w)%nat with k by lia.
  rewrite drop_replicate. f_equal. lia.
Qed.

Lemma memcpy_start (s : list Z) (k r : nat) :
  (k <= length s)%nat -> Z.of_nat (length s) <= INT64_MAX ->
  memcpy (replicate (k + r) 0) 0 s 0 (Z.of_nat k) = Ok (take k s ++ replicate r 0).
Proof. intros. by apply (memcpy_append [] s k r 0). Qed.

(** Storing the terminator where the block is already zero. *)
Lemma wr_nul (w : list Z) (r : nat) (off : Z) :
  off = Z.of_nat (length w) -> wr (w ++ replicate (S r) 0) off 0 = Ok (w ++ replicate (S r) 0).
Proof.
  intros ->. rewrite wr_ok by (rewrite length_app, length_replicate; lia). f_equal.
  rewrite Nat2Z.id, insert_app_r_alt by lia. by rewrite Nat.sub_diag.
Qed.

Lemma until_nul_zero (w : list Z) (r : nat) : cstr_ok w -> until_nul (w ++ replicate r 0) = w.
Proof.
  induction 1 as [|c w Hc Hw IH]; cbn [app until_nul]; [by destruct r|].
  rewrite (proj2 (Z.eqb_neq _ _)) by lia. by rewrite IH.
Qed.

(** A block filled with [w] and at least one zero behind it is the string [w]. *)
Lemma fresh_str_ok al k n fill w r :
  al k n = true -> cstr_ok w -> fill (replicate (Z.to_nat n) 0) = Ok (w ++ replicate r 0) ->
  fresh_str al k n fill = Ok (Some w).
Proof. intros Hal Hw Hf. unfold fresh_str. rewrite Hal, Hf. cbn [obind]. by rewrite until_nul_zero. Qed.

(** Copy a whole string to the start of a block and terminate it. *)
Lemma copy_terminate (s : cstr) :
  slen s <= INT64_MAX ->
  (let! out := memcpy (replicate (Z.to_nat (slen s + 1)) 0) 0 s 0 (slen s) in wr out (slen s) 0)
  = Ok (s ++ replicate 1 0).
Proof.
  intros Hs. unfold slen in *. replace (Z.to_nat (Z.of_nat (length s) + 1)) with (length s + 1)%nat by lia.
  rewrite (memcpy_start s (length s) 1) by lia. cbn [obind].
  rewrite take_ge by lia. by rewrite wr_nul.
Qed.

Lemma copy_with_nul (s : cstr) :
  slen s < INT64_MAX ->
  memcpy (replicate (Z.to_nat (slen s + 1)) 0) 0 (s ++ [0]) 0 (slen s + 1) = Ok (s ++ replicate 1 0).
Proof.
  intros Hs. unfold slen in *. replace (Z.of_nat (length s) + 1) with (Z.of_nat (length s + 1)) by lia.
  rewrite Nat2Z.id. rewrite <- (Nat.add_0_r (length s + 1)) at 1.
  rewrite memcpy_start by (rewrite length_app; simpl; lia).
  rewrite take_ge by (rewrite length_app; simpl; lia). by rewrite app_nil_r.
Qed.

(** ** Occurrences and replacement *)

(** The reference: the pieces between the leftmost occurrences, and gluing pieces together. *)
Fixpoint pieces (fuel : nat) (s old : cstr) : list cstr :=
  match fuel with
  | O => [s]
  | S f => match strstr s old with
           | None => [s]
           | Some k => take k s :: pieces f (drop (k + length old) s) old
           end
  end.
Fixpoint join (sep : cstr) (ps : list cstr) : cstr :=
  match ps with
  | [] => []
  | [p] => p
  | p :: ps => p ++ sep ++ join sep ps
  end.

Lemma starts_spec p s : starts p s = true <-> exists r, s = p ++ r.
Proof.
  revert s. induction p as [|a p IH]; intros [|b s]; cbn [starts app]; split; intros H;
    try done; try (by destruct H); try (by eexists).
  - apply andb_true_iff in H as [->%Z.eqb_eq [r ->]%IH]. by exists r.
  - destruct H as [r [= -> ->]]. rewrite Z.eqb_refl. apply IH. by exists r.
Qed.

(** [strstr] finds the first occurrence. *)
Lemma strstr_some s needle k : strstr s needle = Some k ->
  exists r, s = take k s ++ needle ++ r /\ r = drop (k + length needle) s /\ (k + length needle <= length s)%nat /\
    forall j, (j < k)%nat -> starts needle (drop j s) = false.
Proof.
  revert k. induction s as [|c s IH]; intros k; cbn [strstr].
  - destruct (starts needle []) eqn:E; [|done]. intros [= <-]. apply starts_spec in E as [r Hr].
    exists r. destruct needle; [|done]. simpl in Hr. subst. split_and!; [done|done|simpl; lia|lia].
  - destruct (starts needle (c :: s)) eqn:E.
    + intros [= <-]. apply starts_spec in E as [r Hr]. exists r. rewrite Hr. split_and!.
      * done.
      * symmetry. apply drop_app_length.
      * rewrite length_app. lia.
      * lia.
    + destruct (strstr s needle) as [k'|] eqn:Es; [|done]. intros [= <-].
      destruct (IH k' eq_refl) as (r & Hr & Hd & Hl & Hf). exists r. split_and!.
      * cbn [take app]. by rewrite <- Hr.
      * done.
      * simpl. lia.
      * intros [|j] Hj; [done|]. apply Hf. lia.
Qed.

Lemma strstr_none s needle : strstr s needle = None -> forall j, (j <= length s)%nat -> starts needle (drop j s) = false.
Proof.
  induction s as [|c s IH]; cbn [strstr].
  - destruct (starts needle []) eqn:E; [done|]. intros _ j _. by destruct j.
  - destruct (starts needle (c :: s)) eqn:E; [done|]. destruct (strstr s needle) eqn:Es; [done|].
    intros _ [|j] Hj; [done|]. apply IH; [done|]. simpl in Hj. lia.
Qed.

Lemma join_cons sep p ps : ps <> [] -> join sep (p :: ps) = p ++ sep ++ join sep ps.
Proof. by destruct ps. Qed.
Lemma pieces_nonempty f s old : pieces f s old <> [].
Proof. destruct f; simpl; [done|]. by destruct (strstr s old). Qed.

(** The pieces put back together are the text. *)
Lemma pieces_join f : forall s old, join old (pieces f s old) = s.
Proof.
  induction f as [|f IH]; intros s old; cbn [pieces]; [done|].
  destruct (strstr s old) as [k|] eqn:E; [|done].
  rewrite join_cons by apply pieces_nonempty. rewrite IH.
  destruct (strstr_some s old k E) as (r & Hr & Hd & _). rewrite <- Hd. by rewrite <- Hr.
Qed.

(** No piece but the last extends over an occurrence, and the last contains none. *)
Lemma pieces_clean f : forall s old, (length s < f)%nat -> old <> [] ->
  exists ps p, pieces f s old = ps ++ [p] /\ strstr p old = None.
Proof.
  induction f as [|f IH]; intros s old Hf Ho; [lia|]. cbn [pieces].
  destruct (strstr s old) as [k|] eqn:E; [|by exists [], s].
  destruct (strstr_some s old k E) as (r & _ & _ & Hl & _). destruct old as [|o old]; [done|]. simpl in Hl.
  destruct (IH (drop (k + length (o :: old)) s) (o :: old)) as (ps & p & -> & Hp).
  { rewrite length_drop. simpl. lia. }
  { done. }
  by exists (take k s :: ps), p.
Qed.

Lemma count_matches_spec f : forall s old, (length s < f)%nat -> old <> [] ->
  count_matches f s old = Ok (Z.of_nat (length (pieces f s old)) - 1).
Proof.
  induction f as [|f IH]; intros s old Hf Ho; [lia|]. cbn [count_matches pieces].
  destruct (strstr s old) as [k|] eqn:E; [|done].
  destruct (strstr_some s old k E) as (r & _ & _ & Hl & _). destruct old as [|o old]; [done|]. simpl in Hl.
  rewrite IH by (rewrite ?length_drop; simpl; lia || done). cbn [obind]. f_equal. cbn [length]. lia.
Qed.

Lemma join_length sep ps : ps <> [] ->
  slen (join sep ps) = slen (concat ps) + (Z.of_nat (length ps) - 1) * slen sep.
Proof.
  induction ps as [|p ps IH]; [done|]. intros _. destruct (decide (ps = [])) as [->|Hne].
  - cbn [join concat length]. rewrite app_nil_r. lia.
  - rewrite join_cons by done. cbn [concat length]. rewrite !slen_app, IH by done. lia.
Qed.

(** The size computed before copying is the size of the result. *)
Lemma replaced_length f s old new_ :
  slen (join new_ (pieces f s old)) = slen s + (Z.of_nat (length (pieces f s old)) - 1) * (slen new_ - slen old).
Proof.
  rewrite join_length by apply pieces_nonempty. rewrite <- (pieces_join f s old) at 3.
  rewrite join_length by apply pieces_nonempty. lia.
Qed.

Lemma replace_loop_spec f : forall w r src old new_,
  (length src < f)%nat -> old <> [] -> slen src < INT64_MAX -> slen new_ <= INT64_MAX ->
  slen (join new_ (pieces f src old)) + 1 = Z.of_nat r ->
  replace_loop f (w ++ replicate r 0) (slen w) src old new_
  = Ok ((w ++ join new_ (pieces f src old)) ++ replicate 1 0).
Proof.
  induction f as [|f IH]; intros w r src old new_ Hf Ho Hs Hn Hr; [lia|].
  cbn [replace_loop pieces] in *. destruct src as [|c src'] eqn:Esrc.
  { destruct old as [|o old]; [done|]. cbn [strstr starts join] in *. rewrite app_nil_r.
    unfold slen in Hr. simpl in Hr. by replace r with 1%nat by lia. }
  rewrite <- Esrc in *. clear Esrc src' c. destruct (strstr src old) as [k|] eqn:E.
  - destruct (strstr_some src old k E) as (rest & Hsplit & Hrest & Hl & _).
    pose proof (slen_nonneg new_) as Hnn. pose proof (pieces_nonempty f (drop (k + length old) src) old) as Hpn.
    rewrite join_cons in * by done. rewrite !slen_app in Hr.
    assert (slen (take k src) = Z.of_nat k) as Htk by (unfold slen; rewrite length_take; lia).
    pose proof (slen_nonneg (join new_ (pieces f (drop (k + length old) src) old))) as Hjn.
    rewrite Htk in Hr. unfold slen in Hn, Hr at 1.
    replace r with (k + (length new_ + (r - k - length new_)))%nat by lia.
    rewrite memcpy_append by (unfold slen in *; done || lia). cbn [obind].
    change (slen new_) with (Z.of_nat (length new_)). rewrite memcpy_append; [|rewrite length_app, length_take; unfold slen; lia|lia|done].
    cbn [obind]. rewrite (take_ge new_) by lia.
    assert (slen w + Z.of_nat k + Z.of_nat (length new_) = slen ((w ++ take k src) ++ new_)) as ->.
    { rewrite !slen_app, Htk. done. }
    rewrite IH.
    + by rewrite <- !(assoc_L (++)).
    + rewrite length_drop. destruct old; [done|]. simpl in *. lia.
    + done.
    + unfold slen in *. rewrite length_drop. lia.
    + done.
    + unfold slen in *. lia.
  - cbn [join] in *. unfold slen in *. replace r with (length src + 1 + 0)%nat by lia.
    replace (Z.of_nat (length src) + 1) with (Z.of_nat (length (src ++ [0]))) by (rewrite length_app; simpl; lia).
    replace (length src + 1 + 0)%nat with (length (src ++ [0%Z]) + 0)%nat by (rewrite length_app; simpl; lia).
    rewrite memcpy_append by (rewrite ?length_app; simpl; lia || done).
    rewrite take_ge by done. by rewrite app_nil_r, (assoc_L (++)).
Qed.

Lemma cstr_ok_app a b : cstr_ok (a ++ b) <-> cstr_ok a /\ cstr_ok b.
Proof. apply Forall_app. Qed.

Lemma join_ok sep ps : cstr_ok sep -> Forall cstr_ok ps -> cstr_ok (join sep ps).
Proof.
  intros Hs. induction 1 as [|p ps Hp Hps IH]; [constructor|]. destruct ps as [|q ps]; [done|].
  rewrite join_cons by done. by rewrite !cstr_ok_app.
Qed.

Lemma pieces_ok f : forall s old, cstr_ok s -> Forall cstr_ok (pieces f s old).
Proof.
  induction f as [|f IH]; intros s old Hs; cbn [pieces]; [by repeat constructor|].
  destruct (strstr s old); [|by repeat constructor]. constructor; [by apply Forall_take|].
  apply IH. by apply Forall_drop.
Qed.

Lemma pos_product a b : 0 <= a -> 0 < a * b -> 0 < a /\ 0 < b.
Proof.
  intros Ha Hab. assert (a <> 0) by (intros ->; lia). split; [lia|]. apply (Z.mul_pos_cancel_l a b); lia.
Qed.

(** In a block of no bytes any text but the empty one is written out of bounds. *)
Lemma memcpy_nowhere src k : 0 < k <= INT64_MAX -> memcpy [] 0 src 0 k = Undef.
Proof.
  intros Hk. unfold memcpy. rewrite u64_id by (pow2; lia). cbn [length].
  rewrite (proj2 (Z.leb_gt (0 + k) (Z.of_nat 0))) by lia. by rewrite andb_false_r.
Qed.
Lemma memcpy_nothing src : memcpy [] 0 src 0 0 = Ok [].
Proof.
  unfold memcpy. change (u64 0) with 0. cbn [length]. rewrite (proj2 (Z.leb_le (0 + 0) (Z.of_nat (length src)))) by lia.
  cbn [Z.leb Z.compare andb Z.add Z.of_nat]. done.
Qed.
Lemma replace_loop_nowhere f : forall src old new_, (length src < f)%nat -> slen src < INT64_MAX -> slen new_ <= INT64_MAX ->
  join new_ (pieces f src old) <> [] -> old <> [] -> replace_loop f [] 0 src old new_ = Undef.
Proof.
  induction f as [|f IH]; intros src old new_ Hf Hs Hn Hj Ho; [lia|]. cbn [replace_loop pieces] in *.
  destruct src as [|c src'] eqn:Esrc.
  { destruct old as [|o old]; [done|]. by cbn [strstr starts join] in Hj. }
  rewrite <- Esrc in *. destruct (strstr src old) as [k|] eqn:E.
  2: { apply memcpy_nowhere. pose proof (slen_nonneg src). lia. }
  destruct (strstr_some src old k E) as (rest & _ & _ & Hl & _). unfold slen in *.
  destruct (decide (k = 0%nat)) as [->|Hk]; [|by rewrite memcpy_nowhere by lia].
  change (Z.of_nat 0) with 0. rewrite memcpy_nothing. cbn [obind Z.add].
  destruct new_ as [|y new']; [|by rewrite memcpy_nowhere by (cbn [length] in *; lia)].
  cbn [length]. change (Z.of_nat 0) with 0. rewrite memcpy_nothing. cbn [obind].
  rewrite join_cons in Hj by apply pieces_nonempty.
  destruct old as [|o old]; [done|]. cbn [length] in *. apply IH; rewrite ?length_drop; cbn [take app length] in *; done || lia.
Qed.

(** What [lpp_str_replace] does with a non-empty pattern, by the size of the result. *)
Lemma replace_outcome (al : allocator) (s old new_ : cstr) :
  let ps := pieces (S (length s)) s old in
  let out := join new_ ps in
  cstr_ok s -> cstr_ok new_ -> old <> [] -> slen s < INT64_MAX -> slen new_ < INT64_MAX ->
  lpp_str_replace al (Some s) (Some old) (Some new_) =
    if (Z.of_nat (length ps) - 1) * (slen new_ - slen old) >? INT64_MAX then Undef
    else if slen out >? INT64_MAX then Panic "str_replace: output size overflow"
    else if slen out =? INT64_MAX then (if al 0%nat INT64_MIN then Undef else Ok SEmpty)
    else if al 0%nat (slen out + 1) then Ok (SOwned out) else Ok SEmpty.
Proof.
  intros ps out Hs Hn Ho Hsl Hnl.
  assert (old <> []) as Ho' by done.
  destruct old as [|o old']; [done|]. unfold lpp_str_replace. cbn [default id]. subst ps out.
  set (old := o :: old') in *. set (ps := pieces (S (length s)) s old) in *. set (out := join new_ ps) in *.
  rewrite count_matches_spec by (lia || done). fold ps. cbn [obind].
  pose proof (replaced_length (S (length s)) s old new_) as Hlen. fold ps out in Hlen.
  pose proof (slen_nonneg out) as Hout. pose proof (slen_nonneg s).
  set (prod := (Z.of_nat (length ps) - 1) * (slen new_ - slen old)) in *.
  assert (1 <= Z.of_nat (length ps)) as Hps.
  { pose proof (pieces_nonempty (S (length s)) s old) as Hne. fold ps in Hne. destruct ps; [done|]. simpl. lia. }
  rewrite (Z.gtb_ltb prod). destruct (Z.ltb_spec INT64_MAX prod) as [Hprod|Hprod].
  { unfold chk64 at 1, is_i64. by rewrite (proj2 (Z.leb_gt prod _)), andb_false_r by lia. }
  unfold chk64 at 1, is_i64 at 1. rewrite !(proj2 (Z.leb_le _ _)) by (pow2; lia). cbn [andb obind].
  assert ((Z.of_nat (length ps) - 1 >? 0) && (slen new_ - slen old >? 0) && (slen s >? INT64_MAX - prod)
          = (slen out >? INT64_MAX)) as ->.
  { rewrite Hlen, !Z.gtb_ltb. destruct (Z.ltb_spec INT64_MAX (slen s + prod)) as [Hbig|Hsmall].
    - assert (0 < prod) as Hpos by lia.
      assert (0 < Z.of_nat (length ps) - 1 /\ 0 < slen new_ - slen old) as [? ?]
        by (apply pos_product; [lia|exact Hpos]).
      rewrite !(proj2 (Z.ltb_lt _ _)) by lia. done.
    - rewrite (proj2 (Z.ltb_ge (INT64_MAX - prod) _)) by lia. by rewrite andb_false_r. }
  rewrite Z.gtb_ltb. destruct (Z.ltb_spec INT64_MAX (slen out)) as [|Hfit]; [done|].
  unfold chk64, is_i64. rewrite !(proj2 (Z.leb_le _ _)) by (pow2; lia). cbn [andb obind].
  rewrite (proj2 (Z.ltb_ge _ 0)) by lia. rewrite <- Hlen. rewrite u64_id by (pow2; lia). unfold or_empty.
  destruct (Z.eqb_spec (slen out) INT64_MAX) as [Emax|Hmax].
  { rewrite Emax. change (i64 (INT64_MAX + 1)) with INT64_MIN. unfold fresh_str. destruct (al 0%nat INT64_MIN); [|done].
    change (Z.to_nat INT64_MIN) with 0%nat. cbn [replicate].
    rewrite replace_loop_nowhere; [done|lia|done|lia| |done].
    fold ps out. intros E. rewrite E in Emax. discriminate. }
  rewrite i64_id by (pow2; lia).
  destruct (al 0%nat (slen out + 1)) eqn:Hal; [|unfold fresh_str; by rewrite Hal].
  rewrite (fresh_str_ok al 0 (slen out + 1) _ out 1); [done|done| |].
  - apply join_ok; [done|by apply pieces_ok].
  - apply (replace_loop_spec (S (length s)) []); try done || lia.
    fold ps out. rewrite Z2Nat.id by lia. done.
Qed.

(** C14. [lpp_str_replace] is leftmost, non-overlapping replacement, done in a block of exactly
    the right size, for every text, non-empty pattern and replacement that are C strings shorter
    than [INT64_MAX].  The text is cut at the leftmost occurrences of the pattern (the pieces
    joined with the pattern are the text, and the last piece contains no further occurrence);
    the result is the pieces joined with the replacement.  The size computed from the number of
    occurrences is the size of the result, so no copy leaves the block, shrinking and growing
    replacements included.  A refused allocation gives the empty string.  A size beyond
    [INT64_MAX] panics, but only if the growth - occurrences times difference of lengths - is
    itself an [int64_t]: beyond that the product overflows before the check that should stop it,
    which is undefined.  At a size of exactly [INT64_MAX] the check passes and the size with the
    terminator wraps round to [INT64_MIN]: an allocator that refuses such a request gives the
    empty string, any block it could give is overrun. *)
Theorem str_replace_exact (al : allocator) (s old new_ : cstr) :
  let ps := pieces (S (length s)) s old in
  let out := join new_ ps in
  cstr_ok s -> cstr_ok new_ -> old <> [] -> slen s < INT64_MAX -> slen new_ < INT64_MAX ->
  join old ps = s /\ (exists qs q, ps = qs ++ [q] /\ strstr q old = None) /\
  lpp_str_replace al (Some s) (Some old) (Some new_) =
    if (Z.of_nat (length ps) - 1) * (slen new_ - slen old) >? INT64_MAX then Undef
    else if slen out >? INT64_MAX then Panic "str_replace: output size overflow"
    else if slen out =? INT64_MAX then (if al 0%nat INT64_MIN then Undef else Ok SEmpty)
    else if al 0%nat (slen out + 1) then Ok (SOwned out) else Ok SEmpty.
Proof.
  intros ps out Hs Hn Ho Hsl Hnl. split_and!; [apply pieces_join|by apply pieces_clean; [lia|]|by apply replace_outcome].
Qed.

Lemma str_replace_exact_witness :
  lpp_str_replace (fun _ _ => true) (Some [97; 98; 97; 98; 99]) (Some [97; 98]) (Some [120; 121; 122])
  = Ok (SOwned [120; 121; 122; 120; 121; 122; 99]).
Proof.
  apply (str_replace_exact (fun _ _ => true) [97; 98; 97; 98; 99] [97; 98] [120; 121; 122]).
  - repeat constructor; lia.
  - repeat constructor; lia.
  - discriminate.
  - reflexivity.
  - reflexivity.
Defined.

(** ** Splitting *)

(** The reference: the fields between the delimiters. *)
Fixpoint fields (ch : Z) (s cur : cstr) : list cstr :=
  match s with
  | [] => [cur]
  | c :: r => if c =? ch then cur :: fields ch r [] else fields ch r (cur ++ [c])
  end.

Lemma fields_nonempty ch s : forall cur, fields ch s cur <> [].
Proof. induction s as [|c s IH]; intros cur; cbn [fields]; [done|]. by destruct (c =? ch). Qed.

Lemma fields_join ch s : forall cur, join [ch] (fields ch s cur) = cur ++ s.
Proof.
  induction s as [|c s IH]; intros cur; cbn [fields]; [by rewrite app_nil_r|].
  destruct (Z.eqb_spec c ch) as [->|].
  - rewrite join_cons by apply fields_nonempty. by rewrite IH.
  - rewrite IH. by rewrite <- (assoc_L (++)).
Qed.

Lemma fields_clean ch s : forall cur, ch ∉ cur -> Forall (fun p => ch ∉ p) (fields ch s cur).
Proof.
  induction s as [|c s IH]; intros cur Hc; cbn [fields]; [by repeat constructor|].
  destruct (Z.eqb_spec c ch); [constructor; [done|apply IH, not_elem_of_nil]|].
  apply IH. rewrite elem_of_app, list_elem_of_singleton. intros [?|?]; done.
Qed.

Lemma fields_ok ch s : forall cur, cstr_ok cur -> cstr_ok s -> Forall cstr_ok (fields ch s cur).
Proof.
  induction s as [|c s IH]; intros cur Hc Hs; cbn [fields]; [by repeat constructor|].
  apply Forall_cons in Hs as [Hc0 Hs]. destruct (c =? ch); [constructor; [done|by apply IH; [constructor|]]|].
  apply IH; [|done]. apply cstr_ok_app. split; [done|by apply Forall_singleton].
Qed.

Lemma fields_len ch s : forall cur p, p ∈ fields ch s cur -> slen p <= slen cur + slen s.
Proof.
  induction s as [|c s IH]; intros cur p Hp; cbn [fields] in Hp.
  - apply list_elem_of_singleton in Hp as ->. unfold slen. simpl. lia.
  - assert (slen (c :: s) = 1 + slen s) as Hsl by (unfold slen; simpl; lia).
    pose proof (slen_nonneg s). pose proof (slen_nonneg cur). destruct (c =? ch).
    + apply elem_of_cons in Hp as [->|Hp]; [lia|]. apply IH in Hp. change (slen []) with 0 in Hp. lia.
    + apply IH in Hp. rewrite slen_app in Hp. change (slen [c]) with 1 in Hp. lia.
Qed.

Lemma fields_count ch s : forall cur, Z.of_nat (length (fields ch s cur)) <= slen s + 1.
Proof.
  induction s as [|c s IH]; intros cur; cbn [fields]; [done|].
  assert (slen (c :: s) = 1 + slen s) as -> by (unfold slen; simpl; lia).
  destruct (c =? ch); [cbn [length]; specialize (IH [])|specialize (IH (cur ++ [c]))]; lia.
Qed.

(** What pushing a piece and giving back its birth reference costs. *)
Definition piece_events (a : Z) : list arc_ev := retains true a ++ [Release a].

Section splitting.
Context (al : allocator) (la : allocation) `{!SysAlloc la} (addr : nat -> Z) (ch : Z).
Context (Hal : forall k n, al k n = true).

Lemma emit_spec k l piece n : tight l n -> len l < n -> serves_list la n -> retain_element l = true ->
  cstr_ok piece -> slen piece < INT64_MAX ->
  wp (emit al la addr k l piece) (fun '(l', ev, ps) => tight l' n /\ retain_element l' = true /\
    elems l' = elems l ++ [addr k] /\ ev = piece_events (addr k) /\ ps = [(addr k, piece)]).
Proof.
  intros Ht Hlt Hs Hr Hp Hsz. unfold emit.
  rewrite (fresh_str_ok al k _ _ piece 1 (Hal _ _) Hp (copy_terminate piece ltac:(lia))). cbn [obind].
  rewrite push_arc_owned by (apply Ht || done).
  apply wp_bind. eapply wp_mono; [by apply (push_tight la l (addr k) n)|].
  intros [l' ev] (Ht' & He & Hr' & ->). cbn [wp]. rewrite Hr in *. done.
Qed.

Lemma tight_len l n : tight l n -> len l = Z.of_nat (length (elems l)).
Proof. intros [Hw _]. by rewrite elems_length. Qed.

Lemma split_loop_spec n s : forall cur k l, tight l n -> serves_list la n -> retain_element l = true ->
  cstr_ok cur -> cstr_ok s -> slen cur + slen s < INT64_MAX ->
  len l + Z.of_nat (length (fields ch s cur)) <= n ->
  wp (split_loop al la addr ch s cur k l) (fun '(l', ev, ps) => tight l' n /\ retain_element l' = true /\
    elems l' = elems l ++ ps.*1 /\ ps = zip (addr <$> seq k (length (fields ch s cur))) (fields ch s cur) /\
    ev = mbind piece_events (ps.*1)).
Proof.
  induction s as [|c s IH]; intros cur k l Ht Hs Hr Hc Hok Hsz Hn; cbn [split_loop fields] in *.
  - simpl in Hn. eapply wp_mono; [apply (emit_spec k l cur n); done || (unfold slen in *; simpl in *; lia)|].
    intros [[l' ev] ps] (Ht' & Hr' & He & -> & ->). cbn [wp]. split_and!; try done.
    cbn [fmap list_fmap fst]. by rewrite bind_singleton.
  - apply Forall_cons in Hok as [Hc0 Hok]. assert (slen (c :: s) = 1 + slen s) as Hsl by (unfold slen; simpl; lia).
    pose proof (slen_nonneg s). pose proof (slen_nonneg cur). destruct (c =? ch).
    + cbn [length] in Hn. apply wp_bind. eapply wp_mono; [apply (emit_spec k l cur n); done || lia|].
      intros [[l1 ev1] ps1] (Ht1 & Hr1 & He1 & -> & ->). apply wp_bind.
      pose proof (tight_len _ _ Ht) as Hl0. pose proof (tight_len _ _ Ht1) as Hl1.
      rewrite He1, length_app in Hl1. simpl in Hl1.
      eapply wp_mono; [apply (IH [] (S k) l1); try done; [constructor|change (slen []) with 0; lia|lia]|].
      intros [[l2 ev2] ps2] (Ht2 & Hr2 & He2 & Hps & ->). cbn [wp]. split_and!; try done.
      * rewrite He2, He1, <- (assoc_L (++)). done.
      * cbn [length seq fmap list_fmap zip_with app]. by rewrite Hps at 1.
    + apply IH; try done.
      * apply cstr_ok_app. split; [done|by apply Forall_singleton].
      * rewrite slen_app. change (slen [c]) with 1. lia.
Qed.
End splitting.

Lemma zip_fst_snd {A B} (xs : list A) (ys : list B) : length xs = length ys ->
  (zip xs ys).*1 = xs /\ (zip xs ys).*2 = ys.
Proof. intros H. split; [by rewrite fst_zip by lia|by rewrite snd_zip by lia]. Qed.

Lemma piece_events_balance p xs : arc_like p = true ->
  occ (Retain p) (mbind piece_events xs) = occ (Release p) (mbind piece_events xs).
Proof.
  intros Hp. induction xs as [|x xs IH]; [done|]. rewrite bind_cons, !occ_app, IH. f_equal.
  unfold piece_events. rewrite !occ_app. destruct (occ_retains p x Hp) as [-> ->].
  autorewrite with occ. repeat case_decide; simplify_eq; done.
Qed.

(** [lpp_str_split] cuts a text into its fields: with memory for them, the call returns a
    well-formed list of references to fresh strings; the fields joined with the delimiter are
    the text again, none of them contains the delimiter, and for every field the reference
    taken by the list and the birth reference given back cancel, so the list is left as its
    only owner. *)
Theorem str_split_fields (al : allocator) (la : allocation) `{!SysAlloc la} (addr : nat -> Z) (s : cstr) (delim : Z) :
  (forall k n, al k n = true) -> serves_list la (slen s + 1) ->
  cstr_ok s -> s <> [] -> slen s < INT64_MAX ->
  exists l ev ps, lpp_str_split al la addr true (Some s) delim = Ok (l, ev, ps) /\ list_wf l /\
    elems l = ps.*1 /\ join [u8 delim] ps.*2 = s /\ Forall (fun p => u8 delim ∉ p) ps.*2 /\
    forall p, arc_like p = true -> occ (Retain p) ev = occ (Release p) ev.
Proof.
  intros Hal Hsv Hok Hne Hsz. set (n := slen s + 1) in *. set (fs := fields (u8 delim) s []).
  destruct (new_tight true n (mk_list [] 0 0 true true)) as (Ht & He & Hr & Hl0);
    [unfold n; pose proof (slen_nonneg s); lia|done|].
  pose proof (fields_count (u8 delim) s []) as Hcount.
  destruct (wp_inv _ _ (split_loop_spec al la addr (u8 delim) Hal n s [] 0 (mk_list [] 0 0 true true) Ht Hsv Hr
    ltac:(constructor) Hok ltac:(change (slen []) with 0; lia) ltac:(unfold n; rewrite Hl0; lia)))
    as ([[l ev] ps] & Hrun & (Hw & _) & _ & Hel & Hps & ->).
  destruct (zip_fst_snd (addr <$> seq 0 (length fs)) fs) as [Hfst Hsnd]; [by rewrite length_fmap, length_seq|].
  exists l. eexists. exists ps. split; [|split_and!].
  - unfold lpp_str_split. cbn [lpp_list_new_arc lpp_list_new_with_ownership obind].
    destruct s; [done|]. exact Hrun.
  - done.
  - by rewrite Hel, He.
  - rewrite Hps. unfold fs in Hsnd. rewrite Hsnd. by rewrite fields_join.
  - rewrite Hps. unfold fs in Hsnd. rewrite Hsnd. apply fields_clean, not_elem_of_nil.
  - intros p Hp. by apply piece_events_balance.
Qed.

Lemma str_split_fields_witness :
  exists l ev ps, lpp_str_split (fun _ _ => true) small_alloc (fun k => 4096 + 32 * Z.of_nat k) true
      (Some [97; 44; 98; 98; 44]) 44 = Ok (l, ev, ps) /\ list_wf l /\
    elems l = ps.*1 /\ join [u8 44] ps.*2 = [97; 44; 98; 98; 44] /\ Forall (fun p => u8 44 ∉ p) ps.*2 /\
    forall p, arc_like p = true -> occ (Retain p) ev = occ (Release p) ev.
Proof.
  apply (str_split_fields (fun _ _ => true) small_alloc (fun k => 4096 + 32 * Z.of_nat k) [97; 44; 98; 98; 44] 44).
  - reflexivity.
  - intros c Hc. apply Z.leb_le. change (Z.max 8 (2 * (slen [97; 44; 98; 98; 44] + 1))) with 12 in Hc. simpl. lia.
  - repeat constructor; lia.
  - discriminate.
  - reflexivity.
Defined.

(** ** Numbers and strings *)

Lemma dec_value_digits f : forall v acc r, f <> O -> 0 <= v < 10 ^ Z.of_nat f ->
  dec_value (digits 10 f v ++ r) acc = dec_value r (acc * 10 ^ Z.of_nat (length (digits 10 f v)) + v).
Proof.
  induction f as [|f IH]; intros v acc r Hf Hv; [done|]. cbn [digits]. split_test.
  - cbn [app dec_value length]. destruct (digit_char_dec v) as [-> ->]; [lia|].
    change (10 ^ Z.of_nat 1) with 10. done.
  - destruct f as [|f]; [change (10 ^ Z.of_nat 1) with 10 in Hv; lia|].
    rewrite Nat2Z.inj_succ, Z.pow_succ_r in Hv by lia.
    rewrite <- app_assoc, IH; [|done|split; [apply Z.div_pos; lia|apply Z.div_lt_upper_bound; lia]].
    cbn [app dec_value].
    destruct (digit_char_dec (v mod 10)) as [-> ->]; [apply Z.mod_pos_bound; lia|].
    f_equal. rewrite length_app, Nat2Z.inj_add, Z.pow_add_r by lia. change (10 ^ Z.of_nat (length [_])) with 10.
    generalize (Z.div_mod v 10 ltac:(done)). generalize (v / 10) (v mod 10). intros q m ->. ring.
Qed.

Lemma digits_value v : 0 <= v <= 2 ^ 63 -> dec_value (digits 10 20 v) 0 = v.
Proof.
  intros Hv. pose proof (dec_value_digits 20 v 0 [] ltac:(done)) as H. rewrite app_nil_r in H.
  rewrite H; [cbn [dec_value]; lia|]. change (10 ^ Z.of_nat 20) with 100000000000000000000. pow2. lia.
Qed.

(** The first character of a printed number is a digit. *)
Lemma digits_head v : 0 <= v -> exists c r, digits 10 20 v = c :: r /\ 48 <= c <= 57.
Proof.
  intros Hv. pose proof (digits_range 10 20 v ltac:(lia) Hv) as Hd.
  pose proof (digits_nonempty 10 20 v ltac:(done)) as Hn. destruct (digits 10 20 v) as [|c r]; [done|].
  exists c, r. split; [done|]. apply Forall_cons in Hd as [(d & Hd & ->) _]. unfold digit_char.
  rewrite (proj2 (Z.ltb_lt _ _)) by lia. lia.
Qed.

Lemma strtoll_digits v : 0 <= v <= INT64_MAX -> strtoll10 (digits 10 20 v) = v.
Proof.
  intros Hv. destruct (digits_head v ltac:(lia)) as (c & r & Hd & Hc). unfold strtoll10. rewrite Hd.
  cbn [skip_space]. unfold isspace. rewrite (proj2 (Z.eqb_neq c 32)), (proj2 (Z.leb_gt c 13)) by lia.
  rewrite andb_false_r. cbn [orb].
  assert (dec_value (c :: r) 0 = v) as Hval by (rewrite <- Hd; apply digits_value; pow2; lia).
  assert (saturate v = v) as Hsat by (unfold saturate; pow2; lia).
  destruct (decide (c = 45)); [lia|]. destruct (decide (c = 43)); [lia|].
  transitivity (saturate (dec_value (c :: r) 0)); [|by rewrite Hval].
  destruct c as [|c|c]; try done. repeat (destruct c as [c|c|]; try done; try lia).
Qed.

Lemma strtoll_neg v : INT64_MIN <= v < 0 -> strtoll10 (45 :: digits 10 20 (- v)) = v.
Proof.
  intros Hv. unfold strtoll10. cbn [skip_space isspace]. change (isspace 45) with false. cbv iota.
  rewrite digits_value by (pow2; lia). unfold saturate. pow2. lia.
Qed.

Lemma copied_ok al s : al 0%nat (slen s + 1) = true -> cstr_ok s -> slen s < INT64_MAX -> copied al s = Ok (SOwned s).
Proof.
  intros Hal Hs Hl. unfold copied, or_empty. by rewrite (fresh_str_ok al 0 _ _ s 1 Hal Hs (copy_with_nul s Hl)).
Qed.

Lemma digits_ok v : 0 <= v -> cstr_ok (digits 10 20 v).
Proof.
  intros Hv. eapply Forall_weaken; [apply (digits_range 10 20 v); lia|]. cbn.
  intros c (d & Hd & ->). unfold digit_char. rewrite (proj2 (Z.ltb_lt _ _)) by lia. lia.
Qed.

Lemma fmt_lld_length v : (length (fmt_lld v) <= 21)%nat.
Proof. unfold fmt_lld. destruct (v <? 0); cbn [length]; [pose proof (digits_length 10 20 (- v))|pose proof (digits_length 10 20 v)]; lia. Qed.

Lemma fmt_lld_ok v : cstr_ok (fmt_lld v).
Proof. unfold fmt_lld. destruct (Z.ltb_spec v 0); [apply Forall_cons; split; [lia|]|]; apply digits_ok; lia. Qed.

(** Printing an integer and reading it back is the identity on all of [int64_t]:
    [lpp_str_to_int] inverts [lpp_int_to_str], [INT64_MIN] included, and the printed text fits
    the 32-byte buffer. *)
Theorem int_str_roundtrip (al : allocator) (v : Z) :
  INT64_MIN <= v <= INT64_MAX -> (forall k n, al k n = true) ->
  exists s, lpp_int_to_str al v = Ok (SOwned s) /\ slen s <= 21 /\ lpp_str_to_int (Some s) = v.
Proof.
  intros Hv Hal. exists (fmt_lld v).
  pose proof (fmt_lld_length v) as Hlen. pose proof (fmt_lld_ok v) as Hok.
  split_and!.
  - unfold lpp_int_to_str, snprintf32. rewrite take_ge by lia. apply copied_ok; [done|done|]. unfold slen. pow2. lia.
  - unfold slen. lia.
  - unfold lpp_str_to_int, fmt_lld. destruct (Z.ltb_spec v 0); [apply strtoll_neg|apply strtoll_digits]; lia.
Qed.

Lemma int_str_roundtrip_witness :
  exists s, lpp_int_to_str (fun _ _ => true) INT64_MIN = Ok (SOwned s) /\ slen s <= 21 /\
    lpp_str_to_int (Some s) = INT64_MIN.
Proof. apply (int_str_roundtrip (fun _ _ => true) INT64_MIN); [vm_compute; split; discriminate|reflexivity]. Defined.

(** ** Powers *)

(** The number of rounds of the squaring loop. *)
Definition rounds (e : Z) : Z := Z.log2 e + 1.

Lemma rounds_half e : 1 < e -> rounds (Z.shiftr e 1) = rounds e - 1.
Proof.
  intros He. unfold rounds. rewrite Z.log2_shiftr by lia.
  assert (1 <= Z.log2 e) by (change 1 with (Z.log2 2); apply Z.log2_le_mono; lia). lia.
Qed.


Lemma odd_land e : Z.land e 1 = e mod 2.
Proof. exact (Z.land_ones e 1 ltac:(lia)). Qed.

(** One round: the exponent splits into its low bit and the rest. *)
Lemma pow_split b e : 0 <= e -> b ^ e = b ^ (e mod 2) * (b * b) ^ (Z.shiftr e 1).
Proof.
  intros He. rewrite Z.shiftr_div_pow2 by lia. change (2 ^ 1) with 2.
  assert (0 <= e / 2) by (apply Z.div_pos; lia). pose proof (Z.mod_pos_bound e 2 ltac:(lia)).
  replace (b * b) with (b ^ 2) by ring. rewrite <- Z.pow_mul_r, <- Z.pow_add_r by lia.
  f_equal. pose proof (Z.div_mod e 2 ltac:(lia)). lia.
Qed.

Lemma abs_pow_le a e f : 0 <= e <= f -> Z.abs a ^ e <= Z.max 1 (Z.abs a ^ f).
Proof.
  intros He. destruct (decide (a = 0)) as [->|].
  - destruct (decide (e = 0)) as [->|]; [change (Z.abs 0 ^ 0) with 1; lia|]. simpl Z.abs. rewrite Z.pow_0_l by lia. lia.
  - pose proof (Z.pow_le_mono_r (Z.abs a) e f ltac:(lia) ltac:(lia)). lia.
Qed.

Lemma le_mul_pos x y : 0 <= x -> 0 < y -> x <= x * y.
Proof. intros Hx Hy. rewrite <- (Z.mul_1_r x) at 1. apply Z.mul_le_mono_nonneg_l; lia. Qed.

Lemma pow_loop_spec fuel : forall b e r,
  0 <= e -> (e = 0 \/ rounds e < Z.of_nat fuel) -> (0 < fuel)%nat -> Z.abs r * Z.abs b ^ e <= INT64_MAX ->
  Z.abs r <= INT64_MAX ->
  (e = 0 \/ Z.abs b ^ (2 ^ rounds e) <= INT64_MAX) -> pow_loop fuel b e r = Ok (r * b ^ e).
Proof.
  induction fuel as [|f IH]; intros b e r He Hf Hf0 Hre Hr Hb; [lia|]. cbn [pow_loop].
  rewrite Z.gtb_ltb. destruct (Z.ltb_spec 0 e) as [Hpos|]; [|assert (e = 0) as -> by lia; f_equal; ring].
  destruct Hf as [?|Hf]; [lia|]. destruct Hb as [?|Hb]; [lia|].
  assert (0 <= Z.log2 e) by apply Z.log2_nonneg.
  assert (Z.abs b * Z.abs b <= INT64_MAX) as Hbb.
  { pose proof (abs_pow_le b 2 (2 ^ rounds e)) as Hle. rewrite Z.pow_2_r in Hle.
    assert (2 <= 2 ^ rounds e) by (change 2 with (2 ^ 1) at 1; apply Z.pow_le_mono_r; unfold rounds; lia).
    specialize (Hle ltac:(lia)). pow2. lia. }
  pose proof (Z.mod_pos_bound e 2 ltac:(lia)) as Hm. rewrite odd_land.
  assert (Z.abs (r * b ^ (e mod 2)) * Z.abs (b * b) ^ (Z.shiftr e 1) <= INT64_MAX) as Hre'.
  { rewrite Z.abs_mul, Z.abs_pow, Z.abs_mul, <- Z.mul_assoc, <- pow_split by lia. done. }
  assert (0 <= Z.shiftr e 1) as He1 by (rewrite Z.shiftr_nonneg; lia).
  assert (Z.abs (r * b ^ (e mod 2)) <= INT64_MAX) as Hr'.
  { destruct (decide (b = 0)) as [->|].
    - destruct (decide (e mod 2 = 0)) as [->|]; [rewrite Z.pow_0_r; lia|]. rewrite Z.pow_0_l by lia. pow2. lia.
    - eapply Z.le_trans; [|exact Hre']. apply le_mul_pos; [apply Z.abs_nonneg|].
      apply Z.pow_pos_nonneg; [|done]. apply Z.abs_pos, Z.neq_mul_0. done. }
  assert ((if negb (e mod 2 =? 0) then chk64 (r * b) else Ok r) = Ok (r * b ^ (e mod 2))) as ->.
  { destruct (Z.eqb_spec (e mod 2) 0) as [E|E]; cbn [negb].
    - rewrite E, Z.pow_0_r. f_equal. ring.
    - replace (e mod 2) with 1 in * by lia. rewrite Z.pow_1_r in *. by apply chk64_abs. }
  cbn [obind]. rewrite (chk64_abs (b * b)) by (rewrite Z.abs_mul; done). cbn [obind].
  rewrite IH; [by rewrite <- Z.mul_assoc, <- pow_split by lia|done| |unfold rounds in Hf; lia|done|done|].
  - destruct (decide (e = 1)) as [->|]; [by left|]. right. rewrite rounds_half by lia. lia.
  - destruct (decide (e = 1)) as [->|]; [by left|]. right. rewrite rounds_half by lia.
    rewrite Z.abs_mul. replace (Z.abs b * Z.abs b) with (Z.abs b ^ 2) by ring.
    rewrite <- Z.pow_mul_r by (apply Z.pow_nonneg || lia; lia). rewrite <- Z.pow_succ_r by (unfold rounds; lia).
    replace (Z.succ (rounds e - 1)) with (rounds e) by lia. done.
Qed.

Lemma pow_loop_undef fuel : forall b e r,
  0 < e -> rounds e < Z.of_nat fuel -> INT64_MAX < Z.abs b ^ (2 ^ rounds e) -> pow_loop fuel b e r = Undef.
Proof.
  induction fuel as [|f IH]; intros b e r He Hf Hb.
  { pose proof (Z.log2_nonneg e). unfold rounds in Hf. lia. }
  cbn [pow_loop]. rewrite Z.gtb_ltb, (proj2 (Z.ltb_lt 0 e)) by done.
  assert (forall z, chk64 z = Ok z \/ chk64 z = Undef) as Hchk by (intros z; unfold chk64; destruct (is_i64 z); auto).
  assert (exists r', (if negb (Z.land e 1 =? 0) then chk64 (r * b) else Ok r) = Ok r' \/
    (if negb (Z.land e 1 =? 0) then chk64 (r * b) else Ok r) = Undef) as [r' [-> | ->]]; [|cbn [obind]|done].
  { destruct (negb _); [destruct (Hchk (r * b))|]; eauto. }
  destruct (Hchk (b * b)) as [Hbb|Hbb]; rewrite Hbb; [cbn [obind]|done].
  destruct (decide (e = 1)) as [->|Hne].
  - exfalso. change (2 ^ rounds 1) with 2 in Hb. rewrite Z.pow_2_r, <- Z.abs_mul in Hb.
    rewrite chk64_bad in Hbb; [done|]. rewrite Z.abs_eq in Hb by nia. done.
  - pose proof (Z.log2_nonneg e). apply IH.
    + rewrite Z.shiftr_div_pow2 by lia. change (2 ^ 1) with 2. apply Z.div_str_pos. lia.
    + rewrite rounds_half by lia. lia.
    + rewrite rounds_half, Z.abs_mul by lia. replace (Z.abs b * Z.abs b) with (Z.abs b ^ 2) by ring.
      rewrite <- Z.pow_mul_r by (apply Z.pow_nonneg || lia; lia). rewrite <- Z.pow_succ_r by (unfold rounds; lia).
      by replace (Z.succ (rounds e - 1)) with (rounds e) by lia.
Qed.

(** [lpp_int_pow] terminates within 64 rounds and is exact, or undefined, for a reason the
    signature does not show: the loop squares [base] once more than it needs, so the call is
    defined exactly when [|base|^(2^k)] fits in [int64_t], where [k] is the bit length of the
    exponent, and then it returns [base^exp].  In particular [2^40], which fits easily, is
    computed with a signed overflow. *)
Theorem int_pow_exact_or_undef (base exp : Z) :
  0 < exp <= INT64_MAX ->
  lpp_int_pow base exp = (if Z.abs base ^ (2 ^ rounds exp) <=? INT64_MAX then Ok (base ^ exp) else Undef) /\
  lpp_int_pow base 0 = Ok 1 /\ lpp_int_pow 2 40 = Undef /\ is_i64 (2 ^ 40) = true.
Proof.
  intros He. split; [|split_and!; reflexivity]. unfold lpp_int_pow.
  assert (rounds exp < Z.of_nat 64) as Hf.
  { unfold rounds. assert (Z.log2 exp <= Z.log2 INT64_MAX) by (apply Z.log2_le_mono; lia).
    change (Z.log2 INT64_MAX) with 62 in *. lia. }
  destruct (Z.leb_spec (Z.abs base ^ (2 ^ rounds exp)) INT64_MAX) as [Hfit|Hbig].
  - rewrite pow_loop_spec; [by rewrite Z.mul_1_l|lia|by right|lia| |pow2; lia|by right].
    pose proof (abs_pow_le base exp (2 ^ rounds exp)) as Hle.
    assert (exp < 2 ^ rounds exp) by (unfold rounds; apply Z.log2_spec; lia).
    specialize (Hle ltac:(lia)). pow2. lia.
  - apply pow_loop_undef; [lia|done|done].
Qed.

Lemma int_pow_exact_or_undef_witness :
  lpp_int_pow (-3) 5 = (if Z.abs (-3) ^ (2 ^ rounds 5) <=? INT64_MAX then Ok ((-3) ^ 5) else Undef).
Proof. apply (int_pow_exact_or_undef (-3) 5). vm_compute. split; [reflexivity|discriminate]. Defined.

(** ** The random generator *)

(** A left shift-and-xor step is injective at 0: its lowest set bit survives. *)
Lemma xor_shl_nonzero x k : 0 < k -> 0 < x < 2 ^ 64 -> Z.lxor x (u64 (Z.shiftl x k)) <> 0.
Proof.
  intros Hk Hx H. apply Z.lxor_eq in H.
  assert (forall n i, 0 <= i < Z.of_nat n -> Z.testbit x i = false) as Hz.
  { induction n as [|n IH]; intros i Hi; [lia|].
    rewrite H. unfold u64. rewrite uwrap_testbit by lia. rewrite Z.shiftl_spec by lia.
    destruct (Z.ltb_spec i 64); [|done]. cbn [andb].
    destruct (Z.lt_ge_cases (i - k) 0); [by apply Z.testbit_neg_r|]. apply IH. lia. }
  assert (x = 0); [|lia]. apply Z.bits_inj'. intros i Hi. rewrite Z.bits_0. apply (Hz (Z.to_nat (i + 1))). lia.
Qed.

(** A right step is injective at 0: its highest set bit survives. *)
Lemma xor_shr_nonzero x k : 0 < k -> 0 < x < 2 ^ 64 -> Z.lxor x (Z.shiftr x k) <> 0.
Proof.
  intros Hk Hx H. apply Z.lxor_eq in H. pose proof (Z.bit_log2 x ltac:(lia)) as Hb.
  pose proof (Z.log2_nonneg x).
  assert (Z.testbit (Z.shiftr x k) (Z.log2 x) = true) as Hb' by (by rewrite <- H).
  rewrite Z.shiftr_spec, Z.bits_above_log2 in Hb' by lia. done.
Qed.

Lemma lxor_u64_range x y : 0 <= x < 2 ^ 64 -> 0 <= y < 2 ^ 64 -> Z.lxor x y <> 0 -> 0 < Z.lxor x y < 2 ^ 64.
Proof. intros Hx Hy Hn. pose proof (lxor_bound 64 x y Hx Hy ltac:(lia)). lia. Qed.

Lemma xorshift_range x : 0 < x < 2 ^ 64 -> 0 < xorshift x < 2 ^ 64.
Proof.
  intros Hx. unfold xorshift.
  set (a := Z.lxor x (u64 (Z.shiftl x 13))).
  assert (0 < a < 2 ^ 64) as Ha.
  { apply lxor_u64_range; [lia|apply u64_range|by apply xor_shl_nonzero]. }
  set (b := Z.lxor a (Z.shiftr a 7)).
  assert (0 < b < 2 ^ 64) as Hb.
  { apply lxor_u64_range; [lia| |by apply xor_shr_nonzero]. rewrite Z.shiftr_div_pow2 by lia.
    split; [apply Z.div_pos; lia|]. apply Z.div_lt_upper_bound; lia. }
  apply lxor_u64_range; [lia|apply u64_range|by apply xor_shl_nonzero].
Qed.

Lemma land_max_range s : 0 <= s -> 0 <= Z.land s 0x7FFFFFFFFFFFFFFF <= INT64_MAX.
Proof.
  intros Hs. change 0x7FFFFFFFFFFFFFFF with (Z.ones 63). rewrite Z.land_ones by lia.
  pose proof (Z.mod_pos_bound s (2 ^ 63) eq_refl). pow2. lia.
Qed.

(** The generator never locks up and the ranged draw stays in range: from any state (the
    clock does not read the one magic constant), the next state is non-zero and fits 64 bits;
    the number drawn is in [0, 2^63), the ranged one in [lo, hi) whenever the span is
    representable.  A span beyond [INT64_MAX] - [lpp_random_range(INT64_MIN, INT64_MAX)] - is a
    signed overflow. *)
Theorem random_in_range (now state lo hi : Z) :
  0 <= state < 2 ^ 64 -> u64 now <> 0x1234567890ABCDEF ->
  INT64_MIN <= lo -> lo < hi -> hi <= INT64_MAX ->
  let '(r, state') := lpp_random now state in
  0 <= r <= INT64_MAX /\ 0 < state' < 2 ^ 64 /\
  lpp_random_range now state lo hi = (if hi - lo <=? INT64_MAX then Ok (lo + Z.rem r (hi - lo), state') else Undef) /\
  (hi - lo <= INT64_MAX -> lo <= lo + Z.rem r (hi - lo) < hi).
Proof.
  intros Hs Hnow Hlo Hlt Hhi. unfold lpp_random_range. rewrite Z.geb_leb, (proj2 (Z.leb_gt hi lo)) by lia.
  destruct (lpp_random now state) as [r s'] eqn:E. unfold lpp_random in E.
  set (s0 := if state =? 0 then _ else _) in E.
  assert (0 < s0 < 2 ^ 64) as Hs0.
  { unfold s0. destruct (Z.eqb_spec state 0); [|lia].
    apply lxor_u64_range; [apply u64_range|pow2; lia|]. intros H. apply Z.lxor_eq in H. done. }
  pose proof (xorshift_range s0 Hs0) as Hx. injection E as <- <-.
  pose proof (land_max_range (xorshift s0) ltac:(lia)) as Hr.
  split_and!; try lia.
  - destruct (Z.leb_spec (hi - lo) INT64_MAX); [rewrite chk64_abs by lia|rewrite chk64_bad by lia]; done.
  - intros Hsp. pose proof (Z.rem_bound_pos (Z.land (xorshift s0) 9223372036854775807) (hi - lo) ltac:(lia) ltac:(lia)). lia.
Qed.

Lemma random_in_range_witness :
  let '(r, state') := lpp_random 1700000000 0 in
  0 <= r <= INT64_MAX /\ 0 < state' < 2 ^ 64 /\
  lpp_random_range 1700000000 0 (-5) 6 =
    (if 6 - -5 <=? INT64_MAX then Ok (-5 + Z.rem r (6 - -5), state') else Undef) /\
  (6 - -5 <= INT64_MAX -> -5 <= -5 + Z.rem r (6 - -5) < 6).
Proof. apply (random_in_range 1700000000 0 (-5) 6); vm_compute; try (split; congruence); congruence. Defined.

(** ** The copying builtins *)

Lemma fill_two al a b : al 0%nat (slen a + slen b + 1) = true -> cstr_ok a -> cstr_ok b ->
  slen a + slen b < INT64_MAX -> lpp_str_concat al (Some a) (Some b) = Ok (SOwned (a ++ b)).
Proof.
  intros Hal Ha Hb Hl. unfold lpp_str_concat, or_empty. cbn [default id].
  rewrite (fresh_str_ok al 0 _ _ (a ++ b) 1 Hal); [done|by apply cstr_ok_app|]. unfold slen in *.
  replace (Z.to_nat _) with (length a + (length b + 1))%nat by lia.
  rewrite memcpy_start by lia. cbn [obind]. rewrite take_ge by lia.
  rewrite memcpy_append by (done || lia). cbn [obind]. rewrite take_ge by lia.
  apply wr_nul. rewrite length_app. lia.
Qed.

Lemma substr_copy (s : cstr) (st n : nat) : (st + n <= length s)%nat -> slen s <= INT64_MAX ->
  (let! out := memcpy (replicate (Z.to_nat (Z.of_nat n + 1)) 0) 0 s (Z.of_nat st) (Z.of_nat n) in wr out (Z.of_nat n) 0)
  = Ok (take n (drop st s) ++ replicate 1 0).
Proof.
  intros Hn Hs. unfold slen in Hs. rewrite memcpy_in by (rewrite ?length_replicate; pow2; lia).
  cbn [obind]. rewrite take_0, Nat2Z.id. cbn [app].
  replace (drop _ (replicate _ 0)) with (replicate 1 0).
  - apply wr_nul. rewrite length_take, length_drop. lia.
  - rewrite drop_replicate. f_equal. lia.
Qed.

Lemma repeat_loop_spec s (k : nat) : slen s <= INT64_MAX -> forall (i r : nat) w,
  length w = (i * length s)%nat ->
  repeat_loop k (Z.of_nat i) (w ++ replicate (k * length s + r) 0) s
  = Ok ((w ++ concat (replicate k s)) ++ replicate r 0).
Proof.
  intros Hs. induction k as [|k IH]; intros i r w Hw; cbn [repeat_loop replicate concat Nat.mul Nat.add].
  - by rewrite app_nil_r.
  - rewrite <- Nat.add_assoc. unfold slen in *. rewrite memcpy_append by lia. cbn [obind].
    rewrite take_ge by lia. replace (Z.of_nat i + 1) with (Z.of_nat (S i)) by lia.
    rewrite IH by (rewrite length_app; lia). by rewrite <- (assoc_L (++) w s).
Qed.

Lemma concat_replicate_length {A} (s : list A) k : length (concat (replicate k s)) = (k * length s)%nat.
Proof. induction k as [|k IH]; [done|]. cbn [replicate concat]. rewrite length_app, IH. done. Qed.

Lemma repeat_ok al s n : cstr_ok s -> s <> [] -> 0 < n -> slen s * n < INT64_MAX ->
  al 0%nat (slen s * n + 1) = true ->
  lpp_str_repeat al (Some s) n = Ok (SOwned (concat (replicate (Z.to_nat n) s))).
Proof.
  intros Hs Hne Hn Hsz Hal. assert (0 < slen s) as Hpos by (destruct s; [done|unfold slen; simpl; lia]).
  unfold lpp_str_repeat. rewrite (proj2 (Z.leb_gt n 0)), (proj2 (Z.eqb_neq _ 0)) by lia.
  rewrite Z.gtb_ltb, (proj2 (Z.ltb_ge (INT64_MAX / n) (slen s))).
  2: { apply Z.div_le_lower_bound; lia. }
  rewrite (u64_id (slen s * n)) by (pow2; nia). rewrite i64_id by (pow2; nia). unfold or_empty.
  rewrite (fresh_str_ok al 0 _ _ (concat (replicate (Z.to_nat n) s)) 1 Hal); [done| |].
  { apply Forall_concat, Forall_replicate. done. }
  replace (Z.to_nat (slen s * n + 1)) with (Z.to_nat n * length s + 1)%nat by (unfold slen in *; nia).
  pose proof (repeat_loop_spec s (Z.to_nat n) ltac:(nia) 0 1 [] eq_refl) as Hl. cbn [app] in Hl.
  change (Z.of_nat 0) with 0 in Hl. rewrite Hl. cbn [obind]. apply wr_nul.
  rewrite concat_replicate_length. unfold slen. nia.
Qed.

Lemma skip_ws_spec s : exists p, s = p ++ skip_ws s /\ Forall (fun c => ws c = true) p /\
  forall c r, skip_ws s = c :: r -> ws c = false.
Proof.
  induction s as [|c s (p & Hp & Hw & Hh)]; cbn [skip_ws]; [by exists []|].
  destruct (ws c) eqn:E.
  - exists (c :: p). split_and!; [by rewrite Hp at 1|by constructor|done].
  - exists []. split_and!; [done|constructor|]. by intros ? ? [= <- <-].
Qed.

Lemma rstrip_spec s : exists q, s = rstrip s ++ q /\ Forall (fun c => ws c = true) q /\
  forall c r, rstrip s = r ++ [c] -> ws c = false.
Proof.
  destruct (skip_ws_spec (reverse s)) as (p & Hp & Hw & Hh). exists (reverse p). unfold rstrip. split_and!.
  - rewrite <- reverse_app, <- Hp. by rewrite reverse_involutive.
  - by rewrite reverse_Permutation.
  - intros c r Hr. apply (Hh c (reverse r)). apply (f_equal reverse) in Hr.
    by rewrite reverse_involutive, reverse_app in Hr.
Qed.

(** [t] is [s] without its outer white space. *)
Definition trimmed (s t : cstr) : Prop :=
  exists p q, s = p ++ t ++ q /\ Forall (fun c => ws c = true) p /\ Forall (fun c => ws c = true) q /\
    (forall c r, t = c :: r -> ws c = false) /\ (forall c r, t = r ++ [c] -> ws c = false).

Lemma trim_spec s : trimmed s (rstrip (skip_ws s)).
Proof.
  destruct (skip_ws_spec s) as (p & Hp & Hpw & Hh). destruct (rstrip_spec (skip_ws s)) as (q & Hq & Hqw & Ht).
  exists p, q. split_and!; try done.
  - by rewrite <- Hq.
  - intros c r Hr. apply (Hh c (r ++ q)). rewrite Hq, Hr. done.
Qed.

Lemma trimmed_ok s t : trimmed s t -> cstr_ok s -> cstr_ok t /\ slen t <= slen s.
Proof.
  intros (p & q & -> & _) Hok. apply cstr_ok_app in Hok as [_ [Ht _]%cstr_ok_app].
  rewrite !slen_app. pose proof (slen_nonneg p). pose proof (slen_nonneg q). split; [done|lia].
Qed.

(** The copying builtins compute what their names say and stay inside their blocks, for
    all lengths: concatenation, substring (a negative or too long length means "to the end", a
    negative start means 0, a start past the end gives the empty string), trimming (the result
    is the text without a prefix and a suffix of white space, and it neither begins nor ends
    with white space) and repetition. *)
Theorem str_copies_exact (al : allocator) (a b : cstr) (start n : Z) :
  (forall k m, al k m = true) -> cstr_ok a -> cstr_ok b -> slen a + slen b < INT64_MAX ->
  lpp_str_concat al (Some a) (Some b) = Ok (SOwned (a ++ b)) /\
  lpp_str_substr al (Some a) start n =
    (if start >? slen a then Ok SEmpty
     else let rest := drop (Z.to_nat start) a in
          Ok (SOwned (if n <? 0 then rest else take (Z.to_nat n) rest))) /\
  (exists t, lpp_str_trim al (Some a) = Ok (SOwned t) /\ trimmed a t) /\
  (a <> [] -> 0 < n -> slen a * n < INT64_MAX ->
     lpp_str_repeat al (Some a) n = Ok (SOwned (concat (replicate (Z.to_nat n) a)))).
Proof.
  intros Hal Ha Hb Hl. pose proof (slen_nonneg a) as Hna. pose proof (slen_nonneg b) as Hnb. split_and!.
  - by apply fill_two.
  - unfold lpp_str_substr. cbn [default id]. set (st := if start <? 0 then 0 else start).
    assert (Z.to_nat start = Z.to_nat st) as -> by (unfold st; destruct (Z.ltb_spec start 0); lia).
    assert ((start >? slen a) = (st >? slen a)) as ->.
    { unfold st. rewrite !Z.gtb_ltb. destruct (Z.ltb_spec start 0); [|done].
      rewrite !(proj2 (Z.ltb_ge _ _)) by lia. done. }
    assert (0 <= st) as Hst by (unfold st; destruct (Z.ltb_spec start 0); lia).
    rewrite Z.gtb_ltb. destruct (Z.ltb_spec (slen a) st); [done|]. unfold slen in *.
    set (cp := if (n <? 0) || (n >? Z.of_nat (length a) - st) then Z.of_nat (length a) - st else n).
    assert (0 <= cp <= Z.of_nat (length a) - st) as Hcp.
    { unfold cp. rewrite Z.gtb_ltb. destruct (Z.ltb_spec n 0), (Z.ltb_spec (Z.of_nat (length a) - st) n); cbn [orb]; lia. }
    unfold or_empty. rewrite (fresh_str_ok al 0 _ _ (take (Z.to_nat cp) (drop (Z.to_nat st) a)) 1); [|done| |].
    + cbn [obind]. do 2 f_equal. unfold cp. rewrite Z.gtb_ltb.
      destruct (Z.ltb_spec n 0); cbn [orb]; [rewrite take_ge; [done|rewrite length_drop; lia]|].
      destruct (Z.ltb_spec (Z.of_nat (length a) - st) n); [|done].
      rewrite !take_ge; [done|rewrite length_drop; lia..].
    + by apply Forall_take, Forall_drop.
    + pose proof (substr_copy a (Z.to_nat st) (Z.to_nat cp)) as Hc. unfold slen in Hc.
      rewrite !Z2Nat.id in Hc by lia. apply Hc; lia.
  - pose proof (trim_spec a) as Ht. exists (rstrip (skip_ws a)). split; [|done].
    destruct (trimmed_ok a _ Ht Ha) as [Hok Hle]. unfold lpp_str_trim, or_empty.
    by rewrite (fresh_str_ok al 0 _ _ _ 1 (Hal _ _) Hok (copy_terminate (rstrip (skip_ws a)) ltac:(lia))).
  - intros Hne Hn Hsz. by apply repeat_ok.
Qed.

Lemma str_copies_exact_witness :
  lpp_str_substr (fun _ _ => true) (Some [32; 97; 98]) 1 (-1) = Ok (SOwned [97; 98]) /\
  lpp_str_repeat (fun _ _ => true) (Some [32; 97; 98]) 2 = Ok (SOwned [32; 97; 98; 32; 97; 98]).
Proof.
  assert (cstr_ok [32; 97; 98]) as Hok by (repeat constructor; lia).
  split.
  - exact (proj1 (proj2 (str_copies_exact (fun _ _ => true) [32; 97; 98] [99] 1 (-1) (fun _ _ => eq_refl)
      Hok ltac:(repeat constructor; lia) eq_refl))).
  - exact (proj2 (proj2 (proj2 (str_copies_exact (fun _ _ => true) [32; 97; 98] [99] 1 2 (fun _ _ => eq_refl)
      Hok ltac:(repeat constructor; lia) eq_refl))) ltac:(discriminate) eq_refl eq_refl).
Defined.
