(* ===== verification/Arc.v ===== *)
(** * Reference counting, weak handles and arenas (runtime/lpp_runtime.c)

    The heap maps the address of a payload to its header ([LppArcHeader]) together with the
    owned references its destructor releases ([owned]) and two ghost fields: [freed] (the
    block was returned to the allocator) and [birth] (how many objects were made before it).
    A freed block keeps its entry until its address is reused, because the runtime's pointer
    test reads the header in front of any pointer it is given: [quiet] says whether such a read
    of freed memory still sees what was left there ([false]: it is undefined, as in C).
    [foreign] is the word found 24 bytes in front of a pointer that never was an ARC payload.

    The atomic operations are those of a single thread of control: each is one step. *)

From stdpp Require Import gmap.
From S2P Require Import Prelude ListRt.

Definition LPP_ARC_MAGIC : Z := 0x41524331.
Definition LPP_ARC_IMMORTAL : Z := 0x41524331.

Record block := mk_block {
  magic : Z;
  refcount : Z;
  generation : Z;
  destructor : bool;
  owned : list Z;
  freed : bool;
  birth : Z
}.

(** An arena region: its count, and its records as (record address, node payload) pairs. *)
Record region := mk_region { rid : Z; rrefs : Z; records : list (Z * Z) }.

Record state := mk_state {
  heap : gmap Z block;
  generation_counter : Z;
  regions : list region;
  births : Z
}.

Definition set_heap (st : state) (h : gmap Z block) : state :=
  mk_state h (generation_counter st) (regions st) (births st).
Definition set_regions (st : state) (rs : list region) : state :=
  mk_state (heap st) (generation_counter st) rs (births st).

Definition set_count (b : block) (n : Z) : block :=
  mk_block (magic b) n (generation b) (destructor b) (owned b) (freed b) (birth b).
(** [lpp__invalidate_generation(hdr); hdr->magic = 0]. *)
Definition invalidate (b : block) : block :=
  mk_block 0 (refcount b) (i32 (generation b + 1)) (destructor b) (owned b) (freed b) (birth b).
Definition set_freed (b : block) : block :=
  mk_block (magic b) (refcount b) (generation b) (destructor b) (owned b) true (birth b).

Section arc.
Context (quiet : bool) (foreign : Z -> option Z).

(** The initial static state. *)
Definition arc_init : state := mk_state ∅ 1 [] 0.

Definition lpp__next_generation (st : state) : Z * state :=
  let fresh := i32 (generation_counter st + 1) in
  (fresh, mk_state (heap st) fresh (regions st) (births st)).

(** [addr] is where [calloc] puts the payload ([None]: out of memory). *)
Definition lpp_arc_alloc_with_destructor (st : state) (addr : option Z) (dtor : bool) : Z * state :=
  match addr with
  | None => (0, st)
  | Some p =>
      let '(fresh, st) := lpp__next_generation st in
      (p, mk_state (<[p := mk_block LPP_ARC_MAGIC 1 fresh dtor [] false (births st)]> (heap st))
            (generation_counter st) (regions st) (births st + 1))
  end.
Definition lpp_arc_alloc (st : state) (addr : option Z) : Z * state :=
  lpp_arc_alloc_with_destructor st addr false.

Definition lpp__is_immortal (b : block) : bool := u32 (refcount b) =? LPP_ARC_IMMORTAL.

(** Reading a header. *)
Definition header (st : state) (p : Z) : outcome block :=
  match heap st !! p with
  | Some b => if freed b && negb quiet then Undef else Ok b
  | None => Undef
  end.

Definition lpp__is_valid_arc_ptr (st : state) (p : Z) : outcome bool :=
  if p =? 0 then Ok false
  else if negb (Z.land p 7 =? 0) || (u64 p <? 0x10000) then Ok false
  else match heap st !! p with
       | Some _ => let! b := header st p in Ok (magic b =? LPP_ARC_MAGIC)
       | None => match foreign p with Some w => Ok (w =? LPP_ARC_MAGIC) | None => Undef end
       end.

(** ** Weak handles *)

Definition lpp_weak_generation (st : state) (p : Z) : outcome Z :=
  let! valid := lpp__is_valid_arc_ptr st p in
  if negb valid then Ok 0
  else let! b := header st p in
       if lpp__is_immortal b then Ok LPP_ARC_IMMORTAL else Ok (generation b).

Definition lpp_weak_get (st : state) (raw expected : Z) : outcome Z :=
  if (raw =? 0) || (expected =? 0) then Ok 0
  else
    let! valid := lpp__is_valid_arc_ptr st raw in
    if negb valid then Ok 0
    else let! b := header st raw in
         if lpp__is_immortal b then Ok (if expected =? LPP_ARC_IMMORTAL then raw else 0)
         else if negb (generation b =? expected) then Ok 0 else Ok raw.

(** ** Arenas *)

Definition nodes (r : region) : list Z := (records r).*2.

(** [lpp__arena_for_header]: the region one of whose records names the header. *)
Fixpoint find_region (rs : list region) (p : Z) : option Z :=
  match rs with
  | [] => None
  | r :: rs => if existsb (fun n => n =? p) (nodes r) then Some (rid r) else find_region rs p
  end.
Definition lpp__arena_for_header (st : state) (p : Z) : option Z := find_region (regions st) p.

Definition get_region (st : state) (id : Z) : option region := list_find (fun r => rid r = id) (regions st) ≫= fun x => Some x.2.
Definition put_region (rs : list region) (r : region) : list region :=
  map (fun x => if rid x =? rid r then r else x) rs.
Definition unlink_region (rs : list region) (id : Z) : list region := filter (fun x => rid x <> id) rs.

(** [free(hdr)]. *)
Definition free_block (st : state) (p : Z) : outcome state :=
  match heap st !! p with
  | Some b => if freed b then Undef else Ok (set_heap st (<[p := set_freed b]> (heap st)))
  | None => Undef
  end.

(** What the recursive calls below are to [lpp_arc_release]. *)
Section with_release.
Context (release : state -> Z -> outcome state).

(** A destructor: release every owned reference, in order. *)
Fixpoint release_all (st : state) (cs : list Z) : outcome state :=
  match cs with
  | [] => Ok st
  | c :: cs => let! st := release st c in release_all st cs
  end.

(** The loop of [lpp__arena_destroy]: free the node, release the record. *)
Fixpoint destroy_records (st : state) (recs : list (Z * Z)) : outcome state :=
  match recs with
  | [] => Ok st
  | (rec, node) :: recs =>
      let! st := free_block st node in
      let! st := release st rec in
      destroy_records st recs
  end.

Definition lpp__arena_destroy (st : state) (r : region) : outcome state :=
  destroy_records (set_regions st (unlink_region (regions st) (rid r))) (records r).

(** [lpp__arena_node_zero], and the body of [lpp_arena_release]: drop one count of the region. *)
Definition lpp__arena_node_zero (st : state) (id : Z) : outcome state :=
  match get_region st id with
  | None => Undef
  | Some r =>
      let r := mk_region (rid r) (i32 (rrefs r - 1)) (records r) in
      let st := set_regions st (put_region (regions st) r) in
      if rrefs r =? 0 then lpp__arena_destroy st r else Ok st
  end.
End with_release.

(** ** Retain and release *)

Definition lpp_arc_retain (st : state) (p : Z) : outcome state :=
  let! valid := lpp__is_valid_arc_ptr st p in
  if negb valid then Ok st
  else let! b := header st p in
       if lpp__is_immortal b then Ok st
       else Ok (set_heap st (<[p := set_count b (i32 (refcount b + 1))]> (heap st))).

(** [fuel] bounds the depth of nested destructors. *)
Fixpoint lpp_arc_release (fuel : nat) (st : state) (p : Z) : outcome state :=
  match fuel with
  | O => NoFuel
  | S f =>
      let! valid := lpp__is_valid_arc_ptr st p in
      if negb valid then Ok st
      else
        let! b := header st p in
        if lpp__is_immortal b then Ok st
        else
          let arena := lpp__arena_for_header st p in
          let prev := refcount b in
          let b := set_count b (i32 (refcount b - 1)) in
          let st := set_heap st (<[p := b]> (heap st)) in
          if prev =? 1 then
            let st := set_heap st (<[p := invalidate b]> (heap st)) in
            let! st := (if destructor b then release_all (lpp_arc_release f) st (owned b) else Ok st) in
            match arena with
            | Some id => lpp__arena_node_zero (lpp_arc_release f) st id
            | None => free_block st p
            end
          else Ok st
  end.

(** The [_local] variants.  [lpp_arc_release_local] looks the arena up only after the count has
    reached zero; [fuel] bounds the destructors it runs. *)
Definition lpp_arc_retain_local (st : state) (p : Z) : outcome state :=
  let! valid := lpp__is_valid_arc_ptr st p in
  if negb valid then Ok st
  else let! b := header st p in
       if lpp__is_immortal b then Ok st
       else Ok (set_heap st (<[p := set_count b (i32 (refcount b + 1))]> (heap st))).

Definition lpp_arc_release_local (fuel : nat) (st : state) (p : Z) : outcome state :=
  let! valid := lpp__is_valid_arc_ptr st p in
  if negb valid then Ok st
  else
    let! b := header st p in
    if lpp__is_immortal b then Ok st
    else
      let prev := refcount b in
      let b := set_count b (i32 (refcount b - 1)) in
      let st := set_heap st (<[p := b]> (heap st)) in
      if prev =? 1 then
        let arena := lpp__arena_for_header st p in
        let st := set_heap st (<[p := invalidate b]> (heap st)) in
        let! st := (if destructor b then release_all (lpp_arc_release fuel) st (owned b) else Ok st) in
        match arena with
        | Some id => lpp__arena_node_zero (lpp_arc_release fuel) st id
        | None => free_block st p
        end
      else Ok st.

(** ** Arena entry points *)

(** [id] is the address of the new region ([None]: out of memory). *)
Definition lpp_arena_begin (st : state) (id : option Z) : Z * state :=
  match id with
  | None => (0, st)
  | Some id => (id, set_regions st (mk_region id 1 [] :: regions st))
  end.

Definition lpp_arena_release (fuel : nat) (st : state) (id : Z) : outcome state :=
  if id =? 0 then Ok st else lpp__arena_node_zero (lpp_arc_release fuel) st id.

Definition lpp_arena_alloc (fuel : nat) (st : state) (size id : Z) (addr rec_addr : option Z) (dtor : bool)
  : outcome (Z * state) :=
  if (id =? 0) || (size <? 0) then Ok (0, st)
  else
    let '(payload, st) := lpp_arc_alloc_with_destructor st addr dtor in
    if payload =? 0 then Ok (0, st)
    else
      let '(rec, st) := lpp_arc_alloc st rec_addr in
      if rec =? 0 then let! st := lpp_arc_release fuel st payload in Ok (0, st)
      else match get_region st id with
           | None => Undef
           | Some r =>
               let r := mk_region id (i32 (rrefs r + 1)) ((rec, payload) :: records r) in
               Ok (payload, set_regions st (put_region (regions st) r))
           end.

Definition lpp_arena_retain (st : state) (p : Z) : outcome state :=
  if p =? 0 then Ok st
  else match lpp__arena_for_header st p with None => Ok st | Some _ => lpp_arc_retain st p end.

Definition lpp_arena_release_node (fuel : nat) (st : state) (p : Z) : outcome state :=
  if p =? 0 then Ok st
  else match lpp__arena_for_header st p with
       | None => Ok st
       | Some id =>
           let! b := header st p in
           if lpp__is_immortal b then Ok st
           else
             let prev := refcount b in
             let b := set_count b (i32 (refcount b - 1)) in
             let st := set_heap st (<[p := b]> (heap st)) in
             if prev =? 1 then
               let st := set_heap st (<[p := invalidate b]> (heap st)) in
               let! st := (if destructor b then release_all (lpp_arc_release fuel) st (owned b) else Ok st) in
               lpp__arena_node_zero (lpp_arc_release fuel) st id
             else Ok st
       end.
End arc.

(** ** The invariant *)

Definition live (b : block) : bool := (magic b =? LPP_ARC_MAGIC) && negb (lpp__is_immortal b).
Definition alive (h : gmap Z block) (p : Z) : bool :=
  match h !! p with Some b => live b | None => false end.
Definition ptr_ok (p : Z) : bool := negb ((p =? 0) || negb (Z.land p 7 =? 0) || (u64 p <? 0x10000)).

(** A list collected over all blocks of a heap, up to order. *)
Definition hsum {A} (f : block -> list A) (h : gmap Z block) : list A := mbind f (map_to_list h).*2.

(** The references held inside live objects. *)
Definition contrib (b : block) : list Z := if live b then owned b else [].
Definition edges (h : gmap Z block) : list Z := hsum contrib h.
Definition live_count (h : gmap Z block) : nat := length (hsum (fun b => if live b then [b] else []) h).

(** The references regions hold on their records, and the nodes of all regions. *)
Definition rec_refs (rs : list region) : list Z := mbind (fun r => (records r).*1) rs.
Definition all_nodes (rs : list region) : list Z := mbind nodes rs.
Definition count_alive (h : gmap Z block) (ns : list Z) : nat := length (filter (fun n => alive h n = true) ns).
Definition nlive (h : gmap Z block) (r : region) : nat := count_alive h (nodes r).

Definition all_refs (st : state) (refs : list Z) : list Z := refs ++ edges (heap st) ++ rec_refs (regions st).

Section invariant.
Context (quiet : bool) (foreign : Z -> option Z).

(** A reference that retain and release ignore: no pointer, a pointer to foreign memory, or an
    immortal object (a string literal). *)
Definition inert (st : state) (r : Z) : Prop :=
  ptr_ok r = false \/
  (heap st !! r = None /\ exists w, foreign r = Some w /\ w <> LPP_ARC_MAGIC) \/
  (exists b, heap st !! r = Some b /\ magic b = LPP_ARC_MAGIC /\ lpp__is_immortal b = true /\ freed b = false).

(** [refs]: the references the program holds (its locals and globals, one entry each).
    [owners]: the arena handles it holds.  [pend]: dead blocks about to be freed. *)
Record inv (st : state) (refs owners pend : list Z) : Prop := {
  i_live : forall p b, heap st !! p = Some b -> live b = true ->
    ptr_ok p = true /\ freed b = false /\ refcount b = Z.of_nat (occ p (all_refs st refs)) /\ 0 < refcount b;
  i_small : Z.of_nat (length (all_refs st refs)) < LPP_ARC_IMMORTAL;
  i_refs : forall r, r ∈ all_refs st refs -> alive (heap st) r = true \/ inert st r;
  i_dtor : forall p b, heap st !! p = Some b -> live b = true -> destructor b = false -> owned b = [];
  i_rids : NoDup (rid <$> regions st);
  i_owner : forall id, id ∈ owners -> id ∈ rid <$> regions st;
  i_region : forall r, r ∈ regions st -> rrefs r = Z.of_nat (occ (rid r) owners + nlive (heap st) r) /\ 0 < rrefs r;
  i_count : Z.of_nat (length owners + count_alive (heap st) (all_nodes (regions st))) < 2 ^ 31;
  i_nodup : NoDup (pend ++ all_nodes (regions st));
  i_node : forall n, n ∈ all_nodes (regions st) -> exists b, heap st !! n = Some b /\ freed b = false /\
    (live b = true \/ magic b = 0);
  i_pend : forall p, p ∈ pend -> exists b, heap st !! p = Some b /\ freed b = false /\ magic b = 0;
  i_reclaim : forall p b, heap st !! p = Some b -> live b = false ->
    freed b = true \/ p ∈ pend \/ p ∈ all_nodes (regions st) \/ magic b = LPP_ARC_MAGIC
}.

(** *** Sums over the heap *)

Lemma hsum_insert {A} (f : block -> list A) h p b b' : h !! p = Some b ->
  exists rest, hsum f h ≡ₚ f b ++ rest /\ hsum f (<[p := b']> h) ≡ₚ f b' ++ rest.
Proof.
  intros Hp. exists (hsum f (delete p h)). unfold hsum. split.
  - rewrite <- (insert_delete_id h p b Hp) at 1. rewrite map_to_list_insert by apply lookup_delete_eq. done.
  - rewrite <- insert_delete_eq. rewrite map_to_list_insert by apply lookup_delete_eq. done.
Qed.

Lemma hsum_fresh {A} (f : block -> list A) h p b' : h !! p = None -> hsum f (<[p := b']> h) ≡ₚ f b' ++ hsum f h.
Proof. intros Hp. unfold hsum. rewrite map_to_list_insert by done. done. Qed.

(** Replacing a block by one that contributes the same. *)
Lemma hsum_same {A} (f : block -> list A) h p b b' : h !! p = Some b -> f b' = f b ->
  hsum f (<[p := b']> h) ≡ₚ hsum f h.
Proof. intros Hp Hf. destruct (hsum_insert f h p b b' Hp) as (rest & -> & ->). by rewrite Hf. Qed.

Lemma occ_le_length {A} `{EqDecision A} (x : A) xs : (occ x xs <= length xs)%nat.
Proof. unfold occ. apply length_filter. Qed.

Lemma occ_elem {A} `{EqDecision A} (x : A) xs : (0 < occ x xs)%nat <-> x ∈ xs.
Proof.
  induction xs as [|y xs IH]; [rewrite occ_nil; set_solver by lia|].
  rewrite occ_cons, elem_of_cons. case_decide; [subst; split; [by left|lia]|].
  rewrite Nat.add_0_l, IH. split; [by right|]. intros [?|?]; [by subst|done].
Qed.

Lemma occ_zero {A} `{EqDecision A} (x : A) xs : occ x xs = 0%nat <-> x ∉ xs.
Proof. rewrite <- occ_elem. lia. Qed.

Lemma alive_block h p : alive h p = true <-> exists b, h !! p = Some b /\ live b = true.
Proof. unfold alive. destruct (h !! p) as [b|]; [|split; [done|by intros (? & ? & _)]].
  split; [by exists b|]. intros (c & [= <-] & ?). done.
Qed.

Lemma live_magic b : live b = true -> magic b = LPP_ARC_MAGIC /\ lpp__is_immortal b = false.
Proof. unfold live. intros H. bool_to_prop. done. Qed.

Lemma dead_not_live b : magic b = 0 -> live b = false.
Proof. intros H. unfold live. by rewrite H. Qed.

(** *** What the pointer test says *)

Lemma ptr_ok_tests p : ptr_ok p = true -> (p =? 0) = false /\ negb (Z.land p 7 =? 0) || (u64 p <? 0x10000) = false.
Proof. unfold ptr_ok. intros H. apply negb_true_iff in H. rewrite <- orb_assoc in H. by apply orb_false_iff in H. Qed.

Lemma valid_live st p b : ptr_ok p = true -> heap st !! p = Some b -> live b = true -> freed b = false ->
  lpp__is_valid_arc_ptr quiet foreign st p = Ok true /\ header quiet st p = Ok b.
Proof.
  intros Hp Hb Hl Hf. destruct (ptr_ok_tests p Hp) as [E1 E2]. unfold lpp__is_valid_arc_ptr, header.
  rewrite E1, E2, Hb, Hf. cbn [andb obind]. destruct (live_magic b Hl) as [-> _]. done.
Qed.

Lemma valid_inert st r : inert st r ->
  lpp__is_valid_arc_ptr quiet foreign st r = Ok false \/
  (lpp__is_valid_arc_ptr quiet foreign st r = Ok true /\ exists b, header quiet st r = Ok b /\ lpp__is_immortal b = true).
Proof.
  intros [Hp|[(Hn & w & Hw & Hne)|(b & Hb & Hm & Hi & Hf)]]; unfold lpp__is_valid_arc_ptr, header.
  - left. unfold ptr_ok in Hp. apply negb_false_iff in Hp. rewrite <- orb_assoc in Hp.
    destruct (r =? 0); [done|]. cbn [orb] in Hp. by rewrite Hp.
  - left. destruct (r =? 0); [done|]. destruct (_ || _); [done|]. rewrite Hn, Hw.
    by rewrite (proj2 (Z.eqb_neq _ _)).
  - destruct (r =? 0); [by left|]. destruct (_ || _); [by left|]. right. rewrite Hb, Hf. cbn [andb obind].
    rewrite Hm. split; [done|by exists b].
Qed.

(** Inert references are not affected by changing live blocks. *)
Lemma inert_insert st p b b' r : heap st !! p = Some b -> live b = true \/ magic b = 0 ->
  inert st r -> inert (set_heap st (<[p := b']> (heap st))) r.
Proof.
  intros Hp Hl [H|[(Hn & w & Hw & Hne)|(c & Hc & Hm & Hi & Hf)]]; [by left| |].
  - right. left. split; [|by exists w]. simpl. rewrite lookup_insert_ne; [done|]. intros ->. congruence.
  - right. right. exists c. split_and!; try done. simpl. rewrite lookup_insert_ne; [done|]. intros ->.
    rewrite Hp in Hc. injection Hc as ->. destruct Hl as [Hl|Hl]; [destruct (live_magic c Hl); congruence|by rewrite Hl in Hm].
Qed.

Lemma not_alive_inert st r : inert st r -> alive (heap st) r = true -> ptr_ok r = false.
Proof.
  intros [H|[(Hn & _)|(b & Hb & Hm & Hi & _)]] Ha; [done|unfold alive in Ha; by rewrite Hn in Ha|].
  apply alive_block in Ha as (c & Hc & Hl). rewrite Hb in Hc. injection Hc as <-.
  destruct (live_magic b Hl). congruence.
Qed.

(** *** Facts used by every step *)

Lemma all_refs_perm st refs refs' : refs ≡ₚ refs' -> all_refs st refs ≡ₚ all_refs st refs'.
Proof. intros H. unfold all_refs. by rewrite H. Qed.

#[global] Instance all_refs_proper st : Proper ((≡ₚ) ==> (≡ₚ)) (all_refs st).
Proof. intros ???. by apply all_refs_perm. Qed.

Lemma all_refs_cons st p refs : all_refs st (p :: refs) = p :: all_refs st refs.
Proof. done. Qed.
Lemma all_refs_app st xs refs : all_refs st (xs ++ refs) = xs ++ all_refs st refs.
Proof. unfold all_refs. by rewrite <- (assoc_L (++)). Qed.

(** The order in which the program's references are listed does not matter. *)
Lemma inv_perm st refs refs' owners pend : refs ≡ₚ refs' -> inv st refs owners pend -> inv st refs' owners pend.
Proof.
  intros Hp [H1 H2 H3 H4 H5 H6 H7 H8 H9 H10 H11 H12].
  pose proof (all_refs_perm st refs refs' Hp) as Ha. split; try done.
  - intros p b Hb Hl. rewrite <- Ha. by apply H1.
  - by rewrite <- Ha.
  - intros r Hr. apply H3. by rewrite Ha.
Qed.

Lemma inv_owners_perm st refs owners owners' pend :
  owners ≡ₚ owners' -> inv st refs owners pend -> inv st refs owners' pend.
Proof.
  intros Hp [H1 H2 H3 H4 H5 H6 H7 H8 H9 H10 H11 H12]. split; try done.
  - intros id Hid. apply H6. by rewrite Hp.
  - intros r Hr. rewrite <- Hp. by apply H7.
  - by rewrite <- Hp.
Qed.

Lemma alive_insert h p b' q : alive (<[p := b']> h) q = if decide (q = p) then live b' else alive h q.
Proof.
  unfold alive. case_decide as E; [subst; by rewrite lookup_insert_eq|]. by rewrite lookup_insert_ne.
Qed.

(** Consuming one reference to the live object at [p] by storing [b'] in its header: either the
    count goes down by one, or the last reference is gone and the object is dead. *)
Lemma consume st p refs owners pend b b' refs1 :
  inv st (p :: refs) owners pend -> heap st !! p = Some b -> live b = true ->
  let st1 := set_heap st (<[p := b']> (heap st)) in
  all_refs st (p :: refs) ≡ₚ p :: all_refs st1 refs1 ->
  (live b' = true /\ refcount b' = refcount b - 1 /\ 1 < refcount b /\ freed b' = false /\
     destructor b' = destructor b /\ owned b' = owned b) \/ (magic b' = 0 /\ refcount b = 1) ->
  (forall q c, heap st1 !! q = Some c -> live c = true ->
    ptr_ok q = true /\ freed c = false /\ refcount c = Z.of_nat (occ q (all_refs st1 refs1)) /\ 0 < refcount c) /\
  Z.of_nat (length (all_refs st1 refs1)) < LPP_ARC_IMMORTAL /\
  (forall r, r ∈ all_refs st1 refs1 -> alive (heap st1) r = true \/ inert st1 r) /\
  (forall q c, heap st1 !! q = Some c -> live c = true -> destructor c = false -> owned c = []).
Proof.
  intros Hinv Hb Hl st1 Hperm Hcase. pose proof Hinv as [H1 H2 H3 H4 _ _ _ _ _ _ _ _].
  destruct (H1 p b Hb Hl) as (Hok & Hfr & Hrc & Hpos). rewrite Hperm, occ_cons, decide_True in Hrc by done.
  split_and!.
  - intros q c Hq Hc. simpl in Hq. destruct (decide (q = p)) as [->|Hne].
    + rewrite lookup_insert_eq in Hq. injection Hq as <-.
      destruct Hcase as [(_ & E1 & E2 & E3 & _)|[Hm _]]; [|by rewrite dead_not_live in Hc].
      split_and!; [done|done|lia|lia].
    + rewrite lookup_insert_ne in Hq by done. destruct (H1 q c Hq Hc) as (? & ? & Hr & ?).
      rewrite Hperm, occ_cons, decide_False in Hr by done. done.
  - rewrite Hperm in H2. simpl in H2. lia.
  - intros r Hr. destruct (H3 r) as [Ha|Hi]; [rewrite Hperm; by right| |].
    + destruct (decide (r = p)) as [->|Hne].
      * left. simpl. rewrite alive_insert, decide_True by done.
        destruct Hcase as [(? & _)|[_ E]]; [done|]. rewrite E in Hrc.
        assert (occ p (all_refs st1 refs1) = 0%nat) as Hz by lia. by apply occ_zero in Hz.
      * left. simpl. by rewrite alive_insert, decide_False.
    + right. eapply inert_insert; [done|by left|done].
  - intros q c Hq Hc. simpl in Hq. destruct (decide (q = p)) as [->|Hne].
    + rewrite lookup_insert_eq in Hq. injection Hq as <-.
      destruct Hcase as [(_ & _ & _ & _ & E1 & E2)|[Hm _]]; [|by rewrite dead_not_live in Hc].
      rewrite E1, E2. by apply (H4 p b).
    + rewrite lookup_insert_ne in Hq by done. by apply (H4 q c).
Qed.

(** Regions and pending blocks only see which nodes are alive. *)
Lemma count_alive_same h p b b' ns : h !! p = Some b -> live b' = live b ->
  count_alive (<[p := b']> h) ns = count_alive h ns.
Proof.
  intros Hp Hl. unfold count_alive. f_equal. apply list_filter_iff. intros n. rewrite alive_insert.
  case_decide; [|done]. subst. unfold alive. rewrite Hp, Hl. done.
Qed.

Lemma count_alive_other h p b' ns : p ∉ ns -> count_alive (<[p := b']> h) ns = count_alive h ns.
Proof.
  unfold count_alive. induction ns as [|n ns IH]; intros Hn; [done|]. apply not_elem_of_cons in Hn as [Hne Hn].
  rewrite !filter_cons, alive_insert. rewrite (decide_False (P := n = p)) by congruence.
  destruct (decide (alive h n = true)); cbn [length]; by rewrite IH.
Qed.

Lemma count_alive_kill h p b' ns : p ∈ ns -> NoDup ns -> alive h p = true -> live b' = false ->
  count_alive h ns = S (count_alive (<[p := b']> h) ns).
Proof.
  induction ns as [|n ns IH]; intros Hin Hnd Ha Hl; [by apply elem_of_nil in Hin|].
  apply NoDup_cons in Hnd as [Hn Hnd]. unfold count_alive in *. rewrite !filter_cons, alive_insert.
  destruct (decide (n = p)) as [->|Hne].
  - rewrite (decide_True (P := alive h p = true)) by done.
    rewrite (decide_False (P := live b' = true)) by congruence. cbn [length]. f_equal.
    symmetry. by apply count_alive_other.
  - apply elem_of_cons in Hin as [->|Hin]; [done|].
    destruct (decide (alive h n = true)); cbn [length]; by rewrite IH.
Qed.

Lemma find_region_none rs p : find_region rs p = None -> p ∉ all_nodes rs.
Proof.
  induction rs as [|r rs IH]; intros H; [apply not_elem_of_nil|]. cbn [find_region] in H.
  destruct (existsb _ _) eqn:E; [done|]. unfold all_nodes. rewrite bind_cons, not_elem_of_app.
  split; [|by apply IH]. intros Hin. apply list_elem_of_In in Hin.
  assert (existsb (fun n => n =? p) (nodes r) = true); [|congruence].
  apply existsb_exists. exists p. split; [done|apply Z.eqb_refl].
Qed.

Lemma find_region_some rs p id : find_region rs p = Some id -> exists r, r ∈ rs /\ rid r = id /\ p ∈ nodes r.
Proof.
  induction rs as [|r rs IH]; intros H; [done|]. cbn [find_region] in H. destruct (existsb _ _) eqn:E.
  - injection H as <-. exists r. split_and!; [by left|done|]. apply existsb_exists in E as (n & Hn & He).
    apply Z.eqb_eq in He as ->. by apply list_elem_of_In.
  - destruct (IH H) as (r' & ? & ? & ?). exists r'. split_and!; [by right|done|done].
Qed.

Lemma elem_of_all_nodes rs r n : r ∈ rs -> n ∈ nodes r -> n ∈ all_nodes rs.
Proof. intros Hr Hn. apply list_elem_of_bind. by exists r. Qed.

Lemma nodes_NoDup rs r : NoDup (all_nodes rs) -> r ∈ rs -> NoDup (nodes r).
Proof.
  intros Hnd [i Hi]%list_elem_of_lookup. apply take_drop_middle in Hi. rewrite <- Hi in Hnd.
  unfold all_nodes in Hnd. rewrite bind_app, bind_cons in Hnd.
  apply NoDup_app in Hnd as (_ & _ & Hnd). by apply NoDup_app in Hnd as (Hnd & _).
Qed.

Lemma rid_inj rs r r' : NoDup (rid <$> rs) -> r ∈ rs -> r' ∈ rs -> rid r = rid r' -> r = r'.
Proof.
  intros Hnd [i Hi]%list_elem_of_lookup [j Hj]%list_elem_of_lookup He. assert (i = j) as ->; [|congruence].
  apply (NoDup_lookup (rid <$> rs) i j (rid r)); [done|..]; rewrite list_lookup_fmap; [by rewrite Hi|].
  rewrite Hj. simpl. congruence.
Qed.

(** A node belongs to one region only. *)
Lemma nodes_unique rs r r' p : NoDup (all_nodes rs) -> NoDup (rid <$> rs) -> r ∈ rs -> r' ∈ rs ->
  p ∈ nodes r -> p ∈ nodes r' -> r = r'.
Proof.
  induction rs as [|x rs IH]; intros Hnd Hid Hr Hr' Hp Hp'; [by apply elem_of_nil in Hr|].
  unfold all_nodes in Hnd. rewrite bind_cons in Hnd. apply NoDup_app in Hnd as (Hx & Hdis & Hnd).
  cbn in Hid. apply NoDup_cons in Hid as [_ Hid].
  apply elem_of_cons in Hr as [->|Hr], Hr' as [->|Hr']; [done| | |by apply IH].
  - exfalso. apply (Hdis p Hp). by eapply elem_of_all_nodes.
  - exfalso. apply (Hdis p Hp'). by eapply elem_of_all_nodes.
Qed.

(** *** Dropping a reference that is not counted *)

Lemma drop_inert st r refs owners pend :
  inv st (r :: refs) owners pend -> alive (heap st) r = false -> inv st refs owners pend.
Proof.
  intros [H1 H2 H3 H4 H5 H6 H7 H8 H9 H10 H11 H12] Ha. split; try done.
  - intros p b Hb Hl. destruct (H1 p b Hb Hl) as (? & ? & Hr & ?).
    rewrite all_refs_cons, occ_cons, decide_False in Hr; [done|]. intros ->. unfold alive in Ha. by rewrite Hb, Hl in Ha.
  - rewrite all_refs_cons in H2. simpl in H2. lia.
  - intros x Hx. apply H3. rewrite all_refs_cons. by right.
Qed.

(** *** Dropping one of several references *)

Lemma live_set_count st p b refs owners pend n : inv st refs owners pend ->
  heap st !! p = Some b -> live b = true -> 0 <= n < LPP_ARC_IMMORTAL -> live (set_count b n) = true.
Proof.
  intros Hinv Hb Hl Hn. destruct (live_magic b Hl) as [Hm _]. unfold live, lpp__is_immortal. simpl. rewrite Hm.
  rewrite (proj2 (Z.eqb_neq (u32 n) _)); [done|]. unfold u32. unfold LPP_ARC_IMMORTAL in *.
  rewrite uwrap_id by (change (2 ^ 32) with 4294967296; lia). lia.
Qed.

Lemma count_bound st p b refs owners pend : inv st refs owners pend ->
  heap st !! p = Some b -> live b = true -> 0 < refcount b < LPP_ARC_IMMORTAL.
Proof.
  intros Hinv Hb Hl. destruct (i_live _ _ _ _ Hinv p b Hb Hl) as (_ & _ & Hr & Hp).
  pose proof (i_small _ _ _ _ Hinv). pose proof (occ_le_length p (all_refs st refs)). lia.
Qed.

Lemma edges_same h p b b' : h !! p = Some b -> live b' = live b -> owned b' = owned b ->
  edges (<[p := b']> h) ≡ₚ edges h.
Proof. intros Hb Hl Ho. apply (hsum_same _ h p b); [done|]. unfold contrib. by rewrite Hl, Ho. Qed.

Lemma live_count_same h p b b' : h !! p = Some b -> live b' = live b -> live_count (<[p := b']> h) = live_count h.
Proof.
  intros Hb Hl. unfold live_count. destruct (hsum_insert (fun b => if live b then [b] else []) h p b b' Hb) as (r & H1 & H2).
  rewrite H1, H2, !length_app, Hl. by destruct (live b).
Qed.

(** Updating a block that stays as alive as it was keeps everything about regions. *)
Lemma regions_same st p b b' refs owners pend : inv st refs owners pend ->
  heap st !! p = Some b -> live b = true -> live b' = true -> freed b' = false ->
  let st1 := set_heap st (<[p := b']> (heap st)) in
  (forall r, r ∈ regions st1 -> rrefs r = Z.of_nat (occ (rid r) owners + nlive (heap st1) r) /\ 0 < rrefs r) /\
  Z.of_nat (length owners + count_alive (heap st1) (all_nodes (regions st1))) < 2 ^ 31 /\
  (forall n, n ∈ all_nodes (regions st1) -> exists b, heap st1 !! n = Some b /\ freed b = false /\ (live b = true \/ magic b = 0)) /\
  (forall q, q ∈ pend -> exists b, heap st1 !! q = Some b /\ freed b = false /\ magic b = 0).
Proof.
  intros Hinv Hb Hl Hl' Hf'. destruct Hinv as [_ _ _ _ _ _ H7 H8 _ H10 H11 _]. simpl. split_and!.
  - intros r Hr. unfold nlive. rewrite (count_alive_same _ _ b) by (done || congruence). by apply H7.
  - by rewrite (count_alive_same _ _ b) by (done || congruence).
  - intros n Hn. destruct (decide (n = p)) as [->|]; [rewrite lookup_insert_eq; eauto|].
    rewrite lookup_insert_ne by done. by apply H10.
  - intros q Hq. destruct (H11 q Hq) as (c & Hc & Hfc & Hm). rewrite lookup_insert_ne; [by exists c|].
    intros ->. rewrite Hb in Hc. injection Hc as ->. by rewrite dead_not_live in Hl.
Qed.

Lemma dec_step st p b refs owners pend :
  inv st (p :: refs) owners pend -> heap st !! p = Some b -> live b = true -> refcount b <> 1 ->
  let st1 := set_heap st (<[p := set_count b (refcount b - 1)]> (heap st)) in
  inv st1 refs owners pend /\ live_count (heap st1) = live_count (heap st).
Proof.
  intros Hinv Hb Hl Hne st1. pose proof (count_bound _ _ _ _ _ _ Hinv Hb Hl) as Hbd.
  assert (live (set_count b (refcount b - 1)) = true) as Hl' by (eapply live_set_count; [done|done|done|lia]).
  destruct (i_live _ _ _ _ Hinv p b Hb Hl) as (_ & Hfr & _).
  assert (all_refs st (p :: refs) ≡ₚ p :: all_refs st1 refs) as Hperm.
  { rewrite all_refs_cons. unfold all_refs, st1. simpl.
    by rewrite (edges_same _ _ b _ Hb) by (done || congruence). }
  destruct (consume st p refs owners pend b _ refs Hinv Hb Hl Hperm) as (A1 & A2 & A3 & A4).
  { left. split_and!; try done. lia. }
  destruct (regions_same st p b (set_count b (refcount b - 1)) _ _ _ Hinv Hb Hl Hl' Hfr) as (B1 & B0 & B2 & B3).
  destruct Hinv as [_ _ _ _ H5 H6 _ _ H9 _ _ H12].
  split; [|apply live_count_same with b; congruence]. split; try done.
  intros q c Hq Hc. simpl in Hq. destruct (decide (q = p)) as [->|]; [rewrite lookup_insert_eq in Hq; congruence|].
  rewrite lookup_insert_ne in Hq by done. by apply (H12 q c).
Qed.

(** *** Dropping the last reference *)

Definition dead (b : block) : block := invalidate (set_count b 0).

Lemma kill_refs st p b refs owners pend :
  inv st (p :: refs) owners pend -> heap st !! p = Some b -> live b = true -> refcount b = 1 ->
  let st1 := set_heap st (<[p := dead b]> (heap st)) in
  all_refs st (p :: refs) ≡ₚ p :: all_refs st1 (owned b ++ refs) /\ S (live_count (heap st1)) = live_count (heap st).
Proof.
  intros Hinv Hb Hl Hone st1. split.
  - destruct (hsum_insert contrib (heap st) p b (dead b) Hb) as (rest & H1 & H2).
    unfold all_refs, edges, st1. simpl heap. simpl regions. rewrite H1, H2. unfold contrib. rewrite Hl. cbn [app].
    change (live (dead b)) with false. cbn [app]. rewrite <- !(assoc_L (++)). constructor.
    rewrite !(assoc_L (++)). do 2 f_equiv. apply Permutation_app_comm.
  - destruct (hsum_insert (fun b => if live b then [b] else []) (heap st) p b (dead b) Hb) as (r & H1 & H2).
    unfold live_count, st1. simpl heap. rewrite H1, H2, Hl. change (live (dead b)) with false. done.
Qed.

(** What is left to do for a dead object: free it, or give back its region's count. *)
Definition pay (arena : option Z) (p : Z) (owners pend : list Z) : list Z * list Z :=
  match arena with Some id => (id :: owners, pend) | None => (owners, p :: pend) end.

Lemma kill_step st p b refs owners pend :
  inv st (p :: refs) owners pend -> heap st !! p = Some b -> live b = true -> refcount b = 1 ->
  let st1 := set_heap st (<[p := dead b]> (heap st)) in
  inv st1 (owned b ++ refs) (pay (lpp__arena_for_header st p) p owners pend).1
    (pay (lpp__arena_for_header st p) p owners pend).2.
Proof.
  intros Hinv Hb Hl Hone st1. destruct (kill_refs st p b refs owners pend Hinv Hb Hl Hone) as [Hperm _].
  destruct (consume st p refs owners pend b (dead b) (owned b ++ refs) Hinv Hb Hl Hperm) as (A1 & A2 & A3 & A4).
  { by right. }
  destruct (i_live _ _ _ _ Hinv p b Hb Hl) as (_ & Hfr & _).
  assert (alive (heap st) p = true) as Hap by (unfold alive; by rewrite Hb).
  pose proof Hinv as [_ _ _ _ H5 H6 H7 H8 H9 H10 H11 H12]. apply NoDup_app in H9 as (Hnp & Hdis & Hnn).
  assert (p ∉ pend) as Hpp.
  { intros Hin. destruct (H11 p Hin) as (c & Hc & _ & Hm). rewrite Hb in Hc. injection Hc as <-.
    by rewrite dead_not_live in Hl. }
  assert (forall n, n ∈ all_nodes (regions st1) -> exists b0, heap st1 !! n = Some b0 /\ freed b0 = false /\
    (live b0 = true \/ magic b0 = 0)) as B10.
  { intros n Hn. simpl. destruct (decide (n = p)) as [->|].
    - rewrite lookup_insert_eq. exists (dead b). split_and!; [done|done|by right].
    - rewrite lookup_insert_ne by done. by apply H10. }
  assert (forall q, q ∈ pend -> exists b0, heap st1 !! q = Some b0 /\ freed b0 = false /\ magic b0 = 0) as B11.
  { intros q Hq. simpl. rewrite lookup_insert_ne by (by intros ->). by apply H11. }
  assert (forall q c, heap st1 !! q = Some c -> q <> p -> live c = false ->
    freed c = true \/ q ∈ pend \/ q ∈ all_nodes (regions st) \/ magic c = LPP_ARC_MAGIC) as B12.
  { intros q c Hq Hqp Hc. simpl in Hq. rewrite lookup_insert_ne in Hq by done. by apply (H12 q c). }
  unfold lpp__arena_for_header. destruct (find_region (regions st) p) as [id|] eqn:Hfind; cbn [pay fst snd].
  - destruct (find_region_some _ _ _ Hfind) as (r0 & Hr0 & Hid & Hpn). split; try done.
    + intros i [->|Hi]%elem_of_cons; [|by apply H6]. rewrite <- Hid. by apply list_elem_of_fmap_2.
    + intros r Hr. simpl in Hr. destruct (H7 r Hr) as [E1 E2]. split; [|done]. rewrite occ_cons. unfold nlive in *. simpl heap.
      destruct (decide (id = rid r)) as [Heq|Hne].
      * assert (r = r0) as ->.
        { apply (rid_inj (regions st)); [done..|congruence]. }
        rewrite E1. rewrite (count_alive_kill (heap st) p (dead b) (nodes r0) Hpn); [lia| |done|done].
        by eapply nodes_NoDup.
      * rewrite count_alive_other; [done|]. intros Hpr. apply Hne. rewrite <- Hid. f_equal.
        by eapply nodes_unique.
    + simpl. rewrite (count_alive_kill (heap st) p (dead b) (all_nodes (regions st))) in H8; [lia| |done|done|done].
      by eapply elem_of_all_nodes.
    + by apply NoDup_app.
    + intros q c Hq Hc. destruct (decide (q = p)) as [->|Hqp].
      * right. right. left. by eapply elem_of_all_nodes.
      * apply (B12 q c Hq Hqp Hc).
  - pose proof (find_region_none _ _ Hfind) as Hpn. split; try done.
    + intros r Hr. simpl in Hr. destruct (H7 r Hr) as [E1 E2]. split; [|done]. unfold nlive in *. simpl heap.
      rewrite count_alive_other; [done|]. intros Hpr. apply Hpn. by eapply elem_of_all_nodes.
    + simpl. by rewrite count_alive_other.
    + cbn [app]. apply NoDup_cons. split; [by rewrite elem_of_app; intros [?|?]|]. by apply NoDup_app.
    + intros q [->|Hq]%elem_of_cons; [|by apply B11]. simpl. rewrite lookup_insert_eq. by exists (dead b).
    + intros q c Hq Hc. destruct (decide (q = p)) as [->|Hqp]; [right; left; by left|].
      destruct (B12 q c Hq Hqp Hc) as [?|[?|?]]; [by left|right; left; by right|by right; right].
Qed.

(** *** Freeing a dead block *)

Lemma free_step st p refs owners pend :
  inv st refs owners (p :: pend) ->
  wp (free_block st p) (fun st' => inv st' refs owners pend /\ live_count (heap st') = live_count (heap st)).
Proof.
  intros [H1 H2 H3 H4 H5 H6 H7 H8 H9 H10 H11 H12]. destruct (H11 p) as (b & Hb & Hf & Hm); [by left|].
  assert (live b = false) as Hl by (by apply dead_not_live).
  assert (live (set_freed b) = live b) as Hls by done.
  cbn [app] in H9. apply NoDup_cons in H9 as [Hp9 H9]. apply not_elem_of_app in Hp9 as [Hpp Hpn].
  unfold free_block. rewrite Hb, Hf. cbn [wp].
  assert (all_refs (set_heap st (<[p:=set_freed b]> (heap st))) refs ≡ₚ all_refs st refs) as Hperm.
  { unfold all_refs. simpl. by rewrite (edges_same _ _ b). }
  split; [|by apply live_count_same with b]. split; simpl; try done.
  - intros q c Hq Hc. destruct (decide (q = p)) as [->|].
    + rewrite lookup_insert_eq in Hq. injection Hq as <-. congruence.
    + rewrite lookup_insert_ne in Hq by done. rewrite Hperm. by apply H1.
  - by rewrite Hperm.
  - intros r Hr. rewrite Hperm in Hr. destruct (H3 r Hr) as [Ha|Hi].
    + left. rewrite alive_insert. case_decide; [|done]. subst. unfold alive in Ha. rewrite Hb in Ha. congruence.
    + right. eapply inert_insert; [done|by right|done].
  - intros q c Hq Hc. destruct (decide (q = p)) as [->|].
    + rewrite lookup_insert_eq in Hq. injection Hq as <-. congruence.
    + rewrite lookup_insert_ne in Hq by done. by apply (H4 q c).
  - intros r Hr. unfold nlive. rewrite (count_alive_same _ _ b) by done. by apply H7.
  - by rewrite (count_alive_same _ _ b).
  - intros n Hn. destruct (decide (n = p)) as [->|]; [done|]. rewrite lookup_insert_ne by done. by apply H10.
  - intros q Hq. rewrite lookup_insert_ne by (by intros ->). apply H11. by right.
  - intros q c Hq Hc. destruct (decide (q = p)) as [->|Hqp].
    + rewrite lookup_insert_eq in Hq. injection Hq as <-. by left.
    + rewrite lookup_insert_ne in Hq by done. destruct (H12 q c Hq Hc) as [?|[[->|?]%elem_of_cons|?]]; by auto.
Qed.

(** *** Region bookkeeping *)

Lemma get_region_in st id : id ∈ rid <$> regions st -> exists r, get_region st id = Some r /\ r ∈ regions st /\ rid r = id.
Proof.
  intros (r & -> & Hr)%list_elem_of_fmap. unfold get_region.
  destruct (list_find_elem_of (fun x => rid x = rid r) (regions st) r Hr eq_refl) as [[i x] Hf].
  rewrite Hf. apply list_find_Some in Hf as (Hx & He & _). exists x. split_and!; [done| |done].
  by eapply list_elem_of_lookup_2.
Qed.

Lemma put_region_rids rs r : rid <$> put_region rs r = rid <$> rs.
Proof.
  induction rs as [|x rs IH]; [done|]. cbn [put_region map fmap list_fmap]. fold (put_region rs r). cbn in IH. rewrite IH.
  destruct (Z.eqb_spec (rid x) (rid r)); congruence.
Qed.

(** Changing only the count of a region changes neither its records nor its nodes. *)
Lemma put_region_records {A} (f : region -> list A) rs r :
  (forall x, x ∈ rs -> rid x = rid r -> f x = f r) -> mbind f (put_region rs r) = mbind f rs.
Proof.
  induction rs as [|x rs IH]; intros Hf; [done|]. cbn [put_region map]. fold (put_region rs r).
  rewrite !bind_cons, IH by (intros y Hy; apply Hf; by right). f_equal.
  destruct (Z.eqb_spec (rid x) (rid r)); [|done]. symmetry. apply Hf; [by left|done].
Qed.

Lemma elem_of_put_region rs r x : x ∈ put_region rs r -> x = r \/ (x ∈ rs /\ rid x <> rid r).
Proof.
  unfold put_region. rewrite list_elem_of_In, in_map_iff. intros (y & Hy & Hin%list_elem_of_In).
  destruct (Z.eqb_spec (rid y) (rid r)); [by left|]. right. by subst.
Qed.

Lemma unlink_put rs r : unlink_region (put_region rs r) (rid r) = unlink_region rs (rid r).
Proof.
  unfold unlink_region, put_region. induction rs as [|x rs IH]; [done|]. cbn [map]. rewrite !filter_cons, IH.
  destruct (Z.eqb_spec (rid x) (rid r)) as [E|E]; [|done].
  rewrite (decide_False (P := rid r <> rid r)), (decide_False (P := rid x <> rid r)) by congruence. done.
Qed.

Lemma filter_keep {A} (P : A -> Prop) `{!forall x, Decision (P x)} (l : list A) :
  (forall x, x ∈ l -> P x) -> filter P l = l.
Proof.
  induction l as [|x l IH]; intros Hl; [done|]. rewrite filter_cons_True by (apply Hl; by left).
  rewrite IH; [done|]. intros y Hy. apply Hl. by right.
Qed.

Lemma unlink_perm rs r : NoDup (rid <$> rs) -> r ∈ rs -> rs ≡ₚ r :: unlink_region rs (rid r).
Proof.
  unfold unlink_region. induction rs as [|x rs IH]; intros Hnd Hr; [by apply elem_of_nil in Hr|].
  cbn in Hnd. apply NoDup_cons in Hnd as [Hx Hnd]. rewrite filter_cons.
  apply elem_of_cons in Hr as [->|Hr].
  - rewrite (decide_False (P := rid x <> rid x)) by congruence. f_equiv.
    rewrite filter_keep; [done|]. intros y Hy He. apply Hx. rewrite <- He. by apply list_elem_of_fmap_2.
  - rewrite decide_True; [|intros He; apply Hx; rewrite He; by apply list_elem_of_fmap_2].
    rewrite (IH Hnd Hr) at 1. apply perm_swap.
Qed.

Lemma count_alive_perm h ns ns' : ns ≡ₚ ns' -> count_alive h ns = count_alive h ns'.
Proof. intros H. unfold count_alive. by rewrite H. Qed.
Lemma count_alive_app h ns ns' : count_alive h (ns ++ ns') = (count_alive h ns + count_alive h ns')%nat.
Proof. unfold count_alive. by rewrite filter_app, length_app. Qed.
Lemma count_alive_zero h ns n : count_alive h ns = 0%nat -> n ∈ ns -> alive h n = false.
Proof.
  intros Hz Hn. destruct (alive h n) eqn:E; [|done]. unfold count_alive in Hz. apply nil_length_inv in Hz.
  assert (n ∈ filter (fun n => alive h n = true) ns) as Hin by (apply list_elem_of_filter; done).
  rewrite Hz in Hin. by apply elem_of_nil in Hin.
Qed.

Lemma region_count_bound st refs owners pend r : inv st refs owners pend -> r ∈ regions st ->
  0 < rrefs r < 2 ^ 31.
Proof.
  intros Hinv Hr. destruct (i_region _ _ _ _ Hinv r Hr) as [E Hp]. pose proof (i_count _ _ _ _ Hinv) as Hc.
  pose proof (unlink_perm _ _ (i_rids _ _ _ _ Hinv) Hr) as Hu.
  assert (all_nodes (regions st) ≡ₚ nodes r ++ all_nodes (unlink_region (regions st) (rid r))) as Hn.
  { unfold all_nodes. rewrite Hu at 1. done. }
  rewrite (count_alive_perm _ _ _ Hn), count_alive_app in Hc. fold (nlive (heap st) r) in Hc.
  pose proof (occ_le_length (rid r) owners). lia.
Qed.

Lemma region_dec st id r refs owners pend :
  inv st refs (id :: owners) pend -> r ∈ regions st -> rid r = id -> rrefs r <> 1 ->
  inv (set_regions st (put_region (regions st) (mk_region id (rrefs r - 1) (records r)))) refs owners pend.
Proof.
  intros Hinv Hr Hid Hne. pose proof Hinv as [H1 H2 H3 H4 H5 H6 H7 H8 H9 H10 H11 H12].
  set (r' := mk_region id (rrefs r - 1) (records r)).
  assert (forall x, x ∈ regions st -> rid x = rid r' -> x = r) as Huniq.
  { intros x Hx He. apply (rid_inj (regions st)); [done..|]. simpl in He. congruence. }
  assert (rec_refs (put_region (regions st) r') = rec_refs (regions st)) as Hrec.
  { apply put_region_records. intros x Hx He. by rewrite (Huniq x Hx He). }
  assert (all_nodes (put_region (regions st) r') = all_nodes (regions st)) as Hnod.
  { apply put_region_records. intros x Hx He. by rewrite (Huniq x Hx He). }
  assert (all_refs (set_regions st (put_region (regions st) r')) refs = all_refs st refs) as Hall.
  { unfold all_refs. simpl. by rewrite Hrec. }
  split; simpl; rewrite ?Hall, ?Hnod, ?put_region_rids; try done.
  - intros i Hi. apply H6. by right.
  - intros x Hx. destruct (H7 r Hr) as [E Ep].
    apply elem_of_put_region in Hx as [->|[Hx Hxne]].
    + simpl. rewrite occ_cons, Hid, decide_True in E by done. unfold nlive in *. change (nodes r') with (nodes r). lia.
    + destruct (H7 x Hx) as [Ex Exp]. rewrite occ_cons, decide_False in Ex; [done|]. simpl in Hxne. congruence.
  - simpl in H8. lia.
Qed.

Lemma region_unlink st id r refs owners pend :
  inv st refs (id :: owners) pend -> r ∈ regions st -> rid r = id -> rrefs r = 1 ->
  inv (set_regions st (unlink_region (regions st) id)) ((records r).*1 ++ refs) owners (nodes r ++ pend).
Proof.
  intros Hinv Hr Hid Hone. pose proof Hinv as [H1 H2 H3 H4 H5 H6 H7 H8 H9 H10 H11 H12].
  pose proof (unlink_perm _ _ H5 Hr) as Hu. rewrite Hid in Hu. set (rs' := unlink_region (regions st) id) in *.
  assert (all_nodes (regions st) ≡ₚ nodes r ++ all_nodes rs') as Hnod by (unfold all_nodes; by rewrite Hu at 1).
  destruct (H7 r Hr) as [E _]. rewrite occ_cons, Hid, decide_True in E by done.
  assert (occ id owners = 0%nat /\ nlive (heap st) r = 0%nat) as [Eo En] by lia. apply occ_zero in Eo.
  assert (all_refs (set_regions st rs') ((records r).*1 ++ refs) ≡ₚ all_refs st refs) as Hall.
  { unfold all_refs. simpl. assert (rec_refs (regions st) ≡ₚ (records r).*1 ++ rec_refs rs') as ->.
    { unfold rec_refs. by rewrite Hu at 1. }
    rewrite <- !(assoc_L (++)), !(assoc_L (++) refs). apply Permutation_app_swap_app. }
  split; simpl; try done.
  - intros p b Hb Hl. rewrite Hall. by apply H1.
  - by rewrite Hall.
  - intros x Hx. rewrite Hall in Hx. apply H3 in Hx as [?|Hi]; [by left|by right].
  - rewrite Hu in H5. cbn in H5. by apply NoDup_cons in H5 as [_ H5].
  - intros i Hi. assert (i ∈ rid <$> regions st) as Hin by (apply H6; by right). rewrite Hu in Hin. cbn in Hin.
    apply elem_of_cons in Hin as [->|Hin]; [|done]. congruence.
  - intros x Hx. assert (x ∈ regions st) as Hxr by (rewrite Hu; by right).
    destruct (H7 x Hxr) as [Ex Exp]. rewrite occ_cons, decide_False in Ex; [done|].
    apply list_elem_of_filter in Hx as [Hne _]. congruence.
  - rewrite (count_alive_perm _ _ _ Hnod), count_alive_app in H8. simpl in H8. lia.
  - rewrite Hnod in H9. rewrite <- (assoc_L (++)).
    rewrite (Permutation_app_swap_app (nodes r)). done.
  - intros n Hn. apply H10. rewrite Hnod, elem_of_app. by right.
  - intros n [Hn|Hn]%elem_of_app; [|by apply H11].
    destruct (H10 n) as (b & Hb & Hf & [Hl|Hm]); [rewrite Hnod, elem_of_app; by left| |by exists b].
    pose proof (count_alive_zero _ _ _ En Hn) as Ha. unfold alive in Ha. rewrite Hb in Ha. congruence.
  - intros q c Hq Hc. destruct (H12 q c Hq Hc) as [?|[?|[Hn|?]]]; [by left|right; left; rewrite elem_of_app; by right| |by auto].
    rewrite Hnod, elem_of_app in Hn. destruct Hn; [right; left; rewrite elem_of_app; by left|by auto].
Qed.

(** *** What never changes while references are dropped *)

(** Objects keep their identity, and the dead stay dead. *)
Definition sound (b : block) : Prop := live b = true \/ magic b = 0.
Definition same_object (b b' : block) : Prop :=
  birth b' = birth b /\ owned b' = owned b /\ destructor b' = destructor b /\
  (live b' = true -> live b = true /\ generation b' = generation b) /\ (sound b -> sound b').
Definition kept (st st' : state) : Prop :=
  generation_counter st' = generation_counter st /\ births st' = births st /\
  forall q, match heap st !! q, heap st' !! q with
            | Some b, Some b' => same_object b b'
            | None, None => True
            | _, _ => False
            end.

Lemma kept_refl st : kept st st.
Proof. split_and!; [done..|]. intros q. destruct (heap st !! q); [|done]. by split_and!. Qed.

Lemma kept_trans st1 st2 st3 : kept st1 st2 -> kept st2 st3 -> kept st1 st3.
Proof.
  intros (A1 & A2 & A3) (B1 & B2 & B3). split_and!; [congruence..|]. intros q. specialize (A3 q). specialize (B3 q).
  destruct (heap st1 !! q), (heap st2 !! q), (heap st3 !! q); try done.
  destruct A3 as (E1 & E2 & E3 & E4 & E5), B3 as (F1 & F2 & F3 & F4 & F5). split_and!; [congruence..| |by auto].
  intros H. destruct (F4 H) as [H' ?]. destruct (E4 H') as [? ?]. split; congruence.
Qed.

Lemma kept_insert st p b b' : heap st !! p = Some b -> same_object b b' ->
  kept st (set_heap st (<[p := b']> (heap st))).
Proof.
  intros Hb Hs. split_and!; [done..|]. intros q. simpl. destruct (decide (q = p)) as [->|].
  - by rewrite lookup_insert_eq, Hb.
  - rewrite lookup_insert_ne by done. destruct (heap st !! q); [|done]. by split_and!.
Qed.

Lemma kept_regions st rs : kept st (set_regions st rs).
Proof. exact (kept_refl st). Qed.

(** The outcome of dropping references: the invariant for what is left. *)
Definition dropped (st st' : state) (refs owners pend : list Z) : Prop :=
  inv st' refs owners pend /\ (live_count (heap st') <= live_count (heap st))%nat /\ kept st st'.

Lemma dropped_trans st1 st2 st3 refs owners pend refs' owners' pend' :
  dropped st1 st2 refs owners pend -> dropped st2 st3 refs' owners' pend' -> dropped st1 st3 refs' owners' pend'.
Proof. intros (_ & A2 & A3) (B1 & B2 & B3). split_and!; [done|lia|by eapply kept_trans]. Qed.

(** [release] drops one reference, for every state with fewer than [f] live objects. *)
Definition releases (release : state -> Z -> outcome state) (f : nat) : Prop :=
  forall st p refs owners pend, inv st (p :: refs) owners pend -> (live_count (heap st) < f)%nat ->
    wp (release st p) (fun st' => dropped st st' refs owners pend).

Section given_release.
Context (release : state -> Z -> outcome state) (f : nat) (Hrel : releases release f).

Lemma release_all_spec cs : forall st refs owners pend,
  inv st (cs ++ refs) owners pend -> (live_count (heap st) < f)%nat ->
  wp (release_all release st cs) (fun st' => dropped st st' refs owners pend).
Proof.
  induction cs as [|c cs IH]; intros st refs owners pend Hinv Hf; cbn [release_all].
  - cbn [wp]. split_and!; [done|lia|apply kept_refl].
  - apply wp_bind. eapply wp_mono; [by apply (Hrel st c (cs ++ refs) owners pend)|].
    intros st1 Hd. pose proof Hd as (Hi & Hc & _). eapply wp_mono; [apply IH; [exact Hi|lia]|].
    intros st2 Hd2. exact (dropped_trans _ _ _ _ _ _ _ _ _ Hd Hd2).
Qed.

Lemma free_dropped st p refs owners pend : inv st refs owners (p :: pend) ->
  wp (free_block st p) (fun st' => dropped st st' refs owners pend).
Proof.
  intros Hinv. pose proof (free_step st p refs owners pend Hinv) as Hw.
  destruct (i_pend _ _ _ _ Hinv p) as (b & Hb & Hf & Hm); [by left|].
  unfold free_block in *. rewrite Hb, Hf in *. cbn [wp] in *. destruct Hw as [Hi Hc].
  split_and!; [done|lia|]. apply (kept_insert st p b); [done|]. split_and!; try done.
Qed.

Lemma destroy_records_spec recs : forall st refs owners pend,
  inv st (recs.*1 ++ refs) owners (recs.*2 ++ pend) -> (live_count (heap st) < f)%nat ->
  wp (destroy_records release st recs) (fun st' => dropped st st' refs owners pend).
Proof.
  induction recs as [|[rec node] recs IH]; intros st refs owners pend Hinv Hf; cbn [destroy_records].
  - cbn [wp]. split_and!; [done|lia|apply kept_refl].
  - cbn in Hinv. apply wp_bind. eapply wp_mono; [by apply free_dropped|].
    intros st1 Hd1. pose proof Hd1 as (Hi1 & Hc1 & _). apply wp_bind.
    eapply wp_mono; [apply (Hrel st1 rec (recs.*1 ++ refs) owners (recs.*2 ++ pend)); [exact Hi1|lia]|].
    intros st2 Hd2. pose proof Hd2 as (Hi2 & Hc2 & _). eapply wp_mono; [apply IH; [exact Hi2|lia]|].
    intros st3 Hd3. exact (dropped_trans _ _ _ _ _ _ _ _ _ Hd1 (dropped_trans _ _ _ _ _ _ _ _ _ Hd2 Hd3)).
Qed.

(** Dropping one count of a region; when it is the last one the region is torn down. *)
Lemma node_zero_spec st id refs owners pend :
  inv st refs (id :: owners) pend -> (live_count (heap st) < f)%nat ->
  wp (lpp__arena_node_zero release st id) (fun st' => dropped st st' refs owners pend).
Proof.
  intros Hinv Hf. unfold lpp__arena_node_zero.
  destruct (get_region_in st id) as (r & -> & Hr & Hid); [apply (i_owner _ _ _ _ Hinv); by left|].
  pose proof (region_count_bound _ _ _ _ r Hinv Hr) as Hb.
  assert (i32 (rrefs r - 1) = rrefs r - 1) as ->.
  { apply swrap_id; [lia|]. change (2 ^ (32 - 1)) with (2 ^ 31). pow2. lia. }
  cbn [rrefs rid records]. rewrite Hid. destruct (Z.eqb_spec (rrefs r - 1) 0) as [Hz|Hnz].
  - unfold lpp__arena_destroy. cbn [rid records regions set_regions].
    set (r' := mk_region id (rrefs r - 1) (records r)).
    change (unlink_region (put_region (regions st) r') id) with (unlink_region (put_region (regions st) r') (rid r')).
    rewrite unlink_put. cbn [rid r'].
    pose proof (region_unlink st id r refs owners pend Hinv Hr Hid ltac:(lia)) as Hu.
    eapply wp_mono; [apply (destroy_records_spec (records r) _ refs owners pend); [exact Hu|done]|].
    intros st' Hd. done.
  - cbn [wp]. split_and!; [apply region_dec; done || lia|done|apply kept_regions].
Qed.
End given_release.

(** [lpp_arc_release] drops exactly one reference. *)
Lemma release_correct f : releases (lpp_arc_release quiet foreign f) f.
Proof.
  induction f as [|f IH]; intros st p refs owners pend Hinv Hf; [lia|]. cbn [lpp_arc_release].
  destruct (i_refs _ _ _ _ Hinv p) as [Ha|Hi]; [rewrite all_refs_cons; by left| |].
  2: { assert (wp (Ok st) (fun st' => dropped st st' refs owners pend)) as Hkeep.
       { cbn [wp]. split_and!; [|lia|apply kept_refl]. apply (drop_inert st p); [done|].
         destruct (alive (heap st) p) eqn:E; [|done]. pose proof (not_alive_inert _ _ Hi E).
         apply alive_block in E as (b & Hb & Hl). destruct (i_live _ _ _ _ Hinv p b Hb Hl). congruence. }
       destruct (valid_inert st p Hi) as [->|(-> & b & Hh & Him)]; [done|]. cbn [obind negb]. rewrite Hh. cbn [obind]. by rewrite Him. }
  apply alive_block in Ha as (b & Hb & Hl). destruct (i_live _ _ _ _ Hinv p b Hb Hl) as (Hok & Hfr & _ & _).
  pose proof (count_bound _ _ _ _ _ _ Hinv Hb Hl) as Hbd. destruct (live_magic b Hl) as [_ Him].
  destruct (valid_live st p b Hok Hb Hl Hfr) as [-> Hh]. cbn [obind negb]. rewrite Hh. cbn [obind]. rewrite Him.
  assert (i32 (refcount b - 1) = refcount b - 1) as ->.
  { apply swrap_id; [lia|]. unfold LPP_ARC_IMMORTAL in Hbd. change (2 ^ (32 - 1)) with (2 ^ 31). pow2. lia. }
  destruct (Z.eqb_spec (refcount b) 1) as [Hone|Hmore].
  2: { cbn [wp]. destruct (dec_step st p b refs owners pend Hinv Hb Hl Hmore) as [Hi1 Hc1].
       split_and!; [done|lia|]. apply (kept_insert st p b); [done|]. split_and!; try done.
       intros _. left. apply (live_set_count st p b _ _ _ _ Hinv); done || lia. }
  rewrite Hone. change (1 - 1) with 0. simpl heap. rewrite insert_insert_eq.
  change (invalidate (set_count b 0)) with (dead b).
  change (set_heap (set_heap st (<[p:=set_count b 0]> (heap st))) (<[p:=dead b]> (heap st)))
    with (set_heap st (<[p:=dead b]> (heap st))).
  change (destructor (set_count b 0)) with (destructor b). change (owned (set_count b 0)) with (owned b).
  set (st1 := set_heap st (<[p:=dead b]> (heap st))).
  destruct (kill_refs st p b refs owners pend Hinv Hb Hl Hone) as [_ Hlc].
  pose proof (kill_step st p b refs owners pend Hinv Hb Hl Hone) as Hk. fold st1 in Hlc, Hk.
  assert (kept st st1) as Hkept.
  { apply (kept_insert st p b); [done|]. split_and!; try done. intros _. by right. }
  assert ((if destructor b then release_all (lpp_arc_release quiet foreign f) st1 (owned b) else Ok st1)
    = release_all (lpp_arc_release quiet foreign f) st1 (owned b)) as ->.
  { destruct (destructor b) eqn:Ed; [done|]. by rewrite (i_dtor _ _ _ _ Hinv p b Hb Hl Ed). }
  apply wp_bind. eapply wp_mono; [apply (release_all_spec _ f IH (owned b) st1); [exact Hk|lia]|].
  intros st2 (Hi2 & Hc2 & Hk2).
  assert (forall st3, dropped st2 st3 refs owners pend -> dropped st st3 refs owners pend) as Hfin.
  { intros st3 (Hi3 & Hc3 & Hk3). split_and!; [done|lia|]. eapply kept_trans; [done|]. by eapply kept_trans. }
  destruct (lpp__arena_for_header st p) as [id|]; cbn [pay fst snd] in Hi2.
  - eapply wp_mono; [apply (node_zero_spec _ f IH st2 id refs owners pend); [done|lia]|]. done.
  - eapply wp_mono; [by apply free_dropped|]. done.
Qed.

(** *** Taking references and making objects *)

Lemma retain_step st p refs owners pend :
  inv st refs owners pend -> alive (heap st) p = true \/ inert st p ->
  Z.of_nat (length (all_refs st refs)) + 1 < LPP_ARC_IMMORTAL ->
  wp (lpp_arc_retain quiet foreign st p) (fun st' => inv st' (p :: refs) owners pend /\ kept st st').
Proof.
  intros Hinv Hp Hsm. unfold lpp_arc_retain.
  assert (alive (heap st) p = false -> inert st p -> inv st (p :: refs) owners pend) as Hin.
  { intros Ha Hi. destruct Hinv as [H1 H2 H3 H4 H5 H6 H7 H8 H9 H10 H11 H12]. split; try done.
    - intros q c Hq Hc. rewrite all_refs_cons, occ_cons, decide_False; [by apply H1|].
      intros ->. unfold alive in Ha. by rewrite Hq, Hc in Ha.
    - rewrite all_refs_cons. cbn [length]. lia.
    - intros r. rewrite all_refs_cons, elem_of_cons. intros [->|?]; [by right|by apply H3]. }
  destruct (alive (heap st) p) eqn:Ha.
  2: { destruct Hp as [?|Hi]; [done|].
       assert (wp (Ok st) (fun st' => inv st' (p :: refs) owners pend /\ kept st st')) as Hkeep.
       { cbn [wp]. split; [by apply Hin|apply kept_refl]. }
       destruct (valid_inert st p Hi) as [->|(-> & b & Hh & Him)]; [done|]. cbn [obind negb].
       rewrite Hh. cbn [obind]. by rewrite Him. }
  apply alive_block in Ha as (b & Hb & Hl). destruct (i_live _ _ _ _ Hinv p b Hb Hl) as (Hok & Hfr & Hrc & Hpos).
  destruct (live_magic b Hl) as [_ Him]. pose proof (occ_le_length p (all_refs st refs)) as Hol.
  destruct (valid_live st p b Hok Hb Hl Hfr) as [-> Hh]. cbn [obind negb]. rewrite Hh. cbn [obind]. rewrite Him.
  assert (i32 (refcount b + 1) = refcount b + 1) as ->.
  { apply swrap_id; [lia|]. unfold LPP_ARC_IMMORTAL in Hsm. change (2 ^ (32 - 1)) with (2 ^ 31). pow2. lia. }
  cbn [wp]. set (b' := set_count b (refcount b + 1)).
  assert (live b' = true) as Hl' by (apply (live_set_count st p b _ _ _ _ Hinv); done || lia).
  assert (all_refs (set_heap st (<[p:=b']> (heap st))) (p :: refs) ≡ₚ p :: all_refs st refs) as Hall.
  { rewrite all_refs_cons. unfold all_refs. simpl. by rewrite (edges_same _ _ b) by (done || congruence). }
  destruct (regions_same st p b b' _ _ _ Hinv Hb Hl Hl' Hfr) as (B1 & B0 & B2 & B3).
  split; [|apply (kept_insert st p b); [done|]; split_and!; try done; intros _; by left].
  destruct Hinv as [H1 H2 H3 H4 H5 H6 H7 H8 H9 H10 H11 H12]. split; try done.
  - intros q c Hq Hc. rewrite Hall. simpl in Hq. destruct (decide (q = p)) as [->|].
    + rewrite lookup_insert_eq in Hq. injection Hq as <-. rewrite occ_cons, decide_True by done.
      split_and!; [done|done|simpl; lia|simpl; lia].
    + rewrite lookup_insert_ne in Hq by done. rewrite occ_cons, decide_False by done. by apply H1.
  - rewrite Hall. cbn [length]. lia.
  - intros r. rewrite Hall, elem_of_cons. intros [->|Hr].
    + left. simpl. by rewrite alive_insert, decide_True.
    + destruct (H3 r Hr) as [?|Hi]; [left; simpl; rewrite alive_insert; by case_decide|].
      right. eapply inert_insert; [done|by left|done].
  - intros q c Hq Hc. simpl in Hq. destruct (decide (q = p)) as [->|].
    + rewrite lookup_insert_eq in Hq. injection Hq as <-. by apply (H4 p b).
    + rewrite lookup_insert_ne in Hq by done. by apply (H4 q c).
  - intros q c Hq Hc. simpl in Hq. destruct (decide (q = p)) as [->|].
    + rewrite lookup_insert_eq in Hq. congruence.
    + rewrite lookup_insert_ne in Hq by done. by apply (H12 q c).
Qed.

(** The address the allocator returns is not in use: never handed out, or freed, and no
    reference in the program points there. *)
Definition fresh_addr (st : state) (refs : list Z) (a : Z) : Prop :=
  ptr_ok a = true /\ (forall b, heap st !! a = Some b -> freed b = true /\ live b = false) /\ a ∉ all_refs st refs.

Lemma hsum_fresh_addr {A} (g : block -> list A) st refs a b' : fresh_addr st refs a ->
  (forall b, live b = false -> g b = []) -> hsum g (<[a := b']> (heap st)) ≡ₚ g b' ++ hsum g (heap st).
Proof.
  intros (_ & Hf & _) Hg. destruct (heap st !! a) as [b|] eqn:E; [|by apply hsum_fresh].
  destruct (hsum_insert g (heap st) a b b' E) as (rest & -> & ->). destruct (Hf b eq_refl) as [_ Hl]. by rewrite (Hg b Hl).
Qed.

Lemma alloc_step st a dtor refs owners pend :
  inv st refs owners pend -> fresh_addr st refs a -> Z.of_nat (length (all_refs st refs)) + 1 < LPP_ARC_IMMORTAL ->
  let st' := (lpp_arc_alloc_with_destructor st (Some a) dtor).2 in
  inv st' (a :: refs) owners pend /\ regions st' = regions st /\
  all_refs st' (a :: refs) ≡ₚ a :: all_refs st refs.
Proof.
  intros Hinv Hfa Hsm. cbn [lpp_arc_alloc_with_destructor lpp__next_generation snd].
  set (b' := mk_block _ _ _ _ _ _ _). set (st' := mk_state _ _ _ _).
  assert (live b' = true) as Hl' by done.
  assert (edges (heap st') ≡ₚ edges (heap st)) as Hed.
  { unfold edges, st'. simpl heap. rewrite (hsum_fresh_addr contrib st refs) by (done || (intros b Hb; unfold contrib; by rewrite Hb)). done. }
  assert (all_refs st' (a :: refs) ≡ₚ a :: all_refs st refs) as Hall.
  { rewrite all_refs_cons. unfold all_refs. simpl regions. by rewrite Hed. }
  destruct Hfa as (Hok & Hfree & Hna).
  assert ((a ∉ pend) /\ (a ∉ all_nodes (regions st))) as [Hap Han].
  { split; intros Hin.
    - destruct (i_pend _ _ _ _ Hinv a Hin) as (b & Hb & Hf & _). destruct (Hfree b Hb). congruence.
    - destruct (i_node _ _ _ _ Hinv a Hin) as (b & Hb & Hf & _). destruct (Hfree b Hb). congruence. }
  split_and!; [|done|done].
  assert (heap st' = <[a := b']> (heap st)) as Hh by done. assert (regions st' = regions st) as Hrg by done.
  clearbody st'. destruct Hinv as [H1 H2 H3 H4 H5 H6 H7 H8 H9 H10 H11 H12].
  split; rewrite ?Hall, ?Hh, ?Hrg; try done.
  - intros q c Hq Hc. rewrite Hall. destruct (decide (q = a)) as [->|].
    + rewrite lookup_insert_eq in Hq. injection Hq as <-. rewrite occ_cons, decide_True by done.
      apply occ_zero in Hna. rewrite Hna. done.
    + rewrite lookup_insert_ne in Hq by done. rewrite occ_cons, decide_False by done. by apply H1.
  - cbn [length]. lia.
  - intros r. rewrite Hall, elem_of_cons. intros [->|Hr]; [left; by rewrite alive_insert, decide_True|].
    assert (r <> a) by (by intros ->).
    destruct (H3 r Hr) as [?|[Hi|[(Hn & Hw)|(c & Hc & Hi)]]].
    + left. by rewrite alive_insert, decide_False.
    + right. by left.
    + right. right. left. by rewrite Hh, lookup_insert_ne.
    + right. right. right. exists c. by rewrite Hh, lookup_insert_ne.
  - intros q c Hq Hc. destruct (decide (q = a)) as [->|].
    + rewrite lookup_insert_eq in Hq. by injection Hq as <-.
    + rewrite lookup_insert_ne in Hq by done. by apply (H4 q c).
  - intros r Hr. unfold nlive. rewrite count_alive_other; [by apply H7|]. intros Hin. apply Han. by eapply elem_of_all_nodes.
  - by rewrite count_alive_other.
  - intros n Hn. rewrite lookup_insert_ne by (by intros ->). by apply H10.
  - intros q Hq. rewrite lookup_insert_ne by (by intros ->). by apply H11.
  - intros q c Hq Hc. destruct (decide (q = a)) as [->|].
    + rewrite lookup_insert_eq in Hq. injection Hq as <-. done.
    + rewrite lookup_insert_ne in Hq by done. by apply (H12 q c).
Qed.

(** Moving references from the program into an object it holds. *)
Definition set_owned (b : block) (cs : list Z) : block :=
  mk_block (magic b) (refcount b) (generation b) (destructor b) cs (freed b) (birth b).

Lemma adopt_step st o b c refs owners pend :
  inv st (c :: refs) owners pend -> heap st !! o = Some b -> live b = true -> destructor b = true ->
  let st' := set_heap st (<[o := set_owned b (c :: owned b)]> (heap st)) in
  inv st' refs owners pend /\ all_refs st' refs ≡ₚ all_refs st (c :: refs).
Proof.
  intros Hinv Hb Hl Hd. set (b' := set_owned b (c :: owned b)). cbn zeta.
  set (st' := set_heap st (<[o := b']> (heap st))).
  assert (live b' = true) as Hl' by done.
  destruct (i_live _ _ _ _ Hinv o b Hb Hl) as (_ & Hfr & _).
  assert (all_refs st' refs ≡ₚ all_refs st (c :: refs)) as Hall.
  { rewrite all_refs_cons. unfold all_refs, st', edges. simpl.
    destruct (hsum_insert contrib (heap st) o b b' Hb) as (rest & -> & ->).
    unfold contrib. rewrite Hl, Hl'. cbn [owned b' set_owned app]. by rewrite <- Permutation_middle. }
  split; [|done]. destruct (regions_same st o b b' _ _ _ Hinv Hb Hl Hl' Hfr) as (B1 & B0 & B2 & B3).
  destruct Hinv as [H1 H2 H3 H4 H5 H6 H7 H8 H9 H10 H11 H12]. split; try done.
  - intros q x Hq Hx. rewrite Hall. simpl in Hq. destruct (decide (q = o)) as [->|].
    + rewrite lookup_insert_eq in Hq. injection Hq as <-. exact (H1 o b Hb Hl).
    + rewrite lookup_insert_ne in Hq by done. by apply H1.
  - by rewrite Hall.
  - intros r. rewrite Hall. intros Hr. destruct (H3 r Hr) as [Ha|Hi].
    + left. simpl. rewrite alive_insert. by case_decide.
    + right. eapply inert_insert; [done|by left|done].
  - intros q x Hq Hx Hdx. simpl in Hq. destruct (decide (q = o)) as [->|].
    + rewrite lookup_insert_eq in Hq. injection Hq as <-. simpl in Hdx. congruence.
    + rewrite lookup_insert_ne in Hq by done. by apply (H4 q x).
  - intros q x Hq Hx. simpl in Hq. destruct (decide (q = o)) as [->|].
    + rewrite lookup_insert_eq in Hq. congruence.
    + rewrite lookup_insert_ne in Hq by done. by apply (H12 q x).
Qed.

(** *** Arenas: opening one, allocating in one *)

Lemma arena_begin_step st id refs owners pend :
  inv st refs owners pend -> id ∉ rid <$> regions st ->
  Z.of_nat (S (length owners) + count_alive (heap st) (all_nodes (regions st))) < 2 ^ 31 ->
  inv (lpp_arena_begin st (Some id)).2 refs (id :: owners) pend.
Proof.
  intros [H1 H2 H3 H4 H5 H6 H7 H8 H9 H10 H11 H12] Hid Hc. split; try done.
  - simpl. apply NoDup_cons. done.
  - intros i. simpl. rewrite !elem_of_cons. intros [->|?]; [by left|right; by apply H6].
  - intros r. simpl. rewrite elem_of_cons. intros [->|Hr].
    + simpl. assert (id ∉ owners) as Ho by (intros Hin; by apply Hid, H6).
      apply occ_zero in Ho. rewrite occ_cons, decide_True, Ho by done. done.
    + rewrite occ_cons, decide_False; [by apply H7|]. intros Heq. apply Hid, list_elem_of_fmap. by exists r.
Qed.

Lemma arena_join_step st r rec p b refs owners :
  inv st (rec :: p :: refs) owners [] -> r ∈ regions st -> p ∉ all_nodes (regions st) ->
  heap st !! p = Some b -> live b = true ->
  Z.of_nat (S (length owners) + count_alive (heap st) (all_nodes (regions st))) < 2 ^ 31 ->
  inv (set_regions st (put_region (regions st) (mk_region (rid r) (rrefs r + 1) ((rec, p) :: records r))))
    (p :: refs) owners [].
Proof.
  intros Hinv Hr Hp Hb Hl Hc. pose proof Hinv as [H1 H2 H3 H4 H5 H6 H7 H8 H9 H10 H11 H12].
  set (r' := mk_region (rid r) (rrefs r + 1) ((rec, p) :: records r)).
  pose proof (unlink_perm _ _ H5 Hr) as Hu. set (rs' := unlink_region (regions st) (rid r)) in *.
  assert (put_region (regions st) r' ≡ₚ r' :: rs') as Hput.
  { assert (r' ∈ put_region (regions st) r') as Hin.
    { unfold put_region. rewrite list_elem_of_In, in_map_iff. exists r. split; [change (rid r') with (rid r); by rewrite Z.eqb_refl|by apply list_elem_of_In]. }
    etrans; [apply (unlink_perm _ r'); [by rewrite put_region_rids|done]|]. by rewrite unlink_put. }
  set (st' := set_regions st (put_region (regions st) r')).
  assert (all_nodes (regions st) ≡ₚ nodes r ++ all_nodes rs') as Hn0 by (unfold all_nodes; by rewrite Hu at 1).
  assert (all_nodes (regions st') ≡ₚ p :: all_nodes (regions st)) as Hnod.
  { rewrite Hn0. unfold all_nodes, st'. simpl regions. by rewrite Hput at 1. }
  assert (all_refs st' (p :: refs) ≡ₚ all_refs st (rec :: p :: refs)) as Hall.
  { assert (rec_refs (regions st) ≡ₚ (records r).*1 ++ rec_refs rs') as Hr0 by (unfold rec_refs; by rewrite Hu at 1).
    assert (rec_refs (regions st') ≡ₚ rec :: rec_refs (regions st)) as Hr1.
    { rewrite Hr0. unfold rec_refs, st'. simpl regions. by rewrite Hput at 1. }
    rewrite !all_refs_cons. unfold all_refs. rewrite Hr1. cbn [heap set_regions st'].
    rewrite <- !Permutation_middle. apply Permutation_swap. }
  assert (alive (heap st) p = true) as Ha by (apply alive_block; eauto).
  assert (forall ns, count_alive (heap st) (p :: ns) = S (count_alive (heap st) ns)) as Hcons.
  { intros ns. unfold count_alive. by rewrite filter_cons_True. }
  split; try done.
  - intros q x Hq Hx. rewrite Hall. by apply H1.
  - by rewrite Hall.
  - intros x. rewrite Hall. apply H3.
  - simpl. by rewrite put_region_rids.
  - intros i Hi. simpl. rewrite put_region_rids. by apply H6.
  - intros x Hx. apply elem_of_put_region in Hx as [->|[Hx _]]; [|by apply H7]. destruct (H7 r Hr) as [E Ep].
    unfold nlive. change (nodes r') with (p :: nodes r). rewrite Hcons. simpl. unfold nlive in E. lia.
  - rewrite (count_alive_perm _ _ _ Hnod), Hcons. simpl. lia.
  - change (NoDup (all_nodes (regions st'))). rewrite Hnod. apply NoDup_cons. done.
  - intros n. rewrite Hnod, elem_of_cons. intros [->|Hn]; [|by apply H10].
    destruct (H1 p b Hb Hl) as (_ & Hfr & _). exists b. auto.
  - intros q x Hq Hx. destruct (H12 q x Hq Hx) as [?|[?|[?|?]]]; auto. right. right. left. rewrite Hnod. by right.
Qed.
End invariant.

(** ** Programs

    A configuration is the runtime's state with the references and the arena handles the
    program holds.  A command is one runtime call of the compiled program, or its storing a
    reference in a field of an object. *)

Record config := mk_config { cst : state; crefs : list Z; cowners : list Z }.

Inductive cmd : Type :=
| CAlloc (addr : option Z) (dtor : bool)
| CRetain (p : Z)
| CRelease (p : Z)
| CRetainLocal (p : Z)
| CReleaseLocal (p : Z)
| CStore (o c : Z)
| CArenaBegin (id : option Z)
| CArenaAlloc (id size : Z) (addr rec_addr : option Z) (dtor : bool)
| CArenaRelease (id : Z)
| CArenaRetain (p : Z)
| CArenaReleaseNode (p : Z).

Fixpoint remove1 (x : Z) (l : list Z) : list Z :=
  match l with [] => [] | y :: l => if y =? x then l else y :: remove1 x l end.

Lemma remove1_perm x l : x ∈ l -> l ≡ₚ x :: remove1 x l.
Proof.
  induction l as [|y l IH]; intros H; [by apply elem_of_nil in H|]. cbn [remove1].
  destruct (Z.eqb_spec y x) as [->|]; [done|]. apply elem_of_cons in H as [?|H]; [congruence|].
  rewrite (IH H) at 1. apply Permutation_swap.
Qed.

Section machine.
Context (quiet : bool) (foreign : Z -> option Z).

(** The depth of nested destructors is bounded by the number of live objects. *)
Definition fuel_of (st : state) : nat := S (live_count (heap st)).

Definition exec (c : cmd) (k : config) : outcome config :=
  let '(mk_config st refs owners) := k in
  match c with
  | CAlloc addr dtor =>
      let '(p, st) := lpp_arc_alloc_with_destructor st addr dtor in
      Ok (mk_config st (if p =? 0 then refs else p :: refs) owners)
  | CRetain p => let! st := lpp_arc_retain quiet foreign st p in Ok (mk_config st (p :: refs) owners)
  | CRelease p =>
      let! st := lpp_arc_release quiet foreign (fuel_of st) st p in Ok (mk_config st (remove1 p refs) owners)
  | CRetainLocal p => let! st := lpp_arc_retain_local quiet foreign st p in Ok (mk_config st (p :: refs) owners)
  | CReleaseLocal p =>
      let! st := lpp_arc_release_local quiet foreign (fuel_of st) st p in Ok (mk_config st (remove1 p refs) owners)
  | CStore o c =>
      match heap st !! o with
      | Some b => Ok (mk_config (set_heap st (<[o := set_owned b (c :: owned b)]> (heap st))) (remove1 c refs) owners)
      | None => Undef
      end
  | CArenaBegin id =>
      let '(h, st) := lpp_arena_begin st id in
      Ok (mk_config st refs (if h =? 0 then owners else h :: owners))
  | CArenaAlloc id size addr rec_addr dtor =>
      let! res := lpp_arena_alloc quiet foreign (S (fuel_of st)) st size id addr rec_addr dtor in
      Ok (mk_config res.2 (if res.1 =? 0 then refs else res.1 :: refs) owners)
  | CArenaRelease id =>
      let! st := lpp_arena_release quiet foreign (fuel_of st) st id in Ok (mk_config st refs (remove1 id owners))
  | CArenaRetain p => let! st := lpp_arena_retain quiet foreign st p in Ok (mk_config st (p :: refs) owners)
  | CArenaReleaseNode p =>
      let! st := lpp_arena_release_node quiet foreign (fuel_of st) st p in Ok (mk_config st (remove1 p refs) owners)
  end.

(** What a correct program respects: it releases only references it holds, retains only
    pointers to objects that are still there (or pointers the counter ignores), stores only
    into objects with a destructor, and never holds 2^30 references at once; the allocator
    returns unused memory. *)
Definition inertb (st : state) (r : Z) : bool :=
  negb (ptr_ok r) ||
  match heap st !! r with
  | None => match foreign r with Some w => negb (w =? LPP_ARC_MAGIC) | None => false end
  | Some b => (magic b =? LPP_ARC_MAGIC) && lpp__is_immortal b && negb (freed b)
  end.
Definition freshb (st : state) (refs : list Z) (a : Z) : bool :=
  ptr_ok a && match heap st !! a with Some b => freed b && negb (live b) | None => true end
  && bool_decide (a ∉ all_refs st refs).
Definition granted_fresh (st : state) (refs : list Z) (a : option Z) : bool :=
  match a with Some a => freshb st refs a | None => true end.
Definition room (st : state) (refs : list Z) : bool :=
  Z.of_nat (length (all_refs st refs)) + 2 <? LPP_ARC_IMMORTAL.
Definition arena_room (st : state) (owners : list Z) : bool :=
  Z.of_nat (S (length owners) + count_alive (heap st) (all_nodes (regions st))) <? 2 ^ 31.
Definition usable (st : state) (p : Z) : bool := alive (heap st) p || inertb st p.

Definition permitted (k : config) (c : cmd) : bool :=
  let '(mk_config st refs owners) := k in
  match c with
  | CAlloc addr _ => granted_fresh st refs addr && room st refs
  | CRetain p | CRetainLocal p => usable st p && room st refs
  | CRelease p | CReleaseLocal p => bool_decide (p ∈ refs)
  | CStore o c => bool_decide (c ∈ refs) && match heap st !! o with Some b => live b && destructor b | None => false end
  | CArenaBegin id =>
      match id with Some id => negb (id =? 0) && bool_decide (id ∉ rid <$> regions st) | None => true end
      && arena_room st owners
  | CArenaAlloc id size addr rec_addr _ =>
      bool_decide (id ∈ owners) && granted_fresh st refs addr && granted_fresh st refs rec_addr
      && bool_decide (addr = None \/ addr <> rec_addr) && room st refs && arena_room st owners
  | CArenaRelease id => bool_decide (id ∈ owners) && negb (id =? 0)
  | CArenaRetain p =>
      alive (heap st) p && bool_decide (p ∈ all_nodes (regions st)) && room st refs
  | CArenaReleaseNode p =>
      bool_decide (p ∈ refs) && alive (heap st) p && bool_decide (p ∈ all_nodes (regions st))
  end.

(** A program starts with its string literals in memory: immortal objects. *)
Definition literals (h : gmap Z block) : Prop :=
  forall p b, h !! p = Some b -> magic b = LPP_ARC_MAGIC /\ lpp__is_immortal b = true /\ freed b = false.

Inductive reachable : config -> Prop :=
| reach_init h : literals h -> reachable (mk_config (mk_state h 1 [] 0) [] [])
| reach_step k c k' : reachable k -> permitted k c = true -> exec c k = Ok k' -> reachable k'.

(** Later configurations of the same run. *)
Inductive later (k : config) : config -> Prop :=
| later_refl : later k k
| later_step c k1 k2 : later k k1 -> permitted k1 c = true -> exec c k1 = Ok k2 -> later k k2.

(** Runs a program, stopping at the first command it may not issue. *)
Fixpoint run (cs : list cmd) (k : config) : outcome config :=
  match cs with
  | [] => Ok k
  | c :: cs => if permitted k c then let! k := exec c k in run cs k else Undef
  end.

Lemma run_later cs : forall k0 k k', later k0 k -> run cs k = Ok k' -> later k0 k'.
Proof.
  induction cs as [|c cs IH]; intros k0 k k' Hk H; cbn [run] in H; [by injection H as <-|].
  destruct (permitted k c) eqn:Hp; [|done]. destruct (exec c k) as [k1| | |] eqn:E; try done.
  apply (IH k0 k1); [by eapply later_step|done].
Qed.

Lemma later_reachable k k' : reachable k -> later k k' -> reachable k'.
Proof. intros Hk H. induction H as [|c k1 k2 _ IH Hp He]; [done|]. by eapply reach_step. Qed.

(** *** Generations *)

Definition gens (st : state) : Prop :=
  generation_counter st = i32 (births st + 1) /\ 0 <= births st /\
  forall p b, heap st !! p = Some b -> live b = true -> generation b = i32 (birth b + 2) /\ 0 <= birth b < births st.

(** The block at [p] is or was an object made by the allocator. *)
Definition solid (st : state) (p : Z) : Prop := exists b, heap st !! p = Some b /\ sound b.
Definition grows (st st' : state) : Prop :=
  gens st' /\ births st <= births st' /\ forall p, solid st p -> solid st' p.

Lemma grows_trans st1 st2 st3 : grows st1 st2 -> grows st2 st3 -> grows st1 st3.
Proof. intros (A1 & A2 & A3) (B1 & B2 & B3). split_and!; [done|lia|auto]. Qed.

Lemma grows_refl st : gens st -> grows st st.
Proof. intros H. split_and!; [done|lia|done]. Qed.

Lemma kept_grows st st' : gens st -> kept st st' -> grows st st'.
Proof.
  intros (G1 & G2 & G3) (K1 & K2 & K3). split_and!; [split_and!; [congruence|lia|]|lia|].
  - intros p b Hb Hl. specialize (K3 p). rewrite Hb in K3. destruct (heap st !! p) as [b0|] eqn:E; [|done].
    destruct K3 as (Hbi & _ & _ & Hg & _). destruct (Hg Hl) as [Hl0 ->]. rewrite Hbi, K2. by apply (G3 p).
  - intros p (b & Hb & Hs). specialize (K3 p). rewrite Hb in K3. destruct (heap st' !! p) as [b'|] eqn:E; [|done].
    destruct K3 as (_ & _ & _ & _ & Hso). exists b'. auto.
Qed.

Lemma alloc_grows st a dtor : gens st -> grows st (lpp_arc_alloc_with_destructor st (Some a) dtor).2.
Proof.
  intros (G1 & G2 & G3). cbn [lpp_arc_alloc_with_destructor lpp__next_generation snd].
  assert (i32 (generation_counter st + 1) = i32 (births st + 2)) as Hg.
  { rewrite G1. unfold i32. rewrite swrap_add. f_equal. lia. }
  split_and!; [split_and!|simpl; lia|]; simpl.
  - rewrite Hg. f_equal. lia.
  - lia.
  - intros p b Hb Hl. destruct (decide (p = a)) as [->|].
    + rewrite lookup_insert_eq in Hb. injection Hb as <-. simpl. split; [done|lia].
    + rewrite lookup_insert_ne in Hb by done. destruct (G3 p b Hb Hl). split; [done|lia].
  - intros p (b & Hb & Hs). unfold solid. simpl. destruct (decide (p = a)) as [->|].
    + rewrite lookup_insert_eq. eexists. split; [done|by left].
    + rewrite lookup_insert_ne by done. eauto.
Qed.

Lemma adopt_grows st o b cs : gens st -> heap st !! o = Some b ->
  grows st (set_heap st (<[o := set_owned b cs]> (heap st))).
Proof.
  intros (G1 & G2 & G3) Hb. split_and!; [split_and!; [done..|]|simpl; lia|]; simpl.
  - intros p x Hx Hl. destruct (decide (p = o)) as [->|].
    + rewrite lookup_insert_eq in Hx. injection Hx as <-. exact (G3 o b Hb Hl).
    + rewrite lookup_insert_ne in Hx by done. by apply (G3 p).
  - intros p (x & Hx & Hs). unfold solid. simpl. destruct (decide (p = o)) as [->|].
    + rewrite lookup_insert_eq. eexists. split; [done|]. rewrite Hb in Hx. by injection Hx as ->.
    + rewrite lookup_insert_ne by done. eauto.
Qed.

(** *** Every command preserves the invariant *)

Definition cfg_ok (k : config) : Prop := inv foreign (cst k) (crefs k) (cowners k) [] /\ gens (cst k).
Definition advances (k k' : config) : Prop := cfg_ok k' /\ grows (cst k) (cst k').

Lemma inertb_spec st r : inertb st r = true -> inert foreign st r.
Proof.
  unfold inertb. rewrite orb_true_iff. intros [H%negb_true_iff|H]; [by left|]. right.
  destruct (heap st !! r) as [b|] eqn:E.
  - right. exists b. apply andb_true_iff in H as [[H1%Z.eqb_eq H2]%andb_true_iff H3%negb_true_iff]. done.
  - left. split; [done|]. destruct (foreign r) as [w|]; [|done]. exists w. split; [done|].
    by apply negb_true_iff, Z.eqb_neq in H.
Qed.

Lemma usable_spec st p : usable st p = true -> alive (heap st) p = true \/ inert foreign st p.
Proof. unfold usable. rewrite orb_true_iff. intros [?|?]; [by left|right; by apply inertb_spec]. Qed.

Lemma freshb_spec st refs a : freshb st refs a = true -> fresh_addr st refs a.
Proof.
  unfold freshb. rewrite !andb_true_iff. intros [[H1 H2] H3%bool_decide_eq_true]. split_and!; [done| |done].
  intros b Hb. rewrite Hb in H2. by apply andb_true_iff in H2 as [? ?%negb_true_iff].
Qed.

Lemma fresh_nonzero st refs a : fresh_addr st refs a -> (a =? 0) = false.
Proof. intros (H & _). by destruct (ptr_ok_tests a H). Qed.

Lemma release_any st p refs owners f : inv foreign st refs owners [] -> gens st -> p ∈ refs ->
  (live_count (heap st) < f)%nat ->
  wp (lpp_arc_release quiet foreign f st p)
    (fun st' => inv foreign st' (remove1 p refs) owners [] /\ grows st st').
Proof.
  intros Hinv Hg Hp Hf. eapply wp_mono.
  - apply (release_correct quiet foreign f st p (remove1 p refs) owners []); [|done].
    by eapply inv_perm; [apply remove1_perm|].
  - intros st' (Hi & _ & Hk). split; [done|by apply kept_grows].
Qed.

Lemma release_ok st p refs owners : inv foreign st refs owners [] -> gens st -> p ∈ refs ->
  wp (lpp_arc_release quiet foreign (fuel_of st) st p)
    (fun st' => inv foreign st' (remove1 p refs) owners [] /\ grows st st').
Proof. intros. apply release_any; [done..|unfold fuel_of; lia]. Qed.

(** Looking the arena up late makes no difference. *)
Lemma release_local_eq f st p :
  lpp_arc_release_local quiet foreign f st p = lpp_arc_release quiet foreign (S f) st p.
Proof. reflexivity. Qed.

Lemma retain_ok st p refs owners : inv foreign st refs owners [] -> gens st -> usable st p = true -> room st refs = true ->
  wp (lpp_arc_retain quiet foreign st p) (fun st' => inv foreign st' (p :: refs) owners [] /\ grows st st').
Proof.
  intros Hinv Hg Hu%usable_spec Hr%Z.ltb_lt. eapply wp_mono; [apply retain_step; [done..|lia]|].
  intros st' [Hi Hk]. split; [done|by apply kept_grows].
Qed.

(** The region of a live node. *)
Lemma node_region st p : p ∈ all_nodes (regions st) -> exists id, lpp__arena_for_header st p = Some id.
Proof.
  intros H. unfold lpp__arena_for_header. destruct (find_region (regions st) p) eqn:E; [eauto|].
  by apply find_region_none in E.
Qed.

(** On a live arena node the arena's release is the general one. *)
Lemma release_node_is_release f st p b : ptr_ok p = true -> heap st !! p = Some b -> live b = true -> freed b = false ->
  p ∈ all_nodes (regions st) ->
  lpp_arena_release_node quiet foreign f st p = lpp_arc_release quiet foreign (S f) st p.
Proof.
  intros Hp Hb Hl Hf Hn. destruct (node_region st p Hn) as [id Hid]. unfold lpp_arena_release_node.
  destruct (ptr_ok_tests p Hp) as [-> _]. destruct (valid_live quiet foreign st p b Hp Hb Hl Hf) as [Hv Hh].
  cbn [lpp_arc_release]. rewrite Hv. cbn [obind negb]. rewrite Hh, Hid. done.
Qed.

Lemma alloc_live_count st refs a dtor : fresh_addr st refs a ->
  live_count (heap (lpp_arc_alloc_with_destructor st (Some a) dtor).2) = S (live_count (heap st)).
Proof.
  intros Hf. unfold live_count. cbn [lpp_arc_alloc_with_destructor lpp__next_generation snd heap].
  rewrite (hsum_fresh_addr _ st refs a _ Hf); [done|]. intros c Hc. by rewrite Hc.
Qed.

Lemma arena_alloc_ok st id size addr rec_addr dtor refs owners :
  inv foreign st refs owners [] -> gens st ->
  permitted (mk_config st refs owners) (CArenaAlloc id size addr rec_addr dtor) = true ->
  wp (lpp_arena_alloc quiet foreign (S (fuel_of st)) st size id addr rec_addr dtor)
    (fun res => inv foreign res.2 (if res.1 =? 0 then refs else res.1 :: refs) owners [] /\ grows st res.2).
Proof.
  intros Hinv Hg Hp. cbn [permitted] in Hp. rewrite !andb_true_iff in Hp.
  destruct Hp as [[[[[Hid%bool_decide_eq_true Ha] Hra] Hne%bool_decide_eq_true] Hroom%Z.ltb_lt] Har%Z.ltb_lt].
  unfold lpp_arena_alloc. destruct ((id =? 0) || (size <? 0)); [cbn; split; [done|by apply grows_refl]|].
  destruct addr as [a|]; [|cbn; split; [done|by apply grows_refl]]. cbn [granted_fresh] in Ha.
  apply freshb_spec in Ha. pose proof (fresh_nonzero _ _ _ Ha) as Ha0.
  destruct (alloc_step foreign st a dtor refs owners [] Hinv Ha ltac:(lia)) as (Hi1 & Hr1 & Hall1).
  pose proof (alloc_grows st a dtor Hg) as Hg1.
  set (st1 := (lpp_arc_alloc_with_destructor st (Some a) dtor).2) in *.
  change (lpp_arc_alloc_with_destructor st (Some a) dtor) with (a, st1). cbn iota beta. rewrite Ha0.
  assert (a ∉ all_nodes (regions st)) as Hna.
  { intros Hin. destruct (i_node _ _ _ _ _ Hinv a Hin) as (b & Hb & Hf & _). destruct Ha as (_ & Ha & _).
    destruct (Ha b Hb). congruence. }
  assert (exists b1, heap st1 !! a = Some b1 /\ live b1 = true) as (b1 & Hb1 & Hl1).
  { unfold st1. simpl. rewrite lookup_insert_eq. eauto. }
  destruct rec_addr as [r|].
  2: { cbn [lpp_arc_alloc lpp_arc_alloc_with_destructor]. change (0 =? 0) with true. cbn iota.
       apply wp_bind. eapply wp_mono.
       - apply (release_correct quiet foreign (S (fuel_of st)) st1 a refs owners []); [done|].
         unfold fuel_of, st1. rewrite (alloc_live_count st refs) by done. lia.
       - intros st' (Hi & _ & Hk). cbn. split; [done|]. eapply grows_trans; [done|]. apply kept_grows; [apply Hg1|done]. }
  cbn [granted_fresh] in Hra. apply freshb_spec in Hra. pose proof (fresh_nonzero _ _ _ Hra) as Hr0.
  assert (r <> a) as Hra'. { intros ->. by destruct Hne. }
  assert (fresh_addr st1 (a :: refs) r) as Hfr1.
  { destruct Hra as (Hr & Hrf & Hrn). split_and!; [done| |by rewrite Hall1, not_elem_of_cons].
    intros b. unfold st1. simpl. rewrite lookup_insert_ne by done. apply Hrf. }
  pose proof (alloc_grows st1 r false ltac:(apply Hg1)) as Hg2.
  destruct (alloc_step foreign st1 r false (a :: refs) owners [] Hi1 Hfr1) as (Hi2 & Hr2 & Hall2).
  { rewrite Hall1. cbn [length]. lia. }
  unfold lpp_arc_alloc. set (st2 := (lpp_arc_alloc_with_destructor st1 (Some r) false).2) in *.
  change (lpp_arc_alloc_with_destructor st1 (Some r) false) with (r, st2). cbn iota beta. rewrite Hr0.
  assert (heap st2 !! a = Some b1) as Hb2 by (unfold st2; simpl; by rewrite lookup_insert_ne).
  destruct (get_region_in st2 id) as (x & -> & Hx & Hxid); [by apply (i_owner _ _ _ _ _ Hi2)|].
  pose proof (region_count_bound _ _ _ _ _ x Hi2 Hx) as Hxb.
  assert (regions st2 = regions st) as Hrs by congruence.
  assert (count_alive (heap st2) (all_nodes (regions st2)) = count_alive (heap st) (all_nodes (regions st))) as Hca.
  { rewrite Hrs. unfold st2, st1. simpl. rewrite !count_alive_other; [done|done|].
    intros Hin. destruct (i_node _ _ _ _ _ Hinv r Hin) as (b & Hb & Hf & _). destruct Hra as (_ & Hrf & _).
    destruct (Hrf b Hb). congruence. }
  assert (i32 (rrefs x + 1) = rrefs x + 1) as ->.
  { destruct (i_region _ _ _ _ _ Hi2 x Hx) as [E _]. apply swrap_id; [lia|].
    pose proof (unlink_perm _ _ (i_rids _ _ _ _ _ Hi2) Hx) as Hu.
    assert (all_nodes (regions st2) ≡ₚ nodes x ++ all_nodes (unlink_region (regions st2) (rid x))) as Hn
      by (unfold all_nodes; by rewrite Hu at 1).
    rewrite (count_alive_perm _ _ _ Hn), count_alive_app in Hca. pose proof (occ_le_length (rid x) owners).
    unfold nlive in E. change (2 ^ (32 - 1)) with (2 ^ 31). pow2. lia. }
  cbn [wp fst snd]. rewrite Ha0. split.
  - rewrite <- Hxid. eapply arena_join_step; [exact Hi2|done| |exact Hb2|done|by rewrite Hca]. by rewrite Hrs.
  - eapply grows_trans; [exact Hg1|]. eapply grows_trans; [exact Hg2|]. apply kept_grows; [apply Hg2|apply kept_regions].
Qed.

Lemma exec_ok c k : cfg_ok k -> permitted k c = true -> wp (exec c k) (advances k).
Proof.
  destruct k as [st refs owners]. intros [Hinv Hg] Hp. cbn [cst crefs cowners] in Hinv, Hg.
  destruct c as [addr dtor|p|p|p|p|o c|id|id size addr rec_addr dtor|id|p|p]; cbn [exec permitted] in *.
  - apply andb_true_iff in Hp as [Hf Hr%Z.ltb_lt]. destruct addr as [a|].
    2: { cbn. split; [done|by apply grows_refl]. }
    cbn [granted_fresh] in Hf. apply freshb_spec in Hf.
    destruct (alloc_step foreign st a dtor refs owners [] Hinv Hf ltac:(lia)) as (Hi & _ & _).
    pose proof (alloc_grows st a dtor Hg) as Hgr.
    change (lpp_arc_alloc_with_destructor st (Some a) dtor) with (a, (lpp_arc_alloc_with_destructor st (Some a) dtor).2).
    cbn iota. rewrite (fresh_nonzero _ _ _ Hf). cbn [wp]. split; [|done]. split; [done|apply Hgr].
  - apply andb_true_iff in Hp as [Hu Hr]. apply wp_bind. eapply wp_mono; [by apply retain_ok|].
    intros st' [Hi Hgr]. split; [split; [done|apply Hgr]|done].
  - apply bool_decide_eq_true in Hp. apply wp_bind. eapply wp_mono; [by apply release_ok|].
    intros st' [Hi Hgr]. split; [split; [done|apply Hgr]|done].
  - apply andb_true_iff in Hp as [Hu Hr]. apply wp_bind. eapply wp_mono; [by apply (retain_ok st p refs owners)|].
    intros st' [Hi Hgr]. split; [split; [done|apply Hgr]|done].
  - apply bool_decide_eq_true in Hp. rewrite release_local_eq. apply wp_bind.
    eapply wp_mono; [apply (release_any st p refs owners); [done..|unfold fuel_of; lia]|].
    intros st' [Hi Hgr]. split; [split; [done|apply Hgr]|done].
  - apply andb_true_iff in Hp as [Hc%bool_decide_eq_true Ho]. destruct (heap st !! o) as [b|] eqn:Hb; [|done].
    apply andb_true_iff in Ho as [Hl Hd]. cbn [wp].
    pose proof (adopt_grows st o b (c :: owned b) Hg Hb) as Hgr.
    destruct (adopt_step foreign st o b c (remove1 c refs) owners []) as [Hi _]; [|done..|].
    + by eapply inv_perm; [apply remove1_perm|].
    + split; [split; [done|apply Hgr]|done].
  - apply andb_true_iff in Hp as [Hid Hr%Z.ltb_lt]. destruct id as [id|].
    2: { cbn. split; [done|by apply grows_refl]. }
    apply andb_true_iff in Hid as [Hz%negb_true_iff Hn%bool_decide_eq_true].
    pose proof (arena_begin_step foreign st id refs owners [] Hinv Hn Hr) as Hi.
    cbn [lpp_arena_begin] in *. rewrite Hz. cbn [wp].
    assert (grows st (set_regions st (mk_region id 1 [] :: regions st))) as Hgr by (apply kept_grows; [done|apply kept_regions]).
    split; [split; [done|apply Hgr]|done].
  - apply wp_bind. eapply wp_mono; [by apply arena_alloc_ok|].
    intros res [Hi Hgr]. split; [split; [done|apply Hgr]|done].
  - apply andb_true_iff in Hp as [Hin%bool_decide_eq_true Hz%negb_true_iff]. unfold lpp_arena_release. rewrite Hz.
    apply wp_bind. eapply wp_mono.
    + apply (node_zero_spec foreign (lpp_arc_release quiet foreign (fuel_of st)) (fuel_of st) (release_correct quiet foreign _)
        st id refs (remove1 id owners) []); [|unfold fuel_of; lia].
      by apply (inv_owners_perm foreign st refs owners); [apply remove1_perm|].
    + intros st' (Hi & _ & Hk). pose proof (kept_grows _ _ Hg Hk) as Hgr. split; [split; [done|apply Hgr]|done].
  - rewrite !andb_true_iff in Hp. destruct Hp as [[Ha Hn%bool_decide_eq_true] Hr].
    pose proof Ha as (b & Hb & Hl)%alive_block. destruct (i_live _ _ _ _ _ Hinv p b Hb Hl) as (Hok & _).
    destruct (ptr_ok_tests p Hok) as [Hz _]. destruct (node_region st p Hn) as [id Hid].
    unfold lpp_arena_retain. rewrite Hz, Hid. apply wp_bind.
    eapply wp_mono; [apply retain_ok; [done..| |done]; unfold usable; by rewrite Ha|].
    intros st' [Hi Hgr]. split; [split; [done|apply Hgr]|done].
  - rewrite !andb_true_iff in Hp. destruct Hp as [[Hin%bool_decide_eq_true Ha] Hn%bool_decide_eq_true].
    pose proof Ha as (b & Hb & Hl)%alive_block. destruct (i_live _ _ _ _ _ Hinv p b Hb Hl) as (Hok & Hf & _).
    rewrite (release_node_is_release _ st p b) by done. apply wp_bind.
    eapply wp_mono; [apply (release_any st p refs owners); [done..|unfold fuel_of; lia]|].
    intros st' [Hi Hgr]. split; [split; [done|apply Hgr]|done].
Qed.

Lemma init_ok h : literals h -> cfg_ok (mk_config (mk_state h 1 [] 0) [] []).
Proof.
  intros Hlit.
  assert (forall p b, h !! p = Some b -> live b = false) as Hdead.
  { intros p b Hb. destruct (Hlit p b Hb) as (_ & Hi & _). unfold live. by rewrite Hi, andb_false_r. }
  assert (edges h = []) as He.
  { destruct (edges h) as [|x l] eqn:E; [done|]. assert (x ∈ edges h) as Hx by (rewrite E; by left).
    unfold edges, hsum in Hx. apply list_elem_of_bind in Hx as (b & Hc & Hb).
    apply list_elem_of_fmap in Hb as ([p b'] & -> & Hb%elem_of_map_to_list). unfold contrib in Hc. simpl in Hc.
    rewrite (Hdead p b' Hb) in Hc. by apply elem_of_nil in Hc. }
  split.
  - split; cbn [cst crefs cowners heap regions]; try done.
    + intros p b Hb Hl. by rewrite (Hdead p b Hb) in Hl.
    + unfold all_refs. simpl. by rewrite He.
    + intros r. unfold all_refs. simpl. rewrite He. intros Hr. by apply elem_of_nil in Hr.
    + intros p b Hb Hl. by rewrite (Hdead p b Hb) in Hl.
    + apply NoDup_nil_2.
    + intros r Hr. by apply elem_of_nil in Hr.
    + apply NoDup_nil_2.
    + intros n Hn. by apply elem_of_nil in Hn.
    + intros n Hn. by apply elem_of_nil in Hn.
    + intros p b Hb _. do 3 right. by apply (Hlit p b).
  - split_and!; [done|done|]. intros p b Hb Hl. simpl in Hb. by rewrite (Hdead p b Hb) in Hl.
Qed.

Lemma reachable_ok k : reachable k -> cfg_ok k.
Proof.
  induction 1 as [h Hh|k c k' _ IH Hp He]; [by apply init_ok|].
  pose proof (exec_ok c k IH Hp) as Hw. rewrite He in Hw. apply Hw.
Qed.

Lemma later_grows k k' : cfg_ok k -> later k k' -> cfg_ok k' /\ grows (cst k) (cst k').
Proof.
  intros Hk H. induction H as [|c k1 k2 _ IH Hp He]; [split; [done|apply grows_refl, Hk]|].
  destruct IH as [Hi Hg]. pose proof (exec_ok c k1 Hi Hp) as Hw. rewrite He in Hw. destruct Hw as [Hc Hg2].
  split; [done|by eapply grows_trans].
Qed.
End machine.

(** ** Claims *)

(** C1. Reference counting is safe.  In every configuration a correct program can reach - with
    destructors that release what an object owns, nested to any depth, and with arenas - the
    count of every live object is exactly the number of references to it (in the program, in
    live objects, in the bookkeeping of arenas), its block has not been freed, every reference
    anywhere is to a live object or one the counter ignores, and every further call the program
    may make returns: no use after free, no double free, no count that wraps, and a nesting of
    destructors no deeper than the number of live objects. *)
Theorem arc_safe quiet foreign k :
  reachable quiet foreign k ->
  (forall p b, heap (cst k) !! p = Some b -> live b = true ->
     freed b = false /\ refcount b = Z.of_nat (occ p (all_refs (cst k) (crefs k))) /\ 0 < refcount b) /\
  (forall p, p ∈ all_refs (cst k) (crefs k) -> alive (heap (cst k)) p = true \/ inert foreign (cst k) p) /\
  (forall r, r ∈ regions (cst k) -> rrefs r = Z.of_nat (occ (rid r) (cowners k) + nlive (heap (cst k)) r)) /\
  (forall c, permitted foreign k c = true -> exists k', exec quiet foreign c k = Ok k').
Proof.
  intros Hr. pose proof (reachable_ok quiet foreign k Hr) as Hok. pose proof Hok as [Hi _]. split_and!.
  - intros p b Hb Hl. by destruct (i_live _ _ _ _ _ Hi p b Hb Hl) as (_ & ? & ? & ?).
  - apply (i_refs _ _ _ _ _ Hi).
  - intros r Hin. by destruct (i_region _ _ _ _ _ Hi r Hin).
  - intros c Hp. destruct (wp_inv _ _ (exec_ok quiet foreign c k Hok Hp)) as (k' & He & _). eauto.
Qed.

(** One object holds a reference to another: through a field, or a node of an arena to the
    records of its region. *)
Definition holds (st : state) (p c : Z) : Prop :=
  (exists b, heap st !! p = Some b /\ live b = true /\ c ∈ owned b) \/
  (exists r, r ∈ regions st /\ p ∈ nodes r /\ alive (heap st) p = true /\ c ∈ (records r).*1).

Lemma elem_of_edges h c : c ∈ edges h -> exists p b, h !! p = Some b /\ live b = true /\ c ∈ owned b.
Proof.
  unfold edges, hsum. intros (b & Hc & Hb)%list_elem_of_bind.
  apply list_elem_of_fmap in Hb as ([p b'] & -> & Hb%elem_of_map_to_list). simpl in Hc. unfold contrib in Hc.
  destruct (live b') eqn:Hl; [eauto|by apply elem_of_nil in Hc].
Qed.

Lemma count_alive_pos h ns : (0 < count_alive h ns)%nat -> exists n, n ∈ ns /\ alive h n = true.
Proof.
  unfold count_alive. destruct (filter _ ns) as [|n l] eqn:E; [simpl; lia|]. intros _. exists n.
  assert (n ∈ filter (fun n => alive h n = true) ns) as [? ?]%list_elem_of_filter by (rewrite E; by left). done.
Qed.

(** A list has no element with the property, or one of greatest rank. *)
Lemma list_max_exists (P : Z -> Prop) `{!forall x, Decision (P x)} (f : Z -> nat) (l : list Z) :
  (forall x, x ∈ l -> ~ P x) \/ exists x, x ∈ l /\ P x /\ forall y, y ∈ l -> P y -> (f y <= f x)%nat.
Proof.
  induction l as [|x l IH]; [left; intros x Hx; by apply elem_of_nil in Hx|]. destruct (decide (P x)) as [Hx|Hx].
  - right. destruct IH as [Hno|(z & Hz & HPz & Hm)].
    + exists x. split_and!; [by left|done|]. intros y [->|Hy]%elem_of_cons HPy; [done|]. by destruct (Hno y).
    + destruct (decide (f z <= f x)%nat).
      * exists x. split_and!; [by left|done|]. intros y [->|Hy]%elem_of_cons HPy; [done|]. specialize (Hm y Hy HPy). lia.
      * exists z. split_and!; [by right|done|]. intros y [->|Hy]%elem_of_cons HPy; [lia|]. by apply Hm.
  - destruct IH as [Hno|(z & Hz & HPz & Hm)].
    + left. intros y [->|Hy]%elem_of_cons; [done|by apply Hno].
    + right. exists z. split_and!; [by right|done|]. intros y [->|Hy]%elem_of_cons HPy; [done|by apply Hm].
Qed.

(** With no reference in the program, a live object is held by another one. *)
Lemma live_is_held foreign st p : inv foreign st [] [] [] -> alive (heap st) p = true ->
  exists q, holds st q p /\ alive (heap st) q = true.
Proof.
  intros Hi (b & Hb & Hl)%alive_block. destruct (i_live _ _ _ _ _ Hi p b Hb Hl) as (_ & _ & Hr & Hpos).
  assert (p ∈ all_refs st []) as Hin by (apply occ_elem; lia). unfold all_refs in Hin.
  apply elem_of_app in Hin as [Hin|[Hin|Hin]%elem_of_app]; [by apply elem_of_nil in Hin| |].
  - apply elem_of_edges in Hin as (q & c & Hq & Hlq & Ho). exists q. split; [left; eauto|apply alive_block; eauto].
  - unfold rec_refs in Hin. apply list_elem_of_bind in Hin as (r & Hrec & Hr').
    destruct (i_region _ _ _ _ _ Hi r Hr') as [E Ep]. rewrite occ_nil in E.
    destruct (count_alive_pos (heap st) (nodes r)) as (n & Hn & Ha); [unfold nlive in E; lia|].
    exists n. split; [right; by exists r|done].
Qed.

Lemma nothing_live foreign st (rank : Z -> nat) : inv foreign st [] [] [] ->
  (forall p c, holds st p c -> alive (heap st) c = true -> (rank c < rank p)%nat) ->
  forall p, alive (heap st) p = false.
Proof.
  intros Hi Hrank. destruct (list_max_exists (fun p => alive (heap st) p = true) rank (map_to_list (heap st)).*1) as [Hno|Hmax].
  { intros p. destruct (alive (heap st) p) eqn:E; [|done]. exfalso. pose proof E as (b & Hb & _)%alive_block.
    apply (Hno p); [|done]. apply list_elem_of_fmap. exists (p, b). split; [done|by apply elem_of_map_to_list]. }
  destruct Hmax as (p & _ & Ha & Hm). destruct (live_is_held _ _ _ Hi Ha) as (q & Hh & Hq).
  pose proof (Hrank q p Hh Ha). pose proof Hq as (b & Hb & _)%alive_block.
  assert (rank q <= rank p)%nat; [|lia]. apply Hm; [|done].
  apply list_elem_of_fmap. exists (q, b). split; [done|by apply elem_of_map_to_list].
Qed.

(** C5. Nothing leaks that is not part of a cycle: when the program has let go of all its
    references and arena handles and the live objects do not hold each other in a cycle (some
    rank decreases along every reference an object holds), there are no live objects left, no
    arena is left, and every block except the program's string literals has been returned to
    the allocator. *)
Theorem arc_reclaims quiet foreign k (rank : Z -> nat) :
  reachable quiet foreign k -> crefs k = [] -> cowners k = [] ->
  (forall p c, holds (cst k) p c -> alive (heap (cst k)) c = true -> (rank c < rank p)%nat) ->
  regions (cst k) = [] /\
  (forall p b, heap (cst k) !! p = Some b -> freed b = true \/ (lpp__is_immortal b = true /\ magic b = LPP_ARC_MAGIC)).
Proof.
  intros Hr Hrf How Hrank. destruct (reachable_ok quiet foreign k Hr) as [Hi _]. rewrite Hrf, How in Hi.
  pose proof (nothing_live foreign (cst k) rank Hi Hrank) as Hno.
  assert (regions (cst k) = []) as Hreg.
  { destruct (regions (cst k)) as [|r rs] eqn:E; [done|].
    destruct (i_region _ _ _ _ _ Hi r ltac:(rewrite E; by left)) as [Ec Ep]. rewrite occ_nil in Ec.
    destruct (count_alive_pos (heap (cst k)) (nodes r)) as (n & _ & Ha); [unfold nlive in Ec; lia|]. by rewrite Hno in Ha. }
  split; [done|]. intros p b Hb. specialize (Hno p). unfold alive in Hno. rewrite Hb in Hno.
  destruct (i_reclaim _ _ _ _ _ Hi p b Hb Hno) as [?|[Hin|[Hin|Hm]]]; [by left|by apply elem_of_nil in Hin| |].
  - rewrite Hreg in Hin. by apply elem_of_nil in Hin.
  - right. unfold live in Hno. rewrite Hm, Z.eqb_refl in Hno. by apply negb_false_iff in Hno.
Qed.

(** *** Weak handles *)

Lemma small_generation z : 0 <= z < 2 ^ 31 - 2 -> i32 (z + 2) = z + 2.
Proof. intros Hz. apply swrap_id; [lia|]. change (2 ^ (32 - 1)) with (2 ^ 31). pow2. lia. Qed.

Lemma weak_generation_live quiet foreign k p b : cfg_ok foreign k -> heap (cst k) !! p = Some b -> live b = true ->
  births (cst k) < 2 ^ 31 - 2 ->
  lpp_weak_generation quiet foreign (cst k) p = Ok (birth b + 2) /\ 0 <= birth b < births (cst k) /\ ptr_ok p = true.
Proof.
  intros [Hi (_ & _ & Hg)] Hb Hl Hn. destruct (i_live _ _ _ _ _ Hi p b Hb Hl) as (Hok & Hfr & _).
  destruct (valid_live quiet foreign (cst k) p b Hok Hb Hl Hfr) as [Hv Hh]. destruct (Hg p b Hb Hl) as [Hgen Hbi].
  destruct (live_magic b Hl) as [_ Him]. split_and!; [|lia..|done]. unfold lpp_weak_generation. rewrite Hv. cbn [obind negb].
  rewrite Hh. cbn [obind]. by rewrite Him, Hgen, small_generation by lia.
Qed.

Lemma weak_get_spec quiet foreign k p b n : cfg_ok foreign k -> ptr_ok p = true -> heap (cst k) !! p = Some b -> sound b ->
  0 <= n < births (cst k) -> births (cst k) < 2 ^ 31 - 2 ->
  lpp_weak_get quiet foreign (cst k) p (n + 2) =
    (if live b then Ok (if birth b =? n then p else 0)
     else if freed b && negb quiet then Undef else Ok 0).
Proof.
  intros [Hi (_ & _ & Hg)] Hok Hb Hs Hn Hbirth.
  unfold lpp_weak_get. destruct (ptr_ok_tests p Hok) as [Ez Et]. rewrite Ez.
  rewrite (proj2 (Z.eqb_neq (n + 2) 0)) by lia. cbn [orb]. destruct (live b) eqn:Hl.
  - destruct (i_live _ _ _ _ _ Hi p b Hb Hl) as (_ & Hfr & _).
    destruct (valid_live quiet foreign (cst k) p b Hok Hb Hl Hfr) as [-> ->]. cbn [obind negb].
    destruct (live_magic b Hl) as [_ ->]. destruct (Hg p b Hb Hl) as [-> Hbi]. rewrite small_generation by lia.
    destruct (Z.eqb_spec (birth b) n) as [->|]; [by rewrite Z.eqb_refl|].
    by rewrite (proj2 (Z.eqb_neq (birth b + 2) _)) by lia.
  - destruct Hs as [?|Hm]; [congruence|]. unfold lpp__is_valid_arc_ptr, header. rewrite Ez, Et, Hb.
    destruct (freed b && negb quiet); [done|]. cbn [obind]. by rewrite Hm.
Qed.

(** A handle on a live object, in a later configuration. *)
Lemma weak_later quiet foreign k1 k2 p b1 :
  reachable quiet foreign k1 -> later quiet foreign k1 k2 ->
  heap (cst k1) !! p = Some b1 -> live b1 = true -> births (cst k2) < 2 ^ 31 - 2 ->
  lpp_weak_generation quiet foreign (cst k1) p = Ok (birth b1 + 2) /\ 0 <= birth b1 /\
  exists b2, heap (cst k2) !! p = Some b2 /\
    lpp_weak_get quiet foreign (cst k2) p (birth b1 + 2) =
      (if live b2 then Ok (if birth b2 =? birth b1 then p else 0)
       else if freed b2 && negb quiet then Undef else Ok 0).
Proof.
  intros Hr Hl Hb1 Hlv Hbirth. pose proof (reachable_ok _ _ _ Hr) as Hok1.
  destruct (later_grows quiet foreign k1 k2 Hok1 Hl) as [Hok2 (_ & Hmono & Hsol)].
  destruct (weak_generation_live quiet foreign k1 p b1 Hok1 Hb1 Hlv) as (Hg & Hbi & Hp); [lia|].
  split; [done|]. split; [lia|].
  destruct (Hsol p) as (b2 & Hb2 & Hs); [exists b1; split; [done|by left]|].
  exists b2. split; [done|]. apply weak_get_spec; done || lia.
Qed.

(** C7. What a weak handle sees.  A handle taken on a live object, looked at later in the same
    run (before 2^31 objects were made, when the 32-bit generation counter wraps): while the
    object lives it gives the object; once it is dead and its memory is not yet freed (an arena
    node) or was given to a new object it gives NULL.  When the memory has been freed the test
    reads the freed header: it gives NULL only if that memory still holds what was left there
    ([quiet]), and is undefined otherwise. *)
Theorem weak_handle_sees quiet foreign k1 k2 p b1 :
  reachable quiet foreign k1 -> later quiet foreign k1 k2 ->
  heap (cst k1) !! p = Some b1 -> live b1 = true -> births (cst k2) < 2 ^ 31 - 2 ->
  exists e b2, lpp_weak_generation quiet foreign (cst k1) p = Ok e /\ heap (cst k2) !! p = Some b2 /\
    lpp_weak_get quiet foreign (cst k2) p e =
      (if live b2 then Ok (if birth b2 =? birth b1 then p else 0)
       else if freed b2 && negb quiet then Undef else Ok 0).
Proof.
  intros Hr Hl Hb1 Hlv Hbirth.
  destruct (weak_later quiet foreign k1 k2 p b1 Hr Hl Hb1 Hlv Hbirth) as (Hg & _ & b2 & Hb2 & Hw). eauto.
Qed.

(** *** A concrete program: an arena with a node that owns a heap object *)

Definition no_arc : Z -> option Z := fun _ => Some 0.
Definition start : config := mk_config arc_init [] [].
Definition demo_build : list cmd :=
  [CArenaBegin (Some 0x20000); CArenaAlloc 0x20000 64 (Some 0x30000) (Some 0x30100) true;
   CAlloc (Some 0x30200) true; CStore 0x30000 0x30200; CRetain 0x30200; CArenaRelease 0x20000].
Definition demo_drop : list cmd := [CRelease 0x30200; CRelease 0x30000].
Definition after (cs : list cmd) : config :=
  match run false no_arc cs start with Ok k => k | _ => start end.

Lemma start_reachable quiet foreign : reachable quiet foreign start.
Proof. apply reach_init. intros p b Hb. by rewrite lookup_empty in Hb. Qed.

Lemma demo_reachable cs k : run false no_arc cs start = Ok k -> reachable false no_arc k.
Proof. intros H. apply (later_reachable _ _ start); [apply start_reachable|]. eapply run_later; [apply later_refl|done]. Qed.

Lemma arc_safe_witness :
  exists k k', run false no_arc demo_build start = Ok k /\
    (exists b, heap (cst k) !! 0x30200 = Some b /\ refcount b = 2) /\ exec false no_arc (CRelease 0x30000) k = Ok k'.
Proof.
  exists (after demo_build). destruct (arc_safe false no_arc (after demo_build)) as (_ & _ & _ & Hs).
  - apply (demo_reachable demo_build). vm_compute. reflexivity.
  - destruct (Hs (CRelease 0x30000)) as [k' Hk']; [vm_compute; reflexivity|].
    exists k'. split; [vm_compute; reflexivity|]. split; [|exact Hk'].
    eexists. split; vm_compute; reflexivity.
Defined.

Lemma arc_reclaims_witness :
  exists k, run false no_arc (demo_build ++ demo_drop) start = Ok k /\ regions (cst k) = [] /\
    forall p b, heap (cst k) !! p = Some b -> freed b = true \/ (lpp__is_immortal b = true /\ magic b = LPP_ARC_MAGIC).
Proof.
  exists (after (demo_build ++ demo_drop)). split; [vm_compute; reflexivity|].
  apply (arc_reclaims false no_arc _ (fun _ => 0%nat)).
  - apply (demo_reachable (demo_build ++ demo_drop)). vm_compute. reflexivity.
  - vm_compute. reflexivity.
  - vm_compute. reflexivity.
  - intros p c _ Ha. exfalso. revert Ha. unfold alive.
    assert (map_Forall (fun _ x => live x = false) (heap (cst (after (demo_build ++ demo_drop))))) as Hd.
    { apply (bool_decide_eq_true_1 _). vm_compute. reflexivity. }
    destruct (heap (cst (after (demo_build ++ demo_drop))) !! c) as [x|] eqn:E; [by rewrite (Hd c x E)|done].
Defined.

Lemma weak_handle_sees_witness :
  exists k1 k2 b1 e b2, run false no_arc demo_build start = Ok k1 /\ run false no_arc demo_drop k1 = Ok k2 /\
    heap (cst k1) !! 0x30200 = Some b1 /\ lpp_weak_generation false no_arc (cst k1) 0x30200 = Ok e /\
    heap (cst k2) !! 0x30200 = Some b2 /\ freed b2 = true /\
    lpp_weak_get false no_arc (cst k1) 0x30200 e = Ok 0x30200 /\
    lpp_weak_get false no_arc (cst k2) 0x30200 e = Undef.
Proof.
  pose (b1 := mk_block LPP_ARC_MAGIC 2 4 true [] false 2).
  assert (heap (cst (after demo_build)) !! 0x30200 = Some b1) as Hb1 by (vm_compute; reflexivity).
  assert (live b1 = true) as Hl1 by reflexivity.
  assert (reachable false no_arc (after demo_build)) as Hr by (apply (demo_reachable demo_build); vm_compute; reflexivity).
  destruct (weak_handle_sees false no_arc (after demo_build) (after (demo_build ++ demo_drop)) 0x30200 b1) as (e & b2 & He & Hb2 & Hw); [exact Hr| |exact Hb1|exact Hl1| |].
  { apply (run_later false no_arc demo_drop (after demo_build) (after demo_build)); [apply later_refl|vm_compute; reflexivity]. }
  { vm_compute. reflexivity. }
  exists (after demo_build), (after (demo_build ++ demo_drop)), b1, e, b2. split; [vm_compute; reflexivity|]. split; [vm_compute; reflexivity|].
  split; [exact Hb1|]. split; [exact He|]. split; [exact Hb2|].
  assert (e = 4) as -> by (vm_compute in He; injection He as <-; reflexivity).
  assert (freed b2 = true /\ live b2 = false) as [Hf2 Hl2] by (vm_compute in Hb2; injection Hb2 as <-; split; reflexivity).
  split; [exact Hf2|]. split; [vm_compute; reflexivity|]. rewrite Hw, Hl2, Hf2. reflexivity.
Defined.

(** A cycle is not collected: two objects that own each other stay live after the program
    dropped both references. *)
Example cycle_leaks :
  exists k, run false no_arc
      [CAlloc (Some 0x30000) true; CAlloc (Some 0x30100) true; CRetain 0x30000; CRetain 0x30100;
       CStore 0x30000 0x30100; CStore 0x30100 0x30000; CRelease 0x30000; CRelease 0x30100] start = Ok k /\
    crefs k = [] /\ live_count (heap (cst k)) = 2%nat.
Proof. eexists. split; [vm_compute; reflexivity|]. split; vm_compute; reflexivity. Qed.
