(* ===== verification/Task.v ===== *)
(** * Closures, tuples, tasks and slices (runtime/lpp_runtime.c)

    The payloads of ARC objects that the runtime itself knows: what their destructors release,
    how a task is run once, and how a borrowed slice finds out that its source is gone. *)

From stdpp Require Import gmap relations.
From S2P Require Import Prelude CInt ListRt Arc.

(** ** Closures: [code pointer, environment] *)

Definition lpp_closure_destroy (closure : option (Z * Z)) : list arc_ev :=
  match closure with None => [] | Some (_, env) => [Release env] end.

(** ** Tuples

    A tuple is the bytes of its payload; the first sixteen are [managed_mask] and
    [packed_offsets]. *)

(** An 8-byte load from the payload. *)
Definition word_at (payload : list Z) (off : Z) : outcome Z :=
  if (off <? 0) || (off + 8 >? Z.of_nat (length payload)) then Undef
  else Ok (le_value (take 8 (drop (Z.to_nat off) payload))).

Fixpoint tuple_destroy_loop (payload : list Z) (mask offsets : Z) (idx : list Z) : outcome (list arc_ev) :=
  match idx with
  | [] => Ok []
  | i :: idx =>
      if Z.land mask (Z.shiftl 1 i) =? 0 then tuple_destroy_loop payload mask offsets idx
      else
        let offset := Z.land (Z.shiftr offsets (i * 16)) 0xffff in
        let! child := word_at payload offset in
        let! ev := tuple_destroy_loop payload mask offsets idx in
        Ok (Release child :: ev)
  end.

Definition lpp_tuple_destroy (payload : option (list Z)) : outcome (list arc_ev) :=
  match payload with
  | None => Ok []
  | Some bs =>
      let! mask := word_at bs 0 in
      let! offsets := word_at bs 8 in
      tuple_destroy_loop bs mask offsets [0; 1; 2; 3]
  end.

(** [calloc] clears the payload. *)
Definition lpp_tuple_alloc (granted : bool) (size managed_mask packed_offsets : Z) : outcome (list Z) :=
  if size <? 16 then Panic "invalid tuple allocation size: %lld"
  else if negb granted then Panic "out of memory while allocating tuple"
  else Ok (le_bytes 8 (u64 managed_mask) ++ le_bytes 8 (u64 packed_offsets) ++ replicate (Z.to_nat (size - 16)) 0).

(** ** Tasks *)

Record LppTask := mk_task {
  environment : Z;
  result : Z;
  tstate : Z;
  result_managed : bool
}.

Definition set_result (t : LppTask) (r : Z) : LppTask := mk_task (environment t) r (tstate t) (result_managed t).
Definition set_tstate (t : LppTask) (s : Z) : LppTask := mk_task (environment t) (result t) s (result_managed t).

Definition lpp_task_payload_destroy (task : option LppTask) : list arc_ev :=
  match task with
  | None => []
  | Some t =>
      (if negb (environment t =? 0) then [Release (environment t)] else []) ++
      (if (tstate t =? 2) && result_managed t && negb (result t =? 0) then [Release (result t)] else [])
  end.

Definition lpp_task_new (granted : bool) (code_ptr env managed : Z) : outcome LppTask :=
  if (code_ptr =? 0) || (env =? 0) then Panic "task creation requires code and environment"
  else if negb granted then Panic "out of memory while allocating task"
  else Ok (mk_task env 0 0 (negb (managed =? 0))).

(** Up to the call of the code: [None] when the task is already complete. *)
Definition poll_enter (t : LppTask) : outcome (option LppTask) :=
  if tstate t =? 2 then Ok None
  else if tstate t =? 0 then Ok (Some (set_tstate t 1))
  else Panic "concurrent or recursive polling of the same task".

(** [task->result = ...; state = 2]. *)
Definition poll_leave (t : LppTask) (r : Z) : LppTask := set_tstate (set_result t r) 2.

Section run.
(** The compiled code of the task, given its environment (and the task as it is while the code
    runs, since the code may refer to it). *)
Context (code : LppTask -> Z -> outcome Z).

Definition lpp_task_poll (task : option LppTask) : outcome (Z * LppTask) :=
  match task with
  | None => Panic "attempted to poll a null task"
  | Some t =>
      let! entered := poll_enter t in
      match entered with
      | None => Ok (1, t)
      | Some t => let! r := code t (environment t) in Ok (1, poll_leave t r)
      end
  end.

Definition lpp_executor_run (task : option LppTask) : outcome (Z * LppTask) :=
  let! '(_, t) := lpp_task_poll task in Ok (result t, t).

Definition lpp_task_await (task : option LppTask) : outcome (Z * LppTask * list arc_ev) :=
  let! '(r, t) := lpp_executor_run task in
  Ok (r, t, if result_managed t && negb (r =? 0) then [Retain r] else []).

(** What a program does with a task, and the results and events it sees. *)
Inductive task_op : Type := TPoll | TRun | TAwait.

Definition task_step (op : task_op) (t : LppTask) : outcome (LppTask * list Z * list arc_ev) :=
  match op with
  | TPoll => let! '(_, t) := lpp_task_poll (Some t) in Ok (t, [], [])
  | TRun => let! '(r, t) := lpp_executor_run (Some t) in Ok (t, [r], [])
  | TAwait => let! '(r, t, ev) := lpp_task_await (Some t) in Ok (t, [r], ev)
  end.

Fixpoint task_run (ops : list task_op) (t : LppTask) : outcome (LppTask * list Z * list arc_ev) :=
  match ops with
  | [] => Ok (t, [], [])
  | op :: ops =>
      let! '(t, rs, ev) := task_step op t in
      let! '(t, rs', ev') := task_run ops t in
      Ok (t, rs ++ rs', ev ++ ev')
  end.

Fixpoint awaits (ops : list task_op) : nat :=
  match ops with [] => 0%nat | TAwait :: ops => S (awaits ops) | _ :: ops => awaits ops end.

(** Once complete a task only repeats its result. *)
Lemma complete_run ops : forall t, tstate t = 2 ->
  exists rs, task_run ops t =
      Ok (t, rs, replicate (if result_managed t && negb (result t =? 0) then awaits ops else 0%nat) (Retain (result t))) /\
    Forall (eq (result t)) rs.
Proof.
  induction ops as [|op ops IH]; intros t Ht; cbn [task_run].
  { exists []. split; [|done]. by destruct (_ && _). }
  destruct (IH t Ht) as (rs & He & Hrs).
  assert (lpp_task_poll (Some t) = Ok (1, t)) as Hp by (cbn [lpp_task_poll]; unfold poll_enter; by rewrite Ht).
  destruct op; cbn [task_step]; unfold lpp_task_await, lpp_executor_run; rewrite Hp; cbn [obind]; rewrite He; cbn [obind].
  - exists rs. done.
  - exists (result t :: rs). split; [done|by constructor].
  - exists (result t :: rs). split; [|by constructor]. do 2 f_equal. destruct (_ && _); done.
Qed.
End run.

(** C40. A task runs its code once and keeps its books.  Whatever mix of polls, runs and awaits a
    program performs on a new task, if it performs any: the code runs exactly once (with the
    task marked as running, so that polling it from inside panics), every run and every await
    returns its result, and every await of a managed non-null result takes one reference for
    its caller; destroying the task then releases the environment once and the result it
    holds once. *)
Theorem task_runs_once code env managed r op ops :
  env <> 0 -> code (mk_task env 0 1 managed) env = Ok r ->
  exists t rs, lpp_task_new true 1 env (b2z managed) = Ok (mk_task env 0 0 managed) /\
    task_run code (op :: ops) (mk_task env 0 0 managed) =
      Ok (t, rs, replicate (if managed && negb (r =? 0) then awaits (op :: ops) else 0%nat) (Retain r)) /\
    Forall (eq r) rs /\ t = mk_task env r 2 managed /\
    lpp_task_payload_destroy (Some t) = Release env :: (if managed && negb (r =? 0) then [Release r] else []) /\
    (forall c, lpp_task_poll c (Some (mk_task env 0 1 managed)) = Panic "concurrent or recursive polling of the same task").
Proof.
  intros He Hc. exists (mk_task env r 2 managed).
  assert (lpp_task_poll code (Some (mk_task env 0 0 managed)) = Ok (1, mk_task env r 2 managed)) as Hp.
  { change (lpp_task_poll code (Some (mk_task env 0 0 managed))) with
      (let! r := code (mk_task env 0 1 managed) env in Ok (1, mk_task env r 2 managed)). by rewrite Hc. }
  destruct (complete_run code ops (mk_task env r 2 managed) eq_refl) as (rs & Hrun & Hrs). cbn [result_managed result] in *.
  assert (exists rs', task_run code (op :: ops) (mk_task env 0 0 managed) =
    Ok (mk_task env r 2 managed, rs', replicate (if managed && negb (r =? 0) then awaits (op :: ops) else 0%nat) (Retain r)) /\
    Forall (eq r) rs') as (rs' & Hr' & Hrs').
  { cbn [task_run]. destruct op; cbn [task_step]; unfold lpp_task_await, lpp_executor_run; rewrite Hp; cbn [obind]; rewrite Hrun; cbn [obind].
    - exists rs. done.
    - exists (r :: rs). split; [done|by constructor].
    - exists (r :: rs). split; [|by constructor]. cbn [result result_managed]. do 2 f_equal. by destruct (_ && _). }
  exists rs'. split_and!; try done.
  - unfold lpp_task_new. rewrite (proj2 (Z.eqb_neq env 0)) by done. by destruct managed.
  - unfold lpp_task_payload_destroy. cbn [environment tstate result_managed result].
    by rewrite (proj2 (Z.eqb_neq env 0)).
Qed.

Lemma task_runs_once_witness :
  exists t rs, task_run (fun _ env => Ok (env + 1)) [TAwait; TPoll; TAwait] (mk_task 64 0 0 true) =
      Ok (t, rs, [Retain 65; Retain 65]) /\ lpp_task_payload_destroy (Some t) = [Release 64; Release 65].
Proof.
  destruct (task_runs_once (fun _ env => Ok (env + 1)) 64 true 65 TAwait [TPoll; TAwait]) as (t & rs & _ & H1 & _ & _ & H2 & _);
    [discriminate|reflexivity|]. exists t, rs. split; [exact H1|exact H2].
Defined.

(** *** Tuples *)

Definition tuple_offset (offsets i : Z) : Z := Z.land (Z.shiftr (u64 offsets) (i * 16)) 0xffff.
Definition managed_fields (mask : Z) : list Z := filter (fun i => Z.testbit mask i = true) [0; 1; 2; 3].
Definition child (payload : list Z) (off : Z) : Z := le_value (take 8 (drop (Z.to_nat off) payload)).

Lemma filter_agree {A} (P Q : A -> Prop) `{!forall x, Decision (P x), !forall x, Decision (Q x)} (l : list A) :
  (forall x, x ∈ l -> P x <-> Q x) -> filter P l = filter Q l.
Proof.
  induction l as [|x l IH]; intros Hall; [done|]. rewrite !filter_cons, IH by (intros y Hy; apply Hall; by right).
  destruct (decide (P x)) as [Hp|Hp].
  - rewrite decide_True; [done|]. apply Hall; [by left|done].
  - rewrite decide_False; [done|]. intros Hq. apply Hp, Hall; [by left|done].
Qed.

Lemma mask_test mask i : 0 <= i -> (Z.land mask (Z.shiftl 1 i) =? 0) = negb (Z.testbit mask i).
Proof.
  intros Hi. rewrite Z.shiftl_1_l. destruct (Z.testbit mask i) eqn:E; cbn [negb].
  - apply Z.eqb_neq. intros H. assert (Z.testbit (Z.land mask (2 ^ i)) i = false) as Hb by (by rewrite H, Z.bits_0).
    rewrite Z.land_spec, E, Z.pow2_bits_true in Hb by done. done.
  - apply Z.eqb_eq. apply Z.bits_inj'. intros j Hj. rewrite Z.land_spec, Z.bits_0.
    destruct (Z.eqb_spec i j) as [<-|]; [by rewrite E|]. rewrite Z.pow2_bits_false by done. apply andb_false_r.
Qed.

Lemma word_at_in payload off : 0 <= off -> off + 8 <= Z.of_nat (length payload) -> word_at payload off = Ok (child payload off).
Proof. intros H1 H2. unfold word_at. by rewrite (proj2 (Z.ltb_ge off 0)), Z.gtb_ltb, (proj2 (Z.ltb_ge _ (off + 8))) by lia. Qed.

Lemma tuple_loop payload mask offsets idx : Forall (fun i => 0 <= i) idx ->
  Forall (fun i => Z.testbit mask i = true -> tuple_offset offsets i + 8 <= Z.of_nat (length payload)) idx ->
  tuple_destroy_loop payload mask (u64 offsets) idx =
    Ok ((fun i => Release (child payload (tuple_offset offsets i))) <$> filter (fun i => Z.testbit mask i = true) idx).
Proof.
  induction idx as [|i idx IH]; intros Hi Hin; [done|]. apply Forall_cons in Hi as [Hi His]. apply Forall_cons in Hin as [Ho Hin].
  cbn [tuple_destroy_loop]. rewrite mask_test by done. rewrite filter_cons. destruct (Z.testbit mask i) eqn:E; cbn [negb].
  - fold (tuple_offset offsets i). rewrite word_at_in; [|apply Z.land_nonneg; right; lia|by apply Ho].
    cbn [obind]. rewrite IH by done. cbn [obind]. rewrite decide_True by done. done.
  - rewrite decide_False by done. by apply IH.
Qed.

(** A tuple's destructor releases exactly its managed fields.  After [lpp_tuple_alloc], and
    whatever the program then stored behind the 16-byte prefix, the destructor releases, once
    each and in field order, the words at the packed offsets whose mask bit is set, and reads
    nothing outside the payload if those offsets lie inside it; fields beyond the fourth are
    never released.  A size that cannot hold the prefix panics. *)
Theorem tuple_releases_managed size mask offsets fields :
  16 <= size -> length fields = Z.to_nat (size - 16) ->
  (forall i, i ∈ managed_fields mask -> tuple_offset offsets i + 8 <= size) ->
  exists p0, lpp_tuple_alloc true size mask offsets = Ok p0 /\ Z.of_nat (length p0) = size /\
    let p := take 16 p0 ++ fields in
    lpp_tuple_destroy (Some p) = Ok ((fun i => Release (child p (tuple_offset offsets i))) <$> managed_fields mask) /\
    lpp_tuple_alloc true 15 mask offsets = Panic "invalid tuple allocation size: %lld".
Proof.
  intros Hs Hf Hoff. unfold lpp_tuple_alloc at 1. rewrite (proj2 (Z.ltb_ge size 16)) by done. cbn [negb].
  eexists. split; [reflexivity|]. split; [rewrite !length_app, !le_bytes_length, length_replicate; lia|].
  cbn zeta. split; [|done]. rewrite (assoc_L (++)), take_app_length' by (by rewrite length_app, !le_bytes_length).
  set (pre := le_bytes 8 (u64 mask) ++ le_bytes 8 (u64 offsets)). set (p := pre ++ fields).
  assert (length pre = 16%nat) as Hpre by (unfold pre; by rewrite length_app, !le_bytes_length).
  assert (Z.of_nat (length p) = size) as Hlen by (unfold p; rewrite length_app, Hpre, Hf; lia).
  unfold lpp_tuple_destroy. rewrite !word_at_in by lia. cbn [obind].
  assert (child p 0 = u64 mask) as ->.
  { unfold child, p, pre. rewrite drop_0, <- (assoc_L (++)), take_app_length' by (by rewrite le_bytes_length).
    apply le_bytes_value, u64_range. }
  assert (child p 8 = u64 offsets) as ->.
  { unfold child, p, pre. rewrite <- (assoc_L (++)), drop_app_length' by (by rewrite le_bytes_length).
    rewrite take_app_length' by (by rewrite le_bytes_length). apply le_bytes_value, u64_range. }
  assert (forall i, i ∈ [0; 1; 2; 3] -> Z.testbit (u64 mask) i = Z.testbit mask i) as Hbits.
  { intros i Hi. unfold u64. rewrite !elem_of_cons in Hi. assert (0 <= i < 4) as Hr by (destruct Hi as [->|[->|[->|[->|Hi]]]]; try lia; by apply elem_of_nil in Hi).
    rewrite uwrap_testbit by lia. by rewrite (proj2 (Z.ltb_lt i 64)) by lia. }
  assert (managed_fields mask = filter (fun i => Z.testbit (u64 mask) i = true) [0; 1; 2; 3]) as ->.
  { unfold managed_fields. apply filter_agree. intros i Hi. by rewrite Hbits. }
  apply tuple_loop; [repeat constructor; lia|]. apply Forall_forall. intros i Hi Ht. rewrite Hlen. apply Hoff.
  apply list_elem_of_filter. split; [by rewrite <- Hbits|done].
Qed.

Lemma tuple_releases_managed_witness :
  exists p0, lpp_tuple_alloc true 32 1 16 = Ok p0 /\
    lpp_tuple_destroy (Some (take 16 p0 ++ le_bytes 8 0x30000 ++ le_bytes 8 7)) = Ok [Release 0x30000].
Proof.
  destruct (tuple_releases_managed 32 1 16 (le_bytes 8 0x30000 ++ le_bytes 8 7)) as (p0 & H1 & _ & H2 & _);
    [lia|reflexivity| |].
  - intros i Hi. vm_compute in Hi. apply list_elem_of_singleton in Hi as ->. vm_compute. discriminate.
  - exists p0. split; [exact H1|]. cbn zeta in H2. rewrite H2. vm_compute in H1. injection H1 as <-. vm_compute. reflexivity.
Defined.

(** ** Borrowed slices *)

(** [kind]: 0 for a string, 1 for a list. *)
Record LppSlice := mk_slice { sbase : Z; sstart : Z; slength : Z; sgeneration : Z; skind : Z }.

(** What the live objects hold at the moment: the strings and lists, by address. *)
Record contents := mk_contents { strs : Z -> option cstr; lists : Z -> option LppList }.

Section slices.
Context (quiet : bool) (foreign : Z -> option Z) (st : Arc.state) (mem : contents).

Definition lpp_slice_checked_base (view : option LppSlice) : outcome Z :=
  match view with
  | None => Panic "use of an uninitialized slice view"
  | Some v =>
      if (sbase v =? 0) || (sgeneration v =? 0) then Panic "use of an uninitialized slice view"
      else
        let! raw := lpp_weak_get quiet foreign st (sbase v) (sgeneration v) in
        if raw =? 0 then Panic "borrowed slice source is no longer live" else Ok raw
  end.

(** [strlen(base)] or [lpp_list_len(base)]. *)
Definition source_length (base kind : Z) : outcome Z :=
  if kind =? 0
  then match strs mem base with Some s => Ok (Z.of_nat (length s)) | None => Undef end
  else match lists mem base with Some l => Ok (lpp_list_len (Some l)) | None => Undef end.

Definition lpp_slice_init (storage : bool) (base start length kind : Z) : outcome LppSlice :=
  if negb storage || (base =? 0) then Panic "slice construction requires live storage and base"
  else if (start <? 0) || (length <? 0) || (start >? INT64_MAX - length)
  then Panic "invalid slice range: start %lld, len %lld"
  else
    let! n := source_length base kind in
    if (start >? n) || (length >? n - start)
    then Panic "slice range out of bounds: start %lld, len %lld, source len %lld"
    else
      let! g := lpp_weak_generation quiet foreign st base in
      if g =? 0 then Panic "slice source is not an ARC-managed value"
      else Ok (mk_slice base start length g kind).

Definition lpp_slice_len (view : option LppSlice) : outcome Z :=
  let! _b := lpp_slice_checked_base view in
  match view with Some v => Ok (slength v) | None => Undef end.

Definition lpp_slice_get (view : option LppSlice) (index : Z) : outcome Z :=
  let! base := lpp_slice_checked_base view in
  match view with
  | None => Undef
  | Some v =>
      if (index <? 0) || (index >=? slength v) then Panic "slice index out of bounds: index %lld, len %lld"
      else if negb (skind v =? 1) then Panic "numeric slice_get requires Slice[T]"
      else match lists mem base with
           | Some l => let! i := chk64 (sstart v + index) in lpp_list_get (Some l) i
           | None => Undef
           end
  end.

(** The bits of the double. *)
Definition lpp_slice_get_float (view : option LppSlice) (index : Z) : outcome Z :=
  let! bits := lpp_slice_get view index in Ok (u64 bits).
Definition lpp_slice_get_bool (view : option LppSlice) (index : Z) : outcome Z :=
  let! v := lpp_slice_get view index in Ok (b2z (negb (v =? 0))).

(** The byte at a position of the string's block, its terminator included. *)
Definition str_byte (s : cstr) (i : Z) : outcome Z := rd (s ++ [0]) i.

Definition lpp_str_slice_get (granted : bool) (view : option LppSlice) (index : Z) : outcome cstr :=
  let! base := lpp_slice_checked_base view in
  match view with
  | None => Undef
  | Some v =>
      if negb (skind v =? 0) then Panic "string slice_get requires StrSlice"
      else if (index <? 0) || (index >=? slength v) then Panic "string slice index out of bounds: index %lld, len %lld"
      else if negb granted then Panic "out of memory while reading string slice"
      else match strs mem base with
           | Some s => let! i := chk64 (sstart v + index) in let! c := str_byte s i in
                       Ok (if c =? 0 then [] else [c])
           | None => Undef
           end
  end.

Definition lpp_str_slice_to_str (granted : bool) (view : option LppSlice) : outcome cstr :=
  let! base := lpp_slice_checked_base view in
  match view with
  | None => Undef
  | Some v =>
      if negb (skind v =? 0) then Panic "slice_to_str requires StrSlice"
      else if negb granted then Panic "out of memory while copying string slice"
      else match strs mem base with
           | Some s =>
               if sstart v + slength v >? Z.of_nat (length s) + 1 then Undef
               else Ok (take (Z.to_nat (slength v)) (drop (Z.to_nat (sstart v)) s))
           | None => Undef
           end
  end.
End slices.

(** A borrowed slice reads its source or says that it is gone.  A list slice made within the
    bounds of a live list, used at any later moment of the run: while the list lives,
    its length is the one it was made with and an index below it reads the list at
    [start + index] (which panics if the list has shrunk meanwhile); any other index panics.
    Once the list is dead and its memory is not yet freed, or belongs to another object, every
    use panics.  (Reading freed memory is the same hazard as for any weak handle.) *)
Theorem slice_reads_source quiet foreign k1 k2 p b1 mem1 l start length :
  reachable quiet foreign k1 -> later quiet foreign k1 k2 ->
  heap (cst k1) !! p = Some b1 -> live b1 = true -> births (cst k2) < 2 ^ 31 - 2 ->
  lists mem1 p = Some l -> 0 <= start -> 0 <= length -> start + length <= len l -> len l <= INT64_MAX ->
  exists v b2, lpp_slice_init quiet foreign (cst k1) mem1 true p start length 1 = Ok v /\ heap (cst k2) !! p = Some b2 /\
    (live b2 = true -> birth b2 = birth b1 -> forall mem2 l2, lists mem2 p = Some l2 ->
       lpp_slice_len quiet foreign (cst k2) (Some v) = Ok length /\
       forall i, lpp_slice_get quiet foreign (cst k2) mem2 (Some v) i =
         (if (i <? 0) || (i >=? length) then Panic "slice index out of bounds: index %lld, len %lld"
          else lpp_list_get (Some l2) (start + i))) /\
    (live b2 = false \/ birth b2 <> birth b1 -> freed b2 && negb quiet = false -> forall mem2 i,
       lpp_slice_len quiet foreign (cst k2) (Some v) = Panic "borrowed slice source is no longer live" /\
       lpp_slice_get quiet foreign (cst k2) mem2 (Some v) i = Panic "borrowed slice source is no longer live").
Proof.
  intros Hr Hl Hb1 Hlv Hbirth Hsrc Hs Hn Hsum Hmax.
  destruct (weak_later quiet foreign k1 k2 p b1 Hr Hl Hb1 Hlv Hbirth) as (Hg & Hbi & b2 & Hb2 & Hw).
  assert ((p =? 0) = false) as Hp0.
  { pose proof (reachable_ok _ _ _ Hr) as [Hi _]. destruct (i_live _ _ _ _ _ Hi p b1 Hb1 Hlv) as (Hok & _).
    by destruct (ptr_ok_tests p Hok). }
  exists (mk_slice p start length (birth b1 + 2) 1), b2. split; [|split; [done|split]].
  - unfold lpp_slice_init, source_length. rewrite Hp0, Hsrc, Hg. cbn [negb orb obind lpp_list_len].
    change (1 =? 0) with false. cbn iota. cbn [obind]. rewrite !Z.gtb_ltb, !(proj2 (Z.ltb_ge _ _)) by lia. cbn [orb].
    by rewrite (proj2 (Z.eqb_neq (birth b1 + 2) 0)) by lia.
  - intros Hl2 Hbe mem2 l2 Hm2. rewrite Hl2, Hbe, Z.eqb_refl in Hw.
    assert (lpp_slice_checked_base quiet foreign (cst k2) (Some (mk_slice p start length (birth b1 + 2) 1)) = Ok p) as Hb.
    { unfold lpp_slice_checked_base. cbn [sbase sgeneration]. rewrite Hp0, (proj2 (Z.eqb_neq (birth b1 + 2) 0)), Hw by lia.
      cbn [orb obind]. by rewrite Hp0. }
    unfold lpp_slice_len, lpp_slice_get. rewrite Hb. cbn [obind slength sstart skind]. split; [done|]. intros i.
    destruct (Z.ltb_spec i 0); [done|]. rewrite Z.geb_leb. destruct (Z.leb_spec length i); [done|]. cbn [orb]. change (negb (1 =? 1)) with false.
    cbn iota. rewrite Hm2, chk64_ok by (pow2; lia). done.
  - intros Hdead Hfr mem2 i.
    assert (lpp_weak_get quiet foreign (cst k2) p (birth b1 + 2) = Ok 0) as Hw0.
    { rewrite Hw, Hfr. destruct (live b2); [|done]. destruct Hdead as [?|Hne]; [done|].
      by rewrite (proj2 (Z.eqb_neq (birth b2) _)). }
    unfold lpp_slice_len, lpp_slice_get, lpp_slice_checked_base. cbn [sbase sgeneration].
    rewrite Hp0, (proj2 (Z.eqb_neq (birth b1 + 2) 0)), Hw0 by lia. done.
Qed.

Lemma slice_reads_source_witness :
  exists k v, run false no_arc demo_build start = Ok k /\
    lpp_slice_init false no_arc (cst k) (mk_contents (fun _ => None) (fun _ => Some (mk_list [7; 8; 9] 3 3 false false)))
      true 0x30200 1 2 1 = Ok v.
Proof.
  pose (b1 := mk_block LPP_ARC_MAGIC 2 4 true [] false 2).
  destruct (slice_reads_source false no_arc (after demo_build) (after demo_build) 0x30200 b1
    (mk_contents (fun _ => None) (fun _ => Some (mk_list [7; 8; 9] 3 3 false false))) (mk_list [7; 8; 9] 3 3 false false) 1 2)
    as (v & b2 & H & _).
  - apply (demo_reachable demo_build). vm_compute. reflexivity.
  - apply later_refl.
  - vm_compute. reflexivity.
  - reflexivity.
  - vm_compute. reflexivity.
  - reflexivity.
  - lia.
  - lia.
  - vm_compute. discriminate.
  - vm_compute. discriminate.
  - exists (after demo_build), v. split; [vm_compute; reflexivity|exact H].
Defined.
