(* ===== verification/Json.v ===== *)
(** * The JSON parser and its accessors (runtime/lpp_runtime.c)

    A position in the text is the suffix still to be read.  Every string the parser makes (an
    ARC string) and every node (a [calloc]ed struct) gets a number, and a call is modelled with
    the sequence of allocations and releases it performs, so that ownership can be stated. *)

From S2P Require Import Prelude CInt Str.

(** An ARC string of the parser: its number and its bytes. *)
Abbreviation astr := (nat * list Z)%type.

(** [lpp_JsonNode]: the constructor is the [type] field, [members] the [obj_val] list linked by
    [next]; a [NULL] key or string is [None]. *)
#[warnings="-register-all"]
Inductive jnode : Type :=
| NInt (id : nat) (key : option astr) (int_val : Z)
| NStr (id : nat) (key : option astr) (str_val : option astr)
| NObj (id : nat) (key : option astr) (members : list jnode).

Inductive jev : Type :=
| Born (id : nat)
| Gone (id : nat).

Record pst := mk_pst { rest : cstr; next_id : nat; evs : list jev }.

Definition LPP_JSON_MAX_DEPTH : Z := 256.

Definition set_rest (st : pst) (r : cstr) : pst := mk_pst r (next_id st) (evs st).
Definition emit_ev (st : pst) (e : jev) : pst := mk_pst (rest st) (next_id st) (evs st ++ [e]).

Definition skip_json_ws (st : pst) : pst := set_rest st (skip_ws (rest st)).

(** The bytes up to a quote or the end, and what follows them. *)
Fixpoint until_quote (s : cstr) : cstr * cstr :=
  match s with
  | [] => ([], [])
  | c :: r => if c =? 34 then ([], s) else let '(a, b) := until_quote r in (c :: a, b)
  end.

(** [lpp_arc_release] of a string of the parser, which ignores [NULL]. *)
Definition release_str (st : pst) (s : option astr) : pst :=
  match s with Some (id, _) => emit_ev st (Gone id) | None => st end.

(** Where [strtoll] stops reading: at its argument when there is no digit. *)
Fixpoint skip_digits (s : cstr) : cstr :=
  match s with c :: r => if is_digit c then skip_digits r else s | [] => [] end.
Definition strtoll_end (s : cstr) : cstr :=
  let t := skip_space s in
  let t := match t with 45 :: r => r | 43 :: r => r | _ => t end in
  if is_digit (chr0 t) then skip_digits t else s.

Section parser.
(** [al k]: whether the [k]-th allocation is served. *)
Context (al : nat -> bool).

(** An allocation: the number of the new object, if it is served. *)
Definition alloc (st : pst) : option nat * pst :=
  if al (next_id st) then (Some (next_id st), mk_pst (rest st) (S (next_id st)) (evs st ++ [Born (next_id st)]))
  else (None, mk_pst (rest st) (S (next_id st)) (evs st)).

Definition parse_json_string (st : pst) : option astr * pst :=
  let st := skip_json_ws st in
  if negb (chr0 (rest st) =? 34) then (None, st)
  else
    let st := set_rest st (tail (rest st)) in
    let '(text, r) := until_quote (rest st) in
    let st := set_rest st r in
    let '(res, st) := alloc st in
    match res with
    | None => (None, st)
    | Some id =>
        let st := if chr0 (rest st) =? 34 then set_rest st (tail (rest st)) else st in
        (Some (id, text), st)
    end.

Definition set_key (n : jnode) (key : option astr) : jnode :=
  match n with
  | NInt id _ v => NInt id key v
  | NStr id _ s => NStr id key s
  | NObj id _ ms => NObj id key ms
  end.

(** [members] collects the list from [head] to [tail]. *)
Fixpoint parse_json_value (fuel : nat) (st : pst) (depth : Z) : outcome (option jnode * pst) :=
  match fuel with
  | O => NoFuel
  | S f =>
      if depth >? LPP_JSON_MAX_DEPTH then Ok (None, st)
      else
        let st := skip_json_ws st in
        let c := chr0 (rest st) in
        if c =? 123 then parse_json_object f st (depth + 1)
        else if c =? 34 then
          let '(s, st) := parse_json_string st in
          let '(n, st) := alloc st in
          match n with
          | None => Ok (None, release_str st s)
          | Some id => Ok (Some (NStr id None s), st)
          end
        else if is_digit c || (c =? 45) then
          let val := strtoll10 (rest st) in
          let st := set_rest st (strtoll_end (rest st)) in
          let '(n, st) := alloc st in
          match n with
          | None => Ok (None, st)
          | Some id => Ok (Some (NInt id None val), st)
          end
        else Ok (None, st)
  end
with parse_json_object (fuel : nat) (st : pst) (depth : Z) : outcome (option jnode * pst) :=
  match fuel with
  | O => NoFuel
  | S f =>
      let st := skip_json_ws st in
      if negb (chr0 (rest st) =? 123) then Ok (None, st)
      else
        let st := set_rest st (tail (rest st)) in
        let! '(members, st) := parse_members f st depth in
        let st := if chr0 (rest st) =? 125 then set_rest st (tail (rest st)) else st in
        let '(n, st) := alloc st in
        match n with
        | None => Ok (None, st)
        | Some id => Ok (Some (NObj id None members), st)
        end
  end
with parse_members (fuel : nat) (st : pst) (depth : Z) : outcome (list jnode * pst) :=
  match fuel with
  | O => NoFuel
  | S f =>
      if (chr0 (rest st) =? 0) || (chr0 (rest st) =? 125) then Ok ([], st)
      else
        let st := skip_json_ws st in
        if chr0 (rest st) =? 125 then Ok ([], st)
        else
          let '(key, st) := parse_json_string st in
          let st := skip_json_ws st in
          if negb (chr0 (rest st) =? 58) then Ok ([], release_str st key)
          else
            let st := set_rest st (tail (rest st)) in
            let! '(val, st) := parse_json_value f st (depth + 1) in
            let '(member, st) :=
              match val with
              | Some v => ([set_key v key], st)
              | None => ([], release_str st key)
              end in
            let st := skip_json_ws st in
            if chr0 (rest st) =? 44 then
              let! '(members, st) := parse_members f (set_rest st (tail (rest st))) depth in
              Ok (member ++ members, st)
            else if negb (chr0 (rest st) =? 125) then Ok (member, st)
            else
              let! '(members, st) := parse_members f st depth in
              Ok (member ++ members, st)
  end.

(** More fuel than the depth of nested calls (see [parse_total]). *)
Definition json_fuel (s : cstr) : nat := 2 * length s + 2.

Definition lpp_json_parse (str : option cstr) : outcome (option jnode * pst) :=
  match str with
  | None => Ok (None, mk_pst [] 0 [])
  | Some s => parse_json_value (json_fuel s) (mk_pst s 0 []) 0
  end.
End parser.

(** ** Accessors *)

Definition key_of (n : jnode) : option astr :=
  match n with NInt _ k _ | NStr _ k _ | NObj _ k _ => k end.

(** The loop over the members: the first whose key is equal.  A [NULL] argument is undefined
    behaviour of [strcmp] once it is reached. *)
Fixpoint find_member (ms : list jnode) (key : option cstr) : outcome (option jnode) :=
  match ms with
  | [] => Ok None
  | m :: ms =>
      match key_of m with
      | None => find_member ms key
      | Some (_, k) =>
          match key with
          | None => Undef
          | Some key => if strcmp k key =? 0 then Ok (Some m) else find_member ms (Some key)
          end
      end
  end.

Definition lpp_json_get_int (json : option jnode) (key : option cstr) : outcome Z :=
  match json with
  | Some (NObj _ _ ms) =>
      let! m := find_member ms key in
      Ok (match m with Some (NInt _ _ v) => v | _ => 0 end)
  | _ => Ok 0
  end.

Definition lpp_json_get_str (json : option jnode) (key : option cstr) : outcome cstr :=
  match json with
  | Some (NObj _ _ ms) =>
      let! m := find_member ms key in
      Ok (match m with Some (NStr _ _ (Some (_, s))) => s | _ => [] end)
  | _ => Ok []
  end.

Definition lpp_json_get_obj (json : option jnode) (key : option cstr) : outcome (option jnode) :=
  match json with
  | Some (NObj _ _ ms) =>
      let! m := find_member ms key in
      Ok (match m with Some (NObj _ _ _) => m | _ => None end)
  | _ => Ok None
  end.

(** ** Freeing *)

Definition gone_str (s : option astr) : list jev := match s with Some (id, _) => [Gone id] | None => [] end.

Fixpoint lpp_json_free_node (n : jnode) : list jev :=
  match n with
  | NInt id key _ => gone_str key ++ [Gone id]
  | NStr id key s => gone_str key ++ gone_str s ++ [Gone id]
  | NObj id key ms =>
      gone_str key ++
      (fix go ms := match ms with [] => [] | m :: ms => lpp_json_free_node m ++ go ms end) ms ++ [Gone id]
  end.

Definition lpp_json_free (json : option jnode) : list jev :=
  match json with Some n => lpp_json_free_node n | None => [] end.

(** ** Ownership *)

Definition births (es : list jev) : list nat := omap (fun e => match e with Born i => Some i | Gone _ => None end) es.
Definition deaths (es : list jev) : list nat := omap (fun e => match e with Gone i => Some i | Born _ => None end) es.

Lemma births_app a b : births (a ++ b) = births a ++ births b.
Proof. apply omap_app. Qed.
Lemma deaths_app a b : deaths (a ++ b) = deaths a ++ deaths b.
Proof. apply omap_app. Qed.

(** What freeing a node, or a list of them, releases. *)
Definition held (n : jnode) : list nat := deaths (lpp_json_free_node n).
Definition held_opt (n : option jnode) : list nat := deaths (lpp_json_free n).
Definition held_all (ms : list jnode) : list nat := mbind held ms.
Definition sid (s : option astr) : list nat := deaths (gone_str s).

Lemma held_obj id key ms : held (NObj id key ms) = sid key ++ held_all ms ++ [id].
Proof.
  unfold held. cbn [lpp_json_free_node]. rewrite !deaths_app. f_equal. f_equal.
  induction ms as [|m ms IH]; [done|]. rewrite deaths_app, IH. done.
Qed.

Lemma held_set_key n key : key_of n = None -> held (set_key n key) ≡ₚ sid key ++ held n.
Proof.
  destruct n as [id k v|id k s|id k ms]; cbn [key_of set_key]; intros ->.
  - unfold held. cbn [lpp_json_free_node]. by rewrite !deaths_app.
  - unfold held. cbn [lpp_json_free_node]. by rewrite !deaths_app.
  - by rewrite !held_obj.
Qed.

(** A stretch of the parse: it moves forward, numbers its objects consecutively, and what it
    made is what it released and [live]. *)
Definition stretch (st st' : pst) (live : list nat) : Prop :=
  (length (rest st') <= length (rest st))%nat /\
  exists new, evs st' = evs st ++ new /\ (next_id st <= next_id st')%nat /\
    births new = seq (next_id st) (next_id st' - next_id st) /\ births new ≡ₚ deaths new ++ live.

Lemma stretch_refl st r : (length r <= length (rest st))%nat -> stretch st (set_rest st r) [].
Proof.
  intros Hr. split; [done|]. exists []. cbn [set_rest next_id evs]. rewrite app_nil_r, Nat.sub_diag. done.
Qed.

Lemma stretch_trans st1 st2 st3 l1 l2 : stretch st1 st2 l1 -> stretch st2 st3 l2 -> stretch st1 st3 (l1 ++ l2).
Proof.
  intros (A0 & new1 & A1 & A2 & A3 & A4) (B0 & new2 & B1 & B2 & B3 & B4). split; [lia|]. exists (new1 ++ new2).
  rewrite births_app, deaths_app, B1, A1. split; [by rewrite (assoc_L (++))|]. split; [lia|]. split.
  - rewrite A3, B3. replace (next_id st3 - next_id st1)%nat with ((next_id st2 - next_id st1) + (next_id st3 - next_id st2))%nat by lia.
    rewrite seq_app. do 2 f_equal. lia.
  - rewrite A4, B4. rewrite <- !(assoc_L (++)). f_equiv. rewrite !(assoc_L (++)). f_equiv. apply Permutation_app_comm.
Qed.

Lemma stretch_perm st st' l l' : l ≡ₚ l' -> stretch st st' l -> stretch st st' l'.
Proof. intros Hl (H0 & new & H1 & H2 & H3 & H4). split; [done|]. exists new. by rewrite <- Hl. Qed.

Lemma stretch_release st st' s l : stretch st st' (sid s ++ l) -> stretch st (release_str st' s) l.
Proof.
  destruct s as [[id t]|]; [|done]. intros (H0 & new & H1 & H2 & H3 & H4). split; [done|].
  exists (new ++ [Gone id]). cbn [release_str emit_ev evs next_id]. rewrite H1, births_app, deaths_app.
  split; [by rewrite (assoc_L (++))|]. split; [done|]. split; [by rewrite app_nil_r|].
  rewrite app_nil_r, H4, <- (assoc_L (++)). done.
Qed.

Lemma skip_ws_length s : (length (skip_ws s) <= length s)%nat.
Proof. induction s as [|c s IH]; [done|]. cbn [skip_ws]. destruct (ws c); cbn [length]; lia. Qed.

Lemma until_quote_length s : (length (until_quote s).2 <= length s)%nat.
Proof.
  induction s as [|c s IH]; [done|]. cbn [until_quote]. destruct (c =? 34); [done|].
  destruct (until_quote s) as [a b]. cbn [snd length] in *. lia.
Qed.

Lemma tail_length (s : cstr) : (length (tail s) <= length s)%nat.
Proof. destruct s; cbn [tail length]; lia. Qed.

Lemma skip_space_length s : (length (skip_space s) <= length s)%nat.
Proof. induction s as [|c s IH]; [done|]. cbn [skip_space]. destruct (isspace c); cbn [length]; lia. Qed.
Lemma skip_digits_length s : (length (skip_digits s) <= length s)%nat.
Proof. induction s as [|c s IH]; [done|]. cbn [skip_digits]. destruct (is_digit c); cbn [length]; lia. Qed.

Lemma strtoll_end_length s : (length (strtoll_end s) <= length s)%nat.
Proof.
  unfold strtoll_end. set (t := match skip_space s with 45 :: r => r | 43 :: r => r | _ => skip_space s end).
  assert (length t <= length s)%nat.
  { etrans; [|apply skip_space_length]. subst t. destruct (skip_space s) as [|c r]; [done|].
    repeat case_match; cbn [length]; lia. }
  destruct (is_digit (chr0 t)); [|done]. etrans; [apply skip_digits_length|done].
Qed.

Section granted.
(** Every allocation is served. *)
Let al : nat -> bool := fun _ => true.

Lemma alloc_stretch st id st' : alloc al st = (Some id, st') -> stretch st st' [id] /\ rest st' = rest st.
Proof.
  unfold alloc, al. intros [= <- <-]. split; [|done]. split; [done|]. exists [Born (next_id st)]. cbn [evs next_id].
  split; [done|]. split; [lia|]. split; [|done]. by replace (S (next_id st) - next_id st)%nat with 1%nat by lia.
Qed.

Lemma string_stretch st s st' : parse_json_string al st = (s, st') -> stretch st st' (sid s).
Proof.
  unfold parse_json_string. set (st0 := skip_json_ws st).
  assert (stretch st st0 []) as H0 by (apply stretch_refl, skip_ws_length).
  destruct (negb _); [by intros [= <- <-]|].
  pose proof (until_quote_length (tail (rest st0))) as Hq. pose proof (tail_length (rest st0)) as Ht. cbn [rest set_rest].
  destruct (until_quote (tail (rest st0))) as [text r]. cbn [snd] in Hq.
  set (st1 := set_rest (set_rest st0 (tail (rest st0))) r).
  assert (stretch st st1 []) as H1 by (eapply (stretch_trans _ _ _ [] []); [exact H0|apply (stretch_refl st0 r); lia]).
  destruct (alloc al st1) as [[id|] st2] eqn:Ea; [|discriminate]. apply alloc_stretch in Ea as [Ea Hr2].
  pose proof (stretch_trans _ _ _ _ _ H1 Ea) as H2. intros [= <- <-].
  change (sid (Some (id, text))) with ([id] ++ []). eapply stretch_trans; [exact H2|].
  destruct (chr0 (rest st2) =? 34); [apply stretch_refl, tail_length|by apply (stretch_refl st2 (rest st2))].
Qed.

Definition unkeyed (n : option jnode) : Prop := match n with Some n => key_of n = None | None => True end.

(** Every parse returns, within the fuel, with its books in order. *)
Definition value_ok (f : nat) : Prop := forall st d, (2 * length (rest st) + 2 <= f)%nat ->
  wp (parse_json_value al f st d) (fun r => stretch st r.2 (held_opt r.1) /\ unkeyed r.1).
Definition object_ok (f : nat) : Prop := forall st d, (2 * length (rest st) + 1 <= f)%nat ->
  wp (parse_json_object al f st d) (fun r => stretch st r.2 (held_opt r.1) /\ unkeyed r.1).
Definition members_ok (f : nat) : Prop := forall st d, (2 * length (rest st) + 2 <= f)%nat ->
  wp (parse_members al f st d) (fun r => stretch st r.2 (held_all r.1)).

Lemma value_step f : object_ok f -> value_ok (S f).
Proof.
  intros IHo st d Hf.
  cbn [parse_json_value]. destruct (d >? LPP_JSON_MAX_DEPTH).
  { cbn [wp fst snd]. split; [|done]. apply (stretch_refl st (rest st)). done. }
  set (st0 := skip_json_ws st). pose proof (skip_ws_length (rest st)) as Hl.
  assert (stretch st st0 []) as H0 by (by apply stretch_refl).
  destruct (chr0 (rest st0) =? 123).
  { eapply wp_mono; [apply IHo; cbn [st0 skip_json_ws set_rest rest]; lia|].
    intros [r st'] [Hs Hu]. split; [|done]. exact (stretch_trans _ _ _ _ _ H0 Hs). }
  destruct (chr0 (rest st0) =? 34).
  { destruct (parse_json_string al st0) as [s st1] eqn:Es. apply string_stretch in Es.
    destruct (alloc al st1) as [n st2] eqn:Ea. destruct n as [id|]; [|discriminate]. apply alloc_stretch in Ea as [Ea _].
    cbn [wp fst snd]. split; [|done]. pose proof (stretch_trans _ _ _ _ _ (stretch_trans _ _ _ _ _ H0 Es) Ea) as Ht.
    unfold held_opt. cbn [lpp_json_free lpp_json_free_node gone_str app]. by rewrite deaths_app. }
  destruct (is_digit (chr0 (rest st0)) || (chr0 (rest st0) =? 45)).
  { destruct (alloc al (set_rest st0 (strtoll_end (rest st0)))) as [n st2] eqn:Ea.
    destruct n as [id|]; [|discriminate]. apply alloc_stretch in Ea as [Ea _]. cbn [wp fst snd]. split; [|done].
    exact (stretch_trans _ _ _ _ _ (stretch_trans _ _ _ _ _ H0 (stretch_refl st0 _ (strtoll_end_length _))) Ea). }
  cbn [wp fst snd]. done.
Qed.

Lemma object_step f : members_ok f -> object_ok (S f).
Proof.
  intros IHm st d Hf.
  cbn [parse_json_object]. set (st0 := skip_json_ws st). pose proof (skip_ws_length (rest st)) as Hl.
  assert (stretch st st0 []) as H0 by (by apply stretch_refl).
  destruct (chr0 (rest st0) =? 123) eqn:Ec; cbn [negb]; [|by cbn [wp fst snd]].
  assert (length (tail (rest st0)) < length (rest st0))%nat as Ht.
  { destruct (rest st0) as [|c r]; [done|]. cbn [tail length]. lia. }
  set (st1 := set_rest st0 (tail (rest st0))).
  assert (stretch st0 st1 []) as H1 by (apply stretch_refl; lia).
  apply wp_bind. eapply wp_mono; [apply IHm; change (rest st1) with (tail (rest st0)); change (rest st0) with (skip_ws (rest st)) in *; lia|].
  intros [ms st2] Hm. cbn [fst snd] in *.
  set (st3 := if chr0 (rest st2) =? 125 then set_rest st2 (tail (rest st2)) else st2).
  assert (stretch st2 st3 []) as H3.
  { subst st3. destruct (chr0 (rest st2) =? 125); apply stretch_refl || apply (stretch_refl st2 (rest st2)); apply tail_length || done. }
  destruct (alloc al st3) as [n st4] eqn:Ea. destruct n as [id|]; [|discriminate]. apply alloc_stretch in Ea as [Ea _].
  cbn [wp fst snd]. split; [|done]. unfold held_opt. cbn [lpp_json_free]. fold (held (NObj id None ms)). rewrite held_obj.
  pose proof (stretch_trans _ _ _ _ _ (stretch_trans _ _ _ _ _ (stretch_trans _ _ _ _ _ (stretch_trans _ _ _ _ _ H0 H1) Hm) H3) Ea) as Hx.
  cbn [app] in Hx. by rewrite app_nil_r in Hx.
Qed.

Lemma members_step f : value_ok f -> members_ok f -> members_ok (S f).
Proof.
  intros IHv IHm st d Hf.
  cbn [parse_members].
  assert (wp (Ok ([] : list jnode, st)) (fun r => stretch st r.2 (held_all r.1))) as Hret.
  { cbn [wp fst snd]. apply (stretch_refl st (rest st)). done. }
  destruct ((chr0 (rest st) =? 0) || (chr0 (rest st) =? 125)); [done|]. clear Hret.
  set (st0 := skip_json_ws st). pose proof (skip_ws_length (rest st)) as Hl.
  assert (stretch st st0 []) as H0 by (by apply stretch_refl).
  destruct (chr0 (rest st0) =? 125); [done|].
  destruct (parse_json_string al st0) as [key st1] eqn:Es. apply string_stretch in Es.
  set (st2 := skip_json_ws st1). assert (stretch st1 st2 []) as H2 by (apply stretch_refl, skip_ws_length).
  assert (stretch st st2 (sid key)) as Hkey.
  { pose proof (stretch_trans _ _ _ _ _ (stretch_trans _ _ _ _ _ H0 Es) H2) as Hx. cbn [app] in Hx. by rewrite app_nil_r in Hx. }
  destruct (chr0 (rest st2) =? 58) eqn:Ec; cbn [negb].
  2: { cbn [wp fst snd]. apply stretch_release. unfold held_all. cbn. by rewrite app_nil_r. }
  assert (length (tail (rest st2)) < length (rest st2))%nat as Ht.
  { destruct (rest st2) as [|c r]; [done|]. cbn [tail length]. lia. }
  set (st3 := set_rest st2 (tail (rest st2))). assert (stretch st2 st3 []) as H3 by (apply stretch_refl; lia).
  pose proof Hkey as [Hlen _]. apply wp_bind.
  eapply wp_mono; [apply IHv; change (rest st3) with (tail (rest st2)); lia|].
  intros [val st4] [Hv Hu]. cbn [fst snd] in *. pose proof Hv as [Hlen4 _]. change (rest st3) with (tail (rest st2)) in Hlen4.
  pose proof (stretch_trans _ _ _ _ _ (stretch_trans _ _ _ _ _ Hkey H3) Hv) as Hkv. rewrite app_nil_r in Hkv.
  set (ms := match val with Some v => ([set_key v key], st4) | None => ([], release_str st4 key) end).
  assert (exists member st5, ms = (member, st5) /\ stretch st st5 (held_all member) /\ rest st5 = rest st4) as (member & st5 & -> & H5 & Hr5).
  { subst ms. destruct val as [v|].
    - exists [set_key v key], st4. split; [done|]. split; [|done]. eapply stretch_perm; [|exact Hkv].
      unfold held_all. cbn. rewrite app_nil_r. symmetry. by apply held_set_key.
    - exists [], (release_str st4 key). split; [done|]. split; [by apply stretch_release|]. destruct key as [[]|]; done. }
  set (st6 := skip_json_ws st5). pose proof (skip_ws_length (rest st5)) as Hl5.
  assert (stretch st5 st6 []) as H6 by (by apply stretch_refl).
  pose proof (stretch_trans _ _ _ _ _ H5 H6) as H56. rewrite app_nil_r in H56.
  assert (forall r, (length r <= length (rest st6))%nat ->
    wp (let! '(members, st) := parse_members al f (set_rest st6 r) d in Ok (member ++ members, st))
      (fun r => stretch st r.2 (held_all r.1))) as Hgo.
  { intros r Hr. apply wp_bind. eapply wp_mono; [apply IHm; cbn [rest set_rest]; change (rest st6) with (skip_ws (rest st5)) in Hr; rewrite Hr5 in *; lia|].
    intros [members st7] Hm. cbn [wp fst snd] in *. unfold held_all. rewrite bind_app.
    eapply stretch_trans; [exact H56|].
    exact (stretch_trans _ _ _ [] _ (stretch_refl st6 r Hr) Hm). }
  destruct (chr0 (rest st6) =? 44); [apply Hgo, tail_length|].
  destruct (chr0 (rest st6) =? 125); cbn [negb]; [|by cbn [wp fst snd]].
  replace st6 with (set_rest st6 (rest st6)) by (by destruct st6). apply Hgo. done.
Qed.

Lemma parse_total f : value_ok f /\ object_ok f /\ members_ok f.
Proof.
  induction f as [|f (IHv & IHo & IHm)]; [split_and!; intros st d Hf; lia|].
  split_and!; [by apply value_step|by apply object_step|by apply members_step].
Qed.
End granted.

Lemma free_births n : births (lpp_json_free_node n) = [].
Proof.
  revert n. fix IH 1. intros [id key v|id key s|id key ms]; cbn [lpp_json_free_node]; rewrite !births_app.
  - by destruct key as [[]|].
  - destruct key as [[]|], s as [[]|]; done.
  - replace (births (gone_str key)) with (@nil nat) by (by destruct key as [[]|]). cbn [births omap list_omap app].
    rewrite app_nil_r. induction ms as [|m ms IHms]; [done|]. by rewrite births_app, IH, IHms.
Qed.

(** C35. Parsing always ends and owns what it makes.  On every text, well-formed or not, the
    parser returns within [2 * length + 2] nested calls; each string and each node allocated
    on the way, those of rejected members included, is released exactly once by the parser
    itself or by [lpp_json_free] of its result: nothing leaks and nothing is freed twice, as
    long as no allocation fails. *)
Theorem json_owns_everything s :
  exists n st, lpp_json_parse (fun _ => true) (Some s) = Ok (n, st) /\
    let history := evs st ++ lpp_json_free n in
    NoDup (births history) /\ deaths history ≡ₚ births history.
Proof.
  destruct (parse_total (json_fuel s)) as (Hv & _ & _).
  destruct (wp_inv _ _ (Hv (mk_pst s 0 []) 0 ltac:(unfold json_fuel; cbn [rest]; lia))) as ([n st] & He & (_ & new & H1 & _ & H3 & H4) & _).
  exists n, st. split; [exact He|]. cbn [fst snd evs app next_id] in *. cbn zeta. rewrite births_app, deaths_app, H1.
  assert (births (lpp_json_free n) = []) as -> by (destruct n as [n|]; [apply free_births|done]). rewrite app_nil_r.
  split; [rewrite H3; apply NoDup_seq|]. by rewrite H4.
Qed.

(** When the node of an object cannot be allocated its members are lost. *)
Example object_node_failure_leaks :
  exists st, lpp_json_parse (fun k => negb (k =? 2)%nat) (Some [123; 34; 97; 34; 58; 49; 125]) = Ok (None, st) /\
    births (evs st) = [0; 1]%nat /\ deaths (evs st) = [].
Proof. eexists. split; [vm_compute; reflexivity|]. split; reflexivity. Qed.

(** ** Round trip *)

#[warnings="-register-all"]
Inductive json : Type :=
| JInt (v : Z)
| JStr (s : cstr)
| JObj (members : list (cstr * json)).

Fixpoint render (j : json) : cstr :=
  match j with
  | JInt v => fmt_lld v
  | JStr s => 34 :: s ++ [34]
  | JObj ms =>
      123 :: (fix go (first : bool) ms :=
        match ms with
        | [] => []
        | (k, v) :: ms => (if first then [] else [44]) ++ 34 :: k ++ [34; 58] ++ render v ++ go false ms
        end) true ms ++ [125]
  end.

(** What the text of the members of an object looks like after a member. *)
Definition render_more (ms : list (cstr * json)) : cstr :=
  mbind (fun kv => 44 :: 34 :: kv.1 ++ [34; 58] ++ render kv.2) ms.

(** Strings without quotes and NULs, integers that fit, at most [n] nested objects. *)
Definition plain (s : cstr) : Prop := Forall (fun c => 1 <= c < 256 /\ c <> 34) s.
Fixpoint well (n : nat) (j : json) : Prop :=
  match j with
  | JInt v => INT64_MIN <= v <= INT64_MAX
  | JStr s => plain s
  | JObj ms =>
      match n with
      | O => False
      | S n => (fix go ms := match ms with [] => True | (k, v) :: ms => plain k /\ well n v /\ go ms end) ms
      end
  end.

(** The document a node stands for. *)
Fixpoint erase (n : jnode) : json :=
  match n with
  | NInt _ _ v => JInt v
  | NStr _ _ s => JStr (match s with Some (_, t) => t | None => [] end)
  | NObj _ _ ms =>
      JObj ((fix go ms := match ms with
        | [] => []
        | m :: ms => (match key_of m with Some (_, k) => k | None => [] end, erase m) :: go ms
        end) ms)
  end.
Definition member (m : jnode) : cstr * json := (match key_of m with Some (_, k) => k | None => [] end, erase m).

Lemma erase_obj id key ms : erase (NObj id key ms) = JObj (map member ms).
Proof. reflexivity. Qed.

Lemma render_obj ms : render (JObj ms) = 123 ::
  match ms with [] => [] | (k, v) :: ms => 34 :: k ++ [34; 58] ++ render v ++ render_more ms end ++ [125].
Proof.
  cbn [render]. f_equal. f_equal. destruct ms as [|[k v] ms]; [done|]. cbn [app]. do 4 f_equal.
  f_equal. induction ms as [|[k' v'] ms IH]; [done|]. unfold render_more. rewrite bind_cons. cbn [fst snd app].
  rewrite <- !(assoc_L (++)). cbn [app]. do 3 f_equal. by rewrite IH.
Qed.

Lemma well_obj n ms : well (S n) (JObj ms) <-> Forall (fun kv => plain kv.1 /\ well n kv.2) ms.
Proof.
  cbn [well]. induction ms as [|[k v] ms IH]; [split; [constructor|done]|]. rewrite Forall_cons, IH. cbn [fst snd]. tauto.
Qed.

(** *** Reading back the pieces *)

Lemma until_quote_plain s r : plain s -> until_quote (s ++ 34 :: r) = (s, 34 :: r).
Proof.
  induction 1 as [|c s [Hc Hq] _ IH]; [done|]. cbn [app until_quote].
  rewrite (proj2 (Z.eqb_neq c 34)) by done. by rewrite IH.
Qed.

Lemma string_reads al st s r : (forall k, al k = true) -> plain s -> rest st = 34 :: s ++ 34 :: r ->
  exists id st', parse_json_string al st = (Some (id, s), st') /\ rest st' = r.
Proof.
  intros Hal Hs Hr. unfold parse_json_string, skip_json_ws. rewrite Hr. cbn [skip_ws]. change (ws 34) with false.
  cbn [rest set_rest chr0]. change (34 =? 34) with true. cbn [negb tail].
  rewrite until_quote_plain by done. unfold alloc. rewrite Hal. cbn [rest set_rest chr0]. change (34 =? 34) with true.
  cbn [tail]. eauto.
Qed.

(** The text after a value: its end, or a separator. *)
Definition stops (r : cstr) : Prop := is_digit (chr0 r) = false.

Lemma skip_digits_all ds r : Forall (fun c => is_digit c = true) ds -> stops r -> skip_digits (ds ++ r) = r.
Proof.
  intros Hd Hr. induction Hd as [|c ds Hc _ IH]; cbn [app].
  - destruct r as [|c r]; [done|]. cbn [skip_digits]. unfold stops in Hr. cbn [chr0] in Hr. by rewrite Hr.
  - cbn [skip_digits]. by rewrite Hc.
Qed.

Lemma digits_all v : 0 <= v -> Forall (fun c => is_digit c = true) (digits 10 20 v).
Proof.
  intros Hv. eapply Forall_weaken; [apply (digits_range 10 20 v); lia|]. intros c (d & Hd & ->).
  by apply digit_char_dec.
Qed.

Lemma dec_value_stops ds r acc : stops r -> dec_value (ds ++ r) acc = dec_value ds acc \/ ~ Forall (fun c => is_digit c = true) ds.
Proof.
  intros Hr. revert acc. induction ds as [|c ds IH]; intros acc.
  - left. destruct r as [|c r]; [done|]. cbn [app dec_value]. unfold stops in Hr. cbn [chr0] in Hr. by rewrite Hr.
  - cbn [app dec_value]. destruct (is_digit c) eqn:Ec.
    + destruct (IH (acc * 10 + (c - 48))) as [->|Hn]; [by left|right; by intros [_ ?]%Forall_cons].
    + by left.
Qed.

Lemma digit_first c t : 48 <= c <= 57 ->
  strtoll10 (c :: t) = saturate (dec_value (c :: t) 0) /\ strtoll_end (c :: t) = skip_digits (c :: t).
Proof.
  intros Hc. assert (c ∈ [48; 49; 50; 51; 52; 53; 54; 55; 56; 57]) as Hin by (rewrite !elem_of_cons; lia).
  repeat (apply elem_of_cons in Hin as [->|Hin]; [done|]). by apply elem_of_nil in Hin.
Qed.

Lemma int_reads v r : INT64_MIN <= v <= INT64_MAX -> stops r ->
  strtoll10 (fmt_lld v ++ r) = v /\ strtoll_end (fmt_lld v ++ r) = r /\
  exists c t, fmt_lld v ++ r = c :: t /\ (is_digit c || (c =? 45)) = true.
Proof.
  intros Hv Hr. unfold fmt_lld. destruct (Z.ltb_spec v 0) as [Hneg|Hpos].
  - pose proof (digits_all (- v) ltac:(lia)) as Hd. destruct (digits_head (- v) ltac:(lia)) as (c & t & Hc & Hb).
    split_and!.
    + rewrite <- (strtoll_neg v) at 2 by lia. unfold strtoll10. cbn [app skip_space]. change (isspace 45) with false. cbv iota.
      by destruct (dec_value_stops (digits 10 20 (- v)) r 0 Hr) as [->|?].
    + unfold strtoll_end. cbn [app skip_space]. change (isspace 45) with false. cbv iota.
      rewrite skip_digits_all by done. rewrite Hc. cbn [app chr0]. rewrite Hc in Hd.
      by apply Forall_cons in Hd as [-> _].
    + eexists _, _. split; [reflexivity|done].
  - pose proof (digits_all v ltac:(lia)) as Hd. destruct (digits_head v ltac:(lia)) as (c & t & Hc & Hb).
    destruct (digit_first c (t ++ r) Hb) as [He1 He2]. split_and!.
    + rewrite <- (digits_value v) at 2 by (pow2; lia). rewrite Hc in *. cbn [app] in *. rewrite He1.
      destruct (dec_value_stops (c :: t) r 0 Hr) as [He|?]; [|done]. cbn [app] in He. rewrite He, <- Hc, digits_value by (pow2; lia).
      unfold saturate. pow2. lia.
    + pose proof (skip_digits_all _ r Hd Hr) as Hsk. rewrite Hc in *. cbn [app] in *. by rewrite He2.
    + rewrite Hc. eexists _, _. split; [reflexivity|]. rewrite Hc in Hd. apply Forall_cons in Hd as [-> _]. done.
Qed.

Lemma member_set_key n id k : member (set_key n (Some (id, k))) = (k, erase n).
Proof. by destruct n. Qed.

Lemma key_set_key n k : key_of (set_key n k) = k.
Proof. by destruct n. Qed.

Lemma skip_ws_stay c t : ws c = false -> skip_ws (c :: t) = c :: t.
Proof. intros H. cbn [skip_ws]. by rewrite H. Qed.

Section reads.
Context (al : nat -> bool) (Hal : forall k, al k = true).

(** The members of an object have keys. *)
Definition keyed (n : jnode) : Prop :=
  match n with NObj _ _ ms => Forall (fun m => is_Some (key_of m)) ms | _ => True end.

Definition reads (j : json) (n : nat) : Prop := forall f st d r,
  d + 2 * Z.of_nat n <= LPP_JSON_MAX_DEPTH -> rest st = render j ++ r -> stops r ->
  (2 * length (render j ++ r) + 2 <= f)%nat ->
  exists node st', parse_json_value al f st d = Ok (Some node, st') /\ rest st' = r /\ erase node = j /\ keyed node.

Lemma alloc_granted st : alloc al st = (Some (next_id st), mk_pst (rest st) (S (next_id st)) (evs st ++ [Born (next_id st)])).
Proof. unfold alloc. by rewrite Hal. Qed.

Lemma render_more_stops ms r : stops (render_more ms ++ 125 :: r).
Proof. destruct ms as [|[k v] ms]; done. Qed.

Lemma skip_stay st c t : rest st = c :: t -> ws c = false -> skip_json_ws st = st.
Proof. intros Hr Hw. unfold skip_json_ws. rewrite Hr, skip_ws_stay by done. destruct st. cbn in *. by subst. Qed.

Lemma members_read n ms : forall k v f st d r,
  Forall (fun kv => plain kv.1 /\ reads kv.2 n) ((k, v) :: ms) -> d + 1 + 2 * Z.of_nat n <= LPP_JSON_MAX_DEPTH ->
  rest st = 34 :: k ++ 34 :: 58 :: render v ++ render_more ms ++ 125 :: r -> (2 * length (rest st) + 2 <= f)%nat ->
  exists nodes st', parse_members al f st d = Ok (nodes, st') /\ rest st' = 125 :: r /\
    map member nodes = (k, v) :: ms /\ Forall (fun m => is_Some (key_of m)) nodes.
Proof.
  induction ms as [|[k' v'] ms IH]; intros k v f st d r Hall Hd Hr Hf; apply Forall_cons in Hall as [[Hk Hv] Hall];
    (destruct f as [|f]; [lia|]); cbn [fst snd] in Hk, Hv;
    destruct (string_reads al st k (58 :: render v ++ render_more _ ++ 125 :: r) Hal Hk Hr) as (id & st1 & Hs & Hr1);
    cbn [parse_members]; rewrite Hr; cbn [chr0]; change ((34 =? 0) || (34 =? 125)) with false; cbn iota;
    rewrite (skip_stay st _ _ Hr) by done; rewrite Hr; cbn [chr0]; change (34 =? 125) with false; cbn iota; rewrite Hs;
    rewrite (skip_stay st1 _ _ Hr1) by done; rewrite Hr1; cbn [chr0 tail]; change (58 =? 58) with true; cbn [negb];
    rewrite Hr in Hf; cbn [length] in Hf; rewrite length_app in Hf; cbn [length] in Hf.
  - destruct (Hv f (set_rest st1 (render v ++ 125 :: r)) (d + 1) (125 :: r)) as (node & st2 & He & Hr2 & Hj & _);
      [done|done|done|cbn in Hf; lia|].
    cbn [render_more mbind list_bind app] in *. rewrite He. cbn [obind].
    rewrite (skip_stay st2 _ _ Hr2) by done. rewrite Hr2. cbn [chr0]. change (125 =? 44) with false. change (125 =? 125) with true.
    cbn [negb]. cbn iota. destruct f as [|f]; [lia|]. cbn [parse_members]. rewrite Hr2. cbn [chr0]. change ((125 =? 0) || (125 =? 125)) with true.
    cbn [obind app]. eexists _, _. split; [reflexivity|]. split; [done|]. cbn [map]. rewrite member_set_key, Hj.
    split; [done|]. apply Forall_singleton. by rewrite key_set_key.
  - set (more := render_more ((k', v') :: ms)) in *.
    destruct (Hv f (set_rest st1 (render v ++ more ++ 125 :: r)) (d + 1) (more ++ 125 :: r)) as (node & st2 & He & Hr2 & Hj & _);
      [done|done|apply render_more_stops|lia|].
    rewrite He. cbn [obind]. assert (more ++ 125 :: r = 44 :: 34 :: k' ++ 34 :: 58 :: render v' ++ render_more ms ++ 125 :: r) as Hm.
    { unfold more, render_more. rewrite bind_cons. cbn [fst snd app]. rewrite <- !(assoc_L (++)). cbn [app]. by rewrite <- ?(assoc_L (++)). }
    rewrite Hm in Hr2. rewrite (skip_stay st2 _ _ Hr2) by done. rewrite Hr2. cbn [chr0 tail]. change (44 =? 44) with true. cbn iota.
    rewrite length_app, Hm in Hf. cbn [length] in Hf.
    destruct (IH k' v' f (set_rest st2 (34 :: k' ++ 34 :: 58 :: render v' ++ render_more ms ++ 125 :: r)) d r) as (nodes & st3 & He3 & Hr3 & Hj3 & Hk3);
      [done|done|done|cbn [rest set_rest length]; lia|].
    rewrite He3. cbn [obind app]. eexists _, _. split; [reflexivity|]. split; [done|]. cbn [map]. rewrite member_set_key, Hj, Hj3.
    split; [done|]. apply Forall_cons. by rewrite key_set_key.
Qed.

Lemma object_reads n ms : Forall (fun kv => plain kv.1 /\ reads kv.2 n) ms -> reads (JObj ms) (S n).
Proof.
  intros Hall f st d r Hd Hr Hs Hf. destruct f as [|[|f]]; [lia|lia|]. rewrite render_obj in Hr, Hf.
  set (body := match ms with [] => [] | (k, v) :: ms => 34 :: k ++ [34; 58] ++ render v ++ render_more ms end) in *.
  cbn [app] in Hr, Hf. rewrite <- (assoc_L (++)) in Hr, Hf. cbn [app length] in Hr, Hf.
  cbn [parse_json_value]. rewrite Z.gtb_ltb, (proj2 (Z.ltb_ge _ d)) by (unfold LPP_JSON_MAX_DEPTH in *; lia).
  rewrite (skip_stay st _ _ Hr) by done. rewrite Hr. cbn [chr0]. change (123 =? 123) with true. cbn iota.
  cbn [parse_json_object]. rewrite (skip_stay st _ _ Hr) by done. rewrite Hr. cbn [chr0]. change (123 =? 123) with true.
  cbn [negb tail].
  assert (exists nodes st', parse_members al f (set_rest st (body ++ 125 :: r)) (d + 1) = Ok (nodes, st') /\
    rest st' = 125 :: r /\ map member nodes = ms /\ Forall (fun m => is_Some (key_of m)) nodes) as (nodes & st' & -> & Hr' & Hm & Hk).
  { destruct ms as [|[k v] ms].
    - destruct f as [|f]; [cbn in Hf; lia|]. cbn [parse_members rest set_rest body app chr0].
      change ((125 =? 0) || (125 =? 125)) with true. cbn iota. eexists _, _. split; [reflexivity|]. done.
    - apply (members_read n ms k v); [done|lia| |].
      + unfold body. cbn [rest set_rest app]. rewrite <- !(assoc_L (++)). cbn [app]. by rewrite <- ?(assoc_L (++)).
      + cbn [rest set_rest]. lia. }
  cbn [obind]. rewrite Hr'. cbn [chr0 tail]. change (125 =? 125) with true. cbn iota. rewrite alloc_granted.
  eexists _, _. split; [reflexivity|]. split; [done|]. by rewrite erase_obj, Hm.
Qed.

Lemma value_reads n : forall j, well n j -> reads j n.
Proof.
  assert (forall n v, well n (JInt v) -> reads (JInt v) n) as Hint.
  { intros m v Hv f st d r Hd Hr Hs Hf. assert (INT64_MIN <= v <= INT64_MAX) as Hv' by (by destruct m).
    destruct f as [|f]; [lia|]. cbn [render] in *. destruct (int_reads v r Hv' Hs) as (Hval & Hend & c & t & Hct & Hc). cbn [parse_json_value].
    rewrite Z.gtb_ltb, (proj2 (Z.ltb_ge _ d)) by lia. rewrite Hct in Hr.
    assert (c <> 123 /\ c <> 34 /\ ws c = false) as (H1 & H2 & H3).
    { unfold ws. apply orb_true_iff in Hc as [Hc|Hc%Z.eqb_eq]; [|subst; done]. unfold is_digit in Hc. bool_to_prop.
      rewrite !(proj2 (Z.eqb_neq c _)) by lia. split_and!; lia || done. }
    rewrite (skip_stay st _ _ Hr) by done. rewrite Hr. cbn [chr0].
    rewrite (proj2 (Z.eqb_neq c 123)), (proj2 (Z.eqb_neq c 34)), Hc by done. rewrite alloc_granted.
    eexists _, _. split; [reflexivity|]. rewrite <- Hct. cbn [rest set_rest erase]. by rewrite Hval, Hend. }
  assert (forall n s, well n (JStr s) -> reads (JStr s) n) as Hstr.
  { intros m s Hp f st d r Hd Hr Hs Hf. assert (plain s) as Hp' by (by destruct m).
    destruct f as [|f]; [lia|]. cbn [render app] in Hr.
    rewrite <- (assoc_L (++)) in Hr. cbn [app] in Hr. cbn [parse_json_value].
    rewrite Z.gtb_ltb, (proj2 (Z.ltb_ge _ d)) by lia. rewrite (skip_stay st _ _ Hr) by done. rewrite Hr. cbn [chr0].
    change (34 =? 123) with false. change (34 =? 34) with true. cbn iota.
    destruct (string_reads al st s r Hal Hp' Hr) as (id & st1 & -> & Hr1). rewrite alloc_granted.
    eexists _, _. split; [reflexivity|]. done. }
  induction n as [|n IH]; intros [v|s|ms] Hw; [by apply Hint|by apply Hstr|done|by apply Hint|by apply Hstr|].
  apply well_obj in Hw. apply object_reads. eapply Forall_weaken; [exact Hw|]. intros kv [Hk Hv]. split; [done|by apply IH].
Qed.
End reads.

(** What the accessors should return: the first member with the key. *)
Fixpoint assoc_first (ms : list (cstr * json)) (k : cstr) : option json :=
  match ms with [] => None | (k', v) :: ms => if bool_decide (k' = k) then Some v else assoc_first ms k end.

Lemma strcmp_eq a : forall b, Forall (fun c => 1 <= c < 256) a -> Forall (fun c => 1 <= c < 256) b ->
  (strcmp a b =? 0) = bool_decide (a = b).
Proof.
  induction a as [|x a IH]; intros [|y b] Ha Hb; cbn [strcmp]; try done.
  - apply Forall_cons in Hb as [Hy _]. rewrite (proj2 (Z.eqb_neq _ 0)) by lia. done.
  - apply Forall_cons in Ha as [Hx _]. rewrite (proj2 (Z.eqb_neq _ 0)) by lia. done.
  - apply Forall_cons in Ha as [Hx Ha]. apply Forall_cons in Hb as [Hy Hb]. destruct (Z.eqb_spec x y) as [->|Hne].
    + rewrite IH by done. apply bool_decide_ext. split; [by intros ->|by intros [= ->]].
    + rewrite (proj2 (Z.eqb_neq _ 0)) by lia. symmetry. apply bool_decide_eq_false. congruence.
Qed.

(** Members as the parser makes them: each has a key. *)
Lemma find_member_erase ms k : Forall (fun kv => Forall (fun c => 1 <= c < 256) kv.1) (map member ms) ->
  Forall (fun c => 1 <= c < 256) k -> Forall (fun m => is_Some (key_of m)) ms ->
  exists r, find_member ms (Some k) = Ok r /\ erase <$> r = assoc_first (map member ms) k.
Proof.
  intros Hms Hk Hkeys. induction ms as [|m ms IH]; [by exists None|].
  apply Forall_cons in Hms as [Hm Hms]. apply Forall_cons in Hkeys as [[[id k'] Hkm] Hkeys].
  cbn [find_member map assoc_first]. unfold member at 1. unfold member in Hm. rewrite Hkm in *. cbn [fst] in Hm.
  rewrite strcmp_eq by done. case_bool_decide; [by exists (Some m)|by apply IH].
Qed.

(** C36. Printing a document and parsing it gives it back, and the accessors read it.  For every
    document of integers, quote-free strings and objects nested at most 128 deep, the parser
    run on its compact rendering returns a tree of exactly that document; on an object,
    [lpp_json_get_int] and [lpp_json_get_str] return what the first member with the key holds,
    0 or the empty string when there is none or it has another type, and
    [lpp_json_get_obj] the sub-object. *)
Theorem json_roundtrip j :
  well 128 j ->
  exists node st, lpp_json_parse (fun _ => true) (Some (render j)) = Ok (Some node, st) /\ rest st = [] /\ erase node = j /\
  (forall ms k, j = JObj ms -> Forall (fun c => 1 <= c < 256) k ->
     lpp_json_get_int (Some node) (Some k) = Ok (match assoc_first ms k with Some (JInt v) => v | _ => 0 end) /\
     lpp_json_get_str (Some node) (Some k) = Ok (match assoc_first ms k with Some (JStr s) => s | _ => [] end) /\
     exists sub, lpp_json_get_obj (Some node) (Some k) = Ok sub /\
       erase <$> sub = match assoc_first ms k with Some (JObj o) => Some (JObj o) | _ => None end).
Proof.
  intros Hw. unfold lpp_json_parse.
  destruct (value_reads (fun _ => true) (fun _ => eq_refl) 128 j Hw (json_fuel (render j)) (mk_pst (render j) 0 []) 0 [])
    as (node & st & He & Hr & Hj & Hkeyed).
  { done. } { by rewrite app_nil_r. } { done. } { rewrite app_nil_r. done. }
  exists node, st. split_and!; [done..|]. intros ms k Hms Hk. rewrite Hms in Hj, Hw. apply (well_obj 127) in Hw.
  destruct node as [id key v|id key s|id key nodes]; [done|done|]. rewrite erase_obj in Hj. injection Hj as Hj.
  destruct (find_member_erase nodes k) as (m & Hf & Hm); [|done|done|].
  { rewrite Hj. eapply Forall_weaken; [exact Hw|]. intros kv [Hp _]. eapply Forall_weaken; [exact Hp|]. by intros c [? _]. }
  rewrite Hj in Hm. unfold lpp_json_get_int, lpp_json_get_str, lpp_json_get_obj. rewrite Hf. cbn [obind].
  rewrite <- Hm. split_and!.
  - by destruct m as [[]|].
  - by destruct m as [[? ? ?|? ? [[]|]|? ? ?]|].
  - eexists. split; [reflexivity|]. by destruct m as [[]|].
Qed.

Lemma json_roundtrip_witness :
  let doc := JObj [([97], JInt (-5)); ([98], JObj [([99], JStr [120; 121])])] in
  exists node st, lpp_json_parse (fun _ => true) (Some (render doc)) = Ok (Some node, st) /\ erase node = doc /\
    lpp_json_get_int (Some node) (Some [97]) = Ok (-5).
Proof.
  intros doc. destruct (json_roundtrip doc) as (node & st & H1 & _ & H2 & H3).
  - change (well 128 doc) with (well 128 (JObj [([97], JInt (-5)); ([98], JObj [([99], JStr [120; 121])])])).
    apply (well_obj 127). repeat constructor; cbn; try lia; try discriminate.
  - exists node, st. split; [exact H1|]. split; [exact H2|].
    destruct (H3 _ [97] eq_refl) as [H4 _]; [repeat constructor; lia|]. exact H4.
Defined.
