(* ===== verification/RngClock.v ===== *)
(** * The seeded generator and the clock (runtime/lpp_clock_rng.c)

    An [int64_t] handle is the struct it points to, [None] for 0. *)

From Stdlib Require Import Znumtheory QArith_base.
From S2P Require Import Prelude.
#[local] Open Scope Z_scope.

(** ** SplitMix64 *)

Record LppRng := mk_rng { rng_state : Z }.

Definition GAMMA : Z := 0x9e3779b97f4a7c15.
Definition M1 : Z := 0xbf58476d1ce4e5b9.
Definition M2 : Z := 0x94d049bb133111eb.

(** Returns the output and the new [*s]. *)
Definition lpp_splitmix64 (s : Z) : Z * Z :=
  let s := u64 (s + GAMMA) in
  let z := s in
  let z := u64 (Z.lxor z (Z.shiftr z 30) * M1) in
  let z := u64 (Z.lxor z (Z.shiftr z 27) * M2) in
  (Z.lxor z (Z.shiftr z 31), s).

(** [granted]: whether [malloc] serves the call. *)
Definition lpp_rng_new (granted : bool) (seed : Z) : outcome LppRng :=
  if negb granted then Panic "out of memory in rng_new"
  else Ok (mk_rng (if seed =? 0 then 0x853c49e6748fea9b else u64 seed)).

Definition lpp_rng_next (rng : option LppRng) : Z * option LppRng :=
  match rng with
  | None => (0, None)
  | Some r => let '(z, s) := lpp_splitmix64 (rng_state r) in (i64 z, Some (mk_rng s))
  end.

Definition lpp_rng_range (rng : option LppRng) (min_v max_v : Z) : outcome (Z * option LppRng) :=
  if min_v >=? max_v then Ok (min_v, rng)
  else
    let! d := chk64 (max_v - min_v) in
    let! d := chk64 (d + 1) in
    let diff := u64 d in
    let '(v, rng) := lpp_rng_next rng in
    let! r := chk64 (min_v + i64 (u64 v mod diff)) in
    Ok (r, rng).

(** [(double)(val >> 11) * 2^-53]: both factors and the product are exact in binary64. *)
Definition lpp_rng_float (rng : option LppRng) : Q * option LppRng :=
  let '(v, rng) := lpp_rng_next rng in
  (Qmake (Z.shiftr (u64 v) 11) 9007199254740992, rng).

(** [n] draws, oldest first. *)
Fixpoint draws (n : nat) (rng : option LppRng) : list Z :=
  match n with
  | O => []
  | S n => let '(v, rng) := lpp_rng_next rng in v :: draws n rng
  end.

(** ** The clock *)

Record LppClock := mk_clock { is_virtual : bool; current_time : Z }.

Definition lpp_clock_new (granted : bool) (initial_time : Z) : outcome LppClock :=
  if negb granted then Panic "out of memory in clock_new"
  else if negb (initial_time =? 0) then Ok (mk_clock true initial_time) else Ok (mk_clock false 0).

(** [sec] and [nsec] are what [clock_gettime(CLOCK_REALTIME)] stores. *)
Definition lpp_clock_now (sec nsec : Z) (clk : option LppClock) : outcome Z :=
  match clk with
  | None => Ok 0
  | Some c =>
      if is_virtual c then Ok (current_time c)
      else let! ms := chk64 (sec * 1000) in chk64 (ms + Z.quot nsec 1000000)
  end.

Definition lpp_clock_advance (clk : option LppClock) (delta : Z) : outcome (option LppClock) :=
  match clk with
  | None => Ok None
  | Some c =>
      if is_virtual c then let! t := chk64 (current_time c + delta) in Ok (Some (mk_clock true t))
      else Ok (Some c)
  end.

Fixpoint advances_by (clk : option LppClock) (deltas : list Z) : outcome (option LppClock) :=
  match deltas with
  | [] => Ok clk
  | d :: ds => let! clk := lpp_clock_advance clk d in advances_by clk ds
  end.

(** ** The output function is a bijection *)

(** Undoing [x ^ (x >> k)] on 64 bits. *)
Definition unxorshift (k y : Z) : Z := Z.lxor y (Z.lxor (Z.shiftr y k) (Z.shiftr y (2 * k))).

Lemma unxorshift_spec k x : 0 <= x < 2 ^ 64 -> 0 < k -> 64 <= 3 * k ->
  unxorshift k (Z.lxor x (Z.shiftr x k)) = x.
Proof.
  intros Hx Hk H3. unfold unxorshift. apply Z.bits_inj'. intros i Hi.
  rewrite !Z.lxor_spec, !Z.shiftr_spec, !Z.lxor_spec, !Z.shiftr_spec by lia.
  replace (i + k + k) with (i + 2 * k) by lia. replace (i + 2 * k + k) with (i + 3 * k) by lia.
  rewrite (testbit_high 64 x (i + 3 * k)) by lia.
  destruct (Z.testbit x i), (Z.testbit x (i + k)), (Z.testbit x (i + 2 * k)); done.
Qed.

Lemma unshift_range k x : 0 <= x < 2 ^ 64 -> 0 <= k -> 0 <= Z.lxor x (Z.shiftr x k) < 2 ^ 64.
Proof.
  intros Hx Hk. apply lxor_bound; [done| |lia]. rewrite Z.shiftr_div_pow2 by done.
  assert (0 < 2 ^ k) by (apply Z.pow_pos_nonneg; lia).
  split; [apply Z.div_pos; lia|]. apply Z.div_lt_upper_bound; nia.
Qed.

Lemma mul_odd_inj m inv x y : (m * inv) mod 2 ^ 64 = 1 -> 0 <= x < 2 ^ 64 -> 0 <= y < 2 ^ 64 ->
  u64 (x * m) = u64 (y * m) -> x = y.
Proof.
  intros Hi Hx Hy H.
  assert (forall z, 0 <= z < 2 ^ 64 -> u64 (u64 (z * m) * inv) = z) as Hz.
  { intros z Hz. unfold u64, uwrap. rewrite Zmult_mod_idemp_l, <- Z.mul_assoc, <- Zmult_mod_idemp_r, Hi, Z.mul_1_r.
    by apply Z.mod_small. }
  rewrite <- (Hz x Hx), <- (Hz y Hy). by rewrite H.
Qed.

Definition mix (s : Z) : Z :=
  let z := u64 (Z.lxor s (Z.shiftr s 30) * M1) in
  let z := u64 (Z.lxor z (Z.shiftr z 27) * M2) in
  Z.lxor z (Z.shiftr z 31).

Lemma splitmix_mix s : lpp_splitmix64 s = (mix (u64 (s + GAMMA)), u64 (s + GAMMA)).
Proof. reflexivity. Qed.

Lemma mix_range s : 0 <= mix s < 2 ^ 64.
Proof. apply unshift_range; [apply u64_range|lia]. Qed.

Lemma xorshift_inj k x y : 0 <= x < 2 ^ 64 -> 0 <= y < 2 ^ 64 -> 0 < k -> 64 <= 3 * k ->
  Z.lxor x (Z.shiftr x k) = Z.lxor y (Z.shiftr y k) -> x = y.
Proof.
  intros Hx Hy Hk H3 H. rewrite <- (unxorshift_spec k x Hx Hk H3), <- (unxorshift_spec k y Hy Hk H3). by rewrite H.
Qed.

Lemma mix_inj x y : 0 <= x < 2 ^ 64 -> 0 <= y < 2 ^ 64 -> mix x = mix y -> x = y.
Proof.
  intros Hx Hy H. unfold mix in H.
  apply xorshift_inj in H; [|apply u64_range..|lia|lia].
  apply (mul_odd_inj M2 0x319642b2d24d8ec3) in H; [|done|apply unshift_range; [apply u64_range|lia]..].
  apply xorshift_inj in H; [|apply u64_range..|lia|lia].
  apply (mul_odd_inj M1 0x96de1b173f119089) in H; [|done|by apply unshift_range..].
  apply xorshift_inj in H; done || lia.
Qed.

Lemma draws_lookup n : forall s i, (i < n)%nat ->
  draws n (Some (mk_rng s)) !! i = Some (i64 (mix (u64 (s + (Z.of_nat i + 1) * GAMMA)))).
Proof.
  induction n as [|n IH]; intros s i Hi; [lia|]. cbn [draws lpp_rng_next rng_state]. rewrite splitmix_mix.
  destruct i as [|i]; cbn [lookup list_lookup].
  - do 3 f_equal.
  - rewrite IH by lia. do 3 f_equal. unfold u64, uwrap. rewrite Zplus_mod_idemp_l. f_equal. lia.
Qed.

Lemma draws_length n : forall r, length (draws n (Some r)) = n.
Proof.
  induction n as [|n IH]; intros [s]; [done|]. cbn [draws lpp_rng_next rng_state]. rewrite splitmix_mix.
  cbn [length]. by rewrite IH.
Qed.

(** The states of 2^64 consecutive draws are different. *)
Lemma gamma_steps s i j : 0 <= i < 2 ^ 64 -> 0 <= j < 2 ^ 64 -> u64 (s + i * GAMMA) = u64 (s + j * GAMMA) -> i = j.
Proof.
  intros Hi Hj H. apply (mul_odd_inj GAMMA 0xf1de83e19937733d); [done..|].
  unfold u64, uwrap in *. rewrite (Zplus_mod s), (Zplus_mod s (j * GAMMA)) in H.
  pose proof (Z.mod_pos_bound (i * GAMMA) (2 ^ 64) ltac:(done)) as Ha.
  pose proof (Z.mod_pos_bound (j * GAMMA) (2 ^ 64) ltac:(done)) as Hb.
  pose proof (Z.mod_pos_bound s (2 ^ 64) ltac:(done)) as Hs.
  set (a := (i * GAMMA) mod 2 ^ 64) in *. set (b := (j * GAMMA) mod 2 ^ 64) in *. set (c := s mod 2 ^ 64) in *.
  clearbody a b c. pow2. clear Hi Hj. dlia.
Qed.

Lemma i64_inj a b : 0 <= a < 2 ^ 64 -> 0 <= b < 2 ^ 64 -> i64 a = i64 b -> a = b.
Proof. intros Ha Hb H. by rewrite <- (u64_id a Ha), <- (u64_id b Hb), <- u64_i64, H, u64_i64. Qed.

(** The generator has full period: SplitMix64's output function is a bijection of the 64-bit
    state and the state walks through all of them, so up to 2^64 consecutive draws from one
    generator, whatever the seed, are pairwise different 64-bit numbers. *)
Theorem rng_full_period seed n :
  Z.of_nat n <= 2 ^ 64 ->
  exists rng, lpp_rng_new true seed = Ok rng /\
    length (draws n (Some rng)) = n /\ NoDup (draws n (Some rng)) /\
    Forall (fun v => INT64_MIN <= v <= INT64_MAX) (draws n (Some rng)).
Proof.
  intros Hn. eexists. split; [reflexivity|]. set (s := if seed =? 0 then _ else _). clearbody s.
  split; [apply draws_length|]. split.
  - apply NoDup_alt. intros i j x Hi Hj.
    pose proof (lookup_lt_Some _ _ _ Hi) as Li. pose proof (lookup_lt_Some _ _ _ Hj) as Lj.
    rewrite draws_length in Li, Lj. rewrite draws_lookup in Hi, Hj by done. injection Hi as <-. injection Hj as Hj.
    apply i64_inj in Hj; [|apply mix_range..]. apply mix_inj in Hj; [|apply u64_range..].
    rewrite !Z.mul_add_distr_r, !(Z.add_comm _ (1 * GAMMA)), !Z.add_assoc in Hj.
    apply gamma_steps in Hj; lia.
  - apply Forall_lookup. intros i x Hi. pose proof (lookup_lt_Some _ _ _ Hi) as Li. rewrite draws_length in Li.
    rewrite draws_lookup in Hi by done. injection Hi as <-. apply i64_range.
Qed.

Lemma rng_full_period_witness :
  exists rng, lpp_rng_new true 42 = Ok rng /\ NoDup (draws 5 (Some rng)).
Proof.
  destruct (rng_full_period 42 5) as (rng & H1 & _ & H2 & _); [vm_compute; discriminate|]. exists rng. split; [exact H1|exact H2].
Defined.

(** The ranged draw is inclusive at both ends and stays inside the range, and the float
    draw is a multiple of 2^-53 in [0, 1).  The span [max_v - min_v + 1] is computed in signed
    arithmetic: exactly when it exceeds [INT64_MAX] the call is undefined. *)
Theorem rng_range_inclusive rng min_v max_v :
  INT64_MIN <= min_v -> min_v < max_v -> max_v <= INT64_MAX ->
  (max_v - min_v < INT64_MAX ->
     exists v rng', lpp_rng_range rng min_v max_v = Ok (v, rng') /\ min_v <= v <= max_v /\ rng' = (lpp_rng_next rng).2) /\
  (max_v - min_v >= INT64_MAX -> lpp_rng_range rng min_v max_v = Undef) /\
  (0 <= Qnum (lpp_rng_float rng).1 < 2 ^ 53 /\ Zpos (Qden (lpp_rng_float rng).1) = 2 ^ 53).
Proof.
  intros Hlo Hlt Hhi. assert ((min_v >=? max_v) = false) as Hge by (rewrite Z.geb_leb; apply Z.leb_gt; lia).
  split; [|split; [|split]].
  - intros Hsp. unfold lpp_rng_range. rewrite Hge.
    rewrite chk64_ok by (pow2; lia). cbn [obind]. rewrite chk64_ok by (pow2; lia). cbn [obind].
    destruct (lpp_rng_next rng) as [v rng'] eqn:En. rewrite (u64_id (max_v - min_v + 1)) by (pow2; lia).
    pose proof (Z.mod_pos_bound (u64 v) (max_v - min_v + 1) ltac:(lia)) as Hm.
    rewrite i64_id by (pow2; lia). rewrite chk64_ok by (pow2; lia). cbn [obind].
    eexists _, _. split; [reflexivity|]. split; [lia|done].
  - intros Hsp. unfold lpp_rng_range. rewrite Hge. unfold chk64 at 1. destruct (is_i64 (max_v - min_v)) eqn:E; [|done].
    cbn [obind]. unfold chk64 at 1. unfold is_i64 in *. apply andb_true_iff in E as [_ E%Z.leb_le].
    rewrite (proj2 (Z.leb_gt (max_v - min_v + 1) INT64_MAX)) by lia. by rewrite andb_false_r.
  - unfold lpp_rng_float. destruct (lpp_rng_next rng) as [v rng']. cbn [fst Qnum].
    rewrite Z.shiftr_div_pow2 by lia. pose proof (u64_range v). pow2. change (2 ^ 11) with 2048. change (2 ^ 53) with 9007199254740992.
    Z.to_euclidean_division_equations. lia.
  - unfold lpp_rng_float. by destruct (lpp_rng_next rng).
Qed.

Lemma rng_range_inclusive_witness :
  exists v rng', lpp_rng_range (Some (mk_rng 7)) 1 6 = Ok (v, rng') /\ 1 <= v <= 6.
Proof.
  destruct (rng_range_inclusive (Some (mk_rng 7)) 1 6) as [H _]; [vm_compute; discriminate|lia|vm_compute; discriminate|].
  destruct H as (v & r & H1 & H2 & _); [vm_compute; reflexivity|]. exists v, r. split; [exact H1|exact H2].
Defined.

(** The readings of a virtual clock that has been advanced by [deltas] never leave [int64_t]. *)
Fixpoint fits (t : Z) (deltas : list Z) : Prop :=
  match deltas with [] => True | d :: ds => INT64_MIN <= t + d <= INT64_MAX /\ fits (t + d) ds end.

(** A clock made with a non-zero time is deterministic: after any advances it reads the
    initial time plus their sum, whatever the system clock says, as long as every partial sum
    is an [int64_t].  A clock made with time 0 ignores advances and reads the system clock in
    milliseconds; an advance or a reading of the NULL handle does nothing. *)
Theorem clock_reads initial deltas sec nsec :
  initial <> 0 -> fits initial deltas -> 0 <= sec -> sec * 1000 + 1000 <= INT64_MAX -> 0 <= nsec < 1000000000 ->
  (exists c c', lpp_clock_new true initial = Ok c /\ advances_by (Some c) deltas = Ok c' /\
     lpp_clock_now sec nsec c' = Ok (initial + foldr Z.add 0 deltas)) /\
  (exists c, lpp_clock_new true 0 = Ok c /\ advances_by (Some c) deltas = Ok (Some c) /\
     lpp_clock_now sec nsec (Some c) = Ok (sec * 1000 + nsec / 1000000)) /\
  advances_by None deltas = Ok None /\ lpp_clock_now sec nsec None = Ok 0.
Proof.
  intros Hi Hf Hs Hs' Hn. split_and!.
  - exists (mk_clock true initial). unfold lpp_clock_new. rewrite (proj2 (Z.eqb_neq initial 0)) by done. cbn [negb].
    exists (Some (mk_clock true (initial + foldr Z.add 0 deltas))). split_and!; [done| |done]. clear Hi.
    revert initial Hf. induction deltas as [|d ds IH]; intros t Hf; cbn [advances_by foldr].
    + by rewrite Z.add_0_r.
    + destruct Hf as [Hd Hf]. cbn [lpp_clock_advance is_virtual current_time]. unfold chk64, is_i64.
      rewrite !(proj2 (Z.leb_le _ _)) by lia. cbn [andb obind]. rewrite (IH _ Hf). do 3 f_equal. lia.
  - exists (mk_clock false 0). split_and!; [done| |].
    + clear Hf. induction deltas as [|d ds IH]; [done|]. cbn [advances_by lpp_clock_advance is_virtual obind]. done.
    + unfold lpp_clock_now. cbn [is_virtual]. unfold chk64, is_i64.
      rewrite !(proj2 (Z.leb_le _ _)) by (pow2; lia). cbn [andb obind]. rewrite Z.quot_div_nonneg by lia.
      assert (0 <= nsec / 1000000 < 1000) by dlia. by rewrite !(proj2 (Z.leb_le _ _)) by (pow2; lia).
  - clear Hf. induction deltas as [|d ds IH]; [done|]. cbn [advances_by lpp_clock_advance obind]. done.
  - done.
Qed.

Lemma clock_reads_witness :
  exists c c', lpp_clock_new true 100 = Ok c /\ advances_by (Some c) [5; -3] = Ok c' /\ lpp_clock_now 0 0 c' = Ok 102.
Proof.
  destruct (clock_reads 100 [5; -3] 0 0) as [H _]; [discriminate| |lia|vm_compute; discriminate|lia|exact H].
  cbn [fits]. repeat split; vm_compute; discriminate.
Defined.
