(* ===== verification/Atomic.v ===== *)
(** * Atomic cells (runtime/lpp_atomic.c)

    Memory maps the address of a live [int64_t] cell to its value; an access to any other
    address is undefined.  Each operation is one step (sequential consistency).  The file has a
    body per platform: the names of the GCC/Clang body are the source's, those of the Windows
    body end in [_msvc].  A 32-bit operation acts on the low half of the cell its address names
    (little-endian). *)

From stdpp Require Import gmap relations.
From S2P Require Import Prelude.

Abbreviation mem := (gmap Z Z).

Definition cell (m : mem) (p : Z) : outcome Z := match m !! p with Some v => Ok v | None => Undef end.

(** Read the old value, store what [f] makes of it. *)
Definition fetch (m : mem) (p : Z) (f : Z -> Z) : outcome (Z * mem) :=
  let! v := cell m p in Ok (v, <[p := f v]> m).

(** The low 32 bits of a cell, signed, and the cell with them replaced. *)
Definition lo32 (v : Z) : Z := i32 v.
Definition set_lo32 (v x : Z) : Z := i64 (u64 v - u64 v mod 2 ^ 32 + u32 x).

(** [addr]: where [malloc] puts the cell ([None]: it fails). *)
Definition lpp_atomic_alloc (m : mem) (addr : option Z) (init_val : Z) : outcome (Z * mem) :=
  match addr with
  | None => Panic "out of memory in atomic_alloc"
  | Some p => Ok (p, <[p := init_val]> m)
  end.
Definition lpp_atomic_new (m : mem) (addr : option Z) (init_val : Z) : outcome (Z * mem) :=
  lpp_atomic_alloc m addr init_val.
Definition lpp_atomic_free (m : mem) (p : Z) : outcome mem :=
  if p =? 0 then Ok m else let! _v := cell m p in Ok (delete p m).

(** ** The GCC/Clang body *)

Definition lpp_atomic_load (m : mem) (p : Z) : outcome Z := cell m p.
Definition lpp_atomic_load_acq (m : mem) (p : Z) : outcome Z := cell m p.
Definition lpp_atomic_load_relaxed (m : mem) (p : Z) : outcome Z := cell m p.
Definition lpp_atomic_store (m : mem) (p val : Z) : outcome mem := let! _v := cell m p in Ok (<[p := val]> m).
Definition lpp_atomic_store_rel (m : mem) (p val : Z) : outcome mem := let! _v := cell m p in Ok (<[p := val]> m).
Definition lpp_atomic_store_relaxed (m : mem) (p val : Z) : outcome mem := let! _v := cell m p in Ok (<[p := val]> m).
(** The [__atomic_fetch_*] builtins wrap around. *)
Definition lpp_atomic_add (m : mem) (p val : Z) : outcome (Z * mem) := fetch m p (fun v => i64 (v + val)).
Definition lpp_atomic_sub (m : mem) (p val : Z) : outcome (Z * mem) := fetch m p (fun v => i64 (v - val)).
Definition lpp_atomic_and (m : mem) (p val : Z) : outcome (Z * mem) := fetch m p (fun v => Z.land v val).
Definition lpp_atomic_or (m : mem) (p val : Z) : outcome (Z * mem) := fetch m p (fun v => Z.lor v val).
Definition lpp_atomic_xor (m : mem) (p val : Z) : outcome (Z * mem) := fetch m p (fun v => Z.lxor v val).
Definition lpp_atomic_swap (m : mem) (p val : Z) : outcome (Z * mem) := fetch m p (fun _ => val).

(** [__atomic_compare_exchange_n]: [exp] is overwritten with the value found when the exchange
    fails; a weak exchange may also fail [spurious]ly. *)
Definition compare_exchange (spurious : bool) (m : mem) (p exp desired : Z) : outcome (Z * mem) :=
  let! v := cell m p in
  if (v =? exp) && negb spurious then Ok (exp, <[p := desired]> m) else Ok (v, m).

Definition lpp_atomic_cas (m : mem) (p expected desired : Z) : outcome (Z * mem) :=
  compare_exchange false m p expected desired.
Definition lpp_atomic_cas_weak (spurious : bool) (m : mem) (p expected desired : Z) : outcome (Z * mem) :=
  compare_exchange spurious m p expected desired.

Definition lpp_atomic_load32 (m : mem) (p : Z) : outcome Z := let! v := cell m p in Ok (lo32 v).
Definition lpp_atomic_store32 (m : mem) (p val : Z) : outcome mem :=
  let! v := cell m p in Ok (<[p := set_lo32 v (i32 val)]> m).
Definition lpp_atomic_add32 (m : mem) (p val : Z) : outcome (Z * mem) :=
  let! v := cell m p in Ok (lo32 v, <[p := set_lo32 v (i32 (lo32 v + i32 val))]> m).
Definition lpp_atomic_cas32 (m : mem) (p expected desired : Z) : outcome (Z * mem) :=
  let exp := i32 expected in
  let! v := cell m p in
  if lo32 v =? exp then Ok (exp, <[p := set_lo32 v (i32 desired)]> m) else Ok (lo32 v, m).

(** ** The Windows body *)

(** [_InterlockedOr64(p, 0)]: a read-modify-write. *)
Definition lpp_atomic_load_msvc (m : mem) (p : Z) : outcome (Z * mem) := fetch m p (fun v => Z.lor v 0).
Definition lpp_atomic_load_acq_msvc (m : mem) (p : Z) : outcome (Z * mem) := fetch m p (fun v => Z.lor v 0).
Definition lpp_atomic_load_relaxed_msvc (m : mem) (p : Z) : outcome Z := cell m p.
Definition lpp_atomic_store_msvc (m : mem) (p val : Z) : outcome mem :=
  let! r := fetch m p (fun _ => val) in Ok r.2.
Definition lpp_atomic_store_rel_msvc (m : mem) (p val : Z) : outcome mem :=
  let! r := fetch m p (fun _ => val) in Ok r.2.
Definition lpp_atomic_store_relaxed_msvc (m : mem) (p val : Z) : outcome mem :=
  let! _v := cell m p in Ok (<[p := val]> m).
Definition lpp_atomic_add_msvc (m : mem) (p val : Z) : outcome (Z * mem) := fetch m p (fun v => i64 (v + val)).
(** The negation [-(LONG64)val] is ordinary signed arithmetic. *)
Definition lpp_atomic_sub_msvc (m : mem) (p val : Z) : outcome (Z * mem) :=
  let! neg := chk64 (- val) in fetch m p (fun v => i64 (v + neg)).
Definition lpp_atomic_and_msvc (m : mem) (p val : Z) : outcome (Z * mem) := fetch m p (fun v => Z.land v val).
Definition lpp_atomic_or_msvc (m : mem) (p val : Z) : outcome (Z * mem) := fetch m p (fun v => Z.lor v val).
Definition lpp_atomic_xor_msvc (m : mem) (p val : Z) : outcome (Z * mem) := fetch m p (fun v => Z.lxor v val).
Definition lpp_atomic_swap_msvc (m : mem) (p val : Z) : outcome (Z * mem) := fetch m p (fun _ => val).
(** [_InterlockedCompareExchange64] returns the value found. *)
Definition lpp_atomic_cas_msvc (m : mem) (p expected desired : Z) : outcome (Z * mem) :=
  fetch m p (fun v => if v =? expected then desired else v).
Definition lpp_atomic_cas_weak_msvc (m : mem) (p expected desired : Z) : outcome (Z * mem) :=
  fetch m p (fun v => if v =? expected then desired else v).
Definition lpp_atomic_load32_msvc (m : mem) (p : Z) : outcome (Z * mem) :=
  let! v := cell m p in Ok (lo32 v, <[p := set_lo32 v (Z.lor (lo32 v) 0)]> m).
Definition lpp_atomic_store32_msvc (m : mem) (p val : Z) : outcome mem :=
  let! v := cell m p in Ok (<[p := set_lo32 v (i32 val)]> m).
Definition lpp_atomic_add32_msvc (m : mem) (p val : Z) : outcome (Z * mem) :=
  let! v := cell m p in Ok (lo32 v, <[p := set_lo32 v (i32 (lo32 v + i32 val))]> m).
Definition lpp_atomic_cas32_msvc (m : mem) (p expected desired : Z) : outcome (Z * mem) :=
  let! v := cell m p in
  Ok (lo32 v, <[p := set_lo32 v (if lo32 v =? i32 expected then i32 desired else lo32 v)]> m).

(** ** The two bodies agree *)

Definition mem_ok (m : mem) : Prop := map_Forall (fun _ v => INT64_MIN <= v <= INT64_MAX) m.

Lemma low_half y : (y mod 2 ^ 64) mod 2 ^ 32 = y mod 2 ^ 32.
Proof. apply Z.mod_mod_divide. by exists (2 ^ 32). Qed.

Lemma set_lo32_id v : INT64_MIN <= v <= INT64_MAX -> set_lo32 v (lo32 v) = v.
Proof.
  intros Hv. unfold set_lo32, lo32. replace (u32 (i32 v)) with (u64 v mod 2 ^ 32).
  - rewrite Z.sub_add, i64_u64. by apply i64_id.
  - unfold u32, i32. rewrite uwrap_swrap by lia. apply low_half.
Qed.

Lemma set_lo32_low v x : lo32 (set_lo32 v x) = i32 x.
Proof.
  unfold set_lo32, lo32, i32. rewrite <- (swrap_uwrap 32 (i64 _)), <- (swrap_uwrap 32 x) by lia. f_equal.
  unfold uwrap. rewrite <- low_half. change (i64 ?y mod 2 ^ 64) with (u64 (i64 y)). rewrite u64_i64.
  unfold u64, uwrap. rewrite low_half. unfold u32, uwrap.
  replace (v mod 2 ^ 64 - (v mod 2 ^ 64) mod 2 ^ 32 + x mod 2 ^ 32)
    with (x mod 2 ^ 32 + v mod 2 ^ 64 / 2 ^ 32 * 2 ^ 32)
    by (pose proof (Z.div_mod (v mod 2 ^ 64) (2 ^ 32) ltac:(done)); lia).
  by rewrite Z.mod_add, Zmod_mod.
Qed.

Lemma fetch_id m p f v : m !! p = Some v -> f v = v -> fetch m p f = Ok (v, m).
Proof. intros Hp Hf. unfold fetch, cell. rewrite Hp. cbn [obind]. by rewrite Hf, insert_id. Qed.

(** The two platforms' bodies agree on every live cell: the Windows loads, done as a
    read-modify-write of the same value, change nothing; stores, fetch-and-modify, exchange and
    compare-exchange return and store the same, in both widths, with one exception: subtracting
    [INT64_MIN] negates it first on Windows, which overflows, where the other body wraps. *)
Theorem atomic_bodies_agree m p v a b :
  mem_ok m -> m !! p = Some v -> INT64_MIN <= a <= INT64_MAX ->
  lpp_atomic_load_msvc m p = Ok (v, m) /\ lpp_atomic_load_acq_msvc m p = Ok (v, m) /\ lpp_atomic_load m p = Ok v /\
  lpp_atomic_load32_msvc m p = Ok (lo32 v, m) /\ lpp_atomic_load32 m p = Ok (lo32 v) /\
  lpp_atomic_store_msvc m p a = lpp_atomic_store m p a /\ lpp_atomic_store_rel_msvc m p a = lpp_atomic_store_rel m p a /\
  lpp_atomic_sub_msvc m p a = (if a =? INT64_MIN then Undef else lpp_atomic_sub m p a) /\
  lpp_atomic_sub m p INT64_MIN = Ok (v, <[p := i64 (v - INT64_MIN)]> m) /\
  lpp_atomic_cas_msvc m p a b = lpp_atomic_cas m p a b /\
  lpp_atomic_cas_weak_msvc m p a b = lpp_atomic_cas_weak false m p a b /\
  lpp_atomic_cas32_msvc m p a b = lpp_atomic_cas32 m p a b.
Proof.
  intros Hm Hp Ha. pose proof (Hm p v Hp) as Hv. cbn beta in Hv.
  assert (lpp_atomic_cas_msvc m p a b = lpp_atomic_cas m p a b) as Hcas.
  { unfold lpp_atomic_cas_msvc, lpp_atomic_cas, compare_exchange, fetch, cell. rewrite Hp. cbn [obind].
    destruct (Z.eqb_spec v a) as [->|]; [done|]. cbn [andb]. by rewrite insert_id. }
  split_and!; try done.
  - apply fetch_id; [done|apply Z.lor_0_r].
  - apply fetch_id; [done|apply Z.lor_0_r].
  - unfold lpp_atomic_load, cell. by rewrite Hp.
  - unfold lpp_atomic_load32_msvc, cell. rewrite Hp. cbn [obind]. by rewrite Z.lor_0_r, set_lo32_id, insert_id.
  - unfold lpp_atomic_load32, cell. by rewrite Hp.
  - unfold lpp_atomic_store_msvc, lpp_atomic_store, fetch, cell. by rewrite Hp.
  - unfold lpp_atomic_store_rel_msvc, lpp_atomic_store_rel, fetch, cell. by rewrite Hp.
  - unfold lpp_atomic_sub_msvc. destruct (Z.eqb_spec a INT64_MIN) as [->|]; [done|].
    rewrite chk64_ok by (pow2; lia). cbn [obind]. unfold lpp_atomic_sub, fetch, cell. rewrite Hp. done.
  - unfold lpp_atomic_sub, fetch, cell. by rewrite Hp.
  - unfold lpp_atomic_cas32_msvc, lpp_atomic_cas32, cell. rewrite Hp. cbn [obind].
    destruct (Z.eqb_spec (lo32 v) (i32 a)) as [->|]; [done|]. by rewrite set_lo32_id, insert_id.
Qed.

Lemma atomic_bodies_agree_witness :
  lpp_atomic_cas_msvc {[ 64 := 5 ]} 64 5 9 = lpp_atomic_cas {[ 64 := 5 ]} 64 5 9.
Proof.
  destruct (atomic_bodies_agree {[ 64 := 5 ]} 64 5 5 9) as (_ & _ & _ & _ & _ & _ & _ & _ & _ & H & _); [| | |exact H].
  - apply map_Forall_singleton. split; vm_compute; discriminate.
  - reflexivity.
  - split; vm_compute; discriminate.
Defined.

(** [lpp_atomic_cas_weak] hides a spurious failure: its only result is the value it found,
    which then equals [expected] exactly as after a successful exchange, but nothing was
    stored.  A caller that compares the result with [expected] takes a failed exchange for a
    successful one; the strong exchange has no such run. *)
Theorem cas_weak_hides_failure m p v desired :
  m !! p = Some v -> desired <> v ->
  exists m_ok m_fail, lpp_atomic_cas_weak false m p v desired = Ok (v, m_ok) /\
    lpp_atomic_cas_weak true m p v desired = Ok (v, m_fail) /\
    m_ok !! p = Some desired /\ m_fail = m /\ m_ok <> m_fail /\
    (forall e r m', lpp_atomic_cas m p e desired = Ok (r, m') -> r = v /\ m' !! p = Some (if v =? e then desired else v)).
Proof.
  intros Hp Hd. exists (<[p := desired]> m), m. unfold lpp_atomic_cas_weak, lpp_atomic_cas, compare_exchange, cell.
  rewrite Hp. cbn [obind]. rewrite Z.eqb_refl. cbn [andb negb].
  split; [done|]. split; [done|]. split; [apply lookup_insert_eq|]. split; [done|]. split.
  - intros He. assert (<[p := desired]> m !! p = m !! p) as H by (by rewrite He).
    rewrite lookup_insert_eq, Hp in H. congruence.
  - intros e r m'. destruct (Z.eqb_spec v e) as [->|]; cbn [andb]; intros [= <- <-]; split; try done.
    apply lookup_insert_eq.
Qed.

Lemma cas_weak_hides_failure_witness :
  exists m_ok m_fail, lpp_atomic_cas_weak false {[ 64 := 5 ]} 64 5 9 = Ok (5, m_ok) /\
    lpp_atomic_cas_weak true {[ 64 := 5 ]} 64 5 9 = Ok (5, m_fail) /\ m_ok <> m_fail.
Proof.
  destruct (cas_weak_hides_failure {[ 64 := 5 ]} 64 5 9) as (a & b & H1 & H2 & _ & _ & H3 & _); [reflexivity|discriminate|].
  exists a, b. split; [exact H1|]. split; [exact H2|exact H3].
Defined.

(** ** Threads sharing a counter

    A thread is the list of amounts it still has to add to the cell [p]; a step lets one thread
    do one [lpp_atomic_add] and logs the value it got back. *)

Record pool := mk_pool { pmem : mem; threads : list (list Z); log : list Z }.

Inductive pool_step (p : Z) : pool -> pool -> Prop :=
| ps_add m ts ts' d ds lg old m' :
    lpp_atomic_add m p d = Ok (old, m') ->
    pool_step p (mk_pool m (ts ++ (d :: ds) :: ts') lg) (mk_pool m' (ts ++ ds :: ts') (lg ++ [old])).

Definition pending (ts : list (list Z)) : Z := foldr Z.add 0 (concat ts).

Lemma sum_app xs ys : foldr Z.add 0 (xs ++ ys) = foldr Z.add 0 xs + foldr Z.add 0 ys.
Proof. induction xs as [|x xs IH]; cbn [app foldr]; lia. Qed.

Lemma pending_step ts d ds ts' : pending (ts ++ (d :: ds) :: ts') = d + pending (ts ++ ds :: ts').
Proof. unfold pending. rewrite !concat_app, !sum_app. cbn [concat app foldr]. rewrite !sum_app. lia. Qed.

(** The value of the cell together with what is still to be added is constant, modulo 2^64. *)
Lemma pool_sum p s s' : rtc (pool_step p) s s' -> forall v, pmem s !! p = Some v ->
  exists v', pmem s' !! p = Some v' /\ u64 (v' + pending (threads s')) = u64 (v + pending (threads s)) /\
    (v' = v \/ INT64_MIN <= v' <= INT64_MAX).
Proof.
  induction 1 as [s|s1 s2 s3 H12 _ IH]; intros v Hv; [eauto|].
  destruct H12 as [m ts ts' d ds lg old m' Ha]. cbn [pmem threads] in *.
  unfold lpp_atomic_add, fetch, cell in Ha. rewrite Hv in Ha. cbn [obind] in Ha. injection Ha as <- <-.
  destruct (IH (i64 (v + d))) as (v' & Hv' & Hs & Hr); [apply lookup_insert_eq|].
  exists v'. split; [done|]. split.
  - rewrite Hs, pending_step. unfold u64, uwrap.
    rewrite <- Zplus_mod_idemp_l. change (i64 (v + d) mod 2 ^ 64) with (u64 (i64 (v + d))). rewrite u64_i64.
    unfold u64, uwrap. rewrite Zplus_mod_idemp_l. f_equal. lia.
  - right. destruct Hr as [->|?]; [apply i64_range|done].
Qed.

(** While every addition is of 1 and nothing wraps, the log counts up from the start. *)
Lemma pool_tickets p s s' : rtc (pool_step p) s s' -> forall v0 k, pmem s !! p = Some (v0 + Z.of_nat k) ->
  log s = seqZ v0 (Z.of_nat k) -> Forall (Forall (eq 1)) (threads s) ->
  INT64_MIN <= v0 -> v0 + Z.of_nat k + pending (threads s) <= INT64_MAX ->
  exists k', pmem s' !! p = Some (v0 + Z.of_nat k') /\ log s' = seqZ v0 (Z.of_nat k') /\
    Z.of_nat k' + pending (threads s') = Z.of_nat k + pending (threads s).
Proof.
  induction 1 as [s|s1 s2 s3 H12 _ IH]; intros v0 k Hv Hl Hone Hlo Hhi; [by exists k|].
  destruct H12 as [m ts ts' d ds lg old m' Ha]. cbn [pmem threads log] in *.
  unfold lpp_atomic_add, fetch, cell in Ha. rewrite Hv in Ha. cbn [obind] in Ha. injection Ha as <- <-.
  apply Forall_app in Hone as [H1 H2]. apply Forall_cons in H2 as [Hd H2]. apply Forall_cons in Hd as [<- Hds].
  assert (0 <= pending (ts ++ ds :: ts')) as Hpos.
  { unfold pending. assert (Forall (eq 1) (concat (ts ++ ds :: ts'))) as Hall.
    { apply Forall_concat, Forall_app. split; [done|]. by apply Forall_cons. }
    induction Hall as [|x xs <- _ IHx]; cbn [foldr]; lia. }
  rewrite pending_step in Hhi. rewrite i64_id in IH by lia.
  destruct (IH v0 (S k)) as (k' & Hv' & Hl' & Hk').
  - rewrite lookup_insert_eq. f_equal. lia.
  - rewrite seqZ_S, Hl. done.
  - apply Forall_app. split; [done|]. by apply Forall_cons.
  - done.
  - lia.
  - exists k'. rewrite pending_step. split; [done|]. split; [done|lia].
Qed.

(** No update of a shared counter is lost.  However the steps of any number of threads
    interleave, when all have finished the cell holds its initial value plus everything that
    was added (wrapped to 64 bits); and when each addition is of 1 the values handed out are
    consecutive and each is handed out exactly once. *)
Theorem counter_loses_nothing p m ts m' ts' lg v :
  m !! p = Some v -> INT64_MIN <= v <= INT64_MAX -> rtc (pool_step p) (mk_pool m ts []) (mk_pool m' ts' lg) ->
  Forall (eq []) ts' ->
  m' !! p = Some (i64 (v + pending ts)) /\
  (Forall (Forall (eq 1)) ts -> v + pending ts <= INT64_MAX ->
     lg = seqZ v (Z.of_nat (length (concat ts))) /\ NoDup lg).
Proof.
  intros Hv Hr Hs Hd. assert (pending ts' = 0) as Hp0.
  { unfold pending. assert (concat ts' = []) as ->; [|done]. clear -Hd. induction Hd as [|x xs <- _ IH]; done. }
  split.
  - destruct (pool_sum p _ _ Hs v Hv) as (v' & Hv' & Hsum & Hb). cbn [pmem threads] in *.
    rewrite Hp0, Z.add_0_r in Hsum. rewrite Hv'. f_equal. rewrite <- i64_u64, <- Hsum, i64_u64.
    symmetry. apply i64_id. destruct Hb as [->|?]; done.
  - intros Hone Hhi. destruct (pool_tickets p _ _ Hs v 0) as (k' & _ & Hl & Hk); cbn [pmem threads log] in *; try done || lia.
    + rewrite Hv. f_equal. lia.
    + assert (pending ts = Z.of_nat (length (concat ts))) as Hlen.
      { unfold pending. apply Forall_concat in Hone. induction Hone as [|x xs <- _ IH]; cbn [foldr length]; lia. }
      rewrite Hl. replace (Z.of_nat k') with (Z.of_nat (length (concat ts))) by lia. split; [done|apply NoDup_seqZ].
Qed.

Lemma counter_loses_nothing_witness :
  exists m', rtc (pool_step 64) (mk_pool {[ 64 := 7 ]} [[1]; [1]] []) (mk_pool m' [[]; []] [7; 8]) /\
    m' !! 64 = Some (i64 (7 + pending [[1]; [1]])).
Proof.
  set (s1 := mk_pool (<[64 := 8]> {[ 64 := 7 ]}) [[1]; []] [7]).
  set (m2 := <[64 := 9]> (<[64 := 8]> {[ 64 := 7 ]}) : mem).
  assert (rtc (pool_step 64) (mk_pool {[ 64 := 7 ]} [[1]; [1]] []) (mk_pool m2 [[]; []] [7; 8])) as Hr.
  { eapply rtc_l; [exact (ps_add 64 {[ 64 := 7 ]} [[1]] [] 1 [] [] 7 _ eq_refl)|].
    eapply rtc_l; [exact (ps_add 64 (<[64 := 8]> {[ 64 := 7 ]}) [] [[]] 1 [] [7] 8 _ eq_refl)|]. apply rtc_refl. }
  exists m2. split; [exact Hr|].
  destruct (counter_loses_nothing 64 {[ 64 := 7 ]} [[1]; [1]] m2 [[]; []] [7; 8] 7) as [H _]; [reflexivity| |exact Hr| |exact H].
  - split; vm_compute; discriminate.
  - repeat constructor.
Defined.
