(* ===== verification/Vec.v ===== *)
(** * Vector intrinsics (runtime/lpp_runtime.c)

    A 128-bit vector is two [int64_t] halves; its sixteen bytes are theirs in memory order
    (little-endian).  The SSE2 branches are modelled by what Intel documents for the
    instruction they name: [PCMPEQB] and [PMOVMSKB] act on each byte. *)

From S2P Require Import Prelude CInt.

(** ** The checksum kernel *)

Definition term (i : Z) : Z := Z.lxor (i * 3) (Z.shiftr i 1).

(** [total += (i * 3) ^ (i >> 1)]. *)
Definition add_term (total i : Z) : outcome Z :=
  let! m := chk64 (i * 3) in chk64 (total + Z.lxor m (Z.shiftr i 1)).

(** [for (; i < n; ++i)], [k = n - i] rounds. *)
Fixpoint scalar_loop (k : nat) (i total : Z) : outcome Z :=
  match k with
  | O => Ok total
  | S k => let! total := add_term total i in scalar_loop k (i + 1) total
  end.

Definition lpp_vec_i64_checksum (n : Z) : outcome Z :=
  if n <? 0 then Ok 0 else scalar_loop (Z.to_nat n) 0 0.

(** One lane of [(v * three) ^ (v >> 1)]. *)
Definition lane (i : Z) : outcome Z := let! m := chk64 (i * 3) in Ok (Z.lxor m (Z.shiftr i 1)).

(** [while (i + 4 <= n)]: returns where it stopped. *)
Fixpoint avx2_loop (fuel : nat) (n i total : Z) : outcome (Z * Z) :=
  match fuel with
  | O => NoFuel
  | S f =>
      if i + 4 <=? n then
        let! x0 := lane i in
        let! x1 := lane (i + 1) in
        let! x2 := lane (i + 2) in
        let! x3 := lane (i + 3) in
        let! s := chk64 (x0 + x1) in
        let! s := chk64 (s + x2) in
        let! s := chk64 (s + x3) in
        let! total := chk64 (total + s) in
        avx2_loop f n (i + 4) total
      else Ok (i, total)
  end.

Definition lpp_vec_i64_checksum_avx2 (n : Z) : outcome Z :=
  let! '(i, total) := avx2_loop (S (Z.to_nat n)) n 0 0 in
  scalar_loop (Z.to_nat (n - i)) i total.

(** ** 128-bit vectors *)

Record LppVec128 := mk_vec { v0 : Z; v1 : Z }.

Definition lpp_vec_i64x2_and (a b : LppVec128) : LppVec128 := mk_vec (Z.land (v0 a) (v0 b)) (Z.land (v1 a) (v1 b)).
Definition lpp_vec_i64x2_or (a b : LppVec128) : LppVec128 := mk_vec (Z.lor (v0 a) (v0 b)) (Z.lor (v1 a) (v1 b)).
Definition lpp_vec_i64x2_not (a : LppVec128) : LppVec128 := mk_vec (Z.lnot (v0 a)) (Z.lnot (v1 a)).

(** [for (i = 0; i < 8; i++) half |= b << (i * 8)]. *)
Fixpoint splat_loop (k : nat) (i b half : Z) : Z :=
  match k with
  | O => half
  | S k => splat_loop k (i + 1) b (Z.lor half (u64 (Z.shiftl b (i * 8))))
  end.
Definition lpp_vec_u8x16_splat (byte_val : Z) : LppVec128 :=
  let half := splat_loop 8 0 (u8 byte_val) 0 in mk_vec (i64 half) (i64 half).

(** The bytes of a vector in memory, and the vector they spell. *)
Definition vbytes (a : LppVec128) : list Z := le_bytes 8 (u64 (v0 a)) ++ le_bytes 8 (u64 (v1 a)).
Definition of_bytes (bs : list Z) : LppVec128 := mk_vec (i64 (le_value (take 8 bs))) (i64 (le_value (drop 8 bs))).

Definition eq_byte (x y : Z) : Z := if x =? y then 0xFF else 0x00.
Definition lpp_vec_u8x16_eq (a b : LppVec128) : LppVec128 := of_bytes (zip_with eq_byte (vbytes a) (vbytes b)).

(** [if (pa[i] & 0x80) mask |= (1 << i)]. *)
Fixpoint mask_loop (bs : list Z) (i mask : Z) : Z :=
  match bs with
  | [] => mask
  | b :: bs => mask_loop bs (i + 1) (if negb (Z.land b 0x80 =? 0) then Z.lor mask (Z.shiftl 1 i) else mask)
  end.
Definition lpp_vec_u8x16_movemask (a : LppVec128) : Z := mask_loop (vbytes a) 0 0.

(** ** The two bodies of the checksum *)

Fixpoint tsum (k : nat) (i : Z) : Z := match k with O => 0 | S k => term i + tsum k (i + 1) end.

Lemma term_nonneg i : 0 <= i -> 0 <= term i.
Proof. intros Hi. unfold term. apply Z.lxor_nonneg. rewrite Z.shiftr_nonneg. lia. Qed.

Lemma tsum_nonneg k : forall i, 0 <= i -> 0 <= tsum k i.
Proof. induction k as [|k IH]; intros i Hi; cbn [tsum]; [lia|]. pose proof (term_nonneg i Hi). pose proof (IH (i + 1) ltac:(lia)). lia. Qed.

(** Where the multiplication overflows the term is out of range too. *)
Lemma term_big i : 0 <= i <= INT64_MAX -> INT64_MAX < i * 3 -> INT64_MAX < term i.
Proof.
  intros Hi H3. unfold term. set (x := Z.lxor _ _).
  assert (Z.shiftr x 63 = Z.shiftr (i * 3) 63) as Hs.
  { unfold x. rewrite Z.shiftr_lxor, (Z.shiftr_shiftr i) by lia. change (1 + 63) with 64.
    replace (Z.shiftr i 64) with 0; [apply Z.lxor_0_r|]. rewrite Z.shiftr_div_pow2 by lia. symmetry. apply Z.div_small. pow2. lia. }
  rewrite !Z.shiftr_div_pow2 in Hs by lia. pow2. dlia.
Qed.

(** A sum that exceeds [INT64_MAX] is undefined, however it is grouped. *)
Definition fits_or (z : Z) : outcome Z := if z <=? INT64_MAX then Ok z else Undef.

Lemma chk64_fits z : 0 <= z -> chk64 z = fits_or z.
Proof. intros Hz. unfold chk64, is_i64, fits_or. by rewrite (proj2 (Z.leb_le INT64_MIN z)) by (pow2; lia). Qed.

Lemma lane_spec i : 0 <= i <= INT64_MAX -> INT64_MAX < term i \/ lane i = Ok (term i).
Proof.
  intros Hi. destruct (decide (INT64_MAX < i * 3)) as [Hb|Hs]; [left; by apply term_big|]. right.
  unfold lane. rewrite chk64_ok by (pow2; lia). done.
Qed.

Lemma lane_big i : 0 <= i -> lane i = Ok (term i) \/ lane i = Undef.
Proof. intros Hi. unfold lane, chk64. destruct (is_i64 _); [by left|by right]. Qed.

Lemma bind_lane {A} i (g : Z -> outcome A) r : 0 <= i <= INT64_MAX ->
  g (term i) = r -> (INT64_MAX < term i -> r = Undef) -> obind (lane i) g = r.
Proof.
  intros Hi Hg Hb. destruct (lane_spec i Hi) as [Hbig|Hl]; [|by rewrite Hl].
  destruct (lane_big i ltac:(lia)) as [El|El]; rewrite El; [done|]. symmetry. by apply Hb.
Qed.

Lemma bind_chk {A} z (g : Z -> outcome A) r : 0 <= z -> (z <= INT64_MAX -> g z = r) ->
  (INT64_MAX < z -> r = Undef) -> obind (chk64 z) g = r.
Proof.
  intros Hz Hg Hb. rewrite chk64_fits by done. unfold fits_or. destruct (Z.leb_spec z INT64_MAX); cbn [obind]; [auto|].
  symmetry. auto.
Qed.

Lemma scalar_spec k : forall i total, 0 <= i -> 0 <= total -> i + Z.of_nat k <= INT64_MAX + 1 ->
  total <= INT64_MAX -> scalar_loop k i total = fits_or (total + tsum k i).
Proof.
  induction k as [|k IH]; intros i total Hi Ht Hk Hm; cbn [scalar_loop tsum].
  { unfold fits_or. by rewrite Z.add_0_r, (proj2 (Z.leb_le _ _)). }
  pose proof (term_nonneg i Hi) as Hn. pose proof (tsum_nonneg k (i + 1) ltac:(lia)) as Hr. rewrite Nat2Z.inj_succ in Hk.
  unfold add_term. destruct (decide (INT64_MAX < i * 3)) as [Hb|Hs].
  - rewrite chk64_bad by done. cbn [obind]. pose proof (term_big i ltac:(lia) Hb).
    unfold fits_or. by rewrite (proj2 (Z.leb_gt _ _)) by lia.
  - rewrite chk64_ok by (pow2; lia). cbn [obind]. change (Z.lxor (i * 3) (Z.shiftr i 1)) with (term i).
    rewrite chk64_fits by lia. unfold fits_or at 1. destruct (Z.leb_spec (total + term i) INT64_MAX); cbn [obind].
    + rewrite IH by lia. f_equal. lia.
    + unfold fits_or. by rewrite (proj2 (Z.leb_gt _ _)) by lia.
Qed.

(** One round of the vector loop. *)
Lemma avx2_round i total (f : Z -> outcome Z) : 0 <= i -> i + 4 <= INT64_MAX -> 0 <= total ->
  (let! x0 := lane i in let! x1 := lane (i + 1) in let! x2 := lane (i + 2) in let! x3 := lane (i + 3) in
   let! s := chk64 (x0 + x1) in let! s := chk64 (s + x2) in let! s := chk64 (s + x3) in
   let! t := chk64 (total + s) in f t) =
  (let! t := fits_or (total + tsum 4 i) in f t).
Proof.
  intros Hi Hm Ht.
  assert (tsum 4 i = term i + term (i + 1) + term (i + 2) + term (i + 3)) as Hsum.
  { cbn [tsum]. replace (i + 1 + 1) with (i + 2) by lia. replace (i + 2 + 1) with (i + 3) by lia. lia. }
  pose proof (term_nonneg i ltac:(lia)). pose proof (term_nonneg (i + 1) ltac:(lia)).
  pose proof (term_nonneg (i + 2) ltac:(lia)). pose proof (term_nonneg (i + 3) ltac:(lia)).
  assert (INT64_MAX < total + tsum 4 i -> obind (fits_or (total + tsum 4 i)) f = Undef) as Hbig.
  { intros Hb. unfold fits_or. by rewrite (proj2 (Z.leb_gt _ _)). }
  rewrite Hsum in *.
  do 4 (apply bind_lane; [lia| |intros ?; apply Hbig; lia]).
  do 3 (apply bind_chk; [lia| |intros ?; apply Hbig; lia]; intros _).
  by rewrite chk64_fits by lia.
Qed.

Lemma tsum_app a b : forall i, tsum (a + b) i = tsum a i + tsum b (i + Z.of_nat a).
Proof.
  induction a as [|a IH]; intros i; [cbn [tsum Nat.add]; by rewrite Z.add_0_r|].
  cbn [Nat.add tsum]. rewrite IH. replace (i + 1 + Z.of_nat a) with (i + Z.of_nat (S a)) by lia. lia.
Qed.

(** The vector loop followed by the scalar rest. *)
Lemma avx2_spec fuel : forall n i total, 0 <= i <= n -> n <= INT64_MAX -> 0 <= total <= INT64_MAX ->
  (Z.to_nat (n - i) < fuel)%nat ->
  (let! '(i, total) := avx2_loop fuel n i total in scalar_loop (Z.to_nat (n - i)) i total) =
  fits_or (total + tsum (Z.to_nat (n - i)) i).
Proof.
  induction fuel as [|fuel IH]; intros n i total Hi Hn Ht Hf; [lia|]. cbn [avx2_loop].
  destruct (Z.leb_spec (i + 4) n) as [Hle|Hgt].
  2: { cbn [obind]. by apply scalar_spec; lia. }
  set (rest := fun t : Z => let! '(i, total) := avx2_loop fuel n (i + 4) t in scalar_loop (Z.to_nat (n - i)) i total).
  transitivity (let! t := fits_or (total + tsum 4 i) in rest t).
  { rewrite <- avx2_round by lia. unfold rest, lane. repeat (unfold chk64; case_match; cbn [obind]; try done). }
  pose proof (tsum_nonneg 4 i ltac:(lia)). pose proof (tsum_nonneg (Z.to_nat (n - (i + 4))) (i + 4) ltac:(lia)).
  replace (Z.to_nat (n - i)) with (4 + Z.to_nat (n - (i + 4)))%nat by lia. rewrite tsum_app.
  change (i + Z.of_nat 4) with (i + 4). unfold fits_or at 1. destruct (Z.leb_spec (total + tsum 4 i) INT64_MAX); cbn [obind].
  - unfold rest. rewrite IH by lia. f_equal. lia.
  - unfold fits_or. by rewrite (proj2 (Z.leb_gt _ _)) by lia.
Qed.

(** The vectorised checksum is the scalar one: for every non-negative [int64_t] the AVX2
    body, which sums four lanes at a time and finishes with a scalar tail, returns exactly what
    the plain loop returns - the sum of [(i * 3) ^ (i >> 1)] - and both are undefined exactly
    when that sum exceeds [INT64_MAX]. *)
Theorem checksum_bodies_agree n :
  0 <= n <= INT64_MAX ->
  lpp_vec_i64_checksum_avx2 n = lpp_vec_i64_checksum n /\
  lpp_vec_i64_checksum n = (if tsum (Z.to_nat n) 0 <=? INT64_MAX then Ok (tsum (Z.to_nat n) 0) else Undef).
Proof.
  intros Hn. unfold lpp_vec_i64_checksum_avx2, lpp_vec_i64_checksum. rewrite (proj2 (Z.ltb_ge n 0)) by lia.
  rewrite avx2_spec by (pow2; lia). rewrite scalar_spec by (pow2; lia). rewrite Z.sub_0_r. done.
Qed.

Lemma checksum_bodies_agree_witness : lpp_vec_i64_checksum_avx2 11 = Ok 170.
Proof.
  destruct (checksum_bodies_agree 11) as [H1 H2]; [split; vm_compute; discriminate|].
  rewrite H1, H2. vm_compute. reflexivity.
Defined.

(** ** Searching for a byte *)

Lemma splat_bytes b : 0 <= b < 256 -> le_bytes 8 (splat_loop 8 0 b 0) = replicate 8 b /\ 0 <= splat_loop 8 0 b 0 < 2 ^ 64.
Proof.
  intros Hb. set (ok := fun b => bool_decide (le_bytes 8 (splat_loop 8 0 b 0) = replicate 8 b) &&
    (0 <=? splat_loop 8 0 b 0) && (splat_loop 8 0 b 0 <? 2 ^ 64)).
  assert (forallb ok (seqZ 0 256) = true) as Hall by (vm_compute; reflexivity).
  pose proof (forallb_seqZ ok 256 b Hall Hb) as H. subst ok.
  cbn beta in H. apply andb_true_iff in H as [[H1%bool_decide_eq_true H2%Z.leb_le]%andb_true_iff H3%Z.ltb_lt].
  split; [exact H1|split; [exact H2|exact H3]].
Qed.

Lemma vbytes_splat c : vbytes (lpp_vec_u8x16_splat c) = replicate 16 (u8 c).
Proof.
  unfold vbytes, lpp_vec_u8x16_splat. cbn [v0 v1]. destruct (splat_bytes (u8 c)) as [Hb Hr]; [apply uwrap_range; lia|].
  rewrite !u64_i64, (u64_id _ Hr), Hb. done.
Qed.

Lemma vbytes_of_bytes bs : length bs = 16%nat -> bytes_ok bs -> vbytes (of_bytes bs) = bs.
Proof.
  intros Hl Hb. unfold vbytes, of_bytes. cbn [v0 v1].
  assert (bytes_ok (take 8 bs) /\ bytes_ok (drop 8 bs)) as [H1 H2] by (split; [by apply Forall_take|by apply Forall_drop]).
  pose proof (le_value_bound _ H1) as B1. pose proof (le_value_bound _ H2) as B2.
  rewrite length_take, Hl in B1. rewrite length_drop, Hl in B2.
  rewrite !u64_i64, !u64_id by done.
  pose proof (le_value_le_bytes _ H1) as E1. pose proof (le_value_le_bytes _ H2) as E2.
  rewrite length_take, Hl in E1. rewrite length_drop, Hl in E2. cbn [Nat.min Nat.sub] in E1, E2.
  rewrite E1, E2. apply take_drop.
Qed.

Lemma vbytes_length a : length (vbytes a) = 16%nat.
Proof. unfold vbytes. by rewrite length_app, !le_bytes_length. Qed.

Lemma mask_loop_bits bs : forall i mask j, 0 <= i -> 0 <= j -> (forall k, i <= k -> Z.testbit mask k = false) ->
  Z.testbit (mask_loop bs i mask) j =
    if j <? i then Z.testbit mask j else match bs !! Z.to_nat (j - i) with Some b => negb (Z.land b 0x80 =? 0) | None => false end.
Proof.
  induction bs as [|b bs IH]; intros i mask j Hi Hj Hm; cbn [mask_loop].
  { destruct (Z.ltb_spec j i); [done|]. rewrite lookup_nil. by apply Hm. }
  set (mask' := if negb (Z.land b 128 =? 0) then Z.lor mask (Z.shiftl 1 i) else mask).
  assert (forall k, 0 <= k -> Z.testbit mask' k = Z.testbit mask k || ((k =? i) && negb (Z.land b 128 =? 0))) as Hbit.
  { intros k Hk. unfold mask'. destruct (negb _); [|by rewrite andb_false_r, orb_false_r].
    rewrite Z.lor_spec, Z.shiftl_1_l, andb_true_r. f_equal.
    destruct (Z.eqb_spec k i) as [->|]; [by apply Z.pow2_bits_true|by apply Z.pow2_bits_false]. }
  rewrite IH by (lia || (intros k Hk; rewrite Hbit, Hm, (proj2 (Z.eqb_neq k i)) by lia; done)).
  destruct (Z.ltb_spec j i) as [Hlt|Hge].
  - rewrite (proj2 (Z.ltb_lt j (i + 1))), Hbit, (proj2 (Z.eqb_neq j i)) by lia. by rewrite orb_false_r.
  - destruct (Z.ltb_spec j (i + 1)) as [Hlt|Hgt].
    + assert (j = i) as -> by lia. rewrite Hbit, Hm, Z.eqb_refl, Z.sub_diag by lia. done.
    + replace (Z.to_nat (j - i)) with (S (Z.to_nat (j - (i + 1)))) by lia. done.
Qed.

(** Comparing with a splat and taking the mask finds bytes: bit [i] of
    [movemask(eq(a, splat(c)))] is set exactly when byte [i] of [a] is [c] truncated to a byte,
    for each of the sixteen bytes, and no other bit is set; [and], [or] and [not] act on every
    bit of both halves. *)
Theorem byte_search_mask a b c i :
  0 <= i ->
  Z.testbit (lpp_vec_u8x16_movemask (lpp_vec_u8x16_eq a (lpp_vec_u8x16_splat c))) i =
    match vbytes a !! Z.to_nat i with Some x => x =? u8 c | None => false end /\
  Z.testbit (v0 (lpp_vec_i64x2_and a (lpp_vec_i64x2_not b))) i = Z.testbit (v0 a) i && negb (Z.testbit (v0 b) i) /\
  Z.testbit (v1 (lpp_vec_i64x2_or a (lpp_vec_i64x2_not b))) i = Z.testbit (v1 a) i || negb (Z.testbit (v1 b) i).
Proof.
  intros Hi. split; [|cbn; rewrite Z.land_spec, Z.lor_spec, !Z.lnot_spec by done; done].
  unfold lpp_vec_u8x16_movemask, lpp_vec_u8x16_eq. rewrite vbytes_splat.
  rewrite vbytes_of_bytes.
  - rewrite mask_loop_bits by (lia || (intros; apply Z.bits_0)). rewrite (proj2 (Z.ltb_ge i 0)), Z.sub_0_r by done.
    rewrite lookup_zip_with. pose proof (vbytes_length a) as Hl. destruct (vbytes a !! Z.to_nat i) as [x|] eqn:E; cbn [mbind option_bind]; [|done].
    pose proof (lookup_lt_Some _ _ _ E) as Hlt. rewrite Hl in Hlt. rewrite lookup_replicate_2 by done. cbn [mbind option_bind].
    unfold eq_byte. by destruct (x =? u8 c).
  - by rewrite length_zip_with, vbytes_length, length_replicate.
  - apply Forall_lookup. intros k x Hx. apply lookup_zip_with_Some in Hx as (y & z & -> & _). unfold eq_byte.
    destruct (y =? z); change (2 ^ 8) with 256; lia.
Qed.

Lemma byte_search_mask_witness :
  Z.testbit (lpp_vec_u8x16_movemask (lpp_vec_u8x16_eq (mk_vec 0x2200 0) (lpp_vec_u8x16_splat 0x22))) 1 = true.
Proof.
  destruct (byte_search_mask (mk_vec 0x2200 0) (mk_vec 0 0) 0x22 1) as [H _]; [lia|]. rewrite H. vm_compute. reflexivity.
Defined.
