(* ===== verification/Net.v ===== *)
(** * Sockets of the host runtime (runtime/lpp_runtime.c)

    The program holds handles 1 to 256, entries of the table [lpp__socket_table]; the sockets are the
    operating system's.  The system is the class [SocketApi]: its calls on a state [K] of its own, with
    the laws of the manual in [SocketLaws].  What each builtin does with its table and with the system's
    descriptors is written out, for POSIX (the code between [#else] and [#endif]). *)

From stdpp Require Import gmap.
From S2P Require Import Prelude CInt Buf ListRt Str.

(** ** The operating system *)

Definition AF_UNSPEC : Z := 0.
Definition AF_INET : Z := 2.
Definition SOCK_STREAM : Z := 1.
Definition SOCK_DGRAM : Z := 2.

(** [struct addrinfo]; [ai_addr] is the socket address as bytes. *)
Record addrinfo := mk_addrinfo { ai_family : Z; ai_socktype : Z; ai_protocol : Z; ai_addr : list Z }.

Inductive sock_opt := RcvTimeo (tv_sec tv_usec : Z) | SndTimeo (tv_sec tv_usec : Z) | ReuseAddr (v : Z) | KeepAlive (v : Z).

Class SocketApi (K : Type) := {
  descriptors : K -> gset Z;             (** open in the process *)
  outgoing : K -> Z -> list Z;           (** what the system has accepted for a socket *)
  getaddrinfo : K -> cstr -> option cstr -> Z -> Z -> option (list addrinfo);
  socket : K -> Z -> Z -> Z -> Z * K;
  connect : K -> Z -> list Z -> Z * K;
  bind : K -> Z -> list Z -> Z * K;
  listen : K -> Z -> Z -> Z * K;
  accept : K -> Z -> Z * K;
  setsockopt : K -> Z -> sock_opt -> Z * K;
  getfl : K -> Z -> Z;                   (** [fcntl(s, F_GETFL, 0)] *)
  setfl : K -> Z -> Z -> Z * K;          (** [fcntl(s, F_SETFL, flags)] *)
  select : K -> Z -> Z -> Z -> Z * K;    (** one descriptor to read from, seconds, microseconds *)
  send : K -> Z -> list Z -> Z * K;
  recv : K -> Z -> Z -> Z * list Z * K;  (** the count or -1, and the bytes *)
  shutdown : K -> Z -> K;
  close : K -> Z -> K
}.

(** A call that opens returns -1 and opens nothing, or a descriptor that was not open. *)
Definition opens {K} `{SocketApi K} (k : K) (r : Z * K) : Prop :=
  (r.1 = -1 /\ descriptors r.2 = descriptors k) \/
  (0 <= r.1 /\ (r.1 ∉ descriptors k) /\ descriptors r.2 = {[r.1]} ∪ descriptors k).

Class SocketLaws (K : Type) `{SocketApi K} : Prop := {
  socket_opens : forall k d t p, opens k (socket k d t p);
  accept_opens : forall k s, opens k (accept k s);
  close_closes : forall k s, descriptors (close k s) = descriptors k ∖ {[s]};
  connect_keeps : forall k s a, descriptors (connect k s a).2 = descriptors k;
  bind_keeps : forall k s a, descriptors (bind k s a).2 = descriptors k;
  listen_keeps : forall k s b, descriptors (listen k s b).2 = descriptors k;
  setsockopt_keeps : forall k s o, descriptors (setsockopt k s o).2 = descriptors k;
  setfl_keeps : forall k s f, descriptors (setfl k s f).2 = descriptors k;
  select_keeps : forall k s a b, descriptors (select k s a b).2 = descriptors k;
  recv_keeps : forall k s n, descriptors (recv k s n).2 = descriptors k;
  shutdown_keeps : forall k s, descriptors (shutdown k s) = descriptors k;
  recv_count : forall k s n, 0 <= n -> let '(r, bytes, _) := recv k s n in
    Z.of_nat (length bytes) <= n /\ (r = Z.of_nat (length bytes) \/ (r = -1 /\ bytes = []));
  send_keeps : forall k s b, descriptors (send k s b).2 = descriptors k;
  send_moves : forall k s b, let '(r, k') := send k s b in
    r <= Z.of_nat (length b) /\ outgoing k' s = outgoing k s ++ take (Z.to_nat r) b /\
    (forall s', s' <> s -> outgoing k' s' = outgoing k s')
}.

(** ** The table of handles *)

Definition LPP_INVALID_SOCKET : Z := -1.

(** [for (int64_t i = 0; i < 256; ++i)], [n] iterations left. *)
Fixpoint store_loop (n : nat) (t : list Z) (i sock : Z) : outcome (Z * list Z) :=
  match n with
  | O => Ok (0, t)
  | S n =>
      let! e := rd t i in
      if (e =? 0) || (e =? LPP_INVALID_SOCKET) then let! t := wr t i sock in Ok (i + 1, t)
      else store_loop n t (i + 1) sock
  end.
Definition lpp__socket_store (t : list Z) (sock : Z) : outcome (Z * list Z) := store_loop 256 t 0 sock.

Definition lpp__socket_load (t : list Z) (handle : Z) : outcome Z :=
  if (handle <=? 0) || (handle >? 256) then Ok LPP_INVALID_SOCKET else rd t (handle - 1).

Definition lpp__socket_clear (t : list Z) (handle : Z) : outcome (list Z) :=
  if (handle >? 0) && (handle <=? 256) then wr t (handle - 1) 0 else Ok t.

(** [struct sockaddr_in] for [INADDR_ANY]: the family, the port in network order, four bytes of
    address, eight of padding. *)
Definition any_addr (port : Z) : list Z :=
  [AF_INET; 0; Z.shiftr (u16 port) 8; Z.land port 255] ++ replicate 12 0.

(** [tv_sec] and [tv_usec] for a time in milliseconds; C division truncates. *)
Definition timeval (ms : Z) : Z * Z := (Z.quot ms 1000, Z.rem ms 1000 * 1000).

(** A payload of [lpp_arc_alloc(size)]: [calloc] of the header (24 bytes) and the size, in [size_t]. *)
Definition arc_payload (al : allocator) (n : nat) (size : Z) : outcome (option (list Z)) :=
  let total := u64 (24 + u64 size) in
  if negb (al n total) then Ok None
  else if total <? 24 then Undef else Ok (Some (replicate (Z.to_nat (total - 24)) 0)).

Definition FD_SETSIZE : Z := 1024.
Definition O_NONBLOCK : Z := 2048.

Section net.
Context {K : Type} `{SocketApi K}.

(** The table and the operating system. *)
Record net := mk_net { table : list Z; os : K }.
Definition set_os (n : net) (k : K) : net := mk_net (table n) k.

(** The last lines of the calls that open: a handle for [sock], if there is one. *)
Definition stored (n : net) (sock : Z) : outcome (Z * net) :=
  let! '(h, t) := lpp__socket_store (table n) sock in Ok (h, mk_net t (os n)).

(** The loop over the addresses of a name; [-1] when none can be reached. *)
Fixpoint dial_loop (k : K) (rps : list addrinfo) : Z * K :=
  match rps with
  | [] => (LPP_INVALID_SOCKET, k)
  | rp :: rest =>
      let '(sock, k) := socket k (ai_family rp) (ai_socktype rp) (ai_protocol rp) in
      if sock =? LPP_INVALID_SOCKET then dial_loop k rest
      else
        let '(r, k) := connect k sock (ai_addr rp) in
        if r =? 0 then (sock, k) else dial_loop (close k sock) rest
  end.

Definition lpp_net_connect (n : net) (host : option cstr) (port : Z) : outcome (Z * net) :=
  match host with
  | None => Ok (0, n)
  | Some host =>
      match getaddrinfo (os n) host (Some (fmt_lld port)) AF_UNSPEC SOCK_STREAM with
      | None => Ok (0, n)
      | Some result =>
          let '(sock, k) := dial_loop (os n) result in
          let n := set_os n k in
          if sock =? LPP_INVALID_SOCKET then Ok (0, n) else stored n sock
      end
  end.

Definition lpp_net_listen (n : net) (port : Z) : outcome (Z * net) :=
  let '(sock, k) := socket (os n) AF_INET SOCK_STREAM 0 in
  if sock =? LPP_INVALID_SOCKET then Ok (0, set_os n k)
  else
    let '(_, k) := setsockopt k sock (ReuseAddr 1) in
    let '(b, k) := bind k sock (any_addr port) in
    if negb (b =? 0) then Ok (0, set_os n (close k sock))
    else
      let '(l, k) := listen k sock 16 in
      if negb (l =? 0) then Ok (0, set_os n (close k sock)) else stored (set_os n k) sock.

Definition lpp_net_accept (n : net) (listener : Z) : outcome (Z * net) :=
  let! server := lpp__socket_load (table n) listener in
  if server =? LPP_INVALID_SOCKET then Ok (0, n)
  else
    let '(client, k) := accept (os n) server in
    if client =? LPP_INVALID_SOCKET then Ok (0, set_os n k) else stored (set_os n k) client.

(** [while (sent_total < length)]: a round sends a byte or ends the loop. *)
Fixpoint send_all_loop (fuel : nat) (k : K) (sock : Z) (data : cstr) (sent_total : Z) : outcome (Z * K) :=
  match fuel with
  | O => NoFuel
  | S fuel =>
      if sent_total <? slen data then
        let '(sent, k) := send k sock (drop (Z.to_nat sent_total) data) in
        if sent <=? 0 then Ok (-1, k) else send_all_loop fuel k sock data (sent_total + sent)
      else Ok (sent_total, k)
  end.
Definition lpp_net_send_all (n : net) (handle : Z) (data : option cstr) : outcome (Z * net) :=
  let! sock := lpp__socket_load (table n) handle in
  match data with
  | None => Ok (-1, n)
  | Some data =>
      if sock =? LPP_INVALID_SOCKET then Ok (-1, n)
      else let! '(r, k) := send_all_loop (S (length data)) (os n) sock data 0 in Ok (r, set_os n k)
  end.
Definition lpp_net_send (n : net) (handle : Z) (data : option cstr) : outcome (Z * net) := lpp_net_send_all n handle data.

(** [setsockopt(a) == 0 && setsockopt(b) == 0]. *)
Definition lpp_net_set_timeout (n : net) (handle milliseconds : Z) : outcome (Z * net) :=
  let! sock := lpp__socket_load (table n) handle in
  if (sock =? LPP_INVALID_SOCKET) || (milliseconds <=? 0) then Ok (0, n)
  else
    let '(tv_sec, tv_usec) := timeval milliseconds in
    let '(r, k) := setsockopt (os n) sock (RcvTimeo tv_sec tv_usec) in
    if r =? 0 then
      let '(r, k) := setsockopt k sock (SndTimeo tv_sec tv_usec) in Ok (b2z (r =? 0), set_os n k)
    else Ok (0, set_os n k).

Definition lpp_net_set_nonblocking (n : net) (handle enable : Z) : outcome (Z * net) :=
  let! sock := lpp__socket_load (table n) handle in
  if sock =? LPP_INVALID_SOCKET then Ok (0, n)
  else
    let flags := getfl (os n) sock in
    if flags <? 0 then Ok (0, n)
    else
      let flags := if enable =? 0 then Z.land flags (Z.lnot O_NONBLOCK) else Z.lor flags O_NONBLOCK in
      let '(r, k) := setfl (os n) sock flags in Ok (b2z (r =? 0), set_os n k).

(** [FD_SET] writes outside the set for a descriptor of [FD_SETSIZE] or more. *)
Definition lpp_net_poll (n : net) (handle timeout_ms : Z) : outcome (Z * net) :=
  let! sock := lpp__socket_load (table n) handle in
  if sock =? LPP_INVALID_SOCKET then Ok (0, n)
  else if sock >=? FD_SETSIZE then Undef
  else
    let '(tv_sec, tv_usec) := timeval timeout_ms in
    let '(res, k) := select (os n) sock tv_sec tv_usec in Ok (b2z (res >? 0), set_os n k).

(** [empty[0] = '\0'] on the one-byte block. *)
Definition empty_payload (al : allocator) (k : nat) : outcome (option cstr) := fresh_str al k 1 (fun d => wr d 0 0).

(** [max_bytes] is cut to an [int]; the length passed to [recv] is that [int] as a [size_t].  A [recv]
    that stores more than the block holds is undefined. *)
Definition lpp_net_recv (al : allocator) (n : net) (handle max_bytes : Z) : outcome (option cstr * net) :=
  let! sock := lpp__socket_load (table n) handle in
  if (sock =? LPP_INVALID_SOCKET) || (max_bytes <=? 0) then let! e := empty_payload al 0 in Ok (e, n)
  else
    let size := i32 max_bytes in
    let! p := arc_payload al 0 (i64 (u64 (u64 size + 1))) in
    match p with
    | None => Ok (None, n)
    | Some buf =>
        let '(received, bytes, k) := recv (os n) sock (u64 size) in
        let n := set_os n k in
        let! buf := memcpy buf 0 bytes 0 (Z.of_nat (length bytes)) in
        let! buf := wr buf (if received <=? 0 then 0 else received) 0 in
        Ok (Some (until_nul buf), n)
    end.

Definition lpp_net_close (n : net) (handle : Z) : outcome net :=
  let! sock := lpp__socket_load (table n) handle in
  if sock =? LPP_INVALID_SOCKET then Ok n
  else
    let k := close (shutdown (os n) sock) sock in
    let! t := lpp__socket_clear (table n) handle in Ok (mk_net t k).

(** ** Dialling, datagrams, deadlines, names *)

Definition lpp_net_strdup_impl (al : allocator) (k : nat) (s : cstr) : outcome (option cstr) :=
  fresh_str al k (slen s + 1) (fun d => let! d := memcpy d 0 s 0 (slen s) in wr d (slen s) 0).

(** The body of [lpp_net_dial] and [lpp_net_dial_udp]. *)
Definition dial_as (socktype : Z) (n : net) (host : option cstr) (port timeout_ms : Z) : outcome (Z * net) :=
  match host with
  | None => Ok (0, n)
  | Some host =>
      if (port <? 1) || (port >? 65535) then Ok (0, n)
      else
        match getaddrinfo (os n) host (Some (fmt_lld port)) AF_UNSPEC socktype with
        | None => Ok (0, n)
        | Some result =>
            let '(sock, k) := dial_loop (os n) result in
            let n := set_os n k in
            if sock =? LPP_INVALID_SOCKET then Ok (0, n)
            else
              let! '(handle, n) := stored n sock in
              let! n := (if timeout_ms >? 0 then
                           let! '(_, n) := lpp_net_set_timeout n handle timeout_ms in Ok n
                         else Ok n) in
              Ok (handle, n)
        end
  end.
Definition lpp_net_dial : net -> option cstr -> Z -> Z -> outcome (Z * net) := dial_as SOCK_STREAM.
Definition lpp_net_dial_udp : net -> option cstr -> Z -> Z -> outcome (Z * net) := dial_as SOCK_DGRAM.

Definition lpp_net_listen_udp (n : net) (port : Z) : outcome (Z * net) :=
  let '(sock, k) := socket (os n) AF_INET SOCK_DGRAM 0 in
  if sock =? LPP_INVALID_SOCKET then Ok (0, set_os n k)
  else
    let '(b, k) := bind k sock (any_addr port) in
    if negb (b =? 0) then Ok (0, set_os n (close k sock)) else stored (set_os n k) sock.

Definition lpp_net_accept_timeout (n : net) (listener timeout_ms : Z) : outcome (Z * net) :=
  let! server := lpp__socket_load (table n) listener in
  if server =? LPP_INVALID_SOCKET then Ok (0, n)
  else
    let k := (if timeout_ms >? 0 then
                let '(s, u) := timeval timeout_ms in (setsockopt (os n) server (RcvTimeo s u)).2
              else os n) in
    let '(client, k) := accept k server in
    if client =? LPP_INVALID_SOCKET then Ok (0, set_os n k) else stored (set_os n k) client.

Definition lpp_net_set_deadline (n : net) (fd read_ms write_ms : Z) : outcome (Z * net) :=
  let! sock := lpp__socket_load (table n) fd in
  if sock =? LPP_INVALID_SOCKET then Ok (0, n)
  else
    let '(ok1, k) := (if read_ms >=? 0 then
                        let '(s, u) := timeval read_ms in
                        let '(r, k) := setsockopt (os n) sock (RcvTimeo s u) in (negb (r <? 0), k)
                      else (true, os n)) in
    let '(ok2, k) := (if write_ms >=? 0 then
                        let '(s, u) := timeval write_ms in
                        let '(r, k) := setsockopt k sock (SndTimeo s u) in (negb (r <? 0), k)
                      else (true, k)) in
    Ok (b2z (ok1 && ok2), set_os n k).

Definition lpp_net_set_keepalive (n : net) (fd enable idle_s interval count : Z) : outcome (Z * net) :=
  let! sock := lpp__socket_load (table n) fd in
  if sock =? LPP_INVALID_SOCKET then Ok (0, n)
  else
    let '(r, k) := setsockopt (os n) sock (KeepAlive (if enable =? 0 then 0 else 1)) in
    Ok (b2z (r =? 0), set_os n k).

(** [inet_ntop(AF_INET, ...)] of the four address bytes of a [sockaddr_in]. *)
Definition dotted (addr : list Z) : outcome cstr :=
  let! a := rd addr 4 in let! b := rd addr 5 in let! c := rd addr 6 in let! d := rd addr 7 in
  Ok (fmt_lld a ++ [46] ++ fmt_lld b ++ [46] ++ fmt_lld c ++ [46] ++ fmt_lld d).

Definition lpp_net_resolve (al : allocator) (n : net) (host : option cstr) : outcome (option cstr) :=
  match host with
  | None | Some [] => lpp_net_strdup_impl al 0 []
  | Some host =>
      match getaddrinfo (os n) host None AF_INET SOCK_STREAM with
      | None | Some [] => lpp_net_strdup_impl al 0 []
      | Some (result :: _) => let! ip := dotted (ai_addr result) in lpp_net_strdup_impl al 0 ip
      end
  end.

Definition lpp_net_recv_udp (al : allocator) (n : net) (fd max_bytes : Z) : outcome (option cstr * net) := lpp_net_recv al n fd max_bytes.
End net.
Arguments net : clear implicits.
Arguments mk_net {K} _ _.

(** ** The calls of a program *)

Inductive call :=
| Connect (host : option cstr) (port : Z) | Listen (port : Z) | Accept (listener : Z)
| Dial (host : option cstr) (port timeout_ms : Z) | DialUdp (host : option cstr) (port timeout_ms : Z)
| ListenUdp (port : Z) | AcceptTimeout (listener timeout_ms : Z)
| SendAll (handle : Z) (data : option cstr) | Recv (handle max_bytes : Z) | Poll (handle timeout_ms : Z)
| SetTimeout (handle milliseconds : Z) | SetNonblocking (handle enable : Z)
| SetDeadline (handle read_ms write_ms : Z) | SetKeepalive (handle enable idle_s interval count : Z)
| Close (handle : Z).

Section run.
Context {K : Type} `{SocketApi K} (al : allocator).

Definition run (n : net K) (c : call) : outcome (Z * net K) :=
  match c with
  | Connect h p => lpp_net_connect n h p
  | Listen p => lpp_net_listen n p
  | Accept l => lpp_net_accept n l
  | Dial h p t => lpp_net_dial n h p t
  | DialUdp h p t => lpp_net_dial_udp n h p t
  | ListenUdp p => lpp_net_listen_udp n p
  | AcceptTimeout l t => lpp_net_accept_timeout n l t
  | SendAll h d => lpp_net_send_all n h d
  | Recv h m => let! '(_, n) := lpp_net_recv al n h m in Ok (0, n)
  | Poll h t => lpp_net_poll n h t
  | SetTimeout h m => lpp_net_set_timeout n h m
  | SetNonblocking h e => lpp_net_set_nonblocking n h e
  | SetDeadline h r w => lpp_net_set_deadline n h r w
  | SetKeepalive h e i t c => lpp_net_set_keepalive n h e i t c
  | Close h => let! n := lpp_net_close n h in Ok (0, n)
  end.

Definition is_open (c : call) : bool :=
  match c with
  | Connect _ _ | Listen _ | Accept _ | Dial _ _ _ | DialUdp _ _ _ | ListenUdp _ | AcceptTimeout _ _ => true
  | _ => false
  end.

(** Handle [h] stands for the socket [s]. *)
Definition holds (n : net K) (h s : Z) : Prop := 0 < h /\ table n !! Z.to_nat (h - 1) = Some s /\ s <> 0.

(** What a program owes the table: an entry is free when it opens, it closes no handle that is closed or
    was never given out, polls no descriptor beyond an [fd_set] and asks for less than 2 GB. *)
Definition allowed (n : net K) (c : call) : Prop :=
  match c with
  | Close h => 0 < h <= 256 -> exists s, holds n h s
  | Poll h _ => forall s, holds n h s -> s < FD_SETSIZE
  | Recv _ m => m < 2 ^ 31
  | _ => is_open c = true -> 0 ∈ table n
  end.

(** The table is well formed for the descriptors [base] the program had before: a socket is in at most
    one entry, and the descriptors of the process are those of [base] and the sockets of the table. *)
Record net_ok (base : gset Z) (n : net K) : Prop := {
  ok_length : length (table n) = 256%nat;
  ok_stdin : 0 ∈ base;
  ok_nonneg : forall i s, table n !! i = Some s -> 0 <= s;
  ok_once : forall i j s, table n !! i = Some s -> table n !! j = Some s -> s <> 0 -> i = j;
  ok_apart : forall i s, table n !! i = Some s -> s <> 0 -> s ∉ base;
  ok_open : forall s, s ∈ descriptors (os n) <-> s ∈ base \/ (s <> 0 /\ exists i, table n !! i = Some s)
}.

Inductive session : net K -> list call -> net K -> Prop :=
| session_nil n : session n [] n
| session_cons n c r n' cs n'' : allowed n c -> run n c = Ok (r, n') -> session n' cs n'' -> session n (c :: cs) n''.

Definition fresh_net (k : K) : net K := mk_net (replicate 256 0) k.
End run.

(** ** Lemmas *)

Lemma store_loop_spec sock m : forall (t : list Z) (i : nat), length t = (i + m)%nat -> Forall (fun s => 0 <= s) t ->
  (exists j, t !! j = Some 0 /\ (i <= j < i + m)%nat /\ store_loop m t (Z.of_nat i) sock = Ok (Z.of_nat j + 1, <[j := sock]> t)) \/
  ((forall j, (i <= j)%nat -> t !! j <> Some 0) /\ store_loop m t (Z.of_nat i) sock = Ok (0, t)).
Proof.
  induction m as [|m IH]; intros t i Hl Ht; cbn [store_loop].
  - right. split; [|done]. intros j Hj Hs. apply lookup_lt_Some in Hs. lia.
  - destruct (lookup_lt_is_Some_2 t i ltac:(lia)) as [e He].
   rewrite (rd_ok t _ e) by (rewrite ?Nat2Z.id; done || lia). cbn [obind].
    pose proof (proj1 (Forall_lookup _ _) Ht _ _ He) as Hpos. cbn beta in Hpos. unfold LPP_INVALID_SOCKET.
    rewrite (proj2 (Z.eqb_neq e (-1))), orb_false_r by lia.
    destruct (Z.eqb_spec e 0) as [->|Hne].
    + left. exists i. rewrite (wr_ok t _ sock) by (apply lookup_lt_Some in He; lia). rewrite Nat2Z.id. cbn [obind]. repeat split; [done|lia|lia].
    + replace (Z.of_nat i + 1) with (Z.of_nat (S i)) by lia.
      destruct (IH t (S i) ltac:(lia) Ht) as [(j & Hj & Hr & E)|[Hno E]].
      * left. exists j. repeat split; [done|lia|lia|exact E].
      * right. split; [|exact E]. intros j Hj. destruct (decide (i = j)) as [->|]; [congruence|apply Hno; lia].
Qed.

Section sound.
Context {K : Type} `{SocketLaws K} (base : gset Z).
Implicit Types n : net K.

(** A call that changes neither the table nor the set of descriptors. *)
Definition kept n n' : Prop := table n' = table n /\ descriptors (os n') = descriptors (os n).

(** A call that fails, or fills a free entry with a new socket. *)
Definition opened n (r : Z) n' : Prop :=
  (r = 0 /\ kept n n') \/
  (exists i s, r = Z.of_nat i + 1 /\ table n !! i = Some 0 /\ table n' = <[i := s]> (table n) /\
    0 <= s /\ (s ∉ descriptors (os n)) /\ descriptors (os n') = {[s]} ∪ descriptors (os n)).

Lemma net_kept_trans n1 n2 n3 : kept n1 n2 -> kept n2 n3 -> kept n1 n3.
Proof. intros [? ?] [? ?]. split; congruence. Qed.

Lemma kept_os n k : descriptors k = descriptors (os n) -> kept n (set_os n k).
Proof. by split. Qed.

Lemma kept_ok n n' : net_ok base n -> kept n n' -> net_ok base n'.
Proof. intros [] [Ht Hd]. split; rewrite ?Ht, ?Hd; done. Qed.

Lemma opened_kept n n1 r n2 : kept n n1 -> opened n1 r n2 -> opened n r n2.
Proof.
  intros Hk [[-> Hk']|(i & s & ? & ? & ? & ? & ? & ?)]; [left; eauto using net_kept_trans|].
  destruct Hk as [Ht Hd]. right. exists i, s. rewrite <- Ht, <- Hd. done.
Qed.

Lemma opened_then_kept n r n1 n2 : opened n r n1 -> kept n1 n2 -> opened n r n2.
Proof.
  intros [[-> Hk]|(i & s & ? & ? & ? & ? & ? & ?)] Hk'; [left; eauto using net_kept_trans|].
  destruct Hk' as [Ht Hd]. right. exists i, s. rewrite Ht, Hd. done.
Qed.

Lemma opened_ok n r n' : net_ok base n -> opened n r n' -> net_ok base n'.
Proof.
  intros Hok [[_ Hk]|(i & s & _ & Hi & Ht & Hs & Hfresh & Hd)]; [by eapply kept_ok|].
  pose proof Hok as [Hl Hz Hpos Honce Hap Hopen].
  assert (Hb : s ∉ base) by (intros ?; apply Hfresh, Hopen; auto).
  assert (Hs0 : s <> 0) by (intros ->; done).
  assert (Hnew : forall j x, table n !! j = Some x -> x <> 0 -> x <> s)
    by (intros j x Hj Hx ->; apply Hfresh, Hopen; eauto).
  assert (Hlk : forall j x, table n' !! j = Some x -> (j = i /\ x = s) \/ (j <> i /\ table n !! j = Some x)).
  { intros j x. rewrite Ht. intros [(-> & -> & _)|[? ?]]%list_lookup_insert_Some; auto. }
  assert (Hii : table n' !! i = Some s) by (rewrite Ht; apply list_lookup_insert_eq; eapply lookup_lt_Some; eauto).
  split.
  - by rewrite Ht, length_insert.
  - done.
  - intros j x [[-> ->]|[_ Hj]]%Hlk; [done|eauto].
  - intros j1 j2 x [[-> ->]|[? ?]]%Hlk [[-> E]|[? ?]]%Hlk Hx; subst; try done; [exfalso; eapply Hnew; eauto..|eauto].
  - intros j x [[-> ->]|[? ?]]%Hlk Hx; [done|eauto].
  - intros x. rewrite Hd, elem_of_union, elem_of_singleton, Hopen. split.
    + intros [->|[?|(? & j & Hj)]]; eauto. right. split; [done|]. exists j. rewrite Ht, list_lookup_insert_ne; [done|]. congruence.
    + intros [?|(? & j & [[-> ->]|[? ?]]%Hlk)]; eauto 6.
Qed.

(** A socket that has just been opened gets a handle. *)
Lemma stored_opened n k (s : Z) : net_ok base n -> 0 ∈ table n -> 0 <= s -> s ∉ descriptors (os n) ->
  descriptors k = {[s]} ∪ descriptors (os n) ->
  exists r n', stored (set_os n k) s = Ok (r, n') /\ opened n r n' /\ r <> 0.
Proof.
  intros Hok [i0 Hfree]%list_elem_of_lookup Hs Hfresh Hd. unfold stored, set_os, lpp__socket_store. cbn [table os].
  destruct (store_loop_spec s 256 (table n) 0) as [(j & Hj & _ & E)|[Hno _]].
  - by rewrite (ok_length _ _ Hok).
  - apply Forall_lookup. apply (ok_nonneg _ _ Hok).
  - change (Z.of_nat 0) with 0 in E. rewrite E. cbn [obind]. do 2 eexists. split; [reflexivity|]. split; [|lia]. right. exists j, s. cbn [table os]. done.
  - exfalso. by apply (Hno i0 ltac:(lia)).
Qed.

Definition defined_opened n (m : outcome (Z * net K)) : Prop := exists r n', m = Ok (r, n') /\ opened n r n'.
Definition defined_kept n (m : outcome (Z * net K)) : Prop := exists r n', m = Ok (r, n') /\ kept n n'.

Lemma fail_opened n k : descriptors k = descriptors (os n) -> defined_opened n (Ok (0, set_os n k)).
Proof. intros. do 2 eexists. split; [done|]. left. by split; [|apply kept_os]. Qed.

Lemma fail_id n : defined_opened n (Ok (0, n)).
Proof. do 2 eexists. split; [done|]. by left. Qed.

Lemma store_opened n k s : net_ok base n -> 0 ∈ table n -> 0 <= s -> s ∉ descriptors (os n) ->
  descriptors k = {[s]} ∪ descriptors (os n) -> defined_opened n (stored (set_os n k) s).
Proof. intros. destruct (stored_opened n k s) as (r & n' & E & Ho & _); eauto. exists r, n'. by split. Qed.

Lemma closed_again (d : gset Z) s : s ∉ d -> ({[s]} ∪ d) ∖ {[s]} = d.
Proof. set_solver. Qed.

(** No attempt of the loop leaves a socket open except the one it returns. *)
Lemma dial_loop_opens rps : forall k, opens k (dial_loop k rps).
Proof.
  induction rps as [|rp rps IH]; intros k; cbn [dial_loop]; [by left|].
  pose proof (socket_opens k (ai_family rp) (ai_socktype rp) (ai_protocol rp)) as Ho.
  destruct (socket k _ _ _) as [s k1]. unfold opens in Ho. cbn [fst snd] in Ho. unfold LPP_INVALID_SOCKET.
  assert (Hchain : forall k2, descriptors k2 = descriptors k -> opens k (dial_loop k2 rps))
    by (intros k2 E; unfold opens; rewrite <- E; apply IH).
  destruct Ho as [[-> Hd]|(Hs & Hf & Hd)]; [by apply Hchain|].
  rewrite (proj2 (Z.eqb_neq s (-1))) by lia.
  pose proof (connect_keeps k1 s (ai_addr rp)) as Hc. destruct (connect k1 s (ai_addr rp)) as [r k2]. cbn [snd] in Hc.
  destruct (r =? 0); [right; cbn [fst snd]; by rewrite Hc|].
  apply Hchain. by rewrite close_closes, Hc, Hd, closed_again.
Qed.

Lemma load_spec n h : net_ok base n -> exists s, lpp__socket_load (table n) h = Ok s /\
  ((s = -1 /\ ~ (0 < h <= 256)) \/ (0 < h <= 256 /\ table n !! Z.to_nat (h - 1) = Some s /\ 0 <= s)).
Proof.
  intros Hok. unfold lpp__socket_load.
  destruct ((h <=? 0) || (h >? 256)) eqn:E; bool_to_prop; [exists (-1); split; [done|left; split; [done|lia]]|].
  destruct (lookup_lt_is_Some_2 (table n) (Z.to_nat (h - 1))) as [s Hs]; [rewrite (ok_length _ _ Hok); lia|].
  exists s. rewrite (rd_ok _ _ s) by (done || lia). split; [done|]. right. split; [lia|]. split; [done|]. by eapply ok_nonneg.
Qed.

(** Loads the socket of [h], with the case of a bad handle out of the way by [fail]. *)
Ltac load_handle Hok h s Hs fail :=
  let E := fresh "E" in
  destruct (load_spec _ h Hok) as (s & E & [[-> Hs]|Hs]); rewrite E; cbn [obind];
  [apply fail | unfold LPP_INVALID_SOCKET; rewrite ?(proj2 (Z.eqb_neq s (-1))) by lia].

Lemma keep_id n r : defined_kept n (Ok (r, n)).
Proof. by exists r, n. Qed.
Lemma keep_os n r k : descriptors k = descriptors (os n) -> defined_kept n (Ok (r, set_os n k)).
Proof. intros. exists r, (set_os n k). by split; [|apply kept_os]. Qed.

(** Runs the next call of the system, keeping what it says about descriptors. *)
Ltac sys_call :=
  match goal with
  | |- context [setsockopt ?k ?s ?o] =>
      let X := fresh "Hd" in pose proof (setsockopt_keeps k s o) as X; destruct (setsockopt k s o) as [? ?]; cbn [snd] in X
  | |- context [setfl ?k ?s ?f] =>
      let X := fresh "Hd" in pose proof (setfl_keeps k s f) as X; destruct (setfl k s f) as [? ?]; cbn [snd] in X
  | |- context [select ?k ?s ?a ?b] =>
      let X := fresh "Hd" in pose proof (select_keeps k s a b) as X; destruct (select k s a b) as [? ?]; cbn [snd] in X
  | |- context [bind ?k ?s ?a] =>
      let X := fresh "Hd" in pose proof (bind_keeps k s a) as X; destruct (bind k s a) as [? ?]; cbn [snd] in X
  | |- context [listen ?k ?s ?a] =>
      let X := fresh "Hd" in pose proof (listen_keeps k s a) as X; destruct (listen k s a) as [? ?]; cbn [snd] in X
  end.

Lemma set_timeout_keeps n h ms : net_ok base n -> defined_kept n (lpp_net_set_timeout n h ms).
Proof.
  intros Hok. unfold lpp_net_set_timeout. load_handle Hok h s Hs keep_id. cbn [orb].
  destruct (ms <=? 0); [apply keep_id|]. unfold timeval. sys_call.
  destruct (_ =? 0); [sys_call|]; apply keep_os; congruence.
Qed.

Lemma set_nonblocking_keeps n h e : net_ok base n -> defined_kept n (lpp_net_set_nonblocking n h e).
Proof.
  intros Hok. unfold lpp_net_set_nonblocking. load_handle Hok h s Hs keep_id.
  destruct (_ <? 0); [apply keep_id|]. sys_call. by apply keep_os.
Qed.

Lemma set_deadline_keeps n h r w : net_ok base n -> defined_kept n (lpp_net_set_deadline n h r w).
Proof.
  intros Hok. unfold lpp_net_set_deadline. load_handle Hok h s Hs keep_id. unfold timeval.
  destruct (r >=? 0); repeat sys_call; destruct (w >=? 0); repeat sys_call; apply keep_os; congruence.
Qed.

Lemma set_keepalive_keeps n h e i t c : net_ok base n -> defined_kept n (lpp_net_set_keepalive n h e i t c).
Proof. intros Hok. unfold lpp_net_set_keepalive. load_handle Hok h s Hs keep_id. sys_call. by apply keep_os. Qed.

Lemma poll_keeps n h t : net_ok base n -> (forall s, holds n h s -> s < FD_SETSIZE) -> defined_kept n (lpp_net_poll n h t).
Proof.
  intros Hok Hfd. unfold lpp_net_poll. load_handle Hok h s Hs keep_id.
  assert (s < FD_SETSIZE). { destruct (decide (s = 0)) as [->|]; [done|]. apply Hfd. destruct Hs as (? & ? & ?). repeat split; [lia|done|done]. }
  rewrite Z.geb_leb, (proj2 (Z.leb_gt _ _)) by done. unfold timeval. sys_call. by apply keep_os.
Qed.

(** The bytes still to send go out in order: [data] when the loop returns its length, a prefix otherwise. *)
Lemma send_all_loop_spec sock data : forall fuel k total, (Z.to_nat (slen data - total) < fuel)%nat -> 0 <= total <= slen data ->
  exists r k' (m : nat), send_all_loop fuel k sock data total = Ok (r, k') /\ descriptors k' = descriptors k /\
    (Z.to_nat total + m <= length data)%nat /\
    outgoing k' sock = outgoing k sock ++ take m (drop (Z.to_nat total) data) /\
    (forall s, s <> sock -> outgoing k' s = outgoing k s) /\
    (r = slen data /\ (Z.to_nat total + m)%nat = length data \/ r = -1).
Proof.
  induction fuel as [|fuel IH]; intros k total Hf Ht; [lia|]. cbn [send_all_loop]. unfold slen in *.
  destruct (Z.ltb_spec total (Z.of_nat (length data))).
  2: { exists total, k, 0%nat. rewrite take_0, app_nil_r. repeat split; lia || (left; lia). }
  pose proof (send_keeps k sock (drop (Z.to_nat total) data)) as Hk.
  pose proof (send_moves k sock (drop (Z.to_nat total) data)) as Hm.
  destruct (send k sock _) as [n k1]. cbn [snd] in Hk. destruct Hm as (Hn & Hout & Hoth). rewrite length_drop in Hn.
  destruct (Z.leb_spec n 0).
  - exists (-1), k1, 0%nat. rewrite Hout. replace (Z.to_nat n) with 0%nat by lia. repeat split; [done|lia|done|by right].
  - destruct (IH k1 (total + n)) as (r & k2 & m & E & Hk2 & Hle & Hout2 & Hoth2 & Hr); [lia|lia|].
    exists r, k2, (Z.to_nat n + m)%nat. rewrite E. split; [done|]. split; [congruence|].
    replace (Z.to_nat (total + n)) with (Z.to_nat total + Z.to_nat n)%nat in * by lia. split; [lia|].
    split; [|split; [intros s Hs; rewrite Hoth2, Hoth; done|lia]].
    rewrite Hout2, Hout, <- app_assoc, <- drop_drop. f_equal. apply take_take_drop.
Qed.

Lemma send_all_keeps n h d : net_ok base n -> defined_kept n (lpp_net_send_all n h d).
Proof.
  intros Hok. unfold lpp_net_send_all. destruct d as [d|].
  2: { destruct (load_spec _ h Hok) as (s & -> & _). apply keep_id. }
  load_handle Hok h s Hs keep_id. unfold slen.
  destruct (send_all_loop_spec s d (S (length d)) (os n) 0) as (r & k & m & -> & Hk & _); [unfold slen; lia..|].
  cbn [obind]. by apply keep_os.
Qed.

Lemma memcpy_front (d b : list Z) : (length b <= length d)%nat -> Z.of_nat (length d) < 2 ^ 64 ->
  memcpy d 0 b 0 (Z.of_nat (length b)) = Ok (b ++ drop (length b) d).
Proof. intros. rewrite memcpy_in by lia. cbn [Z.to_nat take app]. by rewrite drop_0, firstn_all. Qed.

Lemma recv_keeps_net al n h m : net_ok base n -> m < 2 ^ 31 ->
  exists r n', lpp_net_recv al n h m = Ok (r, n') /\ kept n n'.
Proof.
  intros Hok Hm. unfold lpp_net_recv, empty_payload, fresh_str.
  destruct (load_spec _ h Hok) as (s & -> & Hs). cbn [obind].
  destruct (_ || _) eqn:Eb; [destruct (al 0%nat 1); cbn; eexists _, n; (split; [reflexivity|done])|].
  bool_to_prop. unfold i32. rewrite (swrap_id 32), (u64_id m) by (unfold swrap; lia). unfold arc_payload.
  rewrite (u64_id (m + 1)), i64_id, (u64_id (m + 1)), (u64_id (24 + (m + 1))) by (unfold INT64_MIN, INT64_MAX; lia).
  destruct (al 0%nat _); cbn [negb]; [|eexists None, n; (split; [reflexivity|done])].
  rewrite (proj2 (Z.ltb_ge _ 24)) by lia. cbn [obind].
  pose proof (recv_keeps (os n) s m) as Hk. pose proof (recv_count (os n) s m ltac:(lia)) as Hc.
  destruct (recv (os n) s m) as [[r bytes] k]. cbn [snd] in Hk. destruct Hc as [Hle Hr].
  rewrite memcpy_front by (rewrite length_replicate; lia). cbn [obind].
  rewrite wr_ok by (rewrite length_app, length_drop, length_replicate; destruct (Z.leb_spec r 0); lia).
  cbn [obind]. eexists _, _. split; [reflexivity|]. by apply kept_os.
Qed.

(** A receive hands over what arrived, up to its first NUL. *)
Lemma recv_exact al n h s m : net_ok base n -> holds n h s -> h <= 256 -> 0 < m < 2 ^ 31 -> (forall x, al 0%nat x = true) ->
  lpp_net_recv al n h m = let '(r, bytes, k) := recv (os n) s m in Ok (Some (until_nul bytes), set_os n k).
Proof.
  intros Hok (Hp & Hh & Hs0) Hle Hm Hal. unfold lpp_net_recv. pose proof (ok_nonneg _ _ Hok _ _ Hh).
  destruct (load_spec n h Hok) as (s' & -> & [[-> ?]|(_ & Hs & _)]); [lia|]. assert (s' = s) as -> by congruence. cbn [obind].
  unfold LPP_INVALID_SOCKET. rewrite (proj2 (Z.eqb_neq s (-1))), (proj2 (Z.leb_gt m 0)) by lia. cbn [orb].
  unfold i32. rewrite (swrap_id 32), (u64_id m) by lia. unfold arc_payload.
  rewrite (u64_id (m + 1)), i64_id, (u64_id (m + 1)), (u64_id (24 + (m + 1))), Hal by (unfold INT64_MIN, INT64_MAX; lia).
  cbn [negb]. rewrite (proj2 (Z.ltb_ge _ 24)) by lia. cbn [obind].
  pose proof (recv_count (os n) s m ltac:(lia)) as Hc. destruct (recv (os n) s m) as [[r bytes] k]. destruct Hc as [Hlen Hr].
  rewrite memcpy_front by (rewrite length_replicate; lia). cbn [obind]. rewrite drop_replicate.
  replace (if r <=? 0 then 0 else r) with (Z.of_nat (length bytes)).
  2: { destruct Hr as [->|[-> ->]]; [|done]. destruct (Z.leb_spec (Z.of_nat (length bytes)) 0); lia. }
  rewrite wr_ok by (rewrite length_app, length_replicate; lia). cbn [obind]. rewrite Nat2Z.id.
  do 3 f_equal. replace (Z.to_nat (24 + (m + 1) - 24) - length bytes)%nat with (S (Z.to_nat m - length bytes)) by lia.
  rewrite insert_app_r_alt, Nat.sub_diag by lia. apply until_nul_stop.
Qed.

(** ** Calls that open *)

(** What follows a call that opens: nothing on failure, [stored] or a close on success. *)
Lemma opens_cases n (r : Z * K) : opens (os n) r ->
  (r.1 = -1 /\ descriptors r.2 = descriptors (os n)) \/
  (0 <= r.1 /\ (r.1 =? LPP_INVALID_SOCKET) = false /\ (r.1 ∉ descriptors (os n)) /\ descriptors r.2 = {[r.1]} ∪ descriptors (os n)).
Proof.
  intros [?|(? & ? & ?)]; [by left|right]. repeat split; [done| |done|done]. apply Z.eqb_neq. unfold LPP_INVALID_SOCKET. lia.
Qed.

Lemma new_socket n d t p (body : Z -> K -> outcome (Z * net K)) : 
  (forall s k, 0 <= s -> s ∉ descriptors (os n) -> descriptors k = {[s]} ∪ descriptors (os n) -> defined_opened n (body s k)) ->
  defined_opened n (let '(s, k) := socket (os n) d t p in if s =? LPP_INVALID_SOCKET then Ok (0, set_os n k) else body s k).
Proof.
  intros Hb. pose proof (opens_cases n _ (socket_opens (os n) d t p)) as Ho.
  destruct (socket (os n) d t p) as [s k]. cbn [fst snd] in Ho.
  destruct Ho as [[-> Hd]|(Hs & -> & Hf & Hd)]; [by apply fail_opened|by apply Hb].
Qed.

Lemma new_client n srv k0 : net_ok base n -> 0 ∈ table n -> descriptors k0 = descriptors (os n) ->
  defined_opened n (let '(s, k) := accept k0 srv in if s =? LPP_INVALID_SOCKET then Ok (0, set_os n k) else stored (set_os n k) s).
Proof.
  intros Hok Hfree Hk0. pose proof (opens_cases (set_os n k0) _ (accept_opens k0 srv)) as Ho.
  destruct (accept k0 srv) as [s k]. cbn [fst snd set_os os] in Ho. rewrite Hk0 in Ho.
  destruct Ho as [[-> Hd]|(Hs & -> & Hf & Hd)]; [by apply fail_opened|by apply store_opened].
Qed.

Lemma fail_closed n k s : s ∉ descriptors (os n) -> descriptors k = {[s]} ∪ descriptors (os n) ->
  defined_opened n (Ok (0, set_os n (close k s))).
Proof. intros Hf Hd. apply fail_opened. rewrite close_closes, Hd. by apply closed_again. Qed.

Lemma listen_opens n port : net_ok base n -> 0 ∈ table n -> defined_opened n (lpp_net_listen n port).
Proof.
  intros Hok Hfree. unfold lpp_net_listen. apply new_socket. intros s k Hs Hf Hd.
  repeat sys_call. destruct (_ =? 0); cbn [negb]; [|apply fail_closed; congruence].
  destruct (_ =? 0); cbn [negb]; [apply store_opened|apply fail_closed]; congruence.
Qed.

Lemma listen_udp_opens n port : net_ok base n -> 0 ∈ table n -> defined_opened n (lpp_net_listen_udp n port).
Proof.
  intros Hok Hfree. unfold lpp_net_listen_udp. apply new_socket. intros s k Hs Hf Hd.
  sys_call. destruct (_ =? 0); cbn [negb]; [apply store_opened|apply fail_closed]; congruence.
Qed.

Lemma accept_timeout_opens n l t : net_ok base n -> 0 ∈ table n -> defined_opened n (lpp_net_accept_timeout n l t).
Proof.
  intros Hok Hfree. unfold lpp_net_accept_timeout. load_handle Hok l s Hs fail_id. unfold timeval.
  apply new_client; [done|done|]. destruct (t >? 0); [apply setsockopt_keeps|done].
Qed.

Lemma accept_opens_net n l : net_ok base n -> 0 ∈ table n -> defined_opened n (lpp_net_accept n l).
Proof. intros Hok Hfree. unfold lpp_net_accept. load_handle Hok l s Hs fail_id. by apply new_client. Qed.

(** The loop over the addresses, then [body]. *)
Lemma dialled n rps (body : Z -> K -> outcome (Z * net K)) :
  (forall s k, 0 <= s -> s ∉ descriptors (os n) -> descriptors k = {[s]} ∪ descriptors (os n) -> defined_opened n (body s k)) ->
  defined_opened n (let '(s, k) := dial_loop (os n) rps in if s =? LPP_INVALID_SOCKET then Ok (0, set_os n k) else body s k).
Proof.
  intros Hb. pose proof (opens_cases n _ (dial_loop_opens rps (os n))) as Ho.
  destruct (dial_loop (os n) rps) as [s k]. cbn [fst snd] in Ho.
  destruct Ho as [[-> Hd]|(Hs & -> & Hf & Hd)]; [by apply fail_opened|by apply Hb].
Qed.

Lemma connect_opens n h p : net_ok base n -> 0 ∈ table n -> defined_opened n (lpp_net_connect n h p).
Proof.
  intros Hok Hfree. unfold lpp_net_connect. destruct h as [h|]; [|apply fail_id].
  destruct (getaddrinfo _ _ _ _ _) as [rps|]; [|apply fail_id].
  apply (dialled n rps (fun s k => stored (set_os n k) s)). intros. by apply store_opened.
Qed.

Lemma dial_opens ty n h p t : net_ok base n -> 0 ∈ table n -> defined_opened n (dial_as ty n h p t).
Proof.
  intros Hok Hfree. unfold dial_as. destruct h as [h|]; [|apply fail_id].
  destruct (_ || _); [apply fail_id|]. destruct (getaddrinfo _ _ _ _ _) as [rps|]; [|apply fail_id].
  apply (dialled n rps (fun s k => let! '(handle, n0) := stored (set_os n k) s in
     let! n0 := (if t >? 0 then let! '(_, n1) := lpp_net_set_timeout n0 handle t in Ok n1 else Ok n0) in Ok (handle, n0))).
  intros s k Hs Hf Hd. destruct (store_opened n k s) as (r & n1 & -> & Ho); [done..|]. cbn [obind].
  destruct (t >? 0); cbn [obind]; [|by exists r, n1].
  destruct (set_timeout_keeps n1 r t) as (r' & n2 & -> & Hk); [by eapply opened_ok|].
  cbn [obind]. exists r, n2. split; [done|]. by eapply opened_then_kept.
Qed.

(** ** Closing *)

Lemma close_spec n h : net_ok base n ->
  (~ (0 < h <= 256) /\ lpp_net_close n h = Ok n) \/
  exists s, 0 < h <= 256 /\ table n !! Z.to_nat (h - 1) = Some s /\
    lpp_net_close n h = Ok (mk_net (<[Z.to_nat (h - 1) := 0]> (table n)) (close (shutdown (os n) s) s)).
Proof.
  intros Hok. unfold lpp_net_close. destruct (load_spec n h Hok) as (s & -> & [[-> Hs]|(Hh & Hs & Hp)]); cbn [obind]; [by left|].
  right. exists s. unfold LPP_INVALID_SOCKET. rewrite (proj2 (Z.eqb_neq s (-1))) by lia.
  unfold lpp__socket_clear. rewrite (proj2 (Z.gtb_lt _ _)), (proj2 (Z.leb_le _ _)) by lia. cbn [andb].
  rewrite wr_ok by (rewrite (ok_length _ _ Hok); lia). done.
Qed.

Lemma close_ok n h s : net_ok base n -> table n !! Z.to_nat (h - 1) = Some s -> s <> 0 ->
  net_ok base (mk_net (<[Z.to_nat (h - 1) := 0]> (table n)) (close (shutdown (os n) s) s)).
Proof.
  intros [Hl Hz Hpos Honce Hap Hopen] Hs Hs0.
  assert (Hlk : forall j x, <[Z.to_nat (h - 1) := 0]> (table n) !! j = Some x -> x <> 0 -> j <> Z.to_nat (h - 1) /\ table n !! j = Some x).
  { intros j x [(-> & <- & _)|[? ?]]%list_lookup_insert_Some; [done|]. split; congruence. }
  split; cbn [table os].
  - by rewrite length_insert.
  - done.
  - intros i x Hi. destruct (decide (x = 0)); [lia|]. apply Hlk in Hi as [_ Hi]; [eauto|done].
  - intros i j x Hi Hj Hx. apply Hlk in Hi as [_ Hi]; [|done]. apply Hlk in Hj as [_ Hj]; [|done]. eauto.
  - intros i x Hi Hx. apply Hlk in Hi as [_ Hi]; [eauto|done].
  - intros x. rewrite close_closes, shutdown_keeps, elem_of_difference, elem_of_singleton, Hopen. split.
    + intros [[?|(Hx & i & Hi)] Hxs]; [by left|right]. split; [done|]. exists i. rewrite list_lookup_insert_ne; [done|]. congruence.
    + intros [Hb|(Hx & i & Hi)].
      * split; [by left|]. intros ->. by apply (Hap _ _ Hs Hs0).
      * apply Hlk in Hi as [Hne Hi]; [|done]. split; [eauto|]. intros ->. apply Hne. eauto.
Qed.

(** ** Every call *)

Lemma holds_eq n n' h s : table n' = table n -> holds n h s -> holds n' h s.
Proof. intros E (? & ? & ?). unfold holds. rewrite E. done. Qed.

(** Opening a socket leaves the other handles alone, and its handle was not in use. *)
Lemma opened_holds n r n' : net_ok base n -> opened n r n' ->
  (forall h s, holds n h s -> holds n' h s) /\
  (r <> 0 -> 0 < r <= 256 /\ (forall s, ~ holds n r s) /\ exists s, holds n' r s /\ (s ∉ descriptors (os n)) /\ (s ∈ descriptors (os n'))).
Proof.
  intros Hok [[-> [Ht _]]|(i & s & -> & Hi & Ht & Hs & Hf & Hd)]; [by split; [intros h s; apply holds_eq|]|].
  pose proof (lookup_lt_Some _ _ _ Hi) as Hlt. rewrite (ok_length _ _ Hok) in Hlt.
  assert (Hs0 : s <> 0) by (intros ->; apply Hf, (ok_open _ _ Hok); left; apply (ok_stdin _ _ Hok)).
  unfold holds. rewrite Ht. split.
  - intros h x (? & Hx & ?). rewrite list_lookup_insert_ne; [done|]. intros ->. congruence.
  - intros _. split; [lia|]. replace (Z.to_nat (Z.of_nat i + 1 - 1)) with i by lia. split.
    + intros x (_ & Hx & Hx0). congruence.
    + exists s. rewrite list_lookup_insert_eq by (rewrite (ok_length _ _ Hok); lia). rewrite Hd. repeat split; [lia|done|done|set_solver].
Qed.

Lemma open_ok al n c : net_ok base n -> allowed n c -> is_open c = true -> defined_opened n (run al n c).
Proof.
  intros Hok Ha Hc. destruct c; try done; cbn [allowed] in Ha; specialize (Ha Hc); cbn [run].
  - by apply connect_opens.
  - by apply listen_opens.
  - by apply accept_opens_net.
  - by apply dial_opens.
  - by apply dial_opens.
  - by apply listen_udp_opens.
  - by apply accept_timeout_opens.
Qed.

Lemma use_ok al n c : net_ok base n -> allowed n c -> is_open c = false -> (forall h, c <> Close h) -> defined_kept n (run al n c).
Proof.
  intros Hok Ha Hc Hcl. destruct c; try done; cbn [run].
  - by apply send_all_keeps.
  - destruct (recv_keeps_net al n handle max_bytes Hok Ha) as (r & n' & -> & Hk). cbn [obind]. by exists 0, n'.
  - by apply poll_keeps.
  - by apply set_timeout_keeps.
  - by apply set_nonblocking_keeps.
  - by apply set_deadline_keeps.
  - by apply set_keepalive_keeps.
  - by destruct (Hcl handle).
Qed.

Lemma run_ok al n c : net_ok base n -> allowed n c -> exists r n', run al n c = Ok (r, n') /\ net_ok base n' /\
  (forall h s, holds n h s -> c <> Close h -> holds n' h s) /\
  (is_open c = true -> r <> 0 -> 0 < r <= 256 /\ (forall s, ~ holds n r s) /\ exists s, holds n' r s /\ (s ∉ descriptors (os n)) /\ (s ∈ descriptors (os n'))) /\
  (forall h s, c = Close h -> holds n h s -> h <= 256 -> forall s', ~ holds n' h s').
Proof.
  intros Hok Ha. destruct (is_open c) eqn:Hc.
  - destruct (open_ok al n c) as (r & n' & E & Ho); [done..|]. exists r, n'. destruct (opened_holds n r n') as [Hh Hr]; [done..|].
    split; [done|]. split; [by eapply opened_ok|]. split; [by auto|]. split; [done|]. intros h s ->. done.
  - assert (Hcl : (exists h, c = Close h) \/ forall h, c <> Close h) by (destruct c; naive_solver).
    destruct Hcl as [[h ->]|Hcl]; cbn [run].
    + destruct (close_spec n h Hok) as [[Hh ->]|(s & Hh & Hs & ->)]; cbn [obind].
      * exists 0, n. do 4 (split; [done|]). intros h' s [= <-] (? & ? & ?). lia.
      * cbn [allowed] in Ha. destruct (Ha Hh) as (s' & Hs'). assert (s' = s) as -> by (destruct Hs' as (_ & ? & _); congruence).
        eexists 0, _. split; [done|]. split; [apply close_ok; [done|done|by destruct Hs' as (_ & _ & ?)]|]. split; [|split; [done|]].
        -- intros h' x (? & ? & ?) Hne. repeat split; [done| |done]. cbn [table]. rewrite list_lookup_insert_ne; [done|].
           intros E. apply Hne. f_equal. lia.
        -- intros h' x [= <-] _ _ s' (_ & Hx & Hx0). cbn [table] in Hx.
           rewrite list_lookup_insert_eq in Hx by (rewrite (ok_length _ _ Hok); lia). congruence.
    + destruct (use_ok al n c) as (r & n' & E & [Ht Hd]); [done..|]. exists r, n'. split; [done|].
      split; [by eapply kept_ok|]. split; [intros h s Hh _; by eapply holds_eq|]. split; [done|]. naive_solver.
Qed.

Lemma session_ok al n cs n' : session al n cs n' -> net_ok base n -> net_ok base n' /\
  forall h s, holds n h s -> Close h ∉ cs -> holds n' h s.
Proof.
  induction 1 as [n|n c r n1 cs n2 Ha E _ IH]; intros Hok; [done|].
  destruct (run_ok al n c Hok Ha) as (r' & n1' & E' & Hok' & Hh & _). rewrite E in E'. simplify_eq.
  destruct (IH Hok') as [Hok2 Hh2]. split; [done|].
  intros h s Hs Hc. apply Hh2; [apply Hh; [done|]|]; intros ?; apply Hc; [subst; by left|by right].
Qed.

Lemma fresh_ok (k : K) : descriptors k = base -> 0 ∈ base -> net_ok base (fresh_net k).
Proof.
  intros Hd Hz. assert (Hr : forall i s, replicate 256 0 !! i = Some s -> s = 0) by (intros i s [-> _]%lookup_replicate; done).
  split; cbn [fresh_net table os]; [done|done|intros i s ->%Hr; lia|intros i j s ->%Hr; done|intros i s ->%Hr; done|].
  intros s. rewrite Hd. split; [by left|]. intros [?|(? & i & ?%Hr)]; done.
Qed.
End sound.

(** ** A small operating system

    For concrete runs: a name has an address that refuses and one that answers, and a send takes at most
    three bytes. *)

Record demo := mk_demo { used : list Z; outs : Z -> list Z }.
Definition demo_new (k : demo) : Z := 1 + foldr Z.max 0 (used k).
Definition demo_open (k : demo) : Z * demo := (demo_new k, mk_demo (demo_new k :: used k) (outs k)).

#[export] Instance demo_api : SocketApi demo := {
  descriptors k := list_to_set (used k);
  outgoing := outs;
  getaddrinfo _ host _ _ ty := match host with [] => None | _ => Some [mk_addrinfo AF_INET ty 0 []; mk_addrinfo AF_INET ty 0 (any_addr 80)] end;
  socket k _ _ _ := demo_open k;
  connect k _ a := (if (length a =? 0)%nat then -1 else 0, k);
  bind k _ _ := (0, k);
  listen k _ _ := (0, k);
  accept k _ := demo_open k;
  setsockopt k _ _ := (0, k);
  getfl _ _ := 2;
  setfl k _ _ := (0, k);
  select k _ _ _ := (1, k);
  send k s b := let n := Z.min 3 (Z.of_nat (length b)) in
    (n, mk_demo (used k) (fun x => if x =? s then outs k s ++ take (Z.to_nat n) b else outs k x));
  recv k _ n := let b := take (Z.to_nat n) [104; 105] in (Z.of_nat (length b), b, k);
  shutdown k _ := k;
  close k s := mk_demo (filter (fun x => x <> s) (used k)) (outs k)
}.

Lemma demo_bound l s : s ∈ l -> s < 1 + foldr Z.max 0 l.
Proof. induction 1 as [|? ? ? _ IH]; cbn [foldr]; lia. Qed.

Lemma demo_opens k : opens k (demo_open k).
Proof.
  right. unfold demo_open, demo_new, opens. cbn -[list_to_set]. split; [|split].
  - assert (0 <= foldr Z.max 0 (used k)) by (induction (used k); cbn; lia). lia.
  - intros Hs%elem_of_list_to_set%demo_bound. lia.
  - done.
Qed.

#[export] Instance demo_laws : SocketLaws demo.
Proof.
  split; try (intros; reflexivity).
  - intros. apply demo_opens.
  - intros. apply demo_opens.
  - intros k s. cbn. apply set_eq. intros x.
    rewrite elem_of_difference, elem_of_singleton, !elem_of_list_to_set, list_elem_of_filter. tauto.
  - intros k s n Hn. cbn -[take]. rewrite length_take. split; [lia|by left].
  - intros k s b. cbn -[take]. split; [lia|]. split.
    + rewrite Z.eqb_refl. done.
    + intros s' Hs. by rewrite (proj2 (Z.eqb_neq _ _)).
Qed.

Definition demo0 : demo := mk_demo [0; 1; 2] (fun _ => []).

(** ** Theorems *)

Section claims.
Context {K : Type} `{SocketLaws K}.

(** C12. The type of the handle table is kept.  In every state where each socket is in at most one
    entry and the descriptors of the process are those of [base] and the sockets of the table, every
    call of the program that is [allowed] there returns (no access leaves the table or a buffer) in
    such a state; a handle keeps its socket until it is closed, and the handle a call that opens
    returns was not in use and stands for a new socket.  A handle that was closed stands for nothing. *)
Theorem socket_table_typed (al : allocator) base (n : net K) c : net_ok base n -> allowed n c ->
  exists r n', run al n c = Ok (r, n') /\ net_ok base n' /\
  (forall h s, holds n h s -> c <> Close h -> holds n' h s) /\
  (is_open c = true -> r <> 0 ->
    0 < r <= 256 /\ (forall s, ~ holds n r s) /\ exists s, holds n' r s /\ (s ∉ descriptors (os n)) /\ (s ∈ descriptors (os n'))) /\
  (forall h s, c = Close h -> holds n h s -> h <= 256 -> forall s', ~ holds n' h s').
Proof. apply run_ok. Qed.

(** C13. No socket leaks over a session.  From the empty table, after any sequence of allowed calls two
    handles never stand for the same socket, every socket of the table is open, and once all handles
    are closed the process has exactly the descriptors it started with: the attempts of a dial that
    failed, listeners that could not bind and rejected names leave nothing behind. *)
Theorem sockets_are_accounted_for (al : allocator) k cs (n : net K) : 0 ∈ descriptors k -> session al (fresh_net k) cs n ->
  (forall h h' s, holds n h s -> holds n h' s -> h = h') /\
  (forall h s, holds n h s -> s ∈ descriptors (os n)) /\
  ((forall h s, ~ holds n h s) -> descriptors (os n) = descriptors k).
Proof.
  intros Hz Hs. destruct (session_ok (descriptors k) al _ _ _ Hs (fresh_ok _ k eq_refl Hz)) as [[Hl _ Hpos Honce Hap Hopen] _].
  split; [|split].
  - intros h h' s (Hp & Hh & Hs0) (Hp' & Hh' & _). pose proof (Honce _ _ _ Hh Hh' Hs0). lia.
  - intros h s (_ & Hh & Hs0). apply Hopen. eauto.
  - intros Hno. apply set_eq. intros s. rewrite Hopen. split; [|by left]. intros [?|(Hs0 & i & Hi)]; [done|].
    exfalso. apply (Hno (Z.of_nat i + 1) s). repeat split; [lia| |done]. by replace (Z.to_nat (Z.of_nat i + 1 - 1)) with i by lia.
Qed.

(** [lpp_net_send_all] transmits the whole string or reports failure, however the system cuts the
    transfer up: it returns the length of the string and the socket has taken exactly its bytes, in
    order, or -1 and the socket has taken a prefix of them; no other socket, and not the table, is
    touched. *)
Theorem send_all_exact base (n : net K) h s data : net_ok base n -> holds n h s -> h <= 256 ->
  exists r n' (m : nat), lpp_net_send_all n h (Some data) = Ok (r, n') /\ table n' = table n /\
    outgoing (os n') s = outgoing (os n) s ++ take m data /\
    (forall s', s' <> s -> outgoing (os n') s' = outgoing (os n) s') /\
    (r = slen data /\ take m data = data \/ r = -1).
Proof.
  intros Hok (Hp & Hh & Hs0) Hle. pose proof (ok_nonneg _ _ Hok _ _ Hh) as Hpos. unfold lpp_net_send_all, lpp__socket_load.
  rewrite (proj2 (Z.leb_gt h 0)), Z.gtb_ltb, (proj2 (Z.ltb_ge _ _)), (rd_ok _ _ s) by (done || lia). cbn [orb obind].
  unfold LPP_INVALID_SOCKET. rewrite (proj2 (Z.eqb_neq s (-1))) by lia.
  destruct (send_all_loop_spec s data (S (length data)) (os n) 0) as (r & k & m & -> & _ & Hm & Hout & Hoth & Hr); [unfold slen; lia..|].
  cbn [obind]. exists r, (set_os n k), m. cbn [Z.to_nat drop Nat.add] in *. rewrite drop_0 in Hout.
  repeat split; [done|done|]. destruct Hr as [[-> Hr]|Hr]; [left|by right]. split; [done|]. by apply take_ge; lia.
Qed.

(** A handle that has been closed, or was never given out, still names a descriptor: number 0.  Closing
    it closes the standard input of the process. *)
Theorem stale_handle_closes_stdin base (n : net K) h : net_ok base n -> 0 < h <= 256 -> (forall s, ~ holds n h s) ->
  exists n', lpp_net_close n h = Ok n' /\ 0 ∉ descriptors (os n').
Proof.
  intros Hok Hh Hno. destruct (close_spec base n h Hok) as [[Hbad _]|(s & _ & Hs & ->)]; [done|].
  eexists. split; [done|]. cbn [os]. assert (s = 0) as ->.
  { destruct (decide (s = 0)); [done|]. exfalso. apply (Hno s). split; [lia|done]. }
  rewrite close_closes. set_solver.
Qed.

(** When all 256 entries are taken a connection that succeeds is lost: the call returns 0, and the new
    socket stays open with no handle. *)
Theorem full_table_leaks base (n : net K) s : net_ok base n -> (forall i, table n !! i <> Some 0) ->
  exists n', stored n s = Ok (0, n') /\ os n' = os n /\ table n' = table n.
Proof.
  intros Hok Hfull. unfold stored, lpp__socket_store.
  destruct (store_loop_spec s 256 (table n) 0) as [(j & Hj & _)|[_ E]].
  - by rewrite (ok_length _ _ Hok).
  - apply Forall_lookup. apply (ok_nonneg _ _ Hok).
  - by destruct (Hfull j).
  - change (Z.of_nat 0) with 0 in E. rewrite E. cbn [obind]. by eexists.
Qed.
End claims.

(** ** The theorems at concrete inputs *)

(** Dial, send, accept nothing, close: the demo system is back where it began. *)
Definition demo_host : option cstr := Some [97; 46; 99].
Definition demo_calls : list call := [Dial demo_host 80 500; SendAll 1 (Some [72; 69; 76; 76; 79]); Listen 8080; Close 1].
Definition demo_al : allocator := fun _ _ => true.

Fixpoint run_all (n : net demo) (cs : list call) : outcome (net demo) :=
  match cs with [] => Ok n | c :: cs => let! '(_, n) := run demo_al n c in run_all n cs end.

Example demo_run : exists n, run_all (fresh_net demo0) demo_calls = Ok n /\ take 3 (table n) = [0; 4; 0] /\
  outs (os n) 3 = [72; 69; 76; 76; 79] /\ used (os n) = [4; 0; 1; 2].
Proof. eexists. split; [vm_compute; reflexivity|]. vm_compute. done. Qed.

Lemma demo_dial : exists n, session demo_al (fresh_net demo0) [Dial demo_host 80 500] n /\ table n = 3 :: replicate 255 0 /\ outs (os n) = outs demo0.
Proof.
  eexists. split; [|split].
  - eapply session_cons; [|vm_compute; reflexivity|apply session_nil]. intros _. apply list_elem_of_lookup. by exists 0%nat.
  - done.
  - done.
Qed.

Lemma demo0_ok : net_ok (descriptors demo0) (fresh_net demo0).
Proof. apply fresh_ok; [done|]. by apply elem_of_list_to_set; left. Qed.

Lemma socket_table_typed_witness :
  exists r n', run demo_al (fresh_net demo0) (Dial demo_host 80 500) = Ok (r, n') /\ r = 1 /\ net_ok (descriptors demo0) n'.
Proof.
  destruct (socket_table_typed demo_al (descriptors demo0) (fresh_net demo0) (Dial demo_host 80 500) demo0_ok) as (r & n' & E & Hok & _).
  - intros _. apply list_elem_of_lookup. by exists 0%nat.
  - exists r, n'. split; [done|]. split; [|done]. apply (f_equal (fun m => match m with Ok (r, _) => r | _ => 0 end)) in E.
    vm_compute in E. done.
Defined.

Lemma demo_dial_close : exists n, session demo_al (fresh_net demo0) [Dial demo_host 80 500; Close 1] n /\ table n = replicate 256 0.
Proof.
  eexists. split; [|shelve].
  eapply session_cons; [intros _; apply list_elem_of_lookup; by exists 0%nat|vm_compute; reflexivity|].
  eapply session_cons; [intros _; exists 3; by split|vm_compute; reflexivity|]. apply session_nil.
  Unshelve. done.
Qed.

Lemma sockets_are_accounted_for_witness : exists n,
  session demo_al (fresh_net demo0) [Dial demo_host 80 500; Close 1] n /\ descriptors (os n) = descriptors demo0.
Proof.
  destruct demo_dial_close as (n & Hs & Ht). exists n. split; [exact Hs|].
  refine (proj2 (proj2 (sockets_are_accounted_for demo_al demo0 _ _ _ Hs)) _); [by apply elem_of_list_to_set; left|].
  intros h s (_ & Hh & Hs0). apply Hs0. rewrite Ht in Hh. by apply lookup_replicate in Hh as [-> _].
Defined.

Lemma send_all_exact_witness : exists n r n' (m : nat),
  lpp_net_send_all n 1 (Some [72; 69; 76; 76; 79]) = Ok (r, n') /\ outgoing (os n') 3 = take m [72; 69; 76; 76; 79].
Proof.
  destruct demo_dial as (n & Hs & Ht & Ho). exists n.
  destruct (send_all_exact (descriptors demo0) n 1 3 [72; 69; 76; 76; 79]) as (r & n' & m & E & _ & Hout & _).
  - exact (proj1 (session_ok (descriptors demo0) demo_al _ _ _ Hs demo0_ok)).
  - unfold holds. rewrite Ht. done.
  - lia.
  - exists r, n', m. split; [exact E|]. rewrite Hout. change (outgoing (os n) 3) with (outs (os n) 3). by rewrite Ho.
Defined.
