(* ===== verification/Http.v ===== *)
(** * The HTTP client of the host runtime (runtime/lpp_runtime.c)

    [lpp_http_get] and [lpp_http_post] parse the URL, dial, format a request into a block sized for it,
    send it and hand back what follows the first blank line of one [recv].  They run over the sockets of
    [Net]. *)

From stdpp Require Import gmap.
From Stdlib Require Import Ascii String.
From stdpp Require Import list.
From S2P Require Import Prelude CInt Buf ListRt Str Json Net.
Open Scope list_scope.
Open Scope Z_scope.

(** The bytes of a C string literal. *)
Definition txt (s : string) : cstr := map (fun a => Z.of_nat (nat_of_ascii a)) (list_ascii_of_string s).
Definition crlf : cstr := [13; 10].

(** ** The URL *)

Definition http_prefix : cstr := txt "http://".

(** [while ( *p && *p != ':' && *p != '/' && hl < 255) host[hl++] = *p++], [room] bytes left. *)
Fixpoint host_loop (room : nat) (p : cstr) : cstr * cstr :=
  match room, p with
  | S room, c :: r =>
      if (c =? 58) || (c =? 47) then ([], p)
      else let '(host, p) := host_loop room r in (c :: host, p)
  | _, _ => ([], p)
  end.

(** [atoi]; undefined when the value is no [int]. *)
Definition atoi (s : cstr) : outcome Z :=
  let v := strtoll10 s in if (- 2 ^ 31 <=? v) && (v <? 2 ^ 31) then Ok v else Undef.

(** What follows the prefix: host, port and path. *)
Definition parse_url (p : cstr) : outcome (cstr * Z * cstr) :=
  let '(host, p) := host_loop 255 p in
  let! '(port, p) := (if chr0 p =? 58 then let! port := atoi (tail p) in Ok (port, skip_digits (tail p)) else Ok (80, p)) in
  Ok (host, port, if chr0 p =? 47 then p else [47]).

(** ** The requests *)

(** The result of [snprintf(d, size, ...)] for the text it prints, and [d] after it: a length that is no
    [int] is an error. *)
Definition snprintf (d : list Z) (size : Z) (text : cstr) : outcome (Z * list Z) :=
  if slen text >? 2 ^ 31 - 1 then Ok (-1, d)
  else
    let shown := take (Z.to_nat (size - 1)) text ++ [0] in
    let! d := memcpy d 0 shown 0 (slen shown) in Ok (slen text, d).

Definition get_text (path host : cstr) : cstr :=
  txt "GET " ++ path ++ txt " HTTP/1.1" ++ crlf ++ txt "Host: " ++ host ++ crlf ++
  txt "Connection: close" ++ crlf ++ txt "Accept: */*" ++ crlf ++ txt "User-Agent: L++/0.1.3" ++ crlf ++ crlf.

Definition post_text (path host content_type : cstr) (content_length : Z) (data : cstr) : cstr :=
  txt "POST " ++ path ++ txt " HTTP/1.1" ++ crlf ++ txt "Host: " ++ host ++ crlf ++
  txt "Content-Type: " ++ content_type ++ crlf ++ txt "Content-Length: " ++ fmt_lld content_length ++ crlf ++
  txt "Connection: close" ++ crlf ++ txt "Accept: */*" ++ crlf ++ txt "User-Agent: L++/0.1.3" ++ crlf ++ crlf ++ data.

Definition blank_line : cstr := crlf ++ crlf.
Definition later (al : allocator) (n : nat) : allocator := fun i => al (n + i)%nat.

(** [free(body)]: [body] is 24 bytes inside its allocation, not a pointer [malloc] returned. *)
Definition free_payload : outcome unit := Undef.

Section http.
Context {K : Type} `{SocketApi K} (al : allocator).

Definition empty_result (k : nat) (n : net K) : outcome (option cstr * net K) :=
  let! r := lpp_net_strdup_impl al k [] in Ok (r, n).

(** [lpp_net_close(fd); return lpp_net_strdup_impl("")]. *)
Definition abandon (k : nat) (n : net K) (fd : Z) : outcome (option cstr * net K) :=
  let! n := lpp_net_close n fd in empty_result k n.

(** From the reception of the answer on. *)
Definition receive (n : net K) (fd : Z) : outcome (option cstr * net K) :=
  let! '(body, n) := lpp_net_recv (later al 1) n fd 65536 in
  let! n := lpp_net_close n fd in
  match body with
  | None => empty_result 2 n
  | Some body =>
      match strstr body blank_line with
      | Some sep =>
          let! r := lpp_net_strdup_impl al 2 (drop (sep + 4) body) in
          let! _ := free_payload in Ok (r, n)
      | None => Ok (Some body, n)
      end
  end.

(** From the allocation of the request on. *)
Definition exchange (n : net K) (fd need : Z) (text : cstr) : outcome (option cstr * net K) :=
  let! req := arc_payload al 0 (i64 need) in
  match req with
  | None => abandon 1 n fd
  | Some req =>
      let! '(cnt, req) := snprintf req need text in
      if (cnt <? 0) || (cnt >=? need) then abandon 1 n fd
      else
        let! '(_, n) := lpp_net_send_all n fd (Some (until_nul req)) in
        receive n fd
  end.

Definition lpp_http_get (n : net K) (url : option cstr) (timeout_ms : Z) : outcome (option cstr * net K) :=
  match url with
  | None => empty_result 0 n
  | Some url =>
      if negb (starts http_prefix url) then empty_result 0 n
      else
        let! '(host, port, path) := parse_url (drop 7 url) in
        let! '(fd, n) := lpp_net_dial n (Some host) port timeout_ms in
        if fd <=? 0 then empty_result 0 n
        else
          let path_len := slen path in
          let host_len := slen host in
          if (path_len >? INT64_MAX) || (host_len >? INT64_MAX) || (u64 (path_len + host_len + 160) <? path_len)
          then abandon 0 n fd
          else exchange n fd (u64 (path_len + host_len + 160)) (get_text path host)
  end.

Definition lpp_http_post (n : net K) (url data content_type : option cstr) (timeout_ms : Z) : outcome (option cstr * net K) :=
  match url with
  | None => empty_result 0 n
  | Some url =>
      if negb (starts http_prefix url) then empty_result 0 n
      else
        let! '(host, port, path) := parse_url (drop 7 url) in
        let data := default [] data in
        let content_type := default (txt "application/x-www-form-urlencoded") content_type in
        let! '(fd, n) := lpp_net_dial n (Some host) port timeout_ms in
        if fd <=? 0 then empty_result 0 n
        else
          let path_len := slen path in
          let host_len := slen host in
          let ct_len := slen content_type in
          let data_len := slen data in
          let need := u64 (path_len + host_len + ct_len + data_len + 320) in
          if (path_len >? INT64_MAX) || (host_len >? INT64_MAX) || (ct_len >? INT64_MAX) || (data_len >? INT64_MAX) || (need <? path_len)
          then abandon 0 n fd
          else exchange n fd need (post_text path host content_type (i32 data_len) data)
  end.
End http.

(** ** Lemmas *)

(** A URL as it is written, without the prefix. *)
Record address := mk_address { a_host : cstr; a_port : option Z; a_path : cstr }.
Definition after_prefix (a : address) : cstr :=
  a_host a ++ match a_port a with Some p => 58 :: fmt_lld p | None => [] end ++ a_path a.
Definition print_url (a : address) : cstr := http_prefix ++ after_prefix a.

Record address_ok (a : address) : Prop := {
  host_plain : Forall (fun c => c <> 58 /\ c <> 47) (a_host a);
  host_short : (length (a_host a) <= 255)%nat;
  host_chars : cstr_ok (a_host a);
  port_valid : forall p, a_port a = Some p -> 1 <= p <= 65535;
  path_rooted : a_path a = [] \/ exists r, a_path a = 47 :: r;
  path_chars : cstr_ok (a_path a)
}.
Definition path_sent (a : address) : cstr := match a_path a with [] => [47] | p => p end.

Lemma host_loop_spec host r : Forall (fun c => c <> 58 /\ c <> 47) host -> chr0 r = 58 \/ chr0 r = 47 \/ r = [] ->
  forall room, (length host <= room)%nat -> host_loop room (host ++ r) = (host, r).
Proof.
  intros Hh Hr. induction Hh as [|c host [H1 H2] _ IH]; intros room Hl; cbn [app].
  - destruct room, r as [|c r]; try done. cbn [host_loop]. destruct Hr as [Hr|[Hr|]]; [..|done]; cbn [chr0] in Hr; by subst.
  - destruct room as [|room]; cbn [length] in Hl; [lia|]. cbn [host_loop].
    rewrite !(proj2 (Z.eqb_neq _ _)) by done. cbn [orb]. by rewrite IH by lia.
Qed.

Lemma parse_url_print a : address_ok a -> parse_url (after_prefix a) = Ok (a_host a, default 80 (a_port a), path_sent a).
Proof.
  intros [Hh Hl _ Hp Hpath _]. unfold parse_url, after_prefix, path_sent.
  assert (Hrest : chr0 (a_path a) <> 58 /\ stops (a_path a)) by (destruct Hpath as [->|[r ->]]; done).
  rewrite host_loop_spec; [|done| |done].
  2: { destruct (a_port a); [by left|]. destruct Hpath as [->|[r ->]]; [by right; right|by right; left]. }
  destruct (a_port a) as [p|]; cbn [app default].
  - change (chr0 (58 :: fmt_lld p ++ a_path a) =? 58) with true. cbn [tail]. specialize (Hp p eq_refl).
    destruct (int_reads p (a_path a)) as (E & _); [unfold INT64_MIN, INT64_MAX; lia|by apply Hrest|].
    unfold atoi. rewrite E, (proj2 (Z.leb_le _ p)), (proj2 (Z.ltb_lt p _)) by lia. cbn [andb obind].
    unfold fmt_lld. rewrite (proj2 (Z.ltb_ge p 0)) by lia. rewrite skip_digits_all; [|apply digits_all; lia|by apply Hrest].
    destruct Hpath as [->|[r ->]]; done.
  - rewrite (proj2 (Z.eqb_neq _ 58)) by apply Hrest. cbn [obind]. destruct Hpath as [->|[r ->]]; done.
Qed.

Lemma starts_app p s : starts p (p ++ s) = true.
Proof. induction p as [|c p IH]; [done|]. cbn. by rewrite Z.eqb_refl. Qed.

Lemma print_url_starts a : starts http_prefix (print_url a) = true /\ drop 7 (print_url a) = after_prefix a.
Proof. split; [apply starts_app|]. done. Qed.

(** A text that fits is printed whole. *)
Lemma snprintf_fits d need text : cstr_ok text -> slen text < need -> need <= Z.of_nat (length d) -> need < 2 ^ 31 -> Z.of_nat (length d) < 2 ^ 64 ->
  exists d', snprintf d need text = Ok (slen text, d') /\ until_nul d' = text.
Proof.
  intros Ht Hn Hd Hmax Hd64. unfold snprintf, slen in *. rewrite Z.gtb_ltb, (proj2 (Z.ltb_ge _ _)) by lia.
  rewrite take_ge by lia. rewrite memcpy_front by (rewrite ?length_app; cbn [length]; lia). cbn [obind].
  eexists. split; [done|]. rewrite <- app_assoc. cbn [app]. by rewrite until_nul_stop, until_nul_id.
Qed.

(** A literal is a string of nonzero bytes by computation. *)
Lemma cstr_check s : forallb (fun c => (1 <=? c) && (c <? 256)) s = true -> cstr_ok s.
Proof.
  intros Hf. apply Forall_forall. intros c Hc. rewrite forallb_forall in Hf. specialize (Hf c (proj1 (list_elem_of_In _ _) Hc)). bool_to_prop. lia.
Qed.

Ltac text_ok := repeat first [assumption | by apply cstr_check | by apply fmt_lld_ok | apply Forall_app; split].

Lemma get_text_ok path host : cstr_ok path -> cstr_ok host ->
  cstr_ok (get_text path host) /\ slen (get_text path host) < slen path + slen host + 160.
Proof. intros. split; [unfold get_text; text_ok|]. unfold get_text, slen. rewrite !length_app. cbn -[Z.add]. lia. Qed.

Lemma post_text_ok path host ct v data : cstr_ok path -> cstr_ok host -> cstr_ok ct -> cstr_ok data ->
  cstr_ok (post_text path host ct v data) /\ slen (post_text path host ct v data) < slen path + slen host + slen ct + slen data + 320.
Proof.
  intros. split; [unfold post_text; text_ok|]. unfold post_text, slen. pose proof (fmt_lld_length v). rewrite !length_app. cbn -[Z.add fmt_lld]. lia.
Qed.

Lemma path_sent_ok a : address_ok a -> cstr_ok (path_sent a) /\ slen (path_sent a) <= slen (a_path a) + 1.
Proof.
  intros Ha. unfold path_sent. destruct (a_path a) eqn:E; [split; [by apply cstr_check|done]|].
  rewrite <- E. split; [apply (path_chars _ Ha)|lia].
Qed.

(** ** Requests and their form on the wire *)

(** A request of HTTP/1.1 (RFC 9112): the request line, the header fields, an empty line, the body. *)
Record request := mk_request { rq_method : cstr; rq_target : cstr; rq_fields : list (cstr * cstr); rq_body : cstr }.

Definition field_line (f : cstr * cstr) : cstr := f.1 ++ [58; 32] ++ f.2 ++ crlf.
Definition wire (r : request) : cstr :=
  rq_method r ++ [32] ++ rq_target r ++ [32] ++ txt "HTTP/1.1" ++ crlf ++ concat (map field_line (rq_fields r)) ++ crlf ++ rq_body r.

(** How a server reads one. *)
Fixpoint cut_at (sep : Z) (s : cstr) : option (cstr * cstr) :=
  match s with
  | [] => None
  | c :: r => if c =? sep then Some ([], r) else match cut_at sep r with Some (x, y) => Some (c :: x, y) | None => None end
  end.
Definition cut_line (s : cstr) : option (cstr * cstr) :=
  match cut_at 13 s with Some (x, 10 :: y) => Some (x, y) | _ => None end.
Fixpoint read_fields (fuel : nat) (s : cstr) : option (list (cstr * cstr) * cstr) :=
  match fuel with
  | O => None
  | S fuel =>
      match cut_line s with
      | None => None
      | Some ([], body) => Some ([], body)
      | Some (line, s) =>
          match cut_at 58 line, read_fields fuel s with
          | Some (name, 32 :: value), Some (fs, body) => Some ((name, value) :: fs, body)
          | _, _ => None
          end
      end
  end.
Definition read_request (s : cstr) : option request :=
  match cut_line s with
  | None => None
  | Some (line, s) =>
      match cut_at 32 line with
      | None => None
      | Some (method, line) =>
          match cut_at 32 line, read_fields (S (length s)) s with
          | Some (target, version), Some (fs, body) =>
              if decide (version = txt "HTTP/1.1") then Some (mk_request method target fs body) else None
          | _, _ => None
          end
      end
  end.

(** No separator inside a part. *)
Definition lacks (c : Z) (s : cstr) : bool := forallb (fun x => negb (x =? c)) s.
Definition field_plain (f : cstr * cstr) : bool := lacks 13 f.1 && lacks 58 f.1 && lacks 13 f.2.
Definition request_plain (r : request) : bool :=
  lacks 13 (rq_method r) && lacks 32 (rq_method r) && lacks 13 (rq_target r) && lacks 32 (rq_target r) && forallb field_plain (rq_fields r).

Lemma cut_at_app c x y : lacks c x = true -> cut_at c (x ++ c :: y) = Some (x, y).
Proof.
  induction x as [|a x IH]; cbn; [by rewrite Z.eqb_refl|]. intros [Ha Hx]%andb_true_iff. destruct (a =? c); [done|]. by rewrite IH.
Qed.
Lemma cut_line_app x y : lacks 13 x = true -> cut_line (x ++ crlf ++ y) = Some (x, y).
Proof. intros Hx. unfold cut_line, crlf. cbn [app]. by rewrite cut_at_app. Qed.
Lemma lacks_app c x y : lacks c (x ++ y) = lacks c x && lacks c y.
Proof. apply forallb_app. Qed.

Lemma read_fields_wire fs body fuel : forallb field_plain fs = true -> (length fs < fuel)%nat ->
  read_fields fuel (concat (map field_line fs) ++ crlf ++ body) = Some (fs, body).
Proof.
  revert fuel. induction fs as [|[name value] fs IH]; intros [|fuel] Hf Hl; cbn [length] in Hl; try lia; cbn [read_fields map concat].
  { done. }
  cbn [forallb] in Hf. apply andb_true_iff in Hf as [Hp Hf]. unfold field_plain in Hp. cbn [fst snd] in Hp.
  apply andb_true_iff in Hp as [Hp Hv]. apply andb_true_iff in Hp as [Hn Hc].
  unfold field_line at 1. cbn [fst snd]. rewrite <- !app_assoc.
  replace (name ++ [58; 32] ++ value ++ crlf ++ concat (map field_line fs) ++ crlf ++ body)
    with ((name ++ 58 :: 32 :: value) ++ crlf ++ concat (map field_line fs) ++ crlf ++ body) by (by rewrite <- app_assoc).
  rewrite cut_line_app by (rewrite lacks_app, Hn; exact Hv). rewrite cut_at_app, IH by (done || lia).
  by destruct name.
Qed.

(** A request whose parts hold no separators is read as it was meant. *)
Lemma read_request_wire r : request_plain r = true -> read_request (wire r) = Some r.
Proof.
  destruct r as [m t fs body]. unfold request_plain, wire, read_request. cbn [rq_method rq_target rq_fields rq_body]. intros Hp.
  repeat (let H := fresh "H" in apply andb_true_iff in Hp as [Hp H]).
  replace (m ++ [32] ++ t ++ [32] ++ txt "HTTP/1.1" ++ crlf ++ concat (map field_line fs) ++ crlf ++ body)
    with ((m ++ 32 :: t ++ 32 :: txt "HTTP/1.1") ++ crlf ++ concat (map field_line fs) ++ crlf ++ body) by (by rewrite <- !app_assoc; cbn [app]; rewrite <- app_assoc).
  rewrite cut_line_app.
  2: { rewrite lacks_app, Hp. change (lacks 13 (t ++ 32 :: txt "HTTP/1.1") = true). by rewrite lacks_app, H1. }
  rewrite !cut_at_app by done. rewrite read_fields_wire; [by rewrite decide_True|done|].
  rewrite !length_app. assert (length fs <= length (concat (map field_line fs)))%nat; [|lia]. clear.
  induction fs as [|[x y] fs IH]; cbn; [lia|]. rewrite !length_app. cbn. lia.
Qed.

(** What the two clients mean to send. *)
Definition common_fields : list (cstr * cstr) :=
  [(txt "Connection", txt "close"); (txt "Accept", txt "*/*"); (txt "User-Agent", txt "L++/0.1.3")].
Definition get_request (a : address) : request :=
  mk_request (txt "GET") (path_sent a) ((txt "Host", a_host a) :: common_fields) [].
Definition post_request (a : address) (content_type data : cstr) : request :=
  mk_request (txt "POST") (path_sent a)
    ((txt "Host", a_host a) :: (txt "Content-Type", content_type) :: (txt "Content-Length", fmt_lld (slen data)) :: common_fields) data.

Lemma get_text_wire a : get_text (path_sent a) (a_host a) = wire (get_request a).
Proof. unfold get_text, wire, get_request, common_fields, field_line. cbn [rq_method rq_target rq_fields rq_body map concat fst snd]. by rewrite <- ?app_assoc. Qed.
Lemma post_text_wire a ct data : post_text (path_sent a) (a_host a) ct (slen data) data = wire (post_request a ct data).
Proof. unfold post_text, wire, post_request, common_fields, field_line. cbn [rq_method rq_target rq_fields rq_body map concat fst snd]. by rewrite <- ?app_assoc. Qed.

Section exact.
Context {K : Type} `{SocketLaws K} (al : allocator).

(** A request that fits its block is sent unchanged. *)
Lemma exchange_fits (n : net K) fd need text : al 0%nat (24 + need) = true -> cstr_ok text -> slen text < need -> need < 2 ^ 31 ->
  exchange al n fd need text = let! '(_, n) := lpp_net_send_all n fd (Some text) in receive al n fd.
Proof.
  intros Hal Ht Hn Hmax. assert (0 <= slen text) by (unfold slen; lia).
  unfold exchange, arc_payload. rewrite i64_id, (u64_id need), (u64_id (24 + need)), Hal by (unfold INT64_MIN, INT64_MAX; lia).
  cbn [negb]. rewrite (proj2 (Z.ltb_ge _ 24)) by lia. cbn [obind].
  destruct (snprintf_fits (replicate (Z.to_nat (24 + need - 24)) 0) need text) as (d & -> & Hd); rewrite ?length_replicate; [done|lia..|].
  cbn [obind]. rewrite (proj2 (Z.ltb_ge _ 0)), Z.geb_leb, (proj2 (Z.leb_gt _ _)) by lia. cbn [orb]. by rewrite Hd.
Qed.

(** One that has no block, or is longer than an [int], is not sent. *)
Lemma exchange_refused (n : net K) fd need text : 0 < need < 2 ^ 62 -> al 0%nat (24 + need) = false \/ 2 ^ 31 <= slen text ->
  exchange al n fd need text = abandon al 1 n fd.
Proof.
  intros Hn Hr. unfold exchange, arc_payload. rewrite i64_id, (u64_id need), (u64_id (24 + need)) by (unfold INT64_MIN, INT64_MAX; lia).
  destruct (al 0%nat (24 + need)); cbn [negb obind]; [|done]. rewrite (proj2 (Z.ltb_ge _ 24)) by lia. cbn [obind].
  destruct Hr as [?|Hr]; [done|]. unfold snprintf. rewrite Z.gtb_ltb, (proj2 (Z.ltb_lt _ _)) by lia. done.
Qed.

(** What a client does for a request [r]: it dials and, when the request can be made, sends its text
    with [lpp_net_send_all] before it waits for the answer; else it closes the socket. *)
Definition requested (n : net K) (a : address) (ms : Z) (r : request) (made : bool) : outcome (option cstr * net K) :=
  let! '(fd, n) := lpp_net_dial n (Some (a_host a)) (default 80 (a_port a)) ms in
  if fd <=? 0 then empty_result al 0 n
  else if made then let! '(_, n) := lpp_net_send_all n fd (Some (wire r)) in receive al n fd
  else abandon al 1 n fd.

(** Whether the request of [r], in a block of [need] bytes, is made; between the two cases (a text
    within [need] of 2^31 bytes) it depends on the C library. *)
Definition makes (need : Z) (r : request) (made : bool) : Prop :=
  if made then al 0%nat (24 + need) = true /\ need < 2 ^ 31 else al 0%nat (24 + need) = false \/ 2 ^ 31 <= slen (wire r).

Lemma obind_ext {A B} (m : outcome A) (f g : A -> outcome B) : (forall x, f x = g x) -> obind m f = obind m g.
Proof. intros E. destruct m; cbn [obind]; done. Qed.

Definition get_need (a : address) : Z := slen (path_sent a) + slen (a_host a) + 160.
Definition post_need (a : address) (ct data : cstr) : Z := slen (path_sent a) + slen (a_host a) + slen ct + slen data + 320.

Lemma get_requested n a ms made : address_ok a -> get_need a < 2 ^ 62 -> makes (get_need a) (get_request a) made ->
  lpp_http_get al n (Some (print_url a)) ms = requested n a ms (get_request a) made.
Proof.
  intros Ha Hp Hm. destruct (print_url_starts a) as [Es Ed]. destruct (path_sent_ok a Ha) as [Hpo _].
  destruct (get_text_ok (path_sent a) (a_host a) Hpo (host_chars _ Ha)) as [Ht Hl].
  unfold lpp_http_get, requested, get_need in *. rewrite Es, Ed. cbn [negb]. rewrite parse_url_print by done. cbn [obind].
  apply obind_ext. intros [fd n1]. destruct (fd <=? 0); [done|]. cbv zeta.
  assert (0 <= slen (path_sent a) /\ 0 <= slen (a_host a)) as [? ?] by (unfold slen; lia).
  rewrite u64_id by lia. rewrite !Z.gtb_ltb, !(proj2 (Z.ltb_ge _ _)) by (unfold INT64_MAX; lia). cbn [orb].
  rewrite get_text_wire in *. destruct made; [destruct Hm; by apply exchange_fits|apply exchange_refused; [lia|done]].
Qed.

Lemma post_requested n a ms data ct made : address_ok a -> cstr_ok data -> cstr_ok ct -> post_need a ct data < 2 ^ 62 ->
  makes (post_need a ct data) (post_request a ct data) made ->
  lpp_http_post al n (Some (print_url a)) (Some data) (Some ct) ms = requested n a ms (post_request a ct data) made.
Proof.
  intros Ha Hd Hc Hp Hm. destruct (print_url_starts a) as [Es Ed]. destruct (path_sent_ok a Ha) as [Hpo _].
  destruct (post_text_ok (path_sent a) (a_host a) ct (slen data) data Hpo (host_chars _ Ha) Hc Hd) as [Ht Hl].
  unfold lpp_http_post, requested, post_need in *. rewrite Es, Ed. cbn [negb]. rewrite parse_url_print by done. cbn [obind].
  apply obind_ext. intros [fd n1]. destruct (fd <=? 0); [done|]. cbv zeta. cbn [from_option id].
  assert (0 <= slen (path_sent a) /\ 0 <= slen (a_host a) /\ 0 <= slen ct /\ 0 <= slen data) as (? & ? & ? & ?) by (unfold slen; lia).
  rewrite u64_id by lia. rewrite !Z.gtb_ltb, !(proj2 (Z.ltb_ge _ _)) by (unfold INT64_MAX; lia). cbn [orb].
  destruct made.
  - destruct Hm as [Hal Hmax]. unfold i32. rewrite (swrap_id 32) by lia. rewrite post_text_wire in *. by apply exchange_fits.
  - apply exchange_refused; [lia|]. destruct Hm as [?|Hm]; [by left|right]. rewrite <- post_text_wire in Hm.
    destruct (Z.lt_ge_cases (slen data) (2 ^ 31)); [unfold i32; by rewrite (swrap_id 32) by lia|].
    unfold post_text, slen in *. rewrite !length_app. lia.
Qed.
End exact.

(** Closing the handle a call has just opened takes back what the call did. *)
Lemma opened_closed {K} `{SocketLaws K} base (n n1 n2 : net K) fd : net_ok base n -> opened n fd n1 -> fd <> 0 -> kept n1 n2 ->
  exists n3, lpp_net_close n2 fd = Ok n3 /\ kept n n3.
Proof.
  intros Hok Ho Hfd Hk. pose proof (opened_ok base _ _ _ Hok Ho) as Hok1. pose proof (kept_ok base _ _ Hok1 Hk) as Hok2.
  destruct Ho as [[? _]|(i & s & -> & Hi & Ht & Hs & Hf & Hd)]; [done|]. destruct Hk as [Ht2 Hd2].
  pose proof (lookup_lt_Some _ _ _ Hi) as Hlt. pose proof (ok_length _ _ Hok) as Hl. rewrite Hl in Hlt.
  destruct (close_spec base n2 (Z.of_nat i + 1) Hok2) as [[? _]|(s' & _ & Hs' & ->)]; [lia|].
  replace (Z.to_nat (Z.of_nat i + 1 - 1)) with i in * by lia.
  rewrite Ht2, Ht, list_lookup_insert_eq in Hs' by lia. injection Hs' as <-.
  eexists. split; [done|]. split; cbn [table os].
  - rewrite Ht2, Ht, list_insert_insert_eq. by apply list_insert_id.
  - rewrite close_closes, shutdown_keeps, Hd2, Hd. by apply closed_again.
Qed.

Section balance.
Context {K : Type} `{SocketLaws K} (al : allocator) (base : gset Z).
Implicit Types n : net K.

(** What holds of a client call that returns: as many sockets as before. *)
Definition balanced n (m : outcome (option cstr * net K)) : Prop := match m with Ok (_, n') => kept n n' | Undef => True | _ => False end.

Lemma empty_balanced k n n' : kept n n' -> balanced n (empty_result al k n').
Proof. intros Hk. unfold empty_result, lpp_net_strdup_impl, fresh_str. destruct (al k _); done. Qed.

Lemma abandon_balanced k n n1 n2 fd : net_ok base n -> opened n fd n1 -> fd <> 0 -> kept n1 n2 -> balanced n (abandon al k n2 fd).
Proof.
  intros Hok Ho Hfd Hk. unfold abandon. destruct (opened_closed base n n1 n2 fd Hok Ho Hfd Hk) as (n3 & -> & Hk3).
  by apply empty_balanced.
Qed.

Lemma strdup_cases k s : exists r, lpp_net_strdup_impl al k s = r /\ (r = Undef \/ exists o, r = Ok o).
Proof.
  eexists. split; [done|]. unfold lpp_net_strdup_impl, fresh_str. destruct (al k _); [|by right; eexists].
  unfold memcpy, wr. destruct (_ && _); cbn [obind]; [|by left]. destruct (_ || _); cbn [obind]; [by left|right; by eexists].
Qed.

Lemma receive_balanced n n1 n2 fd : net_ok base n -> opened n fd n1 -> fd <> 0 -> kept n1 n2 -> balanced n (receive al n2 fd).
Proof.
  intros Hok Ho Hfd Hk. pose proof (opened_ok base _ _ _ Hok Ho) as Hok1. pose proof (kept_ok base _ _ Hok1 Hk) as Hok2.
  unfold receive. destruct (recv_keeps_net base (later al 1) n2 fd 65536 Hok2 ltac:(lia)) as (body & n3 & -> & Hk3). cbn [obind].
  destruct (opened_closed base n n1 n3 fd Hok Ho Hfd (net_kept_trans _ _ _ Hk Hk3)) as (n4 & -> & Hk4). cbn [obind].
  destruct body as [body|]; [|by apply empty_balanced]. destruct (strstr body blank_line); [|done].
  destruct (strdup_cases 2 (drop (n0 + 4) body)) as (r & -> & [->|[o ->]]); done.
Qed.

Lemma exchange_balanced n n1 fd need text : net_ok base n -> opened n fd n1 -> fd <> 0 -> balanced n (exchange al n1 fd need text).
Proof.
  intros Hok Ho Hfd. pose proof (opened_ok base _ _ _ Hok Ho) as Hok1. assert (Hk1 : kept n1 n1) by done.
  unfold exchange, arc_payload. destruct (al 0%nat _); cbn [negb]; [|by eapply abandon_balanced].
  destruct (_ <? 24); [done|]. cbn [obind]. unfold snprintf.
  assert (Hgo : forall cnt req, balanced n (if (cnt <? 0) || (cnt >=? need) then abandon al 1 n1 fd
            else let! '(_, n0) := lpp_net_send_all n1 fd (Some (until_nul req)) in receive al n0 fd)).
  { intros cnt req. destruct (_ || _); [by eapply abandon_balanced|].
    destruct (send_all_keeps base n1 fd (Some (until_nul req)) Hok1) as (r & n2 & -> & Hk2). cbn [obind]. by eapply receive_balanced. }
  destruct (_ >? _); cbn [obind]; [apply Hgo|].
  unfold memcpy. destruct (_ && _); cbn [obind]; [apply Hgo|done].
Qed.

(** After the dial: no handle, or an exchange on the new one. *)
Lemma after_dial n host port ms (body : Z -> net K -> outcome (option cstr * net K)) : net_ok base n -> 0 ∈ table n ->
  (forall fd n1, opened n fd n1 -> fd <> 0 -> balanced n (body fd n1)) ->
  balanced n (let! '(fd, n1) := lpp_net_dial n (Some host) port ms in if fd <=? 0 then empty_result al 0 n1 else body fd n1).
Proof.
  intros Hok Hfree Hb. destruct (dial_opens base SOCK_STREAM n (Some host) port ms Hok Hfree) as (fd & n1 & E & Ho).
  unfold lpp_net_dial. rewrite E. cbn [obind]. destruct (Z.leb_spec fd 0); [|apply Hb; [done|lia]].
  apply empty_balanced. destruct Ho as [[_ ?]|(i & ? & -> & _)]; [done|lia].
Qed.

Lemma parse_cases p : (exists h port path, parse_url p = Ok (h, port, path)) \/ parse_url p = Undef.
Proof.
  unfold parse_url, atoi. destruct (host_loop 255 p) as [h q]. destruct (_ =? 58); [|left; by do 3 eexists].
  destruct (_ && _); cbn [obind]; [left; by do 3 eexists|by right].
Qed.
End balance.

(** ** Theorems *)

(** C18. The requests are exact.  For every URL made of a host (at most 255 bytes, no colon, no slash),
    an optional port from 1 to 65535 and an optional path, and for every data and content type (the
    defaults when they are null), both clients dial that host and port (80 if none is given).  When memory
    for the request is granted and its block is below 2^31 bytes, they send the HTTP/1.1 request whole: the
    method, the path of the URL, the fields Host, Content-Type, Content-Length (the exact length of the
    data), Connection, Accept and User-Agent, an empty line and the data; a server that reads it by the
    RFC gets those parts back when none of them holds a separator (a content type with a line break adds
    fields of its own).  When memory is refused, or the text is 2^31 bytes or longer, the socket is closed
    and nothing is sent.  The lengths are those of strings in memory (together below 2^62). *)
Theorem http_requests_exact {K} `{SocketLaws K} (al : allocator) (n : net K) a ms : address_ok a ->
  (let r := get_request a in
    (forall made, get_need a < 2 ^ 62 -> makes al (get_need a) r made ->
      lpp_http_get al n (Some (print_url a)) ms = requested al n a ms r made) /\
    (request_plain r = true -> read_request (wire r) = Some r)) /\
  (forall data content_type, let d := default [] data in let ct := default (txt "application/x-www-form-urlencoded") content_type in
    let r := post_request a ct d in
    (forall made, cstr_ok d -> cstr_ok ct -> post_need a ct d < 2 ^ 62 -> makes al (post_need a ct d) r made ->
      lpp_http_post al n (Some (print_url a)) data content_type ms = requested al n a ms r made) /\
    (request_plain r = true -> read_request (wire r) = Some r)).
Proof.
  intros Ha. split; [split; [intros; by apply get_requested|apply read_request_wire]|]. intros data ct d c r. split; [|apply read_request_wire].
  intros made Hd Hc Hn Hm. rewrite <- (post_requested al n a ms d c made Ha Hd Hc Hn Hm). by destruct data, ct.
Qed.

(** What the client makes of the answer.  The handle is closed and its socket gone in any case; an
    answer with no blank line is returned as it is.  An answer with one, which every complete HTTP
    response has, is undefined behaviour: the header part is stripped into a new string and the received
    one passed to [free], which did not allocate it. *)
Theorem http_answer {K} `{SocketLaws K} (al : allocator) base (n : net K) fd s : net_ok base n -> holds n fd s -> fd <= 256 ->
  (forall k m, al k m = true) ->
  let '(_, bytes, k) := recv (os n) s 65536 in
  receive al n fd =
    match strstr (until_nul bytes) blank_line with
    | None => Ok (Some (until_nul bytes), mk_net (<[Z.to_nat (fd - 1) := 0]> (table n)) (close (shutdown k s) s))
    | Some _ => Undef
    end.
Proof.
  intros Hok Hh Hle Hal. pose proof (recv_exact base (later al 1) n fd s 65536 Hok Hh Hle ltac:(lia) ltac:(intros; apply Hal)) as E.
  pose proof (recv_keeps (os n) s 65536) as Hk. unfold receive. rewrite E. destruct (recv (os n) s 65536) as [[r bytes] k]. cbn [snd obind] in *.
  destruct (close_spec base (set_os n k) fd) as [[Hbad _]|(s' & _ & Hs & ->)].
  { eapply kept_ok; [done|]. by apply kept_os. } { destruct Hh; lia. }
  cbn [set_os table os obind] in *. assert (s' = s) as -> by (destruct Hh as (_ & ? & _); congruence).
  destruct (strstr (until_nul bytes) blank_line) as [sep|]; [|done].
  destruct (strdup_cases al 2 (drop (sep + 4) (until_nul bytes))) as (o & -> & [->|[? ->]]); done.
Qed.

(** No path through a client leaks a socket or a handle: when the table has a free entry, a call
    that returns leaves the table and the set of descriptors as they were, whatever the URL, the answers of the
    system and the allocations that fail; and it always terminates. *)
Theorem http_leaves_no_socket {K} `{SocketLaws K} (al : allocator) base (n : net K) url data ct ms : net_ok base n -> 0 ∈ table n ->
  balanced n (lpp_http_get al n url ms) /\ balanced n (lpp_http_post al n url data ct ms).
Proof.
  intros Hok Hfree. assert (Hk : kept n n) by done.
  split; [unfold lpp_http_get|unfold lpp_http_post]; (destruct url as [url|]; [|by apply empty_balanced]);
    (destruct (starts http_prefix url); cbn [negb]; [|by apply empty_balanced]);
    (destruct (parse_cases (drop 7 url)) as [(h & port & path & ->) | ->]; cbn [obind]; [|done]); cbv zeta;
    apply (after_dial al base); try done; intros fd n1 Ho Hfd;
    (destruct (_ || _); [by eapply (abandon_balanced al base)|by apply (exchange_balanced al base)]).
Qed.

(** ** The theorems at concrete inputs *)

Definition demo_addr : address := mk_address (txt "a.c") (Some 8080) (txt "/x").
Lemma demo_addr_ok : address_ok demo_addr.
Proof.
  split; cbn; [by repeat constructor|lia|by apply cstr_check|by intros p [= <-]|right; by eexists|by apply cstr_check].
Qed.

Lemma http_requests_exact_witness :
  match lpp_http_get demo_al (fresh_net demo0) (Some (txt "http://a.c:8080/x")) 0 with
  | Ok (body, n) => body = Some [104; 105] /\ table n = replicate 256 0 /\
      outs (os n) 3 = txt "GET /x HTTP/1.1" ++ crlf ++ txt "Host: a.c" ++ crlf ++ txt "Connection: close" ++ crlf ++
        txt "Accept: */*" ++ crlf ++ txt "User-Agent: L++/0.1.3" ++ crlf ++ crlf
  | _ => False
  end /\
  match lpp_http_post demo_al (fresh_net demo0) (Some (txt "http://a.c:8080/x")) (Some (txt "k=v")) None 0 with
  | Ok (_, n) =>
      match read_request (outs (os n) 3) with
      | Some r => rq_method r = txt "POST" /\ rq_body r = txt "k=v" /\ In (txt "Content-Length", txt "3") (rq_fields r)
      | None => False
      end
  | _ => False
  end /\
  match lpp_http_get (fun _ _ => false) (fresh_net demo0) (Some (txt "http://a.c:8080/x")) 0 with
  | Ok (_, n) => table n = replicate 256 0 /\ outs (os n) 3 = []
  | _ => True
  end.
Proof.
  destruct (http_requests_exact demo_al (fresh_net demo0) demo_addr 0 demo_addr_ok) as [[Hg _] Hp].
  destruct (Hp (Some (txt "k=v")) None) as [Hp1 _]. destruct (http_requests_exact (fun _ _ => false) (fresh_net demo0) demo_addr 0 demo_addr_ok) as [[Hr _] _].
  change (print_url demo_addr) with (txt "http://a.c:8080/x") in *. split_and!.
  - rewrite (Hg true) by (done || split; done). vm_compute. split; [reflexivity|]. split; reflexivity.
  - rewrite (Hp1 true) by (done || (by apply cstr_check) || split; done). vm_compute. split; [reflexivity|]. split; [reflexivity|]. right. right. by left.
  - rewrite (Hr false) by (done || by left). vm_compute. done.
Defined.

Lemma http_answer_witness : exists n n', holds n 1 3 /\ receive demo_al n 1 = Ok (Some [104; 105], n').
Proof.
  destruct demo_dial as (n & Hs & Ht & _). assert (Hh : holds n 1 3) by (unfold holds; by rewrite Ht).
  pose proof (http_answer demo_al (descriptors demo0) n 1 3 (proj1 (session_ok (descriptors demo0) demo_al _ _ _ Hs demo0_ok)) Hh ltac:(lia) ltac:(done)) as E.
  exists n. eexists. split; [exact Hh|]. exact E.
Defined.

Lemma http_leaves_no_socket_witness : balanced (fresh_net demo0) (lpp_http_get demo_al (fresh_net demo0) (Some (txt "http://a.c/")) 0) /\
  balanced (fresh_net demo0) (lpp_http_post demo_al (fresh_net demo0) (Some (txt "http://a.c/")) None None 0).
Proof.
  refine (http_leaves_no_socket demo_al (descriptors demo0) (fresh_net demo0) (Some (txt "http://a.c/")) None None 0 demo0_ok _).
  apply list_elem_of_lookup. by exists 0%nat.
Defined.
