(* ===== verification/HostIO.v ===== *)
(** * Files and the console of the host runtime (runtime/lpp_runtime.c)

    The builtins call the C library: [fopen], [fread], [fwrite], [fclose], [fstat], [remove], [rename],
    [mkdir], [fgets], [printf].  These work on the state [fs]: files and directories by name, open
    streams, the standard input and output.  A name stands for itself: links, [.] and [..] and doubled
    separators are not resolved.  Directories behave as POSIX has it: they can be opened for reading, but
    reading them fails; they are removed when they are empty, and renamed with what is in them.  What the
    library and the system are free to do is an argument ([stdio]): which stream a successful [fopen]
    returns, whether a transfer or a close fails, and which requests are refused (permissions; on Windows
    also what it does not do with directories). *)

From stdpp Require Import gmap.
From S2P Require Import Prelude CInt Buf ListRt Str Json Net Http.

Inductive mode := Rb | Wb | Ab.
#[export] Instance mode_eq_dec : EqDecision mode.
Proof. solve_decision. Defined.
Record stream := mk_stream { spath : list Z; spos : Z; sappend : bool; serror : bool }.
Record fs := mk_fs {
  files : gmap (list Z) (list Z);
  dirs : gset (list Z);
  streams : gmap Z stream;
  stdin : list Z;
  stdout : list Z
}.
Definition set_files (w : fs) x := mk_fs x (dirs w) (streams w) (stdin w) (stdout w).
Definition set_dirs (w : fs) x := mk_fs (files w) x (streams w) (stdin w) (stdout w).
Definition set_streams (w : fs) x := mk_fs (files w) (dirs w) x (stdin w) (stdout w).
Definition set_stdin (w : fs) x := mk_fs (files w) (dirs w) (streams w) x (stdout w).
Definition set_stdout (w : fs) x := mk_fs (files w) (dirs w) (streams w) (stdin w) x.

Inductive request := Mkdir (p : list Z) | Remove (p : list Z) | Rename (p q : list Z).

(** [new_stream]: a stream for the file, if the open succeeds.  [moved]: how many of the bytes asked for
    are transferred before an error.  [close_ok]: whether a close returns 0.  [is_reg]: what [fstat]
    says of the file, if it succeeds.  [allows]: whether a request may be done. *)
Record stdio := mk_stdio {
  new_stream : fs -> list Z -> mode -> option Z;
  moved : fs -> Z -> Z;
  close_ok : fs -> Z -> bool;
  is_reg : fs -> list Z -> option bool;
  allows : fs -> request -> bool
}.
Class Stdio (io : stdio) : Prop := {
  stream_fresh : forall w p m f, new_stream io w p m = Some f -> streams w !! f = None;
  moved_bounds : forall w n, 0 <= n -> 0 <= moved io w n <= n
}.

(** ** The C library *)

(** The directory part of a path: all before the last separator. *)
Fixpoint parent (p : list Z) : option (list Z) :=
  match p with
  | [] => None
  | c :: r => match parent r with
              | Some d => Some (c :: d)
              | None => if c =? 47 then Some [] else None
              end
  end.
Definition parent_exists (w : fs) (p : list Z) : bool :=
  match parent p with None => true | Some [] => true | Some d => bool_decide (d ∈ dirs w) end.

(** Nothing lies below the directory. *)
Definition below (p x : list Z) : bool := starts (p ++ [47]) x.
Definition empty_dir (w : fs) (p : list Z) : bool :=
  negb (existsb (below p) ((fst <$> map_to_list (files w)) ++ elements (dirs w))).

Section library.
Context (io : stdio).

Definition mkdir (w : fs) (p : list Z) : Z * fs :=
  if negb (allows io w (Mkdir p)) || bool_decide (p ∈ dirs w) || bool_decide (is_Some (files w !! p)) || negb (parent_exists w p) then (-1, w)
  else (0, set_dirs w ({[p]} ∪ dirs w)).

(** A directory is opened for reading, not for writing. *)
Definition fopen (w : fs) (p : list Z) (m : mode) : option Z * fs :=
  if match m with
     | Rb => bool_decide (files w !! p = None) && bool_decide (p ∉ dirs w)
     | _ => bool_decide (p ∈ dirs w) || negb (parent_exists w p)
     end
  then (None, w)
  else
    match new_stream io w p m with
    | None => (None, w)
    | Some f =>
        let files' := match m with Rb => files w | Wb => <[p := []]> (files w) | Ab => <[p := default [] (files w !! p)]> (files w) end in
        let s := mk_stream p 0 (match m with Ab => true | _ => false end) false in
        (Some f, mk_fs files' (dirs w) (<[f := s]> (streams w)) (stdin w) (stdout w))
    end.

Definition at_pos (w : fs) (f : Z) (s : stream) (n : Z) (err : bool) : fs :=
  set_streams w (<[f := mk_stream (spath s) (spos s + n) (sappend s) (serror s || err)]> (streams w)).

(** [fread] stops short of [n] bytes at the end of the file and at an error only; a directory cannot be read. *)
Definition fread (w : fs) (f n : Z) : list Z * fs :=
  match streams w !! f with
  | None => ([], w)
  | Some s =>
      match files w !! spath s with
      | None => ([], at_pos w f s 0 (0 <? n))
      | Some content =>
          let rest := drop (Z.to_nat (spos s)) content in
          let want := Z.min n (Z.of_nat (length rest)) in
          let m := moved io w want in
          (take (Z.to_nat m) rest, at_pos w f s m (m <? want))
      end
  end.

Definition fwrite (w : fs) (bytes : list Z) (f : Z) : Z * fs :=
  match streams w !! f with
  | None => (0, w)
  | Some s =>
      let content := default [] (files w !! spath s) in
      let start := if sappend s then Z.of_nat (length content) else spos s in
      let n := moved io w (Z.of_nat (length bytes)) in
      let content' := take (Z.to_nat start) content ++ take (Z.to_nat n) bytes ++ drop (Z.to_nat (start + n)) content in
      (n, at_pos (set_files w (<[spath s := content']> (files w))) f s n (n <? Z.of_nat (length bytes)))
  end.

Definition ferror (w : fs) (f : Z) : bool := match streams w !! f with Some s => serror s | None => false end.

(** The stream is gone whether or not the close reports an error. *)
Definition fclose (w : fs) (f : Z) : Z * fs :=
  (if close_ok io w f then 0 else -1, set_streams w (delete f (streams w))).

(** [fstat] of the stream: whether the file is regular, and its size. *)
Definition fstat (w : fs) (f : Z) : option (bool * Z) :=
  match streams w !! f with
  | None => None
  | Some s => (fun r => (r && bool_decide (is_Some (files w !! spath s)), Z.of_nat (length (default [] (files w !! spath s)))))
                <$> is_reg io w (spath s)
  end.

Definition remove (w : fs) (p : list Z) : Z * fs :=
  if negb (allows io w (Remove p)) then (-1, w)
  else if bool_decide (is_Some (files w !! p)) then (0, set_files w (delete p (files w)))
  else if bool_decide (p ∈ dirs w) && empty_dir w p then (0, set_dirs w (dirs w ∖ {[p]}))
  else (-1, w).

(** The name after what was called [p] is called [q]. *)
Definition renamed (p q x : list Z) : list Z :=
  if bool_decide (x = p) then q else if below p x then q ++ drop (length p) x else x.

(** A file replaces a file, a directory an empty directory, which is not below it. *)
Definition rename (w : fs) (p q : list Z) : Z * fs :=
  if negb (allows io w (Rename p q)) then (-1, w)
  else
    match files w !! p with
    | Some c =>
        if bool_decide (p = q) then (0, w)
        else if bool_decide (q ∈ dirs w) || negb (parent_exists w q) then (-1, w)
        else (0, set_files w (<[q := c]> (delete p (files w))))
    | None =>
        if bool_decide (p ∉ dirs w) then (-1, w)
        else if bool_decide (p = q) then (0, w)
        else if bool_decide (is_Some (files w !! q)) || below p q || (bool_decide (q ∈ dirs w) && negb (empty_dir w q)) || negb (parent_exists w q)
        then (-1, w)
        else (0, set_dirs (set_files w (list_to_map (prod_map (renamed p q) id <$> map_to_list (files w)))) (set_map (renamed p q) (dirs w)))
    end.
End library.

(** [fgets(buf, n, stdin)]: at most [n - 1] bytes, through the first newline. *)
Fixpoint line (n : nat) (s : list Z) : list Z :=
  match n, s with
  | S n, c :: s => if c =? 10 then [c] else c :: line n s
  | _, _ => []
  end.
Definition fgets (w : fs) (n : Z) : option (list Z) * fs :=
  match stdin w with
  | [] => (None, w)
  | s => let l := line (Z.to_nat (n - 1)) s in (Some l, set_stdin w (drop (length l) s))
  end.

(** ** The console *)

Definition lpp_print_int (w : fs) (value : Z) : fs := set_stdout w (stdout w ++ fmt_lld value ++ [10]).
Definition lpp_print_bool (w : fs) (value : Z) : fs := set_stdout w (stdout w ++ [if value =? 0 then 48 else 49; 10]).
Definition lpp_print_str (w : fs) (ptr : option cstr) : fs :=
  match ptr with None => w | Some s => set_stdout w (stdout w ++ s ++ [10]) end.
Definition lpp_write_str (w : fs) (ptr : option cstr) : fs :=
  match ptr with None => w | Some s => set_stdout w (stdout w ++ s) end.

Definition lpp_input (al : allocator) (w : fs) : outcome (option cstr * fs) :=
  match fgets w 4096 with
  | (None, w) => Ok (None, w)
  | (Some got, w) =>
      let! buf := memcpy (replicate 4096 0) 0 (got ++ [0]) 0 (Z.of_nat (length got) + 1) in
      let len := slen (until_nul buf) in
      let! last := (if len >? 0 then rd buf (len - 1) else Ok 0) in
      let! '(buf, len) := (if (len >? 0) && (last =? 10) then let! b := wr buf (len - 1) 0 in Ok (b, len - 1) else Ok (buf, len)) in
      let! r := fresh_str al 0 (len + 1) (fun d => memcpy d 0 buf 0 (len + 1)) in
      Ok (r, w)
  end.

(** ** Integers from text *)

(** [while ( *p == ' ' || *p == '\t' || ...) p++]. *)
Fixpoint skip_blank (s : cstr) : cstr := match s with c :: r => if ws c then skip_blank r else s | [] => [] end.

(** The value [strtoll] would have without bounds; [errno] is [ERANGE] outside them. *)
Definition strtoll_exact (s : cstr) : Z :=
  match skip_space s with
  | 45 :: r => - dec_value r 0
  | 43 :: r => dec_value r 0
  | r => dec_value r 0
  end.

Definition lpp_parse_int (str : option cstr) : outcome Z :=
  match str with
  | None | Some [] => Panic "Invalid integer format: empty string"
  | Some str =>
      let p := skip_blank str in
      match p with
      | [] => Panic "Invalid integer format"
      | _ =>
          if negb (is_i64 (strtoll_exact p)) then Panic "Integer overflow/underflow"
          else
            match skip_blank (strtoll_end p) with
            | [] => Ok (strtoll10 p)
            | _ => Panic "Invalid integer format"
            end
      end
  end.

(** ** Files *)

Section files.
Context (io : stdio).

(** The loop for a file that is not regular: [buf] grows when fewer than 1024 bytes are free.  [al k]
    serves the [k]-th block.  The rounds are bounded by the length of the file. *)
Fixpoint slurp (fuel : nat) (al : allocator) (k : nat) (w : fs) (f cap len : Z) (buf : list Z) : outcome (option (list Z * Z) * fs) :=
  match fuel with
  | O => NoFuel
  | S fuel =>
      let! grown := (if len + 1024 >=? cap then
                       if cap >? Z.quot INT64_MAX 2 then Ok None
                       else
                         let new_cap := cap * 2 in
                         if negb (al k new_cap) then Ok None
                         else let! b := memcpy (replicate (Z.to_nat new_cap) 0) 0 buf 0 len in Ok (Some (S k, new_cap, b))
                     else Ok (Some (k, cap, buf))) in
      match grown with
      | None => Ok (None, w)
      | Some (k, cap, buf) =>
          let '(got, w) := fread io w f 1024 in
          let n := Z.of_nat (length got) in
          if n =? 0 then Ok (Some (buf, len), w)
          else let! buf := memcpy buf len got 0 n in slurp fuel al k w f cap (len + n) buf
      end
  end.

Definition lpp_read_file (fuel : nat) (al : allocator) (w : fs) (path : option cstr) : outcome (option cstr * fs) :=
  match path with
  | None => Ok (None, w)
  | Some path =>
      match fopen io w path Rb with
      | (None, w) => Ok (None, w)
      | (Some f, w) =>
          match fstat io w f with
          | Some (true, size) =>
              let! total := chk64 (size + 1) in
              if negb (al 0%nat total) then Ok (None, (fclose io w f).2)
              else
                let '(got, w) := fread io w f size in
                let! buf := memcpy (replicate (Z.to_nat total) 0) 0 got 0 (Z.of_nat (length got)) in
                let! buf := wr buf (Z.of_nat (length got)) 0 in
                Ok (Some (until_nul buf), (fclose io w f).2)
          | _ =>
              if negb (al 0%nat 4096) then Ok (None, (fclose io w f).2)
              else
                let! '(r, w) := slurp fuel al 1 w f 4096 0 (replicate 4096 0) in
                match r with
                | None => Ok (None, (fclose io w f).2)
                | Some (buf, len) =>
                    let! buf := wr buf len 0 in Ok (Some (until_nul buf), (fclose io w f).2)
                end
          end
      end
  end.

(** [for (char *p = temp + 1; *p; p++)]: [done] is the text before [p]. *)
Fixpoint parents_loop (w : fs) (done rest : list Z) : fs :=
  match rest with
  | [] => w
  | c :: rest =>
      let w := if (c =? 47) || (c =? 92) then (mkdir io w done).2 else w in
      parents_loop w (done ++ [c]) rest
  end.

(** [temp] holds the first 1023 bytes.  On the empty path the loop starts behind the terminator, in the
    zeros [strncpy] has padded with. *)
Definition make_parent_dirs (w : fs) (path : cstr) : fs :=
  match take 1023 path with
  | [] => w
  | c :: rest => parents_loop w [c] rest
  end.

(** The common end of the two writers. *)
Definition put (w : fs) (path data : cstr) (m : mode) : Z * fs :=
  match fopen io w path m with
  | (None, w) => (-1, w)
  | (Some f, w) =>
      let '(written, w) := fwrite io w data f in
      let '(close_status, w) := fclose io w f in
      (if (written =? slen data) && (close_status =? 0) then 0 else -1, w)
  end.
Definition lpp_write_file (w : fs) (path data : option cstr) : Z * fs :=
  match path, data with
  | Some path, Some data => put (make_parent_dirs w path) path data Wb
  | _, _ => (-1, w)
  end.
Definition lpp_append_file (w : fs) (path data : option cstr) : Z * fs :=
  match path, data with
  | Some path, Some data => put w path data Ab
  | _, _ => (-1, w)
  end.

Definition lpp_delete_file (w : fs) (path : option cstr) : Z * fs :=
  match path with
  | None => (-1, w)
  | Some path => let '(r, w) := remove io w path in (if r =? 0 then 0 else -1, w)
  end.

Definition lpp_file_exists (w : fs) (path : option cstr) : Z * fs :=
  match path with
  | None => (0, w)
  | Some path =>
      match fopen io w path Rb with
      | (Some f, w) => (1, (fclose io w f).2)
      | (None, w) => (0, w)
      end
  end.

Definition lpp_file_size (w : fs) (path : option cstr) : Z * fs :=
  match path with
  | None => (-1, w)
  | Some path =>
      match fopen io w path Rb with
      | (None, w) => (-1, w)
      | (Some f, w) =>
          let size := match fstat io w f with Some (true, size) => size | _ => -1 end in
          (size, (fclose io w f).2)
      end
  end.

(** [for (;;)] of the copy: whether it failed. *)
Fixpoint copy_loop (fuel : nat) (w : fs) (fin out : Z) : outcome (bool * fs) :=
  match fuel with
  | O => NoFuel
  | S fuel =>
      let '(buffer, w) := fread io w fin 8192 in
      let read := Z.of_nat (length buffer) in
      let '(written, w) := (if read =? 0 then (0, w) else fwrite io w buffer out) in
      if negb (read =? 0) && negb (written =? read) then Ok (true, w)
      else if read <? 8192 then Ok (ferror w fin, w)
      else copy_loop fuel w fin out
  end.

(** [fclose(out)] is not reached when [fclose(in)] reports an error. *)
Definition lpp_file_copy (fuel : nat) (w : fs) (source destination : option cstr) : outcome (Z * fs) :=
  match source, destination with
  | Some source, Some destination =>
      match fopen io w source Rb with
      | (None, w) => Ok (-1, w)
      | (Some fin, w) =>
          match fopen io w destination Wb with
          | (None, w) => Ok (-1, (fclose io w fin).2)
          | (Some out, w) =>
              let! '(failed, w) := copy_loop fuel w fin out in
              let '(r, w) := fclose io w fin in
              let '(failed, w) := (if negb (r =? 0) then (true, w)
                                   else let '(r, w) := fclose io w out in (failed || negb (r =? 0), w)) in
              if failed : bool then Ok (-1, (remove io w destination).2) else Ok (0, w)
          end
      end
  | _, _ => Ok (-1, w)
  end.

Definition lpp_file_move (w : fs) (source destination : option cstr) : Z * fs :=
  match source, destination with
  | Some source, Some destination => let '(r, w) := rename io w source destination in (if r =? 0 then 0 else -1, w)
  | _, _ => (-1, w)
  end.
End files.

(** ** Lemmas: integers from text *)

(** A text with its sign taken off: the sign, and what follows. *)
Definition unsign (t : cstr) : cstr * cstr :=
  match t with 45 :: r => ([45], r) | 43 :: r => ([43], r) | _ => ([], t) end.

Lemma unsign_app t : t = (unsign t).1 ++ (unsign t).2 /\ ((unsign t).1 = [] \/ (unsign t).1 = [45] \/ (unsign t).1 = [43]).
Proof.
  destruct t as [|c r]; [by split; [|left]|]. destruct (decide (c = 45)) as [->|]; [cbn; auto|].
  destruct (decide (c = 43)) as [->|]; [cbn; auto|]. destruct c as [|p|p]; [by cbn; auto| |by cbn; auto].
  do 6 (destruct p as [p|p|]; try by cbn; auto).
Qed.

(** The sign of a value. *)
Definition signed (sg : cstr) (v : Z) : Z := if decide (sg = [45]) then - v else v.

Lemma strtoll_parts s : let '(sg, t) := unsign (skip_space s) in
  strtoll_exact s = signed sg (dec_value t 0) /\ strtoll10 s = saturate (signed sg (dec_value t 0)) /\
  strtoll_end s = if is_digit (chr0 t) then skip_digits t else s.
Proof.
  unfold strtoll_exact, strtoll10, strtoll_end. destruct (skip_space s) as [|c r]; [done|].
  destruct (decide (c = 45)) as [->|]; [done|]. destruct (decide (c = 43)) as [->|]; [done|].
  destruct c as [|p|p]; try done. do 6 (destruct p as [p|p|]; try done).
Qed.

Lemma skip_while_spec (p : Z -> bool) (sk : cstr -> cstr) :
  sk [] = [] -> (forall c r, sk (c :: r) = if p c then sk r else c :: r) ->
  forall s, exists a, s = a ++ sk s /\ Forall (fun c => p c = true) a /\ (sk s = [] \/ exists c r, sk s = c :: r /\ p c = false).
Proof.
  intros E0 E. induction s as [|c s (a & Hs & Ha & Hr)]; [exists []; rewrite E0; auto|]. rewrite E.
  destruct (p c) eqn:Ep; [exists (c :: a); split; [cbn; congruence|]; split; [by constructor|done]|]. exists []. split; [done|]. split; [done|]. right. eauto.
Qed.

Lemma skip_while_app (p : Z -> bool) (sk : cstr -> cstr) a s :
  (forall c r, sk (c :: r) = if p c then sk r else c :: r) -> Forall (fun c => p c = true) a -> sk (a ++ s) = sk s.
Proof. intros E. induction 1 as [|c a Hc _ IH]; [done|]. cbn [app]. by rewrite E, Hc. Qed.

Definition skip_blank_spec := skip_while_spec ws skip_blank eq_refl (fun _ _ => eq_refl).
Definition skip_space_spec := skip_while_spec isspace skip_space eq_refl (fun _ _ => eq_refl).
Definition skip_digits_spec := skip_while_spec is_digit skip_digits eq_refl (fun _ _ => eq_refl).

(** Blanks before and after, white space of the C library before the sign, digits: the text of [v]. *)
Definition written (s : cstr) (v : Z) : Prop := exists a sp sg ds b,
  s = a ++ sp ++ sg ++ ds ++ b /\ Forall (fun c => ws c = true) a /\ Forall (fun c => isspace c = true) sp /\
  (sg = [] \/ sg = [45] \/ sg = [43]) /\ ds <> [] /\ Forall (fun c => is_digit c = true) ds /\ Forall (fun c => ws c = true) b /\
  v = signed sg (dec_value ds 0) /\ is_i64 v = true.

Lemma saturate_id v : is_i64 v = true -> saturate v = v.
Proof. unfold is_i64, saturate. intros. bool_to_prop. unfold INT64_MAX, INT64_MIN in *. lia. Qed.

Lemma dec_value_run ds r acc : Forall (fun c => is_digit c = true) ds -> stops r -> dec_value (ds ++ r) acc = dec_value ds acc.
Proof. intros Hd Hr. by destruct (dec_value_stops ds r acc Hr). Qed.

Lemma blank_stops b : Forall (fun c => ws c = true) b -> stops b.
Proof.
  destruct 1 as [|c b Hc _]; [done|]. unfold stops, is_digit, ws in *. cbn [chr0]. bool_to_prop.
  destruct (Z.leb_spec 48 c), (Z.leb_spec c 57); try done. lia.
Qed.

Lemma parse_int_written s v : lpp_parse_int (Some s) = Ok v -> written s v.
Proof.
  unfold lpp_parse_int. destruct s as [|c0 s0]; [done|]. set (s := c0 :: s0). clearbody s.
  destruct (skip_blank_spec s) as (a & Hs & Ha & Hp). destruct (skip_blank s) as [|c r] eqn:Ep; [done|]. set (p := c :: r) in *.
  assert (Hc : ws c = false) by (destruct Hp as [?|(? & ? & [= <- <-] & ?)]; done).
  destruct (is_i64 (strtoll_exact p)) eqn:Ei; [|done]. cbn [negb].
  pose proof (strtoll_parts p) as Hparts. destruct (skip_space_spec p) as (sp & Hsp & Hspace & _).
  destruct (unsign (skip_space p)) as [sg t] eqn:Eu. destruct Hparts as (Hv & H10 & Hend).
  pose proof (unsign_app (skip_space p)) as [Ht Hsg]. rewrite Eu in Ht, Hsg. cbn [fst snd] in Ht, Hsg.
  destruct (is_digit (chr0 t)) eqn:Ed; rewrite Hend; [|unfold p; cbn [skip_blank]; by rewrite Hc].
  destruct (skip_digits_spec t) as (ds & Hds & Hdig & Hstop). destruct (skip_blank_spec (skip_digits t)) as (b & Hb & Hbl & _).
  destruct (skip_blank (skip_digits t)) eqn:Eb; [|done]. rewrite app_nil_r in Hb. intros [= <-].
  assert (Hval : dec_value t 0 = dec_value ds 0) by (rewrite Hds at 1; apply dec_value_run; [done|rewrite Hb; by apply blank_stops]).
  exists a, sp, sg, ds, b. rewrite H10, <- Hv, saturate_id by done. repeat split; [|done|done|done| |done|done| |done].
  - rewrite Hs, Hsp, Ht, Hds, Hb at 1. by rewrite ?app_assoc.
  - intros ->. cbn [app] in Hds. rewrite Hds in Ed. rewrite Hb in Ed. by rewrite blank_stops in Ed.
  - by rewrite Hv, Hval.
Qed.

Lemma digit_bounds c : is_digit c = true -> 48 <= c <= 57.
Proof. unfold is_digit. intros. bool_to_prop. lia. Qed.

Lemma unsign_text sg ds b : (sg = [] \/ sg = [45] \/ sg = [43]) -> ds <> [] -> Forall (fun c => is_digit c = true) ds ->
  unsign (sg ++ ds ++ b) = (sg, ds ++ b) /\ isspace (chr0 (sg ++ ds ++ b)) = false /\ sg ++ ds ++ b <> [].
Proof.
  intros Hsg Hne Hds. destruct ds as [|c ds']; [done|]. apply Forall_cons in Hds as [Hc%digit_bounds _].
  destruct Hsg as [->|[->| ->]]; [|done|done]. cbn [app]. split; [|split; [|done]].
  - destruct c as [|p|p]; try done. do 6 (destruct p as [p|p|]; try done); lia.
  - cbn [chr0]. unfold isspace. destruct (Z.eqb_spec c 32), (Z.leb_spec 9 c), (Z.leb_spec c 13); done || lia.
Qed.

Lemma skip_blank_space sp t : Forall (fun c => isspace c = true) sp -> isspace (chr0 t) = false -> t <> [] ->
  exists sp', skip_blank (sp ++ t) = sp' ++ t /\ Forall (fun c => isspace c = true) sp'.
Proof.
  intros Hsp Ht Hne. induction Hsp as [|c sp Hc Hsp IH]; cbn [app skip_blank].
  - exists []. split; [|done]. destruct t as [|c t]; [done|]. cbn [chr0 skip_blank] in *. cbn [app].
    destruct (ws c) eqn:Ew; [|done]. unfold ws, isspace in *. bool_to_prop.
    destruct (Z.eqb_spec c 32), (Z.leb_spec 9 c), (Z.leb_spec c 13); done || lia.
  - destruct (ws c); [done|]. exists (c :: sp). split; [done|by constructor].
Qed.

Lemma written_parse_int s v : written s v -> lpp_parse_int (Some s) = Ok v.
Proof.
  intros (a & sp & sg & ds & b & -> & Ha & Hsp & Hsg & Hne & Hds & Hb & -> & Hi).
  destruct (unsign_text sg ds b Hsg Hne Hds) as (Hu & Hhd & Hnil). set (t := sg ++ ds ++ b) in *.
  assert (Hs : skip_blank (a ++ sp ++ t) = skip_blank (sp ++ t)) by by apply (skip_while_app ws).
  destruct (skip_blank_space sp t Hsp Hhd Hnil) as (sp' & E & Hsp'). rewrite E in Hs.
  assert (Ht : skip_space (sp' ++ t) = t).
  { rewrite (skip_while_app isspace) by done. destruct t as [|c t']; [done|]. cbn [chr0] in Hhd. cbn [skip_space]. by rewrite Hhd. }
  pose proof (strtoll_parts (sp' ++ t)) as Hparts. rewrite Ht, Hu in Hparts.
  assert (Hstop : stops b) by by apply blank_stops.
  rewrite dec_value_run in Hparts by done. destruct Hparts as (Hv & H10 & Hend).
  assert (is_digit (chr0 (ds ++ b)) = true) as Hd by (destruct ds; [done|by apply Forall_cons in Hds as [? _]]).
  rewrite Hd, skip_digits_all in Hend by done.
  assert (Hb0 : skip_blank b = []) by (rewrite <- (app_nil_r b); by rewrite (skip_while_app ws)).
  unfold lpp_parse_int. destruct (a ++ sp ++ t) as [|c0 s0] eqn:Es; [by apply app_nil in Es as [_ [_ ?]%app_nil]|].
  rewrite Hs, Hv, Hi, Hend, Hb0, H10, saturate_id by done. cbn [negb].
  destruct (sp' ++ t) eqn:Ep; [by apply app_nil in Ep as [_ ?]|done].
Qed.

(** ** Lemmas: streams *)

(** Nothing happens to the streams but those of [X]. *)
Definition outside (X : gset Z) (w w' : fs) : Prop := forall x, x ∉ X -> streams w' !! x = streams w !! x.

#[export] Instance outside_preorder X : PreOrder (outside X).
Proof. split; [by intros w x|]. intros w1 w2 w3 H1 H2 x Hx. by rewrite H2, H1. Qed.

Lemma outside_mono X Y w w' : X ⊆ Y -> outside X w w' -> outside Y w w'.
Proof. intros HXY H x Hx. apply H. set_solver. Qed.

(** Streams that are closed in the end were never there. *)
Lemma outside_closed X w w' : outside X w w' -> (forall x, x ∈ X -> streams w !! x = None) -> (forall x, x ∈ X -> streams w' !! x = None) ->
  streams w' = streams w.
Proof.
  intros Ho H1 H2. apply map_eq. intros x. destruct (decide (x ∈ X)); [by rewrite H1, H2|by apply Ho].
Qed.

Section streams.
Context (io : stdio) `{!Stdio io}.

Lemma at_pos_outside w f s n e : outside {[f]} w (at_pos w f s n e).
Proof. intros x Hx. cbn. apply lookup_insert_ne. set_solver. Qed.

Lemma fread_outside w f n : outside {[f]} w (fread io w f n).2.
Proof. unfold fread. destruct (streams w !! f) as [s|]; [|by intros x]. destruct (files w !! spath s); apply at_pos_outside. Qed.

Lemma fwrite_outside w b f : outside {[f]} w (fwrite io w b f).2.
Proof. unfold fwrite. destruct (streams w !! f); [|by intros x]. cbn [snd]. intros x Hx. cbn. apply lookup_insert_ne. set_solver. Qed.

Lemma fclose_outside w f : outside {[f]} w (fclose io w f).2.
Proof. intros x Hx. cbn. apply lookup_delete_ne. set_solver. Qed.

Lemma fclose_gone w f : streams (fclose io w f).2 !! f = None.
Proof. cbn. apply lookup_delete_eq. Qed.

(** An open fails and changes nothing, or returns a stream that was not open. *)
Lemma fopen_cases w p m : fopen io w p m = (None, w) \/
  exists f w', fopen io w p m = (Some f, w') /\ streams w !! f = None /\ outside {[f]} w w' /\ dirs w' = dirs w.
Proof.
  unfold fopen. destruct (match m with Rb => _ | _ => _ end); [by left|]. destruct (new_stream io w p m) as [f|] eqn:E; [right|by left].
  do 2 eexists. split; [done|]. split; [by eapply stream_fresh|]. split; [|done]. intros x Hx. cbn. apply lookup_insert_ne. set_solver.
Qed.

(** A stream opened for [w] and closed again. *)
Lemma restored w w1 f w2 : streams w !! f = None -> outside {[f]} w w1 -> outside {[f]} w1 w2 -> streams (fclose io w2 f).2 = streams w.
Proof.
  intros Hf H1 H2. apply (outside_closed {[f]} w); [|by intros x ->%elem_of_singleton|intros x ->%elem_of_singleton; apply fclose_gone].
  etrans; [exact H1|]. etrans; [exact H2|]. apply fclose_outside.
Qed.

Lemma put_streams w p d m : streams (put io w p d m).2 = streams w.
Proof.
  unfold put. destruct (fopen_cases w p m) as [->|(f & w1 & -> & Hf & H1 & _)]; [done|].
  pose proof (fwrite_outside w1 d f) as H2. destruct (fwrite io w1 d f) as [n w2]. cbn [snd] in H2.
  apply (restored w w1 f w2 Hf H1 H2).
Qed.

Lemma mkdir_streams w p : streams (mkdir io w p).2 = streams w.
Proof. unfold mkdir. by destruct (_ || _ || _ || _). Qed.

Lemma parents_loop_streams rest : forall w d, streams (parents_loop io w d rest) = streams w.
Proof.
  induction rest as [|c rest IH]; intros w d; cbn [parents_loop]; [done|]. rewrite IH.
  destruct (_ || _); [apply mkdir_streams|done].
Qed.

Lemma make_parent_dirs_streams w p : streams (make_parent_dirs io w p) = streams w.
Proof. unfold make_parent_dirs. destruct (take 1023 p); [done|apply parents_loop_streams]. Qed.

Lemma slurp_outside fuel al f : forall k w cap len buf, match slurp io fuel al k w f cap len buf with Ok (_, w') => outside {[f]} w w' | _ => True end.
Proof.
  induction fuel as [|fuel IH]; intros k w cap len buf; cbn [slurp]; [done|].
  destruct (if _ >=? _ then _ else _) as [[[[k' cap'] buf']|]| | |]; cbn [obind]; try done.
  pose proof (fread_outside w f 1024) as H1. destruct (fread io w f 1024) as [got w1]. cbn [snd] in H1.
  destruct (_ =? 0); [done|]. destruct (memcpy _ _ _ _ _) as [b| | |]; cbn [obind]; try done.
  specialize (IH k' w1 cap' (len + Z.of_nat (length got)) b). destruct (slurp _ _ _ _ _ _ _ _ _) as [[r w2]| | |]; try done. by etrans.
Qed.

(** The outcome of a call leaves the streams of [w]. *)
Definition keeps_streams {A} (w : fs) (m : outcome (A * fs)) : Prop := match m with Ok (_, w') => streams w' = streams w | _ => True end.

Lemma read_streams fuel al w p : keeps_streams w (lpp_read_file io fuel al w p).
Proof.
  unfold lpp_read_file. destruct p as [p|]; [|done].
  destruct (fopen_cases w p Rb) as [->|(f & w1 & -> & Hf & H1 & _)]; [done|].
  assert (Hslow : keeps_streams w (if negb (al 0%nat 4096) then Ok (None, (fclose io w1 f).2)
     else let! '(r, w0) := slurp io fuel al 1 w1 f 4096 0 (replicate 4096 0) in
       match r with None => Ok (None, (fclose io w0 f).2)
       | Some (buf, len) => let! buf := wr buf len 0 in Ok (Some (until_nul buf), (fclose io w0 f).2) end)).
  { destruct (al 0%nat 4096); cbn [negb]; [|by apply (restored w w1 f w1)].
    pose proof (slurp_outside fuel al f 1 w1 4096 0 (replicate 4096 0)) as H2.
    destruct (slurp _ _ _ _ _ _ _ _ _) as [[r w2]| | |]; cbn [obind]; try done.
    destruct r as [[b len]|]; [|by apply (restored w w1 f w2)]. destruct (wr b len 0); cbn [obind]; try done. by apply (restored w w1 f w2). }
  destruct (fstat io w1 f) as [[[] size]|]; [|done..]. destruct (chk64 (size + 1)) as [t| | |]; cbn [obind]; try done.
  destruct (al 0%nat t); cbn [negb]; [|by apply (restored w w1 f w1)].
  pose proof (fread_outside w1 f size) as H2. destruct (fread io w1 f size) as [got w2]. cbn [snd] in H2.
  destruct (memcpy _ _ _ _ _) as [b| | |]; cbn [obind]; try done. destruct (wr _ _ _); cbn [obind]; try done. by apply (restored w w1 f w2).
Qed.

Lemma copy_loop_outside fuel f g : forall w, match copy_loop io fuel w f g with Ok (_, w') => outside {[f; g]} w w' | _ => True end.
Proof.
  induction fuel as [|fuel IH]; intros w; cbn [copy_loop]; [done|].
  pose proof (fread_outside w f 8192) as H1. destruct (fread io w f 8192) as [b w1]. cbn [snd] in H1.
  pose proof (fwrite_outside w1 b g) as H2. destruct (fwrite io w1 b g) as [n w2]. cbn [snd] in H2.
  apply (outside_mono _ {[f; g]}) in H1; [|set_solver]. apply (outside_mono _ {[f; g]}) in H2; [|set_solver].
  assert (H12 : outside {[f; g]} w w2) by by etrans.
  destruct (_ =? 0); cbn [negb andb]; [destruct (_ <? 8192)|destruct (n =? _); cbn [negb]; [destruct (_ <? 8192)|]]; try done.
  - specialize (IH w1). destruct (copy_loop io fuel w1 f g) as [[r w3]| | |]; try done. by etrans; [exact H1|].
  - specialize (IH w2). destruct (copy_loop io fuel w2 f g) as [[r w3]| | |]; try done. by etrans; [exact H12|].
Qed.

Lemma remove_streams w p : streams (remove io w p).2 = streams w.
Proof. unfold remove. by repeat case_match. Qed.

Lemma copy_streams fuel w s d : (forall w f, close_ok io w f = true) -> keeps_streams w (lpp_file_copy io fuel w s d).
Proof.
  intros Hclose. unfold lpp_file_copy. destruct s as [s|], d as [d|]; try done.
  destruct (fopen_cases w s Rb) as [->|(f & w1 & -> & Hf & H1 & _)]; [done|].
  destruct (fopen_cases w1 d Wb) as [->|(g & w2 & -> & Hg & H2 & _)]; [by apply (restored w w1 f w1)|].
  pose proof (copy_loop_outside fuel f g w2) as H3. destruct (copy_loop io fuel w2 f g) as [[failed w3]| | |]; cbn [obind]; try done.
  assert (Hend : streams (fclose io (fclose io w3 f).2 g).2 = streams w).
  { assert (Hall : outside {[f; g]} w w3).
    { etrans; [eapply outside_mono; [|exact H1]; set_solver|]. etrans; [eapply outside_mono; [|exact H2]; set_solver|done]. }
    apply (outside_closed {[f; g]}).
    - etrans; [exact Hall|]. etrans; (eapply outside_mono; [|apply fclose_outside]; set_solver).
    - intros x [->%elem_of_singleton| ->%elem_of_singleton]%elem_of_union; [done|].
      destruct (decide (g = f)) as [->|Hne]; [done|]. rewrite <- (H1 g) by set_solver. done.
    - intros x Hx. cbn. destruct (decide (x = g)) as [->|]; [apply lookup_delete_eq|]. rewrite lookup_delete_ne by done.
      assert (x = f) as -> by set_solver. apply lookup_delete_eq. }
  unfold fclose at 1. rewrite Hclose. cbn [negb Z.eqb]. unfold fclose at 1. cbn [fst].
  unfold fclose in Hend. cbn [snd] in Hend. destruct (failed || _); unfold keeps_streams; [by rewrite remove_streams|done].
Qed.

Lemma probe_streams w p : streams (lpp_file_exists io w p).2 = streams w /\ streams (lpp_file_size io w p).2 = streams w.
Proof.
  unfold lpp_file_exists, lpp_file_size. destruct p as [p|]; [|done].
  destruct (fopen_cases w p Rb) as [->|(f & w1 & -> & Hf & H1 & _)]; [done|]. split; by apply (restored w w1 f w1).
Qed.
End streams.

(** ** Lemmas: contents

    A library that serves every request in full. *)

Record served (io : stdio) : Prop := {
  moves_all : forall w n, 0 <= n -> moved io w n = n;
  opens_always : forall w p m, is_Some (new_stream io w p m);
  closes_well : forall w f, close_ok io w f = true;
  allows_all : forall w r, allows io w r = true
}.

(** *** Parent directories *)

Lemma parent_app p c : parent (p ++ [c]) = if c =? 47 then Some p else parent p.
Proof.
  induction p as [|x p IH]; cbn [app parent]; [by destruct (c =? 47)|]. rewrite IH.
  destruct (c =? 47); [done|]. by destruct (parent p).
Qed.

Section parents.
Context (io : stdio).

(** Making directories changes no file and takes no directory away. *)
Lemma parents_loop_files rest : forall w d, files (parents_loop io w d rest) = files w /\ dirs w ⊆ dirs (parents_loop io w d rest).
Proof.
  induction rest as [|c rest IH]; intros w d; cbn [parents_loop]; [set_solver|].
  assert (files (if (c =? 47) || (c =? 92) then (mkdir io w d).2 else w) = files w /\
    dirs w ⊆ dirs (if (c =? 47) || (c =? 92) then (mkdir io w d).2 else w)) as [Hf Hd].
  { destruct ((c =? 47) || (c =? 92)); [|set_solver]. unfold mkdir. destruct (_ || _ || _ || _); cbn; set_solver. }
  destruct (IH (if (c =? 47) || (c =? 92) then (mkdir io w d).2 else w) (d ++ [c])) as [-> Hd']. split; [done|set_solver].
Qed.
Lemma make_parent_dirs_files w p : files (make_parent_dirs io w p) = files w /\ dirs w ⊆ dirs (make_parent_dirs io w p).
Proof. unfold make_parent_dirs. destruct (take 1023 p); [set_solver|apply parents_loop_files]. Qed.

Hypothesis Hio : served io.

(** No file is where a directory is needed. *)
Definition way_free (w : fs) (p : list Z) : Prop := forall q r, p = q ++ 47 :: r -> files w !! q = None.

Lemma parents_loop_ok rest : forall w d, d <> [] -> parent_exists w d = true ->
  (forall q r, d ++ rest = q ++ 47 :: r -> files w !! q = None) ->
  let w' := parents_loop io w d rest in parent_exists w' (d ++ rest) = true /\
  (forall q, q ∈ dirs w' -> q ∈ dirs w \/ exists r, d ++ rest = q ++ r /\ r <> []).
Proof.
  induction rest as [|c rest IH]; intros w d Hd Hpar Hfiles; cbn [parents_loop]; [rewrite app_nil_r; auto 6|].
  assert (Hw : exists w1, (if (c =? 47) || (c =? 92) then (mkdir io w d).2 else w) = w1 /\ files w1 = files w /\ dirs w ⊆ dirs w1 /\
     (forall q, q ∈ dirs w1 -> q ∈ dirs w \/ q = d) /\ (c = 47 -> d ∈ dirs w1)).
  { eexists. split; [done|]. unfold mkdir. rewrite (allows_all io Hio), Hpar. cbn [negb orb]. rewrite orb_false_r.
    destruct (Z.eqb_spec c 47) as [->|H47]; cbn [orb].
    - rewrite (bool_decide_eq_false_2 (is_Some (files w !! d))), orb_false_r by (rewrite (Hfiles d rest) by done; by intros [? ?]).
      destruct (bool_decide_reflect (d ∈ dirs w)); cbn [snd set_dirs files dirs]; set_solver.
    - destruct (c =? 92); [|set_solver]. destruct (bool_decide (d ∈ dirs w) || _); cbn [snd set_dirs files dirs]; set_solver. }
  destruct Hw as (w1 & -> & Hf1 & Hd1 & Hnew & H47).
  assert (Hpar1 : parent_exists w1 (d ++ [c]) = true).
  { unfold parent_exists in *. rewrite parent_app. destruct (Z.eqb_spec c 47) as [->|].
    - destruct d; [done|]. apply bool_decide_eq_true_2. by apply H47.
    - destruct (parent d) as [[|x q]|]; [done| |done]. apply bool_decide_eq_true in Hpar. apply bool_decide_eq_true_2. set_solver. }
  destruct (IH w1 (d ++ [c])) as (H1 & H4); [by destruct d|done| |].
  - intros q r E. rewrite Hf1. apply (Hfiles q r). by rewrite <- E, <- app_assoc.
  - rewrite <- app_assoc in H1, H4. cbn [app] in H1, H4. split; [done|].
    intros q [?%Hnew|?]%H4; [|auto]. destruct H as [?| ->]; [auto|]. right. by exists (c :: rest).
Qed.

(** Every directory on the way is there afterwards, and the path itself is none of them. *)
Lemma make_parent_dirs_ok w p : (length p <= 1023)%nat -> way_free w p ->
  let w' := make_parent_dirs io w p in parent_exists w' p = true /\ (p ∉ dirs w -> p ∉ dirs w').
Proof.
  intros Hl Hf. unfold make_parent_dirs. rewrite take_ge by lia. destruct p as [|c p]; [done|].
  destruct (parents_loop_ok p w [c]) as (H1 & H4); [done|unfold parent_exists; cbn; by destruct (c =? 47)|done|].
  split; [done|]. intros Hn [?|(r & E & Hr)]%H4; [done|]. apply (f_equal length) in E.
  cbn [app length] in E. rewrite length_app in E. destruct r; [done|cbn [length] in E; lia].
Qed.
End parents.

Section served.
Context (io : stdio) `{!Stdio io} (Hio : served io).

Lemma fopen_reading w p : is_Some (files w !! p) \/ p ∈ dirs w -> exists f, streams w !! f = None /\
  fopen io w p Rb = (Some f, set_streams w (<[f := mk_stream p 0 false false]> (streams w))) /\ new_stream io w p Rb = Some f.
Proof.
  intros Hc. unfold fopen. replace (bool_decide (files w !! p = None) && bool_decide (p ∉ dirs w)) with false.
  2: { symmetry. destruct Hc as [[c ->]|Hd]; [done|]. by rewrite (bool_decide_eq_false_2 (p ∉ dirs w)), andb_false_r by auto. }
  destruct (opens_always io Hio w p Rb) as [f Hf]. rewrite Hf. exists f. split; [by eapply stream_fresh|]. by unfold set_streams.
Qed.
Lemma fopen_existing w p c : files w !! p = Some c -> exists f, streams w !! f = None /\
  fopen io w p Rb = (Some f, set_streams w (<[f := mk_stream p 0 false false]> (streams w))).
Proof. intros Hc. destruct (fopen_reading w p) as (f & H1 & H2 & _); [rewrite Hc; left; by eexists|by exists f]. Qed.

Lemma fopen_new w p m : m <> Rb -> p ∉ dirs w -> parent_exists w p = true -> exists f, streams w !! f = None /\
  fopen io w p m = (Some f, mk_fs (<[p := if decide (m = Wb) then [] else default [] (files w !! p)]> (files w)) (dirs w)
                              (<[f := mk_stream p 0 (bool_decide (m = Ab)) false]> (streams w)) (stdin w) (stdout w)).
Proof.
  intros Hm Hp Hpar. unfold fopen. destruct (opens_always io Hio w p m) as [f Hf]. exists f.
  destruct m; [done|..]; rewrite bool_decide_eq_false_2, Hpar by done; cbn [orb negb]; rewrite Hf; (split; [by eapply stream_fresh|done]).
Qed.

Lemma fread_at w f p pos ap e c n : streams w !! f = Some (mk_stream p pos ap e) -> files w !! p = Some c -> 0 <= pos <= Z.of_nat (length c) -> 0 <= n ->
  fread io w f n = (take (Z.to_nat n) (drop (Z.to_nat pos) c),
    set_streams w (<[f := mk_stream p (pos + Z.of_nat (length (take (Z.to_nat n) (drop (Z.to_nat pos) c)))) ap e]> (streams w))).
Proof.
  intros Hs Hc Hpos Hn. unfold fread, at_pos. rewrite Hs. cbn [spos spath sappend serror]. rewrite Hc.
  rewrite (moves_all io Hio) by lia. rewrite Z.ltb_irrefl, orb_false_r, length_take, length_drop. f_equal.
  - destruct (Z.le_ge_cases n (Z.of_nat (length c - Z.to_nat pos))).
    + by rewrite Z.min_l by lia.
    + rewrite Z.min_r, !take_ge by (rewrite ?length_drop; lia). done.
  - do 4 f_equal. lia.
Qed.

(** A write at the end of the file. *)
Lemma fwrite_end w f p pos ap e c b : streams w !! f = Some (mk_stream p pos ap e) -> files w !! p = Some c ->
  (ap = true \/ pos = Z.of_nat (length c)) ->
  fwrite io w b f = (Z.of_nat (length b), mk_fs (<[p := c ++ b]> (files w)) (dirs w)
    (<[f := mk_stream p (pos + Z.of_nat (length b)) ap e]> (streams w)) (stdin w) (stdout w)).
Proof.
  intros Hs Hc Hend. unfold fwrite, at_pos. rewrite Hs. cbn [spos spath sappend serror]. rewrite Hc. cbn [default]. unfold id.
  rewrite (moves_all io Hio), Z.ltb_irrefl, orb_false_r, Nat2Z.id, firstn_all by lia.
  replace (if ap then Z.of_nat (length c) else pos) with (Z.of_nat (length c)) by (destruct Hend as [->| ->]; [done|by destruct ap]).
  rewrite Nat2Z.id, firstn_all, drop_ge, app_nil_r by lia. done.
Qed.

Lemma fclose_ok w f : fclose io w f = (0, set_streams w (delete f (streams w))).
Proof. unfold fclose. by rewrite (closes_well io Hio). Qed.

(** *** The builtins *)

Lemma put_exact w p d m : m <> Rb -> p ∉ dirs w -> parent_exists w p = true -> (put io w p d m).1 = 0 /\
  files (put io w p d m).2 = <[p := (if decide (m = Wb) then [] else default [] (files w !! p)) ++ d]> (files w).
Proof.
  intros Hm Hd Hp. destruct (fopen_new w p m Hm Hd Hp) as (f & Hf & E). unfold put. rewrite E.
  erewrite fwrite_end; [|cbn; apply lookup_insert_eq|cbn; apply lookup_insert_eq|].
  2: { destruct m; cbn; auto. }
  rewrite fclose_ok. unfold slen. rewrite Z.eqb_refl. cbn. split; [done|]. by rewrite insert_insert_eq.
Qed.

(** What is left of a stream after the bytes read so far. *)
Lemma slurp_exact al f p c ap e : (forall k n, al k n = true) -> Z.of_nat (length c) < 2 ^ 60 ->
  forall fuel k w cap (len : nat) buf, (length c - len < fuel)%nat -> (len <= length c)%nat ->
  Z.of_nat (length buf) = cap -> Z.of_nat len < cap -> cap < 2 ^ 62 -> 4096 <= cap -> take len buf = take len c ->
  streams w !! f = Some (mk_stream p (Z.of_nat len) ap e) -> files w !! p = Some c ->
  exists buf' w', slurp io fuel al k w f cap (Z.of_nat len) buf = Ok (Some (buf', Z.of_nat (length c)), w') /\
    files w' = files w /\ take (length c) buf' = c /\ (length c < length buf')%nat.
Proof.
  intros Hal Hc. induction fuel as [|fuel IH]; intros k w cap len buf Hfuel Hlen Hbuf Hlt Hcap Hbig Hpre Hs Hf; [lia|].
  cbn [slurp].
  assert (Hgrow : exists k' cap' buf', (if Z.of_nat len + 1024 >=? cap then
      if cap >? Z.quot INT64_MAX 2 then Ok None
      else if negb (al k (cap * 2)) then Ok None
      else let! b := memcpy (replicate (Z.to_nat (cap * 2)) 0) 0 buf 0 (Z.of_nat len) in Ok (Some (S k, cap * 2, b))
    else Ok (Some (k, cap, buf))) = Ok (Some (k', cap', buf')) /\ Z.of_nat (length buf') = cap' /\ Z.of_nat len + 1024 < cap' /\
    4096 <= cap' /\ cap' < 2 ^ 62 /\ take len buf' = take len c).
  { rewrite Z.geb_leb. destruct (Z.leb_spec cap (Z.of_nat len + 1024)).
    - rewrite Z.gtb_ltb, (proj2 (Z.ltb_ge _ _)), Hal by (change (Z.quot INT64_MAX 2) with (2 ^ 62 - 1); lia). cbn [negb].
      rewrite (memcpy_grow buf len) by lia. cbn [obind]. do 3 eexists. split; [done|].
      rewrite Hpre, length_app, length_take, length_replicate. repeat split; try lia.
      rewrite take_app_le by (rewrite length_take; lia). by rewrite take_take, Nat.min_id.
    - do 3 eexists. split; [done|]. repeat split; try lia; done. }
  destruct Hgrow as (k' & cap' & buf' & -> & Hb' & Hroom & Hbig' & Hcap' & Hpre'). cbn [obind].
  rewrite (fread_at w f p _ ap e c) by (done || lia). rewrite Nat2Z.id. 
  set (cnt := Z.to_nat 1024). assert (Hcnt : Z.of_nat cnt = 1024) by done. clearbody cnt.
  set (got := take cnt (drop len c)). assert (Hgot : length got = Nat.min cnt (length c - len)) by (unfold got; rewrite length_take, length_drop; lia).
  destruct (Z.eqb_spec (Z.of_nat (length got)) 0).
  - assert (len = length c) as -> by lia. do 2 eexists. split; [done|]. split; [done|].
    split; [rewrite Hpre'; by apply take_ge|lia].
  - rewrite memcpy_chunk by lia. cbn [obind].
    replace (Z.of_nat len + Z.of_nat (length got)) with (Z.of_nat (len + length got)) by lia.
    destruct (IH k' (set_streams w (<[f := mk_stream p (Z.of_nat (len + length got)) ap e]> (streams w))) cap' (len + length got)%nat
      (take len buf' ++ got ++ drop (len + length got) buf')) as (b2 & w2 & E2 & Hf2 & Ht2);
      [lia|lia| |lia|done|done| |cbn; apply lookup_insert_eq|done|exists b2, w2; split; [exact E2|split; [exact Hf2|exact Ht2]]].
    + rewrite !length_app, length_take, length_drop. lia.
    + apply take_chunk; [done|lia|done].
Qed.

Lemma fstat_open w f p pos ap e c : streams w !! f = Some (mk_stream p pos ap e) -> files w !! p = Some c ->
  fstat io w f = (fun r => (r, Z.of_nat (length c))) <$> is_reg io w p.
Proof. intros Hs Hc. unfold fstat. rewrite Hs. cbn [spath]. rewrite Hc. destruct (is_reg io w p) as [[]|]; done. Qed.

(** A regular file is read by its size, another in pieces; both give the content. *)
Lemma read_file_exact fuel al w p c : (forall k n, al k n = true) -> files w !! p = Some c -> cstr_ok c -> Z.of_nat (length c) < 2 ^ 60 ->
  (length c < fuel)%nat -> exists w', lpp_read_file io fuel al w (Some p) = Ok (Some c, w') /\ files w' = files w.
Proof.
  intros Hal Hc Hok Hlen Hfuel. destruct (fopen_existing w p c Hc) as (f & Hf & E). unfold lpp_read_file. rewrite E.
  set (w1 := set_streams w _). assert (Hs : streams w1 !! f = Some (mk_stream p 0 false false)) by (cbn; apply lookup_insert_eq).
  assert (Hc1 : files w1 !! p = Some c) by done. rewrite (fstat_open w1 f p 0 false false c Hs Hc1).
  assert (Hslow : exists w', (if negb (al 0%nat 4096) then Ok (None, (fclose io w1 f).2)
     else let! '(r, w0) := slurp io fuel al 1 w1 f 4096 0 (replicate 4096 0) in
       match r with None => Ok (None, (fclose io w0 f).2)
       | Some (buf, len) => let! buf := wr buf len 0 in Ok (Some (until_nul buf), (fclose io w0 f).2) end) = Ok (Some c, w') /\ files w' = files w).
  { rewrite Hal. cbn [negb].
    destruct (slurp_exact al f p c false false Hal Hlen fuel 1 w1 4096 0%nat (replicate 4096 0)) as (b & w2 & E2 & Hf2 & Ht & Hb);
      [lia|lia|done|lia|lia|lia|done|done|done|]. change (Z.of_nat 0) with 0 in E2. rewrite E2. cbn [obind].
    destruct (until_nul_wr c b Ht Hb) as (b' & -> & E'). cbn [obind]. exists (fclose io w2 f).2. split; [|exact Hf2].
    by rewrite E', until_nul_id. }
  destruct (is_reg io w1 p) as [[]|]; cbn [fmap option_fmap option_map]; [|exact Hslow..].
  rewrite chk64_ok by (unfold INT64_MIN, INT64_MAX; lia). cbn [obind]. rewrite Hal. cbn [negb].
  rewrite (fread_at w1 f p 0 false false c) by (done || lia). change (Z.to_nat 0) with 0%nat. rewrite drop_0, Nat2Z.id, firstn_all.
  rewrite memcpy_front by (rewrite length_replicate; lia). cbn [obind]. rewrite drop_replicate.
  rewrite wr_ok by (rewrite length_app, length_replicate; lia). cbn [obind]. rewrite Nat2Z.id. 
  match goal with |- exists _, Ok (_, ?x) = _ /\ _ => exists x end. split; [|done]. do 3 f_equal.
  rewrite insert_app_r_alt, Nat.sub_diag by lia. replace (Z.to_nat (Z.of_nat (length c) + 1) - length c)%nat with 1%nat by lia.
  cbn. rewrite until_nul_stop. by apply until_nul_id.
Qed.

Lemma copy_loop_exact f g s d c : f <> g -> s <> d -> forall fuel w (k : nat), (length c - k < fuel)%nat -> (k <= length c)%nat ->
  streams w !! f = Some (mk_stream s (Z.of_nat k) false false) -> streams w !! g = Some (mk_stream d (Z.of_nat k) false false) ->
  files w !! s = Some c -> files w !! d = Some (take k c) ->
  exists w', copy_loop io fuel w f g = Ok (false, w') /\ files w' = <[d := c]> (files w).
Proof.
  intros Hfg Hsd. induction fuel as [|fuel IH]; intros w k Hfuel Hk Hf Hg Hs Hd; [lia|]. cbn [copy_loop].
  rewrite (fread_at w f s _ false false c) by (done || lia). rewrite Nat2Z.id.
  set (cnt := Z.to_nat 8192). assert (Hcnt : Z.of_nat cnt = 8192) by done. clearbody cnt.
  set (got := take cnt (drop k c)). assert (Hgot : length got = Nat.min cnt (length c - k)) by (unfold got; rewrite length_take, length_drop; lia).
  set (w1 := set_streams w _). assert (Hf1 : streams w1 !! f = Some (mk_stream s (Z.of_nat k + Z.of_nat (length got)) false false)) by (cbn; apply lookup_insert_eq).
  assert (Hg1 : streams w1 !! g = Some (mk_stream d (Z.of_nat k) false false)) by (cbn; by rewrite lookup_insert_ne).
  assert (Hferr : forall w2, streams w2 !! f = streams w1 !! f -> ferror w2 f = false) by (intros w2 E; unfold ferror; by rewrite E, Hf1).
  destruct (Z.eqb_spec (Z.of_nat (length got)) 0) as [H0|H0]; cbn [negb andb].
  - rewrite (proj2 (Z.ltb_lt _ _)) by lia. rewrite Hferr by done. eexists. split; [done|]. cbn. rewrite insert_id; [done|].
    rewrite Hd. f_equal. apply take_ge. lia.
  - rewrite (fwrite_end w1 g d (Z.of_nat k) false false (take k c)) by (done || right; rewrite length_take; lia).
    rewrite Z.eqb_refl. cbn [negb]. set (w2 := mk_fs _ _ _ _ _).
    assert (Hf2 : streams w2 !! f = streams w1 !! f) by (cbn; by rewrite lookup_insert_ne).
    assert (Htk : take k c ++ got = take (k + length got) c).
    { unfold got. rewrite take_take_drop, length_take, length_drop. destruct (Nat.le_ge_cases cnt (length c - k)); [f_equal; lia|]. rewrite !take_ge by lia. done. }
    destruct (Z.ltb_spec (Z.of_nat (length got)) 8192).
    + rewrite Hferr by done. eexists. split; [done|]. cbn. rewrite Htk, take_ge by lia. done.
    + destruct (IH w2 (k + length got)%nat) as (w3 & -> & E3); [lia|lia| | | | |exists w3; split; [done|]].
      * rewrite Hf2, Hf1. do 2 f_equal. lia.
      * cbn. rewrite lookup_insert_eq. do 2 f_equal. lia.
      * cbn. by rewrite lookup_insert_ne.
      * cbn. by rewrite lookup_insert_eq, Htk.
      * rewrite E3. cbn. by rewrite insert_insert_eq.
Qed.

Lemma copy_exact fuel w s d c : s <> d -> files w !! s = Some c -> d ∉ dirs w -> parent_exists w d = true -> (length c < fuel)%nat ->
  exists w', lpp_file_copy io fuel w (Some s) (Some d) = Ok (0, w') /\ files w' = <[d := c]> (files w).
Proof.
  intros Hsd Hs Hd Hp Hfuel. destruct (fopen_existing w s c Hs) as (f & Hf & E). unfold lpp_file_copy. rewrite E.
  set (w1 := set_streams w _). destruct (fopen_new w1 d Wb ltac:(done) Hd Hp) as (g & Hg & E2). rewrite E2. rewrite decide_True by done. set (w2 := mk_fs _ _ _ _ _).
  assert (Hfg : f <> g) by (intros ->; cbn in Hg; by rewrite lookup_insert_eq in Hg).
  destruct (copy_loop_exact f g s d c Hfg Hsd fuel w2 0%nat) as (w3 & -> & E3); [lia|lia| | | | |].
  - cbn. rewrite lookup_insert_ne by done. apply lookup_insert_eq.
  - cbn. apply lookup_insert_eq.
  - cbn. by rewrite lookup_insert_ne.
  - cbn. apply lookup_insert_eq.
  - cbn [obind]. rewrite !fclose_ok. cbn. eexists. split; [done|]. cbn. rewrite E3. cbn. by rewrite insert_insert_eq.
Qed.

(** What the builtins do on a directory. *)
Lemma directory_exact (al : allocator) w p : (forall k n, al k n = true) -> files w !! p = None -> p ∈ dirs w ->
  (lpp_file_exists io w (Some p)).1 = 1 /\ (lpp_file_size io w (Some p)).1 = -1 /\
  (forall d, lpp_append_file io w (Some p) (Some d) = (-1, w) /\
     let r := lpp_write_file io w (Some p) (Some d) in r.1 = -1 /\ files r.2 = files w) /\
  (forall fuel, (0 < fuel)%nat -> exists w', lpp_read_file io fuel al w (Some p) = Ok (Some [], w') /\ files w' = files w) /\
  lpp_delete_file io w (Some p) = if empty_dir w p then (0, set_dirs w (dirs w ∖ {[p]})) else (-1, w).
Proof.
  intros Hal Hp Hd. unfold lpp_file_exists, lpp_file_size, lpp_append_file, lpp_write_file, lpp_read_file, lpp_delete_file, put.
  destruct (fopen_reading w p (or_intror Hd)) as (f & Hf & E & _). rewrite !E. set (w1 := set_streams w _).
  assert (Hs : streams w1 !! f = Some (mk_stream p 0 false false)) by (cbn; apply lookup_insert_eq).
  assert (Hst : forall n, fstat io w1 f <> Some (true, n)).
  { intros n. unfold fstat. rewrite Hs. cbn [spath]. change (files w1 !! p) with (files w !! p). rewrite Hp.
    destruct (is_reg io w1 p) as [[]|]; done. }
  split_and!; [done| | | |].
  - destruct (fstat io w1 f) as [[[] n]|]; try done. by destruct (Hst n).
  - intros d. unfold fopen. rewrite (bool_decide_eq_true_2 (p ∈ dirs w)) by done. cbn [orb]. split; [done|].
    destruct (make_parent_dirs_files io w p) as [Hfs Hds]. rewrite bool_decide_eq_true_2 by set_solver. cbn [orb]. done.
  - intros [|fuel] Hfuel; [lia|].
    exists (fclose io (at_pos w1 f (mk_stream p 0 false false) 0 (0 <? 1024)) f).2. split; [|done].
    assert (fread io w1 f 1024 = ([], at_pos w1 f (mk_stream p 0 false false) 0 (0 <? 1024))) as Hr.
    { unfold fread. rewrite Hs. cbn [spath]. change (files w1 !! p) with (files w !! p). by rewrite Hp. }
    destruct (fstat io w1 f) as [[[] n]|]; [by destruct (Hst n)|..];
      rewrite Hal; cbn [negb slurp]; change (0 + 1024 >=? 4096) with false; cbn [obind]; rewrite Hr; cbn [length]; change (Z.of_nat 0 =? 0) with true; cbn [obind];
      rewrite wr_ok by (rewrite length_replicate; lia); done.
  - unfold remove. rewrite (allows_all io Hio), Hp. cbn [negb]. rewrite bool_decide_eq_false_2, bool_decide_eq_true_2 by (done || by intros [? ?]). cbn [andb].
    by destruct (empty_dir w p).
Qed.

(** A copy of a file onto itself: the second open empties it before the first byte is read. *)
Lemma copy_self fuel w s c : files w !! s = Some c -> s ∉ dirs w -> parent_exists w s = true -> (0 < fuel)%nat ->
  exists w', lpp_file_copy io fuel w (Some s) (Some s) = Ok (0, w') /\ files w' = <[s := []]> (files w).
Proof.
  intros Hs Hd Hp Hfuel. destruct (fopen_existing w s c Hs) as (f & Hf & E). unfold lpp_file_copy. rewrite E.
  set (w1 := set_streams w _). destruct (fopen_new w1 s Wb ltac:(done) Hd Hp) as (g & Hg & E2). rewrite E2. rewrite decide_True by done. set (w2 := mk_fs _ _ _ _ _).
  assert (Hfg : f <> g) by (intros ->; cbn in Hg; by rewrite lookup_insert_eq in Hg).
  destruct fuel as [|fuel]; [lia|]. cbn [copy_loop].
  rewrite (fread_at w2 f s 0 false false []) by (done || (cbn; rewrite lookup_insert_ne by done; apply lookup_insert_eq) || (cbn; apply lookup_insert_eq)).
  rewrite drop_nil, take_nil. change (Z.of_nat (length [])) with 0. change (0 =? 0) with true. change (0 <? 8192) with true. cbv iota beta. cbn [negb andb].
  unfold ferror. cbn [streams set_streams]. rewrite lookup_insert_eq. cbn [serror obind].
  rewrite !fclose_ok. cbn. eexists. split; [done|]. done.
Qed.
End served.

(** ** Lemmas: lines of input *)

Lemma line_cases n s : exists body, Forall (fun c => c <> 10) body /\
  (line n s = body /\ (length body = n \/ body = s) \/ line n s = body ++ [10] /\ (length body < n)%nat).
Proof.
  revert s. induction n as [|n IH]; intros s; cbn [line]; [exists []; auto|]. destruct s as [|c s]; [exists []; auto|].
  destruct (Z.eqb_spec c 10) as [->|Hc].
  - exists []. split; [done|]. right. cbn. split; [done|lia].
  - destruct (IH s) as (body & Hb & H). exists (c :: body). split; [by constructor|].
    destruct H as [[-> [Hl| ->]]|[-> Hl]]; [left|left|right]; cbn; (split; [done|]); [left; lia|by right|lia].
Qed.

Lemma line_length n s : (length (line n s) <= n)%nat.
Proof.
  revert s. induction n as [|n IH]; intros [|c s]; cbn; try lia. destruct (c =? 10); cbn; [lia|]. specialize (IH s). lia.
Qed.

Lemma line_prefix n s : exists r, s = line n s ++ r.
Proof.
  revert s. induction n as [|n IH]; intros [|c s]; cbn [line]; try by eexists.
  destruct (c =? 10); [by exists s|]. destruct (IH s) as [r Hr]. exists r. cbn. by rewrite <- Hr.
Qed.

(** A line without its newline. *)
Definition chomp (l : list Z) : list Z :=
  match last l with Some 10 => take (length l - 1) l | _ => l end.

Lemma chomp_newline b : chomp (b ++ [10]) = b.
Proof. unfold chomp. rewrite last_snoc, length_app. cbn [length]. rewrite Nat.add_sub. apply take_app_length. Qed.

Lemma chomp_plain b : Forall (fun c => c <> 10) b -> chomp b = b.
Proof.
  intros Hb. unfold chomp. destruct (last b) as [c|] eqn:E; [|done]. apply last_Some in E as [l ->].
  apply Forall_app in Hb as [_ [Hc _]%Forall_cons]. destruct c as [|p|p]; try done. do 4 (destruct p as [p|p|]; try done).
Qed.

Lemma input_copy al (l : list Z) n : cstr_ok l -> (length l <= n)%nat -> Z.of_nat n < 2 ^ 31 -> (forall m, al 0%nat m = true) ->
  forall r, fresh_str al 0 (Z.of_nat (length l) + 1) (fun d => memcpy d 0 (l ++ 0 :: r) 0 (Z.of_nat (length l) + 1)) = Ok (Some l).
Proof.
  intros Hl Hn Hmax Hal r. apply (fresh_str_ok al 0 _ _ l 1 (Hal _) Hl).
  replace (Z.of_nat (length l) + 1) with (Z.of_nat (length l + 1)) by lia.
  rewrite memcpy_in by (rewrite ?length_replicate, ?length_app; cbn [length]; lia).
  change (Z.to_nat 0) with 0%nat. rewrite take_0, drop_0, Nat2Z.id, drop_replicate. cbn [app Nat.add]. rewrite Nat.sub_diag. cbn [replicate].
  rewrite app_nil_r. change (0 :: r) with ([0] ++ r). rewrite app_assoc, take_app_le, take_ge by (rewrite length_app; cbn [length]; lia). done.
Qed.

Lemma input_exact al w : (forall m, al 0%nat m = true) -> stdin w <> [] -> cstr_ok (line 4095 (stdin w)) ->
  lpp_input al w = Ok (Some (chomp (line 4095 (stdin w))), set_stdin w (drop (length (line 4095 (stdin w))) (stdin w))).
Proof.
  intros Hal Hne Hl. unfold lpp_input, fgets. destruct (stdin w) as [|c0 s0] eqn:Es; [done|]. rewrite <- Es in *. clear Es c0 s0.
  change (Z.to_nat (4096 - 1)) with 4095%nat. pose proof (line_length 4095 (stdin w)) as Hlen.
  destruct (line_cases 4095 (stdin w)) as (body & Hb & Hcase). set (l := line 4095 (stdin w)) in *. set (w' := set_stdin w _). clearbody w'.
  replace (Z.of_nat (length l) + 1) with (Z.of_nat (length (l ++ [0]))) by (rewrite length_app; cbn [length]; lia).
  rewrite memcpy_front by (rewrite ?length_app, length_replicate; cbn [length]; lia). cbn [obind]. rewrite <- app_assoc. cbn [app].
  rewrite until_nul_stop, until_nul_id by done. set (r := drop _ _). clearbody r. unfold slen.
  destruct Hcase as [[El _]|[El Hlt]].
  - rewrite chomp_plain by by rewrite El. rewrite El in *. clearbody l. clear El l. rename body into l.
    assert (Hrd : exists x, (if Z.of_nat (length l) >? 0 then rd (l ++ 0 :: r) (Z.of_nat (length l) - 1) else Ok 0) = Ok x /\ x <> 10).
    { destruct l as [|c l] using rev_ind; [exists 0; done|]. rewrite length_app. cbn [length]. rewrite Z.gtb_ltb, (proj2 (Z.ltb_lt _ _)) by lia.
      apply Forall_app in Hb as [_ [Hc _]%Forall_cons]. exists c. split; [|done]. apply rd_ok; [lia|].
      rewrite <- app_assoc. apply list_lookup_middle. lia. }
    destruct Hrd as (x & -> & Hx). cbn [obind]. rewrite (proj2 (Z.eqb_neq x 10)), andb_false_r by done. cbn [obind].
    rewrite (input_copy al l 4095) by (done || lia). done.
  - rewrite El in *. rewrite chomp_newline. apply Forall_app in Hl as [Hl _]. rewrite length_app. cbn [length].
    rewrite Z.gtb_ltb, (proj2 (Z.ltb_lt _ _)), (rd_ok _ _ 10) by (lia || (rewrite <- app_assoc; apply list_lookup_middle; lia)).
    cbn [obind andb]. rewrite Z.eqb_refl, wr_ok by (rewrite !length_app; cbn [length]; lia). cbn [obind].
    rewrite <- app_assoc, insert_app_r_alt by lia. replace (Z.to_nat _ - length body)%nat with 0%nat by lia. cbn [app insert list_insert].
    replace (Z.of_nat (length body + 1) - 1) with (Z.of_nat (length body)) by lia.
    rewrite (input_copy al body 4095) by (done || lia). done.
Qed.

(** ** Theorems *)

(** C15. Parsing is strict: [lpp_parse_int] returns [v] exactly for the texts that write [v] as an
    [int64_t] (blanks, an optional sign, at least one digit, blanks), and stops the program with a
    message for everything else: NULL, no digits, trailing characters, a value out of range. *)
Theorem parse_int_exact (str : option cstr) :
  (forall v, lpp_parse_int str = Ok v <-> exists s, str = Some s /\ written s v) /\
  ((exists v, lpp_parse_int str = Ok v) \/ exists reason, lpp_parse_int str = Panic reason).
Proof.
  split.
  - intros v. destruct str as [s|]; [|split; [done|by intros (s & ? & _)]]. split.
    + intros Hp. exists s. split; [done|]. by apply parse_int_written.
    + intros (s' & [= <-] & Hw). by apply written_parse_int.
  - unfold lpp_parse_int. destruct str as [[|c s]|]; [right; by eexists| |right; by eexists].
    destruct (skip_blank (c :: s)) as [|c1 p]; [right; by eexists|]. destruct (negb _); [right; by eexists|].
    destruct (skip_blank (strtoll_end _)); [left|right]; by eexists.
Qed.

(** C16. What is written can be read back, whatever the file is.  With a library that serves every request
    in full, on POSIX names that are not links: [lpp_write_file] to a path of at most 1023 bytes that is no
    directory, with no file where a directory is needed, creates the directories on the way and leaves exactly
    the data (replacing what was there); [lpp_append_file] adds to the end if the directory of the file
    exists; [lpp_read_file] returns a content without NUL, below 2^60 bytes, the same for a regular file (read
    by its size) and any other (read in pieces into a growing block, within its bounds, terminating);
    [lpp_file_copy] makes the destination equal to the source if they differ.  The size (of a
    regular file), existence, deletion and renaming of a file are those of the file, and renaming it onto a directory is refused.  A name that is
    neither file nor directory is reported missing by all of them.  A directory counts as an existing file,
    has no size, cannot be written or appended to, reads as the empty text (the error of the read is not looked
    at), and is deleted if it is empty. *)
Theorem host_files_exact io `{!Stdio io} (al : allocator) w : served io -> (forall k n, al k n = true) ->
  (forall p d, (length p <= 1023)%nat -> p ∉ dirs w -> way_free w p ->
    let r := lpp_write_file io w (Some p) (Some d) in r.1 = 0 /\ files r.2 = <[p := d]> (files w) /\ dirs w ⊆ dirs r.2) /\
  (forall p d, p ∉ dirs w -> parent_exists w p = true ->
    let r := lpp_append_file io w (Some p) (Some d) in r.1 = 0 /\ files r.2 = <[p := default [] (files w !! p) ++ d]> (files w)) /\
  (forall p c fuel, files w !! p = Some c -> cstr_ok c -> Z.of_nat (length c) < 2 ^ 60 -> (length c < fuel)%nat ->
    exists w', lpp_read_file io fuel al w (Some p) = Ok (Some c, w') /\ files w' = files w) /\
  (forall s d c fuel, s <> d -> files w !! s = Some c -> d ∉ dirs w -> parent_exists w d = true -> (length c < fuel)%nat ->
    exists w', lpp_file_copy io fuel w (Some s) (Some d) = Ok (0, w') /\ files w' = <[d := c]> (files w)) /\
  (forall p c, files w !! p = Some c ->
    (lpp_file_exists io w (Some p)).1 = 1 /\
    ((forall w, is_reg io w p = Some true) -> (lpp_file_size io w (Some p)).1 = Z.of_nat (length c)) /\
    lpp_delete_file io w (Some p) = (0, set_files w (delete p (files w))) /\
    (forall q, lpp_file_move io w (Some p) (Some q) =
       if bool_decide (p = q) then (0, w)
       else if bool_decide (q ∈ dirs w) || negb (parent_exists w q) then (-1, w)
       else (0, set_files w (<[q := c]> (delete p (files w)))))) /\
  (forall p, files w !! p = None -> p ∉ dirs w ->
    lpp_file_exists io w (Some p) = (0, w) /\ lpp_file_size io w (Some p) = (-1, w) /\ lpp_delete_file io w (Some p) = (-1, w) /\
    lpp_read_file io 0 al w (Some p) = Ok (None, w) /\ forall q, lpp_file_move io w (Some p) (Some q) = (-1, w)) /\
  (forall p, files w !! p = None -> p ∈ dirs w ->
    (lpp_file_exists io w (Some p)).1 = 1 /\ (lpp_file_size io w (Some p)).1 = -1 /\
    (forall d, lpp_append_file io w (Some p) (Some d) = (-1, w) /\
       let r := lpp_write_file io w (Some p) (Some d) in r.1 = -1 /\ files r.2 = files w) /\
    (forall fuel, (0 < fuel)%nat -> exists w', lpp_read_file io fuel al w (Some p) = Ok (Some [], w') /\ files w' = files w) /\
    lpp_delete_file io w (Some p) = if empty_dir w p then (0, set_dirs w (dirs w ∖ {[p]})) else (-1, w)).
Proof.
  intros Hio Hal. split_and!.
  - intros p d Hl Hd Hf. destruct (make_parent_dirs_ok io Hio w p Hl Hf) as (Hp & Hnd). destruct (make_parent_dirs_files io w p) as [Hfs Hds].
    pose proof (put_exact io Hio (make_parent_dirs io w p) p d Wb ltac:(done) (Hnd Hd) Hp) as [E1 E2].
    unfold lpp_write_file. cbv zeta. rewrite E2, Hfs, decide_True by done. repeat split; [done|].
    unfold put. destruct (fopen_cases io (make_parent_dirs io w p) p Wb) as [->|(f & w1 & -> & _ & _ & E)]; [done|].
    unfold fwrite. by destruct (streams w1 !! f); cbn; rewrite E.
  - intros p d Hd Hp. destruct (put_exact io Hio w p d Ab ltac:(done) Hd Hp) as [E1 E2]. split; [done|]. unfold lpp_append_file. by rewrite E2.
  - intros p c fuel. by apply read_file_exact.
  - intros s d c fuel. by apply copy_exact.
  - intros p c Hc. unfold lpp_file_exists, lpp_file_size, lpp_delete_file, lpp_file_move, remove, rename.
    destruct (fopen_existing io Hio w p c Hc) as (f & Hf & ->). rewrite !(allows_all io Hio), Hc. cbn [negb]. rewrite bool_decide_eq_true_2 by by eexists.
    split_and!; [done| |done|].
    + intros Hreg. erewrite fstat_open; [|cbn; apply lookup_insert_eq|exact Hc]. by rewrite Hreg.
    + intros q. rewrite (allows_all io Hio). cbn [negb]. destruct (bool_decide (p = q)); [done|]. by destruct (_ || _).
  - intros p Hp Hd. unfold lpp_file_exists, lpp_file_size, lpp_delete_file, lpp_read_file, lpp_file_move, remove, rename, fopen. rewrite !(allows_all io Hio), Hp.
    rewrite !bool_decide_eq_true_2, !bool_decide_eq_false_2 by (done || by intros [? ?]). cbn. split_and!; try done. intros q. by rewrite (allows_all io Hio).
  - intros p Hp Hd. by apply directory_exact.
Qed.

(** Streams are closed.  Whatever fails (an open, a transfer, a close, an allocation), every builtin
    that returns leaves open exactly the streams that were open before; for [lpp_file_copy] as long as
    closing the source reports no error. *)
Theorem host_streams_closed io `{!Stdio io} (al : allocator) w p d fuel :
  streams (lpp_write_file io w p d).2 = streams w /\ streams (lpp_append_file io w p d).2 = streams w /\
  streams (lpp_file_exists io w p).2 = streams w /\ streams (lpp_file_size io w p).2 = streams w /\
  keeps_streams w (lpp_read_file io fuel al w p) /\
  ((forall w f, close_ok io w f = true) -> keeps_streams w (lpp_file_copy io fuel w p d)).
Proof.
  split_and!; try by apply probe_streams.
  - unfold lpp_write_file. destruct p as [p|], d as [d|]; try done.
    etrans; [by apply put_streams|apply make_parent_dirs_streams].
  - unfold lpp_append_file. destruct p as [p|], d as [d|]; try done. by apply put_streams.
  - by apply read_streams.
  - by apply copy_streams.
Qed.

(** Input is read line by line and nothing is lost: each call returns the next line without its
    newline, or its next 4095 bytes when it is longer, and leaves the rest; at the end of the input it
    returns NULL.  What is printed is appended to the output in order, integers in decimal. *)
Theorem console_exact (al : allocator) w : (forall m, al 0%nat m = true) ->
  (forall body rest, stdin w = body ++ 10 :: rest -> cstr_ok body -> Forall (fun c => c <> 10) body -> (length body < 4095)%nat ->
    lpp_input al w = Ok (Some body, set_stdin w rest)) /\
  (forall body rest, stdin w = body ++ rest -> cstr_ok body -> Forall (fun c => c <> 10) body -> length body = 4095%nat ->
    lpp_input al w = Ok (Some body, set_stdin w rest)) /\
  (stdin w <> [] -> cstr_ok (stdin w) -> Forall (fun c => c <> 10) (stdin w) -> (length (stdin w) < 4095)%nat ->
    lpp_input al w = Ok (Some (stdin w), set_stdin w [])) /\
  (stdin w = [] -> lpp_input al w = Ok (None, w)) /\
  (forall v, INT64_MIN <= v <= INT64_MAX -> exists t, stdout (lpp_print_int w v) = stdout w ++ t ++ [10] /\ strtoll10 t = v) /\
  (forall s, stdout (lpp_print_str w (Some s)) = stdout (lpp_write_str (lpp_write_str w (Some s)) (Some [10]))).
Proof.
  assert (Hline : forall body r n, Forall (fun c => c <> 10) body -> (length body <= n)%nat -> line n (body ++ r) = body ++ line (n - length body) r).
  { intros body r n Hb. revert n. induction Hb as [|c body Hc _ IH]; intros n Hn; cbn [app length] in *; [by rewrite Nat.sub_0_r|].
    destruct n as [|n]; [lia|]. cbn [line Nat.sub]. rewrite (proj2 (Z.eqb_neq c 10)) by done. by rewrite IH by lia. }
  intros Hal. split_and!.
  - intros body rest Es Hok Hb Hl. assert (E : line 4095 (stdin w) = body ++ [10]).
    { rewrite Es, Hline by (done || lia). destruct (4095 - length body)%nat eqn:En; [lia|done]. }
    rewrite input_exact; rewrite ?E.
    + rewrite chomp_newline, Es. change (10 :: rest) with ([10] ++ rest). by rewrite app_assoc, drop_app_length.
    + done.
    + rewrite Es. by destruct body.
    + apply Forall_app. split; [done|]. by repeat constructor.
  - intros body rest Es Hok Hb Hl. assert (E : line 4095 (stdin w) = body).
    { rewrite Es, Hline by (done || lia). rewrite Hl, Nat.sub_diag. apply app_nil_r. }
    rewrite input_exact; rewrite ?E; [|done| |done].
    + by rewrite chomp_plain, Es, drop_app_length.
    + rewrite Es. by destruct body.
  - intros Hne Hok Hb Hl. assert (E : line 4095 (stdin w) = stdin w).
    { rewrite <- (app_nil_r (stdin w)) at 1. rewrite Hline by (done || lia). by destruct (4095 - length (stdin w))%nat; rewrite ?app_nil_r. }
    rewrite input_exact; rewrite ?E; [|done..]. by rewrite chomp_plain, drop_all.
  - intros Es. unfold lpp_input, fgets. by rewrite Es.
  - intros v Hv. exists (fmt_lld v). split; [done|]. destruct (int_reads v [] Hv) as (E & _); [done|]. by rewrite app_nil_r in E.
  - intros s. cbn. by rewrite app_assoc.
Qed.

(** Copying a file onto itself reports success and leaves it empty. *)
Theorem copy_onto_itself_erases io `{!Stdio io} w s c fuel : served io -> files w !! s = Some c -> s ∉ dirs w -> parent_exists w s = true -> (0 < fuel)%nat ->
  exists w', lpp_file_copy io fuel w (Some s) (Some s) = Ok (0, w') /\ files w' = <[s := []]> (files w).
Proof. intros. by eapply copy_self. Qed.

(** ** The theorems at concrete inputs *)

(** A library that always succeeds, and one whose closes report an error (with two streams). *)
Definition full_io : stdio :=
  mk_stdio (fun w _ _ => Some (fresh (dom (streams w)))) (fun _ n => n) (fun _ _ => true) (fun _ _ => Some true) (fun _ _ => true).
Definition failing_io : stdio :=
  mk_stdio (fun w _ _ => match streams w !! 3, streams w !! 4 with None, _ => Some 3 | _, None => Some 4 | _, _ => None end)
    (fun _ n => n) (fun _ _ => false) (fun _ _ => Some true) (fun _ _ => true).

#[export] Instance full_io_ok : Stdio full_io.
Proof.
  split; [|by intros; cbn; lia]. intros w p m f [= <-]. apply not_elem_of_dom. apply is_fresh.
Qed.
#[export] Instance failing_io_ok : Stdio failing_io.
Proof.
  split; [|by intros; cbn; lia]. intros w p m f. cbn. destruct (streams w !! 3) eqn:E3; [|by intros [= <-]].
  destruct (streams w !! 4) eqn:E4; [done|by intros [= <-]].
Qed.
Lemma full_io_served : served full_io.
Proof. split; [done|by intros; eexists|done|done]. Qed.

Definition fs0 : fs := mk_fs {[ [97] := [1; 2; 3] ]} ∅ ∅ [104; 105; 13; 10; 120] [].
Definition all_al : allocator := fun _ _ => true.

(** When closing the source fails the destination is never closed: its stream stays open. *)
Lemma copy_leaks_stream : exists w', lpp_file_copy failing_io 10 fs0 (Some [97]) (Some [98]) = Ok (-1, w') /\
  streams fs0 = ∅ /\ streams w' !! 4 = Some (mk_stream [98] 3 false false).
Proof. eexists. split; [vm_compute; reflexivity|]. by vm_compute. Qed.

Lemma host_files_exact_witness :
  exists w', lpp_read_file full_io 4 all_al fs0 (Some [97]) = Ok (Some [1; 2; 3], w') /\ files w' = files fs0.
Proof.
  destruct (host_files_exact full_io all_al fs0 full_io_served ltac:(done)) as (_ & _ & H & _).
  apply H; [done|by repeat constructor|done|cbn; lia].
Defined.

Lemma host_streams_closed_witness : keeps_streams fs0 (lpp_file_copy full_io 10 fs0 (Some [97]) (Some [98])).
Proof. destruct (host_streams_closed full_io all_al fs0 (Some [97]) (Some [98]) 10) as (_ & _ & _ & _ & _ & H). by apply H. Defined.

Lemma console_exact_witness : lpp_input all_al fs0 = Ok (Some [104; 105; 13], set_stdin fs0 [120]).
Proof.
  destruct (console_exact all_al fs0 ltac:(done)) as (H & _). apply H; [done|by repeat constructor|by repeat constructor|cbn; lia].
Defined.

Example parse_int_runs :
  lpp_parse_int (Some [32; 45; 52; 50; 10]) = Ok (-42) /\ lpp_parse_int (Some [52; 50; 97]) = Panic "Invalid integer format" /\
  lpp_parse_int (Some [57; 50; 50; 51; 51; 55; 50; 48; 51; 54; 56; 53; 52; 55; 55; 53; 56; 48; 56]) = Panic "Integer overflow/underflow" /\
  lpp_parse_int (Some [45; 57; 50; 50; 51; 51; 55; 50; 48; 51; 54; 56; 53; 52; 55; 55; 53; 56; 48; 56]) = Ok INT64_MIN.
Proof. by vm_compute. Qed.
