(* ===== verification/PosIO.v ===== *)
(** * Positional durable file input and output (runtime/lpp_runtime.c)

    [lpp_file_open], [lpp_file_pread], [lpp_file_pwrite], [lpp_file_fsync] and their companions on a model
    of POSIX files that keeps, for each file, its data and the part of it that survives a crash.  A buffer
    is a pointer into a block of bytes ([ptr]): the code reads the buffer's size from the eight bytes
    before the pointer, so where the pointer lies in its block matters. *)

From stdpp Require Import gmap.
From S2P Require Import Prelude CInt Buf.

(** ** Memory *)

Record ptr := mk_ptr { block : list Z; at_ : Z }.

(** The value of little-endian bytes, and the bytes of a value. *)
Fixpoint le_value (b : list Z) : Z := match b with [] => 0 | x :: b => x + 256 * le_value b end.
Fixpoint le_bytes (n : nat) (v : Z) : list Z := match n with O => [] | S n => v mod 256 :: le_bytes n (v / 256) end.

(** [*(int64_t * )((char * )buf + off)]. *)
Definition load_i64 (p : ptr) (off : Z) : outcome Z :=
  let a := at_ p + off in
  if (a <? 0) || (a + 8 >? Z.of_nat (length (block p))) then Undef
  else Ok (i64 (le_value (take 8 (drop (Z.to_nat a) (block p))))).

(** [len] bytes at [buf + off]; stores of [bytes] there. *)
Definition load_bytes (p : ptr) (off len : Z) : outcome (list Z) :=
  let a := at_ p + off in
  if (a <? 0) || (a + len >? Z.of_nat (length (block p))) then Undef
  else Ok (take (Z.to_nat len) (drop (Z.to_nat a) (block p))).
Definition store_bytes (p : ptr) (off : Z) (bytes : list Z) : outcome ptr :=
  let! b := memcpy (block p) (at_ p + off) bytes 0 (Z.of_nat (length bytes)) in Ok (mk_ptr b (at_ p)).

(** ** Files *)

Record inode := mk_inode { data : list Z; stable : list Z }.
Record disk := mk_disk { names : gmap (list Z) inode; opened : gmap Z (list Z * bool) }.
Definition set_file (d : disk) (p : list Z) (i : inode) : disk := mk_disk (<[p := i]> (names d)) (opened d).

(** What the manual leaves free: the descriptor of a new open, how many bytes a transfer moves (or -1),
    whether a synchronisation or a truncation succeeds. *)
Record kernel := mk_kernel {
  new_fd : disk -> list Z -> option Z;
  moved : disk -> Z -> Z;
  works : disk -> Z -> bool
}.
Class Posix (ke : kernel) : Prop := {
  fd_fresh : forall d p fd, new_fd ke d p = Some fd -> 0 <= fd < 2 ^ 31 /\ opened d !! fd = None;
  moved_most : forall d n, 0 <= n -> moved ke d n = -1 \/ 0 <= moved ke d n <= n
}.

Definition O_RDWR : Z := 2.
Definition O_CREAT : Z := 64.
Definition O_SYNC : Z := 1052672.

(** [bytes] over the content at [off]; a hole before them is zeros. *)
Definition splice (content : list Z) (off : nat) (bytes : list Z) : list Z :=
  take off (content ++ replicate (off - length content) 0) ++ bytes ++ drop (off + length bytes) content.
Definition resize (content : list Z) (size : nat) : list Z := take size (content ++ replicate (size - length content) 0).

Section posix.
Context (ke : kernel).

Definition sys_open (d : disk) (path : list Z) (flags : Z) : Z * disk :=
  match names d !! path, Z.testbit flags 6 with
  | None, false => (-1, d)
  | file, _ =>
      match new_fd ke d path with
      | None => (-1, d)
      | Some fd => (fd, mk_disk (<[path := default (mk_inode [] []) file]> (names d)) (<[fd := (path, Z.testbit flags 20)]> (opened d)))
      end
  end.

Definition sys_close (d : disk) (fd : Z) : disk := mk_disk (names d) (delete fd (opened d)).

(** The file behind a descriptor. *)
Definition file_of (d : disk) (fd : Z) : option (list Z * bool * inode) :=
  match opened d !! fd with
  | None => None
  | Some (p, sync) => (fun i => (p, sync, i)) <$> names d !! p
  end.

Definition sys_pread (d : disk) (fd count offset : Z) : Z * list Z :=
  match file_of d fd with
  | None => (-1, [])
  | Some (_, _, i) =>
      let rest := drop (Z.to_nat offset) (data i) in
      let n := moved ke d (Z.min count (Z.of_nat (length rest))) in (n, take (Z.to_nat n) rest)
  end.

Definition sys_pwrite (d : disk) (fd : Z) (bytes : list Z) (offset : Z) : Z * disk :=
  match file_of d fd with
  | None => (-1, d)
  | Some (p, sync, i) =>
      let n := moved ke d (Z.of_nat (length bytes)) in
      if n <=? 0 then (n, d)
      else
        let c := splice (data i) (Z.to_nat offset) (take (Z.to_nat n) bytes) in
        (n, set_file d p (mk_inode c (if sync then c else stable i)))
  end.

Definition sys_fsync (d : disk) (fd : Z) : Z * disk :=
  match file_of d fd with
  | None => (-1, d)
  | Some (p, _, i) => if works ke d fd then (0, set_file d p (mk_inode (data i) (data i))) else (-1, d)
  end.

Definition sys_ftruncate (d : disk) (fd size : Z) : Z * disk :=
  match file_of d fd with
  | None => (-1, d)
  | Some (p, _, i) =>
      if works ke d fd then (0, set_file d p (mk_inode (resize (data i) (Z.to_nat size)) (stable i))) else (-1, d)
  end.

Definition sys_fstat (d : disk) (fd : Z) : option Z := (fun '(_, _, i) => Z.of_nat (length (data i))) <$> file_of d fd.

(** ** The builtins *)

Definition lpp_file_open (d : disk) (path : option (list Z)) (flags : Z) : Z * disk :=
  match path with
  | None => (-1, d)
  | Some path =>
      let f := Z.lor O_RDWR O_CREAT in
      let f := if negb (Z.land flags 1 =? 0) then Z.lor f O_SYNC else f in
      sys_open d path f
  end.

Definition lpp_file_close (d : disk) (fd : Z) : disk := if fd <=? 0 then d else sys_close d (i32 fd).

(** The guards the two transfers share: the size of the buffer is before its first byte. *)
Definition transfer_allowed (fd : Z) (buf : option ptr) (buf_off file_off len : Z) : outcome (option ptr) :=
  match buf with
  | None => Ok None
  | Some p =>
      if (fd <=? 0) || (len <=? 0) || (file_off <? 0) || (buf_off <? 0) then Ok None
      else
        let! buf_size := load_i64 p (-8) in
        let! e := chk64 (buf_off + len) in
        if e >? buf_size then Ok None else Ok (Some p)
  end.

Definition lpp_file_pread (d : disk) (fd : Z) (buf : option ptr) (buf_off file_off len : Z) : outcome (Z * option ptr) :=
  let! ok := transfer_allowed fd buf buf_off file_off len in
  match ok with
  | None => Ok (-1, buf)
  | Some p =>
      let '(res, bytes) := sys_pread d (i32 fd) (u64 len) file_off in
      let! p := store_bytes p buf_off bytes in Ok (res, Some p)
  end.

Definition lpp_file_pwrite (d : disk) (fd : Z) (buf : option ptr) (buf_off file_off len : Z) : outcome (Z * disk) :=
  let! ok := transfer_allowed fd buf buf_off file_off len in
  match ok with
  | None => Ok (-1, d)
  | Some p =>
      let! bytes := load_bytes p buf_off len in
      Ok (sys_pwrite d (i32 fd) bytes file_off)
  end.

Definition lpp_file_fsync (d : disk) (fd : Z) : Z * disk := if fd <=? 0 then (-1, d) else sys_fsync d (i32 fd).
Definition lpp_file_fdatasync (d : disk) (fd : Z) : Z * disk := lpp_file_fsync d fd.
Definition lpp_file_ftruncate (d : disk) (fd size : Z) : Z * disk :=
  if (fd <=? 0) || (size <? 0) then (-1, d) else sys_ftruncate d (i32 fd) size.
Definition lpp_fd_size (d : disk) (fd : Z) : Z :=
  if fd <=? 0 then -1 else match sys_fstat d (i32 fd) with None => -1 | Some n => n end.
End posix.

(** A buffer whose size stands in front of the pointer, and one as [lpp_buf_alloc] of lpp_buf.c lays it out:
    the pointer is to the size. *)
Definition sized_buffer (d : list Z) : ptr := mk_ptr (le_bytes 8 (Z.of_nat (length d)) ++ d) 8.
Definition host_buffer (b : Buf) : ptr := mk_ptr (le_bytes 8 (bsize b) ++ bdata b) 0.

(** ** Lemmas *)

Lemma le8_length n v : length (le_bytes n v) = n.
Proof. revert v. induction n as [|n IH]; intros v; cbn; [done|]. by rewrite IH. Qed.

Lemma le8_value n v : 0 <= v < 256 ^ Z.of_nat n -> le_value (le_bytes n v) = v.
Proof.
  revert v. induction n as [|n IH]; intros v Hv; cbn [le_bytes le_value]; [cbn in Hv; lia|].
  rewrite IH; [pose proof (Z.div_mod v 256); lia|]. replace (Z.of_nat (S n)) with (Z.of_nat n + 1) in Hv by lia. rewrite Z.pow_add_r in Hv by lia.
  split; [apply Z.div_pos; lia|]. apply Z.div_lt_upper_bound; lia.
Qed.

Lemma sized_load d : Z.of_nat (length d) <= INT64_MAX -> load_i64 (sized_buffer d) (-8) = Ok (Z.of_nat (length d)).
Proof.
  intros Hd. unfold load_i64, sized_buffer. cbn [block at_]. change (8 + -8) with 0. rewrite length_app, le8_length.
  change (0 <? 0) with false. rewrite Z.gtb_ltb, (proj2 (Z.ltb_ge _ _)) by lia. cbn [orb]. change (Z.to_nat 0) with 0%nat. rewrite drop_0.
  rewrite (take_app_le _ _ 8), take_ge by (rewrite le8_length; lia). rewrite le8_value.
  - by rewrite i64_id by (unfold INT64_MIN; lia).
  - change (256 ^ Z.of_nat 8) with (2 ^ 64). unfold INT64_MAX in Hd. lia.
Qed.

Lemma transfer_sized fd d buf_off file_off len : Z.of_nat (length d) <= INT64_MAX -> buf_off + len <= INT64_MAX ->
  transfer_allowed fd (Some (sized_buffer d)) buf_off file_off len =
  Ok (if decide (0 < fd /\ 0 < len /\ 0 <= file_off /\ 0 <= buf_off /\ buf_off + len <= Z.of_nat (length d)) then Some (sized_buffer d) else None).
Proof.
  intros Hd Hsum. unfold transfer_allowed. destruct (_ || _) eqn:Eg; bool_to_prop; [by rewrite decide_False by lia|].
  rewrite sized_load by done. cbn [obind]. rewrite chk64_ok by (unfold INT64_MIN; lia). cbn [obind]. rewrite Z.gtb_ltb.
  destruct (Z.ltb_spec (Z.of_nat (length d)) (buf_off + len)); [by rewrite decide_False by lia|by rewrite decide_True by lia].
Qed.

Lemma sized_store d off bytes : 0 <= off -> off + Z.of_nat (length bytes) <= Z.of_nat (length d) -> Z.of_nat (length d) <= INT64_MAX ->
  store_bytes (sized_buffer d) off bytes = Ok (sized_buffer (splice d (Z.to_nat off) bytes)).
Proof.
  intros Ho Hl Hd. unfold store_bytes, sized_buffer. cbn [block at_]. pose proof (le8_length 8 (Z.of_nat (length d))) as Hh.
  rewrite memcpy_in by (rewrite ?length_app, ?Hh; unfold INT64_MAX in *; lia). cbn [obind]. change (Z.to_nat 0) with 0%nat.
  rewrite drop_0, firstn_all. do 2 f_equal. unfold splice.
  replace (Z.to_nat (8 + off)) with (8 + Z.to_nat off)%nat by lia. replace (Z.to_nat off - length d)%nat with 0%nat by lia. cbn [replicate]. rewrite app_nil_r.
  rewrite take_app_ge, drop_app_ge by (rewrite Hh; lia). rewrite Hh, <- app_assoc. f_equal.
  - do 2 f_equal. rewrite !length_app, length_take, length_drop. lia.
  - f_equal; [f_equal; lia|]. do 2 f_equal. lia.
Qed.

Lemma sized_bytes d off len : 0 <= off -> 0 <= len -> off + len <= Z.of_nat (length d) ->
  load_bytes (sized_buffer d) off len = Ok (take (Z.to_nat len) (drop (Z.to_nat off) d)).
Proof.
  intros Ho Hl Hd. unfold load_bytes, sized_buffer. cbn [block at_]. pose proof (le8_length 8 (Z.of_nat (length d))) as Hh.
  rewrite length_app, Hh. rewrite (proj2 (Z.ltb_ge _ 0)), Z.gtb_ltb, (proj2 (Z.ltb_ge _ _)) by lia. cbn [orb].
  rewrite drop_app_ge by (rewrite Hh; lia). rewrite Hh. do 3 f_equal. lia.
Qed.

Lemma splice_inside_length c off b : (off + length b <= length c)%nat -> length (splice c off b) = length c.
Proof. intros. unfold splice. rewrite !length_app, length_take, length_app, length_replicate, length_drop. lia. Qed.

(** What was spliced in is read back. *)
Lemma splice_read c off b : take (length b) (drop off (splice c off b)) = b.
Proof.
  unfold splice. set (t := take off _). assert (Ht : length t = off) by (unfold t; rewrite length_take, length_app, length_replicate; lia).
  rewrite drop_app_ge, Ht, Nat.sub_diag, drop_0 by lia. apply take_app_length.
Qed.

(** Every other byte stays. *)
Lemma splice_elsewhere c off b i : (i < off \/ off + length b <= i)%nat -> (i < length c)%nat -> splice c off b !! i = c !! i.
Proof.
  intros Hi Hc. unfold splice. set (t := take off _). assert (Ht : length t = off) by (unfold t; rewrite length_take, length_app, length_replicate; lia).
  destruct Hi as [Hi|Hi].
  - rewrite lookup_app_l by lia. unfold t. rewrite lookup_take_lt by done. by apply lookup_app_l.
  - rewrite !lookup_app_r by lia. rewrite lookup_drop. f_equal. lia.
Qed.

Section kernel.
Context (ke : kernel) `{!Posix ke}.

Lemma pread_count d fd n off : 0 <= n -> let '(r, bytes) := sys_pread ke d fd n off in
  Z.of_nat (length bytes) <= n /\ (r = -1 /\ bytes = [] \/ r = Z.of_nat (length bytes)).
Proof.
  intros Hn. unfold sys_pread. destruct (file_of d fd) as [[[p s] i]|]; [|cbn; split; [lia|by left]].
  set (rest := drop _ _). pose proof (moved_most d (Z.min n (Z.of_nat (length rest))) ltac:(lia)) as [E|E].
  - rewrite E. split; [|by left]. change (Z.to_nat (-1)) with 0%nat. rewrite take_0. cbn [length]. lia.
  - rewrite length_take. split; [lia|right; lia].
Qed.

Lemma file_set d fd p s i i' : file_of d fd = Some (p, s, i) -> file_of (set_file d p i') fd = Some (p, s, i').
Proof.
  unfold file_of, set_file. cbn. destruct (opened d !! fd) as [[p' s']|]; [|done]. destruct (names d !! p') eqn:E; [|done].
  intros [= -> -> ->]. by rewrite lookup_insert_eq.
Qed.
End kernel.

(** ** Theorems *)

(** C17. Positional transfers stay inside the buffer.  On a buffer with its size in front, for every
    descriptor, every offset and length (their sum an [int64_t]) and whatever the system answers, both
    transfers return: -1 without touching anything when the range is not inside the buffer or an argument
    is negative; otherwise at most [len] bytes move, the reader changes only bytes [buf_off] to
    [buf_off + len], and the size in front survives. *)
Theorem positional_io_bounded ke `{!Posix ke} d fd b buf_off file_off len : Z.of_nat (length b) <= INT64_MAX -> buf_off + len <= INT64_MAX ->
  let inside := 0 < fd /\ 0 < len /\ 0 <= file_off /\ 0 <= buf_off /\ buf_off + len <= Z.of_nat (length b) in
  (~ inside -> lpp_file_pread ke d fd (Some (sized_buffer b)) buf_off file_off len = Ok (-1, Some (sized_buffer b)) /\
               lpp_file_pwrite ke d fd (Some (sized_buffer b)) buf_off file_off len = Ok (-1, d)) /\
  (inside -> exists r bytes, lpp_file_pread ke d fd (Some (sized_buffer b)) buf_off file_off len = Ok (r, Some (sized_buffer (splice b (Z.to_nat buf_off) bytes))) /\
     Z.of_nat (length bytes) <= len /\ (r = -1 /\ bytes = [] \/ r = Z.of_nat (length bytes)) /\
     length (splice b (Z.to_nat buf_off) bytes) = length b) /\
  (inside -> exists r d', lpp_file_pwrite ke d fd (Some (sized_buffer b)) buf_off file_off len = Ok (r, d') /\ -1 <= r <= len).
Proof.
  intros Hb Hsum inside. unfold lpp_file_pread, lpp_file_pwrite. rewrite transfer_sized by done. fold inside. split_and!.
  - intros Hno. by rewrite decide_False.
  - intros Hin. rewrite decide_True by done. cbn [obind]. unfold inside in Hin. rewrite u64_id by (unfold INT64_MAX in *; lia).
    pose proof (pread_count ke d (i32 fd) len file_off ltac:(lia)) as Hc. destruct (sys_pread ke d (i32 fd) len file_off) as [r bytes].
    rewrite sized_store by lia. cbn [obind]. exists r, bytes. split; [done|]. split; [lia|]. split; [tauto|]. apply splice_inside_length. lia.
  - intros Hin. rewrite decide_True by done. cbn [obind]. unfold inside in Hin. rewrite sized_bytes by lia. cbn [obind].
    set (bytes := take _ _). assert (Hl : Z.of_nat (length bytes) = len) by (unfold bytes; rewrite length_take, length_drop; lia).
    unfold sys_pwrite. destruct (file_of d (i32 fd)) as [[[p s] i]|]; [|do 2 eexists; split; [done|lia]]. rewrite Hl.
    pose proof (moved_most d len ltac:(lia)). destruct (_ <=? 0); do 2 eexists; (split; [done|lia]).
Qed.

(** A positional write is read back, and nothing else of the file changes.  When the system moves
    what it is asked to, [lpp_file_pwrite] puts the bytes of the buffer at the offset (zeros fill a hole),
    a later [lpp_file_pread] of that range delivers them into any buffer with room, every other byte of the
    file keeps its value, and after a successful [lpp_file_fsync] (or at once, for a file opened with
    flag 1) the file would survive a crash as it is. *)
Theorem positional_roundtrip ke `{!Posix ke} d fd p s i b b2 buf_off off2 file_off len :
  (forall d n, 0 <= n -> moved ke d n = n) -> file_of d fd = Some (p, s, i) -> 0 < fd < 2 ^ 31 -> 0 < len -> 0 <= file_off ->
  0 <= buf_off -> buf_off + len <= Z.of_nat (length b) -> Z.of_nat (length b) <= INT64_MAX ->
  0 <= off2 -> off2 + len <= Z.of_nat (length b2) -> Z.of_nat (length b2) <= INT64_MAX ->
  let bytes := take (Z.to_nat len) (drop (Z.to_nat buf_off) b) in
  exists d' i', lpp_file_pwrite ke d fd (Some (sized_buffer b)) buf_off file_off len = Ok (len, d') /\
    file_of d' fd = Some (p, s, i') /\ (s = true -> stable i' = data i') /\
    lpp_file_pread ke d' fd (Some (sized_buffer b2)) off2 file_off len = Ok (len, Some (sized_buffer (splice b2 (Z.to_nat off2) bytes))) /\
    (forall j, (j < Z.to_nat file_off \/ Z.to_nat (file_off + len) <= j)%nat -> (j < length (data i))%nat -> data i' !! j = data i !! j) /\
    (works ke d' fd = true -> (lpp_file_fsync ke d' fd).1 = 0 /\
       file_of (lpp_file_fsync ke d' fd).2 fd = Some (p, s, mk_inode (data i') (data i'))).
Proof.
  intros Hmv Hfile Hfd Hlen Hoff Hb1 Hb2 Hb3 Ho1 Ho2 Ho3 bytes.
  assert (Hl : length bytes = Z.to_nat len) by (unfold bytes; rewrite length_take, length_drop; lia).
  assert (Hi32 : i32 fd = fd) by (unfold i32; rewrite (swrap_id 32); lia).
  set (c := splice (data i) (Z.to_nat file_off) bytes). set (i' := mk_inode c (if s then c else stable i)).
  exists (set_file d p i'), i'. pose proof (file_set d fd p s i i' Hfile) as Hfile'. split_and!.
  - unfold lpp_file_pwrite. rewrite transfer_sized, decide_True by lia. cbn [obind]. rewrite sized_bytes by lia. cbn [obind]. fold bytes.
    unfold sys_pwrite. rewrite Hi32, Hfile, Hmv, Hl, Z2Nat.id by lia. rewrite (proj2 (Z.leb_gt len 0)) by lia.
    rewrite (take_ge bytes) by lia. done.
  - done.
  - by intros ->.
  - unfold lpp_file_pread. rewrite transfer_sized, decide_True by lia. cbn [obind]. unfold sys_pread.
    rewrite Hi32, Hfile', u64_id by (unfold INT64_MAX in *; lia). cbn [data i'].
    assert (Hread : take (Z.to_nat len) (drop (Z.to_nat file_off) c) = bytes) by (unfold c; rewrite <- Hl; apply splice_read).
    assert (len <= Z.of_nat (length (drop (Z.to_nat file_off) c))) by (apply (f_equal length) in Hread; rewrite length_take in Hread; lia).
    rewrite Z.min_l, Hmv, Hread, sized_store by lia. done.
  - intros j Hj Hlj. cbn. apply splice_elsewhere; [|done]. rewrite Hl. lia.
  - intros Hw. unfold lpp_file_fsync. rewrite (proj2 (Z.leb_gt fd 0)), Hi32 by lia. unfold sys_fsync. rewrite Hfile', Hw.
    split; [done|]. by eapply file_set.
Qed.

(** The buffers of the host's own [lpp_buf_alloc] have their size at the pointer, not before it: every
    transfer that passes the first guard reads outside the allocation. *)
Theorem host_buffers_unusable ke d fd b buf_off file_off len : 0 < fd -> 0 < len -> 0 <= file_off -> 0 <= buf_off ->
  lpp_file_pread ke d fd (Some (host_buffer b)) buf_off file_off len = Undef /\
  lpp_file_pwrite ke d fd (Some (host_buffer b)) buf_off file_off len = Undef.
Proof.
  intros. unfold lpp_file_pread, lpp_file_pwrite, transfer_allowed.
  rewrite (proj2 (Z.leb_gt fd 0)), (proj2 (Z.leb_gt len 0)), !(proj2 (Z.ltb_ge _ 0)) by lia. done.
Qed.

(** The bounds check adds before it compares: a length near the end of the range overflows. *)
Theorem transfer_sum_overflows ke d fd b buf_off file_off len : Z.of_nat (length b) <= INT64_MAX -> 0 < fd -> 0 < len -> 0 <= file_off -> 0 <= buf_off ->
  INT64_MAX < buf_off + len -> lpp_file_pread ke d fd (Some (sized_buffer b)) buf_off file_off len = Undef.
Proof.
  intros. unfold lpp_file_pread, transfer_allowed.
  rewrite (proj2 (Z.leb_gt fd 0)), (proj2 (Z.leb_gt len 0)), !(proj2 (Z.ltb_ge _ 0)) by lia. cbn [orb].
  rewrite sized_load by done. cbn [obind]. by rewrite chk64_bad.
Qed.

(** ** The theorems at concrete inputs *)

Definition disk_kernel : kernel := mk_kernel (fun d _ => match opened d !! 3 with None => Some 3 | Some _ => None end) (fun _ n => n) (fun _ _ => true).
#[export] Instance disk_kernel_ok : Posix disk_kernel.
Proof.
  split; [|intros; cbn; lia]. intros d p fd. cbn. destruct (opened d !! 3) eqn:E; [done|]. intros [= <-]. by split.
Qed.
Definition disk0 : disk := (lpp_file_open disk_kernel (mk_disk ∅ ∅) (Some [100; 98]) 1).2.

Lemma positional_io_bounded_witness :
  lpp_file_pread disk_kernel disk0 3 (Some (sized_buffer [1; 2; 3])) 1 0 3 = Ok (-1, Some (sized_buffer [1; 2; 3])).
Proof.
  destruct (positional_io_bounded disk_kernel disk0 3 [1; 2; 3] 1 0 3) as (H & _); [done|done|]. apply H. cbn. lia.
Defined.

Lemma positional_roundtrip_witness : exists d',
  lpp_file_pwrite disk_kernel disk0 3 (Some (sized_buffer [1; 2; 3])) 1 4 2 = Ok (2, d') /\
  lpp_file_pread disk_kernel d' 3 (Some (sized_buffer [0; 0])) 0 4 2 = Ok (2, Some (sized_buffer [2; 3])).
Proof.
  destruct (positional_roundtrip disk_kernel disk0 3 [100; 98] true (mk_inode [] []) [1; 2; 3] [0; 0] 1 0 4 2)
    as (d' & i' & E & _ & _ & E2 & _); [done|done|lia|lia|lia|lia|cbn; lia|done|lia|cbn; lia|done|].
  exists d'. split; [exact E|exact E2].
Defined.
