(* ===== verification/Exec.v ===== *)
(** * Processes, environment and directories of the host runtime (runtime/lpp_exec.c, runtime/lpp_dir.c)

    The POSIX bodies.  What a command prints and how it ends, what the directory holds and which calls of the
    system succeed are arguments; the processes and pipe ends the runtime itself keeps are counted
    ([procs]).  The two command builtins exist a second time in runtime/lpp_runtime.c, on [popen] (suffix
    [_rt]). *)

From stdpp Require Import gmap.
From Stdlib Require Import Ascii String.
From stdpp Require Import list.
From S2P Require Import Prelude CInt Buf ListRt Str Json Net Http.
Open Scope list_scope.
Open Scope Z_scope.

(** ** Commands

    The pipe ends this process holds, and the children it has not waited for. *)
Record procs := mk_procs { pipe_ends : Z; children : Z }.

(** What [waitpid] stores: a status word; [WIFEXITED] and [WEXITSTATUS] take it apart. *)
Definition WIFEXITED (status : Z) : bool := Z.land status 0x7f =? 0.
Definition WEXITSTATUS (status : Z) : Z := Z.land (Z.shiftr status 8) 0xff.

(** [spawned]: whether [posix_spawn] succeeds; [status]: the word [waitpid] stores. *)
Definition lpp_command_exec (spawned : bool) (status : Z) (cmdline : option cstr) (p : procs) : Z * procs :=
  match cmdline with
  | None => (-1, p)
  | Some _ =>
      if negb spawned then (-1, p)
      else
        let p := mk_procs (pipe_ends p) (children p + 1) in
        let p := mk_procs (pipe_ends p) (children p - 1) in
        (if WIFEXITED status then WEXITSTATUS status else -1, p)
  end.

Section output.
(** [cut k]: how many bytes the [k]-th [read] would like to deliver; at least one, if there is one. *)
Context (al : allocator) (cut : nat -> nat).

(** [for (;;)] of [lpp_command_output]: [rest] is what the pipe has not delivered.  A refused block ends
    the loop with what there is. *)
Fixpoint output_loop (fuel : nat) (k r : nat) (rest : list Z) (cap len : Z) (buf : list Z) : outcome (list Z * Z) :=
  match fuel with
  | O => NoFuel
  | S fuel =>
      let! grown := (if len + 1024 >=? cap then
                       let! nc := chk32 (cap * 2) in
                       let! total := chk32 (nc + 1) in
                       if negb (al k total) then Ok None
                       else let! nb := memcpy (replicate (Z.to_nat total) 0) 0 buf 0 len in Ok (Some (S k, nc, nb))
                     else Ok (Some (k, cap, buf))) in
      match grown with
      | None => Ok (buf, len)
      | Some (k, cap, buf) =>
          let got := take (Nat.min (Z.to_nat (cap - len)) (Nat.max 1 (cut r))) rest in
          let n := Z.of_nat (List.length got) in
          let! buf := memcpy buf len got 0 n in
          if n <=? 0 then Ok (buf, len)
          else output_loop fuel k (S r) (drop (List.length got) rest) cap (len + n) buf
      end
  end.

(** [piped], [forked]: whether [pipe] and [fork] succeed; [out]: what the command writes to the pipe. *)
Definition lpp_command_output (piped forked : bool) (out : list Z) (cmdline : option cstr) (p : procs) : outcome (str_ret * procs) :=
  match cmdline with
  | None => Ok (SEmpty, p)
  | Some _ =>
      if negb piped then Ok (SEmpty, p)
      else
        let p := mk_procs (pipe_ends p + 2) (children p) in
        if negb forked then Ok (SEmpty, mk_procs (pipe_ends p - 2) (children p))
        else
          let p := mk_procs (pipe_ends p) (children p + 1) in
          let p := mk_procs (pipe_ends p - 1) (children p) in
          let reaped := mk_procs (pipe_ends p - 1) (children p - 1) in
          if negb (al 0%nat 4097) then Ok (SEmpty, reaped)
          else
            let! '(buf, len) := output_loop (S (List.length out)) 1 0 out 4096 0 (replicate 4097 0) in
            let! buf := wr buf len 0 in Ok (SOwned (until_nul buf), reaped)
  end.

(** The loop of the second version: chunks of 256 bytes from a [popen] stream, full ones until the end. *)
Fixpoint popen_loop (fuel : nat) (k : nat) (rest : list Z) (cap len : Z) (buf : list Z) : outcome (list Z * Z) :=
  match fuel with
  | O => NoFuel
  | S fuel =>
      let! grown := (if len + 256 >? cap then
                       if cap >? Z.quot INT64_MAX 2 then Ok None
                       else
                         let cap := cap * 2 in
                         if negb (al k cap) then Ok None
                         else let! nb := memcpy (replicate (Z.to_nat cap) 0) 0 buf 0 len in Ok (Some (S k, cap, nb))
                     else Ok (Some (k, cap, buf))) in
      match grown with
      | None => Ok (buf, len)
      | Some (k, cap, buf) =>
          let got := take 256 rest in
          let n := Z.of_nat (List.length got) in
          let! buf := memcpy buf len got 0 n in
          if n =? 0 then Ok (buf, len)
          else popen_loop fuel k (drop 256 rest) cap (len + n) buf
      end
  end.

(** [opened]: whether [popen] succeeds.  The blocks of the error results are not tested. *)
Definition lpp_command_output_rt (opened : bool) (out : list Z) (cmd_ptr : option cstr) : outcome (option cstr) :=
  let empty := if al 0%nat 1 then Ok (Some []) else Undef in
  match cmd_ptr with
  | None => empty
  | Some _ =>
      if negb opened then empty
      else if negb (al 0%nat 1024) then Ok None
      else
        let! '(buf, len) := popen_loop (S (List.length out)) 1 out 1024 0 (replicate 1024 0) in
        let! buf := wr buf len 0 in Ok (Some (until_nul buf))
  end.
End output.

(** [system] as an argument: what it returns for a command. *)
Definition lpp_command_exec_rt (system : cstr -> Z) (cmd_ptr : option cstr) : Z :=
  match cmd_ptr with None => -1 | Some cmd => system cmd end.

(** ** Environment *)

Definition lpp_env_get (al : allocator) (env : gmap (list Z) (list Z)) (name : option cstr) : outcome str_ret :=
  match name with
  | None => Ok SEmpty
  | Some name =>
      match env !! name with
      | None => Ok SEmpty
      | Some val => or_empty (fresh_str al 0 (slen val + 1) (fun out => let! out := memcpy out 0 val 0 (slen val) in wr out (slen val) 0))
      end
  end.

(** [setenv] refuses a name that is empty or holds an equals sign, and when it has no memory. *)
Definition setenv (room : bool) (env : gmap (list Z) (list Z)) (name value : list Z) : Z * gmap (list Z) (list Z) :=
  if bool_decide (name = []) || bool_decide (61 ∈ name) || negb room then (-1, env) else (0, <[name := value]> env).
Definition lpp_env_set (room : bool) (env : gmap (list Z) (list Z)) (name value : option cstr) : Z * gmap (list Z) (list Z) :=
  match name with
  | None => (-1, env)
  | Some name => let '(r, env) := setenv room env name (default [] value) in (if r =? 0 then 0 else -1, env)
  end.

(** ** Directories *)

(** [ok]: whether the system call succeeds. *)
Definition lpp_dir_create (ok : bool) (path : option cstr) : Z := match path with None => -1 | Some _ => if ok then 0 else -1 end.
Definition lpp_path_exists (ok : bool) (path : option cstr) : Z := match path with None => 0 | Some _ => if ok then 1 else 0 end.

(** One round per entry; a copy is pushed and its birth reference released, as for a piece of a split. *)
Fixpoint dir_loop (al : allocator) (la : allocation) (addr : nat -> Z) (k : nat) (l : LppList) (entries : list cstr)
  : outcome (LppList * list arc_ev * list (Z * cstr)) :=
  match entries with
  | [] => Ok (l, [], [])
  | e :: entries =>
      if (strcmp e [46] =? 0) || (strcmp e [46; 46] =? 0) then dir_loop al la addr k l entries
      else
        let! '(l, ev, ps) := emit al la addr k l e in
        let! '(l, ev', ps') := dir_loop al la addr (S k) l entries in Ok (l, ev ++ ev', ps ++ ps')
  end.

(** [entries]: what [readdir] returns in order, when [opendir] succeeds. *)
Definition lpp_dir_list (al : allocator) (la : allocation) (addr : nat -> Z) (list_ok : bool) (entries : option (list cstr)) (path : option cstr)
  : outcome (option (LppList * list arc_ev * list (Z * cstr))) :=
  if negb list_ok then Ok None
  else
    let! l := lpp_list_new_arc true in
    match path, entries with
    | Some _, Some entries => let! r := dir_loop al la addr 0 l entries in Ok (Some r)
    | _, _ => Ok (Some (l, [], []))
    end.

(** [snprintf(cmd, sizeof(cmd), "rm -rf \"%s\"", path)] keeps the first 4095 bytes. *)
Definition rm_command (path : cstr) : cstr := take 4095 (txt "rm -rf " ++ [34] ++ path ++ [34]).
Definition lpp_dir_remove (system : cstr -> Z) (path : option cstr) : Z :=
  match path with None => -1 | Some path => if system (rm_command path) =? 0 then 0 else -1 end.

(** The code of both platforms, which differ in what separates the parts of a path. *)
Definition join_at (is_sep : Z -> bool) (sep : Z) (al : allocator) (base child : option cstr) : outcome str_ret :=
  let base := default [] base in
  let child := default [] child in
  let need_sep := (slen base >? 0) && negb (is_sep (default 0 (last base))) in
  let total := slen base + (if need_sep then 1 else 0) + slen child + 1 in
  or_empty (fresh_str al 0 total (fun out =>
    let! out := memcpy out 0 base 0 (slen base) in
    let off := slen base in
    let! '(out, off) := (if need_sep then let! out := wr out off sep in Ok (out, off + 1) else Ok (out, off)) in
    let! out := memcpy out off child 0 (slen child) in
    wr out (off + slen child) 0)).
Definition lpp_path_join : allocator -> option cstr -> option cstr -> outcome str_ret := join_at (fun c => c =? 47) 47.

(** ** The shell

    How sh takes a simple command apart: words end at spaces outside double quotes.  [None] when the quotes
    do not close, or a character with a meaning of its own appears ($, the backquote and the backslash
    everywhere; operators, patterns and comments outside quotes). *)

Definition sh_special (c : Z) : bool := (c =? 36) || (c =? 96) || (c =? 92).
Definition sh_operator (c : Z) : bool := existsb (fun x => c =? x) [10; 9; 33; 35; 38; 39; 40; 41; 42; 59; 60; 61; 62; 63; 91; 93; 123; 124; 125; 126].
Fixpoint sh_words (s : cstr) (quoted : bool) (cur : option cstr) : option (list cstr) :=
  match s with
  | [] => if quoted then None else Some (match cur with Some w => [w] | None => [] end)
  | c :: s =>
      if sh_special c then None
      else if c =? 34 then sh_words s (negb quoted) (Some (default [] cur))
      else if quoted then sh_words s quoted (Some (default [] cur ++ [c]))
      else if c =? 32 then (fun ws => match cur with Some w => w :: ws | None => ws end) <$> sh_words s quoted None
      else if sh_operator c then None
      else sh_words s quoted (Some (default [] cur ++ [c]))
  end.

(** A path that means itself inside double quotes. *)
Definition dq_plain (p : cstr) : Prop := Forall (fun c => sh_special c = false /\ c <> 34) p.

(** ** Lemmas *)

Lemma sh_quoted p s w : dq_plain p -> sh_words (p ++ s) true (Some w) = sh_words s true (Some (w ++ p)).
Proof.
  intros Hp. revert w. induction Hp as [|c p [Hc Hq] _ IH]; intros w; cbn [app sh_words]; [by rewrite app_nil_r|].
  rewrite Hc, (proj2 (Z.eqb_neq c 34)) by done. cbn [default from_option id]. by rewrite IH, <- app_assoc.
Qed.

Definition rm_head : cstr := txt "rm -rf ".
Definition rm_words : list cstr := [txt "rm"; txt "-rf"].

Lemma sh_rm s : sh_words (rm_head ++ s) false None = (fun ws => rm_words ++ ws) <$> sh_words s false None.
Proof. change (sh_words (rm_head ++ s) false None) with ((fun ws => txt "rm" :: ws) <$> ((fun ws => txt "-rf" :: ws) <$> sh_words s false None)). by destruct (sh_words s false None). Qed.

Section output.
Context (al : allocator) (cut : nat -> nat).

Lemma output_loop_spec (out : list Z) : slen out + 1024 < 2 ^ 30 -> forall fuel k r cap (len : nat) buf,
  (List.length out - len < fuel)%nat -> (len <= List.length out)%nat -> Z.of_nat (List.length buf) = cap + 1 -> Z.of_nat len <= cap ->
  4096 <= cap < 2 ^ 31 - 1 -> take len buf = take len out ->
  exists buf' m, output_loop al cut fuel k r (drop len out) cap (Z.of_nat len) buf = Ok (buf', Z.of_nat m) /\
    (m <= List.length out)%nat /\ (m < List.length buf')%nat /\ take m buf' = take m out /\ ((forall k n, al k n = true) -> m = List.length out).
Proof.
  intros Hout. unfold slen in Hout. induction fuel as [|fuel IH]; intros k r cap len buf Hf Hl Hb Hlc Hcap Hpre; [lia|]. cbn [output_loop].
  set (grown := if _ >=? _ then _ else _).
  assert (Hg : (grown = Ok None /\ ~ (forall k n, al k n = true)) \/ exists k' cap' buf', grown = Ok (Some (k', cap', buf')) /\
    Z.of_nat (List.length buf') = cap' + 1 /\ Z.of_nat len + 1024 < cap' /\ 4096 <= cap' < 2 ^ 31 - 1 /\ take len buf' = take len out).
  { unfold grown. rewrite Z.geb_leb. destruct (Z.leb_spec cap (Z.of_nat len + 1024)); [|right; by exists k, cap, buf].
    unfold chk32. rewrite (proj2 (Z.leb_le _ (cap * 2))), (proj2 (Z.ltb_lt (cap * 2) _)) by lia. cbn [andb obind].
    rewrite (proj2 (Z.leb_le _ (cap * 2 + 1))), (proj2 (Z.ltb_lt (cap * 2 + 1) _)) by lia. cbn [andb obind].
    destruct (al k (cap * 2 + 1)) eqn:E; cbn [negb]; [|left; split; [done|intros Hal; by rewrite Hal in E]].
    right. rewrite (memcpy_grow buf len) by lia. cbn [obind]. do 3 eexists. split; [done|].
    rewrite length_app, length_take, length_replicate. repeat split; try lia.
    rewrite take_app_le by (rewrite length_take; lia). rewrite take_take, Nat.min_id. done. }
  destruct Hg as [[-> Hno]|(k' & cap' & buf' & -> & Hb' & Hroom & Hcap' & Hpre')]; cbn [obind].
  { exists buf, len. repeat split; [lia|lia|done|done]. }
  set (n := Nat.min (Z.to_nat (cap' - Z.of_nat len)) (Nat.max 1 (cut r))).
  assert (Hn : (1 <= n)%nat /\ Z.of_nat n <= cap' - Z.of_nat len) by (unfold n; lia).
  set (got := take n (drop len out)). assert (Hgot : List.length got = Nat.min n (List.length out - len)) by (unfold got; by rewrite length_take, length_drop).
  rewrite memcpy_chunk by lia. cbn [obind]. destruct (Z.leb_spec (Z.of_nat (List.length got)) 0) as [H0|H0].
  - exists (take len buf' ++ got ++ drop (len + List.length got) buf'), len. rewrite !length_app, length_take, length_drop. repeat split; [lia|lia| |lia].
    rewrite take_app_le by (rewrite length_take; lia). by rewrite take_take, Nat.min_id.
  - rewrite drop_drop. replace (Z.of_nat len + Z.of_nat (List.length got)) with (Z.of_nat (len + List.length got)) by lia.
    apply IH; [lia|lia| |lia|lia|apply take_chunk; [done|lia|lia]].
    rewrite !length_app, length_take, length_drop. lia.
Qed.

Lemma popen_loop_spec (out : list Z) : slen out < 2 ^ 60 -> (forall k n, al k n = true) -> forall fuel k cap (len : nat) buf,
  (List.length out - len < fuel)%nat -> (len <= List.length out)%nat -> Z.of_nat (List.length buf) = cap -> Z.of_nat len <= cap ->
  1024 <= cap < 2 ^ 62 -> take len buf = take len out ->
  exists buf', popen_loop al fuel k (drop len out) cap (Z.of_nat len) buf = Ok (buf', slen out) /\
    (List.length out < List.length buf')%nat /\ take (List.length out) buf' = out.
Proof.
  intros Hout Hal. unfold slen in *. induction fuel as [|fuel IH]; intros k cap len buf Hf Hl Hb Hlc Hcap Hpre; [lia|]. cbn [popen_loop].
  set (grown := if _ >? _ then _ else _).
  assert (Hg : exists k' cap' buf', grown = Ok (Some (k', cap', buf')) /\
    Z.of_nat (List.length buf') = cap' /\ Z.of_nat len + 256 <= cap' /\ 1024 <= cap' < 2 ^ 62 /\ take len buf' = take len out).
  { unfold grown. rewrite !Z.gtb_ltb. destruct (Z.ltb_spec cap (Z.of_nat len + 256)); [|by exists k, cap, buf].
    rewrite (proj2 (Z.ltb_ge _ _)), Hal by (change (Z.quot INT64_MAX 2) with (2 ^ 62 - 1); lia). cbn [negb].
    rewrite (memcpy_grow buf len) by lia. cbn [obind]. do 3 eexists. split; [done|].
    rewrite length_app, length_take, length_replicate. repeat split; try lia.
    rewrite take_app_le by (rewrite length_take; lia). rewrite take_take, Nat.min_id. done. }
  destruct Hg as (k' & cap' & buf' & -> & Hb' & Hroom & Hcap' & Hpre'); cbn [obind].
  set (got := take 256 (drop len out)). assert (Hgot : List.length got = Nat.min 256 (List.length out - len)) by (unfold got; by rewrite length_take, length_drop).
  rewrite memcpy_chunk by lia. cbn [obind]. destruct (Z.eqb_spec (Z.of_nat (List.length got)) 0) as [H0|H0].
  - assert (len = List.length out) as -> by lia. eexists. split; [done|]. rewrite !length_app, length_take, length_drop. split; [lia|].
    rewrite take_app_le by (rewrite length_take; lia). rewrite take_take, Nat.min_id, Hpre'. apply firstn_all.
  - replace (Z.of_nat len + Z.of_nat (List.length got)) with (Z.of_nat (len + List.length got)) by lia.
    assert (E : drop 256 (drop len out) = drop (len + List.length got) out).
    { rewrite drop_drop. destruct (Nat.le_ge_cases 256 (List.length out - len)); [f_equal; lia|]. rewrite !drop_ge by lia. done. }
    rewrite E. apply IH; [lia|lia| |lia|lia|apply take_chunk; [done|lia|lia]].
    rewrite !length_app, length_take, length_drop. lia.
Qed.
End output.

Lemma until_nul_prefix m out buf : (m <= List.length out)%nat -> (m < List.length buf)%nat -> take m buf = take m out ->
  exists buf', wr buf (Z.of_nat m) 0 = Ok buf' /\ until_nul buf' = until_nul (take m out).
Proof.
  intros Hm Hb Ht. pose proof (until_nul_wr (take m out) buf) as H. rewrite length_take, Nat.min_l in H by lia. by apply H.
Qed.

(** An entry that is listed. *)
Definition listed (e : cstr) : Prop := e <> [46] /\ e <> [46; 46].
#[export] Instance listed_dec e : Decision (listed e).
Proof. unfold listed. apply _. Defined.

Section directory.
Context (al : allocator) (la : allocation) `{!SysAlloc la} (addr : nat -> Z) (Hal : forall k n, al k n = true).

Lemma dir_loop_spec n entries : forall k l, tight l n -> serves_list la n -> retain_element l = true ->
  Forall (fun e => cstr_ok e /\ slen e < INT64_MAX) entries -> len l + Z.of_nat (List.length entries) <= n ->
  wp (dir_loop al la addr k l entries) (fun '(l', ev, ps) => tight l' n /\ elems l' = elems l ++ ps.*1 /\
    ps.*2 = filter listed entries /\ ps.*1 = addr <$> seq k (List.length (filter listed entries)) /\ ev = mbind piece_events (ps.*1)).
Proof.
  induction entries as [|e entries IH]; intros k l Ht Hs Hr Hok Hn; cbn [dir_loop].
  - cbn. rewrite app_nil_r. done.
  - apply Forall_cons in Hok as [[He Hel] Hok]. cbn [List.length] in Hn.
    rewrite !strcmp_eq by (done || by repeat constructor). rewrite filter_cons.
    destruct (decide (listed e)) as [[H1 H2]|Hno].
    + rewrite !bool_decide_eq_false_2 by done. cbn [orb]. apply wp_bind.
      eapply wp_mono; [apply (emit_spec al la addr Hal k l e n); done || lia|].
      intros [[l1 ev1] ps1] (Ht1 & Hr1 & He1 & -> & ->). apply wp_bind.
      pose proof (tight_len _ _ Ht) as Hl0. pose proof (tight_len _ _ Ht1) as Hl1. rewrite He1, length_app in Hl1. cbn [List.length] in Hl1.
      eapply wp_mono; [apply (IH (S k) l1); try done; lia|].
      intros [[l2 ev2] ps2] (Ht2 & He2 & Hp2 & Hp1 & ->). cbn [wp]. split_and!; [done|..]; cbn [fmap list_fmap app fst snd List.length seq].
      * by rewrite He2, He1, <- (assoc_L (++)).
      * by rewrite Hp2.
      * by rewrite Hp1.
      * done.
    + assert (bool_decide (e = [46]) || bool_decide (e = [46; 46]) = true) as ->.
      { unfold listed in Hno. destruct (decide (e = [46])) as [->|]; [done|]. destruct (decide (e = [46; 46])) as [->|]; [done|]. tauto. }
      apply IH; try done. lia.
Qed.
End directory.

(** What joining two paths means. *)
Definition joined_at (is_sep : Z -> bool) (sep : Z) (base child : cstr) : cstr :=
  match last base with None => child | Some c => if is_sep c then base ++ child else base ++ [sep] ++ child end.
Definition joined : cstr -> cstr -> cstr := joined_at (fun c => c =? 47) 47.

Lemma join_at_spec is_sep c0 al base child : 0 < c0 < 256 -> (forall k n, al k n = true) -> cstr_ok base -> cstr_ok child -> slen base + slen child < 2 ^ 60 ->
  join_at is_sep c0 al (Some base) (Some child) = Ok (SOwned (joined_at is_sep c0 base child)).
Proof.
  intros H0 Hal Hb Hc Hl. unfold join_at, or_empty. cbn [default from_option id]. set (sep := (slen base >? 0) && _).
  assert (Hj : joined_at is_sep c0 base child = base ++ (if sep then [c0] else []) ++ child).
  { unfold joined_at, sep, slen. destruct (last base) as [c|] eqn:E.
    - rewrite Z.gtb_ltb, (proj2 (Z.ltb_lt _ _)) by (destruct base; [done|cbn [List.length]; lia]). cbn [andb default from_option id]. by destruct (is_sep c).
    - apply last_None in E as ->. done. }
  assert (Hok : cstr_ok (joined_at is_sep c0 base child)) by (rewrite Hj; repeat (apply Forall_app; split); try done; destruct sep; repeat constructor; lia).
  rewrite (fresh_str_ok al 0 _ _ (joined_at is_sep c0 base child) 1 (Hal _ _) Hok); [done|]. rewrite Hj. clear Hj Hok. unfold slen in *.
  assert (Hs : exists n : nat, (if sep then 1 else 0) = Z.of_nat n /\ n = List.length (if sep then [c0] else [])) by (exists (List.length (if sep then [c0] else [])); by destruct sep).
  destruct Hs as (n & -> & Hn). assert (n <= 1)%nat by (rewrite Hn; by destruct sep; cbn; lia).
  replace (Z.to_nat (Z.of_nat (List.length base) + Z.of_nat n + Z.of_nat (List.length child) + 1)) with (List.length base + (n + (List.length child + 1)))%nat by lia.
  rewrite memcpy_front by (rewrite length_replicate; lia). cbn [obind]. rewrite drop_replicate, (Nat.add_comm (List.length base)), Nat.add_sub.
  assert (E : (if sep then let! out := wr (base ++ replicate (n + (List.length child + 1)) 0) (Z.of_nat (List.length base)) c0 in Ok (out, Z.of_nat (List.length base) + 1)
             else Ok (base ++ replicate (n + (List.length child + 1)) 0, Z.of_nat (List.length base))) =
          Ok ((base ++ if sep then [c0] else []) ++ replicate (List.length child + 1) 0, Z.of_nat (List.length (base ++ if sep then [c0] else [])))).
  { destruct sep; cbn in Hn; subst n; [|by rewrite !app_nil_r]. rewrite wr_ok by (rewrite length_app, length_replicate; lia). cbn [obind].
    rewrite Nat2Z.id, insert_app_r_alt, Nat.sub_diag by lia. cbn [Nat.add replicate insert list_insert]. rewrite <- app_assoc, length_app. cbn [List.length app]. do 3 f_equal. lia. }
  rewrite E. cbn [obind]. rewrite (app_assoc base _ child). set (front := base ++ _).
  assert (List.length front <= S (List.length base))%nat by (unfold front; rewrite length_app; destruct sep; cbn [List.length]; lia). clearbody front.
  rewrite memcpy_chunk by (rewrite length_app, length_replicate; lia). cbn [obind].
  rewrite take_app_length, drop_app_ge, drop_replicate by lia.
  replace (List.length child + 1 - (List.length front + List.length child - List.length front))%nat with 1%nat by lia.
  rewrite wr_ok by (rewrite !length_app, length_replicate; lia).
  replace (Z.to_nat _) with (List.length (front ++ child)) by (rewrite length_app; lia).
  rewrite app_assoc, insert_app_r_alt, Nat.sub_diag by lia. done.
Qed.

Lemma path_join_spec al base child : (forall k n, al k n = true) -> cstr_ok base -> cstr_ok child -> slen base + slen child < 2 ^ 60 ->
  lpp_path_join al (Some base) (Some child) = Ok (SOwned (joined base child)).
Proof. by apply join_at_spec. Qed.

Lemma rm_command_words p : dq_plain p -> (List.length p <= 4086)%nat -> sh_words (rm_command p) false None = Some (rm_words ++ [p]).
Proof.
  intros Hp Hl. unfold rm_command. change (txt "rm -rf ") with rm_head. rewrite take_ge by (rewrite !length_app; cbn [List.length]; change (List.length rm_head) with 7%nat; lia).
  rewrite sh_rm. change ([34] ++ p ++ [34]) with (34 :: p ++ [34]). cbn [sh_words]. change (sh_special 34) with false. cbn [Z.eqb Pos.eqb negb default from_option id].
  rewrite sh_quoted by done. cbn [app]. by cbn.
Qed.

Lemma rm_command_cut p : dq_plain p -> (4086 < List.length p)%nat -> sh_words (rm_command p) false None = None.
Proof.
  intros Hp Hl. unfold rm_command. change (txt "rm -rf ") with rm_head. change ([34] ++ p ++ [34]) with (34 :: p ++ [34]).
  rewrite take_app_ge by (change (List.length rm_head) with 7%nat; lia). change (4095 - List.length rm_head)%nat with (S 4087).
  cbn [take]. rewrite take_app_le by lia. rewrite sh_rm. cbn [sh_words]. change (sh_special 34) with false. cbn [Z.eqb Pos.eqb negb default from_option id].
  assert (Hq : dq_plain (take 4087 p)) by by apply Forall_take.
  rewrite <- (app_nil_r (take 4087 p)), sh_quoted by done. done.
Qed.

(** A double quote in the path ends the quoting: what follows is a word of the command. *)
Lemma rm_command_split p q : dq_plain p -> dq_plain q -> (List.length p + List.length q <= 4083)%nat ->
  sh_words (rm_command (p ++ [34; 32; 34] ++ q)) false None = Some (rm_words ++ [p; q]).
Proof.
  intros Hp Hq Hl. unfold rm_command. change (txt "rm -rf ") with rm_head.
  rewrite take_ge by (rewrite !length_app; cbn [List.length]; change (List.length rm_head) with 7%nat; lia).
  rewrite sh_rm. rewrite <- !app_assoc. change ([34] ++ p ++ [34; 32; 34] ++ q ++ [34]) with (34 :: p ++ 34 :: 32 :: 34 :: q ++ [34]).
  cbn [sh_words]. change (sh_special 34) with false. cbn [Z.eqb Pos.eqb negb default from_option id].
  rewrite sh_quoted by done. cbn [sh_words]. change (sh_special 34) with false. change (sh_special 32) with false.
  cbn [Z.eqb Pos.eqb negb default from_option id]. rewrite sh_quoted by done. by cbn.
Qed.

(** ** Theorems *)

(** The output of a command.  However the pipe cuts it up and whatever fails, [lpp_command_output]
    returns a prefix of what the command wrote, up to its first NUL, and all of it when memory is served;
    it never writes outside its buffer, terminates, closes both pipe ends and waits for the child.  The
    version on [popen] returns all of it too when memory is served; the exit status of a command is the
    one [waitpid] reports, -1 for a signal. *)
Theorem command_output_exact (al : allocator) cut piped forked out cmd p : slen out + 1024 < 2 ^ 30 ->
  (exists r, lpp_command_output al cut piped forked out (Some cmd) p = Ok (r, p) /\
    (r = SEmpty \/ exists m, r = SOwned (until_nul (take m out))) /\
    (piped = true -> forked = true -> (forall k n, al k n = true) -> r = SOwned (until_nul out))) /\
  ((forall k n, al k n = true) -> lpp_command_output_rt al true out (Some cmd) = Ok (Some (until_nul out))) /\
  (forall code, 0 <= code < 256 -> lpp_command_exec true (Z.shiftl code 8) (Some cmd) p = (code, p)) /\
  (forall spawned status, (lpp_command_exec spawned status (Some cmd) p).2 = p).
Proof.
  intros Hout. split_and!.
  - unfold lpp_command_output. destruct piped; cbn [negb]; [|exists SEmpty; repeat split; auto; done].
    destruct p as [ends kids]. cbn [pipe_ends children]. destruct forked; cbn [negb pipe_ends children].
    2: { exists SEmpty. repeat split; [|by left|done]. do 3 f_equal; lia. }
    replace (mk_procs (ends + 2 - 1 - 1) (kids + 1 - 1)) with (mk_procs ends kids) by (f_equal; lia).
    destruct (al 0%nat 4097) eqn:E0; cbn [negb].
    2: { exists SEmpty. repeat split; [by left|]. intros _ _ Hal. by rewrite Hal in E0. }
    destruct (output_loop_spec al cut out Hout (S (List.length out)) 1 0 4096 0 (replicate 4097 0)) as (b & m & E & Hm & Hb & Ht & Hall);
      [lia|lia|done|lia|lia|done|].
    change (Z.of_nat 0) with 0 in E. rewrite drop_0 in E. rewrite E. cbn [obind].
    destruct (until_nul_prefix m out b Hm Hb Ht) as (b' & -> & Hb'). cbn [obind]. eexists. split; [done|]. rewrite Hb'. split; [right; by eexists|].
    intros _ _ Hal. rewrite Hall by done. by rewrite firstn_all.
  - intros Hal. unfold lpp_command_output_rt. cbn [negb]. rewrite Hal. cbn [negb].
    destruct (popen_loop_spec al out ltac:(lia) Hal (S (List.length out)) 1 1024 0 (replicate 1024 0)) as (b & E & Hb & Ht);
      [lia|lia|done|lia|lia|done|].
    change (Z.of_nat 0) with 0 in E. rewrite drop_0 in E. rewrite E. cbn [obind].
    destruct (until_nul_wr out b Ht Hb) as (b' & E' & Hb'). unfold slen. rewrite E'. cbn [obind]. by rewrite Hb'.
  - intros code Hcode. unfold lpp_command_exec, WIFEXITED, WEXITSTATUS. cbn [negb]. destruct p as [ends kids]. cbn [pipe_ends children].
    change 0x7f with (Z.ones 7). change 0xff with (Z.ones 8). rewrite (Z.land_ones (Z.shiftl code 8) 7) by lia. rewrite Z.shiftl_mul_pow2 by lia. change (2 ^ 8) with (2 * 2 ^ 7).
    rewrite Z.mul_assoc, Z.mod_mul by done. cbn [Z.eqb]. rewrite Z.shiftr_div_pow2 by lia.
    replace (code * 2 * 2 ^ 7) with (code * 2 ^ 8) by lia. rewrite Z.div_mul by done.
    rewrite (Z.land_ones code 8), Z.mod_small by lia. do 2 f_equal. lia.
  - intros spawned status. unfold lpp_command_exec. destruct spawned; [|done]. destruct p. cbn. f_equal. lia.
Qed.

(** Paths and directories.  [lpp_path_join] puts exactly one separator between two parts (none in
    front of a lone child); [lpp_dir_list] returns the entries of the directory but . and .., in order,
    each as a fresh string the list alone owns; the command [lpp_dir_remove] runs removes the path and
    nothing else, for every path of up to 4086 bytes without a quote, dollar sign, backquote or backslash. *)
Theorem directories_exact (al : allocator) (la : allocation) `{!SysAlloc la} (addr : nat -> Z) : (forall k n, al k n = true) ->
  (forall base child, cstr_ok base -> cstr_ok child -> slen base + slen child < 2 ^ 60 ->
    lpp_path_join al (Some base) (Some child) = Ok (SOwned (joined base child))) /\
  (forall path entries, serves_list la (Z.of_nat (List.length entries)) -> Forall (fun e => cstr_ok e /\ slen e < INT64_MAX) entries ->
    exists l ev ps, lpp_dir_list al la addr true (Some entries) (Some path) = Ok (Some (l, ev, ps)) /\ list_wf l /\
      elems l = ps.*1 /\ ps.*2 = filter listed entries /\
      forall p, arc_like p = true -> occ (Retain p) ev = occ (Release p) ev) /\
  (forall p, dq_plain p -> (List.length p <= 4086)%nat -> sh_words (rm_command p) false None = Some (rm_words ++ [p])).
Proof.
  intros Hal. split_and!; [intros; by apply path_join_spec| |apply rm_command_words].
  intros path entries Hsv Hok. set (n := Z.of_nat (List.length entries)) in *.
  destruct (new_tight true n (mk_list [] 0 0 true true)) as (Ht & He & Hr & Hl0); [unfold n; lia|done|].
  destruct (wp_inv _ _ (dir_loop_spec al la addr Hal n entries 0 (mk_list [] 0 0 true true) Ht Hsv Hr Hok ltac:(rewrite Hl0; unfold n; lia)))
    as ([[l ev] ps] & Hrun & (Hw & _) & Hel & Hp2 & Hp1 & ->).
  exists l. eexists. exists ps. split; [|split_and!; [done|by rewrite Hel, He|done|]].
  - unfold lpp_dir_list. cbn [negb lpp_list_new_arc lpp_list_new_with_ownership obind]. change (lpp_list_new_arc true) with (Ok (mk_list [] 0 0 true true)). cbn [obind].
    rewrite Hrun. done.
  - intros p Hp. by apply piece_events_balance.
Qed.

(** The environment of the host.  A variable that could be set reads back as the value (the empty
    string for NULL), the others keep theirs, and a name that is empty or has an equals sign is
    refused without a change. *)
Theorem host_env_roundtrip (al : allocator) env name value : (forall k n, al k n = true) -> cstr_ok (default [] value) -> slen (default [] value) < INT64_MAX ->
  (name <> [] -> 61 ∉ name ->
    let r := lpp_env_set true env (Some name) value in
    r.1 = 0 /\ lpp_env_get al r.2 (Some name) = Ok (SOwned (default [] value)) /\
    forall other, other <> name -> lpp_env_get al r.2 (Some other) = lpp_env_get al env (Some other)) /\
  (forall room, name = [] \/ 61 ∈ name \/ room = false -> lpp_env_set room env (Some name) value = (-1, env)).
Proof.
  intros Hal Hv Hl. split.
  - intros Hn Heq. unfold lpp_env_set, setenv. rewrite !bool_decide_eq_false_2 by done. cbn. split; [done|].
    unfold lpp_env_get. split.
    + rewrite lookup_insert_eq. unfold or_empty. by rewrite (fresh_str_ok al 0 _ _ (default [] value) 1 (Hal _ _) Hv (copy_terminate (default [] value) ltac:(lia))).
    + intros other Ho. by rewrite lookup_insert_ne.
  - intros room Hbad. unfold lpp_env_set, setenv.
    assert (bool_decide (name = []) || bool_decide (61 ∈ name) || negb room = true) as ->; [|done].
    destruct Hbad as [->|[Hin| ->]]; [done|rewrite (bool_decide_eq_true_2 (61 ∈ name)) by done; by destruct (bool_decide _)|by rewrite orb_true_r].
Qed.

(** A quote in the path makes [lpp_dir_remove] remove something else as well. *)
Theorem dir_remove_injects p q : dq_plain p -> dq_plain q -> (List.length p + List.length q <= 4083)%nat ->
  sh_words (rm_command (p ++ [34; 32; 34] ++ q)) false None = Some (rm_words ++ [p; q]).
Proof. apply rm_command_split. Qed.

(** The [popen] version stores the terminator outside its buffer when the buffer is full and no larger
    one is served. *)
Theorem refused_block_overflows : lpp_command_output_rt (fun k _ => bool_decide (k = 0%nat)) true (replicate 1024 65) (Some [108; 115]) = Undef.
Proof. by vm_compute. Qed.

(** The version on [fork] doubles an [int]: from a buffer of 1 GB on that overflows. *)
Theorem output_capacity_overflows al cut fuel k r rest len buf : 2 ^ 30 <= len + 1024 -> output_loop al cut (S fuel) k r rest (2 ^ 30) len buf = Undef.
Proof. intros Hl. cbn [output_loop]. rewrite Z.geb_leb, (proj2 (Z.leb_le _ _)) by lia. done. Qed.

(** ** The theorems at concrete inputs *)

Lemma command_output_exact_witness : lpp_command_output (fun _ _ => true) (fun k => k) true true [104; 105; 10] (Some [108; 115]) (mk_procs 0 0) = Ok (SOwned [104; 105; 10], mk_procs 0 0).
Proof.
  destruct (command_output_exact (fun _ _ => true) (fun k => k) true true [104; 105; 10] [108; 115] (mk_procs 0 0)) as ((r & E & _ & H) & _); [done|].
  rewrite E. by rewrite H.
Defined.

Lemma directories_exact_witness :
  lpp_path_join (fun _ _ => true) (Some [97; 47]) (Some [98]) = Ok (SOwned [97; 47; 98]) /\
  exists l ev ps, lpp_dir_list (fun _ _ => true) small_alloc (fun k => 4096 + 32 * Z.of_nat k) true (Some [[46]; [97]; [46; 46]; [46; 98]]) (Some [47]) = Ok (Some (l, ev, ps)) /\
    ps.*2 = [[97]; [46; 98]].
Proof.
  destruct (directories_exact (fun _ _ => true) small_alloc (fun k => 4096 + 32 * Z.of_nat k)) as (Hj & Hd & _); [done|]. split.
  - apply Hj; [by repeat constructor|by repeat constructor|done].
  - destruct (Hd [47] [[46]; [97]; [46; 46]; [46; 98]]) as (l & ev & ps & E & _ & _ & Hp & _).
    + intros c Hc. apply Z.leb_le. change (Z.max 8 (2 * _)) with 8 in Hc. cbn. lia.
    + by repeat constructor.
    + exists l, ev, ps. split; [exact E|]. rewrite Hp. reflexivity.
Defined.

Lemma host_env_roundtrip_witness : lpp_env_get (fun _ _ => true) (lpp_env_set true ∅ (Some [65]) (Some [98])).2 (Some [65]) = Ok (SOwned [98]).
Proof.
  destruct (host_env_roundtrip (fun _ _ => true) ∅ [65] (Some [98])) as (H & _); [done|by repeat constructor|done|].
  apply H; [done|]. by intros ?%list_elem_of_singleton.
Defined.
