(* ===== verification/Gui.v ===== *)
(** * Input and the raylib layer of the GUI (runtime/lpp_gui.c)

    The keyboard, mouse and character caches every backend shares, and the functions with the prefix [rl_]
    that translate raylib's interface to the window builtins.  The backend is the class [GuiBackend], with
    what the layer relies on in [GuiLaws]; [GuiX11] and [GuiWin] have the two backends of the code. *)

From S2P Require Import Prelude CInt Buf ListRt.

(** ** Input *)

Record inputs := mk_in {
  g_key_state : list Z;
  g_char_queue : list Z; g_char_q_head : Z; g_char_q_tail : Z;
  g_mouse_btn_down : list Z; g_mouse_btn_pressed : list Z; g_mouse_btn_released : list Z;
  g_mouse_wheel : list Z      (** the movements summed up in [g_mouse_wheel_delta], oldest first *)
}.
Definition inputs0 : inputs :=
  mk_in (replicate 256 0) (replicate 64 0) 0 0 (replicate 3 0) (replicate 3 0) (replicate 3 0) [].

(** The code of [WM_CHAR]: printable characters go into the queue while it has room. *)
Definition char_arrives (i : inputs) (c : Z) : outcome inputs :=
  if (c >=? 32) && (c <=? 126) then
    let next_head := Z.rem (g_char_q_head i + 1) 64 in
    if negb (next_head =? g_char_q_tail i) then
      let! q := wr (g_char_queue i) (g_char_q_head i) c in
      Ok (mk_in (g_key_state i) q next_head (g_char_q_tail i)
            (g_mouse_btn_down i) (g_mouse_btn_pressed i) (g_mouse_btn_released i) (g_mouse_wheel i))
    else Ok i
  else Ok i.

Definition rl_GetCharPressed (i : inputs) : outcome (Z * inputs) :=
  if negb (g_char_q_head i =? g_char_q_tail i) then
    let! c := rd (g_char_queue i) (g_char_q_tail i) in
    Ok (c, mk_in (g_key_state i) (g_char_queue i) (g_char_q_head i) (Z.rem (g_char_q_tail i + 1) 64)
             (g_mouse_btn_down i) (g_mouse_btn_pressed i) (g_mouse_btn_released i) (g_mouse_wheel i))
  else Ok (0, i).

Definition lpp_raylib_key_to_vk (key : Z) : Z :=
  if (key >=? 65) && (key <=? 90) then key
  else if (key >=? 48) && (key <=? 57) then key
  else if key =? 32 then 0x20 else if key =? 39 then 0xDE else if key =? 44 then 0xBC
  else if key =? 45 then 0xBD else if key =? 46 then 0xBE else if key =? 47 then 0xBF
  else if key =? 59 then 0xBA else if key =? 61 then 0xBB else if key =? 91 then 0xDB
  else if key =? 92 then 0xDC else if key =? 93 then 0xDD else if key =? 96 then 0xC0
  else if key =? 256 then 0x1B else if key =? 257 then 0x0D else if key =? 258 then 0x09
  else if key =? 259 then 0x08 else if key =? 260 then 0x2D else if key =? 261 then 0x2E
  else if key =? 262 then 0x27 else if key =? 263 then 0x25 else if key =? 264 then 0x28
  else if key =? 265 then 0x26 else if key =? 266 then 0x21 else if key =? 267 then 0x22
  else if key =? 268 then 0x24 else if key =? 269 then 0x23
  else if (key =? 340) || (key =? 344) then 0x10
  else if (key =? 341) || (key =? 345) then 0x11
  else if (key =? 342) || (key =? 346) then 0x12
  else if (key >=? 290) && (key <=? 301) then 0x70 + (key - 290)
  else if (key >=? 0) && (key <? 256) then key
  else 0.

(** ** The backend *)

Class GuiBackend (S : Type) := {
  input : S -> inputs;
  set_input : S -> inputs -> S;
  window_create : S -> option cstr -> Z -> Z -> outcome (Z * S);
  window_is_open : S -> Z -> outcome Z;
  window_width : S -> Z -> outcome Z;
  window_height : S -> Z -> outcome Z;
  window_poll_events : S -> Z -> outcome (Z * S);
  window_close : S -> Z -> outcome S;
  clear : S -> Z -> Z -> outcome S;
  draw_rect : S -> Z -> Z -> Z -> Z -> Z -> Z -> outcome S;
  draw_line : S -> Z -> Z -> Z -> Z -> Z -> Z -> Z -> outcome S;
  draw_text : S -> Z -> Z -> Z -> option cstr -> Z -> outcome S;
  present : S -> Z -> outcome S;
  mouse_x : S -> Z -> outcome Z;
  mouse_y : S -> Z -> outcome Z;
  measure_text_width : S -> Z -> option cstr -> outcome Z
}.

(** What the layer relies on, in the states [ok] the backend can be in. *)
Class GuiLaws (S : Type) `{GuiBackend S} (ok : S -> Prop) : Prop := {
  input_set : forall s i, input (set_input s i) = i;
  ok_set : forall s i, ok s -> length (g_key_state i) = length (g_key_state (input s)) ->
    length (g_mouse_btn_pressed i) = length (g_mouse_btn_pressed (input s)) ->
    length (g_mouse_btn_released i) = length (g_mouse_btn_released (input s)) ->
    g_mouse_btn_down i = g_mouse_btn_down (input s) -> g_char_queue i = g_char_queue (input s) ->
    g_char_q_head i = g_char_q_head (input s) -> g_char_q_tail i = g_char_q_tail (input s) ->
    ok (set_input s i);
  ok_keys : forall s, ok s -> length (g_key_state (input s)) = 256%nat;
  ok_buttons : forall s, ok s -> length (g_mouse_btn_pressed (input s)) = 3%nat /\
    length (g_mouse_btn_released (input s)) = 3%nat;
  create_law : forall s title wd ht, ok s -> wp (window_create s title wd ht) (fun '(r, s') =>
    ok s' /\ (r = -1 \/ 0 <= r < 8));
  is_open_law : forall s id, ok s -> wp (window_is_open s id) (fun r => (r = 0 \/ r = 1) /\ (r = 1 -> 0 <= id < 8));
  poll_law : forall s id, ok s -> wp (window_poll_events s id) (fun '(_, s') =>
    ok s' /\ (window_is_open s id = Ok 0 -> window_is_open s' id = Ok 0));
  close_law : forall s id, ok s -> wp (window_close s id) (fun s' => ok s' /\ window_is_open s' id = Ok 0);
  present_law : forall s id, ok s -> wp (present s id) (fun s' => ok s' /\ input s' = input s);
  clear_law : forall s id c, ok s -> wp (clear s id c) (fun s' => ok s' /\ input s' = input s)
}.

Section raylib.
Context {S : Type} `{GuiBackend S}.

Record rl := mk_rl {
  g_active_raylib_win : Z; g_target_fps : Z; g_prev_key_state : list Z; backend : S
}.
Definition set_backend (r : rl) s := mk_rl (g_active_raylib_win r) (g_target_fps r) (g_prev_key_state r) s.
Definition rl0 (s : S) : rl := mk_rl 0 60 (replicate 256 0) s.

Definition rl_InitWindow (r : rl) (width height : Z) (title : option cstr) : outcome rl :=
  let! '(id, s) := window_create (backend r) title width height in
  Ok (mk_rl id (g_target_fps r) (g_prev_key_state r) s).

Definition rl_WindowShouldClose (r : rl) : outcome (Z * rl) :=
  let! '(_, s) := window_poll_events (backend r) (g_active_raylib_win r) in
  let! o := window_is_open s (g_active_raylib_win r) in
  Ok (b2z (o =? 0), set_backend r s).

Definition rl_CloseWindow (r : rl) : outcome rl :=
  let! s := window_close (backend r) (g_active_raylib_win r) in Ok (set_backend r s).

Definition rl_SetTargetFPS (r : rl) (fps : Z) : rl :=
  if fps >? 0 then mk_rl (g_active_raylib_win r) fps (g_prev_key_state r) (backend r) else r.
Definition rl_GetFPS (r : rl) : Z := g_target_fps r.
Definition rl_GetScreenWidth (r : rl) : outcome Z := window_width (backend r) (g_active_raylib_win r).
Definition rl_GetScreenHeight (r : rl) : outcome Z := window_height (backend r) (g_active_raylib_win r).

(** The pause between frames, in milliseconds, is the second result. *)
Definition rl_EndDrawing (r : rl) : outcome (rl * option Z) :=
  let! s := present (backend r) (g_active_raylib_win r) in
  let i := input s in
  let s := set_input s (mk_in (g_key_state i) (g_char_queue i) (g_char_q_head i) (g_char_q_tail i)
             (g_mouse_btn_down i) (replicate 3 0) (replicate 3 0) []) in
  Ok (mk_rl (g_active_raylib_win r) (g_target_fps r) (g_key_state i) s,
      if g_target_fps r >? 0 then Some (Z.quot 1000 (g_target_fps r)) else None).

Definition rl_ClearBackground (r : rl) (color : Z) : outcome rl :=
  let! s := clear (backend r) (g_active_raylib_win r) color in Ok (set_backend r s).
Definition rl_DrawRectangle (r : rl) (x y w h color : Z) : outcome rl :=
  let! s := draw_rect (backend r) (g_active_raylib_win r) x y w h color in Ok (set_backend r s).
Definition rl_DrawRectangleLines (r : rl) (x y w h color : Z) : outcome rl :=
  let win := g_active_raylib_win r in
  let! xw := chk64 (x + w) in
  let! s := draw_line (backend r) win x y xw y 1 color in
  let! yh := chk64 (y + h) in
  let! s := draw_line s win xw y xw yh 1 color in
  let! s := draw_line s win xw yh x yh 1 color in
  let! s := draw_line s win x yh x y 1 color in
  Ok (set_backend r s).
Definition rl_DrawLine (r : rl) (x1 y1 x2 y2 color : Z) : outcome rl :=
  let! s := draw_line (backend r) (g_active_raylib_win r) x1 y1 x2 y2 1 color in Ok (set_backend r s).
Definition rl_DrawText (r : rl) (text : option cstr) (x y fontSize color : Z) : outcome rl :=
  let! s := draw_text (backend r) (g_active_raylib_win r) x y text color in Ok (set_backend r s).
Definition rl_MeasureText (r : rl) (text : option cstr) (fontSize : Z) : outcome Z :=
  measure_text_width (backend r) (g_active_raylib_win r) text.

Definition rl_IsKeyDown (r : rl) (key : Z) : outcome Z :=
  let vk := lpp_raylib_key_to_vk key in
  if (vk >=? 0) && (vk <? 256) then rd (g_key_state (input (backend r))) vk else Ok 0.
Definition rl_IsKeyPressed (r : rl) (key : Z) : outcome Z :=
  let vk := lpp_raylib_key_to_vk key in
  if (vk >=? 0) && (vk <? 256) then
    let! now := rd (g_key_state (input (backend r))) vk in
    if now =? 0 then Ok 0
    else let! prev := rd (g_prev_key_state r) vk in Ok (b2z (prev =? 0))
  else Ok 0.

Definition rl_GetMouseX (r : rl) : outcome Z := mouse_x (backend r) (g_active_raylib_win r).
Definition rl_GetMouseY (r : rl) : outcome Z := mouse_y (backend r) (g_active_raylib_win r).
Definition rl_IsMouseButtonPressed (r : rl) (button : Z) : outcome Z :=
  let b := i32 button in
  if (b >=? 0) && (b <? 3) then
    let! p := rd (g_mouse_btn_pressed (input (backend r))) b in Ok (b2z (negb (p =? 0)))
  else Ok 0.
Definition rl_IsMouseButtonDown (r : rl) (button : Z) : outcome Z :=
  let b := i32 button in
  if (b >=? 0) && (b <? 3) then
    let! p := rd (g_mouse_btn_down (input (backend r))) b in Ok (b2z (negb (p =? 0)))
  else Ok 0.
End raylib.
Arguments rl : clear implicits.

(** ** Keys *)

Lemma key_to_vk_range key : 0 <= lpp_raylib_key_to_vk key < 256.
Proof. unfold lpp_raylib_key_to_vk. repeat (split_test; [bool_to_prop; lia|]). lia. Qed.

(** ** The character queue

    The characters that wait, oldest first. *)

Definition pending (i : inputs) : list Z :=
  map (fun k => nth (Z.to_nat ((g_char_q_tail i + k) mod 64)) (g_char_queue i) 0)
    (seqZ 0 ((g_char_q_head i - g_char_q_tail i) mod 64)).

Definition queue_ok (i : inputs) : Prop :=
  length (g_char_queue i) = 64%nat /\ 0 <= g_char_q_head i < 64 /\ 0 <= g_char_q_tail i < 64.

Definition printable (c : Z) : bool := (c >=? 32) && (c <=? 126).

Lemma pending_length i : length (pending i) = Z.to_nat ((g_char_q_head i - g_char_q_tail i) mod 64).
Proof. unfold pending. by rewrite length_map, length_seqZ. Qed.

Lemma char_arrives_ok i c : queue_ok i ->
  wp (char_arrives i c) (fun i' => queue_ok i' /\
    pending i' = if printable c && (Z.of_nat (length (pending i)) <? 63) then pending i ++ [c] else pending i).
Proof.
  intros (Hl & Hh & Ht). unfold char_arrives, printable. rewrite pending_length.
  destruct ((c >=? 32) && (c <=? 126)); [|done]. cbn [andb].
  rewrite Z.rem_mod_nonneg by lia.
  set (h := g_char_q_head i) in *. set (t := g_char_q_tail i) in *.
  pose proof (Z.mod_pos_bound (h - t) 64 ltac:(lia)) as Hn. rewrite Z2Nat.id by lia.
  destruct ((h + 1) mod 64 =? t) eqn:E; bool_to_prop; cbn [negb].
  { rewrite (proj2 (Z.ltb_ge _ 63)); [done|]. dlia. }
  assert (Hroom : (h - t) mod 64 < 63) by dlia.
  rewrite (proj2 (Z.ltb_lt _ 63)) by done. rewrite wr_ok by lia. cbn [obind wp].
  split; [split; [by cbn; rewrite length_insert|cbn; pose proof (Z.mod_pos_bound (h + 1) 64 ltac:(lia)); lia]|].
  unfold pending. cbn [g_char_q_head g_char_q_tail g_char_queue]. fold h t.
  replace (((h + 1) mod 64 - t) mod 64) with ((h - t) mod 64 + 1) by dlia.
  rewrite seqZ_app by lia. rewrite map_app, Z.add_0_l. f_equal.
  - apply map_ext_in. intros k Hk. apply list_elem_of_In, elem_of_seqZ in Hk.
    rewrite !nth_lookup, list_lookup_insert_ne; [done|]. intros Eq. apply Z2Nat.inj in Eq; [|dlia..]. dlia.
  - rewrite seqZ_cons by lia. cbn [map]. replace ((t + (h - t) mod 64) mod 64) with h by dlia.
    by rewrite nth_lookup, list_lookup_insert_eq by lia.
Qed.

Lemma char_arrives_keeps i c i' : char_arrives i c = Ok i' ->
  g_key_state i' = g_key_state i /\ g_mouse_btn_down i' = g_mouse_btn_down i /\
  g_mouse_btn_pressed i' = g_mouse_btn_pressed i /\ g_mouse_btn_released i' = g_mouse_btn_released i.
Proof.
  unfold char_arrives. destruct (_ && _); [|by intros; simplify_eq]. destruct (negb _); [|by intros; simplify_eq].
  destruct (wr _ _ _); cbn; intros; by simplify_eq.
Qed.

Lemma get_char_ok i : queue_ok i ->
  wp (rl_GetCharPressed i) (fun '(r, i') => queue_ok i' /\
    match pending i with [] => r = 0 /\ pending i' = [] | c :: q => r = c /\ pending i' = q end).
Proof.
  intros (Hl & Hh & Ht). unfold rl_GetCharPressed. unfold pending at 1.
  set (h := g_char_q_head i) in *. set (t := g_char_q_tail i) in *.
  destruct (h =? t) eqn:E; bool_to_prop; cbn [negb].
  { assert (Ez : (h - t) mod 64 = 0) by dlia. rewrite Ez. cbn. split; [done|]. split; [done|].
    unfold pending. fold h t. by rewrite Ez. }
  destruct (lookup_lt_is_Some_2 (g_char_queue i) (Z.to_nat t)) as [c Hc]; [lia|].
  rewrite (rd_ok _ t c) by (done || lia). cbn [obind wp]. rewrite Z.rem_mod_nonneg by lia.
  split; [split; [done|cbn; pose proof (Z.mod_pos_bound (t + 1) 64 ltac:(lia)); lia]|].
  rewrite seqZ_cons by dlia. cbn [map]. split.
  - rewrite Z.add_0_r, Z.mod_small by lia. by rewrite nth_lookup, Hc.
  - unfold pending. cbn [g_char_q_head g_char_q_tail g_char_queue]. fold h t.
    replace ((h - (t + 1) mod 64) mod 64) with (Z.pred ((h - t) mod 64)) by dlia.
    change (Z.succ 0) with (0 + 1). rewrite <- (fmap_add_seqZ 1 0). rewrite map_map. apply map_ext.
    intros k. f_equal. f_equal. cbn. dlia.
Qed.

(** A bounded queue of characters, and the calls that reach the real one. *)
Inductive char_op := Typed (c : Z) | Get.
Definition fifo_step (q : list Z) (o : char_op) : list Z * list Z :=
  match o with
  | Typed c => (if printable c && (Z.of_nat (length q) <? 63) then q ++ [c] else q, [])
  | Get => match q with [] => ([], [0]) | c :: q => (q, [c]) end
  end.
Fixpoint fifo_run (q : list Z) (os : list char_op) : list Z :=
  match os with [] => [] | o :: os => let '(q, out) := fifo_step q o in out ++ fifo_run q os end.

Definition char_step (i : inputs) (o : char_op) : outcome (inputs * list Z) :=
  match o with
  | Typed c => let! i := char_arrives i c in Ok (i, [])
  | Get => let! '(c, i) := rl_GetCharPressed i in Ok (i, [c])
  end.
Fixpoint char_run (i : inputs) (os : list char_op) : outcome (list Z) :=
  match os with
  | [] => Ok []
  | o :: os => let! '(i, out) := char_step i o in let! rest := char_run i os in Ok (out ++ rest)
  end.

Lemma char_step_ok i o : queue_ok i ->
  wp (char_step i o) (fun '(i', out) => queue_ok i' /\ fifo_step (pending i) o = (pending i', out)).
Proof.
  intros Hi. destruct o as [c|]; cbn [char_step fifo_step]; apply wp_bind.
  - eapply wp_mono; [by apply char_arrives_ok|]. intros i' [? E]. cbn. by rewrite E.
  - eapply wp_mono; [by apply get_char_ok|]. intros [r i'] [? Hp]. cbn. split; [done|].
    destruct (pending i) as [|c q]; by destruct Hp as [-> ->].
Qed.

(** The ring buffer of typed characters is a first-in first-out queue of 63 places: for every
    interleaving of key strokes and reads the reads return the printable characters in the order typed, each
    once, 0 when none waits; only what arrives while the queue is full is lost. *)
Theorem char_queue_fifo os : char_run inputs0 os = Ok (fifo_run [] os).
Proof.
  change [] with (pending inputs0). assert (Hi : queue_ok inputs0) by (repeat split; cbn; lia).
  revert Hi. generalize inputs0. induction os as [|o os IH]; intros i Hi; cbn [char_run fifo_run]; [done|].
  destruct (wp_inv _ _ (char_step_ok i o Hi)) as ([i' out] & -> & Hi' & ->). cbn [obind]. by rewrite (IH i' Hi').
Qed.

(** ** A program on raylib *)

Section programs.
Context {S : Type} `{laws : GuiLaws S ok}.

Definition rl_ok (r : rl S) : Prop := ok (backend r) /\ length (g_prev_key_state r) = 256%nat.

(** A frame: whether to go on, the picture, the end of the drawing. *)
Definition frame (r : rl S) (color : Z) : outcome (rl S) :=
  let! '(_, r) := rl_WindowShouldClose r in
  let! r := rl_ClearBackground r color in
  let! '(r, _) := rl_EndDrawing r in Ok r.
Fixpoint frames (r : rl S) (colors : list Z) : outcome (rl S) :=
  match colors with [] => Ok r | c :: cs => let! r := frame r c in frames r cs end.

Lemma should_close_ok r : rl_ok r ->
  wp (rl_WindowShouldClose r) (fun '(b, r') => rl_ok r' /\ g_active_raylib_win r' = g_active_raylib_win r /\
    (b = 0 \/ b = 1) /\
    (window_is_open (backend r) (g_active_raylib_win r) = Ok 0 -> b = 1) /\ (g_active_raylib_win r < 0 -> b = 1)).
Proof.
  intros [Hok Hp]. unfold rl_WindowShouldClose. apply wp_bind. eapply wp_mono; [by apply (poll_law (ok := ok))|].
  intros [x s] [Hs Hstay]. destruct (wp_inv _ _ (is_open_law (ok := ok) s (g_active_raylib_win r) Hs)) as (o & Eo & Ho & Hid).
  rewrite Eo. cbn. split; [done|]. split; [done|]. split; [destruct (o =? 0); auto|]. split.
  - intros Hz. specialize (Hstay Hz). rewrite Eo in Hstay. by simplify_eq.
  - intros Hn. destruct Ho as [->|Ho]; [done|]. specialize (Hid Ho). lia.
Qed.

Lemma end_drawing_ok r : rl_ok r ->
  wp (rl_EndDrawing r) (fun '(r', _) => rl_ok r' /\ g_active_raylib_win r' = g_active_raylib_win r /\
    g_prev_key_state r' = g_key_state (input (backend r)) /\
    g_key_state (input (backend r')) = g_key_state (input (backend r))).
Proof.
  intros [Hok Hp]. unfold rl_EndDrawing. apply wp_bind. eapply wp_mono; [by apply (present_law (ok := ok))|].
  intros s [Hs Ei]. cbn. rewrite (input_set (ok := ok)). cbn. rewrite Ei. split; [|done].
  destruct (ok_buttons (ok := ok) _ Hok) as [Hb1 Hb2].
  split; cbn; [|by apply (ok_keys (ok := ok))]. apply (ok_set (ok := ok)); by rewrite ?Ei.
Qed.

Lemma clear_background_ok r color : rl_ok r ->
  wp (rl_ClearBackground r color) (fun r' => rl_ok r' /\ g_active_raylib_win r' = g_active_raylib_win r).
Proof.
  intros [Hok Hp]. unfold rl_ClearBackground. apply wp_bind. eapply wp_mono; [by apply (clear_law (ok := ok))|].
  by intros s [Hs _].
Qed.

Lemma frames_ok cs : forall r, rl_ok r ->
  wp (frames r cs) (fun r' => rl_ok r' /\ g_active_raylib_win r' = g_active_raylib_win r).
Proof.
  induction cs as [|c cs IH]; intros r Hr; cbn [frames]; [done|]. apply wp_bind. unfold frame. apply wp_bind.
  eapply wp_mono; [by apply should_close_ok|]. intros [b r1] (Hr1 & E1 & _). apply wp_bind.
  eapply wp_mono; [by apply clear_background_ok|]. intros r2 [Hr2 E2]. apply wp_bind.
  eapply wp_mono; [by apply end_drawing_ok|]. intros [r3 x] (Hr3 & E3 & _). cbn.
  eapply wp_mono; [by apply IH|]. intros r4 [? ->]. split; [done|]. congruence.
Qed.

(** A raylib program on either backend: opening the window, any number of frames and closing it never
    reach an undefined operation, whatever events arrive; once the window has been closed, or when it
    could not be opened, the program is told to stop. *)
Theorem raylib_program_stops s width height title cs : ok s ->
  wp (rl_InitWindow (rl0 s) width height title) (fun r =>
    (g_active_raylib_win r = -1 \/ 0 <= g_active_raylib_win r < 8) /\
    wp (frames r cs) (fun r =>
      (g_active_raylib_win r = -1 -> wp (rl_WindowShouldClose r) (fun '(b, _) => b = 1)) /\
      wp (rl_CloseWindow r) (fun r => wp (rl_WindowShouldClose r) (fun '(b, _) => b = 1)))).
Proof.
  intros Hs. unfold rl_InitWindow. apply wp_bind. eapply wp_mono; [by apply (create_law (ok := ok))|].
  intros [id s'] [Hs' Hid]. cbn. split; [done|].
  set (r0 := mk_rl _ _ _ _). assert (Hr0 : rl_ok r0) by done.
  eapply wp_mono; [by apply frames_ok|]. intros r [Hr E]. split.
  - intros Ew. eapply wp_mono; [by apply should_close_ok|]. intros [b r'] (_ & _ & _ & _ & Hb). apply Hb. lia.
  - unfold rl_CloseWindow. apply wp_bind. destruct Hr as [Hok Hp].
    eapply wp_mono; [by apply (close_law (ok := ok))|]. intros s1 [Hs1 Ho]. cbn.
    eapply wp_mono; [by apply should_close_ok|]. intros [b r'] (_ & _ & _ & Hb & _). by apply Hb.
Qed.

(** A key counts as pressed in the frame in which it goes down and in no other: after the end of a
    frame no key is pressed, and whatever state the next events bring, a key is pressed exactly when
    it is down now and was up when the last frame ended. *)
Theorem raylib_key_edges r : rl_ok r ->
  wp (rl_EndDrawing r) (fun '(r', _) =>
    (forall key, rl_IsKeyPressed r' key = Ok 0) /\
    forall s key, ok s -> exists now before,
      rl_IsKeyDown r' key = Ok before /\ rl_IsKeyDown (set_backend r' s) key = Ok now /\
      rl_IsKeyPressed (set_backend r' s) key = Ok (b2z (negb (now =? 0) && (before =? 0)))).
Proof.
  intros Hr. eapply wp_mono; [by apply end_drawing_ok|]. intros [r' x] (Hr' & _ & Ep & Ek).
  assert (Hrd : forall (l : list Z) key, length l = 256%nat -> exists v, rd l (lpp_raylib_key_to_vk key) = Ok v).
  { intros l key Hl. pose proof (key_to_vk_range key).
    destruct (lookup_lt_is_Some_2 l (Z.to_nat (lpp_raylib_key_to_vk key))) as [v Hv]; [lia|].
    exists v. apply rd_ok; [lia|done]. }
  assert (Hkey : forall key, (lpp_raylib_key_to_vk key >=? 0) && (lpp_raylib_key_to_vk key <? 256) = true).
  { intros key. pose proof (key_to_vk_range key). rewrite Z.geb_leb. apply andb_true_iff. lia. }
  destruct Hr' as [Hok' Hp']. split.
  - intros key. unfold rl_IsKeyPressed. rewrite Hkey, Ep, Ek. destruct Hr as [Hok Hp].
    destruct (Hrd _ key (ok_keys (ok := ok) _ Hok)) as (v & ->). cbn. by destruct (v =? 0) eqn:E; rewrite ?E.
  - intros s key Hs. unfold rl_IsKeyPressed, rl_IsKeyDown. rewrite Hkey. cbn [backend g_prev_key_state set_backend].
    rewrite Ep, <- Ek. destruct (Hrd _ key (ok_keys (ok := ok) _ Hok')) as (before & Eb).
    destruct (Hrd _ key (ok_keys (ok := ok) _ Hs)) as (now & En). rewrite Eb, En. exists now, before.
    split; [done|]. split; [done|]. cbn. by destruct (now =? 0).
Qed.
End programs.

(** ** An instance: a backend with one window that nobody closes *)

#[export] Instance one_window : GuiBackend (Z * inputs) := {|
  input := snd;
  set_input s i := (s.1, i);
  window_create s _ _ _ := Ok (0, (1, s.2));
  window_is_open s id := Ok (if id =? 0 then s.1 else 0);
  window_width _ _ := Ok 640;
  window_height _ _ := Ok 480;
  window_poll_events s id := Ok (s.1, s);
  window_close s id := Ok (if id =? 0 then (0, s.2) else s);
  clear s _ _ := Ok s;
  draw_rect s _ _ _ _ _ _ := Ok s;
  draw_line s _ _ _ _ _ _ _ := Ok s;
  draw_text s _ _ _ _ _ := Ok s;
  present s _ := Ok s;
  mouse_x _ _ := Ok 0;
  mouse_y _ _ := Ok 0;
  measure_text_width _ _ _ := Ok 0
|}.

Definition one_window_ok (s : Z * inputs) : Prop :=
  (s.1 = 0 \/ s.1 = 1) /\ length (g_key_state s.2) = 256%nat /\
  length (g_mouse_btn_pressed s.2) = 3%nat /\ length (g_mouse_btn_released s.2) = 3%nat.

#[export] Instance one_window_laws : GuiLaws (Z * inputs) one_window_ok.
Proof.
  split; unfold one_window_ok; cbn.
  - done.
  - intros s i (? & ? & ? & ?) -> -> -> _ _ _ _. done.
  - by intros s (? & ? & ? & ?).
  - by intros s (? & ? & ? & ?).
  - intros s _ _ _ (? & ? & ? & ?). split; [|right; lia]. split; [by right|done].
  - intros s id (Ho & _). destruct (id =? 0) eqn:E; bool_to_prop; [|by split; [left|]]. split; [done|lia].
  - by intros s id Hs.
  - intros s id (? & ? & ? & ?). destruct (id =? 0) eqn:E; bool_to_prop; cbn.
    + split; [|done]. split; [by left|done].
    + done.
  - by intros s id Hs.
  - by intros s id _ Hs.
Qed.

Lemma raylib_program_stops_witness :
  one_window_ok (0, inputs0) /\
  wp (rl_InitWindow (rl0 (0, inputs0)) 640 480 None) (fun r =>
    (g_active_raylib_win r = -1 \/ 0 <= g_active_raylib_win r < 8) /\
    wp (frames r [1; 2; 3]) (fun r =>
      (g_active_raylib_win r = -1 -> wp (rl_WindowShouldClose r) (fun '(b, _) => b = 1)) /\
      wp (rl_CloseWindow r) (fun r => wp (rl_WindowShouldClose r) (fun '(b, _) => b = 1)))).
Proof.
  assert (Hok : one_window_ok (0, inputs0)) by (split; [by left|done]). split; [exact Hok|].
  by apply (raylib_program_stops (ok := one_window_ok)).
Defined.

(** Enter (key 257, code 13) is down at the end of a frame, and F1 (key 290, code 112) goes down afterwards. *)
Definition key_down_at (k : nat) : inputs :=
  mk_in (<[k := 1]> (replicate 256 0)) (replicate 64 0) 0 0 (replicate 3 0) (replicate 3 0) (replicate 3 0) [].
Lemma raylib_key_edges_witness :
  let r := mk_rl 0 60 (replicate 256 0) (1, key_down_at 13) in
  rl_ok (ok := one_window_ok) r /\
  wp (rl_EndDrawing r) (fun '(r', _) =>
    rl_IsKeyPressed r' 257 = Ok 0 /\
    exists now before, rl_IsKeyDown r' 290 = Ok before /\
      rl_IsKeyDown (set_backend r' (1, key_down_at 112)) 290 = Ok now /\
      rl_IsKeyPressed (set_backend r' (1, key_down_at 112)) 290 = Ok (b2z (negb (now =? 0) && (before =? 0)))).
Proof.
  intros r. assert (Hr : rl_ok (ok := one_window_ok) r) by (split; [split; [by right|done]|done]). split; [exact Hr|].
  eapply wp_mono; [apply (raylib_key_edges (ok := one_window_ok) r Hr)|]. intros [r' x] [H0 H1]. split; [apply H0|].
  apply (H1 (1, key_down_at 112) 290). split; [by right|done].
Defined.
