(* ===== verification/GuiX11.v ===== *)
(** * Windows of the runtime on X11 (runtime/lpp_gui.c, Unix part)

    Up to eight windows live in the table [g_unix_windows]; the library libX11 is loaded when the first
    one is created.  The X server is a state ([xserver]): the objects it keeps for this process, the
    requests it has received and the events that wait.  What the server and the library are free to
    choose (identifiers, colours, which functions the library has) is the class [XSystem].  A request that
    names an object which does not exist, or a call through a missing function, is [Undef]. *)

From stdpp Require Import gmap.
From S2P Require Import Prelude CInt Buf ListRt Gui.

(** ** The X library and the X server *)

(** The functions of libX11 the runtime looks up. *)
Inductive xfn :=
| XOpenDisplay | XDefaultRootWindow | XDefaultScreen | XDefaultColormap | XCreateSimpleWindow
| XSelectInput | XMapWindow | XFlush | XSync | XPending | XNextEvent | XCloseDisplay | XDestroyWindow
| XCreateGC | XFreeGC | XSetForeground | XSetLineAttributes | XFillRectangle | XDrawLine | XFillArc
| XDrawString | XQueryPointer | XAllocColor | XStoreName | XSetWMProtocols | XInternAtom
| XCreatePixmap | XFreePixmap | XCopyArea | XDefaultDepth | XLookupString.
#[export] Instance xfn_eq_dec : EqDecision xfn.
Proof. solve_decision. Defined.

Definition x11_symbols : list xfn :=
  [XOpenDisplay; XDefaultRootWindow; XDefaultScreen; XDefaultColormap; XCreateSimpleWindow;
   XSelectInput; XMapWindow; XFlush; XSync; XPending; XNextEvent; XCloseDisplay; XDestroyWindow;
   XCreateGC; XFreeGC; XSetForeground; XSetLineAttributes; XFillRectangle; XDrawLine; XFillArc;
   XDrawString; XQueryPointer; XAllocColor; XStoreName; XSetWMProtocols; XInternAtom;
   XCreatePixmap; XFreePixmap; XCopyArea; XDefaultDepth; XLookupString].

(** What exists in the server for this process: connections, and what was created on each. *)
Inductive xobj :=
| Display
| Window (dpy : Z)
| Pixmap (dpy w h : Z)
| GC (dpy : Z).
#[export] Instance xobj_eq_dec : EqDecision xobj.
Proof. solve_decision. Defined.
Definition owner (o : xobj) : option Z :=
  match o with Display => None | Window d | Pixmap d _ _ | GC d => Some d end.

Inductive xreq :=
| StoreName (w : Z) (title : cstr)
| SelectInput (w mask : Z)
| SetWMProtocols (w atom : Z)
| MapWindow (w : Z)
| SetForeground (gc pixel : Z)
| SetLineAttributes (gc line_width : Z)
| FillRectangle (d gc x y w h : Z)
| FillArc (d gc x y w h angle1 angle2 : Z)
| DrawLine (d gc x1 y1 x2 y2 : Z)
| DrawString (d gc x y : Z) (text : cstr)
| CopyArea (src dst gc src_x src_y w h dst_x dst_y : Z).

(** [X11Event]: the type, and the 24 longs from byte 40 on. *)
Record X11Event := mk_event { type : Z; _pad : list Z }.
Definition pad (ev : X11Event) (i : nat) : Z := nth i (_pad ev) 0.

Record xserver := mk_x { live : gmap Z xobj; requests : list xreq; incoming : gmap Z (list X11Event) }.

Class XSystem := {
  dlopen : string -> option (xfn -> bool);      (** which functions the library of that name has *)
  new_id : xserver -> xobj -> Z;                (** the identifier of a new object; 0: refused *)
  default_screen : Z -> Z;
  default_root : Z -> Z;
  default_colormap : Z -> Z -> Z;
  default_depth : Z -> Z -> Z;
  alloc_color : xserver -> Z -> Z -> Z * Z * Z -> option Z;   (** the pixel for a colour *)
  intern_atom : xserver -> Z -> Z;              (** [WM_DELETE_WINDOW] *)
  keysym_of : X11Event -> Z                     (** what [XLookupString] stores *)
}.

(** An identifier the server gives out is not in use. *)
Class XLaws `{XSystem} : Prop := {
  new_id_fresh : forall s o, new_id s o <> 0 -> live s !! new_id s o = None;
  keysym_word : forall ev, 0 <= keysym_of ev < 2 ^ 64
}.

Section x11.
Context `{sys : XSystem}.

Definition set_live (s : xserver) m := mk_x m (requests s) (incoming s).

Definition xnew (s : xserver) (o : xobj) : Z * xserver :=
  let id := new_id s o in if id =? 0 then (0, s) else (id, set_live s (<[id := o]> (live s))).

(** [XFreeGC], [XFreePixmap], [XDestroyWindow] on the connection [dpy]. *)
Definition xfree (s : xserver) (dpy id : Z) : outcome xserver :=
  match live s !! id with
  | Some o => if bool_decide (owner o = Some dpy) then Ok (set_live s (delete id (live s))) else Undef
  | None => Undef
  end.

(** [XCloseDisplay]: the connection goes and everything made on it. *)
Definition survives (dpy : Z) (x : Z * xobj) : Prop := x.1 <> dpy /\ owner x.2 <> Some dpy.
#[global] Instance survives_dec dpy x : Decision (survives dpy x).
Proof. apply _. Defined.
Definition xclose (s : xserver) (dpy : Z) : outcome xserver :=
  match live s !! dpy with
  | Some Display => Ok (mk_x (filter (survives dpy) (live s)) (requests s) (delete dpy (incoming s)))
  | _ => Undef
  end.

Definition is_window (s : xserver) (dpy w : Z) : bool := bool_decide (live s !! w = Some (Window dpy)).
Definition is_gc (s : xserver) (dpy gc : Z) : bool := bool_decide (live s !! gc = Some (GC dpy)).
Definition is_drawable (s : xserver) (dpy d : Z) : bool :=
  match live s !! d with Some (Window d') | Some (Pixmap d' _ _) => d' =? dpy | _ => false end.

(** The objects a request names exist on its connection. *)
Definition names_live (s : xserver) (dpy : Z) (r : xreq) : bool :=
  match r with
  | StoreName w _ | SelectInput w _ | SetWMProtocols w _ | MapWindow w => is_window s dpy w
  | SetForeground gc _ | SetLineAttributes gc _ => is_gc s dpy gc
  | FillRectangle d gc _ _ _ _ | FillArc d gc _ _ _ _ _ _ | DrawLine d gc _ _ _ _ | DrawString d gc _ _ _ =>
      is_drawable s dpy d && is_gc s dpy gc
  | CopyArea src dst gc _ _ _ _ _ _ => is_drawable s dpy src && is_drawable s dpy dst && is_gc s dpy gc
  end.

Definition xsend (s : xserver) (dpy : Z) (r : xreq) : outcome xserver :=
  if names_live s dpy r then Ok (mk_x (live s) (requests s ++ [r]) (incoming s)) else Undef.

(** ** The table *)

Record LppUnixWindow := mk_win {
  display : Z; window : Z; pixmap : Z; gc : Z; pixmap_gc : Z;
  colormap : Z; wm_delete : Z; depth : Z; width : Z; height : Z; is_open : Z; bg_pixel : Z;
  key_state : list Z; mouse_x : Z; mouse_y : Z; mouse_down : Z
}.
Definition set_open (w : LppUnixWindow) v :=
  mk_win (display w) (window w) (pixmap w) (gc w) (pixmap_gc w) (colormap w) (wm_delete w) (depth w)
    (width w) (height w) v (bg_pixel w) (key_state w) (mouse_x w) (mouse_y w) (mouse_down w).
Definition set_bg (w : LppUnixWindow) v :=
  mk_win (display w) (window w) (pixmap w) (gc w) (pixmap_gc w) (colormap w) (wm_delete w) (depth w)
    (width w) (height w) (is_open w) v (key_state w) (mouse_x w) (mouse_y w) (mouse_down w).
Definition set_keys (w : LppUnixWindow) v :=
  mk_win (display w) (window w) (pixmap w) (gc w) (pixmap_gc w) (colormap w) (wm_delete w) (depth w)
    (width w) (height w) (is_open w) (bg_pixel w) v (mouse_x w) (mouse_y w) (mouse_down w).
Definition set_mouse (w : LppUnixWindow) x y :=
  mk_win (display w) (window w) (pixmap w) (gc w) (pixmap_gc w) (colormap w) (wm_delete w) (depth w)
    (width w) (height w) (is_open w) (bg_pixel w) (key_state w) x y (mouse_down w).
Definition set_down (w : LppUnixWindow) v :=
  mk_win (display w) (window w) (pixmap w) (gc w) (pixmap_gc w) (colormap w) (wm_delete w) (depth w)
    (width w) (height w) (is_open w) (bg_pixel w) (key_state w) (mouse_x w) (mouse_y w) v.
(** The size with the back buffer made for it. *)
Definition set_back (w : LppUnixWindow) wd ht p g :=
  mk_win (display w) (window w) p (gc w) g (colormap w) (wm_delete w) (depth w)
    wd ht (is_open w) (bg_pixel w) (key_state w) (mouse_x w) (mouse_y w) (mouse_down w).
(** [memset(w, 0, sizeof( *w))]. *)
Definition no_window : LppUnixWindow := mk_win 0 0 0 0 0 0 0 0 0 0 0 0 (replicate 256 0) 0 0 0.

(** [g_x11_lib] with the function pointers loaded from it; [dl_error]: whether [dlerror] has something to
    report. *)
Record gui := mk_gui {
  g_unix_windows : list LppUnixWindow;
  g_x11_lib : option (xfn -> bool);
  dl_error : bool;
  xs : xserver
}.
Definition set_xs (g : gui) s := mk_gui (g_unix_windows g) (g_x11_lib g) (dl_error g) s.
Definition set_wins (g : gui) t := mk_gui t (g_x11_lib g) (dl_error g) (xs g).
Definition gui0 : gui := mk_gui (replicate 8 no_window) None false (mk_x ∅ [] ∅).

Definition MAX_UNIX_WINDOWS : Z := 8.

(** [p_X...] is not NULL; a call through it. *)
Definition p (g : gui) (f : xfn) : bool := match g_x11_lib g with Some has => has f | None => false end.
Definition need {A} (g : gui) (f : xfn) (m : outcome A) : outcome A := if p g f then m else Undef.

(** The library, under the first of its names that loads. *)
Definition libX11 : option (xfn -> bool) :=
  match dlopen "libX11.so.6" with Some l => Some l | None => dlopen "libX11.so" end.

Definition init_x11 (g : gui) : bool * gui :=
  match g_x11_lib g with
  | Some _ => (true, g)
  | None =>
      let missing := match dlopen "libX11.so.6" with Some _ => false | None => true end in
      match libX11 with
      | None => (false, mk_gui (g_unix_windows g) None true (xs g))
      | Some has =>
          (has XOpenDisplay && has XDefaultRootWindow && has XCreateSimpleWindow && has XMapWindow &&
           has XCreateGC && has XFlush && has XPending && has XNextEvent,
           mk_gui (g_unix_windows g) (Some has) (dl_error g || missing || negb (forallb has x11_symbols)) (xs g))
      end
  end.

(** [dlerror]: a message, once. *)
Definition dlerror (g : gui) : bool * gui := (dl_error g, mk_gui (g_unix_windows g) (g_x11_lib g) false (xs g)).

(** [fprintf(stderr, "... %s\n", dlerror() ? dlerror() : "unknown")]: the text is what [%s] is given. *)
Definition report_unavailable (g : gui) : outcome gui :=
  let '(message, g) := dlerror g in
  if message then let '(message, g) := dlerror g in if message then Ok g else Undef
  else Ok g.

(** [for (int i = 0; i < MAX_UNIX_WINDOWS; i++)], over the entries from [i] on. *)
Fixpoint slot_loop (i : Z) (t : list LppUnixWindow) : Z :=
  match t with
  | [] => -1
  | w :: t => if (is_open w =? 0) && (display w =? 0) then i else slot_loop (i + 1) t
  end.
Definition lpp_unix_find_free_slot (g : gui) : Z := slot_loop 0 (g_unix_windows g).

(** 8 bits of a colour as 16. *)
Definition channel (hex shift : Z) : Z := u16 (Z.land (Z.shiftr hex shift) 0xFF * 257).
Definition lpp_x11_color (g : gui) (w : LppUnixWindow) (hex : Z) : Z :=
  if negb (p g XAllocColor) then u64 hex
  else
    match alloc_color (xs g) (display w) (colormap w) (channel hex 16, channel hex 8, channel hex 0) with
    | Some pixel => pixel
    | None => u64 hex
    end.

(** Release [id] if it is there and the library has the function for it. *)
Definition free_if (g : gui) (f : xfn) (s : xserver) (dpy id : Z) : outcome xserver :=
  if negb (id =? 0) && p g f then xfree s dpy id else Ok s.

Definition lpp_unix_destroy_slot (g : gui) (id : Z) : outcome gui :=
  let! w := rd (g_unix_windows g) id in
  if display w =? 0 then Ok g
  else
    let! s := free_if g XFreeGC (xs g) (display w) (gc w) in
    let! s := free_if g XFreeGC s (display w) (pixmap_gc w) in
    let! s := free_if g XFreePixmap s (display w) (pixmap w) in
    let! s := free_if g XDestroyWindow s (display w) (window w) in
    let! s := if p g XCloseDisplay then xclose s (display w) else Ok s in
    let! t := wr (g_unix_windows g) id no_window in
    Ok (mk_gui t (g_x11_lib g) (dl_error g) s).

(** ** Opening a window *)

Definition event_mask : Z :=
  Z.lor (2 ^ 0) (Z.lor (2 ^ 1) (Z.lor (2 ^ 2) (Z.lor (2 ^ 3) (Z.lor (2 ^ 6) (Z.lor (2 ^ 15) (2 ^ 17)))))).
Definition app_title : cstr := [76; 43; 43; 32; 71; 85; 73; 32; 65; 112; 112].

(** The close protocol: the atom the window listens for, 0 when there is none. *)
Definition register_close (g : gui) (s : xserver) (dpy win : Z) : outcome (Z * xserver) :=
  if p g XInternAtom && p g XSetWMProtocols then
    let atom := intern_atom s dpy in
    if negb (atom =? 0) then let! s := xsend s dpy (SetWMProtocols win atom) in Ok (atom, s)
    else Ok (atom, s)
  else Ok (0, s).

(** The first picture of a back buffer. *)
Definition fill_back (g : gui) (s : xserver) (dpy pixmap pixmap_gc pixel w h : Z) : outcome xserver :=
  if negb (pixmap_gc =? 0) && p g XSetForeground && p g XFillRectangle then
    let! s := xsend s dpy (SetForeground pixmap_gc pixel) in
    xsend s dpy (FillRectangle pixmap pixmap_gc 0 0 (u32 w) (u32 h))
  else Ok s.

(** A pixmap and its drawing context: at creation, and again when the window changes size. *)
Definition back_buffer (g : gui) (s : xserver) (dpy w h : Z) : Z * Z * xserver :=
  let '(pixmap, s) := if p g XCreatePixmap then xnew s (Pixmap dpy (u32 w) (u32 h)) else (0, s) in
  let '(pixmap_gc, s) := if negb (pixmap =? 0) && p g XCreateGC then xnew s (GC dpy) else (0, s) in
  (pixmap, pixmap_gc, s).

(** The second half of a creation: the title, the events, the back buffer, and the slot [id]. *)
Definition finish_window (g : gui) (s : xserver) (id : Z) (title : option cstr)
    (dpy win cmap dep pixel wd ht : Z) : outcome (Z * gui) :=
  let! s := if p g XStoreName then xsend s dpy (StoreName win (default app_title title)) else Ok s in
  let! s := need g XSelectInput (xsend s dpy (SelectInput win event_mask)) in
  let! '(atom, s) := register_close g s dpy win in
  let '(pm, s) := if p g XCreatePixmap then xnew s (Pixmap dpy (u32 wd) (u32 ht)) else (0, s) in
  let! '(g1, s) := need g XCreateGC (Ok (xnew s (GC dpy))) in
  let '(g2, s) := if negb (pm =? 0) && p g XCreateGC then xnew s (GC dpy) else (0, s) in
  let! s := fill_back g s dpy pm g2 pixel wd ht in
  let! s := need g XMapWindow (xsend s dpy (MapWindow win)) in
  let! w := rd (g_unix_windows g) id in
  let! t := wr (g_unix_windows g) id
    (mk_win dpy win pm g1 g2 cmap atom dep (i32 wd) (i32 ht) 1 pixel
       (key_state w) (mouse_x w) (mouse_y w) (mouse_down w)) in
  Ok (id, mk_gui t (g_x11_lib g) (dl_error g) s).

Definition lpp_gui_window_create (g : gui) (title : option cstr) (wd ht : Z) : outcome (Z * gui) :=
  if (wd <=? 0) || (wd >? 65535) || (ht <=? 0) || (ht >? 65535) then Ok (-1, g)
  else
    let id := lpp_unix_find_free_slot g in
    if id <? 0 then Ok (-1, g)
    else
      let '(ready, g) := init_x11 g in
      if negb ready then let! g := report_unavailable g in Ok (-1, g)
      else
        let! '(dpy, s) := need g XOpenDisplay (Ok (xnew (xs g) Display)) in
        if dpy =? 0 then Ok (-1, g)
        else
          let! screen := need g XDefaultScreen (Ok (default_screen dpy)) in
          let! root := need g XDefaultRootWindow (Ok (default_root dpy)) in
          let cmap := if p g XDefaultColormap then default_colormap dpy screen else 0 in
          let dep := if p g XDefaultDepth then default_depth dpy screen else 24 in
          let pixel :=
            if p g XAllocColor then
              match alloc_color s dpy cmap (19 * 257, 24 * 257, 33 * 257) with Some px => px | None => 0 end
            else 0 in
          let! '(win, s) := need g XCreateSimpleWindow (Ok (xnew s (Window dpy))) in
          if win =? 0 then let! s := need g XCloseDisplay (xclose s dpy) in Ok (-1, set_xs g s)
          else
            finish_window g s id title dpy win cmap dep pixel wd ht.

(** ** What a window tells *)

Definition out_of_range (win_id : Z) : bool := (win_id <? 0) || (win_id >=? MAX_UNIX_WINDOWS).

Definition lpp_gui_window_is_open (g : gui) (win_id : Z) : outcome Z :=
  if out_of_range win_id then Ok 0
  else let! w := rd (g_unix_windows g) win_id in Ok (b2z (negb (is_open w =? 0))).
Definition lpp_gui_window_width (g : gui) (win_id : Z) : outcome Z :=
  if out_of_range win_id then Ok 0
  else let! w := rd (g_unix_windows g) win_id in if display w =? 0 then Ok 0 else Ok (width w).
Definition lpp_gui_window_height (g : gui) (win_id : Z) : outcome Z :=
  if out_of_range win_id then Ok 0
  else let! w := rd (g_unix_windows g) win_id in if display w =? 0 then Ok 0 else Ok (height w).

(** The window a builtin works on: none unless the number is in range and the window open. *)
Definition open_window (g : gui) (win_id : Z) : outcome (option LppUnixWindow) :=
  if out_of_range win_id then Ok None
  else let! w := rd (g_unix_windows g) win_id in Ok (if is_open w =? 0 then None else Some w).

Definition of_open (g : gui) (win_id : Z) (f : LppUnixWindow -> outcome Z) : outcome Z :=
  let! ow := open_window g win_id in match ow with None => Ok 0 | Some w => f w end.
Definition lpp_gui_mouse_x (g : gui) (win_id : Z) : outcome Z := of_open g win_id (fun w => Ok (mouse_x w)).
Definition lpp_gui_mouse_y (g : gui) (win_id : Z) : outcome Z := of_open g win_id (fun w => Ok (mouse_y w)).
Definition lpp_gui_mouse_down (g : gui) (win_id : Z) : outcome Z :=
  of_open g win_id (fun w => Ok (b2z (negb (mouse_down w =? 0)))).
Definition lpp_gui_key_down (g : gui) (win_id key_code : Z) : outcome Z :=
  of_open g win_id (fun w =>
    if (key_code <? 0) || (key_code >? 255) then Ok 0
    else let! k := rd (key_state w) key_code in Ok (b2z (negb (k =? 0)))).

(** ** Events *)

Definition set_key (keys : list Z) (k v : Z) : outcome (list Z) := if k <? 256 then wr keys k v else Ok keys.

(** Keys are marked under the symbol the library finds and under the byte the code takes for the keycode. *)
Definition mark_key (g : gui) (w : LppUnixWindow) (ev : X11Event) (v : Z) : outcome LppUnixWindow :=
  let! keys := if p g XLookupString then set_key (key_state w) (keysym_of ev) v else Ok (key_state w) in
  let! keys := set_key keys (Z.land (pad ev 1) 0xFF) v in
  Ok (set_keys w keys).

(** The other order of the two marks, for a release; the result is the same. *)
Definition unmark_key (g : gui) (w : LppUnixWindow) (ev : X11Event) : outcome LppUnixWindow :=
  let! keys := set_key (key_state w) (Z.land (pad ev 1) 0xFF) 0 in
  let! keys := if p g XLookupString then set_key keys (keysym_of ev) 0 else Ok keys in
  Ok (set_keys w keys).

Definition resize (g : gui) (w : LppUnixWindow) (s : xserver) (new_w new_h : Z) : outcome (LppUnixWindow * xserver) :=
  if (new_w >? 0) && (new_h >? 0) && (negb (new_w =? width w) || negb (new_h =? height w)) then
    let! s := free_if g XFreePixmap s (display w) (pixmap w) in
    let! s := free_if g XFreeGC s (display w) (pixmap_gc w) in
    let '(pm, gc', s) := back_buffer g s (display w) new_w new_h in
    Ok (set_back w new_w new_h pm gc', s)
  else Ok (w, s).

(** The back buffer onto the window. *)
Definition blit (g : gui) (w : LppUnixWindow) (s : xserver) : outcome xserver :=
  if negb (pixmap w =? 0) && negb (gc w =? 0) && p g XCopyArea then
    xsend s (display w) (CopyArea (pixmap w) (window w) (gc w) 0 0 (u32 (width w)) (u32 (height w)) 0 0)
  else Ok s.

Definition KeyPress := 2.
Definition KeyRelease := 3.
Definition ButtonPress := 4.
Definition ButtonRelease := 5.
Definition MotionNotify := 6.
Definition Expose := 12.
Definition DestroyNotify := 17.
Definition ConfigureNotify := 22.
Definition ClientMessage := 33.

Definition handle_event (g : gui) (w : LppUnixWindow) (s : xserver) (ev : X11Event) : outcome (LppUnixWindow * xserver) :=
  let t := type ev in
  if t =? KeyPress then let! w := mark_key g w ev 1 in Ok (w, s)
  else if t =? KeyRelease then let! w := unmark_key g w ev in Ok (w, s)
  else if t =? ButtonPress then Ok (set_down w 1, s)
  else if t =? ButtonRelease then Ok (set_down w 0, s)
  else if t =? MotionNotify then Ok (set_mouse w (i32 (pad ev 4)) (i32 (pad ev 5)), s)
  else if t =? ConfigureNotify then resize g w s (i32 (pad ev 6)) (i32 (pad ev 7))
  else if t =? Expose then let! s := blit g w s in Ok (w, s)
  else if t =? DestroyNotify then Ok (set_open w 0, s)
  else if t =? ClientMessage then
    Ok (if pad ev 3 =? wm_delete w then set_open w 0 else w, s)
  else Ok (w, s).

(** [while (p_XPending(w->display))], over the events that wait. *)
Fixpoint poll_loop (g : gui) (w : LppUnixWindow) (s : xserver) (evs : list X11Event) : outcome (LppUnixWindow * xserver) :=
  match evs with
  | [] => Ok (w, s)
  | ev :: evs => let! '(w, s) := need g XNextEvent (handle_event g w s ev) in poll_loop g w s evs
  end.

Definition lpp_gui_window_poll_events (g : gui) (win_id : Z) : outcome (Z * gui) :=
  let! ow := open_window g win_id in
  match ow with
  | None => Ok (0, g)
  | Some w =>
      if (display w =? 0) || negb (p g XPending) then Ok (is_open w, g)
      else
        let evs := default [] (incoming (xs g) !! display w) in
        let! '(w', s) := poll_loop g w (xs g) evs in
        let! t := wr (g_unix_windows g) win_id w' in
        Ok (b2z (negb (is_open w' =? 0)),
            mk_gui t (g_x11_lib g) (dl_error g) (mk_x (live s) (requests s) (delete (display w) (incoming s))))
  end.

(** ** Drawing *)

Definition lpp_unix_target (w : LppUnixWindow) : Z := if negb (pixmap w =? 0) then pixmap w else window w.
Definition lpp_unix_gc (w : LppUnixWindow) : Z := if negb (pixmap_gc w =? 0) then pixmap_gc w else gc w.

(** The requests of one drawing, in order. *)
Fixpoint xsend_all (s : xserver) (dpy : Z) (rs : list xreq) : outcome xserver :=
  match rs with
  | [] => Ok s
  | r :: rs => let! s := xsend s dpy r in xsend_all s dpy rs
  end.

(** A drawing in the colour [hex] on an open window, when the library has the functions [fs]: the
    foreground, then [rs] for the target and the context. *)
Definition draw (g : gui) (win_id hex : Z) (fs : list xfn) (rs : LppUnixWindow -> Z -> Z -> outcome (list xreq)) : outcome gui :=
  let! ow := open_window g win_id in
  match ow with
  | None => Ok g
  | Some w =>
      if (display w =? 0) || negb (forallb (p g) fs) then Ok g
      else
        let c := lpp_unix_gc w in
        let! s := xsend (xs g) (display w) (SetForeground c (lpp_x11_color g w hex)) in
        let! rs := rs w (lpp_unix_target w) c in
        let! s := xsend_all s (display w) rs in
        Ok (set_xs g s)
  end.

Definition lpp_gui_clear (g : gui) (win_id hex_color : Z) : outcome gui :=
  let! ow := open_window g win_id in
  match ow with
  | None => Ok g
  | Some w =>
      if (display w =? 0) || negb (p g XSetForeground) || negb (p g XFillRectangle) then Ok g
      else
        let pixel := lpp_x11_color g w hex_color in
        let! t := wr (g_unix_windows g) win_id (set_bg w pixel) in
        let c := lpp_unix_gc w in
        let! s := xsend (xs g) (display w) (SetForeground c pixel) in
        let! s := xsend s (display w) (FillRectangle (lpp_unix_target w) c 0 0 (u32 (width w)) (u32 (height w))) in
        Ok (mk_gui t (g_x11_lib g) (dl_error g) s)
  end.

Definition lpp_gui_draw_rect (g : gui) (win_id x y wd ht hex_color : Z) : outcome gui :=
  draw g win_id hex_color [XSetForeground; XFillRectangle] (fun w d c =>
    Ok [FillRectangle d c (i32 x) (i32 y) (u32 wd) (u32 ht)]).

Definition lpp_gui_draw_rounded_rect (g : gui) (win_id x y wd ht radius hex_color : Z) : outcome gui :=
  draw g win_id hex_color [XFillArc; XFillRectangle; XSetForeground] (fun w t c =>
    let r := i32 radius in
    let! d := chk32 (r * 2) in
    let ix := i32 x in let iy := i32 y in let iw := i32 wd in let ih := i32 ht in
    let! xw := chk32 (ix + iw) in
    let! right_ := chk32 (xw - d) in
    let! yh := chk32 (iy + ih) in
    let! bottom := chk32 (yh - d) in
    let! xr := chk32 (ix + r) in
    let! inner_w := chk32 (iw - d) in
    let! yr := chk32 (iy + r) in
    let! inner_h := chk32 (ih - d) in
    let! edge := chk32 (xw - r) in
    Ok [FillArc t c ix iy (u32 d) (u32 d) (90 * 64) (90 * 64);
        FillArc t c right_ iy (u32 d) (u32 d) 0 (90 * 64);
        FillArc t c ix bottom (u32 d) (u32 d) (180 * 64) (90 * 64);
        FillArc t c right_ bottom (u32 d) (u32 d) (270 * 64) (90 * 64);
        FillRectangle t c xr iy (u32 inner_w) (u32 ih);
        FillRectangle t c ix yr (u32 r) (u32 inner_h);
        FillRectangle t c edge yr (u32 r) (u32 inner_h)]).

(** [text] with its length as an [int]. *)
Definition drawn_text (text : cstr) : cstr := take (Z.to_nat (i32 (Z.of_nat (length text)))) text.
Definition lpp_gui_draw_text (g : gui) (win_id x y : Z) (text : option cstr) (hex_color : Z) : outcome gui :=
  match text with
  | None => Ok g
  | Some text =>
      draw g win_id hex_color [XSetForeground; XDrawString] (fun w d c =>
        let! base := chk64 (y + 13) in Ok [DrawString d c (i32 x) (i32 base) (drawn_text text)])
  end.

Definition lpp_gui_draw_circle (g : gui) (win_id cx cy r hex_color : Z) : outcome gui :=
  draw g win_id hex_color [XFillArc; XSetForeground] (fun w d c =>
    let! x := chk64 (cx - r) in
    let! y := chk64 (cy - r) in
    let! size := chk64 (r * 2) in
    Ok [FillArc d c (i32 x) (i32 y) (u32 size) (u32 size) 0 (360 * 64)]).

Definition lpp_gui_draw_line (g : gui) (win_id x1 y1 x2 y2 thick hex_color : Z) : outcome gui :=
  draw g win_id hex_color [XDrawLine; XSetForeground] (fun w d c =>
    Ok ((if p g XSetLineAttributes then [SetLineAttributes c (u32 (if thick >? 0 then thick else 1))] else []) ++
        [DrawLine d c (i32 x1) (i32 y1) (i32 x2) (i32 y2)])).

Definition lpp_gui_present (g : gui) (win_id : Z) : outcome gui :=
  let! ow := open_window g win_id in
  match ow with
  | None => Ok g
  | Some w => if display w =? 0 then Ok g else let! s := blit g w (xs g) in Ok (set_xs g s)
  end.

Definition lpp_gui_measure_text_width (text : option cstr) : Z :=
  match text with None => 0 | Some text => i64 (u64 (Z.of_nat (length text) * 8)) end.

Definition lpp_gui_window_close (g : gui) (win_id : Z) : outcome gui :=
  if out_of_range win_id then Ok g
  else
    let! w := rd (g_unix_windows g) win_id in
    if (is_open w =? 0) && (display w =? 0) then Ok g
    else
      let! t := wr (g_unix_windows g) win_id (set_open w 0) in
      lpp_unix_destroy_slot (set_wins g t) win_id.

(** ** What the server holds *)

(** What one slot of the table accounts for. *)
Definition opt_obj (id : Z) (o : xobj) : list (Z * xobj) := if id =? 0 then [] else [(id, o)].
Definition slot_objs (w : LppUnixWindow) : list (Z * xobj) :=
  let d := display w in
  if d =? 0 then []
  else (d, Display) :: (window w, Window d) :: opt_obj (gc w) (GC d) ++
       opt_obj (pixmap w) (Pixmap d (u32 (width w)) (u32 (height w))) ++ opt_obj (pixmap_gc w) (GC d).

(** The server refuses no drawing context. *)
Definition gcs_granted : Prop := forall s d, new_id s (GC d) <> 0.

Definition slot_wf (w : LppUnixWindow) : Prop :=
  length (key_state w) = 256%nat /\ (is_open w = 0 \/ is_open w = 1) /\
  (display w = 0 -> is_open w = 0) /\
  (display w <> 0 -> window w <> 0 /\ (pixmap w = 0 -> pixmap_gc w = 0) /\
     (gcs_granted -> gc w <> 0 /\ (pixmap_gc w = 0 -> pixmap w = 0))).

Definition holds (s : xserver) (l : list (Z * xobj)) : Prop := map_to_list (live s) ≡ₚ l.
Definition accounted (g : gui) : Prop :=
  length (g_unix_windows g) = 8%nat /\ Forall slot_wf (g_unix_windows g) /\
  holds (xs g) (concat (map slot_objs (g_unix_windows g))).

#[global] Instance holds_proper s : Proper ((≡ₚ) ==> iff) (holds s).
Proof. intros l l' E. unfold holds. by rewrite E. Qed.

Lemma holds_perm s l l' : holds s l -> l ≡ₚ l' -> holds s l'.
Proof. intros Hh E. by rewrite <- E. Qed.

Lemma holds_lookup s l id o : holds s l -> (id, o) ∈ l -> live s !! id = Some o.
Proof. intros Hh Hin. apply elem_of_map_to_list. by rewrite Hh. Qed.

Lemma holds_nodup s l : holds s l -> NoDup l.*1.
Proof. intros Hh. rewrite <- Hh. apply NoDup_fst_map_to_list. Qed.

Context `{!XLaws}.

Lemma xnew_holds s o l : holds s l ->
  exists id s', xnew s o = (id, s') /\ id = new_id s o /\ holds s' (opt_obj id o ++ l) /\
    requests s' = requests s /\ incoming s' = incoming s /\ (id = 0 -> s' = s).
Proof.
  intros Hh. unfold xnew, opt_obj. destruct (new_id s o =? 0) eqn:E; bool_to_prop.
  { exists 0, s. by rewrite E. }
  exists (new_id s o), (set_live s (<[new_id s o := o]> (live s))).
  rewrite (proj2 (Z.eqb_neq _ _) E). repeat split; [|done].
  unfold holds in *. cbn. rewrite map_to_list_insert by by apply new_id_fresh. by rewrite Hh.
Qed.

Lemma xfree_holds s d id o l : owner o = Some d -> holds s ((id, o) :: l) ->
  wp (xfree s d id) (fun s' => holds s' l /\ requests s' = requests s /\ incoming s' = incoming s).
Proof.
  intros Ho Hh. unfold xfree. rewrite (holds_lookup s _ id o Hh) by left.
  rewrite bool_decide_eq_true_2 by done. cbn. repeat split. unfold holds in *. cbn.
  apply (Permutation_cons_inv (a := (id, o))). rewrite <- Hh. apply map_to_list_delete.
  apply elem_of_map_to_list. rewrite Hh. by left.
Qed.

Lemma free_if_holds g f s d id o l : p g f = true -> owner o = Some d -> holds s (opt_obj id o ++ l) ->
  wp (free_if g f s d id) (fun s' => holds s' l /\ requests s' = requests s /\ incoming s' = incoming s).
Proof.
  intros Hp Ho Hh. unfold free_if, opt_obj in *. rewrite Hp.
  destruct (id =? 0); cbn [negb andb app] in *; [done|]. by eapply xfree_holds.
Qed.

Lemma xsend_holds s d r : names_live s d r = true ->
  xsend s d r = Ok (mk_x (live s) (requests s ++ [r]) (incoming s)).
Proof. intros Hn. unfold xsend. by rewrite Hn. Qed.

Lemma xclose_holds s d l : holds s ((d, Display) :: l) -> Forall (fun x => owner x.2 <> Some d) l ->
  wp (xclose s d) (fun s' => holds s' l /\ requests s' = requests s /\ incoming s' = delete d (incoming s)).
Proof.
  intros Hh Ho. unfold xclose. rewrite (holds_lookup s _ d Display Hh) by left. cbn.
  repeat split. unfold holds in *. cbn.
  assert (E : filter (survives d) (live s) = list_to_map l).
  { pose proof (holds_nodup s _ Hh) as Hnd. cbn in Hnd. apply NoDup_cons in Hnd as [Hd Hnd].
    apply map_eq. intros i. apply option_eq. intros o.
    rewrite map_lookup_filter_Some, <- elem_of_list_to_map by done. rewrite <- elem_of_map_to_list, Hh.
    unfold survives. cbn. rewrite elem_of_cons. rewrite Forall_forall in Ho. split.
    - intros [[[=]|Hin] [Hi _]]; [by subst|done].
    - intros Hin. split; [by right|]. split; [|by apply (Ho (i, o))].
      intros ->. apply Hd. by apply (list_elem_of_fmap_2 fst _ (d, o)). }
  rewrite E. apply map_to_list_to_map. pose proof (holds_nodup s _ Hh) as Hnd. cbn in Hnd. by apply NoDup_cons in Hnd as [_ ?].
Qed.

(** One slot, and the rest of the server. *)
Lemma slot_objs_owner w id d o : (id, o) ∈ slot_objs w -> owner o = Some d -> d = display w /\ (d, Display) ∈ slot_objs w.
Proof.
  unfold slot_objs, opt_obj. destruct (display w =? 0); [by intros ?%elem_of_nil|].
  repeat case_match; set_solver.
Qed.

Lemma focus g i w : accounted g -> g_unix_windows g !! i = Some w ->
  exists rest, holds (xs g) (slot_objs w ++ rest) /\
    (display w <> 0 -> Forall (fun x => owner x.2 <> Some (display w)) rest) /\
    forall w' lib de s', holds s' (slot_objs w' ++ rest) -> slot_wf w' ->
      accounted (mk_gui (<[i := w']> (g_unix_windows g)) lib de s').
Proof.
  intros (Hlen & Hwf & Hh) Hi.
  assert (Hlt : (i < length (g_unix_windows g))%nat) by by eapply lookup_lt_Some.
  set (rest := concat (map slot_objs (take i (g_unix_windows g))) ++ concat (map slot_objs (drop (S i) (g_unix_windows g)))).
  assert (E : forall w', concat (map slot_objs (<[i := w']> (g_unix_windows g))) ≡ₚ slot_objs w' ++ rest).
  { intros w'. rewrite insert_take_drop by done. rewrite map_app, concat_app. cbn [map concat]. subst rest. solve_Permutation. }
  assert (E0 : holds (xs g) (slot_objs w ++ rest)).
  { rewrite <- (E w). by rewrite list_insert_id. }
  exists rest. split; [done|]. split.
  - intros Hd. apply Forall_forall. intros [id o] Hin Ho. cbn in Ho.
    assert (Hdisp : (display w, Display) ∈ rest).
    { subst rest. rewrite <- concat_app, <- map_app in Hin |- *.
      apply list_elem_of_In, in_concat in Hin as (l & (w1 & <- & Hw1)%in_map_iff & Hin).
      apply list_elem_of_In in Hin. destruct (slot_objs_owner w1 id _ o Hin Ho) as [_ Hd1].
      apply list_elem_of_In, in_concat. exists (slot_objs w1). split; [|by apply list_elem_of_In].
      by apply in_map. }
    apply holds_nodup in E0. rewrite fmap_app in E0. apply NoDup_app in E0 as (_ & Hdis & _).
    apply (Hdis (display w)).
    + unfold slot_objs. rewrite (proj2 (Z.eqb_neq _ _) Hd). by left.
    + by apply (list_elem_of_fmap_2 fst _ (display w, Display)).
  - intros w' lib de s' Hs' Hw'. repeat split; cbn.
    + by rewrite length_insert.
    + by apply Forall_insert.
    + by rewrite E.
Qed.

(** ** Sessions *)

(** The library is there, with every function the runtime looks up. *)
Definition x11_complete : Prop := match libX11 with Some has => forall f, has f = true | None => False end.
Context (Hlib : x11_complete).

(** A window implies the library. *)
Definition ready (g : gui) : Prop :=
  g_x11_lib g = libX11 \/
  (g_x11_lib g = None /\ Forall (fun w => display w = 0) (g_unix_windows g)).
Definition gui_inv (g : gui) : Prop := accounted g /\ ready g.

Lemma gui0_inv : gui_inv gui0.
Proof.
  split; [|right; split; [done|]; by apply Forall_replicate].
  split; [done|]. split; [|unfold holds; cbn; by rewrite map_to_list_empty].
  apply Forall_replicate. repeat split; auto; by intros [].
Qed.

Lemma all_loaded g i w : ready g -> g_unix_windows g !! i = Some w -> display w <> 0 -> forall f, p g f = true.
Proof.
  intros [E|[_ Hz]] Hi Hd f.
  - unfold p. rewrite E. revert Hlib. unfold x11_complete. destruct libX11; [by intros ->|done].
  - rewrite Forall_lookup in Hz. by destruct (Hd (Hz i w Hi)).
Qed.

Lemma ready_insert g i w w' lib de s :
  ready g -> lib = g_x11_lib g -> g_unix_windows g !! i = Some w -> (display w = 0 -> display w' = 0) ->
  ready (mk_gui (<[i := w']> (g_unix_windows g)) lib de s).
Proof.
  intros [E|[E Hz]] -> Hi Hd; [by left|]. right. split; [done|]. cbn.
  apply Forall_insert; [done|]. rewrite Forall_lookup in Hz. eauto.
Qed.

Lemma in_table g win_id : length (g_unix_windows g) = 8%nat -> out_of_range win_id = false ->
  exists w, g_unix_windows g !! Z.to_nat win_id = Some w /\ rd (g_unix_windows g) win_id = Ok w /\ 0 <= win_id < 8.
Proof.
  unfold out_of_range, MAX_UNIX_WINDOWS. intros Hl Hr. bool_to_prop.
  destruct (lookup_lt_is_Some_2 (g_unix_windows g) (Z.to_nat win_id)) as [w Hw]; [lia|].
  exists w. split; [done|]. split; [|lia]. apply rd_ok; [lia|done].
Qed.

(** The open window a builtin works on. *)
Lemma open_window_cases g win_id : length (g_unix_windows g) = 8%nat ->
  open_window g win_id = Ok None \/
  exists w, open_window g win_id = Ok (Some w) /\ 0 <= win_id < 8 /\
    g_unix_windows g !! Z.to_nat win_id = Some w /\ is_open w <> 0.
Proof.
  intros Hl. unfold open_window. destruct (out_of_range win_id) eqn:E; [by left|].
  destruct (in_table g win_id Hl E) as (w & Hw & -> & ?). cbn.
  destruct (is_open w =? 0) eqn:E'; bool_to_prop; [by left|]. right. by exists w.
Qed.

Lemma slot_of g win_id w : gui_inv g -> g_unix_windows g !! win_id = Some w ->
  slot_wf w /\ (is_open w <> 0 -> display w <> 0) /\ (display w <> 0 -> forall f, p g f = true).
Proof.
  intros [(_ & Hwf & _) Hr] Hw. rewrite Forall_lookup in Hwf. specialize (Hwf _ _ Hw).
  split; [done|]. split; [|by eapply all_loaded].
  intros Ho Hd. destruct Hwf as (_ & _ & Hz & _). auto.
Qed.

(** The target of a window exists, and its contexts when they were granted. *)
Lemma target_live s w rest : slot_wf w -> display w <> 0 -> holds s (slot_objs w ++ rest) ->
  is_window s (display w) (window w) = true /\ (gc w <> 0 -> is_gc s (display w) (gc w) = true) /\
  is_drawable s (display w) (lpp_unix_target w) = true /\
  (lpp_unix_gc w <> 0 -> is_gc s (display w) (lpp_unix_gc w) = true) /\
  (pixmap w <> 0 -> is_drawable s (display w) (pixmap w) = true).
Proof.
  intros (_ & _ & _ & Hw) Hd Hh. destruct (Hw Hd) as (Hwin & _ & _). clear Hw.
  assert (Hl : forall id o, (id, o) ∈ slot_objs w -> live s !! id = Some o).
  { intros id o Hin. eapply holds_lookup; [done|]. set_solver. }
  unfold slot_objs in Hl. rewrite (proj2 (Z.eqb_neq _ _) Hd) in Hl.
  assert (Ho : forall id o, id <> 0 -> opt_obj id o = [(id, o)]) by (intros; unfold opt_obj; by rewrite (proj2 (Z.eqb_neq _ _))).
  assert (live s !! window w = Some (Window (display w))) as E1 by (apply Hl; set_solver).
  assert (Hc : gc w <> 0 -> is_gc s (display w) (gc w) = true).
  { intros Hc. apply bool_decide_eq_true_2, Hl. rewrite (Ho (gc w)) by done. set_solver. }
  assert (Hp : pixmap w <> 0 -> is_drawable s (display w) (pixmap w) = true).
  { intros Hp. unfold is_drawable. rewrite (Hl (pixmap w) (Pixmap (display w) (u32 (width w)) (u32 (height w)))); [apply Z.eqb_refl|].
    rewrite (Ho (pixmap w)) by done. set_solver. }
  unfold lpp_unix_target, lpp_unix_gc. split; [by apply bool_decide_eq_true_2|]. split; [done|]. split; [|split; [|done]].
  - destruct (Z.eqb_spec (pixmap w) 0); cbn; [|by apply Hp]. unfold is_drawable. by rewrite E1, Z.eqb_refl.
  - destruct (Z.eqb_spec (pixmap_gc w) 0) as [|Hg]; cbn; [done|]. intros _. apply bool_decide_eq_true_2, Hl.
    rewrite (Ho (pixmap_gc w)) by done. set_solver.
Qed.

Lemma gc_granted w : gcs_granted -> slot_wf w -> display w <> 0 -> gc w <> 0 /\ lpp_unix_gc w <> 0.
Proof.
  intros Hgc (_ & _ & _ & Hw) Hd. destruct (Hw Hd) as (_ & _ & Hg). destruct (Hg Hgc) as [Hc _]. split; [done|].
  unfold lpp_unix_gc. by destruct (Z.eqb_spec (pixmap_gc w) 0).
Qed.

Lemma open_slot g win_id w : gui_inv g -> 0 <= win_id < 8 ->
  g_unix_windows g !! Z.to_nat win_id = Some w -> is_open w <> 0 ->
  open_window g win_id = Ok (Some w) /\ slot_wf w /\ display w <> 0 /\ (forall f, p g f = true) /\
  exists rest, holds (xs g) (slot_objs w ++ rest).
Proof.
  intros Hinv Hid Hw Ho. destruct (slot_of g _ w Hinv Hw) as (Hwf & Hdisp & Hp).
  specialize (Hdisp Ho). specialize (Hp Hdisp).
  split.
  { unfold open_window, out_of_range, MAX_UNIX_WINDOWS.
    rewrite (proj2 (Z.ltb_ge win_id 0)), Z.geb_leb, (proj2 (Z.leb_gt 8 win_id)) by lia. cbn [orb].
    rewrite (rd_ok _ _ w) by (done || lia). cbn [obind]. by rewrite (proj2 (Z.eqb_neq _ _) Ho). }
  do 3 (split; [done|]). destruct Hinv as [Hacc _]. destruct (focus g _ w Hacc Hw) as (rest & Hh & _). eauto.
Qed.

(** *** Drawing *)

Definition add_requests (s : xserver) (rs : list xreq) : xserver := mk_x (live s) (requests s ++ rs) (incoming s).

(** A request that draws on [d] with the context [c]. *)
Definition on_target (d c : Z) (r : xreq) : Prop :=
  match r with
  | FillRectangle d' c' _ _ _ _ | FillArc d' c' _ _ _ _ _ _ | DrawLine d' c' _ _ _ _ | DrawString d' c' _ _ _ =>
      d' = d /\ c' = c
  | SetLineAttributes c' _ => c' = c
  | _ => False
  end.

Lemma xsend_all_ok dpy d c rs : forall s, is_drawable s dpy d = true -> is_gc s dpy c = true ->
  Forall (on_target d c) rs -> xsend_all s dpy rs = Ok (add_requests s rs).
Proof.
  induction rs as [|r rs IH]; intros s Hd Hc Hrs; cbn.
  { unfold add_requests. rewrite app_nil_r. by destruct s. }
  inversion Hrs as [|? ? Hr Hrs']; subst. rewrite xsend_holds.
  2:{ destruct r; cbn in Hr; destruct_and?; subst; cbn; rewrite ?Hd, ?Hc; done. }
  cbn [obind]. rewrite IH by done. unfold add_requests. cbn. by rewrite <- app_assoc.
Qed.

Lemma inv_requests g rs : gui_inv g -> gui_inv (set_xs g (add_requests (xs g) rs)).
Proof. by intros [? ?]. Qed.

(** What a drawing sends. *)
Lemma draw_exact g win_id w hex fs rs l : gcs_granted -> gui_inv g -> 0 <= win_id < 8 ->
  g_unix_windows g !! Z.to_nat win_id = Some w -> is_open w <> 0 ->
  rs w (lpp_unix_target w) (lpp_unix_gc w) = Ok l -> Forall (on_target (lpp_unix_target w) (lpp_unix_gc w)) l ->
  draw g win_id hex fs rs =
    Ok (set_xs g (add_requests (xs g) (SetForeground (lpp_unix_gc w) (lpp_x11_color g w hex) :: l))).
Proof.
  intros Hgc Hinv Hid Hw Ho Hrs Hl. destruct (open_slot g win_id w Hinv Hid Hw Ho) as (Eo & Hwf & Hdisp & Hp & rest & Hh).
  destruct (target_live _ _ _ Hwf Hdisp Hh) as (_ & _ & Hd & Hc & _). specialize (Hc (proj2 (gc_granted w Hgc Hwf Hdisp))).
  unfold draw. rewrite Eo. cbn [obind]. rewrite (proj2 (Z.eqb_neq _ _) Hdisp).
  rewrite (proj2 (forallb_forall _ fs)) by done. cbn [negb orb obind].
  rewrite xsend_holds by done. cbn [obind]. rewrite Hrs. cbn [obind].
  rewrite (xsend_all_ok _ (lpp_unix_target w) (lpp_unix_gc w)) by done. cbn [obind].
  unfold add_requests. cbn. by rewrite <- app_assoc.
Qed.

(** A drawing sends its requests, or is undefined for want of a context or of room in its coordinates. *)
Lemma xsend_keeps (R : Prop) s d r (Q : xserver -> Prop) : (R -> names_live s d r = true) ->
  Q (mk_x (live s) (requests s ++ [r]) (incoming s)) -> within R (xsend s d r) Q.
Proof. intros Hn HQ. unfold xsend. destruct (names_live s d r); cbn; [done|]. by intros ?%Hn. Qed.

Lemma xsend_all_keeps (R : Prop) dpy d c rs : forall s, (R -> is_drawable s dpy d = true /\ is_gc s dpy c = true) ->
  Forall (on_target d c) rs -> within R (xsend_all s dpy rs) (fun s' => exists l, s' = add_requests s l).
Proof.
  induction rs as [|r rs IH]; intros s Hdc Hrs; cbn [xsend_all].
  { exists []. unfold add_requests. rewrite app_nil_r. by destruct s. }
  inversion Hrs as [|? ? Hr Hrs']; subst. apply within_bind, xsend_keeps.
  { intros HR. destruct (Hdc HR) as [Hd Hc]. destruct r; cbn in Hr; destruct_and?; subst; cbn; rewrite ?Hd, ?Hc; done. }
  eapply within_mono; [by apply IH|]. intros s' [l ->]. exists (r :: l). unfold add_requests. cbn. by rewrite <- app_assoc.
Qed.

Lemma draw_inv (R : Prop) g win_id hex fs rs : (R -> gcs_granted) -> gui_inv g ->
  (forall w d c, within R (rs w d c) (Forall (on_target d c))) -> within R (draw g win_id hex fs rs) gui_inv.
Proof.
  intros HR Hinv Hrs. pose proof Hinv as [(Hlen & _) _]. unfold draw.
  destruct (open_window_cases g win_id Hlen) as [->|(w & -> & Hid & Hw & Ho)]; [done|]. cbn [obind].
  destruct (open_slot g win_id w Hinv Hid Hw Ho) as (_ & Hwf & Hdisp & _ & rest & Hh).
  destruct (target_live _ _ _ Hwf Hdisp Hh) as (_ & _ & Hd & Hc & _).
  assert (Hc' : R -> is_gc (xs g) (display w) (lpp_unix_gc w) = true) by (intros Hr; by apply Hc, gc_granted; auto).
  destruct (_ || _); [done|]. apply within_bind, xsend_keeps; [exact Hc'|]. apply within_bind.
  eapply within_mono; [apply Hrs|]. intros l Hl. apply within_bind.
  eapply within_mono; [apply (xsend_all_keeps R _ (lpp_unix_target w) (lpp_unix_gc w)); [|exact Hl]; intros Hr; split; [exact Hd|exact (Hc' Hr)]|].
  intros s [l' ->]. cbn. unfold add_requests. cbn. rewrite <- app_assoc. by apply (inv_requests g).
Qed.

Lemma clear_exact g win_id w hex : gcs_granted -> gui_inv g -> 0 <= win_id < 8 ->
  g_unix_windows g !! Z.to_nat win_id = Some w -> is_open w <> 0 ->
  lpp_gui_clear g win_id hex =
    Ok (mk_gui (<[Z.to_nat win_id := set_bg w (lpp_x11_color g w hex)]> (g_unix_windows g)) (g_x11_lib g) (dl_error g)
      (add_requests (xs g) [SetForeground (lpp_unix_gc w) (lpp_x11_color g w hex);
         FillRectangle (lpp_unix_target w) (lpp_unix_gc w) 0 0 (u32 (width w)) (u32 (height w))])).
Proof.
  intros Hgc Hinv Hid Hw Ho. destruct (open_slot g win_id w Hinv Hid Hw Ho) as (Eo & Hwf & Hdisp & Hp & rest & Hh).
  destruct (target_live _ _ _ Hwf Hdisp Hh) as (_ & _ & Hd & Hc & _). specialize (Hc (proj2 (gc_granted w Hgc Hwf Hdisp))).
  unfold lpp_gui_clear. rewrite Eo. cbn [obind]. rewrite (proj2 (Z.eqb_neq _ _) Hdisp).
  rewrite !Hp. cbn [negb orb obind]. rewrite wr_ok by (rewrite (proj1 (proj1 Hinv)); lia). cbn [obind].
  rewrite xsend_holds by done. cbn [obind]. rewrite xsend_holds.
  2:{ cbn. unfold is_drawable, is_gc in *. cbn. by rewrite Hd, Hc. }
  cbn [obind]. unfold add_requests. cbn. by rewrite <- app_assoc.
Qed.

(** Changing what is not about the server's objects keeps the invariant. *)
Lemma inv_slot g i w w' s : gui_inv g -> g_unix_windows g !! i = Some w ->
  slot_objs w' = slot_objs w -> slot_wf w' -> (display w = 0 -> display w' = 0) -> live s = live (xs g) ->
  gui_inv (mk_gui (<[i := w']> (g_unix_windows g)) (g_x11_lib g) (dl_error g) s).
Proof.
  intros [Hacc Hr] Hw Ho Hwf Hd Hs. split; [|by eapply ready_insert].
  destruct (focus g i w Hacc Hw) as (rest & Hh & _ & Hput). apply Hput; [|done].
  unfold holds in *. by rewrite Hs, Ho.
Qed.

Lemma clear_inv (R : Prop) g win_id hex : (R -> gcs_granted) -> gui_inv g -> within R (lpp_gui_clear g win_id hex) gui_inv.
Proof.
  intros HR Hinv. pose proof Hinv as [(Hlen & _) _]. unfold lpp_gui_clear.
  destruct (open_window_cases g win_id Hlen) as [->|(w & -> & Hid & Hw & Ho)]; [done|]. cbn [obind].
  destruct (open_slot g win_id w Hinv Hid Hw Ho) as (_ & Hwf & Hdisp & _ & rest & Hh).
  destruct (target_live _ _ _ Hwf Hdisp Hh) as (_ & _ & Hd & Hc & _).
  assert (Hc' : R -> is_gc (xs g) (display w) (lpp_unix_gc w) = true) by (intros Hr; by apply Hc, gc_granted; auto).
  destruct (_ || _); [done|]. cbv zeta. rewrite wr_ok by lia. cbn [obind].
  apply within_bind, xsend_keeps; [exact Hc'|]. apply within_bind, xsend_keeps.
  { intros Hr. cbn. specialize (Hc' Hr). unfold is_drawable, is_gc in *. cbn. by rewrite Hd, Hc'. }
  cbn. by eapply inv_slot.
Qed.

Lemma blit_ok g w s rest : slot_wf w -> display w <> 0 -> (forall f, p g f = true) -> holds s (slot_objs w ++ rest) ->
  blit g w s = Ok (if (pixmap w =? 0) || (gc w =? 0) then s else
    add_requests s [CopyArea (pixmap w) (window w) (gc w) 0 0 (u32 (width w)) (u32 (height w)) 0 0]).
Proof.
  intros Hwf Hd Hp Hh. destruct (target_live _ _ _ Hwf Hd Hh) as (Hwin & Hc & _ & _ & Hpm).
  unfold blit. rewrite Hp, andb_true_r. destruct (pixmap w =? 0) eqn:E; bool_to_prop; [done|].
  destruct (gc w =? 0) eqn:Eg; bool_to_prop; [done|]. cbn [negb andb orb]. rewrite xsend_holds; [done|].
  cbn. rewrite Hpm, Hc by done. unfold is_drawable, is_window in *. apply bool_decide_eq_true in Hwin.
  by rewrite Hwin, Z.eqb_refl.
Qed.

Lemma present_exact g win_id w : gcs_granted -> gui_inv g -> 0 <= win_id < 8 ->
  g_unix_windows g !! Z.to_nat win_id = Some w -> is_open w <> 0 ->
  lpp_gui_present g win_id = Ok (set_xs g (if pixmap w =? 0 then xs g else
    add_requests (xs g) [CopyArea (pixmap w) (window w) (gc w) 0 0 (u32 (width w)) (u32 (height w)) 0 0])).
Proof.
  intros Hgc Hinv Hid Hw Ho. destruct (open_slot g win_id w Hinv Hid Hw Ho) as (Eo & Hwf & Hdisp & Hp & rest & Hh).
  unfold lpp_gui_present. rewrite Eo. cbn [obind].
  rewrite (proj2 (Z.eqb_neq _ _) Hdisp). rewrite (blit_ok g w _ rest) by done.
  by rewrite (proj2 (Z.eqb_neq _ _) (proj1 (gc_granted w Hgc Hwf Hdisp))), orb_false_r.
Qed.

Lemma present_inv g win_id : gui_inv g -> wp (lpp_gui_present g win_id) gui_inv.
Proof.
  intros Hinv. pose proof Hinv as [(Hlen & _) _]. unfold lpp_gui_present.
  destruct (open_window_cases g win_id Hlen) as [->|(w & -> & Hid & Hw & Ho)]; [done|]. cbn [obind].
  destruct (open_slot g win_id w Hinv Hid Hw Ho) as (_ & Hwf & Hdisp & Hp & rest & Hh).
  rewrite (proj2 (Z.eqb_neq _ _) Hdisp), (blit_ok g w _ rest) by done. cbn.
  destruct (_ || _); [|by apply inv_requests]. by destruct g.
Qed.

(** *** Events *)

(** What an event may change: not the connection, the window, nor what is accounted for. *)
Definition event_keeps (w w' : LppUnixWindow) : Prop :=
  slot_wf w' /\ display w' = display w /\ window w' = window w /\ gc w' = gc w /\ wm_delete w' = wm_delete w.

Lemma set_key_ok keys k v : length keys = 256%nat -> 0 <= k ->
  wp (set_key keys k v) (fun keys' => length keys' = 256%nat).
Proof.
  intros Hl Hk. unfold set_key. split_test; [|done]. rewrite wr_ok by lia. cbn. by rewrite length_insert.
Qed.

Lemma byte_index z : 0 <= Z.land z 0xFF < 256.
Proof. rewrite Z.land_comm. apply (land_bound 8); lia. Qed.

Lemma mark_key_ok g w ev v : slot_wf w ->
  wp (mark_key g w ev v) (fun w' => event_keeps w w' /\ slot_objs w' = slot_objs w).
Proof.
  intros (Hk & Hr). unfold mark_key. apply wp_bind. eapply wp_mono.
  { destruct (p g XLookupString); [apply set_key_ok; [done|apply keysym_word]|apply wp_ok, Hk]. }
  cbn. intros keys Hkeys. apply wp_bind. eapply wp_mono; [apply set_key_ok; [done|apply byte_index]|].
  intros keys' Hkeys'. cbn. by split; [split; [split|]|].
Qed.

Lemma unmark_key_ok g w ev : slot_wf w ->
  wp (unmark_key g w ev) (fun w' => event_keeps w w' /\ slot_objs w' = slot_objs w).
Proof.
  intros (Hk & Hr). unfold unmark_key. apply wp_bind. eapply wp_mono; [apply set_key_ok; [done|apply byte_index]|].
  cbn. intros keys Hkeys. apply wp_bind. eapply wp_mono.
  { destruct (p g XLookupString); [apply set_key_ok; [done|apply keysym_word]|apply wp_ok, Hkeys]. }
  intros keys' Hkeys'. cbn. by split; [split; [split|]|].
Qed.

Lemma back_buffer_ok g s d w h l : (forall f, p g f = true) -> holds s l ->
  exists pm c s', back_buffer g s d w h = (pm, c, s') /\ (pm = 0 -> c = 0) /\ (gcs_granted -> c = 0 -> pm = 0) /\
    holds s' (opt_obj pm (Pixmap d (u32 w) (u32 h)) ++ opt_obj c (GC d) ++ l).
Proof.
  intros Hp Hh. unfold back_buffer. rewrite !Hp.
  destruct (xnew_holds s (Pixmap d (u32 w) (u32 h)) l Hh) as (pm & s1 & -> & -> & Hh1 & _ & _ & _).
  rewrite andb_true_r. destruct (new_id s _ =? 0) eqn:E; bool_to_prop; cbn [negb].
  - exists (new_id s (Pixmap d (u32 w) (u32 h))), 0, s1. rewrite E in *. done.
  - destruct (xnew_holds s1 (GC d) _ Hh1) as (c & s2 & -> & -> & Hh2 & _ & _ & _).
    eexists _, _, _. split; [done|]. split; [done|]. split; [intros Hgc Hc0; by destruct (Hgc s1 d)|].
    eapply holds_perm; [exact Hh2|]. rewrite !app_assoc. apply Permutation_app; [apply Permutation_app_comm|done].
Qed.

Lemma resize_ok g w s new_w new_h rest : slot_wf w -> display w <> 0 -> (forall f, p g f = true) ->
  holds s (slot_objs w ++ rest) ->
  wp (resize g w s new_w new_h) (fun '(w', s') => event_keeps w w' /\ holds s' (slot_objs w' ++ rest)).
Proof.
  intros Hwf Hd Hp Hh. unfold resize. split_test; [|by split].
  assert (Hh' : holds s (opt_obj (pixmap w) (Pixmap (display w) (u32 (width w)) (u32 (height w))) ++
      opt_obj (pixmap_gc w) (GC (display w)) ++ (display w, Display) :: (window w, Window (display w)) ::
      opt_obj (gc w) (GC (display w)) ++ rest)).
  { eapply holds_perm; [exact Hh|]. unfold slot_objs. rewrite (proj2 (Z.eqb_neq _ _) Hd). cbn [app]. solve_Permutation. }
  apply wp_bind. eapply wp_mono; [eapply free_if_holds; [done| |exact Hh']; done|].
  cbn. intros s1 (Hh1 & _). apply wp_bind.
  eapply wp_mono; [eapply free_if_holds; [done| |exact Hh1]; done|].
  cbn. intros s2 (Hh2 & _).
  destruct (back_buffer_ok g s2 (display w) new_w new_h _ Hp Hh2) as (pm & c & s3 & -> & Hpc & Hgr & Hh3). cbn.
  destruct Hwf as (Hk & Ho & Hz & Hw). split.
  - destruct (Hw Hd) as (? & ? & Hg). split; [|done]. split; [done|]. split; [done|]. split; [done|]. cbn. intros _.
    split; [done|]. split; [done|]. intros Hgc. split; [by apply Hg|by apply Hgr].
  - unfold slot_objs. cbn. rewrite (proj2 (Z.eqb_neq _ _) Hd). eapply holds_perm; [exact Hh3|]. cbn [app]. solve_Permutation.
Qed.

Lemma handle_event_ok g w s ev rest : slot_wf w -> display w <> 0 -> (forall f, p g f = true) ->
  holds s (slot_objs w ++ rest) ->
  wp (handle_event g w s ev) (fun '(w', s') => event_keeps w w' /\ holds s' (slot_objs w' ++ rest)).
Proof.
  intros Hwf Hd Hp Hh. unfold handle_event.
  assert (Hkeep : event_keeps w w) by done.
  split_test.
  { apply wp_bind. eapply wp_mono; [by apply mark_key_ok|]. cbn. intros w' [? E']. by rewrite E'. }
  split_test.
  { apply wp_bind. eapply wp_mono; [by apply unmark_key_ok|]. cbn. intros w' [? E']. by rewrite E'. }
  split_test; [done|]. split_test; [done|]. split_test; [done|]. split_test; [by apply resize_ok|].
  split_test. { rewrite (blit_ok g w s rest) by done. cbn. split; [done|]. by destruct (_ || _). }
  assert (Hclosed : event_keeps w (set_open w 0)).
  { destruct Hwf as (Hk & Ho & Hz & Hw). split; [|done]. split; [done|]. split; [by left|]. by split. }
  split_test; [done|]. split_test; [|done]. by split_test.
Qed.

Lemma poll_loop_ok g rest evs : forall w s, slot_wf w -> display w <> 0 -> (forall f, p g f = true) ->
  holds s (slot_objs w ++ rest) ->
  wp (poll_loop g w s evs) (fun '(w', s') => event_keeps w w' /\ holds s' (slot_objs w' ++ rest)).
Proof.
  induction evs as [|ev evs IH]; intros w s Hwf Hd Hp Hh; cbn.
  { by split. }
  unfold need. rewrite Hp. apply wp_bind. eapply wp_mono; [by apply handle_event_ok|].
  intros [w1 s1] [(Hwf1 & Ed & Ew & Ec & Em) Hh1]. eapply wp_mono; [apply IH; [done|by rewrite Ed|done|done]|].
  intros [w2 s2] [(Hwf2 & Ed2 & Ew2 & Ec2 & Em2) Hh2]. split; [|done]. split; [done|]. repeat split; congruence.
Qed.

Lemma poll_inv g win_id : gui_inv g -> wp (lpp_gui_window_poll_events g win_id) (fun r => gui_inv r.2).
Proof.
  intros Hinv. pose proof Hinv as [(Hlen & _) _]. unfold lpp_gui_window_poll_events.
  destruct (open_window_cases g win_id Hlen) as [->|(w & _ & Hid & Hw & Ho)]; [done|].
  destruct (open_slot g win_id w Hinv Hid Hw Ho) as (-> & Hwf & Hd & Hp & _). cbn [obind].
  rewrite (proj2 (Z.eqb_neq _ _) Hd), Hp. cbn [negb orb]. destruct Hinv as [Hacc Hr].
  destruct (focus g _ w Hacc Hw) as (rest & Hh & _ & Hput).
  apply wp_bind. eapply wp_mono; [by apply (poll_loop_ok g rest)|]. intros [w' s'] [(Hwf' & Ed & _) Hh'].
  rewrite wr_ok by lia. cbn. split; [by apply Hput|]. eapply ready_insert; [done|done|done|]. congruence.
Qed.

(** *** Opening and closing *)

Lemma slot_loop_ok t : forall i, 0 <= i ->
  slot_loop i t = -1 \/
  exists j w, slot_loop i t = i + Z.of_nat j /\ t !! j = Some w /\ is_open w = 0 /\ display w = 0.
Proof.
  induction t as [|w t IH]; intros i Hi; cbn; [by left|].
  destruct ((is_open w =? 0) && (display w =? 0)) eqn:E; bool_to_prop.
  { right. exists 0%nat, w. split; [lia|done]. }
  destruct (IH (i + 1)) as [->|(j & w' & -> & ?)]; [lia|by left|].
  right. exists (S j), w'. split; [lia|done].
Qed.

Lemma init_x11_ok g : gui_inv g ->
  exists de, init_x11 g = (true, mk_gui (g_unix_windows g) libX11 de (xs g)).
Proof.
  intros [_ Hr]. unfold init_x11. revert Hr Hlib. unfold ready, x11_complete.
  destruct libX11 as [has|]; [|done]. intros [E|[E _]] Hall; rewrite E.
  - exists (dl_error g). destruct g; cbn in *. by subst.
  - eexists. by rewrite !Hall.
Qed.

Lemma live_eq s s' l : holds s l -> holds s' l -> live s' = live s.
Proof. intros H1 H2. apply map_to_list_inj. unfold holds in *. by rewrite H1, H2. Qed.

Lemma owners_live g id o d : accounted g -> (id, o) ∈ concat (map slot_objs (g_unix_windows g)) ->
  owner o = Some d -> live (xs g) !! d = Some Display.
Proof.
  intros (_ & _ & Hh) Hin Ho. eapply holds_lookup; [done|].
  apply list_elem_of_In, in_concat in Hin as (l & (w & <- & Hw)%in_map_iff & Hin).
  apply list_elem_of_In in Hin. destruct (slot_objs_owner w id d o Hin Ho) as [_ Hd].
  apply list_elem_of_In, in_concat. exists (slot_objs w). split; [by apply in_map|by apply list_elem_of_In].
Qed.

Lemma register_close_ok g s d w : is_window s d w = true ->
  wp (register_close g s d w) (fun '(_, s') => live s' = live s).
Proof.
  intros Hw. unfold register_close. split_test; [|done]. split_test; [|done]. rewrite xsend_holds by done. done.
Qed.

Lemma fill_back_ok g s d pm c pixel w h : (c <> 0 -> is_drawable s d pm = true /\ is_gc s d c = true) ->
  wp (fill_back g s d pm c pixel w h) (fun s' => live s' = live s).
Proof.
  intros Hc. unfold fill_back. destruct (c =? 0) eqn:E; bool_to_prop; [done|]. destruct (Hc E) as [Hd Hg].
  cbn [negb andb]. split_test; [|done]. rewrite xsend_holds by done. cbn [obind]. rewrite xsend_holds; [done|].
  cbn. unfold is_drawable, is_gc in *. cbn. by rewrite Hd, Hg.
Qed.

Lemma live_window s l d w : holds s l -> (w, Window d) ∈ l -> is_window s d w = true.
Proof. intros Hh Hin. unfold is_window. rewrite (holds_lookup s l w _ Hh Hin). by rewrite bool_decide_eq_true_2. Qed.

Lemma holds_live s s' l : live s' = live s -> holds s l -> holds s' l.
Proof. unfold holds. by intros ->. Qed.

Lemma finish_window_ok g s dpy win wd ht cmap dep pixel id w title rest :
  gui_inv g -> (forall f, p g f = true) -> 0 <= id < 8 -> g_unix_windows g !! Z.to_nat id = Some w ->
  display w = 0 -> dpy <> 0 -> win <> 0 -> 0 < wd <= 65535 -> 0 < ht <= 65535 ->
  (forall w' lib de s', holds s' (slot_objs w' ++ rest) -> slot_wf w' ->
      accounted (mk_gui (<[Z.to_nat id := w']> (g_unix_windows g)) lib de s')) ->
  holds s ((win, Window dpy) :: (dpy, Display) :: rest) ->
  wp (finish_window g s id title dpy win cmap dep pixel wd ht)
    (fun '(r, g') => r = id /\ gui_inv g' /\ exists w', g_unix_windows g' = <[Z.to_nat id := w']> (g_unix_windows g) /\
       is_open w' = 1 /\ width w' = wd /\ height w' = ht).
Proof.
  intros Hinv Hp Hid Hw Hd Hdpy Hwin Hwd Hht Hput Hh.
  assert (Hin : forall s', live s' = live s -> is_window s' dpy win = true).
  { intros s' E. eapply live_window; [by eapply holds_live|by left]. }
  unfold finish_window. rewrite Hp, xsend_holds by by apply Hin. cbn [obind]. unfold need. rewrite !Hp.
  rewrite xsend_holds by by apply Hin. cbn [obind]. apply wp_bind.
  eapply wp_mono; [by apply register_close_ok, Hin|]. intros [atom s1] Es1. cbn in Es1.
  apply (holds_live _ s1) in Hh; [|done].
  destruct (xnew_holds s1 (Pixmap dpy (u32 wd) (u32 ht)) _ Hh) as (pm & s2 & -> & _ & Hh2 & _).
  destruct (xnew_holds s2 (GC dpy) _ Hh2) as (g1 & s3 & -> & Eg1 & Hh3 & _). cbn [obind].
  assert (Hg1 : gcs_granted -> g1 <> 0) by (intros Hgc; by rewrite Eg1).
  assert (exists g2 s4, (if negb (pm =? 0) && true then xnew s3 (GC dpy) else (0, s3)) = (g2, s4) /\
    (pm = 0 -> g2 = 0) /\ (gcs_granted -> g2 = 0 -> pm = 0) /\ holds s4 (opt_obj g2 (GC dpy) ++ opt_obj g1 (GC dpy) ++
      opt_obj pm (Pixmap dpy (u32 wd) (u32 ht)) ++ (win, Window dpy) :: (dpy, Display) :: rest))
    as (g2 & s4 & -> & Hpc & Hgr & Hh4).
  { destruct (pm =? 0) eqn:E; bool_to_prop; cbn [negb andb]; [by exists 0, s3|].
    destruct (xnew_holds s3 (GC dpy) _ Hh3) as (g2 & s4 & -> & Eg2 & Hh4 & _).
    exists g2, s4. split; [done|]. split; [done|]. split; [|done]. intros Hgc E2. subst g2. by destruct (Hgc s3 dpy). }
  apply wp_bind. eapply wp_mono.
  { apply (fill_back_ok g s4 dpy pm g2 pixel wd ht). intros Hg2. assert (Hpm : pm <> 0) by tauto.
    unfold is_drawable, is_gc. unfold opt_obj in Hh4 at 1 3.
    rewrite (proj2 (Z.eqb_neq _ _) Hg2), (proj2 (Z.eqb_neq _ _) Hpm) in Hh4.
    rewrite (holds_lookup s4 _ pm (Pixmap dpy (u32 wd) (u32 ht)) Hh4) by set_solver.
    rewrite (holds_lookup s4 _ g2 (GC dpy) Hh4) by set_solver.
    by rewrite Z.eqb_refl, bool_decide_eq_true_2. }
  cbn. intros s5 E5. apply (holds_live _ s5) in Hh4; [|done].
  rewrite xsend_holds by (eapply live_window; [exact Hh4|set_solver]). cbn [obind].
  destruct Hinv as [Hacc Hr]. pose proof Hacc as (Hlen & _).
  rewrite (rd_ok _ _ w) by (done || lia). cbn [obind]. rewrite wr_ok by lia. cbn.
  assert (Hi : forall z, 0 < z <= 65535 -> i32 z = z) by (intros; apply swrap_id; lia).
  rewrite !Hi by done. split; [done|]. split; [|by eexists].
  split; [|destruct Hr as [?|[? _]]; [by left|]; exfalso; specialize (Hp XFlush); unfold p in Hp; by case_match].
  apply Hput.
  - unfold slot_objs. cbn. rewrite (proj2 (Z.eqb_neq _ _) Hdpy). eapply holds_perm; [exact Hh4|]. cbn [app]. solve_Permutation.
  - destruct Hacc as (_ & Hwf & _). rewrite Forall_lookup in Hwf. destruct (Hwf _ _ Hw) as [Hk _].
    split; [done|]. cbn. split; [by right|]. split; [done|]. intros _. do 2 (split; [done|]). intros Hgc. auto.
Qed.

Lemma create_ok g title wd ht : gui_inv g ->
  wp (lpp_gui_window_create g title wd ht) (fun '(r, g') => gui_inv g' /\
    ((r = -1 /\ g_unix_windows g' = g_unix_windows g /\ live (xs g') = live (xs g)) \/
     (0 <= r < 8 /\ exists w w', g_unix_windows g !! Z.to_nat r = Some w /\ display w = 0 /\
        g_unix_windows g' = <[Z.to_nat r := w']> (g_unix_windows g) /\
        is_open w' = 1 /\ width w' = wd /\ height w' = ht))).
Proof.
  intros Hinv. unfold lpp_gui_window_create. split_test; [split; [done|by left]|].
  unfold lpp_unix_find_free_slot. destruct (slot_loop_ok (g_unix_windows g) 0) as [->|(j & w & -> & Hj & Ho & Hd)]; [done|split; [done|by left]|].
  rewrite Z.add_0_l. set (id := Z.of_nat j). rewrite (proj2 (Z.ltb_ge id 0)) by lia.
  assert (Hlt : (j < 8)%nat) by (apply lookup_lt_Some in Hj; destruct Hinv as [(Hl & _) _]; lia).
  destruct (init_x11_ok g Hinv) as (de & ->). cbn [negb]. set (g1 := mk_gui _ _ de _).
  assert (Hinv1 : gui_inv g1) by (split; [apply Hinv|by left]).
  assert (Hp : forall f, p g1 f = true).
  { intros f. unfold p. cbn. revert Hlib. unfold x11_complete. by destruct libX11. }
  pose proof Hinv as [Hacc _]. destruct (focus g1 j w (proj1 Hinv1) Hj) as (rest & Hh & _ & Hput).
  unfold slot_objs in Hh. rewrite Hd in Hh. cbn [app Z.eqb] in Hh.
  unfold need. rewrite !Hp. cbn [obind].
  destruct (xnew_holds (xs g1) Display _ Hh) as (dpy & s1 & -> & Edpy & Hh1 & _ & _ & Hz). cbn [obind].
  destruct (dpy =? 0) eqn:E0; bool_to_prop; [split; [done|by left]|].
  destruct (xnew_holds s1 (Window dpy) _ Hh1) as (win & s2 & -> & Ewin & Hh2 & _ & _ & Hz2). cbn [obind].
  unfold opt_obj in Hh1, Hh2. rewrite (proj2 (Z.eqb_neq _ _) E0) in Hh1, Hh2. cbn [app] in Hh1, Hh2.
  destruct (win =? 0) eqn:E1; bool_to_prop.
  { rewrite (Hz2 E1). apply wp_bind. eapply wp_mono.
    - apply (xclose_holds s1 dpy rest Hh1). apply Forall_forall. intros [i o] Hin Ho'. cbn in Ho'.
      assert (Hfresh : live (xs g1) !! dpy = None) by (rewrite Edpy; apply new_id_fresh; by rewrite <- Edpy).
      rewrite (owners_live g1 i o dpy (proj1 Hinv1)) in Hfresh; [done| |done].
      destruct Hacc as (_ & _ & Hg). assert (E : rest ≡ₚ concat (map slot_objs (g_unix_windows g1))).
      { transitivity (map_to_list (live (xs g))); [symmetry; exact Hh|exact Hg]. }
      by rewrite <- E.
    - cbn. intros s3 (Hh3 & _). pose proof (live_eq _ _ _ Hh Hh3) as E3. split; [|by left].
      split; [|by left]. destruct Hacc as (? & ? & ?). do 2 (split; [done|]). by eapply holds_live. }
  eapply wp_mono.
  { eapply (finish_window_ok g1 s2 dpy win wd ht _ _ _ id w title rest); try done; try lia.
    - by subst id; rewrite Nat2Z.id.
    - by subst id; rewrite Nat2Z.id. }
  intros [r g2] (-> & Hinv2 & w' & E & Hrest). split; [done|]. right. split; [lia|].
  exists w, w'. subst id. by rewrite Nat2Z.id in *.
Qed.

Lemma x11_close_ok g win_id : gui_inv g ->
  wp (lpp_gui_window_close g win_id) (fun g' => gui_inv g' /\
    (out_of_range win_id = false -> exists w', g_unix_windows g' = <[Z.to_nat win_id := w']> (g_unix_windows g) /\ display w' = 0)).
Proof.
  intros Hinv. pose proof Hinv as [(Hlen & _) _]. unfold lpp_gui_window_close.
  destruct (out_of_range win_id) eqn:Er; [done|].
  destruct (in_table g win_id Hlen Er) as (w & Hw & -> & Hid). cbn [obind].
  destruct (slot_of g _ w Hinv Hw) as (Hwf & Hdisp & Hp).
  destruct (display w =? 0) eqn:Ed; bool_to_prop.
  { assert (is_open w = 0) as -> by (by apply Hwf). cbn. split; [done|]. intros _. exists w. by rewrite list_insert_id. }
  rewrite andb_false_r. rewrite wr_ok by lia. cbn [obind].
  specialize (Hp Ed). unfold lpp_unix_destroy_slot. cbn [g_unix_windows set_wins xs].
  rewrite (rd_ok _ _ (set_open w 0)) by (lia || by apply list_lookup_insert_eq; lia). cbn [obind].
  cbn [display gc pixmap pixmap_gc window set_open]. rewrite (proj2 (Z.eqb_neq _ _) Ed).
  assert (Hp' : forall f, p (set_wins g (<[Z.to_nat win_id:=set_open w 0]> (g_unix_windows g))) f = true) by done.
  destruct Hinv as [Hacc Hr]. destruct (focus g _ w Hacc Hw) as (rest & Hh & Hrest & Hput).
  unfold slot_objs in Hh. rewrite (proj2 (Z.eqb_neq _ _) Ed) in Hh. cbn [app] in Hh.
  assert (Hh' : holds (xs g) (opt_obj (gc w) (GC (display w)) ++ opt_obj (pixmap_gc w) (GC (display w)) ++
    opt_obj (pixmap w) (Pixmap (display w) (u32 (width w)) (u32 (height w))) ++
    (window w, Window (display w)) :: (display w, Display) :: rest)).
  { eapply holds_perm; [exact Hh|]. solve_Permutation. }
  apply wp_bind. eapply wp_mono; [eapply free_if_holds; [done| |exact Hh']; done|]. cbn. intros s1 (Hh1 & _).
  apply wp_bind. eapply wp_mono; [eapply free_if_holds; [done| |exact Hh1]; done|]. cbn. intros s2 (Hh2 & _).
  apply wp_bind. eapply wp_mono; [eapply free_if_holds; [done| |exact Hh2]; done|]. cbn. intros s3 (Hh3 & _).
  assert (Hwin : window w <> 0) by (by apply Hwf).
  apply wp_bind. eapply wp_mono.
  { eapply (free_if_holds _ _ s3 _ (window w) (Window (display w))); [done|done|].
    unfold opt_obj. rewrite (proj2 (Z.eqb_neq _ _) Hwin). exact Hh3. }
  cbn. intros s4 (Hh4 & _). rewrite Hp'. apply wp_bind. eapply wp_mono; [apply xclose_holds; [exact Hh4|by apply Hrest]|].
  cbn. intros s5 (Hh5 & _). rewrite wr_ok by (rewrite length_insert; lia). cbn. rewrite list_insert_insert_eq.
  split; [|intros _; by exists no_window]. split.
  - apply Hput; [done|]. split; [done|]. split; [by left|]. by split.
  - by eapply ready_insert.
Qed.

(** *** Any sequence of calls *)

Inductive call :=
| Create (title : option cstr) (wd ht : Z)
| Arrive (dpy : Z) (evs : list X11Event)     (** the server queues events for a connection *)
| Poll (win_id : Z)
| Clear (win_id hex : Z)
| Rect (win_id x y wd ht hex : Z)
| RoundedRect (win_id x y wd ht radius hex : Z)
| Text (win_id x y : Z) (text : option cstr) (hex : Z)
| Circle (win_id cx cy r hex : Z)
| Line (win_id x1 y1 x2 y2 thick hex : Z)
| Present (win_id : Z)
| Close (win_id : Z).

Definition run_call (g : gui) (c : call) : outcome gui :=
  match c with
  | Create title wd ht => let! '(_, g) := lpp_gui_window_create g title wd ht in Ok g
  | Arrive dpy evs =>
      Ok (set_xs g (mk_x (live (xs g)) (requests (xs g)) (<[dpy := default [] (incoming (xs g) !! dpy) ++ evs]> (incoming (xs g)))))
  | Poll win_id => let! '(_, g) := lpp_gui_window_poll_events g win_id in Ok g
  | Clear win_id hex => lpp_gui_clear g win_id hex
  | Rect win_id x y wd ht hex => lpp_gui_draw_rect g win_id x y wd ht hex
  | RoundedRect win_id x y wd ht radius hex => lpp_gui_draw_rounded_rect g win_id x y wd ht radius hex
  | Text win_id x y text hex => lpp_gui_draw_text g win_id x y text hex
  | Circle win_id cx cy r hex => lpp_gui_draw_circle g win_id cx cy r hex
  | Line win_id x1 y1 x2 y2 thick hex => lpp_gui_draw_line g win_id x1 y1 x2 y2 thick hex
  | Present win_id => lpp_gui_present g win_id
  | Close win_id => lpp_gui_window_close g win_id
  end.
Fixpoint run (g : gui) (cs : list call) : outcome gui :=
  match cs with [] => Ok g | c :: cs => let! g := run_call g c in run g cs end.

Definition small (z : Z) : Prop := - 2 ^ 28 <= z <= 2 ^ 28.

(** The coordinates of a call whose sums, differences and products fit the type the code forms them in. *)
Definition call_fits (c : call) : Prop :=
  match c with
  | RoundedRect _ x y wd ht radius _ =>
      let x := i32 x in let y := i32 y in let wd := i32 wd in let ht := i32 ht in let r := i32 radius in
      Forall fits32 [r * 2; x + wd; x + wd - r * 2; y + ht; y + ht - r * 2; x + r; wd - r * 2; y + r; ht - r * 2; x + wd - r]
  | Text _ _ y _ _ => fits64 (y + 13)
  | Circle _ cx cy r _ => Forall fits64 [cx - r; cy - r; r * 2]
  | _ => True
  end.

Lemma i32_id z : - 2 ^ 31 <= z < 2 ^ 31 -> i32 z = z.
Proof. intros. apply swrap_id; lia. Qed.
Lemma i32_small z : small z -> i32 z = z.
Proof. unfold small. intros. apply i32_id. lia. Qed.

Lemma run_call_inv g c : gui_inv g -> within (gcs_granted /\ call_fits c) (run_call g c) gui_inv.
Proof.
  intros Hinv. destruct c; cbn [run_call].
  - apply wp_within, wp_bind. eapply wp_mono; [by apply create_ok|]. by intros [r g'] [? _].
  - by destruct Hinv.
  - apply wp_within, wp_bind. eapply wp_mono; [by apply poll_inv|]. by intros [r g'].
  - apply clear_inv; tauto.
  - apply draw_inv; [tauto|done|]. cbn. repeat constructor.
  - apply draw_inv; [tauto|done|]. intros w d c. cbv zeta.
    do 10 (apply within_bind, within_chk32; [intros [_ Hf]; cbn in Hf; rewrite !Forall_cons in Hf; tauto|intros _]).
    cbn. repeat constructor.
  - unfold lpp_gui_draw_text. destruct text as [text|]; [|done]. apply draw_inv; [tauto|done|]. intros w d c.
    apply within_bind, within_chk64; [by intros [_ Hf]|intros _]. cbn. repeat constructor.
  - apply draw_inv; [tauto|done|]. intros w d c.
    do 3 (apply within_bind, within_chk64; [intros [_ Hf]; cbn in Hf; rewrite !Forall_cons in Hf; tauto|intros _]).
    cbn. repeat constructor.
  - apply draw_inv; [tauto|done|]. intros w d c. cbn. apply Forall_app. split; [by destruct (p g _); repeat constructor|].
    repeat constructor.
  - by apply wp_within, present_inv.
  - apply wp_within. eapply wp_mono; [by apply x11_close_ok|]. by intros g' [? _].
Qed.

Lemma run_inv cs : forall g, gui_inv g -> within (gcs_granted /\ Forall call_fits cs) (run g cs) gui_inv.
Proof.
  induction cs as [|c cs IH]; intros g Hinv; cbn [run]; [done|]. apply within_bind.
  eapply within_mono; [eapply within_less; [by apply run_call_inv|]|].
  - intros [? Hf]. by inversion Hf.
  - intros g' Hinv'. eapply within_less; [by apply IH|]. intros [? Hf]. by inversion Hf.
Qed.

(** Closing the slots below [n]. *)
Definition closed_below (n : nat) (g : gui) : Prop :=
  gui_inv g /\ forall i w, (i < n)%nat -> g_unix_windows g !! i = Some w -> display w = 0.

Lemma close_all_ok n : forall k g, (k + n = 8)%nat -> closed_below k g ->
  wp (run g (map Close (seqZ (Z.of_nat k) (Z.of_nat n)))) (closed_below 8).
Proof.
  induction n as [|n IH]; intros k g Hk Hg.
  { replace k with 8%nat in Hg by lia. done. }
  rewrite seqZ_cons by lia. cbn [map run run_call]. destruct Hg as [Hinv Hc]. apply wp_bind.
  eapply wp_mono; [by apply x11_close_ok|]. intros g' [Hinv' Hw].
  replace (Z.succ (Z.of_nat k)) with (Z.of_nat (S k)) by lia. replace (Z.pred (Z.of_nat (S n))) with (Z.of_nat n) by lia.
  apply IH; [lia|]. split; [done|]. intros i w Hi E.
  destruct Hw as (w' & Ew & Hd).
  { unfold out_of_range, MAX_UNIX_WINDOWS. rewrite Z.geb_leb, (proj2 (Z.ltb_ge _ _)), (proj2 (Z.leb_gt _ _)) by lia. done. }
  rewrite Nat2Z.id in Ew. rewrite Ew in E. pose proof Hinv as [(Hlen & _) _].
  destruct (decide (i = k)) as [->|Hne].
  - rewrite list_lookup_insert_eq in E by lia. by simplify_eq.
  - rewrite list_lookup_insert_ne in E by done. apply (Hc i); [lia|done].
Qed.

(** C38. With an X library that has every function the runtime looks up, in every sequence of window calls, with
    any events arriving in between and whatever objects the server grants or refuses: the objects the X server
    holds for the process are at every moment exactly those of the windows in the table, closing all windows then
    leaves the server holding nothing, and every request and every release names an object that exists.  A run
    ends in an undefined step only if the server refuses a drawing context, which the runtime never checks, or if
    the coordinates of some call have sums that leave the type they are formed in. *)
Theorem x11_windows_accounted cs :
  within (gcs_granted /\ Forall call_fits cs) (run gui0 cs) (fun g => accounted g /\
    wp (run g (map Close [0; 1; 2; 3; 4; 5; 6; 7])) (fun g => live (xs g) = ∅)).
Proof.
  eapply within_mono; [apply run_inv, gui0_inv|]. intros g Hinv. split; [apply Hinv|].
  eapply wp_mono; [apply (close_all_ok 8 0 g); [done|]; split; [done|lia]|].
  intros g' [((Hlen & _ & Hh) & _) Hz]. apply map_to_list_empty_iff. 
  assert (E : concat (map slot_objs (g_unix_windows g')) = []).
  { apply concat_nil_Forall. apply Forall_forall. intros l (w & -> & Hin)%list_elem_of_fmap.
    apply list_elem_of_lookup in Hin as (i & Hi). unfold slot_objs.
    by rewrite (Hz i w) by (done || by rewrite <- Hlen; eapply lookup_lt_Some). }
  unfold holds in Hh. rewrite E in Hh. by apply Permutation_nil_r in Hh.
Qed.

Context (Hgc : gcs_granted).

Lemma granted_run cs : Forall call_fits cs -> wp (run gui0 cs) gui_inv.
Proof. intros Hcs. by apply (within_wp _ _ _ (run_inv cs gui0 gui0_inv)). Qed.

(** Drawing on an open window sends the colour and then exactly the shape asked for, all to the
    window's back buffer when it has one; only presenting copies the whole back buffer to the window. *)
Theorem x11_draws_on_back_buffer cs g win_id w : run gui0 cs = Ok g -> Forall call_fits cs ->
  0 <= win_id < 8 -> g_unix_windows g !! Z.to_nat win_id = Some w -> is_open w <> 0 ->
  let d := if pixmap w =? 0 then window w else pixmap w in
  let c := if pixmap w =? 0 then gc w else pixmap_gc w in
  let sent hex l := Ok (set_xs g (add_requests (xs g) (SetForeground c (lpp_x11_color g w hex) :: l))) in
  (forall x y wd ht hex, lpp_gui_draw_rect g win_id x y wd ht hex =
     sent hex [FillRectangle d c (i32 x) (i32 y) (u32 wd) (u32 ht)]) /\
  (forall x y r hex, small x -> small y -> small r -> lpp_gui_draw_circle g win_id x y r hex =
     sent hex [FillArc d c (x - r) (y - r) (u32 (r * 2)) (u32 (r * 2)) 0 23040]) /\
  (forall x1 y1 x2 y2 thick hex, lpp_gui_draw_line g win_id x1 y1 x2 y2 thick hex =
     sent hex [SetLineAttributes c (u32 (Z.max 1 thick)); DrawLine d c (i32 x1) (i32 y1) (i32 x2) (i32 y2)]) /\
  (forall x y text hex, small y -> Z.of_nat (length text) < 2 ^ 31 ->
     lpp_gui_draw_text g win_id x y (Some text) hex = sent hex [DrawString d c (i32 x) (y + 13) text]) /\
  lpp_gui_present g win_id = Ok (set_xs g (if pixmap w =? 0 then xs g else
    add_requests (xs g) [CopyArea (pixmap w) (window w) (gc w) 0 0 (u32 (width w)) (u32 (height w)) 0 0])).
Proof.
  intros Er Hcs Hid Hw Ho. pose proof (granted_run cs Hcs) as Hinv. rewrite Er in Hinv. cbn in Hinv.
  destruct (open_slot g win_id w Hinv Hid Hw Ho) as (_ & (_ & _ & _ & Hslot) & Hd & Hp & _).
  destruct (Hslot Hd) as (_ & Hpc & Hgr). destruct (Hgr Hgc) as [_ Hgp].
  assert (Et : lpp_unix_target w = if pixmap w =? 0 then window w else pixmap w).
  { unfold lpp_unix_target. by destruct (pixmap w =? 0). }
  assert (Ec : lpp_unix_gc w = if pixmap w =? 0 then gc w else pixmap_gc w).
  { unfold lpp_unix_gc. destruct (pixmap w =? 0) eqn:E; bool_to_prop; [by rewrite (Hpc E)|].
    destruct (pixmap_gc w =? 0) eqn:E2; bool_to_prop; tauto. }
  cbv zeta. rewrite <- Et, <- Ec. split; [|split; [|split; [|split]]].
  - intros. eapply draw_exact; try done. repeat constructor.
  - unfold small. intros. eapply draw_exact; try done; [|repeat constructor].
    do 3 (rewrite ?chk64_ok by (pow2; lia); cbn [obind]). rewrite !i32_id by lia. done.
  - intros. eapply draw_exact; try done; [|repeat constructor]. rewrite Hp.
    replace (if thick >? 0 then thick else 1) with (Z.max 1 thick); [done|]. split_test; lia.
  - unfold small. intros. eapply draw_exact; try done; [|repeat constructor].
    rewrite chk64_ok by (pow2; lia). cbn [obind]. unfold drawn_text.
    rewrite (i32_id (y + 13)), (i32_id (Z.of_nat _)) by lia. by rewrite Nat2Z.id, firstn_all.
  - by apply present_exact.
Qed.

(** *** What events say and what the runtime reads

    The 24 longs of [_pad] begin at byte 40 of the event.  Two [int] fields of a structure of the X library
    share a long. *)

Definition ints (lo hi : Z) : Z := u32 lo + 2 ^ 32 * u32 hi.

(** [XMotionEvent], [XKeyEvent], [XClientMessageEvent] from byte 40 on. *)
Definition motion_event (root sub time x y x_root y_root state is_hint same : Z) : X11Event :=
  mk_event MotionNotify [root; sub; time; ints x y; ints x_root y_root; ints state is_hint; same].
Definition key_event (press : bool) (root sub time x y x_root y_root state keycode same : Z) : X11Event :=
  mk_event (if press then KeyPress else KeyRelease) [root; sub; time; ints x y; ints x_root y_root; ints state keycode; same].
Definition client_event (message_type format l0 l1 l2 l3 l4 : Z) : X11Event :=
  mk_event ClientMessage [message_type; format; l0; l1; l2; l3; l4].

Lemma i32_low a b : i32 (ints a b) = i32 a.
Proof.
  unfold ints, i32, u32. rewrite <- (swrap_uwrap 32 a) by lia. rewrite <- (swrap_uwrap 32 (uwrap 32 a + _)) by lia.
  f_equal. unfold uwrap. rewrite (Z.mul_comm (2 ^ 32)), Z_mod_plus_full, Zmod_mod. done.
Qed.

Lemma poll_one g win_id w ev w' s : gui_inv g -> 0 <= win_id < 8 ->
  g_unix_windows g !! Z.to_nat win_id = Some w -> is_open w <> 0 ->
  incoming (xs g) !! display w = Some [ev] -> handle_event g w (xs g) ev = Ok (w', s) ->
  wp (lpp_gui_window_poll_events g win_id) (fun '(r, g') =>
    r = b2z (negb (is_open w' =? 0)) /\ g_unix_windows g' !! Z.to_nat win_id = Some w').
Proof.
  intros Hinv Hid Hw Ho Hin He. destruct (open_slot g win_id w Hinv Hid Hw Ho) as (Eo & _ & Hd & Hp & _).
  unfold lpp_gui_window_poll_events. rewrite Eo. cbn [obind]. rewrite (proj2 (Z.eqb_neq _ _) Hd), Hp. cbn [negb orb].
  rewrite Hin. unfold default, id. cbn [from_option poll_loop]. unfold need. rewrite Hp.
  rewrite He. cbn. pose proof Hinv as [(Hlen & _) _]. rewrite wr_ok by lia. cbn. split; [done|].
  apply list_lookup_insert_eq. lia.
Qed.

(** The runtime reads X events at the wrong places: after a mouse motion its mouse position is the
    pointer's column on the screen and the state of the buttons, wherever in the window the pointer is; a
    key marks the low byte of the subwindow instead of the keycode; and the close button of the window
    manager, which puts the atom into the first long of the message, is not seen unless the timestamp in
    the second long happens to equal the atom. *)
Theorem x11_events_misread cs g win_id w : run gui0 cs = Ok g -> Forall call_fits cs ->
  0 <= win_id < 8 -> g_unix_windows g !! Z.to_nat win_id = Some w -> is_open w <> 0 ->
  (forall root sub time x y x_root y_root state hint same,
     incoming (xs g) !! display w = Some [motion_event root sub time x y x_root y_root state hint same] ->
     wp (lpp_gui_window_poll_events g win_id) (fun '(_, g') => lpp_gui_mouse_x g' win_id = Ok (i32 x_root) /\
       lpp_gui_mouse_y g' win_id = Ok (i32 state))) /\
  (forall root sub time x y x_root y_root state keycode same,
     let ev := key_event true root sub time x y x_root y_root state keycode same in
     256 <= keysym_of ev -> incoming (xs g) !! display w = Some [ev] ->
     wp (lpp_gui_window_poll_events g win_id) (fun '(_, g') => lpp_gui_key_down g' win_id (Z.land sub 0xFF) = Ok 1 /\
       forall k, 0 <= k < 256 -> k <> Z.land sub 0xFF -> lpp_gui_key_down g' win_id k = lpp_gui_key_down g win_id k)) /\
  (forall message_type format timestamp l2 l3 l4,
     incoming (xs g) !! display w = Some [client_event message_type format (wm_delete w) timestamp l2 l3 l4] ->
     wp (lpp_gui_window_poll_events g win_id) (fun '(r, g') =>
       r = b2z (negb (timestamp =? wm_delete w)) /\ lpp_gui_window_is_open g' win_id = Ok r)).
Proof.
  intros Er Hcs Hid Hw Ho. pose proof (granted_run cs Hcs) as Hinv. rewrite Er in Hinv. cbn in Hinv.
  destruct (open_slot g win_id w Hinv Hid Hw Ho) as (Eo & (Hk & Hopen & _) & Hd & Hp & _).
  assert (Hr : out_of_range win_id = false).
  { unfold out_of_range, MAX_UNIX_WINDOWS. by rewrite Z.geb_leb, (proj2 (Z.ltb_ge _ _)), (proj2 (Z.leb_gt _ _)) by lia. }
  assert (Hopened : forall g' w', g_unix_windows g' !! Z.to_nat win_id = Some w' -> is_open w' <> 0 ->
    open_window g' win_id = Ok (Some w')).
  { intros g' w' Hw' Ho'. unfold open_window. rewrite Hr, (rd_ok _ _ w') by (done || lia). cbn.
    by rewrite (proj2 (Z.eqb_neq _ _) Ho'). }
  split; [|split].
  - intros root sub time x y x_root y_root state hint same Hin.
    eapply wp_mono; [by eapply poll_one|]. intros [r g'] [_ Hw']. cbn [pad nth _pad motion_event] in Hw'.
    unfold pad in Hw'. cbn in Hw'. rewrite !i32_low in Hw'.
    unfold lpp_gui_mouse_x, lpp_gui_mouse_y, of_open. by rewrite (Hopened g' _ Hw').
  - intros root sub time x y x_root y_root state keycode same ev Hs Hin.
    assert (He : handle_event g w (xs g) ev = Ok (set_keys w (<[Z.to_nat (Z.land sub 255) := 1]> (key_state w)), xs g)).
    { unfold handle_event, mark_key, set_key. cbn [type ev key_event]. change (KeyPress =? KeyPress) with true. cbv iota.
      rewrite Hp, (proj2 (Z.ltb_ge _ 256)) by done. cbn [obind].
      pose proof (byte_index (pad ev 1)) as Hb.
      rewrite (proj2 (Z.ltb_lt _ 256)) by lia. rewrite wr_ok by lia. done. }
    pose proof (byte_index sub) as Hb.
    eapply wp_mono; [by eapply poll_one|]. intros [r g'] [_ Hw'].
    unfold lpp_gui_key_down, of_open. rewrite (Hopened g' _ Hw'), (Hopened g _ Hw) by done. cbn [obind key_state set_keys].
    split.
    + rewrite (proj2 (Z.ltb_ge _ 0)), Z.gtb_ltb, (proj2 (Z.ltb_ge 255 _)) by lia. cbn [orb].
      rewrite (rd_ok _ _ 1); [done|lia|]. apply list_lookup_insert_eq. lia.
    + intros k Hk0 Hne. rewrite (proj2 (Z.ltb_ge _ 0)), Z.gtb_ltb, (proj2 (Z.ltb_ge 255 _)) by lia. cbn [orb].
      destruct (lookup_lt_is_Some_2 (key_state w) (Z.to_nat k)) as [v Hv]; [lia|].
      rewrite (rd_ok (key_state w) k v) by (done || lia).
      rewrite (rd_ok _ k v); [done|lia|]. rewrite list_lookup_insert_ne by lia. done.
  - intros mt fmt timestamp l2 l3 l4 Hin. eapply wp_mono; [by eapply poll_one|]. intros [r g'] [-> Hw'].
    unfold pad in Hw' |- *. cbn in Hw' |- *. unfold lpp_gui_window_is_open. rewrite Hr, (rd_ok _ _ _ (proj1 Hid) Hw'). cbn.
    split; [|done]. destruct (timestamp =? wm_delete w); [done|]. by destruct Hopen as [?| ->].
Qed.
(** ** The interface of the raylib layer

    The caches of [Gui] stay as they are: nothing in this part of the file writes them. *)

#[export] Instance x11_backend : GuiBackend (gui * inputs) := {|
  input := snd;
  set_input s i := (s.1, i);
  window_create s title wd ht := let! '(r, g) := lpp_gui_window_create s.1 title wd ht in Ok (r, (g, s.2));
  window_is_open s := lpp_gui_window_is_open s.1;
  window_width s := lpp_gui_window_width s.1;
  window_height s := lpp_gui_window_height s.1;
  window_poll_events s id := let! '(r, g) := lpp_gui_window_poll_events s.1 id in Ok (r, (g, s.2));
  window_close s id := let! g := lpp_gui_window_close s.1 id in Ok (g, s.2);
  clear s id c := let! g := lpp_gui_clear s.1 id c in Ok (g, s.2);
  draw_rect s id x y w h c := let! g := lpp_gui_draw_rect s.1 id x y w h c in Ok (g, s.2);
  draw_line s id x1 y1 x2 y2 t c := let! g := lpp_gui_draw_line s.1 id x1 y1 x2 y2 t c in Ok (g, s.2);
  draw_text s id x y text c := let! g := lpp_gui_draw_text s.1 id x y text c in Ok (g, s.2);
  present s id := let! g := lpp_gui_present s.1 id in Ok (g, s.2);
  Gui.mouse_x s := lpp_gui_mouse_x s.1;
  Gui.mouse_y s := lpp_gui_mouse_y s.1;
  measure_text_width _ _ text := Ok (lpp_gui_measure_text_width text)
|}.

Definition x11_ok (s : gui * inputs) : Prop :=
  gui_inv s.1 /\ length (g_key_state s.2) = 256%nat /\
  length (g_mouse_btn_pressed s.2) = 3%nat /\ length (g_mouse_btn_released s.2) = 3%nat.

Lemma is_open_at g id w : 0 <= id < 8 -> g_unix_windows g !! Z.to_nat id = Some w ->
  lpp_gui_window_is_open g id = Ok (b2z (negb (is_open w =? 0))).
Proof.
  intros Hid Hw. unfold lpp_gui_window_is_open, out_of_range, MAX_UNIX_WINDOWS.
  rewrite Z.geb_leb, (proj2 (Z.ltb_ge _ _)), (proj2 (Z.leb_gt _ _)) by lia. cbn [orb].
  by rewrite (rd_ok _ _ w) by (done || lia).
Qed.

Lemma closed_is_closed g id w : gui_inv g -> out_of_range id = false ->
  g_unix_windows g !! Z.to_nat id = Some w -> display w = 0 -> lpp_gui_window_is_open g id = Ok 0.
Proof.
  intros Hinv Hr Hw Hd. destruct (slot_of g _ w Hinv Hw) as ((_ & _ & Hz & _) & _).
  unfold out_of_range, MAX_UNIX_WINDOWS in Hr. bool_to_prop. rewrite (is_open_at g id w) by (done || lia).
  by rewrite (Hz Hd).
Qed.

#[export] Instance x11_laws : GuiLaws (gui * inputs) x11_ok.
Proof.
  split; unfold x11_ok; cbn.
  - done.
  - by intros s i (? & ? & ? & ?) -> -> -> _ _ _ _.
  - by intros s (? & ? & ? & ?).
  - by intros s (? & ? & ? & ?).
  - intros s title wd ht (Hinv & Hi). apply wp_bind. eapply wp_mono; [by apply create_ok|].
    intros [r g] [Hg [(-> & _)|(Hr & _)]]; cbn; auto.
  - intros s id (Hinv & _). pose proof Hinv as [(Hlen & _) _]. unfold lpp_gui_window_is_open.
    destruct (out_of_range id) eqn:E; [by split; [left|]|]. destruct (in_table _ id Hlen E) as (w & _ & -> & Hid).
    cbn. split; [|done]. destruct (is_open w =? 0); auto.
  - intros s id (Hinv & Hi). pose proof Hinv as [(Hlen & _) _]. apply wp_bind.
    destruct (wp_inv _ _ (poll_inv s.1 id Hinv)) as ([r g] & E & Hg). rewrite E. cbn. split; [done|].
    intros Hz. unfold lpp_gui_window_poll_events in E.
    destruct (open_window_cases s.1 id Hlen) as [E'|(w & _ & Hid & Hw & Ho)]; [rewrite E' in E; cbn in E; by simplify_eq|].
    rewrite (is_open_at _ _ w) in Hz by done. simplify_eq. by rewrite (proj2 (Z.eqb_neq _ _) Ho) in Hz.
  - intros s id (Hinv & Hi). apply wp_bind. eapply wp_mono; [by apply x11_close_ok|]. intros g [Hg Hw]. cbn.
    split; [done|]. destruct (out_of_range id) eqn:Er; [unfold lpp_gui_window_is_open; by rewrite Er|].
    destruct (Hw eq_refl) as (w' & E & Hd). eapply closed_is_closed; [done|done| |exact Hd]. rewrite E.
    pose proof Hinv as [(Hlen & _) _]. destruct (in_table _ id Hlen Er) as (w & _ & _ & Hid). apply list_lookup_insert_eq. lia.
  - intros s id (Hinv & Hi). apply wp_bind. eapply wp_mono; [by apply present_inv|]. by intros g Hg.
  - intros s id c (Hinv & Hi). apply wp_bind. eapply wp_mono; [by apply (within_wp True); [apply clear_inv|]|]. by intros g Hg.
Qed.

(** The caches of the layer after any number of frames are those of its start, but for the presses. *)
Definition no_input (i : inputs) : Prop :=
  g_key_state i = replicate 256 0 /\ g_mouse_btn_down i = replicate 3 0 /\ g_mouse_btn_pressed i = replicate 3 0 /\
  g_char_q_head i = g_char_q_tail i.

Lemma frames_no_input cs : forall r : rl (gui * inputs), no_input (backend r).2 ->
  match frames r cs with Ok r' => no_input (backend r').2 | _ => True end.
Proof.
  induction cs as [|c cs IH]; intros r Hr; cbn [frames]; [done|].
  unfold frame, rl_WindowShouldClose, rl_ClearBackground, rl_EndDrawing. cbn.
  destruct (lpp_gui_window_poll_events _ _) as [[? g1]| | |]; cbn; try done.
  destruct (lpp_gui_window_is_open _ _) as [o| | |]; cbn; try done.
  destruct (lpp_gui_clear _ _ _) as [g2| | |]; cbn; try done.
  destruct (lpp_gui_present _ _) as [g3| | |]; cbn; try done.
  apply IH. destruct Hr as (? & ? & ? & ?). done.
Qed.

(** On X11 a raylib program never sees a key, a mouse button or a character, whatever events the
    server delivers: the events change the window's own cache, the raylib functions read another. *)
Theorem x11_raylib_is_deaf title wd ht cs :
  wp (rl_InitWindow (rl0 (gui0, inputs0)) wd ht title) (fun r => wp (frames r cs) (fun r =>
    (forall key, rl_IsKeyDown r key = Ok 0 /\ rl_IsKeyPressed r key = Ok 0) /\
    (forall button, rl_IsMouseButtonDown r button = Ok 0 /\ rl_IsMouseButtonPressed r button = Ok 0) /\
    rl_GetCharPressed (input (backend r)) = Ok (0, input (backend r)))).
Proof.
  unfold rl_InitWindow. cbn [window_create x11_backend backend rl0 fst snd]. apply wp_bind, wp_bind.
  eapply wp_mono; [apply create_ok, gui0_inv|]. intros [id g] [Hg _]. cbn [obind wp].
  set (r0 := mk_rl _ _ _ _). assert (Hr0 : rl_ok (ok := x11_ok) r0) by done.
  pose proof (frames_no_input cs r0 ltac:(by repeat split)) as Hno.
  destruct (wp_inv _ _ (frames_ok (ok := x11_ok) cs r0 Hr0)) as (r & E & [_ Hp] & _). rewrite E in Hno |- *. cbn [wp].
  destruct Hno as (Hk & Hd & Hpr & Hq). cbn [input x11_backend].
  assert (Hb : forall b, (b >=? 0) && (b <? 3) = true -> rd (replicate 3 0) b = Ok 0).
  { intros b E'. rewrite Z.geb_leb in E'. bool_to_prop. apply rd_ok; [lia|]. apply lookup_replicate. split; [done|lia]. }
  split; [|split].
  - intros key. unfold rl_IsKeyDown, rl_IsKeyPressed. cbn [input x11_backend]. rewrite Hk. pose proof (key_to_vk_range key).
    assert (Er : rd (replicate 256 0) (lpp_raylib_key_to_vk key) = Ok 0).
    { apply rd_ok; [lia|]. apply lookup_replicate. split; [done|lia]. }
    rewrite Er. cbn. split; by destruct (_ && _).
  - intros button. unfold rl_IsMouseButtonDown, rl_IsMouseButtonPressed. cbn [input x11_backend]. rewrite Hd, Hpr.
    split; destruct (_ && _) eqn:E'; [by rewrite Hb|done|by rewrite Hb|done].
  - unfold rl_GetCharPressed. by rewrite Hq, Z.eqb_refl.
Qed.
End x11.

(** ** Loading the library

    [init_x11] keeps the library even when a function it needs is missing, and the next call takes the
    library for complete. *)

Lemma library_checked_once `{XSystem} g has : g_x11_lib g = None -> dlopen "libX11.so.6" = Some has ->
  has XMapWindow = false -> (init_x11 g).1 = false /\ (init_x11 (init_x11 g).2).1 = true.
Proof. intros Hg Hl Hm. unfold init_x11, libX11. rewrite Hg, Hl, Hm. cbn. by rewrite !andb_false_r. Qed.

(** Without the library the message itself is undefined: the first [dlerror] takes the text away. *)
Lemma no_library_message `{XSystem} title wd ht : dlopen "libX11.so.6" = None -> dlopen "libX11.so" = None ->
  0 < wd <= 65535 -> 0 < ht <= 65535 -> lpp_gui_window_create gui0 title wd ht = Undef.
Proof.
  intros H1 H2 Hw Hh. unfold lpp_gui_window_create. rewrite !Z.gtb_ltb, !(proj2 (Z.leb_gt _ 0)), !(proj2 (Z.ltb_ge 65535 _)) by lia.
  cbn. unfold init_x11, libX11. cbn. by rewrite H1, H2.
Qed.

(** ** An instance

    Identifiers count up; every colour is its own pixel; all keys are Escape. *)

#[export] Instance demo_x : XSystem := {|
  dlopen _ := Some (fun _ => true);
  new_id s _ := fresh ({[0]} ∪ dom (live s) : gset Z);
  default_screen _ := 0;
  default_root _ := 77;
  default_colormap _ _ := 5;
  default_depth _ _ := 24;
  alloc_color _ _ _ c := let '(r, g, b) := c in Some (Z.shiftr r 8 * 65536 + Z.shiftr g 8 * 256 + Z.shiftr b 8);
  intern_atom _ _ := 399;
  keysym_of _ := 0xff1b
|}.

#[export] Instance demo_x_laws : XLaws.
Proof.
  split; [|cbn; lia]. intros s o _. cbn. pose proof (is_fresh ({[0]} ∪ dom (live s) : gset Z)) as Hf.
  apply not_elem_of_dom. set_solver.
Qed.

Lemma demo_lib : x11_complete.
Proof. done. Qed.

Lemma demo_gc : gcs_granted.
Proof. intros s d. cbn. pose proof (is_fresh ({[0]} ∪ dom (live s) : gset Z)) as Hf. intros E. rewrite E in Hf. set_solver. Qed.

Definition demo_calls : list call := [Create None 640 480; Clear 0 0x102030].
Definition demo_gui : gui := match run gui0 demo_calls with Ok g => g | _ => gui0 end.
(** With an event waiting. *)
Definition demo_with (ev : X11Event) : list call := demo_calls ++ [Arrive (display (nth 0 (g_unix_windows demo_gui) no_window)) [ev]].
Definition demo_after (ev : X11Event) : gui := match run gui0 (demo_with ev) with Ok g => g | _ => gui0 end.

Lemma x11_windows_accounted_witness :
  wp (run gui0 (demo_calls ++ [Create None 10 20; Circle 0 5 5 3 6; Present 0; Close 1; Poll 0])) (fun g =>
    size (live (xs g)) = 5%nat /\ accounted g /\ wp (run g (map Close [0; 1; 2; 3; 4; 5; 6; 7])) (fun g => live (xs g) = ∅)) /\
  run gui0 (demo_calls ++ [Circle 0 5 5 INT64_MAX 6]) = Undef.
Proof.
  split; [|vm_compute; reflexivity].
  set (cs := demo_calls ++ [Create None 10 20; Circle 0 5 5 3 6; Present 0; Close 1; Poll 0]).
  assert (Hs : match run gui0 cs with Ok g => size (live (xs g)) = 5%nat | _ => False end) by (vm_compute; reflexivity).
  assert (Hroom : gcs_granted /\ Forall call_fits cs).
  { split; [exact demo_gc|]. repeat constructor; vm_compute; intros [=]. }
  pose proof (within_wp _ _ _ (x11_windows_accounted (sys := demo_x) demo_lib cs) Hroom) as H.
  destruct (run gui0 cs) as [g| | |]; [|exact H..]. split; [exact Hs|exact H].
Defined.

Lemma x11_draws_on_back_buffer_witness :
  run gui0 demo_calls = Ok demo_gui /\
  wp (lpp_gui_draw_rect demo_gui 0 10 20 30 40 0xFF0000) (fun g =>
    drop 8 (requests (xs g)) = [SetForeground 5 0xFF0000; FillRectangle 3 5 10 20 30 40]).
Proof.
  assert (E : run gui0 demo_calls = Ok demo_gui) by (vm_compute; reflexivity). split; [exact E|].
  destruct (x11_draws_on_back_buffer (sys := demo_x) demo_lib demo_gc demo_calls demo_gui 0
    (nth 0 (g_unix_windows demo_gui) no_window) E) as (Hr & _).
  - repeat constructor.
  - lia.
  - vm_compute. reflexivity.
  - vm_compute. discriminate.
  - rewrite Hr. vm_compute. reflexivity.
Defined.

Lemma x11_events_misread_witness :
  let ev := client_event 1 32 399 123456 0 0 0 in
  run gui0 (demo_with ev) = Ok (demo_after ev) /\
  wp (lpp_gui_window_poll_events (demo_after ev) 0) (fun '(r, g') => r = 1 /\ lpp_gui_window_is_open g' 0 = Ok r).
Proof.
  intros ev. assert (E : run gui0 (demo_with ev) = Ok (demo_after ev)) by (vm_compute; reflexivity). split; [exact E|].
  destruct (x11_events_misread (sys := demo_x) demo_lib demo_gc (demo_with ev) (demo_after ev) 0
    (nth 0 (g_unix_windows (demo_after ev)) no_window) E) as (_ & _ & Hc).
  - repeat constructor.
  - lia.
  - vm_compute. reflexivity.
  - vm_compute. discriminate.
  - eapply wp_mono; [apply (Hc 1 32 123456 0 0 0); vm_compute; reflexivity|]. intros [r g'] [-> H]. split; [reflexivity|exact H].
Defined.

Lemma x11_raylib_is_deaf_witness :
  wp (rl_InitWindow (rl0 (gui0, inputs0)) 640 480 None) (fun r => wp (frames r [1; 2]) (fun r =>
    (forall key, rl_IsKeyDown r key = Ok 0 /\ rl_IsKeyPressed r key = Ok 0) /\
    (forall button, rl_IsMouseButtonDown r button = Ok 0 /\ rl_IsMouseButtonPressed r button = Ok 0) /\
    rl_GetCharPressed (input (backend r)) = Ok (0, input (backend r)))).
Proof. apply (x11_raylib_is_deaf (sys := demo_x) demo_lib demo_gc). Defined.
