(* ===== verification/GuiWin.v ===== *)
(** * Windows of the runtime on Win32 (runtime/lpp_gui.c, first part)

    The table [g_windows], the window procedure that the system calls with each message, and the builtins.
    The system is a state ([system]): the windows and GDI objects of the process, the messages that wait,
    whether WM_QUIT is posted, and what has been drawn.  What it is free to choose is the class
    [WinSystem].  The window class has CS_OWNDC, so the DC of a window ([GetDC]) lives and dies with the
    window and is not counted. *)

From stdpp Require Import gmap.
From S2P Require Import Prelude CInt Buf ListRt Gui GuiX11.

(** ** The system *)

Inductive gobj :=
| Wnd
| MemDC (bmp font brush pen : Z)     (** with what is selected into it *)
| Bitmap (w h : Z)
| Font
| Brush
| Pen.
#[export] Instance gobj_eq_dec : EqDecision gobj.
Proof. solve_decision. Defined.

Inductive message :=
| WM_PAINT (left_ top right_ bottom : Z)
| WM_ERASEBKGND
| WM_SIZE (minimized : bool) (w h : Z)
| WM_GETMINMAXINFO
| WM_CHAR (c : Z)
| WM_KEYDOWN (k : Z) | WM_SYSKEYDOWN (k : Z) | WM_KEYUP (k : Z) | WM_SYSKEYUP (k : Z)
| WM_LBUTTONDOWN | WM_LBUTTONUP | WM_RBUTTONDOWN | WM_RBUTTONUP | WM_MBUTTONDOWN | WM_MBUTTONUP
| WM_MOUSEWHEEL (hiword : Z)
| WM_CLOSE
| WM_DESTROY
| WM_OTHER.

(** Pictures, by the DC (or window) drawn on; colours are COLORREFs. *)
Inductive picture :=
| FillRect (dc left_ top right_ bottom color : Z)
| RoundRect (dc left_ top right_ bottom d color : Z)
| Ellipse (dc left_ top right_ bottom color : Z)
| Line (dc x1 y1 x2 y2 pen_width color : Z)
| TextOut (dc x y : Z) (text : cstr) (color : Z)
| BitBlt (dst x y w h src src_x src_y : Z).

Record system := mk_sys { objs : gmap Z gobj; queue : list (Z * message); quit : bool; drawn : list picture }.
Definition set_objs (s : system) m := mk_sys m (queue s) (quit s) (drawn s).
Definition paint (s : system) (p : picture) := mk_sys (objs s) (queue s) (quit s) (drawn s ++ [p]).

Class WinSystem := {
  new_handle : system -> gobj -> Z;              (** 0: refused *)
  stock_bitmap : Z; stock_font : Z; stock_brush : Z; stock_pen : Z;   (** selected into a new DC *)
  get_dc : system -> Z -> Z;
  class_registers : bool;
  greetings : system -> Z -> list message;       (** what the system has posted to a new window *)
  text_extent : system -> Z -> cstr -> option Z;
  cursor : system -> Z -> Z * Z;                 (** in the coordinates of a window *)
  left_button : system -> Z                      (** [GetAsyncKeyState(VK_LBUTTON)] *)
}.

(** The rectangle of a paint message lies in a window: its width and height are [int]s. *)
Definition msg_ok (m : message) : Prop :=
  match m with WM_PAINT l t r b => fits32 (r - l) /\ fits32 (b - t) | _ => True end.

Class WinLaws `{WinSystem} : Prop := {
  new_handle_fresh : forall s o, new_handle s o <> 0 -> objs s !! new_handle s o = None;
  new_handle_not_stock : forall s o, new_handle s o <> stock_bitmap /\ new_handle s o <> stock_font /\
    new_handle s o <> stock_brush /\ new_handle s o <> stock_pen;
  stock_there : stock_bitmap <> 0 /\ stock_font <> 0 /\ stock_brush <> 0 /\ stock_pen <> 0;
  stock_distinct : NoDup [stock_bitmap; stock_font; stock_brush; stock_pen];
  greetings_ok : forall s h, Forall msg_ok (greetings s h)
}.

Section win32.
Context `{sys : WinSystem}.

Definition make (s : system) (o : gobj) : Z * system :=
  let h := new_handle s o in if h =? 0 then (0, s) else (h, set_objs s (<[h := o]> (objs s))).

Inductive kind := KBitmap | KFont | KBrush | KPen.
Definition kind_of (s : system) (h : Z) : option kind :=
  match objs s !! h with
  | Some (Bitmap _ _) => Some KBitmap
  | Some Font => Some KFont
  | Some Brush => Some KBrush
  | Some Pen => Some KPen
  | Some _ => None
  | None =>
      if h =? stock_bitmap then Some KBitmap else if h =? stock_font then Some KFont
      else if h =? stock_brush then Some KBrush else if h =? stock_pen then Some KPen else None
  end.

(** [SelectObject]: what was selected, or 0 when there is no such DC or object. *)
Definition SelectObject (s : system) (dc h : Z) : Z * system :=
  match objs s !! dc, kind_of s h with
  | Some (MemDC b f br pn), Some k =>
      match k with
      | KBitmap => (b, set_objs s (<[dc := MemDC h f br pn]> (objs s)))
      | KFont => (f, set_objs s (<[dc := MemDC b h br pn]> (objs s)))
      | KBrush => (br, set_objs s (<[dc := MemDC b f h pn]> (objs s)))
      | KPen => (pn, set_objs s (<[dc := MemDC b f br h]> (objs s)))
      end
  | _, _ => (0, s)
  end.
Definition select (s : system) (dc h : Z) : system := (SelectObject s dc h).2.

(** [DeleteObject]: refused while the object is selected into a DC. *)
Definition selects (h : Z) (o : gobj) : bool :=
  match o with MemDC b f br pn => (b =? h) || (f =? h) || (br =? h) || (pn =? h) | _ => false end.
Definition in_use (s : system) (h : Z) : bool := existsb (fun x => selects h x.2) (map_to_list (objs s)).
Definition DeleteObject (s : system) (h : Z) : system :=
  match objs s !! h with
  | Some (Bitmap _ _ | Font | Brush | Pen) => if in_use s h then s else set_objs s (delete h (objs s))
  | _ => s
  end.
Definition DeleteDC (s : system) (dc : Z) : system :=
  match objs s !! dc with Some (MemDC _ _ _ _) => set_objs s (delete dc (objs s)) | _ => s end.

(** [CreateCompatibleDC], for a screen or a memory DC. *)
Definition CreateCompatibleDC (s : system) : Z * system := make s (MemDC stock_bitmap stock_font stock_brush stock_pen).

(** [FillRect] with a brush made for it, as the code does everywhere. *)
Definition fill (s : system) (dc l t r b color : Z) : system :=
  let '(br, s) := make s Brush in
  let s := if (br =? 0) || (dc =? 0) then s else paint s (FillRect dc l t r b color) in
  DeleteObject s br.

(** ** The table *)

Record LppWin32Window := mk_w {
  hwnd : Z; hdc : Z; mem_dc : Z; hbmp : Z; old_bmp : Z; hfont : Z;
  wwidth : Z; wheight : Z; opened : Z; bg_color : Z
}.
Definition set_opened w v := mk_w (hwnd w) (hdc w) (mem_dc w) (hbmp w) (old_bmp w) (hfont w) (wwidth w) (wheight w) v (bg_color w).
Definition set_hwnd w v := mk_w v (hdc w) (mem_dc w) (hbmp w) (old_bmp w) (hfont w) (wwidth w) (wheight w) (opened w) (bg_color w).
Definition set_bgcolor w v := mk_w (hwnd w) (hdc w) (mem_dc w) (hbmp w) (old_bmp w) (hfont w) (wwidth w) (wheight w) (opened w) v.
Definition set_bitmap w b wd ht := mk_w (hwnd w) (hdc w) (mem_dc w) b (old_bmp w) (hfont w) wd ht (opened w) (bg_color w).
Definition w0 : LppWin32Window := mk_w 0 0 0 0 0 0 0 0 0 0.

Record win := mk_g {
  g_windows : list LppWin32Window;
  g_class_registered : bool;
  g_editor_font : Z;
  g_inputs : inputs;
  os : system
}.
Definition set_os (g : win) s := mk_g (g_windows g) (g_class_registered g) (g_editor_font g) (g_inputs g) s.
Definition set_table (g : win) t := mk_g t (g_class_registered g) (g_editor_font g) (g_inputs g) (os g).
Definition set_inputs (g : win) i := mk_g (g_windows g) (g_class_registered g) (g_editor_font g) i (os g).
Definition win0 : win := mk_g (replicate 8 w0) false 0 inputs0 (mk_sys ∅ [] false []).

Definition MAX_WINDOWS : Z := 8.

Fixpoint free_loop (i : Z) (t : list LppWin32Window) : Z :=
  match t with
  | [] => -1
  | w :: t => if (opened w =? 0) && (hwnd w =? 0) then i else free_loop (i + 1) t
  end.
Definition lpp_find_free_slot (g : win) : Z := free_loop 0 (g_windows g).

(** [RGB(r, g, b)]: red in the low byte. *)
Definition RGB (r g b : Z) : Z := Z.lor r (Z.lor (Z.shiftl g 8) (Z.shiftl b 16)).
Definition lpp_hex_to_colorref (hex : Z) : Z :=
  RGB (Z.land hex 0xFF) (Z.land (Z.shiftr hex 8) 0xFF) (Z.land (Z.shiftr hex 16) 0xFF).

Definition lpp_win32_destroy_slot (g : win) (id : Z) : outcome win :=
  let! w := rd (g_windows g) id in
  if hwnd w =? 0 then Ok g
  else
    let s := os g in
    let s :=
      if negb (mem_dc w =? 0) then
        let s := if negb (old_bmp w =? 0) then select s (mem_dc w) (old_bmp w) else s in
        let s := if negb (hbmp w =? 0) then DeleteObject s (hbmp w) else s in
        let s := if negb (hfont w =? 0) then DeleteObject s (hfont w) else s in
        DeleteDC s (mem_dc w)
      else s in
    let! t := wr (g_windows g) id w0 in
    Ok (set_os (set_table g t) s).

(** What [lpp_win32_init_dc_state] selects; its modes have no object. *)
Definition lpp_win32_init_dc_state (s : system) (dc font : Z) : system :=
  if negb (font =? 0) then select s dc font else s.

(** ** The window procedure *)

(** The loops over the table that stop at the first entry for a window. *)
Fixpoint find_slot (f : LppWin32Window -> bool) (i : Z) (t : list LppWin32Window) : option Z :=
  match t with
  | [] => None
  | w :: t => if f w then Some i else find_slot f (i + 1) t
  end.
Definition slot_of_hwnd (g : win) (h : Z) : option Z := find_slot (fun w => hwnd w =? h) 0 (g_windows g).

(** [WM_DESTROY]: the application ends with its last window. *)
Definition on_destroy (g : win) : win :=
  if existsb (fun w => negb (opened w =? 0)) (g_windows g) then g
  else set_os g (mk_sys (objs (os g)) (queue (os g)) true (drawn (os g))).

(** [DestroyWindow]: the window goes, with the messages still waiting for it, and its procedure gets
    [WM_DESTROY]. *)
Definition DestroyWindow (g : win) (h : Z) : win :=
  match objs (os g) !! h with
  | Some Wnd =>
      let s := os g in
      on_destroy (set_os g (mk_sys (delete h (objs s)) (filter (fun m => m.1 <> h) (queue s)) (quit s) (drawn s)))
  | _ => g
  end.

(** The window's number is taken out of the slot, the slot is torn down, the window destroyed: the code
    of WM_CLOSE and of [lpp_gui_window_close]. *)
Definition close_slot (g : win) (id : Z) : outcome win :=
  let! w := rd (g_windows g) id in
  let! t := wr (g_windows g) id (set_hwnd (set_opened w 0) 0) in
  let! g := lpp_win32_destroy_slot (set_table g t) id in
  Ok (if hwnd w =? 0 then g else DestroyWindow g (hwnd w)).

(** [WM_SIZE]: a new bitmap, the old picture copied, the new parts filled. *)
Definition on_size (g : win) (h new_w new_h : Z) : outcome win :=
  if (new_w <=? 0) || (new_h <=? 0) then Ok g
  else
    match slot_of_hwnd g h with
    | None => Ok g
    | Some i =>
        let! w := rd (g_windows g) i in
        if (new_w =? wwidth w) && (new_h =? wheight w) then Ok g
        else
          let '(new_bmp, s) := make (os g) (Bitmap new_w new_h) in
          if new_bmp =? 0 then Ok g
          else
            let '(tmp_dc, s) := CreateCompatibleDC s in
            let '(old_sel, s) := SelectObject s tmp_dc new_bmp in
            let s := if tmp_dc =? 0 then s else paint s (BitBlt tmp_dc 0 0 (wwidth w) (wheight w) (mem_dc w) 0 0) in
            let s := if new_w >? wwidth w then fill s tmp_dc (wwidth w) 0 new_w new_h (bg_color w) else s in
            let s := if new_h >? wheight w then fill s tmp_dc 0 (wheight w) new_w new_h (bg_color w) else s in
            let s := select s tmp_dc old_sel in
            let s := DeleteDC s tmp_dc in
            let '(old_bmp, s) := SelectObject s (mem_dc w) new_bmp in
            let s := DeleteObject s old_bmp in
            let! t := wr (g_windows g) i (set_bitmap w new_bmp new_w new_h) in
            Ok (set_os (set_table g t) (lpp_win32_init_dc_state s (mem_dc w) (hfont w)))
    end.

Definition on_key (g : win) (wp v : Z) : outcome win :=
  let k := u64 wp in
  if k <? 256 then
    let i := g_inputs g in
    let! keys := wr (g_key_state i) k v in
    Ok (set_inputs g (mk_in keys (g_char_queue i) (g_char_q_head i) (g_char_q_tail i)
          (g_mouse_btn_down i) (g_mouse_btn_pressed i) (g_mouse_btn_released i) (g_mouse_wheel i)))
  else Ok g.

Definition on_button (g : win) (b : Z) (down : bool) : outcome win :=
  let i := g_inputs g in
  let! d := wr (g_mouse_btn_down i) b (b2z down) in
  let! pr := if down then wr (g_mouse_btn_pressed i) b 1 else Ok (g_mouse_btn_pressed i) in
  let! rel := if down then Ok (g_mouse_btn_released i) else wr (g_mouse_btn_released i) b 1 in
  Ok (set_inputs g (mk_in (g_key_state i) (g_char_queue i) (g_char_q_head i) (g_char_q_tail i) d pr rel (g_mouse_wheel i))).

Definition lpp_gui_wndproc (g : win) (h : Z) (m : message) : outcome win :=
  match m with
  | WM_PAINT l t r b =>
      match find_slot (fun w => (hwnd w =? h) && negb (mem_dc w =? 0)) 0 (g_windows g) with
      | Some i =>
          let! w := rd (g_windows g) i in
          let! wd := chk32 (r - l) in
          let! ht := chk32 (b - t) in
          Ok (if (wd >? 0) && (ht >? 0) then set_os g (paint (os g) (BitBlt h l t wd ht (mem_dc w) l t)) else g)
      | None => Ok g
      end
  | WM_ERASEBKGND => Ok g
  | WM_SIZE minimized w h' => if minimized then Ok g else on_size g h (u16 w) (u16 h')
  | WM_GETMINMAXINFO => Ok g
  | WM_CHAR c => let! i := char_arrives (g_inputs g) c in Ok (set_inputs g i)
  | WM_KEYDOWN k | WM_SYSKEYDOWN k => on_key g k 1
  | WM_KEYUP k | WM_SYSKEYUP k => on_key g k 0
  | WM_LBUTTONDOWN => on_button g 0 true
  | WM_LBUTTONUP => on_button g 0 false
  | WM_RBUTTONDOWN => on_button g 1 true
  | WM_RBUTTONUP => on_button g 1 false
  | WM_MBUTTONDOWN => on_button g 2 true
  | WM_MBUTTONUP => on_button g 2 false
  | WM_MOUSEWHEEL d =>
      let i := g_inputs g in
      Ok (set_inputs g (mk_in (g_key_state i) (g_char_queue i) (g_char_q_head i) (g_char_q_tail i)
            (g_mouse_btn_down i) (g_mouse_btn_pressed i) (g_mouse_btn_released i) (g_mouse_wheel i ++ [i16 d])))
  | WM_CLOSE => match slot_of_hwnd g h with Some i => close_slot g i | None => Ok g end
  | WM_DESTROY => Ok (on_destroy g)
  | WM_OTHER => Ok g
  end.

(** [DispatchMessageA]: to the procedure of a window that exists. *)
Definition dispatch (g : win) (m : Z * message) : outcome win :=
  match objs (os g) !! m.1 with Some Wnd => lpp_gui_wndproc g m.1 m.2 | _ => Ok g end.

Fixpoint pump (g : win) (ms : list (Z * message)) : outcome win :=
  match ms with [] => Ok g | m :: ms => let! g := dispatch g m in pump g ms end.

(** ** The builtins *)

(** The last part of a creation: bitmap and font into the memory DC, the slot, the first picture, and the
    messages that wait for the new window. *)
Definition populate (g : win) (s : system) (id h dc mdc bmp wd ht : Z) : outcome (Z * win) :=
  let '(old, s) := SelectObject s mdc bmp in
  let '(font, s) := make s Font in
  let '(font, s) := if font =? 0 then make s Font else (font, s) in
  let! t := wr (g_windows g) id (mk_w h dc mdc bmp old font (i32 wd) (i32 ht) 1 (RGB 19 24 33)) in
  let s := lpp_win32_init_dc_state s mdc font in
  let s := fill s mdc 0 0 (i32 wd) (i32 ht) (RGB 19 24 33) in
  let posted := map (pair h) (greetings s h) in
  let! g := pump (set_os (set_table g t) (mk_sys (objs s) (queue s) false (drawn s))) posted in
  Ok (id, g).

Definition lpp_gui_window_create_w (g : win) (title : option cstr) (wd ht : Z) : outcome (Z * win) :=
  if (wd <=? 0) || (wd >? 65535) || (ht <=? 0) || (ht >? 65535) then Ok (-1, g)
  else
    let id := lpp_find_free_slot g in
    if id <? 0 then Ok (-1, g)
    else if negb (g_class_registered g) && negb class_registers then Ok (-1, g)
    else
      let g := mk_g (g_windows g) true (g_editor_font g) (g_inputs g) (os g) in
      let '(h, s) := make (os g) Wnd in
      if h =? 0 then Ok (-1, set_os g s)
      else
        let dc := get_dc s h in
        if dc =? 0 then Ok (-1, DestroyWindow (set_os g s) h)
        else
          let '(mdc, s) := CreateCompatibleDC s in
          if mdc =? 0 then Ok (-1, DestroyWindow (set_os g s) h)
          else
            let '(bmp, s) := make s (Bitmap (i32 wd) (i32 ht)) in
            if bmp =? 0 then Ok (-1, DestroyWindow (set_os g (DeleteDC s mdc)) h)
            else
              populate g s id h dc mdc bmp wd ht.

Definition out_of_range_w (win_id : Z) : bool := (win_id <? 0) || (win_id >=? MAX_WINDOWS).
Definition lpp_gui_window_is_open_w (g : win) (win_id : Z) : outcome Z :=
  if out_of_range_w win_id then Ok 0
  else let! w := rd (g_windows g) win_id in Ok (b2z (negb (opened w =? 0))).
Definition lpp_gui_window_width_w (g : win) (win_id : Z) : outcome Z :=
  if out_of_range_w win_id then Ok 0
  else let! w := rd (g_windows g) win_id in if hwnd w =? 0 then Ok 0 else Ok (wwidth w).
Definition lpp_gui_window_height_w (g : win) (win_id : Z) : outcome Z :=
  if out_of_range_w win_id then Ok 0
  else let! w := rd (g_windows g) win_id in if hwnd w =? 0 then Ok 0 else Ok (wheight w).

(** [PeekMessageA] gives every waiting message of the thread; WM_QUIT comes last and closes all. *)
Definition lpp_gui_window_poll_events_w (g : win) (win_id : Z) : outcome (Z * win) :=
  if out_of_range_w win_id then Ok (0, g)
  else
    let ms := queue (os g) in
    let! g := pump (set_os g (mk_sys (objs (os g)) [] (quit (os g)) (drawn (os g)))) ms in
    if quit (os g) then
      Ok (0, mk_g (map (fun w => set_opened w 0) (g_windows g)) (g_class_registered g) (g_editor_font g) (g_inputs g)
               (mk_sys (objs (os g)) (queue (os g)) false (drawn (os g))))
    else let! w := rd (g_windows g) win_id in Ok (b2z (negb (opened w =? 0)), g).

Definition open_w (g : win) (win_id : Z) : outcome (option LppWin32Window) :=
  if out_of_range_w win_id then Ok None
  else let! w := rd (g_windows g) win_id in Ok (if opened w =? 0 then None else Some w).
Definition on_open (g : win) (win_id : Z) (f : LppWin32Window -> outcome win) : outcome win :=
  let! ow := open_w g win_id in match ow with None => Ok g | Some w => f w end.

Definition lpp_gui_clear_w (g : win) (win_id hex_color : Z) : outcome win :=
  on_open g win_id (fun w =>
    let col := lpp_hex_to_colorref hex_color in
    let! t := wr (g_windows g) win_id (set_bgcolor w col) in
    Ok (set_os (set_table g t) (fill (os g) (mem_dc w) 0 0 (wwidth w) (wheight w) col))).

Definition lpp_gui_draw_rect_w (g : win) (win_id x y wd ht hex_color : Z) : outcome win :=
  on_open g win_id (fun w =>
    let! right_ := chk64 (x + wd) in
    let! bottom := chk64 (y + ht) in
    Ok (set_os g (fill (os g) (mem_dc w) (i32 x) (i32 y) (i32 right_) (i32 bottom) (lpp_hex_to_colorref hex_color)))).

(** A shape drawn with a brush and a pen made for it, which are put back and deleted. *)
Definition with_tools (s : system) (dc : Z) (brush : bool) (p : picture) : system :=
  let '(br, s) := if brush then make s Brush else (0, s) in
  let '(pen, s) := make s Pen in
  let '(old_br, s) := if brush then SelectObject s dc br else (0, s) in
  let '(old_pen, s) := SelectObject s dc pen in
  let s := paint s p in
  let s := if brush then select s dc old_br else s in
  let s := select s dc old_pen in
  let s := if brush then DeleteObject s br else s in
  DeleteObject s pen.

Definition lpp_gui_draw_rounded_rect_w (g : win) (win_id x y wd ht radius hex_color : Z) : outcome win :=
  on_open g win_id (fun w =>
    let! d := chk64 (radius * 2) in
    let! right_ := chk64 (x + wd) in
    let! bottom := chk64 (y + ht) in
    Ok (set_os g (with_tools (os g) (mem_dc w) true
      (RoundRect (mem_dc w) (i32 x) (i32 y) (i32 right_) (i32 bottom) (i32 d) (lpp_hex_to_colorref hex_color))))).
Definition lpp_gui_draw_circle_w (g : win) (win_id cx cy r hex_color : Z) : outcome win :=
  on_open g win_id (fun w =>
    let! l := chk64 (cx - r) in
    let! t := chk64 (cy - r) in
    let! right_ := chk64 (cx + r) in
    let! bottom := chk64 (cy + r) in
    Ok (set_os g (with_tools (os g) (mem_dc w) true
      (Ellipse (mem_dc w) (i32 l) (i32 t) (i32 right_) (i32 bottom) (lpp_hex_to_colorref hex_color))))).
Definition lpp_gui_draw_line_w (g : win) (win_id x1 y1 x2 y2 thick hex_color : Z) : outcome win :=
  on_open g win_id (fun w =>
    Ok (set_os g (with_tools (os g) (mem_dc w) false
      (Line (mem_dc w) (i32 x1) (i32 y1) (i32 x2) (i32 y2) (i32 (if thick >? 0 then thick else 1))
         (lpp_hex_to_colorref hex_color))))).

Definition lpp_gui_draw_text_w (g : win) (win_id x y : Z) (text : option cstr) (hex_color : Z) : outcome win :=
  match text with
  | None => Ok g
  | Some text =>
      on_open g win_id (fun w =>
        let '(font, s) := if g_editor_font g =? 0 then make (os g) Font else (g_editor_font g, os g) in
        let s := select s (mem_dc w) font in
        let s := paint s (TextOut (mem_dc w) (i32 x) (i32 y) (drawn_text text) (lpp_hex_to_colorref hex_color)) in
        Ok (mk_g (g_windows g) (g_class_registered g) font (g_inputs g) s))
  end.

Definition lpp_gui_present_w (g : win) (win_id : Z) : outcome win :=
  on_open g win_id (fun w =>
    Ok (set_os g (paint (os g) (BitBlt (hdc w) 0 0 (wwidth w) (wheight w) (mem_dc w) 0 0)))).

Definition read_open (g : win) (win_id : Z) (f : LppWin32Window -> outcome Z) : outcome Z :=
  let! ow := open_w g win_id in match ow with None => Ok 0 | Some w => f w end.
Definition lpp_gui_mouse_x_w (g : win) (win_id : Z) : outcome Z := read_open g win_id (fun w => Ok (cursor (os g) (hwnd w)).1).
Definition lpp_gui_mouse_y_w (g : win) (win_id : Z) : outcome Z := read_open g win_id (fun w => Ok (cursor (os g) (hwnd w)).2).
Definition lpp_gui_mouse_down_w (g : win) (win_id : Z) : outcome Z :=
  read_open g win_id (fun _ => Ok (b2z (negb (Z.land (left_button (os g)) 0x8000 =? 0)))).
Definition lpp_gui_key_down_w (g : win) (win_id key_code : Z) : outcome Z :=
  read_open g win_id (fun w =>
    if (key_code <? 0) || (key_code >? 255) then Ok 0
    else let! k := rd (g_key_state (g_inputs g)) key_code in Ok (b2z (negb (k =? 0)))).

Definition lpp_gui_measure_text_width_w (g : win) (win_id : Z) (text : option cstr) : outcome Z :=
  match text with
  | None | Some [] => Ok 0
  | Some text =>
      let wide := i64 (u64 (Z.of_nat (length text) * 8)) in
      if out_of_range_w win_id then Ok wide
      else
        let! w := rd (g_windows g) win_id in
        if mem_dc w =? 0 then Ok wide
        else Ok (match text_extent (os g) (mem_dc w) text with Some cx => cx | None => wide end)
  end.

Definition lpp_gui_window_close_w (g : win) (win_id : Z) : outcome win :=
  if out_of_range_w win_id then Ok g
  else
    let! w := rd (g_windows g) win_id in
    if (opened w =? 0) && (hwnd w =? 0) then Ok g else close_slot g win_id.

(** ** What the system holds *)

(** Handles the system gave out or keeps ready; what a DC has selected is of the right kind. *)
Definition sys_ok (s : system) : Prop :=
  objs s !! 0 = None /\ objs s !! stock_bitmap = None /\ objs s !! stock_font = None /\
  objs s !! stock_brush = None /\ objs s !! stock_pen = None /\
  forall dc b f br pn, objs s !! dc = Some (MemDC b f br pn) ->
    kind_of s b = Some KBitmap /\ kind_of s f = Some KFont /\ kind_of s br = Some KBrush /\ kind_of s pn = Some KPen.

Definition font_live (s : system) (h : Z) : Prop := h = 0 \/ objs s !! h = Some Font.

(** The objects of a window in the table. *)
Definition slot_live (s : system) (w : LppWin32Window) : Prop :=
  objs s !! hwnd w = Some Wnd /\ (exists f, objs s !! mem_dc w = Some (MemDC (hbmp w) f stock_brush stock_pen)) /\
  objs s !! hbmp w = Some (Bitmap (wwidth w) (wheight w)) /\ font_live s (hfont w).

Context `{!WinLaws}.

Lemma kind_stock s : sys_ok s ->
  kind_of s stock_bitmap = Some KBitmap /\ kind_of s stock_font = Some KFont /\
  kind_of s stock_brush = Some KBrush /\ kind_of s stock_pen = Some KPen.
Proof.
  intros (_ & Eb & Ef & Er & Ep & _). unfold kind_of. rewrite Eb, Ef, Er, Ep, !Z.eqb_refl.
  pose proof stock_distinct as Hd. rewrite !NoDup_cons, !not_elem_of_cons in Hd.
  destruct Hd as ((H1 & H2 & H3 & _) & (H4 & H5 & _) & (H6 & _) & _).
  rewrite !(proj2 (Z.eqb_neq _ _)) by congruence. done.
Qed.

Lemma kind_zero s : sys_ok s -> kind_of s 0 = None.
Proof.
  intros (E & _). unfold kind_of. rewrite E. destruct stock_there as (? & ? & ? & ?).
  by rewrite !(proj2 (Z.eqb_neq _ _)) by congruence.
Qed.

(** An object with a handle keeps its kind when other handles come and go. *)
Lemma kind_insert s h o x : objs s !! h = None -> kind_of s x <> None -> h <> stock_bitmap -> h <> stock_font ->
  h <> stock_brush -> h <> stock_pen -> kind_of (set_objs s (<[h := o]> (objs s))) x = kind_of s x.
Proof.
  intros Hn Hk ? ? ? ?. unfold kind_of in *. cbn. destruct (decide (x = h)) as [->|Hx].
  - rewrite Hn in Hk. rewrite !(proj2 (Z.eqb_neq _ _)) in Hk by done. done.
  - by rewrite lookup_insert_ne by done.
Qed.

Lemma kind_delete s h x : x <> h -> kind_of (set_objs s (delete h (objs s))) x = kind_of s x.
Proof. intros. unfold kind_of. cbn. by rewrite lookup_delete_ne. Qed.

Lemma kind_redc s dc b f br pn b' f' br' pn' x : objs s !! dc = Some (MemDC b f br pn) ->
  kind_of (set_objs s (<[dc := MemDC b' f' br' pn']> (objs s))) x = kind_of s x.
Proof.
  intros Hdc. unfold kind_of. cbn. destruct (decide (x = dc)) as [->|Hx].
  - by rewrite lookup_insert_eq, Hdc.
  - by rewrite lookup_insert_ne.
Qed.

(** [make]: nothing, or one new object. *)
Lemma make_cases s o : make s o = (0, s) \/
  exists h, make s o = (h, set_objs s (<[h := o]> (objs s))) /\ h <> 0 /\ objs s !! h = None /\
    h <> stock_bitmap /\ h <> stock_font /\ h <> stock_brush /\ h <> stock_pen.
Proof.
  unfold make. destruct (new_handle s o =? 0) eqn:E; bool_to_prop; [by left|]. right.
  destruct (new_handle_not_stock s o) as (? & ? & ? & ?).
  exists (new_handle s o). repeat split; try done. by apply new_handle_fresh.
Qed.

Definition dc_fits (s : system) (o : gobj) : Prop :=
  match o with
  | MemDC b f br pn => kind_of s b = Some KBitmap /\ kind_of s f = Some KFont /\ kind_of s br = Some KBrush /\ kind_of s pn = Some KPen
  | _ => True
  end.

Lemma insert_ok s h o : sys_ok s -> h <> 0 -> objs s !! h = None ->
  h <> stock_bitmap -> h <> stock_font -> h <> stock_brush -> h <> stock_pen -> dc_fits s o ->
  sys_ok (set_objs s (<[h := o]> (objs s))).
Proof.
  intros (E0 & E1 & E2 & E3 & E4 & Hsel) ? Hn ? ? ? ? Ho. unfold sys_ok. cbn.
  rewrite !lookup_insert_ne by done. do 5 (split; [done|]). intros dc b f br pn Hdc.
  assert (Hk : kind_of s b = Some KBitmap /\ kind_of s f = Some KFont /\ kind_of s br = Some KBrush /\ kind_of s pn = Some KPen).
  { destruct (decide (dc = h)) as [->|Hne].
    - rewrite lookup_insert_eq in Hdc. simplify_eq. done.
    - rewrite lookup_insert_ne in Hdc by done. eauto. }
  destruct Hk as (Eb & Ef & Er & Ep).
  change (mk_sys _ _ _ _) with (set_objs s (<[h := o]> (objs s))).
  rewrite !kind_insert by (done || by rewrite ?Eb, ?Ef, ?Er, ?Ep). done.
Qed.

Lemma make_ok s o : sys_ok s -> dc_fits s o -> sys_ok (make s o).2.
Proof.
  intros Hs Ho. destruct (make_cases s o) as [->|(h & -> & ? & ? & ? & ? & ? & ?)]; [done|]. by apply insert_ok.
Qed.

(** Nothing selects a handle that is neither in stock nor given out. *)
Lemma in_use_false s h : (forall dc b f br pn, objs s !! dc = Some (MemDC b f br pn) -> b <> h /\ f <> h /\ br <> h /\ pn <> h) ->
  in_use s h = false.
Proof.
  intros Hs. apply not_true_is_false. intros Hu. unfold in_use in Hu. apply existsb_exists in Hu as ([dc o] & Hin & Hu).
  apply list_elem_of_In, elem_of_map_to_list in Hin. cbn in Hu. destruct o as [|b f br pn| | | |]; try done.
  destruct (Hs _ _ _ _ _ Hin) as (? & ? & ? & ?). cbn in Hu. by rewrite !(proj2 (Z.eqb_neq _ _)) in Hu.
Qed.

Lemma in_use_true s dc b f br pn : objs s !! dc = Some (MemDC b f br pn) -> in_use s b = true.
Proof.
  intros Hdc. unfold in_use. apply existsb_exists. exists (dc, MemDC b f br pn).
  split; [by apply list_elem_of_In, elem_of_map_to_list|]. cbn. by rewrite Z.eqb_refl.
Qed.

Lemma fresh_unused s h : sys_ok s -> kind_of s h = None -> in_use s h = false.
Proof.
  intros (_ & _ & _ & _ & _ & Hsel) Hk. apply in_use_false. intros dc b f br pn Hdc.
  destruct (Hsel _ _ _ _ _ Hdc) as (? & ? & ? & ?). repeat split; intros ->; congruence.
Qed.

(** *** Tools: a brush or a pen that is made, used and deleted *)

Lemma kind_none s h : objs s !! h = None -> h <> stock_bitmap -> h <> stock_font -> h <> stock_brush -> h <> stock_pen ->
  kind_of s h = None.
Proof. intros Hn ? ? ? ?. unfold kind_of. rewrite Hn. by rewrite !(proj2 (Z.eqb_neq _ _)). Qed.

Lemma delete_zero s : sys_ok s -> DeleteObject s 0 = s.
Proof. intros (E & _). unfold DeleteObject. by rewrite E. Qed.

(** Deleting what was made last. *)
Lemma delete_made s s1 h o : sys_ok s -> objs s !! h = None -> kind_of s h = None ->
  objs s1 = <[h := o]> (objs s) -> match o with Brush | Pen | Font | Bitmap _ _ => True | _ => False end ->
  DeleteObject s1 h = set_objs s1 (objs s).
Proof.
  intros Hs Hn Hk E Ho. unfold DeleteObject. rewrite E, lookup_insert_eq.
  assert (Hu : in_use s1 h = false).
  { apply in_use_false. intros dc b f br pn Hdc. rewrite E in Hdc. destruct (decide (dc = h)) as [->|Hne].
    - rewrite lookup_insert_eq in Hdc. by simplify_eq.
    - rewrite lookup_insert_ne in Hdc by done. destruct Hs as (_ & _ & _ & _ & _ & Hsel).
      destruct (Hsel _ _ _ _ _ Hdc) as (? & ? & ? & ?). repeat split; intros ->; congruence. }
  destruct o; try done; rewrite Hu; by rewrite delete_insert_id.
Qed.

(** Two systems that differ in what has been drawn at most. *)
Definition same_but_drawn (s s' : system) : Prop := objs s' = objs s /\ queue s' = queue s /\ quit s' = quit s.

Lemma fill_same s dc l t r b c : sys_ok s -> same_but_drawn s (fill s dc l t r b c).
Proof.
  intros Hs. unfold fill. destruct (make_cases s Brush) as [->|(h & -> & Hh & Hn & ? & ? & ? & ?)].
  { cbn [Z.eqb orb]. by rewrite delete_zero. }
  rewrite (proj2 (Z.eqb_neq _ _) Hh). cbn [orb]. set (s1 := if dc =? 0 then _ else _).
  assert (E : objs s1 = <[h := Brush]> (objs s) /\ queue s1 = queue s /\ quit s1 = quit s) by (subst s1; by destruct (dc =? 0)).
  destruct E as (E & Eq & Et). rewrite (delete_made s s1 h Brush) by (done || by apply kind_none). done.
Qed.

(** A tool that could not be made is 0 and fits nowhere; one that was made fits. *)
Definition fits (k : kind) (s : system) (h : Z) : Prop :=
  (h = 0 /\ kind_of s 0 = None) \/ (h <> 0 /\ kind_of s h = Some k).

Lemma sel_brush s dc b f br pn h : objs s !! dc = Some (MemDC b f br pn) -> fits KBrush s h ->
  SelectObject s dc h = (if h =? 0 then 0 else br, set_objs s (<[dc := MemDC b f (if h =? 0 then br else h) pn]> (objs s))).
Proof.
  intros Hd [[-> Hk]|[Hh Hk]]; unfold SelectObject; rewrite Hd, Hk; cbn.
  - rewrite insert_id by done. by destruct s.
  - by rewrite (proj2 (Z.eqb_neq _ _) Hh).
Qed.
Lemma sel_pen s dc b f br pn h : objs s !! dc = Some (MemDC b f br pn) -> fits KPen s h ->
  SelectObject s dc h = (if h =? 0 then 0 else pn, set_objs s (<[dc := MemDC b f br (if h =? 0 then pn else h)]> (objs s))).
Proof.
  intros Hd [[-> Hk]|[Hh Hk]]; unfold SelectObject; rewrite Hd, Hk; cbn.
  - rewrite insert_id by done. by destruct s.
  - by rewrite (proj2 (Z.eqb_neq _ _) Hh).
Qed.

(** What fits depends on the objects, not on what is selected where. *)
Lemma fits_redc k s s' dc b f br pn x h : objs s !! dc = Some (MemDC b f br pn) ->
  objs s' = <[dc := x]> (objs s) -> (exists b f br pn, x = MemDC b f br pn) -> fits k s h -> fits k s' h.
Proof.
  intros Hd E (b' & f' & br' & pn' & ->). unfold fits.
  assert (Ek : forall y, kind_of s' y = kind_of s y).
  { intros y. unfold kind_of. rewrite E. destruct (decide (y = dc)) as [->|Hne].
    - by rewrite lookup_insert_eq, Hd.
    - by rewrite lookup_insert_ne. }
  by rewrite !Ek.
Qed.

(** A tool is made: what it is, what stays, and that deleting it last gives the objects back. *)
Definition tool_kind (o : gobj) (k : kind) : Prop := (o = Brush /\ k = KBrush) \/ (o = Pen /\ k = KPen).
Lemma make_tool s o k : sys_ok s -> tool_kind o k ->
  exists h s1, make s o = (h, s1) /\ sys_ok s1 /\ fits k s1 h /\ queue s1 = queue s /\ quit s1 = quit s /\
    (forall x y, objs s !! x = Some y -> objs s1 !! x = Some y) /\
    (forall k' x, fits k' s x -> fits k' s1 x) /\
    forall st, objs st = objs s1 -> DeleteObject st h = set_objs st (objs s).
Proof.
  intros Hs Ho. destruct (make_cases s o) as [->|(h & -> & Hh & Hn & ? & ? & ? & ?)].
  - exists 0, s. split; [done|]. split; [done|]. split; [left; split; [done|by apply kind_zero]|].
    do 4 (split; [done|]). intros st E. unfold DeleteObject. rewrite E. destruct Hs as (-> & _). rewrite <- E. by destruct st.
  - assert (Hf : dc_fits s o) by by destruct Ho as [[-> _]|[-> _]].
    exists h, (set_objs s (<[h := o]> (objs s))). split; [done|]. split; [by apply insert_ok|]. split.
    { right. split; [done|]. unfold kind_of. cbn. rewrite lookup_insert_eq. by destruct Ho as [[-> ->]|[-> ->]]. }
    do 2 (split; [done|]). split; [|split].
    + intros x y Hx. cbn. rewrite lookup_insert_ne by congruence. done.
    + intros k' x [[-> Hk]|[Hx Hk]]; [left|right].
      * split; [done|]. unfold kind_of in *. cbn. by rewrite lookup_insert_ne.
      * split; [done|]. rewrite kind_insert; try done. by rewrite Hk.
    + intros st E. apply (delete_made s st h o); [done|done|by apply kind_none|done|by destruct Ho as [[-> _]|[-> _]]].
Qed.

(** Deleting the older of two tools leaves what the younger one alone would have made. *)
Lemma delete_older s h s1 k s2 : sys_ok s -> make s Brush = (h, s1) -> make s1 Pen = (k, s2) ->
  forall st, objs st = objs s2 -> objs (DeleteObject (DeleteObject st h) k) = objs s.
Proof.
  intros Hs Em Em2 st E. pose proof (make_ok s Brush Hs I) as Hs1. rewrite Em in Hs1. cbn in Hs1.
  destruct (make_cases s Brush) as [E1|(h' & E1 & Hh & Hn & H1 & H2 & H3 & H4)]; rewrite E1 in Em; simplify_eq.
  { assert (Es2 : sys_ok s2) by (pose proof (make_ok s1 Pen Hs1 I) as Hp; by rewrite Em2 in Hp).
    assert (Ez : DeleteObject st 0 = st) by (unfold DeleteObject; rewrite E; by destruct Es2 as (-> & _)). rewrite Ez.
    destruct (make_tool s1 Pen KPen Hs (or_intror (conj eq_refl eq_refl))) as (k' & s2' & E2 & _ & _ & _ & _ & _ & _ & Hd).
    rewrite E2 in Em2. simplify_eq. by rewrite Hd. }
  destruct (make_cases (set_objs s (<[h:=Brush]> (objs s))) Pen) as [E2|(k' & E2 & Hk & Hkn & K1 & K2 & K3 & K4)]; rewrite E2 in Em2; simplify_eq.
  { rewrite (delete_made s st h Brush) by (done || by apply kind_none). unfold DeleteObject. cbn.
    by destruct Hs as (-> & _). }
  cbn in Hkn. assert (Hne : h <> k) by (intros ->; by rewrite lookup_insert_eq in Hkn).
  rewrite lookup_insert_ne in Hkn by done.
  assert (Hsk : sys_ok (set_objs s (<[k := Pen]> (objs s)))) by by apply insert_ok.
  rewrite (delete_made (set_objs s (<[k := Pen]> (objs s))) st h Brush); [|done|by cbn; rewrite lookup_insert_ne| | |done].
  - by rewrite (delete_made s _ k Pen) by (done || by apply kind_none).
  - apply kind_none; [|done..]. cbn. by rewrite lookup_insert_ne.
  - rewrite E. cbn. by rewrite insert_insert_ne.
Qed.

Lemma fits_zero s h k : fits k s h -> h = 0 -> kind_of s 0 = None.
Proof. intros [[_ ?]|[? _]] E; [done|congruence]. Qed.

Lemma select_ok s dc h : sys_ok s -> sys_ok (select s dc h).
Proof.
  intros Hs. unfold select, SelectObject.
  destruct (objs s !! dc) as [[|b f br pn| | | |]|] eqn:Hdc; try done.
  destruct (kind_of s h) as [k|] eqn:Hk; [|done].
  assert (Hput : forall b' f' br' pn', dc_fits s (MemDC b' f' br' pn') ->
    sys_ok (set_objs s (<[dc := MemDC b' f' br' pn']> (objs s)))).
  { destruct Hs as (E0 & E1 & E2 & E3 & E4 & Hsel). intros b' f' br' pn' Hx. unfold sys_ok. cbn.
    rewrite !lookup_insert_ne by congruence. do 5 (split; [done|]). intros dc1 b1 f1 br1 pn1 Hdc1.
    change (mk_sys _ _ _ _) with (set_objs s (<[dc := MemDC b' f' br' pn']> (objs s))).
    rewrite !(kind_redc s dc b f br pn) by done. destruct (decide (dc1 = dc)) as [->|Hne].
    - rewrite lookup_insert_eq in Hdc1. by simplify_eq.
    - rewrite lookup_insert_ne in Hdc1 by done. eauto. }
  destruct Hs as (_ & _ & _ & _ & _ & Hsel). destruct (Hsel _ _ _ _ _ Hdc) as (? & ? & ? & ?).
  by destruct k; apply Hput.
Qed.

(** Selecting the tools, painting, and selecting what was there before. *)
Lemma brush_round s dc b f pn h : sys_ok s -> objs s !! dc = Some (MemDC b f stock_brush pn) -> fits KBrush s h ->
  exists old s1, SelectObject s dc h = (old, s1) /\ objs s1 !! dc = Some (MemDC b f (if h =? 0 then stock_brush else h) pn) /\
    (forall k x, fits k s x -> fits k s1 x) /\ queue s1 = queue s /\ quit s1 = quit s /\
    objs s1 = <[dc := MemDC b f (if h =? 0 then stock_brush else h) pn]> (objs s) /\
    forall st pn', objs st = <[dc := MemDC b f (if h =? 0 then stock_brush else h) pn']> (objs s) ->
      select st dc old = set_objs st (<[dc := MemDC b f stock_brush pn']> (objs s)).
Proof.
  intros Hs Hd Hf. rewrite (sel_brush s dc b f stock_brush pn h) by done. eexists _, _. split; [done|].
  split; [by cbn; rewrite lookup_insert_eq|]. split; [intros; eapply (fits_redc _ s); eauto|].
  do 3 (split; [done|]). intros st pn' E. destruct stock_there as (_ & _ & Nb & _).
  unfold select. rewrite (sel_brush st dc b f (if h =? 0 then stock_brush else h) pn');
    [|by rewrite E, lookup_insert_eq|].
  - cbn [snd]. rewrite E, insert_insert_eq. do 4 f_equal.
    destruct (h =? 0) eqn:Eh; [done|]. by rewrite (proj2 (Z.eqb_neq _ _) Nb).
  - eapply (fits_redc KBrush s); eauto. destruct (kind_stock s Hs) as (_ & _ & Kb & _).
    destruct (h =? 0) eqn:Eh; bool_to_prop; [left|by right]. split; [done|by eapply fits_zero].
Qed.

Lemma pen_round s dc b f br k : sys_ok s -> objs s !! dc = Some (MemDC b f br stock_pen) -> fits KPen s k ->
  exists old s1, SelectObject s dc k = (old, s1) /\ queue s1 = queue s /\ quit s1 = quit s /\
    objs s1 = <[dc := MemDC b f br (if k =? 0 then stock_pen else k)]> (objs s) /\
    forall st br', objs st = <[dc := MemDC b f br' (if k =? 0 then stock_pen else k)]> (objs s) ->
      select st dc old = set_objs st (<[dc := MemDC b f br' stock_pen]> (objs s)).
Proof.
  intros Hs Hd Hf. rewrite (sel_pen s dc b f br stock_pen k) by done. eexists _, _. split; [done|].
  do 3 (split; [done|]). intros st br' E. destruct stock_there as (_ & _ & _ & Np).
  unfold select. rewrite (sel_pen st dc b f br' (if k =? 0 then stock_pen else k));
    [|by rewrite E, lookup_insert_eq|].
  - cbn [snd]. rewrite E, insert_insert_eq. do 4 f_equal.
    destruct (k =? 0) eqn:Ek; [done|]. by rewrite (proj2 (Z.eqb_neq _ _) Np).
  - eapply (fits_redc KPen s); eauto. destruct (kind_stock s Hs) as (_ & _ & _ & Kp).
    destruct (k =? 0) eqn:Ek; bool_to_prop; [left|by right]. split; [done|by eapply fits_zero].
Qed.

Lemma set_objs_twice s m m' : set_objs (set_objs s m) m' = set_objs s m'.
Proof. done. Qed.

Lemma with_tools_same s dc brush b f p : sys_ok s -> objs s !! dc = Some (MemDC b f stock_brush stock_pen) ->
  same_but_drawn s (with_tools s dc brush p).
Proof.
  intros Hs Hdc. unfold with_tools. destruct brush.
  - destruct (make_tool s Brush KBrush Hs (or_introl (conj eq_refl eq_refl))) as (h & s1 & Em & Hs1 & Hf & Eq1 & Et1 & Hl1 & _).
    destruct (make_tool s1 Pen KPen Hs1 (or_intror (conj eq_refl eq_refl))) as (k & s2 & Em2 & Hs2 & Hf2 & Eq2 & Et2 & Hl2 & Hk2 & _).
    rewrite Em, Em2. specialize (Hl2 _ _ (Hl1 _ _ Hdc)). specialize (Hk2 _ _ Hf).
    destruct (brush_round s2 dc b f stock_pen h Hs2 Hl2 Hk2) as (old & s3 & Es3 & Hd3 & Hk3 & Eq3 & Et3 & E3 & Hback).
    rewrite Es3. assert (Hs3 : sys_ok s3) by (pose proof (select_ok s2 dc h Hs2) as Hp; unfold select in Hp; by rewrite Es3 in Hp).
    destruct (pen_round s3 dc b f _ k Hs3 Hd3 (Hk3 _ _ Hf2)) as (old' & s4 & -> & Eq4 & Et4 & E4 & Hback').
    cbv zeta beta. rewrite E3, insert_insert_eq in E4. 
    rewrite (Hback (paint s4 p) (if k =? 0 then stock_pen else k)) by done.
    rewrite (Hback' _ stock_brush) by (cbn; by rewrite E3, insert_insert_eq).
    rewrite E3, insert_insert_eq, set_objs_twice, insert_id by done.
    split; [by apply (delete_older s h s1 k s2)|].
    assert (Hqq : forall st x, queue (DeleteObject st x) = queue st /\ quit (DeleteObject st x) = quit st).
    { intros st x. unfold DeleteObject. destruct (objs st !! x) as [[]|]; try done; by destruct (in_use st x). }
    rewrite !(proj1 (Hqq _ _)), !(proj2 (Hqq _ _)). cbn. by rewrite Eq4, Eq3, Eq2, Eq1, Et4, Et3, Et2, Et1.
  - destruct (make_tool s Pen KPen Hs (or_intror (conj eq_refl eq_refl))) as (k & s1 & Em & Hs1 & Hf & Eq1 & Et1 & Hl1 & _ & Hdel).
    rewrite Em. destruct (pen_round s1 dc b f stock_brush k Hs1 (Hl1 _ _ Hdc) Hf) as (old & s2 & -> & Eq2 & Et2 & E2 & Hback).
    cbv zeta beta. rewrite (Hback (paint s2 p) stock_brush) by done.
    rewrite insert_id by by apply Hl1. rewrite Hdel by done. split; [done|]. cbn. by rewrite Eq2, Eq1, Et2, Et1.
Qed.

(** *** The invariant *)

Definition inputs_ok (i : inputs) : Prop :=
  length (g_key_state i) = 256%nat /\ queue_ok i /\ length (g_mouse_btn_down i) = 3%nat /\
  length (g_mouse_btn_pressed i) = 3%nat /\ length (g_mouse_btn_released i) = 3%nat.
Definition slot_flags (w : LppWin32Window) : Prop := (opened w = 0 \/ opened w = 1) /\ (opened w <> 0 -> hwnd w <> 0).

(** The windows of the table exist, with their memory DCs and the bitmaps of their size, and share nothing. *)
Definition table_ok (t : list LppWin32Window) (s : system) : Prop :=
  length t = 8%nat /\ Forall slot_flags t /\
  (forall i w, t !! i = Some w -> hwnd w <> 0 -> slot_live s w) /\
  forall i j w w', i <> j -> t !! i = Some w -> t !! j = Some w' -> hwnd w <> 0 -> hwnd w' <> 0 ->
    hwnd w <> hwnd w' /\ mem_dc w <> mem_dc w' /\ hbmp w <> hbmp w'.
Definition win_inv (g : win) : Prop :=
  sys_ok (os g) /\ font_live (os g) (g_editor_font g) /\ table_ok (g_windows g) (os g) /\ inputs_ok (g_inputs g) /\
  Forall (fun m => msg_ok m.2) (queue (os g)).

Lemma font_mono s s' h : font_live s h -> (forall x o, objs s !! x = Some o -> objs s' !! x = Some o) -> font_live s' h.
Proof. intros [?|?] Hs; [by left|right; by apply Hs]. Qed.
Lemma font_delete s x h : font_live s h -> objs s !! x = Some Wnd -> font_live (set_objs s (delete x (objs s))) h.
Proof. intros [?|?] Hx; [by left|right]. cbn. rewrite lookup_delete_ne; congruence. Qed.

(** Objects that stay keep the table. *)
Lemma table_mono t s s' : table_ok t s -> (forall x o, objs s !! x = Some o -> objs s' !! x = Some o) -> table_ok t s'.
Proof.
  intros (Hl & Hf & Hlive & Hd) Hs. split; [done|]. split; [done|]. split; [|done].
  intros i w Hi Hw. destruct (Hlive i w Hi Hw) as (H1 & (f & H2) & H3 & H4).
  split; [by apply Hs|]. split; [exists f; by apply Hs|]. split; [by apply Hs|]. by eapply font_mono.
Qed.

Lemma inv_same g s : win_inv g -> same_but_drawn (os g) s -> win_inv (set_os g s).
Proof.
  intros (Hs & Hfont & Ht & Hi & Hq) (Eo & Eq & Et). split; [|split; [|split; [|split; [done|by cbn; rewrite Eq]]]]; cbn.
  - unfold sys_ok, kind_of in *. by rewrite Eo.
  - unfold font_live. by rewrite Eo.
  - eapply table_mono; [done|]. by rewrite Eo.
Qed.

Lemma delete_dc_ok s h o : sys_ok s -> objs s !! h = Some o -> (forall k, kind_of s h <> Some k) ->
  sys_ok (set_objs s (delete h (objs s))).
Proof.
  intros (E0 & E1 & E2 & E3 & E4 & Hsel) Hh Hk. unfold sys_ok. cbn.
  assert (Hn : forall x, objs s !! x = None -> delete h (objs s) !! x = None) by (intros; rewrite lookup_delete_ne; congruence).
  rewrite !Hn by done. do 5 (split; [done|]). intros dc b f br pn Hdc. apply lookup_delete_Some in Hdc as [_ Hdc].
  destruct (Hsel _ _ _ _ _ Hdc) as (Kb & Kf & Kr & Kp).
  change (mk_sys _ _ _ _) with (set_objs s (delete h (objs s))).
  rewrite !kind_delete by (intros ->; by eapply Hk). done.
Qed.

Lemma delete_object_cases s h : sys_ok s ->
  (DeleteObject s h = s \/ (DeleteObject s h = set_objs s (delete h (objs s)) /\ in_use s h = false)) /\ sys_ok (DeleteObject s h).
Proof.
  intros Hs. unfold DeleteObject. destruct (objs s !! h) as [o|] eqn:Hh; [|by auto].
  assert (Hdel : in_use s h = false -> sys_ok (set_objs s (delete h (objs s)))).
  { intros Hu. destruct Hs as (E0 & E1 & E2 & E3 & E4 & Hsel). unfold sys_ok. cbn.
    assert (Hn : forall x, objs s !! x = None -> delete h (objs s) !! x = None) by (intros; rewrite lookup_delete_ne; congruence).
    rewrite !Hn by done. do 5 (split; [done|]). intros dc b f br pn Hdc. apply lookup_delete_Some in Hdc as [_ Hdc].
    assert (Hne : b <> h /\ f <> h /\ br <> h /\ pn <> h).
    { assert (Hx : selects h (MemDC b f br pn) = false).
      { apply not_true_is_false. intros Hx. apply not_true_iff_false in Hu. apply Hu, existsb_exists.
        exists (dc, MemDC b f br pn). split; [by apply list_elem_of_In, elem_of_map_to_list|done]. }
      cbn in Hx. bool_to_prop. done. }
    destruct Hne as (? & ? & ? & ?). change (mk_sys _ _ _ _) with (set_objs s (delete h (objs s))).
    rewrite !kind_delete by done. eauto. }
  destruct o; try (by auto); destruct (in_use s h) eqn:Hu; auto.
Qed.

Lemma live_nonzero s h o : sys_ok s -> objs s !! h = Some o -> h <> 0.
Proof. intros (E & _) Hh ->. congruence. Qed.

Lemma find_slot_ok f t : forall i j, find_slot f i t = Some j ->
  exists n w, j = i + Z.of_nat n /\ t !! n = Some w /\ f w = true.
Proof.
  induction t as [|w t IH]; intros i j Hj; [done|]. cbn in Hj. destruct (f w) eqn:Ef.
  - simplify_eq. exists 0%nat, w. split; [lia|done].
  - destruct (IH _ _ Hj) as (n & w' & -> & Hn & ?). exists (S n), w'. split; [lia|done].
Qed.

(** *** Destroying *)

Lemma table_delete t s h : table_ok t s -> (forall i w, t !! i = Some w -> hwnd w <> h) -> objs s !! h = Some Wnd ->
  table_ok t (set_objs s (delete h (objs s))).
Proof.
  intros (Hl & Hf & Hlive & Hd) Hne Hh. split; [done|]. split; [done|]. split; [|done].
  intros i w Hi Hw. destruct (Hlive i w Hi Hw) as (H1 & (f & H2) & H3 & H4). unfold slot_live. cbn.
  assert (hwnd w <> h) by by eapply Hne. assert (mem_dc w <> h) by congruence. assert (hbmp w <> h) by congruence.
  rewrite !lookup_delete_ne by done.
  split; [done|]. split; [by exists f|]. split; [done|by apply font_delete].
Qed.

Lemma destroy_window_inv g h : sys_ok (os g) -> font_live (os g) (g_editor_font g) -> table_ok (g_windows g) (os g) -> inputs_ok (g_inputs g) ->
  Forall (fun m => msg_ok m.2) (queue (os g)) -> (forall i w, g_windows g !! i = Some w -> hwnd w <> h) ->
  win_inv (DestroyWindow g h).
Proof.
  intros Hs Hfont Ht Hi Hq Hne. unfold DestroyWindow. destruct (objs (os g) !! h) as [[]|] eqn:Hh; try (by split; [|split; [|split]]).
  assert (Hs' : sys_ok (set_objs (os g) (delete h (objs (os g))))).
  { eapply delete_dc_ok; [done|done|]. intros k. unfold kind_of. by rewrite Hh. }
  assert (Ht' := table_delete _ _ _ Ht Hne Hh). assert (Hfont' := font_delete _ _ _ Hfont Hh).
  assert (Hq' : Forall (fun m => msg_ok m.2) (filter (fun m => m.1 <> h) (queue (os g)))).
  { apply Forall_forall. intros m Hm. apply list_elem_of_filter in Hm as [_ Hm]. rewrite Forall_forall in Hq. by apply Hq. }
  unfold on_destroy. cbn. destruct (existsb _ _); (split; [exact Hs'|split; [exact Hfont'|split; [exact Ht'|split; [exact Hi|exact Hq']]]]).
Qed.

Lemma table_put t s id w w' : table_ok t s -> t !! id = Some w -> slot_flags w' ->
  (hwnd w' <> 0 -> slot_live s w' /\ forall j wj, j <> id -> t !! j = Some wj -> hwnd wj <> 0 ->
     hwnd w' <> hwnd wj /\ mem_dc w' <> mem_dc wj /\ hbmp w' <> hbmp wj) ->
  table_ok (<[id := w']> t) s.
Proof.
  intros (Hl & Hf & Hlive & Hd) Hw Hfl Hn. split; [by rewrite length_insert|]. split; [by apply Forall_insert|].
  assert (Hlt := lookup_lt_Some _ _ _ Hw). split.
  - intros i x Hi Hx. destruct (decide (i = id)) as [->|Hne].
    + rewrite list_lookup_insert_eq in Hi by done. simplify_eq. by apply Hn.
    + rewrite list_lookup_insert_ne in Hi by done. by eapply Hlive.
  - intros i j x y Hij Hi Hj Hx Hy. destruct (decide (i = id)) as [->|Hi']; destruct (decide (j = id)) as [->|Hj']; try done.
    + rewrite list_lookup_insert_eq in Hi by done. rewrite list_lookup_insert_ne in Hj by done. simplify_eq.
      destruct (Hn Hx) as [_ Hn']. by eapply Hn'.
    + rewrite list_lookup_insert_eq in Hj by done. rewrite list_lookup_insert_ne in Hi by done. simplify_eq.
      destruct (Hn Hy) as [_ Hn']. destruct (Hn' i x) as (? & ? & ?); done.
    + rewrite list_lookup_insert_ne in Hi, Hj by done. by eapply (Hd i j).
Qed.

(** *** Closing

    The slot's window number is 0 when the tear-down looks at it, so nothing is torn down. *)

Lemma close_slot_exact g id w : length (g_windows g) = 8%nat -> 0 <= id < 8 -> g_windows g !! Z.to_nat id = Some w ->
  close_slot g id = Ok (let g' := set_table g (<[Z.to_nat id := set_hwnd (set_opened w 0) 0]> (g_windows g)) in
    if hwnd w =? 0 then g' else DestroyWindow g' (hwnd w)).
Proof.
  intros Hl Hid Hw. unfold close_slot. rewrite (rd_ok _ _ w) by (done || lia). cbn [obind].
  rewrite wr_ok by lia. cbn [obind]. unfold lpp_win32_destroy_slot. cbn [g_windows set_table].
  rewrite (rd_ok _ _ (set_hwnd (set_opened w 0) 0)) by (lia || by apply list_lookup_insert_eq; lia). done.
Qed.

Lemma close_slot_inv g id : win_inv g -> 0 <= id < 8 ->
  wp (close_slot g id) (fun g' => win_inv g' /\ exists w', g_windows g' !! Z.to_nat id = Some w' /\ opened w' = 0).
Proof.
  intros (Hs & Hfont & Ht & Hi & Hq) Hid. pose proof Ht as (Hl & Hf & Hlive & Hd).
  destruct (lookup_lt_is_Some_2 (g_windows g) (Z.to_nat id)) as [w Hw]; [lia|].
  rewrite (close_slot_exact g id w) by done. cbn.
  set (t := <[Z.to_nat id := _]> (g_windows g)).
  assert (Ht' : table_ok t (os g)) by (eapply table_put; [done|done|by split; [left|]|done]).
  assert (Hc : exists w', t !! Z.to_nat id = Some w' /\ opened w' = 0).
  { exists (set_hwnd (set_opened w 0) 0). split; [|done]. apply list_lookup_insert_eq. lia. }
  destruct (hwnd w =? 0) eqn:E; bool_to_prop; [by split; [split; [|split; [|split; [|split]]]|]|].
  split.
  - apply destroy_window_inv; try done. intros i w' Hi' E'. cbn in Hi'. subst t.
    destruct (decide (i = Z.to_nat id)) as [->|Hne].
    + rewrite list_lookup_insert_eq in Hi' by lia. by simplify_eq.
    + rewrite list_lookup_insert_ne in Hi' by done.
      destruct (Hd i (Z.to_nat id) w' w) as (? & _); try done. by rewrite E'.
  - unfold DestroyWindow. destruct (objs _ !! _) as [[]|]; try done. unfold on_destroy. by destruct (existsb _ _).
Qed.

(** *** Resizing *)

Lemma select_pins s dc h x o : objs s !! x = Some o -> x <> dc -> objs (select s dc h) !! x = Some o.
Proof.
  intros Hx Hne. unfold select, SelectObject.
  destruct (objs s !! dc) as [[]|]; try done. destruct (kind_of s h) as [[]|]; try done; cbn; by rewrite lookup_insert_ne.
Qed.

Lemma make_pins s o : sys_ok s -> dc_fits s o ->
  exists h s1, make s o = (h, s1) /\ sys_ok s1 /\ objs s !! h = None /\ (h <> 0 -> objs s1 !! h = Some o) /\
    (forall x y, objs s !! x = Some y -> objs s1 !! x = Some y) /\ queue s1 = queue s /\ quit s1 = quit s.
Proof.
  intros Hs Ho. pose proof (make_ok s o Hs Ho) as Hok.
  destruct (make_cases s o) as [E|(h & E & Hh & Hn & _)]; rewrite E in *; cbn in Hok.
  - exists 0, s. split; [done|]. split; [done|]. split; [apply Hs|done].
  - exists h, (set_objs s (<[h := o]> (objs s))). split; [done|]. split; [done|]. split; [done|].
    split; [intros _; by apply lookup_insert_eq|]. split; [|done]. intros x y Hx. cbn. rewrite lookup_insert_ne; congruence.
Qed.

Lemma select_queue s dc h : queue (select s dc h) = queue s /\ quit (select s dc h) = quit s.
Proof.
  unfold select, SelectObject. destruct (objs s !! dc) as [[]|]; try done. by destruct (kind_of s h) as [[]|].
Qed.
Lemma deletedc_ok s dc : sys_ok s ->
  sys_ok (DeleteDC s dc) /\ (forall x o, objs s !! x = Some o -> x <> dc -> objs (DeleteDC s dc) !! x = Some o) /\
  queue (DeleteDC s dc) = queue s /\ quit (DeleteDC s dc) = quit s.
Proof.
  intros Hs. unfold DeleteDC. destruct (objs s !! dc) as [[]|] eqn:E; try done.
  split; [eapply delete_dc_ok; [done|done|]; intros k; unfold kind_of; by rewrite E|].
  split; [|done]. intros x o Hx Hne. cbn. by rewrite lookup_delete_ne.
Qed.

Lemma fill_if_same (b : bool) s dc l t r bt c : sys_ok s -> same_but_drawn s (if b then fill s dc l t r bt c else s).
Proof. intros Hs. destruct b; [by apply fill_same|done]. Qed.

(** The copy of the old picture into the new bitmap changes nothing that was there. *)
Lemma copy_ok s w new_bmp new_w new_h tmp_dc s1 : sys_ok s -> CreateCompatibleDC s = (tmp_dc, s1) ->
  let s2 := select s1 tmp_dc new_bmp in
  forall s3, same_but_drawn s2 s3 ->
  let s4 := if new_w >? wwidth w then fill s3 tmp_dc (wwidth w) 0 new_w new_h (bg_color w) else s3 in
  let s5 := if new_h >? wheight w then fill s4 tmp_dc 0 (wheight w) new_w new_h (bg_color w) else s4 in
  forall old_sel, let s6 := DeleteDC (select s5 tmp_dc old_sel) tmp_dc in
  sys_ok s6 /\ (forall x o, objs s !! x = Some o -> objs s6 !! x = Some o) /\ queue s6 = queue s /\ quit s6 = quit s.
Proof.
  intros Hs E s2 s3 E3 s4 s5 old_sel s6. unfold CreateCompatibleDC in E.
  assert (Hfit : dc_fits s (MemDC stock_bitmap stock_font stock_brush stock_pen)) by by apply kind_stock.
  destruct (make_pins s _ Hs Hfit) as (h & s1' & E' & Hs1 & Hn & _ & Hp1 & Eq1 & Et1). rewrite E' in E. simplify_eq.
  assert (Hs2 : sys_ok s2) by by apply select_ok.
  assert (Hsd : forall a b, sys_ok a -> same_but_drawn a b -> sys_ok b) by (intros a b Ha (Eo & _); unfold sys_ok, kind_of in *; by rewrite Eo).
  assert (E4 : same_but_drawn s3 s4).
  { apply fill_if_same. by eapply Hsd. }
  assert (Hs3 := Hsd _ _ Hs2 E3). assert (Hs4 := Hsd _ _ Hs3 E4).
  assert (E5 : same_but_drawn s4 s5) by by apply fill_if_same.
  assert (Hs5 := Hsd _ _ Hs4 E5). assert (Hss := select_ok s5 tmp_dc old_sel Hs5).
  destruct (deletedc_ok _ tmp_dc Hss) as (Hs6 & Hp6 & Eq6 & Et6).
  destruct (select_queue s5 tmp_dc old_sel) as [Eqs Ets]. destruct (select_queue s1 tmp_dc new_bmp) as [Eq2 Et2].
  destruct E3 as (O3 & Q3 & T3). destruct E4 as (O4 & Q4 & T4). destruct E5 as (O5 & Q5 & T5).
  subst s6. split; [done|]. split.
  - intros x o Hx. assert (Hne : x <> tmp_dc) by congruence. apply Hp6; [|done]. apply select_pins; [|done].
    rewrite O5, O4, O3. apply select_pins; [by apply Hp1|done].
  - rewrite Eq6, Eqs, Q5, Q4, Q3, Et6, Ets, T5, T4, T3. subst s2. by rewrite Eq2, Et2, Eq1, Et1.
Qed.

(** Selecting the font again. *)
Lemma init_state_ok s dc font b f : sys_ok s -> objs s !! dc = Some (MemDC b f stock_brush stock_pen) -> font_live s font ->
  let s' := lpp_win32_init_dc_state s dc font in
  sys_ok s' /\ (forall x o, objs s !! x = Some o -> x <> dc -> objs s' !! x = Some o) /\
  (exists f', objs s' !! dc = Some (MemDC b f' stock_brush stock_pen)) /\ queue s' = queue s /\ quit s' = quit s.
Proof.
  intros Hs Hdc Hf s'. subst s'. unfold lpp_win32_init_dc_state.
  destruct (font =? 0) eqn:E; bool_to_prop; cbn [negb]; [split; [done|split; [done|split; [by exists f|done]]]|].
  destruct Hf as [?|Hf]; [done|]. split; [by apply select_ok|]. split; [by intros; apply select_pins|].
  split; [|apply select_queue]. exists font. unfold select, SelectObject. rewrite Hdc.
  assert (Kf : kind_of s font = Some KFont) by (unfold kind_of; by rewrite Hf).
  rewrite Kf. cbn. by rewrite lookup_insert_eq.
Qed.

(** The new bitmap takes the old one's place in the window's DC. *)
Lemma swap_bitmap t s i w b new_w new_h : sys_ok s -> table_ok t s -> t !! i = Some w -> hwnd w <> 0 -> b <> 0 ->
  objs s !! b = Some (Bitmap new_w new_h) ->
  (forall j wj, t !! j = Some wj -> hwnd wj <> 0 -> hbmp wj <> b) ->
  let '(old, s1) := SelectObject s (mem_dc w) b in
  let s2 := lpp_win32_init_dc_state (DeleteObject s1 old) (mem_dc w) (hfont w) in
  sys_ok s2 /\ table_ok (<[i := set_bitmap w b new_w new_h]> t) s2 /\ (forall h, font_live s h -> font_live s2 h) /\
  queue s2 = queue s /\ quit s2 = quit s.
Proof.
  intros Hs Ht Hi Hw Hb Hbm Hfresh. pose proof Ht as (Hl & Hf & Hlive & Hd).
  destruct (Hlive i w Hi Hw) as (H1 & (f & H2) & H3 & H4).
  assert (Kb : kind_of s b = Some KBitmap) by (unfold kind_of; by rewrite Hbm).
  pose proof (select_ok s (mem_dc w) b Hs) as Hs1. unfold select, SelectObject in *. rewrite H2, Kb in *. cbn [snd] in Hs1.
  set (s1 := set_objs s _) in *. destruct (delete_object_cases s1 (hbmp w) Hs1) as [Hdel Hs2].
  set (s2 := DeleteObject s1 (hbmp w)) in *.
  assert (Hp : forall x o, objs s !! x = Some o -> x <> mem_dc w -> x <> hbmp w -> objs s2 !! x = Some o).
  { intros x o Hx N1 N2. destruct Hdel as [->|[-> _]]; cbn; [|rewrite lookup_delete_ne by done]; by rewrite lookup_insert_ne. }
  assert (Hdc : objs s2 !! mem_dc w = Some (MemDC b f stock_brush stock_pen)).
  { destruct Hdel as [->|[-> _]]; cbn; [|rewrite lookup_delete_ne by congruence]; by rewrite lookup_insert_eq. }
  assert (Hq : queue s2 = queue s /\ quit s2 = quit s) by (by destruct Hdel as [->|[-> _]]).
  set (s3 := lpp_win32_init_dc_state s2 (mem_dc w) (hfont w)).
  assert (Hfont : font_live s2 (hfont w)).
  { destruct H4 as [?|H4]; [by left|right]. apply Hp; [done| |]; congruence. }
  destruct (init_state_ok s2 (mem_dc w) (hfont w) b f Hs2 Hdc Hfont) as (Hs3 & Hp3 & (f' & Hdc3) & Eq3 & Et3). fold s3 in Hs3, Hp3, Hdc3, Eq3, Et3.
  assert (Hall : forall x o, objs s !! x = Some o -> x <> mem_dc w -> x <> hbmp w -> objs s3 !! x = Some o) by (intros; apply Hp3; [by apply Hp|done]).
  destruct Ht as (_ & _ & _ & _). assert (Hfonts : forall h, font_live s h -> font_live s3 h).
  { intros h [?|Hh]; [by left|right]. apply Hall; [done| |]; congruence. }
  split; [done|]. split; [|split; [done|destruct Hq; split; congruence]].
  split; [by rewrite length_insert|]. split; [apply Forall_insert; [done|]; rewrite Forall_lookup in Hf; exact (Hf i w Hi)|].
  assert (Hlt := lookup_lt_Some _ _ _ Hi). split.
  - intros j x Hj Hx. destruct (decide (j = i)) as [->|Hne].
    + rewrite list_lookup_insert_eq in Hj by done. simplify_eq. unfold slot_live. cbn.
      pose proof (Hfresh i w Hi Hw). split; [apply Hall; congruence|]. split; [by exists f'|].
      split; [apply Hall; [done| |]; congruence|by apply Hfonts].
    + rewrite list_lookup_insert_ne in Hj by done. destruct (Hlive j x Hj Hx) as (L1 & (f1 & L2) & L3 & L4).
      destruct (Hd i j w x) as (D1 & D2 & D3); try done.
      split; [apply Hall; congruence|]. split; [exists f1; apply Hall; congruence|]. split; [apply Hall; congruence|by apply Hfonts].
  - intros j k x y Hjk Hj Hk Hx Hy. destruct (decide (j = i)) as [->|Hj']; destruct (decide (k = i)) as [->|Hk']; try done.
    + rewrite list_lookup_insert_eq in Hj by done. rewrite list_lookup_insert_ne in Hk by done. simplify_eq. cbn.
      destruct (Hd i k w y) as (? & ? & ?); try done. split; [done|]. split; [done|]. intros E. by eapply (Hfresh k y).
    + rewrite list_lookup_insert_eq in Hk by done. rewrite list_lookup_insert_ne in Hj by done. simplify_eq. cbn.
      destruct (Hd j i x w) as (? & ? & ?); try done. split; [done|]. split; [done|]. by apply (Hfresh j x).
    + rewrite list_lookup_insert_ne in Hj, Hk by done. by apply (Hd j k).
Qed.

Lemma on_size_ok g h new_w new_h : win_inv g -> h <> 0 -> wp (on_size g h new_w new_h) win_inv.
Proof.
  intros (Hs & Hfont & Ht & Hi & Hq) Hh. assert (Hinv : win_inv g) by (split; [|split; [|split; [|split]]]; done).
  unfold on_size. split_test; [done|].
  destruct (slot_of_hwnd g h) as [i|] eqn:Ei; [|done].
  destruct (find_slot_ok _ _ _ _ Ei) as (n & w & -> & Hw & Ef). bool_to_prop.
  assert (Hlt := lookup_lt_Some _ _ _ Hw). pose proof Ht as (Hl & _ & Hlive & _).
  rewrite (rd_ok _ _ w) by (lia || by rewrite Z.add_0_l, Nat2Z.id). cbn [obind]. split_test; [done|].
  destruct (make_pins (os g) (Bitmap new_w new_h) Hs I) as (b & s1 & -> & Hs1 & Hn & Hb & Hp1 & Eq1 & Et1).
  destruct (b =? 0) eqn:Eb; bool_to_prop; [done|]. specialize (Hb Eb).
  destruct (CreateCompatibleDC s1) as [tmp_dc s2] eqn:Ed. destruct (SelectObject s2 tmp_dc b) as [old_sel s3] eqn:Es.
  assert (E3 : select s2 tmp_dc b = s3) by (unfold select; by rewrite Es).
  set (s4 := if tmp_dc =? 0 then s3 else _).
  assert (E4 : same_but_drawn (select s2 tmp_dc b) s4) by (rewrite E3; subst s4; by destruct (tmp_dc =? 0)).
  destruct (copy_ok s1 w b new_w new_h tmp_dc s2 Hs1 Ed s4 E4 old_sel) as (Hs6 & Hp6 & Eq6 & Et6).
  set (s6 := DeleteDC _ tmp_dc) in *.
  assert (Hall : forall x o, objs (os g) !! x = Some o -> objs s6 !! x = Some o) by (intros; by apply Hp6, Hp1).
  assert (Hnz : hwnd w <> 0) by by rewrite Ef.
  pose proof (swap_bitmap (g_windows g) s6 n w b new_w new_h Hs6 (table_mono _ _ _ Ht Hall) Hw Hnz Eb (Hp6 _ _ Hb)) as Hswap.
  assert (Hfr : forall j wj, g_windows g !! j = Some wj -> hwnd wj <> 0 -> hbmp wj <> b).
  { intros j wj Hj Hwj Ebm. destruct (Hlive j wj Hj Hwj) as (_ & _ & Hx & _). congruence. }
  specialize (Hswap Hfr). destruct (SelectObject s6 (mem_dc w) b) as [old s7] eqn:E7.
  destruct Hswap as (Hs8 & Ht8 & Hf8 & Eq8 & Et8). rewrite wr_ok by lia. cbn [obind wp]. rewrite Z.add_0_l, Nat2Z.id.
  split; [done|]. split; [by apply Hf8; eapply font_mono|]. split; [done|]. split; [done|]. cbn. by rewrite Eq8, Eq6, Eq1.
Qed.

(** *** Messages *)

Lemma inv_inputs g i : win_inv g -> inputs_ok i -> win_inv (set_inputs g i).
Proof. intros (? & ? & ? & ? & ?) Hi. by split; [|split; [|split; [|split]]]. Qed.

Lemma on_key_ok g k v : win_inv g -> wp (on_key g k v) win_inv.
Proof.
  intros Hinv. pose proof Hinv as (_ & _ & _ & (Hk & Hrest) & _). unfold on_key. split_test; [|done].
  pose proof (u64_range k). rewrite wr_ok by lia. cbn. apply inv_inputs; [done|]. split; [by cbn; rewrite length_insert|done].
Qed.

Lemma on_button_ok g b down : win_inv g -> 0 <= b < 3 -> wp (on_button g b down) win_inv.
Proof.
  intros Hinv Hb. pose proof Hinv as (_ & _ & _ & (Hk & Hqu & Hd & Hp & Hr) & _). unfold on_button.
  rewrite wr_ok by lia. cbn [obind]. destruct down; cbn [obind]; rewrite wr_ok by lia; cbn [obind wp];
    (apply inv_inputs; [done|]; split; [done|]; split; [done|]; cbn; by rewrite ?length_insert).
Qed.

Lemma on_destroy_inv g : win_inv g -> win_inv (on_destroy g).
Proof. intros (? & ? & ? & ? & ?). unfold on_destroy. destruct (existsb _ _); by split; [|split; [|split; [|split]]]. Qed.

Lemma wndproc_inv g h m : win_inv g -> h <> 0 -> msg_ok m -> wp (lpp_gui_wndproc g h m) win_inv.
Proof.
  intros Hinv Hh Hm. pose proof Hinv as (Hs & Hfont & Ht & Hi & Hq). pose proof Ht as (Hl & _).
  assert (Hslot : forall f i, find_slot f 0 (g_windows g) = Some i -> 0 <= i < 8).
  { intros f i E. destruct (find_slot_ok _ _ _ _ E) as (n & w & -> & Hw & _). apply lookup_lt_Some in Hw. lia. }
  destruct m; cbn [lpp_gui_wndproc]; try done;
    try (by apply on_key_ok); try (by apply on_button_ok; [done|lia]); try (by apply on_destroy_inv).
  - destruct (find_slot _ 0 (g_windows g)) as [i|] eqn:E; [|done]. specialize (Hslot _ _ E).
    destruct (lookup_lt_is_Some_2 (g_windows g) (Z.to_nat i)) as [w Hw]; [lia|].
    rewrite (rd_ok _ _ w) by (done || lia). cbn [obind]. destruct Hm as [? ?].
    do 2 (rewrite chk32_ok by done; cbn [obind]). destruct (_ && _); [by apply inv_same|done].
  - destruct minimized; [done|]. by apply on_size_ok.
  - destruct Hi as (Hk & Hqu & Hd & Hp & Hr). destruct (wp_inv _ _ (char_arrives_ok _ c Hqu)) as (i' & E & Hq' & _).
    rewrite E. destruct (char_arrives_keeps _ _ _ E) as (K1 & K2 & K3 & K4). cbn. apply inv_inputs; [done|].
    split; [by rewrite K1|]. split; [done|]. by rewrite K2, K3, K4.
  - unfold slot_of_hwnd. destruct (find_slot _ 0 (g_windows g)) as [i|] eqn:E; [|done]. specialize (Hslot _ _ E).
    eapply wp_mono; [by apply close_slot_inv|]. by intros g' [? _].
Qed.

Lemma pump_inv ms : forall g, win_inv g -> Forall (fun m => msg_ok m.2) ms -> wp (pump g ms) win_inv.
Proof.
  induction ms as [|[h m] ms IH]; intros g Hinv Hms; cbn [pump]; [done|]. inversion Hms as [|? ? Hm Hms']; subst.
  apply wp_bind. unfold dispatch. destruct (objs (os g) !! _) as [[]|] eqn:E; try by apply IH.
  eapply wp_mono; [apply wndproc_inv; [done| |done]|intros g' Hg'; by apply IH].
  destruct Hinv as (Hs & _). by eapply live_nonzero.
Qed.

(** *** Creation *)

Lemma free_loop_ok t : forall i, 0 <= i ->
  free_loop i t = -1 \/
  exists j w, free_loop i t = i + Z.of_nat j /\ t !! j = Some w /\ opened w = 0 /\ hwnd w = 0.
Proof.
  induction t as [|w t IH]; intros i Hi; cbn; [by left|].
  destruct ((opened w =? 0) && (hwnd w =? 0)) eqn:E; bool_to_prop.
  { right. exists 0%nat, w. split; [lia|done]. }
  destruct (IH (i + 1)) as [->|(j & w' & -> & ?)]; [lia|by left|].
  right. exists (S j), w'. split; [lia|done].
Qed.

(** A handle that was not given out is no window of the table. *)
Lemma fresh_not_window t s h : table_ok t s -> objs s !! h = None -> h <> 0 -> forall i w, t !! i = Some w -> hwnd w <> h.
Proof.
  intros (_ & _ & Hlive & _) Hn Hh i w Hi E. destruct (decide (hwnd w = 0)); [congruence|].
  destruct (Hlive i w Hi) as (Hw & _); [done|congruence].
Qed.

Lemma undo_inv g s h : win_inv g -> sys_ok s -> (forall x o, objs (os g) !! x = Some o -> objs s !! x = Some o) ->
  queue s = queue (os g) -> objs (os g) !! h = None -> h <> 0 -> win_inv (DestroyWindow (set_os g s) h).
Proof.
  intros (Hs & Hfont & Ht & Hi & Hq) Hs' Hp Eq Hn Hh. apply destroy_window_inv; cbn; try done.
  - by eapply font_mono.
  - by eapply table_mono.
  - by rewrite Eq.
  - by eapply fresh_not_window.
Qed.

(** A font, the second choice if the first is refused. *)
Lemma make_font_ok s : sys_ok s ->
  exists font s', (let '(font, s) := make s Font in if font =? 0 then make s Font else (font, s)) = (font, s') /\
    sys_ok s' /\ font_live s' font /\ (forall x y, objs s !! x = Some y -> objs s' !! x = Some y) /\ queue s' = queue s.
Proof.
  intros Hs. destruct (make_pins s Font Hs I) as (h & s1 & -> & Hs1 & _ & Hh & Hp & Eq & _).
  destruct (h =? 0) eqn:E; bool_to_prop.
  - destruct (make_pins s1 Font Hs1 I) as (h2 & s2 & -> & Hs2 & _ & Hh2 & Hp2 & Eq2 & _).
    exists h2, s2. split; [done|]. split; [done|]. split; [|split; [by auto|by rewrite Eq2]].
    destruct (decide (h2 = 0)); [by left|right; auto].
  - exists h, s1. split; [done|]. split; [done|]. split; [right; auto|done].
Qed.

Lemma populate_ok g s3 id w h dc mdc bmp wd ht : win_inv g -> sys_ok s3 ->
  (forall x o, objs (os g) !! x = Some o -> objs s3 !! x = Some o) -> queue s3 = queue (os g) ->
  0 <= id < 8 -> g_windows g !! Z.to_nat id = Some w ->
  h <> 0 -> mdc <> 0 -> bmp <> 0 -> objs (os g) !! h = None -> objs (os g) !! mdc = None -> objs (os g) !! bmp = None ->
  objs s3 !! h = Some Wnd -> objs s3 !! mdc = Some (MemDC stock_bitmap stock_font stock_brush stock_pen) ->
  objs s3 !! bmp = Some (Bitmap (i32 wd) (i32 ht)) ->
  wp (populate g s3 id h dc mdc bmp wd ht) (fun '(r, g') => r = id /\ win_inv g').
Proof.
  intros (Hs & Hfont & Ht & Hi & Hq) Hs3 Hp Eq Hid Hw Eh Em Eb Nh Nm Nb Hh Hm3 Hb. pose proof Ht as (Hl & _ & Hlive & _).
  unfold populate. destruct (SelectObject s3 mdc bmp) as [old s4] eqn:E4.
  assert (Es4 : s4 = select s3 mdc bmp) by (unfold select; by rewrite E4).
  assert (Hs4 : sys_ok s4) by (rewrite Es4; by apply select_ok).
  assert (Hm4 : objs s4 !! mdc = Some (MemDC bmp stock_font stock_brush stock_pen)).
  { rewrite Es4. unfold select, SelectObject. rewrite Hm3. unfold kind_of. rewrite Hb. cbn. by rewrite lookup_insert_eq. }
  assert (Hp4 : forall x o, objs s3 !! x = Some o -> x <> mdc -> objs s4 !! x = Some o) by (rewrite Es4; intros; by apply select_pins).
  assert (Eq4 : queue s4 = queue (os g)) by (rewrite Es4, (proj1 (select_queue _ _ _)), Eq; done).
  pose proof (make_font_ok s4 Hs4) as (font & s5 & E5 & Hs5 & Hfl & Hp5 & Eq5).
  destruct (make s4 Font) as [f0 s4'] eqn:Em4. rewrite E5. cbn [obind].
  rewrite wr_ok by (cbn; lia). cbn [obind].
  destruct (init_state_ok s5 mdc font bmp stock_font Hs5 (Hp5 _ _ Hm4) Hfl) as (Hs6 & Hp6 & (f' & Hm6) & Eq6 & _).
  set (s6 := lpp_win32_init_dc_state s5 mdc font) in *.
  pose proof (fill_same s6 mdc 0 0 (i32 wd) (i32 ht) (RGB 19 24 33) Hs6) as (Eo7 & Eq7 & _). set (s7 := fill s6 mdc _ _ _ _ _) in *.
  assert (Hother : forall x o, objs s3 !! x = Some o -> x <> mdc -> objs s7 !! x = Some o).
  { intros x o Hx Hne. rewrite Eo7. apply Hp6; [|done]. apply Hp5. by apply Hp4. }
  set (w' := mk_w h dc mdc bmp old font (i32 wd) (i32 ht) 1 (RGB 19 24 33)).
  assert (Hall : forall x o, objs (os g) !! x = Some o -> objs s7 !! x = Some o).
  { intros x o Hx. apply Hother; [by apply Hp|congruence]. }
  assert (Ht' : table_ok (<[Z.to_nat id := w']> (g_windows g)) s7).
  { eapply table_put; [by eapply table_mono|done|by split; [right|]|]. intros _. split.
    - unfold slot_live. cbn. pose proof (Hp5 _ _ Hm4) as Hm5. split; [apply Hother; congruence|].
      split; [exists f'; by rewrite Eo7|]. split; [apply Hother; congruence|].
      destruct Hfl as [?|Hfl]; [by left|right]. rewrite Eo7. apply Hp6; [done|congruence].
    - intros j wj _ Hj Hwj. destruct (Hlive j wj Hj Hwj) as (L1 & (f1 & L2) & L3 & _). cbn. repeat split; congruence. }
  apply wp_bind. eapply wp_mono; [apply pump_inv|by intros g' Hg'].
  - split; [cbn; unfold sys_ok, kind_of in *; rewrite Eo7; exact Hs6|]. split; [by eapply font_mono|].
    split; [done|]. split; [done|]. cbn. by rewrite Eq7, Eq6, Eq5, Eq4.
  - apply Forall_map. eapply Forall_impl; [apply greetings_ok|done].
Qed.

Lemma create_w_ok g title wd ht : win_inv g ->
  wp (lpp_gui_window_create_w g title wd ht) (fun '(r, g') => win_inv g' /\ (r = -1 \/ 0 <= r < 8)).
Proof.
  intros Hinv. unfold lpp_gui_window_create_w. split_test; [split; [done|by left]|].
  unfold lpp_find_free_slot. destruct (free_loop_ok (g_windows g) 0) as [->|(j & w & -> & Hj & Ho & Hw0)]; [done|split; [done|by left]|].
  rewrite Z.add_0_l. set (id := Z.of_nat j). rewrite (proj2 (Z.ltb_ge id 0)) by lia.
  pose proof Hinv as (Hs & Hfont & Ht & Hi & Hq). pose proof Ht as (Hl & _ & Hlive & _).
  assert (Hlt : (j < 8)%nat) by (apply lookup_lt_Some in Hj; lia).
  destruct (negb (g_class_registered g) && negb class_registers); [split; [done|by left]|].
  set (g1 := mk_g _ true _ _ _). assert (Hinv1 : win_inv g1) by by split; [|split; [|split; [|split]]].
  destruct (make_pins (os g1) Wnd Hs I) as (h & s1 & -> & Hs1 & Hn & Hh & Hp1 & Eq1 & _).
  destruct (h =? 0) eqn:Eh; bool_to_prop.
  { split; [|by left]. split; [done|]. cbn. split; [by eapply font_mono|]. split; [by eapply table_mono|]. split; [done|by rewrite Eq1]. }
  specialize (Hh Eh). destruct (get_dc s1 h =? 0) eqn:Edc; [split; [by apply undo_inv|by left]|].
  assert (Hfit : dc_fits s1 (MemDC stock_bitmap stock_font stock_brush stock_pen)) by by apply kind_stock.
  unfold CreateCompatibleDC. destruct (make_pins s1 _ Hs1 Hfit) as (mdc & s2 & -> & Hs2 & Hn2 & Hm & Hp2 & Eq2 & _).
  destruct (mdc =? 0) eqn:Em; bool_to_prop; [split; [apply undo_inv; [done|done|by auto|by rewrite Eq2|done|done]|by left]|].
  specialize (Hm Em). destruct (make_pins s2 (Bitmap (i32 wd) (i32 ht)) Hs2 I) as (bmp & s3 & -> & Hs3 & Hn3 & Hb & Hp3 & Eq3 & _).
  assert (Hp13 : forall x o, objs (os g) !! x = Some o -> objs s3 !! x = Some o) by auto.
  destruct (bmp =? 0) eqn:Eb; bool_to_prop.
  { split; [|by left]. destruct (deletedc_ok s3 mdc Hs3) as (Hs4 & Hp4 & Eq4 & _).
    apply undo_inv; [done|done| |by rewrite Eq4, Eq3, Eq2|done|done]. intros x o Hx. apply Hp4; [by auto|].
    intros ->. rewrite (Hp1 _ _ Hx) in Hn2. done. }
  assert (Hj' : g_windows g1 !! Z.to_nat id = Some w) by (subst id; by rewrite Nat2Z.id).
  assert (Hnew : forall x, objs s1 !! x = None -> objs (os g1) !! x = None).
  { intros x Hx. destruct (objs (os g1) !! x) eqn:E; [|done]. apply Hp1 in E. congruence. }
  assert (Hnew2 : objs s1 !! bmp = None) by (destruct (objs s1 !! bmp) eqn:E; [apply Hp2 in E; congruence|done]).
  eapply wp_mono; [apply (populate_ok g1 s3 id w h _ mdc bmp wd ht); try done; auto; [by rewrite Eq3, Eq2|lia]|].
  intros [r g'] [-> Hg']. split; [done|right; lia].
Qed.

(** *** The other builtins *)

Lemma poll_w_ok g win_id : win_inv g -> wp (lpp_gui_window_poll_events_w g win_id) (fun r => win_inv r.2).
Proof.
  intros Hinv. unfold lpp_gui_window_poll_events_w. destruct (out_of_range_w win_id) eqn:Er; [done|].
  apply wp_bind. eapply wp_mono.
  { apply pump_inv; [|by apply Hinv]. destruct Hinv as (? & ? & ? & ? & ?). by split; [|split; [|split; [|split]]]. }
  intros g' Hinv'. pose proof Hinv' as (Hs & Hfont & (Hl & Hf & Hlive & Hd) & Hi & Hq). destruct (quit (os g')).
  - split; [done|]. split; [done|]. split; [|done]. cbn. split; [by rewrite length_map|]. split; [|split].
    + apply Forall_map. eapply Forall_impl; [exact Hf|]. intros w _. by split; [left|].
    + intros i w Hw. apply list_lookup_fmap_Some in Hw as (w' & -> & Hw'). cbn. intros Hh. by apply (Hlive i w').
    + intros i j w w' Hij Hw Hw'. apply list_lookup_fmap_Some in Hw as (v & -> & Hv).
      apply list_lookup_fmap_Some in Hw' as (v' & -> & Hv'). cbn. intros. by apply (Hd i j).
  - unfold out_of_range_w, MAX_WINDOWS in Er. bool_to_prop.
    destruct (lookup_lt_is_Some_2 (g_windows g') (Z.to_nat win_id)) as [w Hw]; [lia|].
    by rewrite (rd_ok _ _ w) by (done || lia).
Qed.

Lemma open_w_cases g win_id : length (g_windows g) = 8%nat ->
  open_w g win_id = Ok None \/
  exists w, open_w g win_id = Ok (Some w) /\ 0 <= win_id < 8 /\ g_windows g !! Z.to_nat win_id = Some w /\ opened w <> 0.
Proof.
  intros Hl. unfold open_w. destruct (out_of_range_w win_id) eqn:Er; [by left|].
  unfold out_of_range_w, MAX_WINDOWS in Er. bool_to_prop.
  destruct (lookup_lt_is_Some_2 (g_windows g) (Z.to_nat win_id)) as [w Hw]; [lia|].
  rewrite (rd_ok _ _ w) by (done || lia). cbn. destruct (opened w =? 0) eqn:E; bool_to_prop; [by left|right; by exists w].
Qed.

(** A drawing leaves every object as it was. *)
Lemma on_open_ok (R : Prop) g win_id f : win_inv g ->
  (forall w, g_windows g !! Z.to_nat win_id = Some w -> 0 <= win_id < 8 -> slot_live (os g) w ->
     within R (f w) (fun g' => win_inv g' /\ objs (os g') = objs (os g))) ->
  within R (on_open g win_id f) (fun g' => win_inv g' /\ objs (os g') = objs (os g)).
Proof.
  intros Hinv Hf. pose proof Hinv as (_ & _ & (Hl & Hfl & Hlive & _) & _). unfold on_open.
  destruct (open_w_cases g win_id Hl) as [->|(w & -> & Hid & Hw & Ho)]; [done|]. cbn.
  apply Hf; [done|done|]. rewrite Forall_lookup in Hfl. destruct (Hfl _ _ Hw) as [_ Hnz]. eapply Hlive; [done|by apply Hnz].
Qed.

Lemma shape_ok (R : Prop) g win_id f : win_inv g ->
  (forall w, within R (f w) (fun g' => exists brush p, g' = set_os g (with_tools (os g) (mem_dc w) brush p))) ->
  within R (on_open g win_id f) (fun g' => win_inv g' /\ objs (os g') = objs (os g)).
Proof.
  intros Hinv Hf. apply on_open_ok; [done|]. intros w Hw Hid (_ & (ft & Hdc) & _).
  eapply within_mono; [apply Hf|]. intros g' (brush & p & ->). destruct Hinv as (Hs & ?).
  pose proof (with_tools_same (os g) (mem_dc w) brush _ _ p Hs Hdc) as Hsame. split; [by apply inv_same|apply Hsame].
Qed.

Lemma clear_w_ok (R : Prop) g win_id hex : win_inv g ->
  within R (lpp_gui_clear_w g win_id hex) (fun g' => win_inv g' /\ objs (os g') = objs (os g)).
Proof.
  intros Hinv. apply on_open_ok; [done|]. intros w Hw Hid Hlive.
  pose proof Hinv as (Hs & Hfont & Ht & Hi & Hq). pose proof Ht as (Hl & Hf & _ & Hd).
  cbv beta zeta. rewrite wr_ok by lia. cbn [obind wp].
  pose proof (fill_same (os g) (mem_dc w) 0 0 (wwidth w) (wheight w) (lpp_hex_to_colorref hex) Hs) as Hsame.
  split; [|apply Hsame]. apply (inv_same (set_table g _)); [|done]. split; [done|]. split; [done|]. split; [|done].
  rewrite Forall_lookup in Hf. eapply table_put; [done|done|exact (Hf _ _ Hw)|]. intros Hh. split; [done|].
  intros j wj Hj E Hn. by apply (Hd (Z.to_nat win_id) j w wj).
Qed.

(** Another font in a window's DC. *)
Lemma select_init s dc font : sys_ok s -> select s dc font = lpp_win32_init_dc_state s dc font.
Proof.
  intros Hs. unfold lpp_win32_init_dc_state. destruct (font =? 0) eqn:E; bool_to_prop; cbn [negb]; [|done].
  subst. unfold select, SelectObject. rewrite kind_zero by done. by destruct (objs s !! dc) as [[]|].
Qed.

Lemma refont_ok t s i w font : sys_ok s -> table_ok t s -> t !! i = Some w -> hwnd w <> 0 -> font_live s font ->
  let s' := lpp_win32_init_dc_state s (mem_dc w) font in
  sys_ok s' /\ table_ok t s' /\ (forall h, font_live s h -> font_live s' h) /\ queue s' = queue s.
Proof.
  intros Hs (Hl & Hf & Hlive & Hd) Hi Hw Hfont s'. destruct (Hlive i w Hi Hw) as (L1 & (ft & L2) & L3 & L4).
  destruct (init_state_ok s (mem_dc w) font _ _ Hs L2 Hfont) as (Hs' & Hp & (f' & Hdc) & Eq & _). fold s' in Hs', Hp, Hdc, Eq.
  assert (Hfl : forall h, font_live s h -> font_live s' h).
  { intros h [?|Hh]; [by left|right]. apply Hp; congruence. }
  split; [done|]. split; [|done]. split; [done|]. split; [done|]. split; [|done].
  intros j x Hj Hx. destruct (Hlive j x Hj Hx) as (M1 & (g1 & M2) & M3 & M4).
  split; [apply Hp; congruence|]. split; [|split; [apply Hp; congruence|by apply Hfl]].
  destruct (decide (j = i)) as [->|Hne]; [simplify_eq; by exists f'|].
  destruct (Hd j i x w) as (_ & ? & _); try done. exists g1. by apply Hp.
Qed.

Lemma text_w_ok g win_id x y text hex : win_inv g -> wp (lpp_gui_draw_text_w g win_id x y text hex) win_inv.
Proof.
  intros Hinv. destruct text as [text|]; [|done]. unfold lpp_gui_draw_text_w, on_open.
  pose proof Hinv as (Hs & Hfont & Ht & Hi & Hq). pose proof Ht as (Hl & Hfl & Hlive & _).
  destruct (open_w_cases g win_id Hl) as [->|(w & -> & Hid & Hw & Ho)]; [done|]. cbn [obind].
  assert (exists font s1, (if g_editor_font g =? 0 then make (os g) Font else (g_editor_font g, os g)) = (font, s1) /\
    sys_ok s1 /\ font_live s1 font /\ (forall x o, objs (os g) !! x = Some o -> objs s1 !! x = Some o) /\ queue s1 = queue (os g))
    as (font & s1 & -> & Hs1 & Hf1 & Hp1 & Eq1).
  { destruct (g_editor_font g =? 0); [|by eexists _, _].
    destruct (make_pins (os g) Font Hs I) as (h & s1 & -> & Hs1 & _ & Hh & Hp & Eq & _). exists h, s1.
    split; [done|]. split; [done|]. split; [|done]. destruct (decide (h = 0)); [by left|right; auto]. }
  rewrite Forall_lookup in Hfl. destruct (Hfl _ _ Hw) as [_ Hnz]. destruct (Hlive _ _ Hw (Hnz Ho)) as (_ & (ft & Hdc) & _).
  assert (Hsel : sys_ok (select s1 (mem_dc w) font) /\ table_ok (g_windows g) (select s1 (mem_dc w) font) /\
    font_live (select s1 (mem_dc w) font) font /\ queue (select s1 (mem_dc w) font) = queue (os g)).
  { destruct (refont_ok _ s1 _ w font Hs1 (table_mono _ _ _ Ht Hp1) Hw (Hnz Ho) Hf1) as (? & ? & Hfl2 & ?).
    rewrite (select_init s1 (mem_dc w) font Hs1). split; [done|]. split; [done|]. split; [by apply Hfl2|congruence]. }
  destruct Hsel as (Hs2 & Ht2 & Hf2 & Eq2). cbn. split; [done|]. split; [done|]. split; [done|]. split; [done|]. cbn. by rewrite Eq2.
Qed.

(** *** Any sequence of calls *)

Inductive wcall :=
| WCreate (title : option cstr) (wd ht : Z)
| WPost (h : Z) (m : message)          (** a message arrives for a window *)
| WPoll (win_id : Z)
| WClear (win_id hex : Z)
| WRect (win_id x y wd ht hex : Z)
| WRoundedRect (win_id x y wd ht radius hex : Z)
| WText (win_id x y : Z) (text : option cstr) (hex : Z)
| WCircle (win_id cx cy r hex : Z)
| WLine (win_id x1 y1 x2 y2 thick hex : Z)
| WPresent (win_id : Z)
| WClose (win_id : Z).

Definition run_wcall (g : win) (c : wcall) : outcome win :=
  match c with
  | WCreate title wd ht => let! '(_, g) := lpp_gui_window_create_w g title wd ht in Ok g
  | WPost h m => Ok (set_os g (mk_sys (objs (os g)) (queue (os g) ++ [(h, m)]) (quit (os g)) (drawn (os g))))
  | WPoll win_id => let! '(_, g) := lpp_gui_window_poll_events_w g win_id in Ok g
  | WClear win_id hex => lpp_gui_clear_w g win_id hex
  | WRect win_id x y wd ht hex => lpp_gui_draw_rect_w g win_id x y wd ht hex
  | WRoundedRect win_id x y wd ht radius hex => lpp_gui_draw_rounded_rect_w g win_id x y wd ht radius hex
  | WText win_id x y text hex => lpp_gui_draw_text_w g win_id x y text hex
  | WCircle win_id cx cy r hex => lpp_gui_draw_circle_w g win_id cx cy r hex
  | WLine win_id x1 y1 x2 y2 thick hex => lpp_gui_draw_line_w g win_id x1 y1 x2 y2 thick hex
  | WPresent win_id => lpp_gui_present_w g win_id
  | WClose win_id => lpp_gui_window_close_w g win_id
  end.
Fixpoint run_w (g : win) (cs : list wcall) : outcome win :=
  match cs with [] => Ok g | c :: cs => let! g := run_wcall g c in run_w g cs end.

(** The coordinates of a call whose sums, differences and products fit an int64. *)
Definition wcall_fits (c : wcall) : Prop :=
  match c with
  | WRect _ x y wd ht _ => Forall fits64 [x + wd; y + ht]
  | WRoundedRect _ x y wd ht radius _ => Forall fits64 [radius * 2; x + wd; y + ht]
  | WCircle _ cx cy r _ => Forall fits64 [cx - r; cy - r; cx + r; cy + r]
  | _ => True
  end.
Definition posts_ok (c : wcall) : Prop := match c with WPost _ m => msg_ok m | _ => True end.
Definition draws (c : wcall) : Prop :=
  match c with
  | WClear _ _ | WRect _ _ _ _ _ _ | WRoundedRect _ _ _ _ _ _ _ | WCircle _ _ _ _ _ | WLine _ _ _ _ _ _ _ | WPresent _ => True
  | _ => False
  end.

Lemma close_w_ok g win_id : win_inv g ->
  wp (lpp_gui_window_close_w g win_id) (fun g' => win_inv g' /\ lpp_gui_window_is_open_w g' win_id = Ok 0).
Proof.
  intros Hinv. unfold lpp_gui_window_close_w, lpp_gui_window_is_open_w.
  destruct (out_of_range_w win_id) eqn:Er; [done|]. unfold out_of_range_w, MAX_WINDOWS in Er. bool_to_prop.
  pose proof Hinv as (_ & _ & (Hl & _) & _).
  destruct (lookup_lt_is_Some_2 (g_windows g) (Z.to_nat win_id)) as [w Hw]; [lia|].
  rewrite (rd_ok _ _ w) by (done || lia). cbn [obind].
  destruct ((opened w =? 0) && (hwnd w =? 0)) eqn:E.
  { apply andb_true_iff in E as [E _]. cbn. split; [done|]. rewrite (rd_ok _ _ w) by (done || lia). cbn. by rewrite E. }
  eapply wp_mono; [by apply close_slot_inv|]. intros g' [? (w' & Hw' & Ho)]. split; [done|].
  rewrite (rd_ok _ _ w') by (done || lia). cbn. by rewrite Ho.
Qed.

Lemma draw_call_ok g c : win_inv g -> draws c ->
  within (wcall_fits c) (run_wcall g c) (fun g' => win_inv g' /\ objs (os g') = objs (os g)).
Proof.
  intros Hinv Hd. destruct c; try done; cbn [run_wcall].
  - by apply clear_w_ok.
  - apply on_open_ok; [done|]. intros w _ _ _.
    do 2 (apply within_bind, within_chk64; [cbn; rewrite !Forall_cons; tauto|intros _]). cbn.
    destruct Hinv as (Hs & ?). pose proof (fill_same (os g) (mem_dc w) (i32 x) (i32 y) (i32 (x + wd)) (i32 (y + ht)) (lpp_hex_to_colorref hex) Hs) as Hsame.
    split; [by apply inv_same|apply Hsame].
  - apply shape_ok; [done|]. intros w. do 3 (apply within_bind, within_chk64; [cbn; rewrite !Forall_cons; tauto|intros _]).
    by eexists true, _.
  - apply shape_ok; [done|]. intros w. do 4 (apply within_bind, within_chk64; [cbn; rewrite !Forall_cons; tauto|intros _]).
    by eexists true, _.
  - apply shape_ok; [done|]. intros w. by eexists false, _.
  - apply on_open_ok; [done|]. intros w _ _ _. cbn. split; [by apply inv_same|done].
Qed.

Lemma run_wcall_inv g c : win_inv g -> posts_ok c -> within (wcall_fits c) (run_wcall g c) win_inv.
Proof.
  intros Hinv Hm. destruct c; try (by eapply within_mono; [apply draw_call_ok; done|intros g' [? _]]); cbn [run_wcall]; apply wp_within.
  - apply wp_bind. eapply wp_mono; [by apply create_w_ok|]. by intros [r g'] [? _].
  - destruct Hinv as (? & ? & ? & ? & ?). cbn. split; [done|]. split; [done|]. split; [done|]. split; [done|]. cbn.
    apply Forall_app. split; [done|]. by apply Forall_singleton.
  - apply wp_bind. eapply wp_mono; [by apply poll_w_ok|]. by intros [r g'].
  - by apply text_w_ok.
  - eapply wp_mono; [by apply close_w_ok|]. by intros g' [? _].
Qed.

Lemma win0_inv : win_inv win0.
Proof.
  split; [|split; [by left|split; [|split; [by repeat split|constructor]]]].
  - unfold sys_ok. cbn. rewrite !lookup_empty. do 5 (split; [done|]). intros dc b f br pn Hdc. by rewrite lookup_empty in Hdc.
  - split; [done|]. split; [apply Forall_replicate; by split; [left|]|].
    assert (Hz : forall i w, replicate 8 w0 !! i = Some w -> hwnd w = 0) by (intros i w Hw; by apply lookup_replicate in Hw as [-> _]).
    split; [intros i w Hw Hh; by destruct (Hh (Hz i w Hw))|]. intros i j w w' _ Hw _ Hh. by destruct (Hh (Hz i w Hw)).
Qed.

Lemma run_w_inv cs : forall g, win_inv g -> Forall posts_ok cs -> within (Forall wcall_fits cs) (run_w g cs) win_inv.
Proof.
  induction cs as [|c cs IH]; intros g Hinv Hcs; cbn [run_w]; [done|]. inversion Hcs; subst. apply within_bind.
  eapply within_mono; [eapply within_less; [by apply run_wcall_inv|intros Hf; by inversion Hf]|].
  intros g' Hinv'. eapply within_less; [by apply IH|]. intros Hf. by inversion Hf.
Qed.

(** C39. On Win32, in every sequence of window calls with messages in between (paint messages with a rectangle
    whose width and height are ints), and whatever the system grants or refuses, each open window has its window,
    its memory DC with its bitmap selected and of the window's size, and shares them with no other window; and
    what a drawing or presenting call makes for itself (brushes, pens) is gone when it returns.  A run ends in an
    undefined step only if a rectangle, rounded rectangle or circle it draws has coordinates whose sums, differences
    or doubled radius overflow an int64, which the code does not check. *)
Theorem win32_windows_live cs : Forall posts_ok cs ->
  within (Forall wcall_fits cs) (run_w win0 cs) (fun g =>
    (forall i w, g_windows g !! i = Some w -> opened w <> 0 ->
       objs (os g) !! hwnd w = Some Wnd /\ objs (os g) !! hbmp w = Some (Bitmap (wwidth w) (wheight w)) /\
       (exists font, objs (os g) !! mem_dc w = Some (MemDC (hbmp w) font stock_brush stock_pen)) /\
       forall j w', j <> i -> g_windows g !! j = Some w' -> opened w' <> 0 ->
         hwnd w' <> hwnd w /\ mem_dc w' <> mem_dc w /\ hbmp w' <> hbmp w) /\
    forall c, draws c -> within (wcall_fits c) (run_wcall g c) (fun g' => objs (os g') = objs (os g))).
Proof.
  intros Hcs. eapply within_mono; [apply run_w_inv; [apply win0_inv|done]|]. intros g Hinv. split.
  - pose proof Hinv as (_ & _ & (Hl & Hf & Hlive & Hd) & _). rewrite Forall_lookup in Hf. intros i w Hw Ho.
    destruct (Hlive i w Hw) as (L1 & L2 & L3 & _); [by apply (Hf i w)|]. do 3 (split; [done|]).
    intros j w' Hj Hw' Ho'. apply (Hd j i w' w); try done; [by apply (Hf j w')|by apply (Hf i w)].
  - intros c Hdr. eapply within_mono; [by apply draw_call_ok|]. by intros g' [_ ?].
Qed.

(** *** What a window leaves behind

    The system grants everything here and nothing happens to the window. *)

Definition objects (g : win) : nat := size (objs (os g)).

Lemma select_size s dc h : size (objs (select s dc h)) = size (objs s).
Proof.
  unfold select, SelectObject. destruct (objs s !! dc) as [[|b f br pn| | | |]|] eqn:E; try done.
  destruct (kind_of s h) as [[]|]; try done; cbn; by rewrite map_size_insert_Some.
Qed.

Lemma init_size s dc font : size (objs (lpp_win32_init_dc_state s dc font)) = size (objs s).
Proof. unfold lpp_win32_init_dc_state. destruct (negb _); [by rewrite select_size|done]. Qed.

Lemma make_size s o h s1 : make s o = (h, s1) -> h <> 0 -> size (objs s1) = S (size (objs s)).
Proof.
  intros E Hh. destruct (make_cases s o) as [E'|(h' & E' & _ & Hn & _)]; rewrite E' in E; simplify_eq.
  cbn. by rewrite map_size_insert_None.
Qed.

Section granted.
Context (Hgrant : forall s o, new_handle s o <> 0) (Hdc : forall s h, get_dc s h <> 0).
Context (Hclass : class_registers = true) (Hquiet : forall s h, greetings s h = []).

Lemma make_sys s o h s1 : make s o = (h, s1) -> sys_ok s -> dc_fits s o -> sys_ok s1.
Proof. intros E Hs Ho. pose proof (make_ok s o Hs Ho) as Hm. by rewrite E in Hm. Qed.

Lemma make_granted s o : exists h s1, make s o = (h, s1) /\ h <> 0.
Proof.
  unfold make. pose proof (Hgrant s o) as Hg. rewrite (proj2 (Z.eqb_neq _ _) Hg). eauto.
Qed.

Lemma create_objects g wd ht i : win_inv g -> 0 < wd <= 65535 -> 0 < ht <= 65535 -> lpp_find_free_slot g = i -> 0 <= i ->
  wp (lpp_gui_window_create_w g None wd ht) (fun '(r, g') => r = i /\ win_inv g' /\ objects g' = (4 + objects g)%nat /\
    exists w', g_windows g' = <[Z.to_nat i := w']> (g_windows g) /\ opened w' = 1 /\ hwnd w' <> 0).
Proof.
  intros Hinv Hwd Hht Hi Hi0. pose proof (create_w_ok g None wd ht Hinv) as Hok. revert Hok.
  pose proof Hinv as (Hs & _ & (Hl & _) & _).
  assert (Hlt : i < 8).
  { unfold lpp_find_free_slot in Hi. destruct (free_loop_ok (g_windows g) 0) as [E|(j & w & E & Hj & _)]; [lia|lia|].
    apply lookup_lt_Some in Hj. lia. }
  unfold lpp_gui_window_create_w. rewrite !Z.gtb_ltb, !(proj2 (Z.leb_gt _ 0)), !(proj2 (Z.ltb_ge 65535 _)) by lia. cbn [orb].
  rewrite Hi, (proj2 (Z.ltb_ge i 0)), Hclass, andb_false_r by lia.
  destruct (make_granted (os g) Wnd) as (h & s1 & E1 & Hh). cbn [os]. rewrite E1, (proj2 (Z.eqb_neq _ _) Hh).
  rewrite (proj2 (Z.eqb_neq _ _) (Hdc s1 h)). unfold CreateCompatibleDC.
  destruct (make_granted s1 (MemDC stock_bitmap stock_font stock_brush stock_pen)) as (mdc & s2 & E2 & Hm).
  rewrite E2, (proj2 (Z.eqb_neq _ _) Hm). destruct (make_granted s2 (Bitmap (i32 wd) (i32 ht))) as (bmp & s3 & E3 & Hb).
  rewrite E3, (proj2 (Z.eqb_neq _ _) Hb). unfold populate.
  destruct (SelectObject s3 mdc bmp) as [old s4] eqn:E4.
  destruct (make_granted s4 Font) as (font & s5 & E5 & Hf). rewrite E5, (proj2 (Z.eqb_neq _ _) Hf).
  cbn [g_windows]. rewrite wr_ok by lia. cbn [obind]. rewrite Hquiet. cbn [map pump obind wp].
  intros [Hinv' _]. split; [done|]. split; [done|]. split; [|by eexists].
  assert (Hs1 : sys_ok s1) by by eapply make_sys.
  assert (Hs2 : sys_ok s2) by (eapply make_sys; [done|done|by apply kind_stock]).
  assert (Hs3 : sys_ok s3) by by eapply make_sys.
  assert (Es4 : s4 = select s3 mdc bmp) by (unfold select; by rewrite E4).
  assert (Hs4 : sys_ok s4) by (rewrite Es4; by apply select_ok).
  assert (Hs5 : sys_ok s5) by by eapply make_sys.
  assert (Hs6 : sys_ok (lpp_win32_init_dc_state s5 mdc font)).
  { unfold lpp_win32_init_dc_state. destruct (negb _); [by apply select_ok|done]. }
  unfold objects, set_os, set_table. cbn [os objs]. rewrite (proj1 (fill_same _ _ _ _ _ _ _ Hs6)), init_size.
  rewrite (make_size _ _ _ _ E5 Hf), Es4, select_size, (make_size _ _ _ _ E3 Hb), (make_size _ _ _ _ E2 Hm), (make_size _ _ _ _ E1 Hh). done.
Qed.

Lemma close_objects g i w : win_inv g -> 0 <= i < 8 -> g_windows g !! Z.to_nat i = Some w -> hwnd w <> 0 ->
  wp (lpp_gui_window_close_w g i) (fun g' => objects g = S (objects g') /\
    g_windows g' = <[Z.to_nat i := set_hwnd (set_opened w 0) 0]> (g_windows g)).
Proof.
  intros Hinv Hi Hw Hh. pose proof Hinv as (_ & _ & (Hl & _ & Hlive & _) & _).
  unfold lpp_gui_window_close_w, out_of_range_w, MAX_WINDOWS.
  rewrite (proj2 (Z.ltb_ge i 0)), Z.geb_leb, (proj2 (Z.leb_gt 8 i)) by lia. cbn [orb].
  rewrite (rd_ok _ _ w) by (done || lia). cbn [obind]. rewrite (proj2 (Z.eqb_neq (hwnd w) 0)) by done. rewrite andb_false_r.
  rewrite (close_slot_exact g i w) by done. rewrite (proj2 (Z.eqb_neq (hwnd w) 0)) by done. cbv zeta. cbn [wp].
  destruct (Hlive _ _ Hw Hh) as (Hwnd & _). unfold DestroyWindow. cbn [os set_table]. rewrite Hwnd.
  set (t := <[Z.to_nat i := _]> (g_windows g)).
  assert (E : forall g0, g_windows (on_destroy g0) = g_windows g0 /\ objs (os (on_destroy g0)) = objs (os g0)).
  { intros g0. unfold on_destroy. by destruct (existsb _ _). }
  unfold objects. rewrite (proj1 (E _)), (proj2 (E _)). cbn. split; [|done].
  rewrite map_size_delete_Some by done. destruct (size (objs (os g))) eqn:Es; [|done].
  apply map_size_empty_inv in Es. rewrite Es in Hwnd. by rewrite lookup_empty in Hwnd.
Qed.

(** Open a window and close it again, [n] times. *)
Fixpoint rounds (n : nat) (g : win) : outcome win :=
  match n with
  | O => Ok g
  | S n =>
      let! '(id, g) := lpp_gui_window_create_w g None 640 480 in
      let! g := lpp_gui_window_close_w g id in
      rounds n g
  end.

Definition all_closed (g : win) : Prop := Forall (fun w => opened w = 0 /\ hwnd w = 0) (g_windows g).

Lemma rounds_ok n : forall g, win_inv g -> all_closed g ->
  wp (rounds n g) (fun g' => all_closed g' /\ objects g' = (3 * n + objects g)%nat).
Proof.
  induction n as [|n IH]; intros g Hinv Hc; cbn [rounds]; [done|]. pose proof Hinv as (_ & _ & (Hl & _) & _).
  assert (Hfree : lpp_find_free_slot g = 0).
  { unfold lpp_find_free_slot. destruct (g_windows g) as [|w t] eqn:E; [done|].
    assert (Hw : opened w = 0 /\ hwnd w = 0) by (unfold all_closed in Hc; rewrite E in Hc; by inversion Hc).
    cbn [free_loop]. by rewrite (proj1 Hw), (proj2 Hw). }
  apply wp_bind. eapply wp_mono; [by apply (create_objects g 640 480 0)|]. intros [r g1] (-> & Hinv1 & Eo & w' & Ew & _ & Hh).
  assert (Hw' : g_windows g1 !! Z.to_nat 0 = Some w') by (rewrite Ew; apply list_lookup_insert_eq; lia).
  destruct (wp_inv _ _ (close_objects g1 0 w' Hinv1 ltac:(lia) Hw' Hh)) as (g2 & E2 & Eo2 & Ew2).
  pose proof (close_w_ok g1 0 Hinv1) as Hcl. rewrite E2 in Hcl |- *. destruct Hcl as [Hinv2 _]. cbn [obind].
  eapply wp_mono; [apply IH; [done|]|].
  - unfold all_closed. rewrite Ew2, Ew, list_insert_insert_eq. by apply Forall_insert.
  - intros g' [? ->]. split; [done|]. lia.
Qed.

(** Closing a window on Win32 destroys the window and nothing else: after opening and closing [n]
    windows no window is open and 3 * n objects (a memory DC, a bitmap and a font for each) still exist. *)
Theorem win32_close_leaks n :
  wp (rounds n win0) (fun g => all_closed g /\ objects g = (3 * n)%nat).
Proof.
  eapply wp_mono; [apply rounds_ok; [apply win0_inv|by apply Forall_replicate]|]. intros g [? ->].
  split; [done|]. unfold objects, win0. cbn. rewrite map_size_empty. lia.
Qed.
End granted.

(** ** Colours *)

(** The red, green and blue of a COLORREF. *)
Definition GetRValue (c : Z) : Z := Z.land c 0xFF.
Definition GetGValue (c : Z) : Z := Z.land (Z.shiftr c 8) 0xFF.
Definition GetBValue (c : Z) : Z := Z.land (Z.shiftr c 16) 0xFF.

Lemma channel_value hex sh : channel hex sh = Z.land (Z.shiftr hex sh) 0xFF * 257.
Proof.
  unfold channel. apply uwrap_id. pose proof (byte_index (Z.shiftr hex sh)). lia.
Qed.

Lemma rgb_parts r g b : 0 <= r < 256 -> 0 <= g < 256 -> 0 <= b < 256 ->
  GetRValue (RGB r g b) = r /\ GetGValue (RGB r g b) = g /\ GetBValue (RGB r g b) = b.
Proof.
  intros Hr Hg Hb. unfold RGB.
  replace (Z.shiftl b 16) with (Z.shiftl (Z.shiftl b 8) 8) by (by rewrite Z.shiftl_shiftl by lia).
  rewrite <- Z.shiftl_lor. rewrite <- (add_lor 8) by lia.
  rewrite <- (add_lor 8 g b) by lia. unfold GetRValue, GetGValue, GetBValue.
  rewrite !(Z.land_ones _ 8) by lia. rewrite !Z.shiftr_div_pow2 by lia.
  change (2 ^ 8) with 256. change (2 ^ 16) with 65536. repeat split; dlia.
Qed.

(** The two backends exchange red and blue: a colour 0xRRGGBB has on Win32 the blue part of X11's as its
    red and the red part as its blue; they paint the same only when the two are equal. *)
Theorem backends_swap_colours hex :
  let c := lpp_hex_to_colorref hex in
  channel hex 16 = 257 * GetBValue c /\ channel hex 8 = 257 * GetGValue c /\ channel hex 0 = 257 * GetRValue c /\
  (channel hex 16 = 257 * GetRValue c <-> Z.land hex 0xFF = Z.land (Z.shiftr hex 16) 0xFF).
Proof.
  cbv zeta. unfold lpp_hex_to_colorref.
  destruct (rgb_parts (Z.land hex 0xFF) (Z.land (Z.shiftr hex 8) 0xFF) (Z.land (Z.shiftr hex 16) 0xFF)) as (-> & -> & ->);
    [apply byte_index..|]. rewrite !channel_value, Z.shiftr_0_r. lia.
Qed.

(** ** The interface of the raylib layer *)

(** What is closed stays closed. *)
Definition stays (t t' : list LppWin32Window) : Prop :=
  forall i w, t !! i = Some w -> opened w = 0 -> exists w', t' !! i = Some w' /\ opened w' = 0.
Lemma stays_refl t : stays t t.
Proof. intros i w ? ?. eauto. Qed.
Lemma stays_trans t1 t2 t3 : stays t1 t2 -> stays t2 t3 -> stays t1 t3.
Proof. intros H12 H23 i w Hi Ho. destruct (H12 i w Hi Ho) as (w' & Hi' & Ho'). by apply (H23 i w'). Qed.
Lemma stays_put t i w w' : t !! i = Some w -> (opened w = 0 -> opened w' = 0) -> stays t (<[i := w']> t).
Proof.
  intros Hi Hk j x Hj Ho. destruct (decide (j = i)) as [->|Hne].
  - simplify_eq. exists w'. split; [|by apply Hk]. apply list_lookup_insert_eq. by eapply lookup_lt_Some.
  - exists x. by rewrite list_lookup_insert_ne.
Qed.

Lemma on_size_stays g h nw nh : win_inv g ->
  match on_size g h nw nh with Ok g' => stays (g_windows g) (g_windows g') | _ => True end.
Proof.
  intros (_ & _ & (Hl & _) & _). unfold on_size. split_test; [apply stays_refl|].
  destruct (slot_of_hwnd g h) as [i|] eqn:Ei; [|apply stays_refl].
  destruct (find_slot_ok _ _ _ _ Ei) as (n & w & -> & Hw & _). rewrite Z.add_0_l.
  assert (Hlt := lookup_lt_Some _ _ _ Hw).
  rewrite (rd_ok _ _ w) by (lia || by rewrite Nat2Z.id). cbn [obind]. split_test; [apply stays_refl|].
  destruct (make (os g) (Bitmap nw nh)) as [b s1]. destruct (b =? 0); [apply stays_refl|].
  destruct (CreateCompatibleDC s1) as [tmp s2]. destruct (SelectObject s2 tmp b) as [o1 s3].
  destruct (SelectObject _ (mem_dc w) b) as [o2 s4]. rewrite wr_ok by lia. cbn. rewrite Nat2Z.id. by eapply stays_put.
Qed.

Lemma wndproc_stays g h m : win_inv g ->
  match lpp_gui_wndproc g h m with Ok g' => stays (g_windows g) (g_windows g') | _ => True end.
Proof.
  intros Hinv. pose proof Hinv as (_ & _ & (Hl & _) & _).
  assert (Hkey : forall k v, match on_key g k v with Ok g' => stays (g_windows g) (g_windows g') | _ => True end).
  { intros k v. unfold on_key. split_test; [|apply stays_refl]. destruct (wr _ _ _); cbn; try done; apply stays_refl. }
  assert (Hbut : forall b d, match on_button g b d with Ok g' => stays (g_windows g) (g_windows g') | _ => True end).
  { intros b d. unfold on_button. destruct (wr _ b _); cbn; try done. destruct d; cbn; destruct (wr _ b _); cbn; try done; apply stays_refl. }
  destruct m; cbn [lpp_gui_wndproc]; try apply stays_refl; try apply Hkey; try apply Hbut.
  - destruct (find_slot _ 0 (g_windows g)) as [i|]; [|apply stays_refl]. destruct (rd _ _); cbn [obind]; try done.
    destruct (chk32 _); cbn [obind]; try done. destruct (chk32 _); cbn [obind]; try done. destruct (_ && _); apply stays_refl.
  - destruct minimized; [apply stays_refl|by apply on_size_stays].
  - destruct (char_arrives _ _); cbn; try done; apply stays_refl.
  - unfold slot_of_hwnd. destruct (find_slot _ 0 (g_windows g)) as [i|] eqn:E; [|apply stays_refl].
    destruct (find_slot_ok _ _ _ _ E) as (n & w & -> & Hw & _). rewrite Z.add_0_l. assert (Hlt := lookup_lt_Some _ _ _ Hw).
    rewrite (close_slot_exact g (Z.of_nat n) w) by (lia || by rewrite Nat2Z.id). rewrite Nat2Z.id. cbv zeta.
    assert (Hp : stays (g_windows g) (<[n:=set_hwnd (set_opened w 0) 0]> (g_windows g))) by by eapply stays_put.
    destruct (hwnd w =? 0); [done|]. unfold DestroyWindow. destruct (objs _ !! _) as [[]|]; try done.
    unfold on_destroy. by destruct (existsb _ _).
  - unfold on_destroy. destruct (existsb _ _); apply stays_refl.
Qed.

Lemma pump_stays ms : forall g, win_inv g -> Forall (fun m => msg_ok m.2) ms ->
  wp (pump g ms) (fun g' => stays (g_windows g) (g_windows g')).
Proof.
  induction ms as [|[h m] ms IH]; intros g Hinv Hms; cbn [pump]; [apply stays_refl|]. inversion Hms as [|? ? Hm Hms']; subst.
  apply wp_bind. unfold dispatch. destruct (objs (os g) !! _) as [[]|] eqn:E; try by apply IH.
  pose proof (wndproc_stays g h m Hinv) as Hst. cbn [fst snd].
  assert (Hw : wp (lpp_gui_wndproc g h m) win_inv).
  { apply wndproc_inv; [done| |done]. destruct Hinv as (Hs & _). by eapply live_nonzero. }
  destruct (wp_inv _ _ Hw) as (g1 & E1 & Hinv1). rewrite E1 in Hst |- *. cbn.
  eapply wp_mono; [by apply IH|]. intros g2 H2. by eapply stays_trans.
Qed.

#[export] Instance win32_backend : GuiBackend win := {|
  input := g_inputs;
  set_input := set_inputs;
  window_create := lpp_gui_window_create_w;
  window_is_open := lpp_gui_window_is_open_w;
  window_width := lpp_gui_window_width_w;
  window_height := lpp_gui_window_height_w;
  window_poll_events := lpp_gui_window_poll_events_w;
  window_close := lpp_gui_window_close_w;
  clear := lpp_gui_clear_w;
  draw_rect := lpp_gui_draw_rect_w;
  draw_line := lpp_gui_draw_line_w;
  draw_text := lpp_gui_draw_text_w;
  present := lpp_gui_present_w;
  Gui.mouse_x := lpp_gui_mouse_x_w;
  Gui.mouse_y := lpp_gui_mouse_y_w;
  measure_text_width := lpp_gui_measure_text_width_w
|}.

Lemma is_open_w_at g id w : 0 <= id < 8 -> g_windows g !! Z.to_nat id = Some w ->
  lpp_gui_window_is_open_w g id = Ok (b2z (negb (opened w =? 0))).
Proof.
  intros Hid Hw. unfold lpp_gui_window_is_open_w, out_of_range_w, MAX_WINDOWS.
  rewrite Z.geb_leb, (proj2 (Z.ltb_ge _ _)), (proj2 (Z.leb_gt _ _)) by lia. cbn [orb].
  by rewrite (rd_ok _ _ w) by (done || lia).
Qed.

Lemma poll_w_stays g id : win_inv g -> lpp_gui_window_is_open_w g id = Ok 0 ->
  wp (lpp_gui_window_poll_events_w g id) (fun '(_, g') => lpp_gui_window_is_open_w g' id = Ok 0).
Proof.
  intros Hinv Hz. unfold lpp_gui_window_poll_events_w. destruct (out_of_range_w id) eqn:Er; [done|].
  pose proof Hinv as (Hs & Hf & Ht & Hi & Hq). pose proof Ht as (Hl & _).
  unfold out_of_range_w, MAX_WINDOWS in Er. bool_to_prop.
  destruct (lookup_lt_is_Some_2 (g_windows g) (Z.to_nat id)) as [w Hw]; [lia|].
  rewrite (is_open_w_at g id w) in Hz by done. assert (Ho : opened w = 0) by (destruct (opened w =? 0) eqn:E; bool_to_prop; [done|by cbn in Hz]).
  set (g1 := set_os g _). assert (Hinv1 : win_inv g1) by by split; [|split; [|split; [|split]]].
  destruct (wp_inv _ _ (pump_stays (queue (os g)) g1 Hinv1 Hq)) as (g2 & E2 & Hst). rewrite E2. cbn [obind].
  destruct (Hst _ _ Hw Ho) as (w' & Hw' & Ho'). destruct (quit (os g2)); cbn [wp].
  - rewrite (is_open_w_at _ id (set_opened w' 0)); [done|done|]. cbn. by rewrite list_lookup_fmap, Hw'.
  - rewrite (rd_ok _ _ w') by (done || lia). cbn. by rewrite (is_open_w_at g2 id w'), Ho' by done.
Qed.

#[export] Instance win32_laws : GuiLaws win win_inv.
Proof.
  split; cbn.
  - done.
  - intros g i Hinv E1 E2 E3 E4 E5 E6 E7. apply inv_inputs; [done|]. destruct Hinv as (_ & _ & _ & (Hk & Hqu & Hd & Hp & Hr) & _).
    split; [by rewrite E1|]. unfold queue_ok in *. rewrite E5, E6, E7, E4, E2, E3. done.
  - by intros g (_ & _ & _ & (? & _) & _).
  - by intros g (_ & _ & _ & (_ & _ & _ & ? & ?) & _).
  - intros. by apply create_w_ok.
  - intros g id Hinv. pose proof Hinv as (_ & _ & (Hl & Hf & _) & _). unfold lpp_gui_window_is_open_w.
    destruct (out_of_range_w id) eqn:Er; [by split; [left|]|]. unfold out_of_range_w, MAX_WINDOWS in Er. bool_to_prop.
    destruct (lookup_lt_is_Some_2 (g_windows g) (Z.to_nat id)) as [w Hw]; [lia|].
    rewrite (rd_ok _ _ w) by (done || lia). cbn. split; [|done]. destruct (opened w =? 0); auto.
  - intros g id Hinv. destruct (wp_inv _ _ (poll_w_ok g id Hinv)) as ([r g'] & E & Hg'). rewrite E. cbn. split; [done|].
    intros Hz. pose proof (poll_w_stays g id Hinv Hz) as Hp. by rewrite E in Hp.
  - intros. by apply close_w_ok.
  - intros g id Hinv. assert (Hi : forall f, (forall w, match f w with Ok g' => g_inputs g' = g_inputs g | _ => True end) ->
      match on_open g id f with Ok g' => g_inputs g' = g_inputs g | _ => True end).
    { intros f Hf. unfold on_open. destruct (open_w g id) as [[w|]| | |]; cbn; try done. apply Hf. }
    pose proof (within_wp _ _ _ (draw_call_ok g (WPresent id) Hinv I) I) as Hw. cbn in Hw.
    specialize (Hi (fun w => Ok (set_os g (paint (os g) (BitBlt (hdc w) 0 0 (wwidth w) (wheight w) (mem_dc w) 0 0)))) ltac:(done)).
    unfold lpp_gui_present_w in *. destruct (wp_inv _ _ Hw) as (g' & E & Hg' & _). by rewrite E in Hi |- *.
  - intros g id c Hinv. pose proof (within_wp _ _ _ (draw_call_ok g (WClear id c) Hinv I) I) as Hw. cbn in Hw.
    destruct (wp_inv _ _ Hw) as (g' & E & Hg' & _). rewrite E. cbn. split; [done|].
    unfold lpp_gui_clear_w, on_open in E. destruct (open_w g id) as [[w|]| | |]; cbn in E; simplify_eq; [|done].
    destruct (wr _ _ _); cbn in E; by simplify_eq.
Qed.
End win32.

(** ** An instance: handles count up, everything is granted *)

Definition given : gset Z := {[0; 1; 2; 3; 4]}.
#[export] Instance demo_win : WinSystem := {|
  new_handle s _ := fresh (given ∪ dom (objs s) : gset Z);
  stock_bitmap := 1; stock_font := 2; stock_brush := 3; stock_pen := 4;
  get_dc _ h := 1000 + Z.abs h;
  class_registers := true;
  greetings _ _ := [];
  text_extent _ _ text := Some (7 * Z.of_nat (length text));
  cursor _ _ := (10, 20);
  left_button _ := 0
|}.

Lemma demo_handle s o : new_handle s o ∉ given /\ objs s !! new_handle s o = None.
Proof.
  cbn. pose proof (is_fresh (given ∪ dom (objs s) : gset Z)) as Hf. apply not_elem_of_union in Hf as [H1 H2].
  split; [done|by apply not_elem_of_dom].
Qed.

#[export] Instance demo_win_laws : WinLaws.
Proof.
  split.
  - intros s o _. apply demo_handle.
  - intros s o. destruct (demo_handle s o) as [Hg _]. cbn [stock_bitmap stock_font stock_brush stock_pen demo_win].
    repeat split; intros E; rewrite E in Hg; apply Hg; vm_compute; done.
  - by repeat split.
  - cbn. repeat constructor; set_solver.
  - intros s h. constructor.
Qed.

Lemma demo_grants s o : new_handle s o <> 0.
Proof. intros E. destruct (demo_handle s o) as [Hg _]. rewrite E in Hg. apply Hg. vm_compute. done. Qed.
Lemma demo_dc s h : get_dc s h <> 0.
Proof. cbn. lia. Qed.

Lemma win32_windows_live_witness :
  let cs := [WCreate None 640 480; WPost 5 (WM_SIZE false 800 600); WPost 5 (WM_PAINT 0 0 800 600); WPoll 0;
    WCircle 0 50 50 10 0xFF; WCreate None 10 10; WClose 0] in
  (Forall posts_ok cs /\ Forall wcall_fits cs) /\
  wp (run_w win0 cs) (fun g => forall c, draws c -> within (wcall_fits c) (run_wcall g c) (fun g' => objs (os g') = objs (os g))) /\
  run_w win0 [WCreate None 640 480; WRect 0 INT64_MAX 0 1 1 0] = Undef.
Proof.
  intros cs. assert (Hcs : Forall posts_ok cs) by (repeat constructor; vm_compute; intros [=]).
  assert (Hf : Forall wcall_fits cs) by (repeat constructor; vm_compute; intros [=]).
  split; [exact (conj Hcs Hf)|]. split; [|vm_compute; reflexivity].
  eapply wp_mono; [apply (within_wp _ _ _ (win32_windows_live cs Hcs) Hf)|]. intros g [_ Hd]. exact Hd.
Defined.

Lemma win32_close_leaks_witness : wp (rounds 4 win0) (fun g => all_closed g /\ objects g = 12%nat).
Proof. apply (win32_close_leaks demo_grants demo_dc eq_refl (fun _ _ => eq_refl) 4). Defined.
