(* ===== verification/FreeMap.v ===== *)
(** * The freestanding hash map (runtime/linux_x86_64_min.c)

    The runtime of statically linked programs has its own copy of the map, without the C
    library: string keys are compared by [lpp_map_key_equal], tables are page-rounded [mmap]
    regions that must be unmapped with the size they were mapped with, and running out of
    memory exits with status 101.  The definitions carry the suffix [_fs].  The theorem shows
    that this copy computes exactly what the hosted map does. *)

From stdpp Require Import gmap.
From S2P Require Import Prelude ListRt HashMap.

(** [LppMap] with the length its table was mapped with. *)
Record LppMap_fs := mk_fs { fs_m : LppMap; entries_map_size : Z }.

Inductive vm_ev : Type :=
| Mmap (n : Z)
| Munmap (n : Z).

Definition lpp_page_round (size : Z) : Z := Z.land (u64 (u64 (size + 4096) - 1)) (u64 (Z.lnot 4095)).

(** [(uint64_t)cap * sizeof(LppMapEntry)], rounded. *)
Definition table_size (cap : Z) : Z := lpp_page_round (u64 (u64 cap * 24)).

Definition exit_101 {A} : outcome A := Panic "exit 101".

(** The loop of [lpp_map_key_equal]; its index is an [int]. *)
Fixpoint key_equal_loop (i : Z) (s1 s2 : cstr) : outcome bool :=
  match s1, s2 with
  | c :: s1, d :: s2 =>
      if c =? d then let! i := chk32 (i + 1) in key_equal_loop i s1 s2 else Ok false
  | [], [] => Ok true
  | _, _ => Ok false
  end.

Section fs.
Context (mem : Z -> option cstr) (mm : Z -> bool).

(** Pointers are compared as addresses first; strings are only looked for above the start of
    the program image. *)
Definition lpp_map_key_equal (k1 k2 : Z) : outcome bool :=
  if k1 =? k2 then Ok true
  else if (k1 >=? 0x400000) && (k2 >=? 0x400000) then
    match mem k1, mem k2 with Some s1, Some s2 => key_equal_loop 0 s1 s2 | _, _ => Undef end
  else Ok false.

Definition hit_str_fs (p : Z) (e : LppMapEntry) : outcome bool :=
  if (occupied e =? 1) && (is_str_key e =? 1) then lpp_map_key_equal (key e) p else Ok false.
Definition hit_put_fs (is_str k : Z) (e : LppMapEntry) : outcome bool :=
  if (occupied e =? 1) && (is_str_key e =? is_str) then
    if negb (is_str =? 0) then lpp_map_key_equal (key e) k else Ok (key e =? k)
  else Ok false.

(** [if (entries) lpp_sys_munmap(entries, size)]: the table pointer is NULL once the map is
    destroyed. *)
Definition unmap_table (m : LppMap_fs) : list vm_ev :=
  match entries (fs_m m) with [] => [] | _ => [Munmap (entries_map_size m)] end.

Definition lpp_map_destroy_fs (m : LppMap_fs) : LppMap_fs * list arc_ev * list vm_ev :=
  (mk_fs (mk_map [] 0 0 (arc_values (fs_m m))) (entries_map_size m),
   if arc_values (fs_m m) then release_values (entries (fs_m m)) else [],
   unmap_table m).

Definition lpp_map_new_with_mode_fs (object_ok arc : bool) : outcome (option LppMap_fs * list vm_ev) :=
  if object_ok then
    let size := table_size 16 in
    if mm size then Ok (Some (mk_fs (mk_map (replicate 16 empty_entry) 16 0 arc) size), [Mmap size])
    else exit_101
  else Ok (None, []).
Definition lpp_map_new_fs (object_ok : bool) := lpp_map_new_with_mode_fs object_ok false.
Definition lpp_map_new_arc_fs (object_ok : bool) := lpp_map_new_with_mode_fs object_ok true.

Definition lpp_map_rehash_fs (m : LppMap_fs) (new_cap : Z) : outcome (LppMap_fs * list vm_ev) :=
  let size := table_size new_cap in
  if mm size then
    let! '(es, n) := reinsert_all mem new_cap (entries (fs_m m)) (replicate (Z.to_nat new_cap) empty_entry, 0) in
    Ok (mk_fs (mk_map es new_cap n (arc_values (fs_m m))) size, Mmap size :: unmap_table m)
  else exit_101.

Definition make_room_fs (m : LppMap_fs) : outcome (LppMap_fs * list vm_ev) :=
  let! used10 := chk64 (count_used (entries (fs_m m)) * 10) in
  let! cap7 := chk64 (mcap (fs_m m) * 7) in
  if used10 >=? cap7 then
    let! len100 := chk64 (mlen (fs_m m) * 100) in
    let! cap35 := chk64 (mcap (fs_m m) * 35) in
    let! new_cap := (if len100 <? cap35 then Ok (mcap (fs_m m)) else chk64 (mcap (fs_m m) * 2)) in
    let new_cap := if new_cap <? 16 then 16 else new_cap in
    lpp_map_rehash_fs m new_cap
  else Ok (m, []).

Definition set_entries (m : LppMap) (es : list LppMapEntry) (n : Z) : LppMap := mk_map es (mcap m) n (arc_values m).

Definition lpp_map_put_internal_fs (mp : option LppMap_fs) (k v is_str : Z)
  : outcome (option LppMap_fs * list arc_ev * list vm_ev) :=
  match mp with
  | None => Ok (None, [], [])
  | Some m =>
      let! '(mf, vm) := make_room_fs m in
      let m := fs_m mf in
      let! h := hash_key mem is_str k in
      let! slot := put_slot (hit_put_fs is_str k) (S (length (entries m))) (entries m) (mcap m)
                     (h mod mcap m) (-1) in
      match slot with
      | inl idx =>
          let! e := rd (entries m) idx in
          let ev := if arc_values m then [Retain v; Release (val e)] else [] in
          let! es := wr (entries m) idx (mk_entry (key e) v (is_str_key e) (occupied e)) in
          Ok (Some (mk_fs (set_entries m es (mlen m)) (entries_map_size mf)), ev, vm)
      | inr (idx, first_tombstone) =>
          let idx := if negb (first_tombstone =? -1) then first_tombstone else idx in
          let ev := if arc_values m then [Retain v] else [] in
          let! es := wr (entries m) idx (mk_entry k v is_str 1) in
          Ok (Some (mk_fs (set_entries m es (mlen m + 1)) (entries_map_size mf)), ev, vm)
      end
  end.
Definition lpp_map_put_fs (mp : option LppMap_fs) (k v : Z) := lpp_map_put_internal_fs mp k v 0.
Definition lpp_map_put_str_fs (mp : option LppMap_fs) (p v : Z) := lpp_map_put_internal_fs mp p v 1.

Definition find_str_fs (m : LppMap) (p : Z) : outcome (option Z) :=
  let! h := lpp_hash_str mem p in
  let idx := h mod mcap m in
  find_slot (hit_str_fs p) (S (length (entries m))) (entries m) (mcap m) idx idx.

Definition lpp_map_get_fs (mp : option LppMap_fs) (k : Z) : outcome Z :=
  match mp with
  | None => Ok 0
  | Some m => if mlen (fs_m m) =? 0 then Ok 0 else let! s := find_int (fs_m m) k in val_at (fs_m m) s
  end.
Definition lpp_map_get_str_fs (mp : option LppMap_fs) (p : Z) : outcome Z :=
  match mp with
  | None => Ok 0
  | Some m => if (p =? 0) || (mlen (fs_m m) =? 0) then Ok 0 else let! s := find_str_fs (fs_m m) p in val_at (fs_m m) s
  end.
Definition lpp_map_has_fs (mp : option LppMap_fs) (k : Z) : outcome Z :=
  match mp with
  | None => Ok 0
  | Some m => if mlen (fs_m m) =? 0 then Ok 0 else let! s := find_int (fs_m m) k in Ok (found s)
  end.
Definition lpp_map_has_str_fs (mp : option LppMap_fs) (p : Z) : outcome Z :=
  match mp with
  | None => Ok 0
  | Some m => if (p =? 0) || (mlen (fs_m m) =? 0) then Ok 0 else let! s := find_str_fs (fs_m m) p in Ok (found s)
  end.
Definition lpp_map_len_fs (mp : option LppMap_fs) : Z := match mp with Some m => mlen (fs_m m) | None => 0 end.

Definition with_map (m : LppMap_fs) (m' : LppMap) : LppMap_fs := mk_fs m' (entries_map_size m).

Definition lpp_map_remove_fs (mp : option LppMap_fs) (k : Z) : outcome (option LppMap_fs * list arc_ev) :=
  match mp with
  | None => Ok (None, [])
  | Some m =>
      if mlen (fs_m m) =? 0 then Ok (Some m, [])
      else let! s := find_int (fs_m m) k in let! '(m', ev) := remove_at (fs_m m) s in Ok (Some (with_map m m'), ev)
  end.
Definition lpp_map_remove_str_fs (mp : option LppMap_fs) (p : Z) : outcome (option LppMap_fs * list arc_ev) :=
  match mp with
  | None => Ok (None, [])
  | Some m =>
      if (p =? 0) || (mlen (fs_m m) =? 0) then Ok (Some m, [])
      else let! s := find_str_fs (fs_m m) p in let! '(m', ev) := remove_at (fs_m m) s in Ok (Some (with_map m m'), ev)
  end.

(** Floats are stored as their bit patterns, copied byte by byte. *)
Definition lpp_map_put_float_fs (mp : option LppMap_fs) (k bits : Z) := lpp_map_put_fs mp k (i64 bits).
Definition lpp_map_get_float_fs (mp : option LppMap_fs) (k : Z) : outcome Z :=
  let! v := lpp_map_get_fs mp k in Ok (u64 v).
Definition lpp_map_put_str_float_fs (mp : option LppMap_fs) (p bits : Z) := lpp_map_put_str_fs mp p (i64 bits).
Definition lpp_map_get_str_float_fs (mp : option LppMap_fs) (p : Z) : outcome Z :=
  let! v := lpp_map_get_str_fs mp p in Ok (u64 v).

(** The operations of the hosted map that this runtime has ([lpp_map_clear] is not one). *)
Definition result_fs (m : outcome (option LppMap_fs * list arc_ev * list vm_ev))
  : outcome (LppMap_fs * Z * list arc_ev * list vm_ev) :=
  let! '(o, ev, vm) := m in match o with Some m => Ok (m, 0, ev, vm) | None => Undef end.
Definition quiet_fs (m : outcome (option LppMap_fs * list arc_ev)) : outcome (option LppMap_fs * list arc_ev * list vm_ev) :=
  let! '(o, ev) := m in Ok (o, ev, []).

Definition map_step_fs (op : map_op) (m : LppMap_fs) : outcome (LppMap_fs * Z * list arc_ev * list vm_ev) :=
  match op with
  | MPut (CInt k) v => result_fs (lpp_map_put_fs (Some m) k v)
  | MPut (CStr p) v => result_fs (lpp_map_put_str_fs (Some m) p v)
  | MRemove (CInt k) => result_fs (quiet_fs (lpp_map_remove_fs (Some m) k))
  | MRemove (CStr p) => result_fs (quiet_fs (lpp_map_remove_str_fs (Some m) p))
  | MClear => Undef
  | MGet (CInt k) => let! v := lpp_map_get_fs (Some m) k in Ok (m, v, [], [])
  | MGet (CStr p) => let! v := lpp_map_get_str_fs (Some m) p in Ok (m, v, [], [])
  | MHas (CInt k) => let! v := lpp_map_has_fs (Some m) k in Ok (m, v, [], [])
  | MHas (CStr p) => let! v := lpp_map_has_str_fs (Some m) p in Ok (m, v, [], [])
  | MLen => Ok (m, lpp_map_len_fs (Some m), [], [])
  end.
End fs.

(** ** Agreement with the hosted map *)

(** Two outcomes agree: results related, both panic, or both undefined. *)
Definition agrees {A B} (R : A -> B -> Prop) (o : outcome A) (o' : outcome B) : Prop :=
  match o, o' with
  | Ok a, Ok b => R a b
  | Panic _, Panic _ | Undef, Undef | NoFuel, NoFuel => True
  | _, _ => False
  end.

Lemma agrees_refl {A} (o : outcome A) : agrees eq o o.
Proof. by destruct o. Qed.

Lemma agrees_bind {A B C D} (R : A -> B -> Prop) (S : C -> D -> Prop) o o' f g :
  agrees R o o' -> (forall a b, R a b -> agrees S (f a) (g b)) -> agrees S (obind o f) (obind o' g).
Proof. intros H Hf. destruct o, o'; try done. by apply Hf. Qed.

Section agree.
Context (mem : Z -> option cstr) (mm : Z -> bool) (al : allocation).
(** Strings live above the start of the program image and are shorter than 2^31 bytes. *)
Context (Hhigh : forall p s, mem p = Some s -> 0x400000 <= p /\ Z.of_nat (length s) < 2 ^ 31).
(** The hosted allocator serves the requests [mmap] serves here. *)
Context (Hal : forall n, 0 <= n < 2 ^ 63 -> granted al n = mm (lpp_page_round n)).

Lemma key_equal_loop_eq s : forall i t, 0 <= i -> i + Z.of_nat (length s) < 2 ^ 31 -> key_equal_loop i s t = Ok (bool_decide (s = t)).
Proof.
  induction s as [|c s IH]; intros i [|d t] Hi Hl; cbn [key_equal_loop length] in *; try done.
  destruct (Z.eqb_spec c d) as [->|Hne]; [|rewrite bool_decide_eq_false_2 by congruence; done].
  unfold chk32. rewrite (proj2 (Z.leb_le _ _)), (proj2 (Z.ltb_lt _ _)) by lia. cbn [andb obind]. rewrite IH by lia. f_equal. apply bool_decide_ext. split; congruence.
Qed.

Lemma key_equal_str p q : is_Some (mem p) -> is_Some (mem q) -> lpp_map_key_equal mem p q = str_eq mem p q.
Proof.
  intros [s Hs] [t Ht]. unfold lpp_map_key_equal, str_eq. rewrite Hs, Ht. destruct (Z.eqb_spec p q) as [->|].
  - rewrite Hs in Ht. injection Ht as ->. by rewrite bool_decide_eq_true_2.
  - destruct (Hhigh p s Hs). destruct (Hhigh q t Ht). rewrite !Z.geb_leb, !(proj2 (Z.leb_le _ _)) by lia. cbn [andb].
    by rewrite key_equal_loop_eq by lia.
Qed.

Lemma live_key e : entry_ok mem e -> occupied e = 1 -> is_str_key e = 1 -> is_Some (mem (key e)).
Proof.
  intros [_ H] Ho Hs. destruct (H Ho) as [_ [K HK]]. rewrite Hs in HK. unfold akey in HK. cbn in HK.
  destruct (mem (key e)); [eauto|done].
Qed.

Lemma hit_put_agree is_str k e : entry_ok mem e -> is_str = 0 \/ is_str = 1 -> is_Some (akey mem is_str k) ->
  hit_put_fs mem is_str k e = hit_put mem is_str k e.
Proof.
  intros He Hs HK. unfold hit_put_fs, hit_put. destruct (Z.eqb_spec (occupied e) 1) as [Ho|]; [|done].
  destruct (Z.eqb_spec (is_str_key e) is_str) as [Hi|]; [|done]. cbn [andb]. destruct Hs as [->| ->]; [done|].
  change (negb (1 =? 0)) with true. cbn iota. apply key_equal_str; [by apply live_key|].
  unfold akey in HK. cbn in HK. destruct (mem k); [eauto|by destruct HK].
Qed.

Lemma find_slot_ext hit hit' f : forall es cap idx start, Forall (fun e => hit e = hit' e) es ->
  find_slot hit f es cap idx start = find_slot hit' f es cap idx start.
Proof.
  induction f as [|f IH]; intros es cap idx start Hall; [done|]. cbn [find_slot]. unfold rd.
  destruct (idx <? 0); [done|]. destruct (es !! Z.to_nat idx) as [e|] eqn:E; [|done]. cbn [obind].
  destruct (occupied e =? 0); [done|]. rewrite Forall_lookup in Hall. rewrite (Hall _ _ E).
  destruct (hit' e) as [[]| | |]; try done. cbn [obind]. destruct (_ =? start); [done|]. apply IH. by apply Forall_lookup.
Qed.

Lemma put_slot_ext hit hit' f : forall es cap idx ft, Forall (fun e => hit e = hit' e) es ->
  put_slot hit f es cap idx ft = put_slot hit' f es cap idx ft.
Proof.
  induction f as [|f IH]; intros es cap idx ft Hall; [done|]. cbn [put_slot]. unfold rd.
  destruct (idx <? 0); [done|]. destruct (es !! Z.to_nat idx) as [e|] eqn:E; [|done]. cbn [obind].
  destruct (occupied e =? 0); [done|]. rewrite Forall_lookup in Hall. rewrite (Hall _ _ E).
  destruct (hit' e) as [[]| | |]; try done. cbn [obind]. apply IH. by apply Forall_lookup.
Qed.

(** How one call relates to the hosted one: same outcome, the table's recorded size is its
    size, and a new table replaces the old one, which is unmapped with its own size. *)
Definition sized (m : LppMap_fs) : Prop := entries_map_size m = table_size (mcap (fs_m m)).
Definition remapped (vm : list vm_ev) (m m' : LppMap_fs) : Prop :=
  (vm = [] /\ entries_map_size m' = entries_map_size m) \/
  vm = [Mmap (entries_map_size m'); Munmap (entries_map_size m)].

Lemma table_size_cap cap : 0 <= cap < 2 ^ 58 -> table_size cap = lpp_page_round (cap * 24) /\ 0 <= cap * 24 < 2 ^ 63.
Proof.
  intros Hc. change (2 ^ 58) with 288230376151711744 in Hc. unfold table_size.
  rewrite (u64_id cap), u64_id by (pow2; lia). split; [done|pow2; lia].
Qed.

(** The map part of a freestanding result. *)
Definition same_map (m : LppMap_fs) (m' : LppMap) (r : LppMap_fs * list vm_ev) : Prop :=
  fs_m r.1 = m' /\ sized r.1 /\ remapped r.2 m r.1.

Lemma unmap_live m : map_wf mem (fs_m m) -> unmap_table m = [Munmap (entries_map_size m)].
Proof.
  intros Hm. pose proof (m_cap _ _ Hm). pose proof (t_len _ _ _ (m_table _ _ Hm)). unfold unmap_table.
  destruct (entries (fs_m m)); [cbn in *; lia|done].
Qed.

Lemma rehash_agree m cap : map_wf mem (fs_m m) -> 0 <= cap < 2 ^ 58 ->
  agrees (same_map m) (lpp_map_rehash mem al (fs_m m) cap) (lpp_map_rehash_fs mem mm m cap).
Proof.
  intros Hm Hc. unfold lpp_map_rehash, lpp_map_rehash_fs. destruct (table_size_cap cap Hc) as [Ht Hr]. rewrite Hal, <- Ht by done.
  destruct (mm (table_size cap)); [|done]. apply (agrees_bind eq); [apply agrees_refl|]. intros [es n] ? <-.
  rewrite unmap_live by done. split_and!; [done|done|by right].
Qed.

Lemma make_room_agree m : sized m -> map_wf mem (fs_m m) ->
  agrees (same_map m) (make_room mem al (fs_m m)) (make_room_fs mem mm m).
Proof.
  intros Hs Hm. unfold make_room, make_room_fs.
  do 2 (apply (agrees_bind eq); [apply agrees_refl|]; intros ? ? <-).
  destruct (_ >=? _); [|split_and!; [done|done|by left]].
  do 2 (apply (agrees_bind eq); [apply agrees_refl|]; intros ? ? <-).
  pose proof (m_cap _ _ Hm) as Hcap. change (2 ^ 53) with 9007199254740992 in Hcap.
  eapply (agrees_bind (fun a b => a = b /\ 0 <= a <= 2 * mcap (fs_m m))).
  { destruct (_ <? _); [cbn; split; [done|lia]|]. unfold chk64. destruct (is_i64 _); [|done]. cbn. split; [done|lia]. }
  intros c ? [<- Hc]. apply rehash_agree; [done|]. change (2 ^ 58) with 288230376151711744. destruct (c <? 16); lia.
Qed.

Definition same_put (m : LppMap_fs) (a : option LppMap * list arc_ev) (b : option LppMap_fs * list arc_ev * list vm_ev) : Prop :=
  exists m', b.1.1 = Some m' /\ a.1 = Some (fs_m m') /\ a.2 = b.1.2 /\ sized m' /\ remapped b.2 m m'.

Lemma entries_ok m : map_wf mem m -> Forall (entry_ok mem) (entries m).
Proof. intros [Ht _ _ _]. apply (t_ok _ _ _ Ht). Qed.

Lemma put_agree m k v is_str `{!AddrSpace al} : mem 0 = None -> sized m -> map_wf mem (fs_m m) ->
  is_str = 0 \/ is_str = 1 -> is_Some (akey mem is_str k) ->
  agrees (same_put m) (lpp_map_put_internal mem al (Some (fs_m m)) k v is_str) (lpp_map_put_internal_fs mem mm (Some m) k v is_str).
Proof.
  intros Hnull Hs Hm Hi HK. unfold lpp_map_put_internal, lpp_map_put_internal_fs.
  eapply (agrees_bind (fun a b => same_map m a b /\ map_wf mem a)).
  { pose proof (make_room_agree m Hs Hm) as Ha. destruct (make_room_spec mem Hnull al (fs_m m) Hm) as [Hyes Hno].
    destruct (map_served al (MPut (CInt 0) 0) (fs_m m)).
    - specialize (Hyes eq_refl). destruct (make_room mem al (fs_m m)); [|done..].
      destruct (make_room_fs mem mm m); [|done..]. split; [exact Ha|]. by destruct Hyes.
    - destruct (Hno eq_refl) as [msg Hp]. rewrite Hp in *. by destruct (make_room_fs mem mm m). }
  intros m1 [mf vm] [(<- & Hsz & Hrm) Hm1]. cbn [fst snd] in *.
  apply (agrees_bind eq); [apply agrees_refl|]. intros h ? <-.
  rewrite (put_slot_ext (hit_put_fs mem is_str k) (hit_put mem is_str k)).
  2: { eapply Forall_weaken; [by apply entries_ok|]. intros e He. by apply hit_put_agree. }
  apply (agrees_bind eq); [apply agrees_refl|]. intros slot ? <-. destruct slot as [idx|[idx ft]].
  - do 2 (apply (agrees_bind eq); [apply agrees_refl|]; intros ? ? <-). eexists. split; [done|]. done.
  - apply (agrees_bind eq); [apply agrees_refl|]. intros ? ? <-. eexists. split; [done|]. done.
Qed.

Lemma find_str_agree m p : map_wf mem m -> is_Some (mem p) -> find_str_fs mem m p = find_str mem m p.
Proof.
  intros Hm [s Hp]. unfold find_str_fs, find_str. destruct (lpp_hash_str mem p); cbn [obind]; try done.
  apply find_slot_ext. eapply Forall_weaken; [by apply entries_ok|]. intros e He.
  change (hit_put_fs mem 1 p e = hit_put mem 1 p e). apply hit_put_agree; [done|by right|].
  unfold akey. cbn. rewrite Hp. by eexists.
Qed.

Definition same_step (m : LppMap_fs) (a : LppMap * Z * list arc_ev) (b : LppMap_fs * Z * list arc_ev * list vm_ev) : Prop :=
  let '(m1, r1, ev1) := a in let '(m2, r2, ev2, vm) := b in
  m1 = fs_m m2 /\ r1 = r2 /\ ev1 = ev2 /\ sized m2 /\ remapped vm m m2.

Lemma same_put_step m a b : agrees (same_put m) a b -> agrees (same_step m) (map_result a) (result_fs b).
Proof.
  intros H. unfold map_result, result_fs. eapply agrees_bind; [exact H|]. intros [o ev] [[o' ev'] vm] (m' & H1 & H2 & H3 & H4 & H5).
  cbn [fst snd] in *. subst. split_and!; done.
Qed.

Lemma remove_agree m s : sized m ->
  agrees (same_step m) (map_result (let! s := s in let! '(m', ev) := remove_at (fs_m m) s in Ok (Some m', ev)))
    (result_fs (quiet_fs (let! s := s in let! '(m', ev) := remove_at (fs_m m) s in Ok (Some (with_map m m'), ev)))).
Proof.
  intros Hs. destruct s as [s| | |]; try done. cbn [obind]. destruct s as [idx|]; cbn [remove_at]; [|cbn; split_and!; try done; by left].
  destruct (rd (entries (fs_m m)) idx) as [e| | |]; try done. cbn [obind].
  destruct (wr _ _ _) as [es| | |]; try done. cbn. split_and!; try done. by left.
Qed.

Lemma query_agree m a b : sized m -> a = b ->
  agrees (same_step m) (let! v := a in Ok (fs_m m, v, [])) (let! v := b in Ok (m, v, [], [])).
Proof. intros Hs <-. destruct a as [v| | |]; try done. cbn. split_and!; try done. by left. Qed.

Lemma fs_step_agrees `{!AddrSpace al} m op : sized m -> map_wf mem (fs_m m) -> op_live mem op -> op <> MClear ->
  agrees (same_step m) (map_step mem al op (fs_m m)) (map_step_fs mem mm op m).
Proof.
  intros Hs Hm Hop Hc. assert (mem 0 = None) as Hnull.
  { destruct (mem 0) as [s|] eqn:E; [|done]. destruct (Hhigh 0 s E). lia. }
  assert (forall p, is_Some (akey mem 1 p) -> is_Some (mem p)) as Hstr.
  { intros p [K HK]. unfold akey in HK. cbn in HK. destruct (mem p); [eauto|done]. }
  destruct op as [[k|p] v|[k|p]| |[k|p]|[k|p]|]; cbn [map_step map_step_fs]; try done.
  - apply same_put_step. apply put_agree; try done. by left.
  - apply same_put_step. apply put_agree; try done. by right.
  - unfold lpp_map_remove, lpp_map_remove_fs. destruct (mlen (fs_m m) =? 0); [cbn; split_and!; try done; by left|].
    by apply remove_agree.
  - unfold lpp_map_remove_str, lpp_map_remove_str_fs. destruct (_ || _); [cbn; split_and!; try done; by left|].
    rewrite find_str_agree by auto. by apply remove_agree.
  - by apply query_agree.
  - apply query_agree; [done|]. unfold lpp_map_get_str, lpp_map_get_str_fs. destruct (_ || _); [done|]. by rewrite find_str_agree by auto.
  - by apply query_agree.
  - apply query_agree; [done|]. unfold lpp_map_has_str, lpp_map_has_str_fs. destruct (_ || _); [done|]. by rewrite find_str_agree by auto.
  - cbn. split_and!; try done. by left.
Qed.
End agree.

(** ** Whole runs *)

(** Runs a sequence of operations; collects each call's result and reference events, and the
    mappings. *)
Fixpoint run_with {M} (step : map_op -> M -> outcome (M * Z * list arc_ev * list vm_ev)) (ops : list map_op) (m : M)
  : outcome (M * list (Z * list arc_ev) * list vm_ev) :=
  match ops with
  | [] => Ok (m, [], [])
  | op :: ops =>
      let! '(m, r, ev, vm) := step op m in
      let! '(m, rs, vm') := run_with step ops m in
      Ok (m, (r, ev) :: rs, vm ++ vm')
  end.

Definition hosted_step (mem : Z -> option cstr) (al : allocation) (op : map_op) (m : LppMap)
  : outcome (LppMap * Z * list arc_ev * list vm_ev) :=
  let! '(m, r, ev) := map_step mem al op m in Ok (m, r, ev, []).

Definition mapped (vm : list vm_ev) : list Z := omap (fun e => match e with Mmap n => Some n | Munmap _ => None end) vm.
Definition unmapped (vm : list vm_ev) : list Z := omap (fun e => match e with Munmap n => Some n | Mmap _ => None end) vm.

Lemma remapped_balance vm m m' : remapped vm m m' ->
  entries_map_size m :: mapped vm ≡ₚ entries_map_size m' :: unmapped vm.
Proof. intros [[-> ->]| ->]; [done|]. apply Permutation_swap. Qed.

Lemma mapped_app a b : mapped (a ++ b) = mapped a ++ mapped b.
Proof. apply omap_app. Qed.
Lemma unmapped_app a b : unmapped (a ++ b) = unmapped a ++ unmapped b.
Proof. apply omap_app. Qed.

Definition same_run (mem : Z -> option cstr) (m0 : LppMap_fs) (a : LppMap * list (Z * list arc_ev) * list vm_ev)
    (b : LppMap_fs * list (Z * list arc_ev) * list vm_ev) : Prop :=
  let '(m1, rs1, _) := a in let '(m2, rs2, vm) := b in
  m1 = fs_m m2 /\ rs1 = rs2 /\ map_wf mem m1 /\ entries_map_size m0 :: mapped vm ≡ₚ entries_map_size m2 :: unmapped vm.

Lemma runs_agree mem mm al `{!AddrSpace al} ops : (forall p s, mem p = Some s -> 0x400000 <= p /\ Z.of_nat (length s) < 2 ^ 31) ->
  (forall n, 0 <= n < 2 ^ 63 -> granted al n = mm (lpp_page_round n)) -> Forall (fun op => op_live mem op /\ op <> MClear) ops ->
  forall m, sized m -> map_wf mem (fs_m m) ->
  agrees (same_run mem m) (run_with (hosted_step mem al) ops (fs_m m)) (run_with (map_step_fs mem mm) ops m).
Proof.
  intros Hhigh Hal Hops. induction Hops as [|op ops [Hop Hc] _ IH]; intros m Hs Hm; cbn [run_with]; [done|].
  assert (mem 0 = None) as Hnull by (destruct (mem 0) as [s|] eqn:E; [destruct (Hhigh 0 s E); lia|done]).
  eapply (agrees_bind (fun a b => same_step m a.1 b /\ map_wf mem a.1.1.1)).
  { pose proof (fs_step_agrees mem mm al Hhigh Hal m op Hs Hm Hop Hc) as Ha.
    destruct (map_step_spec mem Hnull al op (fs_m m) Hm Hop) as [Hyes Hno]. unfold hosted_step.
    destruct (map_step mem al op (fs_m m)) as [[[m1 r] ev]| | |] eqn:E; destruct (map_step_fs mem mm op m); try done.
    split; [exact Ha|]. destruct (map_served al op (fs_m m)).
    - specialize (Hyes eq_refl). unfold map_runs_as in Hyes. rewrite E in Hyes. by destruct Hyes.
    - by destruct (Hno eq_refl) as [msg ?]. }
  intros [[[m1 r1] ev1] vm1] [[[m2 r2] ev2] vm2] [(-> & -> & -> & Hs2 & Hr2) Hm2]. cbn [fst snd] in Hm2.
  eapply agrees_bind; [by apply IH|]. intros [[m3 rs3] vm3] [[m4 rs4] vm4] (-> & -> & Hw & Hp). cbn. split_and!; [done..|].
  apply remapped_balance in Hr2. rewrite mapped_app, unmapped_app.
  change (entries_map_size m :: mapped vm2 ++ mapped vm4) with ((entries_map_size m :: mapped vm2) ++ mapped vm4).
  rewrite Hr2. cbn [app]. rewrite (Permutation_app_comm (unmapped vm2) (mapped vm4)).
  change (entries_map_size m2 :: mapped vm4 ++ unmapped vm2) with ((entries_map_size m2 :: mapped vm4) ++ unmapped vm2).
  rewrite Hp. cbn [app]. by rewrite (Permutation_app_comm (unmapped vm4)).
Qed.

(** Two equal strings of 2^31 bytes at different addresses: the index overflows. *)
Lemma key_equal_loop_overflow s : forall i, 0 <= i -> 2 ^ 31 <= i + Z.of_nat (length s) -> i < 2 ^ 31 -> key_equal_loop i s s = Undef.
Proof.
  induction s as [|c s IH]; intros i Hi Hl Hlt; cbn [key_equal_loop length] in *; [lia|]. rewrite Z.eqb_refl.
  unfold chk32. rewrite (proj2 (Z.leb_le _ _)) by lia. cbn [andb]. destruct (Z.ltb_spec (i + 1) (2 ^ 31)); [|done]. apply IH; lia.
Qed.

(** C10. The freestanding map is the hosted map.  On any sequence of insertions, removals and
    queries, with readable string keys above the program image that are shorter than 2^31 bytes
    (the comparison counts them with an [int]), the two give the same results,
    retain and release the same references in the same order and hold the same table - or both
    give up (one panics where the other exits with status 101); and over the life of the map,
    from creation to destruction, every table the freestanding runtime maps is unmapped once,
    with the size it was mapped with. *)
Theorem freestanding_map_agrees mem mm al `{!AddrSpace al} arc ops m0 vm0 :
  (forall p s, mem p = Some s -> 0x400000 <= p /\ Z.of_nat (length s) < 2 ^ 31) -> (forall n, 0 <= n < 2 ^ 63 -> granted al n = mm (lpp_page_round n)) ->
  Forall (fun op => op_live mem op /\ op <> MClear) ops ->
  lpp_map_new_with_mode_fs mm true arc = Ok (Some m0, vm0) ->
  lpp_map_new_with_mode al true arc = Ok (Some (fs_m m0)) /\
  agrees (fun a b => a.1.1 = fs_m b.1.1 /\ a.1.2 = b.1.2 /\
      (lpp_map_destroy (fs_m b.1.1)).2 = (lpp_map_destroy_fs b.1.1).1.2 /\
      let vm := vm0 ++ b.2 ++ (lpp_map_destroy_fs b.1.1).2 in mapped vm ≡ₚ unmapped vm)
    (run_with (hosted_step mem al) ops (fs_m m0)) (run_with (map_step_fs mem mm) ops m0).
Proof.
  intros Hhigh Hal Hops Hnew. unfold lpp_map_new_with_mode_fs in Hnew.
  destruct (mm (table_size 16)) eqn:Emm; [|done]. injection Hnew as <- <-.
  assert (lpp_map_new_with_mode al true arc = Ok (Some (mk_map (replicate 16 empty_entry) 16 0 arc))) as Hh.
  { unfold lpp_map_new_with_mode. rewrite Hal by done. change (lpp_page_round (16 * 24)) with (table_size 16). by rewrite Emm. }
  split; [exact Hh|]. set (m0 := mk_fs _ _).
  assert (map_wf mem (fs_m m0)) as Hwf by (by eapply new_map_wf).
  pose proof (runs_agree mem mm al ops Hhigh Hal Hops m0 eq_refl Hwf) as Ha.
  destruct (run_with (hosted_step mem al) ops (fs_m m0)) as [[[m1 rs1] vm1]| | |];
    destruct (run_with (map_step_fs mem mm) ops m0) as [[[m2 rs2] vm2]| | |]; try done.
  destruct Ha as (-> & -> & Hw & Hp). cbn [fst snd]. split; [done|]. split; [done|]. split; [done|]. cbn zeta.
  rewrite !mapped_app, !unmapped_app. cbn [lpp_map_destroy_fs fst snd]. rewrite (unmap_live mem) by done. cbn [mapped unmapped omap list_omap app].
  change (entries_map_size m0) with (table_size 16) in Hp. cbn [app] in *. rewrite app_nil_r.
  rewrite Hp. by rewrite Permutation_app_comm.
Qed.

Definition high_strings (p : Z) : option cstr := if p =? 0x400010 then Some [107; 49] else None.

Definition one_page : allocation := {| granted := fun n => (0 <=? n) && (n <? 2 ^ 63) && (lpp_page_round n <=? 4096); junk := fun _ => 0 |}.

Lemma page_round_eq n : 0 <= n < 2 ^ 64 - 4096 -> lpp_page_round n = (n + 4095) / 4096 * 4096.
Proof.
  intros Hn. unfold lpp_page_round. rewrite (u64_id (n + 4096)), u64_id by (pow2; lia).
  replace ((n + 4095) / 4096 * 4096) with (Z.shiftl (Z.shiftr (n + 4095) 12) 12)
    by (by rewrite Z.shiftl_mul_pow2, Z.shiftr_div_pow2 by lia).
  apply Z.bits_inj'. intros i Hi. rewrite Z.land_spec.
  replace (n + 4096 - 1) with (n + 4095) by lia. unfold u64.
  change (Z.lnot 4095) with (Z.lnot (Z.ones 12)).
  rewrite uwrap_testbit, Z.lnot_spec, Z.testbit_ones_nonneg, Z.shiftl_spec by lia.
  destruct (Z.ltb_spec i 12) as [Hlt|Hge].
  - rewrite (Z.testbit_neg_r _ (i - 12)) by lia. by rewrite !andb_false_r.
  - rewrite Z.shiftr_spec by lia. replace (i - 12 + 12) with i by lia. cbn [negb]. rewrite andb_true_r.
    destruct (Z.ltb_spec i 64); [by rewrite andb_true_r|]. rewrite andb_false_r. symmetry. apply (testbit_high 64); pow2; lia.
Qed.

Lemma page_round_value n : 0 <= n < 2 ^ 63 -> n <= lpp_page_round n.
Proof. intros Hn. rewrite page_round_eq by (pow2; lia). dlia. Qed.

#[export] Instance one_page_addr : AddrSpace one_page.
Proof.
  intros n Hn. unfold one_page in Hn. cbn [granted] in Hn. apply andb_true_iff in Hn as [Hn H3%Z.leb_le].
  apply andb_true_iff in Hn as [H1%Z.leb_le H2%Z.ltb_lt]. pose proof (page_round_value n (conj H1 H2)).
  change (2 ^ 57) with 144115188075855872. lia.
Qed.

Lemma freestanding_map_agrees_witness :
  exists m0 vm0, lpp_map_new_with_mode_fs (fun n => n <=? 4096) true true = Ok (Some m0, vm0) /\
    lpp_map_new_with_mode one_page true true = Ok (Some (fs_m m0)).
Proof.
  eexists _, _. split; [vm_compute; reflexivity|].
  refine (proj1 (freestanding_map_agrees high_strings (fun n => n <=? 4096) one_page true
    [MPut (CStr 0x400010) 7; MGet (CInt 3)] _ [Mmap 4096] _ _ _ _)).
  - intros p s H. unfold high_strings in H. destruct (Z.eqb_spec p 0x400010); [injection H as <-; cbn; lia|discriminate].
  - intros n Hn. cbn. rewrite (proj2 (Z.leb_le 0 n)), (proj2 (Z.ltb_lt n (2 ^ 63))) by lia. reflexivity.
  - repeat constructor; try discriminate; eexists; reflexivity.
  - vm_compute. reflexivity.
Defined.
