(* ===== verification/FreeList.v ===== *)
(** * The freestanding list (runtime/linux_x86_64_min.c)

    The growable array of statically linked programs.  Its cells are a page-rounded [mmap]
    region, so there may be more of them than [cap] says.  [mm n] tells whether [mmap] serves
    [n] bytes; [exit_101] is the exit with status 101. *)

From S2P Require Import Prelude ListRt FreeMap.

Record LppList_fs := mk_fsl {
  fdata : list Z;
  flen : Z;
  fcap : Z;
  data_map_size : Z;
  arc_elements : bool
}.

Fixpoint fs_release_loop (k : nat) (i : Z) (d : list Z) : outcome (list arc_ev) :=
  match k with
  | O => Ok []
  | S k => let! v := rd d i in let! ev := fs_release_loop k (i + 1) d in Ok (Release v :: ev)
  end.

(** [list->data] is NULL exactly when nothing was mapped. *)
Definition lpp_list_destroy_fs (l : option LppList_fs) : outcome (list arc_ev * list vm_ev) :=
  match l with
  | None => Ok ([], [])
  | Some l =>
      let! ev := (if arc_elements l then fs_release_loop (Z.to_nat (flen l)) 0 (fdata l) else Ok []) in
      Ok (ev, if negb (data_map_size l =? 0) then [Munmap (data_map_size l)] else [])
  end.

Definition lpp_list_new_with_mode_fs (object_ok arc : bool) : option LppList_fs :=
  if object_ok then Some (mk_fsl [] 0 0 0 arc) else None.
Definition lpp_list_new_fs (object_ok : bool) := lpp_list_new_with_mode_fs object_ok false.
Definition lpp_list_new_arc_fs (object_ok : bool) := lpp_list_new_with_mode_fs object_ok true.

(** [for (i = 0; i < len; ++i) next_data[i] = data[i]]. *)
Fixpoint copy_loop (k : nat) (i : Z) (src dst : list Z) : outcome (list Z) :=
  match k with
  | O => Ok dst
  | S k => let! v := rd src i in let! dst := wr dst i v in copy_loop k (i + 1) src dst
  end.

Definition bytes_for (next_cap : Z) : Z := lpp_page_round (u64 (u64 next_cap * 8)).

(** Makes room for one more element; [None] when the code returns without storing. *)
Definition fs_grow (mm : Z -> bool) (l : LppList_fs) : outcome (option LppList_fs * list vm_ev) :=
  if flen l =? fcap l then
    let! next_cap := (if fcap l =? 0 then Ok 8 else chk64 (fcap l * 2)) in
    if (next_cap <? fcap l) || (next_cap >? INT64_MAX / 8) then Ok (None, [])
    else
      let next_size := bytes_for next_cap in
      if negb (mm next_size) then Ok (None, [])
      else
        let! d := copy_loop (Z.to_nat (flen l)) 0 (fdata l) (replicate (Z.to_nat (next_size / 8)) 0) in
        let unmap := if negb (data_map_size l =? 0) then [Munmap (data_map_size l)] else [] in
        Ok (Some (mk_fsl d (flen l) next_cap next_size (arc_elements l)), Mmap next_size :: unmap)
  else Ok (Some l, []).

Definition lpp_list_push_fs (mm : Z -> bool) (raw : option LppList_fs) (value : Z)
  : outcome (option LppList_fs * list arc_ev * list vm_ev) :=
  match raw with
  | None => Ok (None, [], [])
  | Some l =>
      let! '(grown, vm) := fs_grow mm l in
      match grown with
      | None => Ok (Some l, [], vm)
      | Some l =>
          let! d := wr (fdata l) (flen l) value in
          Ok (Some (mk_fsl d (flen l + 1) (fcap l) (data_map_size l) (arc_elements l)),
              if arc_elements l then [Retain value] else [], vm)
      end
  end.
Definition lpp_list_push_arc_fs (mm : Z -> bool) (l : option LppList_fs) (value : Z) := lpp_list_push_fs mm l value.
Definition lpp_list_push_float_fs (mm : Z -> bool) (l : option LppList_fs) (bits : Z) := lpp_list_push_fs mm l (i64 bits).
Definition lpp_list_push_bool_fs (mm : Z -> bool) (l : option LppList_fs) (value : Z) :=
  lpp_list_push_fs mm l (if value =? 0 then 0 else 1).

Definition lpp_list_get_fs (raw : option LppList_fs) (index : Z) : outcome Z :=
  match raw with
  | None => exit_101
  | Some l => if (index <? 0) || (index >=? flen l) then exit_101 else rd (fdata l) index
  end.
Definition lpp_list_get_float_fs (l : option LppList_fs) (index : Z) : outcome Z :=
  let! v := lpp_list_get_fs l index in Ok (u64 v).
Definition lpp_list_get_bool_fs (l : option LppList_fs) (index : Z) : outcome Z :=
  let! v := lpp_list_get_fs l index in Ok (b2z (negb (v =? 0))).
Definition lpp_list_get_arc_fs (l : option LppList_fs) (index : Z) : outcome Z := lpp_list_get_fs l index.

Definition lpp_list_set_fs (raw : option LppList_fs) (index value : Z) : outcome (LppList_fs * list arc_ev) :=
  match raw with
  | None => exit_101
  | Some l =>
      if (index <? 0) || (index >=? flen l) then exit_101
      else
        let! ev := (if arc_elements l then let! old := rd (fdata l) index in Ok [Retain value; Release old] else Ok []) in
        let! d := wr (fdata l) index value in
        Ok (mk_fsl d (flen l) (fcap l) (data_map_size l) (arc_elements l), ev)
  end.
Definition lpp_list_set_bool_fs (l : option LppList_fs) (index value : Z) :=
  lpp_list_set_fs l index (if value =? 0 then 0 else 1).
Definition lpp_list_set_float_fs (l : option LppList_fs) (index bits : Z) := lpp_list_set_fs l index (i64 bits).
Definition lpp_list_set_arc_fs (l : option LppList_fs) (index value : Z) := lpp_list_set_fs l index value.

Definition lpp_list_len_fs (raw : option LppList_fs) : Z := match raw with Some l => flen l | None => 0 end.

Definition lpp_list_pop_fs (raw : option LppList_fs) : outcome (LppList_fs * Z) :=
  match raw with
  | None => exit_101
  | Some l =>
      if flen l <=? 0 then exit_101
      else
        let! n := chk64 (flen l - 1) in
        let! v := rd (fdata l) n in
        Ok (mk_fsl (fdata l) n (fcap l) (data_map_size l) (arc_elements l), v)
  end.

(** ** The sequence a list stands for *)

Definition felems (l : LppList_fs) : list Z := take (Z.to_nat (flen l)) (fdata l).

Record fsl_wf (l : LppList_fs) : Prop := {
  fw_len : 0 <= flen l <= fcap l;
  fw_data : fcap l <= Z.of_nat (length (fdata l));
  fw_cap : fcap l <= INT64_MAX / 8;
  fw_map : Z.of_nat (length (fdata l)) * 8 = data_map_size l;
  fw_zero : data_map_size l = 0 -> fcap l = 0
}.

Lemma felems_length l : fsl_wf l -> Z.of_nat (length (felems l)) = flen l.
Proof. intros [? ? _ _]. unfold felems. rewrite length_take. lia. Qed.

Lemma release_loop_all k : forall i d, 0 <= i -> i + Z.of_nat k <= Z.of_nat (length d) ->
  fs_release_loop k i d = Ok (Release <$> take k (drop (Z.to_nat i) d)).
Proof.
  induction k as [|k IH]; intros i d Hi Hk; [done|]. cbn [fs_release_loop].
  destruct (lookup_lt_is_Some_2 d (Z.to_nat i)) as [x Hx]; [lia|]. rewrite (rd_ok _ _ x) by done. cbn [obind].
  rewrite IH by lia. cbn [obind]. rewrite (drop_S _ x (Z.to_nat i)) by done. cbn [take fmap list_fmap].
  by replace (Z.to_nat (i + 1)) with (S (Z.to_nat i)) by lia.
Qed.

Lemma copy_loop_spec k : forall i src dst, 0 <= i -> i + Z.of_nat k <= Z.of_nat (length src) ->
  i + Z.of_nat k <= Z.of_nat (length dst) -> take (Z.to_nat i) dst = take (Z.to_nat i) src ->
  exists d, copy_loop k i src dst = Ok d /\ length d = length dst /\
    take (Z.to_nat i + k) d = take (Z.to_nat i + k) src.
Proof.
  induction k as [|k IH]; intros i src dst Hi Hs Hd He; cbn [copy_loop].
  { exists dst. by rewrite Nat.add_0_r. }
  destruct (lookup_lt_is_Some_2 src (Z.to_nat i)) as [x Hx]; [lia|]. rewrite (rd_ok _ _ x) by done. cbn [obind].
  rewrite wr_ok by lia. cbn [obind].
  destruct (IH (i + 1) src (<[Z.to_nat i := x]> dst)) as (d & -> & Hl & Ht); [lia|lia|rewrite length_insert; lia| |].
  - replace (Z.to_nat (i + 1)) with (S (Z.to_nat i)) by lia.
    rewrite (take_S_r _ _ x) by (apply list_lookup_insert_eq; lia). rewrite (take_S_r src _ x) by done.
    by rewrite take_insert_ge, He by lia.
  - exists d. split; [done|]. rewrite length_insert in Hl. split; [done|].
    by replace (Z.to_nat i + S k)%nat with (Z.to_nat (i + 1) + k)%nat by lia.
Qed.

(** ** Refinement *)

Inductive fsl_op :=
| FPush (v : Z)
| FSet (i v : Z)
| FPop
| FGet (i : Z)
| FLen.

Definition fsl_step (mm : Z -> bool) (op : fsl_op) (l : LppList_fs) : outcome (LppList_fs * Z * list arc_ev * list vm_ev) :=
  match op with
  | FPush v =>
      let! '(o, ev, vm) := lpp_list_push_fs mm (Some l) v in
      match o with Some l => Ok (l, 0, ev, vm) | None => Undef end
  | FSet i v => let! '(l, ev) := lpp_list_set_fs (Some l) i v in Ok (l, 0, ev, [])
  | FPop => let! '(l, v) := lpp_list_pop_fs (Some l) in Ok (l, v, [], [])
  | FGet i => let! v := lpp_list_get_fs (Some l) i in Ok (l, v, [], [])
  | FLen => Ok (l, lpp_list_len_fs (Some l), [], [])
  end.

(** The growth a push would need, and whether it gets it. *)
Definition next_cap (l : LppList_fs) : Z := if fcap l =? 0 then 8 else fcap l * 2.
Definition room (mm : Z -> bool) (l : LppList_fs) : bool :=
  negb (flen l =? fcap l) || ((next_cap l <=? INT64_MAX / 8) && mm (bytes_for (next_cap l))).

(** What each operation does to the sequence; [None]: the process exits with status 101. *)
Definition fsl_spec (room arc : bool) (op : fsl_op) (xs : list Z) : option (list Z * Z * list arc_ev) :=
  match op with
  | FPush v => Some (if room then (xs ++ [v], 0, if arc then [Retain v] else []) else (xs, 0, []))
  | FSet i v =>
      if in_range i xs then
        Some (<[Z.to_nat i := v]> xs, 0, if arc then [Retain v; Release (xs !!! Z.to_nat i)] else [])
      else None
  | FPop => match last xs with Some v => Some (take (length xs - 1) xs, v, []) | None => None end
  | FGet i => if in_range i xs then Some (xs, xs !!! Z.to_nat i, []) else None
  | FLen => Some (xs, Z.of_nat (length xs), [])
  end.

(** The region a list owns. *)
Definition region_of (l : LppList_fs) : list Z := if data_map_size l =? 0 then [] else [data_map_size l].

(** [m] does to [l] what the sequence operation says, and every region it maps or unmaps is
    accounted for by the region the list owns. *)
Definition fsl_does (l : LppList_fs) (spec : option (list Z * Z * list arc_ev))
    (m : outcome (LppList_fs * Z * list arc_ev * list vm_ev)) : Prop :=
  match spec with
  | None => m = exit_101
  | Some (xs, r, ev) => wp m (fun '(l', r', ev', vm) =>
      fsl_wf l' /\ felems l' = xs /\ r' = r /\ ev' = ev /\ arc_elements l' = arc_elements l /\
      region_of l ++ mapped vm ≡ₚ region_of l' ++ unmapped vm)
  end.

Lemma bytes_for_eq c : 0 < c <= INT64_MAX / 8 ->
  bytes_for c mod 8 = 0 /\ c * 8 <= bytes_for c.
Proof.
  intros Hc. change (INT64_MAX / 8) with 1152921504606846975 in Hc. unfold bytes_for.
  rewrite (u64_id c), u64_id by (pow2; lia). rewrite page_round_eq by (pow2; lia). split; dlia.
Qed.

Lemma region_unmap l : unmapped (if negb (data_map_size l =? 0) then [Munmap (data_map_size l)] else []) = region_of l /\
  mapped (if negb (data_map_size l =? 0) then [Munmap (data_map_size l)] else []) = [].
Proof. unfold region_of. by destruct (data_map_size l =? 0). Qed.

Lemma fs_grow_spec mm l : fsl_wf l ->
  wp (fs_grow mm l) (fun '(o, vm) =>
    if room mm l then exists l', o = Some l' /\ fsl_wf l' /\ flen l' = flen l /\ flen l' < fcap l' /\
      felems l' = felems l /\ arc_elements l' = arc_elements l /\ region_of l ++ mapped vm ≡ₚ region_of l' ++ unmapped vm
    else o = None /\ vm = []).
Proof.
  intros Hl. pose proof (fw_len l Hl). pose proof (fw_cap l Hl) as Hc. pose proof (fw_data l Hl).
  change (INT64_MAX / 8) with 1152921504606846975 in Hc.
  unfold fs_grow, room. destruct (Z.eqb_spec (flen l) (fcap l)) as [He|Hne]; cbn [negb orb].
  2: { exists l. split_and!; try done; lia. }
  assert ((if fcap l =? 0 then Ok 8 else chk64 (fcap l * 2)) = Ok (next_cap l)) as ->.
  { unfold next_cap. destruct (fcap l =? 0); [done|]. apply chk64_ok. pow2. lia. }
  cbn [obind]. assert (0 < next_cap l /\ fcap l < next_cap l) as [Hn Hg].
  { unfold next_cap. destruct (Z.eqb_spec (fcap l) 0); lia. }
  rewrite (proj2 (Z.ltb_ge (next_cap l) (fcap l))), Z.gtb_ltb by lia. cbn [orb].
  destruct (Z.leb_spec (next_cap l) (INT64_MAX / 8)) as [Hb|Hb].
  2: { rewrite (proj2 (Z.ltb_lt _ _)) by lia. done. }
  rewrite (proj2 (Z.ltb_ge _ _)) by lia. cbn [andb].
  destruct (mm (bytes_for (next_cap l))); cbn [negb]; [|done].
  destruct (bytes_for_eq (next_cap l)) as [Hm8 Hsz]; [lia|]. set (sz := bytes_for _) in *.
  destruct (copy_loop_spec (Z.to_nat (flen l)) 0 (fdata l) (replicate (Z.to_nat (sz / 8)) 0)) as (d & -> & Hlen & Ht);
    rewrite ?length_replicate in *; try done; try dlia. cbn [obind].
  eexists. split; [done|]. cbn [flen fcap arc_elements]. split_and!; try done; try lia.
  - split; cbn [flen fcap data_map_size fdata]; try lia; dlia.
  - destruct (region_unmap l) as [Hu Hma]. cbn [mapped unmapped omap list_omap].
    fold (mapped (if negb (data_map_size l =? 0) then [Munmap (data_map_size l)] else [])).
    fold (unmapped (if negb (data_map_size l =? 0) then [Munmap (data_map_size l)] else [])).
    rewrite Hu, Hma. unfold region_of at 2. cbn [data_map_size]. rewrite (proj2 (Z.eqb_neq sz 0)) by lia.
    by rewrite Permutation_app_comm.
Qed.

Lemma fs_range_guard i l : fsl_wf l -> (i <? 0) || (i >=? flen l) = negb (in_range i (felems l)).
Proof.
  intros Hl. unfold in_range. rewrite felems_length by done. rewrite Z.geb_leb, negb_andb, (Z.leb_antisym i 0), negb_involutive.
  by rewrite (Z.leb_antisym i (flen l)).
Qed.

Lemma felems_read l i : fsl_wf l -> in_range i (felems l) = true -> rd (fdata l) i = Ok (felems l !!! Z.to_nat i).
Proof.
  intros Hl Hi. unfold in_range in Hi. rewrite felems_length in Hi by done. bool_to_prop.
  pose proof (fw_len l Hl). pose proof (fw_data l Hl).
  destruct (lookup_lt_is_Some_2 (fdata l) (Z.to_nat i)) as [x Hx]; [lia|]. rewrite (rd_ok _ _ x) by done. f_equal.
  symmetry. apply list_lookup_total_correct. unfold felems. rewrite lookup_take_lt by lia. done.
Qed.

Lemma push_fs_does mm l v : fsl_wf l -> fsl_does l (fsl_spec (room mm l) (arc_elements l) (FPush v) (felems l)) (fsl_step mm (FPush v) l).
Proof.
  intros Hl. cbn [fsl_spec fsl_step fsl_does lpp_list_push_fs].
  destruct (wp_inv _ _ (fs_grow_spec mm l Hl)) as ([o vm] & -> & Hg). cbn [obind].
  destruct (room mm l); [|destruct Hg as [-> ->]; by cbn].
  destruct Hg as (l' & -> & Hl' & Hf & Hlt & He & Ha & Hr). pose proof (fw_len l' Hl'). pose proof (fw_data l' Hl').
  rewrite wr_ok by lia. cbn [obind wp]. split_and!; try done; [| |by rewrite Ha].
  - destruct Hl'. split; cbn [flen fcap fdata data_map_size]; rewrite ?length_insert; lia || done.
  - rewrite <- He. unfold felems. cbn [flen fdata]. replace (Z.to_nat (flen l' + 1)) with (S (Z.to_nat (flen l'))) by lia.
    rewrite (take_S_r _ _ v) by (apply list_lookup_insert_eq; lia). by rewrite take_insert_ge by lia.
Qed.

Lemma set_fs_does mm l i v : fsl_wf l -> fsl_does l (fsl_spec (room mm l) (arc_elements l) (FSet i v) (felems l)) (fsl_step mm (FSet i v) l).
Proof.
  intros Hl. cbn [fsl_spec fsl_step lpp_list_set_fs]. rewrite (fs_range_guard i l Hl).
  destruct (in_range i (felems l)) eqn:Ei; cbn [negb]; [|done]. pose proof (felems_read l i Hl Ei) as Hrd. rewrite Hrd. cbn [obind fsl_does].
  unfold in_range in Ei. rewrite felems_length in Ei by done. bool_to_prop. pose proof (fw_len l Hl). pose proof (fw_data l Hl).
  assert (forall ev, wp (let! d := wr (fdata l) i v in Ok (mk_fsl d (flen l) (fcap l) (data_map_size l) (arc_elements l), ev : list arc_ev))
    (fun '(l', ev') => fsl_wf l' /\ felems l' = <[Z.to_nat i := v]> (felems l) /\ ev' = ev /\ arc_elements l' = arc_elements l /\ region_of l' = region_of l)) as Hw.
  { intros ev. rewrite wr_ok by lia. cbn. split_and!; try done.
    - destruct Hl. split; cbn [flen fcap fdata data_map_size]; rewrite ?length_insert; lia || done.
    - unfold felems. cbn [flen fdata]. by rewrite take_insert_lt by lia. }
  destruct (arc_elements l); cbn [obind];
    (match goal with |- context [Ok (_, ?e)] => destruct (wp_inv _ _ (Hw e)) as ([l' ev'] & -> & Hp) end);
    cbn [obind wp]; destruct Hp as (? & ? & -> & ? & Hr); rewrite Hr; split_and!; done.
Qed.

Lemma pop_fs_does mm l : fsl_wf l -> fsl_does l (fsl_spec (room mm l) (arc_elements l) FPop (felems l)) (fsl_step mm FPop l).
Proof.
  intros Hl. cbn [fsl_spec fsl_step lpp_list_pop_fs]. pose proof (felems_length l Hl) as Hn. pose proof (fw_len l Hl). pose proof (fw_cap l Hl) as Hc.
  change (INT64_MAX / 8) with 1152921504606846975 in Hc.
  destruct (Z.leb_spec (flen l) 0) as [Hz|Hz].
  - destruct (felems l) eqn:E; [done|]. cbn [length] in Hn. lia.
  - rewrite last_lookup. destruct (lookup_lt_is_Some_2 (felems l) (pred (length (felems l)))) as [x Hx]; [lia|]. rewrite Hx.
    rewrite chk64_ok by (pow2; lia). cbn [obind fsl_does].
    rewrite felems_read; [|done|unfold in_range; rewrite Hn; lia]. cbn [obind wp].
    split_and!; try done.
    + destruct Hl. split; cbn [flen fcap fdata data_map_size]; lia || done.
    + unfold felems at 1. cbn [flen fdata]. unfold felems at 2. rewrite take_take. f_equal. lia.
    + apply list_lookup_total_correct. rewrite <- Hx. f_equal. lia.
Qed.

Lemma query_fs_does mm l op : fsl_wf l -> op = FLen \/ (exists i, op = FGet i) ->
  fsl_does l (fsl_spec (room mm l) (arc_elements l) op (felems l)) (fsl_step mm op l).
Proof.
  intros Hl [->|[i ->]]; cbn [fsl_spec fsl_step lpp_list_get_fs lpp_list_len_fs].
  - cbn. split_and!; try done. by rewrite felems_length.
  - rewrite (fs_range_guard i l Hl). destruct (in_range i (felems l)) eqn:Ei; cbn [negb]; [|done].
    rewrite felems_read by done. cbn. by split_and!.
Qed.

(** C21. The freestanding list behaves as a sequence.  Every operation on a well-formed list
    either does what the sequence operation says, with its retains and releases, and keeps the
    list well-formed, or (index outside the list, pop of an empty list) exits with status 101; a
    push whose growth [mmap] refuses changes nothing, silently.  The region a list owns is the
    only one it ever unmaps, with the size it was mapped with, and destroying the list releases
    each element once and leaves no region. *)
Theorem freestanding_list_is_sequence mm op l :
  fsl_wf l ->
  fsl_does l (fsl_spec (room mm l) (arc_elements l) op (felems l)) (fsl_step mm op l) /\
  wp (lpp_list_destroy_fs (Some l)) (fun '(ev, vm) =>
    ev = (if arc_elements l then Release <$> felems l else []) /\ mapped vm = [] /\ unmapped vm = region_of l).
Proof.
  intros Hl. split.
  - destruct op; [by apply push_fs_does|by apply set_fs_does|by apply pop_fs_does|..]; apply query_fs_does; eauto.
  - cbn [lpp_list_destroy_fs]. destruct (region_unmap l) as [Hu Hm]. pose proof (fw_len l Hl). pose proof (fw_data l Hl).
    destruct (arc_elements l); cbn [obind wp]; [|by rewrite Hu, Hm].
    rewrite release_loop_all by lia. cbn [obind wp]. by rewrite Hu, Hm.
Qed.

Lemma freestanding_list_is_sequence_witness :
  fsl_does (mk_fsl [] 0 0 0 true) (Some ([77], 0, [Retain 77])) (fsl_step (fun _ => true) (FPush 77) (mk_fsl [] 0 0 0 true)) /\
  fsl_does (mk_fsl [] 0 0 0 true) (Some ([], 0, [])) (fsl_step (fun _ => false) (FPush 77) (mk_fsl [] 0 0 0 true)).
Proof.
  assert (fsl_wf (mk_fsl [] 0 0 0 true)) as Hw by (split; cbn; try lia; try reflexivity; vm_compute; discriminate).
  split.
  - exact (proj1 (freestanding_list_is_sequence (fun _ => true) (FPush 77) _ Hw)).
  - exact (proj1 (freestanding_list_is_sequence (fun _ => false) (FPush 77) _ Hw)).
Defined.
