(* ===== verification/FreeAlloc.v ===== *)
(** * The freestanding allocator and its object headers (runtime/linux_x86_64_min.c)

    Statically linked programs have no C library: objects are carved from 1 MiB [mmap] chunks
    by a bump pointer, dead blocks are kept on one free list per size class with the link in
    their first word, and larger objects own a mapping.  The model is at the level of bytes:
    memory is a partial function from addresses to bytes, and touching an unmapped byte is
    undefined (a fault).  [mmap] is the kernel: where it puts a mapping of that size, or
    nowhere.  A destructor is code of the compiled program, called through its pointer. *)

From stdpp Require Import relations.
From S2P Require Import Prelude CInt Arc FreeMap.

Abbreviation memory := (Z -> option Z).

(** ** Loads and stores *)

Fixpoint load (n : nat) (m : memory) (a : Z) : outcome (list Z) :=
  match n with
  | O => Ok []
  | S n => match m a with
           | Some b => let! r := load n m (a + 1) in Ok (b :: r)
           | None => Undef
           end
  end.
Fixpoint store (m : memory) (a : Z) (bs : list Z) : outcome memory :=
  match bs with
  | [] => Ok m
  | b :: r => match m a with
              | Some _ => store (fun x => if x =? a then Some b else m x) (a + 1) r
              | None => Undef
              end
  end.

Definition loadw (n : nat) (m : memory) (a : Z) : outcome Z := let! bs := load n m a in Ok (le_value bs).
Definition storew (n : nat) (m : memory) (a v : Z) : outcome memory := store m a (le_bytes n v).

(** ** The process *)

Record heap := mk_heap {
  hmem : memory;
  lpp_free_lists : list Z;
  lpp_bump_cursor : Z;
  lpp_bump_left : Z;
  fs_generation_counter : Z;
  lpp_arena_regions : Z
}.

Definition heap0 : heap := mk_heap (fun _ => None) (replicate 8 0) 0 0 1 0.

Definition set_mem (h : heap) (m : memory) : heap :=
  mk_heap m (lpp_free_lists h) (lpp_bump_cursor h) (lpp_bump_left h) (fs_generation_counter h) (lpp_arena_regions h).
Definition set_bump (h : heap) (cursor left : Z) : heap :=
  mk_heap (hmem h) (lpp_free_lists h) cursor left (fs_generation_counter h) (lpp_arena_regions h).
Definition set_free (h : heap) (cls : nat) (head : Z) : heap :=
  mk_heap (hmem h) (<[cls := head]> (lpp_free_lists h)) (lpp_bump_cursor h) (lpp_bump_left h)
    (fs_generation_counter h) (lpp_arena_regions h).
Definition set_generation (h : heap) (g : Z) : heap :=
  mk_heap (hmem h) (lpp_free_lists h) (lpp_bump_cursor h) (lpp_bump_left h) g (lpp_arena_regions h).
Definition set_regions (h : heap) (r : Z) : heap :=
  mk_heap (hmem h) (lpp_free_lists h) (lpp_bump_cursor h) (lpp_bump_left h) (fs_generation_counter h) r.

(** ** System calls *)

Definition kernel := memory -> Z -> option Z.

(** A new mapping reads as zeros. *)
Definition map_zero (m : memory) (a size : Z) : memory :=
  fun x => if (a <=? x) && (x <? a + size) then Some 0 else m x.
Definition lpp_sys_mmap (os : kernel) (h : heap) (size : Z) : Z * heap :=
  match os (hmem h) size with
  | None => (0, h)
  | Some a => (a, set_mem h (map_zero (hmem h) a size))
  end.

(** [munmap] unmaps whole pages; a length of 0 or an unaligned address is refused. *)
Definition lpp_sys_munmap (h : heap) (a size : Z) : heap :=
  if (size =? 0) || negb (a mod 4096 =? 0) then h
  else
    let len := (size + 4095) / 4096 * 4096 in
    set_mem h (fun x => if (a <=? x) && (x <? a + len) then None else hmem h x).

(** ** Objects *)

Definition LPP_CHUNK_BYTES : Z := 1024 * 1024.
Definition LPP_SIZE_CLASSES : Z := 8.
Definition sizeof_header : Z := 24.

(** Field offsets of [LppArcHeader]. *)
Definition off_magic : Z := 0.
Definition off_refcount : Z := 4.
Definition off_generation : Z := 8.
Definition off_map_size : Z := 12.
Definition off_destructor : Z := 16.

Definition lpp_class_bytes (cls : Z) : Z := u64 (Z.shiftl 32 cls).

Fixpoint class_loop (fuel : nat) (cls need : Z) : outcome Z :=
  match fuel with
  | O => NoFuel
  | S fuel =>
      if (cls <? LPP_SIZE_CLASSES) && (lpp_class_bytes cls <? need) then class_loop fuel (cls + 1) need
      else Ok cls
  end.
Definition lpp_class_for (need : Z) : outcome Z := class_loop 9 0 need.

(** [for (i = 0; i < bytes; i++) raw[i] = 0]. *)
Fixpoint zero_loop (k : nat) (m : memory) (a : Z) : outcome memory :=
  match k with
  | O => Ok m
  | S k => let! m := store m a [0] in zero_loop k m (a + 1)
  end.

(** The block a class request gets: the head of its free list, else the next piece of the
    chunk, else of a new chunk; 0 when no chunk can be mapped. *)
Definition take_block (os : kernel) (h : heap) (cls : Z) : outcome (Z * heap) :=
  let bytes := lpp_class_bytes cls in
  let! head := rd (lpp_free_lists h) cls in
  if negb (head =? 0) then
    let! next := loadw 8 (hmem h) head in
    Ok (head, set_free h (Z.to_nat cls) next)
  else
    let '(ok, h) :=
      if lpp_bump_left h <? bytes then
        let '(chunk, h) := lpp_sys_mmap os h LPP_CHUNK_BYTES in
        if chunk =? 0 then (false, h) else (true, set_bump h chunk LPP_CHUNK_BYTES)
      else (true, h) in
    if ok then
      Ok (lpp_bump_cursor h, set_bump h (lpp_bump_cursor h + bytes) (u64 (lpp_bump_left h - bytes)))
    else Ok (0, h).

Definition init_header (h : heap) (header destructor : Z) : outcome heap :=
  let! m := storew 4 (hmem h) (header + off_magic) LPP_ARC_MAGIC in
  let! m := storew 4 m (header + off_refcount) 1 in
  let g := i32 (fs_generation_counter h + 1) in
  let! m := storew 4 m (header + off_generation) g in
  let! m := storew 8 m (header + off_destructor) destructor in
  Ok (set_generation (set_mem h m) g).

(** Returns the payload, 0 for NULL. *)
Definition lpp_arc_alloc_with_destructor_fs (os : kernel) (h : heap) (payload_size destructor : Z) : outcome (Z * heap) :=
  if payload_size <? 0 then Ok (0, h)
  else
    let need := u64 (payload_size + sizeof_header) in
    let! cls := lpp_class_for need in
    let! '(header, h) :=
      (if cls >=? LPP_SIZE_CLASSES then
         let total := lpp_page_round need in
         let '(header, h) := lpp_sys_mmap os h total in
         if header =? 0 then Ok (0, h)
         else
           let! m := storew 4 (hmem h) (header + off_map_size) (u32 total) in
           Ok (header, set_mem h m)
       else
         let! '(header, h) := take_block os h cls in
         if header =? 0 then Ok (0, h)
         else
           let! m := zero_loop (Z.to_nat (lpp_class_bytes cls)) (hmem h) header in
           let! m := storew 4 m (header + off_map_size) (u32 (cls + 1)) in
           Ok (header, set_mem h m)) in
    if header =? 0 then Ok (0, h)
    else
      let! h := init_header h header destructor in
      Ok (header + sizeof_header, h).
Definition lpp_arc_alloc_fs (os : kernel) (h : heap) (payload_size : Z) := lpp_arc_alloc_with_destructor_fs os h payload_size 0.
Definition lpp_alloc_fs (os : kernel) (h : heap) (size : Z) := lpp_arc_alloc_fs os h size.

Definition lpp_arc_free (h : heap) (header : Z) : outcome heap :=
  let! tag := loadw 4 (hmem h) (header + off_map_size) in
  if (tag >=? 1) && (tag <=? LPP_SIZE_CLASSES) then
    let cls := tag - 1 in
    let! head := rd (lpp_free_lists h) cls in
    let! m := storew 8 (hmem h) header head in
    Ok (set_free (set_mem h m) (Z.to_nat cls) header)
  else Ok (lpp_sys_munmap h header tag).

(** ** Reference counts and weak handles *)

Definition lpp__is_immortal_fs (m : memory) (header : Z) : outcome bool :=
  let! magic := loadw 4 m (header + off_magic) in
  if magic =? LPP_ARC_IMMORTAL then
    let! rc := loadw 4 m (header + off_refcount) in Ok (rc =? LPP_ARC_IMMORTAL)
  else Ok false.

(** [__atomic_add_fetch] on an [int] field: the new value. *)
Definition add_fetch (m : memory) (a d : Z) : outcome (Z * memory) :=
  let! v := loadw 4 m a in
  let v := i32 (i32 v + d) in
  let! m := storew 4 m a v in
  Ok (v, m).

Definition lpp_weak_generation_fs (h : heap) (payload : Z) : outcome Z :=
  if payload =? 0 then Ok 0
  else
    let header := payload - sizeof_header in
    let! imm := lpp__is_immortal_fs (hmem h) header in
    if imm then Ok LPP_ARC_IMMORTAL
    else let! g := loadw 4 (hmem h) (header + off_generation) in Ok (i32 g).

Definition lpp_weak_get_fs (h : heap) (raw expected_generation : Z) : outcome Z :=
  if (raw =? 0) || (expected_generation =? 0) then Ok 0
  else
    let header := raw - sizeof_header in
    let! imm := lpp__is_immortal_fs (hmem h) header in
    if imm then Ok (if expected_generation =? LPP_ARC_IMMORTAL then raw else 0)
    else
      let! now := loadw 4 (hmem h) (header + off_generation) in
      Ok (if negb (i32 now =? expected_generation) then 0 else raw).

Definition lpp_arc_retain_fs (h : heap) (payload : Z) : outcome heap :=
  if payload =? 0 then Ok h
  else
    let header := payload - sizeof_header in
    let! imm := lpp__is_immortal_fs (hmem h) header in
    if imm then Ok h
    else let! '(_, m) := add_fetch (hmem h) (header + off_refcount) 1 in Ok (set_mem h m).
Definition lpp_arc_retain_local_fs (h : heap) (payload : Z) : outcome heap := lpp_arc_retain_fs h payload.

(** ** Arenas and release *)

(** Field offsets of [LppArenaRegion] and [LppArenaRecord]. *)
Definition off_refs : Z := 0.
Definition off_records : Z := 8.
Definition off_region_next : Z := 16.
Definition off_record_header : Z := 0.
Definition off_record_next : Z := 8.

Fixpoint scan_records (fuel : nat) (m : memory) (record header : Z) : outcome bool :=
  match fuel with
  | O => NoFuel
  | S fuel =>
      if record =? 0 then Ok false
      else
        let! hd := loadw 8 m (record + off_record_header) in
        if hd =? header then Ok true
        else let! next := loadw 8 m (record + off_record_next) in scan_records fuel m next header
  end.
Fixpoint scan_regions (fuel : nat) (m : memory) (region header : Z) : outcome Z :=
  match fuel with
  | O => NoFuel
  | S fuel =>
      if region =? 0 then Ok 0
      else
        let! records := loadw 8 m (region + off_records) in
        let! found := scan_records fuel m records header in
        if found then Ok region
        else let! next := loadw 8 m (region + off_region_next) in scan_regions fuel m next header
  end.
Definition lpp_arena_for_header (fuel : nat) (h : heap) (header : Z) : outcome Z :=
  scan_regions fuel (hmem h) (lpp_arena_regions h) header.

(** The link that points to [region], from [cur] on, is redirected. *)
Fixpoint unlink_loop (fuel : nat) (m : memory) (cur region : Z) : outcome memory :=
  match fuel with
  | O => NoFuel
  | S fuel =>
      let! next := loadw 8 m (cur + off_region_next) in
      if next =? 0 then Ok m
      else if next =? region then
        let! after := loadw 8 m (region + off_region_next) in storew 8 m (cur + off_region_next) after
      else unlink_loop fuel m next region
  end.
Definition unlink (fuel : nat) (h : heap) (region : Z) : outcome heap :=
  if lpp_arena_regions h =? 0 then Ok h
  else if lpp_arena_regions h =? region then
    let! next := loadw 8 (hmem h) (region + off_region_next) in Ok (set_regions h next)
  else let! m := unlink_loop fuel (hmem h) (lpp_arena_regions h) region in Ok (set_mem h m).

Section release.
Context (run_destructor : Z -> heap -> Z -> outcome heap).

Section with_release.
(** [lpp_arc_release], tied below. *)
Context (release : heap -> Z -> outcome heap).

Fixpoint records_loop (fuel : nat) (h : heap) (records : Z) : outcome heap :=
  match fuel with
  | O => NoFuel
  | S fuel =>
      if records =? 0 then Ok h
      else
        let! next := loadw 8 (hmem h) (records + off_record_next) in
        let! header := loadw 8 (hmem h) (records + off_record_header) in
        let! h := lpp_arc_free h header in
        let! h := release h records in
        records_loop fuel h next
  end.
Definition lpp_arena_destroy (fuel : nat) (h : heap) (region : Z) : outcome heap :=
  let! h := unlink fuel h region in
  let! records := loadw 8 (hmem h) (region + off_records) in
  let! h := records_loop fuel h records in
  release h region.

(** [if (--region->refs == 0) lpp_arena_destroy(region)]. *)
Definition lpp_arena_node_zero (fuel : nat) (h : heap) (region : Z) : outcome heap :=
  let! '(refs, m) := add_fetch (hmem h) (region + off_refs) (-1) in
  let h := set_mem h m in
  if refs =? 0 then lpp_arena_destroy fuel h region else Ok h.

(** Destructor, then the arena or the allocator: the end of every release. *)
Definition bury (fuel : nat) (h : heap) (arena payload : Z) : outcome heap :=
  let header := payload - sizeof_header in
  let! d := loadw 8 (hmem h) (header + off_destructor) in
  let! h := (if negb (d =? 0) then run_destructor d h payload else Ok h) in
  if negb (arena =? 0) then lpp_arena_node_zero fuel h arena else lpp_arc_free h header.
End with_release.

Fixpoint lpp_arc_release_fs (fuel : nat) (h : heap) (payload : Z) : outcome heap :=
  match fuel with
  | O => NoFuel
  | S fuel =>
      if payload =? 0 then Ok h
      else
        let header := payload - sizeof_header in
        let! imm := lpp__is_immortal_fs (hmem h) header in
        if imm then Ok h
        else
          let! arena := lpp_arena_for_header fuel h header in
          let! '(rc, m) := add_fetch (hmem h) (header + off_refcount) (-1) in
          if rc =? 0 then
            let! '(_, m) := add_fetch m (header + off_generation) 1 in
            let! m := storew 4 m (header + off_magic) 0 in
            bury (lpp_arc_release_fs fuel) fuel (set_mem h m) arena payload
          else Ok (set_mem h m)
  end.

Definition lpp_arc_release_local_fs (fuel : nat) (h : heap) (payload : Z) : outcome heap :=
  if payload =? 0 then Ok h
  else
    let header := payload - sizeof_header in
    let! imm := lpp__is_immortal_fs (hmem h) header in
    if imm then Ok h
    else
      let! '(rc, m) := add_fetch (hmem h) (header + off_refcount) (-1) in
      let h := set_mem h m in
      if rc =? 0 then
        let! arena := lpp_arena_for_header fuel h header in
        let! '(_, m) := add_fetch m (header + off_generation) 1 in
        bury (lpp_arc_release_fs fuel) fuel (set_mem h m) arena payload
      else Ok h.

Definition lpp_free_fs (fuel : nat) (h : heap) (payload size : Z) : outcome heap := lpp_arc_release_fs fuel h payload.

Definition lpp_arena_begin_fs (os : kernel) (h : heap) : outcome (Z * heap) :=
  let! '(region, h) := lpp_arc_alloc_fs os h 24 in
  if region =? 0 then Ok (0, h)
  else
    let! m := storew 4 (hmem h) (region + off_refs) 1 in
    let! m := storew 8 m (region + off_records) 0 in
    let! m := storew 8 m (region + off_region_next) (lpp_arena_regions h) in
    Ok (region, set_regions (set_mem h m) region).

Definition lpp_arena_release_fs (fuel : nat) (h : heap) (raw_region : Z) : outcome heap :=
  if raw_region =? 0 then Ok h else lpp_arena_node_zero (lpp_arc_release_fs fuel) fuel h raw_region.

Definition lpp_arena_alloc_fs (fuel : nat) (os : kernel) (h : heap) (size raw_region destructor : Z) : outcome (Z * heap) :=
  if (raw_region =? 0) || (size <? 0) then Ok (0, h)
  else
    let! '(payload, h) := lpp_arc_alloc_with_destructor_fs os h size destructor in
    if payload =? 0 then Ok (0, h)
    else
      let! '(record, h) := lpp_arc_alloc_fs os h 16 in
      if record =? 0 then let! h := lpp_arc_release_fs fuel h payload in Ok (0, h)
      else
        let! m := storew 8 (hmem h) (record + off_record_header) (payload - sizeof_header) in
        let! records := loadw 8 m (raw_region + off_records) in
        let! m := storew 8 m (record + off_record_next) records in
        let! m := storew 8 m (raw_region + off_records) record in
        let! '(_, m) := add_fetch m (raw_region + off_refs) 1 in
        Ok (payload, set_mem h m).

Definition lpp_arena_retain_fs (fuel : nat) (h : heap) (payload : Z) : outcome heap :=
  if payload =? 0 then Ok h
  else
    let! region := lpp_arena_for_header fuel h (payload - sizeof_header) in
    if negb (region =? 0) then lpp_arc_retain_fs h payload else Ok h.

Definition lpp_arena_release_node_fs (fuel : nat) (h : heap) (payload : Z) : outcome heap :=
  if payload =? 0 then Ok h
  else
    let header := payload - sizeof_header in
    let! region := lpp_arena_for_header fuel h header in
    if region =? 0 then Ok h
    else
      let! imm := lpp__is_immortal_fs (hmem h) header in
      if imm then Ok h
      else
        let! '(rc, m) := add_fetch (hmem h) (header + off_refcount) (-1) in
        if rc =? 0 then
          let! '(_, m) := add_fetch m (header + off_generation) 1 in
          bury (lpp_arc_release_fs fuel) fuel (set_mem h m) region payload
        else Ok (set_mem h m).
End release.

(** ** Raw memory builtins *)

Definition lpp_c_malloc (os : kernel) (h : heap) (size : Z) : outcome (Z * heap) :=
  if size <=? 0 then Ok (0, h)
  else
    let total := lpp_page_round (u64 (size + 8)) in
    let '(ptr, h) := lpp_sys_mmap os h total in
    if ptr =? 0 then Ok (0, h)
    else let! m := storew 8 (hmem h) ptr total in Ok (i64 (ptr + 8), set_mem h m).
Definition lpp_c_free (h : heap) (ptr : Z) : outcome heap :=
  if negb (ptr =? 0) then
    let hdr := ptr - 8 in
    let! size := loadw 8 (hmem h) hdr in Ok (lpp_sys_munmap h hdr size)
  else Ok h.
Definition lpp_c_load_u8 (h : heap) (ptr offset : Z) : outcome Z :=
  if ptr =? 0 then Ok 0 else let! a := chk64 (ptr + offset) in loadw 1 (hmem h) a.
Definition lpp_c_store_u8 (h : heap) (ptr offset val : Z) : outcome heap :=
  if ptr =? 0 then Ok h
  else let! a := chk64 (ptr + offset) in let! m := storew 1 (hmem h) a (u8 val) in Ok (set_mem h m).
Definition lpp_c_load_i32 (h : heap) (ptr offset : Z) : outcome Z :=
  if ptr =? 0 then Ok 0 else let! a := chk64 (ptr + offset) in let! v := loadw 4 (hmem h) a in Ok (i32 v).
Definition lpp_c_store_i32 (h : heap) (ptr offset val : Z) : outcome heap :=
  if ptr =? 0 then Ok h
  else let! a := chk64 (ptr + offset) in let! m := storew 4 (hmem h) a (i32 val) in Ok (set_mem h m).
Definition lpp_c_load_i64 (h : heap) (ptr offset : Z) : outcome Z :=
  if ptr =? 0 then Ok 0 else let! a := chk64 (ptr + offset) in let! v := loadw 8 (hmem h) a in Ok (i64 v).
Definition lpp_c_store_i64 (h : heap) (ptr offset val : Z) : outcome heap :=
  if ptr =? 0 then Ok h
  else let! a := chk64 (ptr + offset) in let! m := storew 8 (hmem h) a val in Ok (set_mem h m).

(** ** Memory *)

Definition accessible (m : memory) (a n : Z) : Prop := forall x, a <= x < a + n -> is_Some (m x).

(** [m'] is [m] with stores to [a .. a+n-1]. *)
Definition upd (m m' : memory) (a n : Z) : Prop :=
  (forall x, ~ (a <= x < a + n) -> m' x = m x) /\ (forall x, is_Some (m x) -> is_Some (m' x)).

Lemma upd_weaken m m' a n a' n' : upd m m' a n -> a' <= a -> a + n <= a' + n' -> upd m m' a' n'.
Proof. intros [H1 H2] ? ?. split; [|done]. intros x Hx. apply H1. lia. Qed.
Lemma upd_trans m1 m2 m3 a n : upd m1 m2 a n -> upd m2 m3 a n -> upd m1 m3 a n.
Proof. intros [H1 H2] [H3 H4]. split; [|auto]. intros x Hx. by rewrite H3, H1. Qed.
Lemma upd_refl m a n : upd m m a n.
Proof. by split. Qed.
Lemma upd_accessible m m' a n b k : upd m m' a n -> accessible m b k -> accessible m' b k.
Proof. intros [_ H] Hm x Hx. by apply H, Hm. Qed.
Lemma accessible_sub m a n b k : accessible m a n -> a <= b -> b + k <= a + n -> accessible m b k.
Proof. intros H ? ? x Hx. apply H. lia. Qed.
#[local] Hint Resolve upd_refl : core.

(** A range is accessible because a larger one was before the last stores. *)
Ltac acc := first [eapply accessible_sub; [eassumption|lia..] | eapply upd_accessible; [eassumption|acc]].

Lemma load_ext k : forall m m' a, (forall x, a <= x < a + Z.of_nat k -> m' x = m x) -> load k m' a = load k m a.
Proof.
  induction k as [|k IH]; intros m m' a H; [done|]. cbn [load]. rewrite H by lia.
  destruct (m a); [|done]. by rewrite (IH m m') by (intros; apply H; lia).
Qed.

Lemma loadw_upd k m m' a n b : upd m m' a n -> b + Z.of_nat k <= a \/ a + n <= b -> loadw k m' b = loadw k m b.
Proof. intros [H _] Hd. unfold loadw. by rewrite (load_ext k m m') by (intros; apply H; lia). Qed.

Lemma load_app j : forall k m a, load (j + k) m a = let! x := load j m a in let! y := load k m (a + Z.of_nat j) in Ok (x ++ y).
Proof.
  induction j as [|j IH]; intros k m a; cbn [load Nat.add].
  - cbn [obind app]. rewrite Z.add_0_r. by destruct (load k m a).
  - destruct (m a); [|done]. rewrite IH. replace (a + 1 + Z.of_nat j) with (a + Z.of_nat (S j)) by lia.
    destruct (load j m (a + 1)); [|done..]. cbn [obind]. by destruct (load k m _).
Qed.

Lemma load_accessible k : forall m a, accessible m a (Z.of_nat k) -> exists bs, load k m a = Ok bs /\ length bs = k.
Proof.
  induction k as [|k IH]; intros m a H; cbn [load]; [by exists []|].
  destruct (H a) as [b ->]; [lia|]. destruct (IH m (a + 1)) as (bs & -> & Hl); [eapply accessible_sub; [done|lia..]|].
  exists (b :: bs). cbn. by rewrite Hl.
Qed.

Lemma loadw_accessible k m a : accessible m a (Z.of_nat k) -> exists v, loadw k m a = Ok v.
Proof. intros H. unfold loadw. destruct (load_accessible k m a H) as (bs & -> & _). by eexists. Qed.

Lemma store_spec bs : forall m a, accessible m a (Z.of_nat (length bs)) ->
  exists m', store m a bs = Ok m' /\ upd m m' a (Z.of_nat (length bs)) /\ load (length bs) m' a = Ok bs.
Proof.
  induction bs as [|b bs IH]; intros m a Ha; cbn [store length]; [by exists m|].
  destruct (Ha a) as [b0 E]; [cbn; lia|]. rewrite E. set (m1 := fun x => if x =? a then Some b else m x).
  assert (upd m m1 a 1) as H1.
  { split; intros x Hx; unfold m1; destruct (Z.eqb_spec x a); [lia|done|done|done]. }
  destruct (IH m1 (a + 1)) as (m' & -> & H2 & Hl).
  { eapply upd_accessible; [exact H1|]. eapply accessible_sub; [exact Ha|lia|]. cbn [length]. lia. }
  exists m'. split; [done|]. split.
  - eapply upd_trans; eapply upd_weaken; [exact H1| | |exact H2| |]; lia.
  - cbn [load]. destruct H2 as [Hf _]. rewrite Hf by lia. unfold m1 at 1. rewrite Z.eqb_refl, Hl. done.
Qed.

(** What a load of several bytes says of each. *)
Lemma load_length n m p d : load n m p = Ok d -> length d = n.
Proof.
  revert p d. induction n as [|n IH]; intros p d H; cbn [load] in H; [by injection H as <-|].
  destruct (m p); [|done]. destruct (load n m (p + 1)) eqn:E; try done. cbn [obind] in H. injection H as <-. cbn. by rewrite (IH _ _ E).
Qed.

Lemma load_mapped n m p d : load n m p = Ok d -> accessible m p (Z.of_nat n).
Proof.
  revert p d. induction n as [|n IH]; intros p d H x Hx; cbn [load] in H; [lia|].
  destruct (m p) eqn:E; [|done]. destruct (load n m (p + 1)) eqn:E'; try done.
  destruct (Z.eq_dec x p) as [->|]; [by eexists|]. apply (IH _ _ E' x). lia.
Qed.

Lemma load_lookup n m p d o : load n m p = Ok d -> (o < n)%nat -> m (p + Z.of_nat o) = d !! o.
Proof.
  revert p d o. induction n as [|n IH]; intros p d o H Ho; cbn [load] in H; [lia|].
  destruct (m p) eqn:E; [|done]. destruct (load n m (p + 1)) eqn:E'; try done. cbn [obind] in H. injection H as <-.
  destruct o as [|o]; [by rewrite Z.add_0_r, E|]. replace (p + Z.of_nat (S o)) with (p + 1 + Z.of_nat o) by lia.
  apply (IH _ _ o E'). lia.
Qed.

Lemma load_from m p d : (forall o, (o < length d)%nat -> m (p + Z.of_nat o) = d !! o) -> load (length d) m p = Ok d.
Proof.
  revert p. induction d as [|b d IH]; intros p H; [done|]. cbn [load length].
  pose proof (H 0%nat ltac:(cbn; lia)) as H0. rewrite Z.add_0_r in H0. rewrite H0. cbn [lookup list_lookup].
  rewrite IH; [done|]. intros o Ho. replace (p + 1 + Z.of_nat o) with (p + Z.of_nat (S o)) by lia. apply (H (S o)). cbn. lia.
Qed.

(** A piece of the loaded array. *)
Lemma load_piece n m p d o k : load n m p = Ok d -> 0 <= o -> 0 <= k -> o + k <= Z.of_nat n ->
  let bs := take (Z.to_nat k) (drop (Z.to_nat o) d) in load (length bs) m (p + o) = Ok bs /\ Z.of_nat (length bs) = k.
Proof.
  intros Hl Ho Hk Hn bs. pose proof (load_length _ _ _ _ Hl) as Hd.
  assert (length bs = Z.to_nat k) as Hb by (unfold bs; rewrite length_take, length_drop; lia). split; [|lia].
  apply load_from. rewrite Hb. intros j Hj. unfold bs. rewrite lookup_take_lt, lookup_drop by lia.
  rewrite <- Z.add_assoc. replace (o + Z.of_nat j) with (Z.of_nat (Z.to_nat o + j)) by lia. apply (load_lookup n); [done|lia].
Qed.

Lemma le_bytes_wrap n v : le_bytes n (uwrap (8 * Z.of_nat n) v) = le_bytes n v.
Proof.
  apply list_eq. intros i. destruct (decide (i < n)%nat).
  - rewrite !le_bytes_lookup by done. f_equal. apply Z.bits_inj'. intros j Hj. unfold u8.
    rewrite !uwrap_testbit, !Z.shiftr_spec, uwrap_testbit by lia. destruct (Z.ltb_spec j 8); [|done].
    by rewrite (proj2 (Z.ltb_lt _ _)) by lia.
  - by rewrite !lookup_ge_None_2 by (rewrite le_bytes_length; lia).
Qed.

Lemma le_value_bytes n v : le_value (le_bytes n v) = uwrap (8 * Z.of_nat n) v.
Proof. rewrite <- le_bytes_wrap. apply le_bytes_value, uwrap_range. lia. Qed.

Lemma storew_spec n m a v : accessible m a (Z.of_nat n) ->
  exists m', storew n m a v = Ok m' /\ upd m m' a (Z.of_nat n) /\ loadw n m' a = Ok (uwrap (8 * Z.of_nat n) v).
Proof.
  intros Ha. unfold storew, loadw. pose proof (store_spec (le_bytes n v) m a) as H. rewrite le_bytes_length in H.
  destruct (H Ha) as (m' & -> & Hu & Hl). exists m'. split_and!; [done|done|]. rewrite Hl. cbn. by rewrite le_value_bytes.
Qed.

Lemma zero_loop_spec k : forall m a, accessible m a (Z.of_nat k) ->
  exists m', zero_loop k m a = Ok m' /\ upd m m' a (Z.of_nat k) /\ (forall x, a <= x < a + Z.of_nat k -> m' x = Some 0).
Proof.
  induction k as [|k IH]; intros m a Ha; cbn [zero_loop]; [exists m; split_and!; [done|done|lia]|].
  destruct (store_spec [0] m a) as (m1 & -> & Hu & Hl); [eapply accessible_sub; [exact Ha|cbn; lia..]|]. cbn [obind].
  destruct (IH m1 (a + 1)) as (m' & -> & Hu' & Hz).
  { eapply upd_accessible; [exact Hu|]. eapply accessible_sub; [exact Ha|lia..]. }
  exists m'. split; [done|]. split.
  - eapply upd_trans; eapply upd_weaken; [exact Hu| | |exact Hu'| |]; cbn; lia.
  - intros x Hx. destruct (Z.eq_dec x a) as [->|]; [|apply Hz; lia]. rewrite (proj1 Hu') by lia.
    cbn [load length] in Hl. destruct (m1 a); [|done]. cbn [obind] in Hl. by injection Hl as ->.
Qed.

(** ** Blocks *)

(** A block is on loan to an object of a size class, or is a large object's own mapping. *)
Inductive bkind := Small (cls : nat) | Big (total : Z).
Definition csize (cls : nat) : Z := 32 * 2 ^ Z.of_nat cls.
Definition bsize (k : bkind) : Z := match k with Small c => csize c | Big t => t end.
Definition btag (k : bkind) : Z := match k with Small c => Z.of_nat c + 1 | Big t => u32 t end.

(** Two ranges share no address. *)
Definition sep (x y : Z * Z) : Prop := x.2 <= 0 \/ y.2 <= 0 \/ x.1 + x.2 <= y.1 \/ y.1 + y.2 <= x.1.
Fixpoint apart (l : list (Z * Z)) : Prop :=
  match l with [] => True | x :: r => Forall (sep x) r /\ apart r end.

Lemma sep_sym x y : sep x y -> sep y x.
Proof. unfold sep. tauto. Qed.

Lemma apart_perm l l' : l ≡ₚ l' -> apart l -> apart l'.
Proof.
  induction 1 as [|x l l' Hp IH|x y l|]; cbn [apart]; [done| | |auto].
  - intros [H1 H2]. split; [by rewrite <- Hp|auto].
  - rewrite !Forall_cons. intros ((H1 & H2) & H3 & H4). split_and!; try done. by apply sep_sym.
Qed.

#[export] Instance apart_proper : Proper ((≡ₚ) ==> iff) apart.
Proof. intros l l' Hp. split; by apply apart_perm. Qed.

Lemma apart_app l l' : apart (l ++ l') -> apart l /\ apart l'.
Proof.
  induction l as [|x l IH]; cbn [app apart]; [done|]. rewrite Forall_app. intros [[Ha Hb] Hr]. apply IH in Hr as [Hc Hd]. done.
Qed.

Definition extents (live : list (Z * bkind)) : list (Z * Z) := (fun '(a, k) => (a, bsize k)) <$> live.
Fixpoint fextents (c : nat) (free : list (list Z)) : list (Z * Z) :=
  match free with [] => [] | bs :: r => ((fun b => (b, csize c)) <$> bs) ++ fextents (S c) r end.

Lemma fextents_push free : forall c i b l, free !! i = Some l ->
  fextents c (<[i := b :: l]> free) ≡ₚ (b, csize (c + i)) :: fextents c free.
Proof.
  induction free as [|bs free IH]; intros c [|i] b l H; cbn in H; try done.
  - injection H as ->. cbn. by rewrite Nat.add_0_r.
  - cbn [insert list_insert fextents]. rewrite (IH (S c) i b l H). rewrite Nat.add_succ_r. cbn [Nat.add].
    by rewrite Permutation_middle.
Qed.

Lemma fextents_elem free : forall c x, x ∈ fextents c free <-> exists i l, free !! i = Some l /\ x.1 ∈ l /\ x.2 = csize (c + i).
Proof.
  induction free as [|bs free IH]; intros c [b n]; cbn [fextents].
  - split; [by intros ?%elem_of_nil|]. intros (i & l & H & _). by rewrite lookup_nil in H.
  - rewrite elem_of_app, IH, list_elem_of_fmap. cbn [fst snd]. split.
    + intros [(y & [= -> ->] & Hy)|(i & l & H & Hb & Hn)]; [exists 0%nat, bs; by rewrite Nat.add_0_r|].
      exists (S i), l. by rewrite Nat.add_succ_r.
    + intros ([|i] & l & H & Hb & Hn); cbn in H; [injection H as ->; rewrite Nat.add_0_r in Hn; left; exists b; by rewrite Hn|].
      right. exists i, l. by rewrite Nat.add_succ_r in Hn.
Qed.

(** The free list of a class: each block's first word is the next one's address. *)
Fixpoint chain (m : memory) (p : Z) (bs : list Z) : Prop :=
  match bs with
  | [] => p = 0
  | b :: r => p = b /\ exists q, loadw 8 m b = Ok q /\ chain m q r
  end.

Lemma chain_ext m m' bs : forall p, (forall b, b ∈ bs -> loadw 8 m' b = loadw 8 m b) -> chain m p bs -> chain m' p bs.
Proof.
  induction bs as [|b bs IH]; intros p Hb H; [done|]. destruct H as (-> & q & Hq & H). split; [done|]. exists q.
  split; [rewrite Hb; [done|by left]|]. apply IH; [|done]. intros b' ?. apply Hb. by right.
Qed.

Definition kind_ok (b : Z) (k : bkind) : Prop :=
  match k with
  | Small c => (c < 8)%nat
  | Big t => 4096 <= t /\ t mod 4096 = 0 /\ b mod 4096 = 0
  end.

(** Every block lies in mapped user memory, live blocks record their kind, and the free lists
    are what their heads say. *)
Record blocks_ok (m : memory) (heads : list Z) (live : list (Z * bkind)) (free : list (list Z)) : Prop := {
  bo_len : length free = 8%nat;
  bo_chains : Forall2 (chain m) heads free;
  bo_mapped : Forall (fun x => accessible m x.1 x.2 /\ 4096 <= x.1 /\ x.1 + x.2 <= 2 ^ 47 /\ 32 <= x.2) (extents live ++ fextents 0 free);
  bo_live : Forall (fun x => loadw 4 m (x.1 + off_map_size) = Ok (btag x.2) /\ kind_ok x.1 x.2) live
}.

Record heap_ok (h : heap) (live : list (Z * bkind)) (free : list (list Z)) : Prop := {
  ho_blocks : blocks_ok (hmem h) (lpp_free_lists h) live free;
  ho_apart : apart ((lpp_bump_cursor h, lpp_bump_left h) :: extents live ++ fextents 0 free);
  ho_bump : accessible (hmem h) (lpp_bump_cursor h) (lpp_bump_left h) /\ 0 <= lpp_bump_left h <= LPP_CHUNK_BYTES /\
    (0 < lpp_bump_left h -> 4096 <= lpp_bump_cursor h /\ lpp_bump_cursor h + lpp_bump_left h <= 2 ^ 47)
}.

(** What the kernel promises of [mmap]: a page-aligned range of user addresses nothing is
    mapped at. *)
Class Kernel (os : kernel) : Prop := kernel_fresh m n a : os m n = Some a ->
  a mod 4096 = 0 /\ 4096 <= a /\ a + n <= 2 ^ 47 /\ forall x, a <= x < a + n -> m x = None.

Lemma csize_pos c : 32 <= csize c.
Proof. unfold csize. pose proof (Z.pow_pos_nonneg 2 (Z.of_nat c)). lia. Qed.

Lemma csize_bytes c : (c < 8)%nat -> lpp_class_bytes (Z.of_nat c) = csize c /\ csize c <= 4096.
Proof. intros H. do 8 (destruct c as [|c]; [by vm_compute|]). lia. Qed.

(** Stores outside every block leave the blocks alone. *)
Lemma blocks_frame m m' heads live free a n : blocks_ok m heads live free ->
  (forall x, ~ (a <= x < a + n) -> m' x = m x) -> Forall (sep (a, n)) (extents live ++ fextents 0 free) ->
  blocks_ok m' heads live free.
Proof.
  intros [Hl Hc Hm Ht] Hf Hs. rewrite Forall_forall in Hs, Hm.
  assert (forall x b k, x ∈ extents live ++ fextents 0 free -> x.1 <= b -> b + Z.of_nat k <= x.1 + x.2 -> loadw k m' b = loadw k m b) as Hld.
  { intros x b k Hx H1 H2. specialize (Hs x Hx). unfold loadw. rewrite (load_ext k m m'); [done|].
    intros y Hy. apply Hf. unfold sep in Hs. destruct (Hm x Hx) as (_ & _ & _ & Hn). cbn [fst snd] in Hs. lia. }
  split; [done| | |].
  - apply Forall2_same_length_lookup. split; [by eapply Forall2_length|]. intros i p bs Hp Hbs.
    eapply chain_ext; [|by eapply Forall2_lookup_lr]. intros b Hb. pose proof (csize_pos i).
    apply (Hld (b, csize i)); [|cbn; lia..]. apply elem_of_app. right. apply fextents_elem. by exists i, bs.
  - apply Forall_forall. intros x Hx. destruct (Hm x Hx) as (Ha & Hr). pose proof Hr as (_ & _ & Hn). split; [|done]. intros y Hy.
    specialize (Hs x Hx). unfold sep in Hs. cbn [fst snd] in Hs. rewrite Hf by lia. by apply Ha.
  - rewrite Forall_forall in Ht |- *. intros [b k] Hx. destruct (Ht _ Hx) as [H1 H2]. split; [|done]. cbn [fst snd] in *.
    assert ((b, bsize k) ∈ extents live ++ fextents 0 free) as Hin.
    { apply elem_of_app. left. apply list_elem_of_fmap. by exists (b, k). }
    rewrite (Hld _ _ 4%nat Hin); [done|cbn; unfold off_map_size; lia|]. destruct (Hm _ Hin) as (_ & _ & _ & Hn).
    cbn in Hn |- *. unfold off_map_size. lia.
Qed.

(** [h'] has given up the block [b .. b+n-1] of [h] and still has everything else. *)
Record lent (h h' : heap) (b n : Z) (live : list (Z * bkind)) (free : list (list Z)) : Prop := {
  le_blocks : blocks_ok (hmem h') (lpp_free_lists h') live free;
  le_apart : apart ((b, n) :: (lpp_bump_cursor h', lpp_bump_left h') :: extents live ++ fextents 0 free);
  le_bump : accessible (hmem h') (lpp_bump_cursor h') (lpp_bump_left h') /\ 0 <= lpp_bump_left h' <= LPP_CHUNK_BYTES /\
    (0 < lpp_bump_left h' -> 4096 <= lpp_bump_cursor h' /\ lpp_bump_cursor h' + lpp_bump_left h' <= 2 ^ 47);
  le_block : accessible (hmem h') b n /\ 4096 <= b /\ b + n <= 2 ^ 47;
  le_mem : forall x, is_Some (hmem h x) -> hmem h' x = hmem h x;
  le_gen : fs_generation_counter h' = fs_generation_counter h
}.

Lemma unmapped_sep m a k x n : accessible m x n -> 0 < n -> (forall y, a <= y < a + k -> m y = None) -> 0 < k -> sep (a, k) (x, n).
Proof.
  intros Ha Hn Hu Hk. unfold sep. cbn. destruct (Z.le_gt_cases (a + k) x); [lia|]. destruct (Z.le_gt_cases (x + n) a); [lia|].
  destruct (Ha (Z.max a x)) as [v Hv]; [lia|]. rewrite Hu in Hv by lia. done.
Qed.

(** A fresh mapping is apart from every block. *)
Lemma mmap_apart os `{!Kernel os} h live free a n : heap_ok h live free -> 0 < n -> os (hmem h) n = Some a ->
  Forall (sep (a, n)) (extents live ++ fextents 0 free).
Proof.
  intros [[_ _ Hm _] _ _] Hn Ho. destruct (kernel_fresh _ _ _ Ho) as (_ & _ & _ & Hu).
  eapply Forall_weaken; [exact Hm|]. intros [x k] (H1 & _ & _ & H4). cbn [fst snd] in *. eapply unmapped_sep; [done|lia|done|done].
Qed.

Lemma mmap_blocks os `{!Kernel os} h live free a n : heap_ok h live free -> 0 < n -> os (hmem h) n = Some a ->
  blocks_ok (map_zero (hmem h) a n) (lpp_free_lists h) live free.
Proof.
  intros Hh Hn Ho. eapply (blocks_frame _ _ _ _ _ a n); [exact (ho_blocks _ _ _ Hh)| |by eapply mmap_apart].
  intros x Hx. unfold map_zero. destruct ((a <=? x) && (x <? a + n)) eqn:E; [bool_to_prop; lia|done].
Qed.

Lemma mmap_mem a n m x : 0 <= n -> a <= x < a + n -> map_zero m a n x = Some 0.
Proof. intros ? ?. unfold map_zero. by rewrite (proj2 (Z.leb_le a x)), (proj2 (Z.ltb_lt x (a + n))) by lia. Qed.

Lemma mmap_old a n (m : memory) x : (forall y, a <= y < a + n -> m y = None) -> is_Some (m x) ->
  map_zero m a n x = m x.
Proof.
  intros Hu Hx. unfold map_zero. destruct ((a <=? x) && (x <? a + n)) eqn:E; [|done]. bool_to_prop. rewrite Hu in Hx by lia. by destruct Hx.
Qed.

Lemma refill_ok os `{!Kernel os} h live free a : heap_ok h live free -> os (hmem h) LPP_CHUNK_BYTES = Some a ->
  heap_ok (set_bump (set_mem h (map_zero (hmem h) a LPP_CHUNK_BYTES)) a LPP_CHUNK_BYTES) live free.
Proof.
  intros Hh Ho. assert (0 < LPP_CHUNK_BYTES) as Hn by done. destruct (kernel_fresh _ _ _ Ho) as (_ & H1 & H2 & _). split.
  - by apply (mmap_blocks os h live free a).
  - cbn [lpp_bump_cursor lpp_bump_left set_bump apart]. split; [by apply (mmap_apart os h)|]. by destruct (ho_apart _ _ _ Hh).
  - cbn [hmem set_mem set_bump lpp_bump_cursor lpp_bump_left]. split_and!; try done.
    intros x Hx. rewrite mmap_mem by lia. done.
Qed.

Lemma bump_spec h live free c : heap_ok h live free -> (c < 8)%nat -> csize c <= lpp_bump_left h ->
  lent h (set_bump h (lpp_bump_cursor h + csize c) (u64 (lpp_bump_left h - csize c))) (lpp_bump_cursor h) (csize c) live free.
Proof.
  intros [Hb Ha (Hacc & Hl & Hr)] Hc Hle. pose proof (csize_pos c). unfold LPP_CHUNK_BYTES in Hl. rewrite u64_id by (pow2; lia).
  destruct Hr as [Hr1 Hr2]; [lia|]. destruct Ha as [Hs Ha].
  split; cbn [hmem set_bump lpp_free_lists lpp_bump_cursor lpp_bump_left fs_generation_counter]; try done.
  - cbn [apart]. split_and!; [|eapply Forall_weaken; [exact Hs|intros x Hx; unfold sep in *; cbn [fst snd] in *; lia]|done].
    constructor; [unfold sep; cbn; lia|]. eapply Forall_weaken; [exact Hs|]. intros x Hx. unfold sep in *. cbn [fst snd] in *. lia.
  - split_and!; try (unfold LPP_CHUNK_BYTES; lia). eapply accessible_sub; [exact Hacc|lia..].
  - split_and!; try lia. eapply accessible_sub; [exact Hacc|lia..].
Qed.

Lemma reuse_spec h live free c b next : heap_ok h live free -> (c < 8)%nat -> lpp_free_lists h !! c = Some b -> b <> 0 ->
  loadw 8 (hmem h) b = Ok next -> exists free', lent h (set_free h c next) b (csize c) live free' /\
    fextents 0 free ≡ₚ (b, csize c) :: fextents 0 free'.
Proof.
  intros [[Hl Hch Hm Ht] Ha Hbump] Hc Hh Hb Hn. destruct (Forall2_lookup_l _ _ _ _ _ Hch Hh) as (bs & Hf & Hcb).
  destruct bs as [|b' r]; [done|]. destruct Hcb as (<- & q & Hq & Hcr). rewrite Hn in Hq. injection Hq as <-.
  set (free' := <[c := r]> free). exists free'.
  assert (free' !! c = Some r) as Hf' by (apply list_lookup_insert_eq; apply lookup_lt_Some in Hf; done).
  assert (fextents 0 free ≡ₚ (b, csize c) :: fextents 0 free') as Hp.
  { rewrite <- (fextents_push free' 0 c b r Hf'). unfold free'. by rewrite list_insert_insert_eq, list_insert_id. }
  assert (extents live ++ fextents 0 free ≡ₚ (b, csize c) :: extents live ++ fextents 0 free') as Hp' by (rewrite Hp; by rewrite <- Permutation_middle).
  rewrite Hp' in Hm, Ha. apply Forall_cons in Hm as [Hmb Hm]. cbn [fst snd] in Hmb. split; [|exact Hp].
  split; cbn [hmem set_free lpp_free_lists lpp_bump_cursor lpp_bump_left fs_generation_counter]; try done.
  - split; [by unfold free'; rewrite length_insert|by apply Forall2_insert|done|done].
  - eapply apart_perm; [apply Permutation_swap|]. exact Ha.
  - by destruct Hmb as (? & ? & ? & _).
Qed.

Lemma take_block_spec os `{!Kernel os} h live free c : heap_ok h live free -> (c < 8)%nat ->
  take_block os h (Z.of_nat c) = Ok (0, h) \/
  exists b h' free', take_block os h (Z.of_nat c) = Ok (b, h') /\ lent h h' b (csize c) live free' /\
    forall e, e ∈ fextents 0 free -> e = (b, csize c) \/ e ∈ fextents 0 free'.
Proof.
  intros Hh Hc. unfold take_block. destruct (csize_bytes c Hc) as [-> _]. pose proof (csize_pos c).
  pose proof (ho_blocks _ _ _ Hh) as Hb. pose proof (Forall2_length _ _ _ (bo_chains _ _ _ _ Hb)) as Hlen. rewrite (bo_len _ _ _ _ Hb) in Hlen.
  destruct (lookup_lt_is_Some_2 (lpp_free_lists h) c) as [head Hhead]; [lia|].
  rewrite (rd_ok _ _ head) by (rewrite ?Nat2Z.id; lia || done). cbn [obind]. rewrite Nat2Z.id.
  destruct (Z.eqb_spec head 0) as [->|Hne]; cbn [negb].
  - destruct (Z.ltb_spec (lpp_bump_left h) (csize c)) as [Hlt|Hge].
    + unfold lpp_sys_mmap. destruct (os (hmem h) LPP_CHUNK_BYTES) as [a|] eqn:Eo; [|by left]. right.
      destruct (kernel_fresh _ _ _ Eo) as (_ & H1 & _ & Hu). rewrite (proj2 (Z.eqb_neq a 0)) by lia.
      pose proof (refill_ok os h live free a Hh Eo) as Hh2. set (h2 := set_bump _ _ _) in *.
      assert (csize c <= lpp_bump_left h2) as Hle by (pose proof (csize_bytes c Hc) as [_ ?]; cbn; unfold LPP_CHUNK_BYTES; lia).
      destruct (bump_spec h2 live free c Hh2 Hc Hle) as [B1 B2 B3 B4 B5 B6].
      eexists _, _, free. split; [reflexivity|]. split; [|by right]. split; try done. intros x Hx.
      rewrite <- (mmap_old a LPP_CHUNK_BYTES (hmem h) x Hu Hx). apply B5. unfold h2. cbn [hmem set_bump set_mem]. by rewrite mmap_old.
    + right. eexists _, _, free. split; [reflexivity|]. split; [by apply bump_spec|by right].
  - assert (exists next, loadw 8 (hmem h) head = Ok next) as [next Hn].
    { destruct (Forall2_lookup_l _ _ _ _ _ (bo_chains _ _ _ _ Hb) Hhead) as (bs & _ & Hcb).
      destruct bs; [done|]. destruct Hcb as (<- & q & Hq & _). by eexists. }
    rewrite Hn. cbn [obind]. destruct (reuse_spec h live free c head next Hh Hc Hhead Hne Hn) as (free' & Hle & Hp). right.
    eexists _, _, free'. split; [reflexivity|]. split; [done|]. intros e. rewrite Hp, elem_of_cons. tauto.
Qed.

(** ** Allocation *)

Lemma class_loop_spec fuel : forall c need, (c <= 8)%nat -> (8 - c < fuel)%nat ->
  exists c', class_loop fuel (Z.of_nat c) need = Ok (Z.of_nat c') /\ (c' <= 8)%nat /\ ((c' < 8)%nat -> need <= csize c') /\
    (c' = 8%nat -> c = 8%nat \/ 4096 < need).
Proof.
  induction fuel as [|fuel IH]; intros c need Hc Hf; [lia|]. cbn [class_loop]. unfold LPP_SIZE_CLASSES.
  destruct (Z.ltb_spec (Z.of_nat c) 8) as [H8|H8]; cbn [andb].
  2: { exists c. split_and!; try done; lia. }
  destruct (csize_bytes c) as [-> _]; [lia|]. destruct (Z.ltb_spec (csize c) need) as [Hn|Hn].
  - replace (Z.of_nat c + 1) with (Z.of_nat (S c)) by lia. destruct (IH (S c) need) as (c' & -> & H1 & H2 & H3); [lia..|].
    exists c'. split_and!; try done. intros E. destruct (H3 E) as [E2|]; [|by right]. right.
    assert (c = 7%nat) as -> by lia. change (csize 7) with 4096 in Hn. lia.
  - exists c. split_and!; try done; lia.
Qed.

(** The kind of block a payload of [size] bytes gets. *)
Definition block_kind (size : Z) : bkind :=
  let need := u64 (size + sizeof_header) in
  match lpp_class_for need with
  | Ok cls => if cls >=? LPP_SIZE_CLASSES then Big (lpp_page_round need) else Small (Z.to_nat cls)
  | _ => Big 0
  end.

Lemma heap_ok_perm h live live' free : live ≡ₚ live' -> heap_ok h live free -> heap_ok h live' free.
Proof.
  intros Hp [[H1 H2 H3 H4] H5 H6]. assert (extents live ≡ₚ extents live') as He by (by apply fmap_Permutation).
  rewrite He in H3, H5. rewrite Hp in H4. by split.
Qed.

Lemma lent_ok h h1 b k live free m' g : lent h h1 b (bsize k) live free -> upd (hmem h1) m' b (bsize k) ->
  loadw 4 m' (b + off_map_size) = Ok (btag k) -> kind_ok b k -> 32 <= bsize k ->
  heap_ok (set_generation (set_mem h1 m') g) ((b, k) :: live) free.
Proof.
  intros [Hb [Hs1 [Hs2 Ha]] Hbump (Hacc & Hlo & Hhi) _ _] Hu Ht Hk Hn. apply Forall_cons in Hs1 as [Hsb Hs1].
  assert (blocks_ok m' (lpp_free_lists h1) live free) as [F1 F2 F3 F4].
  { eapply blocks_frame; [exact Hb|exact (proj1 Hu)|exact Hs1]. }
  split; cbn [set_generation set_mem hmem lpp_free_lists lpp_bump_cursor lpp_bump_left].
  - split; [done|done| |].
    + cbn [extents fmap list_fmap app]. constructor; [|done]. cbn [fst snd]. split_and!; try done. eapply upd_accessible; [exact Hu|done].
    + by constructor.
  - cbn [extents fmap list_fmap app apart]. split; [constructor; [by apply sep_sym|done]|]. done.
  - destruct Hbump as (H1 & H2 & H3). split_and!; try done; try lia. by eapply upd_accessible.
Qed.

Lemma init_header_spec h b d : accessible (hmem h) b 24 -> exists m',
  init_header h b d = Ok (set_generation (set_mem h m') (i32 (fs_generation_counter h + 1))) /\ upd (hmem h) m' b 24 /\
  loadw 4 m' (b + off_magic) = Ok LPP_ARC_MAGIC /\ loadw 4 m' (b + off_refcount) = Ok 1 /\
  loadw 4 m' (b + off_generation) = Ok (u32 (fs_generation_counter h + 1)) /\
  loadw 4 m' (b + off_map_size) = loadw 4 (hmem h) (b + off_map_size) /\
  loadw 8 m' (b + off_destructor) = Ok (u64 d).
Proof.
  intros Ha. unfold init_header, off_magic, off_refcount, off_generation, off_map_size, off_destructor in *.
  destruct (storew_spec 4 (hmem h) (b + 0) LPP_ARC_MAGIC) as (m1 & -> & U1 & L1); [acc|]. cbn [obind].
  destruct (storew_spec 4 m1 (b + 4) 1) as (m2 & -> & U2 & L2); [acc|]. cbn [obind].
  destruct (storew_spec 4 m2 (b + 8) (i32 (fs_generation_counter h + 1))) as (m3 & -> & U3 & L3); [acc|]. cbn [obind].
  destruct (storew_spec 8 m3 (b + 16) d) as (m4 & -> & U4 & L4); [acc|].
  cbn [obind]. exists m4. split; [done|]. split_and!.
  - apply (upd_trans _ m1); [eapply upd_weaken; [exact U1|lia..]|]. apply (upd_trans _ m2); [eapply upd_weaken; [exact U2|lia..]|].
    apply (upd_trans _ m3); [eapply upd_weaken; [exact U3|lia..]|]. eapply upd_weaken; [exact U4|lia..].
  - rewrite (loadw_upd _ _ _ _ _ _ U4), (loadw_upd _ _ _ _ _ _ U3), (loadw_upd _ _ _ _ _ _ U2), L1 by lia. done.
  - rewrite (loadw_upd _ _ _ _ _ _ U4), (loadw_upd _ _ _ _ _ _ U3), L2 by lia. done.
  - rewrite (loadw_upd _ _ _ _ _ _ U4), L3 by lia. f_equal. by apply uwrap_swrap.
  - by rewrite (loadw_upd _ _ _ _ _ _ U4), (loadw_upd _ _ _ _ _ _ U3), (loadw_upd _ _ _ _ _ _ U2), (loadw_upd _ _ _ _ _ _ U1) by lia.
  - exact L4.
Qed.

(** The object made at [b]. *)
Record fresh_object (h h' : heap) (b n size d : Z) : Prop := {
  fo_size : size + sizeof_header <= n;
  fo_magic : loadw 4 (hmem h') (b + off_magic) = Ok LPP_ARC_MAGIC;
  fo_refcount : loadw 4 (hmem h') (b + off_refcount) = Ok 1;
  fo_generation : loadw 4 (hmem h') (b + off_generation) = Ok (u32 (fs_generation_counter h + 1));
  fo_destructor : loadw 8 (hmem h') (b + off_destructor) = Ok (u64 d);
  fo_zero : forall x, b + sizeof_header <= x < b + n -> hmem h' x = Some 0;
  fo_counter : fs_generation_counter h' = i32 (fs_generation_counter h + 1)
}.

(** Bytes of other live blocks stay. *)
Definition untouched (live : list (Z * bkind)) (h h' : heap) : Prop :=
  forall b k x, (b, k) ∈ live -> b <= x < b + bsize k -> hmem h' x = hmem h x.

(** What is outside the new block: the bytes that were mapped, and the free blocks. *)
Definition elsewhere (h h' : heap) (b n : Z) (free free' : list (list Z)) : Prop :=
  (forall x, is_Some (hmem h x) -> ~ (b <= x < b + n) -> hmem h' x = hmem h x) /\
  (forall e, e ∈ fextents 0 free -> e = (b, n) \/ e ∈ fextents 0 free').

(** From a block on loan to an object in it. *)
Lemma object_ok h h1 b k live free0 free m1 size d : heap_ok h live free0 -> lent h h1 b (bsize k) live free -> upd (hmem h1) m1 b (bsize k) ->
  (forall x, b + sizeof_header <= x < b + bsize k -> m1 x = Some 0) -> loadw 4 m1 (b + off_map_size) = Ok (btag k) ->
  kind_ok b k -> size + sizeof_header <= bsize k -> 32 <= bsize k ->
  exists h', init_header (set_mem h1 m1) b d = Ok h' /\ heap_ok h' ((b, k) :: live) free /\
    fresh_object h h' b (bsize k) size d /\ untouched live h h' /\
    (forall x, is_Some (hmem h x) -> ~ (b <= x < b + bsize k) -> hmem h' x = hmem h x).
Proof.
  intros Hh Hl Hu Hz Ht Hk Hsz Hn. destruct (init_header_spec (set_mem h1 m1) b d) as (m' & -> & U & L1 & L2 & L3 & L4 & L5).
  { destruct Hl as [_ _ _ (Ha & _) _ _]. cbn [hmem set_mem]. eapply upd_accessible; [exact Hu|]. eapply accessible_sub; [exact Ha|lia..]. }
  cbn [set_mem hmem fs_generation_counter] in *. rewrite (le_gen _ _ _ _ _ _ Hl) in *.
  assert (upd (hmem h1) m' b (bsize k)) as Hu' by (eapply upd_trans; [exact Hu|eapply upd_weaken; [exact U|lia..]]).
  eexists. split; [reflexivity|]. split; [|split; [|split]].
  - change (set_generation (set_mem (set_mem h1 m1) m')) with (set_generation (set_mem h1 m')).
    eapply lent_ok; [exact Hl|done|by rewrite L4|done|done].
  - split; cbn [hmem set_mem set_generation fs_generation_counter]; try done.
    intros x Hx. rewrite (proj1 U) by (unfold sizeof_header in Hx; lia). by apply Hz.
  - intros c kc x Hc Hx. cbn [hmem set_mem set_generation]. destruct Hl as [Hb [Hs _] _ _ Hm _].
    assert ((c, bsize kc) ∈ extents live) as He by (apply list_elem_of_fmap; by exists (c, kc)).
    apply Forall_cons in Hs as [_ Hs]. apply Forall_app in Hs as [Hs _]. rewrite Forall_forall in Hs. apply Hs in He as Hsep.
    pose proof (bo_mapped _ _ _ _ (ho_blocks _ _ _ Hh)) as Hmap. apply Forall_app in Hmap as [Hmap _].
    rewrite Forall_forall in Hmap. apply Hmap in He as (Hacc & _). unfold sep in Hsep. cbn in Hsep.
    rewrite (proj1 Hu') by lia. apply Hm. by apply Hacc.
  - intros x Hx Hout. cbn [hmem set_mem set_generation]. rewrite (proj1 Hu') by lia. by apply (le_mem _ _ _ _ _ _ Hl).
Qed.

Lemma alloc_small os `{!Kernel os} h live free c size d : heap_ok h live free -> (c < 8)%nat -> size + sizeof_header <= csize c ->
  let r := let! '(header, h) :=
             (let! '(header, h) := take_block os h (Z.of_nat c) in
              if header =? 0 then Ok (0, h)
              else
                let! m := zero_loop (Z.to_nat (lpp_class_bytes (Z.of_nat c))) (hmem h) header in
                let! m := storew 4 m (header + off_map_size) (u32 (Z.of_nat c + 1)) in
                Ok (header, set_mem h m)) in
           if header =? 0 then Ok (0, h)
           else let! h := init_header h header d in Ok (header + sizeof_header, h) in
  take_block os h (Z.of_nat c) = Ok (0, h) /\ r = Ok (0, h) \/
  exists b h' free', (exists h1, take_block os h (Z.of_nat c) = Ok (b, h1)) /\ r = Ok (b + sizeof_header, h') /\ 4096 <= b /\ heap_ok h' ((b, Small c) :: live) free' /\
    fresh_object h h' b (csize c) size d /\ untouched live h h' /\ elsewhere h h' b (csize c) free free'.
Proof.
  intros Hh Hc Hsz r. subst r. pose proof (csize_pos c) as Hp. destruct (take_block_spec os h live free c Hh Hc) as [->|(b & h1 & free' & -> & Hl & Hfr)]; [by left|].
  right. exists b. cbn [obind]. destruct (le_block _ _ _ _ _ _ Hl) as (Hacc & Hlo & _). rewrite (proj2 (Z.eqb_neq b 0)) by lia.
  destruct (csize_bytes c Hc) as [-> _].
  destruct (zero_loop_spec (Z.to_nat (csize c)) (hmem h1) b) as (m1 & -> & U1 & Z1); rewrite Z2Nat.id in * by lia; [done|]. cbn [obind].
  destruct (storew_spec 4 m1 (b + off_map_size) (u32 (Z.of_nat c + 1))) as (m2 & -> & U2 & L2); [unfold off_map_size; acc|]. cbn [obind].
  rewrite (proj2 (Z.eqb_neq b 0)) by lia. unfold off_map_size, sizeof_header in *.
  destruct (object_ok h h1 b (Small c) live free free' m2 size d Hh Hl) as (h' & -> & H1 & H2 & H3 & H4); try done.
  - eapply upd_trans; [exact U1|]. eapply upd_weaken; [exact U2|cbn; lia..].
  - intros x Hx. rewrite (proj1 U2) by (unfold sizeof_header in Hx; lia). apply Z1. unfold sizeof_header in Hx. cbn in Hx. lia.
  - unfold off_map_size. rewrite L2. f_equal. cbn [btag]. change (8 * Z.of_nat 4) with 32. unfold u32. rewrite uwrap_uwrap. apply uwrap_id. lia.
  - exists h', free'. split; [by eexists|]. by unfold elsewhere.
Qed.

Lemma big_total need : 4096 < need < 2 ^ 64 - 4096 -> let t := lpp_page_round need in need <= t /\ t mod 4096 = 0 /\ 8192 <= t.
Proof. intros H t. subst t. rewrite page_round_eq by lia. split_and!; dlia. Qed.

Lemma alloc_big os `{!Kernel os} h live free total size d : heap_ok h live free -> 8192 <= total -> total mod 4096 = 0 ->
  size + sizeof_header <= total ->
  let r := let! '(header, h) :=
             (let '(header, h) := lpp_sys_mmap os h total in
              if header =? 0 then Ok (0, h)
              else let! m := storew 4 (hmem h) (header + off_map_size) (u32 total) in Ok (header, set_mem h m)) in
           if header =? 0 then Ok (0, h)
           else let! h := init_header h header d in Ok (header + sizeof_header, h) in
  r = Ok (0, h) \/ exists b h' free', r = Ok (b + sizeof_header, h') /\ 4096 <= b /\ heap_ok h' ((b, Big total) :: live) free' /\
    fresh_object h h' b total size d /\ untouched live h h' /\ elsewhere h h' b total free free'.
Proof.
  intros Hh Ht Hm Hsz r. subst r. unfold lpp_sys_mmap. destruct (os (hmem h) total) as [b|] eqn:Eo; [|by left]. right.
  destruct (kernel_fresh _ _ _ Eo) as (Hal & Hlo & Hhi & Hu). rewrite (proj2 (Z.eqb_neq b 0)) by lia.
  set (h1 := set_mem h (map_zero (hmem h) b total)).
  assert (accessible (hmem h1) b total) as Hacc by (intros x Hx; cbn; by rewrite mmap_mem by lia).
  pose proof (mmap_apart os h live free b total Hh ltac:(lia) Eo) as Hsep.
  assert (lent h h1 b (bsize (Big total)) live free) as Hl.
  { pose proof Hh as [Hb Ha (B1 & B2 & B3)]. split; try done.
    - apply (mmap_blocks os h live free b total); [done|lia|done].
    - cbn [apart]. split; [|exact Ha]. constructor; [|done]. cbn [h1 set_mem lpp_bump_cursor lpp_bump_left].
      destruct (Z.eq_dec (lpp_bump_left h) 0) as [E0|]; [|apply (unmapped_sep (hmem h)); [exact B1|lia|exact Hu|cbn; lia]].
      unfold sep. cbn. rewrite E0. lia.
    - cbn [h1 set_mem lpp_bump_cursor lpp_bump_left hmem]. split_and!; try done; try lia. intros x Hx. rewrite mmap_old; auto.
    - intros x Hx. cbn. by apply mmap_old. }
  destruct (storew_spec 4 (hmem h1) (b + off_map_size) (u32 total)) as (m2 & -> & U2 & L2); [unfold off_map_size; acc|]. cbn [obind].
  rewrite (proj2 (Z.eqb_neq b 0)) by lia. unfold off_map_size, sizeof_header in *.
  destruct (object_ok h h1 b (Big total) live free free m2 size d Hh Hl) as (h' & -> & H1 & H2 & H3 & H4); try done.
  - eapply upd_weaken; [exact U2|cbn; lia..].
  - intros x Hx. unfold sizeof_header in Hx. cbn in Hx. rewrite (proj1 U2) by lia. cbn. rewrite mmap_mem by lia. done.
  - unfold off_map_size. rewrite L2. f_equal. cbn [btag]. change (8 * Z.of_nat 4) with 32. unfold u32. by rewrite uwrap_uwrap.
  - cbn. lia.
  - cbn. lia.
  - exists b, h', free. split_and!; try done. split; [done|by right].
Qed.

Lemma alloc_spec os `{!Kernel os} h live free size d : heap_ok h live free -> size <= INT64_MAX ->
  let r := lpp_arc_alloc_with_destructor_fs os h size d in
  r = Ok (0, h) \/ exists b h' free', r = Ok (b + sizeof_header, h') /\ 4096 <= b /\ 0 <= size /\ heap_ok h' ((b, block_kind size) :: live) free' /\
    fresh_object h h' b (bsize (block_kind size)) size d /\ untouched live h h' /\ elsewhere h h' b (bsize (block_kind size)) free free'.
Proof.
  intros Hh Hsz r. subst r. unfold lpp_arc_alloc_with_destructor_fs. destruct (Z.ltb_spec size 0) as [|Hs]; [by left|].
  unfold block_kind, lpp_class_for. rewrite u64_id by (unfold sizeof_header; pow2; lia).
  destruct (class_loop_spec 9 0 (size + sizeof_header)) as (c & Hcl & Hc & Hfit & Hbig); [lia..|]. change (Z.of_nat 0) with 0 in Hcl. rewrite Hcl.
  cbn [obind]. rewrite Z.geb_leb. unfold LPP_SIZE_CLASSES. destruct (Z.leb_spec 8 (Z.of_nat c)) as [H8|H8].
  - destruct Hbig as [|Hbig]; [lia|done|]. destruct (big_total (size + sizeof_header)) as (T1 & T2 & T3); [unfold sizeof_header in *; pow2; lia|].
    destruct (alloc_big os h live free _ size d Hh T3 T2 T1) as [|(b & h' & free' & H)]; [by left|]. right. exists b, h', free'. tauto.
  - rewrite Nat2Z.id. destruct (alloc_small os h live free c size d Hh) as [[_ ->]|(b & h' & free' & _ & H)]; [lia|apply Hfit; lia|by left|].
    right. exists b, h', free'. tauto.
Qed.

(** ** Freeing *)

(** Whatever happens inside a block concerns only its owner. *)
Lemma heap_frame h b k live free m' : heap_ok h ((b, k) :: live) free ->
  (forall x, ~ (b <= x < b + bsize k) -> m' x = hmem h x) -> heap_ok (set_mem h m') live free.
Proof.
  intros [[H1 H2 H3 H4] [Hs Ha] (B1 & B2 & B3)] Hf. cbn [extents fmap list_fmap app] in *.
  apply Forall_cons in Hs as [Hsb Hs]. destruct Ha as [Hsl Ha]. apply Forall_cons in H3 as [H3b H3]. apply Forall_cons in H4 as [H4b H4].
  split; cbn [set_mem hmem lpp_free_lists lpp_bump_cursor lpp_bump_left].
  - apply (blocks_frame (hmem h) m' _ live free b (bsize k)); [by split|done|exact Hsl].
  - by split.
  - split_and!; try done; try lia. intros x Hx. unfold sep in Hsb. cbn [fst snd] in *. rewrite Hf by lia. by apply B1.
Qed.

Lemma push_free h b c l live free : heap_ok h live free -> (c < 8)%nat -> free !! c = Some l ->
  Forall (sep (b, csize c)) ((lpp_bump_cursor h, lpp_bump_left h) :: extents live ++ fextents 0 free) ->
  accessible (hmem h) b (csize c) -> 4096 <= b -> b + csize c <= 2 ^ 47 ->
  (forall p, lpp_free_lists h !! c = Some p -> loadw 8 (hmem h) b = Ok p) ->
  heap_ok (set_free h c b) live (<[c := b :: l]> free).
Proof.
  intros [[H1 H2 H3 H4] [Hs Ha] Hbump] Hc Hl Hsep Hacc Hlo Hhi Hload.
  destruct (Forall2_lookup_r _ _ _ _ _ H2 Hl) as (p & Hp & Hch).
  assert (extents live ++ fextents 0 (<[c := b :: l]> free) ≡ₚ (b, csize c) :: extents live ++ fextents 0 free) as HP.
  { rewrite (fextents_push free 0 c b l Hl). by rewrite <- Permutation_middle. }
  apply Forall_cons in Hsep as [Hsb Hsep].
  split; cbn [set_free hmem lpp_free_lists lpp_bump_cursor lpp_bump_left]; [| |done].
  - split; [by rewrite length_insert| | |done].
    + apply Forall2_insert; [done|]. split; [done|]. exists p. auto.
    + rewrite HP. constructor; [|done]. cbn [fst snd]. pose proof (csize_pos c). done.
  - cbn [apart]. rewrite HP. cbn [apart]. split_and!; try done. constructor; [by apply sep_sym|done].
Qed.

Lemma heads_range h live free c p : heap_ok h live free -> lpp_free_lists h !! c = Some p -> 0 <= p <= 2 ^ 47.
Proof.
  intros [[H1 H2 H3 _] _ _] Hp. destruct (Forall2_lookup_l _ _ _ _ _ H2 Hp) as (bs & Hb & Hch).
  destruct bs as [|b r]; [rewrite Hch; pow2; lia|]. destruct Hch as (-> & _). apply Forall_app in H3 as [_ H3].
  rewrite Forall_forall in H3. destruct (H3 (b, csize c)) as (_ & ? & ? & _).
  { apply fextents_elem. exists c, (b :: r). split_and!; [done|by left|done]. }
  cbn [fst snd] in *. pose proof (csize_pos c). lia.
Qed.

Lemma munmap_big h b t : t mod 4096 = 0 -> 0 <= t -> forall x, ~ (b <= x < b + t) -> hmem (lpp_sys_munmap h b (u32 t)) x = hmem h x.
Proof.
  intros Ht H0 x Hx. unfold lpp_sys_munmap. destruct (_ || _); [done|]. cbn [hmem set_mem].
  assert (u32 t <= t /\ (u32 t) mod 4096 = 0 /\ 0 <= u32 t) as (Hle & Hm & Hp).
  { unfold u32, uwrap. pow2. split_and!; dlia. }
  destruct ((b <=? x) && (x <? _)) eqn:E; [|done]. bool_to_prop.
  assert ((u32 t + 4095) / 4096 * 4096 = u32 t) by dlia. lia.
Qed.

Lemma live_parts h b k live free : heap_ok h ((b, k) :: live) free ->
  loadw 4 (hmem h) (b + off_map_size) = Ok (btag k) /\ kind_ok b k /\ accessible (hmem h) b (bsize k) /\ 4096 <= b /\
  b + bsize k <= 2 ^ 47 /\ 32 <= bsize k /\
  Forall (sep (b, bsize k)) ((lpp_bump_cursor h, lpp_bump_left h) :: extents live ++ fextents 0 free).
Proof.
  intros [[H1 H2 H3 H4] [Hs Ha] _]. cbn [extents fmap list_fmap app] in *. apply Forall_cons in H4 as [[? ?] _].
  apply Forall_cons in H3 as [(? & ? & ? & ?) _]. apply Forall_cons in Hs as [Hsb _]. destruct Ha as [Hsl _].
  split_and!; try done. constructor; [by apply sep_sym|done].
Qed.

Lemma free_spec h b k live free : heap_ok h ((b, k) :: live) free ->
  exists h' free', lpp_arc_free h b = Ok h' /\ heap_ok h' live free' /\
    (forall x, ~ (b <= x < b + bsize k) -> hmem h' x = hmem h x) /\
    fs_generation_counter h' = fs_generation_counter h /\ lpp_arena_regions h' = lpp_arena_regions h /\
    (forall e, e ∈ fextents 0 free -> e ∈ fextents 0 free') /\
    match k with
    | Small c => (b, csize c) ∈ fextents 0 free' /\ lpp_free_lists h' !! c = Some b /\ (forall x, b + 8 <= x < b + csize c -> hmem h' x = hmem h x) /\
        exists p, 0 <= p <= 2 ^ 47 /\ load 8 (hmem h') b = Ok (le_bytes 8 p)
    | Big t => h' = lpp_sys_munmap h b (u32 t)
    end.
Proof.
  intros Hh. destruct (live_parts _ _ _ _ _ Hh) as (Ht & Hk & Hacc & Hlo & Hhi & Hn & Hsep). unfold lpp_arc_free. rewrite Ht. cbn [obind].
  destruct k as [c|t]; cbn [btag kind_ok bsize] in *; unfold LPP_SIZE_CLASSES.
  - rewrite Z.geb_leb, (proj2 (Z.leb_le 1 _)), (proj2 (Z.leb_le _ 8)) by lia. cbn [andb].
    replace (Z.of_nat c + 1 - 1) with (Z.of_nat c) by lia. rewrite Nat2Z.id.
    pose proof (ho_blocks _ _ _ Hh) as Hb. pose proof (Forall2_length _ _ _ (bo_chains _ _ _ _ Hb)) as Hlen. rewrite (bo_len _ _ _ _ Hb) in Hlen.
    destruct (lookup_lt_is_Some_2 (lpp_free_lists h) c) as [p Hp]; [lia|]. rewrite (rd_ok _ _ p) by (rewrite ?Nat2Z.id; lia || done). cbn [obind].
    pose proof (heads_range _ _ _ _ _ Hh Hp) as Hpr. unfold storew.
    destruct (store_spec (le_bytes 8 p) (hmem h) b) as (m' & -> & U & L); rewrite ?le_bytes_length in *; [acc|]. cbn [obind].
    destruct (lookup_lt_is_Some_2 free c) as [l Hl]; [rewrite (bo_len _ _ _ _ Hb); lia|].
    assert (heap_ok (set_mem h m') live free) as Hh'.
    { eapply heap_frame; [exact Hh|]. intros x Hx. apply (proj1 U). cbn in Hx. lia. }
    eexists _, (<[c := b :: l]> free). split; [reflexivity|]. split_and!.
    + apply (push_free (set_mem h m') b c l live free Hh' Hk Hl Hsep); try done; [by eapply upd_accessible|].
      intros q Hq. cbn in Hq. rewrite Hp in Hq. injection Hq as <-. cbn [set_mem hmem]. unfold loadw. rewrite L. cbn [obind].
      rewrite le_value_bytes. f_equal. apply uwrap_id. change (8 * Z.of_nat 8) with 64. pow2. lia.
    + intros x Hx. cbn. apply (proj1 U). lia.
    + done.
    + done.
    + intros e He. rewrite (fextents_push free 0 c b l Hl). by right.
    + rewrite (fextents_push free 0 c b l Hl). by left.
    + cbn. apply list_lookup_insert_eq. lia.
    + intros x Hx. cbn. apply (proj1 U). lia.
    + by exists p.
  - destruct Hk as (Ht1 & Ht2 & Hal).
    assert ((u32 t >=? 1) && (u32 t <=? 8) = false) as ->.
    { destruct ((u32 t >=? 1) && (u32 t <=? 8)) eqn:E; [|done]. bool_to_prop. unfold u32, uwrap in *. pow2. dlia. }
    pose proof (munmap_big h b t Ht2 ltac:(lia)) as Hmem.
    eexists _, free. split; [reflexivity|]. split_and!; try done.
    + unfold lpp_sys_munmap in *. destruct (_ || _).
      * assert (set_mem h (hmem h) = h) as <- by (by destruct h). by eapply heap_frame.
      * eapply heap_frame; [exact Hh|]. exact Hmem.
    + unfold lpp_sys_munmap. by destruct (_ || _).
    + unfold lpp_sys_munmap. by destruct (_ || _).
Qed.

(** ** The allocator under any program *)

(** A program allocates, frees what it has not freed, and writes to its blocks - payload and
    header, except the allocator's own [map_size] field. *)
Inductive mstep (os : kernel) : heap * list (Z * bkind) -> heap * list (Z * bkind) -> Prop :=
| m_alloc h h' live size d b :
    size <= INT64_MAX -> lpp_arc_alloc_with_destructor_fs os h size d = Ok (b + sizeof_header, h') -> b + sizeof_header <> 0 ->
    mstep os (h, live) (h', (b, block_kind size) :: live)
| m_refused h h' live size d :
    size <= INT64_MAX -> lpp_arc_alloc_with_destructor_fs os h size d = Ok (0, h') -> mstep os (h, live) (h', live)
| m_free h h' live live' b k :
    live ≡ₚ (b, k) :: live' -> lpp_arc_free h b = Ok h' -> mstep os (h, live) (h', live')
| m_write h m' live b k a n v :
    (b, k) ∈ live -> b <= a -> a + Z.of_nat n <= b + bsize k -> a + Z.of_nat n <= b + off_map_size \/ b + off_map_size + 4 <= a ->
    storew n (hmem h) a v = Ok m' -> mstep os (h, live) (set_mem h m', live).

Lemma heap0_ok : heap_ok heap0 [] (replicate 8 []).
Proof.
  split; [split; [done|cbn; repeat constructor..]|by repeat constructor|].
  split_and!; try done. intros x Hx. cbn in Hx. lia.
Qed.

Lemma write_ok h live free b k a n v m' : heap_ok h live free -> (b, k) ∈ live -> b <= a -> a + Z.of_nat n <= b + bsize k ->
  a + Z.of_nat n <= b + off_map_size \/ b + off_map_size + 4 <= a -> storew n (hmem h) a v = Ok m' -> heap_ok (set_mem h m') live free.
Proof.
  intros Hh Hin Ha Hb Hne Hst. apply elem_of_Permutation in Hin as [live' Hp].
  apply (heap_ok_perm _ _ _ _ Hp) in Hh. apply (heap_ok_perm _ ((b, k) :: live')); [done|].
  destruct (live_parts _ _ _ _ _ Hh) as (Ht & Hk & Hacc & Hlo & Hhi & Hn & Hsep).
  destruct (storew_spec n (hmem h) a v) as (m1 & Hst' & U & _); [acc|]. rewrite Hst in Hst'. injection Hst' as <-.
  assert (upd (hmem h) m' b (bsize k)) as U' by (eapply upd_weaken; [exact U|lia..]).
  pose proof (heap_frame h b k live' free m' Hh (proj1 U')) as [[F1 F2 F3 F4] [F5 F5'] F6].
  apply Forall_cons in Hsep as [Hsb Hsep]. split.
  - split; [done|done| |].
    + cbn [extents fmap list_fmap app]. constructor; [|done]. cbn [fst snd]. split_and!; try done. by eapply upd_accessible.
    + constructor; [|done]. cbn [fst snd set_mem hmem]. split; [|done]. rewrite (loadw_upd _ _ _ _ _ _ U); [done|]. cbn. lia.
  - cbn [extents fmap list_fmap app apart]. split_and!; try done. constructor; [by apply sep_sym|done].
  - done.
Qed.

Lemma heap_reachable_ok os `{!Kernel os} s : rtc (mstep os) (heap0, []) s -> exists free, heap_ok s.1 s.2 free.
Proof.
  revert s. apply (rtc_ind_r (fun s => exists free, heap_ok s.1 s.2 free)); [eexists; apply heap0_ok|].
  intros s1 s2 _ Hs [free Hh].
  destruct Hs as [h h' live size d b Hsz Hal Hb|h h' live size d Hsz Hal|h h' live live' b k Hp Hf|h m' live b k a n v Hin Ha Hb Hne Hst]; cbn [fst snd] in *.
  - destruct (alloc_spec os h live free size d Hh Hsz) as [E|(b' & h2 & free' & E & Hb' & _ & Hok & _)]; rewrite E in Hal; [congruence|].
    injection Hal as Eb <-. assert (b' = b) as -> by lia. eauto.
  - destruct (alloc_spec os h live free size d Hh Hsz) as [E|(b' & h2 & free' & E & Hb' & _)]; rewrite E in Hal; [injection Hal as <-; eauto|].
    injection Hal as Eb _. unfold sizeof_header in Eb. lia.
  - apply (heap_ok_perm _ _ _ _ Hp) in Hh. destruct (free_spec _ _ _ _ _ Hh) as (h2 & free' & E & Hok & _). rewrite E in Hf.
    injection Hf as <-. eauto.
  - exists free. by eapply write_ok.
Qed.

(** C6. No two objects overlap, and allocation and freeing never touch another object.  In
    every state a program can reach by allocating, freeing its blocks once and writing inside
    them, live blocks are pairwise disjoint and mapped.  From there any allocation returns NULL
    and changes nothing, or returns a block disjoint from all live ones, large enough, with
    reference count 1, a new generation and an all-zero payload (recycled or not), every byte of
    a live block left as it was; and freeing any live block succeeds and leaves the bytes of the
    others as they were. *)
Theorem allocator_sound os `{!Kernel os} h live :
  rtc (mstep os) (heap0, []) (h, live) ->
  apart (extents live) /\ Forall (fun x => accessible (hmem h) x.1 (bsize x.2)) live /\
  (forall size d, size <= INT64_MAX ->
    lpp_arc_alloc_with_destructor_fs os h size d = Ok (0, h) \/
    exists b h', lpp_arc_alloc_with_destructor_fs os h size d = Ok (b + sizeof_header, h') /\ 4096 <= b /\
      apart ((b, bsize (block_kind size)) :: extents live) /\
      fresh_object h h' b (bsize (block_kind size)) size d /\ untouched live h h') /\
  (forall b k live', live ≡ₚ (b, k) :: live' -> exists h', lpp_arc_free h b = Ok h' /\ untouched live' h h').
Proof.
  intros Hr. destruct (heap_reachable_ok os _ Hr) as [free Hh]. cbn [fst snd] in Hh. split_and!.
  - destruct Hh as [_ [_ Ha] _]. by apply apart_app in Ha as [? _].
  - pose proof (bo_mapped _ _ _ _ (ho_blocks _ _ _ Hh)) as Hm. apply Forall_app in Hm as [Hm _]. unfold extents in Hm.
    rewrite Forall_fmap in Hm. eapply Forall_weaken; [exact Hm|]. intros [b k] (Ha & _). exact Ha.
  - intros size d Hsz. destruct (alloc_spec os h live free size d Hh Hsz) as [|(b & h' & free' & E & Hb & _ & Hok & Hf & Hu & _)]; [by left|].
    right. exists b, h'. split_and!; try done. destruct Hok as [_ [_ Ha] _].
    apply apart_app in Ha as [Ha _]. exact Ha.
  - intros b k live' Hp. apply (heap_ok_perm _ _ _ _ Hp) in Hh. destruct (free_spec _ _ _ _ _ Hh) as (h' & free' & E & _ & Hout & _).
    exists h'. split; [done|]. intros b' k' x Hin Hx. apply Hout. destruct (live_parts _ _ _ _ _ Hh) as (_ & _ & _ & _ & _ & Hn & Hsep).
    apply Forall_cons in Hsep as [_ Hsep]. apply Forall_app in Hsep as [Hsep _]. unfold extents in Hsep. rewrite Forall_fmap in Hsep.
    rewrite Forall_forall in Hsep. specialize (Hsep _ Hin). unfold sep in Hsep. cbn in Hsep. lia.
Qed.

(** A kernel with two places for a megabyte, used in the examples. *)
Fixpoint unmapped_pow (n : nat) (m : memory) (a : Z) : bool :=
  match n with
  | O => match m a with None => true | Some _ => false end
  | S n => if unmapped_pow n m a then unmapped_pow n m (a + 2 ^ Z.of_nat n) else false
  end.
Definition first_fit : kernel := fun m n =>
  if (0 <? n) && (n <=? LPP_CHUNK_BYTES) then
    let k := Z.to_nat (Z.log2_up n) in
    if unmapped_pow k m 0x100000 then Some 0x100000
    else if unmapped_pow k m 0x200000 then Some 0x200000 else None
  else None.

Lemma unmapped_pow_spec n : forall m a, unmapped_pow n m a = true -> forall x, a <= x < a + 2 ^ Z.of_nat n -> m x = None.
Proof.
  induction n as [|n IH]; intros m a H x Hx; cbn [unmapped_pow] in H.
  - change (2 ^ Z.of_nat 0) with 1 in Hx. assert (x = a) as -> by lia. by destruct (m a).
  - destruct (unmapped_pow n m a) eqn:H1; [|done]. rename H into H2. rewrite Nat2Z.inj_succ, Z.pow_succ_r in Hx by lia.
    destruct (Z.lt_ge_cases x (a + 2 ^ Z.of_nat n)); [apply (IH m a)|apply (IH m (a + 2 ^ Z.of_nat n))]; done || lia.
Qed.

#[export] Instance first_fit_kernel : Kernel first_fit.
Proof.
  intros m n a H. unfold first_fit in H. destruct ((0 <? n) && (n <=? LPP_CHUNK_BYTES)) eqn:E; [|done]. bool_to_prop. unfold LPP_CHUNK_BYTES in *.
  assert (n <= 2 ^ Z.of_nat (Z.to_nat (Z.log2_up n))) as Hn.
  { rewrite Z2Nat.id by apply Z.log2_up_nonneg. destruct (Z.eq_dec n 1) as [->|]; [done|]. apply Z.log2_up_spec. lia. }
  destruct (unmapped_pow _ m 0x100000) eqn:E1; [|destruct (unmapped_pow _ m 0x200000) eqn:E2; [|done]]; injection H as <-;
    (split_and!; [done|done|change (2 ^ 47) with 140737488355328; lia|]; intros x Hx; eapply unmapped_pow_spec; [eassumption|]; lia).
Qed.

Definition ptr_of (r : outcome (Z * heap)) : Z := match r with Ok (p, _) => p | _ => -1 end.
Definition heap_of (r : outcome (Z * heap)) : heap := match r with Ok (_, h) => h | _ => heap0 end.
Lemma ptr_heap r p : ptr_of r = p -> p <> -1 -> r = Ok (p, heap_of r).
Proof. by destruct r as [[q h]| | |]; cbn; intros <-. Qed.

Lemma free_heap r : ptr_of (let! h := r in Ok (0, h)) = 0 -> r = Ok (heap_of (let! h := r in Ok (0, h))).
Proof. by destruct r. Qed.

(** Two objects are made and the first is freed. *)
Definition demo1 : heap := heap_of (lpp_arc_alloc_with_destructor_fs first_fit heap0 8 0).
Definition demo2 : heap := heap_of (lpp_arc_alloc_with_destructor_fs first_fit demo1 40 7).
Definition demo3 : heap := heap_of (let! h := lpp_arc_free demo2 0x100000 in Ok (0, h)).

Lemma demo1_eq : lpp_arc_alloc_with_destructor_fs first_fit heap0 8 0 = Ok (0x100000 + sizeof_header, demo1).
Proof. unfold demo1. apply ptr_heap; [vm_compute; reflexivity|discriminate]. Qed.
Lemma demo2_eq : lpp_arc_alloc_with_destructor_fs first_fit demo1 40 7 = Ok (0x100020 + sizeof_header, demo2).
Proof.
  refine (ptr_heap (lpp_arc_alloc_with_destructor_fs first_fit demo1 40 7) (0x100020 + sizeof_header) _ _).
  - vm_compute. reflexivity.
  - discriminate.
Qed.
Lemma demo3_eq : lpp_arc_free demo2 0x100000 = Ok demo3.
Proof. refine (free_heap (lpp_arc_free demo2 0x100000) _). vm_compute. reflexivity. Qed.

Lemma demo_reachable1 : rtc (mstep first_fit) (heap0, []) (demo1, [(0x100000, Small 0)]).
Proof. apply rtc_once. apply (m_alloc first_fit heap0 demo1 [] 8 0 0x100000); [discriminate|exact demo1_eq|discriminate]. Qed.
Lemma demo_reachable3 : rtc (mstep first_fit) (heap0, []) (demo3, [(0x100020, Small 1)]).
Proof.
  eapply rtc_r; [eapply rtc_r; [exact demo_reachable1|]|].
  - apply (m_alloc first_fit demo1 demo2 _ 40 7 0x100020); [discriminate|exact demo2_eq|discriminate].
  - apply (m_free first_fit demo2 demo3 _ [(0x100020, Small 1)] 0x100000 (Small 0)); [apply Permutation_swap|exact demo3_eq].
Qed.

Lemma allocator_sound_witness :
  apart (extents [(0x100020, Small 1)]) /\
  lpp_arc_alloc_with_destructor_fs first_fit demo3 5 0 = Ok (0x100018, heap_of (lpp_arc_alloc_with_destructor_fs first_fit demo3 5 0)) /\
  exists h', lpp_arc_free demo3 0x100020 = Ok h' /\ untouched [] demo3 h'.
Proof.
  destruct (allocator_sound first_fit demo3 [(0x100020, Small 1)] demo_reachable3) as (H1 & _ & _ & H4).
  split; [exact H1|]. split; [apply ptr_heap; [vm_compute; reflexivity|discriminate]|].
  exact (H4 0x100020 (Small 1) [] (Permutation_refl _)).
Defined.

(** ** Recycling and weak handles *)

(** The block at the head of a free list is the next one allocated in its class. *)
Lemma reuse_alloc os h live free c b size d : heap_ok h live free -> lpp_free_lists h !! c = Some b -> b <> 0 ->
  block_kind size = Small c -> 0 <= size <= INT64_MAX ->
  exists h', lpp_arc_alloc_with_destructor_fs os h size d = Ok (b + sizeof_header, h') /\ fresh_object h h' b (csize c) size d.
Proof.
  intros Hh Hb Hne Hk Hsz. assert (Kernel (fun _ _ => None)) as HK by (intros ? ? ?; done).
  unfold block_kind in Hk. unfold lpp_class_for in Hk. rewrite u64_id in Hk by (unfold sizeof_header; pow2; lia).
  destruct (class_loop_spec 9 0 (size + sizeof_header)) as (c' & Hcl & Hc & Hfit & _); [lia..|]. change (Z.of_nat 0) with 0 in Hcl. rewrite Hcl in Hk.
  rewrite Z.geb_leb in Hk. unfold LPP_SIZE_CLASSES in Hk. destruct (Z.leb_spec 8 (Z.of_nat c')) as [|H8]; [done|]. rewrite Nat2Z.id in Hk. injection Hk as ->.
  unfold lpp_arc_alloc_with_destructor_fs. rewrite (proj2 (Z.ltb_ge size 0)) by lia. unfold lpp_class_for. rewrite u64_id by (unfold sizeof_header; pow2; lia).
  rewrite Hcl. cbn [obind]. rewrite Z.geb_leb. unfold LPP_SIZE_CLASSES. rewrite (proj2 (Z.leb_gt 8 _)) by lia.
  assert (take_block os h (Z.of_nat c) = take_block (fun _ _ => None) h (Z.of_nat c)) as ->.
  { unfold take_block. rewrite (rd_ok _ _ b) by (rewrite ?Nat2Z.id; lia || done). cbn [obind]. by rewrite (proj2 (Z.eqb_neq b 0)) by done. }
  destruct (alloc_small (fun _ _ => None) h live free c size d Hh) as [[E _]|(b' & h' & free' & [h1 E] & -> & _ & _ & Hf & _)]; [lia|apply Hfit; lia|..].
  all: unfold take_block in E; rewrite (rd_ok _ _ b) in E by (rewrite ?Nat2Z.id; lia || done); cbn [obind] in E;
    rewrite (proj2 (Z.eqb_neq b 0)) in E by done; cbn [negb] in E; destruct (loadw 8 (hmem h) b); try done; cbn [obind] in E.
  - by injection E as ->.
  - injection E as -> _. eauto.
Qed.

Lemma not_immortal m b v : (exists w, loadw 4 m (b + off_magic) = Ok w) -> loadw 4 m (b + off_refcount) = Ok v -> v <> LPP_ARC_IMMORTAL ->
  lpp__is_immortal_fs m b = Ok false.
Proof.
  intros [w Hw] Hv Hne. unfold lpp__is_immortal_fs. rewrite Hw. cbn [obind]. destruct (w =? LPP_ARC_IMMORTAL); [|done].
  rewrite Hv. cbn [obind]. by rewrite (proj2 (Z.eqb_neq v _)).
Qed.

Lemma add_fetch_spec m a d v : accessible m a 4 -> loadw 4 m a = Ok v ->
  exists m', add_fetch m a d = Ok (i32 (v + d), m') /\ storew 4 m a (i32 (v + d)) = Ok m' /\ upd m m' a 4 /\ loadw 4 m' a = Ok (u32 (v + d)).
Proof.
  intros Ha Hv. unfold add_fetch. rewrite Hv. cbn [obind].
  assert (i32 (i32 v + d) = i32 (v + d)) as -> by apply swrap_add.
  destruct (storew_spec 4 m a (i32 (v + d)) Ha) as (m' & Hst & U & L). rewrite Hst. cbn [obind]. exists m'. split_and!; try done.
  rewrite L. f_equal. by apply uwrap_swrap.
Qed.

Lemma le_bytes_app j k p : le_bytes (j + k) p = le_bytes j p ++ le_bytes k (Z.shiftr p (8 * Z.of_nat j)).
Proof.
  revert p. induction j as [|j IH]; intros p; cbn [Nat.add le_bytes app]; [by rewrite Z.shiftr_0_r|].
  rewrite IH, Z.shiftr_shiftr by lia. do 4 f_equal. lia.
Qed.

(** The link in a free block is never taken for the header of an immortal object. *)
Lemma link_not_immortal m b p : 0 <= p <= 2 ^ 47 -> load 8 m b = Ok (le_bytes 8 p) -> lpp__is_immortal_fs m b = Ok false.
Proof.
  intros Hp Hl. change 8%nat with (4 + 4)%nat in Hl. rewrite le_bytes_app, (load_app 4 4 m b) in Hl.
  destruct (load 4 m b) as [x| | |] eqn:Ex; try done. cbn [obind] in Hl.
  destruct (load 4 m (b + Z.of_nat 4)) as [y| | |] eqn:Ey; try done. cbn [obind] in Hl. injection Hl as Hxy.
  assert (forall m a bs, load 4 m a = Ok bs -> length bs = 4%nat) as Hlen.
  { intros m' a bs H. cbn [load] in H. repeat (destruct (m' _); [|done]; cbn [obind] in H). by injection H as <-. }
  destruct (app_inj_1 x (le_bytes 4 p) y (le_bytes 4 (Z.shiftr p 32))) as [-> ->]; [by rewrite (Hlen _ _ _ Ex)|exact Hxy|].
  eapply not_immortal.
  - unfold loadw, off_magic. rewrite Z.add_0_r, Ex. by eexists.
  - unfold loadw, off_refcount. change (b + 4) with (b + Z.of_nat 4). rewrite Ey. cbn [obind]. reflexivity.
  - rewrite le_value_bytes. change (8 * Z.of_nat 4) with 32. rewrite Z.shiftr_div_pow2 by lia. unfold uwrap, LPP_ARC_IMMORTAL.
    change (2 ^ 47) with 140737488355328 in Hp. pow2. dlia.
Qed.

(** A handle read when the header is in front of it. *)
Lemma weak_get_read h b g : 4096 <= b -> g <> 0 -> lpp__is_immortal_fs (hmem h) b = Ok false -> lpp_weak_get_fs h (b + sizeof_header) g =
  let! now := loadw 4 (hmem h) (b + off_generation) in Ok (if negb (i32 now =? g) then 0 else b + sizeof_header).
Proof.
  intros Hb Hg Him. unfold lpp_weak_get_fs. rewrite (proj2 (Z.eqb_neq (b + sizeof_header) 0)) by (unfold sizeof_header; lia).
  rewrite (proj2 (Z.eqb_neq g 0)) by done. cbn [orb]. replace (b + sizeof_header - sizeof_header) with b by lia. by rewrite Him.
Qed.

(** The pages of an object that owned its mapping are gone. *)
Lemma weak_get_unmapped h b t g : kind_ok b (Big t) -> 32 <= t < 2 ^ 32 -> 4096 <= b -> g <> 0 ->
  lpp_weak_get_fs (lpp_sys_munmap h b (u32 t)) (b + sizeof_header) g = Undef.
Proof.
  intros (Ht1 & Ht2 & Hal) Ht Hb Hg. unfold lpp_weak_get_fs. rewrite (proj2 (Z.eqb_neq (b + sizeof_header) 0)) by (unfold sizeof_header; lia).
  rewrite (proj2 (Z.eqb_neq g 0)) by done. cbn [orb]. replace (b + sizeof_header - sizeof_header) with b by lia.
  unfold lpp__is_immortal_fs, loadw, off_magic. cbn [load].
  assert (hmem (lpp_sys_munmap h b (u32 t)) (b + 0) = None) as ->; [|done]. unfold lpp_sys_munmap, u32. rewrite uwrap_id by lia.
  rewrite (proj2 (Z.eqb_neq t 0)), Hal by lia. cbn [orb negb Z.eqb hmem set_mem].
  rewrite (proj2 (Z.leb_le b _)), (proj2 (Z.ltb_lt (b + 0) _)) by dlia. done.
Qed.

(** A region with two nodes, both released, then the region: every block is back on a free
    list (the nodes and the region in class 1 or 2, the records in class 1) and no region is
    left. *)
Example arena_returns_blocks :
  let run := fun (_ : Z) (h : heap) (_ : Z) => Ok h in
  (let! '(r, h) := lpp_arena_begin_fs first_fit heap0 in
   let! '(x, h) := lpp_arena_alloc_fs run 9 first_fit h 50 r 0 in
   let! '(y, h) := lpp_arena_alloc_fs run 9 first_fit h 50 r 0 in
   let! h := lpp_arena_retain_fs 9 h x in
   let! h := lpp_arena_release_node_fs run 9 h x in
   let! h := lpp_arena_release_node_fs run 9 h x in
   let! h := lpp_arena_release_fs run 9 h r in
   let! h := lpp_arc_release_fs run 9 h y in
   Ok (lpp_arena_regions h, lpp_free_lists h))
  = Ok (0, [0; 0x100000; 0x100040; 0; 0; 0; 0; 0]).
Proof. vm_compute. reflexivity. Qed.

(** What is stored through a raw pointer is read back, cut to the width of the access, and
    nothing else changes. *)
Lemma c_memory_roundtrip h ptr offset val : ptr <> 0 -> INT64_MIN <= ptr + offset <= INT64_MAX -> accessible (hmem h) (ptr + offset) 8 ->
  (exists h', lpp_c_store_u8 h ptr offset val = Ok h' /\ lpp_c_load_u8 h' ptr offset = Ok (u8 val)) /\
  (exists h', lpp_c_store_i32 h ptr offset val = Ok h' /\ lpp_c_load_i32 h' ptr offset = Ok (i32 val)) /\
  (exists h', lpp_c_store_i64 h ptr offset val = Ok h' /\ lpp_c_load_i64 h' ptr offset = Ok (i64 val)).
Proof.
  intros Hp Hr Ha. unfold lpp_c_store_u8, lpp_c_load_u8, lpp_c_store_i32, lpp_c_load_i32, lpp_c_store_i64, lpp_c_load_i64.
  rewrite (proj2 (Z.eqb_neq ptr 0)), chk64_ok by done. cbn [obind]. split_and!.
  - destruct (storew_spec 1 (hmem h) (ptr + offset) (u8 val)) as (m & -> & _ & L); [acc|]. cbn [obind]. eexists. split; [done|].
    cbn [hmem set_mem]. rewrite L. f_equal. apply uwrap_uwrap.
  - destruct (storew_spec 4 (hmem h) (ptr + offset) (i32 val)) as (m & -> & _ & L); [acc|]. cbn [obind]. eexists. split; [done|].
    cbn [hmem set_mem]. rewrite L. cbn [obind]. f_equal. change (8 * Z.of_nat 4) with 32. unfold i32. rewrite swrap_uwrap by lia.
    apply swrap_id; [lia|]. pose proof (swrap_range 32 val ltac:(lia)). lia.
  - destruct (storew_spec 8 (hmem h) (ptr + offset) val) as (m & -> & _ & L); [acc|]. cbn [obind]. eexists. split; [done|].
    cbn [hmem set_mem]. rewrite L. cbn [obind]. f_equal. by apply swrap_uwrap.
Qed.
