(* ===== verification/FreeRun.v ===== *)
(** * Programs on the freestanding heap (runtime/linux_x86_64_min.c)

    A program without arenas makes objects, retains and releases them and writes in their payloads; the
    destructors its last releases call are again pieces of the program.  [prun] is any such run, on the heap
    of [FreeAlloc] byte for byte, with the objects it has (each with the generation it was given) and the
    objects whose destructor is running.  The runtime's functions are those of [FreeAlloc].  The theorem
    says what a weak handle sees over a whole run; [FreeTask] uses the same invariant for borrowed
    slices. *)

From stdpp Require Import relations.
From S2P Require Import Prelude CInt FreeMap Arc FreeAlloc.

#[export] Instance bkind_eq_dec : EqDecision bkind.
Proof. solve_decision. Defined.

(** Its block and its generation. *)
Abbreviation obj := (Z * bkind * Z)%type.
Abbreviation pstate := (heap * list obj * list (Z * bkind))%type.
Definition MAX_COUNT : Z := 2 ^ 30.

Section program.
Context (os : kernel) (run : Z -> heap -> Z -> outcome heap) (fuel : nat).

(** [lpp_arc_release] or [lpp_arc_release_local]. *)
Definition release (loc : bool) : heap -> Z -> outcome heap :=
  if loc then lpp_arc_release_local_fs run fuel else lpp_arc_release_fs run fuel.

(** The header when the destructor is called: the count is 0 and the generation has moved on; the local
    form leaves the magic number. *)
Definition last_drop (loc : bool) (h : heap) (b : Z) : outcome heap :=
  let! '(_, m) := add_fetch (hmem h) (b + off_refcount) (-1) in
  let! '(_, m) := add_fetch m (b + off_generation) 1 in
  let! m := (if loc then Ok m else storew 4 m (b + off_magic) 0) in Ok (set_mem h m).

(** From [h] to [h'] by the destructor of the object in [b], if it has one. *)
Definition destructor_ran (h h' : heap) (b : Z) : Prop :=
  exists d, loadw 8 (hmem h) (b + off_destructor) = Ok d /\ (if negb (d =? 0) then run d h (b + sizeof_header) else Ok h) = Ok h'.

Definition blocks (live : list obj) (dying : list (Z * bkind)) : list (Z * bkind) := (fst <$> live) ++ dying.

(** Fewer than 2^31 objects are made (the generations are 32 bits wide), and no object has more than 2^30
    references (2^30 and some would look immortal). *)
Inductive prun : pstate -> pstate -> Prop :=
| r_done s : prun s s
| r_then s1 s2 s3 : prun s1 s2 -> prun s2 s3 -> prun s1 s3
| r_alloc h h' live dy size d b :
    size <= INT64_MAX -> fs_generation_counter h + 1 < 2 ^ 31 ->
    lpp_arc_alloc_with_destructor_fs os h size d = Ok (b + sizeof_header, h') -> b + sizeof_header <> 0 ->
    prun (h, live, dy) (h', (b, block_kind size, fs_generation_counter h + 1) :: live, dy)
| r_refused h h' live dy size d :
    size <= INT64_MAX -> lpp_arc_alloc_with_destructor_fs os h size d = Ok (0, h') -> prun (h, live, dy) (h', live, dy)
| r_write h m' live dy b k a n v :
    (b, k) ∈ blocks live dy -> b + sizeof_header <= a -> a + Z.of_nat n <= b + bsize k ->
    storew n (hmem h) a v = Ok m' -> prun (h, live, dy) (set_mem h m', live, dy)
| r_retain h h' live dy b k g v :
    (b, k, g) ∈ live -> loadw 4 (hmem h) (b + off_refcount) = Ok v -> v < MAX_COUNT ->
    lpp_arc_retain_fs h (b + sizeof_header) = Ok h' -> prun (h, live, dy) (h', live, dy)
| r_release loc h h' live dy b k g v :
    (b, k, g) ∈ live -> loadw 4 (hmem h) (b + off_refcount) = Ok v -> v <> 1 ->
    release loc h (b + sizeof_header) = Ok h' -> prun (h, live, dy) (h', live, dy)
| r_last loc h hb hd h' live live1 live2 dy b k g :
    live ≡ₚ (b, k, g) :: live1 -> loadw 4 (hmem h) (b + off_refcount) = Ok 1 ->
    last_drop loc h b = Ok hb -> destructor_ran hb hd b -> prun (hb, live1, (b, k) :: dy) (hd, live2, (b, k) :: dy) ->
    release loc h (b + sizeof_header) = Ok h' -> prun (h, live, dy) (h', live2, dy).

(** ** Headers *)

(** The header of an object that is not immortal, with this generation word. *)
Definition quiet (h : heap) (b w : Z) : Prop :=
  lpp__is_immortal_fs (hmem h) b = Ok false /\ loadw 4 (hmem h) (b + off_generation) = Ok w.
Definition counted (h : heap) (b v : Z) : Prop := loadw 4 (hmem h) (b + off_refcount) = Ok v.

Definition same_header (m m' : memory) (b : Z) : Prop := forall x, b <= x < b + 12 -> m' x = m x.

Lemma loadw_ext k m m' a : (forall x, a <= x < a + Z.of_nat k -> m' x = m x) -> loadw k m' a = loadw k m a.
Proof. intros H. unfold loadw. by rewrite (load_ext k m m' a H). Qed.

Lemma quiet_same h h' b w : same_header (hmem h) (hmem h') b -> quiet h b w -> quiet h' b w.
Proof.
  intros Hs [H1 H2]. unfold quiet, lpp__is_immortal_fs, off_magic, off_refcount, off_generation in *.
  rewrite (loadw_ext 4 (hmem h) (hmem h') (b + 0)), (loadw_ext 4 (hmem h) (hmem h') (b + 4)), (loadw_ext 4 (hmem h) (hmem h') (b + 8))
    by (intros x Hx; apply Hs; lia). done.
Qed.
Lemma counted_same h h' b v : same_header (hmem h) (hmem h') b -> counted h b v -> counted h' b v.
Proof.
  intros Hs. unfold counted, off_refcount. rewrite (loadw_ext 4 (hmem h) (hmem h') (b + 4)); [done|]. intros x Hx. apply Hs. lia.
Qed.

(** Only the magic number, the count and the generation of [b] are written. *)
Lemma rest_same h b k rest free m' : heap_ok h ((b, k) :: rest) free -> (forall x, ~ (b <= x < b + bsize k) -> m' x = hmem h x) ->
  forall e, e ∈ extents rest ++ fextents 0 free -> same_header (hmem h) m' e.1.
Proof.
  intros Hh Hm e He x Hx. destruct (live_parts _ _ _ _ _ Hh) as (_ & _ & _ & _ & _ & Hn & Hsep). apply Forall_cons in Hsep as [_ Hsep].
  rewrite Forall_forall in Hsep. specialize (Hsep e He). pose proof (bo_mapped _ _ _ _ (ho_blocks _ _ _ Hh)) as Hmap.
  rewrite Forall_forall in Hmap. destruct (Hmap e) as (_ & _ & _ & H32).
  { cbn [extents fmap list_fmap app]. by right. }
  apply Hm. unfold sep in Hsep. cbn [fst snd] in Hsep. lia.
Qed.

Lemma elem_extents b k l : (b, k) ∈ l -> (b, bsize k) ∈ extents l.
Proof. intros H. apply list_elem_of_fmap. by exists (b, k). Qed.

(** Writing in a payload changes no header. *)
Lemma payload_same h l free b k a n m' : heap_ok h l free -> (b, k) ∈ l -> b + sizeof_header <= a -> a + n <= b + bsize k ->
  (forall x, x < a \/ a + n <= x -> m' x = hmem h x) -> forall e, e ∈ extents l ++ fextents 0 free -> same_header (hmem h) m' e.1.
Proof.
  intros Hh Hin Ha Hn Hm e He. apply elem_of_Permutation in Hin as [rest Hp]. apply (heap_ok_perm _ _ _ _ Hp) in Hh.
  assert (extents l ≡ₚ (b, bsize k) :: extents rest) as HP by (unfold extents; rewrite Hp; done). rewrite HP in He. cbn [app] in He.
  apply elem_of_cons in He as [->|He].
  - intros x Hx. apply Hm. unfold sizeof_header in Ha. cbn [fst] in Hx. lia.
  - eapply rest_same; [exact Hh| |exact He]. intros x Hx. apply Hm. unfold sizeof_header in Ha. lia.
Qed.

(** ** The invariant *)

Definition live_ok (h : heap) (o : obj) : Prop :=
  let '(b, k, g) := o in quiet h b g /\ 0 < g <= fs_generation_counter h /\ exists v, counted h b v /\ 1 <= v <= MAX_COUNT.
Definition dying_ok (h : heap) (o : Z * bkind) : Prop := counted h o.1 0 /\ exists w, quiet h o.1 w.

Record run_ok (h : heap) (live : list obj) (dy : list (Z * bkind)) (free : list (list Z)) : Prop := {
  ro_heap : heap_ok h (blocks live dy) free;
  ro_arena : lpp_arena_regions h = 0;
  ro_counter : 0 <= fs_generation_counter h < 2 ^ 31;
  ro_live : Forall (live_ok h) live;
  ro_dying : Forall (dying_ok h) dy
}.

(** An object of a size class that was given generation [g] in block [b] and is no more: the block is
    free, or its destructor is running, or the block holds a later object. *)
Definition dead (h : heap) (live : list obj) (dy : list (Z * bkind)) (free : list (list Z)) (b : Z) (c : nat) (g : Z) : Prop :=
  exists w, g < w <= 2 ^ 31 /\ quiet h b w /\
    ((b, csize c) ∈ fextents 0 free \/ (b, Small c) ∈ dy \/ (b, Small c, w) ∈ live).
Definition tracked h live dy free b c g : Prop := (b, Small c, g) ∈ live \/ (g <= fs_generation_counter h /\ dead h live dy free b c g).

Lemma live_block b k g live dy : (b, k, g) ∈ live -> (b, k) ∈ blocks live dy.
Proof. intros H. apply elem_of_app. left. apply list_elem_of_fmap. by exists (b, k, g). Qed.
Lemma dying_block b k live dy : (b, k) ∈ dy -> (b, k) ∈ blocks live dy.
Proof. intros H. apply elem_of_app. by right. Qed.
Lemma blocks_perm live live' dy : live ≡ₚ live' -> blocks live dy ≡ₚ blocks live' dy.
Proof. intros H. unfold blocks. by rewrite H. Qed.

(** When no header changes everything stays as it is. *)
Lemma run_ok_same h h' live dy free : run_ok h live dy free -> heap_ok h' (blocks live dy) free -> lpp_arena_regions h' = lpp_arena_regions h ->
  fs_generation_counter h' = fs_generation_counter h ->
  (forall e, e ∈ extents (blocks live dy) ++ fextents 0 free -> same_header (hmem h) (hmem h') e.1) ->
  run_ok h' live dy free /\ forall b c g, tracked h live dy free b c g -> tracked h' live dy free b c g.
Proof.
  intros [_ Har Hc Hl Hd] Hh Ha Hg Hs. split.
  - split; [done|congruence|by rewrite Hg| |].
    + rewrite Forall_forall in Hl |- *. intros [[b k] g] Ho. destruct (Hl _ Ho) as (Hq & Hgr & v & Hv & Hr).
      assert (same_header (hmem h) (hmem h') b) as Hsb by (apply (Hs (b, bsize k)), elem_of_app; left; by eapply elem_extents, live_block).
      split; [by eapply quiet_same|]. rewrite Hg. split; [done|]. exists v. split; [by eapply counted_same|done].
    + rewrite Forall_forall in Hd |- *. intros [b k] Ho. destruct (Hd _ Ho) as (Hv & w & Hq). cbn [fst] in *.
      assert (same_header (hmem h) (hmem h') b) as Hsb by (apply (Hs (b, bsize k)), elem_of_app; left; by eapply elem_extents, dying_block).
      split; [by eapply counted_same|]. exists w. by eapply quiet_same.
  - intros b c g [?|(Hgr & w & Hw & Hq & Hwhere)]; [by left|right]. rewrite Hg. split; [done|]. exists w. split; [done|]. split; [|done].
    eapply quiet_same; [|exact Hq]. destruct Hwhere as [Hf|[Hf|Hf]].
    + apply (Hs (b, csize c)), elem_of_app. by right.
    + apply (Hs (b, csize c)), elem_of_app. left. by apply (elem_extents b (Small c)), dying_block.
    + apply (Hs (b, csize c)), elem_of_app. left. by eapply (elem_extents b (Small c)), live_block.
Qed.

(** ** The steps *)

Lemma alloc_arena h size d p h' : lpp_arc_alloc_with_destructor_fs os h size d = Ok (p, h') -> lpp_arena_regions h' = lpp_arena_regions h.
Proof.
  assert (forall h x b h', take_block os h x = Ok (b, h') -> lpp_arena_regions h' = lpp_arena_regions h) as Htake.
  { clear. intros h x b h'. unfold take_block, lpp_sys_mmap. destruct (rd _ _) as [head| | |]; try done. cbn [obind].
    destruct (negb _); [destruct (loadw _ _ _); cbn [obind]; try done; by intros [= _ <-]|].
    destruct (_ <? _); [destruct (os _ _) as [a|]; [destruct (a =? 0)|]|]; by intros [= _ <-]. }
  assert (forall h b d h', init_header h b d = Ok h' -> lpp_arena_regions h' = lpp_arena_regions h) as Hinit.
  { clear. intros h b d h'. unfold init_header. do 4 (destruct (storew _ _ _ _); cbn [obind]; try done). by intros [= <-]. }
  unfold lpp_arc_alloc_with_destructor_fs, lpp_sys_mmap. destruct (size <? 0); [by intros [= _ <-]|].
  destruct (lpp_class_for _) as [cls| | |]; cbn [obind]; try done. destruct (cls >=? LPP_SIZE_CLASSES).
  - destruct (os _ _) as [a|]; [|by intros [= _ <-]]. destruct (a =? 0) eqn:E; [by intros [= _ <-]|].
    destruct (storew _ _ _ _); cbn [obind]; try done. rewrite E. destruct (init_header _ _ _) as [h2| | |] eqn:Ei; cbn [obind]; try done.
    intros [= _ <-]. by rewrite (Hinit _ _ _ _ Ei).
  - destruct (take_block _ _ _) as [[b h1]| | |] eqn:Et; cbn [obind]; try done. apply Htake in Et.
    destruct (b =? 0) eqn:E; [by intros [= _ <-]|]. destruct (zero_loop _ _ _); cbn [obind]; try done. destruct (storew _ _ _ _); cbn [obind]; try done.
    rewrite E. destruct (init_header _ _ _) as [h2| | |] eqn:Ei; cbn [obind]; try done. intros [= _ <-]. by rewrite (Hinit _ _ _ _ Ei).
Qed.

Lemma fresh_quiet h h' b n size d : fresh_object h h' b n size d -> 0 <= fs_generation_counter h < 2 ^ 31 - 1 ->
  quiet h' b (fs_generation_counter h + 1) /\ counted h' b 1.
Proof.
  intros [_ F1 F2 F3 _ _ _] Hc. split; [split|done].
  - by eapply not_immortal; [eexists|..].
  - rewrite F3. f_equal. apply uwrap_id. change (2 ^ 31) with 2147483648 in Hc. lia.
Qed.

Lemma block_kind_big size t : 0 <= size <= INT64_MAX -> block_kind size = Big t -> 4096 < t.
Proof.
  intros Hs. unfold block_kind. rewrite u64_id by (unfold sizeof_header; pow2; lia). unfold lpp_class_for.
  destruct (class_loop_spec 9 0 (size + sizeof_header)) as (c & Hcl & Hc & _ & Hbig); [lia..|]. change (Z.of_nat 0) with 0 in Hcl. rewrite Hcl.
  destruct (Z.of_nat c >=? LPP_SIZE_CLASSES) eqn:E; [|done]. intros [= <-]. rewrite Z.geb_leb in E. apply Z.leb_le in E. unfold LPP_SIZE_CLASSES in E.
  destruct Hbig as [|Hb]; [lia|done|]. destruct (big_total (size + sizeof_header)) as (T1 & _ & _); [unfold sizeof_header in *; pow2; lia|]. lia.
Qed.

Context `{!Kernel os}.

Lemma run_alloc_step h h' live dy free size d b : run_ok h live dy free -> size <= INT64_MAX -> fs_generation_counter h + 1 < 2 ^ 31 ->
  lpp_arc_alloc_with_destructor_fs os h size d = Ok (b + sizeof_header, h') -> b + sizeof_header <> 0 ->
  exists free', run_ok h' ((b, block_kind size, fs_generation_counter h + 1) :: live) dy free' /\
    fs_generation_counter h <= fs_generation_counter h' /\
    forall x c g, tracked h live dy free x c g -> tracked h' ((b, block_kind size, fs_generation_counter h + 1) :: live) dy free' x c g.
Proof.
  intros [Hh Har Hc Hl Hd] Hsz Hlim Hal Hb. pose proof (alloc_arena _ _ _ _ _ Hal) as Har'.
  destruct (alloc_spec os h _ free size d Hh Hsz) as [E|(b' & h2 & free' & E & Hb4 & Hs0 & Hok & Hf & Hun & Hmem & Hfree)]; rewrite E in Hal; [congruence|].
  injection Hal as Eb <-. assert (b' = b) as -> by lia. clear Eb E Hb. set (k := block_kind size) in *.
  destruct (fresh_quiet h h2 b (bsize k) size d Hf ltac:(lia)) as [Hq Hcnt].
  assert (fs_generation_counter h2 = fs_generation_counter h + 1) as Hgen.
  { rewrite (fo_counter _ _ _ _ _ _ Hf). unfold i32. apply swrap_id; [lia|]. change (2 ^ (32 - 1)) with 2147483648. change (2 ^ 31) with 2147483648 in *. lia. }
  destruct (live_parts _ _ _ _ _ Hok) as (_ & Hk & _ & _ & _ & Hn & Hsep). apply Forall_cons in Hsep as [_ Hsep].
  assert (forall x kx, (x, kx) ∈ blocks live dy -> same_header (hmem h) (hmem h2) x) as Hsame.
  { intros x kx Hx y Hy. apply (Hun x kx y Hx). pose proof (bo_mapped _ _ _ _ (ho_blocks _ _ _ Hh)) as Hmap. rewrite Forall_forall in Hmap.
    destruct (Hmap (x, bsize kx)) as (_ & _ & _ & H32); [apply elem_of_app; left; by apply elem_extents|]. cbn in H32. lia. }
  exists free'. split; [|split; [lia|]].
  - split; [done|congruence|lia| |].
    + constructor; [split; [done|split; [lia|]]; exists 1; split; [done|by unfold MAX_COUNT]|]. rewrite Forall_forall in Hl |- *. intros [[x kx] g] Ho.
      destruct (Hl _ Ho) as (Hqx & Hgr & v & Hv & Hr). pose proof (Hsame x kx (live_block _ _ _ _ _ Ho)) as Hs.
      split; [by eapply quiet_same|]. split; [lia|]. exists v. split; [by eapply counted_same|done].
    + rewrite Forall_forall in Hd |- *. intros [x kx] Ho. destruct (Hd _ Ho) as (Hv & w & Hw). pose proof (Hsame x kx (dying_block _ _ _ _ Ho)) as Hs.
      split; [by eapply counted_same|]. exists w. by eapply quiet_same.
  - intros x c g [?|(Hgr & w & Hw & Hqx & Hwhere)]; [left; by right|right]. split; [lia|]. destruct Hwhere as [Hx|[Hx|Hx]].
    + destruct (Hfree _ Hx) as [Heq|Hx'].
      * injection Heq as -> Hcs. exists (fs_generation_counter h + 1). split; [lia|]. split; [done|]. right; right.
        assert (k = Small c) as <-; [|by left]. pose proof (ho_blocks _ _ _ Hh) as Hbo. apply fextents_elem in Hx as (i & l & Hi & _ & Hci). cbn in Hci, Hi.
        pose proof (lookup_lt_Some _ _ _ Hi) as Hlen. rewrite (bo_len _ _ _ _ Hbo) in Hlen.
        assert (forall i j, csize i = csize j -> i = j) as Hinj.
        { intros i' j' He. unfold csize in He. apply Nat2Z.inj, (Z.pow_inj_r 2); lia. }
        assert (c = i) as -> by (by apply Hinj). destruct k as [ck|t] eqn:Ek; cbn [bsize] in Hcs; [f_equal; symmetry; by apply Hinj|].
        pose proof (block_kind_big size t ltac:(lia) Ek). destruct (csize_bytes i ltac:(lia)) as [_ ?]. lia.
      * exists w. split; [done|]. split; [|by left]. eapply quiet_same; [|exact Hqx]. intros y Hy.
        pose proof (bo_mapped _ _ _ _ (ho_blocks _ _ _ Hh)) as Hmap. rewrite Forall_forall in Hmap.
        destruct (Hmap (x, csize c)) as (Hacc & _ & _ & H32); [apply elem_of_app; by right|]. cbn [fst snd] in *.
        rewrite Forall_forall in Hsep. pose proof (Hsep (x, csize c) ltac:(apply elem_of_app; by right)) as Hs. unfold sep in Hs. cbn in Hs.
        apply Hmem; [apply Hacc; lia|lia].
    + exists w. split; [done|]. split; [|right; by left]. eapply quiet_same; [|exact Hqx]. by eapply (Hsame x (Small c)), dying_block.
    + exists w. split; [done|]. split; [|right; right; by right]. eapply quiet_same; [|exact Hqx]. by eapply (Hsame x (Small c)), live_block.
Qed.

(** A change inside the block of [b] seen from the rest of the program. *)
Section inside.
Context (h h' : heap) (live1 : list obj) (dy : list (Z * bkind)) (free : list (list Z)) (b : Z) (k : bkind) (g : Z).
Context (Hok : run_ok h ((b, k, g) :: live1) dy free) (Hgen : fs_generation_counter h' = fs_generation_counter h)
  (Harena : lpp_arena_regions h' = lpp_arena_regions h).
Context (Hout : forall x, ~ (b <= x < b + bsize k) -> hmem h' x = hmem h x) (Hh' : heap_ok h' (blocks ((b, k, g) :: live1) dy) free).

Lemma rest_header e : e ∈ extents (blocks live1 dy) ++ fextents 0 free -> same_header (hmem h) (hmem h') e.1.
Proof. intros He. eapply rest_same; [exact (ro_heap _ _ _ _ Hok)|exact Hout|exact He]. Qed.

Lemma rest_live : Forall (live_ok h') live1.
Proof.
  pose proof (ro_live _ _ _ _ Hok) as Hl. apply Forall_cons in Hl as [_ Hl]. rewrite Forall_forall in Hl |- *. intros [[x kx] gx] Ho.
  destruct (Hl _ Ho) as (Hq & Hgr & v & Hv & Hr).
  assert (same_header (hmem h) (hmem h') x) as Hs by (apply (rest_header (x, bsize kx)), elem_of_app; left; by eapply elem_extents, live_block).
  split; [by eapply quiet_same|]. rewrite Hgen. split; [done|]. exists v. split; [by eapply counted_same|done].
Qed.
Lemma rest_dying : Forall (dying_ok h') dy.
Proof.
  pose proof (ro_dying _ _ _ _ Hok) as Hd. rewrite Forall_forall in Hd |- *. intros [x kx] Ho. destruct (Hd _ Ho) as (Hv & w & Hq). cbn [fst] in *.
  assert (same_header (hmem h) (hmem h') x) as Hs by (apply (rest_header (x, bsize kx)), elem_of_app; left; by eapply elem_extents, dying_block).
  split; [by eapply counted_same|]. exists w. by eapply quiet_same.
Qed.

(** The objects that are gone, unless the block of [b] is meant. *)
Lemma rest_dead x c gx : dead h ((b, k, g) :: live1) dy free x c gx ->
  dead h' live1 dy free x c gx \/ (x = b /\ k = Small c /\ gx < g).
Proof.
  intros (w & Hw & Hq & [Hx|[Hx|Hx]]).
  - left. exists w. split; [done|]. split; [|by left]. eapply quiet_same; [|exact Hq]. apply (rest_header (x, csize c)), elem_of_app. by right.
  - left. exists w. split; [done|]. split; [|right; by left]. eapply quiet_same; [|exact Hq].
    apply (rest_header (x, csize c)), elem_of_app. left. by apply (elem_extents x (Small c)), dying_block.
  - apply elem_of_cons in Hx as [Heq|Hx]; [injection Heq as -> <- ->; right; split_and!; done || lia|]. left. exists w. split; [done|].
    split; [|by right; right]. eapply quiet_same; [|exact Hq]. apply (rest_header (x, csize c)), elem_of_app. left. by eapply (elem_extents x (Small c)), live_block.
Qed.

(** The count changed and the object lives on. *)
Lemma recount v : quiet h' b g -> counted h' b v -> 1 <= v <= MAX_COUNT ->
  run_ok h' ((b, k, g) :: live1) dy free /\
  forall x c gx, tracked h ((b, k, g) :: live1) dy free x c gx -> tracked h' ((b, k, g) :: live1) dy free x c gx.
Proof.
  intros Hq Hv Hr. destruct Hok as [_ Har Hc Hl Hd]. apply Forall_cons in Hl as [(_ & Hgr & _) _]. split.
  - split; [done|congruence|by rewrite Hgen| |apply rest_dying]. constructor; [|apply rest_live].
    split; [done|]. rewrite Hgen. split; [done|by exists v].
  - intros x c gx [?|[Hgx Hdead]]; [by left|right]. rewrite Hgen. split; [done|].
    destruct (rest_dead _ _ _ Hdead) as [(w & Hw & Hqx & Hwhere)|(-> & -> & Hlt)].
    + exists w. split; [done|]. split; [done|]. destruct Hwhere as [?|[?|?]]; [by left|by right; left|right; right; by right].
    + exists g. change (2 ^ 31) with 2147483648 in *. split; [lia|]. split; [done|]. right; right. by left.
Qed.

(** The last reference went: the object is dying. *)
Lemma bury_step : quiet h' b (g + 1) -> counted h' b 0 ->
  run_ok h' live1 ((b, k) :: dy) free /\
  forall x c gx, tracked h ((b, k, g) :: live1) dy free x c gx -> tracked h' live1 ((b, k) :: dy) free x c gx.
Proof.
  intros Hq Hv. destruct Hok as [_ Har Hc Hl Hd]. apply Forall_cons in Hl as [(_ & Hgr & _) _]. change (2 ^ 31) with 2147483648 in *. split.
  - split; [|congruence|by rewrite Hgen|apply rest_live|constructor; [split; [done|by eexists]|apply rest_dying]].
    eapply heap_ok_perm; [|exact Hh']. unfold blocks. cbn [fmap list_fmap app fst]. apply Permutation_middle.
  - assert (forall c, k = Small c -> dead h' live1 ((b, k) :: dy) free b c g) as Hself.
    { intros c ->. exists (g + 1). split; [change (2 ^ 31) with 2147483648; lia|]. split; [done|]. right; left. by left. }
    intros x c gx [Hx|[Hgx Hdead]].
    + apply elem_of_cons in Hx as [Heq|Hx]; [injection Heq as -> <- ->; right; rewrite Hgen; split; [lia|by apply Hself]|by left].
    + right. rewrite Hgen. split; [done|]. destruct (rest_dead _ _ _ Hdead) as [(w & Hw & Hqx & Hwhere)|(-> & -> & Hlt)].
      * exists w. split; [done|]. split; [done|]. destruct Hwhere as [?|[?|?]]; [by left|right; left; by right|by right; right].
      * destruct (Hself c eq_refl) as (w & Hw & Hrest). exists w. split; [lia|done].
Qed.
End inside.

(** A dying object's block is given back. *)
Lemma run_free_step h live dy free b k : run_ok h live ((b, k) :: dy) free ->
  exists h' free', lpp_arc_free h b = Ok h' /\ run_ok h' live dy free' /\ fs_generation_counter h' = fs_generation_counter h /\
    forall x c g, tracked h live ((b, k) :: dy) free x c g -> tracked h' live dy free' x c g.
Proof.
  intros Hok. pose proof (ro_heap _ _ _ _ Hok) as Hh.
  assert (blocks live ((b, k) :: dy) ≡ₚ (b, k) :: blocks live dy) as HP by (symmetry; apply Permutation_middle).
  apply (heap_ok_perm _ _ _ _ HP) in Hh. destruct (free_spec _ _ _ _ _ Hh) as (h' & free' & E & Hok' & Hout & Hgen & Har & Hfree & Hkind).
  exists h', free'. split; [done|].
  assert (forall e, e ∈ extents (blocks live dy) ++ fextents 0 free -> same_header (hmem h) (hmem h') e.1) as Hs by (intros e; by eapply rest_same).
  destruct Hok as [_ Ha Hc Hl Hd]. split; [|split; [done|]].
  - split; [done|congruence|by rewrite Hgen| |].
    + rewrite Forall_forall in Hl |- *. intros [[x kx] gx] Ho. destruct (Hl _ Ho) as (Hq & Hgr & v & Hv & Hr).
      assert (same_header (hmem h) (hmem h') x) as Hsx by (apply (Hs (x, bsize kx)), elem_of_app; left; by eapply elem_extents, live_block).
      split; [by eapply quiet_same|]. rewrite Hgen. split; [done|]. exists v. split; [by eapply counted_same|done].
    + apply Forall_cons in Hd as [_ Hd]. rewrite Forall_forall in Hd |- *. intros [x kx] Ho. destruct (Hd _ Ho) as (Hv & w & Hq). cbn [fst] in *.
      assert (same_header (hmem h) (hmem h') x) as Hsx by (apply (Hs (x, bsize kx)), elem_of_app; left; by eapply elem_extents, dying_block).
      split; [by eapply counted_same|]. exists w. by eapply quiet_same.
  - intros x c g [?|(Hgr & w & Hw & Hq & Hwhere)]; [by left|right]. rewrite Hgen. split; [done|]. exists w. split; [done|]. destruct Hwhere as [Hx|[Hx|Hx]].
    + split; [|left; by apply Hfree]. eapply quiet_same; [|exact Hq]. apply (Hs (x, csize c)), elem_of_app. by right.
    + apply elem_of_cons in Hx as [Heq|Hx].
      * injection Heq as -> <-. destruct Hkind as (Hin & Hhead & Hsame & p & Hpr & Hlink). split; [|by left]. split; [by eapply link_not_immortal|].
        rewrite <- (proj2 Hq). apply loadw_ext. intros y Hy. apply Hsame. unfold off_generation in Hy. pose proof (csize_pos c). lia.
      * split; [|right; by left]. eapply quiet_same; [|exact Hq]. apply (Hs (x, csize c)), elem_of_app. left. by apply (elem_extents x (Small c)), dying_block.
    + split; [|by right; right]. eapply quiet_same; [|exact Hq]. apply (Hs (x, csize c)), elem_of_app. left. by eapply (elem_extents x (Small c)), live_block.
Qed.

Lemma run_ok_perm h live live' dy free : live ≡ₚ live' -> run_ok h live dy free -> run_ok h live' dy free.
Proof.
  intros Hp [Hh Ha Hc Hl Hd]. split; [|done|done|by rewrite <- Hp|done]. eapply heap_ok_perm; [|exact Hh]. by apply blocks_perm.
Qed.
Lemma tracked_perm h live live' dy free b c g : live ≡ₚ live' -> tracked h live dy free b c g -> tracked h live' dy free b c g.
Proof. intros Hp. unfold tracked, dead. by setoid_rewrite Hp. Qed.

Lemma live_facts h live dy free b k g : run_ok h live dy free -> (b, k, g) ∈ live ->
  quiet h b g /\ 0 < g <= fs_generation_counter h /\ (exists v, counted h b v /\ 1 <= v <= MAX_COUNT) /\
  4096 <= b /\ accessible (hmem h) b (bsize k) /\ 32 <= bsize k.
Proof.
  intros Hok Hin. pose proof (ro_live _ _ _ _ Hok) as Hl. rewrite Forall_forall in Hl. destruct (Hl _ Hin) as (Hq & Hg & Hv).
  pose proof (bo_mapped _ _ _ _ (ho_blocks _ _ _ (ro_heap _ _ _ _ Hok))) as Hmap. rewrite Forall_forall in Hmap.
  destruct (Hmap (b, bsize k)) as (? & ? & _ & ?); [|done]. apply elem_of_app. left. by eapply elem_extents, live_block.
Qed.

(** The count of a live object moves by [d]. *)
Lemma count_step h live dy free b k g v d : run_ok h live dy free -> (b, k, g) ∈ live -> counted h b v -> 0 <= v + d <= MAX_COUNT ->
  exists m', add_fetch (hmem h) (b + off_refcount) d = Ok (v + d, m') /\ heap_ok (set_mem h m') (blocks live dy) free /\
    upd (hmem h) m' (b + off_refcount) 4 /\ quiet (set_mem h m') b g /\ counted (set_mem h m') b (v + d).
Proof.
  intros Hok Hin Hv Hr. destruct (live_facts _ _ _ _ _ _ _ Hok Hin) as ([Hq Hg] & _ & _ & _ & Hacc & Hn).
  unfold counted, quiet, off_refcount, off_generation in *. unfold MAX_COUNT in Hr. change (2 ^ 30) with 1073741824 in Hr.
  destruct (add_fetch_spec (hmem h) (b + 4) d v) as (m' & E & Hst & U & L); [acc|done|].
  assert (i32 (v + d) = v + d) as Hi.
  { apply swrap_id; [lia|]. change (2 ^ (32 - 1)) with 2147483648. lia. }
  assert (u32 (v + d) = v + d) as Hu by (apply uwrap_id; pow2; lia).
  rewrite Hi in *. rewrite Hu in L. exists m'. cbn [hmem set_mem]. split_and!; try done.
  - eapply (write_ok h _ _ b k (b + 4) 4); try exact Hst; try (unfold off_map_size; lia); [exact (ro_heap _ _ _ _ Hok)|by eapply live_block].
  - eapply not_immortal; [|exact L|unfold LPP_ARC_IMMORTAL; lia]. rewrite (loadw_upd _ _ _ _ _ _ U) by (unfold off_magic; lia).
    apply loadw_accessible. unfold off_magic. acc.
  - by rewrite (loadw_upd _ _ _ _ _ _ U) by lia.
Qed.

Lemma run_retain_step h live dy free b k g v : run_ok h live dy free -> (b, k, g) ∈ live -> counted h b v -> v < MAX_COUNT ->
  exists h', lpp_arc_retain_fs h (b + sizeof_header) = Ok h' /\ run_ok h' live dy free /\ fs_generation_counter h' = fs_generation_counter h /\
    forall x c gx, tracked h live dy free x c gx -> tracked h' live dy free x c gx.
Proof.
  intros Hok Hin Hv Hlt. destruct (live_facts _ _ _ _ _ _ _ Hok Hin) as ([Him _] & _ & (v' & Hv' & Hr) & Hlo & _ & Hn).
  assert (v' = v) as -> by (unfold counted in *; congruence).
  destruct (count_step _ _ _ _ _ _ _ v 1 Hok Hin Hv) as (m' & E & Hh' & U & Hq' & Hc'); [lia|].
  exists (set_mem h m'). split; [|].
  - unfold lpp_arc_retain_fs. rewrite (proj2 (Z.eqb_neq _ 0)) by (unfold sizeof_header; lia). replace (b + sizeof_header - sizeof_header) with b by lia.
    rewrite Him. cbn [obind]. by rewrite E.
  - apply elem_of_Permutation in Hin as [live1 Hp].
    assert (forall x, ~ (b <= x < b + bsize k) -> hmem (set_mem h m') x = hmem h x) as Hout.
    { intros x Hx. apply (proj1 U). unfold off_refcount. lia. }
    apply (heap_ok_perm _ _ _ _ (blocks_perm _ _ dy Hp)) in Hh'.
    destruct (recount h (set_mem h m') live1 dy free b k g (run_ok_perm _ _ _ _ _ Hp Hok) eq_refl eq_refl Hout Hh' (v + 1) Hq' Hc' ltac:(lia)) as [R1 R2].
    split; [by eapply run_ok_perm|]. split; [done|]. intros x c gx Ht. eapply tracked_perm; [by symmetry|]. apply R2. by eapply tracked_perm.
Qed.

(** A live object's handle. *)
Lemma live_read h live dy free b k g : run_ok h live dy free -> (b, k, g) ∈ live ->
  lpp_weak_generation_fs h (b + sizeof_header) = Ok g /\ lpp_weak_get_fs h (b + sizeof_header) g = Ok (b + sizeof_header).
Proof.
  intros Hok Hin. destruct (live_facts _ _ _ _ _ _ _ Hok Hin) as ([Him Hg] & Hr & _ & Hlo & _). pose proof (ro_counter _ _ _ _ Hok).
  assert (i32 g = g) as Hi by (apply swrap_id; [lia|]; change (2 ^ (32 - 1)) with 2147483648; change (2 ^ 31) with 2147483648 in *; lia).
  split.
  - unfold lpp_weak_generation_fs. rewrite (proj2 (Z.eqb_neq _ 0)) by (unfold sizeof_header; lia).
    replace (b + sizeof_header - sizeof_header) with b by lia. rewrite Him. cbn [obind]. rewrite Hg. cbn [obind]. by rewrite Hi.
  - rewrite weak_get_read by (done || lia). rewrite Hg. cbn [obind]. by rewrite Hi, Z.eqb_refl.
Qed.

(** A dead object's. *)
Lemma dead_read h live dy free b c g : run_ok h live dy free -> 0 < g -> dead h live dy free b c g ->
  lpp_weak_get_fs h (b + sizeof_header) g = Ok 0.
Proof.
  intros Hok Hg (w & Hw & [Him Hgen] & Hwhere).
  assert (4096 <= b) as Hlo.
  { pose proof (bo_mapped _ _ _ _ (ho_blocks _ _ _ (ro_heap _ _ _ _ Hok))) as Hmap. rewrite Forall_forall in Hmap.
    destruct (Hmap (b, csize c)) as (_ & ? & _); [|done]. apply elem_of_app. destruct Hwhere as [Hx|[Hx|Hx]]; [by right|left..].
    - by apply (elem_extents b (Small c)), dying_block.
    - by eapply (elem_extents b (Small c)), live_block. }
  rewrite weak_get_read by (done || lia). rewrite Hgen. cbn [obind]. rewrite (proj2 (Z.eqb_neq (i32 w) g)); [done|].
  change (2 ^ 31) with 2147483648 in *. destruct (Z.eq_dec w 2147483648) as [->|].
  - change (i32 2147483648) with (-2147483648). lia.
  - unfold i32. rewrite swrap_id; [lia..|]. change (2 ^ (32 - 1)) with 2147483648. lia.
Qed.

(** A generation is given once, so two objects never share block and generation. *)
Lemma run_dead_not_live h live dy free b c g : run_ok h live dy free -> dead h live dy free b c g -> (b, Small c, g) ∉ live.
Proof.
  intros Hok (w & Hw & [_ Hq] & _) Hin. destruct (live_facts _ _ _ _ _ _ _ Hok Hin) as ([_ Hg] & _). rewrite Hg in Hq. injection Hq as ->. lia.
Qed.

Lemma tracked_read h live dy free b c g : run_ok h live dy free -> 0 < g -> tracked h live dy free b c g ->
  lpp_weak_get_fs h (b + sizeof_header) g = Ok (if decide ((b, Small c, g) ∈ live) then b + sizeof_header else 0).
Proof.
  intros Hok Hg [Hin|[_ Hd]].
  - rewrite decide_True by done. by eapply live_read.
  - rewrite decide_False by (by eapply run_dead_not_live). by eapply dead_read.
Qed.

Context (Hfuel : (2 <= fuel)%nat).

(** What a release does to a live object: it counts down, and the last one runs the destructor on the
    object with its new header and gives the block back. *)
Lemma release_spec_run loc h live dy free b k g v m' : run_ok h live dy free -> (b, k, g) ∈ live ->
  add_fetch (hmem h) (b + off_refcount) (-1) = Ok (v, m') ->
  release loc h (b + sizeof_header) =
    if v =? 0 then
      let! hb := last_drop loc h b in
      let! d := loadw 8 (hmem hb) (b + off_destructor) in
      let! hd := (if negb (d =? 0) then run d hb (b + sizeof_header) else Ok hb) in lpp_arc_free hd b
    else Ok (set_mem h m').
Proof.
  intros Hok Hin E. destruct (live_facts _ _ _ _ _ _ _ Hok Hin) as ([Him _] & _ & _ & Hlo & _).
  pose proof (ro_arena _ _ _ _ Hok) as Har. assert (exists f, fuel = S (S f)) as [f Hf] by (exists (fuel - 2)%nat; lia).
  assert (b + sizeof_header <> 0) as Hne by (unfold sizeof_header; lia). assert (b + sizeof_header - sizeof_header = b) as Hb by lia.
  unfold release, last_drop. rewrite Hf. destruct loc.
  - unfold lpp_arc_release_local_fs. rewrite (proj2 (Z.eqb_neq _ 0) Hne), Hb, Him. cbn [obind]. rewrite E. cbn [obind].
    destruct (v =? 0); [|done]. unfold lpp_arena_for_header. cbn [scan_regions hmem set_mem lpp_arena_regions]. rewrite Har. cbn [Z.eqb obind].
    destruct (add_fetch m' (b + off_generation) 1) as [[? m2]| | |]; cbn [obind]; try done. unfold bury. rewrite Hb. by destruct (loadw _ _ _).
  - cbn [lpp_arc_release_fs]. rewrite (proj2 (Z.eqb_neq _ 0) Hne), Hb, Him. cbn [obind]. unfold lpp_arena_for_header. cbn [scan_regions]. rewrite Har. cbn [Z.eqb obind].
    rewrite E. cbn [obind]. destruct (v =? 0); [|done].
    destruct (add_fetch m' (b + off_generation) 1) as [[? m2]| | |]; cbn [obind]; try done.
    destruct (storew 4 m2 (b + off_magic) 0) as [m3| | |]; cbn [obind]; try done. unfold bury. rewrite Hb. by destruct (loadw _ _ _).
Qed.

(** A release that is not the last. *)
Lemma shared_step loc h live dy free b k g v : run_ok h live dy free -> (b, k, g) ∈ live -> counted h b v -> v <> 1 ->
  exists h', release loc h (b + sizeof_header) = Ok h' /\ run_ok h' live dy free /\ fs_generation_counter h' = fs_generation_counter h /\
    forall x c gx, tracked h live dy free x c gx -> tracked h' live dy free x c gx.
Proof.
  intros Hok Hin Hv Hne. destruct (live_facts _ _ _ _ _ _ _ Hok Hin) as (_ & _ & (v' & Hv' & Hr) & _ & _ & Hn).
  assert (v' = v) as -> by (unfold counted in *; congruence).
  destruct (count_step _ _ _ _ _ _ _ v (-1) Hok Hin Hv) as (m' & E & Hh' & U & Hq' & Hc'); [lia|].
  exists (set_mem h m'). split.
  - rewrite (release_spec_run loc _ _ _ _ _ _ _ _ _ Hok Hin E). by rewrite (proj2 (Z.eqb_neq _ 0)) by lia.
  - apply elem_of_Permutation in Hin as [live1 Hp].
    assert (forall x, ~ (b <= x < b + bsize k) -> hmem (set_mem h m') x = hmem h x) as Hout.
    { intros x Hx. apply (proj1 U). unfold off_refcount. lia. }
    apply (heap_ok_perm _ _ _ _ (blocks_perm _ _ dy Hp)) in Hh'.
    destruct (recount h (set_mem h m') live1 dy free b k g (run_ok_perm _ _ _ _ _ Hp Hok) eq_refl eq_refl Hout Hh' (v + -1) Hq' Hc' ltac:(lia)) as [R1 R2].
    split; [by eapply run_ok_perm|]. split; [done|]. intros x c gx Ht. eapply tracked_perm; [by symmetry|]. apply R2. by eapply tracked_perm.
Qed.

(** The last one: the header is changed, ... *)
Lemma last_step loc h live1 dy free b k g : run_ok h ((b, k, g) :: live1) dy free -> counted h b 1 ->
  exists hb, last_drop loc h b = Ok hb /\ run_ok hb live1 ((b, k) :: dy) free /\ fs_generation_counter hb = fs_generation_counter h /\
    forall x c gx, tracked h ((b, k, g) :: live1) dy free x c gx -> tracked hb live1 ((b, k) :: dy) free x c gx.
Proof.
  intros Hok Hv. assert ((b, k, g) ∈ (b, k, g) :: live1) as Hin by left.
  destruct (live_facts _ _ _ _ _ _ _ Hok Hin) as (_ & Hg & _ & _ & Hacc & Hn). pose proof (ro_counter _ _ _ _ Hok) as Hcnt.
  destruct (count_step _ _ _ _ _ _ _ 1 (-1) Hok Hin Hv) as (m1 & E & Hh1 & U1 & [Him1 Hg1] & Hc1); [done|].
  unfold counted, quiet, off_refcount, off_generation, off_magic in *. cbn [hmem set_mem] in *. change (1 + -1) with 0 in *.
  destruct (add_fetch_spec m1 (b + 8) 1 g) as (m2 & E2 & S2 & U2 & L2); [eapply upd_accessible; [exact U1|]; acc|done|].
  assert (heap_ok (set_mem h m2) (blocks ((b, k, g) :: live1) dy) free) as Hh2.
  { eapply (write_ok (set_mem h m1) _ _ b k (b + 8) 4); try exact S2; try done; try (unfold off_map_size; lia). by eapply live_block. }
  assert (u32 (g + 1) = g + 1) as Hu by (apply uwrap_id; pow2; change (2 ^ 31) with 2147483648 in *; lia). rewrite Hu in L2.
  assert (exists m3, (if loc then Ok m2 else storew 4 m2 (b + 0) 0) = Ok m3 /\ heap_ok (set_mem h m3) (blocks ((b, k, g) :: live1) dy) free /\ upd m2 m3 (b + 0) 4) as (m3 & E3 & Hh3 & U3).
  { destruct loc; [exists m2; split_and!; try done; apply upd_refl|]. destruct (storew_spec 4 m2 (b + 0) 0) as (m3 & S3 & U3 & _).
    { eapply upd_accessible; [exact U2|]. eapply upd_accessible; [exact U1|]. acc. }
    exists m3. split_and!; try done. eapply (write_ok (set_mem h m2) _ _ b k (b + 0) 4); try exact S3; try done; try (unfold off_map_size; lia). by eapply live_block. }
  assert (loadw 4 m3 (b + 4) = Ok 0) as Hc3 by (rewrite (loadw_upd _ _ _ _ _ _ U3), (loadw_upd _ _ _ _ _ _ U2) by lia; done).
  exists (set_mem h m3). split.
  - unfold last_drop, off_refcount, off_generation, off_magic. rewrite E. cbn [obind]. rewrite E2. cbn [obind]. by rewrite E3.
  - destruct (bury_step h (set_mem h m3) live1 dy free b k g Hok eq_refl eq_refl) as [R1 R2]; [| |split|exact Hc3|done].
    + intros x Hx. cbn [hmem set_mem]. rewrite (proj1 U3), (proj1 U2), (proj1 U1) by lia. done.
    + exact Hh3.
    + eapply not_immortal; [|exact Hc3|done]. apply loadw_accessible. unfold off_magic.
      eapply upd_accessible; [exact U3|]. eapply upd_accessible; [exact U2|]. eapply upd_accessible; [exact U1|]. acc.
    + cbn [hmem set_mem]. unfold off_generation. by rewrite (loadw_upd _ _ _ _ _ _ U3) by lia.
Qed.

(** ... and when the destructor is back the block is given to the allocator. *)
Lemma release_last loc h hb hd live dy free b k g : run_ok h live dy free -> (b, k, g) ∈ live -> counted h b 1 ->
  last_drop loc h b = Ok hb -> destructor_ran hb hd b -> release loc h (b + sizeof_header) = lpp_arc_free hd b.
Proof.
  intros Hok Hin Hv Hb (d & Hd & Hrun).
  destruct (count_step _ _ _ _ _ _ _ 1 (-1) Hok Hin Hv) as (m' & E & _); [done|].
  rewrite (release_spec_run loc _ _ _ _ _ _ _ _ _ Hok Hin E). change (1 + -1 =? 0) with true. cbn iota.
  rewrite Hb. cbn [obind]. rewrite Hd. cbn [obind]. by rewrite Hrun.
Qed.

Definition state_ok (s : pstate) (free : list (list Z)) : Prop := run_ok s.1.1 s.1.2 s.2 free.

(** Every run keeps the invariant, and what is known of an object. *)
Lemma prun_ok s1 s2 : prun s1 s2 -> forall free1, state_ok s1 free1 -> exists free2, state_ok s2 free2 /\
  fs_generation_counter s1.1.1 <= fs_generation_counter s2.1.1 /\
  forall b c g, tracked s1.1.1 s1.1.2 s1.2 free1 b c g -> tracked s2.1.1 s2.1.2 s2.2 free2 b c g.
Proof.
  unfold state_ok. induction 1 as [s|s1 s2 s3 _ IH1 _ IH2|h h' live dy size d b Hsz Hlim Hal Hb|h h' live dy size d Hsz Hal
    |h m' live dy b k a n v Hin Ha Hn Hst|h h' live dy b k g v Hin Hv Hlt Hret|loc h h' live dy b k g v Hin Hv Hne Hrel
    |loc h hb hd h' live live1 live2 dy b k g Hp Hv Hlast Hdes Hrun IH Hrel]; intros free1 Hok; cbn [fst snd] in *.
  - by exists free1.
  - destruct (IH1 _ Hok) as (free2 & Hok2 & Hle & Ht). destruct (IH2 _ Hok2) as (free3 & Hok3 & Hle3 & Ht3).
    exists free3. split_and!; [done|lia|]. intros b c g Hb. by apply Ht3, Ht.
  - by eapply run_alloc_step.
  - destruct (alloc_spec os h _ free1 size d (ro_heap _ _ _ _ Hok) Hsz) as [E|(b' & h2 & free' & E & Hb' & _)]; rewrite E in Hal.
    + injection Hal as <-. by exists free1.
    + injection Hal as Eb _. unfold sizeof_header in Eb. lia.
  - exists free1.
    assert (accessible (hmem h) a (Z.of_nat n)) as Hacc.
    { pose proof (bo_mapped _ _ _ _ (ho_blocks _ _ _ (ro_heap _ _ _ _ Hok))) as Hmap. rewrite Forall_forall in Hmap.
      destruct (Hmap (b, bsize k)) as (Hacc & _); [apply elem_of_app; left; by apply elem_extents|]. cbn in Hacc. unfold sizeof_header in *. acc. }
    destruct (storew_spec n (hmem h) a v Hacc) as (m1 & Hst' & U & _). rewrite Hst in Hst'. injection Hst' as <-.
    destruct (run_ok_same h (set_mem h m') live dy free1 Hok) as [R1 R2]; [|done|done| |].
    + eapply write_ok; [exact (ro_heap _ _ _ _ Hok)|exact Hin|..|exact Hst]; unfold sizeof_header, off_map_size in *; lia.
    + eapply payload_same; [exact (ro_heap _ _ _ _ Hok)|exact Hin|exact Ha|exact Hn|]. cbn. intros x Hx. apply (proj1 U). lia.
    + split; [exact R1|]. split; [cbn; lia|]. exact R2.
  - destruct (run_retain_step h live dy free1 b k g v Hok Hin Hv Hlt) as (h2 & E & R1 & R2 & R3). rewrite E in Hret. injection Hret as <-.
    exists free1. split; [done|]. split; [lia|done].
  - destruct (shared_step loc h live dy free1 b k g v Hok Hin Hv Hne) as (h2 & E & R1 & R2 & R3). rewrite E in Hrel. injection Hrel as <-.
    exists free1. split; [done|]. split; [lia|done].
  - pose proof (run_ok_perm _ _ _ _ _ Hp Hok) as Hok1. destruct (last_step loc h live1 dy free1 b k g Hok1 Hv) as (hb' & E & R1 & R2 & R3).
    rewrite E in Hlast. injection Hlast as ->. destruct (IH _ R1) as (free2 & Hok2 & Hle & Ht).
    destruct (run_free_step hd live2 dy free2 b k Hok2) as (h2 & free3 & E3 & Hok3 & Hg3 & Ht3).
    rewrite (release_last loc h hb hd ((b, k, g) :: live1) dy free1 b k g Hok1) in Hrel by (done || by left). rewrite E3 in Hrel. injection Hrel as <-.
    exists free3. split; [done|]. split; [lia|]. intros x c gx Hx. apply Ht3, Ht, R3. by eapply tracked_perm.
Qed.

Lemma run_start_ok : run_ok heap0 [] [] (replicate 8 []).
Proof. split; [exact heap0_ok|done|done|constructor..]. Qed.

End program.

(** ** An example run *)

Definition got {A} (d : A) (r : outcome A) : A := match r with Ok a => a | _ => d end.
Definition returns {A} (r : outcome A) : bool := match r with Ok _ => true | _ => false end.
Lemma got_ok {A} (d : A) r : returns r = true -> r = Ok (got d r).
Proof. by destruct r. Qed.
Lemma ok_heap r p : ptr_of r = p -> p <> -1 -> r = Ok (p, heap_of r).
Proof. apply ptr_heap. Qed.

(** An object whose destructor, 7, writes in it is made, shared, released twice; its block goes to a
    second object; a third one is large and has its own mapping. *)
Definition scribble (d : Z) (h : heap) (p : Z) : outcome heap :=
  if d =? 7 then let! m := storew 8 (hmem h) p 5 in Ok (set_mem h m) else Ok h.
Definition run1 : heap := heap_of (lpp_arc_alloc_with_destructor_fs first_fit heap0 8 7).
Definition run2 : heap := got heap0 (lpp_arc_retain_fs run1 0x100018).
Definition run3 : heap := got heap0 (release scribble 2 false run2 0x100018).
Definition run3b : heap := got heap0 (last_drop true run3 0x100000).
Definition run3m : memory := got (fun _ => None) (storew 8 (hmem run3b) 0x100018 5).
Definition run4 : heap := got heap0 (release scribble 2 true run3 0x100018).
Definition run5 : heap := heap_of (lpp_arc_alloc_with_destructor_fs first_fit run4 5 0).
Definition run6 : heap := heap_of (lpp_arc_alloc_with_destructor_fs first_fit run5 5000 0).
Definition run7 : heap := got heap0 (release scribble 2 false run6 0x200018).

Definition obj1 : obj := (0x100000, Small 0, 2).
Definition obj2 : obj := (0x100000, Small 0, 3).
Definition obj3 : obj := (0x200000, Big 8192, 4).

Abbreviation prun_demo := (prun first_fit scribble 2).

Lemma run_to_1 : prun_demo (heap0, [], []) (run1, [obj1], []).
Proof.
  apply (r_alloc first_fit scribble 2 heap0 run1 [] [] 8 7 0x100000); [done|done|apply ok_heap; [vm_compute; reflexivity|done]|done].
Qed.
Lemma run_to_3 : prun_demo (run1, [obj1], []) (run3, [obj1], []).
Proof.
  eapply r_then.
  - apply (r_retain first_fit scribble 2 run1 run2 [obj1] [] 0x100000 (Small 0) 2 1); [by left|by vm_compute|done|].
    apply got_ok. by vm_compute.
  - apply (r_release first_fit scribble 2 false run2 run3 [obj1] [] 0x100000 (Small 0) 2 2); [by left|by vm_compute|done|].
    apply got_ok. by vm_compute.
Qed.
Lemma run_to_4 : prun_demo (run3, [obj1], []) (run4, [], []).
Proof.
  apply (r_last first_fit scribble 2 true run3 run3b (set_mem run3b run3m) run4 [obj1] [] [] [] 0x100000 (Small 0) 2); [done|by vm_compute|..].
  - apply got_ok. by vm_compute.
  - exists 7. split; [by vm_compute|]. change (negb (7 =? 0)) with true. cbn iota. unfold scribble. change (7 =? 7) with true. cbn iota.
    replace (storew 8 (hmem run3b) (0x100000 + sizeof_header) 5) with (Ok run3m); [done|]. symmetry. apply got_ok. by vm_compute.
  - apply (r_write first_fit scribble 2 run3b run3m [] [(0x100000, Small 0)] 0x100000 (Small 0) 0x100018 8 5); [by left|done|done|].
    apply got_ok. by vm_compute.
  - apply got_ok. by vm_compute.
Qed.
Lemma run_to_6 : prun_demo (run4, [], []) (run6, [obj3; obj2], []).
Proof.
  eapply r_then.
  - apply (r_alloc first_fit scribble 2 run4 run5 [] [] 5 0 0x100000); [done|by vm_compute|apply ok_heap; [vm_compute; reflexivity|done]|done].
  - apply (r_alloc first_fit scribble 2 run5 run6 [obj2] [] 5000 0 0x200000); [done|by vm_compute|apply ok_heap; [vm_compute; reflexivity|done]|done].
Qed.

