(* ===== verification/FreeStr.v ===== *)
(** * The freestanding string builtins (runtime/linux_x86_64_min.c)

    Without the C library every string is scanned and copied byte by byte, by index.  [chr_at]
    reads a byte of a string or its terminator; anything beyond is undefined, as is a store
    outside the fresh block or through the NULL pointer of a refused allocation (the results of
    [lpp_alloc] are not tested).  The definitions carry the suffix [_fs]; the theorems show that
    the loops compute what the hosted builtins ([Str]) compute. *)

From S2P Require Import Prelude CInt Buf ListRt Str FreeMap.

Definition chr_at (s : cstr) (i : Z) : outcome Z := rd (s ++ [0]) i.

(** [return lpp_alloc(1)]: a zeroed byte, or NULL. *)
Definition blank (al : allocator) : outcome str_ret := Ok (if al 0%nat 1 then SOwned [] else SNull).
(** [e = lpp_alloc(1); e[0] = 0; return e]. *)
Definition empty_fs (al : allocator) : outcome str_ret := unchecked (fresh_str al 0 1 (fun out => wr out 0 0)).

(** [while (s[n]) n++]. *)
Fixpoint strlen_loop (fuel : nat) (s : cstr) (n : Z) : outcome Z :=
  match fuel with
  | O => NoFuel
  | S f => let! c := chr_at s n in if negb (c =? 0) then strlen_loop f s (n + 1) else Ok n
  end.
Definition lpp_strlen (s : option cstr) : outcome Z :=
  match s with None => Ok 0 | Some s => strlen_loop (S (length s)) s 0 end.
Definition lpp_str_len_fs (s : option cstr) : outcome Z := lpp_strlen s.

(** [for (i = 0; i < k; i++) out[d + i] = s[o + i]], from the [i]-th round on. *)
Fixpoint copy_bytes (k : nat) (i : Z) (out : list Z) (d : Z) (s : cstr) (o : Z) : outcome (list Z) :=
  match k with
  | O => Ok out
  | S k => let! c := chr_at s (o + i) in let! out := wr out (d + i) c in copy_bytes k (i + 1) out d s o
  end.
Definition copy_n (out : list Z) (d : Z) (s : cstr) (o n : Z) : outcome (list Z) := copy_bytes (Z.to_nat n) 0 out d s o.

Definition lpp_str_concat_fs (al : allocator) (a b : option cstr) : outcome str_ret :=
  let! alen := lpp_strlen a in
  let! blen := lpp_strlen b in
  unchecked (fresh_str al 0 (alen + blen + 1) (fun out =>
    let! out := copy_n out 0 (default [] a) 0 alen in
    let! out := copy_n out alen (default [] b) 0 blen in
    wr out (alen + blen) 0)).

Definition lpp_str_substr_fs (al : allocator) (s : option cstr) (start length : Z) : outcome str_ret :=
  match s with
  | None => blank al
  | Some t =>
      let! n := lpp_strlen s in
      let start := if start <? 0 then 0 else start in
      if (start >=? n) || (length <=? 0) then empty_fs al
      else
        let! e := chk64 (start + length) in
        let length := if e >? n then n - start else length in
        unchecked (fresh_str al 0 (length + 1) (fun out =>
          let! out := copy_n out 0 t start length in wr out length 0))
  end.

(** The outer loop of [lpp_str_repeat]; the inner one is a copy. *)
Fixpoint repeat_loop_fs (k : nat) (i : Z) (out : list Z) (s : cstr) (n : Z) : outcome (list Z) :=
  match k with
  | O => Ok out
  | S k => let! out := copy_n out (i * n) s 0 n in repeat_loop_fs k (i + 1) out s n
  end.
Definition lpp_str_repeat_fs (al : allocator) (s : option cstr) (n : Z) : outcome str_ret :=
  match s with
  | None => empty_fs al
  | Some t =>
      if n <=? 0 then empty_fs al
      else
        let! len := lpp_strlen s in
        if len =? 0 then empty_fs al
        else if (n >? 0) && (len >? INT64_MAX / n) then exit_101
        else
          let! total := chk64 (len * n) in
          let! size := chk64 (total + 1) in
          unchecked (fresh_str al 0 size (fun out =>
            let! out := repeat_loop_fs (Z.to_nat n) 0 out t len in wr out total 0))
  end.

Definition lpp_char_at_fs (al : allocator) (s : option cstr) (idx : Z) : outcome str_ret :=
  match s with
  | None => blank al
  | Some t =>
      let! n := lpp_strlen s in
      if (idx <? 0) || (idx >=? n) then blank al
      else unchecked (fresh_str al 0 2 (fun out =>
             let! c := chr_at t idx in let! out := wr out 0 c in wr out 1 0))
  end.
Definition lpp_ord_fs (s : option cstr) : outcome Z :=
  match s with None => Ok 0 | Some s => let! c := chr_at s 0 in Ok (if c =? 0 then 0 else u8 c) end.
Definition lpp_chr_fs (al : allocator) (code : Z) : outcome str_ret :=
  unchecked (fresh_str al 0 2 (fun out => let! out := wr out 0 (Z.land code 0xFF) in wr out 1 0)).

(** [while (j < k && s[i + j] == p[j]) j++]: how far [p] matches at [i]. *)
Fixpoint match_loop (k : nat) (s p : cstr) (i j : Z) : outcome Z :=
  match k with
  | O => Ok j
  | S k =>
      let! x := chr_at s (i + j) in
      let! y := chr_at p j in
      if x =? y then match_loop k s p i (j + 1) else Ok j
  end.

(** [for (i = 0; i <= hlen - nlen; i++)], with [k] rounds left. *)
Fixpoint find_loop (k : nat) (h needle : cstr) (nlen i : Z) : outcome Z :=
  match k with
  | O => Ok (-1)
  | S k =>
      let! j := match_loop (Z.to_nat nlen) h needle i 0 in
      if j =? nlen then Ok i else find_loop k h needle nlen (i + 1)
  end.
Definition lpp_str_find_fs (haystack needle : option cstr) : outcome Z :=
  match haystack, needle with
  | Some h, Some n =>
      let! hlen := lpp_strlen haystack in
      let! nlen := lpp_strlen needle in
      if nlen =? 0 then Ok 0
      else if nlen >? hlen then Ok (-1)
      else find_loop (Z.to_nat (hlen - nlen + 1)) h n nlen 0
  | _, _ => Ok (-1)
  end.
Definition lpp_str_contains_fs (haystack needle : option cstr) : outcome Z :=
  let! k := lpp_str_find_fs haystack needle in Ok (if k >=? 0 then 1 else 0).

Fixpoint prefix_loop (k : nat) (s p : cstr) (i : Z) : outcome Z :=
  match k with
  | O => Ok 1
  | S k =>
      let! x := chr_at s i in
      let! y := chr_at p i in
      if negb (x =? y) || (x =? 0) then Ok 0 else prefix_loop k s p (i + 1)
  end.
Definition lpp_str_starts_with_fs (s prefix : option cstr) : outcome Z :=
  match s, prefix with
  | Some s, Some p => let! plen := lpp_strlen prefix in prefix_loop (Z.to_nat plen) s p 0
  | _, _ => Ok 0
  end.

Fixpoint suffix_loop (k : nat) (s x : cstr) (base i : Z) : outcome Z :=
  match k with
  | O => Ok 1
  | S k =>
      let! a := chr_at s (base + i) in
      let! b := chr_at x i in
      if negb (a =? b) then Ok 0 else suffix_loop k s x base (i + 1)
  end.
Definition lpp_str_ends_with_fs (s suffix : option cstr) : outcome Z :=
  match s, suffix with
  | Some t, Some x =>
      let! n := lpp_strlen s in
      let! xlen := lpp_strlen suffix in
      if xlen >? n then Ok 0 else suffix_loop (Z.to_nat xlen) t x (n - xlen) 0
  | _, _ => Ok 0
  end.

Definition case_copy_fs (f : Z -> Z) (al : allocator) (s : option cstr) : outcome str_ret :=
  match s with
  | None => blank al
  | Some t =>
      let! len := lpp_strlen s in
      unchecked (fresh_str al 0 (len + 1) (fun out =>
        let! out := map_loop f (Z.to_nat len) 0 out t in wr out len 0))
  end.
Definition lpp_str_upper_fs : allocator -> option cstr -> outcome str_ret := case_copy_fs up.
Definition lpp_str_lower_fs : allocator -> option cstr -> outcome str_ret := case_copy_fs down.

(** The two loops of [lpp_str_trim]. *)
Fixpoint trim_start (fuel : nat) (s : cstr) (len start : Z) : outcome Z :=
  match fuel with
  | O => NoFuel
  | S f =>
      if start <? len then
        let! c := chr_at s start in if ws c then trim_start f s len (start + 1) else Ok start
      else Ok start
  end.
Fixpoint trim_end (fuel : nat) (s : cstr) (start end_ : Z) : outcome Z :=
  match fuel with
  | O => NoFuel
  | S f =>
      if end_ >? start then
        let! c := chr_at s (end_ - 1) in if ws c then trim_end f s start (end_ - 1) else Ok end_
      else Ok end_
  end.
Definition lpp_str_trim_fs (al : allocator) (s : option cstr) : outcome str_ret :=
  match s with
  | None => blank al
  | Some t =>
      let! len := lpp_strlen s in
      let! start := trim_start (S (length t)) t len 0 in
      let! end_ := trim_end (S (length t)) t start len in
      let rlen := end_ - start in
      unchecked (fresh_str al 0 (rlen + 1) (fun out =>
        let! out := copy_n out 0 t start rlen in wr out rlen 0))
  end.

(** [for (i = 0; i <= slen - olen; i++) { ...; if (j == olen) { count++; i += olen - 1; } }]. *)
Fixpoint count_loop (fuel : nat) (s old : cstr) (n olen i count : Z) : outcome Z :=
  match fuel with
  | O => NoFuel
  | S f =>
      if i <=? n - olen then
        let! j := match_loop (Z.to_nat olen) s old i 0 in
        if j =? olen then count_loop f s old n olen (i + (olen - 1) + 1) (count + 1)
        else count_loop f s old n olen (i + 1) count
      else Ok count
  end.
(** The copying loop: [w] bytes are written, [i] bytes are read. *)
Fixpoint replace_loop_fs (fuel : nat) (out : list Z) (w : Z) (s old new_ : cstr) (n olen nlen i : Z) : outcome (list Z) :=
  match fuel with
  | O => NoFuel
  | S f =>
      if i <? n then
        let! j := (if i <=? n - olen then match_loop (Z.to_nat olen) s old i 0 else Ok 0) in
        if j =? olen then
          let! out := copy_n out w new_ 0 nlen in
          replace_loop_fs f out (w + nlen) s old new_ n olen nlen (i + olen)
        else
          let! c := chr_at s i in
          let! out := wr out w c in
          replace_loop_fs f out (w + 1) s old new_ n olen nlen (i + 1)
      else Ok out
  end.
Definition lpp_str_replace_fs (al : allocator) (s old new_ : option cstr) : outcome str_ret :=
  match s, old, new_ with
  | Some t, Some o, Some w =>
      let! n := lpp_strlen s in
      let! olen := lpp_strlen old in
      let! nlen := lpp_strlen new_ in
      if olen =? 0 then
        unchecked (fresh_str al 0 (n + 1) (fun out => copy_n out 0 t 0 (n + 1)))
      else
        let! count := count_loop (S (S (length t))) t o n olen 0 0 in
        let delta := nlen - olen in
        let! grow := (if (count >? 0) && (delta >? 0) then chk64 (count * delta) else Ok 0) in
        if (count >? 0) && (delta >? 0) && (n >? INT64_MAX - grow) then exit_101
        else
          let! prod := chk64 (count * delta) in
          let! rlen := chk64 (n + prod) in
          let rlen := if rlen <? 0 then 0 else rlen in
          let! size := chk64 (rlen + 1) in
          unchecked (fresh_str al 0 size (fun out =>
            let! out := replace_loop_fs (S (length t)) out 0 t o w n olen nlen 0 in
            wr out rlen 0))
  | _, _, _ => blank al
  end.

(** [do { buf[--i] = '0' + (val % 10); val /= 10; } while (val)]. *)
Fixpoint digit_loop (fuel : nat) (buf : list Z) (i val : Z) : outcome (list Z * Z) :=
  match fuel with
  | O => NoFuel
  | S f =>
      let! buf := wr buf (i - 1) (48 + Z.rem val 10) in
      let val := Z.quot val 10 in
      if negb (val =? 0) then digit_loop f buf (i - 1) val else Ok (buf, i - 1)
  end.
Definition lpp_int_to_str_fs (al : allocator) (val : Z) : outcome str_ret :=
  let neg := val <? 0 in
  let! val := (if neg then chk64 (- val) else Ok val) in
  let! buf := wr (replicate 24 0) 23 0 in
  let! '(buf, i) := digit_loop 24 buf 23 val in
  let! '(buf, i) := (if neg then let! buf := wr buf (i - 1) 45 in Ok (buf, i - 1) else Ok (buf, i)) in
  let len := 23 - i in
  unchecked (fresh_str al 0 (len + 1) (fun out => copy_n out 0 buf i (len + 1))).

Fixpoint blanks_loop (fuel : nat) (s : cstr) (i : Z) : outcome Z :=
  match fuel with
  | O => NoFuel
  | S f => let! c := chr_at s i in if (c =? 32) || (c =? 9) then blanks_loop f s (i + 1) else Ok i
  end.
Fixpoint decimal_loop (fuel : nat) (s : cstr) (i val : Z) : outcome Z :=
  match fuel with
  | O => NoFuel
  | S f =>
      let! c := chr_at s i in
      if (c >=? 48) && (c <=? 57) then
        let! v := chk64 (val * 10) in
        let! v := chk64 (v + (c - 48)) in
        decimal_loop f s (i + 1) v
      else Ok val
  end.
Definition lpp_str_to_int_fs (s : option cstr) : outcome Z :=
  match s with
  | None => Ok 0
  | Some s =>
      let! i := blanks_loop (S (length s)) s 0 in
      let! c := chr_at s i in
      let neg := c =? 45 in
      let i := if (c =? 45) || (c =? 43) then i + 1 else i in
      let! val := decimal_loop (S (length s)) s i 0 in
      if neg then chk64 (- val) else Ok val
  end.
Definition lpp_parse_int_fs (s : option cstr) : outcome Z := lpp_str_to_int_fs s.

(** ** The loops *)

Lemma chr_at_lookup s i x : 0 <= i -> s !! Z.to_nat i = Some x -> chr_at s i = Ok x.
Proof. intros Hi Hx. unfold chr_at. apply rd_ok; [done|]. by apply lookup_app_l_Some. Qed.

Lemma chr_at_end s : chr_at s (slen s) = Ok 0.
Proof. unfold chr_at, slen. apply rd_ok; [lia|]. rewrite Nat2Z.id. by rewrite lookup_app_r, Nat.sub_diag by lia. Qed.

(** The byte at an index inside the string. *)
Lemma chr_at_drop s (i : nat) c r : drop i s = c :: r -> chr_at s (Z.of_nat i) = Ok c.
Proof.
  intros H. apply chr_at_lookup; [lia|]. rewrite Nat2Z.id. rewrite <- (Nat.add_0_r i), <- lookup_drop, H. done.
Qed.
Lemma chr_at_nil s (i : nat) : drop i s = [] -> (i <= length s)%nat -> chr_at s (Z.of_nat i) = Ok 0.
Proof.
  intros H Hi. apply (f_equal length) in H. rewrite length_drop in H. cbn in H.
  replace (Z.of_nat i) with (slen s) by (unfold slen; lia). apply chr_at_end.
Qed.

Lemma drop_step {A} (s : list A) i c r : drop i s = c :: r -> drop (S i) s = r.
Proof. intros H. replace (S i) with (i + 1)%nat by lia. by rewrite <- drop_drop, H. Qed.

Lemma strlen_loop_spec s : cstr_ok s -> forall f i, (length s - i < f)%nat -> (i <= length s)%nat ->
  strlen_loop f s (Z.of_nat i) = Ok (slen s).
Proof.
  intros Hs. induction f as [|f IH]; intros i Hf Hi; [lia|]. cbn [strlen_loop]. destruct (drop i s) as [|c r] eqn:E.
  - rewrite chr_at_nil by done. cbn. f_equal. apply (f_equal length) in E. rewrite length_drop in E. cbn in E. unfold slen. lia.
  - rewrite (chr_at_drop s i c r E). cbn [obind]. assert (1 <= c < 256) as Hc.
    { pose proof (Forall_drop _ i _ Hs) as Hd. rewrite E in Hd. by inversion Hd. }
    rewrite (proj2 (Z.eqb_neq c 0)) by lia. cbn [negb]. replace (Z.of_nat i + 1) with (Z.of_nat (S i)) by lia.
    apply (f_equal length) in E. rewrite length_drop in E. cbn in E. apply IH; lia.
Qed.
Lemma strlen_ok s : cstr_ok s -> lpp_strlen (Some s) = Ok (slen s).
Proof. intros Hs. cbn [lpp_strlen]. apply (strlen_loop_spec s Hs _ 0); lia. Qed.

(** Copying [k] bytes behind what is already written. *)
Lemma copy_append s (k : nat) : forall (i o r : nat) w, (o + i + k <= length s)%nat ->
  forall d, Z.of_nat (length w) = d + Z.of_nat i ->
  copy_bytes k (Z.of_nat i) (w ++ replicate (k + r) 0) d s (Z.of_nat o) = Ok ((w ++ take k (drop (o + i) s)) ++ replicate r 0).
Proof.
  induction k as [|k IH]; intros i o r w Hk d Hd; cbn [copy_bytes].
  - by rewrite take_0, app_nil_r.
  - replace (Z.of_nat o + Z.of_nat i) with (Z.of_nat (o + i)) by lia.
    destruct (drop (o + i) s) as [|c q] eqn:E; [apply (f_equal length) in E; rewrite length_drop in E; cbn in E; lia|].
    rewrite (chr_at_drop _ _ _ _ E). cbn [obind]. rewrite wr_ok by (rewrite length_app, length_replicate; lia).
    cbn [obind]. rewrite <- Hd, Nat2Z.id, insert_app_r_alt, Nat.sub_diag by lia. cbn [Nat.add replicate insert list_insert].
    replace (w ++ c :: replicate (k + r) 0) with ((w ++ [c]) ++ replicate (k + r) 0) by (by rewrite <- (assoc_L (++))).
    replace (Z.of_nat i + 1) with (Z.of_nat (S i)) by lia. rewrite (IH (S i) o r (w ++ [c])); [|lia|rewrite length_app; cbn; lia].
    rewrite Nat.add_succ_r, (drop_step _ _ _ _ E). cbn [take]. by rewrite <- !(assoc_L (++)).
Qed.

(** The same at offset [d = length w], from the start of the copy. *)
Lemma copy_n_append s (o k r : nat) w d n : (o + k <= length s)%nat -> d = slen w -> n = Z.of_nat k ->
  copy_n (w ++ replicate (k + r) 0) d s (Z.of_nat o) n = Ok ((w ++ take k (drop o s)) ++ replicate r 0).
Proof.
  intros Hk -> ->. unfold copy_n. rewrite Nat2Z.id. rewrite (copy_append s k 0 o r w) by (unfold slen; lia). by rewrite Nat.add_0_r.
Qed.

(** A block of [n] bytes holding [w] and a terminator is the string [w]. *)
Lemma unchecked_ok al n fill w : al 0%nat n = true -> cstr_ok w -> (exists r, fill (replicate (Z.to_nat n) 0) = Ok (w ++ replicate r 0)) ->
  unchecked (fresh_str al 0 n fill) = Ok (SOwned w).
Proof. intros Hal Hw [r Hf]. unfold unchecked. by rewrite (fresh_str_ok al 0 n fill w r Hal Hw Hf). Qed.

Lemma empty_fs_ok al : al 0%nat 1 = true -> empty_fs al = Ok (SOwned []).
Proof. intros Hal. apply unchecked_ok; [done|constructor|]. by exists 1%nat. Qed.

(** Copy a part of a string into a block of its own. *)
Lemma part_ok al s (o k : nat) n : al 0%nat (n + 1) = true -> cstr_ok s -> (o + k <= length s)%nat -> n = Z.of_nat k ->
  unchecked (fresh_str al 0 (n + 1) (fun out => let! out := copy_n out 0 s (Z.of_nat o) n in wr out n 0)) = Ok (SOwned (take k (drop o s))).
Proof.
  intros Hal Hs Hk ->. apply unchecked_ok; [done|by apply Forall_take, Forall_drop|]. exists 1%nat.
  replace (Z.to_nat (Z.of_nat k + 1)) with (k + 1)%nat by lia.
  rewrite (copy_n_append s o k 1 [] 0) by done. cbn [obind app]. apply wr_nul. rewrite length_take, length_drop. lia.
Qed.

(** A whole string. *)
Lemma copy_n_whole s r w d : d = slen w ->
  copy_n (w ++ replicate (length s + r) 0) d s 0 (slen s) = Ok ((w ++ s) ++ replicate r 0).
Proof.
  intros ->. pose proof (copy_n_append s 0 (length s) r w (slen w) (slen s)) as H. change (Z.of_nat 0) with 0 in H.
  rewrite H by (done || lia). by rewrite drop_0, take_ge by lia.
Qed.
Lemma copy_n_first s r : copy_n (replicate (length s + r) 0) 0 s 0 (slen s) = Ok (s ++ replicate r 0).
Proof. exact (copy_n_whole s r [] 0 eq_refl). Qed.

Lemma copy_bytes_snoc k : forall i out d s o,
  copy_bytes (S k) i out d s o = let! out := copy_bytes k i out d s o in
    let! c := chr_at s (o + (i + Z.of_nat k)) in wr out (d + (i + Z.of_nat k)) c.
Proof.
  induction k as [|k IH]; intros i out d s o.
  - cbn [copy_bytes obind]. rewrite Z.add_0_r. destruct (chr_at s (o + i)); try done. cbn [obind]. by destruct (wr out (d + i) a).
  - cbn [copy_bytes]. destruct (chr_at s (o + i)) as [c| | |]; try done. cbn [obind]. destruct (wr out (d + i) c) as [out'| | |]; try done.
    cbn [obind]. specialize (IH (i + 1) out' d s o). cbn [copy_bytes] in IH. rewrite IH.
    by replace (i + 1 + Z.of_nat k) with (i + Z.of_nat (S k)) by lia.
Qed.

(** A string with its terminator. *)
Lemma copy_with_terminator s : copy_n (replicate (length s + 1) 0) 0 s 0 (slen s + 1) = Ok (s ++ replicate 1 0).
Proof.
  unfold copy_n. replace (Z.to_nat (slen s + 1)) with (S (length s)) by (unfold slen; lia). rewrite copy_bytes_snoc.
  pose proof (copy_n_first s 1) as H. unfold copy_n in H. replace (Z.to_nat (slen s)) with (length s) in H by (unfold slen; lia). rewrite H.
  cbn [obind]. rewrite !Z.add_0_l. fold (slen s). rewrite chr_at_end. cbn [obind]. by apply wr_nul.
Qed.

Lemma concat_fs_ok al a b : al 0%nat (slen a + slen b + 1) = true -> cstr_ok a -> cstr_ok b ->
  lpp_str_concat_fs al (Some a) (Some b) = Ok (SOwned (a ++ b)).
Proof.
  intros Hal Ha Hb. unfold lpp_str_concat_fs. rewrite !strlen_ok by done. cbn [obind default id].
  apply unchecked_ok; [done|by apply cstr_ok_app|]. exists 1%nat.
  replace (Z.to_nat _) with (length a + (length b + 1))%nat by (unfold slen; lia).
  rewrite copy_n_first. cbn [obind]. rewrite copy_n_whole by done. cbn [obind].
  apply wr_nul. rewrite length_app. unfold slen. lia.
Qed.

Definition sub_of (s : cstr) (start n : Z) : cstr := take (Z.to_nat n) (drop (Z.to_nat start) s).

Lemma substr_fs_ok al s start n : (forall m, al 0%nat m = true) -> cstr_ok s -> slen s <= INT64_MAX -> Z.max 0 start + n <= INT64_MAX ->
  lpp_str_substr_fs al (Some s) start n = Ok (SOwned (sub_of s start n)).
Proof.
  intros Hal Hs Hlen Hr. unfold lpp_str_substr_fs. rewrite strlen_ok by done. cbn [obind].
  assert ((if start <? 0 then 0 else start) = Z.max 0 start) as -> by (destruct (Z.ltb_spec start 0); lia).
  unfold sub_of. replace (Z.to_nat start) with (Z.to_nat (Z.max 0 start)) by lia.
  assert (exists st, Z.max 0 start = Z.of_nat st) as [st Hst] by (exists (Z.to_nat (Z.max 0 start)); lia). rewrite Hst in *. rewrite Nat2Z.id.
  rewrite Z.geb_leb. destruct (Z.leb_spec (slen s) (Z.of_nat st)) as [Hge|Hlt]; cbn [orb].
  { rewrite empty_fs_ok, (drop_ge s) by (done || (unfold slen in *; lia)). by rewrite take_nil. }
  destruct (Z.leb_spec n 0) as [Hn|Hn].
  { rewrite empty_fs_ok by done. by replace (Z.to_nat n) with 0%nat by lia. }
  rewrite chk64_ok by (pow2; lia). cbn [obind]. rewrite Z.gtb_ltb. unfold slen in *.
  destruct (Z.ltb_spec (Z.of_nat (length s)) (Z.of_nat st + n)) as [Hlong|Hfit].
  - rewrite (part_ok al s st (length s - st)) by (done || lia).
    by rewrite !take_ge by (rewrite length_drop; lia).
  - rewrite (part_ok al s st (Z.to_nat n)) by (done || lia). done.
Qed.

Lemma repeat_loop_fs_spec s (k : nat) : forall (i r : nat) w, length w = (i * length s)%nat ->
  repeat_loop_fs k (Z.of_nat i) (w ++ replicate (k * length s + r) 0) s (slen s) = Ok ((w ++ concat (replicate k s)) ++ replicate r 0).
Proof.
  induction k as [|k IH]; intros i r w Hw; cbn [repeat_loop_fs replicate concat Nat.mul Nat.add]; [by rewrite app_nil_r|].
  rewrite <- Nat.add_assoc, copy_n_whole by (unfold slen; lia). cbn [obind]. replace (Z.of_nat i + 1) with (Z.of_nat (S i)) by lia.
  rewrite IH by (rewrite length_app; lia). by rewrite <- (assoc_L (++) w s).
Qed.

Lemma repeat_fs_ok al s n : (forall m, al 0%nat m = true) -> cstr_ok s -> slen s * Z.max 0 n < INT64_MAX ->
  lpp_str_repeat_fs al (Some s) n = Ok (SOwned (concat (replicate (Z.to_nat n) s))).
Proof.
  intros Hal Hs Hsz. unfold lpp_str_repeat_fs. destruct (Z.leb_spec n 0) as [Hn|Hn].
  { rewrite empty_fs_ok by done. by replace (Z.to_nat n) with 0%nat by lia. }
  rewrite strlen_ok by done. cbn [obind]. rewrite Z.max_r in Hsz by lia. destruct (Z.eqb_spec (slen s) 0) as [Hz|Hz].
  { destruct s; [|unfold slen in Hz; cbn in Hz; lia]. rewrite empty_fs_ok by done. do 2 f_equal. symmetry. by apply concat_nil_Forall, Forall_replicate. }
  pose proof (slen_nonneg s). rewrite !Z.gtb_ltb, (proj2 (Z.ltb_ge (INT64_MAX / n) (slen s))).
  2: { apply Z.div_le_lower_bound; lia. }
  rewrite andb_false_r. rewrite !chk64_ok by (pow2; nia). cbn [obind]. rewrite chk64_ok by (pow2; nia). cbn [obind].
  apply unchecked_ok; [done|by apply Forall_concat, Forall_replicate|]. exists 1%nat.
  replace (Z.to_nat (slen s * n + 1)) with (Z.to_nat n * length s + 1)%nat by (unfold slen in *; nia).
  pose proof (repeat_loop_fs_spec s (Z.to_nat n) 0 1 [] eq_refl) as Hl. cbn [app] in Hl. change (Z.of_nat 0) with 0 in Hl. rewrite Hl.
  cbn [obind]. apply wr_nul. rewrite concat_replicate_length. unfold slen. nia.
Qed.

(** ** Searching *)

Lemma match_loop_spec k : forall s p (i j : nat), (j + k = length p)%nat -> (i + length p <= length s)%nat ->
  exists j', match_loop k s p (Z.of_nat i) (Z.of_nat j) = Ok j' /\ (j' =? slen p) = starts (drop j p) (drop (i + j) s).
Proof.
  induction k as [|k IH]; intros s p i j Hj Hi; cbn [match_loop].
  - exists (Z.of_nat j). split; [done|]. rewrite (drop_ge p) by lia. cbn. unfold slen. by rewrite (proj2 (Z.eqb_eq _ _)) by lia.
  - replace (Z.of_nat i + Z.of_nat j) with (Z.of_nat (i + j)) by lia.
    destruct (drop (i + j) s) as [|x r] eqn:Es; [apply (f_equal length) in Es; rewrite length_drop in Es; cbn in Es; lia|].
    destruct (drop j p) as [|y q] eqn:Ep; [apply (f_equal length) in Ep; rewrite length_drop in Ep; cbn in Ep; lia|].
    rewrite (chr_at_drop _ _ _ _ Es), (chr_at_drop _ _ _ _ Ep). cbn [obind starts]. rewrite (Z.eqb_sym y x). destruct (Z.eqb_spec x y) as [->|Hne].
    + replace (Z.of_nat j + 1) with (Z.of_nat (S j)) by lia. destruct (IH s p i (S j)) as (j' & -> & Hj'); [lia..|].
      exists j'. split; [done|]. rewrite Hj', Nat.add_succ_r. by rewrite (drop_step _ _ _ _ Es), (drop_step _ _ _ _ Ep).
    + exists (Z.of_nat j). split; [done|]. unfold slen. by rewrite (proj2 (Z.eqb_neq _ _)) by lia.
Qed.

Lemma match_at s p (i : nat) : (i + length p <= length s)%nat ->
  exists j, match_loop (Z.to_nat (slen p)) s p (Z.of_nat i) 0 = Ok j /\ (j =? slen p) = starts p (drop i s).
Proof.
  intros Hi. unfold slen at 1. rewrite Nat2Z.id. destruct (match_loop_spec (length p) s p i 0) as (j & Hj & He); [lia..|].
  exists j. by rewrite Nat.add_0_r, drop_0 in He.
Qed.

Lemma starts_short p s : (length s < length p)%nat -> starts p s = false.
Proof. destruct (starts p s) eqn:E; [|done]. apply starts_spec in E as [r ->]. rewrite length_app. lia. Qed.

Lemma strstr_here s p : starts p s = true -> strstr s p = Some 0%nat.
Proof. intros H. destruct s; cbn [strstr]; by rewrite H. Qed.
Lemma strstr_skip c s p : starts p (c :: s) = false -> strstr (c :: s) p = S <$> strstr s p.
Proof. intros H. cbn [strstr]. rewrite H. by destruct (strstr s p). Qed.
Lemma strstr_short s p : (length s < length p)%nat -> strstr s p = None.
Proof.
  intros H. destruct (strstr s p) as [k|] eqn:E; [|done]. destruct (strstr_some s p k E) as (? & _ & _ & ? & _). lia.
Qed.

Lemma find_loop_spec k : forall h p (i : nat), (0 < length p)%nat -> (i + k + length p = S (length h))%nat ->
  find_loop k h p (slen p) (Z.of_nat i) = Ok (match strstr (drop i h) p with Some j => Z.of_nat (i + j) | None => -1 end).
Proof.
  induction k as [|k IH]; intros h p i Hp Hk; cbn [find_loop].
  - by rewrite strstr_short by (rewrite length_drop; lia).
  - destruct (match_at h p i) as (j & -> & Hj); [lia|]. cbn [obind]. rewrite Hj. destruct (starts p (drop i h)) eqn:E.
    + rewrite strstr_here by done. by rewrite Nat.add_0_r.
    + destruct (drop i h) as [|c r] eqn:Ed.
      { apply (f_equal length) in Ed. rewrite length_drop in Ed. cbn in Ed. destruct p; [done|]. cbn in Hk. lia. }
      replace (Z.of_nat i + 1) with (Z.of_nat (S i)) by lia. rewrite IH by lia. rewrite (drop_step _ _ _ _ Ed), strstr_skip by done.
      destruct (strstr r p) as [x|]; [|done]. cbn [fmap option_fmap option_map]. do 2 f_equal. lia.
Qed.

Lemma find_fs_ok h p : cstr_ok h -> cstr_ok p -> lpp_str_find_fs (Some h) (Some p) = Ok (lpp_str_find (Some h) (Some p)).
Proof.
  intros Hh Hp. unfold lpp_str_find_fs, lpp_str_find. rewrite !strlen_ok by done. cbn [obind]. destruct (Z.eqb_spec (slen p) 0) as [Hz|Hz].
  { destruct p; [|unfold slen in Hz; cbn in Hz; lia]. by rewrite strstr_here. }
  rewrite Z.gtb_ltb. unfold slen in *. destruct (Z.ltb_spec (Z.of_nat (length h)) (Z.of_nat (length p))) as [Hlt|Hge].
  { by rewrite strstr_short by lia. }
  fold (slen p). rewrite (find_loop_spec _ h p 0) by (unfold slen; lia). rewrite drop_0. done.
Qed.

Lemma prefix_loop_spec k : forall s p (i : nat), cstr_ok s -> cstr_ok p -> (i + k = length p)%nat -> (i <= length s)%nat ->
  prefix_loop k s p (Z.of_nat i) = Ok (b2z (starts (drop i p) (drop i s))).
Proof.
  induction k as [|k IH]; intros s p i Hs Hp Hk Hi; cbn [prefix_loop].
  - by rewrite (drop_ge p) by lia.
  - destruct (drop i p) as [|y q] eqn:Ep; [apply (f_equal length) in Ep; rewrite length_drop in Ep; cbn in Ep; lia|].
    rewrite (chr_at_drop p _ _ _ Ep). assert (1 <= y < 256) by (pose proof (Forall_drop _ i _ Hp) as Hd; rewrite Ep in Hd; by inversion Hd).
    destruct (drop i s) as [|x r] eqn:Es.
    + rewrite chr_at_nil by done. cbn [obind starts]. by rewrite (proj2 (Z.eqb_neq 0 y)) by lia.
    + rewrite (chr_at_drop s _ _ _ Es). cbn [obind starts]. assert (1 <= x < 256) by (pose proof (Forall_drop _ i _ Hs) as Hd; rewrite Es in Hd; by inversion Hd).
      rewrite (proj2 (Z.eqb_neq x 0)), orb_false_r, (Z.eqb_sym y x) by lia. destruct (x =? y); cbn [negb andb]; [|done].
      replace (Z.of_nat i + 1) with (Z.of_nat (S i)) by lia. rewrite IH; try done; [|lia|].
      * by rewrite (drop_step _ _ _ _ Es), (drop_step _ _ _ _ Ep).
      * apply (f_equal length) in Es. rewrite length_drop in Es. cbn in Es. lia.
Qed.

Lemma starts_with_fs_ok s p : cstr_ok s -> cstr_ok p -> lpp_str_starts_with_fs (Some s) (Some p) = Ok (lpp_str_starts_with (Some s) (Some p)).
Proof.
  intros Hs Hp. unfold lpp_str_starts_with_fs, lpp_str_starts_with. rewrite strlen_ok by done. cbn [obind].
  unfold slen. rewrite Nat2Z.id. by rewrite (prefix_loop_spec _ s p 0) by (done || lia).
Qed.

Lemma suffix_loop_spec k : forall s x (base i : nat), (i + k = length x)%nat -> (base + length x <= length s)%nat ->
  suffix_loop k s x (Z.of_nat base) (Z.of_nat i) = Ok (b2z (starts (drop i x) (drop (base + i) s))).
Proof.
  induction k as [|k IH]; intros s x base i Hk Hb; cbn [suffix_loop].
  - by rewrite (drop_ge x) by lia.
  - replace (Z.of_nat base + Z.of_nat i) with (Z.of_nat (base + i)) by lia.
    destruct (drop (base + i) s) as [|a r] eqn:Es; [apply (f_equal length) in Es; rewrite length_drop in Es; cbn in Es; lia|].
    destruct (drop i x) as [|b q] eqn:Ex; [apply (f_equal length) in Ex; rewrite length_drop in Ex; cbn in Ex; lia|].
    rewrite (chr_at_drop _ _ _ _ Es), (chr_at_drop _ _ _ _ Ex). cbn [obind starts]. rewrite (Z.eqb_sym b a).
    destruct (a =? b); cbn [negb andb]; [|done]. replace (Z.of_nat i + 1) with (Z.of_nat (S i)) by lia. rewrite IH by lia.
    by rewrite Nat.add_succ_r, (drop_step _ _ _ _ Es), (drop_step _ _ _ _ Ex).
Qed.

Lemma strcmp_starts x : forall s, cstr_ok x -> cstr_ok s -> length s = length x -> (strcmp s x =? 0) = starts x s.
Proof.
  induction x as [|b x IH]; intros [|a s] Hx Hs Hl; try done. cbn [strcmp starts]. inversion Hx; inversion Hs; subst.
  rewrite (Z.eqb_sym b a). destruct (Z.eqb_spec a b) as [->|Hne]; cbn [andb].
  - apply IH; [done|done|]. by injection Hl.
  - rewrite (proj2 (Z.eqb_neq _ _)); [done|]. try done; try lia.
Qed.

Lemma ends_with_fs_ok s x : cstr_ok s -> cstr_ok x -> lpp_str_ends_with_fs (Some s) (Some x) = Ok (lpp_str_ends_with (Some s) (Some x)).
Proof.
  intros Hs Hx. unfold lpp_str_ends_with_fs, lpp_str_ends_with. rewrite !strlen_ok by done. cbn [obind]. rewrite Z.gtb_ltb.
  unfold slen. destruct (Z.ltb_spec (Z.of_nat (length s)) (Z.of_nat (length x))) as [|Hle]; [done|]. rewrite Nat2Z.id.
  replace (Z.of_nat (length s) - Z.of_nat (length x)) with (Z.of_nat (length s - length x)) by lia.
  pose proof (suffix_loop_spec (length x) s x (length s - length x) 0 ltac:(lia) ltac:(lia)) as H. change (Z.of_nat 0) with 0 in H. rewrite H.
  rewrite Nat.add_0_r, drop_0, strcmp_starts; [done|done|by apply Forall_drop|rewrite length_drop; lia].
Qed.

(** ** Case and white space *)

Lemma map_loop_spec f s (k : nat) : forall (i r : nat) w, (i + k = length s)%nat -> length w = i ->
  map_loop f k (Z.of_nat i) (w ++ replicate (k + r) 0) s = Ok ((w ++ (f <$> drop i s)) ++ replicate r 0).
Proof.
  induction k as [|k IH]; intros i r w Hk Hw; cbn [map_loop].
  - rewrite drop_ge by lia. by rewrite app_nil_r.
  - destruct (lookup_lt_is_Some_2 s i) as [c Hc]; [lia|]. rewrite (rd_ok _ _ c) by (rewrite ?Nat2Z.id; lia || done). cbn [obind].
    rewrite wr_ok by (rewrite length_app, length_replicate; lia). cbn [obind]. rewrite Nat2Z.id, insert_app_r_alt by lia.
    replace (i - length w)%nat with 0%nat by lia. cbn [Nat.add replicate insert list_insert].
    replace (w ++ f c :: replicate (k + r) 0) with ((w ++ [f c]) ++ replicate (k + r) 0) by (by rewrite <- (assoc_L (++))).
    replace (Z.of_nat i + 1) with (Z.of_nat (S i)) by lia. rewrite (IH (S i) r (w ++ [f c])); [|lia|rewrite length_app; cbn; lia].
    rewrite (drop_S s c i) by done. cbn [fmap list_fmap]. by rewrite <- !(assoc_L (++)).
Qed.

Lemma case_fs_ok f al s : (forall m, al 0%nat m = true) -> cstr_ok s -> (forall c, 1 <= c < 256 -> 1 <= f c < 256) ->
  case_copy_fs f al (Some s) = Ok (SOwned (f <$> s)).
Proof.
  intros Hal Hs Hf. unfold case_copy_fs. rewrite strlen_ok by done. cbn [obind]. apply unchecked_ok; [done| |].
  { unfold cstr_ok. apply Forall_fmap. eapply Forall_weaken; [exact Hs|]. exact Hf. }
  exists 1%nat. unfold slen. rewrite Nat2Z.id. replace (Z.to_nat _) with (length s + 1)%nat by lia.
  pose proof (map_loop_spec f s (length s) 0 1 [] eq_refl eq_refl) as H. cbn [app] in H. change (Z.of_nat 0) with 0 in H. rewrite H.
  cbn [obind]. rewrite drop_0. apply wr_nul. by rewrite length_fmap.
Qed.

Lemma trim_start_spec f : forall s (i : nat), (length s - i < f)%nat -> (i <= length s)%nat ->
  trim_start f s (slen s) (Z.of_nat i) = Ok (slen s - slen (skip_ws (drop i s))).
Proof.
  induction f as [|f IH]; intros s i Hf Hi; [lia|]. cbn [trim_start]. unfold slen at 1. destruct (drop i s) as [|c r] eqn:E.
  - apply (f_equal length) in E. rewrite length_drop in E. cbn in E. rewrite (proj2 (Z.ltb_ge _ _)) by lia.
    f_equal. unfold slen. cbn. lia.
  - pose proof E as El. apply (f_equal length) in El. rewrite length_drop in El. cbn in El.
    rewrite (proj2 (Z.ltb_lt _ _)) by lia. rewrite (chr_at_drop _ _ _ _ E). cbn [obind skip_ws]. destruct (ws c).
    + replace (Z.of_nat i + 1) with (Z.of_nat (S i)) by lia. rewrite IH by lia. by rewrite (drop_step _ _ _ _ E).
    + f_equal. unfold slen. cbn [length]. lia.
Qed.

Lemma rstrip_snoc s c : rstrip (s ++ [c]) = if ws c then rstrip s else s ++ [c].
Proof.
  unfold rstrip. rewrite reverse_snoc. cbn [skip_ws]. destruct (ws c); [done|]. by rewrite reverse_cons, reverse_involutive.
Qed.

Lemma trim_end_spec f : forall s (st e : nat), (e - st < f)%nat -> (st <= e <= length s)%nat ->
  trim_end f s (Z.of_nat st) (Z.of_nat e) = Ok (Z.of_nat st + slen (rstrip (take (e - st) (drop st s)))).
Proof.
  induction f as [|f IH]; intros s st e Hf He; [lia|]. cbn [trim_end]. rewrite Z.gtb_ltb.
  destruct (Z.ltb_spec (Z.of_nat st) (Z.of_nat e)) as [Hlt|Hge].
  - replace (Z.of_nat e - 1) with (Z.of_nat (e - 1)) by lia.
    destruct (lookup_lt_is_Some_2 s (e - 1)) as [c Hc]; [lia|]. rewrite (chr_at_lookup s _ c) by (rewrite ?Nat2Z.id; lia || done). cbn [obind].
    assert (take (e - st) (drop st s) = take (e - 1 - st) (drop st s) ++ [c]) as Ht.
    { replace (e - st)%nat with (S (e - 1 - st)) by lia. apply take_S_r. rewrite lookup_drop. by replace (st + (e - 1 - st))%nat with (e - 1)%nat by lia. }
    rewrite Ht, rstrip_snoc. destruct (ws c); [apply IH; lia|]. f_equal. unfold slen. rewrite length_app, length_take, length_drop. cbn. lia.
  - replace (e - st)%nat with 0%nat by lia. rewrite take_0. f_equal. unfold slen. cbn. lia.
Qed.

Lemma skip_ws_suffix s : drop (length s - length (skip_ws s)) s = skip_ws s /\ (length (skip_ws s) <= length s)%nat.
Proof.
  destruct (skip_ws_spec s) as (p & Hp & _). remember (skip_ws s) as t eqn:E. clear E. subst s. rewrite length_app. split; [|lia].
  replace (length p + length t - length t)%nat with (length p) by lia. by rewrite drop_app_length.
Qed.
Lemma rstrip_prefix s : take (length (rstrip s)) s = rstrip s /\ (length (rstrip s) <= length s)%nat.
Proof.
  destruct (rstrip_spec s) as (q & Hq & _). remember (rstrip s) as t eqn:E. clear E. subst s. rewrite length_app. split; [|lia]. by rewrite take_app_length.
Qed.

Lemma trim_fs_ok al s : (forall m, al 0%nat m = true) -> cstr_ok s -> lpp_str_trim_fs al (Some s) = Ok (SOwned (rstrip (skip_ws s))).
Proof.
  intros Hal Hs. unfold lpp_str_trim_fs. rewrite strlen_ok by done. cbn [obind].
  rewrite (trim_start_spec _ s 0) by lia. rewrite drop_0. cbn [obind]. destruct (skip_ws_suffix s) as [Hd Hl].
  set (st := (length s - length (skip_ws s))%nat) in *.
  replace (slen s - slen (skip_ws s)) with (Z.of_nat st) by (unfold slen; lia).
  rewrite (trim_end_spec _ s st (length s)) by lia. rewrite Hd, take_ge by lia. cbn [obind].
  destruct (rstrip_prefix (skip_ws s)) as [Ht Hlt]. rewrite (part_ok al s st (length (rstrip (skip_ws s)))); [by rewrite Hd, Ht|done|done|lia|unfold slen; lia].
Qed.

(** ** Replacement *)

Lemma pieces_skip f c r old : starts old (c :: r) = false ->
  exists p ps, pieces f r old = p :: ps /\ pieces f (c :: r) old = (c :: p) :: ps.
Proof.
  intros H. destruct f as [|f]; cbn [pieces]; [by eexists _, _|]. rewrite strstr_skip by done.
  destruct (strstr r old) as [k|]; cbn [fmap option_fmap option_map]; by eexists _, _.
Qed.
Lemma pieces_here f s old : starts old s = true -> pieces (S f) s old = [] :: pieces f (drop (length old) s) old.
Proof. intros H. cbn [pieces]. by rewrite strstr_here. Qed.

Lemma join_skip new_ c p ps : join new_ ((c :: p) :: ps) = c :: join new_ (p :: ps).
Proof. by destruct ps. Qed.

Section replace.
Context (s old : cstr) (Hold : old <> []).

Lemma old_pos : (0 < length old)%nat.
Proof. destruct old; [done|]. cbn. lia. Qed.

(** Whether [old] occurs at [i], as the loops test it. *)
Lemma test_at (i : nat) : (i < length s)%nat ->
  exists j, (if Z.of_nat i <=? slen s - slen old then match_loop (Z.to_nat (slen old)) s old (Z.of_nat i) 0 else Ok 0) = Ok j /\
    (j =? slen old) = starts old (drop i s).
Proof.
  intros Hi. pose proof old_pos. destruct (Z.leb_spec (Z.of_nat i) (slen s - slen old)) as [Hle|Hgt]; unfold slen in *.
  - apply match_at. lia.
  - exists 0. split; [done|]. rewrite (proj2 (Z.eqb_neq _ _)) by lia. symmetry. apply starts_short. rewrite length_drop. lia.
Qed.

Lemma count_loop_spec f : forall F (i : nat) count, (length s - i < f)%nat -> (length s - i < F)%nat -> (i <= length s)%nat ->
  count_loop f s old (slen s) (slen old) (Z.of_nat i) count = Ok (count + (Z.of_nat (length (pieces F (drop i s) old)) - 1)).
Proof.
  pose proof old_pos as Ho. induction f as [|f IH]; intros F i count Hf HF Hi; [lia|]. destruct F as [|F]; [lia|]. cbn [count_loop].
  destruct (Z.leb_spec (Z.of_nat i) (slen s - slen old)) as [Hle|Hgt]; unfold slen in Hle || unfold slen in Hgt.
  - destruct (match_at s old i) as (j & -> & Hj); [lia|]. cbn [obind]. rewrite Hj. destruct (starts old (drop i s)) eqn:E.
    + replace (Z.of_nat i + (slen old - 1) + 1) with (Z.of_nat (i + length old)) by (unfold slen; lia).
      rewrite (IH F) by lia. rewrite pieces_here by done. rewrite drop_drop. cbn [length]. f_equal. lia.
    + destruct (drop i s) as [|c r] eqn:Ed; [apply (f_equal length) in Ed; rewrite length_drop in Ed; cbn in Ed; lia|].
      replace (Z.of_nat i + 1) with (Z.of_nat (S i)) by lia. rewrite (IH (S F)) by lia. rewrite (drop_step _ _ _ _ Ed).
      destruct (pieces_skip (S F) c r old E) as (p & ps & -> & ->). done.
  - cbn [pieces]. rewrite strstr_short by (rewrite length_drop; lia). cbn. f_equal. lia.
Qed.

Lemma replace_fs_loop_spec new_ f : forall F (i r : nat) w, (length s - i < f)%nat -> (length s - i < F)%nat -> (i <= length s)%nat ->
  let t := join new_ (pieces F (drop i s) old) in
  replace_loop_fs f (w ++ replicate (length t + r) 0) (slen w) s old new_ (slen s) (slen old) (slen new_) (Z.of_nat i)
  = Ok ((w ++ t) ++ replicate r 0).
Proof.
  pose proof old_pos as Ho. induction f as [|f IH]; intros F i r w Hf HF Hi; [lia|]. destruct F as [|F]; [lia|]. cbn zeta. cbn [replace_loop_fs].
  destruct (Z.ltb_spec (Z.of_nat i) (slen s)) as [Hlt|Hge]; unfold slen in Hlt || unfold slen in Hge.
  - destruct (test_at i) as (j & -> & Hj); [lia|]. cbn [obind]. rewrite Hj. destruct (starts old (drop i s)) eqn:E.
    + rewrite pieces_here by done. rewrite join_cons by apply pieces_nonempty. cbn [app]. rewrite length_app, <- Nat.add_assoc.
      rewrite copy_n_whole by done. cbn [obind]. rewrite drop_drop.
      replace (slen w + slen new_) with (slen (w ++ new_)) by apply slen_app.
      replace (Z.of_nat i + slen old) with (Z.of_nat (i + length old)) by (unfold slen; lia).
      assert (i + length old <= length s)%nat as Hfit.
      { apply starts_spec in E as [q Hq]. apply (f_equal length) in Hq. rewrite length_drop, length_app in Hq. lia. }
      rewrite (IH F (i + length old)%nat) by lia. by rewrite <- !(assoc_L (++)).
    + destruct (drop i s) as [|c q] eqn:Ed; [apply (f_equal length) in Ed; rewrite length_drop in Ed; cbn in Ed; lia|].
      rewrite (chr_at_drop _ _ _ _ Ed). cbn [obind].
      destruct (pieces_skip (S F) c q old E) as (p & ps & Hp & ->). rewrite join_skip. cbn [length Nat.add replicate].
      rewrite wr_ok by (rewrite length_app; cbn; unfold slen; lia). cbn [obind]. unfold slen at 1. rewrite Nat2Z.id, insert_app_r_alt, Nat.sub_diag by lia.
      cbn [insert list_insert]. rewrite <- Hp.
      replace (w ++ c :: replicate (length (join new_ (pieces (S F) q old)) + r) 0) with ((w ++ [c]) ++ replicate (length (join new_ (pieces (S F) q old)) + r) 0)
        by (by rewrite <- (assoc_L (++))).
      replace (slen w + 1) with (slen (w ++ [c])) by (by rewrite slen_app). replace (Z.of_nat i + 1) with (Z.of_nat (S i)) by lia.
      pose proof (drop_step _ _ _ _ Ed) as Eq. rewrite <- Eq. rewrite (IH (S F) (S i)) by lia. by rewrite <- !(assoc_L (++)).
  - rewrite drop_ge by lia. cbn [pieces]. rewrite strstr_short by (cbn; lia). cbn. by rewrite app_nil_r.
Qed.

Lemma replace_fs_outcome al new_ : (forall m, al 0%nat m = true) -> cstr_ok s -> cstr_ok old -> cstr_ok new_ -> slen s < INT64_MAX ->
  let ps := pieces (S (length s)) s old in
  let t := join new_ ps in
  lpp_str_replace_fs al (Some s) (Some old) (Some new_) =
    if (Z.of_nat (length ps) - 1) * (slen new_ - slen old) >? INT64_MAX then Undef
    else if slen t >? INT64_MAX then exit_101
    else if slen t =? INT64_MAX then Undef else Ok (SOwned t).
Proof.
  intros Hal Hs Ho Hn Hsl ps t. pose proof old_pos as Hop. unfold lpp_str_replace_fs. rewrite !strlen_ok by done. cbn [obind].
  rewrite (proj2 (Z.eqb_neq (slen old) 0)) by (unfold slen; lia).
  rewrite (count_loop_spec _ (S (length s)) 0) by lia. rewrite drop_0. cbn [obind]. fold ps.
  pose proof (replaced_length (S (length s)) s old new_) as Hlen. fold ps t in Hlen. set (N := Z.of_nat (length ps) - 1) in *.
  replace (0 + N) with N by lia. pose proof (slen_nonneg t) as Ht0. pose proof (slen_nonneg s) as Hs0. set (d := slen new_ - slen old) in *.
  assert (0 <= N) as HN by (pose proof (pieces_nonempty (S (length s)) s old) as Hne; fold ps in Hne; unfold N; destruct ps; [done|cbn; lia]).
  rewrite (Z.gtb_ltb (N * d)). destruct (Z.ltb_spec INT64_MAX (N * d)) as [Hbig|Hprod].
  { assert (0 < N /\ 0 < d) as [? ?] by (apply pos_product; [done|unfold INT64_MAX in Hbig; lia]).
    rewrite !Z.gtb_ltb, !(proj2 (Z.ltb_lt _ _)) by done. cbn [andb]. rewrite chk64_bad by (pow2; lia). done. }
  rewrite !(chk64_ok (N * d)) by (pow2; lia).
  assert ((if (N >? 0) && (d >? 0) then Ok (N * d) else Ok 0) = Ok (if (N >? 0) && (d >? 0) then N * d else 0)) as -> by (by destruct (_ && _)). cbn [obind].
  assert ((N >? 0) && (d >? 0) && (slen s >? INT64_MAX - (if (N >? 0) && (d >? 0) then N * d else 0)) = (slen t >? INT64_MAX)) as ->.
  { rewrite Hlen, !Z.gtb_ltb. destruct (Z.ltb_spec INT64_MAX (slen s + N * d)) as [Hb|Hsm].
    - assert (0 < N /\ 0 < d) as [? ?] by (apply pos_product; [done|lia]). rewrite !(proj2 (Z.ltb_lt 0 _)) by done. cbn [andb]. apply Z.ltb_lt. lia.
    - destruct ((0 <? N) && (0 <? d)); [apply Z.ltb_ge; lia|done]. }
  destruct (slen t >? INT64_MAX) eqn:Et; [done|]. rewrite Z.gtb_ltb in Et. apply Z.ltb_ge in Et.
  rewrite <- Hlen, !(chk64_ok (slen t)) by (pow2; lia). cbn [obind]. rewrite (proj2 (Z.ltb_ge (slen t) 0)) by lia.
  destruct (Z.eqb_spec (slen t) INT64_MAX) as [E|E]; [rewrite E; done|]. rewrite chk64_ok by (pow2; lia). cbn [obind].
  apply unchecked_ok; [done|by apply join_ok, pieces_ok|]. exists 1%nat.
  replace (Z.to_nat (slen t + 1)) with (length t + 1)%nat by (unfold slen; lia).
  pose proof (replace_fs_loop_spec new_ (S (length s)) (S (length s)) 0 1 [] ltac:(lia) ltac:(lia) ltac:(lia)) as H. cbn zeta in H.
  rewrite drop_0 in H. cbn [app] in H. change (slen []) with 0 in H. change (Z.of_nat 0) with 0 in H. fold ps t in H. rewrite H.
  cbn [obind]. by apply wr_nul.
Qed.
End replace.

(** ** Numbers *)

Lemma digit_loop_spec F : forall fuel buf (i : nat) val, (F <= fuel)%nat -> (0 < F)%nat -> (F <= i <= length buf)%nat -> 0 <= val < 10 ^ Z.of_nat F ->
  exists buf' j, digit_loop fuel buf (Z.of_nat i) val = Ok (buf', Z.of_nat j) /\ length buf' = length buf /\
    (j + length (digits 10 F val) = i)%nat /\ drop j buf' = digits 10 F val ++ drop i buf.
Proof.
  induction F as [|F IH]; intros fuel buf i val Hf H0 Hi Hv; [lia|]. destruct fuel as [|fuel]; [lia|]. cbn [digit_loop digits].
  replace (Z.of_nat i - 1) with (Z.of_nat (i - 1)) by lia. rewrite wr_ok by lia. cbn [obind]. rewrite Nat2Z.id.
  rewrite Z.rem_mod_nonneg, Z.quot_div_nonneg by lia. set (buf1 := <[(i - 1)%nat := _]> buf).
  assert (length buf1 = length buf) as Hl1 by apply length_insert.
  assert (drop (i - 1) buf1 = (48 + val mod 10) :: drop i buf) as Hd.
  { rewrite (drop_S buf1 (48 + val mod 10) (i - 1)) by (apply list_lookup_insert_eq; lia). f_equal.
    replace (S (i - 1)) with i by lia. unfold buf1. by rewrite drop_insert_lt by lia. }
  assert (digit_char (val mod 10) = 48 + val mod 10) as Hdc.
  { unfold digit_char. rewrite (proj2 (Z.ltb_lt _ _)) by dlia. done. }
  destruct (Z.ltb_spec val 10) as [Hlt|Hge].
  - rewrite Z.div_small by lia. cbn [Z.eqb negb]. exists buf1, (i - 1)%nat. split_and!; [done|done|cbn; lia|].
    rewrite Hd. rewrite Z.mod_small in * by lia. by rewrite Hdc.
  - rewrite (proj2 (Z.eqb_neq (val / 10) 0)) by dlia. cbn [negb].
    assert (0 < F)%nat as HF by (destruct F; [cbn in Hv; lia|lia]).
    rewrite Nat2Z.inj_succ, Z.pow_succ_r in Hv by lia.
    destruct (IH fuel buf1 (i - 1)%nat (val / 10)) as (buf' & j & -> & Hl & Hj & Hdj); [lia|lia|lia|dlia|].
    exists buf', j. split_and!; [done|lia|rewrite length_app; cbn; lia|]. by rewrite Hdj, Hd, Hdc, <- (assoc_L (++)).
Qed.

Lemma int_to_str_fs_ok al v : (forall m, al 0%nat m = true) -> INT64_MIN < v <= INT64_MAX -> lpp_int_to_str_fs al v = Ok (SOwned (fmt_lld v)).
Proof.
  intros Hal Hv. unfold lpp_int_to_str_fs, fmt_lld.
  assert ((if v <? 0 then chk64 (- v) else Ok v) = Ok (Z.abs v)) as ->.
  { destruct (Z.ltb_spec v 0); [rewrite chk64_ok by (pow2; lia); f_equal; lia|f_equal; lia]. }
  cbn [obind]. change (wr (replicate 24 0) 23 0) with (Ok (replicate 24 0)). cbn [obind].
  destruct (digit_loop_spec 20 24 (replicate 24 0) 23 (Z.abs v)) as (buf & j & Hb & Hl & Hj & Hd); [lia|lia|cbn; lia|pow2; change (10 ^ Z.of_nat 20) with 100000000000000000000; lia|].
  change (Z.of_nat 23) with 23 in Hb. rewrite Hb. cbn [obind]. change (drop 23 (replicate 24 0)) with [0] in Hd.
  set (D := digits 10 20 (Z.abs v)) in *. change (length (replicate 24 0)) with 24%nat in Hl.
  assert (length D <= 20)%nat as HD by apply digits_length.
  assert (forall buf (j : nat) text, length buf = 24%nat -> (j + length text = 23)%nat -> drop j buf = text ++ [0] -> cstr_ok text ->
    unchecked (fresh_str al 0 (23 - Z.of_nat j + 1) (fun out => copy_n out 0 buf (Z.of_nat j) (23 - Z.of_nat j + 1))) = Ok (SOwned text)) as Hcopy.
  { clear -Hal. intros buf j text Hl Hj Hd Hok. apply unchecked_ok; [done|done|]. exists 1%nat.
    replace (Z.to_nat (23 - Z.of_nat j + 1)) with (length text + 1 + 0)%nat by lia.
    pose proof (copy_n_append buf j (length text + 1) 0 [] 0 (23 - Z.of_nat j + 1)) as H. cbn [app] in H. rewrite H by (done || lia).
    rewrite Hd, take_ge by (rewrite length_app; done). by rewrite app_nil_r. }
  assert (cstr_ok D) as HDok by (apply digits_ok; lia).
  destruct (Z.ltb_spec v 0) as [Hneg|Hpos].
  - replace (Z.of_nat j - 1) with (Z.of_nat (j - 1)) by lia. rewrite wr_ok by lia. cbn [obind]. rewrite Nat2Z.id.
    replace (- v) with (Z.abs v) by lia. apply Hcopy.
    + by rewrite length_insert.
    + cbn [length]. fold D. lia.
    + rewrite (drop_S _ 45 (j - 1)) by (apply list_lookup_insert_eq; lia). replace (S (j - 1)) with j by lia.
      rewrite drop_insert_lt by lia. by rewrite Hd.
    + constructor; [lia|done].
  - cbn [obind]. replace (digits 10 20 v) with D by (unfold D; f_equal; lia). by apply Hcopy.
Qed.

Lemma dec_value_grows s : forall acc, 0 <= acc -> acc <= dec_value s acc.
Proof.
  induction s as [|c s IH]; intros acc Ha; cbn [dec_value]; [lia|]. destruct (is_digit c) eqn:E; [|lia]. unfold is_digit in E. bool_to_prop.
  specialize (IH (acc * 10 + (c - 48))). lia.
Qed.

Lemma decimal_loop_spec f : forall s (i : nat) val, (length s - i < f)%nat -> (i <= length s)%nat -> 0 <= val -> dec_value (drop i s) val <= INT64_MAX ->
  decimal_loop f s (Z.of_nat i) val = Ok (dec_value (drop i s) val).
Proof.
  induction f as [|f IH]; intros s i val Hf Hi Hv Hmax; [lia|]. cbn [decimal_loop]. destruct (drop i s) as [|c r] eqn:E.
  - rewrite chr_at_nil by done. done.
  - rewrite (chr_at_drop _ _ _ _ E). cbn [obind dec_value] in *. rewrite Z.geb_leb. change ((48 <=? c) && (c <=? 57)) with (is_digit c).
    destruct (is_digit c) eqn:Ec; [|done]. unfold is_digit in Ec. bool_to_prop. pose proof (dec_value_grows r (val * 10 + (c - 48)) ltac:(lia)).
    rewrite chk64_ok by (pow2; lia). cbn [obind]. rewrite chk64_ok by (pow2; lia). cbn [obind].
    replace (Z.of_nat i + 1) with (Z.of_nat (S i)) by lia. apply (f_equal length) in E as El. rewrite length_drop in El. cbn in El.
    rewrite IH; rewrite ?(drop_step _ _ _ _ E); done || lia.
Qed.

Lemma to_int_head c r : c <> 32 -> c <> 9 -> lpp_str_to_int_fs (Some (c :: r)) =
  (let! val := decimal_loop (S (length (c :: r))) (c :: r) (if (c =? 45) || (c =? 43) then 1 else 0) 0 in if c =? 45 then chk64 (- val) else Ok val).
Proof.
  intros H1 H2. unfold lpp_str_to_int_fs. cbn [blanks_loop]. change (chr_at (c :: r) 0) with (Ok c). cbn [obind].
  rewrite (proj2 (Z.eqb_neq c 32)), (proj2 (Z.eqb_neq c 9)) by done. cbn [orb obind]. change (chr_at (c :: r) 0) with (Ok c). done.
Qed.

Lemma to_int_fs_printed v : INT64_MIN < v <= INT64_MAX -> lpp_str_to_int_fs (Some (fmt_lld v)) = Ok v.
Proof.
  intros Hv. unfold fmt_lld. destruct (Z.ltb_spec v 0) as [Hneg|Hpos].
  - rewrite to_int_head by done. pose proof (digits_value (- v) ltac:(pow2; lia)) as Hval.
    change ((45 =? 45) || (45 =? 43)) with true. change (45 =? 45) with true. cbn iota.
    pose proof (decimal_loop_spec (S (length (45 :: digits 10 20 (- v)))) (45 :: digits 10 20 (- v)) 1 0) as H.
    change (drop 1 (45 :: digits 10 20 (- v))) with (digits 10 20 (- v)) in H. rewrite Hval in H. change (Z.of_nat 1) with 1 in H.
    rewrite H by (cbn [length]; pow2; lia). cbn [obind]. rewrite chk64_ok by (pow2; lia). f_equal. lia.
  - destruct (digits_head v Hpos) as (c & r & Hd & Hc). pose proof (digits_value v ltac:(pow2; lia)) as Hval. rewrite Hd in *.
    rewrite to_int_head by lia. rewrite (proj2 (Z.eqb_neq c 45)), (proj2 (Z.eqb_neq c 43)) by lia. cbn [orb].
    pose proof (decimal_loop_spec (S (length (c :: r))) (c :: r) 0 0) as H. rewrite drop_0, Hval in H. change (Z.of_nat 0) with 0 in H.
    rewrite H by (cbn [length]; lia). done.
Qed.

(** ** Agreement with the hosted builtins *)

(** The text a result stands for; how a program is stopped is not compared. *)
Definition text (r : str_ret) : option cstr := match r with SOwned s => Some s | SEmpty => Some [] | SNull => None end.
Definition shown (m : outcome str_ret) : outcome (option cstr) :=
  match m with Ok r => Ok (text r) | Panic _ => Panic "" | Undef => Undef | NoFuel => NoFuel end.

(** A string in memory, or null. *)
Definition arg_ok (s : option cstr) : Prop := match s with Some s => cstr_ok s /\ slen s < 2 ^ 62 | None => True end.

Section agree.
Context (al : allocator) (Hal : forall k m, al k m = true).

Lemma concat_agrees a b : arg_ok a -> arg_ok b -> shown (lpp_str_concat_fs al a b) = shown (lpp_str_concat al a b).
Proof.
  intros Ha Hb. assert (forall s, lpp_strlen s = lpp_strlen (Some (default [] s))) as Hn by (by intros []).
  assert (lpp_str_concat_fs al a b = lpp_str_concat_fs al (Some (default [] a)) (Some (default [] b))) as ->.
  { unfold lpp_str_concat_fs. by rewrite (Hn a), (Hn b). }
  change (lpp_str_concat al a b) with (lpp_str_concat al (Some (default [] a)) (Some (default [] b))).
  assert (cstr_ok (default [] a) /\ slen (default [] a) < 2 ^ 62) as [? ?] by (destruct a; [done|split; [constructor|done]]).
  assert (cstr_ok (default [] b) /\ slen (default [] b) < 2 ^ 62) as [? ?] by (destruct b; [done|split; [constructor|done]]).
  rewrite concat_fs_ok, fill_two by (done || (change (2 ^ 62) with 4611686018427387904 in *; pow2; lia)). done.
Qed.

(** The hosted substring: a negative length means "to the end". *)
Lemma substr_host s start n : arg_ok s ->
  shown (lpp_str_substr al s start n) =
    Ok (Some (let rest := drop (Z.to_nat start) (default [] s) in if n <? 0 then rest else take (Z.to_nat n) rest)).
Proof.
  intros Hs. change (lpp_str_substr al s start n) with (lpp_str_substr al (Some (default [] s)) start n).
  assert (cstr_ok (default [] s) /\ slen (default [] s) < 2 ^ 62) as [Hc Hl] by (destruct s; [done|split; [constructor|done]]).
  destruct (str_copies_exact al (default [] s) [] start n Hal Hc) as (_ & -> & _); [constructor|change (slen []) with 0; change (2 ^ 62) with 4611686018427387904 in *; pow2; lia|].
  rewrite Z.gtb_ltb. destruct (Z.ltb_spec (slen (default [] s)) start); [|done]. cbn [shown text].
  rewrite drop_ge by (unfold slen in *; lia). rewrite take_nil. by destruct (n <? 0).
Qed.
Lemma substr_agrees s start n : arg_ok s ->
  shown (lpp_str_substr_fs al s start n) =
    if n <? 0 then Ok (Some [])
    else if (Z.max 0 start <? slen (default [] s)) && (0 <? n) && (Z.max 0 start + n >? INT64_MAX) then Undef
    else shown (lpp_str_substr al s start n).
Proof.
  intros Hs. rewrite substr_host by done. destruct s as [s|]; cbn [default].
  2: { unfold lpp_str_substr_fs, blank. rewrite Hal, drop_nil, take_nil. change (slen []) with 0. rewrite (proj2 (Z.ltb_ge (Z.max 0 start) 0)) by lia. by destruct (n <? 0). }
  destruct Hs as [Hc Hl]. unfold id. destruct (Z.ltb_spec n 0) as [Hn|Hn].
  { unfold lpp_str_substr_fs. rewrite strlen_ok by done. cbn [obind]. rewrite (proj2 (Z.leb_le n 0)), orb_true_r, empty_fs_ok by (done || lia). done. }
  rewrite Z.gtb_ltb. destruct ((Z.max 0 start <? slen s) && (0 <? n) && (INT64_MAX <? Z.max 0 start + n)) eqn:E; bool_to_prop.
  - unfold lpp_str_substr_fs. rewrite strlen_ok by done. cbn [obind].
    assert ((if start <? 0 then 0 else start) = Z.max 0 start) as -> by (destruct (Z.ltb_spec start 0); lia).
    rewrite Z.geb_leb, (proj2 (Z.leb_gt _ _)), (proj2 (Z.leb_gt n 0)) by lia. cbn [orb]. by rewrite chk64_bad by lia.
  - destruct (Z.leb_spec (Z.max 0 start + n) INT64_MAX) as [Hr|Hr].
    { rewrite substr_fs_ok by (done || (change (2 ^ 62) with 4611686018427387904 in *; pow2; lia)). done. }
    unfold lpp_str_substr_fs. rewrite strlen_ok by done. cbn [obind].
    assert ((if start <? 0 then 0 else start) = Z.max 0 start) as -> by (destruct (Z.ltb_spec start 0); lia).
    assert ((Z.max 0 start >=? slen s) || (n <=? 0) = true) as ->.
    { rewrite Z.geb_leb. destruct (Z.leb_spec (slen s) (Z.max 0 start)); [done|]. destruct (Z.leb_spec n 0); [done|]. exfalso.
      rewrite !(proj2 (Z.ltb_lt _ _)) in E by lia. done. }
    rewrite empty_fs_ok by done. cbn [shown text]. destruct (Z.leb_spec n 0) as [Hn0|Hn0].
    + by replace (Z.to_nat n) with 0%nat by lia.
    + rewrite drop_ge, take_nil; [done|]. unfold slen in *. destruct (Z.ltb_spec (Z.max 0 start) (Z.of_nat (length s))); [|lia].
      rewrite !(proj2 (Z.ltb_lt _ _)) in E by lia. done.
Qed.

Lemma repeat_agrees s n : arg_ok s -> shown (lpp_str_repeat_fs al s n) = shown (lpp_str_repeat al s n).
Proof.
  intros Hs. destruct s as [s|]; [|unfold lpp_str_repeat_fs; by rewrite empty_fs_ok]. destruct Hs as [Hc Hl].
  destruct (Z.leb_spec n 0) as [Hn|Hn].
  { unfold lpp_str_repeat_fs, lpp_str_repeat. rewrite (proj2 (Z.leb_le n 0)), empty_fs_ok by done. done. }
  destruct (Z.eqb_spec (slen s) 0) as [Hz|Hz].
  { unfold lpp_str_repeat_fs, lpp_str_repeat. rewrite (proj2 (Z.leb_gt n 0)) by done. rewrite strlen_ok by done. cbn [obind].
    rewrite (proj2 (Z.eqb_eq _ 0) Hz), empty_fs_ok by done. done. }
  pose proof (slen_nonneg s) as Hs0. assert (s <> []) as Hne by (intros ->; done).
  destruct (Z.ltb_spec (slen s * n) INT64_MAX) as [Hfit|Hbig].
  { rewrite repeat_fs_ok, repeat_ok by (done || (rewrite ?Z.max_r by lia; done)). done. }
  unfold lpp_str_repeat_fs, lpp_str_repeat. rewrite (proj2 (Z.leb_gt n 0)) by done. rewrite strlen_ok by done. cbn [obind].
  rewrite (proj2 (Z.eqb_neq _ 0) Hz). rewrite !Z.gtb_ltb, (proj2 (Z.ltb_lt 0 n)) by done. cbn [andb].
  destruct (Z.ltb_spec (INT64_MAX / n) (slen s)) as [|Hdiv]; [done|].
  assert (slen s * n = INT64_MAX) as Emax.
  { pose proof (Z.mul_div_le INT64_MAX n Hn). nia. }
  rewrite Emax. change (chk64 INT64_MAX) with (Ok INT64_MAX). cbn [obind]. change (chk64 (INT64_MAX + 1)) with (@Undef Z). cbn [obind shown].
  change (u64 INT64_MAX) with INT64_MAX. change (i64 (INT64_MAX + 1)) with INT64_MIN. unfold or_empty, fresh_str. rewrite Hal.
  change (Z.to_nat INT64_MIN) with 0%nat. cbn [replicate]. destruct (Z.to_nat n) as [|k] eqn:Ek; [lia|]. cbn [repeat_loop].
  change (0 * slen s) with 0. rewrite memcpy_nowhere; [done|]. change (2 ^ 62) with 4611686018427387904 in *. pow2. lia.
Qed.

Lemma trim_agrees s : arg_ok s -> shown (lpp_str_trim_fs al s) = shown (lpp_str_trim al s).
Proof.
  intros Hs. destruct s as [s|]; [|unfold lpp_str_trim_fs, blank; by rewrite Hal]. destruct Hs as [Hc Hl]. rewrite trim_fs_ok by done.
  destruct (trimmed_ok s _ (trim_spec s) Hc) as [Hok Hle]. unfold lpp_str_trim, or_empty.
  rewrite (fresh_str_ok al 0 _ _ _ 1 (Hal _ _) Hok); [done|]. apply copy_terminate. change (2 ^ 62) with 4611686018427387904 in *. pow2. lia.
Qed.

Lemma case_agrees f s : (forall c, 1 <= c < 256 -> 1 <= f c < 256) -> arg_ok (Some s) ->
  shown (case_copy_fs f al (Some s)) = shown (case_copy f al (Some s)).
Proof.
  intros Hf [Hc Hl]. rewrite case_fs_ok by done. unfold case_copy.
  rewrite (unchecked_ok al (slen s + 1) _ (f <$> s)); [done|done| |].
  { unfold cstr_ok. apply Forall_fmap. eapply Forall_weaken; [exact Hc|]. exact Hf. }
  exists 1%nat. unfold slen. replace (Z.to_nat _) with (length s + 1)%nat by lia.
  pose proof (map_loop_spec f s (length s) 0 1 [] eq_refl eq_refl) as H. cbn [app] in H. change (Z.of_nat 0) with 0 in H. rewrite H.
  cbn [obind]. rewrite drop_0. apply wr_nul. by rewrite length_fmap.
Qed.

Lemma replace_agrees s old new_ : arg_ok (Some s) -> arg_ok (Some old) -> arg_ok (Some new_) ->
  shown (lpp_str_replace_fs al (Some s) (Some old) (Some new_)) = shown (lpp_str_replace al (Some s) (Some old) (Some new_)).
Proof.
  intros [Hs Hsl] [Ho Hol] [Hn Hnl]. change (2 ^ 62) with 4611686018427387904 in *. destruct old as [|o old'].
  { unfold lpp_str_replace_fs, lpp_str_replace, or_empty. rewrite !strlen_ok by done. cbn [obind default]. unfold id. change (slen [] =? 0) with true. cbn iota.
    rewrite (unchecked_ok al _ _ s), (fresh_str_ok al 0 _ _ s 1 (Hal _ _) Hs); try done.
    - apply copy_with_nul. pow2. lia.
    - exists 1%nat. replace (Z.to_nat (slen s + 1)) with (length s + 1)%nat by (unfold slen; lia). apply copy_with_terminator. }
  rewrite replace_fs_outcome, replace_outcome by (done || (pow2; lia)).
  destruct (_ >? INT64_MAX); [done|]. destruct (_ >? INT64_MAX); [done|]. rewrite !Hal. by destruct (_ =? INT64_MAX).
Qed.

(** Indexing: in range the character; out of range the hosted runtime answers null. *)
Lemma char_at_agrees s idx : arg_ok (Some s) ->
  shown (lpp_char_at_fs al (Some s) idx) = if (0 <=? idx) && (idx <? slen s) then shown (lpp_char_at al (Some s) idx) else Ok (Some []).
Proof.
  intros [Hs Hl]. unfold lpp_char_at_fs, lpp_char_at, blank. rewrite strlen_ok by done. cbn [obind]. rewrite Z.geb_leb, Hal.
  destruct (Z.ltb_spec idx 0); cbn [orb]; [by rewrite (proj2 (Z.leb_gt 0 idx))|]. rewrite (proj2 (Z.leb_le 0 idx)) by done.
  destruct (Z.leb_spec (slen s) idx); [by rewrite (proj2 (Z.ltb_ge _ _))|]. rewrite (proj2 (Z.ltb_lt _ _)) by done. cbn [andb].
  destruct (lookup_lt_is_Some_2 s (Z.to_nat idx)) as [c Hc]; [unfold slen in *; lia|].
  rewrite (chr_at_lookup s idx c), (rd_ok s idx c) by done. done.
Qed.
Lemma ord_agrees s : arg_ok s -> lpp_ord_fs s = Ok (lpp_ord s).
Proof.
  destruct s as [[|c r]|]; try done. intros [Hc _]. apply Forall_cons in Hc as [Hc _]. unfold lpp_ord_fs, chr_at. cbn [app rd].
  change (rd (c :: r ++ [0]) 0) with (Ok c). cbn [obind]. by rewrite (proj2 (Z.eqb_neq c 0)) by lia.
Qed.

Lemma search_agrees s p : arg_ok s -> arg_ok p ->
  lpp_str_find_fs s p = Ok (lpp_str_find s p) /\ lpp_str_contains_fs s p = Ok (lpp_str_contains s p) /\
  lpp_str_starts_with_fs s p = Ok (lpp_str_starts_with s p) /\ lpp_str_ends_with_fs s p = Ok (lpp_str_ends_with s p).
Proof.
  intros Hs Hp. destruct s as [s|]; [destruct p as [p|]|]; [|done..]. destruct Hs as [Hs _], Hp as [Hp _]. unfold lpp_str_contains_fs. rewrite find_fs_ok by done.
  split_and!; [done| |by apply starts_with_fs_ok|by apply ends_with_fs_ok]. cbn [obind]. unfold lpp_str_find, lpp_str_contains.
  destruct (strstr s p) as [k|]; [|done]. by rewrite Z.geb_leb, (proj2 (Z.leb_le 0 _)) by lia.
Qed.
End agree.

(** C22. The freestanding string builtins, which go byte by byte through their blocks, agree with the
    hosted ones, which use the C library: on any strings (each below 2^62 bytes, null included unless said
    otherwise) and with their allocations served, the two give the same text, or both stop the program, or
    both are undefined.  This holds of concatenation, repetition, trimming, case conversion and replacement of
    strings, [chr], length, [ord], search, containment, prefix and suffix tests, and of the substring and the
    character at an index except in these cases, where they differ: of a negative length the hosted
    substring runs to the end of the string and the freestanding one is empty; where start and length add
    up beyond [INT64_MAX] the freestanding one is undefined; the character at an index out of range is the
    empty string here and null there.  Given a null string, case conversion and indexing
    answer null in the hosted runtime and the empty string here; given a null among its arguments,
    replacement answers the empty string here, where the hosted one takes it for an empty string. *)
Theorem freestanding_strings_exact (al : allocator) (s t u : option cstr) (start n : Z) :
  (forall k m, al k m = true) -> arg_ok s -> arg_ok t -> arg_ok u ->
  shown (lpp_str_concat_fs al s t) = shown (lpp_str_concat al s t) /\
  shown (lpp_str_repeat_fs al s n) = shown (lpp_str_repeat al s n) /\
  shown (lpp_str_trim_fs al s) = shown (lpp_str_trim al s) /\
  shown (lpp_chr_fs al n) = shown (lpp_chr al n) /\
  lpp_str_len_fs s = Ok (slen (default [] s)) /\ lpp_ord_fs s = Ok (lpp_ord s) /\
  lpp_str_find_fs s t = Ok (lpp_str_find s t) /\ lpp_str_contains_fs s t = Ok (lpp_str_contains s t) /\
  lpp_str_starts_with_fs s t = Ok (lpp_str_starts_with s t) /\ lpp_str_ends_with_fs s t = Ok (lpp_str_ends_with s t) /\
  (shown (lpp_str_substr_fs al s start n) =
     if n <? 0 then Ok (Some [])
     else if (Z.max 0 start <? slen (default [] s)) && (0 <? n) && (Z.max 0 start + n >? INT64_MAX) then Undef
     else shown (lpp_str_substr al s start n)) /\
  (n < 0 -> shown (lpp_str_substr al s start n) = Ok (Some (drop (Z.to_nat start) (default [] s)))) /\
  match s with
  | Some x =>
      shown (lpp_str_upper_fs al s) = shown (lpp_str_upper al s) /\ shown (lpp_str_lower_fs al s) = shown (lpp_str_lower al s) /\
      shown (lpp_char_at_fs al s start) = (if (0 <=? start) && (start <? slen x) then shown (lpp_char_at al s start) else Ok (Some []))
  | None =>
      shown (lpp_str_upper_fs al s) = Ok (Some []) /\ shown (lpp_str_upper al s) = Ok None /\
      shown (lpp_str_lower_fs al s) = Ok (Some []) /\ shown (lpp_str_lower al s) = Ok None /\
      shown (lpp_char_at_fs al s start) = Ok (Some []) /\ shown (lpp_char_at al s start) = Ok None
  end /\
  shown (lpp_str_replace_fs al s t u) =
    match s, t, u with Some _, Some _, Some _ => shown (lpp_str_replace al s t u) | _, _, _ => Ok (Some []) end /\
  lpp_str_replace al s t u = lpp_str_replace al (Some (default [] s)) (Some (default [] t)) (Some (default [] u)).
Proof.
  intros Hal Hs Ht Hu. destruct (search_agrees s t Hs Ht) as (F1 & F2 & F3 & F4). split_and!; try done.
  - by apply concat_agrees.
  - by apply repeat_agrees.
  - by apply trim_agrees.
  - destruct s as [s|]; [|done]. destruct Hs as [Hs _]. by apply strlen_ok.
  - by apply ord_agrees.
  - by apply substr_agrees.
  - intros Hn. rewrite substr_host by done. by rewrite (proj2 (Z.ltb_lt n 0)).
  - destruct s as [s|]; [|unfold lpp_str_upper_fs, lpp_str_lower_fs, case_copy_fs, lpp_char_at_fs, blank; by rewrite Hal].
    split_and!; [apply case_agrees..|by apply char_at_agrees]; try done; intros c Hc; [unfold up|unfold down]; (destruct (_ && _) eqn:E; [bool_to_prop; lia|done]).
  - unfold lpp_str_replace_fs at 1, blank at 1. destruct s as [s|], t as [t|], u as [u|]; try (unfold blank; by rewrite Hal). by apply replace_agrees.
  - by destruct s, t as [[]|], u.
Qed.

(** ["  ab.ab "] with ["ab"] and ["c"]; the tail of a string; an index out of range. *)
Lemma freestanding_strings_exact_witness :
  shown (lpp_str_replace_fs (fun _ _ => true) (Some [32; 97; 98; 46; 97; 98; 32]) (Some [97; 98]) (Some [99])) = Ok (Some [32; 99; 46; 99; 32]) /\
  lpp_str_find_fs (Some [32; 97; 98; 46; 97; 98; 32]) (Some [97; 98]) = Ok 1 /\
  shown (lpp_str_substr_fs (fun _ _ => true) (Some [97; 98; 99]) 1 (-1)) = Ok (Some []) /\
  shown (lpp_str_substr (fun _ _ => true) (Some [97; 98; 99]) 1 (-1)) = Ok (Some [98; 99]).
Proof.
  assert (arg_ok (Some [32; 97; 98; 46; 97; 98; 32]) /\ arg_ok (Some [97; 98]) /\ arg_ok (Some [99]) /\ arg_ok (Some [97; 98; 99])) as (K1 & K2 & K3 & K4)
    by (split_and!; by repeat constructor).
  destruct (freestanding_strings_exact (fun _ _ => true) (Some [32; 97; 98; 46; 97; 98; 32]) (Some [97; 98]) (Some [99]) 1 2 (fun _ _ => eq_refl) K1 K2 K3)
    as (_ & _ & _ & _ & _ & _ & H1 & _ & _ & _ & _ & _ & _ & H2 & _).
  destruct (freestanding_strings_exact (fun _ _ => true) (Some [97; 98; 99]) None None 1 (-1) (fun _ _ => eq_refl) K4 I I)
    as (_ & _ & _ & _ & _ & _ & _ & _ & _ & _ & H3 & H4 & _).
  split; [rewrite H2; vm_compute; reflexivity|]. split; [exact H1|]. split; [exact H3|exact (H4 eq_refl)].
Defined.

(** Printing an [Int] and parsing it back in the freestanding runtime gives it back, for
    every value but [INT64_MIN], whose negation overflows in [lpp_int_to_str]; a numeral beyond the
    range overflows in [lpp_str_to_int] (the hosted runtime saturates). *)
Theorem freestanding_int_roundtrip (al : allocator) (v : Z) :
  (forall m, al 0%nat m = true) -> INT64_MIN <= v <= INT64_MAX ->
  (v <> INT64_MIN -> lpp_int_to_str_fs al v = Ok (SOwned (fmt_lld v)) /\ lpp_str_to_int_fs (Some (fmt_lld v)) = Ok v) /\
  lpp_int_to_str_fs al INT64_MIN = Undef /\
  lpp_str_to_int_fs (Some (digits 10 20 (INT64_MAX + 1))) = Undef /\ lpp_str_to_int (Some (digits 10 20 (INT64_MAX + 1))) = INT64_MAX.
Proof.
  intros Hal Hv. split_and!; try done. intros Hne. split; [apply int_to_str_fs_ok; [done|lia]|apply to_int_fs_printed; lia].
Qed.

Lemma freestanding_int_roundtrip_witness :
  lpp_int_to_str_fs (fun _ _ => true) (-205) = Ok (SOwned [45; 50; 48; 53]) /\ lpp_str_to_int_fs (Some [45; 50; 48; 53]) = Ok (-205).
Proof.
  destruct (freestanding_int_roundtrip (fun _ _ => true) (-205)) as [H _]; [reflexivity|split; discriminate|].
  exact (H ltac:(discriminate)).
Defined.
