(* ===== verification/FreeEnv.v ===== *)
(** * Environment variables of the freestanding runtime (runtime/linux_x86_64_min.c)

    [lpp_env_set] keeps its settings in a linked list of overrides, newest first; a NULL value
    means "unset".  [lpp_env_get] looks there first and then scans the first 32768 bytes of
    /proc/self/environ, entries [NAME=VALUE] ended by NUL.  The kernel's side is an argument:
    [None] when the file cannot be opened, else what the successive [read] calls return.
    Lengths of names and values are counted in an [int]. *)

From S2P Require Import Prelude CInt Buf ListRt Str FreeMap FreeStr.

Record LppEnvOverride := mk_env { ename : cstr; evalue : option cstr }.

(** Strings allocated and freed by the overrides. *)
Inductive env_ev := EnvNew (s : cstr) | EnvFree (s : cstr).

(** [len = 0; while (s[len]) len++; p = lpp_alloc(len + 1); copy len + 1 bytes], [len] an [int]. *)
Definition env_copy (al : allocator) (s : cstr) : outcome cstr :=
  let! len := lpp_strlen (Some s) in
  if len <? 2 ^ 31 - 1 then
    let! r := unchecked (fresh_str al 0 (len + 1) (fun out => copy_n out 0 s 0 (len + 1))) in
    match str_val r with Some t => Ok t | None => Undef end
  else Undef.

Definition env_copy_opt (al : allocator) (v : option cstr) : outcome (option cstr * list env_ev) :=
  match v with
  | Some v => let! t := env_copy al v in Ok (Some t, [EnvNew t])
  | None => Ok (None, [])
  end.

(** The search of [lpp_env_set]: the first override of that name gets the value. *)
Fixpoint set_loop (al : allocator) (l : list LppEnvOverride) (name : cstr) (value : option cstr)
  : outcome (option (list LppEnvOverride * list env_ev)) :=
  match l with
  | [] => Ok None
  | o :: r =>
      if lpp_str_eq false (Some (ename o)) (Some name) =? 1 then
        let freed := match evalue o with Some v => [EnvFree v] | None => [] end in
        let! '(v, ev) := env_copy_opt al value in
        Ok (Some (mk_env (ename o) v :: r, freed ++ ev))
      else
        let! found := set_loop al r name value in
        Ok (match found with Some (r, ev) => Some (o :: r, ev) | None => None end)
  end.

Definition lpp_env_set_fs (al : allocator) (l : list LppEnvOverride) (name value : option cstr)
  : outcome (Z * list LppEnvOverride * list env_ev) :=
  match name with
  | None | Some [] => Ok (-1, l, [])
  | Some name =>
      let! found := set_loop al l name value in
      match found with
      | Some (l, ev) => Ok (0, l, ev)
      | None =>
          let! n := env_copy al name in
          let! '(v, ev) := env_copy_opt al value in
          Ok (0, mk_env n v :: l, EnvNew n :: ev)
      end
  end.

Fixpoint find_override (l : list LppEnvOverride) (name : cstr) : option LppEnvOverride :=
  match l with
  | [] => None
  | o :: r => if lpp_str_eq false (Some (ename o)) (Some name) =? 1 then Some o else find_override r name
  end.

(** [while (total < cap) { rd = read(...); if (rd <= 0) break; total += rd; }]: a read returns at
    most what is asked for. *)
Definition ENV_CAP : Z := 32768.
Fixpoint slurp (reads : list (list Z)) (buf : list Z) : list Z :=
  if slen buf <? ENV_CAP then
    match reads with
    | [] => buf
    | c :: r => match take (Z.to_nat (ENV_CAP - slen buf)) c with [] => buf | c => slurp r (buf ++ c) end
    end
  else buf.

Fixpoint name_loop (k : nat) (buf : list Z) (total i : Z) (name : cstr) (j : Z) : outcome bool :=
  match k with
  | O => Ok true
  | S k =>
      if i + j >=? total then Ok false
      else
        let! x := rd buf (i + j) in
        let! y := chr_at name j in
        if negb (x =? y) then Ok false else name_loop k buf total i name (j + 1)
  end.
(** The bytes up to a NUL or the end: [while (i < total && buf[i] != 0) i++]. *)
Fixpoint until_end (fuel : nat) (buf : list Z) (total i : Z) : outcome Z :=
  match fuel with
  | O => NoFuel
  | S f =>
      if i <? total then let! c := rd buf i in if negb (c =? 0) then until_end f buf total (i + 1) else Ok i
      else Ok i
  end.
Fixpoint scan_loop (fuel : nat) (buf : list Z) (total : Z) (name : cstr) (nlen i : Z) : outcome (option (Z * Z)) :=
  match fuel with
  | O => NoFuel
  | S f =>
      if i <? total then
        let! hit := name_loop (Z.to_nat nlen) buf total i name 0 in
        let! hit := (if hit && (i + nlen <? total) then let! c := rd buf (i + nlen) in Ok (c =? 61) else Ok false) in
        if hit then
          let val_start := i + nlen + 1 in
          let! e := until_end (S (length buf)) buf total val_start in
          Ok (Some (val_start, e - val_start))
        else
          let! e := until_end (S (length buf)) buf total i in
          scan_loop f buf total name nlen (e + 1)
      else Ok None
  end.

Definition lpp_env_get_fs (al : allocator) (l : list LppEnvOverride) (environ : option (list (list Z))) (name : option cstr)
  : outcome str_ret :=
  match name with
  | None | Some [] => empty_fs al
  | Some nm =>
      match find_override l nm with
      | Some o =>
          match evalue o with
          | None => empty_fs al
          | Some v => let! t := env_copy al v in Ok (SOwned t)
          end
      | None =>
          match environ with
          | None => empty_fs al
          | Some reads =>
              if al 0%nat ENV_CAP then
                let buf := slurp reads [] in
                let total := slen buf in
                let! nlen := lpp_strlen name in
                let! found := scan_loop (S (length buf)) buf total nm nlen 0 in
                match found with
                | Some (val_start, val_len) =>
                    unchecked (fresh_str al 0 (val_len + 1) (fun out =>
                      let! out := copy_n out 0 buf val_start val_len in wr out val_len 0))
                | None => empty_fs al
                end
              else empty_fs al
          end
      end
  end.

(** ** Overrides *)

Lemma eq_loop_spec a : forall b, cstr_ok a -> cstr_ok b -> eq_loop a b = bool_decide (a = b).
Proof.
  induction a as [|x a IH]; intros [|y b] Ha Hb; cbn [eq_loop]; [done| | |].
  - inversion Hb; subst. by rewrite (proj2 (Z.eqb_neq 0 y)), bool_decide_eq_false_2 by (done || lia).
  - inversion Ha; subst. by rewrite (proj2 (Z.eqb_neq x 0)), bool_decide_eq_false_2 by (done || lia).
  - inversion Ha; inversion Hb; subst. destruct (Z.eqb_spec x y) as [->|Hne].
    + rewrite IH by done. by apply bool_decide_ext; split; [intros ->|intros [= ->]].
    + by rewrite bool_decide_eq_false_2 by congruence.
Qed.
Lemma str_eq_one a b : cstr_ok a -> cstr_ok b -> (lpp_str_eq false (Some a) (Some b) =? 1) = bool_decide (a = b).
Proof. intros Ha Hb. cbn [lpp_str_eq]. rewrite eq_loop_spec by done. by destruct (bool_decide _). Qed.

(** Strings short enough for the [int] counters. *)
Definition env_str (s : cstr) : Prop := cstr_ok s /\ slen s < 2 ^ 31 - 1.

Lemma env_copy_ok al s : (forall m, al 0%nat m = true) -> env_str s -> env_copy al s = Ok s.
Proof.
  intros Hal [Hs Hl]. unfold env_copy. rewrite strlen_ok by done. cbn [obind]. rewrite (proj2 (Z.ltb_lt _ _)) by done.
  rewrite (unchecked_ok al _ _ s); [done|done|done|]. exists 1%nat.
  replace (Z.to_nat (slen s + 1)) with (length s + 1)%nat by (unfold slen; lia). apply copy_with_terminator.
Qed.

Definition env_wf (l : list LppEnvOverride) : Prop :=
  NoDup (ename <$> l) /\ Forall (fun o => env_str (ename o) /\ match evalue o with Some v => env_str v | None => True end) l.

(** The strings the list owns. *)
Definition env_strings (l : list LppEnvOverride) : list cstr :=
  l ≫= fun o => ename o :: match evalue o with Some v => [v] | None => [] end.
Definition env_new (ev : list env_ev) : list cstr := omap (fun e => match e with EnvNew s => Some s | EnvFree _ => None end) ev.
Definition env_freed (ev : list env_ev) : list cstr := omap (fun e => match e with EnvFree s => Some s | EnvNew _ => None end) ev.

Definition opt_str (v : option cstr) : Prop := match v with Some v => env_str v | None => True end.

Lemma copy_opt_ok al v : (forall m, al 0%nat m = true) -> opt_str v ->
  exists ev, env_copy_opt al v = Ok (v, ev) /\ env_freed ev = [] /\ env_new ev = match v with Some v => [v] | None => [] end.
Proof. intros Hal Hv. destruct v as [v|]; cbn [env_copy_opt]; [rewrite env_copy_ok by done|]; by eexists. Qed.

Lemma find_override_spec l name : env_wf l -> env_str name ->
  match find_override l name with
  | Some o => o ∈ l /\ ename o = name
  | None => name ∉ (ename <$> l)
  end.
Proof.
  intros [_ Hf] Hn. induction Hf as [|o l [[Ho _] _] Hf IH]; cbn [find_override]; [apply not_elem_of_nil|].
  rewrite str_eq_one by (done || apply Hn). destruct (bool_decide (ename o = name)) eqn:E.
  - apply bool_decide_eq_true in E. split; [by left|done].
  - apply bool_decide_eq_false in E. destruct (find_override l name); [destruct IH; split; [by right|done]|].
    cbn. by apply not_elem_of_cons.
Qed.

(** What [set_loop] does to the list it finds the name in. *)
Lemma set_loop_spec al l name value : (forall m, al 0%nat m = true) -> env_wf l -> env_str name -> opt_str value ->
  match find_override l name with
  | None => set_loop al l name value = Ok None
  | Some o => exists l' ev, set_loop al l name value = Ok (Some (l', ev)) /\ ename <$> l' = ename <$> l /\
      Forall (fun o => env_str (ename o) /\ opt_str (evalue o)) l' /\
      (forall n, env_str n -> find_override l' n = if bool_decide (n = name) then Some (mk_env name value) else find_override l n) /\
      env_strings l' ++ env_freed ev ≡ₚ env_strings l ++ env_new ev
  end.
Proof.
  intros Hal [Hnd Hf] Hn Hv. induction Hf as [|o l [Ho Hov] Hf IH]; cbn [find_override set_loop]; [done|].
  rewrite str_eq_one by (apply Ho || apply Hn). apply NoDup_cons in Hnd as [_ Hnd]. destruct (bool_decide (ename o = name)) eqn:E.
  - apply bool_decide_eq_true in E. destruct (copy_opt_ok al value Hal Hv) as (ev & -> & Hfr & Hnew). cbn [obind].
    eexists _, _. split; [done|]. split_and!; [done|by constructor| |].
    + intros n Hnn. cbn [find_override ename]. rewrite str_eq_one by (apply Ho || apply Hnn). rewrite E.
      destruct (bool_decide (name = n)) eqn:E1.
      * apply bool_decide_eq_true in E1. subst n. by rewrite bool_decide_eq_true_2.
      * apply bool_decide_eq_false in E1. rewrite bool_decide_eq_false_2 by congruence. done.
    + cbn [env_strings mbind list_bind ename evalue]. unfold env_freed, env_new in *. rewrite !omap_app, Hfr, Hnew.
      destruct (evalue o) as [w|]; destruct value as [v|]; cbn [app omap list_omap]; rewrite ?app_nil_r;
        fold (env_strings l); try done; cbn [app].
      * apply perm_skip. rewrite (Permutation_app_comm _ [w]), (Permutation_app_comm _ [v]). cbn [app]. apply Permutation_swap.
      * apply perm_skip. by rewrite (Permutation_app_comm _ [w]).
      * apply perm_skip. by rewrite (Permutation_app_comm _ [v]).
  - apply bool_decide_eq_false in E. specialize (IH Hnd). destruct (find_override l name) as [o'|] eqn:Efo.
    + destruct IH as (l' & ev & -> & Hnames & Hall & Hfind & Hperm). cbn [obind]. eexists _, _. split; [done|]. split_and!.
      * cbn. by rewrite Hnames.
      * by constructor.
      * intros n Hnn. cbn [find_override]. rewrite str_eq_one by (apply Ho || apply Hnn). destruct (bool_decide (ename o = n)) eqn:E1.
        -- apply bool_decide_eq_true in E1. by rewrite bool_decide_eq_false_2 by congruence.
        -- by apply Hfind.
      * cbn [env_strings mbind list_bind]. fold (env_strings l') (env_strings l). rewrite <- !(assoc_L (++)). by rewrite Hperm.
    + rewrite IH. done.
Qed.

(** ** The environment block *)

(** Entries as the kernel lays them out, and the first one of a name. *)
Definition env_block (es : list cstr) : list Z := es ≫= fun e => e ++ [0].
Fixpoint env_lookup (es : list cstr) (name : cstr) : option cstr :=
  match es with
  | [] => None
  | e :: r => if starts (name ++ [61]) e then Some (drop (length name + 1) e) else env_lookup r name
  end.

Lemma slurp_all reads : Forall (fun c => c <> []) reads -> forall buf, slen (buf ++ concat reads) <= ENV_CAP -> slurp reads buf = buf ++ concat reads.
Proof.
  induction 1 as [|c r Hc Hr IH]; intros buf Hb; cbn [slurp concat] in *.
  - rewrite app_nil_r. by destruct (_ <? _).
  - rewrite !slen_app in Hb. pose proof (slen_nonneg (concat r)). assert (0 < slen c) by (destruct c; [done|unfold slen; cbn; lia]).
    rewrite (proj2 (Z.ltb_lt _ _)) by lia. rewrite take_ge by (unfold slen in *; lia). destruct c as [|x c]; [done|].
    rewrite IH by (rewrite !slen_app; lia). by rewrite <- (assoc_L (++)).
Qed.

Lemma rd_drop (buf : list Z) (i : nat) c r : drop i buf = c :: r -> rd buf (Z.of_nat i) = Ok c.
Proof.
  intros H. apply rd_ok; [lia|]. rewrite Nat2Z.id. rewrite <- (Nat.add_0_r i), <- lookup_drop, H. done.
Qed.

Lemma name_loop_spec k : forall buf name (i j : nat), (j + k = length name)%nat ->
  name_loop k buf (slen buf) (Z.of_nat i) name (Z.of_nat j) = Ok (starts (drop j name) (drop (i + j) buf)).
Proof.
  induction k as [|k IH]; intros buf name i j Hj; cbn [name_loop].
  - by rewrite (drop_ge name) by lia.
  - rewrite Z.geb_leb. replace (Z.of_nat i + Z.of_nat j) with (Z.of_nat (i + j)) by lia.
    destruct (drop j name) as [|y q] eqn:En; [apply (f_equal length) in En; rewrite length_drop in En; cbn in En; lia|].
    destruct (drop (i + j) buf) as [|x r] eqn:Eb.
    + apply (f_equal length) in Eb. rewrite length_drop in Eb. cbn in Eb. unfold slen. by rewrite (proj2 (Z.leb_le _ _)) by lia.
    + pose proof Eb as Hl. apply (f_equal length) in Hl. rewrite length_drop in Hl. cbn in Hl. unfold slen at 1. rewrite (proj2 (Z.leb_gt _ _)) by lia.
      rewrite (rd_drop _ _ _ _ Eb), (chr_at_drop _ _ _ _ En). cbn [obind starts]. rewrite (Z.eqb_sym y x). destruct (x =? y); cbn [negb andb]; [|done].
      replace (Z.of_nat j + 1) with (Z.of_nat (S j)) by lia. rewrite IH by lia.
      by rewrite Nat.add_succ_r, (drop_step _ _ _ _ Eb), (drop_step _ _ _ _ En).
Qed.

Lemma until_end_spec f : forall buf (i : nat) u r, drop i buf = u ++ 0 :: r -> cstr_ok u -> (length u < f)%nat ->
  until_end f buf (slen buf) (Z.of_nat i) = Ok (Z.of_nat i + slen u).
Proof.
  induction f as [|f IH]; intros buf i u r Hd Hu Hf; [lia|]. cbn [until_end].
  pose proof Hd as Hl. apply (f_equal length) in Hl. rewrite length_drop, length_app in Hl. cbn in Hl.
  unfold slen at 1. rewrite (proj2 (Z.ltb_lt _ _)) by lia. destruct u as [|c u]; cbn [app] in Hd.
  - rewrite (rd_drop _ _ _ _ Hd). cbn. f_equal. unfold slen. cbn. lia.
  - rewrite (rd_drop _ _ _ _ Hd). cbn [obind]. inversion Hu; subst. rewrite (proj2 (Z.eqb_neq c 0)) by lia. cbn [negb].
    replace (Z.of_nat i + 1) with (Z.of_nat (S i)) by lia. rewrite (IH buf (S i) u r); [|by apply drop_step in Hd|done|cbn in Hf; lia].
    f_equal. unfold slen. cbn [length]. lia.
Qed.

Lemma starts_snoc p c s : starts (p ++ [c]) s = starts p s && match drop (length p) s with x :: _ => x =? c | [] => false end.
Proof.
  revert s. induction p as [|a p IH]; intros s; cbn [app starts length drop].
  - destruct s as [|x s]; [done|]. cbn. by rewrite Z.eqb_sym, andb_true_r.
  - destruct s as [|b s]; [done|]. rewrite IH. by rewrite andb_assoc.
Qed.

Lemma starts_before_nul p : forall e r, cstr_ok p -> starts p (e ++ 0 :: r) = starts p e.
Proof.
  induction p as [|a p IH]; intros [|b e] r Hp; cbn [app starts]; [done|done| |]; inversion Hp; subst.
  - by rewrite (proj2 (Z.eqb_neq a 0)) by lia.
  - by rewrite IH.
Qed.

(** The test at one entry. *)
Lemma entry_test buf name (i : nat) : cstr_ok name ->
  (let! hit := name_loop (Z.to_nat (slen name)) buf (slen buf) (Z.of_nat i) name 0 in
   if hit && (Z.of_nat i + slen name <? slen buf) then let! c := rd buf (Z.of_nat i + slen name) in Ok (c =? 61) else Ok false)
  = Ok (starts (name ++ [61]) (drop i buf)).
Proof.
  intros Hn. unfold slen at 1. rewrite Nat2Z.id. pose proof (name_loop_spec (length name) buf name i 0 eq_refl) as H. change (Z.of_nat 0) with 0 in H.
  rewrite H, Nat.add_0_r, drop_0. cbn [obind]. rewrite starts_snoc, drop_drop. destruct (starts name (drop i buf)); [|done]. cbn [andb].
  replace (Z.of_nat i + slen name) with (Z.of_nat (i + length name)) by (unfold slen; lia). destruct (drop (i + length name) buf) as [|x r] eqn:E.
  - apply (f_equal length) in E. rewrite length_drop in E. cbn in E. unfold slen. by rewrite (proj2 (Z.ltb_ge _ _)) by lia.
  - pose proof E as Hl. apply (f_equal length) in Hl. rewrite length_drop in Hl. cbn in Hl. unfold slen. rewrite (proj2 (Z.ltb_lt _ _)) by lia.
    by rewrite (rd_drop _ _ _ _ E).
Qed.

Lemma scan_loop_spec buf name es : cstr_ok name -> Forall cstr_ok es -> forall f (i : nat), drop i buf = env_block es -> (length es < f)%nat ->
  exists found, scan_loop f buf (slen buf) name (slen name) (Z.of_nat i) = Ok found /\
    match env_lookup es name with
    | None => found = None
    | Some v => exists k : nat, found = Some (Z.of_nat k, slen v) /\ (k + length v <= length buf)%nat /\ take (length v) (drop k buf) = v
    end.
Proof.
  intros Hn. induction 1 as [|e es He Hes IH]; intros f i Hd Hf; (destruct f as [|f]; [cbn in Hf; lia|]); cbn [scan_loop env_lookup].
  - cbn in Hd. apply (f_equal length) in Hd. rewrite length_drop in Hd. cbn in Hd. unfold slen at 1. rewrite (proj2 (Z.ltb_ge _ _)) by lia. by eexists.
  - cbn [env_block mbind list_bind] in Hd. fold (env_block es) in Hd. rewrite <- (assoc_L (++)) in Hd. cbn [app] in Hd.
    pose proof Hd as Hl. apply (f_equal length) in Hl. rewrite length_drop, length_app in Hl. cbn in Hl.
    unfold slen at 1. rewrite (proj2 (Z.ltb_lt _ _)) by lia.
    pose proof (entry_test buf name i Hn) as Ht. destruct (name_loop _ _ _ _ _ _) as [hit| | |]; try done. cbn [obind] in Ht |- *.
    rewrite Ht. cbn [obind]. rewrite Hd, starts_before_nul by (apply cstr_ok_app; split; [done|repeat constructor; lia]).
    destruct (starts (name ++ [61]) e) eqn:E.
    + apply starts_spec in E as [v Hv]. replace (Z.of_nat i + slen name + 1) with (Z.of_nat (i + (length name + 1))) by (unfold slen; lia).
      assert (drop (length name + 1) e = v) as Hdv.
      { rewrite Hv. replace (length name + 1)%nat with (length (name ++ [61])) by (rewrite length_app; done). apply drop_app_length. }
      assert (drop (i + (length name + 1)) buf = v ++ 0 :: env_block es) as Hdd.
      { rewrite <- drop_drop, Hd, Hv. rewrite <- (assoc_L (++)). replace (length name + 1)%nat with (length (name ++ [61])) by (rewrite length_app; done). apply drop_app_length. }
      pose proof Hdd as Hl2. apply (f_equal length) in Hl2. rewrite length_drop, length_app in Hl2. cbn in Hl2.
      rewrite (until_end_spec _ _ _ v (env_block es)); [|done|by rewrite Hv in He; apply cstr_ok_app in He as [_ ?]|lia]. cbn [obind].
      eexists. split; [done|]. rewrite Hdv. exists (i + (length name + 1))%nat. split_and!; [do 2 f_equal; lia|lia|].
      rewrite Hdd. by rewrite take_app_length.
    + rewrite (until_end_spec _ _ _ e (env_block es)) by (done || lia). cbn [obind].
      replace (Z.of_nat i + slen e + 1) with (Z.of_nat (i + (length e + 1))) by (unfold slen; lia).
      apply IH; [|cbn in Hf; lia]. rewrite <- drop_drop, Hd. replace (length e + 1)%nat with (length (e ++ [0])) by (rewrite length_app; done).
      change (e ++ 0 :: env_block es) with (e ++ [0] ++ env_block es). rewrite (assoc_L (++)). apply drop_app_length.
Qed.

Lemma env_block_length es : (length es <= length (env_block es))%nat.
Proof. induction es as [|e es IH]; [done|]. cbn [env_block mbind list_bind]. fold (env_block es). rewrite !length_app. cbn. lia. Qed.

Lemma env_lookup_ok es name v : Forall cstr_ok es -> env_lookup es name = Some v -> cstr_ok v.
Proof.
  induction 1 as [|e es He _ IH]; cbn [env_lookup]; [done|]. destruct (starts _ e); [|done]. intros [= <-]. by apply Forall_drop.
Qed.

(** Environment variables.  In the freestanding runtime, setting a variable makes
    [lpp_env_get] return that value (the empty string for NULL) and leaves every other name as it
    was; the list of overrides stays well-formed and owns exactly the strings that were allocated
    and not freed.  A name without an override reads as the value of its first entry in the
    process environment - if that fits the 32768 bytes that are read - and as the empty string
    otherwise, in whatever pieces the kernel delivers the block. *)
Theorem env_set_get al l name value other es reads :
  (forall m, al 0%nat m = true) -> env_wf l -> env_str name -> name <> [] -> opt_str value -> env_str other -> other <> [] ->
  Forall cstr_ok es -> Forall (fun c => c <> []) reads -> concat reads = env_block es -> slen (env_block es) <= ENV_CAP ->
  exists l' ev, lpp_env_set_fs al l (Some name) value = Ok (0, l', ev) /\ env_wf l' /\
    env_strings l' ++ env_freed ev ≡ₚ env_strings l ++ env_new ev /\
    lpp_env_get_fs al l' (Some reads) (Some name) = Ok (SOwned (default [] value)) /\
    (other <> name -> lpp_env_get_fs al l' (Some reads) (Some other) = lpp_env_get_fs al l (Some reads) (Some other)) /\
    (find_override l other = None -> lpp_env_get_fs al l (Some reads) (Some other) = Ok (SOwned (default [] (env_lookup es other)))).
Proof.
  intros Hal Hl Hn Hne Hv Ho Hoe Hes Hrd Hcat Hcap.
  assert (exists l' ev, lpp_env_set_fs al l (Some name) value = Ok (0, l', ev) /\ env_wf l' /\
    env_strings l' ++ env_freed ev ≡ₚ env_strings l ++ env_new ev /\
    forall n, env_str n -> find_override l' n = if bool_decide (n = name) then Some (mk_env name value) else find_override l n) as (l' & ev & Hset & Hl' & Hperm & Hfind).
  { unfold lpp_env_set_fs. destruct name as [|c0 nm] eqn:En; [done|]. rewrite <- En in *. clear En.
    pose proof (set_loop_spec al l name value Hal Hl Hn Hv) as Hs. pose proof (find_override_spec l name Hl Hn) as Hf. destruct (find_override l name) as [o|].
    - destruct Hs as (l' & ev & -> & Hnames & Hall & Hfind & Hperm). cbn [obind]. exists l', ev. split_and!; try done.
      split; [by rewrite Hnames; apply Hl|]. exact Hall.
    - rewrite Hs. cbn [obind]. rewrite env_copy_ok by done. cbn [obind]. destruct (copy_opt_ok al value Hal Hv) as (ev & -> & Hfr & Hnew). cbn [obind].
      eexists _, _. split; [done|]. split_and!.
      + split; [cbn; apply NoDup_cons; by split; [|apply Hl]|]. constructor; [done|]. apply Hl.
      + unfold env_freed, env_new in *. cbn [omap list_omap]. rewrite Hfr, Hnew, app_nil_r. cbn [env_strings mbind list_bind ename evalue]. fold (env_strings l).
        rewrite (Permutation_app_comm (env_strings l)). by destruct value.
      + intros n Hnn. cbn [find_override ename]. rewrite str_eq_one by (apply Hn || apply Hnn). destruct (bool_decide (name = n)) eqn:E.
        * apply bool_decide_eq_true in E. subst n. by rewrite bool_decide_eq_true_2.
        * apply bool_decide_eq_false in E. by rewrite bool_decide_eq_false_2 by congruence. }
  exists l', ev. split_and!; try done.
  - unfold lpp_env_get_fs. destruct name as [|c0 nm] eqn:En; [done|]. rewrite <- En in *. clear En. rewrite Hfind, bool_decide_eq_true_2 by done. cbn [evalue].
    destruct value as [v|]; [by rewrite env_copy_ok|by apply empty_fs_ok].
  - intros Hon. unfold lpp_env_get_fs. destruct other as [|c1 on] eqn:Eo; [done|]. rewrite <- Eo in *. clear Eo. by rewrite Hfind, bool_decide_eq_false_2 by done.
  - intros Hnone. unfold lpp_env_get_fs. destruct other as [|c1 on] eqn:Eo; [done|]. rewrite <- Eo in *. clear Eo. rewrite Hnone, Hal.
    rewrite slurp_all by (rewrite ?app_nil_l, ?Hcat; done). cbn [app]. rewrite Hcat, strlen_ok by apply Ho. cbn [obind].
    destruct (scan_loop_spec (env_block es) other es ltac:(apply Ho) Hes (S (length (env_block es))) 0 eq_refl) as (found & Hsc & Hf).
    { pose proof (env_block_length es). lia. }
    change (Z.of_nat 0) with 0 in Hsc. rewrite Hsc. cbn [obind]. destruct (env_lookup es other) as [v|] eqn:El; [|rewrite Hf; by apply empty_fs_ok].
    destruct Hf as (k & -> & Hk & Htk). cbn [default]. apply unchecked_ok; [done|by eapply env_lookup_ok|]. exists 1%nat.
    replace (Z.to_nat (slen v + 1)) with (length v + 1)%nat by (unfold slen; lia).
    pose proof (copy_n_append (env_block es) k (length v) 1 [] 0 (slen v) Hk eq_refl eq_refl) as Hc. cbn [app] in Hc. rewrite Hc.
    cbn [obind]. rewrite Htk. by apply wr_nul.
Qed.

(** ["A=x"], ["B=yz"] in two pieces; ["B"] is overridden, then unset. *)
Lemma env_set_get_witness :
  exists l' ev, lpp_env_set_fs (fun _ _ => true) [mk_env [66] (Some [113])] (Some [66]) None = Ok (0, l', ev) /\
    lpp_env_get_fs (fun _ _ => true) l' (Some [[65; 61]; [120; 0; 66; 61; 121; 122; 0]]) (Some [66]) = Ok (SOwned []) /\
    lpp_env_get_fs (fun _ _ => true) [mk_env [66] (Some [113])] (Some [[65; 61]; [120; 0; 66; 61; 121; 122; 0]]) (Some [65]) = Ok (SOwned [120]).
Proof.
  assert (env_str [66] /\ env_str [65] /\ env_str [113]) as (K1 & K2 & K3) by (split_and!; try (repeat constructor; discriminate); reflexivity).
  assert (Forall cstr_ok [[65; 61; 120]; [66; 61; 121; 122]]) as K4 by (repeat constructor; discriminate).
  destruct (env_set_get (fun _ _ => true) [mk_env [66] (Some [113])] [66] None [65] [[65; 61; 120]; [66; 61; 121; 122]] [[65; 61]; [120; 0; 66; 61; 121; 122; 0]]
    (fun _ => eq_refl)) as (l' & ev & H1 & _ & _ & H2 & _ & H3).
  - split; [apply NoDup_singleton|constructor; [split; [exact K1|exact K3]|constructor]].
  - exact K1.
  - discriminate.
  - exact I.
  - exact K2.
  - discriminate.
  - exact K4.
  - repeat constructor; discriminate.
  - reflexivity.
  - discriminate.
  - exists l', ev. split_and!; [exact H1|exact H2|exact (H3 eq_refl)].
Defined.
