(* ===== verification/FreeBuf.v ===== *)
(** * Buffers, integers and the clock of the freestanding runtime (runtime/linux_x86_64_min.c)

    The one-line builtins at the end of the file, over the byte memory of [FreeAlloc].  A buffer
    is a mapping of whole pages: its size in the first 8 bytes, then its data, to which the handle
    points.  Except for [lpp_buf_write_str] and [lpp_buf_crc32] the accessors do not compare the
    offset with the size, so an offset outside the mapping is a fault ([Undef]) and one in the
    rest of its last page is not noticed.  The theorems relate a buffer in memory to the buffer of
    the host runtime ([Buf]) it stands for. *)

From S2P Require Import Prelude CInt FreeMap FreeAlloc Buf ListRt Str FreeStr.

(** ** Buffers *)

Definition lpp_buf_alloc_fs (os : kernel) (h : heap) (size : Z) : outcome (Z * heap) :=
  let size := if size <=? 0 then 64 else size in
  let! t := chk64 (size + 8) in
  let '(m, h) := lpp_sys_mmap os h (lpp_page_round (u64 t)) in
  if m =? 0 then Ok (0, h)
  else let! mm := storew 8 (hmem h) m size in Ok (m + 8, set_mem h mm).

Definition lpp_buf_free_fs (h : heap) (p : Z) : outcome heap :=
  if p =? 0 then Ok h
  else
    let b := p - 8 in
    let! s := loadw 8 (hmem h) b in
    let! t := chk64 (i64 s + 8) in
    Ok (lpp_sys_munmap h b (lpp_page_round (u64 t))).

Definition lpp_buf_len_fs (h : heap) (p : Z) : outcome Z :=
  if p =? 0 then Ok 0 else let! s := loadw 8 (hmem h) (p - 8) in Ok (i64 s).

(** One byte, as [unsigned char] and as [char]. *)
Definition ld1 (m : memory) (a : Z) : outcome Z := loadw 1 m a.
Definition st1 (m : memory) (a v : Z) : outcome memory := store m a [u8 v].

Definition lpp_buf_get8_fs (h : heap) (p o : Z) : outcome Z :=
  if p =? 0 then Ok 0 else ld1 (hmem h) (p + o).

Definition lpp_buf_set8_fs (h : heap) (p o v : Z) : outcome heap :=
  if p =? 0 then Ok h else let! m := st1 (hmem h) (p + o) (Z.land v 0xFF) in Ok (set_mem h m).

Definition lpp_buf_set16le_fs (h : heap) (p o v : Z) : outcome heap :=
  if p =? 0 then Ok h
  else
    let d := p + o in
    let! m := st1 (hmem h) d (Z.land v 0xFF) in
    let! m := st1 m (d + 1) (Z.land (Z.shiftr v 8) 0xFF) in
    Ok (set_mem h m).

Definition lpp_buf_get16le_fs (h : heap) (p o : Z) : outcome Z :=
  if p =? 0 then Ok 0
  else
    let d := p + o in
    let! b0 := ld1 (hmem h) d in
    let! b1 := ld1 (hmem h) (d + 1) in
    Ok (Z.lor b0 (Z.shiftl b1 8)).

Definition lpp_buf_set32le_fs (h : heap) (p o v : Z) : outcome heap :=
  if p =? 0 then Ok h
  else
    let d := p + o in
    let! m := st1 (hmem h) d (Z.land v 0xFF) in
    let! m := st1 m (d + 1) (Z.land (Z.shiftr v 8) 0xFF) in
    let! m := st1 m (d + 2) (Z.land (Z.shiftr v 16) 0xFF) in
    let! m := st1 m (d + 3) (Z.land (Z.shiftr v 24) 0xFF) in
    Ok (set_mem h m).

Definition lpp_buf_get32le_fs (h : heap) (p o : Z) : outcome Z :=
  if p =? 0 then Ok 0
  else
    let d := p + o in
    let! b0 := ld1 (hmem h) d in
    let! b1 := ld1 (hmem h) (d + 1) in
    let! b2 := ld1 (hmem h) (d + 2) in
    let! b3 := ld1 (hmem h) (d + 3) in
    Ok (Z.lor (Z.lor (Z.lor b0 (Z.shiftl b1 8)) (Z.shiftl b2 16)) (Z.shiftl b3 24)).

(** [for (i = 0; i < len; i++) d[i] = s[i]] in memory, from the [i]-th round on. *)
Fixpoint move_loop (k : nat) (i : Z) (m : memory) (d s : Z) : outcome memory :=
  match k with
  | O => Ok m
  | S k => let! c := ld1 m (s + i) in let! m := st1 m (d + i) c in move_loop k (i + 1) m d s
  end.

Definition lpp_buf_copy_fs (h : heap) (dst do2 src so len : Z) : outcome heap :=
  if (dst =? 0) || (src =? 0) || (len <=? 0) then Ok h
  else let! m := move_loop (Z.to_nat len) 0 (hmem h) (dst + do2) (src + so) in Ok (set_mem h m).

(** The same loop from memory into the block of a fresh string. *)
Fixpoint fetch_loop (k : nat) (i : Z) (out : list Z) (m : memory) (s : Z) : outcome (list Z) :=
  match k with
  | O => Ok out
  | S k => let! c := ld1 m (s + i) in let! out := wr out i c in fetch_loop k (i + 1) out m s
  end.

Definition lpp_buf_read_str_fs (al : allocator) (h : heap) (p o len : Z) : outcome str_ret :=
  if (p =? 0) || (len <=? 0) then empty_fs al
  else
    let! size := chk64 (len + 1) in
    unchecked (fresh_str al 0 size (fun out =>
      let! out := fetch_loop (Z.to_nat len) 0 out (hmem h) (p + o) in wr out len 0)).

(** The copy of a string into memory. *)
Fixpoint put_loop (k : nat) (i : Z) (m : memory) (d : Z) (s : cstr) : outcome memory :=
  match k with
  | O => Ok m
  | S k => let! c := chr_at s i in let! m := st1 m (d + i) c in put_loop k (i + 1) m d s
  end.

Definition lpp_buf_write_str_fs (h : heap) (p o : Z) (str : option cstr) : outcome (Z * heap) :=
  match str with
  | None => Ok (-1, h)
  | Some s =>
      if p =? 0 then Ok (-1, h)
      else
        let! n := strlen_loop (S (length s)) s 0 in
        let! cap := lpp_buf_len_fs h p in
        let! oob := out_of_bounds o n cap in
        if oob : bool then Ok (-1, h)
        else let! m := put_loop (Z.to_nat n) 0 (hmem h) (p + o) s in Ok (n, set_mem h m)
  end.

(** [uint32_t m = ~(crc & 1u) + 1u; crc = (crc >> 1) ^ (0xEDB88320u & m)]. *)
Definition crc_round (crc : Z) : Z :=
  let m := u32 (u32 (Z.lnot (Z.land crc 1)) + 1) in
  Z.lxor (Z.shiftr crc 1) (Z.land 0xEDB88320 m).
Fixpoint crc_rounds (n : nat) (crc : Z) : Z :=
  match n with O => crc | S n => crc_rounds n (crc_round crc) end.
Fixpoint crc_loop_fs (k : nat) (i : Z) (crc : Z) (m : memory) (d : Z) : outcome Z :=
  match k with
  | O => Ok crc
  | S k => let! b := ld1 m (d + i) in crc_loop_fs k (i + 1) (crc_rounds 8 (Z.lxor crc b)) m d
  end.

Definition lpp_buf_crc32_fs (h : heap) (p off len : Z) : outcome Z :=
  if (p =? 0) || (len <? 0) then Ok 0
  else
    let! cap := lpp_buf_len_fs h p in
    let! oob := out_of_bounds off len cap in
    if oob : bool then Ok 0
    else let! crc := crc_loop_fs (Z.to_nat len) 0 0xFFFFFFFF (hmem h) (p + off) in Ok (u32 (Z.lnot crc)).

(** ** Integers, random numbers and the clock *)

Definition lpp_abs_fs (x : Z) : outcome Z := if x <? 0 then chk64 (- x) else Ok x.
Definition lpp_min_fs (a b : Z) : Z := if a <? b then a else b.
Definition lpp_max_fs (a b : Z) : Z := if a >? b then a else b.

(** [while (exp > 0) { if (exp & 1) r *= base; base *= base; exp >>= 1; }]: at most 63 rounds. *)
Fixpoint pow_loop_fs (fuel : nat) (r base exp : Z) : outcome Z :=
  match fuel with
  | O => NoFuel
  | S fuel =>
      if exp >? 0 then
        let! r := (if negb (Z.land exp 1 =? 0) then chk64 (r * base) else Ok r) in
        let! base := chk64 (base * base) in
        pow_loop_fs fuel r base (Z.shiftr exp 1)
      else Ok r
  end.
Definition lpp_int_pow_fs (base exp : Z) : outcome Z := pow_loop_fs 64 1 base exp.

Definition lpp_random_fs : Z := 42.
Definition lpp_random_range_fs (lo hi : Z) : Z := if lo <? hi then lo else 0.

(** [clock_gettime] stores seconds and nanoseconds in [buf] and returns [rc] in [rax], which the
    assembly statement then stores over [buf[0]]. *)
Definition lpp_time_ms_fs (rc seconds nanoseconds : Z) : Z := i64 (u64 (rc * 1000 + nanoseconds / 1000000)).

(** What [nanosleep] is asked for. *)
Definition lpp_sleep_ms_fs (ms : Z) : Z * Z := (u64 (Z.quot ms 1000), u64 (Z.rem ms 1000 * 1000000)).

(** ** Lemmas *)

Lemma ld1_rd n m p d o : load n m p = Ok d -> 0 <= o < Z.of_nat n -> ld1 m (p + o) = rd d o.
Proof.
  revert m p d o. induction n as [|n IH]; intros m p d o Hl Ho; [lia|]. cbn [load] in Hl.
  destruct (m p) as [b|] eqn:E; [|done]. destruct (load n m (p + 1)) as [r| | |] eqn:Er; try done. cbn [obind] in Hl. injection Hl as <-.
  destruct (Z.eq_dec o 0) as [->|].
  - unfold ld1, loadw. cbn [load]. rewrite Z.add_0_r, E. cbn [obind le_value]. by rewrite Z.shiftl_0_l, Z.lor_0_r.
  - replace (p + o) with (p + 1 + (o - 1)) by lia. rewrite (IH _ _ _ (o - 1) Er) by lia.
    unfold rd. rewrite !(proj2 (Z.ltb_ge _ 0)) by lia. replace (Z.to_nat o) with (S (Z.to_nat (o - 1))) by lia. done.
Qed.

(** One stored byte is one updated cell of the array. *)
Lemma st1_wr n m p d o v : load n m p = Ok d -> 0 <= o < Z.of_nat n ->
  exists m', st1 m (p + o) v = Ok m' /\ load n m' p = Ok (<[Z.to_nat o := u8 v]> d) /\ upd m m' p (Z.of_nat n) /\
    wr d o (u8 v) = Ok (<[Z.to_nat o := u8 v]> d).
Proof.
  intros Hl Ho. pose proof (load_mapped _ _ _ _ Hl) as Ha. pose proof (load_length _ _ _ _ Hl) as Hn.
  destruct (store_spec [u8 v] m (p + o)) as (m' & He & Hu & Hv); [eapply accessible_sub; [exact Ha|cbn; lia..]|].
  exists m'. split_and!; [exact He| | |].
  - rewrite <- Hn, <- (length_insert d (Z.to_nat o) (u8 v)). apply load_from. rewrite length_insert. intros j Hj.
    destruct (decide (j = Z.to_nat o)) as [->|Hne].
    + rewrite list_lookup_insert_eq by lia. rewrite Z2Nat.id by lia. cbn [length] in Hv.
      pose proof (load_lookup 1 m' (p + o) [u8 v] 0 Hv ltac:(lia)) as H. by rewrite Z.add_0_r in H.
    + rewrite list_lookup_insert_ne by done. rewrite (proj1 Hu) by (cbn; lia). eapply load_lookup; [exact Hl|lia].
  - eapply upd_weaken; [exact Hu|lia|cbn; lia].
  - apply wr_ok. lia.
Qed.

(** ** A buffer in memory *)

(** The handle [p] refers to the buffer [b] of the host model. *)
Record buf_at (m : memory) (p : Z) (b : Buf) : Prop := {
  ba_ptr : p <> 0;
  ba_size : loadw 8 m (p - 8) = Ok (bsize b);
  ba_data : load (length (bdata b)) m p = Ok (bdata b);
  ba_ok : buf_ok b
}.

(** Both runtimes return the same value; both store the same bytes, and nothing outside the
    buffer changes. *)
Definition same_load (fs host : outcome Z) : Prop := exists v, fs = Ok v /\ host = Ok v.
Definition same_store (h : heap) (p : Z) (b : Buf) (fs : outcome heap) (host : outcome (option Buf)) : Prop :=
  exists h' b', fs = Ok h' /\ host = Ok (Some b') /\ buf_at (hmem h') p b' /\ bsize b' = bsize b /\
    upd (hmem h) (hmem h') p (bsize b).

Section one_buffer.
Context (h : heap) (p : Z) (b : Buf) (Hat : buf_at (hmem h) p b).

Lemma at_nonzero : (p =? 0) = false.
Proof. apply Z.eqb_neq. apply Hat. Qed.
Lemma at_size : bsize b = Z.of_nat (length (bdata b)) /\ 0 <= bsize b /\ bsize b <= INT64_MAX - 8.
Proof. destruct (ba_ok _ _ _ Hat) as (? & ? & ?). lia. Qed.

Lemma len_agrees : lpp_buf_len_fs h p = Ok (bsize b).
Proof.
  unfold lpp_buf_len_fs. rewrite at_nonzero, (ba_size _ _ _ Hat). cbn [obind]. pose proof at_size. rewrite i64_id by (pow2; lia). done.
Qed.

Lemma ld1_agrees o : 0 <= o < bsize b -> exists v, ld1 (hmem h) (p + o) = Ok v /\ rd (bdata b) o = Ok v /\ 0 <= v < 2 ^ 8.
Proof.
  intros Ho. pose proof at_size as (Hs & _). rewrite (ld1_rd _ _ _ _ _ (ba_data _ _ _ Hat)) by lia.
  destruct (lookup_lt_is_Some_2 (bdata b) (Z.to_nat o)) as [v Hv]; [lia|]. exists v. rewrite (rd_ok _ _ v) by (lia || done).
  split_and!; [done|done|..]; destruct (ba_ok _ _ _ Hat) as (_ & _ & Hb); eapply (proj1 (Forall_lookup _ _) Hb); done.
Qed.

Lemma buf_at_upd m' d' : upd (hmem h) m' p (bsize b) -> load (length d') m' p = Ok d' -> length d' = length (bdata b) -> bytes_ok d' ->
  buf_at m' p (mkBuf (bsize b) d').
Proof.
  intros Hu Hl Hn Hb. destruct Hat as [Hp Hs _ (Hk1 & Hk2 & _)]. split; cbn [bsize bdata]; [done| |done|].
  - rewrite (loadw_upd _ _ _ _ _ _ Hu); [done|lia].
  - split_and!; cbn [bsize bdata]; [lia|done|done].
Qed.
End one_buffer.

(** A run of one-byte stores from [a] on. *)
Fixpoint st_all (m : memory) (a : Z) (vs : list Z) : outcome memory :=
  match vs with [] => Ok m | v :: vs => let! m := st1 m a v in st_all m (a + 1) vs end.

(** The array after those stores. *)
Definition splice (d : list Z) (o : Z) (vs : list Z) : list Z :=
  take (Z.to_nat o) d ++ vs ++ drop (Z.to_nat o + length vs) d.

Lemma splice_cons d o v vs : 0 <= o -> o + 1 + Z.of_nat (length vs) <= Z.of_nat (length d) ->
  splice (<[Z.to_nat o := v]> d) (o + 1) vs = splice d o (v :: vs).
Proof.
  intros Ho Hl. unfold splice. replace (Z.to_nat (o + 1)) with (S (Z.to_nat o)) by lia. cbn [length].
  rewrite (take_S_r _ _ v) by (apply list_lookup_insert_eq; lia). rewrite take_insert_ge by lia.
  rewrite drop_insert_lt by lia. rewrite <- (assoc_L (++)). cbn [app]. do 4 f_equal. lia.
Qed.

Lemma st_all_spec vs : forall n m p d o, load n m p = Ok d -> 0 <= o -> o + Z.of_nat (length vs) <= Z.of_nat n ->
  exists m', st_all m (p + o) vs = Ok m' /\ load n m' p = Ok (splice d o (u8 <$> vs)) /\ upd m m' p (Z.of_nat n).
Proof.
  induction vs as [|v vs IH]; intros n m p d o Hl Ho Hn; cbn [st_all].
  { exists m. split_and!; [done| |apply upd_refl]. unfold splice. cbn [fmap list_fmap length app]. by rewrite Nat.add_0_r, take_drop. }
  cbn [length] in Hn. destruct (st1_wr n m p d o v Hl ltac:(lia)) as (m1 & -> & Hl1 & Hu1 & _). cbn [obind].
  destruct (IH n m1 p _ (o + 1) Hl1 ltac:(lia) ltac:(lia)) as (m' & He & Hl' & Hu').
  replace (p + o + 1) with (p + (o + 1)) by lia. exists m'. split_and!; [exact He| |by eapply upd_trans].
  rewrite Hl'. f_equal. rewrite splice_cons; [done|lia|]. rewrite length_fmap, (load_length _ _ _ _ Hl). lia.
Qed.

Lemma splice_bytes d o vs : bytes_ok d -> bytes_ok vs -> bytes_ok (splice d o vs).
Proof. intros Hd Hv. unfold splice. rewrite !Forall_app. split_and!; [by apply Forall_take|done|by apply Forall_drop]. Qed.
Lemma splice_length d o vs : 0 <= o -> o + Z.of_nat (length vs) <= Z.of_nat (length d) -> length (splice d o vs) = length d.
Proof. intros H1 H2. unfold splice. rewrite !length_app, length_take, length_drop. lia. Qed.
Lemma u8_bytes vs : bytes_ok (u8 <$> vs).
Proof. apply Forall_fmap, Forall_forall. intros v _. by apply uwrap_range. Qed.

(** The host's chain of indexed stores is the same splice. *)
Lemma wr_splice vs : forall d o, 0 <= o -> o + Z.of_nat (length vs) <= Z.of_nat (length d) ->
  wr_all d o (imap (fun i v => (Z.of_nat i, v)) vs) = Ok (splice d o vs).
Proof.
  intros d o Ho. assert (forall vs i d, 0 <= o -> o + Z.of_nat i + Z.of_nat (length vs) <= Z.of_nat (length d) ->
    wr_all d o (imap (fun j v => (Z.of_nat (i + j), v)) vs) = Ok (splice d (o + Z.of_nat i) vs)) as H.
  { clear vs d. induction vs as [|v vs IH]; intros i d _ Hl.
    - cbn [imap wr_all]. unfold splice. cbn [length app]. by rewrite Nat.add_0_r, take_drop.
    - cbn [length] in Hl. cbn [imap wr_all]. rewrite Nat.add_0_r, wr_ok by lia. cbn [obind].
      rewrite <- splice_cons by lia. replace (o + Z.of_nat i + 1) with (o + Z.of_nat (S i)) by lia.
      rewrite <- (IH (S i)) by (rewrite ?length_insert; lia). f_equal. apply imap_ext. intros j x _. cbn. do 2 f_equal. lia. }
  intros Hl. specialize (H vs 0%nat d Ho ltac:(lia)). by rewrite Z.add_0_r in H.
Qed.

Lemma u8_word w v k : 0 <= k -> k + 8 <= w -> u8 (Z.shiftr (uwrap w v) k) = u8 (Z.land (Z.shiftr v k) 0xFF).
Proof.
  intros Hk Hw. rewrite u8_land. apply Z.bits_inj'. intros i Hi. unfold u8. rewrite !uwrap_testbit, !Z.shiftr_spec, uwrap_testbit by lia.
  destruct (Z.ltb_spec i 8); [|done]. by rewrite (proj2 (Z.ltb_lt (i + k) w)) by lia.
Qed.

(** ** The loops *)

Lemma load_cons k m a c bs : load (S k) m a = Ok (c :: bs) -> ld1 m a = Ok c /\ load k m (a + 1) = Ok bs.
Proof.
  cbn [load]. intros H. destruct (m a) as [x|] eqn:E; [|done]. destruct (load k m (a + 1)) as [r| | |] eqn:Er; try done.
  cbn [obind] in H. injection H as <- <-. split; [|done]. unfold ld1, loadw. cbn [load]. rewrite E. cbn [obind le_value].
  by rewrite Z.shiftl_0_l, Z.lor_0_r.
Qed.

Lemma st1_upd m a v m' : st1 m a v = Ok m' -> upd m m' a 1.
Proof.
  unfold st1. cbn [store]. destruct (m a) eqn:E; [|done]. intros [= <-].
  split; intros x Hx; destruct (Z.eqb_spec x a); try done; lia.
Qed.

Lemma move_loop_st bs : forall m i d s, load (length bs) m (s + i) = Ok bs ->
  s + i + Z.of_nat (length bs) <= d + i \/ d + i + Z.of_nat (length bs) <= s + i ->
  move_loop (length bs) i m d s = st_all m (d + i) bs.
Proof.
  induction bs as [|c bs IH]; intros m i d s Hl Hd; [done|]. cbn [length] in *. apply load_cons in Hl as [Hc Hl]. cbn [move_loop st_all].
  rewrite Hc. cbn [obind]. destruct (st1 m (d + i) c) as [m1| | |] eqn:E; cbn [obind]; try done. apply st1_upd in E.
  rewrite IH; [by rewrite Z.add_assoc| |lia]. rewrite Z.add_assoc, <- Hl. apply load_ext. intros x Hx. apply E. lia.
Qed.

Lemma put_loop_st k : forall m i d s, 0 <= i -> i + Z.of_nat k <= slen s ->
  put_loop k i m d s = st_all m (d + i) (take k (drop (Z.to_nat i) s)).
Proof.
  induction k as [|k IH]; intros m i d s Hi Hk; [done|]. unfold slen in *. cbn [put_loop].
  destruct (lookup_lt_is_Some_2 s (Z.to_nat i)) as [c Hc]; [lia|]. unfold chr_at. rewrite (rd_ok _ _ c); [|lia|by apply lookup_app_l_Some].
  cbn [obind]. rewrite (drop_S s c) by done. cbn [take st_all]. destruct (st1 m (d + i) c) as [m1| | |]; cbn [obind]; try done.
  rewrite IH by lia. rewrite Z.add_assoc. replace (Z.to_nat (i + 1)) with (S (Z.to_nat i)) by lia. done.
Qed.

Lemma fetch_loop_spec bs : forall i out m s, load (length bs) m (s + i) = Ok bs -> 0 <= i -> i + Z.of_nat (length bs) <= Z.of_nat (length out) ->
  fetch_loop (length bs) i out m s = Ok (splice out i bs).
Proof.
  induction bs as [|c bs IH]; intros i out m s Hl Hi Hn; cbn [length fetch_loop].
  { unfold splice. cbn [length app]. by rewrite Nat.add_0_r, take_drop. }
  cbn [length] in *. apply load_cons in Hl as [Hc Hl]. rewrite Hc. cbn [obind]. rewrite wr_ok by lia. cbn [obind].
  rewrite IH, splice_cons by (rewrite ?length_insert, ?Z.add_assoc; lia || done). done.
Qed.

Lemma crc_round_shift crc : crc_round crc = crc_shift crc.
Proof. unfold crc_round, crc_shift. rewrite land_1. by destruct (Z.testbit crc 0). Qed.
Lemma crc_rounds_entry n : forall crc, crc_rounds n crc = crc_entry n crc.
Proof. induction n as [|n IH]; intros crc; [done|]. cbn [crc_rounds crc_entry]. by rewrite crc_round_shift, IH. Qed.

Lemma crc_loop_fs_spec bs : forall i crc m d, load (length bs) m (d + i) = Ok bs ->
  crc_loop_fs (length bs) i crc m d = Ok (crc_bitwise crc bs).
Proof.
  induction bs as [|b bs IH]; intros i crc m d Hl; [done|]. cbn [length] in *. apply load_cons in Hl as [Hc Hl].
  cbn [crc_loop_fs]. rewrite Hc. cbn [obind]. rewrite IH by (by rewrite Z.add_assoc). by rewrite crc_rounds_entry.
Qed.

Lemma not_is_xor crc : 0 <= crc < 2 ^ 32 -> u32 (Z.lnot crc) = Z.lxor crc 0xFFFFFFFF.
Proof.
  intros Hc. apply Z.bits_inj'. intros i Hi. unfold u32. change 0xFFFFFFFF with (Z.ones 32).
  rewrite uwrap_testbit, Z.lnot_spec, Z.lxor_spec, Z.testbit_ones_nonneg by lia.
  destruct (Z.ltb_spec i 32); cbn [andb]; [by rewrite xorb_true_r|]. by rewrite (testbit_high 32 crc) by lia.
Qed.

(** ** Agreement with the host buffer *)

Section agreement.
Context (h : heap) (p : Z) (b : Buf) (Hat : buf_at (hmem h) p b).

(** A run of byte stores inside the buffer. *)
Lemma st_all_agrees o vs : 0 <= o -> o + Z.of_nat (length vs) <= bsize b ->
  exists m', st_all (hmem h) (p + o) vs = Ok m' /\ buf_at m' p (mkBuf (bsize b) (splice (bdata b) o (u8 <$> vs))) /\
    upd (hmem h) m' p (bsize b).
Proof.
  intros Ho Hl. pose proof (at_size _ _ _ Hat) as (Hs & _).
  destruct (st_all_spec vs _ _ _ _ o (ba_data _ _ _ Hat) Ho ltac:(lia)) as (m' & He & Hld & Hu). rewrite <- Hs in Hu.
  exists m'. assert (length (splice (bdata b) o (u8 <$> vs)) = length (bdata b)) as Hlen.
  { apply splice_length; [done|]. rewrite length_fmap. lia. }
  split_and!; [done| |done]. apply (buf_at_upd h p b Hat); [done|by rewrite Hlen|done|].
  apply splice_bytes; [apply (ba_ok _ _ _ Hat)|apply u8_bytes].
Qed.

Lemma store_agrees o vs fs host : 0 <= o -> o + Z.of_nat (length vs) <= bsize b ->
  fs = (let! m := st_all (hmem h) (p + o) vs in Ok (set_mem h m)) ->
  host = (let! d := wr_all (bdata b) o (imap (fun i v => (Z.of_nat i, v)) (u8 <$> vs)) in Ok (Some (mkBuf (bsize b) d))) ->
  same_store h p b fs host.
Proof.
  intros Ho Hl -> ->. pose proof (at_size _ _ _ Hat) as (Hs & _). rewrite wr_splice by (rewrite ?length_fmap; lia).
  destruct (st_all_agrees o vs Ho Hl) as (m' & -> & Hat' & Hu). cbn [obind]. eexists _, _. split_and!; done.
Qed.

(** Two chains of stores with the same stores are equal. *)
Ltac same_chain :=
  cbn; change (Z.of_nat 1) with 1; change (Z.of_nat 2) with 2; change (Z.of_nat 3) with 3;
  rewrite ?Z.add_0_r, <- ?Z.add_assoc; change (1 + (1 + 1)) with 3; change (1 + 1) with 2; unfold obind; repeat (case_match; simplify_eq/=; try done).

Lemma field8_agrees o v : 0 <= o < bsize b ->
  same_load (lpp_buf_get8_fs h p o) (lpp_buf_get8 (Some b) o) /\
  same_store h p b (lpp_buf_set8_fs h p o v) (lpp_buf_set8 (Some b) o v).
Proof.
  intros Ho. unfold lpp_buf_get8_fs, lpp_buf_get8, lpp_buf_set8_fs, lpp_buf_set8.
  rewrite (at_nonzero h p b Hat), (proj2 (Z.ltb_ge o 0)), Z.geb_leb, (proj2 (Z.leb_gt _ o)) by lia. cbn [orb]. split.
  - destruct (ld1_agrees h p b Hat o Ho) as (x & -> & -> & _). by exists x.
  - apply (store_agrees o [Z.land v 0xFF]); [lia|cbn [length]; lia|same_chain..].
Qed.

Lemma field16_agrees o v : 0 <= o -> o + 2 <= bsize b ->
  same_load (lpp_buf_get16le_fs h p o) (lpp_buf_get16le (Some b) o) /\
  same_store h p b (lpp_buf_set16le_fs h p o v) (lpp_buf_set16le (Some b) o v).
Proof.
  intros Ho Hle. pose proof (at_size _ _ _ Hat) as (Hs & _ & Hmax).
  unfold lpp_buf_get16le_fs, lpp_buf_get16le, lpp_buf_set16le_fs, lpp_buf_set16le, buf_load, buf_store.
  rewrite (at_nonzero h p b Hat), out_of_bounds_in by lia. cbn [obind]. split.
  - destruct (ld1_agrees h p b Hat o ltac:(lia)) as (x & -> & -> & Hx). destruct (ld1_agrees h p b Hat (o + 1) ltac:(lia)) as (y & Hy & -> & _).
    rewrite <- Z.add_assoc, Hy. cbn [obind]. by eexists.
  - apply (store_agrees o [Z.land v 0xFF; Z.land (Z.shiftr v 8) 0xFF]); [lia|cbn [length]; lia|same_chain|].
    cbn zeta. unfold u16. rewrite (u8_word 16 v 8) by lia. pose proof (u8_word 16 v 0 ltac:(lia) ltac:(lia)) as E.
    rewrite !Z.shiftr_0_r in E. rewrite E. same_chain.
Qed.

Lemma field32_agrees o v : 0 <= o -> o + 4 <= bsize b ->
  same_load (lpp_buf_get32le_fs h p o) (lpp_buf_get32le (Some b) o) /\
  same_store h p b (lpp_buf_set32le_fs h p o v) (lpp_buf_set32le (Some b) o v).
Proof.
  intros Ho Hle. pose proof (at_size _ _ _ Hat) as (Hs & _ & Hmax).
  unfold lpp_buf_get32le_fs, lpp_buf_get32le, lpp_buf_set32le_fs, lpp_buf_set32le, buf_load, buf_store.
  rewrite (at_nonzero h p b Hat), out_of_bounds_in by lia. cbn [obind]. split.
  - destruct (ld1_agrees h p b Hat o ltac:(lia)) as (x & -> & -> & Hx). destruct (ld1_agrees h p b Hat (o + 1) ltac:(lia)) as (y & Hy & -> & Hyr).
    destruct (ld1_agrees h p b Hat (o + 2) ltac:(lia)) as (z & Hz & -> & Hzr). destruct (ld1_agrees h p b Hat (o + 3) ltac:(lia)) as (w & Hw & -> & Hwr).
    rewrite <- !Z.add_assoc, Hy, Hz, Hw. cbn [obind]. unfold u32. rewrite !shl_byte by lia. by eexists.
  - apply (store_agrees o [Z.land v 0xFF; Z.land (Z.shiftr v 8) 0xFF; Z.land (Z.shiftr v 16) 0xFF; Z.land (Z.shiftr v 24) 0xFF]);
      [lia|cbn [length]; lia|same_chain|].
    cbn zeta. unfold u32. rewrite (u8_word 32 v 8), (u8_word 32 v 16), (u8_word 32 v 24) by lia.
    pose proof (u8_word 32 v 0 ltac:(lia) ltac:(lia)) as E. rewrite !Z.shiftr_0_r in E. rewrite E. same_chain.
Qed.
Lemma u8_id vs : bytes_ok vs -> u8 <$> vs = vs.
Proof. induction 1 as [|v vs Hv _ IH]; [done|]. cbn. rewrite IH. unfold u8. by rewrite uwrap_id. Qed.

(** [memcpy] is the splice. *)
Lemma memcpy_splice d o s so k : 0 <= o -> o + k <= Z.of_nat (length d) -> 0 <= so -> so + k <= Z.of_nat (length s) -> 0 <= k < 2 ^ 64 ->
  memcpy d o s so k = Ok (splice d o (take (Z.to_nat k) (drop (Z.to_nat so) s))).
Proof.
  intros. rewrite <- (Z2Nat.id k) at 1 by lia. rewrite memcpy_in by lia. unfold splice. rewrite length_take, length_drop. do 4 f_equal. lia.
Qed.

(** Copying from a second buffer. *)
Lemma copy_agrees q c o so k : buf_at (hmem h) q c -> p + bsize b <= q \/ q + bsize c <= p ->
  0 <= o -> o + k <= bsize b -> 0 <= so -> so + k <= bsize c -> 0 <= k ->
  same_store h p b (lpp_buf_copy_fs h p o q so k) (lpp_buf_copy (Some b) o (Some c) so k).
Proof.
  intros Hq Hsep Ho Hok Hso Hsk Hk. pose proof (at_size _ _ _ Hat) as (Hs & _ & Hm). pose proof (at_size _ _ _ Hq) as (Hs' & _ & Hm').
  set (bs := take (Z.to_nat k) (drop (Z.to_nat so) (bdata c))).
  destruct (load_piece _ _ _ _ so k (ba_data _ _ _ Hq)) as [Hl Hn]; [lia..|]. fold bs in Hl, Hn.
  assert (bytes_ok bs) as Hbs by (apply Forall_take, Forall_drop, (ba_ok _ _ _ Hq)).
  destruct (st_all_agrees o bs Ho ltac:(lia)) as (m' & He & Hat' & Hu). rewrite u8_id in Hat' by done.
  exists (set_mem h m'), (mkBuf (bsize b) (splice (bdata b) o bs)). split_and!; try done.
  - unfold lpp_buf_copy_fs. rewrite (at_nonzero h p b Hat), (at_nonzero h q c Hq). cbn [orb]. destruct (Z.leb_spec k 0).
    + assert (bs = []) as Hnil by (apply nil_length_inv; lia). rewrite Hnil in He. cbn in He. injection He as <-. by destruct h.
    + replace (Z.to_nat k) with (length bs) by lia. rewrite move_loop_st by (rewrite ?Z.add_0_r; done || lia).
      by rewrite Z.add_0_r, He.
  - unfold lpp_buf_copy. rewrite !out_of_bounds_in by lia. cbn [obind]. rewrite memcpy_splice by (pow2; lia). done.
Qed.

(** Writing a string: the same answer whether or not it fits. *)
Lemma write_str_agrees o s : cstr_ok s -> o + slen s <= INT64_MAX ->
  exists r h' b', lpp_buf_write_str_fs h p o (Some s) = Ok (r, h') /\ lpp_buf_write_str (Some b) o (Some s) = Ok (r, Some b') /\
    buf_at (hmem h') p b' /\ bsize b' = bsize b /\ upd (hmem h) (hmem h') p (bsize b).
Proof.
  intros Hs Hmax. pose proof (at_size _ _ _ Hat) as (Hsz & _ & Hm). unfold lpp_buf_write_str_fs, lpp_buf_write_str.
  rewrite (at_nonzero h p b Hat). change (strlen_loop (S (length s)) s 0) with (lpp_strlen (Some s)). rewrite strlen_ok by done.
  rewrite (len_agrees h p b Hat). cbn [obind]. fold (slen s). assert (0 <= slen s) by (unfold slen; lia).
  destruct (decide (0 <= o /\ o + slen s <= bsize b)) as [[Ho Hle]|Hout].
  - rewrite out_of_bounds_in by (pow2; lia). cbn [obind]. destruct (st_all_agrees o s Ho Hle) as (m' & He & Hat' & Hu).
    rewrite u8_id in Hat' by (by apply cstr_bytes). rewrite put_loop_st by lia. rewrite Z.add_0_r, drop_0, take_ge by (unfold slen; lia). rewrite He. cbn [obind].
    rewrite memcpy_splice by (unfold slen in *; pow2; lia). rewrite drop_0, take_ge by (unfold slen; lia). cbn [obind].
    rewrite Z.gtb_ltb, (proj2 (Z.ltb_ge _ (o + slen s))) by lia. eexists _, _, _. split_and!; [reflexivity|reflexivity|done..].
  - rewrite out_of_bounds_out by lia. cbn [obind]. exists (-1), h, b. split_and!; done.
Qed.

Lemma read_str_agrees al o k : al 0%nat (k + 1) = true -> 0 <= o -> 0 < k -> o + k <= bsize b ->
  lpp_buf_read_str_fs al h p o k = lpp_buf_read_str al (Some b) o k.
Proof.
  intros Hal Ho Hk Hle. pose proof (at_size _ _ _ Hat) as (Hsz & _ & Hm). set (bs := take (Z.to_nat k) (drop (Z.to_nat o) (bdata b))).
  destruct (load_piece _ _ _ _ o k (ba_data _ _ _ Hat)) as [Hl Hn]; [lia..|]. fold bs in Hl, Hn.
  unfold lpp_buf_read_str. rewrite <- (Z2Nat.id k) at 2 by lia. rewrite buf_to_str_slice; [|apply Hat|by rewrite Z2Nat.id by lia|done|lia].
  unfold lpp_buf_read_str_fs, unchecked, fresh_str. rewrite (at_nonzero h p b Hat), (proj2 (Z.leb_gt k 0)), chk64_ok by (pow2; lia). cbn [orb obind].
  rewrite Hal. replace (Z.to_nat k) with (length bs) by lia. rewrite fetch_loop_spec by (rewrite ?Z.add_0_r, ?length_replicate; done || lia). cbn [obind].
  rewrite wr_ok by (rewrite splice_length by (rewrite ?length_replicate; lia); rewrite length_replicate; lia). cbn [obind]. do 2 f_equal.
  unfold splice. change (Z.to_nat 0) with 0%nat. rewrite take_0, app_nil_l, Nat.add_0_l, <- Hn, Nat2Z.id.
  rewrite insert_app_r_alt, Nat.sub_diag by done. replace (Z.to_nat (Z.of_nat (length bs) + 1)) with (length bs + 1)%nat by lia.
  rewrite drop_replicate. replace (length bs + 1 - length bs)%nat with 1%nat by lia. cbn [replicate insert list_insert].
  replace (take (length bs) (drop (Z.to_nat o) (bdata b))) with bs by (unfold bs at 1; f_equal; lia).
  generalize bs as l. induction l as [|c l IH]; [done|]. cbn. by destruct (c =? 0); [|rewrite IH].
Qed.

(** The checksum computed without a table is the checksum computed with one. *)
Lemma crc_agrees t off len : crc_inv t -> off + len <= INT64_MAX ->
  exists v t', lpp_buf_crc32_fs h p off len = Ok v /\ lpp_buf_crc32 t (Some b) off len = Ok (v, t').
Proof.
  intros Ht Hmax. pose proof (at_size _ _ _ Hat) as (Hsz & _ & Hm). unfold lpp_buf_crc32_fs, lpp_buf_crc32. rewrite (at_nonzero h p b Hat). cbn [orb].
  destruct (Z.ltb_spec len 0); [rewrite orb_true_r; by eexists _, _|]. rewrite (len_agrees h p b Hat). cbn [obind].
  destruct (Z.ltb_spec off 0) as [|Ho]; [rewrite out_of_bounds_out by lia; by eexists _, _|]. cbn [orb]. rewrite chk64_ok by (pow2; lia). cbn [obind].
  rewrite Z.gtb_ltb. destruct (Z.ltb_spec (bsize b) (off + len)); [rewrite out_of_bounds_out by lia; by eexists _, _|].
  rewrite out_of_bounds_in by (pow2; lia). cbn [obind]. destruct (crc32_init_table_done t Ht) as [-> _].
  destruct (load_piece _ _ _ _ off len (ba_data _ _ _ Hat)) as [Hl Hn]; [lia..|].
  set (bs := take (Z.to_nat len) (drop (Z.to_nat off) (bdata b))) in *.
  assert (bytes_ok bs) by (apply Forall_take, Forall_drop, (ba_ok _ _ _ Hat)).
  rewrite crc_loop_spec by (try lia; apply (ba_ok _ _ _ Hat) || (pow2; lia)). rewrite Z.add_0_r. fold bs. cbn [obind].
  replace (Z.to_nat len) with (length bs) by lia. rewrite crc_loop_fs_spec by (by rewrite Z.add_0_r). cbn [obind].
  rewrite not_is_xor by (apply crc_bitwise_bound; [done|pow2; lia]). by eexists _, _.
Qed.
End agreement.

(** Without a bounds test an offset behind the mapping is a fault, where the host runtime returns 0
    or ignores the store. *)
Lemma unchecked_buffer_access h p b o v : buf_at (hmem h) p b -> bsize b <= o <= INT64_MAX - 4 -> hmem h (p + o) = None ->
  lpp_buf_get8_fs h p o = Undef /\ lpp_buf_set8_fs h p o v = Undef /\
  lpp_buf_get8 (Some b) o = Ok 0 /\ lpp_buf_set8 (Some b) o v = Ok (Some b).
Proof.
  intros Hat Ho Hn. pose proof (at_size _ _ _ Hat) as (_ & ? & _). unfold lpp_buf_get8_fs, lpp_buf_set8_fs, lpp_buf_get8, lpp_buf_set8, ld1, st1, loadw. cbn [load store].
  rewrite (at_nonzero h p b Hat), Hn, (proj2 (Z.ltb_ge o 0)), Z.geb_leb, (proj2 (Z.leb_le _ o)) by lia. done.
Qed.

(** C32. The freestanding buffer, bytes in memory behind a size word and one-line accessors without a
    bounds test, is the host's buffer wherever the host's test passes.  A buffer in memory and the host
    buffer it stands for have the same length; every 8, 16 and 32-bit load inside returns the same value;
    every store inside, a copy from a buffer elsewhere included, leaves the two alike and touches no byte
    outside the data; writing a string gives the same answer also when it does not fit; reading one back
    (its memory served) gives the same string; and the checksum, computed bit by bit here and by table there,
    is the same for every range, valid or not.  (Sums of an offset and a length are within int64_t; the
    host's table is as the program starts or as its first call left it.)  At an offset behind the end the
    two differ: the host answers 0 and stores nothing, here an unmapped byte is a fault. *)
Theorem freestanding_buf_agrees h p b : buf_at (hmem h) p b ->
  lpp_buf_len_fs h p = Ok (lpp_buf_len (Some b)) /\
  (forall o v, 0 <= o -> o + 1 <= bsize b ->
     same_load (lpp_buf_get8_fs h p o) (lpp_buf_get8 (Some b) o) /\
     same_store h p b (lpp_buf_set8_fs h p o v) (lpp_buf_set8 (Some b) o v)) /\
  (forall o v, 0 <= o -> o + 2 <= bsize b ->
     same_load (lpp_buf_get16le_fs h p o) (lpp_buf_get16le (Some b) o) /\
     same_store h p b (lpp_buf_set16le_fs h p o v) (lpp_buf_set16le (Some b) o v)) /\
  (forall o v, 0 <= o -> o + 4 <= bsize b ->
     same_load (lpp_buf_get32le_fs h p o) (lpp_buf_get32le (Some b) o) /\
     same_store h p b (lpp_buf_set32le_fs h p o v) (lpp_buf_set32le (Some b) o v)) /\
  (forall q c o so k, buf_at (hmem h) q c -> p + bsize b <= q \/ q + bsize c <= p ->
     0 <= o -> o + k <= bsize b -> 0 <= so -> so + k <= bsize c -> 0 <= k ->
     same_store h p b (lpp_buf_copy_fs h p o q so k) (lpp_buf_copy (Some b) o (Some c) so k)) /\
  (forall o s, cstr_ok s -> o + slen s <= INT64_MAX ->
     exists r h' b', lpp_buf_write_str_fs h p o (Some s) = Ok (r, h') /\ lpp_buf_write_str (Some b) o (Some s) = Ok (r, Some b') /\
       buf_at (hmem h') p b' /\ bsize b' = bsize b /\ upd (hmem h) (hmem h') p (bsize b)) /\
  (forall al o k, al 0%nat (k + 1) = true -> 0 <= o -> 0 < k -> o + k <= bsize b ->
     lpp_buf_read_str_fs al h p o k = lpp_buf_read_str al (Some b) o k) /\
  (forall t off len, crc_inv t -> off + len <= INT64_MAX ->
     exists v t', lpp_buf_crc32_fs h p off len = Ok v /\ lpp_buf_crc32 t (Some b) off len = Ok (v, t')) /\
  (forall o v, bsize b <= o <= INT64_MAX - 4 -> hmem h (p + o) = None ->
     lpp_buf_get8_fs h p o = Undef /\ lpp_buf_set8_fs h p o v = Undef /\
     lpp_buf_get8 (Some b) o = Ok 0 /\ lpp_buf_set8 (Some b) o v = Ok (Some b)).
Proof.
  intros Hat. split_and!.
  - exact (len_agrees h p b Hat).
  - intros o v H1 H2. apply field8_agrees; [done|lia].
  - intros o v. by apply field16_agrees.
  - intros o v. by apply field32_agrees.
  - intros q c o so k. by apply copy_agrees.
  - intros o s. by apply write_str_agrees.
  - intros al o k. by apply read_str_agrees.
  - intros t off len. by apply crc_agrees.
  - intros o v. by apply unchecked_buffer_access.
Qed.

(** ** The life of a buffer *)

Lemma load_zeros n m p : (forall x, p <= x < p + Z.of_nat n -> m x = Some 0) -> load n m p = Ok (replicate n 0).
Proof.
  intros H. rewrite <- (length_replicate n 0) at 1. apply load_from. rewrite length_replicate. intros o Ho.
  rewrite H by lia. by rewrite lookup_replicate_2.
Qed.

(** An allocation that is granted yields a zeroed buffer and leaves all other memory alone; freeing
    it, whatever was stored in it, restores the memory of before: the length unmapped is the length
    mapped. *)
Theorem buffer_lifetime os `{!Kernel os} h size : 0 < size <= INT64_MAX - 8 ->
  lpp_buf_alloc_fs os h size = Ok (0, h) \/
  exists p h1, lpp_buf_alloc_fs os h size = Ok (p, h1) /\ buf_at (hmem h1) p (mkBuf size (replicate (Z.to_nat size) 0)) /\
    (forall x, is_Some (hmem h x) -> hmem h1 x = hmem h x) /\
    forall m2, upd (hmem h1) m2 p size -> exists h3, lpp_buf_free_fs (set_mem h1 m2) p = Ok h3 /\ forall x, hmem h3 x = hmem h x.
Proof.
  intros Hsz. unfold lpp_buf_alloc_fs. rewrite (proj2 (Z.leb_gt size 0)), chk64_ok by (pow2; lia). cbn [obind].
  rewrite u64_id by (pow2; lia). pose proof (page_round_eq (size + 8) ltac:(pow2; lia)) as Hpr. set (t := lpp_page_round (size + 8)) in *.
  unfold lpp_sys_mmap. destruct (os (hmem h) t) as [a|] eqn:Eos; [|by left]. destruct (kernel_fresh _ _ _ Eos) as (Hal & Hlo & Hhi & Hnone).
  rewrite (proj2 (Z.eqb_neq a 0)) by lia. cbn [hmem set_mem].
  assert (accessible (map_zero (hmem h) a t) a t) as Hacc by (intros x Hx; rewrite mmap_mem by dlia; by eexists).
  destruct (storew_spec 8 (map_zero (hmem h) a t) a size) as (m1 & -> & Hu & Hl); [eapply accessible_sub; [exact Hacc|dlia..]|]. cbn [obind].
  right. exists (a + 8), (set_mem (set_mem h (map_zero (hmem h) a t)) m1). split; [done|]. cbn [hmem set_mem].
  assert (forall x, a + 8 <= x < a + t -> m1 x = Some 0) as Hz by (intros x Hx; rewrite (proj1 Hu), mmap_mem by dlia; done).
  rewrite uwrap_id in Hl by (cbn; pow2; lia). change (Z.of_nat 8) with 8 in *. split_and!.
  - split; cbn [bsize bdata]; [lia|by replace (a + 8 - 8) with a by lia|rewrite length_replicate; apply load_zeros; intros; apply Hz; dlia|].
    split_and!; cbn [bsize bdata]; [rewrite length_replicate; lia|lia|by apply Forall_replicate].
  - intros x Hx. assert (~ (a <= x < a + t)) by (intros H; rewrite (Hnone x H) in Hx; by destruct Hx).
    rewrite (proj1 Hu) by dlia. unfold map_zero. destruct (Z.leb_spec a x), (Z.ltb_spec x (a + t)); done || lia.
  - intros m2 Hu2. unfold lpp_buf_free_fs. rewrite (proj2 (Z.eqb_neq (a + 8) 0)) by lia. cbn [hmem set_mem].
    replace (a + 8 - 8) with a by lia. rewrite (loadw_upd _ _ _ _ _ _ Hu2) by lia. rewrite Hl. cbn [obind].
    rewrite i64_id, chk64_ok by (pow2; lia). cbn [obind]. rewrite u64_id by (pow2; lia). fold t. eexists. split; [done|]. intros x.
    unfold lpp_sys_munmap. rewrite (proj2 (Z.eqb_neq t 0)), Hal by dlia. cbn [orb negb Z.eqb hmem set_mem].
    replace ((t + 4095) / 4096 * 4096) with t by dlia.
    destruct (Z.leb_spec a x), (Z.ltb_spec x (a + t)); cbn [andb]; [by rewrite Hnone by lia|..];
      rewrite (proj1 Hu2), (proj1 Hu) by dlia; unfold map_zero;
      destruct (Z.leb_spec a x), (Z.ltb_spec x (a + t)); done || lia.
Qed.


(** ** Integers and the clock *)

(** The integer helpers are those of the host. *)
Lemma freestanding_pow_agrees base exp : lpp_int_pow_fs base exp = lpp_int_pow base exp.
Proof.
  unfold lpp_int_pow_fs, lpp_int_pow. generalize 64%nat as f, 1 as r. intros f. revert base exp.
  induction f as [|f IH]; intros base exp r; [done|]. cbn [pow_loop_fs pow_loop]. destruct (exp >? 0); [|done].
  destruct (if negb (Z.land exp 1 =? 0) then _ else _); cbn [obind]; try done. by destruct (chk64 (base * base)); cbn [obind].
Qed.

(** After a successful [clock_gettime] the seconds are lost: the clock runs from 0 to 999 and
    starts again. *)
Lemma time_ms_loses_seconds s ns : 0 <= ns < 1000000000 -> lpp_time_ms_fs 0 s ns = ns / 1000000 /\ 0 <= lpp_time_ms_fs 0 s ns < 1000.
Proof. intros H. unfold lpp_time_ms_fs. rewrite u64_id, i64_id by (pow2; dlia). dlia. Qed.

(** Sleeping asks for exactly the given time, in the normal form the kernel requires. *)
Lemma sleep_ms_exact ms : 0 <= ms <= INT64_MAX ->
  let '(s, ns) := lpp_sleep_ms_fs ms in s * 1000000000 + ns = ms * 1000000 /\ 0 <= ns < 1000000000.
Proof.
  intros H. unfold lpp_sleep_ms_fs. rewrite Z.quot_div_nonneg, Z.rem_mod_nonneg by lia. rewrite !u64_id by (pow2; dlia). dlia.
Qed.

Lemma freestanding_buf_agrees_witness :
  exists h h', lpp_buf_alloc_fs first_fit heap0 9 = Ok (0x100008, h) /\ lpp_buf_len_fs h 0x100008 = Ok 9 /\
    lpp_buf_set32le_fs h 0x100008 3 0x12345678 = Ok h' /\ load 9 (hmem h') 0x100008 = Ok [0; 0; 0; 0x78; 0x56; 0x34; 0x12; 0; 0].
Proof.
  exists (heap_of (lpp_buf_alloc_fs first_fit heap0 9)). set (h := heap_of _).
  assert (buf_at (hmem h) 0x100008 (mkBuf 9 (replicate 9 0))) as Hat.
  { split; [discriminate|vm_compute; reflexivity..|]. split_and!; [reflexivity|vm_compute; discriminate|repeat constructor; lia]. }
  destruct (freestanding_buf_agrees h 0x100008 _ Hat) as (H1 & _ & _ & H2 & _).
  destruct (H2 3 0x12345678) as [_ (h' & b' & E & E' & Hat' & _)]; [discriminate|discriminate|].
  exists h'. split; [apply ptr_heap; [vm_compute; reflexivity|discriminate]|]. split; [exact H1|]. split; [exact E|].
  vm_compute in E'. injection E' as <-. exact (ba_data _ _ _ Hat').
Defined.
