(* ===== verification/FreeTask.v ===== *)
(** * Closures, tuples, tasks and slices of the freestanding runtime (runtime/linux_x86_64_min.c)

    The same objects as in [Task], laid out in the byte memory of [FreeAlloc]: fields are words
    at their offsets, destructors read them and call [lpp_arc_release], and the code of a task is
    called through its pointer ([call]: the compiled program, acting on the whole heap).  The
    destructors the runtime registers are known by the addresses in [codes].  The theorems relate
    an object in memory to the value of the host model it stands for.  Strings that slices refer to
    are read from memory; lists are given by [lists], as in [FreeList]. *)

From stdpp Require Import relations.
From S2P Require Import Prelude CInt FreeMap ListRt FreeList Arc Task FreeAlloc FreeRun.

(** Where the linker put the destructors. *)
Record codes := mk_codes { closure_code : Z; tuple_code : Z; task_code : Z }.

(** Field offsets of [LppTuplePrefix] and [LppTask]. *)
Definition off_managed_mask : Z := 0.
Definition off_packed_offsets : Z := 8.
Definition off_code : Z := 0.
Definition off_environment : Z := 8.
Definition off_result : Z := 16.
Definition off_state : Z := 24.
Definition off_result_managed : Z := 32.
Definition sizeof_task : Z := 40.

(** An [int64_t] field. *)
Definition ldi (m : memory) (a : Z) : outcome Z := let! v := loadw 8 m a in Ok (i64 v).
Definition sti (h : heap) (a v : Z) : outcome heap := let! m := storew 8 (hmem h) a v in Ok (set_mem h m).

(** ** Destructors *)

Section destructors.
Context (release : heap -> Z -> outcome heap).

Definition lpp_closure_destroy_fs (h : heap) (closure : Z) : outcome heap :=
  if closure =? 0 then Ok h
  else let! env := loadw 8 (hmem h) (closure + 8) in release h env.

(** From field [i] on, [k] fields left. *)
Fixpoint tuple_loop_fs (k : nat) (i : Z) (h : heap) (payload : Z) : outcome heap :=
  match k with
  | O => Ok h
  | S k =>
      let! mask := loadw 8 (hmem h) (payload + off_managed_mask) in
      if Z.land mask (Z.shiftl 1 i) =? 0 then tuple_loop_fs k (i + 1) h payload
      else
        let! offsets := loadw 8 (hmem h) (payload + off_packed_offsets) in
        let offset := Z.land (Z.shiftr offsets (i * 16)) 0xffff in
        let! child := loadw 8 (hmem h) (payload + offset) in
        let! h := release h child in
        tuple_loop_fs k (i + 1) h payload
  end.
Definition lpp_tuple_destroy_fs (h : heap) (payload : Z) : outcome heap :=
  if payload =? 0 then Ok h else tuple_loop_fs 4 0 h payload.

Definition lpp_task_payload_destroy_fs (h : heap) (payload : Z) : outcome heap :=
  if payload =? 0 then Ok h
  else
    let! env := loadw 8 (hmem h) (payload + off_environment) in
    let! h := (if negb (env =? 0) then
                 let! h := release h env in sti h (payload + off_environment) 0
               else Ok h) in
    let! state := ldi (hmem h) (payload + off_state) in
    if state =? 2 then
      let! managed := ldi (hmem h) (payload + off_result_managed) in
      let! result := ldi (hmem h) (payload + off_result) in
      if negb (managed =? 0) && negb (result =? 0) then
        let! h := release h result in sti h (payload + off_result) 0
      else Ok h
    else Ok h.
End destructors.

(** A destructor pointer is one of the runtime's or of the program's ([user]). *)
Definition run_destructor (cs : codes) (user : Z -> heap -> Z -> outcome heap) (release : heap -> Z -> outcome heap)
    (d : Z) (h : heap) (payload : Z) : outcome heap :=
  if d =? closure_code cs then lpp_closure_destroy_fs release h payload
  else if d =? tuple_code cs then lpp_tuple_destroy_fs release h payload
  else if d =? task_code cs then lpp_task_payload_destroy_fs release h payload
  else user d h payload.

(** [lpp_arc_release] with the destructors of the runtime in place: destructors release, releases
    run destructors. *)
Fixpoint arc_release (cs : codes) (user : Z -> heap -> Z -> outcome heap) (fuel : nat) (h : heap) (payload : Z) : outcome heap :=
  match fuel with
  | O => NoFuel
  | S fuel => lpp_arc_release_fs (run_destructor cs user (arc_release cs user fuel)) (S fuel) h payload
  end.

(** ** Tuples and tasks *)

Definition lpp_tuple_alloc_fs (cs : codes) (os : kernel) (h : heap) (size mask offsets : Z) : outcome (Z * heap) :=
  if size <? 16 then exit_101
  else
    let! '(tuple, h) := lpp_arc_alloc_with_destructor_fs os h size (tuple_code cs) in
    if tuple =? 0 then exit_101
    else
      let! h := sti h (tuple + off_managed_mask) mask in
      let! h := sti h (tuple + off_packed_offsets) offsets in
      Ok (tuple, h).

Definition lpp_task_new_fs (cs : codes) (os : kernel) (h : heap) (code environment managed : Z) : outcome (Z * heap) :=
  if (code =? 0) || (environment =? 0) then exit_101
  else
    let! '(task, h) := lpp_arc_alloc_with_destructor_fs os h sizeof_task (task_code cs) in
    if task =? 0 then exit_101
    else
      let! h := sti h (task + off_code) code in
      let! h := sti h (task + off_environment) environment in
      let! h := sti h (task + off_result_managed) (b2z (negb (managed =? 0))) in
      Ok (task, h).

Section tasks.
Context (call : Z -> heap -> Z -> outcome (Z * heap)).

Definition lpp_task_poll_fs (h : heap) (task : Z) : outcome (Z * heap) :=
  if task =? 0 then exit_101
  else
    let! state := ldi (hmem h) (task + off_state) in
    if state =? 1 then exit_101
    else if state =? 2 then Ok (1, h)
    else
      let! h := sti h (task + off_state) 1 in
      let! code := loadw 8 (hmem h) (task + off_code) in
      let! env := loadw 8 (hmem h) (task + off_environment) in
      let! '(r, h) := call code h env in
      let! h := sti h (task + off_result) r in
      let! h := sti h (task + off_state) 2 in
      Ok (1, h).

Definition lpp_executor_run_fs (h : heap) (task : Z) : outcome (Z * heap) :=
  let! '(_, h) := lpp_task_poll_fs h task in
  let! r := ldi (hmem h) (task + off_result) in Ok (r, h).

Definition lpp_task_await_fs (h : heap) (task : Z) : outcome (Z * heap) :=
  let! '(result, h) := lpp_executor_run_fs h task in
  let! managed := ldi (hmem h) (task + off_result_managed) in
  if negb (managed =? 0) && negb (result =? 0) then
    let! h := lpp_arc_retain_fs h result in Ok (result, h)
  else Ok (result, h).
End tasks.

Definition lpp_task_destroy_fs (cs : codes) (user : Z -> heap -> Z -> outcome heap) (fuel : nat) (h : heap) (raw : Z) : outcome heap :=
  arc_release cs user fuel h raw.

(** ** Slices *)

(** [while (p[n]) n++]. *)
Fixpoint strlen_mem (fuel : nat) (m : memory) (p n : Z) : outcome Z :=
  match fuel with
  | O => NoFuel
  | S fuel => let! c := loadw 1 m (p + n) in if negb (c =? 0) then strlen_mem fuel m p (n + 1) else Ok n
  end.

(** [for (i = 0; i < length; i++) result[i] = base[start + i]]. *)
Fixpoint slice_loop (k : nat) (i : Z) (out : list Z) (m : memory) (base start : Z) : outcome (list Z) :=
  match k with
  | O => Ok out
  | S k => let! c := loadw 1 m (base + (start + i)) in let! out := wr out i c in slice_loop k (i + 1) out m base start
  end.

Section slices.
Context (h : heap) (lists : Z -> option LppList_fs).

Definition lpp_slice_checked_base_fs (view : option LppSlice) : outcome Z :=
  match view with
  | None => exit_101
  | Some v =>
      if (sbase v =? 0) || (sgeneration v =? 0) then exit_101
      else
        let! raw := lpp_weak_get_fs h (sbase v) (sgeneration v) in
        if raw =? 0 then exit_101 else Ok raw
  end.

Definition lpp_slice_init_fs (fuel : nat) (storage : bool) (base start length kind : Z) : outcome LppSlice :=
  if negb storage || (base =? 0) || (start <? 0) || (length <? 0) || (start >? INT64_MAX - length) then exit_101
  else
    let! source_length :=
      (if kind =? 0 then strlen_mem fuel (hmem h) base 0
       else match lists base with Some l => Ok (lpp_list_len_fs (Some l)) | None => Undef end) in
    if (start >? source_length) || (length >? source_length - start) then exit_101
    else
      let! generation := lpp_weak_generation_fs h base in
      if generation =? 0 then exit_101 else Ok (mk_slice base start length generation kind).

Definition lpp_slice_len_fs (raw : option LppSlice) : outcome Z :=
  let! _b := lpp_slice_checked_base_fs raw in
  match raw with Some v => Ok (slength v) | None => Undef end.

Definition lpp_slice_get_fs (raw : option LppSlice) (index : Z) : outcome Z :=
  let! base := lpp_slice_checked_base_fs raw in
  match raw with
  | None => Undef
  | Some v =>
      if negb (skind v =? 1) || (index <? 0) || (index >=? slength v) then exit_101
      else match lists base with
           | Some l => let! i := chk64 (sstart v + index) in lpp_list_get_fs (Some l) i
           | None => Undef
           end
  end.
Definition lpp_slice_get_float_fs (raw : option LppSlice) (index : Z) : outcome Z :=
  let! bits := lpp_slice_get_fs raw index in Ok (u64 bits).
Definition lpp_slice_get_bool_fs (raw : option LppSlice) (index : Z) : outcome Z :=
  let! v := lpp_slice_get_fs raw index in Ok (b2z (negb (v =? 0))).

(** The block [result] of a new string, filled; [granted] is whether [lpp_arc_alloc] serves it. *)
Definition lpp_str_slice_get_fs (granted : bool) (raw : option LppSlice) (index : Z) : outcome (list Z) :=
  let! base := lpp_slice_checked_base_fs raw in
  match raw with
  | None => Undef
  | Some v =>
      if negb (skind v =? 0) || (index <? 0) || (index >=? slength v) then exit_101
      else if negb granted then exit_101
      else
        let! i := chk64 (sstart v + index) in
        let! c := loadw 1 (hmem h) (base + i) in
        let! out := wr [0; 0] 0 c in
        wr out 1 0
  end.

Definition lpp_str_slice_to_str_fs (granted : bool) (raw : option LppSlice) : outcome (list Z) :=
  let! base := lpp_slice_checked_base_fs raw in
  match raw with
  | None => Undef
  | Some v =>
      if negb (skind v =? 0) then exit_101
      else
        let! size := chk64 (slength v + 1) in
        if negb granted then exit_101
        else
          let! out := slice_loop (Z.to_nat (slength v)) 0 (replicate (Z.to_nat size) 0) (hmem h) base (sstart v) in
          wr out (slength v) 0
  end.
End slices.

(** A tuple of a managed and a plain field, shared once and then dropped: its child goes with it,
    and both blocks are free again. *)
Example tuple_release_cascades :
  let cs := mk_codes 1 2 3 in
  let user := fun (_ : Z) (h : heap) (_ : Z) => Ok h in
  (let! '(c, h) := lpp_arc_alloc_fs first_fit heap0 8 in
   let! '(t, h) := lpp_tuple_alloc_fs cs first_fit h 32 1 16 in
   let! h := sti h (t + 16) c in
   let! h := sti h (t + 24) 7 in
   let! h := lpp_arc_retain_fs h t in
   let! h := arc_release cs user 9 h t in
   let! kept := ldi (hmem h) (t + 24) in
   let before := lpp_free_lists h in
   let! h := arc_release cs user 9 h t in
   Ok (kept, before, lpp_free_lists h)) = Ok (7, [0; 0; 0; 0; 0; 0; 0; 0], [0x100000; 0x100020; 0; 0; 0; 0; 0; 0]).
Proof. vm_compute. reflexivity. Qed.

(** ** Fields *)

Lemma loadw_mapped n m a w : loadw n m a = Ok w -> accessible m a (Z.of_nat n).
Proof. unfold loadw. destruct (load n m a) eqn:E; try done. intros _. by eapply load_mapped. Qed.

Lemma ldi_load m a v : ldi m a = Ok v -> exists w, loadw 8 m a = Ok w /\ v = i64 w.
Proof. unfold ldi. destruct (loadw 8 m a); try done. intros [= <-]. by eexists. Qed.

(** Overwriting a word that can be read. *)
Lemma sti_spec h a v w : loadw 8 (hmem h) a = Ok w ->
  exists h', sti h a v = Ok h' /\ upd (hmem h) (hmem h') a 8 /\ loadw 8 (hmem h') a = Ok (u64 v) /\ h' = set_mem h (hmem h').
Proof.
  intros Hw. destruct (storew_spec 8 (hmem h) a v) as (m' & He & Hu & Hl); [by eapply loadw_mapped|].
  exists (set_mem h m'). unfold sti. rewrite He. done.
Qed.

Lemma ldi_upd m m' a n b : upd m m' a n -> b + 8 <= a \/ a + n <= b -> ldi m' b = ldi m b.
Proof. intros Hu Hd. unfold ldi. by rewrite (loadw_upd _ _ _ _ _ _ Hu) by done. Qed.

(** ** Tasks in memory *)

Record task_at (m : memory) (p code : Z) (t : LppTask) : Prop := {
  ta_ptr : p <> 0;
  ta_code : loadw 8 m (p + off_code) = Ok code;
  ta_env : loadw 8 m (p + off_environment) = Ok (environment t);
  ta_result : ldi m (p + off_result) = Ok (result t);
  ta_state : ldi m (p + off_state) = Ok (tstate t);
  ta_managed : exists v, ldi m (p + off_result_managed) = Ok v /\ negb (v =? 0) = result_managed t
}.

Ltac offs := unfold off_code, off_environment, off_result, off_state, off_result_managed, off_managed_mask, off_packed_offsets in *.

(** The fields other than the one just stored. *)
Ltac kept Hu := rewrite ?(loadw_upd _ _ _ _ _ _ Hu), ?(ldi_upd _ _ _ _ _ Hu) by (offs; lia).

Section one_task.
Context (h : heap) (p code : Z) (t : LppTask) (Ht : task_at (hmem h) p code t).

Lemma store_state s : INT64_MIN <= s <= INT64_MAX ->
  exists h', sti h (p + off_state) s = Ok h' /\ task_at (hmem h') p code (set_tstate t s) /\ upd (hmem h) (hmem h') (p + off_state) 8.
Proof.
  intros Hs. destruct Ht as [Hp Hc He Hr Hst (v & Hm & Hv)]. destruct (ldi_load _ _ _ Hst) as (w & Hw & _).
  destruct (sti_spec h _ s w Hw) as (h' & -> & Hu & Hl & _). exists h'. split_and!; [done| |done].
  split; [done|kept Hu; done..| |exists v; kept Hu; done]. unfold ldi. rewrite Hl. cbn [obind]. by rewrite i64_u64, i64_id.
Qed.

Lemma store_result r : INT64_MIN <= r <= INT64_MAX ->
  exists h', sti h (p + off_result) r = Ok h' /\ task_at (hmem h') p code (set_result t r) /\ upd (hmem h) (hmem h') (p + off_result) 8.
Proof.
  intros Hs. destruct Ht as [Hp Hc He Hr Hst (v & Hm & Hv)]. destruct (ldi_load _ _ _ Hr) as (w & Hw & _).
  destruct (sti_spec h _ r w Hw) as (h' & -> & Hu & Hl & _). exists h'. split_and!; [done| |done].
  split; [done|kept Hu; done..| |kept Hu; done|exists v; kept Hu; done]. unfold ldi. rewrite Hl. cbn [obind]. by rewrite i64_u64, i64_id.
Qed.

Lemma store_environment e : 0 <= e < 2 ^ 64 ->
  exists h', sti h (p + off_environment) e = Ok h' /\ task_at (hmem h') p code (mk_task e (result t) (tstate t) (result_managed t)) /\
    upd (hmem h) (hmem h') (p + off_environment) 8.
Proof.
  intros Hs. destruct Ht as [Hp Hc He Hr Hst (v & Hm & Hv)].
  destruct (sti_spec h _ e _ He) as (h' & -> & Hu & Hl & _). exists h'. split_and!; [done| |done].
  split; [done|kept Hu; done| |kept Hu; done|kept Hu; done|exists v; kept Hu; done]. rewrite Hl. cbn. by rewrite u64_id.
Qed.

Lemma task_zero : (p =? 0) = false.
Proof. apply Z.eqb_neq, Ht. Qed.
End one_task.

(** Polling: a task that runs exits, a finished one is left alone, a new one is run. *)
Lemma poll_running call h p code t : task_at (hmem h) p code t -> tstate t = 1 -> lpp_task_poll_fs call h p = exit_101.
Proof. intros Ht Hs. unfold lpp_task_poll_fs. rewrite (task_zero _ _ _ _ Ht), (ta_state _ _ _ _ Ht), Hs. done. Qed.
Lemma poll_done call h p code t : task_at (hmem h) p code t -> tstate t = 2 -> lpp_task_poll_fs call h p = Ok (1, h).
Proof. intros Ht Hs. unfold lpp_task_poll_fs. rewrite (task_zero _ _ _ _ Ht), (ta_state _ _ _ _ Ht), Hs. done. Qed.

(** The code of the task, started with the task marked as running, returns [r] and leaves the
    task's own fields alone. *)
Definition behaves (call : Z -> heap -> Z -> outcome (Z * heap)) (h : heap) (p code : Z) (t : LppTask) (r : Z) : Prop :=
  forall h1, upd (hmem h) (hmem h1) (p + off_state) 8 -> task_at (hmem h1) p code (set_tstate t 1) ->
    exists h2, call code h1 (environment t) = Ok (r, h2) /\ task_at (hmem h2) p code (set_tstate t 1).

Lemma poll_new call h p code t r : task_at (hmem h) p code t -> tstate t = 0 -> behaves call h p code t r -> INT64_MIN <= r <= INT64_MAX ->
  exists h', lpp_task_poll_fs call h p = Ok (1, h') /\ task_at (hmem h') p code (poll_leave t r).
Proof.
  intros Ht Hs Hb Hr. unfold lpp_task_poll_fs. rewrite (task_zero _ _ _ _ Ht), (ta_state _ _ _ _ Ht), Hs. cbn [obind Z.eqb].
  destruct (store_state h p code t Ht 1) as (h1 & -> & Ht1 & Hu1); [pow2; lia|]. cbn [obind].
  rewrite (ta_code _ _ _ _ Ht1), (ta_env _ _ _ _ Ht1). cbn [obind environment set_tstate].
  destruct (Hb h1 Hu1 Ht1) as (h2 & -> & Ht2). cbn [obind].
  destruct (store_result h2 p code _ Ht2 r Hr) as (h3 & -> & Ht3 & _). cbn [obind].
  destruct (store_state h3 p code _ Ht3 2) as (h4 & -> & Ht4 & _); [pow2; lia|]. cbn [obind]. exists h4. by destruct t.
Qed.

Lemma run_done call h p code t : task_at (hmem h) p code t -> tstate t = 2 -> lpp_executor_run_fs call h p = Ok (result t, h).
Proof. intros Ht Hs. unfold lpp_executor_run_fs. rewrite (poll_done call h p code t) by done. cbn [obind]. by rewrite (ta_result _ _ _ _ Ht). Qed.

Lemma await_done call h p code t : task_at (hmem h) p code t -> tstate t = 2 ->
  lpp_task_await_fs call h p =
    if result_managed t && negb (result t =? 0) then let! h := lpp_arc_retain_fs h (result t) in Ok (result t, h) else Ok (result t, h).
Proof.
  intros Ht Hs. unfold lpp_task_await_fs. rewrite (run_done call h p code t) by done. cbn [obind].
  destruct (ta_managed _ _ _ _ Ht) as (v & -> & Hv). cbn [obind]. by rewrite Hv.
Qed.

(** Making a task. *)
Lemma task_new_spec cs os `{!Kernel os} h live free code env managed : heap_ok h live free -> 0 < code < 2 ^ 64 -> 0 < env < 2 ^ 64 ->
  lpp_task_new_fs cs os h code env managed = exit_101 \/
  exists p h', lpp_task_new_fs cs os h code env managed = Ok (p, h') /\ task_at (hmem h') p code (mk_task env 0 0 (negb (managed =? 0))) /\
    untouched live h h'.
Proof.
  intros Hh Hc He. unfold lpp_task_new_fs. rewrite (proj2 (Z.eqb_neq code 0)), (proj2 (Z.eqb_neq env 0)) by lia. cbn [orb].
  destruct (alloc_spec os h live free sizeof_task (task_code cs) Hh) as [->|(b & h1 & free' & -> & Hb & _ & Hok & Hf & Hun & _)]; [done|by left|].
  right. cbn [obind]. unfold sizeof_header in *. rewrite (proj2 (Z.eqb_neq (b + 24) 0)) by lia. set (p := b + 24).
  pose proof (fo_size _ _ _ _ _ _ Hf) as Hsz. pose proof (fo_zero _ _ _ _ _ _ Hf) as Hz. unfold sizeof_header, sizeof_task in *.
  assert (forall o, 0 <= o <= 32 -> loadw 8 (hmem h1) (p + o) = Ok 0) as Hw.
  { intros o Ho. unfold loadw. change (Ok 0) with (let! bs := Ok (replicate 8 0) in Ok (le_value bs)). f_equal.
    apply (load_from (hmem h1) (p + o) (replicate 8 0)). intros j Hj. cbn in Hj. rewrite Hz by (unfold p; lia).
    by rewrite lookup_replicate_2. }
  destruct (sti_spec h1 (p + off_code) code 0) as (h2 & -> & U2 & L2 & _); [apply Hw; offs; lia|]. cbn [obind].
  destruct (sti_spec h2 (p + off_environment) env 0) as (h3 & -> & U3 & L3 & _); [kept U2; apply Hw; offs; lia|]. cbn [obind].
  destruct (sti_spec h3 (p + off_result_managed) (b2z (negb (managed =? 0))) 0) as (h4 & -> & U4 & L4 & _); [kept U3; kept U2; apply Hw; offs; lia|].
  cbn [obind]. exists p, h4. split; [done|]. split.
  - split; cbn [environment result tstate result_managed]; [unfold p; lia|..|].
    + kept U4. kept U3. rewrite L2. by rewrite u64_id by lia.
    + kept U4. rewrite L3. by rewrite u64_id by lia.
    + kept U4. kept U3. kept U2. unfold ldi. by rewrite Hw by (offs; lia).
    + kept U4. kept U3. kept U2. unfold ldi. by rewrite Hw by (offs; lia).
    + exists (b2z (negb (managed =? 0))). unfold ldi. rewrite L4. by destruct (managed =? 0).
  - intros b' k' x Hin Hx. rewrite <- (Hun b' k' x Hin Hx).
    destruct (live_parts _ _ _ _ _ Hok) as (_ & _ & _ & _ & _ & _ & Hsep). apply Forall_cons in Hsep as [_ Hsep].
    apply Forall_app in Hsep as [Hsep _]. unfold extents in Hsep. rewrite Forall_fmap, Forall_forall in Hsep. specialize (Hsep _ Hin).
    unfold sep in Hsep. cbn in Hsep. rewrite (proj1 U4), (proj1 U3), (proj1 U2) by (offs; unfold p; lia). done.
Qed.

Lemma task_destroy_spec release h p code t h1 h2 : task_at (hmem h) p code t -> environment t <> 0 ->
  release h (environment t) = Ok h1 -> task_at (hmem h1) p code t -> sti h1 (p + off_environment) 0 = Ok h2 ->
  lpp_task_payload_destroy_fs release h p =
    match lpp_task_payload_destroy (Some t) with
    | [_; Release x] => let! h3 := release h2 x in sti h3 (p + off_result) 0
    | _ => Ok h2
    end.
Proof.
  intros Ht He Hr Ht1 Hs. unfold lpp_task_payload_destroy_fs, lpp_task_payload_destroy.
  rewrite (task_zero _ _ _ _ Ht), (ta_env _ _ _ _ Ht). cbn [obind]. rewrite (proj2 (Z.eqb_neq (environment t) 0)) by done. cbn [negb].
  rewrite Hr. cbn [obind]. destruct (store_environment h1 p code t Ht1 0) as (h2' & Hs' & Ht2 & _); [pow2; lia|].
  rewrite Hs in Hs'. injection Hs' as <-. rewrite Hs. cbn [obind]. rewrite (ta_state _ _ _ _ Ht2). cbn [obind tstate].
  destruct (tstate t =? 2); [|done]. destruct (ta_managed _ _ _ _ Ht2) as (v & -> & Hv). cbn [obind result_managed] in *.
  rewrite (ta_result _ _ _ _ Ht2). cbn [obind result]. rewrite Hv. by destruct (result_managed t && negb (result t =? 0)) eqn:E; cbn [andb]; rewrite E.
Qed.

(** A freestanding task behaves like the host's.  Making one exits or yields a task with nothing
    run and all other objects untouched.  When it is polled and its code, run with the task marked as
    running, returns without writing to the task, the task is complete with that result as in the
    host model; from then on polling never calls any code again, running returns the result, awaiting
    also takes a reference to a managed one, and the destructor releases the environment, clears the
    field, and releases the result exactly when the host does.  Polling a task that is running exits. *)
Theorem freestanding_task_agrees cs os `{!Kernel os} h live code env managed :
  rtc (mstep os) (heap0, []) (h, live) -> 0 < code < 2 ^ 64 -> 0 < env < 2 ^ 64 ->
  let t0 := mk_task env 0 0 (negb (managed =? 0)) in
  lpp_task_new_fs cs os h code env managed = exit_101 \/
  exists p h0, lpp_task_new_fs cs os h code env managed = Ok (p, h0) /\ task_at (hmem h0) p code t0 /\ untouched live h h0 /\
    (forall c h1, task_at (hmem h1) p code (set_tstate t0 1) -> lpp_task_poll_fs c h1 p = exit_101) /\
    forall call h1 r, task_at (hmem h1) p code t0 -> behaves call h1 p code t0 r -> INT64_MIN <= r <= INT64_MAX ->
    exists h2 t, lpp_task_poll_fs call h1 p = Ok (1, h2) /\ lpp_task_poll (fun _ _ => Ok r) (Some t0) = Ok (1, t) /\
      task_at (hmem h2) p code t /\
      (forall c, lpp_task_poll_fs c h2 p = Ok (1, h2) /\ lpp_executor_run_fs c h2 p = Ok (r, h2) /\
         lpp_task_await_fs c h2 p =
           if negb (managed =? 0) && negb (r =? 0) then let! h3 := lpp_arc_retain_fs h2 r in Ok (r, h3) else Ok (r, h2)) /\
      (forall release h3 h4, release h2 env = Ok h3 -> task_at (hmem h3) p code t -> sti h3 (p + off_environment) 0 = Ok h4 ->
         lpp_task_payload_destroy_fs release h2 p =
           match lpp_task_payload_destroy (Some t) with
           | [_; Release x] => let! h5 := release h4 x in sti h5 (p + off_result) 0
           | _ => Ok h4
           end).
Proof.
  intros Hreach Hc He t0. destruct (heap_reachable_ok os _ Hreach) as [free Hh]. cbn [fst snd] in Hh.
  destruct (task_new_spec cs os h live free code env managed Hh Hc He) as [->|(p & h0 & -> & Ht0 & Hun)]; [by left|]. right.
  exists p, h0. split_and!; [done|done|done| |].
  - intros c h1 Ht1. by eapply poll_running.
  - intros call h1 r Ht1 Hb Hr. destruct (poll_new call h1 p code t0 r Ht1 eq_refl Hb Hr) as (h2 & Hp & Ht2).
    exists h2, (poll_leave t0 r). split_and!; [done|done|done| |].
    + intros c. split_and!; [by eapply poll_done|by eapply (run_done c h2 p code (poll_leave t0 r))|].
      by eapply (await_done c h2 p code (poll_leave t0 r)).
    + intros release h3 h4 Hr1 Ht3 Hs. eapply (task_destroy_spec release h2 p code (poll_leave t0 r)); try done. cbn. lia.
Qed.

Lemma freestanding_task_agrees_witness :
  exists p h0 h2, lpp_task_new_fs (mk_codes 1 2 3) first_fit heap0 0x401000 0x100018 0 = Ok (p, h0) /\
    lpp_task_poll_fs (fun _ h e => Ok (e + 1, h)) h0 p = Ok (1, h2).
Proof.
  destruct (freestanding_task_agrees (mk_codes 1 2 3) first_fit heap0 [] 0x401000 0x100018 0) as [E|(p & h0 & H1 & H2 & _ & _ & H3)].
  - apply rtc_refl.
  - lia.
  - lia.
  - apply (f_equal ptr_of) in E. vm_compute in E. discriminate.
  - destruct (H3 (fun _ h e => Ok (e + 1, h)) h0 0x100019 H2) as (h2 & t & Hp & _).
    + intros h1 _ Ht. exists h1. exact (conj eq_refl Ht).
    + vm_compute. split; discriminate.
    + exists p, h0, h2. exact (conj H1 Hp).
Defined.

(** ** Tuples *)

(** The releases of a list of events, one after the other, each keeping [keep]. *)
Fixpoint releases (release : heap -> Z -> outcome heap) (keep : heap -> Prop) (evs : list arc_ev) (h h' : heap) : Prop :=
  match evs with
  | [] => h' = h
  | Release x :: evs => exists h1, release h x = Ok h1 /\ keep h1 /\ releases release keep evs h1 h'
  | Retain _ :: _ => False
  end.

Lemma word_in_memory m p bs off w : load (length bs) m p = Ok bs -> word_at bs off = Ok w -> loadw 8 m (p + off) = Ok w.
Proof.
  intros Hl Hw. unfold word_at in Hw. destruct ((off <? 0) || (off + 8 >? Z.of_nat (length bs))) eqn:E; [done|]. bool_to_prop. injection Hw as <-.
  destruct (load_piece _ _ _ _ off 8 Hl) as [Hp Hn]; [lia..|]. change (Z.to_nat 8) with 8%nat in *. unfold loadw.
  assert (length (take 8 (drop (Z.to_nat off) bs)) = 8%nat) as Hk by lia. rewrite Hk in Hp. by rewrite Hp.
Qed.

Lemma tuple_loop_agrees release p bs mask offsets k : forall i evs h h',
  word_at bs 0 = Ok mask -> word_at bs 8 = Ok offsets -> load (length bs) (hmem h) p = Ok bs ->
  tuple_destroy_loop bs mask offsets (seqZ i (Z.of_nat k)) = Ok evs ->
  releases release (fun h => load (length bs) (hmem h) p = Ok bs) evs h h' -> tuple_loop_fs release k i h p = Ok h'.
Proof.
  induction k as [|k IH]; intros i evs h h' Hm Ho Hl Hd Hr.
  { cbn in Hd. injection Hd as <-. cbn in Hr. by subst h'. }
  rewrite seqZ_cons in Hd by lia. replace (Z.pred (Z.of_nat (S k))) with (Z.of_nat k) in Hd by lia. replace (Z.succ i) with (i + 1) in Hd by lia.
  cbn [tuple_loop_fs tuple_destroy_loop] in *. offs. rewrite (word_in_memory _ _ _ _ _ Hl Hm). cbn [obind].
  destruct (Z.land mask (Z.shiftl 1 i) =? 0); [by eapply IH|]. rewrite (word_in_memory _ _ _ _ _ Hl Ho). cbn [obind].
  destruct (word_at bs (Z.land (Z.shiftr offsets (i * 16)) 65535)) as [c| | |] eqn:Ec; try done. cbn [obind] in Hd.
  rewrite (word_in_memory _ _ _ _ _ Hl Ec). cbn [obind].
  destruct (tuple_destroy_loop bs mask offsets (seqZ (i + 1) (Z.of_nat k))) as [evs'| | |] eqn:Ed; try done. cbn [obind] in Hd. injection Hd as <-.
  cbn [releases] in Hr. destruct Hr as (h1 & -> & Hk & Hr). cbn [obind]. by eapply IH.
Qed.

Lemma sti_bytes h a v w : loadw 8 (hmem h) a = Ok w ->
  exists h', sti h a v = Ok h' /\ upd (hmem h) (hmem h') a 8 /\ load 8 (hmem h') a = Ok (le_bytes 8 (u64 v)).
Proof.
  intros Hw. destruct (store_spec (le_bytes 8 v) (hmem h) a) as (m' & He & Hu & Hl); [rewrite le_bytes_length; by eapply loadw_mapped|].
  rewrite le_bytes_length in *. exists (set_mem h m'). unfold sti, storew. rewrite He. split_and!; [done|done|].
  cbn [hmem set_mem]. rewrite Hl. f_equal. symmetry. apply (le_bytes_wrap 8).
Qed.

Lemma load_join m a bs cs : load (length bs) m a = Ok bs -> load (length cs) m (a + Z.of_nat (length bs)) = Ok cs -> load (length (bs ++ cs)) m a = Ok (bs ++ cs).
Proof. intros H1 H2. rewrite length_app, load_app, H1. cbn [obind]. by rewrite H2. Qed.

Lemma tuple_alloc_spec cs os `{!Kernel os} h live free size mask offsets : heap_ok h live free -> 16 <= size <= INT64_MAX ->
  lpp_tuple_alloc_fs cs os h size mask offsets = exit_101 \/
  exists p h' bs, lpp_tuple_alloc_fs cs os h size mask offsets = Ok (p, h') /\ p <> 0 /\ lpp_tuple_alloc true size mask offsets = Ok bs /\
    load (length bs) (hmem h') p = Ok bs /\ loadw 8 (hmem h') (p - sizeof_header + off_destructor) = Ok (u64 (tuple_code cs)).
Proof.
  intros Hh Hsz. unfold lpp_tuple_alloc_fs, lpp_tuple_alloc. rewrite (proj2 (Z.ltb_ge size 16)) by lia. cbn [negb].
  destruct (alloc_spec os h live free size (tuple_code cs) Hh) as [->|(b & h1 & free' & -> & Hb & _ & _ & Hf & _)]; [lia|by left|].
  right. cbn [obind]. unfold sizeof_header in *. rewrite (proj2 (Z.eqb_neq (b + 24) 0)) by lia. set (p := b + 24).
  pose proof (fo_size _ _ _ _ _ _ Hf) as Hn. pose proof (fo_zero _ _ _ _ _ _ Hf) as Hz. unfold sizeof_header in *.
  assert (accessible (hmem h1) p size) as Hacc by (intros x Hx; rewrite Hz by (unfold p in *; lia); by eexists).
  destruct (loadw_accessible 8 (hmem h1) (p + off_managed_mask)) as [w1 Hw1]; [offs; eapply accessible_sub; [exact Hacc|cbn; lia..]|].
  destruct (loadw_accessible 8 (hmem h1) (p + off_packed_offsets)) as [w2 Hw2]; [offs; eapply accessible_sub; [exact Hacc|cbn; lia..]|].
  destruct (sti_bytes h1 (p + off_managed_mask) mask w1 Hw1) as (h2 & -> & U2 & L2). cbn [obind].
  destruct (sti_bytes h2 (p + off_packed_offsets) offsets w2) as (h3 & -> & U3 & L3); [kept U2; done|]. cbn [obind].
  eexists p, h3, _. split; [done|]. split; [unfold p; lia|]. split; [done|]. split.
  - apply load_join; [|apply load_join]; rewrite ?le_bytes_length.
    + rewrite (load_ext 8 (hmem h2)) by (intros x Hx; apply U3; offs; lia). offs. by rewrite Z.add_0_r in L2.
    + exact L3.
    + rewrite length_replicate. rewrite (load_ext _ (hmem h1)).
      2: { intros x Hx. rewrite (proj1 U3), (proj1 U2) by (offs; lia). done. }
      rewrite <- (length_replicate (Z.to_nat (size - 16)) 0) at 1. apply load_from. rewrite length_replicate. intros o Ho.
      rewrite Hz by (unfold p; lia). by rewrite lookup_replicate_2.
  - pose proof (fo_destructor _ _ _ _ _ _ Hf) as Hd. unfold off_destructor in *. replace (p - 24 + 16) with (b + 16) by (unfold p; lia).
    unfold p in *. kept U3. kept U2. done.
Qed.

(** A freestanding tuple is the host's tuple laid out in memory.  Allocation exits or yields a
    payload whose bytes are those of the host model, registered with the tuple destructor; and
    whatever the program has stored in it since, the destructor performs exactly the releases of the
    host's destructor on the same bytes, in the same order, provided each release leaves the tuple's
    own bytes alone; it returns when they do.  (It reads mask and offsets again before each release.)
    A closure's destructor releases its environment. *)
Theorem freestanding_tuple_agrees cs os `{!Kernel os} h live size mask offsets :
  rtc (mstep os) (heap0, []) (h, live) -> 16 <= size <= INT64_MAX ->
  lpp_tuple_alloc_fs cs os h size mask offsets = exit_101 \/
  exists p h1 bs, lpp_tuple_alloc_fs cs os h size mask offsets = Ok (p, h1) /\ p <> 0 /\ lpp_tuple_alloc true size mask offsets = Ok bs /\
    load (length bs) (hmem h1) p = Ok bs /\ loadw 8 (hmem h1) (p - sizeof_header + off_destructor) = Ok (u64 (tuple_code cs)) /\
    (forall release h2 h3 bs2 evs, load (length bs2) (hmem h2) p = Ok bs2 -> lpp_tuple_destroy (Some bs2) = Ok evs ->
       releases release (fun h => load (length bs2) (hmem h) p = Ok bs2) evs h2 h3 -> lpp_tuple_destroy_fs release h2 p = Ok h3) /\
    (forall release h2 env, loadw 8 (hmem h2) (p + 8) = Ok env ->
       lpp_closure_destroy_fs release h2 p = match lpp_closure_destroy (Some (0, env)) with [Release x] => release h2 x | _ => Ok h2 end).
Proof.
  intros Hreach Hsz. destruct (heap_reachable_ok os _ Hreach) as [free Hh]. cbn [fst snd] in Hh.
  destruct (tuple_alloc_spec cs os h live free size mask offsets Hh Hsz) as [->|(p & h1 & bs & -> & Hp & Ha & Hl & Hd)]; [by left|]. right.
  exists p, h1, bs. split_and!; try done.
  - intros release h2 h3 bs2 evs Hl2 He Hr. unfold lpp_tuple_destroy_fs, lpp_tuple_destroy in *. rewrite (proj2 (Z.eqb_neq p 0)) by done.
    destruct (word_at bs2 0) as [m| | |] eqn:Em; try done. destruct (word_at bs2 8) as [o| | |] eqn:Eo; try done. cbn [obind] in He.
    by eapply (tuple_loop_agrees release p bs2 m o 4 0).
  - intros release h2 env He. unfold lpp_closure_destroy_fs. rewrite (proj2 (Z.eqb_neq p 0)) by done. by rewrite He.
Qed.

Lemma freestanding_tuple_agrees_witness :
  exists p h1 bs, lpp_tuple_alloc_fs (mk_codes 1 2 3) first_fit heap0 32 1 16 = Ok (p, h1) /\ lpp_tuple_alloc true 32 1 16 = Ok bs /\
    load (length bs) (hmem h1) p = Ok bs /\
    forall h3, lpp_tuple_destroy_fs (fun h x => if x =? 0 then Ok h else Undef) h1 p = Ok h3 -> h3 = h1.
Proof.
  destruct (freestanding_tuple_agrees (mk_codes 1 2 3) first_fit heap0 [] 32 1 16) as [E|(p & h1 & bs & H1 & _ & H2 & H3 & _ & H4 & _)].
  - apply rtc_refl.
  - vm_compute. split; discriminate.
  - apply (f_equal ptr_of) in E. vm_compute in E. discriminate.
  - exists p, h1, bs. split_and!; [exact H1|exact H2|exact H3|]. intros h3.
    rewrite (H4 (fun h x => if x =? 0 then Ok h else Undef) h1 h1 bs [Release 0] H3).
    + intros [= <-]. reflexivity.
    + vm_compute in H2. injection H2 as <-. vm_compute. reflexivity.
    + exists h1. split_and!; [reflexivity|exact H3|reflexivity].
Defined.

(** ** Slices of strings *)

(** A NUL-terminated string at an address. *)
Definition str_at (m : memory) (a : Z) (s : cstr) : Prop := load (length (s ++ [0])) m a = Ok (s ++ [0]) /\ cstr_ok s.

Lemma load1_lookup n m a bs o x : load n m a = Ok bs -> 0 <= o < Z.of_nat n -> bs !! Z.to_nat o = Some x -> loadw 1 m (a + o) = Ok x.
Proof.
  intros Hl Ho Hx. pose proof (load_lookup _ _ _ _ (Z.to_nat o) Hl ltac:(lia)) as H. rewrite Z2Nat.id, Hx in H by lia.
  unfold loadw. cbn [load]. rewrite H. cbn [obind le_value]. by rewrite Z.shiftl_0_l, Z.lor_0_r.
Qed.

Lemma str_at_char m a s o x : str_at m a s -> 0 <= o -> s !! Z.to_nat o = Some x -> loadw 1 m (a + o) = Ok x.
Proof.
  intros [Hl _] Ho Hx. apply lookup_lt_Some in Hx as Hlt. eapply load1_lookup; [exact Hl|rewrite length_app; cbn [length]; lia|by apply lookup_app_l_Some].
Qed.

Lemma strlen_mem_spec m a s : str_at m a s -> forall fuel i, (i <= length s)%nat -> (length s - i < fuel)%nat ->
  strlen_mem fuel m a (Z.of_nat i) = Ok (Z.of_nat (length s)).
Proof.
  intros Hs. induction fuel as [|fuel IH]; intros i Hi Hf; [lia|]. cbn [strlen_mem]. destruct (decide (i = length s)) as [->|].
  - rewrite (load1_lookup (length (s ++ [0])) m a (s ++ [0]) _ 0); [done|apply Hs|rewrite length_app; cbn [length]; lia|].
    rewrite Nat2Z.id. by rewrite lookup_app_r, Nat.sub_diag by lia.
  - destruct (lookup_lt_is_Some_2 s i) as [c Hc]; [lia|]. rewrite (str_at_char m a s _ c Hs) by (rewrite ?Nat2Z.id; lia || done). cbn [obind].
    pose proof (proj1 (Forall_lookup _ _) (proj2 Hs) _ _ Hc) as Hr. cbn beta in Hr. rewrite (proj2 (Z.eqb_neq c 0)) by lia. cbn [negb].
    replace (Z.of_nat i + 1) with (Z.of_nat (S i)) by lia. apply IH; lia.
Qed.

Lemma slice_loop_spec m a s : str_at m a s -> forall k i out start, 0 <= start -> start + Z.of_nat (i + k) <= Z.of_nat (length s) ->
  (i + k <= length out)%nat ->
  slice_loop k (Z.of_nat i) out m a start = Ok (take i out ++ take k (drop (Z.to_nat start + i) s) ++ drop (i + k) out).
Proof.
  intros Hs. induction k as [|k IH]; intros i out start Hst Hle Hout; cbn [slice_loop].
  { by rewrite take_0, app_nil_l, Nat.add_0_r, take_drop. }
  destruct (lookup_lt_is_Some_2 s (Z.to_nat start + i)) as [c Hc]; [lia|].
  rewrite (str_at_char m a s _ c Hs) by (lia || (by replace (Z.to_nat (start + Z.of_nat i)) with (Z.to_nat start + i)%nat by lia)). cbn [obind].
  rewrite wr_ok by lia. cbn [obind]. rewrite Nat2Z.id. replace (Z.of_nat i + 1) with (Z.of_nat (S i)) by lia.
  rewrite IH by (rewrite ?length_insert; lia). rewrite (drop_S s c (Z.to_nat start + i)) by done. cbn [take].
  rewrite (take_S_r _ _ c) by (apply list_lookup_insert_eq; lia). rewrite take_insert_ge, drop_insert_lt by lia.
  rewrite <- (assoc_L (++)). cbn [app]. rewrite Nat.add_succ_r, Nat.add_succ_comm. done.
Qed.

(** A handle just taken is good. *)
Lemma weak_get_self h p g : lpp_weak_generation_fs h p = Ok g -> g <> 0 -> p <> 0 -> lpp_weak_get_fs h p g = Ok p.
Proof.
  intros Hg Hne Hp. unfold lpp_weak_generation_fs, lpp_weak_get_fs in *. rewrite (proj2 (Z.eqb_neq p 0)) in * by done.
  rewrite (proj2 (Z.eqb_neq g 0)) by done. cbn [orb]. destruct (lpp__is_immortal_fs (hmem h) (p - sizeof_header)) as [[]| | |]; try done; cbn [obind] in *.
  - injection Hg as <-. done.
  - destruct (loadw 4 _ _) as [w| | |]; try done. cbn [obind] in *. injection Hg as <-. by rewrite Z.eqb_refl.
Qed.

Section one_slice.
Context (lists : Z -> option LppList_fs) (p start len g kind : Z) (Hp : p <> 0) (Hg : g <> 0).

Lemma base_alive h : lpp_weak_generation_fs h p = Ok g -> lpp_slice_checked_base_fs h (Some (mk_slice p start len g kind)) = Ok p.
Proof.
  intros H. unfold lpp_slice_checked_base_fs. cbn [sbase sgeneration]. rewrite (proj2 (Z.eqb_neq p 0)), (proj2 (Z.eqb_neq g 0)) by done. cbn [orb].
  rewrite (weak_get_self h p g) by done. cbn [obind]. by rewrite (proj2 (Z.eqb_neq p 0)).
Qed.
Lemma base_dead h : lpp_weak_get_fs h p g = Ok 0 -> lpp_slice_checked_base_fs h (Some (mk_slice p start len g kind)) = exit_101.
Proof.
  intros H. unfold lpp_slice_checked_base_fs. cbn [sbase sgeneration]. rewrite (proj2 (Z.eqb_neq p 0)), (proj2 (Z.eqb_neq g 0)) by done. cbn [orb].
  by rewrite H.
Qed.
End one_slice.

Lemma to_str_alive h p start len g s : p <> 0 -> g <> 0 -> lpp_weak_generation_fs h p = Ok g -> str_at (hmem h) p s ->
  0 <= start -> 0 <= len -> start + len <= Z.of_nat (length s) -> len < INT64_MAX ->
  lpp_str_slice_to_str_fs h true (Some (mk_slice p start len g 0)) = Ok (take (Z.to_nat len) (drop (Z.to_nat start) s) ++ [0]).
Proof.
  intros Hp Hg Hgen Hs H1 H2 H3 H4. unfold lpp_str_slice_to_str_fs. rewrite (base_alive p start len g 0 Hp Hg h Hgen). cbn [obind skind slength sstart].
  change (negb (0 =? 0)) with false. cbn iota. rewrite chk64_ok by (pow2; lia). cbn [obind negb].
  pose proof (slice_loop_spec (hmem h) p s Hs (Z.to_nat len) 0 (replicate (Z.to_nat (len + 1)) 0) start H1) as Hloop. change (Z.of_nat 0) with 0 in Hloop.
  rewrite Hloop by (rewrite ?length_replicate; lia). cbn [obind Nat.add]. rewrite take_0, app_nil_l, Nat.add_0_r.
  assert (length (take (Z.to_nat len) (drop (Z.to_nat start) s)) = Z.to_nat len) as Hlen by (rewrite length_take, length_drop; lia).
  rewrite drop_replicate. replace (Z.to_nat (len + 1) - Z.to_nat len)%nat with 1%nat by lia. cbn [replicate].
  rewrite wr_ok by (rewrite length_app, Hlen; cbn [length]; lia). rewrite insert_app_r_alt by lia. by rewrite Hlen, Nat.sub_diag.
Qed.

Lemma str_get_alive h p start len g s i : p <> 0 -> g <> 0 -> lpp_weak_generation_fs h p = Ok g -> str_at (hmem h) p s ->
  0 <= start -> 0 <= len -> start + len <= Z.of_nat (length s) -> start + len <= INT64_MAX ->
  lpp_str_slice_get_fs h true (Some (mk_slice p start len g 0)) i =
    if (i <? 0) || (i >=? len) then exit_101 else Ok [default 0 (s !! Z.to_nat (start + i)); 0].
Proof.
  intros Hp Hg Hgen Hs H1 H2 H3 H4. unfold lpp_str_slice_get_fs. rewrite (base_alive p start len g 0 Hp Hg h Hgen). cbn [obind skind slength sstart].
  change (negb (0 =? 0)) with false. cbn [orb]. destruct ((i <? 0) || (i >=? len)) eqn:E; [done|]. bool_to_prop. cbn [negb].
  rewrite chk64_ok by (pow2; lia). cbn [obind]. destruct (lookup_lt_is_Some_2 s (Z.to_nat (start + i))) as [c Hc]; [lia|].
  rewrite (str_at_char _ _ _ _ c Hs) by (done || lia). cbn [obind]. rewrite Hc. done.
Qed.

(** Every use of a slice, when its base cannot be had. *)
Definition no_use (h : heap) (lists : Z -> option LppList_fs) (v : LppSlice) (r : forall A, outcome A) : Prop :=
  lpp_slice_len_fs h (Some v) = r Z /\ forall granted i,
    lpp_str_slice_to_str_fs h granted (Some v) = r (list Z) /\ lpp_str_slice_get_fs h granted (Some v) i = r (list Z) /\
    lpp_slice_get_fs h lists (Some v) i = r Z.

Lemma uses_dead h lists p start len g kind : p <> 0 -> g <> 0 -> lpp_weak_get_fs h p g = Ok 0 ->
  no_use h lists (mk_slice p start len g kind) (fun A => exit_101).
Proof.
  intros Hp Hg Hd. pose proof (base_dead p start len g kind Hp Hg h Hd) as Hb.
  unfold no_use, lpp_slice_len_fs, lpp_str_slice_to_str_fs, lpp_str_slice_get_fs, lpp_slice_get_fs. by rewrite Hb.
Qed.
Lemma uses_fault h lists b start len g kind : 4096 <= b -> g <> 0 -> hmem h b = None ->
  no_use h lists (mk_slice (b + sizeof_header) start len g kind) (fun A => Undef).
Proof.
  intros Hb Hg Hm. unfold no_use, lpp_slice_len_fs, lpp_str_slice_to_str_fs, lpp_str_slice_get_fs, lpp_slice_get_fs, lpp_slice_checked_base_fs.
  cbn [sbase sgeneration]. rewrite (proj2 (Z.eqb_neq (b + sizeof_header) 0)), (proj2 (Z.eqb_neq g 0)) by (done || unfold sizeof_header; lia).
  unfold lpp_weak_get_fs, lpp__is_immortal_fs, loadw, off_magic. replace (b + sizeof_header - sizeof_header + 0) with b by lia. cbn [load]. rewrite Hm.
  by rewrite (proj2 (Z.eqb_neq (b + sizeof_header) 0)), (proj2 (Z.eqb_neq g 0)) by (done || unfold sizeof_header; lia).
Qed.

(** Making a slice of a live object that holds the string [s]. *)
Lemma slice_init_spec h lists sfuel p s start len g : p <> 0 -> g <> 0 -> lpp_weak_generation_fs h p = Ok g -> str_at (hmem h) p s ->
  (length s < sfuel)%nat -> Z.of_nat (length s) < INT64_MAX -> len <= INT64_MAX ->
  lpp_slice_init_fs h lists sfuel true p start len 0 =
    if (0 <=? start) && (0 <=? len) && (start + len <=? Z.of_nat (length s)) then Ok (mk_slice p start len g 0) else exit_101.
Proof.
  intros Hp Hg Hgen Hs Hsf Hlen Hl. unfold lpp_slice_init_fs. rewrite (proj2 (Z.eqb_neq p 0)) by done. rewrite Z.gtb_ltb. cbn [negb orb].
  destruct (Z.leb_spec 0 start); [|by rewrite (proj2 (Z.ltb_lt start 0)) by lia]. rewrite (proj2 (Z.ltb_ge start 0)) by lia.
  destruct (Z.leb_spec 0 len); [|by rewrite (proj2 (Z.ltb_lt len 0)) by lia]. rewrite (proj2 (Z.ltb_ge len 0)) by lia. cbn [orb andb].
  destruct (Z.ltb_spec (INT64_MAX - len) start) as [|Hsum]; [by rewrite (proj2 (Z.leb_gt _ _)) by lia|].
  change (0 =? 0) with true. cbn iota. pose proof (strlen_mem_spec _ _ s Hs sfuel 0 ltac:(lia) ltac:(lia)) as Hn. change (Z.of_nat 0) with 0 in Hn.
  rewrite Hn. cbn [obind]. rewrite !Z.gtb_ltb. destruct (Z.leb_spec (start + len) (Z.of_nat (length s))).
  - rewrite !(proj2 (Z.ltb_ge _ _)) by lia. cbn [orb]. rewrite Hgen. cbn [obind]. by rewrite (proj2 (Z.eqb_neq g 0)).
  - destruct (Z.ltb_spec (Z.of_nat (length s)) start); [done|]. by rewrite (proj2 (Z.ltb_lt _ len)) by lia.
Qed.

(** C23. A borrowed string slice reads its source or stops the program, over any run of a program as in
    C11 (no arenas, fewer than 2^31 objects, at most 2^30 references to each).  It is made exactly when
    the range lies in the string its object holds; any other pair of 64-bit numbers exits with status
    101.  At every later moment of the run, whatever objects were made, shared, released or destroyed
    meanwhile: while the object lives and holds a string of at least that extent, the slice has its
    length, its conversion is that piece of the string and each index inside it reads that character (101
    for an index outside, and when the new string is refused memory); once the object is gone, an object
    of a size class makes every use of the slice exit with status 101 instead of reading the recycled
    block; an object with its own mapping makes every use a fault while nothing else is mapped
    there. *)
Theorem freestanding_slice_safe os `{!Kernel os} run fuel lists h live dy b k g s start len sfuel :
  (2 <= fuel)%nat -> prun os run fuel (heap0, [], []) (h, live, dy) -> (b, k, g) ∈ live ->
  let p := b + sizeof_header in let v := mk_slice p start len g 0 in
  let inside := (0 <=? start) && (0 <=? len) && (start + len <=? Z.of_nat (length s)) in
  str_at (hmem h) p s -> sizeof_header + Z.of_nat (length s) < bsize k -> (length s < sfuel)%nat -> len <= INT64_MAX ->
  lpp_slice_init_fs h lists sfuel true p start len 0 = (if inside then Ok v else exit_101) /\
  (inside = true -> forall h2 live2 dy2, prun os run fuel (h, live, dy) (h2, live2, dy2) ->
    if decide ((b, k, g) ∈ live2) then
      lpp_slice_len_fs h2 (Some v) = Ok len /\
      forall s2 granted, str_at (hmem h2) p s2 -> start + len <= Z.of_nat (length s2) ->
        lpp_str_slice_to_str_fs h2 granted (Some v) =
          (if granted then Ok (take (Z.to_nat len) (drop (Z.to_nat start) s2) ++ [0]) else exit_101) /\
        forall i, lpp_str_slice_get_fs h2 granted (Some v) i =
          if (i <? 0) || (i >=? len) || negb granted then exit_101 else Ok [default 0 (s2 !! Z.to_nat (start + i)); 0]
    else match k with
         | Small _ => no_use h2 lists v (fun A => exit_101)
         | Big _ => hmem h2 b = None -> no_use h2 lists v (fun A => Undef)
         end).
Proof.
  intros Hf Hr Hin p v inside Hs Hfit Hsf Hlen.
  destruct (prun_ok os run fuel Hf _ _ Hr _ run_start_ok) as (free & Hok & _). unfold state_ok in Hok. cbn [fst snd] in Hok.
  destruct (live_facts _ _ _ _ _ _ _ Hok Hin) as (_ & Hg & _ & Hlo & _). assert (g <> 0) as Hg0 by lia.
  assert (p <> 0) as Hp by (unfold p, sizeof_header; lia).
  assert (Z.of_nat (length s) < 2 ^ 47) as Hs47.
  { pose proof (bo_mapped _ _ _ _ (ho_blocks _ _ _ (ro_heap _ _ _ _ Hok))) as Hmap. rewrite Forall_forall in Hmap.
    destruct (Hmap (b, bsize k)) as (_ & _ & H47 & _); [apply elem_of_app; left; by eapply elem_extents, live_block|].
    unfold sizeof_header in Hfit. cbn in H47. lia. }
  split; [apply (slice_init_spec h lists sfuel p s start len g Hp Hg0); try done; [by eapply live_read|pow2; lia]|].
  intros Hi h2 live2 dy2 H2. unfold inside in Hi. bool_to_prop.
  destruct (prun_ok os run fuel Hf _ _ H2 _ Hok) as (free2 & Hok2 & _ & Ht). unfold state_ok in Hok2. cbn [fst snd] in *. destruct (decide _) as [Hl|Hl].
  - destruct (live_read _ _ _ _ _ _ _ Hok2 Hl) as [Hgen _]. fold p in Hgen. split.
    { unfold lpp_slice_len_fs, v. by rewrite (base_alive p start len g 0 Hp Hg0 h2 Hgen). }
    intros s2 [] Hs2 Hle.
    + split; [apply to_str_alive; done || (pow2; lia)|]. intros i. rewrite orb_false_r. apply str_get_alive; done || (pow2; lia).
    + unfold lpp_str_slice_to_str_fs, lpp_str_slice_get_fs, v. rewrite (base_alive p start len g 0 Hp Hg0 h2 Hgen). cbn [obind skind slength sstart].
      change (negb (0 =? 0)) with false. cbn iota. rewrite chk64_ok by (pow2; lia). cbn [obind negb orb]. split; [done|]. intros i.
      rewrite orb_true_r. by destruct (_ || _).
  - destruct k as [c|t]; [|intros Hm; by apply uses_fault]. apply uses_dead; [done..|].
    unfold p. rewrite (tracked_read h2 live2 dy2 free2 b c g) by (done || lia || (apply Ht; by left)). by rewrite decide_False.
Qed.

(** The slice "BC" of "ABCD" in the first object of the example run, which is then released for the
    last time; its block goes to another object. *)
Definition abcd_mem : memory := got (fun _ => None) (storew 4 (hmem run1) 0x100018 0x44434241).
Definition abcd_run : pstate := (set_mem run1 abcd_mem, [obj1], []).
Definition abcd1 : heap := got heap0 (last_drop false (set_mem run1 abcd_mem) 0x100000).
Definition abcd1m : memory := got (fun _ => None) (storew 8 (hmem abcd1) 0x100018 5).
Definition abcd2 : heap := got heap0 (lpp_arc_release_fs scribble 2 (set_mem run1 abcd_mem) 0x100018).
Definition abcd3 : heap := heap_of (lpp_arc_alloc_with_destructor_fs first_fit abcd2 5 0).

Lemma abcd_start : prun_demo (heap0, [], []) abcd_run.
Proof.
  eapply r_then; [exact run_to_1|].
  apply (r_write first_fit scribble 2 run1 abcd_mem [obj1] [] 0x100000 (Small 0) 0x100018 4 0x44434241); [by left|done|done|].
  apply got_ok. by vm_compute.
Qed.
Lemma abcd_to_2 : prun_demo abcd_run (abcd2, [], []).
Proof.
  apply (r_last first_fit scribble 2 false (set_mem run1 abcd_mem) abcd1 (set_mem abcd1 abcd1m) abcd2 [obj1] [] [] [] 0x100000 (Small 0) 2); [done|by vm_compute|..].
  - apply got_ok. by vm_compute.
  - exists 7. split; [by vm_compute|]. change (negb (7 =? 0)) with true. cbn iota. unfold scribble. change (7 =? 7) with true. cbn iota.
    replace (storew 8 (hmem abcd1) (0x100000 + sizeof_header) 5) with (Ok abcd1m); [done|]. symmetry. apply got_ok. by vm_compute.
  - apply (r_write first_fit scribble 2 abcd1 abcd1m [] [(0x100000, Small 0)] 0x100000 (Small 0) 0x100018 8 5); [by left|done|done|].
    apply got_ok. by vm_compute.
  - apply got_ok. by vm_compute.
Qed.
Lemma abcd_to_3 : prun_demo abcd_run (abcd3, [obj2], []).
Proof.
  eapply r_then; [exact abcd_to_2|].
  apply (r_alloc first_fit scribble 2 abcd2 abcd3 [] [] 5 0 0x100000); [done|by vm_compute|apply ok_heap; [vm_compute; reflexivity|done]|done].
Qed.

Lemma freestanding_slice_safe_witness :
  lpp_slice_init_fs (set_mem run1 abcd_mem) (fun _ => None) 9 true 0x100018 1 2 0 = Ok (mk_slice 0x100018 1 2 2 0) /\
  lpp_slice_init_fs (set_mem run1 abcd_mem) (fun _ => None) 9 true 0x100018 3 2 0 = exit_101 /\
  lpp_str_slice_to_str_fs (set_mem run1 abcd_mem) true (Some (mk_slice 0x100018 1 2 2 0)) = Ok [66; 67; 0] /\
  lpp_str_slice_get_fs (set_mem run1 abcd_mem) true (Some (mk_slice 0x100018 1 2 2 0)) 1 = Ok [67; 0] /\
  prun_demo abcd_run (abcd2, [], []) /\ prun_demo abcd_run (abcd3, [obj2], []) /\
  no_use abcd2 (fun _ => None) (mk_slice 0x100018 1 2 2 0) (fun A => exit_101) /\
  no_use abcd3 (fun _ => None) (mk_slice 0x100018 1 2 2 0) (fun A => exit_101).
Proof.
  assert (str_at (hmem (set_mem run1 abcd_mem)) (0x100000 + sizeof_header) [65; 66; 67; 68]) as Hs.
  { split; [by vm_compute|]. by repeat constructor. }
  destruct (freestanding_slice_safe first_fit scribble 2 (fun _ => None) (set_mem run1 abcd_mem) [obj1] [] 0x100000 (Small 0) 2 [65; 66; 67; 68] 1 2 9)
    as [H1 H2]; [lia|exact abcd_start|by left|exact Hs|by vm_compute|cbn; lia|by vm_compute|].
  destruct (freestanding_slice_safe first_fit scribble 2 (fun _ => None) (set_mem run1 abcd_mem) [obj1] [] 0x100000 (Small 0) 2 [65; 66; 67; 68] 3 2 9)
    as [H3 _]; [lia|exact abcd_start|by left|exact Hs|by vm_compute|cbn; lia|by vm_compute|].
  specialize (H2 eq_refl). destruct (H2 _ _ _ (r_done _ _ _ _)) as [_ H4]. destruct (H4 _ true Hs) as [H5 H6]; [done|].
  split; [exact H1|]. split; [exact H3|]. split; [exact H5|]. split; [exact (H6 1)|].
  split; [exact abcd_to_2|]. split; [exact abcd_to_3|]. split; [exact (H2 _ _ _ abcd_to_2)|exact (H2 _ _ _ abcd_to_3)].
Defined.
