(* ===== verification/FreeIO.v ===== *)
(** * Files, sockets and the console of the freestanding runtime (runtime/linux_x86_64_min.c)

    The system calls are a parameter ([sys]) of the builtins.  The theorems are about kernels that do what
    the manual says ([posix]), on a world of files by name, open descriptors with their positions, and what
    was sent on each socket and written to the console.  Where the manual leaves the kernel free it is an
    argument ([choices]): which calls it refuses and with which error, which descriptor [open] returns, if any, and how
    many of the bytes asked for a transfer moves (fewer than asked for, or an error number).  A string returned by a function is a literal
    of the program ([Literal], not a counted object) or an owned block.

    That no descriptor is lost does not depend on any of this: it is proved for every kernel that keeps
    the table of descriptors as documented ([Descriptors]), whatever its calls answer. *)

From stdpp Require Import gmap.
From S2P Require Import Prelude CInt FreeMap Buf ListRt Str FreeStr.

Record desc := mk_desc { dpath : list Z; dpos : Z; dwrite : bool; dappend : bool }.
Record world := mk_world {
  files : gmap (list Z) (list Z);
  fds : gmap Z desc;
  sent : gmap Z (list Z);
  console : list Z
}.
Definition set_files (w : world) (f : gmap (list Z) (list Z)) : world := mk_world f (fds w) (sent w) (console w).
Definition set_fds (w : world) (d : gmap Z desc) : world := mk_world (files w) d (sent w) (console w).
Definition set_sent (w : world) (s : gmap Z (list Z)) : world := mk_world (files w) (fds w) s (console w).
Definition set_console (w : world) (c : list Z) : world := mk_world (files w) (fds w) (sent w) c.

(** The calls that may be refused for reasons that are not in [world]: permissions, a directory where a
    file is meant, a missing directory on the way, a descriptor that cannot seek, a full disk. *)
Inductive call := Copen (path : list Z) (flags : Z) | Cseek (fd : Z) | Cunlink (path : list Z) | Crename (a b : list Z).

(** [new_fd]: the descriptor for a new open file.  [moved n]: what a transfer of [n] bytes returns.
    [refuses c]: the error number with which [c] is refused. *)
Record choices := mk_choices { new_fd : world -> option Z; moved : world -> Z -> Z; refuses : world -> call -> option Z }.

(** What the kernel promises: descriptors are fresh (0, 1 and 2 are the console's), no transfer
    moves more than was asked for, and error numbers are negative. *)
Class Choices (ch : choices) : Prop := {
  fd_fresh : forall w fd, new_fd ch w = Some fd -> 3 <= fd /\ fds w !! fd = None;
  moved_at_most : forall w n, 0 <= n -> moved ch w n <= n;
  refused_with : forall w c e, refuses ch w c = Some e -> e < 0
}.

Definition ENOENT : Z := -2.
Definition EBADF : Z := -9.
Definition EMFILE : Z := -24.
Definition EINVAL : Z := -22.
Definition EOVERFLOW : Z := -75.

Inductive text_ret := Literal | Owned (s : cstr).
Definition text_of (r : text_ret) : cstr := match r with Literal => [] | Owned s => s end.

(** ** What the kernel's manual says

    Each call as documented, for the choices made. *)

Section posix.
Context (ch : choices).

(** [O_WRONLY], [O_CREAT], [O_TRUNC] and [O_APPEND] are bits 0, 6, 9 and 10. *)
Definition posix_open (w : world) (path : cstr) (flags : Z) : Z * world :=
  match refuses ch w (Copen path flags) with
  | Some e => (e, w)
  | None =>
      match files w !! path, Z.testbit flags 6 with
      | None, false => (ENOENT, w)
      | file, _ =>
          match new_fd ch w with
          | None => (EMFILE, w)
          | Some fd =>
              let content := if Z.testbit flags 9 then [] else default [] file in
              (fd, mk_world (<[path := content]> (files w)) (<[fd := mk_desc path 0 (Z.testbit flags 0) (Z.testbit flags 10)]> (fds w))
                     (sent w) (console w))
          end
      end
  end.

Definition posix_close (w : world) (fd : Z) : world := set_fds w (delete fd (fds w)).

Definition set_pos (w : world) (fd : Z) (d : desc) (pos : Z) : world :=
  set_fds w (<[fd := mk_desc (dpath d) pos (dwrite d) (dappend d)]> (fds w)).

(** [whence]: 0 sets the position, 2 counts from the end.  The position is not negative and an [off_t]. *)
Definition posix_lseek (w : world) (fd offset whence : Z) : Z * world :=
  match fds w !! fd with
  | None => (EBADF, w)
  | Some d =>
      let size := Z.of_nat (length (default [] (files w !! dpath d))) in
      let pos := if whence =? 2 then size + offset else offset in
      match refuses ch w (Cseek fd) with
      | Some e => (e, w)
      | None =>
          if pos <? 0 then (EINVAL, w)
          else if pos >? INT64_MAX then (EOVERFLOW, w)
          else (pos, set_pos w fd d pos)
      end
  end.

(** The count or an error, and the bytes that arrive. *)
Definition posix_read (w : world) (fd count : Z) : Z * list Z * world :=
  match fds w !! fd with
  | None => (EBADF, [], w)
  | Some d =>
      let rest := drop (Z.to_nat (dpos d)) (default [] (files w !! dpath d)) in
      let n := moved ch w (Z.min count (Z.of_nat (length rest))) in
      if n <? 0 then (n, [], w) else (n, take (Z.to_nat n) rest, set_pos w fd d (dpos d + n))
  end.

Definition posix_write (w : world) (fd : Z) (bytes : list Z) : Z * world :=
  if fd =? 1 then
    let n := moved ch w (Z.of_nat (length bytes)) in
    if n <? 0 then (n, w) else (n, set_console w (console w ++ take (Z.to_nat n) bytes))
  else
    match fds w !! fd with
    | None => (EBADF, w)
    | Some d =>
        if negb (dwrite d) then (EBADF, w)
        else
          let content := default [] (files w !! dpath d) in
          let at_ := if dappend d then Z.of_nat (length content) else dpos d in
          let n := moved ch w (Z.of_nat (length bytes)) in
          if n <? 0 then (n, w)
          else
            let content' := take (Z.to_nat at_) content ++ take (Z.to_nat n) bytes ++ drop (Z.to_nat (at_ + n)) content in
            (n, set_pos (set_files w (<[dpath d := content']> (files w))) fd d (at_ + n))
    end.

Definition posix_unlink (w : world) (path : cstr) : Z * world :=
  match refuses ch w (Cunlink path), files w !! path with
  | Some e, _ => (e, w)
  | None, None => (ENOENT, w)
  | None, Some _ => (0, set_files w (delete path (files w)))
  end.
Definition posix_rename (w : world) (old_path new_path : cstr) : Z * world :=
  match refuses ch w (Crename old_path new_path), files w !! old_path with
  | Some e, _ => (e, w)
  | None, None => (ENOENT, w)
  | None, Some c => (0, set_files w (<[new_path := c]> (delete old_path (files w))))
  end.

Definition posix_sendto (w : world) (fd : Z) (bytes : list Z) : Z * world :=
  match sent w !! fd with
  | None => (EBADF, w)
  | Some s =>
      let n := moved ch w (Z.of_nat (length bytes)) in
      if n <? 0 then (n, w) else (n, set_sent w (<[fd := s ++ take (Z.to_nat n) bytes]> (sent w)))
  end.
End posix.

(** ** System calls

    The runtime's wrappers are one instruction each; what happens then is up to the kernel. *)

Record sys := mk_sys {
  lpp_sys_open : world -> cstr -> Z -> Z * world;
  lpp_sys_close : world -> Z -> world;
  lpp_sys_lseek : world -> Z -> Z -> Z -> Z * world;
  lpp_sys_read : world -> Z -> Z -> Z * list Z * world;
  lpp_sys_write : world -> Z -> list Z -> Z * world;
  lpp_sys_unlink : world -> cstr -> Z * world;
  lpp_sys_rename : world -> cstr -> cstr -> Z * world;
  lpp_sys_sendto : world -> Z -> list Z -> Z * world
}.

Definition posix (ch : choices) : sys :=
  mk_sys (posix_open ch) posix_close (posix_lseek ch) (posix_read ch) (posix_write ch) (posix_unlink ch) (posix_rename ch) (posix_sendto ch).

Section builtins.
Context (k : sys).

(** ** Files *)

(** [buf] after a [read] into it. *)
Definition fill_front (buf bytes : list Z) : list Z := bytes ++ drop (length bytes) buf.

Definition lpp_read_file_fs (al : allocator) (w : world) (filename : option cstr) : outcome (text_ret * world) :=
  match filename with
  | None => Ok (Literal, w)
  | Some f =>
      let '(fd, w) := lpp_sys_open k w f 0 in
      if fd <? 0 then Ok (Literal, w)
      else
        let '(len, w) := lpp_sys_lseek k w fd 0 2 in
        if len <? 0 then Ok (Literal, lpp_sys_close k w fd)
        else
          let '(_, w) := lpp_sys_lseek k w fd 0 0 in
          let! size := chk64 (len + 1) in
          if negb (al 0%nat size) then Ok (Literal, lpp_sys_close k w fd)
          else
            let buf := replicate (Z.to_nat size) 0 in
            let '(bytes_read, bytes, w) := lpp_sys_read k w fd len in
            let w := lpp_sys_close k w fd in
            let bytes_read := if bytes_read <? 0 then 0 else bytes_read in
            let! buf := wr (fill_front buf bytes) bytes_read 0 in
            Ok (Owned (until_nul buf), w)
  end.

(** The common body of the two writers; their flags are octal 0101 and 02001. *)
Definition put_file (w : world) (filename content : option cstr) (flags : Z) : outcome (Z * world) :=
  match filename, content with
  | Some f, Some c =>
      let '(fd, w) := lpp_sys_open k w f flags in
      if fd <? 0 then Ok (-1, w)
      else
        let! clen := lpp_strlen (Some c) in
        let '(written, w) := lpp_sys_write k w fd (take (Z.to_nat clen) c) in
        let w := lpp_sys_close k w fd in
        Ok (if written =? clen then 0 else -1, w)
  | _, _ => Ok (-1, w)
  end.
Definition lpp_write_file_fs (w : world) (filename content : option cstr) : outcome (Z * world) := put_file w filename content 65.
Definition lpp_append_file_fs (w : world) (filename content : option cstr) : outcome (Z * world) := put_file w filename content 1025.

Definition lpp_delete_file_fs (w : world) (filename : option cstr) : Z * world :=
  match filename with
  | None => (-1, w)
  | Some f => let '(r, w) := lpp_sys_unlink k w f in (if r =? 0 then 0 else -1, w)
  end.
Definition lpp_file_move_fs (w : world) (source destination : option cstr) : Z * world :=
  match source, destination with
  | Some a, Some b => let '(r, w) := lpp_sys_rename k w a b in (if r =? 0 then 0 else -1, w)
  | _, _ => (-1, w)
  end.
Definition lpp_file_exists_fs (w : world) (filename : option cstr) : Z * world :=
  match filename with
  | None => (0, w)
  | Some f =>
      let '(fd, w) := lpp_sys_open k w f 0 in
      if fd >=? 0 then (1, lpp_sys_close k w fd) else (0, w)
  end.
Definition lpp_file_size_fs (w : world) (filename : option cstr) : Z * world :=
  match filename with
  | None => (0, w)
  | Some f =>
      let '(fd, w) := lpp_sys_open k w f 0 in
      if fd <? 0 then (0, w)
      else
        let '(sz, w) := lpp_sys_lseek k w fd 0 2 in
        (if sz >=? 0 then sz else 0, lpp_sys_close k w fd)
  end.

(** ** Buffers in files

    The loops go on after a short transfer.  A buffer is the record of [Buf]; [granted] is whether its
    mapping is served. *)

(** [while (off < size)] of the reader: at most [size] rounds move a byte each. *)
Fixpoint buf_read_loop (fuel : nat) (w : world) (fd : Z) (data : list Z) (size off : Z) : outcome (Z * list Z * world) :=
  match fuel with
  | O => NoFuel
  | S fuel =>
      if off <? size then
        let '(r, bytes, w) := lpp_sys_read k w fd (size - off) in
        if r <=? 0 then Ok (off, data, w)
        else buf_read_loop fuel w fd (take (Z.to_nat off) data ++ bytes ++ drop (Z.to_nat off + length bytes) data) size (off + r)
      else Ok (off, data, w)
  end.
Definition lpp_buf_read_fs (granted : bool) (w : world) (path : option cstr) : outcome (option Buf * world) :=
  match path with
  | None => Ok (None, w)
  | Some f =>
      let '(fd, w) := lpp_sys_open k w f 0 in
      if fd <? 0 then Ok (None, w)
      else
        let '(size, w) := lpp_sys_lseek k w fd 0 2 in
        let '(_, w) := lpp_sys_lseek k w fd 0 0 in
        if size <? 0 then Ok (None, lpp_sys_close k w fd)
        else
          let room := if size <=? 0 then 64 else size in
          if negb granted then Ok (None, lpp_sys_close k w fd)
          else
            let! '(off, data, w) := buf_read_loop (S (Z.to_nat size)) w fd (replicate (Z.to_nat room) 0) size 0 in
            let w := lpp_sys_close k w fd in
            if negb (off =? size) then Ok (None, w) else Ok (Some (mkBuf room data), w)
  end.

Fixpoint buf_write_loop (fuel : nat) (w : world) (fd : Z) (data : list Z) (size off : Z) : outcome (Z * world) :=
  match fuel with
  | O => NoFuel
  | S fuel =>
      if off <? size then
        let '(n, w) := lpp_sys_write k w fd (take (Z.to_nat (size - off)) (drop (Z.to_nat off) data)) in
        if n <=? 0 then Ok (-1, lpp_sys_close k w fd) else buf_write_loop fuel w fd data size (off + n)
      else Ok (0, lpp_sys_close k w fd)
  end.
Definition lpp_buf_write_fs (w : world) (path : option cstr) (p : option Buf) : outcome (Z * world) :=
  match path, p with
  | Some f, Some b =>
      let '(fd, w) := lpp_sys_open k w f 65 in
      if fd <? 0 then Ok (-1, w) else buf_write_loop (S (Z.to_nat (bsize b))) w fd (bdata b) (bsize b) 0
  | _, _ => Ok (-1, w)
  end.

(** ** Sockets *)

Definition lpp_net_send_fs (w : world) (fd : Z) (data : option cstr) : outcome (Z * world) :=
  match data with
  | None => Ok (-1, w)
  | Some s =>
      if fd <? 0 then Ok (-1, w)
      else let! len := lpp_strlen (Some s) in Ok (lpp_sys_sendto k w fd (take (Z.to_nat len) s))
  end.

(** [while (total < len)]: each round sends at least one byte or ends the loop. *)
Fixpoint send_loop (fuel : nat) (w : world) (fd : Z) (s : cstr) (len total : Z) : outcome (Z * world) :=
  match fuel with
  | O => NoFuel
  | S fuel =>
      if total <? len then
        let '(n, w) := lpp_sys_sendto k w fd (take (Z.to_nat (len - total)) (drop (Z.to_nat total) s)) in
        if n <=? 0 then Ok (total, w) else send_loop fuel w fd s len (total + n)
      else Ok (total, w)
  end.
Definition lpp_net_send_all_fs (w : world) (fd : Z) (data : option cstr) : outcome (Z * world) :=
  match data with
  | None => Ok (-1, w)
  | Some s =>
      if fd <? 0 then Ok (-1, w)
      else let! len := lpp_strlen (Some s) in send_loop (S (length s)) w fd s len 0
  end.

(** [arrive] is what [recvfrom] hands over: a count or an error, and the bytes. *)
Definition lpp_net_recv_fs (al : allocator) (arrive : Z -> Z * list Z) (fd max_bytes : Z) : outcome text_ret :=
  if (fd <? 0) || (max_bytes <=? 0) then Ok Literal
  else
    let! size := chk64 (max_bytes + 1) in
    if negb (al 0%nat size) then Ok Literal
    else
      let '(recvd, bytes) := arrive max_bytes in
      let recvd := if recvd <? 0 then 0 else recvd in
      let! buf := wr (fill_front (replicate (Z.to_nat size) 0) bytes) recvd 0 in
      Ok (Owned (until_nul buf)).

(** ** The console *)

(** [magnitude] is unsigned, so the digits are taken as in [lpp_int_to_str]. *)
Definition lpp_print_int (w : world) (value : Z) : outcome world :=
  let negative := value <? 0 in
  let! magnitude := (if negative then
                       let! v := chk64 (value + 1) in
                       let! v := chk64 (- v) in Ok (u64 (u64 v + 1))
                     else Ok (u64 value)) in
  let! buffer := wr (replicate 32 0) 31 10 in
  let! '(buffer, cursor) := digit_loop 32 buffer 31 magnitude in
  let! '(buffer, cursor) := (if negative then let! b := wr buffer (cursor - 1) 45 in Ok (b, cursor - 1) else Ok (buffer, cursor)) in
  let '(_, w) := lpp_sys_write k w 1 (drop (Z.to_nat cursor) buffer) in
  Ok w.

Definition lpp_print_bool (w : world) (value : Z) : outcome world := lpp_print_int w (if value =? 0 then 0 else 1).

Definition lpp_print_str (w : world) (text : option cstr) : outcome world :=
  match text with
  | None => Ok w
  | Some s =>
      let! n := lpp_strlen (Some s) in
      let '(_, w) := lpp_sys_write k w 1 (take (Z.to_nat n) s) in
      let '(_, w) := lpp_sys_write k w 1 [10] in
      Ok w
  end.
End builtins.

(** Line ends at the end of the input are dropped. *)
Fixpoint chop_loop (fuel : nat) (buf : list Z) (rd_ : Z) : outcome Z :=
  match fuel with
  | O => NoFuel
  | S fuel =>
      if rd_ >? 0 then
        let! c := rd buf (rd_ - 1) in
        if (c =? 10) || (c =? 13) then chop_loop fuel buf (rd_ - 1) else Ok rd_
      else Ok rd_
  end.

(** [arrive] is what [read(0, ...)] hands over. *)
Definition lpp_input_fs (al : allocator) (arrive : Z -> Z * list Z) : outcome str_ret :=
  let '(n, bytes) := arrive 4095 in
  let n := if n <? 0 then 0 else n in
  let buf := fill_front (replicate 4096 0) bytes in
  let! n := chop_loop (S (Z.to_nat n)) buf n in
  unchecked (fresh_str al 0 (n + 1) (fun out =>
    let! out := copy_n out 0 buf 0 n in wr out n 0)).

(** ** Commands *)

(** The pipe delivers pieces of at most 256 bytes; a piece of no bytes, or the end of the list, is
    the end of the stream or an error.  [al n] is whether [lpp_alloc] serves [n] bytes (a refusal is
    not tested: the stores go through NULL), [freed] counts the buffers given back on the way. *)
Fixpoint pipe_loop (al : Z -> bool) (pieces : list (list Z)) (cap length_ : Z) (buf : list Z) (freed : nat) : outcome (Z * list Z * nat) :=
  let grown :=
    if length_ + 256 >=? cap then
      let! new_cap := chk64 (cap * 2) in
      if al new_cap then
        let! new_buf := copy_n (replicate (Z.to_nat new_cap) 0) 0 buf 0 length_ in
        Ok (new_cap, new_buf, S freed)
      else Undef
    else Ok (cap, buf, freed) in
  let! '(cap, buf, freed) := grown in
  if length_ + 256 >? Z.of_nat (length buf) then Undef
  else
    match pieces with
    | [] | [] :: _ => Ok (length_, buf, freed)
    | piece :: pieces =>
        pipe_loop al pieces cap (length_ + Z.of_nat (length piece))
          (take (Z.to_nat length_) buf ++ piece ++ drop (Z.to_nat length_ + length piece) buf) freed
    end.

(** The parent's side of [lpp_command_output] once the command runs. *)
Definition command_text (al : Z -> bool) (pieces : list (list Z)) : outcome (cstr * nat) :=
  if al 1024 then
    let! '(length_, buf, freed) := pipe_loop al pieces 1024 0 (replicate 1024 0) 0 in
    let! buf := wr buf length_ 0 in
    Ok (until_nul buf, freed)
  else Undef.

(** The end of [lpp_command_exec]: the status word of [wait4] gives the exit status, or -1 when a
    signal ended the command. *)
Definition exit_status (status : Z) : Z :=
  if Z.land status 0x7f =? 0 then Z.land (Z.shiftr status 8) 0xff else -1.

(** The calls of a documented kernel. *)
Ltac calls :=
  cbn [posix lpp_sys_open lpp_sys_close lpp_sys_lseek lpp_sys_read lpp_sys_write lpp_sys_unlink lpp_sys_rename lpp_sys_sendto].

(** ** Descriptors *)

Section kernel.
Context (ch : choices) `{!Choices ch}.

Lemma open_cases w f flags :
  (exists e, posix_open ch w f flags = (e, w) /\ e < 0 /\
     (is_Some (refuses ch w (Copen f flags)) \/ (files w !! f = None /\ Z.testbit flags 6 = false) \/ new_fd ch w = None)) \/
  (exists fd, new_fd ch w = Some fd /\ 3 <= fd /\ fds w !! fd = None /\
     posix_open ch w f flags = (fd, mk_world (<[f := if Z.testbit flags 9 then [] else default [] (files w !! f)]> (files w))
       (<[fd := mk_desc f 0 (Z.testbit flags 0) (Z.testbit flags 10)]> (fds w)) (sent w) (console w))).
Proof.
  unfold posix_open. destruct (refuses ch w (Copen f flags)) as [e|] eqn:Er.
  { left. exists e. split_and!; [done|by eapply refused_with|by left]. }
  destruct (new_fd ch w) as [fd|] eqn:E.
  - destruct (fd_fresh w fd E) as [H1 H2]. destruct (files w !! f) eqn:Ef; [right; by exists fd|].
    destruct (Z.testbit flags 6); [right; by exists fd|]. left. exists ENOENT. split_and!; [done|done|right; by left].
  - left. destruct (files w !! f), (Z.testbit flags 6); eexists; (split_and!; [reflexivity|done|auto]).
Qed.

(** Closing the descriptor just opened restores the table. *)
Lemma close_open w fd d : fds w !! fd = None -> delete fd (<[fd := d]> (fds w)) = fds w.
Proof. apply delete_insert_id. Qed.

Lemma delete_overwrite fd (d d' : desc) (m : gmap Z desc) : delete fd (<[fd := d']> (<[fd := d]> m)) = delete fd (<[fd := d]> m).
Proof. by rewrite !delete_insert_eq. Qed.
End kernel.

(** *** No descriptor is lost

    What the manual says of the table of descriptors, whatever else a call does or answers: a successful
    [open] adds one that was free, [close] takes away the one it names, and the other calls leave the
    rest of the table alone.  A position is an [off_t]; a read hands over as many bytes as it returns,
    at most those asked for. *)
Class Descriptors (k : sys) : Prop := {
  d_open : forall w f flags, let '(fd, w') := lpp_sys_open k w f flags in
    if fd <? 0 then fds w' = fds w else fds w !! fd = None /\ delete fd (fds w') = fds w;
  d_close : forall w fd, fds (lpp_sys_close k w fd) = delete fd (fds w);
  d_seek : forall w fd o wh, let '(pos, w') := lpp_sys_lseek k w fd o wh in pos <= INT64_MAX /\ delete fd (fds w') = delete fd (fds w);
  d_read : forall w fd n, 0 <= n -> let '(r, bytes, w') := lpp_sys_read k w fd n in
    r <= n /\ length bytes = Z.to_nat r /\ delete fd (fds w') = delete fd (fds w);
  d_write : forall w fd bytes, delete fd (fds (lpp_sys_write k w fd bytes).2) = delete fd (fds w)
}.

(** The builtin returns and leaves the table of open descriptors as it was. *)
Definition restores {A} (w : world) (r : outcome (A * world)) : Prop := match r with Ok (_, w') => fds w' = fds w | _ => False end.

Section descriptors.
Context (k : sys) `{!Descriptors k}.

(** A successful open, used and closed. *)
Lemma fd_closed_again w w1 w2 fd : fds w !! fd = None -> delete fd (fds w1) = fds w -> delete fd (fds w2) = delete fd (fds w1) ->
  fds (lpp_sys_close k w2 fd) = fds w.
Proof. intros _ H1 H2. by rewrite d_close, H2. Qed.

Lemma put_restores w f c flags : (forall x, c = Some x -> cstr_ok x) -> restores w (put_file k w f c flags).
Proof.
  intros Hc. unfold put_file. destruct f as [f|], c as [c|]; try done. pose proof (d_open w f flags) as Ho.
  destruct (lpp_sys_open k w f flags) as [fd w1]. destruct (fd <? 0); [done|]. destruct Ho as [Hn H1].
  rewrite strlen_ok by auto. cbn [obind]. pose proof (d_write w1 fd (take (Z.to_nat (slen c)) c)) as Hw.
  destruct (lpp_sys_write k w1 fd _) as [r w2]. cbn [snd restores] in *. by eapply fd_closed_again.
Qed.

Lemma read_restores al w f : restores w (lpp_read_file_fs k al w f) \/
  (lpp_read_file_fs k al w f = Undef /\ exists w1 fd, (lpp_sys_lseek k w1 fd 0 2).1 = INT64_MAX).
Proof.
  unfold lpp_read_file_fs. destruct f as [f|]; [|by left]. pose proof (d_open w f 0) as Ho.
  destruct (lpp_sys_open k w f 0) as [fd w1]. destruct (fd <? 0); [by left|]. destruct Ho as [Hn H1].
  pose proof (d_seek w1 fd 0 2) as Hs. destruct (lpp_sys_lseek k w1 fd 0 2) as [len w2] eqn:E2. destruct Hs as [Hlen H2].
  destruct (Z.ltb_spec len 0) as [|Hpos]; [left; by eapply (fd_closed_again w w1)|].
  pose proof (d_seek w2 fd 0 0) as Hs. destruct (lpp_sys_lseek k w2 fd 0 0) as [z w3]. destruct Hs as [_ H3].
  assert (delete fd (fds w3) = delete fd (fds w1)) as H3' by (by rewrite H3).
  destruct (Z.eq_dec len INT64_MAX) as [->|Hmax].
  { right. split; [done|]. exists w1, fd. by rewrite E2. }
  left. rewrite chk64_ok by (pow2; lia). cbn [obind]. destruct (negb _); [by eapply (fd_closed_again w w1)|].
  pose proof (d_read w3 fd len Hpos) as Hr. destruct (lpp_sys_read k w3 fd len) as [[r bytes] w4]. destruct Hr as (Hle & Hbl & H4).
  assert (length (fill_front (replicate (Z.to_nat (len + 1)) 0) bytes) = Z.to_nat (len + 1)) as Hfl.
  { unfold fill_front. rewrite length_app, length_drop, length_replicate. lia. }
  destruct (Z.ltb_spec r 0); rewrite wr_ok by (rewrite ?Hfl; lia); cbn [obind restores]; eapply (fd_closed_again w w1); try done; by rewrite H4.
Qed.

Lemma probe_restores w f : fds (lpp_file_exists_fs k w f).2 = fds w /\ fds (lpp_file_size_fs k w f).2 = fds w.
Proof.
  unfold lpp_file_exists_fs, lpp_file_size_fs. destruct f as [f|]; [|done]. pose proof (d_open w f 0) as Ho.
  destruct (lpp_sys_open k w f 0) as [fd w1]. rewrite Z.geb_leb, Z.leb_antisym. destruct (fd <? 0); [done|]. destruct Ho as [Hn H1]. cbn [negb].
  split; [cbn; by eapply (fd_closed_again w w1)|]. pose proof (d_seek w1 fd 0 2) as Hs. destruct (lpp_sys_lseek k w1 fd 0 2) as [sz w2].
  destruct Hs as [_ H2]. cbn. by eapply (fd_closed_again w w1).
Qed.
End descriptors.

Lemma posix_write_fds ch w fd bytes : delete fd (fds (posix_write ch w fd bytes).2) = delete fd (fds w).
Proof.
  unfold posix_write. destruct (fd =? 1); [by destruct (_ <? 0)|]. destruct (fds w !! fd) as [d|]; [|done].
  destruct (negb (dwrite d)); [done|]. destruct (_ <? 0); [done|]. cbn. by rewrite delete_insert_eq.
Qed.

(** The documented kernel is one of these, whatever it chooses. *)
#[export] Instance posix_descriptors ch `{!Choices ch} : Descriptors (posix ch).
Proof.
  split; calls.
  - intros w f flags. destruct (open_cases ch w f flags) as [(e & -> & He & _)|(fd & _ & H3 & Hn & ->)].
    + by rewrite (proj2 (Z.ltb_lt e 0)).
    + rewrite (proj2 (Z.ltb_ge fd 0)) by lia. split; [done|]. by apply delete_insert_id.
  - done.
  - intros w fd o wh. unfold posix_lseek. destruct (fds w !! fd) as [d|]; [|done].
    destruct (refuses ch w (Cseek fd)) as [e|] eqn:Er; [pose proof (refused_with w (Cseek fd) e Er); split; [pow2; lia|done]|].
    set (pos := if wh =? 2 then _ else _). destruct (Z.ltb_spec pos 0); [done|]. rewrite Z.gtb_ltb.
    destruct (Z.ltb_spec INT64_MAX pos); [done|]. split; [done|]. cbn. by rewrite delete_insert_eq.
  - intros w fd n Hn. unfold posix_read. destruct (fds w !! fd) as [d|]; [|split_and!; [unfold EBADF; lia|done|done]].
    set (rest := drop _ _). pose proof (moved_at_most w (Z.min n (Z.of_nat (length rest))) ltac:(lia)) as Hm.
    destruct (Z.ltb_spec (moved ch w (Z.min n (Z.of_nat (length rest)))) 0); split_and!; try lia; try done.
    + cbn [length]. lia.
    + rewrite length_take. lia.
    + cbn. by rewrite delete_insert_eq.
  - apply posix_write_fds.
Qed.

(** A kernel that refuses nothing for which there is no reason in [world], for a name. *)
Definition grants (ch : choices) (f : list Z) : Prop := forall w,
  (forall flags, refuses ch w (Copen f flags) = None) /\ (forall fd, refuses ch w (Cseek fd) = None) /\ refuses ch w (Cunlink f) = None.

(** A kernel that serves every transfer below its limit in full, as Linux does for regular files. *)
Definition serves_in_full (ch : choices) : Prop := forall w n, 0 <= n < 2 ^ 31 - 4096 -> moved ch w n = n.

Section files.
Context (ch : choices) `{!Choices ch}.

Lemma lseek_open w fd d o wh f c pos : grants ch f -> fds w !! fd = Some d -> files w !! dpath d = Some c ->
  pos = (if wh =? 2 then slen c + o else o) -> 0 <= pos <= INT64_MAX -> posix_lseek ch w fd o wh = (pos, set_pos w fd d pos).
Proof.
  intros Hg Hd Hc -> Hp. unfold posix_lseek. rewrite Hd, Hc. destruct (Hg w) as (_ & -> & _). cbn [default]. unfold id. fold (slen c).
  by rewrite (proj2 (Z.ltb_ge _ 0)), Z.gtb_ltb, (proj2 (Z.ltb_ge _ _)) by lia.
Qed.

(** *** What the files hold *)

Section served.
Context (w : world) (f : cstr) (Hfd : is_Some (new_fd ch w)) (Hg : grants ch f) (Hk : serves_in_full ch).

Lemma not_refused flags : ~ is_Some (refuses ch w (Copen f flags)).
Proof. destruct (Hg w) as (-> & _). by intros []. Qed.

Lemma write_exact flags c old : cstr_ok c -> slen c < 2 ^ 31 - 4096 -> files w !! f = old -> is_Some old \/ Z.testbit flags 6 = true ->
  Z.testbit flags 0 = true -> Z.testbit flags 9 = false ->
  let o := default [] old in
  put_file (posix ch) w (Some f) (Some c) flags =
    Ok (0, set_files w (<[f := if Z.testbit flags 10 then o ++ c else c ++ drop (length c) o]> (files w))).
Proof.
  intros Hc Hlen Hold Hcr H0 H9 o. unfold put_file. calls.
  destruct (open_cases ch w f flags) as [(e & _ & _ & Hbad)|(fd & _ & H3 & Hn & ->)].
  { destruct Hbad as [Hb|[[Hb1 Hb2]|Hb]]; [by apply not_refused in Hb| |by rewrite Hb in Hfd; destruct Hfd]. destruct Hcr as [[x Hx]|]; congruence. }
  rewrite (proj2 (Z.ltb_ge fd 0)), strlen_ok by (lia || done). cbn [obind]. rewrite H0, H9, Hold. fold o.
  unfold posix_write. rewrite (proj2 (Z.eqb_neq fd 1)) by lia. cbn [fds files]. rewrite lookup_insert_eq. cbn [dwrite negb dpath dappend dpos].
  rewrite lookup_insert_eq. cbn [default]. unfold slen in *. rewrite Nat2Z.id, take_ge by done. rewrite Hk by lia.
  rewrite (proj2 (Z.ltb_ge _ 0)) by lia. rewrite Z.eqb_refl. unfold posix_close, set_pos, set_fds, set_files. cbn [fds files sent console].
  rewrite delete_overwrite, close_open by done. rewrite insert_insert_eq. do 4 f_equal. unfold id. rewrite Nat2Z.id, (take_ge c) by lia.
  destruct (Z.testbit flags 10).
  - rewrite Nat2Z.id, take_ge by lia. rewrite drop_ge by lia. by rewrite app_nil_r.
  - cbn [Z.to_nat take]. rewrite take_0, app_nil_l. do 2 f_equal. lia.
Qed.

(** The open file, its length and its whole content. *)
Lemma read_exact al c : files w !! f = Some c -> cstr_ok c -> slen c < 2 ^ 31 - 4096 -> al 0%nat (slen c + 1) = true ->
  lpp_read_file_fs (posix ch) al w (Some f) = Ok (Owned c, w).
Proof.
  intros Hf Hc Hlen Hal. unfold lpp_read_file_fs. calls. destruct (open_cases ch w f 0) as [(e & _ & _ & Hbad)|(fd & _ & H3 & Hn & ->)].
  { destruct Hbad as [Hb|[[Hb1 _]|Hb]]; [by apply not_refused in Hb|congruence|by rewrite Hb in Hfd; destruct Hfd]. }
  rewrite (proj2 (Z.ltb_ge fd 0)) by lia. rewrite Hf. change (Z.testbit 0 9) with false. cbn [default]. unfold id. cbn iota.
  assert (0 <= slen c) as Hpos by (unfold slen; lia). set (d := mk_desc f 0 _ _). set (w1 := mk_world _ _ _ _).
  assert (fds w1 !! fd = Some d) as Hd1 by apply lookup_insert_eq. assert (files w1 !! f = Some c) as Hf1 by apply lookup_insert_eq.
  rewrite (lseek_open w1 fd d 0 2 f c (slen c) Hg Hd1 Hf1) by (cbn [Z.eqb Pos.eqb]; pow2; lia). set (w2 := set_pos w1 fd d (slen c)). set (d2 := mk_desc f (slen c) (dwrite d) (dappend d)).
  rewrite (proj2 (Z.ltb_ge (slen c) 0)) by lia. assert (fds w2 !! fd = Some d2) as Hd2 by apply lookup_insert_eq.
  rewrite (lseek_open w2 fd d2 0 0 f c 0 Hg Hd2 Hf1) by (cbn [Z.eqb Pos.eqb]; pow2; lia). set (w3 := set_pos w2 fd d2 0).
  rewrite chk64_ok by (pow2; lia). cbn [obind]. rewrite Hal. cbn [negb]. unfold posix_read.
  assert (fds w3 !! fd = Some (mk_desc f 0 (dwrite d2) (dappend d2))) as -> by apply lookup_insert_eq. cbn [dpath dpos].
  change (files w3 !! f) with (files w1 !! f). rewrite Hf1. cbn [default Z.to_nat]. unfold id. rewrite drop_0. fold (slen c). rewrite Z.min_id, Hk by lia.
  rewrite (proj2 (Z.ltb_ge (slen c) 0)) by lia. unfold slen in *. rewrite Nat2Z.id, (take_ge c) by done. rewrite (proj2 (Z.ltb_ge _ 0)) by lia.
  unfold fill_front. rewrite drop_replicate. replace (Z.to_nat (Z.of_nat (length c) + 1) - length c)%nat with 1%nat by lia. cbn [replicate].
  rewrite wr_ok by (rewrite length_app; cbn [length]; lia). rewrite Nat2Z.id, insert_app_r_alt, Nat.sub_diag by done. cbn [insert list_insert obind].
  pose proof (until_nul_zero c 1 Hc) as Hu. cbn [replicate] in Hu. rewrite Hu. do 2 f_equal. unfold w3, w2, w1, posix_close, set_pos, set_fds. cbn [fds files sent console].
  rewrite !insert_insert_eq, close_open by done. rewrite insert_id by done. by destruct w.
Qed.

Lemma probe_exact c : files w !! f = Some c -> slen c <= INT64_MAX ->
  lpp_file_exists_fs (posix ch) w (Some f) = (1, w) /\ lpp_file_size_fs (posix ch) w (Some f) = (slen c, w).
Proof.
  intros Hf Hmax. unfold lpp_file_exists_fs, lpp_file_size_fs. calls. destruct (open_cases ch w f 0) as [(e & _ & _ & Hbad)|(fd & _ & H3 & Hn & ->)].
  { destruct Hbad as [Hb|[[Hb1 _]|Hb]]; [by apply not_refused in Hb|congruence|by rewrite Hb in Hfd; destruct Hfd]. }
  rewrite Z.geb_leb, (proj2 (Z.leb_le 0 fd)), (proj2 (Z.ltb_ge fd 0)) by lia. rewrite Hf. change (Z.testbit 0 9) with false. cbn [default]. unfold id. cbn iota.
  assert (0 <= slen c) as Hpos by (unfold slen; lia). set (d := mk_desc f 0 _ _). set (w1 := mk_world _ _ _ _).
  assert (fds w1 !! fd = Some d) as Hd1 by apply lookup_insert_eq. assert (files w1 !! f = Some c) as Hf1 by apply lookup_insert_eq.
  rewrite (lseek_open w1 fd d 0 2 f c (slen c) Hg Hd1 Hf1) by (cbn [Z.eqb Pos.eqb]; lia). rewrite Z.geb_leb, (proj2 (Z.leb_le 0 _)) by lia. unfold w1, posix_close, set_pos, set_fds. cbn [fds files sent console].
  rewrite delete_overwrite, close_open by done. rewrite insert_id by done. by destruct w.
Qed.
End served.
End files.

(** *** Buffers in files *)

(** A kernel that moves at least one byte of every transfer that asks for one. *)
Definition progresses (ch : choices) : Prop := forall w n, 0 < n -> 0 < moved ch w n.

Lemma replace_front (d o : list Z) (i n : nat) : (i + n <= length d)%nat ->
  take i (take i d ++ drop i o) ++ take n (drop i d) ++ drop (i + n) (take i d ++ drop i o) = take (i + n) d ++ drop (i + n) o.
Proof.
  intros H. assert (length (take i d) = i) as Hl by (rewrite length_take; lia).
  rewrite take_app_length' by done. rewrite (assoc_L (++)), take_take_drop. f_equal.
  rewrite <- Hl at 1. rewrite drop_app_add, drop_drop. done.
Qed.

Section buffers.
Context (ch : choices) `{!Choices ch} (Hp : progresses ch).

Lemma write_loop_spec f d o fd : 3 <= fd -> forall fuel w (off : nat), (length d - off < fuel)%nat -> (off <= length d)%nat ->
  fds w !! fd = Some (mk_desc f (Z.of_nat off) true false) -> files w !! f = Some (take off d ++ drop off o) ->
  buf_write_loop (posix ch) fuel w fd d (Z.of_nat (length d)) (Z.of_nat off) =
    Ok (0, set_files (set_fds w (delete fd (fds w))) (<[f := d ++ drop (length d) o]> (files w))).
Proof.
  intros Hfd3. induction fuel as [|fuel IH]; intros w off Hf Hoff Hd Hc; [lia|]. cbn [buf_write_loop]. calls.
  destruct (Z.ltb_spec (Z.of_nat off) (Z.of_nat (length d))) as [Hlt|Hge].
  - set (req := take _ _). assert (length req = (length d - off)%nat) as Hreq by (unfold req; rewrite length_take, length_drop; lia).
    unfold posix_write. rewrite (proj2 (Z.eqb_neq fd 1)), Hd by lia. cbn [dwrite negb dpath dappend dpos]. rewrite Hc. cbn [default].
    pose proof (Hp w (Z.of_nat (length req)) ltac:(lia)) as H1. pose proof (moved_at_most (ch := ch) w (Z.of_nat (length req)) ltac:(lia)) as H2.
    set (n := moved ch w (Z.of_nat (length req))) in *. rewrite (proj2 (Z.ltb_ge n 0)), (proj2 (Z.leb_gt n 0)) by lia. unfold id.
    replace (Z.of_nat off + n) with (Z.of_nat (off + Z.to_nat n)) by lia. rewrite !Nat2Z.id.
    replace (take (Z.to_nat n) req) with (take (Z.to_nat n) (drop off d)) by (unfold req; rewrite Nat2Z.id, take_take; f_equal; lia).
    rewrite replace_front by lia. rewrite IH; [|lia|lia|cbn; by rewrite lookup_insert_eq|cbn; by rewrite lookup_insert_eq].
    unfold set_files, set_fds, set_pos. cbn. by rewrite delete_insert_eq, insert_insert_eq.
  - assert (off = length d) as -> by lia. rewrite take_ge in Hc by done. unfold posix_close, set_files, set_fds. cbn. by rewrite insert_id.
Qed.

Lemma read_loop_spec f c fd (d0 : list Z) : length d0 = length c -> forall fuel w (off : nat), (length c - off < fuel)%nat -> (off <= length c)%nat ->
  fds w !! fd = Some (mk_desc f (Z.of_nat off) false false) -> files w !! f = Some c ->
  exists w', buf_read_loop (posix ch) fuel w fd (take off c ++ drop off d0) (Z.of_nat (length c)) (Z.of_nat off) = Ok (Z.of_nat (length c), c, w') /\
    set_fds w' (delete fd (fds w')) = set_fds w (delete fd (fds w)).
Proof.
  intros Hl. induction fuel as [|fuel IH]; intros w off Hf Hoff Hd Hc; [lia|]. cbn [buf_read_loop]. calls.
  destruct (Z.ltb_spec (Z.of_nat off) (Z.of_nat (length c))) as [Hlt|Hge].
  - unfold posix_read. rewrite Hd. cbn [dpos dpath]. rewrite Hc. cbn [default]. unfold id. rewrite length_drop, Nat2Z.id.
    set (ask := Z.min _ _). assert (ask = Z.of_nat (length c - off)) as Hask by lia.
    pose proof (Hp w ask ltac:(lia)) as H1. pose proof (moved_at_most (ch := ch) w ask ltac:(lia)) as H2. set (n := moved ch w ask) in *.
    rewrite (proj2 (Z.ltb_ge n 0)), (proj2 (Z.leb_gt n 0)) by lia.
    assert (length (take (Z.to_nat n) (drop off c)) = Z.to_nat n) as Hn by (rewrite length_take, length_drop; lia). rewrite Hn.
    rewrite replace_front by lia. replace (Z.of_nat off + n) with (Z.of_nat (off + Z.to_nat n)) by lia.
    destruct (IH (set_pos w fd (mk_desc f (Z.of_nat off) false false) (Z.of_nat (off + Z.to_nat n))) (off + Z.to_nat n)%nat) as (w' & -> & Hw');
      [lia|lia|cbn; by rewrite lookup_insert_eq|done|].
    exists w'. split; [done|]. rewrite Hw'. unfold set_pos, set_fds. cbn. by rewrite delete_insert_eq.
  - assert (off = length c) as -> by lia. exists w. rewrite take_ge, drop_ge, app_nil_r by lia. done.
Qed.
End buffers.

(** ** Streams *)

Section streams.
Context (ch : choices) `{!Choices ch}.

(** The bytes sent so far are a prefix; the loop ends early only after a call that moved nothing. *)
Lemma send_loop_spec fd s : forall fuel w total s0, (Z.to_nat (slen s - total) < fuel)%nat -> 0 <= total <= slen s ->
  sent w !! fd = Some (s0 ++ take (Z.to_nat total) s) ->
  exists t w', send_loop (posix ch) fuel w fd s (slen s) total = Ok (t, w') /\ total <= t <= slen s /\
    w' = set_sent w (<[fd := s0 ++ take (Z.to_nat t) s]> (sent w)) /\
    (t < slen s -> exists w1, moved ch w1 (slen s - t) <= 0).
Proof.
  induction fuel as [|fuel IH]; intros w total s0 Hf Ht Hs; [lia|]. cbn [send_loop]. calls.
  assert (w = set_sent w (<[fd := s0 ++ take (Z.to_nat total) s]> (sent w))) as Hsame by (rewrite insert_id by done; by destruct w).
  destruct (Z.ltb_spec total (slen s)) as [Hlt|]; [|exists total, w; split_and!; done || lia].
  unfold posix_sendto. rewrite Hs. set (req := take (Z.to_nat (slen s - total)) (drop (Z.to_nat total) s)).
  assert (Z.of_nat (length req) = slen s - total) as Hreq by (unfold req, slen in *; rewrite length_take, length_drop; lia). rewrite Hreq.
  pose proof (moved_at_most w (slen s - total) ltac:(lia)) as Hm. set (n := moved ch w (slen s - total)) in *.
  destruct (Z.ltb_spec n 0); [rewrite (proj2 (Z.leb_le n 0)) by lia; exists total, w; split_and!; [done|lia|lia|done|intros _; exists w; lia]|].
  assert ((s0 ++ take (Z.to_nat total) s) ++ take (Z.to_nat n) req = s0 ++ take (Z.to_nat (total + n)) s) as Happ.
  { rewrite <- (assoc_L (++)). f_equal. unfold req. rewrite take_take, Nat.min_l by lia. rewrite Z2Nat.inj_add by lia. by rewrite take_take_drop. }
  rewrite Happ. destruct (Z.leb_spec n 0) as [Hz|Hpos].
  - assert (n = 0) as Hn0 by lia. rewrite Hn0, Z.add_0_r. eexists total, _. split_and!; [reflexivity|lia|lia|done|]. intros _. exists w. lia.
  - destruct (IH (set_sent w (<[fd := s0 ++ take (Z.to_nat (total + n)) s]> (sent w))) (total + n) s0) as (t & w' & -> & Hr & -> & Hstop);
      [lia|lia|by cbn; rewrite lookup_insert_eq|].
    exists t. eexists. split_and!; [reflexivity|lia|lia| |done]. unfold set_sent. cbn. by rewrite insert_insert_eq.
Qed.

(** The digits end up in one call, with any kernel. *)
Lemma print_int_spec k w v : INT64_MIN <= v <= INT64_MAX -> lpp_print_int k w v = Ok (lpp_sys_write k w 1 (fmt_lld v ++ [10])).2.
Proof.
  intros Hv. unfold lpp_print_int, fmt_lld.
  assert ((if v <? 0 then let! x := chk64 (v + 1) in let! x := chk64 (- x) in Ok (u64 (u64 x + 1)) else Ok (u64 v)) = Ok (Z.abs v)) as ->.
  { destruct (Z.ltb_spec v 0); [|rewrite u64_id by (pow2; lia); f_equal; lia]. rewrite chk64_ok by (pow2; lia). cbn [obind].
    rewrite chk64_ok by (pow2; lia). cbn [obind]. rewrite (u64_id (- (v + 1))), u64_id by (pow2; lia). f_equal. lia. }
  cbn [obind]. change (wr (replicate 32 0) 31 10) with (Ok (replicate 31 0 ++ [10])). cbn [obind].
  destruct (digit_loop_spec 20 32 (replicate 31 0 ++ [10]) 31 (Z.abs v)) as (buf & j & Hb & Hl & Hj & Hd);
    [lia|lia|cbn; lia|pow2; change (10 ^ Z.of_nat 20) with 100000000000000000000; lia|].
  change (Z.of_nat 31) with 31 in Hb. rewrite Hb. cbn [obind]. change (drop 31 (replicate 31 0 ++ [10])) with [10] in Hd.
  change (length (replicate 31 0 ++ [10])) with 32%nat in Hl. pose proof (digits_length 10 20 (Z.abs v)) as HD.
  destruct (Z.ltb_spec v 0) as [Hneg|Hpos].
  - replace (Z.of_nat j - 1) with (Z.of_nat (j - 1)) by lia. rewrite wr_ok by lia. cbn [obind]. rewrite !Nat2Z.id.
    assert (drop (j - 1) (<[(j - 1)%nat := 45]> buf) = (45 :: digits 10 20 (- v)) ++ [10]) as ->.
    { rewrite (drop_S _ 45 (j - 1)) by (apply list_lookup_insert_eq; lia). replace (S (j - 1)) with j by lia. rewrite drop_insert_lt by lia.
      rewrite Hd. by replace (- v) with (Z.abs v) by lia. }
    by destruct (lpp_sys_write _ _ _ _).
  - cbn [obind]. rewrite Nat2Z.id, Hd. replace (Z.abs v) with v in * by lia. by destruct (lpp_sys_write _ _ _ _).
Qed.

Lemma console_write w bytes : serves_in_full ch -> Z.of_nat (length bytes) < 2 ^ 31 - 4096 ->
  posix_write ch w 1 bytes = (Z.of_nat (length bytes), set_console w (console w ++ bytes)).
Proof.
  intros Hk Hl. unfold posix_write. cbn [Z.eqb Pos.eqb]. rewrite Hk by lia. rewrite (proj2 (Z.ltb_ge _ 0)) by lia.
  by rewrite Nat2Z.id, take_ge by done.
Qed.

(** What a write to the console leaves there, however much of it the kernel takes. *)
Lemma console_prefix w bytes : exists n, (n <= length bytes)%nat /\
  (posix_write ch w 1 bytes).2 = set_console w (console w ++ take n bytes) /\
  (moved ch w (Z.of_nat (length bytes)) = Z.of_nat (length bytes) -> n = length bytes).
Proof.
  unfold posix_write. cbn [Z.eqb Pos.eqb]. pose proof (moved_at_most w (Z.of_nat (length bytes)) ltac:(lia)).
  destruct (Z.ltb_spec (moved ch w (Z.of_nat (length bytes))) 0).
  - exists 0%nat. split_and!; [lia| |intros ?; lia]. rewrite take_0, app_nil_r. by destruct w.
  - exists (Z.to_nat (moved ch w (Z.of_nat (length bytes)))). split_and!; [lia|done|intros ?; lia].
Qed.

Lemma print_str_spec w s : serves_in_full ch -> cstr_ok s -> slen s < 2 ^ 31 - 4096 ->
  lpp_print_str (posix ch) w (Some s) = Ok (set_console w (console w ++ s ++ [10])).
Proof.
  intros Hk Hs Hl. unfold lpp_print_str. calls. rewrite strlen_ok by done. cbn [obind]. unfold slen in *. rewrite Nat2Z.id, take_ge by done.
  rewrite console_write by done. rewrite console_write by (done || (cbn; lia)). cbn. by rewrite <- (assoc_L (++)).
Qed.
End streams.

(** The buffer holds what has arrived, with room for the next piece. *)
Lemma pipe_loop_spec al pieces : forall cap buf freed got, (forall n, al n = true) ->
  Forall (fun p => p <> [] /\ (length p <= 256)%nat) pieces ->
  Z.of_nat (length buf) = cap -> 1024 <= cap <= 1024 + 4 * slen got -> slen got <= cap -> take (length got) buf = got ->
  slen got + slen (concat pieces) < 2 ^ 60 ->
  exists buf' rest freed', pipe_loop al pieces cap (slen got) buf freed = Ok (slen (got ++ concat pieces), buf', freed') /\
    buf' = (got ++ concat pieces) ++ rest /\ rest <> [].
Proof.
  induction pieces as [|p pieces IH]; intros cap buf freed got Hal Hp Hlen Hcap Hgot Htake Hbound.
  all: assert (exists cap1 buf1 freed1, (if slen got + 256 >=? cap then
        let! new_cap := chk64 (cap * 2) in
        if al new_cap then let! new_buf := copy_n (replicate (Z.to_nat new_cap) 0) 0 buf 0 (slen got) in Ok (new_cap, new_buf, S freed) else Undef
      else Ok (cap, buf, freed)) = Ok (cap1, buf1, freed1) /\ Z.of_nat (length buf1) = cap1 /\ 1024 <= cap1 <= 1024 + 4 * slen got /\
      slen got + 256 <= cap1 /\ take (length got) buf1 = got) as (cap1 & buf1 & freed1 & Hg & Hl1 & Hc1 & Hr1 & Ht1).
  1,3: rewrite Z.geb_leb; destruct (Z.leb_spec cap (slen got + 256)); [|eexists _, _, _; split_and!; [reflexivity|done|lia|lia|lia|done]].
  1,2: unfold slen in *; rewrite chk64_ok by (change (2 ^ 60) with 1152921504606846976 in *; pow2; lia); cbn [obind]; rewrite Hal;
    pose proof (copy_n_append buf 0 (length got) (Z.to_nat (cap * 2) - length got) [] 0 (Z.of_nat (length got))) as Hcopy; cbn [app] in Hcopy;
    change (Z.of_nat 0) with 0 in Hcopy; replace (length got + (Z.to_nat (cap * 2) - length got))%nat with (Z.to_nat (cap * 2)) in Hcopy by lia;
    rewrite Hcopy by (unfold slen; cbn; lia); cbn [obind]; rewrite drop_0, Htake; eexists _, _, _; split_and!;
    [reflexivity|rewrite length_app, length_replicate; lia|lia|lia|lia|by apply take_app_length'].
  all: cbn [pipe_loop]; rewrite Hg; cbn [obind]; rewrite Z.gtb_ltb, (proj2 (Z.ltb_ge _ _)) by lia.
  - cbn [concat]. rewrite app_nil_r. exists buf1, (drop (length got) buf1), freed1. split_and!; [done| |].
    + rewrite <- Ht1 at 1. by rewrite take_drop.
    + intros E. apply (f_equal length) in E. rewrite length_drop in E. unfold slen in *. cbn in E. lia.
  - apply Forall_cons in Hp as [[Hne Hp256] Hp]. destruct p as [|c p]; [done|]. cbn [concat] in *. set (piece := c :: p) in *.
    unfold slen in *. rewrite length_app in Hbound. destruct (IH cap1 (take (Z.to_nat (Z.of_nat (length got))) buf1 ++ piece ++
      drop (Z.to_nat (Z.of_nat (length got)) + length piece) buf1) freed1 (got ++ piece)) as (buf' & rest & freed' & Hrun & Hb & Hr); try done.
    + rewrite Nat2Z.id, !length_app, length_take, length_drop. lia.
    + rewrite length_app. lia.
    + rewrite length_app. lia.
    + rewrite Nat2Z.id, Ht1, (assoc_L (++)). by apply take_app_length'.
    + rewrite length_app. lia.
    + exists buf', rest, freed'. rewrite length_app, Nat2Z.inj_add in Hrun. rewrite <- !(assoc_L (++)) in *. done.
Qed.

Lemma command_text_spec al pieces : (forall n, al n = true) -> Forall (fun p => p <> [] /\ (length p <= 256)%nat) pieces ->
  slen (concat pieces) < 2 ^ 60 -> exists freed, command_text al pieces = Ok (until_nul (concat pieces), freed).
Proof.
  intros Hal Hp Hb. unfold command_text. rewrite Hal.
  destruct (pipe_loop_spec al pieces 1024 (replicate 1024 0) 0 []) as (buf & rest & freed & Hrun & -> & Hr); try done; [unfold slen; cbn; lia..|].
  change (slen []) with 0 in Hrun. rewrite Hrun. cbn [obind app]. destruct rest as [|x rest]; [done|]. cbn [app] in *.
  rewrite wr_ok by (unfold slen; rewrite length_app; cbn [length]; lia). cbn [obind]. unfold slen. rewrite Nat2Z.id, insert_app_r_alt, Nat.sub_diag by done.
  cbn [insert list_insert]. rewrite until_nul_stop. by eexists.
Qed.

(** A refused allocation is a store through NULL; nothing else depends on the allocator. *)
Lemma pipe_loop_al al pieces : forall cap n buf freed,
  pipe_loop al pieces cap n buf freed = pipe_loop (fun _ => true) pieces cap n buf freed \/
  (pipe_loop al pieces cap n buf freed = Undef /\ exists m, al m = false).
Proof.
  induction pieces as [|p pieces IH]; intros cap n buf freed; cbn [pipe_loop];
    (destruct (n + 256 >=? cap); [destruct (chk64 (cap * 2)) as [m| | |]; cbn [obind]; [|by left..]; destruct (al m) eqn:E; [|right; by eauto]|];
     [destruct (copy_n _ _ _ _ _) as [b| | |]; [|by left..]|]; cbn [obind]); [by left..| |];
    (destruct (_ >? _); [by left|]; destruct p; [by left|]; apply IH).
Qed.
Lemma command_text_al al pieces : command_text al pieces = command_text (fun _ => true) pieces \/
  (command_text al pieces = Undef /\ exists m, al m = false).
Proof.
  unfold command_text. destruct (al 1024) eqn:E; [|right; by eauto].
  destruct (pipe_loop_al al pieces 1024 0 (replicate 1024 0) 0) as [->|[-> H]]; [by left|by right].
Qed.

(** *** Input *)

Definition crlf (c : Z) : Prop := c = 10 \/ c = 13.

Lemma chop_loop_spec buf : forall fuel (n : nat), (n < fuel)%nat -> (n <= length buf)%nat ->
  exists m : nat, chop_loop fuel buf (Z.of_nat n) = Ok (Z.of_nat m) /\ (m <= n)%nat /\ Forall crlf (take (n - m) (drop m buf)) /\
    (m = 0%nat \/ (0 < m)%nat /\ exists c, buf !! (m - 1)%nat = Some c /\ ~ crlf c).
Proof.
  induction fuel as [|fuel IH]; intros n Hf Hn; [lia|]. cbn [chop_loop]. rewrite Z.gtb_ltb. destruct (Z.ltb_spec 0 (Z.of_nat n)) as [Hp|].
  - destruct (lookup_lt_is_Some_2 buf (n - 1)) as [c Hc]; [lia|]. rewrite (rd_ok _ _ c); [|lia|by replace (Z.to_nat (Z.of_nat n - 1)) with (n - 1)%nat by lia].
    cbn [obind]. destruct ((c =? 10) || (c =? 13)) eqn:E.
    + replace (Z.of_nat n - 1) with (Z.of_nat (n - 1)) by lia. destruct (IH (n - 1)%nat ltac:(lia) ltac:(lia)) as (m & -> & Hm & Hall & Hend).
      exists m. split_and!; [done|lia| |done]. replace (n - m)%nat with (S (n - 1 - m)) by lia. rewrite (take_S_r _ _ c).
      * apply Forall_app. split; [done|]. constructor; [|done]. unfold crlf. apply orb_true_iff in E as [?%Z.eqb_eq|?%Z.eqb_eq]; auto.
      * rewrite lookup_drop. by replace (m + (n - 1 - m))%nat with (n - 1)%nat by lia.
    + exists n. split_and!; [done|lia|by rewrite Nat.sub_diag, take_0|]. right. split; [lia|]. exists c. split; [done|]. unfold crlf.
      apply orb_false_iff in E as [?%Z.eqb_neq ?%Z.eqb_neq]. tauto.
  - exists n. split_and!; [done|lia|by rewrite Nat.sub_diag, take_0|left; lia].
Qed.

(** [n] and [bytes] as [read] gives them. *)
Lemma input_spec al n bytes : length bytes = Z.to_nat n -> n <= 4095 ->
  exists line tail, bytes = line ++ tail /\ Forall crlf tail /\ (line = [] \/ exists c, last line = Some c /\ ~ crlf c) /\
    lpp_input_fs al (fun _ => (n, bytes)) = if al 0%nat (slen line + 1) then Ok (SOwned (until_nul line)) else Undef.
Proof.
  intros Hb Hl. unfold lpp_input_fs. replace (if n <? 0 then 0 else n) with (Z.of_nat (length bytes)) by (destruct (Z.ltb_spec n 0); lia).
  set (buf := fill_front (replicate 4096 0) bytes).
  assert (take (length bytes) buf = bytes) as Htake by (unfold buf, fill_front; by apply take_app_length').
  assert (length buf = 4096%nat) as Hlen by (unfold buf, fill_front; rewrite length_app, length_drop, length_replicate; lia).
  destruct (chop_loop_spec buf (S (Z.to_nat (Z.of_nat (length bytes)))) (length bytes)) as (m & -> & Hm & Hall & Hend); [lia|lia|]. cbn [obind].
  assert (take m buf = take m bytes) as Hpre by (rewrite <- Htake, take_take; by rewrite Nat.min_l).
  exists (take m bytes), (drop m bytes). split_and!.
  - by rewrite take_drop.
  - rewrite <- Htake. replace (length bytes) with (m + (length bytes - m))%nat by lia. by rewrite <- take_drop_commute.
  - destruct Hend as [->|(H0 & c & Hc & Hn)]; [left; by rewrite take_0|]. right. exists c. split; [|done].
    rewrite last_lookup, length_take. replace (Nat.pred (m `min` length bytes))%nat with (m - 1)%nat by lia.
    rewrite lookup_take_lt, <- Htake, lookup_take_lt by lia. done.
  - assert (slen (take m bytes) = Z.of_nat m) as -> by (unfold slen; rewrite length_take; lia).
    unfold unchecked, fresh_str. destruct (al 0%nat (Z.of_nat m + 1)); [|done]. replace (Z.to_nat (Z.of_nat m + 1)) with (m + 1)%nat by lia.
    pose proof (copy_n_append buf 0 m 1 [] 0 (Z.of_nat m)) as H. change (Z.of_nat 0) with 0 in H. cbn [app] in H. rewrite H by (done || lia).
    cbn [obind]. rewrite drop_0, Hpre. rewrite wr_ok by (rewrite length_app, length_take; cbn [length replicate]; lia). cbn [obind].
    rewrite Nat2Z.id, insert_app_r_alt by (rewrite length_take; lia). rewrite length_take. replace (m - m `min` length bytes)%nat with 0%nat by lia.
    cbn [replicate insert list_insert]. by rewrite until_nul_stop.
Qed.

(** ** The properties *)

(** C26. Files read back what was written to them.  With every kernel that keeps its table of descriptors as
    documented, whatever its calls answer - open, seek, read, write and allocation refused, transfers cut
    short - the file builtins return and leave no descriptor open; the one exception is a reader that is told
    a length of [INT64_MAX] (ext4 tells it of a directory), where adding one for the terminator is
    undefined.  With a documented kernel that refuses none of the calls on a name, has a descriptor to give
    and serves transfers below 2 GB in full: writing a text to that name succeeds and changes that file alone;
    it then holds the text followed by whatever the old file had behind that length (the file is not
    truncated).  Reading it, asking for its size and for its existence answer accordingly and change nothing;
    appending adds at its end; and after deleting it, it does not exist and appending to it fails.  Old
    content and text are free of NUL and together below 2 GB. *)
Theorem file_io_exact :
  (forall k `{!Descriptors k} w al name text, (forall x, text = Some x -> cstr_ok x) ->
     (restores w (lpp_read_file_fs k al w name) \/
      lpp_read_file_fs k al w name = Undef /\ exists w1 fd, (lpp_sys_lseek k w1 fd 0 2).1 = INT64_MAX) /\
     restores w (lpp_write_file_fs k w name text) /\ restores w (lpp_append_file_fs k w name text) /\
     fds (lpp_file_exists_fs k w name).2 = fds w /\ fds (lpp_file_size_fs k w name).2 = fds w) /\
  (forall ch `{!Choices ch} w f, grants ch f -> serves_in_full ch -> (forall w', fds w' = fds w -> is_Some (new_fd ch w')) ->
   forall c, let old := default [] (files w !! f) in let kept := c ++ drop (length c) old in
   cstr_ok c -> cstr_ok old -> slen c + slen old < 2 ^ 31 - 4096 ->
   exists w1, lpp_write_file_fs (posix ch) w (Some f) (Some c) = Ok (0, w1) /\ w1 = set_files w (<[f := kept]> (files w)) /\
     (forall al, al 0%nat (slen kept + 1) = true -> lpp_read_file_fs (posix ch) al w1 (Some f) = Ok (Owned kept, w1)) /\
     lpp_file_exists_fs (posix ch) w1 (Some f) = (1, w1) /\ lpp_file_size_fs (posix ch) w1 (Some f) = (slen kept, w1) /\
     (forall d, cstr_ok d -> slen d < 2 ^ 31 - 4096 ->
        lpp_append_file_fs (posix ch) w1 (Some f) (Some d) = Ok (0, set_files w (<[f := kept ++ d]> (files w)))) /\
     exists w2, lpp_delete_file_fs (posix ch) w1 (Some f) = (0, w2) /\ files w2 = delete f (files w) /\
       lpp_append_file_fs (posix ch) w2 (Some f) (Some c) = Ok (-1, w2) /\ lpp_file_exists_fs (posix ch) w2 (Some f) = (0, w2)).
Proof.
  split.
  { intros k Hk w al name text Ht. split_and!; [by apply read_restores|by apply put_restores|by apply put_restores|apply probe_restores; done..]. }
  intros ch Hch w f Hg Hk Hfd c old kept Hc Hold Hlen. assert (0 <= slen c /\ 0 <= slen old) as [? ?] by (unfold slen; lia).
  assert (cstr_ok kept) as Hkept by (apply Forall_app; split; [done|by apply Forall_drop]).
  assert (slen kept < 2 ^ 31 - 4096) as Hkl by (unfold kept, slen in *; rewrite length_app, length_drop; lia).
  assert (slen kept <= INT64_MAX) as Hkm by (pow2; lia).
  set (w1 := set_files w (<[f := kept]> (files w))). assert (files w1 !! f = Some kept) as Hf1 by apply lookup_insert_eq.
  exists w1. split_and!; [..|set (w2 := set_files w1 (delete f (files w1))); assert (files w2 !! f = None) as Hf2 by (cbn; apply lookup_delete_eq); exists w2; split_and!].
  - unfold lpp_write_file_fs. rewrite (write_exact ch w f (Hfd w eq_refl) Hg Hk 65 c (files w !! f)); try done; [lia|by right].
  - done.
  - intros al Hal. apply read_exact; try done. by apply Hfd.
  - apply (probe_exact ch w1 f (Hfd w1 eq_refl) Hg kept Hf1 Hkm).
  - apply (probe_exact ch w1 f (Hfd w1 eq_refl) Hg kept Hf1 Hkm).
  - intros d Hd Hdl. unfold lpp_append_file_fs.
    rewrite (write_exact ch w1 f (Hfd w1 eq_refl) Hg Hk 1025 d (Some kept)) by (done || (by left; eexists)). do 2 f_equal.
    unfold w1, set_files. cbn. by rewrite insert_insert_eq.
  - unfold lpp_delete_file_fs. calls. unfold posix_unlink. destruct (Hg w1) as (_ & _ & ->). by rewrite Hf1.
  - cbn. by apply delete_insert_eq.
  - unfold lpp_append_file_fs, put_file. calls. unfold posix_open. destruct (Hg w2) as (-> & _). by rewrite Hf2.
  - unfold lpp_file_exists_fs. calls. unfold posix_open. destruct (Hg w2) as (-> & _). by rewrite Hf2.
Qed.

(** A kernel with one descriptor to give that serves in full, and one whose files cannot seek. *)
Definition plain : choices := mk_choices (fun w => match fds w !! 3 with None => Some 3 | Some _ => None end) (fun _ n => n) (fun _ _ => None).
Definition seekless : choices := mk_choices (new_fd plain) (moved plain) (fun _ c => match c with Cseek _ => Some (-29) | _ => None end).
Lemma one_fd w fd : match fds w !! 3 with None => Some 3 | Some _ => None end = Some fd -> 3 <= fd /\ fds w !! fd = None.
Proof. intros H. destruct (fds w !! 3) eqn:E; [done|]. by injection H as <-. Qed.
#[export] Instance plain_choices : Choices plain.
Proof. split; [apply one_fd|done|done]. Qed.
#[export] Instance seekless_choices : Choices seekless.
Proof. split; [apply one_fd|done|]. intros w [] e H; cbn in H; try done. by injection H as <-. Qed.
Definition world0 : world := mk_world ∅ ∅ ∅ [].

Lemma file_io_exact_witness :
  restores (set_files world0 {[ [102] := [104] ]}) (lpp_read_file_fs (posix seekless) (fun _ _ => true) (set_files world0 {[ [102] := [104] ]}) (Some [102])) /\
  exists w1, lpp_write_file_fs (posix plain) world0 (Some [102]) (Some [104; 105]) = Ok (0, w1) /\
    lpp_read_file_fs (posix plain) (fun _ _ => true) w1 (Some [102]) = Ok (Owned [104; 105], w1).
Proof.
  destruct file_io_exact as [Hr H]. split.
  - destruct (Hr (posix seekless) _ (set_files world0 {[ [102] := [104] ]}) (fun _ _ => true) (Some [102]) None ltac:(discriminate)) as [[H1|[H1 _]] _]; [exact H1|].
    vm_compute in H1. discriminate.
  - destruct (H plain _ world0 [102]) with (c := [104; 105]) as (w1 & H1 & _ & H2 & _).
    + done.
    + intros w n Hn. reflexivity.
    + intros w' E. exists 3. cbn. rewrite E. reflexivity.
    + repeat constructor; lia.
    + constructor.
    + vm_compute. reflexivity.
    + exists w1. exact (conj H1 (H2 (fun _ _ => true) eq_refl)).
Defined.

(** A buffer saved to a file and loaded again is the same buffer, however small the pieces the kernel
    moves, if the file was not longer before (it is not truncated); the rest of the file system is
    untouched and no descriptor stays open. *)
Theorem buffer_file_roundtrip ch `{!Choices ch} w f b : grants ch f -> progresses ch -> (forall w', fds w' = fds w -> is_Some (new_fd ch w')) ->
  buf_ok b -> 0 < bsize b -> Z.of_nat (length (default [] (files w !! f))) <= bsize b ->
  exists w1, lpp_buf_write_fs (posix ch) w (Some f) (Some b) = Ok (0, w1) /\ w1 = set_files w (<[f := bdata b]> (files w)) /\
    lpp_buf_read_fs (posix ch) true w1 (Some f) = Ok (Some b, w1).
Proof.
  intros Hg Hp Hfd (Hs & Hm & Hb) Hpos Hold. set (old := default [] (files w !! f)) in *. set (w1 := set_files w (<[f := bdata b]> (files w))).
  exists w1. split_and!; [|done|].
  - unfold lpp_buf_write_fs. calls. destruct (open_cases ch w f 65) as [(e & _ & _ & Hbad)|(fd & _ & H3 & Hn & ->)].
    { destruct Hbad as [Hb1|[[_ Hb1]|Hb1]]; [destruct (Hg w) as (Ho & _); rewrite Ho in Hb1; by destruct Hb1|done|]. destruct (Hfd w eq_refl). congruence. }
    rewrite (proj2 (Z.ltb_ge fd 0)), Hs by lia.
    pose proof (write_loop_spec ch Hp f (bdata b) old fd H3) as Hloop. change 0 with (Z.of_nat 0) at 4. rewrite (Hloop _ _ 0%nat).
    + unfold w1, set_files, set_fds. cbn. rewrite insert_insert_eq, close_open by done. by rewrite drop_ge, app_nil_r by lia.
    + lia.
    + lia.
    + cbn. by rewrite lookup_insert_eq.
    + cbn. rewrite lookup_insert_eq. by rewrite take_0, drop_0.
  - assert (files w1 !! f = Some (bdata b)) as Hf1 by apply lookup_insert_eq.
    unfold lpp_buf_read_fs. calls. destruct (open_cases ch w1 f 0) as [(e & _ & _ & Hbad)|(fd & _ & H3 & Hn & ->)].
    { destruct Hbad as [Hb1|[[Hb1 _]|Hb1]]; [destruct (Hg w1) as (Ho & _); rewrite Ho in Hb1; by destruct Hb1|congruence|]. destruct (Hfd w1 eq_refl). congruence. }
    rewrite (proj2 (Z.ltb_ge fd 0)) by lia. rewrite Hf1. change (Z.testbit 0 9) with false. cbn [default]. unfold id.
    set (w2 := mk_world _ _ _ _). assert (fds w2 !! fd = Some (mk_desc f 0 false false)) as Hd2 by apply lookup_insert_eq.
    assert (files w2 !! f = Some (bdata b)) as Hf2 by apply lookup_insert_eq.
    assert (0 <= slen (bdata b) <= INT64_MAX) as Hsz by (unfold slen in *; pow2; lia).
    rewrite (lseek_open ch w2 fd _ 0 2 f (bdata b) (slen (bdata b)) Hg Hd2 Hf2) by (cbn [Z.eqb Pos.eqb]; lia). set (size := slen (bdata b)).
    set (w3 := set_pos w2 fd _ size). assert (fds w3 !! fd = Some (mk_desc f size false false)) as Hd3 by apply lookup_insert_eq.
    rewrite (lseek_open ch w3 fd _ 0 0 f (bdata b) 0 Hg Hd3 Hf2) by (cbn [Z.eqb Pos.eqb]; pow2; lia).
    set (w4 := set_pos w3 fd _ 0). assert (fds w4 !! fd = Some (mk_desc f 0 false false)) as Hd4 by apply lookup_insert_eq.
    rewrite (proj2 (Z.ltb_ge size 0)), (proj2 (Z.leb_gt size 0)) by (unfold size, slen in *; lia). cbn [negb]. unfold size, slen in *. clear size. rewrite Nat2Z.id.
    destruct (read_loop_spec ch Hp f (bdata b) fd (replicate (length (bdata b)) 0) (length_replicate _ _) (S (length (bdata b))) w4 0) as (w5 & Hr & Hw5);
      [lia|lia|done|done|]. change (Z.of_nat 0) with 0 in Hr. rewrite take_0, drop_0, app_nil_l in Hr. rewrite Hr. cbn [obind]. rewrite Z.eqb_refl. cbn [negb].
    unfold posix_close. rewrite Hw5. unfold w4, w3, w2, w1, set_pos, set_fds, set_files. cbn.
    rewrite !delete_insert_eq, insert_insert_eq, delete_id by done. rewrite <- Hs. by destruct b.
Qed.

(** C27. Streams carry exactly the bytes of the program.  Sending a string on an open socket, whatever pieces
    the kernel takes, returns the number of bytes sent; they are a prefix of the string, appended to what
    was sent before, and the rest is missing only if a call moved nothing; the loop always ends.  Printing
    an integer, the smallest included, makes one write of its decimal digits and a line end: what the kernel
    takes of it is on the console, and what it does not take is lost, because the count is ignored.  The
    output of a command (less than 2^60 bytes, in pieces of at most 256 as the pipe delivers them) is the
    concatenation of the pieces up to a NUL byte, or, if an allocation is refused, a store through NULL.
    A read of the standard input, failed or of at most the 4095 bytes asked for, comes back up to its first
    NUL byte without the line ends at its end and with nothing else removed; a refused allocation is again
    a store through NULL. *)
Theorem stream_io_exact ch `{!Choices ch} w :
  (forall fd s s0, 0 <= fd -> cstr_ok s -> sent w !! fd = Some s0 ->
     exists t, lpp_net_send_all_fs (posix ch) w fd (Some s) = Ok (t, set_sent w (<[fd := s0 ++ take (Z.to_nat t) s]> (sent w))) /\
       0 <= t <= slen s /\ (t < slen s -> exists w1, moved ch w1 (slen s - t) <= 0)) /\
  (forall v, INT64_MIN <= v <= INT64_MAX -> let text := fmt_lld v ++ [10] in
     exists n, (n <= length text)%nat /\ lpp_print_int (posix ch) w v = Ok (set_console w (console w ++ take n text)) /\
       (moved ch w (Z.of_nat (length text)) = Z.of_nat (length text) -> n = length text)) /\
  (forall al pieces, Forall (fun p => p <> [] /\ (length p <= 256)%nat) pieces -> slen (concat pieces) < 2 ^ 60 ->
     (exists freed, command_text al pieces = Ok (until_nul (concat pieces), freed)) \/
     (command_text al pieces = Undef /\ exists n, al n = false)) /\
  (forall al n bytes, length bytes = Z.to_nat n -> n <= 4095 ->
     exists line tail, bytes = line ++ tail /\ Forall crlf tail /\ (line = [] \/ exists c, last line = Some c /\ ~ crlf c) /\
       lpp_input_fs al (fun _ => (n, bytes)) = if al 0%nat (slen line + 1) then Ok (SOwned (until_nul line)) else Undef).
Proof.
  split_and!.
  - intros fd s s0 Hfd Hs Hw. unfold lpp_net_send_all_fs. rewrite (proj2 (Z.ltb_ge fd 0)), strlen_ok by (lia || done). cbn [obind].
    destruct (send_loop_spec ch fd s (S (length s)) w 0 s0) as (t & w' & -> & Hr & -> & Hstop); [unfold slen; lia|unfold slen; lia| |by exists t].
    cbn [Z.to_nat take]. by rewrite app_nil_r.
  - intros v Hv text. rewrite print_int_spec by done. calls. fold text. destruct (console_prefix ch w text) as (n & Hn & -> & Hall). by exists n.
  - intros al pieces Hp Hb. destruct (command_text_al al pieces) as [->|]; [left|by right]. by apply command_text_spec.
  - intros al n bytes. apply input_spec.
Qed.

Lemma stream_io_exact_witness :
  lpp_print_int (posix plain) world0 INT64_MIN = Ok (set_console world0 (fmt_lld INT64_MIN ++ [10])) /\
  (exists freed, command_text (fun _ => true) (replicate 5 (replicate 256 97)) = Ok (replicate 1280 97, freed)) /\
  (exists line tail, [104; 105; 13; 10] = line ++ tail /\ Forall crlf tail /\ (line = [] \/ exists c, last line = Some c /\ ~ crlf c) /\
     lpp_input_fs (fun _ _ => true) (fun _ => (4, [104; 105; 13; 10])) = Ok (SOwned (until_nul line))).
Proof.
  destruct (stream_io_exact plain world0) as (_ & H1 & H2 & H3). split; [|split].
  - destruct (H1 INT64_MIN) as (n & _ & -> & Hn); [split; vm_compute; discriminate|]. rewrite (Hn eq_refl). reflexivity.
  - destruct (H2 (fun _ => true) (replicate 5 (replicate 256 97))) as [[freed H]|[_ [n H]]].
    + repeat constructor; [discriminate..].
    + vm_compute. reflexivity.
    + exists freed. rewrite H. vm_compute. reflexivity.
    + discriminate H.
  - apply (H3 (fun _ _ => true) 4 [104; 105; 13; 10]); [reflexivity|discriminate].
Defined.
