(* ===== verification/Concur.v ===== *)
(** * Threads (runtime/lpp_concur.c)

    [lpp_thread_spawn] hands the function and its argument to the new thread in a heap record
    (the trampoline) that the thread frees before it calls the function; [lpp_thread_join] waits
    and returns the result.  The threads run interleaved: [thread_step] is one action of one
    thread.  The C heap is the set of live records; using a record that was freed is undefined.
    Addresses and handles are chosen by [malloc] and the operating system, so they are arguments,
    with [None] for a refusal.  [code fn arg] is what the compiled function returns. *)

From stdpp Require Import gmap relations.
From S2P Require Import Prelude.

Inductive platform := Posix | Windows.

Inductive tstate :=
| Ready (param : Z)
| Running (fn_ptr arg : Z)
| Done (res : Z).

#[export] Instance tstate_eq_dec : EqDecision tstate.
Proof. solve_decision. Defined.

Record LppThreadTrampoline := mk_tramp { t_fn_ptr : Z; t_arg : Z }.

Record world := mk_world {
  tramps : gmap Z LppThreadTrampoline;
  threads : list tstate;
  handles : gmap Z nat
}.

Section threads.
Context (code : Z -> Z -> Z) (pl : platform).

(** A POSIX handle is a [malloc]ed [pthread_t]; a Windows handle is the kernel's.  Either is
    given by [handle]; [created] says whether the thread could be made. *)
Definition lpp_thread_spawn (w : world) (t : option Z) (handle : option Z) (created : bool) (fn_ptr arg : Z)
  : outcome (Z * world) :=
  match t with
  | None => Panic "out of memory in thread_spawn"
  | Some t =>
      match pl, handle with
      | Posix, None => Panic "out of memory"
      | Windows, None => Panic "failed to create OS thread"
      | _, Some h =>
          if created then
            Ok (h, mk_world (<[t := mk_tramp fn_ptr arg]> (tramps w)) (threads w ++ [Ready t])
                     (<[h := length (threads w)]> (handles w)))
          else Panic "failed to create thread"
      end
  end.

(** What the stub hands to the system as the thread's result: a pointer on POSIX, a 32-bit
    [DWORD] on Windows. *)
Definition stub_result (res : Z) : Z := match pl with Posix => res | Windows => u32 res end.

(** [lpp_thread_stub]: take the trampoline apart and free it; then run the function. *)
Definition lpp_thread_stub (w : world) (i : nat) : outcome world :=
  match threads w !! i with
  | Some (Ready t) =>
      match tramps w !! t with
      | Some p => Ok (mk_world (delete t (tramps w)) (<[i := Running (t_fn_ptr p) (t_arg p)]> (threads w)) (handles w))
      | None => Undef
      end
  | Some (Running fn_ptr arg) =>
      Ok (mk_world (tramps w) (<[i := Done (stub_result (code fn_ptr arg))]> (threads w)) (handles w))
  | Some (Done _) | None => Ok w
  end.

(** [None]: the caller waits.  The exit code of Windows is an unsigned 32-bit number. *)
Definition lpp_thread_join (w : world) (handle : Z) : outcome (option (Z * world)) :=
  if handle =? 0 then Ok (Some (0, w))
  else
    match handles w !! handle with
    | None => Undef
    | Some i =>
        match threads w !! i with
        | Some (Done res) =>
            Ok (Some (match pl with Posix => i64 res | Windows => u32 res end,
                      mk_world (tramps w) (threads w) (delete handle (handles w))))
        | Some _ => Ok None
        | None => Undef
        end
    end.

(** [online] is what the system reports. *)
Definition lpp_cpu_count (online : Z) : Z :=
  match pl with Posix => if online >? 0 then online else 1 | Windows => u32 online end.
Definition lpp_thread_pin (set_affinity : Z -> bool) (core_id : Z) : Z :=
  match pl with
  | Posix => 1
  | Windows =>
      if (core_id <? 0) || (core_id >=? 64) then 0
      else b2z (set_affinity (u64 (Z.shiftl 1 core_id)))
  end.

(** ** Interleavings *)

(** The calls a program makes, with the arguments each spawn was given. *)
Inductive tstep : world * list (Z * Z) -> world * list (Z * Z) -> Prop :=
| t_spawn w w' log t h fn_ptr arg :
    tramps w !! t = None -> handles w !! h = None -> h <> 0 ->
    lpp_thread_spawn w (Some t) (Some h) true fn_ptr arg = Ok (h, w') ->
    tstep (w, log) (w', log ++ [(fn_ptr, arg)])
| t_run w w' log i : lpp_thread_stub w i = Ok w' -> tstep (w, log) (w', log)
| t_join w w' log h r : lpp_thread_join w h = Ok (Some (r, w')) -> tstep (w, log) (w', log).

(** Thread [i] was spawned with [fa]; its trampoline lives exactly until it starts. *)
Definition thread_ok (w : world) (st : tstate) (fa : Z * Z) : Prop :=
  match st with
  | Ready t => tramps w !! t = Some (mk_tramp fa.1 fa.2)
  | Running f a => (f, a) = fa
  | Done r => r = stub_result (code fa.1 fa.2)
  end.

Record world_ok (w : world) (log : list (Z * Z)) : Prop := {
  wo_threads : Forall2 (thread_ok w) (threads w) log;
  wo_owner : forall t, is_Some (tramps w !! t) <-> Ready t ∈ threads w;
  wo_once : forall i j t, threads w !! i = Some (Ready t) -> threads w !! j = Some (Ready t) -> i = j;
  wo_handles : forall h i, handles w !! h = Some i -> (i < length (threads w))%nat
}.

Definition world0 : world := mk_world ∅ [] ∅.

Lemma world0_ok : world_ok world0 [].
Proof.
  split; [constructor| |done|].
  - intros t. split; [by intros [? [=]]|]. by intros ?%elem_of_nil.
  - intros h i H. done.
Qed.

Lemma spawn_ok w w' log t h f a : world_ok w log -> tramps w !! t = None ->
  lpp_thread_spawn w (Some t) (Some h) true f a = Ok (h, w') -> world_ok w' (log ++ [(f, a)]).
Proof.
  intros [H1 H2 H3 H4] Ht Hs.
  assert (w' = mk_world (<[t := mk_tramp f a]> (tramps w)) (threads w ++ [Ready t]) (<[h := length (threads w)]> (handles w))) as ->.
  { unfold lpp_thread_spawn in Hs. destruct pl; by injection Hs as <-. }
  assert (Ready t ∉ threads w) as Hnt by (intros Hin; apply H2 in Hin; rewrite Ht in Hin; by destruct Hin).
  split; cbn [tramps threads handles].
  - apply Forall2_app; [|repeat constructor; cbn; by rewrite lookup_insert_eq].
    apply Forall2_same_length_lookup. apply Forall2_same_length_lookup in H1 as [Hl H1]. split; [done|].
    intros i st fa Hi Hf. specialize (H1 i st fa Hi Hf). destruct st as [t'|f' a'|r]; cbn in *; [|done|done].
    rewrite lookup_insert_ne; [done|]. intros <-. apply Hnt. by apply list_elem_of_lookup_2 in Hi.
  - intros t'. rewrite elem_of_app, list_elem_of_singleton. destruct (decide (t' = t)) as [->|Hne].
    + rewrite lookup_insert_eq. split; [by right|by eexists].
    + rewrite lookup_insert_ne by done. rewrite H2. split; [by left|]. intros [?|[= ?]]; congruence.
  - assert (forall i u, (threads w ++ [Ready t]) !! i = Some (Ready u) -> threads w !! i = Some (Ready u) \/ (i = length (threads w) /\ u = t)) as Hcase.
    { intros i u Hi. apply lookup_app_Some in Hi as [Hi|[Hge Hi]]; [by left|]. right. destruct (i - length (threads w))%nat eqn:E; [|done].
      injection Hi as ->. split; [lia|done]. }
    intros i j u Hi Hj. destruct (Hcase _ _ Hi) as [Hi'|[-> ->]], (Hcase _ _ Hj) as [Hj'|[-> Hu]]; [by eapply H3| | |done].
    + subst u. apply list_elem_of_lookup_2 in Hi'. done.
    + apply list_elem_of_lookup_2 in Hj'. done.
  - intros h' i Hh. rewrite length_app. cbn. destruct (decide (h' = h)) as [->|Hne].
    + rewrite lookup_insert_eq in Hh. injection Hh as <-. lia.
    + rewrite lookup_insert_ne in Hh by done. apply H4 in Hh. lia.
Qed.

(** A thread moves on to a state without a trampoline; the one it had, if any, is freed. *)
Lemma advance_ok w log i old st fa tr : world_ok w log -> threads w !! i = Some old -> log !! i = Some fa -> (forall t, st <> Ready t) ->
  (forall w', thread_ok w' st fa) -> (forall t, tr !! t = if decide (old = Ready t) then None else tramps w !! t) ->
  world_ok (mk_world tr (<[i := st]> (threads w)) (handles w)) log.
Proof.
  intros [H1 H2 H3 H4] Ei Hfa Hst Hok Htr. pose proof (lookup_lt_Some _ _ _ Ei) as Hlt.
  assert (forall j t, <[i := st]> (threads w) !! j = Some (Ready t) <-> j <> i /\ threads w !! j = Some (Ready t)) as Hin.
  { intros j t. destruct (decide (j = i)) as [->|Hne].
    - rewrite list_lookup_insert_eq by done. split; [intros [= ?]; by destruct (Hst t)|by intros [? _]].
    - rewrite list_lookup_insert_ne by done. tauto. }
  split; cbn [tramps threads handles].
  - apply Forall2_same_length_lookup. apply Forall2_same_length_lookup in H1 as [Hl H1]. split; [by rewrite length_insert|].
    intros j st' fa' Hj Hf'. destruct (decide (j = i)) as [->|Hne].
    + rewrite list_lookup_insert_eq in Hj by done. injection Hj as <-. rewrite Hfa in Hf'. injection Hf' as <-. apply Hok.
    + rewrite list_lookup_insert_ne in Hj by done. specialize (H1 j st' fa' Hj Hf'). destruct st' as [t|f a|r]; cbn in *; [|done|done].
      rewrite Htr. destruct (decide (old = Ready t)) as [->|]; [|done]. destruct Hne. by eapply H3.
  - intros t. rewrite Htr, list_elem_of_lookup. destruct (decide (old = Ready t)) as [->|Hne].
    + split; [by intros [? [=]]|]. intros [j [Hji Hj]%Hin]. destruct Hji. by eapply H3.
    + rewrite H2, list_elem_of_lookup. split; intros [j Hj]; exists j; apply Hin || apply Hin in Hj as [_ Hj]; [|done].
      split; [|done]. intros ->. congruence.
  - intros j k t [_ Hj]%Hin [_ Hk]%Hin. by eapply H3.
  - intros h j Hh. rewrite length_insert. by eapply H4.
Qed.

Lemma stub_ok w log i : world_ok w log -> exists w', lpp_thread_stub w i = Ok w' /\ world_ok w' log.
Proof.
  intros Hw. unfold lpp_thread_stub. destruct (threads w !! i) as [st|] eqn:Ei; [|by exists w].
  destruct (Forall2_lookup_l _ _ _ _ _ (wo_threads _ _ Hw) Ei) as (fa & Hfa & Hst). destruct st as [t|f a|r]; cbn in Hst; [| |by exists w].
  - rewrite Hst. eexists. split; [done|]. eapply advance_ok; [exact Hw|exact Ei|exact Hfa|done| |]; [intros; by destruct fa|].
    intros t'. destruct (decide (Ready t = Ready t')) as [[= ->]|Hne]; [by rewrite lookup_delete_eq|]. rewrite lookup_delete_ne; [done|congruence].
  - eexists. split; [done|]. eapply advance_ok; [exact Hw|exact Ei|exact Hfa|done| |]; [intros; cbn; by rewrite <- Hst|]. by intros t.
Qed.

Lemma joined_ok w w' log h r : world_ok w log -> lpp_thread_join w h = Ok (Some (r, w')) -> world_ok w' log.
Proof.
  intros Hw Hj. unfold lpp_thread_join in Hj. destruct (h =? 0); [by injection Hj as _ <-|]. destruct (handles w !! h) as [i|] eqn:Eh; [|done].
  destruct (threads w !! i) as [[]|]; try done. injection Hj as _ <-. destruct Hw as [H1 H2 H3 H4]. split; [done..|]. cbn.
  intros h' j Hh. rewrite lookup_delete_Some in Hh. by eapply H4, Hh.
Qed.

Lemma threads_reachable s : rtc tstep (world0, []) s -> world_ok s.1 s.2.
Proof.
  revert s. apply (rtc_ind_r (fun s => world_ok s.1 s.2)); [apply world0_ok|]. intros s1 s2 _ Hs Hw.
  destruct Hs as [w w' log t h f a Ht _ _ Hs|w w' log i Hs|w w' log h r Hs]; cbn [fst snd] in *.
  - by eapply spawn_ok.
  - destruct (stub_ok w log i Hw) as (w2 & E & Hw2). rewrite E in Hs. by injection Hs as <-.
  - by eapply joined_ok.
Qed.

(** C34. Threads deliver their results, under every interleaving of spawns, joins and steps of the
    threads.  No thread ever touches a trampoline that was freed, every trampoline is freed exactly
    once (the live ones are those of the threads that have not started, one each), every thread can
    always take its next step, and joining a finished thread returns what its function returned for
    its argument - in full on POSIX, only the low 32 bits, without the sign, on Windows. *)
Theorem threads_deliver w log :
  rtc tstep (world0, []) (w, log) ->
  (forall i, exists w', lpp_thread_stub w i = Ok w') /\
  (forall t, is_Some (tramps w !! t) <-> exists i, threads w !! i = Some (Ready t) /\ forall j, threads w !! j = Some (Ready t) -> j = i) /\
  (forall h i, h <> 0 -> handles w !! h = Some i ->
    (exists r, threads w !! i = Some (Done r)) \/ lpp_thread_join w h = Ok None) /\
  (forall h i fn_ptr arg r, h <> 0 -> handles w !! h = Some i -> log !! i = Some (fn_ptr, arg) ->
    INT64_MIN <= code fn_ptr arg <= INT64_MAX -> threads w !! i = Some (Done r) ->
    exists w', lpp_thread_join w h = Ok (Some (match pl with Posix => code fn_ptr arg | Windows => u32 (code fn_ptr arg) end, w')) /\
      handles w' !! h = None).
Proof.
  intros Hr. pose proof (threads_reachable _ Hr) as Hw. cbn [fst snd] in Hw. pose proof Hw as [H1 H2 H3 H4]. split_and!.
  - intros i. destruct (stub_ok w log i Hw) as (w' & E & _). by exists w'.
  - intros t. rewrite H2, list_elem_of_lookup. split; [|by intros (i & ? & _); exists i]. intros [i Hi]. exists i. split; [done|]. intros j Hj. by eapply H3.
  - intros h i Hh Hi. unfold lpp_thread_join. rewrite (proj2 (Z.eqb_neq h 0)), Hi by done.
    destruct (lookup_lt_is_Some_2 _ _ (H4 h i Hi)) as [st ->]. destruct st as [| |r]; [by right|by right|left; by eexists].
  - intros h i f a r Hh Hi Hf Hrange Hd. unfold lpp_thread_join. rewrite (proj2 (Z.eqb_neq h 0)), Hi, Hd by done.
    pose proof (Forall2_lookup_lr _ _ _ _ _ _ H1 Hd Hf) as Hres. cbn in Hres. exists (mk_world (tramps w) (threads w) (delete h (handles w))).
    split; [|apply lookup_delete_eq]. do 3 f_equal. rewrite Hres. unfold stub_result. destruct pl; [by apply i64_id|apply uwrap_uwrap].
Qed.
End threads.

(** On Windows a thread that returns -1 is joined as 4294967295. *)
Definition minus_one : Z -> Z -> Z := fun _ _ => -1.
Definition demo_world : world := mk_world ∅ [Done (u32 (-1))] {[ 7 := 0%nat ]}.

Lemma demo_world_reachable : rtc (tstep minus_one Windows) (world0, []) (demo_world, [(1, 2)]).
Proof.
  eapply rtc_l; [apply (t_spawn _ _ world0 (mk_world {[ 5 := mk_tramp 1 2 ]} [Ready 5] {[ 7 := 0%nat ]}) [] 5 7 1 2); done|].
  eapply rtc_l; [apply (t_run _ _ _ (mk_world ∅ [Running 1 2] {[ 7 := 0%nat ]}) _ 0); reflexivity|].
  apply rtc_once. apply (t_run _ _ _ _ _ 0). reflexivity.
Qed.

Lemma threads_deliver_witness :
  exists w', lpp_thread_join Windows demo_world 7 = Ok (Some (4294967295, w')).
Proof.
  destruct (threads_deliver minus_one Windows demo_world [(1, 2)] demo_world_reachable) as (_ & _ & _ & H).
  destruct (H 7 0%nat 1 2 (u32 (-1))) as (w' & E & _); [discriminate|reflexivity|reflexivity|split; discriminate|reflexivity|].
  exists w'. exact E.
Defined.
