(* ===== verification/WinArc.v ===== *)
(** * Reference counting on freestanding Windows (runtime/windows_x86_64_min.c)

    The header has no magic word and no generation: [lpp_arc_retain] and [lpp_arc_release] take every
    pointer but NULL for an object.  Arena nodes carry a flag in the size field, so that only they pay for
    the search of their region; the region and its records are objects of the same heap.  The heap is that
    of [Arc]: payload addresses to headers with the references the destructor releases ([wowned]) and
    whether the block was given back ([wfreed]).

    The theorem relates this runtime to the host's, call by call: whatever [Arc] proves of a program on
    the host holds of the same program here.  The exception are weak handles. *)

From stdpp Require Import gmap.
From S2P Require Import Prelude ListRt Arc.

Record wblock := mk_wb {
  wcount : Z;
  wdtor : bool;
  allocation_size : Z;
  wowned : list Z;
  wfreed : bool
}.
Record wstate := mk_ws { wheap : gmap Z wblock; lpp_arena_regions : list region }.

Definition set_wheap (st : wstate) (h : gmap Z wblock) : wstate := mk_ws h (lpp_arena_regions st).
Definition set_wregions (st : wstate) (rs : list region) : wstate := mk_ws (wheap st) rs.
Definition set_wcount (b : wblock) (n : Z) : wblock := mk_wb n (wdtor b) (allocation_size b) (wowned b) (wfreed b).
Definition set_size (b : wblock) (n : Z) : wblock := mk_wb (wcount b) (wdtor b) n (wowned b) (wfreed b).
Definition set_wfreed (b : wblock) : wblock := mk_wb (wcount b) (wdtor b) (allocation_size b) (wowned b) true.
Definition set_wowned (b : wblock) (cs : list Z) : wblock := mk_wb (wcount b) (wdtor b) (allocation_size b) cs (wfreed b).

Definition LPP_WIN_ARENA_FLAG : Z := 2 ^ 63.
Definition header_size : Z := 24.

(** [addr]: the payload in the block that HeapAlloc serves. *)
Definition lpp_arc_alloc_with_destructor_w (st : wstate) (addr : option Z) (sz : Z) (dtor : bool) : Z * wstate :=
  if (sz <? 0) || (u64 sz >? u64 (-1) - header_size) then (0, st)
  else
    let need := u64 (u64 sz + header_size) in
    match addr with
    | None => (0, st)
    | Some p => (p, set_wheap st (<[p := mk_wb 1 dtor need [] false]> (wheap st)))
    end.
Definition lpp_arc_alloc_w (st : wstate) (addr : option Z) (sz : Z) : Z * wstate :=
  lpp_arc_alloc_with_destructor_w st addr sz false.

Definition lpp__is_immortal_w (b : wblock) : bool := u32 (wcount b) =? LPP_ARC_IMMORTAL.
Definition lpp_win_is_arena_header (b : wblock) : bool :=
  negb (Z.land (allocation_size b) LPP_WIN_ARENA_FLAG =? 0).

(** The header in front of a pointer that is not NULL. *)
Definition wheader (st : wstate) (p : Z) : outcome wblock :=
  match wheap st !! p with
  | Some b => if wfreed b then Undef else Ok b
  | None => Undef
  end.

Definition lpp_arc_free_w (st : wstate) (p : Z) : outcome wstate :=
  let! b := wheader st p in Ok (set_wheap st (<[p := set_wfreed b]> (wheap st))).

Definition lpp_arena_for_header (st : wstate) (p : Z) : option Z := find_region (lpp_arena_regions st) p.
Definition get_wregion (st : wstate) (id : Z) : option region :=
  list_find (fun r => rid r = id) (lpp_arena_regions st) ≫= fun x => Some x.2.

Section with_release.
Context (release : wstate -> Z -> outcome wstate).

Fixpoint release_all_w (st : wstate) (cs : list Z) : outcome wstate :=
  match cs with
  | [] => Ok st
  | c :: cs => let! st := release st c in release_all_w st cs
  end.

Fixpoint destroy_records_w (st : wstate) (recs : list (Z * Z)) : outcome wstate :=
  match recs with
  | [] => Ok st
  | (rec, node) :: recs =>
      let! st := lpp_arc_free_w st node in
      let! st := release st rec in
      destroy_records_w st recs
  end.

Definition lpp_arena_destroy (st : wstate) (r : region) : outcome wstate :=
  let st := set_wregions st (unlink_region (lpp_arena_regions st) (rid r)) in
  let! st := destroy_records_w st (records r) in
  release st (rid r).

(** Also the body of [lpp_arena_release]. *)
Definition lpp_arena_node_zero (st : wstate) (id : Z) : outcome wstate :=
  match get_wregion st id with
  | None => Undef
  | Some r =>
      let r := mk_region (rid r) (i32 (rrefs r - 1)) (records r) in
      let st := set_wregions st (put_region (lpp_arena_regions st) r) in
      if rrefs r =? 0 then lpp_arena_destroy st r else Ok st
  end.
End with_release.

Definition lpp_arc_retain_w (st : wstate) (p : Z) : outcome wstate :=
  if p =? 0 then Ok st
  else
    let! b := wheader st p in
    if lpp__is_immortal_w b then Ok st
    else Ok (set_wheap st (<[p := set_wcount b (i32 (wcount b + 1))]> (wheap st))).

Fixpoint lpp_arc_release_w (fuel : nat) (st : wstate) (p : Z) : outcome wstate :=
  match fuel with
  | O => NoFuel
  | S f =>
      if p =? 0 then Ok st
      else
        let! b := wheader st p in
        if lpp__is_immortal_w b then Ok st
        else
          let arena := lpp_win_is_arena_header b in
          let r := if arena then lpp_arena_for_header st p else None in
          let b := set_wcount b (i32 (wcount b - 1)) in
          let st := set_wheap st (<[p := b]> (wheap st)) in
          if wcount b =? 0 then
            let! st := (if wdtor b then release_all_w (lpp_arc_release_w f) st (wowned b) else Ok st) in
            match r with
            | Some id => lpp_arena_node_zero (lpp_arc_release_w f) st id
            | None => if negb arena then lpp_arc_free_w st p else Ok st
            end
          else Ok st
  end.

(** The [_local] variants; the second looks the region up after the count has reached zero. *)
Definition lpp_arc_retain_local_w (st : wstate) (p : Z) : outcome wstate :=
  if p =? 0 then Ok st
  else
    let! b := wheader st p in
    if lpp__is_immortal_w b then Ok st
    else Ok (set_wheap st (<[p := set_wcount b (i32 (wcount b + 1))]> (wheap st))).
Definition lpp_arc_release_local_w (fuel : nat) (st : wstate) (p : Z) : outcome wstate :=
  if p =? 0 then Ok st
  else
    let! b := wheader st p in
    if lpp__is_immortal_w b then Ok st
    else
      let b := set_wcount b (i32 (wcount b - 1)) in
      let st := set_wheap st (<[p := b]> (wheap st)) in
      if wcount b =? 0 then
        let arena := lpp_win_is_arena_header b in
        let r := if arena then lpp_arena_for_header st p else None in
        let! st := (if wdtor b then release_all_w (lpp_arc_release_w fuel) st (wowned b) else Ok st) in
        match r with
        | Some id => lpp_arena_node_zero (lpp_arc_release_w fuel) st id
        | None => if negb arena then lpp_arc_free_w st p else Ok st
        end
      else Ok st.

(** ** Arenas *)

(** A region is an object of [sizeof(WinArenaRegion)], a record one of [sizeof(WinArenaRecord)]. *)
Definition lpp_arena_begin_w (st : wstate) (addr : option Z) : Z * wstate :=
  let '(r, st) := lpp_arc_alloc_w st addr 24 in
  if r =? 0 then (0, st) else (r, set_wregions st (mk_region r 1 [] :: lpp_arena_regions st)).

Definition lpp_arena_release_w (fuel : nat) (st : wstate) (id : Z) : outcome wstate :=
  if id =? 0 then Ok st else lpp_arena_node_zero (lpp_arc_release_w fuel) st id.

Definition lpp_arena_alloc_w (fuel : nat) (st : wstate) (size id : Z) (addr rec_addr : option Z) (dtor : bool)
  : outcome (Z * wstate) :=
  if (id =? 0) || (size <? 0) then Ok (0, st)
  else
    let '(p, st) := lpp_arc_alloc_with_destructor_w st addr size dtor in
    if p =? 0 then Ok (0, st)
    else
      let '(n, st) := lpp_arc_alloc_w st rec_addr 16 in
      if n =? 0 then let! st := lpp_arc_release_w fuel st p in Ok (0, st)
      else
        let! h := wheader st p in
        let st := set_wheap st (<[p := set_size h (Z.lor (allocation_size h) LPP_WIN_ARENA_FLAG)]> (wheap st)) in
        match get_wregion st id with
        | None => Undef
        | Some r =>
            let r := mk_region id (i32 (rrefs r + 1)) ((n, p) :: records r) in
            Ok (p, set_wregions st (put_region (lpp_arena_regions st) r))
        end.

Definition lpp_arena_retain_w (st : wstate) (p : Z) : outcome wstate :=
  if p =? 0 then Ok st
  else let! h := wheader st p in if lpp_win_is_arena_header h then lpp_arc_retain_w st p else Ok st.

Definition lpp_arena_release_node_w (fuel : nat) (st : wstate) (p : Z) : outcome wstate :=
  if p =? 0 then Ok st
  else
    let! h := wheader st p in
    if negb (lpp_win_is_arena_header h) || lpp__is_immortal_w h then Ok st
    else match lpp_arena_for_header st p with
         | None => Ok st
         | Some id =>
             let h := set_wcount h (i32 (wcount h - 1)) in
             let st := set_wheap st (<[p := h]> (wheap st)) in
             if wcount h =? 0 then
               let! st := (if wdtor h then release_all_w (lpp_arc_release_w fuel) st (wowned h) else Ok st) in
               lpp_arena_node_zero (lpp_arc_release_w fuel) st id
             else Ok st
         end.

(** ** Weak handles *)

Definition lpp_weak_generation_w (p : Z) : Z := if p =? 0 then 0 else 1.
Definition lpp_weak_get_w (raw generation : Z) : Z := if generation =? 1 then raw else 0.

(** ** The two runtimes side by side

    No pointer into foreign memory: [nowhere] makes such a reference undefined on the host, where the
    magic word would tell it apart; here nothing does. *)

Definition nowhere : Z -> option Z := fun _ => None.
Notation host_release := (lpp_arc_release false nowhere).
Notation host_inv := (inv nowhere).

(** NULL or where an object can be. *)
Definition tidy (p : Z) : Prop := p = 0 \/ ptr_ok p = true.

(** Two headers of the same object; [node]: whether it lives in an arena. *)
Record same_header (b : block) (w : wblock) (node : Prop) : Prop := {
  sh_count : wcount w = refcount b;
  sh_dtor : wdtor w = destructor b;
  sh_owned : wowned w = owned b;
  sh_freed : wfreed w = false;
  sh_flag : live b = true -> (lpp_win_is_arena_header w = true <-> node)
}.

(** A region as an object of the heap: nobody counts references to it. *)
Definition region_object (sw : wstate) (id : Z) : Prop :=
  id <> 0 /\ exists w, wheap sw !! id = Some w /\ wcount w = 1 /\ wdtor w = false /\ wfreed w = false /\
    lpp_win_is_arena_header w = false.

(** [os]: regions taken out of the list that are about to be given back. *)
Record mirrors (st : state) (sw : wstate) (os : list Z) : Prop := {
  m_regions : lpp_arena_regions sw = regions st;
  m_objs : NoDup (os ++ (rid <$> regions st));
  m_block : forall p b, heap st !! p = Some b -> freed b = false ->
    p ∉ os ++ (rid <$> regions st) /\
    exists w, wheap sw !! p = Some w /\ same_header b w (p ∈ all_nodes (regions st));
  m_region : forall id, id ∈ os ++ (rid <$> regions st) -> region_object sw id;
  m_back : forall p w, wheap sw !! p = Some w -> wfreed w = false ->
    p ∈ os ++ (rid <$> regions st) \/ exists b, heap st !! p = Some b /\ freed b = false;
  m_tidy : (forall p b, heap st !! p = Some b -> Forall tidy (owned b)) /\
    forall r, r ∈ regions st -> Forall tidy (records r).*1
}.

Lemma wp_conj {A} (m : outcome A) (P Q : A -> Prop) : wp m P -> wp m Q -> wp m (fun a => P a /\ Q a).
Proof. by destruct m. Qed.

(** *** Steps that keep the two in step *)

(** One object changes on both sides. *)
Lemma mirrors_update st sw os p b w b' w' :
  mirrors st sw os -> heap st !! p = Some b -> freed b = false -> wheap sw !! p = Some w ->
  owned b' = owned b ->
  (freed b' = false /\ same_header b' w' (p ∈ all_nodes (regions st))) \/ (freed b' = true /\ wfreed w' = true) ->
  mirrors (set_heap st (<[p := b']> (heap st))) (set_wheap sw (<[p := w']> (wheap sw))) os.
Proof.
  intros [H1 H2 H3 H4 H5 [H6 H7]] Hb Hf Hw Ho Hc. destruct (H3 p b Hb Hf) as [Hp _]. split; cbn; try done.
  - intros q c Hq Hfq. destruct (decide (q = p)) as [->|Hne].
    + rewrite lookup_insert_eq in Hq. injection Hq as <-. split; [done|]. exists w'. rewrite lookup_insert_eq.
      destruct Hc as [[_ Hs]|[Hs _]]; [done|congruence].
    + rewrite lookup_insert_ne in Hq by done. rewrite lookup_insert_ne by done. by apply H3.
  - intros id Hid. destruct (H4 id Hid) as (Hz & x & Hx & Hr). split; [done|]. exists x. cbn.
    rewrite lookup_insert_ne; [done|]. by intros ->.
  - intros q x Hq Hfq. destruct (decide (q = p)) as [->|Hne].
    + rewrite lookup_insert_eq in Hq. injection Hq as <-. right. exists b'. rewrite lookup_insert_eq.
      split; [done|]. destruct Hc as [[? _]|[_ ?]]; [done|congruence].
    + rewrite lookup_insert_ne in Hq by done. destruct (H5 q x Hq Hfq) as [?|(c & Hc' & ?)]; [by left|right].
      exists c. by rewrite lookup_insert_ne.
  - split; [|done]. intros q c Hq. destruct (decide (q = p)) as [->|Hne].
    + rewrite lookup_insert_eq in Hq. injection Hq as <-. rewrite Ho. by apply (H6 p).
    + rewrite lookup_insert_ne in Hq by done. by apply (H6 q).
Qed.

Lemma mirrors_free st sw os p b : mirrors st sw os -> heap st !! p = Some b -> freed b = false ->
  free_block st p = Ok (set_heap st (<[p := set_freed b]> (heap st))) /\
  wp (lpp_arc_free_w sw p) (fun sw' => mirrors (set_heap st (<[p := set_freed b]> (heap st))) sw' os).
Proof.
  intros Hm Hb Hf. destruct (m_block _ _ _ Hm p b Hb Hf) as (_ & w & Hw & Hs). split.
  - unfold free_block. by rewrite Hb, Hf.
  - unfold lpp_arc_free_w, wheader. rewrite Hw, (sh_freed _ _ _ Hs). cbn. eapply mirrors_update; try done. by right.
Qed.

(** The count of a region changes. *)
Lemma mirrors_put_region st sw os r n : mirrors st sw os -> NoDup (rid <$> regions st) -> r ∈ regions st ->
  let rs := put_region (regions st) (mk_region (rid r) n (records r)) in
  mirrors (set_regions st rs) (set_wregions sw rs) os.
Proof.
  intros [H1 H2 H3 H4 H5 [H6 H7]] Hnd Hr rs.
  assert (Hids : rid <$> rs = rid <$> regions st) by apply put_region_rids.
  assert (Hn : all_nodes rs = all_nodes (regions st)).
  { apply put_region_records. intros x Hx E. by rewrite (rid_inj _ x r Hnd Hx Hr E). }
  split; cbn [heap regions set_regions set_wregions wheap lpp_arena_regions]; rewrite ?Hids, ?Hn; try done. split; [done|].
  intros x [->|[Hx _]]%elem_of_put_region; [exact (H7 r Hr)|by apply H7].
Qed.

(** A region without live nodes leaves the list. *)
Lemma mirrors_unlink st sw os r : mirrors st sw os -> r ∈ regions st -> nlive (heap st) r = 0%nat ->
  let rs := unlink_region (regions st) (rid r) in
  mirrors (set_regions st rs) (set_wregions sw rs) (rid r :: os).
Proof.
  intros [H1 H2 H3 H4 H5 [H6 H7]] Hr Hno rs. pose proof H2 as (_ & _ & Hnd)%NoDup_app.
  pose proof (unlink_perm _ _ Hnd Hr) as Hu. fold rs in Hu.
  assert (Hp : rid r :: os ++ (rid <$> rs) ≡ₚ os ++ (rid <$> regions st)).
  { rewrite Hu at 1. cbn. apply Permutation_middle. }
  assert (Hn : all_nodes (regions st) ≡ₚ nodes r ++ all_nodes rs) by (unfold all_nodes; by rewrite Hu at 1).
  split; cbn [heap regions set_regions set_wregions wheap lpp_arena_regions app]; try done.
  - by rewrite Hp.
  - intros p b Hb Hf. destruct (H3 p b Hb Hf) as (Hi & w & Hw & [S1 S2 S3 S4 S5]). rewrite Hp. split; [done|].
    exists w. split; [done|]. split; try done. intros Hl. rewrite (S5 Hl), Hn, elem_of_app. split; [|by right].
    intros [Hin|?]; [|done]. pose proof (count_alive_zero _ _ _ Hno Hin) as Ha. unfold alive in Ha.
    rewrite Hb in Ha. congruence.
  - intros id Hid. rewrite Hp in Hid. by apply H4.
  - intros p w Hw Hf. rewrite Hp. by apply (H5 p w).
  - split; [done|]. intros x [_ Hx]%list_elem_of_filter. by apply H7.
Qed.

(** The region's own block is given back. *)
Lemma mirrors_drop_object f st sw os id : mirrors st sw (id :: os) ->
  wp (lpp_arc_release_w (S f) sw id) (fun sw' => mirrors st sw' os).
Proof.
  intros [H1 H2 H3 H4 H5 H6]. destruct (H4 id ltac:(by left)) as (Hz & w & Hw & Hc & Hd & Hf & Hfl).
  cbn [app] in H2. apply NoDup_cons in H2 as [Hni H2].
  cbn [lpp_arc_release_w]. rewrite (proj2 (Z.eqb_neq id 0) Hz). unfold wheader. rewrite Hw, Hf. cbn [obind].
  unfold lpp__is_immortal_w. rewrite Hc. change (u32 1 =? LPP_ARC_IMMORTAL) with false. cbn iota.
  rewrite Hfl. cbn [negb set_wcount wcount wdtor wheap set_wheap]. change (i32 (1 - 1)) with 0. cbn.
  rewrite Hd. unfold lpp_arc_free_w, wheader. cbn. rewrite lookup_insert_eq. cbn. rewrite Hf. cbn.
  rewrite insert_insert_eq. split; cbn; try done.
  - intros p b Hb Hfb. destruct (H3 p b Hb Hfb) as ((Hne & Hp)%not_elem_of_cons & x & Hx & Hs). split; [done|].
    exists x. by rewrite lookup_insert_ne.
  - intros i Hi. destruct (H4 i ltac:(by right)) as (? & x & Hx & ?). split; [done|]. exists x. cbn.
    rewrite lookup_insert_ne; [done|]. by intros ->.
  - intros p x Hx Hfx. destruct (decide (p = id)) as [->|Hne].
    + rewrite lookup_insert_eq in Hx. by injection Hx as <-.
    + rewrite lookup_insert_ne in Hx by done. destruct (H5 p x Hx Hfx) as [[->|?]%elem_of_cons|?]; [done|by left|by right].
Qed.

(** *** Dropping references *)

(** With enough fuel for the live objects, both give up the same. *)
Definition in_step (f : nat) : Prop :=
  forall f' st sw os p refs owners pend, (f <= f')%nat -> host_inv st (p :: refs) owners pend ->
    (live_count (heap st) < f)%nat -> mirrors st sw os -> tidy p ->
    wp (host_release f st p) (fun st' => wp (lpp_arc_release_w f' sw p) (fun sw' => mirrors st' sw' os)).

Section given_release.
Context (f f' : nat) (Hff : (f <= f')%nat) (Hstep : in_step f).

Lemma step_and_drop st sw os p refs owners pend : host_inv st (p :: refs) owners pend ->
  (live_count (heap st) < f)%nat -> mirrors st sw os -> tidy p ->
  wp (host_release f st p) (fun st' => dropped nowhere st st' refs owners pend /\
    wp (lpp_arc_release_w f' sw p) (fun sw' => mirrors st' sw' os)).
Proof. intros. apply wp_conj; [by apply release_correct|by eapply Hstep]. Qed.

Lemma release_all_in_step cs : forall st sw os refs owners pend,
  host_inv st (cs ++ refs) owners pend -> (live_count (heap st) < f)%nat -> mirrors st sw os -> Forall tidy cs ->
  wp (release_all (host_release f) st cs) (fun st' =>
    wp (release_all_w (lpp_arc_release_w f') sw cs) (fun sw' => mirrors st' sw' os)).
Proof.
  induction cs as [|c cs IH]; intros st sw os refs owners pend Hi Hf Hm Ht; cbn [release_all release_all_w]; [done|].
  apply Forall_cons in Ht as [Hc Ht]. apply wp_bind. eapply wp_mono; [by eapply (step_and_drop st sw os c)|].
  intros st1 [(Hi1 & Hc1 & _) Hw]. destruct (wp_inv _ _ Hw) as (sw1 & E & Hm1). rewrite E. cbn [obind].
  eapply IH; [exact Hi1|lia|done|done].
Qed.

Lemma destroy_in_step recs : forall st sw os refs owners pend,
  host_inv st (recs.*1 ++ refs) owners (recs.*2 ++ pend) -> (live_count (heap st) < f)%nat -> mirrors st sw os ->
  Forall tidy recs.*1 ->
  wp (destroy_records (host_release f) st recs) (fun st' =>
    wp (destroy_records_w (lpp_arc_release_w f') sw recs) (fun sw' => mirrors st' sw' os)).
Proof.
  induction recs as [|[rec node] recs IH]; intros st sw os refs owners pend Hi Hf Hm Ht;
    cbn [destroy_records destroy_records_w]; [done|].
  cbn in Hi, Ht. apply Forall_cons in Ht as [Hr Ht].
  destruct (i_pend _ _ _ _ _ Hi node) as (b & Hb & Hfb & _); [by left|].
  pose proof (free_dropped nowhere st node _ _ _ Hi) as Hfd.
  destruct (mirrors_free st sw os node b Hm Hb Hfb) as [E Hw]. rewrite E in *. cbn [obind wp] in Hfd |- *.
  destruct Hfd as (Hi1 & Hc1 & _). destruct (wp_inv _ _ Hw) as (sw1 & -> & Hm1). cbn [obind].
  apply wp_bind. eapply wp_mono; [eapply (step_and_drop _ sw1 os rec); [exact Hi1|lia|done|done]|].
  intros st2 [(Hi2 & Hc2 & _) Hw2]. destruct (wp_inv _ _ Hw2) as (sw2 & -> & Hm2). cbn [obind].
  eapply IH; [exact Hi2|lia|done|done].
Qed.

Lemma node_zero_in_step st sw os id refs owners pend :
  host_inv st refs (id :: owners) pend -> (live_count (heap st) < f)%nat -> mirrors st sw os ->
  wp (lpp__arena_node_zero (host_release f) st id) (fun st' =>
    wp (lpp_arena_node_zero (lpp_arc_release_w f') sw id) (fun sw' => mirrors st' sw' os)).
Proof.
  intros Hi Hf Hm. unfold lpp__arena_node_zero, lpp_arena_node_zero.
  destruct (get_region_in st id) as (r & E & Hr & Hid); [apply (i_owner _ _ _ _ _ Hi); by left|].
  assert (get_wregion sw id = Some r) as -> by (unfold get_wregion; by rewrite (m_regions _ _ _ Hm)). rewrite E.
  pose proof (region_count_bound _ _ _ _ _ r Hi Hr) as Hb.
  assert (i32 (rrefs r - 1) = rrefs r - 1) as ->.
  { apply swrap_id; [lia|]. change (2 ^ (32 - 1)) with (2 ^ 31). pow2. lia. }
  rewrite (m_regions _ _ _ Hm). cbn [rrefs rid records]. destruct (Z.eqb_spec (rrefs r - 1) 0) as [Hz|Hnz].
  2: { cbn [wp]. apply mirrors_put_region; [done|apply (i_rids _ _ _ _ _ Hi)|done]. }
  pose proof (region_unlink nowhere st id r refs owners pend Hi Hr Hid ltac:(lia)) as Hu.
  assert (Hno : nlive (heap st) r = 0%nat).
  { destruct (i_region _ _ _ _ _ Hi r Hr) as [Ec _]. rewrite Hid, occ_cons, decide_True in Ec by done. lia. }
  pose proof (mirrors_unlink st sw os r Hm Hr Hno) as Hm1. rewrite Hid in Hm1.
  unfold lpp__arena_destroy, lpp_arena_destroy. cbn [rid records regions set_regions lpp_arena_regions set_wregions].
  rewrite Hid. set (r' := mk_region id (rrefs r - 1) (records r)).
  change (unlink_region (put_region (regions st) r') id) with (unlink_region (put_region (regions st) r') (rid r')).
  rewrite unlink_put. cbn [rid r'].
  eapply wp_mono; [apply (destroy_in_step (records r) _ (set_wregions sw (unlink_region (regions st) id)) (id :: os)
    refs owners pend)|].
  - exact Hu.
  - done.
  - exact Hm1.
  - by apply (m_tidy _ _ _ Hm).
  - intros st' Hw. apply wp_bind. eapply wp_mono; [exact Hw|]. intros sw' Hm'.
    destruct f' as [|f'']; [lia|]. by apply mirrors_drop_object.
Qed.
End given_release.

Lemma arena_lookup_same b w st p : same_header b w (p ∈ all_nodes (regions st)) -> live b = true ->
  (if lpp_win_is_arena_header w then find_region (regions st) p else None) = lpp__arena_for_header st p /\
  (lpp__arena_for_header st p = None -> lpp_win_is_arena_header w = false).
Proof.
  intros Hs Hl. pose proof (sh_flag _ _ _ Hs Hl) as Hfl. unfold lpp__arena_for_header.
  destruct (find_region (regions st) p) as [id|] eqn:E.
  - split; [|done]. destruct (find_region_some _ _ _ E) as (r & Hr & _ & Hn).
    by rewrite (proj2 Hfl (elem_of_all_nodes _ _ _ Hr Hn)).
  - apply find_region_none in E. destruct (lpp_win_is_arena_header w); [|done]. by destruct E; apply Hfl.
Qed.

(** A reference the host's counter ignores is ignored here too, when it is NULL or a literal. *)
Lemma inert_in_step st sw os p : mirrors st sw os -> inert nowhere st p -> tidy p ->
  p = 0 \/ exists w, wheader sw p = Ok w /\ lpp__is_immortal_w w = true.
Proof.
  intros Hm [H|[(_ & w & [=] & _)|(b & Hb & _ & Hi & Hf)]] [?|Ht]; [by left|congruence|by left|right].
  destruct (m_block _ _ _ Hm p b Hb Hf) as (_ & w & Hw & Hs). exists w. unfold wheader. rewrite Hw, (sh_freed _ _ _ Hs).
  split; [done|]. unfold lpp__is_immortal_w. by rewrite (sh_count _ _ _ Hs).
Qed.

(** The header of a live object, on both sides. *)
Lemma live_in_step st sw os refs owners pend p b : host_inv st refs owners pend -> mirrors st sw os ->
  heap st !! p = Some b -> live b = true ->
  exists w, p <> 0 /\ wheap sw !! p = Some w /\ wheader sw p = Ok w /\ lpp__is_immortal_w w = false /\
    same_header b w (p ∈ all_nodes (regions st)).
Proof.
  intros Hi Hm Hb Hl. destruct (i_live _ _ _ _ _ Hi p b Hb Hl) as (Hok & Hf & _).
  destruct (m_block _ _ _ Hm p b Hb Hf) as (_ & w & Hw & Hs). exists w. destruct (live_magic b Hl) as [_ Him].
  split_and!; [by intros ->|done| |unfold lpp__is_immortal_w; by rewrite (sh_count _ _ _ Hs)|done].
  unfold wheader. by rewrite Hw, (sh_freed _ _ _ Hs).
Qed.

(** The last reference goes: both run the destructor, then free the block or settle with its region. *)
Lemma kill_in_step f f' st sw os p b w refs owners pend : in_step f -> (f <= f')%nat ->
  host_inv st (p :: refs) owners pend -> (live_count (heap st) < S f)%nat -> mirrors st sw os ->
  heap st !! p = Some b -> live b = true -> refcount b = 1 ->
  wheap sw !! p = Some w -> same_header b w (p ∈ all_nodes (regions st)) ->
  let st1 := set_heap st (<[p := dead b]> (heap st)) in
  let sw1 := set_wheap sw (<[p := set_wcount w 0]> (wheap sw)) in
  wp (let! st' := (if destructor b then release_all (host_release f) st1 (owned b) else Ok st1) in
      match lpp__arena_for_header st p with
      | Some id => lpp__arena_node_zero (host_release f) st' id
      | None => free_block st' p
      end)
    (fun st' => wp
      (let! sw' := (if wdtor w then release_all_w (lpp_arc_release_w f') sw1 (wowned w) else Ok sw1) in
       match (if lpp_win_is_arena_header w then lpp_arena_for_header sw p else None) with
       | Some id => lpp_arena_node_zero (lpp_arc_release_w f') sw' id
       | None => if negb (lpp_win_is_arena_header w) then lpp_arc_free_w sw' p else Ok sw'
       end) (fun sw' => mirrors st' sw' os)).
Proof.
  intros IH Hff Hi Hf Hm Hb Hl Hone Hw Hs st1 sw1. destruct (i_live _ _ _ _ _ Hi p b Hb Hl) as (_ & Hfr & _).
  destruct (arena_lookup_same b w st p Hs Hl) as [Har Hno]. unfold lpp_arena_for_header.
  rewrite (m_regions _ _ _ Hm), Har, (sh_dtor _ _ _ Hs), (sh_owned _ _ _ Hs).
  assert (Hm1 : mirrors st1 sw1 os).
  { destruct Hs. apply (mirrors_update st sw os p b w); try done. left. split; [done|].
    split; [done..|]. intros E. discriminate E. }
  pose proof (kill_refs nowhere st p b refs owners pend Hi Hb Hl Hone) as [_ Hlc].
  pose proof (kill_step nowhere st p b refs owners pend Hi Hb Hl Hone) as Hk. fold st1 in Hlc, Hk.
  destruct (m_tidy _ _ _ Hm) as [Htb _]. specialize (Htb p b Hb). apply wp_bind.
  eapply (wp_mono _ (fun st' => dropped nowhere st1 st' refs (pay (lpp__arena_for_header st p) p owners pend).1
                                  (pay (lpp__arena_for_header st p) p owners pend).2 /\
    wp (if destructor b then release_all_w (lpp_arc_release_w f') sw1 (owned b) else Ok sw1) (fun sw' => mirrors st' sw' os))).
  { destruct (destructor b) eqn:Ed.
    - apply wp_conj; [apply (release_all_spec _ _ f (release_correct _ _ f)); [exact Hk|lia]|].
      by apply (release_all_in_step f f' Hff IH _ st1 sw1 os _ _ _ Hk); [lia|..].
    - cbn [wp]. rewrite (i_dtor _ _ _ _ _ Hi p b Hb Hl Ed) in Hk. split; [|exact Hm1].
      split_and!; [exact Hk|done|apply kept_refl]. }
  intros st2 [(Hi2 & Hc2 & _) Hw2]. destruct (wp_inv _ _ Hw2) as (sw2 & E2 & Hm2). rewrite E2. cbn [obind].
  destruct (lpp__arena_for_header st p) as [id|] eqn:Ea; cbn [pay fst snd] in Hi2.
  - by apply (node_zero_in_step f f' Hff IH _ _ _ _ _ _ _ Hi2); [lia|].
  - rewrite Hno by done. cbn [negb]. destruct (i_pend _ _ _ _ _ Hi2 p) as (b2 & Hb2 & Hf2 & _); [by left|].
    by destruct (mirrors_free st2 sw2 os p b2 Hm2 Hb2 Hf2) as [-> ?].
Qed.

Lemma release_in_step f : in_step f.
Proof.
  induction f as [|f IH]; intros f' st sw os p refs owners pend Hff Hi Hf Hm Ht; [lia|].
  destruct f' as [|f']; [lia|]. cbn [lpp_arc_release lpp_arc_release_w].
  destruct (i_refs _ _ _ _ _ Hi p) as [Ha|Hin]; [rewrite all_refs_cons; by left| |].
  2: { assert (forall m, (if p =? 0 then Ok sw else let! b := wheader sw p in if lpp__is_immortal_w b then Ok sw else m b) = Ok sw) as Hig.
       { intros m. destruct (inert_in_step st sw os p Hm Hin Ht) as [->|(w & -> & E)]; [done|]. cbn. rewrite E. by destruct (p =? 0). }
       rewrite Hig. destruct (valid_inert false nowhere st p Hin) as [->|(-> & b & Hh & Him)]; [done|].
       cbn [obind negb]. rewrite Hh. cbn [obind]. by rewrite Him. }
  apply alive_block in Ha as (b & Hb & Hl). destruct (i_live _ _ _ _ _ Hi p b Hb Hl) as (Hok & Hfr & _ & _).
  pose proof (count_bound _ _ _ _ _ _ _ Hi Hb Hl) as Hbd. destruct (live_magic b Hl) as [_ Him].
  destruct (valid_live false nowhere st p b Hok Hb Hl Hfr) as [-> Hh]. cbn [obind negb]. rewrite Hh. cbn [obind]. rewrite Him.
  destruct (live_in_step st sw os _ _ _ p b Hi Hm Hb Hl) as (w & Hz & Hw & Hwh & Hwi & Hs).
  rewrite (proj2 (Z.eqb_neq p 0) Hz), Hwh. cbn [obind]. rewrite Hwi, (sh_count _ _ _ Hs).
  assert (i32 (refcount b - 1) = refcount b - 1) as ->.
  { apply swrap_id; [lia|]. unfold LPP_ARC_IMMORTAL in Hbd. change (2 ^ (32 - 1)) with (2 ^ 31). pow2. lia. }
  cbn [wcount set_wcount].
  destruct (Z.eqb_spec (refcount b) 1) as [Hone|Hmore]; [rewrite Hone; change (1 - 1 =? 0) with true
    |rewrite (proj2 (Z.eqb_neq (refcount b - 1) 0)) by lia]; cbn iota.
  2: { cbn [wp]. destruct Hs as [S1 S2 S3 S4 S5]. apply (mirrors_update st sw os p b w); try done. left. split; [done|].
       split; [done..|]. intros _. by apply S5. }
  change (1 - 1) with 0. simpl heap. rewrite insert_insert_eq. change (invalidate (set_count b 0)) with (dead b).
  by apply (kill_in_step f f' st sw os p b w refs owners pend); [|lia|..].
Qed.

(** *** Making objects *)

(** HeapAlloc returns memory that is not in use. *)
Definition unused (sw : wstate) (a : Z) : bool :=
  ptr_ok a && match wheap sw !! a with Some w => wfreed w | None => true end.

Lemma unused_spec st sw os a : mirrors st sw os -> unused sw a = true ->
  ptr_ok a = true /\ a ∉ os ++ (rid <$> regions st) /\ forall b, heap st !! a = Some b -> freed b = true.
Proof.
  intros Hm [Hok Hu]%andb_true_iff. split_and!; [done| |].
  - intros Hin. destruct (m_region _ _ _ Hm a Hin) as (_ & w & Hw & _ & _ & Hf & _). rewrite Hw in Hu. congruence.
  - intros b Hb. destruct (freed b) eqn:Hf; [done|]. destruct (m_block _ _ _ Hm a b Hb Hf) as (_ & w & Hw & Hs).
    rewrite Hw, (sh_freed _ _ _ Hs) in Hu. done.
Qed.

Lemma small_header sz : 0 <= sz < 2 ^ 62 ->
  (sz <? 0) || (u64 sz >? u64 (-1) - header_size) = false /\ u64 (u64 sz + header_size) = sz + 24.
Proof.
  change (2 ^ 62) with 4611686018427387904. intros Hs. unfold header_size.
  rewrite !(u64_id sz) by (pow2; lia). rewrite (u64_id (sz + 24)) by (pow2; lia).
  change (u64 (-1)) with (2 ^ 64 - 1). rewrite Z.gtb_ltb. split; [|done].
  apply orb_false_iff. split; apply Z.ltb_ge; pow2; lia.
Qed.

Lemma flag_clear n : 0 <= n < 2 ^ 63 -> Z.land n LPP_WIN_ARENA_FLAG = 0.
Proof.
  intros Hn. apply Z.bits_inj'. intros i Hi. rewrite Z.land_spec, Z.bits_0. unfold LPP_WIN_ARENA_FLAG.
  destruct (Z.eq_dec i 63) as [->|Hne]; [|by rewrite Z.pow2_bits_false, andb_false_r by lia].
  rewrite (Z.bits_above_log2 n 63); [done|lia|]. destruct (Z.eq_dec n 0) as [->|]; [done|].
  apply Z.log2_lt_pow2; lia.
Qed.
Lemma flag_set n : Z.land (Z.lor n LPP_WIN_ARENA_FLAG) LPP_WIN_ARENA_FLAG <> 0.
Proof.
  intros H. apply (f_equal (fun z => Z.testbit z 63)) in H. rewrite Z.land_spec, Z.lor_spec, Z.bits_0 in H.
  unfold LPP_WIN_ARENA_FLAG in H. rewrite Z.pow2_bits_true in H by lia. by rewrite orb_true_r in H.
Qed.

(** What HeapAlloc makes of a request it serves. *)
Definition fresh_block (sz : Z) (dtor : bool) : wblock := mk_wb 1 dtor (sz + 24) [] false.

Lemma alloc_w_eq sw a sz dtor : 0 <= sz < 2 ^ 62 ->
  lpp_arc_alloc_with_destructor_w sw (Some a) sz dtor = (a, set_wheap sw (<[a := fresh_block sz dtor]> (wheap sw))).
Proof. intros Hs. unfold lpp_arc_alloc_with_destructor_w. by destruct (small_header sz Hs) as [-> ->]. Qed.

Lemma fresh_block_plain sz dtor : 0 <= sz < 2 ^ 62 -> lpp_win_is_arena_header (fresh_block sz dtor) = false.
Proof. change (2 ^ 62) with 4611686018427387904. intros Hs. unfold lpp_win_is_arena_header. cbn [fresh_block allocation_size].
  by rewrite flag_clear by (pow2; lia). Qed.

Lemma mirrors_alloc st sw refs owners a sz dtor : host_inv st refs owners [] -> mirrors st sw [] ->
  unused sw a = true -> 0 <= sz < 2 ^ 62 ->
  mirrors (lpp_arc_alloc_with_destructor st (Some a) dtor).2 (set_wheap sw (<[a := fresh_block sz dtor]> (wheap sw))) [].
Proof.
  intros Hi Hm Hu Hs. destruct (unused_spec _ _ _ _ Hm Hu) as (_ & Ha & Hfree). destruct Hm as [H1 H2 H3 H4 H5 [H6 H7]].
  assert (Hn : a ∉ all_nodes (regions st)).
  { intros Hin. destruct (i_node _ _ _ _ _ Hi a Hin) as (b & Hb & Hf & _). rewrite (Hfree b Hb) in Hf. done. }
  cbn [lpp_arc_alloc_with_destructor lpp__next_generation snd].
  split; cbn [heap regions wheap lpp_arena_regions set_wheap]; try done.
  - intros p b Hb Hf. destruct (decide (p = a)) as [->|Hne].
    + split; [done|]. rewrite lookup_insert_eq in Hb. injection Hb as <-. exists (fresh_block sz dtor).
      rewrite lookup_insert_eq. split; [done|]. split; [done..|]. intros _. by rewrite fresh_block_plain.
    + rewrite lookup_insert_ne in Hb by done. rewrite lookup_insert_ne by done. by apply H3.
  - intros id Hid. destruct (H4 id Hid) as (? & x & Hx & ?). split; [done|]. exists x. cbn.
    rewrite lookup_insert_ne; [done|]. by intros ->.
  - intros p w Hw Hf. destruct (decide (p = a)) as [->|Hne].
    + right. rewrite lookup_insert_eq. eauto.
    + rewrite lookup_insert_ne in Hw by done. rewrite lookup_insert_ne by done. by apply (H5 p w).
  - split; [|done]. intros p b Hb. destruct (decide (p = a)) as [->|Hne].
    + rewrite lookup_insert_eq in Hb. by injection Hb as <-.
    + rewrite lookup_insert_ne in Hb by done. by apply (H6 p).
Qed.

Lemma mirrors_begin st sw a : mirrors st sw [] -> unused sw a = true ->
  mirrors (set_regions st (mk_region a 1 [] :: regions st))
    (mk_ws (<[a := fresh_block 24 false]> (wheap sw)) (mk_region a 1 [] :: lpp_arena_regions sw)) [].
Proof.
  intros Hm Hu. destruct (unused_spec _ _ _ _ Hm Hu) as (Hok & Ha & Hfree). destruct Hm as [H1 H2 H3 H4 H5 [H6 H7]].
  cbn [app] in *.
  split; cbn [heap regions set_regions wheap lpp_arena_regions app fmap list_fmap rid]; [by rewrite H1|by apply NoDup_cons|..].
  - intros p b Hb Hf. destruct (H3 p b Hb Hf) as (Hp & w & Hw & Hs).
    assert (p <> a) by (intros ->; rewrite (Hfree b Hb) in Hf; done). split; [by apply not_elem_of_cons|].
    exists w. rewrite lookup_insert_ne by done. done.
  - intros id [->|Hid]%elem_of_cons.
    + split; [by intros ->|]. exists (fresh_block 24 false). cbn. by rewrite lookup_insert_eq.
    + destruct (H4 id Hid) as (? & x & Hx & ?). split; [done|]. exists x. cbn. rewrite lookup_insert_ne; [done|]. by intros ->.
  - intros p w Hw Hf. destruct (decide (p = a)) as [->|Hne]; [left; by left|]. rewrite lookup_insert_ne in Hw by done.
    destruct (H5 p w Hw Hf) as [?|?]; [left; by right|by right].
  - split; [done|]. intros r [->|Hr]%elem_of_cons; [done|by apply H7].
Qed.

(** A new object joins its region. *)
Lemma mirrors_join st sw r rec p b w n : mirrors st sw [] -> r ∈ regions st ->
  heap st !! p = Some b -> freed b = false -> wheap sw !! p = Some w -> tidy rec ->
  let rs := put_region (regions st) (mk_region (rid r) n ((rec, p) :: records r)) in
  mirrors (set_regions st rs)
    (mk_ws (<[p := set_size w (Z.lor (allocation_size w) LPP_WIN_ARENA_FLAG)]> (wheap sw)) rs) [].
Proof.
  intros Hm Hr Hb Hf Hw Ht rs. destruct (m_block _ _ _ Hm p b Hb Hf) as (Hp & w0 & Hw0 & Hs).
  rewrite Hw in Hw0. injection Hw0 as <-. destruct Hm as [H1 H2 H3 H4 H5 [H6 H7]]. cbn [app] in *.
  set (r' := mk_region (rid r) n ((rec, p) :: records r)) in *.
  assert (Hids : rid <$> rs = rid <$> regions st) by apply put_region_rids.
  assert (Hperm : rs ≡ₚ r' :: unlink_region (regions st) (rid r)).
  { etrans; [apply (unlink_perm _ r'); [by rewrite Hids|]|unfold rs; by rewrite unlink_put].
    unfold rs, put_region. rewrite list_elem_of_In, in_map_iff. exists r.
    split; [change (rid r') with (rid r); by rewrite Z.eqb_refl|by apply list_elem_of_In]. }
  assert (Hn : all_nodes rs ≡ₚ p :: all_nodes (regions st)).
  { unfold all_nodes. rewrite Hperm at 1. rewrite (unlink_perm _ _ H2 Hr) at 2. done. }
  split; cbn [heap regions set_regions wheap lpp_arena_regions app]; rewrite ?Hids; try done.
  - intros q c Hq Hfq. destruct (H3 q c Hq Hfq) as (Hqi & x & Hx & [S1 S2 S3 S4 S5]). split; [done|].
    destruct (decide (q = p)) as [->|Hne].
    + rewrite Hw in Hx. injection Hx as <-. eexists. rewrite lookup_insert_eq. split; [done|]. split; try done.
      intros _. rewrite Hn. unfold lpp_win_is_arena_header. cbn. split; [intros _; by left|intros _].
      apply negb_true_iff, Z.eqb_neq, flag_set.
    + exists x. rewrite lookup_insert_ne by done. split; [done|]. split; try done. intros Hl. rewrite (S5 Hl), Hn, elem_of_cons.
      split; [by right|by intros [?|?]].
  - intros id Hid. destruct (H4 id Hid) as (? & x & Hx & ?). split; [done|]. exists x. cbn.
    rewrite lookup_insert_ne; [done|]. by intros ->.
  - intros q x Hx Hfx. destruct (decide (q = p)) as [->|Hne]; [right; by exists b|].
    rewrite lookup_insert_ne in Hx by done. by apply (H5 q x).
  - split; [done|]. intros x [->|[Hx _]]%elem_of_put_region; [|by apply H7]. cbn. apply Forall_cons.
    split; [done|by apply (H7 r)].
Qed.

(** ** Programs, in lock step

    A program on both runtimes: the commands of [Arc], here with the size of the object to make.  The fuel
    is the number of blocks, which bounds the nesting of destructors. *)

Record wconfig := mk_wconfig { wst : wstate; wrefs : list Z; wowners : list Z }.

Definition fuel_of_w (st : wstate) : nat := S (size (wheap st)).

Definition exec_w (sz : Z) (c : cmd) (k : wconfig) : outcome wconfig :=
  let '(mk_wconfig st refs owners) := k in
  match c with
  | CAlloc addr dtor =>
      let '(p, st) := lpp_arc_alloc_with_destructor_w st addr sz dtor in
      Ok (mk_wconfig st (if p =? 0 then refs else p :: refs) owners)
  | CRetain p => let! st := lpp_arc_retain_w st p in Ok (mk_wconfig st (p :: refs) owners)
  | CRelease p => let! st := lpp_arc_release_w (fuel_of_w st) st p in Ok (mk_wconfig st (remove1 p refs) owners)
  | CRetainLocal p => let! st := lpp_arc_retain_local_w st p in Ok (mk_wconfig st (p :: refs) owners)
  | CReleaseLocal p =>
      let! st := lpp_arc_release_local_w (fuel_of_w st) st p in Ok (mk_wconfig st (remove1 p refs) owners)
  | CStore o c =>
      match wheap st !! o with
      | Some b => Ok (mk_wconfig (set_wheap st (<[o := set_wowned b (c :: wowned b)]> (wheap st))) (remove1 c refs) owners)
      | None => Undef
      end
  | CArenaBegin addr =>
      let '(h, st) := lpp_arena_begin_w st addr in
      Ok (mk_wconfig st refs (if h =? 0 then owners else h :: owners))
  | CArenaAlloc id size addr rec_addr dtor =>
      let! res := lpp_arena_alloc_w (S (fuel_of_w st)) st size id addr rec_addr dtor in
      Ok (mk_wconfig res.2 (if res.1 =? 0 then refs else res.1 :: refs) owners)
  | CArenaRelease id =>
      let! st := lpp_arena_release_w (fuel_of_w st) st id in Ok (mk_wconfig st refs (remove1 id owners))
  | CArenaRetain p => let! st := lpp_arena_retain_w st p in Ok (mk_wconfig st (p :: refs) owners)
  | CArenaReleaseNode p =>
      let! st := lpp_arena_release_node_w (fuel_of_w st) st p in Ok (mk_wconfig st (remove1 p refs) owners)
  end.

(** What Windows adds to [permitted]: HeapAlloc serves unused memory and no request of 2^62 bytes, and
    every pointer that is retained is NULL or a pointer to an object. *)
Definition tidyb (p : Z) : bool := (p =? 0) || ptr_ok p.
Definition unused_opt (st : wstate) (a : option Z) : bool := match a with Some a => unused st a | None => true end.
Definition modest (sz : Z) : bool := sz <? 2 ^ 62.
Definition served (sz : Z) (c : cmd) (k : wconfig) : bool :=
  match c with
  | CAlloc addr _ => unused_opt (wst k) addr && (0 <=? sz) && modest sz
  | CRetain p | CRetainLocal p => tidyb p
  | CArenaBegin addr => unused_opt (wst k) addr
  | CArenaAlloc _ size addr rec_addr _ => unused_opt (wst k) addr && unused_opt (wst k) rec_addr && modest size
  | _ => true
  end.

(** The same program on the two runtimes. *)
Record agrees (k : config) (kw : wconfig) : Prop := {
  ag_state : mirrors (cst k) (wst kw) [];
  ag_refs : wrefs kw = crefs k;
  ag_owners : wowners kw = cowners k;
  ag_tidy : Forall tidy (crefs k)
}.

(** *** The fuel is enough *)

Lemma live_count_size (h : gmap Z block) : forall wh : gmap Z wblock,
  (forall p b, h !! p = Some b -> live b = true -> is_Some (wh !! p)) -> (live_count h <= size wh)%nat.
Proof.
  induction h as [|p b h Hp IH] using map_ind; intros wh Hwh.
  { unfold live_count, hsum. rewrite map_to_list_empty. cbn. lia. }
  unfold live_count. rewrite (hsum_fresh _ h p b Hp), length_app. fold (live_count h).
  destruct (live b) eqn:Hl.
  - destruct (Hwh p b) as [w Hw]; [by rewrite lookup_insert_eq|done|].
    rewrite <- (insert_delete_id wh p w Hw), map_size_insert_None by apply lookup_delete_eq.
    apply le_n_S, IH. intros q c Hq Hc. destruct (decide (q = p)) as [->|Hne]; [congruence|].
    rewrite lookup_delete_ne by done. apply (Hwh q c); [|done]. by rewrite lookup_insert_ne.
  - cbn. apply IH. intros q c Hq Hc. destruct (decide (q = p)) as [->|Hne]; [congruence|].
    apply (Hwh q c); [|done]. by rewrite lookup_insert_ne.
Qed.

Lemma fuel_enough st sw os refs owners pend : host_inv st refs owners pend -> mirrors st sw os ->
  (fuel_of st <= fuel_of_w sw)%nat.
Proof.
  intros Hi Hm. unfold fuel_of, fuel_of_w. apply le_n_S, live_count_size. intros p b Hb Hl.
  destruct (live_in_step st sw os _ _ _ p b Hi Hm Hb Hl) as (w & _ & Hw & _). by exists w.
Qed.

(** *** Each command *)

Lemma tidyb_spec p : tidyb p = true -> tidy p.
Proof. intros [->%Z.eqb_eq|?]%orb_true_iff; [by left|by right]. Qed.

Lemma tidy_remove1 p refs : Forall tidy refs -> p ∈ refs -> Forall tidy (remove1 p refs) /\ tidy p.
Proof. intros Ht Hp. rewrite (remove1_perm p refs Hp) in Ht. by apply Forall_cons in Ht as [??]. Qed.

Lemma retain_in_step st sw refs owners p : host_inv st refs owners [] -> mirrors st sw [] ->
  alive (heap st) p = true \/ inert nowhere st p -> tidy p ->
  wp (lpp_arc_retain false nowhere st p) (fun st' => wp (lpp_arc_retain_w sw p) (fun sw' => mirrors st' sw' [])).
Proof.
  intros Hi Hm [(b & Hb & Hl)%alive_block|Hin] Ht; unfold lpp_arc_retain, lpp_arc_retain_w.
  - destruct (i_live _ _ _ _ _ Hi p b Hb Hl) as (Hok & Hfr & Hrc & Hpos).
    pose proof (i_small _ _ _ _ _ Hi) as Hsm. pose proof (occ_le_length p (all_refs st refs)) as Hol.
    destruct (valid_live false nowhere st p b Hok Hb Hl Hfr) as [-> Hh]. cbn [obind negb]. rewrite Hh. cbn [obind].
    destruct (live_magic b Hl) as [_ ->]. destruct (live_in_step st sw [] _ _ _ p b Hi Hm Hb Hl) as (w & Hz & Hw & -> & Hwi & Hs).
    rewrite (proj2 (Z.eqb_neq p 0) Hz). cbn [obind wp]. rewrite Hwi, (sh_count _ _ _ Hs). cbn [wp].
    destruct Hs as [S1 S2 S3 S4 S5]. apply (mirrors_update st sw [] p b w); try done. left. split; [done|].
    split; [done..|]. intros _. by apply S5.
  - destruct (inert_in_step st sw [] p Hm Hin Ht) as [->|(w & -> & E)]; [done|].
    cbn [obind]. rewrite E. assert ((if p =? 0 then Ok sw else Ok sw) = Ok sw) as -> by (by destruct (p =? 0)).
    destruct (valid_inert false nowhere st p Hin) as [->|(-> & b & Hh & Him)]; [done|]. cbn [obind negb].
    rewrite Hh. cbn [obind]. by rewrite Him.
Qed.

Lemma release_local_w_eq f sw p : lpp_arc_release_local_w f sw p = lpp_arc_release_w (S f) sw p.
Proof. reflexivity. Qed.

Lemma drop_in_step st sw refs owners p f f' : host_inv st refs owners [] -> mirrors st sw [] -> Forall tidy refs ->
  p ∈ refs -> (live_count (heap st) < f)%nat -> (f <= f')%nat ->
  wp (host_release f st p) (fun st' => wp (lpp_arc_release_w f' sw p) (fun sw' =>
    mirrors st' sw' [] /\ Forall tidy (remove1 p refs))).
Proof.
  intros Hi Hm Ht Hp Hf Hff. destruct (tidy_remove1 p refs Ht Hp) as [Ht' Htp].
  eapply wp_mono; [eapply (release_in_step f f' st sw [] p (remove1 p refs) owners []); try done|].
  - by eapply inv_perm; [apply remove1_perm|].
  - intros st' Hw. eapply wp_mono; [exact Hw|]. done.
Qed.

Lemma release_node_w_eq st sw refs owners f p b : host_inv st refs owners [] -> mirrors st sw [] ->
  heap st !! p = Some b -> live b = true -> p ∈ all_nodes (regions st) ->
  lpp_arena_release_node_w f sw p = lpp_arc_release_w (S f) sw p.
Proof.
  intros Hi Hm Hb Hl Hn. destruct (live_in_step st sw [] _ _ _ p b Hi Hm Hb Hl) as (w & Hz & Hw & Hwh & Hwi & Hs).
  unfold lpp_arena_release_node_w. cbn [lpp_arc_release_w]. rewrite (proj2 (Z.eqb_neq p 0) Hz), Hwh. cbn [obind].
  rewrite Hwi. pose proof (proj2 (sh_flag _ _ _ Hs Hl) Hn) as Hfl. rewrite Hfl. cbn [negb orb].
  destruct (arena_lookup_same b w st p Hs Hl) as [Har _]. rewrite Hfl in Har. unfold lpp_arena_for_header.
  rewrite (m_regions _ _ _ Hm), Har. destruct (node_region st p Hn) as [id ->]. done.
Qed.

Lemma store_in_step st sw refs owners o c b : host_inv st refs owners [] -> mirrors st sw [] -> heap st !! o = Some b ->
  live b = true -> tidy c ->
  exists w, wheap sw !! o = Some w /\
    mirrors (set_heap st (<[o := set_owned b (c :: owned b)]> (heap st)))
      (set_wheap sw (<[o := set_wowned w (c :: wowned w)]> (wheap sw))) [].
Proof.
  intros Hi Hm Hb Hl Ht. destruct (live_in_step st sw [] _ _ _ o b Hi Hm Hb Hl) as (w & _ & Hw & _ & _ & Hs).
  destruct (i_live _ _ _ _ _ Hi o b Hb Hl) as (_ & Hf & _). exists w. split; [done|].
  pose proof (m_block _ _ _ Hm o b Hb Hf) as [Hno _]. destruct Hm as [H1 H2 H3 H4 H5 [H6 H7]].
  split; cbn [heap regions set_heap set_wheap wheap lpp_arena_regions]; try done.
  - intros q x Hq Hfq. destruct (decide (q = o)) as [->|Hne].
    + rewrite lookup_insert_eq in Hq. injection Hq as <-. split; [done|]. eexists. rewrite lookup_insert_eq.
      split; [done|]. destruct Hs as [S1 S2 S3 S4 S5]. split; [done..|cbn; by rewrite S3|done|]. intros _. exact (S5 Hl).
    + rewrite lookup_insert_ne in Hq by done. rewrite lookup_insert_ne by done. by apply H3.
  - intros id Hid. destruct (H4 id Hid) as (? & x & Hx & ?). split; [done|]. exists x. cbn.
    rewrite lookup_insert_ne; [done|]. by intros ->.
  - intros q x Hx Hfx. destruct (decide (q = o)) as [->|Hne].
    + right. eexists. rewrite lookup_insert_eq. split; [done|]. done.
    + rewrite lookup_insert_ne in Hx by done. rewrite lookup_insert_ne by done. by apply (H5 q x).
  - split; [|done]. intros q x Hq. destruct (decide (q = o)) as [->|Hne].
    + rewrite lookup_insert_eq in Hq. injection Hq as <-. cbn. apply Forall_cons. split; [done|by apply (H6 o)].
    + rewrite lookup_insert_ne in Hq by done. by apply (H6 q).
Qed.

Lemma begin_in_step st sw addr : mirrors st sw [] -> unused_opt sw addr = true ->
  exists h st' sw', lpp_arena_begin st addr = (h, st') /\ lpp_arena_begin_w sw addr = (h, sw') /\ mirrors st' sw' [].
Proof.
  intros Hm Hu. unfold lpp_arena_begin, lpp_arena_begin_w, lpp_arc_alloc_w. destruct addr as [a|]; [|by exists 0, st, sw].
  cbn [unused_opt] in Hu. rewrite alloc_w_eq by (pow2; lia). destruct (unused_spec _ _ _ _ Hm Hu) as (Hok & _).
  rewrite (proj2 (Z.eqb_neq a 0)) by (intros ->; done). cbn [lpp_arena_regions set_wheap].
  do 3 eexists. split; [done|]. split; [done|]. by apply mirrors_begin.
Qed.

(** The node and its record are made. *)
Lemma arena_join_in_step st sw refs owners id size a r dtor : host_inv st refs owners [] -> mirrors st sw [] ->
  id ∈ owners -> fresh_addr st refs a -> fresh_addr st refs r -> r <> a ->
  Z.of_nat (length (all_refs st refs)) + 2 < LPP_ARC_IMMORTAL ->
  unused sw a = true -> unused sw r = true -> 0 <= size < 2 ^ 62 ->
  let st2 := (lpp_arc_alloc_with_destructor (lpp_arc_alloc_with_destructor st (Some a) dtor).2 (Some r) false).2 in
  let sw2 := set_wheap sw (<[r := fresh_block 16 false]> (<[a := fresh_block size dtor]> (wheap sw))) in
  exists x, get_region st2 id = Some x /\ get_wregion sw2 id = Some x /\ wheader sw2 a = Ok (fresh_block size dtor) /\
    let rs := put_region (regions st2) (mk_region id (i32 (rrefs x + 1)) ((r, a) :: records x)) in
    mirrors (set_regions st2 rs)
      (mk_ws (<[a := set_size (fresh_block size dtor) (Z.lor (allocation_size (fresh_block size dtor)) LPP_WIN_ARENA_FLAG)]> (wheap sw2)) rs) [].
Proof.
  intros Hi Hm Hid Ha Hr Hne Hroom Hua Hur Hs st2 sw2.
  destruct (alloc_step nowhere st a dtor refs owners [] Hi Ha ltac:(lia)) as (Hi1 & Hr1 & Hall1).
  pose proof (mirrors_alloc st sw refs owners a size dtor Hi Hm Hua Hs) as Hm1.
  set (st1 := (lpp_arc_alloc_with_destructor st (Some a) dtor).2) in *.
  assert (Hfr1 : fresh_addr st1 (a :: refs) r).
  { destruct Hr as (Hok & Hrf & Hrn). split_and!; [done| |by rewrite Hall1, not_elem_of_cons].
    intros b. unfold st1. simpl. rewrite lookup_insert_ne by done. apply Hrf. }
  destruct (alloc_step nowhere st1 r false (a :: refs) owners [] Hi1 Hfr1) as (Hi2 & Hr2 & _).
  { rewrite Hall1. cbn [length]. lia. }
  assert (Hur1 : unused (set_wheap sw (<[a := fresh_block size dtor]> (wheap sw))) r = true).
  { unfold unused in *. cbn. by rewrite lookup_insert_ne by done. }
  pose proof (mirrors_alloc st1 _ (a :: refs) owners r 16 false Hi1 Hm1 Hur1 ltac:(pow2; lia)) as Hm2.
  fold st2 in Hi2, Hr2, Hm2. change (set_wheap (set_wheap sw _) _) with sw2 in Hm2.
  destruct (get_region_in st2 id) as (x & Hg & Hx & Hxid); [by apply (i_owner _ _ _ _ _ Hi2)|].
  exists x. assert (Hw : wheap sw2 !! a = Some (fresh_block size dtor)).
  { unfold sw2. cbn. rewrite lookup_insert_ne by done. by rewrite lookup_insert_eq. }
  split_and!; [done| |unfold wheader; by rewrite Hw|].
  - unfold get_wregion. by rewrite (m_regions _ _ _ Hm2).
  - rewrite <- Hxid. assert (Hb : exists b, heap st2 !! a = Some b /\ freed b = false).
    { unfold st2, st1. cbn. rewrite lookup_insert_ne by done. rewrite lookup_insert_eq. eauto. }
    destruct Hb as (b & Hb & Hf). eapply (mirrors_join st2 sw2 x r a b); try done. right. by destruct Hr.
Qed.

(** Both objects are made, or the first is given back, or nothing happens. *)
Lemma arena_alloc_in_step st sw refs owners id size addr rec_addr dtor f' : host_inv st refs owners [] -> mirrors st sw [] ->
  permitted nowhere (mk_config st refs owners) (CArenaAlloc id size addr rec_addr dtor) = true ->
  unused_opt sw addr = true -> unused_opt sw rec_addr = true -> modest size = true -> (S (fuel_of st) <= f')%nat ->
  wp (lpp_arena_alloc false nowhere (S (fuel_of st)) st size id addr rec_addr dtor) (fun r =>
    wp (lpp_arena_alloc_w f' sw size id addr rec_addr dtor) (fun rw => rw.1 = r.1 /\ mirrors r.2 rw.2 [] /\ tidy r.1)).
Proof.
  intros Hi Hm Hp Hu Hur Hsz%Z.ltb_lt Hff. cbn [permitted] in Hp. rewrite !andb_true_iff in Hp.
  destruct Hp as [[[[[Hid%bool_decide_eq_true Ha] Hra] Hne%bool_decide_eq_true] Hroom%Z.ltb_lt] _].
  unfold lpp_arena_alloc, lpp_arena_alloc_w.
  destruct (Z.ltb_spec size 0) as [Hlt|Hge]; rewrite ?orb_true_r, ?orb_false_r; [by split_and!; [..|left]|].
  destruct (id =? 0); [by split_and!; [..|left]|].
  destruct addr as [a|].
  2: { unfold lpp_arc_alloc_with_destructor_w. rewrite (proj1 (small_header size ltac:(lia))). by split_and!; [..|left]. }
  cbn [granted_fresh unused_opt] in Ha, Hu. apply freshb_spec in Ha. rewrite alloc_w_eq by lia.
  change (lpp_arc_alloc_with_destructor st (Some a) dtor) with (a, (lpp_arc_alloc_with_destructor st (Some a) dtor).2).
  cbn iota beta. rewrite (fresh_nonzero _ _ _ Ha). unfold lpp_arc_alloc, lpp_arc_alloc_w.
  destruct rec_addr as [r|].
  - cbn [granted_fresh unused_opt] in Hra, Hur. apply freshb_spec in Hra. rewrite alloc_w_eq by (pow2; lia).
    change (lpp_arc_alloc_with_destructor ?s (Some r) false) with (r, (lpp_arc_alloc_with_destructor s (Some r) false).2).
    cbn iota beta. rewrite (fresh_nonzero _ _ _ Hra).
    destruct (arena_join_in_step st sw refs owners id size a r dtor Hi Hm Hid Ha Hra) as (x & -> & Eg & Eh & Hj);
      [intros ->; by destruct Hne|lia|done|done|lia|].
    change (set_wheap (set_wheap sw ?h) ?h') with (set_wheap sw h'). cbn [wheap set_wheap]. rewrite Eh. cbn [obind].
    unfold get_wregion in *. cbn [lpp_arena_regions set_wheap] in *. rewrite Eg. cbn [wp fst snd].
    rewrite (m_regions _ _ _ Hm). split_and!; [done|exact Hj|right; by destruct Ha].
  - change (lpp_arc_alloc_with_destructor ?s None false) with (0, s).
    change (lpp_arc_alloc_with_destructor_w ?s None 16 false) with (0, s). change (0 =? 0) with true. cbn iota beta.
    destruct (alloc_step nowhere st a dtor refs owners [] Hi Ha ltac:(lia)) as (Hi1 & _ & _).
    pose proof (mirrors_alloc st sw refs owners a size dtor Hi Hm Hu ltac:(lia)) as Hm1.
    apply wp_bind. eapply wp_mono; [eapply (release_in_step (S (fuel_of st)) f'); [done|exact Hi1| |exact Hm1|right; by destruct Ha]|].
    + rewrite (alloc_live_count st refs) by done. unfold fuel_of. lia.
    + intros st' Hw. cbn [wp fst snd]. apply wp_bind. eapply wp_mono; [exact Hw|]. intros sw' Hm'. by split_and!; [..|left].
Qed.

(** What a release does to the two configurations. *)
Lemma agrees_drop k kw p (f f' : nat) : cfg_ok nowhere k -> agrees k kw -> p ∈ crefs k -> (fuel_of (cst k) <= f)%nat -> (f <= f')%nat ->
  wp (let! st := host_release f (cst k) p in Ok (mk_config st (remove1 p (crefs k)) (cowners k))) (fun k' =>
    wp (let! st := lpp_arc_release_w f' (wst kw) p in Ok (mk_wconfig st (remove1 p (wrefs kw)) (wowners kw))) (agrees k')).
Proof.
  intros [Hi _] [Hm Er Eo Ht] Hp Hf Hff. apply wp_bind. eapply wp_mono.
  - eapply (drop_in_step _ _ _ _ p f f' Hi Hm Ht Hp); [|done]. unfold fuel_of in Hf. lia.
  - intros st' Hw. cbn [wp]. apply wp_bind. eapply wp_mono; [exact Hw|]. intros sw' [Hm' Ht']. cbn [wp].
    rewrite Er, Eo. by split.
Qed.

Lemma agrees_retain k kw p : cfg_ok nowhere k -> agrees k kw -> usable nowhere (cst k) p = true -> tidy p ->
  wp (let! st := lpp_arc_retain false nowhere (cst k) p in Ok (mk_config st (p :: crefs k) (cowners k))) (fun k' =>
    wp (let! st := lpp_arc_retain_w (wst kw) p in Ok (mk_wconfig st (p :: wrefs kw) (wowners kw))) (agrees k')).
Proof.
  intros [Hi _] [Hm Er Eo Ht] Hu Htp. apply usable_spec in Hu. apply wp_bind.
  eapply wp_mono; [by eapply retain_in_step|]. intros st' Hw. cbn [wp]. apply wp_bind.
  eapply wp_mono; [exact Hw|]. intros sw' Hm'. cbn [wp]. rewrite Er, Eo. split; try done. by apply Forall_cons.
Qed.

Lemma exec_in_step sz c k kw : cfg_ok nowhere k -> agrees k kw -> permitted nowhere k c = true -> served sz c kw = true ->
  wp (exec false nowhere c k) (fun k' => wp (exec_w sz c kw) (agrees k')).
Proof.
  intros Hok Hag Hp Hs. pose proof (fuel_enough _ _ _ _ _ _ (proj1 Hok) (ag_state _ _ Hag)) as Hfe.
  destruct k as [st refs owners], kw as [sw wrefs0 wowners0].
  pose proof Hag as [Hm Er Eo Ht]. pose proof Hok as [Hi Hg]. cbn [cst crefs cowners wst wrefs wowners] in *. subst wrefs0 wowners0.
  destruct c as [addr dtor|p|p|p|p|o c|id|id size addr rec_addr dtor|id|p|p]; cbn [exec exec_w permitted served wst] in *.
  - rewrite !andb_true_iff in Hs. destruct Hs as [[Hu Hz%Z.leb_le] Hsz%Z.ltb_lt].
    apply andb_true_iff in Hp as [Hf _]. destruct addr as [a|].
    + rewrite alloc_w_eq by lia. cbn [unused_opt] in Hu. apply freshb_spec in Hf.
      pose proof (mirrors_alloc st sw refs owners a sz dtor Hi Hm Hu ltac:(lia)) as Hm'.
      change (lpp_arc_alloc_with_destructor st (Some a) dtor) with (a, (lpp_arc_alloc_with_destructor st (Some a) dtor).2).
      cbn iota. rewrite (fresh_nonzero _ _ _ Hf). cbn [wp]. split; try done. apply Forall_cons. split; [right; by destruct Hf|done].
    + unfold lpp_arc_alloc_with_destructor_w. rewrite (proj1 (small_header sz ltac:(lia))). done.
  - apply andb_true_iff in Hp as [Hu _]. by apply (agrees_retain (mk_config st refs owners) (mk_wconfig sw refs owners) p), tidyb_spec.
  - apply bool_decide_eq_true in Hp.
    by apply (agrees_drop (mk_config st refs owners) (mk_wconfig sw refs owners) p (fuel_of st) (fuel_of_w sw)).
  - apply andb_true_iff in Hp as [Hu _]. by apply (agrees_retain (mk_config st refs owners) (mk_wconfig sw refs owners) p), tidyb_spec.
  - apply bool_decide_eq_true in Hp. rewrite release_local_eq, release_local_w_eq.
    apply (agrees_drop (mk_config st refs owners) (mk_wconfig sw refs owners) p (S (fuel_of st)) (S (fuel_of_w sw))); cbn; try done; lia.
  - apply andb_true_iff in Hp as [Hc%bool_decide_eq_true Ho]. destruct (heap st !! o) as [b|] eqn:Hb; [|done].
    apply andb_true_iff in Ho as [Hl _]. destruct (tidy_remove1 c refs Ht Hc) as [Ht' Htc].
    destruct (store_in_step st sw refs owners o c b Hi Hm Hb Hl Htc) as (w & -> & Hm'). by split.
  - destruct (begin_in_step st sw id Hm Hs) as (h & st' & sw' & -> & -> & Hm'). by split.
  - rewrite !andb_true_iff in Hs. destruct Hs as [[Hu Hur] Hsz]. apply wp_bind.
    eapply wp_mono; [eapply (arena_alloc_in_step st sw refs owners id size addr rec_addr dtor (S (fuel_of_w sw))); try done; lia|].
    intros [p st'] Hw. cbn [wp fst snd] in *. apply wp_bind. eapply wp_mono; [exact Hw|].
    intros [pw sw'] (-> & Hm' & Htp). cbn [wp fst snd]. split; try done. cbn. destruct (p =? 0); [done|by apply Forall_cons].
  - apply andb_true_iff in Hp as [Hin%bool_decide_eq_true Hz%negb_true_iff]. unfold lpp_arena_release, lpp_arena_release_w. rewrite Hz.
    apply wp_bind. eapply wp_mono.
    + eapply (node_zero_in_step (fuel_of st) (fuel_of_w sw) Hfe (release_in_step _) st sw [] id refs (remove1 id owners) []);
        [|unfold fuel_of; lia|done]. by apply (inv_owners_perm nowhere st refs owners); [apply remove1_perm|].
    + intros st' Hw. cbn [wp]. apply wp_bind. eapply wp_mono; [exact Hw|]. intros sw' Hm'. by split.
  - rewrite !andb_true_iff in Hp. destruct Hp as [[Ha Hn%bool_decide_eq_true] Hr].
    pose proof Ha as (b & Hb & Hl)%alive_block. destruct (i_live _ _ _ _ _ Hi p b Hb Hl) as (Hokp & _).
    destruct (live_in_step st sw [] _ _ _ p b Hi Hm Hb Hl) as (w & Hz & Hw & Hwh & _ & Hsh).
    unfold lpp_arena_retain, lpp_arena_retain_w. destruct (node_region st p Hn) as [id ->].
    rewrite (proj2 (Z.eqb_neq p 0) Hz), Hwh. cbn [obind]. rewrite (proj2 (sh_flag _ _ _ Hsh Hl) Hn).
    apply (agrees_retain (mk_config st refs owners) (mk_wconfig sw refs owners) p); [done..|unfold usable; cbn; by rewrite Ha|by right].
  - rewrite !andb_true_iff in Hp. destruct Hp as [[Hin%bool_decide_eq_true Ha] Hn%bool_decide_eq_true].
    pose proof Ha as (b & Hb & Hl)%alive_block. destruct (i_live _ _ _ _ _ Hi p b Hb Hl) as (Hokp & Hf & _).
    rewrite (release_node_is_release _ _ _ st p b), (release_node_w_eq st sw refs owners _ p b) by done.
    apply (agrees_drop (mk_config st refs owners) (mk_wconfig sw refs owners) p (S (fuel_of st)) (S (fuel_of_w sw))); cbn; try done; lia.
Qed.

(** *** Reachable pairs *)

(** A string literal as the compiler lays it out for this runtime. *)
Definition literal_of (b : block) : wblock := mk_wb (refcount b) (destructor b) 0 (owned b) false.
Definition start_w (h : gmap Z block) : wconfig := mk_wconfig (mk_ws (literal_of <$> h) []) [] [].

Inductive lockstep : config -> wconfig -> Prop :=
| lock_start h : literals h -> (forall p b, h !! p = Some b -> owned b = []) ->
    lockstep (mk_config (mk_state h 1 [] 0) [] []) (start_w h)
| lock_step k kw sz c k' kw' : lockstep k kw -> permitted nowhere k c = true -> served sz c kw = true ->
    exec false nowhere c k = Ok k' -> exec_w sz c kw = Ok kw' -> lockstep k' kw'.

Lemma start_agrees h : literals h -> (forall p b, h !! p = Some b -> owned b = []) ->
  agrees (mk_config (mk_state h 1 [] 0) [] []) (start_w h).
Proof.
  intros Hlit Ho. split; cbn; try done. split; cbn; try done; [apply NoDup_nil_2|..].
  - intros p b Hb Hf. split; [apply not_elem_of_nil|]. exists (literal_of b). rewrite lookup_fmap, Hb. split; [done|].
    split; try done. intros Hl. destruct (Hlit p b Hb) as (_ & Hi & _). destruct (live_magic b Hl). congruence.
  - intros id Hid. by apply elem_of_nil in Hid.
  - intros p w Hw _. right. rewrite lookup_fmap in Hw. destruct (h !! p) as [b|] eqn:E; [|done]. exists b. split; [done|]. by apply (Hlit p b).
  - split; [|by intros r ?%elem_of_nil]. intros p b Hb. by rewrite (Ho p b Hb).
Qed.

Lemma lockstep_agrees k kw : lockstep k kw -> cfg_ok nowhere k /\ agrees k kw.
Proof.
  induction 1 as [h Hlit Ho|k kw sz c k' kw' _ [Hok Hag] Hp Hs E Ew]; [split; [by apply init_ok|by apply start_agrees]|].
  pose proof (exec_ok false nowhere c k Hok Hp) as Hw. rewrite E in Hw. split; [apply Hw|].
  pose proof (exec_in_step sz c k kw Hok Hag Hp Hs) as H. rewrite E in H. cbn [wp] in H. rewrite Ew in H. done.
Qed.

(** C24. Reference counting on freestanding Windows does what it does on the host.  In every configuration
    that a correct program reaches on both, each reference is NULL or leads to a block that was not given
    back and whose count is the number of references to it; every call the program may make next returns,
    on both, with the same references and arenas in the program's hands; and the process keeps no block
    that the host has given back, the bookkeeping of open arenas apart. *)
Theorem win_arc_lockstep k kw : lockstep k kw ->
  (forall p, p ∈ all_refs (cst k) (wrefs kw) -> p = 0 \/ exists w, wheap (wst kw) !! p = Some w /\ wfreed w = false /\
     (lpp__is_immortal_w w = true \/
      (wcount w = Z.of_nat (occ p (all_refs (cst k) (wrefs kw))) /\ 0 < wcount w))) /\
  (forall sz c, permitted nowhere k c = true -> served sz c kw = true -> exists k' kw',
     exec false nowhere c k = Ok k' /\ exec_w sz c kw = Ok kw' /\ wrefs kw' = crefs k' /\ wowners kw' = cowners k') /\
  (forall p w, wheap (wst kw) !! p = Some w -> wfreed w = false ->
     p ∈ rid <$> lpp_arena_regions (wst kw) \/ exists b, heap (cst k) !! p = Some b /\ freed b = false).
Proof.
  intros [Hok Hag]%lockstep_agrees. pose proof Hok as [Hi _]. pose proof Hag as [Hm Er Eo Ht]. rewrite Er. split_and!.
  - intros p Hp. destruct (i_refs _ _ _ _ _ Hi p Hp) as [(b & Hb & Hl)%alive_block|Hin].
    + right. destruct (live_in_step _ _ _ _ _ _ p b Hi Hm Hb Hl) as (w & _ & Hw & _ & _ & Hs). exists w.
      destruct (i_live _ _ _ _ _ Hi p b Hb Hl) as (_ & _ & Hc & Hpos). rewrite (sh_count _ _ _ Hs).
      split_and!; [done|apply (sh_freed _ _ _ Hs)|by right].
    + destruct (inert_in_step _ _ _ p Hm Hin) as [?|(w & Hw & Him)]; [|by left|right].
      * apply elem_of_app in Hp as [Hp|[Hp|Hp]%elem_of_app]; [by rewrite Forall_forall in Ht; apply Ht| |].
        -- apply elem_of_edges in Hp as (q & b & Hb & _ & Hq). pose proof (proj1 (m_tidy _ _ _ Hm) q b Hb) as H.
           rewrite Forall_forall in H. by apply H.
        -- apply list_elem_of_bind in Hp as (r & Hq & Hr). pose proof (proj2 (m_tidy _ _ _ Hm) r Hr) as H.
           rewrite Forall_forall in H. by apply H.
      * exists w. unfold wheader in Hw. destruct (wheap (wst kw) !! p) as [x|]; [|done].
        destruct (wfreed x) eqn:Ef; [done|]. injection Hw as ->. split_and!; [done..|by left].
  - intros sz c Hp Hs. destruct (wp_inv _ _ (exec_in_step sz c k kw Hok Hag Hp Hs)) as (k' & E & Hw).
    destruct (wp_inv _ _ Hw) as (kw' & Ew & [_ Er' Eo' _]). by exists k', kw'.
  - intros p w Hw Hf. rewrite (m_regions _ _ _ Hm). by apply (m_back _ _ _ Hm p w).
Qed.

(** *** A concrete program, and a stale handle *)

Fixpoint run_w (cs : list cmd) (k : wconfig) : outcome wconfig :=
  match cs with
  | [] => Ok k
  | c :: cs => if served 40 c k then let! k := exec_w 40 c k in run_w cs k else Undef
  end.

Lemma run_lockstep cs : forall k kw k' kw', lockstep k kw -> run false nowhere cs k = Ok k' -> run_w cs kw = Ok kw' ->
  lockstep k' kw'.
Proof.
  induction cs as [|c cs IH]; intros k kw k' kw' Hl E Ew; cbn [run run_w] in *; [by injection E as <-; injection Ew as <-|].
  destruct (permitted nowhere k c) eqn:Hp; [|done]. destruct (served 40 c kw) eqn:Hs; [|done].
  destruct (exec false nowhere c k) as [k1| | |] eqn:E1; try done. destruct (exec_w 40 c kw) as [kw1| | |] eqn:E2; try done.
  eapply (IH k1 kw1); [by eapply lock_step|done|done].
Qed.

Definition after_w (cs : list cmd) : wconfig := match run_w cs (start_w ∅) with Ok k => k | _ => start_w ∅ end.
Definition after_host (cs : list cmd) : config := match run false nowhere cs start with Ok k => k | _ => start end.

Lemma win_arc_lockstep_witness : exists k' kw',
  exec false nowhere (CRelease 0x30000) (after_host demo_build) = Ok k' /\
  exec_w 40 (CRelease 0x30000) (after_w demo_build) = Ok kw' /\ wrefs kw' = crefs k' /\ wowners kw' = cowners k'.
Proof.
  destruct (win_arc_lockstep (after_host demo_build) (after_w demo_build)) as (_ & H & _).
  - apply (run_lockstep demo_build start (start_w ∅)); [|vm_compute; reflexivity..].
    apply (lock_start ∅); intros p b Hb; by rewrite lookup_empty in Hb.
  - apply H; vm_compute; reflexivity.
Defined.

(** HeapAlloc hands the block of a released object out again, and a weak handle to the old object gives the
    new one; the host's handle has expired. *)
Example stale_weak_handle :
  let cs := [CAlloc (Some 0x20000) true; CRelease 0x20000; CAlloc (Some 0x20000) true] in
  let g := lpp_weak_generation_w 0x20000 in
  (exists b, wheap (wst (after_w cs)) !! 0x20000 = Some b /\ wcount b = 1) /\
  lpp_weak_get_w 0x20000 g = 0x20000 /\
  (let! g := lpp_weak_generation false nowhere (cst (after_host [CAlloc (Some 0x20000) true])) 0x20000 in
   lpp_weak_get false nowhere (cst (after_host cs)) 0x20000 g) = Ok 0.
Proof. split; [eexists; vm_compute; split; reflexivity|]. split; vm_compute; reflexivity. Qed.
