(* ===== verification/WinList.v ===== *)
(** * The list of freestanding Windows (runtime/windows_x86_64_min.c)

    The same struct as on freestanding Linux ([FreeList.LppList_fs]; [data_map_size] is [data_bytes]), in
    VirtualAlloc memory, with every operation of the host's list.  [mm n] tells whether VirtualAlloc serves
    [n] bytes.  The calls to [lpp_arc_retain] and [lpp_arc_release] are recorded for every element of an
    owning list, where the host first looks whether the value can be a pointer. *)

From S2P Require Import Prelude Sort ListRt FreeMap FreeList.

Definition lpp_page_round_w (s : Z) : Z := Z.land (u64 (s + 4095)) (u64 (Z.lnot 4095)).

Definition virtual_free (l : LppList_fs) : list vm_ev :=
  if negb (data_map_size l =? 0) then [Munmap (data_map_size l)] else [].

Definition lpp_list_destroy_w (l : option LppList_fs) : outcome (list arc_ev * list vm_ev) :=
  match l with
  | None => Ok ([], [])
  | Some l =>
      let! ev := (if arc_elements l then fs_release_loop (Z.to_nat (flen l)) 0 (fdata l) else Ok []) in
      Ok (ev, virtual_free l)
  end.
Definition lpp_list_new_with_mode_w (object_ok : bool) (ae : bool) : option LppList_fs :=
  if object_ok then Some (mk_fsl [] 0 0 0 ae) else None.
Definition lpp_list_new_w (object_ok : bool) := lpp_list_new_with_mode_w object_ok false.
Definition lpp_list_new_arc_w (object_ok : bool) := lpp_list_new_with_mode_w object_ok true.

Definition set_fdata (l : LppList_fs) (d : list Z) : LppList_fs := mk_fsl d (flen l) (fcap l) (data_map_size l) (arc_elements l).
Definition set_flen (l : LppList_fs) (n : Z) : LppList_fs := mk_fsl (fdata l) n (fcap l) (data_map_size l) (arc_elements l).
Definition set_owning (l : LppList_fs) : LppList_fs := mk_fsl (fdata l) (flen l) (fcap l) (data_map_size l) true.

(** The part of [lpp_list_push] for a full list; [None] when it returns without storing. *)
Definition grow_w (mm : Z -> bool) (l : LppList_fs) : outcome (option LppList_fs * list vm_ev) :=
  if flen l =? fcap l then
    let! nc := (if fcap l =? 0 then Ok 8 else chk64 (fcap l * 2)) in
    if (nc <? fcap l) || (nc >? 9223372036854775807 / 8) then Ok (None, [])
    else
      let nb := lpp_page_round_w (u64 (u64 nc * 8)) in
      if negb (mm nb) then Ok (None, [])
      else
        let! d := copy_loop (Z.to_nat (flen l)) 0 (fdata l) (replicate (Z.to_nat (nb / 8)) 0) in
        Ok (Some (mk_fsl d (flen l) nc nb (arc_elements l)), Mmap nb :: virtual_free l)
  else Ok (Some l, []).

Definition lpp_list_push_w (mm : Z -> bool) (r : option LppList_fs) (v : Z) : outcome (option LppList_fs * list arc_ev * list vm_ev) :=
  match r with
  | None => Ok (None, [], [])
  | Some l =>
      let! '(grown, vm) := grow_w mm l in
      match grown with
      | None => Ok (Some l, [], vm)
      | Some l =>
          let ev := if arc_elements l then [Retain v] else [] in
          let! d := wr (fdata l) (flen l) v in
          Ok (Some (set_flen (set_fdata l d) (flen l + 1)), ev, vm)
      end
  end.
Definition lpp_list_push_arc_w (mm : Z -> bool) (l : option LppList_fs) (v : Z) := lpp_list_push_w mm (set_owning <$> l) v.
Definition lpp_list_push_float_w (mm : Z -> bool) (l : option LppList_fs) (bits : Z) := lpp_list_push_w mm l (i64 bits).
Definition lpp_list_push_bool_w (mm : Z -> bool) (l : option LppList_fs) (v : Z) := lpp_list_push_w mm l (if v =? 0 then 0 else 1).

Definition lpp_list_get_w (r : option LppList_fs) (i : Z) : outcome Z :=
  match r with
  | None => exit_101
  | Some l => if (i <? 0) || (i >=? flen l) then exit_101 else rd (fdata l) i
  end.
Definition lpp_list_get_float_w (l : option LppList_fs) (i : Z) : outcome Z := let! v := lpp_list_get_w l i in Ok (u64 v).
Definition lpp_list_get_bool_w (l : option LppList_fs) (i : Z) : outcome Z :=
  let! v := lpp_list_get_w l i in Ok (b2z (negb (v =? 0))).
Definition lpp_list_get_arc_w (l : option LppList_fs) (i : Z) : outcome Z := lpp_list_get_w l i.

Definition lpp_list_set_w (r : option LppList_fs) (i v : Z) : outcome (LppList_fs * list arc_ev) :=
  match r with
  | None => exit_101
  | Some l =>
      if (i <? 0) || (i >=? flen l) then exit_101
      else
        let! ev := (if arc_elements l then let! old := rd (fdata l) i in Ok [Retain v; Release old] else Ok []) in
        let! d := wr (fdata l) i v in
        Ok (set_fdata l d, ev)
  end.
Definition lpp_list_set_bool_w (l : option LppList_fs) (i v : Z) := lpp_list_set_w l i (if v =? 0 then 0 else 1).
Definition lpp_list_set_float_w (l : option LppList_fs) (i bits : Z) := lpp_list_set_w l i (i64 bits).
Definition lpp_list_set_arc_w (l : option LppList_fs) (i v : Z) := lpp_list_set_w (set_owning <$> l) i v.

Definition lpp_list_len_w (r : option LppList_fs) : Z := match r with Some l => flen l | None => 0 end.
Definition lpp_list_capacity_w (r : option LppList_fs) : Z := match r with Some l => fcap l | None => 0 end.

Definition lpp_list_pop_w (r : option LppList_fs) : outcome (LppList_fs * Z) :=
  match r with
  | None => exit_101
  | Some l =>
      if flen l <=? 0 then exit_101
      else
        let! n := chk64 (flen l - 1) in
        let! v := rd (fdata l) n in
        Ok (set_flen l n, v)
  end.

(** [for (i = len - 1; i > idx; i--) data[i] = data[i - 1]], with [k] steps to go. *)
Fixpoint shift_up (k : nat) (i : Z) (d : list Z) : outcome (list Z) :=
  match k with
  | O => Ok d
  | S k => let! v := rd d (i - 1) in let! d := wr d i v in shift_up k (i - 1) d
  end.

(** Pushes a zero to make room; what [lpp_list_push] did is not looked at. *)
Definition lpp_list_insert_w (mm : Z -> bool) (r : option LppList_fs) (idx v : Z) : outcome (LppList_fs * list arc_ev * list vm_ev) :=
  match r with
  | None => exit_101
  | Some l =>
      if (idx <? 0) || (idx >? flen l) then exit_101
      else
        let! '(o, ev, vm) := lpp_list_push_w mm (Some l) 0 in
        let l := default l o in
        let! d := shift_up (Z.to_nat (flen l - 1 - idx)) (flen l - 1) (fdata l) in
        let! d := wr d idx v in
        Ok (set_fdata l d, ev ++ (if arc_elements l then [Retain v] else []), vm)
  end.

(** [for (i = idx; i < len - 1; i++) data[i] = data[i + 1]]. *)
Fixpoint shift_down (k : nat) (i : Z) (d : list Z) : outcome (list Z) :=
  match k with
  | O => Ok d
  | S k => let! v := rd d (i + 1) in let! d := wr d i v in shift_down k (i + 1) d
  end.
Definition lpp_list_remove_w (r : option LppList_fs) (idx : Z) : outcome (LppList_fs * Z) :=
  match r with
  | None => exit_101
  | Some l =>
      if (idx <? 0) || (idx >=? flen l) then exit_101
      else
        let! val := rd (fdata l) idx in
        let! d := shift_down (Z.to_nat (flen l - 1 - idx)) idx (fdata l) in
        Ok (set_flen (set_fdata l d) (flen l - 1), val)
  end.

Definition lpp_list_reserve_w (r : option LppList_fs) (cap : Z) : option LppList_fs := r.

Definition lpp_list_clear_w (r : option LppList_fs) : outcome (option LppList_fs * list arc_ev) :=
  match r with
  | None => Ok (None, [])
  | Some l =>
      let! ev := (if arc_elements l then fs_release_loop (Z.to_nat (flen l)) 0 (fdata l) else Ok []) in
      Ok (Some (set_flen l 0), ev)
  end.

Definition lpp_list_truncate_w (r : option LppList_fs) (n : Z) : outcome (option LppList_fs * list arc_ev) :=
  match r with
  | None => Ok (None, [])
  | Some l =>
      if (n >=? flen l) || (n <? 0) then Ok (Some l, [])
      else
        let! ev := (if arc_elements l then fs_release_loop (Z.to_nat (flen l - n)) n (fdata l) else Ok []) in
        Ok (Some (set_flen l n), ev)
  end.

Definition lpp_list_swap_w (r : option LppList_fs) (i j : Z) : outcome LppList_fs :=
  match r with
  | None => exit_101
  | Some l =>
      if (i <? 0) || (i >=? flen l) || (j <? 0) || (j >=? flen l) then exit_101
      else let! d := swap (fdata l) i j in Ok (set_fdata l d)
  end.

Definition lpp_list_reverse_w (r : option LppList_fs) : outcome (option LppList_fs) :=
  match r with
  | None => Ok None
  | Some l =>
      if flen l <=? 1 then Ok (Some l)
      else let! d := reverse_loop (S (Z.to_nat (flen l))) (fdata l) 0 (flen l - 1) in Ok (Some (set_fdata l d))
  end.

(** The three sorts are one insertion sort, of the cells in use. *)
Definition list_sort_w (before : Z -> Z -> bool) (r : option LppList_fs) : outcome (option LppList_fs) :=
  match r with
  | None => Ok None
  | Some l =>
      if flen l <? 2 then Ok (Some l)
      else
        let! v := lpp_insertion_sort before (take (Z.to_nat (flen l)) (fdata l)) in
        Ok (Some (set_fdata l (v ++ drop (Z.to_nat (flen l)) (fdata l))))
  end.
Definition lpp_list_sort_w := list_sort_w lpp_i64_lt.
Definition lpp_list_sort_desc_w := list_sort_w lpp_i64_gt.
Definition lpp_list_sort_u_w := list_sort_w lpp_u64_lt.

Definition lpp_list_index_of_w (r : option LppList_fs) (v : Z) : outcome Z :=
  match r with
  | None => Ok (-1)
  | Some l => index_loop (fdata l) v (Z.to_nat (flen l)) 0
  end.
Definition lpp_list_binary_search_w (r : option LppList_fs) (v : Z) : outcome Z :=
  match r with
  | None => Ok (-1)
  | Some l => bsearch 64 (fdata l) v 0 (flen l - 1)
  end.

(** [src]: [None] is the destination itself, whose length the loop reads again in every round. *)
Fixpoint extend_loop_w (fuel : nat) (mm : Z -> bool) (dst : LppList_fs) (src : option LppList_fs) (i : Z)
  : outcome (LppList_fs * list arc_ev * list vm_ev) :=
  match fuel with
  | O => NoFuel
  | S f =>
      let s := default dst src in
      if i <? flen s then
        let! v := rd (fdata s) i in
        let! '(o, ev, vm) := lpp_list_push_w mm (Some dst) v in
        let! '(dst, ev', vm') := extend_loop_w f mm (default dst o) src (i + 1) in
        Ok (dst, ev ++ ev', vm ++ vm')
      else Ok (dst, [], [])
  end.

(** A source other than the destination is given by its cells, as in [ListRt]. *)
Definition cells_of (s : LppList) : LppList_fs := mk_fsl (data s) (len s) (cap s) 0 false.
Definition lpp_list_extend_w (fuel : nat) (mm : Z -> bool) (d : option LppList_fs) (s : extend_src)
  : outcome (option LppList_fs * list arc_ev * list vm_ev) :=
  match d, s with
  | None, _ => Ok (None, [], [])
  | Some _, NoSrc => Ok (d, [], [])
  | Some dst, Other s =>
      let! '(dst, ev, vm) := extend_loop_w fuel mm dst (Some (cells_of s)) 0 in Ok (Some dst, ev, vm)
  | Some dst, Itself => let! '(dst, ev, vm) := extend_loop_w fuel mm dst None 0 in Ok (Some dst, ev, vm)
  end.

(** An operation as the code runs it. *)
Definition of_opt (m : outcome (option LppList_fs * list arc_ev * list vm_ev)) : outcome (LppList_fs * Z * list arc_ev * list vm_ev) :=
  let! '(o, ev, vm) := m in match o with Some l => Ok (l, 0, ev, vm) | None => Undef end.
Definition no_vm {A} (m : outcome (A * list arc_ev)) : outcome (A * list arc_ev * list vm_ev) :=
  let! '(a, ev) := m in Ok (a, ev, []).
Definition no_ev {A} (m : outcome A) : outcome (A * list arc_ev * list vm_ev) := let! a := m in Ok (a, [], []).
Definition list_step_w (fuel : nat) (mm : Z -> bool) (op : list_op) (l : LppList_fs) : outcome (LppList_fs * Z * list arc_ev * list vm_ev) :=
  match op with
  | OPush v => of_opt (lpp_list_push_w mm (Some l) v)
  | OPushArc v => of_opt (lpp_list_push_arc_w mm (Some l) v)
  | OSet i v => let! '(l, ev) := lpp_list_set_w (Some l) i v in Ok (l, 0, ev, [])
  | OPop => let! '(l, x) := lpp_list_pop_w (Some l) in Ok (l, x, [], [])
  | OInsert i v => let! '(l, ev, vm) := lpp_list_insert_w mm (Some l) i v in Ok (l, 0, ev, vm)
  | ORemove i => let! '(l, x) := lpp_list_remove_w (Some l) i in Ok (l, x, [], [])
  | OReserve c => of_opt (Ok (lpp_list_reserve_w (Some l) c, [], []))
  | OClear => of_opt (no_vm (lpp_list_clear_w (Some l)))
  | OTruncate n => of_opt (no_vm (lpp_list_truncate_w (Some l) n))
  | OSwap i j => let! l := lpp_list_swap_w (Some l) i j in Ok (l, 0, [], [])
  | OReverse => of_opt (no_ev (lpp_list_reverse_w (Some l)))
  | OSort before => of_opt (no_ev (list_sort_w before (Some l)))
  | OExtend src => of_opt (lpp_list_extend_w fuel mm (Some l) src)
  end.

(** ** The loops *)

Lemma rd_mid {A} (pre suf : list A) x i : i = Z.of_nat (length pre) -> rd (pre ++ x :: suf) i = Ok x.
Proof. intros ->. apply rd_ok; [lia|]. by rewrite Nat2Z.id, list_lookup_middle. Qed.
Lemma wr_mid {A} (pre suf : list A) x y i : i = Z.of_nat (length pre) -> wr (pre ++ x :: suf) i y = Ok (pre ++ y :: suf).
Proof.
  intros ->. rewrite wr_ok by (rewrite length_app; simpl; lia). rewrite Nat2Z.id.
  by rewrite insert_app_r_alt, Nat.sub_diag by lia.
Qed.

Lemma shift_up_insert_w v : forall (mid : list Z) pre y suf i, i = Z.of_nat (length pre + length mid) ->
  (let! d := shift_up (length mid) i (pre ++ mid ++ y :: suf) in wr d (Z.of_nat (length pre)) v) = Ok (pre ++ v :: mid ++ suf).
Proof.
  induction mid as [|x mid IH] using rev_ind; intros pre y suf i ->; [by apply wr_mid|].
  rewrite length_app, Nat.add_1_r. cbn [shift_up]. rewrite <- !(assoc_L (++) mid). cbn [app].
  rewrite (assoc_L (++) pre), (rd_mid (pre ++ mid)) by (rewrite length_app; lia). cbn [obind].
  replace ((pre ++ mid) ++ x :: y :: suf) with ((pre ++ mid ++ [x]) ++ y :: suf) by (by rewrite <- !(assoc_L (++))).
  rewrite wr_mid by (rewrite !length_app; simpl; lia). cbn [obind]. rewrite <- !(assoc_L (++)). cbn [app].
  rewrite IH by lia. done.
Qed.

Lemma shift_down_spec : forall (mid : list Z) pre x suf i, i = Z.of_nat (length pre) ->
  exists z, shift_down (length mid) i (pre ++ x :: mid ++ suf) = Ok (pre ++ mid ++ z :: suf).
Proof.
  induction mid as [|m mid IH]; intros pre x suf i ->; [by exists x|]. cbn [length shift_down app].
  change (pre ++ x :: m :: mid ++ suf) with (pre ++ [x] ++ m :: (mid ++ suf)).
  rewrite (assoc_L (++)), rd_mid by (rewrite length_app; simpl; lia). cbn [obind]. rewrite <- (assoc_L (++)).
  cbn [app]. rewrite wr_mid by done. cbn [obind].
  destruct (IH (pre ++ [m]) m suf (Z.of_nat (length pre) + 1)) as [z Hz]; [rewrite length_app; simpl; lia|].
  exists z. rewrite <- !(assoc_L (++)) in Hz. exact Hz.
Qed.

(** ** Agreement with the sequence *)

(** The calls into the counter that reach an object, as the host filters them. *)
Definition ev_ptr (e : arc_ev) : Z := match e with Retain p | Release p => p end.
Definition heard (ev : list arc_ev) : list arc_ev := filter (fun e => arc_like (ev_ptr e) = true) ev.

Lemma heard_app a b : heard (a ++ b) = heard a ++ heard b.
Proof. apply filter_app. Qed.
Lemma heard_retain (o : bool) v : heard (if o then [Retain v] else []) = retains o v.
Proof. unfold heard, retains. destruct o; [|done]. cbn [andb]. rewrite filter_cons. cbn. by destruct (arc_like v). Qed.
Lemma heard_releases (o : bool) xs : heard (if o then Release <$> xs else []) = mbind (ListRt.releases o) xs.
Proof.
  destruct o; [|induction xs as [|x xs IH]; [done|by rewrite bind_cons, <- IH]].
  induction xs as [|x xs IH]; [done|]. rewrite bind_cons, <- IH. unfold heard, ListRt.releases. cbn [fmap list_fmap andb].
  rewrite filter_cons. cbn. by destruct (arc_like x).
Qed.

Lemma page_round_w_eq s : lpp_page_round_w s = lpp_page_round s.
Proof.
  unfold lpp_page_round_w, lpp_page_round. f_equal. unfold u64, uwrap. rewrite Zminus_mod_idemp_l. f_equal. lia.
Qed.
Lemma grow_w_eq mm l : grow_w mm l = fs_grow mm l.
Proof.
  unfold grow_w, fs_grow. destruct (flen l =? fcap l); [|done].
  destruct (if fcap l =? 0 then Ok 8 else chk64 (fcap l * 2)) as [nc| | |]; try done. cbn [obind].
  by rewrite page_round_w_eq.
Qed.
Lemma push_w_eq mm r v : lpp_list_push_w mm r v = lpp_list_push_fs mm r v.
Proof. destruct r as [l|]; [|done]. unfold lpp_list_push_w, lpp_list_push_fs. by rewrite grow_w_eq. Qed.

(** What VirtualAlloc may be asked for by an operation. *)
Definition more (op : list_op) (l : LppList_fs) : Z :=
  match op with OPush _ | OPushArc _ | OInsert _ _ => 1 | OExtend (Other s) => len s | _ => 0 end.
Definition ample (mm : Z -> bool) (n : Z) : Prop :=
  2 * n + 8 <= INT64_MAX / 8 /\ forall c, 0 < c <= 2 * n + 8 -> mm (bytes_for c) = true.
Definition op_ok (op : list_op) : Prop :=
  match op with
  | OSort before => SortOrder before
  | OExtend (Other s) => list_wf s
  | _ => True
  end.
(** The one operation that is not the host's: a list that is not empty, extended by itself. *)
Definition runs_on (op : list_op) (l : LppList_fs) : bool :=
  match op with OExtend Itself => 0 <? flen l | _ => false end.

(** The operation does to the sequence what the host's does, and the regions it maps and frees are
    accounted for by the one the list owns. *)
Definition balanced (l l' : LppList_fs) (vm : list vm_ev) : Prop :=
  region_of l ++ mapped vm ≡ₚ region_of l' ++ unmapped vm.
Definition does_w (op : list_op) (l : LppList_fs) (m : outcome (LppList_fs * Z * list arc_ev * list vm_ev)) : Prop :=
  if list_pre op (felems l) then
    wp m (fun '(l', r, ev, vm) => fsl_wf l' /\
      list_spec op (felems l) (arc_elements l) (felems l') (arc_elements l') r (heard ev) /\ balanced l l' vm)
  else m = exit_101.

Lemma balanced_same l l' : region_of l' = region_of l -> balanced l l' [].
Proof. intros H. unfold balanced. by rewrite H. Qed.
Lemma balanced_trans l1 l2 l3 vm vm' : balanced l1 l2 vm -> balanced l2 l3 vm' -> balanced l1 l3 (vm ++ vm').
Proof.
  unfold balanced, mapped, unmapped. rewrite !omap_app. fold (mapped vm) (mapped vm') (unmapped vm) (unmapped vm').
  intros H1 H2. rewrite (assoc_L (++)), H1. rewrite <- (assoc_L (++)), (Permutation_app_comm (unmapped vm)).
  rewrite (assoc_L (++)), H2, <- (assoc_L (++)). f_equiv. apply Permutation_app_comm.
Qed.

Lemma ample_room mm l n : fsl_wf l -> flen l <= n -> ample mm n -> room mm l = true.
Proof.
  intros Hl Hn [Hb Hmm]. pose proof (fw_len l Hl). unfold room. destruct (Z.eqb_spec (flen l) (fcap l)) as [E|]; [|done].
  cbn [negb orb]. assert (0 < next_cap l <= 2 * n + 8).
  { unfold next_cap. destruct (Z.eqb_spec (fcap l) 0); lia. }
  rewrite Hmm by lia. rewrite (proj2 (Z.leb_le _ _)) by lia. done.
Qed.

Lemma push_w_ok mm l v : fsl_wf l -> room mm l = true ->
  wp (lpp_list_push_w mm (Some l) v) (fun '(o, ev, vm) => exists l', o = Some l' /\ fsl_wf l' /\
    felems l' = felems l ++ [v] /\ flen l' = flen l + 1 /\ arc_elements l' = arc_elements l /\
    heard ev = retains (arc_elements l) v /\ balanced l l' vm).
Proof.
  intros Hl Hr. pose proof (push_fs_does mm l v Hl) as H. cbn [fsl_spec fsl_step fsl_does] in H. rewrite Hr in H.
  rewrite push_w_eq. destruct (lpp_list_push_fs mm (Some l) v) as [[[[l'|] ev] vm]| | |]; try done. cbn in H |- *.
  destruct H as (Hw & He & _ & -> & Ha & Hb). exists l'. split_and!; try done; [|by rewrite heard_retain].
  pose proof (felems_length l Hl). pose proof (felems_length l' Hw). rewrite He, length_app in *. cbn in *. lia.
Qed.

(** Setting the mark of an owning list changes nothing else. *)
Lemma owning_same l : fsl_wf l -> fsl_wf (set_owning l) /\ felems (set_owning l) = felems l /\ region_of (set_owning l) = region_of l.
Proof. intros [? ? ? ? ?]. split_and!; [by split|done|done]. Qed.

Lemma felems_prefix l : fsl_wf l -> fdata l = felems l ++ drop (Z.to_nat (flen l)) (fdata l).
Proof. intros _. unfold felems. by rewrite take_drop. Qed.

(** New cells of the same number in the same block. *)
Lemma store_cells l ys rest n : fsl_wf l -> length (ys ++ rest) = length (fdata l) -> Z.of_nat (length ys) = n ->
  0 <= n <= fcap l ->
  let l' := set_flen (set_fdata l (ys ++ rest)) n in
  fsl_wf l' /\ felems l' = ys /\ region_of l' = region_of l /\ arc_elements l' = arc_elements l.
Proof.
  intros [W1 W2 W3 W4 W5] Hlen Hn Hc l'. split_and!; try done.
  - split; cbn [flen fcap fdata data_map_size set_flen set_fdata l']; rewrite ?Hlen; done.
  - unfold felems. cbn [flen fdata set_flen set_fdata l']. by rewrite take_app_length' by lia.
Qed.

Section ops.
Context (mm : Z -> bool) (l : LppList_fs) (Hl : fsl_wf l).

Lemma pre_range i : (i <? 0) || (i >=? flen l) = negb (in_range i (felems l)).
Proof. by apply fs_range_guard. Qed.

Lemma push_does fuel v : ample mm (flen l + 1) -> does_w (OPush v) l (list_step_w fuel mm (OPush v) l).
Proof.
  intros Ha. unfold does_w. cbn [list_pre list_step_w of_opt]. apply wp_bind.
  eapply wp_mono; [apply push_w_ok; [done|apply (ample_room _ _ (flen l + 1)); done || lia]|].
  intros [[o ev] vm] (l' & -> & Hw & He & _ & Ha' & Hh & Hb). by split_and!.
Qed.

Lemma push_arc_does fuel v : ample mm (flen l + 1) -> does_w (OPushArc v) l (list_step_w fuel mm (OPushArc v) l).
Proof.
  intros Ha. destruct (owning_same l Hl) as (Hw & He & Hr). unfold does_w. cbn [list_pre list_step_w of_opt].
  unfold lpp_list_push_arc_w. cbn [fmap option_fmap option_map]. apply wp_bind.
  eapply wp_mono; [apply push_w_ok; [done|apply (ample_room _ _ (flen l + 1)); cbn; done || lia]|].
  intros [[o ev] vm] (l' & -> & Hw' & He' & _ & Ha' & Hh & Hb). rewrite He in He'. by split_and!.
Qed.

Lemma set_does fuel i v : does_w (OSet i v) l (list_step_w fuel mm (OSet i v) l).
Proof.
  pose proof (set_fs_does mm l i v Hl) as H. unfold does_w. cbn [fsl_spec fsl_step fsl_does list_pre list_step_w] in *.
  change (lpp_list_set_w (Some l) i v) with (lpp_list_set_fs (Some l) i v).
  destruct (in_range i (felems l)) eqn:Hi; cbn [fsl_does] in H; [|done].
  destruct (lpp_list_set_fs (Some l) i v) as [[l' ev]| | |]; try done. cbn in *.
  destruct H as (Hw & He & _ & -> & Ha & Hb). split_and!; [done..| |done].
  destruct (arc_elements l); [|done]. unfold heard, retains, ListRt.releases. cbn [andb]. rewrite !filter_cons. cbn.
  by destruct (arc_like v), (arc_like (felems l !!! Z.to_nat i)).
Qed.

Lemma pop_does fuel : does_w OPop l (list_step_w fuel mm OPop l).
Proof.
  pose proof (pop_fs_does mm l Hl) as H. unfold does_w. cbn [fsl_spec fsl_step fsl_does list_pre list_step_w] in *.
  change (lpp_list_pop_w (Some l)) with (lpp_list_pop_fs (Some l)).
  destruct (last (felems l)) as [x|] eqn:Ex; cbn [fsl_does] in H.
  - assert (negb (Z.of_nat (length (felems l)) =? 0) = true) as ->.
    { apply negb_true_iff, Z.eqb_neq. destruct (felems l); [done|simpl; lia]. }
    destruct (lpp_list_pop_fs (Some l)) as [[l' y]| | |]; try done. cbn in *. destruct H as (Hw & He & -> & _ & Ha & Hb).
    split_and!; try done. apply last_Some in Ex as [xs Exs]. rewrite He, Exs, length_app, Nat.add_sub.
    by rewrite take_app_length.
  - apply last_None in Ex. rewrite Ex. exact H.
Qed.

Lemma insert_does fuel i v : ample mm (flen l + 1) -> does_w (OInsert i v) l (list_step_w fuel mm (OInsert i v) l).
Proof.
  intros Ha. unfold does_w. cbn [list_pre list_step_w lpp_list_insert_w]. rewrite (felems_length l Hl).
  rewrite Z.gtb_ltb, (Z.ltb_antisym 0 i), (Z.ltb_antisym i (flen l)), <- negb_andb.
  destruct ((0 <=? i) && (i <=? flen l)) eqn:Ei; cbn [negb]; [|done]. bool_to_prop. apply wp_bind, wp_bind.
  eapply wp_mono; [apply push_w_ok; [done|apply (ample_room _ _ (flen l + 1)); done || lia]|].
  intros [[o ev] vm] (l' & -> & Hw & He & Hn & Ha' & Hh & Hb). change (default l (Some l')) with l'. cbv zeta.
  pose proof (felems_length l Hl) as Hlen. set (xs := felems l) in *. set (k := Z.to_nat i).
  set (rest := drop (Z.to_nat (flen l')) (fdata l')).
  assert (Hd : fdata l' = take k xs ++ drop k xs ++ 0 :: rest).
  { rewrite (felems_prefix l' Hw) at 1. rewrite He. fold rest. rewrite <- (take_drop k xs) at 1. by rewrite <- !(assoc_L (++)). }
  assert (Hk : Z.of_nat (length (take k xs)) = i) by (rewrite length_take; lia).
  assert (Hs : (let! d := shift_up (Z.to_nat (flen l' - 1 - i)) (flen l' - 1) (fdata l') in wr d i v)
    = Ok (take k xs ++ v :: drop k xs ++ rest)).
  { rewrite Hd. replace (Z.to_nat (flen l' - 1 - i)) with (length (drop k xs)) by (rewrite length_drop; lia).
    rewrite <- Hk. apply shift_up_insert_w. rewrite <- length_app, take_drop. lia. }
  destruct (shift_up _ _ _) as [d| | |]; cbn [obind] in Hs |- *; try done. rewrite Hs. cbn [obind wp].
  destruct (store_cells l' (take k xs ++ v :: drop k xs) rest (flen l') Hw) as (Hw2 & He2 & Hr2 & Ha2).
  - rewrite Hd, !length_app. simpl. lia.
  - rewrite length_app. simpl. rewrite length_drop. lia.
  - destruct Hw. lia.
  - rewrite <- !(assoc_L (++)) in *. cbn [app] in *.
    assert (set_flen (set_fdata l' (take k xs ++ v :: drop k xs ++ rest)) (flen l') = set_fdata l' (take k xs ++ v :: drop k xs ++ rest)) as E by done.
    rewrite E in *. split_and!; try done.
    cbn. rewrite heard_app, heard_retain, Hh, Ha'. unfold retains at 1. cbn. by rewrite andb_false_r.
Qed.

Lemma remove_does fuel i : does_w (ORemove i) l (list_step_w fuel mm (ORemove i) l).
Proof.
  unfold does_w. cbn [list_pre list_step_w lpp_list_remove_w]. rewrite pre_range.
  destruct (in_range i (felems l)) eqn:Ei; cbn [negb]; [|done]. rewrite (felems_read l i Hl Ei). cbn [obind].
  pose proof (felems_length l Hl) as Hlen. unfold in_range in Ei. bool_to_prop. set (xs := felems l) in *. set (k := Z.to_nat i).
  destruct (lookup_lt_is_Some_2 xs k) as [x Hx]; [lia|].
  assert (xs !!! k = x) as -> by (by apply list_lookup_total_correct).
  assert (Hk : length (take k xs) = k) by (rewrite length_take; lia).
  rewrite (felems_prefix l Hl). fold xs. set (rest := drop _ (fdata l)). rewrite <- (take_drop_middle xs k x Hx) at 1.
  rewrite <- !(assoc_L (++)). cbn [app].
  replace (Z.to_nat (flen l - 1 - i)) with (length (drop (S k) xs)) by (rewrite length_drop; lia).
  destruct (shift_down_spec (drop (S k) xs) (take k xs) x rest i) as [z ->]; [lia|]. cbn [obind wp].
  destruct (store_cells l (take k xs ++ drop (S k) xs) (z :: rest) (flen l - 1) Hl) as (Hw2 & He2 & Hr2 & Ha2).
  - rewrite (felems_prefix l Hl) at 1. fold xs rest. rewrite !length_app. simpl. rewrite length_drop. lia.
  - rewrite length_app, length_drop. lia.
  - destruct Hl. lia.
  - rewrite <- (assoc_L (++)) in *. split_and!; [done| |by apply balanced_same]. rewrite He2.
    split_and!; try done. rewrite take_app_le, drop_app_ge by lia. rewrite Hk, Nat.sub_diag, drop_0.
    rewrite take_ge by lia. by rewrite (take_drop_middle xs k x Hx).
Qed.
End ops.

Section more_ops.
Context (mm : Z -> bool) (l : LppList_fs) (Hl : fsl_wf l).

(** Cutting the list to [n] elements. *)
Lemma cut n : 0 <= n <= flen l -> fsl_wf (set_flen l n) /\ felems (set_flen l n) = take (Z.to_nat n) (felems l).
Proof.
  intros Hn. destruct Hl as [W1 W2 W3 W4 W5]. split; [split; cbn; done || lia|].
  unfold felems. cbn [flen fdata set_flen]. rewrite take_take. f_equal. lia.
Qed.

Lemma released n : 0 <= n <= flen l ->
  wp (if arc_elements l then fs_release_loop (Z.to_nat (flen l - n)) n (fdata l) else Ok [])
    (fun ev => heard ev = mbind (ListRt.releases (arc_elements l)) (drop (Z.to_nat n) (felems l))).
Proof.
  intros Hn. destruct Hl as [W1 W2 W3 W4 W5]. destruct (arc_elements l) eqn:Ea.
  - rewrite release_loop_all by lia. cbn [wp]. rewrite <- heard_releases. do 3 f_equal.
    unfold felems. rewrite skipn_firstn_comm. f_equal. lia.
  - cbn [wp]. by rewrite <- (heard_releases false).
Qed.

Lemma truncate_does fuel n : does_w (OTruncate n) l (list_step_w fuel mm (OTruncate n) l).
Proof.
  pose proof (fw_len l Hl) as Hn. pose proof (felems_length l Hl) as Hlen. unfold does_w.
  cbn [list_pre list_step_w lpp_list_truncate_w no_vm of_opt list_spec]. rewrite Z.geb_leb.
  destruct (Z.leb_spec (flen l) n) as [Hbig|Hsm]; cbn [orb].
  - cbn. rewrite (proj2 (Z.ltb_ge n 0)) by lia. rewrite take_ge, drop_ge by lia.
    by split_and!; try apply balanced_same.
  - destruct (Z.ltb_spec n 0); cbn.
    + rewrite take_ge, drop_ge by lia. by split_and!; try apply balanced_same.
    + apply wp_bind, wp_bind, wp_bind. eapply wp_mono; [apply (released n); lia|]. intros ev Hev. cbn.
      destruct (cut n) as [Hw He]; [lia|]. split_and!; [done..|by apply balanced_same].
Qed.

Lemma clear_does fuel : does_w OClear l (list_step_w fuel mm OClear l).
Proof.
  pose proof (fw_len l Hl) as Hn. unfold does_w. cbn [list_pre list_step_w lpp_list_clear_w no_vm of_opt list_spec].
  pose proof (released 0 ltac:(lia)) as Hr. rewrite Z.sub_0_r in Hr.
  apply wp_bind, wp_bind, wp_bind. eapply wp_mono; [exact Hr|]. intros ev Hev. cbn.
  destruct (cut 0) as [Hw He]; [lia|]. split_and!; [done..|by apply balanced_same].
Qed.

(** Rewriting the cells in use. *)
Lemma rewrite_cells ys : length ys = length (felems l) ->
  fsl_wf (set_fdata l (ys ++ drop (Z.to_nat (flen l)) (fdata l))) /\
  felems (set_fdata l (ys ++ drop (Z.to_nat (flen l)) (fdata l))) = ys.
Proof.
  intros Hy. pose proof (felems_length l Hl) as Hlen.
  destruct (store_cells l ys (drop (Z.to_nat (flen l)) (fdata l)) (flen l) Hl) as (Hw & He & _ & _); [|lia|by destruct Hl|done].
  rewrite (felems_prefix l Hl) at 2. rewrite !length_app. lia.
Qed.

(** The cells a loop left, when it did not touch those behind the list. *)
Lemma cells_of_loop d : length d = length (fdata l) -> (forall k, (Z.to_nat (flen l) <= k)%nat -> d !!! k = fdata l !!! k) ->
  set_fdata l d = set_fdata l (take (Z.to_nat (flen l)) d ++ drop (Z.to_nat (flen l)) (fdata l)).
Proof.
  intros Hd Hk. unfold set_fdata. f_equal. rewrite <- (take_drop (Z.to_nat (flen l)) d) at 1. f_equal.
  apply list_eq_same_length with (length (drop (Z.to_nat (flen l)) d)); [by rewrite !length_drop, Hd|done|].
  intros i x y Hi Hx Hy. rewrite lookup_drop in Hx, Hy. apply list_lookup_total_correct in Hx, Hy.
  rewrite <- Hx, <- Hy. apply Hk. lia.
Qed.

Lemma swap_does fuel i j : does_w (OSwap i j) l (list_step_w fuel mm (OSwap i j) l).
Proof.
  unfold does_w. cbn [list_pre list_step_w lpp_list_swap_w list_spec].
  rewrite <- (orb_assoc _ (j <? 0)), !pre_range, <- negb_andb by done.
  destruct (in_range i (felems l) && in_range j (felems l)) eqn:E; cbn [negb]; [|done].
  pose proof (felems_length l Hl) as Hlen. unfold in_range in E. rewrite Hlen in E. bool_to_prop. destruct Hl as [W1 W2 W3 W4 W5].
  rewrite swap_ok by lia. cbn. fold (swapped (fdata l) (Z.to_nat i) (Z.to_nat j)).
  split_and!; try done.
  - split; cbn; rewrite ?swapped_length; done.
  - unfold felems, swapped. cbn [fdata flen set_fdata]. rewrite !take_insert_lt, !lookup_total_take_lt by lia. done.
  - by apply balanced_same.
Qed.

Lemma sort_does fuel before : SortOrder before -> does_w (OSort before) l (list_step_w fuel mm (OSort before) l).
Proof.
  intros Ho. pose proof (felems_length l Hl) as Hlen. unfold does_w. cbn [list_pre list_step_w list_sort_w no_ev of_opt list_spec].
  destruct (Z.ltb_spec (flen l) 2) as [Hs|_].
  - cbn. split_and!; try done; [|by apply balanced_same].
    destruct (felems l) as [|x [|y xs]]; [by constructor|by repeat constructor|simpl in Hlen; lia].
  - apply wp_bind, wp_bind, wp_bind. eapply wp_mono; [by apply insertion_sort_spec|]. intros v [Hp Hs]. cbn.
    fold (felems l) in Hp. destruct (rewrite_cells v) as [Hw He]; [by rewrite Hp|].
    split_and!; try done; [by rewrite He| |by apply balanced_same]. rewrite He. by apply sorted_strongly.
Qed.

Lemma reverse_does fuel : does_w OReverse l (list_step_w fuel mm OReverse l).
Proof.
  pose proof (felems_length l Hl) as Hlen. unfold does_w. cbn [list_pre list_step_w lpp_list_reverse_w no_ev of_opt list_spec].
  destruct (Z.leb_spec (flen l) 1) as [Hs|Hb].
  - cbn. split_and!; try done; [|by apply balanced_same].
    destruct (felems l) as [|x [|y xs]]; [done..|simpl in Hlen; lia].
  - pose proof Hl as [W1 W2 W3 W4 W5]. apply wp_bind, wp_bind, wp_bind. replace 0 with (Z.of_nat 0) at 1 by done.
    replace (flen l - 1) with (Z.of_nat (Z.to_nat (flen l) - 1)) by lia.
    eapply wp_mono; [apply reverse_loop_spec; lia|]. intros d [Hd Hk]. cbn.
    rewrite cells_of_loop; [|done|intros k Hle; rewrite Hk, decide_False by lia; done].
    destruct (rewrite_cells (take (Z.to_nat (flen l)) d)) as [Hw He]; [rewrite length_take; lia|].
    split_and!; try done; [|by apply balanced_same]. rewrite He.
    apply list_eq_same_length with (Z.to_nat (flen l)); [rewrite length_reverse; lia|rewrite length_take; lia|].
    intros i x y Hi Hx Hy. rewrite lookup_take_lt in Hx by lia. apply list_lookup_total_correct in Hx. rewrite Hk, decide_True in Hx by lia.
    rewrite reverse_lookup in Hy by lia. apply list_lookup_total_correct in Hy. rewrite <- Hx, <- Hy.
    replace (length (felems l)) with (Z.to_nat (flen l)) by lia. unfold felems.
    rewrite lookup_total_take_lt by lia. f_equal. lia.
Qed.
End more_ops.

Lemma extend_loop_ok mm n s : list_wf s -> ample mm n -> forall f dst i, fsl_wf dst -> 0 <= i <= len s ->
  (Z.to_nat (len s - i) < f)%nat -> flen dst + (len s - i) <= n ->
  wp (extend_loop_w f mm dst (Some (cells_of s)) i) (fun '(d, ev, vm) => fsl_wf d /\
    felems d = felems dst ++ drop (Z.to_nat i) (elems s) /\ arc_elements d = arc_elements dst /\
    heard ev = mbind (retains (arc_elements dst)) (drop (Z.to_nat i) (elems s)) /\ balanced dst d vm).
Proof.
  intros Hs Ha. pose proof (elems_length s Hs) as Hlen. destruct Hs as [S1 S2 S3 S4].
  induction f as [|f IH]; intros dst i Hw Hi Hf Hn; [lia|]. cbn [extend_loop_w]. change (default dst (Some ?s)) with s.
  cbn [cells_of flen fdata]. destruct (Z.ltb_spec i (len s)) as [Hlt|Hge].
  2: { cbn. rewrite drop_ge, app_nil_r by lia. split_and!; done || by apply balanced_same. }
  destruct (lookup_lt_is_Some_2 (elems s) (Z.to_nat i)) as [x Hx]; [lia|].
  assert (rd (data s) i = Ok x) as ->.
  { apply rd_ok; [lia|]. unfold elems in Hx. by rewrite lookup_take_lt in Hx by lia. }
  cbn [obind]. apply wp_bind. eapply wp_mono; [apply push_w_ok; [done|apply (ample_room _ _ n); done || lia]|].
  intros [[o ev] vm] (d1 & -> & Hw1 & He1 & Hn1 & Ha1 & Hh1 & Hb1). change (default dst (Some d1)) with d1.
  apply wp_bind. eapply wp_mono; [apply (IH d1 (i + 1)); done || lia|].
  intros [[d ev'] vm'] (Hwd & Hed & Had & Hhd & Hbd). cbn [wp]. rewrite (drop_S (elems s) x (Z.to_nat i)) by done.
  replace (Z.to_nat (i + 1)) with (S (Z.to_nat i)) in * by lia. rewrite bind_cons, heard_app, Hh1, Hhd, Ha1, Hed, He1.
  rewrite <- (assoc_L (++)). split_and!; try done; [congruence|by eapply balanced_trans].
Qed.

Lemma extend_does mm l fuel src : fsl_wf l -> op_ok (OExtend src) -> runs_on (OExtend src) l = false ->
  (0 < more (OExtend src) l -> ample mm (flen l + more (OExtend src) l)) -> (Z.to_nat (more (OExtend src) l) < fuel)%nat ->
  does_w (OExtend src) l (list_step_w fuel mm (OExtend src) l).
Proof.
  intros Hl Hok Hrun Ha Hf. unfold does_w. cbn [list_pre list_step_w lpp_list_extend_w list_spec].
  destruct src as [|s|]; cbn [src_elems op_ok more runs_on] in *.
  - cbn. rewrite app_nil_r. split_and!; done || by apply balanced_same.
  - pose proof (elems_length s Hok) as Hlen. destruct (Z.eq_dec (len s) 0) as [Hz|Hz].
    + destruct fuel as [|f]; [lia|]. cbn. rewrite Hz. change (0 <? 0) with false. cbn.
      destruct (elems s); [|simpl in Hlen; lia]. cbn. rewrite app_nil_r. split_and!; done || by apply balanced_same.
    + pose proof (wf_len s Hok). apply wp_bind, wp_bind. eapply wp_mono.
      * apply (extend_loop_ok mm (flen l + len s) s); try done || lia. apply Ha. lia.
      * intros [[d ev] vm] (? & ? & ? & ? & ?). cbn. rewrite drop_0 in *. by split_and!.
  - pose proof (felems_length l Hl) as Hlen. pose proof (fw_len l Hl). apply Z.ltb_ge in Hrun. assert (flen l = 0) as Hz by lia.
    destruct fuel as [|f]; [lia|]. cbn. rewrite Hz. change (0 <? 0) with false. cbn.
    rewrite Hz in Hlen. destruct (felems l) eqn:E; [|simpl in Hlen; lia]. cbn. split_and!; done || by apply balanced_same.
Qed.

(** A list that is not empty, extended by itself, grows as long as there is memory. *)
Lemma extend_self_runs_on mm : forall f l i, fsl_wf l -> 0 <= i < flen l -> ample mm (flen l + Z.of_nat f) ->
  extend_loop_w f mm l None i = NoFuel.
Proof.
  induction f as [|f IH]; intros l i Hl Hi Ha; [done|]. cbn [extend_loop_w]. change (default l None) with l.
  rewrite (proj2 (Z.ltb_lt _ _)) by lia. pose proof (felems_length l Hl) as Hlen.
  rewrite felems_read; [|done|unfold in_range; rewrite Hlen; lia]. cbn [obind].
  assert (Hr : room mm l = true) by (apply (ample_room _ _ (flen l + Z.of_nat (S f))); done || lia).
  destruct (wp_inv _ _ (push_w_ok mm l (felems l !!! Z.to_nat i) Hl Hr)) as ([[o ev] vm] & -> & l' & -> & Hw & _ & Hn & _).
  cbn [obind]. change (default l (Some l')) with l'. rewrite IH; [done|done|lia|].
  replace (flen l' + Z.of_nat f) with (flen l + Z.of_nat (S f)) by lia. done.
Qed.

(** C25. The list of freestanding Windows is the host's list: every operation on a well-formed list, but
    one, leaves the sequence the host's leaves, returns what it returns and makes the same effective calls
    into the counter, as long as memory is served; where the host panics (an index outside the list, a pop of
    an empty one) the process exits with status 101.  The block a list owns is the only one it ever gives
    back, and destroying the list drops each element once.  The exception is a list that is not empty and
    is extended by itself, which the host doubles: here the loop never ends while memory is
    served.  (Sorting is an insertion sort here, and is compared for any strict order; the source of an
    extension is well-formed.) *)
Theorem win_list_agrees mm op l : fsl_wf l -> op_ok op -> (0 < more op l -> ample mm (flen l + more op l)) ->
  (if runs_on op l then forall f, ample mm (flen l + Z.of_nat f) -> list_step_w f mm op l = NoFuel
   else does_w op l (list_step_w (S (Z.to_nat (more op l))) mm op l)) /\
  wp (lpp_list_destroy_w (Some l)) (fun '(ev, vm) =>
    heard ev = mbind (ListRt.releases (arc_elements l)) (felems l) /\ mapped vm = [] /\ unmapped vm = region_of l).
Proof.
  intros Hl Hok Ha. split.
  - destruct (runs_on op l) eqn:Hrun.
    { destruct op as [| | | | | | | | | | | |[]]; try done. cbn [runs_on] in Hrun. apply Z.ltb_lt in Hrun. intros f Hf. cbn [list_step_w lpp_list_extend_w].
      by rewrite extend_self_runs_on by (done || lia). }
    destruct op; cbn [more op_ok] in *; [apply push_does|apply push_arc_does|apply set_does|apply pop_does|apply insert_does
      |apply remove_does| |apply clear_does|apply truncate_does|apply swap_does|apply reverse_does|by apply sort_does
      |apply extend_does]; try done; try (apply Ha; lia); try (cbn [more]; lia).
    cbn. split_and!; done || by apply balanced_same.
  - cbn [lpp_list_destroy_w]. pose proof (fw_len l Hl) as Hn. pose proof (released l Hl 0 ltac:(lia)) as Hr.
    rewrite Z.sub_0_r, drop_0 in Hr. apply wp_bind. eapply wp_mono; [exact Hr|]. intros ev Hev. cbn.
    destruct (region_unmap l) as [Hu Hm]. unfold virtual_free. by rewrite Hu, Hm.
Qed.

Definition win_list_ex : LppList_fs := mk_fsl ([30; 10; 20] ++ replicate 509 0) 3 8 4096 false.
Lemma win_list_ex_wf : fsl_wf win_list_ex.
Proof. split; vm_compute; try done; split; discriminate. Qed.

Lemma win_list_agrees_witness :
  does_w (OSort lpp_i64_lt) win_list_ex (list_step_w 1 (fun _ => true) (OSort lpp_i64_lt) win_list_ex) /\
  list_step_w 1 (fun _ => true) (OSort lpp_i64_lt) win_list_ex =
    Ok (mk_fsl ([10; 20; 30] ++ replicate 509 0) 3 8 4096 false, 0, [], []).
Proof.
  split; [|vm_compute; reflexivity].
  refine (proj1 (win_list_agrees (fun _ => true) (OSort lpp_i64_lt) win_list_ex win_list_ex_wf _ _)).
  - exact i64_lt_order.
  - intros H. vm_compute in H. discriminate.
Defined.

(** ** Where memory is refused, and where the source is the destination *)

(** A push that finds no memory does nothing and does not say so. *)
Lemma push_refused mm l v : fsl_wf l -> room mm l = false ->
  wp (lpp_list_push_w mm (Some l) v) (fun '(o, ev, vm) => o = Some l /\ ev = [] /\ vm = []).
Proof.
  intros Hl Hr. pose proof (fs_grow_spec mm l Hl) as H. rewrite Hr in H. rewrite push_w_eq. cbn [lpp_list_push_fs].
  apply wp_bind. eapply wp_mono; [exact H|]. by intros [o vm] [-> ->].
Qed.

(** An insertion relies on it: the last element is lost. *)
Example insert_refused_loses_last :
  let l := mk_fsl ([1; 2; 3; 4; 5; 6; 7; 8] ++ replicate 504 0) 8 8 4096 false in
  (let! r := lpp_list_insert_w (fun _ => false) (Some l) 0 99 in Ok (felems r.1.1)) = Ok [99; 1; 2; 3; 4; 5; 6; 7].
Proof. vm_compute. reflexivity. Qed.

