(* ===== verification/FreeLoad.v ===== *)
(** * Loading shared objects on freestanding Linux (runtime/linux_x86_64_min.c)

    The runtime brings its own [dlopen] and [dlsym]: they read an ELF file into one anonymous mapping, find
    its symbol table by walking the section headers, and search the table for a name.  What the kernel
    answers to the calls of [dlopen] is an argument; the calls that give or take resources are recorded in
    order.  Addresses are 64-bit numbers; a load outside the mapping of the file is [Undef]. *)

From S2P Require Import Prelude CInt FreeMap Buf.

(** ** Data *)

(** The mapping of the file: its address and its bytes. *)
Record mapping := mk_map { map_base : Z; bytes : list Z }.

Definition load (m : mapping) (a : Z) (n : nat) : outcome Z :=
  let i := a - map_base m in
  if (0 <=? i) && (i + Z.of_nat n <=? Z.of_nat (length (bytes m)))
  then Ok (le_value (take n (drop (Z.to_nat i) (bytes m)))) else Undef.

Record LppSoHandle := mk_so {
  map_addr : Z;
  map_size : Z;
  dynstr : Z;
  dynsym : Z;
  num_syms : Z;
  sym_ent_size : Z
}.

(** Fields of the ELF structures that are read, by the address of the structure. *)
Definition e_ident (m : mapping) (eh i : Z) : outcome Z := load m (u64 (eh + i)) 1.
Definition e_shoff (m : mapping) (eh : Z) : outcome Z := load m (u64 (eh + 40)) 8.
Definition e_shnum (m : mapping) (eh : Z) : outcome Z := load m (u64 (eh + 60)) 2.
Definition sizeof_Ehdr : Z := 64.
Definition sh_type (m : mapping) (s : Z) : outcome Z := load m (u64 (s + 4)) 4.
Definition sh_offset (m : mapping) (s : Z) : outcome Z := load m (u64 (s + 24)) 8.
Definition sh_size (m : mapping) (s : Z) : outcome Z := load m (u64 (s + 32)) 8.
Definition sh_link (m : mapping) (s : Z) : outcome Z := load m (u64 (s + 40)) 4.
Definition sh_entsize (m : mapping) (s : Z) : outcome Z := load m (u64 (s + 56)) 8.
Definition sizeof_Shdr : Z := 64.
Definition st_name (m : mapping) (y : Z) : outcome Z := load m y 4.
Definition st_value (m : mapping) (y : Z) : outcome Z := load m (u64 (y + 8)) 8.
Definition sizeof_Sym : Z := 24.

Inductive sys_ev := Opened (fd : Z) | Closed (fd : Z) | Mapped (a n : Z) | Unmapped (a n : Z).

(** What the kernel answers: to [open] and [openat], to the seek to the end, to the two [mmap]s
    ([lpp_sys_mmap] turns an error into 0), to [read] (an error number or the bytes). *)
Record answers := mk_answers {
  open_ret : Z;
  openat_ret : Z;
  end_ret : Z;
  file_map : Z;
  read_ret : Z + list Z;
  handle_map : Z
}.

(** ** dlopen *)

Section walk.
Context (m : mapping) (file_size : Z) (sections shnum : Z).

(** [&sections[i]]. *)
Definition section_at (i : Z) : Z := u64 (sections + sizeof_Shdr * i).

Definition in_file (s : Z) : outcome bool :=
  let! o := sh_offset m s in
  let! z := sh_size m s in
  Ok (u64 (o + z) <=? file_size).

(** The local variables of the loop. *)
Record tables := mk_tables { t_dynstr : Z; t_dynsym : Z; t_num : Z; t_ent : Z }.

Definition linked_strings (s : Z) (old : Z) : outcome Z :=
  let! str_link := sh_link m s in
  if str_link <? shnum then
    let! inside := in_file (section_at str_link) in
    if (inside : bool) then let! o := sh_offset m (section_at str_link) in Ok (u64 (map_base m + o)) else Ok old
  else Ok old.

Fixpoint section_loop (k : nat) (i : Z) (t : tables) : outcome tables :=
  match k with
  | O => Ok t
  | S k =>
      let s := section_at i in
      let! ty := sh_type m s in
      if (ty =? 11) || (ty =? 2) then
        let! inside := in_file s in
        if negb inside then section_loop k (i + 1) t
        else
          let! o := sh_offset m s in
          let! strs := linked_strings s (t_dynstr t) in
          let! e := sh_entsize m s in
          let e := if e =? 0 then sizeof_Sym else e in
          let! z := sh_size m s in
          let t := mk_tables strs (u64 (map_base m + o)) (z / e) e in
          if ty =? 11 then Ok t else section_loop k (i + 1) t
      else section_loop k (i + 1) t
  end.
End walk.

(** From the check of the magic bytes to the end of the loop; [None]: the mapping is given back and
    NULL is returned. *)
Definition find_tables (m : mapping) (file_size : Z) : outcome (option tables) :=
  let eh := map_base m in
  let! c0 := e_ident m eh 0 in
  let! c1 := e_ident m eh 1 in
  let! c2 := e_ident m eh 2 in
  let! c3 := e_ident m eh 3 in
  if negb (c0 =? 127) || negb (c1 =? 69) || negb (c2 =? 76) || negb (c3 =? 70) then Ok None
  else
    let! shoff := e_shoff m eh in
    let! shnum := e_shnum m eh in
    if (shoff =? 0) || (shnum =? 0) || (u64 (shoff + shnum * sizeof_Shdr) >? file_size) then Ok None
    else
      let! t := section_loop m file_size (u64 (map_base m + shoff)) shnum (Z.to_nat shnum) 0 (mk_tables 0 0 0 sizeof_Sym) in
      if (t_dynstr t =? 0) || (t_dynsym t =? 0) then Ok None else Ok (Some t).

(** The mapping once the file is read into it: [mmap] gives zeros. *)
Definition mapped_file (k : answers) (got : list Z) : mapping :=
  mk_map (file_map k) (got ++ replicate (Z.to_nat (lpp_page_round (u64 (end_ret k))) - length got) 0).

(** The handle, its address and the mapping it refers to; NULL is [None]. *)
Definition dlopen (k : answers) (path : option cstr) : outcome (option (Z * LppSoHandle * mapping) * list sys_ev) :=
  match path with
  | None => Ok (None, [])
  | Some _ =>
      let fd := if open_ret k <? 0 then openat_ret k else open_ret k in
      if fd <? 0 then Ok (None, [])
      else
        let file_size := end_ret k in
        if file_size <=? 0 then Ok (None, [Opened fd; Closed fd])
        else
          let msize := lpp_page_round (u64 file_size) in
          let map := file_map k in
          if map =? 0 then Ok (None, [Opened fd; Closed fd])
          else
            let tr := [Opened fd; Mapped map msize; Closed fd] in
            match read_ret k with
            | inl _ => Ok (None, tr ++ [Unmapped map msize])
            | inr got =>
                if Z.of_nat (length got) <? sizeof_Ehdr then Ok (None, tr ++ [Unmapped map msize])
                else
                  let m := mapped_file k got in
                  let! o := find_tables m file_size in
                  match o with
                  | None => Ok (None, tr ++ [Unmapped map msize])
                  | Some t =>
                      let handle := handle_map k in
                      if handle =? 0 then Ok (None, tr ++ [Unmapped map msize])
                      else
                        Ok (Some (handle, mk_so map msize (t_dynstr t) (t_dynsym t) (t_num t) (t_ent t), m),
                            tr ++ [Mapped handle (lpp_page_round 48)])
                  end
            end
  end.

(** ** dlsym, dlclose *)

(** [lpp_str_eq] of the string at [a] with a string elsewhere: it stops at the first difference. *)
Fixpoint str_eq_loop (m : mapping) (a : Z) (s : cstr) : outcome bool :=
  match s with
  | [] => let! c := load m a 1 in Ok (c =? 0)
  | x :: s => let! c := load m a 1 in if c =? x then str_eq_loop m (u64 (a + 1)) s else Ok false
  end.
Definition str_eq_at (m : mapping) (a : Z) (s : cstr) : outcome bool := if a =? 0 then Ok false else str_eq_loop m a s.

Fixpoint symbol_loop (m : mapping) (h : LppSoHandle) (name : cstr) (k : nat) (i : Z) : outcome Z :=
  match k with
  | O => Ok 0
  | S k =>
      let sym := u64 (dynsym h + i * sym_ent_size h) in
      let! n := st_name m sym in
      let! here := (if n =? 0 then Ok false else str_eq_at m (u64 (dynstr h + n)) name) in
      if (here : bool) then let! v := st_value m sym in Ok (u64 (map_addr h + v))
      else symbol_loop m h name k (i + 1)
  end.

Definition dlsym (m : mapping) (raw_handle : option LppSoHandle) (name : option cstr) : outcome Z :=
  match raw_handle, name with
  | Some h, Some name => symbol_loop m h name (Z.to_nat (num_syms h)) 0
  | _, _ => Ok 0
  end.

Definition dlclose (raw_handle : option (Z * LppSoHandle)) : Z * list sys_ev :=
  match raw_handle with
  | None => (0, [])
  | Some (handle, h) =>
      (0, (if map_addr h =? 0 then [] else [Unmapped (map_addr h) (map_size h)]) ++ [Unmapped handle (lpp_page_round 48)])
  end.

(** ** What an ELF file says

    Read off the bytes of the mapping, without addresses. *)

Definition field (img : list Z) (off : Z) (n : nat) : Z := le_value (take n (drop (Z.to_nat off) img)).

Record section := mk_section { s_type : Z; s_offset : Z; s_size : Z; s_link : Z; s_ent : Z }.
Definition section_of (img : list Z) (off : Z) : section :=
  mk_section (field img (off + 4) 4) (field img (off + 24) 8) (field img (off + 32) 8) (field img (off + 40) 4)
    (if field img (off + 56) 8 =? 0 then 24 else field img (off + 56) 8).
Definition elf_sections (img : list Z) : list section :=
  (fun i => section_of img (field img 40 8 + 64 * i)) <$> seqZ 0 (field img 60 2).

(** Sections of dynamic symbols are preferred (the first), then those of symbols (the last). *)
Definition is_dynsym (s : section) : bool := s_type s =? 11.
Definition is_symtab (s : section) : bool := s_type s =? 2.
Definition chosen (ss : list section) : option section :=
  match filter (fun s => is_dynsym s = true) ss with
  | s :: _ => Some s
  | [] => last (filter (fun s => is_symtab s = true) ss)
  end.

Definition strings_of (ss : list section) (s : section) : Z :=
  match ss !! Z.to_nat (s_link s) with Some t => s_offset t | None => 0 end.
(** The entries of a table: where the name is, and the value. *)
Definition symbols_of (img : list Z) (strs : Z) (s : section) : list (Z * Z) :=
  filter (fun y => y.1 <> strs)
    ((fun i => (strs + field img (s_offset s + i * s_ent s) 4, field img (s_offset s + i * s_ent s + 8) 8)) <$> seqZ 0 (s_size s / s_ent s)).

(** The value of the first symbol with the name. *)
Definition value_of (img : list Z) (name : cstr) : option Z :=
  match chosen (elf_sections img) with
  | None => None
  | Some s =>
      snd <$> (snd <$> list_find (fun y => until_nul (drop (Z.to_nat y.1) img) = name)
                 (symbols_of img (strings_of (elf_sections img) s) s))
  end.

(** The sum that checks the section table against the file does not exceed 64 bits. *)
Definition sum_fits (img : list Z) : bool := field img 40 8 + 64 * field img 60 2 <? 2 ^ 64.

Definition inside (size : Z) (s : section) : bool := s_offset s + s_size s <=? size.
Definition linked (img : list Z) (size : Z) (s : section) : bool :=
  inside size s && match elf_sections img !! Z.to_nat (s_link s) with Some t => inside size t | None => false end.
(** A file the loader can use: the section table and the tables of symbols are inside it, and every name
    of the table it chooses ends. *)
Definition loadable (img : list Z) (size : Z) : bool :=
  bool_decide (take 4 img = [127; 69; 76; 70]) && negb (field img 40 8 =? 0) &&
  (field img 40 8 + 64 * field img 60 2 <=? size) &&
  forallb (fun s => negb (is_dynsym s || is_symtab s) || linked img size s) (elf_sections img) &&
  match chosen (elf_sections img) with
  | None => false
  | Some s =>
      (24 <=? s_ent s) &&
      forallb (fun y => bool_decide (0 ∈ drop (Z.to_nat y.1) img)) (symbols_of img (strings_of (elf_sections img) s) s)
  end.

Fixpoint give_back (x : Z + Z * Z) (l : list (Z + Z * Z)) : option (list (Z + Z * Z)) :=
  match l with
  | [] => None
  | y :: l => if decide (x = y) then Some l else (y ::.) <$> give_back x l
  end.
(** What is held after a sequence of calls; [None]: something was given back that was not held. *)
Fixpoint held (tr : list sys_ev) (r : list (Z + Z * Z)) : option (list (Z + Z * Z)) :=
  match tr with
  | [] => Some r
  | Opened fd :: tr => held tr (inl fd :: r)
  | Mapped a n :: tr => held tr (inr (a, n) :: r)
  | Closed fd :: tr => give_back (inl fd) r ≫= held tr
  | Unmapped a n :: tr => give_back (inr (a, n)) r ≫= held tr
  end.

(** What the kernel promises: a mapping is in the user's half of the address space, [read] gives no more
    than was asked for, the seek a size. *)
Record answers_ok (k : answers) : Prop := {
  ok_end : is_i64 (end_ret k) = true;
  ok_map : file_map k <> 0 -> 0 < file_map k /\ file_map k + lpp_page_round (u64 (end_ret k)) <= 2 ^ 47;
  ok_handle : handle_map k <> 0 -> 0 < handle_map k;
  ok_read : match read_ret k with inl _ => True | inr got => Z.of_nat (length got) <= Z.max 0 (end_ret k) /\ bytes_ok got end
}.

(** ** Loads *)

Record image_ok (m : mapping) (size : Z) : Prop := {
  im_base : 0 < map_base m;
  im_top : map_base m + Z.of_nat (length (bytes m)) <= 2 ^ 47;
  im_size : 64 <= size <= Z.of_nat (length (bytes m));
  im_bytes : bytes_ok (bytes m)
}.

Lemma field_range img off n : bytes_ok img -> 0 <= field img off n < 2 ^ (8 * Z.of_nat n).
Proof.
  intros H. unfold field. assert (bytes_ok (take n (drop (Z.to_nat off) img))) as Hb by (by apply Forall_take, Forall_drop).
  apply le_value_bound in Hb. rewrite length_take in Hb.
  assert (2 ^ (8 * Z.of_nat (n `min` length (drop (Z.to_nat off) img))) <= 2 ^ (8 * Z.of_nat n)) by (apply Z.pow_le_mono_r; lia). lia.
Qed.

Section image.
Context (m : mapping) (size : Z) (Hm : image_ok m size).
Abbreviation img := (bytes m).

Lemma load_field off n : 0 <= off -> off + Z.of_nat n <= Z.of_nat (length img) ->
  load m (map_base m + off) n = Ok (field img off n).
Proof.
  intros. unfold load. rewrite !(proj2 (Z.leb_le _ _)) by lia. simpl.
  by replace (map_base m + off - map_base m) with off by lia.
Qed.

Lemma at_id off : 0 <= off <= Z.of_nat (length img) -> u64 (map_base m + off) = map_base m + off.
Proof. intros. destruct Hm. apply u64_id. lia. Qed.

Lemma ident_at i : 0 <= i < 4 -> e_ident m (map_base m) i = Ok (field img i 1).
Proof. intros. pose proof (im_size _ _ Hm). unfold e_ident. rewrite at_id by lia. apply load_field; lia. Qed.
Lemma shoff_at : e_shoff m (map_base m) = Ok (field img 40 8).
Proof. pose proof (im_size _ _ Hm). unfold e_shoff. rewrite at_id by lia. apply load_field; lia. Qed.
Lemma shnum_at : e_shnum m (map_base m) = Ok (field img 60 2).
Proof. pose proof (im_size _ _ Hm). unfold e_shnum. rewrite at_id by lia. apply load_field; lia. Qed.

Lemma header_at o : 0 <= o -> o + 64 <= Z.of_nat (length img) ->
  let s := section_of img o in
  sh_type m (map_base m + o) = Ok (s_type s) /\ sh_offset m (map_base m + o) = Ok (s_offset s) /\
  sh_size m (map_base m + o) = Ok (s_size s) /\ sh_link m (map_base m + o) = Ok (s_link s) /\
  (let! e := sh_entsize m (map_base m + o) in Ok (if e =? 0 then sizeof_Sym else e)) = Ok (s_ent s).
Proof.
  intros H0 H. cbv zeta. unfold sh_type, sh_offset, sh_size, sh_link, sh_entsize.
  rewrite <- !Z.add_assoc, !at_id, !load_field by lia. done.
Qed.

(** The section table is inside the mapping. *)
Abbreviation shoff := (field img 40 8).
Abbreviation shnum := (field img 60 2).
Abbreviation sec i := (section_of img (shoff + 64 * i)).
Context (Htab : shoff + 64 * shnum <= size).

Lemma shoff_nonneg : 0 <= shoff /\ 0 <= shnum < 65536.
Proof. destruct Hm. pose proof (field_range img 40 8 im_bytes0). pose proof (field_range img 60 2 im_bytes0). lia. Qed.

Lemma sections_length : Z.of_nat (length (elf_sections img)) = shnum.
Proof. unfold elf_sections. rewrite length_fmap, length_seqZ. pose proof shoff_nonneg. lia. Qed.
Lemma sections_lookup i : 0 <= i < shnum -> elf_sections img !! Z.to_nat i = Some (sec i).
Proof.
  intros. unfold elf_sections. rewrite list_lookup_fmap, lookup_seqZ_lt by lia. simpl. by rewrite Z2Nat.id by lia.
Qed.

Lemma section_addr i : 0 <= i < shnum -> section_at (u64 (map_base m + shoff)) i = map_base m + (shoff + 64 * i).
Proof.
  intros. pose proof shoff_nonneg. pose proof (im_size _ _ Hm). unfold section_at, sizeof_Shdr.
  rewrite (at_id shoff) by lia. rewrite <- Z.add_assoc. apply at_id. lia.
Qed.

(** The strings a section refers to, or those of before. *)
Definition strings_at (s : section) (old : Z) : Z :=
  if s_link s <? shnum then
    if u64 (s_offset (sec (s_link s)) + s_size (sec (s_link s))) <=? size then u64 (map_base m + s_offset (sec (s_link s))) else old
  else old.
Definition tables_at (s : section) (old : Z) : tables :=
  mk_tables (strings_at s old) (u64 (map_base m + s_offset s)) (s_size s / s_ent s) (s_ent s).

Lemma in_file_at i : 0 <= i < shnum ->
  in_file m size (map_base m + (shoff + 64 * i)) = Ok (u64 (s_offset (sec i) + s_size (sec i)) <=? size).
Proof.
  intros. pose proof shoff_nonneg. pose proof (im_size _ _ Hm). unfold in_file.
  destruct (header_at (shoff + 64 * i)) as (_ & -> & -> & _); [lia..|]. done.
Qed.

Lemma strings_ok i old : 0 <= i < shnum ->
  linked_strings m size (u64 (map_base m + shoff)) shnum (map_base m + (shoff + 64 * i)) old = Ok (strings_at (sec i) old).
Proof.
  intros. pose proof shoff_nonneg. pose proof (im_size _ _ Hm). unfold linked_strings, strings_at.
  destruct (header_at (shoff + 64 * i)) as (_ & _ & _ & -> & _); [lia..|]. cbn [obind].
  assert (0 <= s_link (sec i)) by (apply field_range, Hm).
  destruct (Z.ltb_spec (s_link (sec i)) shnum); [|done].
  rewrite section_addr, in_file_at by lia. cbn [obind]. case_match; [|done].
  destruct (header_at (shoff + 64 * s_link (sec i))) as (_ & -> & _); [lia..|]. done.
Qed.

Lemma loop_step k i t : 0 <= i < shnum ->
  let loop := section_loop m size (u64 (map_base m + shoff)) shnum in
  loop (S k) i t =
  if is_dynsym (sec i) || is_symtab (sec i) then
    if u64 (s_offset (sec i) + s_size (sec i)) <=? size then
      if is_dynsym (sec i) then Ok (tables_at (sec i) (t_dynstr t)) else loop k (i + 1) (tables_at (sec i) (t_dynstr t))
    else loop k (i + 1) t
  else loop k (i + 1) t.
Proof.
  cbv zeta. intros. pose proof shoff_nonneg. pose proof (im_size _ _ Hm). cbn [section_loop]. rewrite section_addr by lia.
  destruct (header_at (shoff + 64 * i)) as (-> & Ho & Hz & _ & He); [lia..|]. cbn [obind].
  unfold is_dynsym, is_symtab. destruct (_ || _); [|done].
  rewrite in_file_at by lia. cbn [obind]. destruct (_ <=? size); [|done]. cbn [negb].
  rewrite Ho. cbn [obind]. rewrite strings_ok by lia. cbn [obind].
  destruct (sh_entsize _ _) as [e| | |]; simplify_eq/=. rewrite Hz. cbn [obind]. by rewrite He.
Qed.

Lemma loop_total : forall k i t, 0 <= i -> i + Z.of_nat k = shnum ->
  exists t', section_loop m size (u64 (map_base m + shoff)) shnum k i t = Ok t'.
Proof.
  induction k as [|k IH]; intros i t Hi Hk; [by eexists|]. rewrite loop_step by lia.
  repeat case_match; try (eexists; reflexivity); apply IH; lia.
Qed.

Lemma chosen_cons s ss : chosen (s :: ss) =
  if is_dynsym s then Some s
  else match chosen ss with Some x => Some x | None => if is_symtab s then Some s else None end.
Proof.
  unfold chosen. rewrite !filter_cons. destruct (is_dynsym s) eqn:Hd; [by rewrite decide_True|].
  rewrite decide_False by done. destruct (filter _ ss); [|done].
  destruct (is_symtab s) eqn:Hs; [rewrite decide_True by done|rewrite decide_False by done; by case_match].
  rewrite last_cons. done.
Qed.

Lemma loop_chooses : forall k i t, 0 <= i -> i + Z.of_nat k = shnum ->
  Forall (fun s => is_dynsym s || is_symtab s = true -> linked img size s = true) (elf_sections img) ->
  section_loop m size (u64 (map_base m + shoff)) shnum k i t =
  Ok (match chosen (drop (Z.to_nat i) (elf_sections img)) with
      | Some s => mk_tables (map_base m + strings_of (elf_sections img) s) (map_base m + s_offset s) (s_size s / s_ent s) (s_ent s)
      | None => t end).
Proof.
  intros k i t Hi Hk Hall. revert i t Hi Hk. induction k as [|k IH]; intros i t Hi Hk.
  { rewrite drop_ge; [done|]. pose proof sections_length. lia. }
  rewrite loop_step by lia. pose proof (sections_lookup i ltac:(lia)) as Hl.
  rewrite (drop_S _ _ _ Hl), chosen_cons.
  replace (S (Z.to_nat i)) with (Z.to_nat (i + 1)) by lia.
  destruct (is_dynsym (sec i) || is_symtab (sec i)) eqn:Hsym.
  2: { apply orb_false_iff in Hsym as [-> ->]. rewrite IH by lia. by case_match. }
  pose proof (Forall_lookup_1 _ _ _ _ Hall Hl Hsym) as Hlk.
  unfold linked, inside in Hlk. apply andb_true_iff in Hlk as [Hin Hlk]. apply Z.leb_le in Hin.
  case_match eqn:Ht; [|done]. apply Z.leb_le in Hlk.
  assert (Hb : forall o, 0 <= s_offset (section_of img o) /\ 0 <= s_size (section_of img o)) by (intros; split; apply field_range, Hm).
  pose proof (im_size _ _ Hm). pose proof (im_top _ _ Hm). pose proof (Hb (shoff + 64 * i)). 
  assert (0 <= s_link (sec i)) by (apply field_range, Hm).
  assert (s_link (sec i) < shnum) by (apply lookup_lt_Some in Ht; pose proof sections_length; lia).
  pose proof (sections_lookup (s_link (sec i)) ltac:(lia)) as Hl'. rewrite Ht in Hl'. simplify_eq.
  pose proof (Hb (shoff + 64 * s_link (sec i))).
  rewrite u64_id, (proj2 (Z.leb_le _ _)) by (pose proof (im_base _ _ Hm); lia).
  assert (forall old, tables_at (sec i) old = mk_tables (map_base m + strings_of (elf_sections img) (sec i)) (map_base m + s_offset (sec i))
     (s_size (sec i) / s_ent (sec i)) (s_ent (sec i))) as Htb.
  { intros old. unfold tables_at, strings_at, strings_of. rewrite Ht, (proj2 (Z.ltb_lt _ _)) by lia.
    rewrite u64_id, (proj2 (Z.leb_le _ _)) by (pose proof (im_base _ _ Hm); lia). by rewrite !at_id by lia. }
  rewrite Htb. destruct (is_dynsym (sec i)) eqn:Hd; [done|]. rewrite IH by lia.
  simpl in Hsym. rewrite Hsym. by case_match.
Qed.
End image.

(** ** The tables are found *)

Definition soft {A} (x : outcome A) : Prop := match x with Ok _ | Undef => True | _ => False end.
Lemma soft_bind {A B} (x : outcome A) (f : A -> outcome B) : soft x -> (forall a, soft (f a)) -> soft (obind x f).
Proof. destruct x; simpl; auto. Qed.
Lemma soft_load m a n : soft (load m a n).
Proof. unfold load. by case_match. Qed.

Lemma soft_loop m size secs n : forall k i t, soft (section_loop m size secs n k i t).
Proof.
  assert (forall s, soft (in_file m size s)) as Hin by (intros; repeat (apply soft_bind; [apply soft_load|]; intros); done).
  induction k as [|k IH]; intros i t; [done|]. cbn [section_loop].
  apply soft_bind; [apply soft_load|intros ty]. case_match; [|apply IH].
  apply soft_bind; [apply Hin|intros b]. case_match; [apply IH|].
  apply soft_bind; [apply soft_load|intros o]. apply soft_bind.
  { unfold linked_strings. apply soft_bind; [apply soft_load|intros l]. case_match; [|done].
    apply soft_bind; [apply Hin|intros c]. destruct c; [|done]. apply soft_bind; [apply soft_load|done]. }
  intros strs. do 2 (apply soft_bind; [apply soft_load|intros]). destruct (_ =? 11); [done|apply IH].
Qed.

Lemma find_tables_total m size : image_ok m size ->
  match find_tables m size with Ok _ => True | Undef => sum_fits (bytes m) = false | _ => False end.
Proof.
  intros Hm. pose proof (im_bytes _ _ Hm) as Hb. unfold find_tables.
  do 4 (rewrite (ident_at m size Hm) by lia; cbn [obind]). destruct (_ || negb (field _ 3 1 =? 70)); [done|].
  rewrite (shoff_at m size Hm), (shnum_at m size Hm). cbn [obind].
  pose proof (field_range (bytes m) 40 8 Hb). pose proof (field_range (bytes m) 60 2 Hb).
  destruct ((_ =? 0) || _ || _) eqn:Hc; [done|]. rewrite !orb_false_iff, Z.gtb_ltb, Z.ltb_ge in Hc. destruct Hc as [_ Hc].
  destruct (sum_fits (bytes m)) eqn:Hf.
  - unfold sum_fits in Hf. apply Z.ltb_lt in Hf. unfold sizeof_Shdr in Hc. rewrite u64_id in Hc by (pow2; lia).
    destruct (loop_total m size Hm ltac:(lia) (Z.to_nat (field (bytes m) 60 2)) 0 (mk_tables 0 0 0 sizeof_Sym)) as [t ->]; [lia..|].
    cbn [obind]. by destruct (_ || _).
  - pose proof (soft_loop m size (u64 (map_base m + field (bytes m) 40 8)) (field (bytes m) 60 2) (Z.to_nat (field (bytes m) 60 2)) 0
      (mk_tables 0 0 0 sizeof_Sym)) as Hs.
    destruct (section_loop _ _ _ _ _ _ _); cbn [obind]; try done. by destruct (_ || _).
Qed.

Definition handle_of (m : mapping) (s : section) : tables :=
  mk_tables (map_base m + strings_of (elf_sections (bytes m)) s) (map_base m + s_offset s) (s_size s / s_ent s) (s_ent s).

Lemma magic_bytes (img : list Z) : take 4 img = [127; 69; 76; 70] ->
  field img 0 1 = 127 /\ field img 1 1 = 69 /\ field img 2 1 = 76 /\ field img 3 1 = 70.
Proof. do 4 (destruct img as [|? img]; [done|]). intros [= -> -> -> ->]. done. Qed.

Lemma chosen_in ss s : chosen ss = Some s -> s ∈ ss /\ is_dynsym s || is_symtab s = true.
Proof.
  induction ss as [|x ss IH]; [done|]. rewrite chosen_cons. intros H.
  destruct (is_dynsym x) eqn:Hd; [simplify_eq; split; [by left|by rewrite Hd]|].
  destruct (chosen ss); [simplify_eq; destruct IH; [done|]; split; [by right|done]|].
  destruct (is_symtab x) eqn:Hs; simplify_eq. split; [by left|by rewrite Hs, orb_true_r].
Qed.

Lemma offset_in_elf img s : bytes_ok img -> s ∈ elf_sections img -> 0 <= s_offset s /\ 0 <= s_size s.
Proof. intros Hb (i & -> & _)%list_elem_of_fmap. split; apply field_range, Hb. Qed.

(** Where the strings of a well-linked section are. *)
Lemma strings_inside img size s : bytes_ok img -> linked img size s = true -> 0 <= strings_of (elf_sections img) s.
Proof.
  intros Hb. unfold linked, strings_of. case_match eqn:Ht; [|by rewrite andb_false_r]. intros _.
  apply (offset_in_elf img); [done|]. by eapply list_elem_of_lookup_2.
Qed.

Lemma loadable_tables m size : image_ok m size -> loadable (bytes m) size = true ->
  exists s, chosen (elf_sections (bytes m)) = Some s /\ find_tables m size = Ok (Some (handle_of m s)) /\
    24 <= s_ent s /\ linked (bytes m) size s = true /\ 0 <= s_offset s /\ 0 <= s_size s /\
    Forall (fun y => 0 ∈ drop (Z.to_nat y.1) (bytes m)) (symbols_of (bytes m) (strings_of (elf_sections (bytes m)) s) s).
Proof.
  intros Hm Hl. pose proof (im_bytes _ _ Hm) as Hb. unfold loadable in Hl. rewrite !andb_true_iff in Hl.
  destruct Hl as [[[[Hmagic Hoff] Htab] Hlinks] Hch]. apply bool_decide_eq_true in Hmagic.
  destruct (chosen (elf_sections (bytes m))) as [s|] eqn:Hs; [|done]. apply andb_true_iff in Hch as [Hent Hnames].
  apply Z.leb_le in Htab, Hent. apply negb_true_iff, Z.eqb_neq in Hoff.
  destruct (chosen_in _ _ Hs) as [Hin Hsym]. destruct (offset_in_elf _ _ Hb Hin) as [Ho Hz].
  rewrite forallb_forall in Hlinks, Hnames.
  assert (forall x, x ∈ elf_sections (bytes m) -> is_dynsym x || is_symtab x = true -> linked (bytes m) size x = true) as Hall.
  { intros x Hx Hxs. specialize (Hlinks x (proj1 (list_elem_of_In _ _) Hx)). by rewrite Hxs in Hlinks. }
  exists s. split; [done|]. split; [|split; [done|split; [by apply Hall|split; [done|split; [done|]]]]].
  2: { apply Forall_forall. intros y Hy. by eapply bool_decide_eq_true_1, Hnames, list_elem_of_In. }
  unfold find_tables. do 4 (rewrite (ident_at m size Hm) by lia; cbn [obind]). destruct (magic_bytes _ Hmagic) as (-> & -> & -> & ->). cbn [obind].
  replace (negb (127 =? 127) || _ || _ || _) with false by done.
  rewrite (shoff_at m size Hm), (shnum_at m size Hm). cbn [obind].
  pose proof (shoff_nonneg m size Hm). pose proof (im_size _ _ Hm). pose proof (im_top _ _ Hm). pose proof (im_base _ _ Hm).
  assert (field (bytes m) 60 2 <> 0) as Hnum.
  { intros Hz0. unfold elf_sections in Hin. rewrite Hz0 in Hin. by apply elem_of_nil in Hin. }
  rewrite !(proj2 (Z.eqb_neq _ _)) by done. unfold sizeof_Shdr. rewrite Z.gtb_ltb, (proj2 (Z.ltb_ge _ _)) by (rewrite u64_id; pow2; lia).
  cbn [orb]. rewrite (loop_chooses m size Hm Htab) by (lia || by apply Forall_forall). cbn [obind].
  rewrite drop_0, Hs. cbn [t_dynstr t_dynsym]. pose proof (strings_inside _ _ _ Hb (Hall s Hin Hsym)).
  rewrite !(proj2 (Z.eqb_neq _ _)) by lia. done.
Qed.

(** ** The table is searched *)

Lemma string_compare m size name : image_ok m size -> cstr_ok name -> forall off, 0 <= off -> 0 ∈ drop (Z.to_nat off) (bytes m) ->
  str_eq_loop m (map_base m + off) name = Ok (bool_decide (until_nul (drop (Z.to_nat off) (bytes m)) = name)).
Proof.
  intros Hm Hn. induction Hn as [|x name Hx Hn IH]; intros off Hoff Hz.
  all: destruct (drop (Z.to_nat off) (bytes m)) as [|c r] eqn:Hd; [by apply elem_of_nil in Hz|].
  all: assert (Z.to_nat off < length (bytes m))%nat as Hlt by (apply (f_equal length) in Hd; rewrite length_drop in Hd; simpl in Hd; lia).
  all: assert (load m (map_base m + off) 1 = Ok c) as Hload
    by (rewrite (load_field m) by lia; unfold field; rewrite Hd; cbn; by rewrite Z.lor_0_r).
  all: cbn [str_eq_loop]; rewrite Hload; cbn [obind until_nul].
  - f_equal. destruct (Z.eqb_spec c 0); [by rewrite bool_decide_true|by rewrite bool_decide_false].
  - destruct (Z.eqb_spec c x) as [->|Hne].
    + rewrite (proj2 (Z.eqb_neq x 0)) by lia. rewrite <- Z.add_assoc, (at_id m size Hm) by lia.
      assert (drop (Z.to_nat (off + 1)) (bytes m) = r) as Hr.
      { replace (Z.to_nat (off + 1)) with (Z.to_nat off + 1)%nat by lia. by rewrite <- drop_drop, Hd. }
      rewrite IH; [|lia|rewrite Hr; apply elem_of_cons in Hz as [?|?]; [lia|done]].
      rewrite Hr. f_equal. apply bool_decide_ext. naive_solver.
    + f_equal. symmetry. apply bool_decide_eq_false. case_match; naive_solver.
Qed.

Lemma symbol_search m size h s strs name : image_ok m size -> cstr_ok name -> 0 <= strs -> 24 <= s_ent s -> 0 <= s_offset s ->
  s_offset s + s_size s <= size ->
  h = mk_so (map_base m) (map_size h) (map_base m + strs) (map_base m + s_offset s) (s_size s / s_ent s) (s_ent s) ->
  let entry := fun i => (strs + field (bytes m) (s_offset s + i * s_ent s) 4, field (bytes m) (s_offset s + i * s_ent s + 8) 8) in
  forall k i, 0 <= i -> i + Z.of_nat k = s_size s / s_ent s ->
  let ys := filter (fun y => y.1 <> strs) (entry <$> seqZ i (Z.of_nat k)) in
  Forall (fun y => 0 ∈ drop (Z.to_nat y.1) (bytes m)) ys ->
  symbol_loop m h name k i =
  Ok (match list_find (fun y => until_nul (drop (Z.to_nat y.1) (bytes m)) = name) ys with
      | Some (_, y) => u64 (map_base m + y.2) | None => 0 end).
Proof.
  intros Hm Hn Hs He Ho Hin Hh entry. pose proof (im_size _ _ Hm). pose proof (im_bytes _ _ Hm) as Hb.
  assert (forall i, i < s_size s / s_ent s -> i * s_ent s + 24 <= s_size s) as Hfit.
  { intros i Hi. pose proof (Z.mul_div_le (s_size s) (s_ent s) ltac:(lia)). nia. }
  induction k as [|k IH]; intros i Hi Hk; [done|]. cbv zeta.
  rewrite seqZ_cons by lia. replace (Z.pred (Z.of_nat (S k))) with (Z.of_nat k) by lia. rewrite <- Z.add_1_r.
  rewrite fmap_cons, filter_cons. cbn [symbol_loop]. specialize (IH (i + 1) ltac:(lia) ltac:(lia)). cbv zeta in IH.
  pose proof (Hfit i ltac:(lia)). assert (0 <= i * s_ent s) by nia.
  replace (dynsym h) with (map_base m + s_offset s) by (by rewrite Hh). replace (sym_ent_size h) with (s_ent s) by (by rewrite Hh).
  unfold st_name, st_value. rewrite <- Z.add_assoc, (at_id m size Hm), (load_field m) by lia. cbn [obind].
  pose proof (field_range (bytes m) (s_offset s + i * s_ent s) 4 Hb) as Hf. set (n := field _ _ 4) in *.
  destruct (Z.eqb_spec n 0) as [Hn0|Hn0].
  - cbn [obind]. rewrite decide_False by (simpl; fold n; lia). done.
  - rewrite decide_True by (simpl; fold n; lia). rewrite Forall_cons. cbn [fst entry]. fold n. intros [Hnul Hrest].
    assert (strs + n < Z.of_nat (length (bytes m))) as Hlt.
    { destruct (drop (Z.to_nat (strs + n)) (bytes m)) eqn:Hd; [by apply elem_of_nil in Hnul|].
      apply (f_equal length) in Hd. rewrite length_drop in Hd. simpl in Hd. lia. }
    replace (dynstr h) with (map_base m + strs) by (by rewrite Hh). rewrite <- Z.add_assoc, (at_id m size Hm) by lia.
    unfold str_eq_at. rewrite (proj2 (Z.eqb_neq _ _)) by (pose proof (im_base _ _ Hm); lia).
    rewrite (string_compare m size name Hm Hn) by (done || lia). cbn [obind list_find fst].
    case_decide as Hc; [rewrite bool_decide_true by done|rewrite bool_decide_false by done].
    + rewrite <- Z.add_assoc, (at_id m size Hm), (load_field m) by lia. cbn [obind snd]. by rewrite Hh.
    + rewrite IH by done. by destruct (list_find _ _) as [[]|].
Qed.

(** ** Theorems *)

Lemma file_image k got : answers_ok k -> read_ret k = inr got -> file_map k <> 0 -> 0 < end_ret k ->
  sizeof_Ehdr <= Z.of_nat (length got) -> image_ok (mapped_file k got) (end_ret k).
Proof.
  intros [He Hf _ Hr] Hg Hm Hs Hlen. rewrite Hg in Hr. destruct Hr as [Hle Hb]. destruct (Hf Hm) as [Hlo Htop].
  unfold is_i64, INT64_MAX, sizeof_Ehdr in *. apply andb_true_iff in He as [_ He]. apply Z.leb_le in He.
  rewrite u64_id in Htop by (pow2; lia). pose proof (page_round_value (end_ret k) ltac:(pow2; lia)).
  unfold mapped_file. rewrite u64_id by (pow2; lia).
  split; cbn [map_base bytes]; try rewrite length_app, length_replicate; try lia.
  apply Forall_app. split; [done|]. apply Forall_replicate. lia.
Qed.

Lemma give_back_here x l : give_back x (x :: l) = Some l.
Proof. cbn. by rewrite decide_True. Qed.
Lemma give_back_next x y l : x <> y -> give_back x (y :: l) = (y ::.) <$> give_back x l.
Proof. intros. cbn. by rewrite decide_False. Qed.

(** C30. Whatever the kernel answers and whatever is in the file, [dlopen] closes the descriptor and gives
    back the mapping on every path on which it returns NULL; with the handle it keeps the mapping of the file
    and that of the handle, and [dlclose] gives back both.  It reads outside the file's mapping only for
    a section table whose offset and size add up to more than 64 bits. *)
Theorem loader_balanced k path : answers_ok k ->
  match dlopen k path with
  | Ok (None, tr) => held tr [] = Some []
  | Ok (Some (handle, h, m), tr) =>
      held tr [] = Some [inr (handle, 4096); inr (map_base m, map_size h)] /\
      held (tr ++ (dlclose (Some (handle, h))).2) [] = Some []
  | Undef => exists got, read_ret k = inr got /\ sum_fits (bytes (mapped_file k got)) = false
  | _ => False
  end.
Proof.
  intros Hk. unfold dlopen. destruct path as [path|]; [|done]. set (fd := if open_ret k <? 0 then openat_ret k else open_ret k).
  destruct (fd <? 0); [done|]. destruct (Z.leb_spec (end_ret k) 0); [cbn -[give_back]; by rewrite give_back_here|].
  destruct (Z.eqb_spec (file_map k) 0) as [|Hmap]; [cbn -[give_back]; by rewrite give_back_here|]. set (msize := lpp_page_round _).
  assert (held ([Opened fd; Mapped (file_map k) msize; Closed fd] ++ [Unmapped (file_map k) msize]) [] = Some []) as Hnone.
  { cbn -[give_back]. rewrite give_back_next, give_back_here by done. cbn -[give_back]. by rewrite give_back_here. }
  destruct (read_ret k) as [e|got] eqn:Hr; [done|]. destruct (Z.ltb_spec (Z.of_nat (length got)) sizeof_Ehdr); [done|].
  pose proof (find_tables_total _ _ (file_image k got Hk Hr ltac:(done) ltac:(lia) ltac:(lia))) as Hf.
  destruct (find_tables _ _) as [o| | |]; try done; cbn [obind]; [|by exists got].
  destruct o as [t|]; [|done]. destruct (Z.eqb_spec (handle_map k) 0); [done|].
  change (lpp_page_round 48) with 4096. cbn [map_base map_size mapped_file dlclose snd map_addr].
  change (lpp_page_round 48) with 4096. rewrite (proj2 (Z.eqb_neq (file_map k) 0)) by done.
  split; cbn -[give_back]; rewrite give_back_next, give_back_here by done; cbn -[give_back]; [done|].
  destruct (decide (@inr Z (Z * Z) (file_map k, msize) = inr (handle_map k, 4096))) as [Heq|Hne].
  - rewrite <- Heq, give_back_here. cbn -[give_back]. by rewrite Heq, give_back_here.
  - rewrite give_back_next, give_back_here by done. cbn -[give_back]. by rewrite give_back_here.
Qed.

(** C31. For a file whose section table, symbol tables and strings lie inside it, [dlopen] returns a handle,
    and [dlsym] gives for every name the address of the first symbol of that name in the dynamic symbol
    table (or, without one, in the last symbol table), NULL if there is none; no load leaves the mapping. *)
Theorem loader_finds_symbols k path got : answers_ok k -> read_ret k = inr got -> 0 <= open_ret k \/ 0 <= openat_ret k ->
  0 < end_ret k -> file_map k <> 0 -> handle_map k <> 0 -> sizeof_Ehdr <= Z.of_nat (length got) ->
  let img := bytes (mapped_file k got) in
  loadable img (end_ret k) = true ->
  exists h tr, dlopen k (Some path) = Ok (Some (handle_map k, h, mapped_file k got), tr) /\
    forall name, cstr_ok name ->
      dlsym (mapped_file k got) (Some h) (Some name) =
      Ok (match value_of img name with Some v => u64 (file_map k + v) | None => 0 end).
Proof.
  intros Hk Hr Hfd He Hmap Hh Hlen img Hl. pose proof (file_image k got Hk Hr Hmap He Hlen) as Hm.
  destruct (loadable_tables _ _ Hm Hl) as (s & Hc & Ht & Hent & Hlk & Ho & Hz & Hnames).
  unfold dlopen. set (fd := if open_ret k <? 0 then openat_ret k else open_ret k). assert (0 <= fd) by (subst fd; case_match eqn:Hf; lia).
  rewrite (proj2 (Z.ltb_ge fd 0)), (proj2 (Z.leb_gt (end_ret k) 0)), (proj2 (Z.eqb_neq _ _)) by done. rewrite Hr.
  rewrite (proj2 (Z.ltb_ge _ sizeof_Ehdr)), Ht by done. cbn [obind]. rewrite (proj2 (Z.eqb_neq _ _)) by done.
  eexists _, _. split; [reflexivity|]. intros name Hn. unfold value_of. fold img in Hc, Hnames. rewrite Hc.
  pose proof (strings_inside img (end_ret k) s (im_bytes _ _ Hm) Hlk) as Hstr.
  unfold linked, inside in Hlk. apply andb_true_iff in Hlk as [Hin _]. apply Z.leb_le in Hin.
  assert (0 <= s_size s / s_ent s) by (apply Z.div_pos; lia).
  cbn [dlsym num_syms handle_of t_num t_dynstr t_dynsym t_ent].
  rewrite (symbol_search _ (end_ret k) _ s (strings_of (elf_sections img) s) name Hm Hn) by (done || (rewrite Z2Nat.id; [|done]; done) || lia).
  rewrite Z2Nat.id by done. fold (symbols_of img (strings_of (elf_sections img) s) s).
  by destruct (list_find _ _) as [[]|].
Qed.

(** A shared object with the functions [f] (at 100) and [g] (at 200). *)
Definition small_header (shoff shnum : Z) : list Z :=
  [127; 69; 76; 70] ++ replicate 36 0 ++ le_bytes 8 shoff ++ replicate 12 0 ++ le_bytes 2 shnum ++ [0; 0].
Definition small_section (ty off sz link ent : Z) : list Z :=
  replicate 4 0 ++ le_bytes 4 ty ++ replicate 16 0 ++ le_bytes 8 off ++ le_bytes 8 sz ++ le_bytes 4 link ++ replicate 12 0 ++ le_bytes 8 ent.
Definition small_symbol (name v : Z) : list Z := le_bytes 4 name ++ replicate 4 0 ++ le_bytes 8 v ++ replicate 8 0.
Definition small_so : list Z :=
  small_header 64 2 ++ small_section 11 192 48 1 24 ++ small_section 3 240 5 0 0 ++
  small_symbol 1 100 ++ small_symbol 3 200 ++ [0; 102; 0; 103; 0].
Definition small_answers (f : list Z) : answers := mk_answers (-2) 3 (Z.of_nat (length f)) 0x7f0000000000 (inr f) 0x7f0000100000.

Lemma small_answers_ok : answers_ok (small_answers small_so).
Proof.
  constructor.
  - vm_compute. reflexivity.
  - intros _. split; [|apply Z.leb_le]; vm_compute; reflexivity.
  - intros _. vm_compute. reflexivity.
  - split; [apply Z.leb_le; vm_compute; reflexivity|]. assert (forallb is_byte small_so = true) as H by (vm_compute; reflexivity).
    rewrite forallb_forall in H. apply Forall_forall. intros x Hx%list_elem_of_In%H. unfold is_byte in Hx. lia.
Qed.

Lemma loader_balanced_witness :
  match dlopen (small_answers small_so) (Some [108]) with
  | Ok (Some (handle, h, m), tr) => held (tr ++ (dlclose (Some (handle, h))).2) [] = Some []
  | _ => False end.
Proof.
  assert (exists r : option (Z * LppSoHandle * mapping) * list sys_ev, dlopen (small_answers small_so) (Some [108]) = Ok r /\ is_Some (fst r)) as (r & Hr & [[[handle h] m] Hs]).
  { eexists. split; [vm_compute; reflexivity|by eexists]. }
  pose proof (loader_balanced (small_answers small_so) (Some [108]) small_answers_ok) as H.
  rewrite Hr in *. destruct r as [o tr]. simpl in Hs. subst o. apply H.
Defined.

Lemma loader_finds_symbols_witness :
  exists h tr, dlopen (small_answers small_so) (Some [108]) = Ok (Some (0x7f0000100000, h, mapped_file (small_answers small_so) small_so), tr) /\
    dlsym (mapped_file (small_answers small_so) small_so) (Some h) (Some [103]) = Ok (0x7f0000000000 + 200) /\
    dlsym (mapped_file (small_answers small_so) small_so) (Some h) (Some [104]) = Ok 0.
Proof.
  destruct (loader_finds_symbols (small_answers small_so) [108] small_so small_answers_ok) as (h & tr & Ho & Hs).
  1-6: vm_compute; try done; try (by right); intros [=].
  { vm_compute. reflexivity. }
  exists h, tr. split; [exact Ho|].
  split; (rewrite Hs; [vm_compute; reflexivity|repeat constructor; lia]).
Defined.

(** The check of the section table wraps: this table starts 64 bytes before the file. *)
Example wrapped_table_read_outside :
  dlopen (small_answers (small_header (2 ^ 64 - 64) 1)) (Some [108]) = Undef.
Proof. vm_compute. reflexivity. Qed.
