(* ===== verification/FreeSys.v ===== *)
(** * System calls, sockets and processes of freestanding Linux (runtime/linux_x86_64_min.c)

    Each wrapper of the runtime loads a call number and arguments into registers and executes one [syscall]
    instruction.  A call is recorded with its number and arguments as it is made; what the kernel
    answers is a parameter that may depend on all that happened before ([kernel]).  On top of the
    wrappers: making connections, and running commands in a forked process. *)

From stdpp Require Import gmap.
From S2P Require Import Prelude CInt FreeMap Buf Str FreeStr.
From S2P Require FreeIO.

(** ** System calls *)

(** A register holds a number or the address of a string, of bytes, of an array of strings, or of room
    for an answer. *)
Inductive arg := Num (z : Z) | Text (s : cstr) | Bytes (b : list Z) | Texts (l : list cstr) | Room (n : Z).
Record syscall := mk_call { rax : Z; regs : list arg }.
(** The value left in [rax], and the numbers stored where there was room. *)
Record answer := mk_answer { ret : Z; stored : list Z }.
Definition history := list (syscall * answer).
Definition kernel := history -> syscall -> answer.

(** What a function does: it returns, ends the process, turns it into another program, or stores
    through NULL. *)
Inductive ran (A : Type) := Returns (a : A) | Exits (code : Z) | Becomes (path : cstr) (argv : list cstr) | Faults.
Arguments Returns {A} a.
Arguments Exits {A} code.
Arguments Becomes {A} path argv.
Arguments Faults {A}.

Definition prog (A : Type) := history -> ran A * history.
Definition pret {A} (a : A) : prog A := fun h => (Returns a, h).
Definition pbind {A B} (m : prog A) (f : A -> prog B) : prog B := fun h =>
  match m h with
  | (Returns a, h) => f a h
  | (Exits c, h) => (Exits c, h)
  | (Becomes p v, h) => (Becomes p v, h)
  | (Faults, h) => (Faults, h)
  end.
Declare Scope sys_scope.
Notation "x <~ m ;; f" := (pbind m (fun x => f)) (at level 62, m at next level, right associativity) : sys_scope.
Notation "m ;;; f" := (pbind m (fun _ => f)) (at level 62, right associativity) : sys_scope.
#[local] Open Scope sys_scope.

Section with_kernel.
Context (k : kernel).

Definition syscall_ (nr : Z) (args : list arg) : prog answer := fun h =>
  let c := mk_call nr args in (Returns (k h c), h ++ [(c, k h c)]).
Definition sysret (nr : Z) (args : list arg) : prog Z := a <~ syscall_ nr args ;; pret (ret a).

Definition lpp_sys_close (fd : Z) : prog Z := sysret 3 [Num fd].
Definition lpp_sys_socket (domain type protocol : Z) : prog Z := sysret 41 [Num domain; Num type; Num protocol].
Definition lpp_sys_connect (fd : Z) (addr : list Z) (addrlen : Z) : prog Z := sysret 42 [Num fd; Bytes addr; Num addrlen].
Definition lpp_sys_accept (fd : Z) : prog Z := sysret 43 [Num fd; Num 0; Num 0].
Definition lpp_sys_bind (fd : Z) (addr : list Z) (addrlen : Z) : prog Z := sysret 49 [Num fd; Bytes addr; Num addrlen].
Definition lpp_sys_listen (fd backlog : Z) : prog Z := sysret 50 [Num fd; Num backlog].
Definition lpp_sys_fork : prog Z := sysret 57 [].
(** Returns only when the program could not be started. *)
Definition lpp_sys_execve (pathname : cstr) (argv : list cstr) : prog Z :=
  r <~ sysret 59 [Text pathname; Texts argv; Num 0] ;;
  if r =? 0 then fun h => (Becomes pathname argv, h) else pret r.
Definition lpp_sys_wait4 (pid options : Z) : prog answer := syscall_ 61 [Num pid; Room 4; Num options; Num 0].
Definition lpp_sys_pipe : prog answer := syscall_ 22 [Room 8].
Definition lpp_sys_dup2 (oldfd newfd : Z) : prog Z := sysret 33 [Num oldfd; Num newfd].
Definition lpp_exit {A} (code : Z) : prog A := syscall_ 60 [Num code] ;;; fun h => (Exits code, h).

(** ** Connections *)

Record lpp_sockaddr_in := mk_sockaddr { sin_family : Z; sin_port : Z; sin_addr : Z }.
(** As it lies in memory, with [sin_zero]. *)
Definition sockaddr_bytes (a : lpp_sockaddr_in) : list Z :=
  le_bytes 2 (sin_family a) ++ le_bytes 2 (sin_port a) ++ le_bytes 4 (sin_addr a) ++ replicate 8 0.

Definition lpp_htons (val : Z) : Z := u16 (Z.lor (Z.shiftl val 8) (Z.shiftr val 8)).

Definition lpp_net_listen_fs (port : Z) : prog Z :=
  sock <~ lpp_sys_socket 2 1 0 ;;
  if sock <? 0 then pret (-1)
  else
    let addr := mk_sockaddr 2 (lpp_htons (u16 port)) 0x0100007f in
    b <~ lpp_sys_bind sock (sockaddr_bytes addr) 16 ;;
    if b <? 0 then lpp_sys_close sock ;;; pret (-1)
    else
      l <~ lpp_sys_listen sock 128 ;;
      if l <? 0 then lpp_sys_close sock ;;; pret (-1)
      else pret sock.

Definition lpp_net_accept_fs (listener : Z) : prog Z :=
  if listener <? 0 then pret (-1) else lpp_sys_accept listener.

Definition lpp_net_connect_fs (host : option cstr) (port : Z) : prog Z :=
  sock <~ lpp_sys_socket 2 1 0 ;;
  if sock <? 0 then pret (-1)
  else
    let addr := mk_sockaddr 2 (lpp_htons (u16 port)) 0x0100007f in
    c <~ lpp_sys_connect sock (sockaddr_bytes addr) 16 ;;
    if c <? 0 then lpp_sys_close sock ;;; pret (-1)
    else pret sock.

Definition lpp_net_close_fs (fd : Z) : prog unit :=
  if fd >=? 0 then lpp_sys_close fd ;;; pret tt else pret tt.

Definition lpp_net_set_timeout_fs (fd ms : Z) : prog Z := pret 1.
Definition lpp_net_accept_timeout_fs (l t : Z) : prog Z := lpp_net_accept_fs l.
Definition lpp_net_dial_fs (h : option cstr) (p t : Z) : prog Z := lpp_net_connect_fs h p.
Definition lpp_net_dial_udp_fs (h : option cstr) (p t : Z) : prog Z := pret 0.
Definition lpp_net_listen_udp_fs (p : Z) : prog Z := pret 0.
Definition lpp_net_set_deadline_fs (f r w : Z) : prog Z := lpp_net_set_timeout_fs f (if r >? w then r else w).
Definition lpp_net_set_keepalive_fs (f e i v c : Z) : prog Z := pret 1.

(** ** Commands *)

Definition sh : cstr := [47; 98; 105; 110; 47; 115; 104].
Definition argv_of (cmdline : cstr) : list cstr := [sh; [45; 99]; cmdline].

Definition lpp_command_exec_fs (cmdline : option cstr) : prog Z :=
  match cmdline with
  | None => pret (-1)
  | Some cmdline =>
      pid <~ lpp_sys_fork ;;
      if pid <? 0 then pret (-1)
      else if pid =? 0 then lpp_sys_execve sh (argv_of cmdline) ;;; lpp_exit 127
      else
        w <~ lpp_sys_wait4 pid 0 ;;
        if ret w <? 0 then pret (-1)
        else pret (FreeIO.exit_status (hd 0 (stored w)))
  end.

(** The calls of the loop that reads the pipe, when it delivers these pieces. *)
Definition reads (fd : Z) (pieces : list (list Z)) : history :=
  ((fun p => (mk_call 0 [Num fd; Room 256], mk_answer (Z.of_nat (length p)) p)) <$> pieces) ++
  [(mk_call 0 [Num fd; Room 256], mk_answer 0 [])].

(** [al n]: whether [lpp_alloc] serves [n] bytes; a refusal is not tested. *)
Definition empty_text (al : Z -> bool) : prog cstr := if al 1 then pret [] else fun h => (Faults, h).
Definition read_pipe (al : Z -> bool) (fd : Z) (pieces : list (list Z)) : prog cstr := fun h =>
  match FreeIO.command_text al pieces with
  | Ok (s, _) => (Returns s, h ++ reads fd pieces)
  | _ => (Faults, h)
  end.

(** [pieces]: what the pipe will deliver, in pieces of at most 256 bytes. *)
Definition lpp_command_output_fs (al : Z -> bool) (pieces : list (list Z)) (cmdline : option cstr) : prog cstr :=
  match cmdline with
  | None => empty_text al
  | Some cmdline =>
      p <~ lpp_sys_pipe ;;
      if ret p <? 0 then empty_text al
      else
        let pipefd0 := nth 0 (stored p) 0 in
        let pipefd1 := nth 1 (stored p) 0 in
        pid <~ lpp_sys_fork ;;
        if pid <? 0 then
          lpp_sys_close pipefd0 ;;; lpp_sys_close pipefd1 ;;; empty_text al
        else if pid =? 0 then
          lpp_sys_dup2 pipefd1 1 ;;; lpp_sys_dup2 pipefd1 2 ;;;
          lpp_sys_close pipefd0 ;;; lpp_sys_close pipefd1 ;;;
          lpp_sys_execve sh (argv_of cmdline) ;;; lpp_exit 127
        else
          lpp_sys_close pipefd1 ;;;
          buf <~ read_pipe al pipefd0 pieces ;;
          lpp_sys_close pipefd0 ;;;
          lpp_sys_wait4 pid 0 ;;;
          pret buf
  end.
End with_kernel.

(** ** What Linux does with descriptors *)

(** Descriptors a call opened ([socket], [accept], [pipe]) and closed. *)
Definition opened_by (e : syscall * answer) : list Z :=
  let '(c, a) := e in
  if ret a <? 0 then []
  else if (rax c =? 41) || (rax c =? 43) then [ret a]
  else if rax c =? 22 then stored a
  else [].
Definition closed_by (c : syscall) : list Z :=
  if rax c =? 3 then match regs c with Num fd :: _ => [fd] | _ => [] end else [].
Definition fd_step (s : gset Z) (e : syscall * answer) : gset Z :=
  list_to_set (opened_by e) ∪ (s ∖ list_to_set (closed_by e.1)).
Definition open_fds (h : history) : gset Z := foldl fd_step ∅ h.

(** The kernel gives out descriptors that are not in use; a pipe has two ends. *)
Class LinuxFds (k : kernel) : Prop := {
  fds_fresh : forall h c fd, fd ∈ opened_by (c, k h c) -> 0 <= fd /\ fd ∉ open_fds h;
  pipe_ends : forall h c, rax c = 22 -> 0 <= ret (k h c) -> exists r w, stored (k h c) = [r; w] /\ r <> w
}.

(** The files behind the descriptors of the forked process. *)
Inductive file := PipeRead | PipeWrite | Other (id : Z).
Definition table_step (t : gmap Z file) (c : syscall) : gmap Z file :=
  if rax c =? 33 then
    match regs c with
    | [Num o; Num n] => match t !! o with Some f => <[n := f]> t | None => t end
    | _ => t
    end
  else foldr delete t (closed_by c).

Lemma open_app h e : open_fds (h ++ [e]) = fd_step (open_fds h) e.
Proof. unfold open_fds. by rewrite foldl_app. Qed.

(** A call that opens and closes nothing. *)
Lemma step_idle s c a : rax c <> 3 -> rax c <> 22 -> rax c <> 41 -> rax c <> 43 -> fd_step s (c, a) = s.
Proof.
  intros. unfold fd_step, opened_by, closed_by. cbn [fst]. rewrite !(proj2 (Z.eqb_neq _ _)) by done.
  destruct (ret a <? 0); cbn; set_solver.
Qed.
Lemma step_close s fd a : fd_step s (mk_call 3 [Num fd], a) = s ∖ {[fd]}.
Proof. unfold fd_step, opened_by, closed_by. cbn. destruct (ret a <? 0); set_solver. Qed.
Lemma step_open s c a : rax c = 41 \/ rax c = 43 -> fd_step s (c, a) = (if ret a <? 0 then s else {[ret a]} ∪ s).
Proof.
  intros Hc. unfold fd_step, opened_by, closed_by. cbn [fst].
  replace (rax c =? 3) with false by (destruct Hc as [-> | ->]; done).
  replace ((rax c =? 41) || (rax c =? 43)) with true by (destruct Hc as [-> | ->]; done).
  destruct (ret a <? 0); cbn; set_solver.
Qed.

(** ** Sockets *)

(** What a function that makes a socket must do: the descriptor it returns is new and stays open, and
    without one nothing stays open. *)
Definition accounted (h h' : history) (v : Z) : Prop :=
  (0 <= v -> v ∉ open_fds h) /\ open_fds h' = if v <? 0 then open_fds h else {[v]} ∪ open_fds h.

(** 127.0.0.1 and a port, as RFC 791 has them on the wire. *)
Definition loopback (port : Z) : list Z := [2; 0; port mod 65536 / 256; port mod 256; 127; 0; 0; 1; 0; 0; 0; 0; 0; 0; 0; 0].
Definition socket_call : syscall := mk_call 41 [Num 2; Num 1; Num 0].
Definition bind_call (fd port : Z) : syscall := mk_call 49 [Num fd; Bytes (loopback port); Num 16].
Definition listen_call (fd : Z) : syscall := mk_call 50 [Num fd; Num 128].
Definition connect_call (fd port : Z) : syscall := mk_call 42 [Num fd; Bytes (loopback port); Num 16].
Definition accept_call (fd : Z) : syscall := mk_call 43 [Num fd; Num 0; Num 0].
(** The calls made one after the other, each with its answer, from [h] on. *)
Fixpoint calls_from (k : kernel) (h : history) (cs : list syscall) : history :=
  match cs with [] => [] | c :: cs => (c, k h c) :: calls_from k (h ++ [(c, k h c)]) cs end.
(** The answer to the last of them. *)
Definition answer_of (k : kernel) (h : history) (cs : list syscall) (c : syscall) : Z := ret (k (h ++ calls_from k h cs) c).

Lemma network_order p : 0 <= p < 65536 -> le_bytes 2 (lpp_htons p) = [p / 256; p mod 256].
Proof.
  intros Hp. unfold lpp_htons. rewrite Z.lor_comm, Z.shiftr_div_pow2 by lia. change (2 ^ 8) with 256.
  rewrite <- (add_lor 8) by (pow2; dlia). cbn [le_bytes]. unfold u8, u16, uwrap. rewrite Z.shiftr_div_pow2 by lia.
  change (2 ^ 8) with 256. change (2 ^ 16) with 65536.
  assert ((p / 256 + 256 * p) mod 65536 = p / 256 + 256 * (p mod 256)) as -> by dlia.
  f_equal; [dlia|]. f_equal. dlia.
Qed.

Lemma loopback_bytes port : sockaddr_bytes (mk_sockaddr 2 (lpp_htons (u16 port)) 0x0100007f) = loopback port.
Proof.
  unfold sockaddr_bytes. cbn [sin_family sin_port sin_addr]. rewrite network_order by (pose proof (uwrap_range 16 port); unfold u16 in *; pow2; lia).
  unfold loopback, u16, uwrap. change (2 ^ 16) with 65536. replace (port mod 256) with (port mod 65536 mod 256); [reflexivity|].
  rewrite (Z.div_mod port 65536) at 2 by lia. replace (65536 * (port / 65536) + port mod 65536) with (port mod 65536 + (256 * (port / 65536)) * 256) by lia.
  by rewrite Z.mod_add by lia.
Qed.

(** Runs the calls of a function. *)
Ltac run := cbv [pbind pret syscall_ sysret lpp_sys_close lpp_sys_socket lpp_sys_connect lpp_sys_accept lpp_sys_bind lpp_sys_listen
  lpp_sys_fork lpp_sys_execve lpp_sys_wait4 lpp_sys_pipe lpp_sys_dup2 lpp_exit]; cbn [ret stored].

Ltac answered := match goal with |- context [if ret ?a <? 0 then _ else _] => destruct (Z.ltb_spec (ret a) 0) end.

Section linux.
Context (k : kernel) `{!LinuxFds k}.

Lemma fresh_socket h c : rax c = 41 \/ rax c = 43 -> 0 <= ret (k h c) -> ret (k h c) ∉ open_fds h.
Proof.
  intros Hc Hr. apply (fds_fresh h c). unfold opened_by. rewrite (proj2 (Z.ltb_ge _ _)) by done.
  replace ((rax c =? 41) || (rax c =? 43)) with true by (destruct Hc as [-> | ->]; done). by left.
Qed.

(** A socket that is set up by more calls: kept when they succeed, closed when one fails. *)
Lemma socket_kept h s0 cs : 0 <= ret s0 -> s0 = k h socket_call -> Forall (fun e => rax e.1 <> 3 /\ rax e.1 <> 22 /\ rax e.1 <> 41 /\ rax e.1 <> 43) cs ->
  open_fds (h ++ (socket_call, s0) :: cs) = {[ret s0]} ∪ open_fds h.
Proof.
  intros Hr -> Hcs. unfold open_fds. rewrite foldl_app. cbn [foldl].
  rewrite step_open by (by left). rewrite (proj2 (Z.ltb_ge _ _)) by done. generalize (({[ret (k h socket_call)]} : gset Z) ∪ foldl fd_step ∅ h).
  induction Hcs as [|[c a] cs (?&?&?&?) Hcs IH]; intros s; [done|]. cbn [foldl fst] in *. rewrite step_idle by done. apply IH.
Qed.
Lemma socket_dropped h s0 cs a : 0 <= ret s0 -> s0 = k h socket_call -> Forall (fun e => rax e.1 <> 3 /\ rax e.1 <> 22 /\ rax e.1 <> 41 /\ rax e.1 <> 43) cs ->
  open_fds ((h ++ (socket_call, s0) :: cs) ++ [(mk_call 3 [Num (ret s0)], a)]) = open_fds h.
Proof.
  intros Hr Hs Hcs. rewrite open_app, socket_kept, step_close by done.
  pose proof (fresh_socket h socket_call (or_introl eq_refl)) as Hf. rewrite <- Hs in Hf. specialize (Hf Hr). set_solver.
Qed.

(** One list of calls. *)
Ltac flat := cbn [calls_from]; rewrite <- ?app_assoc; cbn [app].

Lemma listen_spec port h :
  let s := ret (k h socket_call) in
  let b := answer_of k h [socket_call] (bind_call s port) in
  let l := answer_of k h [socket_call; bind_call s port] (listen_call s) in
  let v := if s <? 0 then -1 else if b <? 0 then -1 else if l <? 0 then -1 else s in
  let t := calls_from k h (socket_call :: if s <? 0 then [] else bind_call s port :: if b <? 0 then [mk_call 3 [Num s]] else
             listen_call s :: if l <? 0 then [mk_call 3 [Num s]] else []) in
  lpp_net_listen_fs k port h = (Returns v, h ++ t) /\ accounted h (h ++ t) v.
Proof.
  cbv zeta. unfold lpp_net_listen_fs, accounted, answer_of. run. rewrite loopback_bytes. fold socket_call. cbn [calls_from].
  set (s0 := k h socket_call). fold (bind_call (ret s0) port) (listen_call (ret s0)).
  destruct (Z.ltb_spec (ret s0) 0).
  { split_and!; [done|lia|]. cbn [calls_from]. rewrite open_app, step_open by (by left). by rewrite (proj2 (Z.ltb_lt _ _)). }
  flat. answered.
  { flat. split_and!; [done|lia|].
    match goal with |- open_fds (h ++ [_; ?b; ?c]) = _ => change (h ++ [(socket_call, s0); b; c]) with (h ++ ((socket_call, s0) :: [b]) ++ [c]) end.
    rewrite app_assoc. apply socket_dropped; [done|done|]. by repeat constructor. }
  flat. answered.
  { flat. split_and!; [done|lia|].
    match goal with |- open_fds (h ++ [_; ?b; ?c; ?d]) = _ => change (h ++ [(socket_call, s0); b; c; d]) with (h ++ ((socket_call, s0) :: [b; c]) ++ [d]) end.
    rewrite app_assoc. apply socket_dropped; [done|done|]. by repeat constructor. }
  flat. split_and!; [done| |].
  - intros _. by apply (fresh_socket h socket_call (or_introl eq_refl)).
  - rewrite (proj2 (Z.ltb_ge _ _)) by done. apply socket_kept; [done|done|by repeat constructor].
Qed.

Lemma connect_spec host port h :
  let s := ret (k h socket_call) in
  let c := answer_of k h [socket_call] (connect_call s port) in
  let v := if s <? 0 then -1 else if c <? 0 then -1 else s in
  let t := calls_from k h (socket_call :: if s <? 0 then [] else connect_call s port :: if c <? 0 then [mk_call 3 [Num s]] else []) in
  lpp_net_connect_fs k host port h = (Returns v, h ++ t) /\ accounted h (h ++ t) v.
Proof.
  cbv zeta. unfold lpp_net_connect_fs, accounted, answer_of. run. rewrite loopback_bytes. fold socket_call. cbn [calls_from].
  set (s0 := k h socket_call). fold (connect_call (ret s0) port).
  destruct (Z.ltb_spec (ret s0) 0).
  { split_and!; [done|lia|]. cbn [calls_from]. rewrite open_app, step_open by (by left). by rewrite (proj2 (Z.ltb_lt _ _)). }
  flat. answered.
  { flat. split_and!; [done|lia|].
    match goal with |- open_fds (h ++ [_; ?b; ?c]) = _ => change (h ++ [(socket_call, s0); b; c]) with (h ++ ((socket_call, s0) :: [b]) ++ [c]) end.
    rewrite app_assoc. apply socket_dropped; [done|done|]. by repeat constructor. }
  flat. split_and!; [done| |].
  - intros _. by apply (fresh_socket h socket_call (or_introl eq_refl)).
  - rewrite (proj2 (Z.ltb_ge _ _)) by done. apply socket_kept; [done|done|by repeat constructor].
Qed.

Lemma accept_spec listener h :
  let v := if listener <? 0 then -1 else ret (k h (accept_call listener)) in
  let t := calls_from k h (if listener <? 0 then [] else [accept_call listener]) in
  lpp_net_accept_fs k listener h = (Returns v, h ++ t) /\ accounted h (h ++ t) v.
Proof.
  cbv zeta. unfold lpp_net_accept_fs, accounted. destruct (Z.ltb_spec listener 0).
  { cbn [calls_from]. rewrite app_nil_r. split_and!; [done|lia|done]. }
  run. cbn [calls_from]. fold (accept_call listener). split_and!; [reflexivity| |].
  - intros Hr. apply (fresh_socket h (accept_call listener)); [by right|done].
  - rewrite open_app, step_open by (by right). done.
Qed.

Lemma close_call_spec fd h : exists t, lpp_net_close_fs k fd h = (Returns tt, h ++ t) /\
  open_fds (h ++ t) = (if fd <? 0 then open_fds h else open_fds h ∖ {[fd]}) /\ (fd < 0 -> t = []).
Proof.
  unfold lpp_net_close_fs. rewrite Z.geb_leb, Z.leb_antisym. destruct (Z.ltb_spec fd 0); cbn [negb].
  - exists []. by rewrite app_nil_r.
  - run. eexists [_]. split_and!; [reflexivity| |lia]. by rewrite open_app, step_close.
Qed.
End linux.

(** ** Processes *)

Definition fork_call : syscall := mk_call 57 [].
Definition pipe_call : syscall := mk_call 22 [Room 8].
Definition wait_call (pid : Z) : syscall := mk_call 61 [Num pid; Room 4; Num 0; Num 0].
(** The status word of a process that exited, and of one that a signal ended. *)
Definition exited (code : Z) : Z := code * 256.
Definition signalled (signal core : Z) : Z := core * 128 + signal.

Lemma exit_status_exited code : 0 <= code < 256 -> FreeIO.exit_status (exited code) = code.
Proof.
  intros Hc. unfold FreeIO.exit_status, exited. change 0x7f with (Z.ones 7). change 0xff with (Z.ones 8).
  rewrite !Z.land_ones, Z.shiftr_div_pow2 by lia. change (2 ^ 7) with 128. change (2 ^ 8) with 256.
  replace (code * 256 mod 128) with 0 by dlia. cbn. dlia.
Qed.
Lemma exit_status_signalled signal core : 0 < signal < 128 -> 0 <= core < 2 -> FreeIO.exit_status (signalled signal core) = -1.
Proof.
  intros Hs Hc. unfold FreeIO.exit_status, signalled. change 0x7f with (Z.ones 7). rewrite Z.land_ones by lia. change (2 ^ 7) with 128.
  replace ((core * 128 + signal) mod 128) with signal by dlia. by rewrite (proj2 (Z.eqb_neq _ _)) by lia.
Qed.

Section commands.
Context (k : kernel) `{!LinuxFds k}.

Lemma exec_parent cmd h : let pid := ret (k h fork_call) in let w := k (h ++ [(fork_call, k h fork_call)]) (wait_call pid) in
  pid <> 0 ->
  exists t, lpp_command_exec_fs k (Some cmd) h =
    (Returns (if (pid <? 0) || (ret w <? 0) then -1 else FreeIO.exit_status (hd 0 (stored w))), h ++ t) /\
  open_fds (h ++ t) = open_fds h /\ fst <$> t = if pid <? 0 then [fork_call] else [fork_call; wait_call pid].
Proof.
  cbv zeta. intros Hp. unfold lpp_command_exec_fs. run. fold fork_call. set (f := k h fork_call) in *.
  assert (open_fds (h ++ [(fork_call, f)]) = open_fds h) as Hf by (rewrite open_app; by apply step_idle).
  destruct (Z.ltb_spec (ret f) 0); [by exists [(fork_call, f)]|]. rewrite (proj2 (Z.eqb_neq _ _)) by done.
  fold (wait_call (ret f)). cbn [orb]. set (w := k _ _). exists [(fork_call, f); (wait_call (ret f), w)].
  assert (open_fds (h ++ [(fork_call, f); (wait_call (ret f), w)]) = open_fds h) as Hw.
  { change [(fork_call, f); (wait_call (ret f), w)] with ([(fork_call, f)] ++ [(wait_call (ret f), w)]).
    rewrite app_assoc, open_app, Hf. by apply step_idle. }
  rewrite <- app_assoc. cbn [app]. by destruct (ret w <? 0).
Qed.

Lemma exec_child cmd h : ret (k h fork_call) = 0 ->
  exists t, fst <$> t = mk_call 59 [Text sh; Texts (argv_of cmd); Num 0] :: (if ret (k (h ++ [(fork_call, k h fork_call)])
      (mk_call 59 [Text sh; Texts (argv_of cmd); Num 0])) =? 0 then [] else [mk_call 60 [Num 127]]) /\
  lpp_command_exec_fs k (Some cmd) h =
    ((if ret (k (h ++ [(fork_call, k h fork_call)]) (mk_call 59 [Text sh; Texts (argv_of cmd); Num 0])) =? 0
      then Becomes sh (argv_of cmd) else Exits 127), (h ++ [(fork_call, k h fork_call)]) ++ t).
Proof.
  intros H0. unfold lpp_command_exec_fs. run. fold fork_call. rewrite H0. cbn [Z.ltb Z.eqb Z.compare].
  destruct (_ =? 0).
  - eexists [_]. split; cycle 1; [reflexivity|done].
  - eexists [_; _]. split; cycle 1; [by rewrite <- !app_assoc|done].
Qed.

Lemma open_run h t : open_fds (h ++ t) = foldl fd_step (open_fds h) t.
Proof. unfold open_fds. apply foldl_app. Qed.
Lemma reads_idle fd pieces s : foldl fd_step s (reads fd pieces) = s.
Proof.
  unfold reads. rewrite foldl_app. assert (forall s, foldl fd_step s ((fun p => (mk_call 0 [Num fd; Room 256], mk_answer (Z.of_nat (length p)) p)) <$> pieces) = s) as ->.
  { induction pieces; intros s'; [done|]. cbn [fmap list_fmap foldl]. rewrite step_idle by done. done. }
  by apply step_idle.
Qed.

Lemma output_parent al pieces cmd h : Forall (fun p => p <> [] /\ (length p <= 256)%nat) pieces ->
  slen (concat pieces) < 2 ^ 60 ->
  let p := k h pipe_call in let h1 := h ++ [(pipe_call, p)] in let pid := ret (k h1 fork_call) in
  (0 <= ret p -> pid <> 0) ->
  exists t, (lpp_command_output_fs k al pieces (Some cmd) h =
      (Returns (if (ret p <? 0) || (pid <? 0) then [] else until_nul (concat pieces)), h ++ t) /\ open_fds (h ++ t) = open_fds h) \/
    (lpp_command_output_fs k al pieces (Some cmd) h = (Faults, h ++ t) /\ exists n, al n = false).
Proof.
  cbv zeta. intros Hp Hs Hpid. unfold lpp_command_output_fs, empty_text. run. fold pipe_call.
  set (p := k h pipe_call) in *. destruct (Z.ltb_spec (ret p) 0) as [Hr|Hr].
  { eexists [_]. destruct (al 1) eqn:E1; [left|right; split; [reflexivity|by eexists]]. split; [reflexivity|]. rewrite open_app. unfold fd_step, opened_by. rewrite (proj2 (Z.ltb_lt _ _)) by done. cbn. set_solver. }
  specialize (Hpid Hr). destruct (pipe_ends h pipe_call eq_refl Hr) as (r & w & Hst & Hrw). fold p in Hst. rewrite Hst. cbn [nth].
  assert (forall fd, fd ∈ [r; w] -> fd ∉ open_fds h) as Hfresh.
  { intros fd Hfd. apply (fds_fresh h pipe_call). unfold opened_by. fold p. rewrite (proj2 (Z.ltb_ge _ _)) by done. cbn. by rewrite Hst. }
  assert (r ∉ open_fds h) as Hr1 by (apply Hfresh; by left). assert (w ∉ open_fds h) as Hw1 by (apply Hfresh; right; by left).
  assert (open_fds (h ++ [(pipe_call, p)]) = {[r; w]} ∪ open_fds h) as Hpipe.
  { rewrite open_app. unfold fd_step, opened_by. rewrite (proj2 (Z.ltb_ge _ _)) by done. cbn. rewrite Hst. cbn. set_solver. }
  fold fork_call. set (f := k _ fork_call) in *. cbn [orb]. destruct (Z.ltb_spec (ret f) 0).
  { rewrite <- !app_assoc. eexists. destruct (al 1) eqn:E1; [left|right; split; [reflexivity|by eexists]]. split; [reflexivity|]. rewrite app_assoc, open_run, Hpipe. cbn [app foldl].
    rewrite !step_close, step_idle by done. set_solver. }
  rewrite (proj2 (Z.eqb_neq _ _)) by done. unfold read_pipe.
  destruct (FreeIO.command_text_al al pieces) as [->|[-> Hal]].
  2: { rewrite <- !app_assoc. eexists. right. by split. }
  destruct (FreeIO.command_text_spec (fun _ => true) pieces (fun _ => eq_refl) Hp Hs) as (freed & ->).
  rewrite <- !app_assoc. eexists. left. split; [reflexivity|]. rewrite app_assoc, open_run, Hpipe. rewrite !foldl_app. cbn [app foldl].
  rewrite (step_idle _ fork_call) by done. rewrite step_close, reads_idle, step_close, step_idle by done. set_solver.
Qed.

Lemma table_dup (t : gmap Z file) o n f : t !! o = Some f -> table_step t (mk_call 33 [Num o; Num n]) = <[n := f]> t.
Proof. intros H. unfold table_step. cbn. by rewrite H. Qed.
Lemma table_close (t : gmap Z file) fd : table_step t (mk_call 3 [Num fd]) = delete fd t.
Proof. done. Qed.

(** The child: its standard output and its standard error are the pipe, which is open nowhere else. *)
Lemma output_child al pieces cmd h r w (t0 : gmap Z file) : let p := k h pipe_call in let h1 := h ++ [(pipe_call, p)] in
  0 <= ret p -> stored p = [r; w] -> ret (k h1 fork_call) = 0 -> 2 < r -> 2 < w -> r <> w ->
  t0 !! r = Some PipeRead -> t0 !! w = Some PipeWrite ->
  exists calls last, (lpp_command_output_fs k al pieces (Some cmd) h).2 = h1 ++ (fork_call, k h1 fork_call) :: calls ++ last /\
    foldl table_step t0 (fst <$> calls) = <[1 := PipeWrite]> (<[2 := PipeWrite]> (delete r (delete w t0))) /\
    (exists a rest, last = (mk_call 59 [Text sh; Texts (argv_of cmd); Num 0], a) :: rest /\
       ((lpp_command_output_fs k al pieces (Some cmd) h).1 = if ret a =? 0 then Becomes sh (argv_of cmd) else Exits 127)).
Proof.
  cbv zeta. intros Hr Hst Hf H1 H2 Hrw Ht1 Ht2. unfold lpp_command_output_fs. run. fold pipe_call.
  rewrite (proj2 (Z.ltb_ge _ _)), Hst by done. cbn [nth]. fold fork_call. rewrite Hf. cbn [Z.ltb Z.eqb Z.compare].
  rewrite <- !app_assoc. cbn [app].
  match goal with |- context [if ret ?a =? 0 then _ else _] => set (e := a) end.
  assert (foldl table_step t0 [mk_call 33 [Num w; Num 1]; mk_call 33 [Num w; Num 2]; mk_call 3 [Num r]; mk_call 3 [Num w]] =
    <[1 := PipeWrite]> (<[2 := PipeWrite]> (delete r (delete w t0)))) as Ht.
  { cbn [foldl]. rewrite (table_dup t0 w 1 _ Ht2), (table_dup _ w 2 PipeWrite) by (by rewrite lookup_insert_ne by lia).
    rewrite !table_close, (insert_insert_ne _ 2 1), !delete_insert_ne by lia. by rewrite (delete_delete _ w r). }
  destruct (ret e =? 0) eqn:He.
  - eexists [_; _; _; _], [_]. cbn [snd]. rewrite <- !app_assoc. cbn [app]. split; [reflexivity|]. split; [exact Ht|]. eexists _, _. split; [reflexivity|]. fold e. by rewrite He.
  - eexists [_; _; _; _], [_; _]. cbn [snd]. rewrite <- !app_assoc. cbn [app]. split; [reflexivity|]. split; [exact Ht|].
    eexists _, _. split; [reflexivity|]. fold e. by rewrite He.
Qed.
End commands.

(** ** Theorems *)

(** C28. Sockets of the freestanding runtime.  Whatever the kernel answers, listening makes the calls socket, bind
    and listen, binding 127.0.0.1 and the port in network byte order, each only if the one before succeeded; it
    returns the socket exactly when all three succeed, and otherwise -1, after closing the socket if there is
    one.  Connecting does the same with connect, and goes to 127.0.0.1 whatever host is asked for.  Accepting
    returns what the kernel answers, -1 for a negative handle without a call.  In each case a descriptor that
    comes back is new and open, and without one nothing stays open that was not; closing closes exactly the
    descriptor it names, and nothing for a negative one.  The kernel is one that gives out descriptors that are
    not in use. *)
Theorem freestanding_sockets_exact k `{!LinuxFds k} h :
  (forall port,
     let s := ret (k h socket_call) in
     let b := answer_of k h [socket_call] (bind_call s port) in
     let l := answer_of k h [socket_call; bind_call s port] (listen_call s) in
     let v := if s <? 0 then -1 else if b <? 0 then -1 else if l <? 0 then -1 else s in
     let t := calls_from k h (socket_call :: if s <? 0 then [] else bind_call s port :: if b <? 0 then [mk_call 3 [Num s]] else
                listen_call s :: if l <? 0 then [mk_call 3 [Num s]] else []) in
     lpp_net_listen_fs k port h = (Returns v, h ++ t) /\ accounted h (h ++ t) v) /\
  (forall host port,
     let s := ret (k h socket_call) in
     let c := answer_of k h [socket_call] (connect_call s port) in
     let v := if s <? 0 then -1 else if c <? 0 then -1 else s in
     let t := calls_from k h (socket_call :: if s <? 0 then [] else connect_call s port :: if c <? 0 then [mk_call 3 [Num s]] else []) in
     lpp_net_connect_fs k host port h = (Returns v, h ++ t) /\ accounted h (h ++ t) v) /\
  (forall listener,
     let v := if listener <? 0 then -1 else ret (k h (accept_call listener)) in
     let t := calls_from k h (if listener <? 0 then [] else [accept_call listener]) in
     lpp_net_accept_fs k listener h = (Returns v, h ++ t) /\ accounted h (h ++ t) v) /\
  (forall fd, exists t, lpp_net_close_fs k fd h = (Returns tt, h ++ t) /\
     open_fds (h ++ t) = (if fd <? 0 then open_fds h else open_fds h ∖ {[fd]}) /\ (fd < 0 -> t = [])).
Proof.
  split_and!; intros.
  - by apply listen_spec.
  - by apply connect_spec.
  - by apply accept_spec.
  - by apply close_call_spec.
Qed.

(** C29. Commands of the freestanding runtime.  The parent waits for the child it forked, exactly once, and returns
    its exit status, or -1 when a signal ended it, when it cannot be waited for, or when there is no child because
    fork failed; the child becomes the shell with the command, or exits with 127.  Reading the output of a command
    returns what the pipe delivered up to a NUL byte (less than 2^60 bytes, in pieces of at most 256), and the
    empty text when there is no pipe or no child, with no end of the pipe left open in the parent on any of these
    paths; if an allocation is refused the function stores through NULL instead.  In the child standard output and
    standard error are the pipe, and no other descriptor is, so that the parent sees the end of the stream when the
    command ends - provided the ends of the pipe did not get the numbers 0 to 2.  The kernel is one that gives
    out descriptors that are not in use. *)
Theorem freestanding_commands_exact k `{!LinuxFds k} cmd h :
  let f := k h fork_call in
  let e := ret (k (h ++ [(fork_call, f)]) (mk_call 59 [Text sh; Texts (argv_of cmd); Num 0])) in
  (ret f < 0 -> lpp_command_exec_fs k (Some cmd) h = (Returns (-1), h ++ [(fork_call, f)])) /\
  (ret f = 0 -> (lpp_command_exec_fs k (Some cmd) h).1 = if e =? 0 then Becomes sh (argv_of cmd) else Exits 127) /\
  (0 < ret f -> let w := k (h ++ [(fork_call, f)]) (wait_call (ret f)) in
     exists v t, lpp_command_exec_fs k (Some cmd) h = (Returns v, h ++ t) /\ fst <$> t = [fork_call; wait_call (ret f)] /\
       open_fds (h ++ t) = open_fds h /\ (ret w < 0 -> v = -1) /\
       (forall code, 0 <= code < 256 -> 0 <= ret w -> stored w = [exited code] -> v = code) /\
       (forall signal core, 0 < signal < 128 -> 0 <= core < 2 -> stored w = [signalled signal core] -> v = -1)) /\
  (forall al pieces, Forall (fun p => p <> [] /\ (length p <= 256)%nat) pieces -> slen (concat pieces) < 2 ^ 60 ->
     let p := k h pipe_call in let h1 := h ++ [(pipe_call, p)] in let pid := ret (k h1 fork_call) in
     ((0 <= ret p -> pid <> 0) ->
      exists t, (lpp_command_output_fs k al pieces (Some cmd) h =
          (Returns (if (ret p <? 0) || (pid <? 0) then [] else until_nul (concat pieces)), h ++ t) /\ open_fds (h ++ t) = open_fds h) \/
        (lpp_command_output_fs k al pieces (Some cmd) h = (Faults, h ++ t) /\ exists n, al n = false)) /\
     (forall r w (t0 : gmap Z file), 0 <= ret p -> stored p = [r; w] -> pid = 0 -> 2 < r -> 2 < w -> r <> w ->
        t0 !! r = Some PipeRead -> t0 !! w = Some PipeWrite ->
        exists calls last, (lpp_command_output_fs k al pieces (Some cmd) h).2 = h1 ++ (fork_call, k h1 fork_call) :: calls ++ last /\
          foldl table_step t0 (fst <$> calls) = <[1 := PipeWrite]> (<[2 := PipeWrite]> (delete r (delete w t0))) /\
          (exists a rest, last = (mk_call 59 [Text sh; Texts (argv_of cmd); Num 0], a) :: rest /\
             ((lpp_command_output_fs k al pieces (Some cmd) h).1 = if ret a =? 0 then Becomes sh (argv_of cmd) else Exits 127)))).
Proof.
  intros f e. split_and!.
  - intros Hf. unfold lpp_command_exec_fs. run. fold fork_call. fold f. by rewrite (proj2 (Z.ltb_lt (ret f) 0)).
  - intros H0. destruct (exec_child k cmd h H0) as (t & _ & ->). done.
  - intros Hf w. destruct (exec_parent k cmd h) as (t & -> & Ho & Ht); [fold f; lia|]. fold f in Ht |- *. fold w.
    rewrite (proj2 (Z.ltb_ge (ret f) 0)) in * by lia. eexists _, t. split; [reflexivity|]. split; [done|]. split; [done|]. cbn [orb]. split_and!.
    + intros Hw. by rewrite (proj2 (Z.ltb_lt _ _)).
    + intros code Hc Hw ->. rewrite (proj2 (Z.ltb_ge _ _)) by done. by apply exit_status_exited.
    + intros signal core Hs Hc ->. destruct (ret w <? 0); [done|]. by apply exit_status_signalled.
  - intros al pieces Hp Hs. split; [by apply output_parent|]. intros r w t0 Hr Hst Hpid. by apply output_child.
Qed.

(** A kernel that numbers descriptors upwards; [fork] gives [pid], and the child exits with status 3. *)
Definition top_step (e : syscall * answer) (m : Z) : Z := Z.max m (foldr Z.max (ret e.2) (stored e.2)).
Definition top (h : history) : Z := foldr top_step 2 h.
Definition counting (pid : Z) : kernel := fun h c =>
  if (rax c =? 41) || (rax c =? 43) then mk_answer (top h + 1) []
  else if rax c =? 22 then mk_answer 0 [top h + 1; top h + 2]
  else if rax c =? 57 then mk_answer pid []
  else if rax c =? 61 then mk_answer pid [exited 3]
  else mk_answer 0 [].

Lemma max_in (l : list Z) x d : x ∈ l \/ x = d -> x <= foldr Z.max d l.
Proof. intros Hx. induction l as [|y l IH]; cbn.
  - destruct Hx as [Hx | ->]; [by apply elem_of_nil in Hx|lia].
  - destruct Hx as [[-> | ?]%elem_of_cons | ->]; [lia| |]; specialize (IH ltac:(auto)); lia.
 Qed.
Lemma opened_top e fd : fd ∈ opened_by e -> fd <= foldr Z.max (ret e.2) (stored e.2).
Proof.
  unfold opened_by. destruct e as [c a]. cbn [snd]. repeat case_match; intros Hfd; try by apply elem_of_nil in Hfd.
  - apply list_elem_of_singleton in Hfd as ->. apply max_in. by right.
  - apply max_in. by left.
Qed.
Lemma top_grows h e : top h <= top (h ++ [e]) /\ foldr Z.max (ret e.2) (stored e.2) <= top (h ++ [e]).
Proof.
  unfold top. induction h as [|x h IH]; cbn [foldr app]; [unfold top_step; lia|].
  set (a := foldr top_step 2 h) in *. set (b := foldr top_step 2 (h ++ [e])) in *. unfold top_step. lia.
Qed.
Lemma top_bound h : 2 <= top h /\ forall fd, fd ∈ open_fds h -> fd <= top h.
Proof.
  induction h as [|e h IH] using rev_ind; [split; [done|set_solver]|]. rewrite open_app. unfold fd_step.
  destruct (top_grows h e) as [Ht1 Ht2].
  split; [lia|]. intros fd [Hf|Hf]%elem_of_union.
  - apply elem_of_list_to_set, opened_top in Hf. lia.
  - apply elem_of_difference in Hf as [Hf _]. apply IH in Hf. lia.
Qed.

#[export] Instance counting_ok pid : LinuxFds (counting pid).
Proof.
  split.
  - intros h c fd. unfold opened_by, counting. pose proof (top_bound h) as [H2 Ht].
    assert (forall x, x ∈ open_fds h -> top h < x -> False) as Hno by (intros x Hx; specialize (Ht x Hx); lia).
    destruct ((rax c =? 41) || (rax c =? 43)) eqn:Hs; cbn [ret stored].
    { rewrite (proj2 (Z.ltb_ge _ _)) by lia. intros ->%list_elem_of_singleton. split; [lia|]. intros Hin. apply (Hno _ Hin). lia. }
    destruct (rax c =? 22) eqn:Hp; cbn [ret stored].
    { cbn. rewrite !elem_of_cons. intros [-> | [-> | Hf]]; [| |by apply elem_of_nil in Hf]; (split; [lia|]; intros Hin; apply (Hno _ Hin); lia). }
    intros Hf. by repeat (case_match; try by apply elem_of_nil in Hf).
  - intros h c Hc _. exists (top h + 1), (top h + 2). unfold counting. rewrite Hc. cbn. split; [done|lia].
Qed.

Lemma freestanding_sockets_exact_witness :
  (exists t, lpp_net_listen_fs (counting 7) 8080 [] = (Returns 3, t) /\ open_fds t = {[3]} /\
    fst <$> t = [mk_call 41 [Num 2; Num 1; Num 0]; mk_call 49 [Num 3; Bytes [2; 0; 31; 144; 127; 0; 0; 1; 0; 0; 0; 0; 0; 0; 0; 0]; Num 16]; mk_call 50 [Num 3; Num 128]]).
Proof.
  destruct (freestanding_sockets_exact (counting 7) []) as (Hl & _). destruct (Hl 8080) as [Hr [_ Ho]].
  eexists. split; [exact Hr|]. split; [|vm_compute; reflexivity]. rewrite Ho. change (open_fds []) with (∅ : gset Z). cbn. set_solver.
Defined.

Lemma freestanding_commands_exact_witness :
  (exists t, lpp_command_exec_fs (counting 7) (Some [108; 115]) [] = (Returns 3, t)) /\
  (exists t, lpp_command_output_fs (counting 7) (fun _ => true) [[104; 105]; [10]] (Some [108; 115]) [] = (Returns [104; 105; 10], t) /\ open_fds t = ∅).
Proof.
  destruct (freestanding_commands_exact (counting 7) [108; 115] []) as (_ & _ & He & Ho). split.
  - destruct (He ltac:(done)) as (v & t & Hr & _ & _ & _ & Hv & _). exists t. rewrite <- (Hv 3 ltac:(done) ltac:(done) ltac:(done)). exact Hr.
  - destruct (Ho (fun _ => true) [[104; 105]; [10]]) as [Hp _].
    + repeat constructor; try done; cbn; lia.
    + done.
    + destruct (Hp ltac:(done)) as (t & [[Hr Hopen]|[_ [n Hn]]]); [exists t; split; [exact Hr|exact Hopen]|discriminate Hn].
Defined.

(** With standard input and output closed the pipe gets descriptors 0 and 1, and the child closes the
    output it has just set up. *)
Example closed_stdout_loses_output :
  foldl table_step {[0 := PipeRead; 1 := PipeWrite]} [mk_call 33 [Num 1; Num 1]; mk_call 33 [Num 1; Num 2]; mk_call 3 [Num 0]; mk_call 3 [Num 1]] !! 1 = None.
Proof. vm_compute. reflexivity. Qed.
