(* ===== verification/Locks.v ===== *)
(** * Mutexes and read-write locks (runtime/lpp_concur.c)

    The runtime wraps the locks of the platform: [pthread_mutex_t] and [pthread_rwlock_t], or
    [CRITICAL_SECTION] and [SRWLOCK].  A handle is the address of such an object, 0 is accepted and does
    nothing.  The objects are parameters ([mutex_api], [rwlock_api]) with the behaviour their manuals
    promise ([MutexLaws], [RwLaws]): how often a thread holds the lock, and who may take and release it.
    A call by thread [t] gives the new state, or [None] while the thread has to wait.  A call on
    an object that does not exist, and one the manuals leave undefined, is [Undef]. *)

From stdpp Require Import gmap.
From S2P Require Import Prelude Concur.

(** ** The platform *)

Record mutex_api := {
  mutex : Type;
  m_init : mutex;
  m_enter : Z -> mutex -> option mutex;
  m_try : Z -> mutex -> Z * mutex;
  m_leave : Z -> mutex -> option mutex;
  m_destroy : mutex -> bool;
  m_holds : mutex -> Z -> nat
}.
(** [rw_unlock] is POSIX, [rw_release_shared] and [rw_release_exclusive] are Windows; the first two return an
    error number on POSIX. *)
Record rwlock_api := {
  rwlock : Type;
  rw_init : rwlock;
  rw_rd : Z -> rwlock -> option (Z * rwlock);
  rw_wr : Z -> rwlock -> option (Z * rwlock);
  rw_unlock : Z -> rwlock -> option rwlock;
  rw_release_shared : Z -> rwlock -> option rwlock;
  rw_release_exclusive : Z -> rwlock -> option rwlock;
  rw_destroy : rwlock -> bool;
  rw_reads : rwlock -> Z -> nat;
  rw_writes : rwlock -> Z -> nat
}.

(** What the try functions return when they got the lock: 0 on POSIX, a true value on Windows. *)
Definition taken (pl : platform) (r : Z) : bool := match pl with Posix => r =? 0 | Windows => negb (r =? 0) end.

(** [t] holds it once more (less), nothing else changes. *)
Definition one_more (t : Z) (n n' : Z -> nat) : Prop := forall u, n' u = (n u + if decide (u = t) then 1 else 0)%nat.
Definition one_less (t : Z) (n n' : Z -> nat) : Prop := (0 < n t)%nat /\ forall u, n' u = (n u - if decide (u = t) then 1 else 0)%nat.

Class MutexLaws (pl : platform) (a : mutex_api) : Prop := {
  init_free : forall u, m_holds a (m_init a) u = 0%nat;
  enter_takes : forall t l l', m_enter a t l = Some l' -> (forall u, (0 < m_holds a l u)%nat -> u = t) /\ one_more t (m_holds a l) (m_holds a l');
  enter_waits : forall t l, m_enter a t l = None -> exists u, (0 < m_holds a l u)%nat;
  try_takes : forall t l r l', m_try a t l = (r, l') ->
    if taken pl r then (forall u, (0 < m_holds a l u)%nat -> u = t) /\ one_more t (m_holds a l) (m_holds a l') else l' = l;
  leave_gives : forall t l l', m_leave a t l = Some l' -> one_less t (m_holds a l) (m_holds a l');
  holder_leaves : forall t l, (0 < m_holds a l t)%nat -> is_Some (m_leave a t l);
  destroy_idle : forall l, m_destroy a l = true <-> forall u, m_holds a l u = 0%nat;
  (** A critical section lets its owner in again. *)
  enter_again : forall t l, pl = Windows -> (0 < m_holds a l t)%nat -> is_Some (m_enter a t l)
}.

Class RwLaws (pl : platform) (a : rwlock_api) : Prop := {
  rw_init_free : forall u, rw_reads a (rw_init a) u = 0%nat /\ rw_writes a (rw_init a) u = 0%nat;
  rd_takes : forall t l r l', rw_rd a t l = Some (r, l') ->
    if r =? 0 then (forall u, rw_writes a l u = 0%nat) /\ one_more t (rw_reads a l) (rw_reads a l') /\ (forall u, rw_writes a l' u = rw_writes a l u)
    else l' = l;
  wr_takes : forall t l r l', rw_wr a t l = Some (r, l') ->
    if r =? 0 then (forall u, rw_writes a l u = 0%nat /\ rw_reads a l u = 0%nat) /\ one_more t (rw_writes a l) (rw_writes a l') /\ (forall u, rw_reads a l' u = rw_reads a l u)
    else l' = l;
  (** The one function of POSIX releases whichever lock the thread holds. *)
  unlock_gives : forall t l l', pl = Posix -> rw_unlock a t l = Some l' ->
    if decide (rw_writes a l t = 0%nat) then one_less t (rw_reads a l) (rw_reads a l') /\ (forall u, rw_writes a l' u = rw_writes a l u)
    else one_less t (rw_writes a l) (rw_writes a l') /\ (forall u, rw_reads a l' u = rw_reads a l u);
  shared_gives : forall t l l', pl = Windows -> rw_release_shared a t l = Some l' ->
    one_less t (rw_reads a l) (rw_reads a l') /\ (forall u, rw_writes a l' u = rw_writes a l u);
  exclusive_gives : forall t l l', pl = Windows -> rw_release_exclusive a t l = Some l' ->
    one_less t (rw_writes a l) (rw_writes a l') /\ (forall u, rw_reads a l' u = rw_reads a l u);
  rw_destroy_idle : forall l, rw_destroy a l = true <-> forall u, rw_reads a l u = 0%nat /\ rw_writes a l u = 0%nat
}.

(** ** The wrappers *)

Section locks.
Context (pl : platform) (ma : mutex_api) (ra : rwlock_api).

Record locks := mk_locks { mutexes : gmap Z (mutex ma); rwlocks : gmap Z (rwlock ra) }.
Definition set_mutex (w : locks) (h : Z) (l : mutex ma) : locks := mk_locks (<[h := l]> (mutexes w)) (rwlocks w).
Definition set_rwlock (w : locks) (h : Z) (l : rwlock ra) : locks := mk_locks (mutexes w) (<[h := l]> (rwlocks w)).

(** [addr]: what [malloc] returns. *)
Definition lpp_mutex_new (w : locks) (addr : option Z) : outcome (Z * locks) :=
  match addr with
  | None => Panic "out of memory in mutex_new"
  | Some p => Ok (p, set_mutex w p (m_init ma))
  end.
(** A default mutex of POSIX must not be locked by the thread that holds it. *)
Definition relocked (l : mutex ma) (t : Z) : bool := match pl with Posix => negb (Nat.eqb (m_holds ma l t) 0) | Windows => false end.
Definition lpp_mutex_lock (w : locks) (t handle : Z) : outcome (option locks) :=
  if handle =? 0 then Ok (Some w)
  else match mutexes w !! handle with
       | None => Undef
       | Some l => if relocked l t then Undef else Ok (set_mutex w handle <$> m_enter ma t l)
       end.
Definition lpp_mutex_trylock (w : locks) (t handle : Z) : outcome (Z * locks) :=
  if handle =? 0 then Ok (0, w)
  else match mutexes w !! handle with
       | None => Undef
       | Some l =>
           let '(r, l) := m_try ma t l in
           Ok (match pl with Posix => if r =? 0 then 1 else 0 | Windows => if r =? 0 then 0 else 1 end, set_mutex w handle l)
       end.
Definition lpp_mutex_unlock (w : locks) (t handle : Z) : outcome locks :=
  if handle =? 0 then Ok w
  else match mutexes w !! handle with
       | None => Undef
       | Some l => match m_leave ma t l with None => Undef | Some l => Ok (set_mutex w handle l) end
       end.
Definition lpp_mutex_free (w : locks) (handle : Z) : outcome locks :=
  if handle =? 0 then Ok w
  else match mutexes w !! handle with
       | None => Undef
       | Some l => if m_destroy ma l then Ok (mk_locks (delete handle (mutexes w)) (rwlocks w)) else Undef
       end.

Definition lpp_rwlock_new (w : locks) (addr : option Z) : outcome (Z * locks) :=
  match addr with
  | None => Panic "out of memory in rwlock_new"
  | Some p => Ok (p, set_rwlock w p (rw_init ra))
  end.
(** The error number is dropped. *)
Definition lpp_rwlock_rdlock (w : locks) (t handle : Z) : outcome (option locks) :=
  if handle =? 0 then Ok (Some w)
  else match rwlocks w !! handle with
       | None => Undef
       | Some l => Ok ((fun rl => set_rwlock w handle rl.2) <$> rw_rd ra t l)
       end.
Definition lpp_rwlock_wrlock (w : locks) (t handle : Z) : outcome (option locks) :=
  if handle =? 0 then Ok (Some w)
  else match rwlocks w !! handle with
       | None => Undef
       | Some l => Ok ((fun rl => set_rwlock w handle rl.2) <$> rw_wr ra t l)
       end.
Definition lpp_rwlock_rdunlock (w : locks) (t handle : Z) : outcome locks :=
  if handle =? 0 then Ok w
  else match rwlocks w !! handle with
       | None => Undef
       | Some l => match (match pl with Posix => rw_unlock ra | Windows => rw_release_shared ra end) t l with
                   | None => Undef | Some l => Ok (set_rwlock w handle l) end
       end.
Definition lpp_rwlock_wrunlock (w : locks) (t handle : Z) : outcome locks :=
  if handle =? 0 then Ok w
  else match rwlocks w !! handle with
       | None => Undef
       | Some l => match (match pl with Posix => rw_unlock ra | Windows => rw_release_exclusive ra end) t l with
                   | None => Undef | Some l => Ok (set_rwlock w handle l) end
       end.
(** Windows has nothing to destroy. *)
Definition lpp_rwlock_free (w : locks) (handle : Z) : outcome locks :=
  if handle =? 0 then Ok w
  else match rwlocks w !! handle with
       | None => Undef
       | Some l => if rw_destroy ra l then Ok (mk_locks (mutexes w) (delete handle (rwlocks w))) else Undef
       end.

(** ** Interleavings

    What the threads did so far: the calls that returned, in order. *)
Inductive did := Locked (t h : Z) | Unlocked (t h : Z) | Reading (t h : Z) | ReadDone (t h : Z) | Writing (t h : Z) | WriteDone (t h : Z) | Other_call.

#[local] Instance did_eq : EqDecision did.
Proof. solve_decision. Defined.

(** How often the calls [i] are ahead of the calls [o]. *)
Definition inside (i o : did) (log : list did) : nat :=
  foldl (fun n e => if decide (e = i) then S n else if decide (e = o) then pred n else n) 0%nat log.
Definition m_inside (log : list did) (t h : Z) : nat := inside (Locked t h) (Unlocked t h) log.
Definition r_inside (log : list did) (t h : Z) : nat := inside (Reading t h) (ReadDone t h) log.
Definition w_inside (log : list did) (t h : Z) : nat := inside (Writing t h) (WriteDone t h) log.

(** [strict]: a call of [lpp_rwlock_rdlock] or [lpp_rwlock_wrlock] met no error of the platform; a thread ends
    what it began: it unlocks for reading what it locked for reading. *)
Definition no_error (r : option (Z * rwlock ra)) : Prop := match r with Some (e, _) => e = 0 | None => True end.
Definition strict (w : locks) (h : Z) (f : rwlock ra -> option (Z * rwlock ra)) : Prop := forall l, rwlocks w !! h = Some l -> no_error (f l).

Inductive lstep : locks * list did -> locks * list did -> Prop :=
| l_new w w' log p : p <> 0 -> mutexes w !! p = None -> rwlocks w !! p = None -> lpp_mutex_new w (Some p) = Ok (p, w') ->
    lstep (w, log) (w', log ++ [Other_call])
| l_lock w w' log t h : lpp_mutex_lock w t h = Ok (Some w') -> lstep (w, log) (w', log ++ [Locked t h])
| l_try w w' log t h r : lpp_mutex_trylock w t h = Ok (r, w') -> lstep (w, log) (w', log ++ [if r =? 1 then Locked t h else Other_call])
| l_unlock w w' log t h : lpp_mutex_unlock w t h = Ok w' -> lstep (w, log) (w', log ++ [Unlocked t h])
| l_free w w' log h : lpp_mutex_free w h = Ok w' -> lstep (w, log) (w', log ++ [Other_call])
| l_rwnew w w' log p : p <> 0 -> mutexes w !! p = None -> rwlocks w !! p = None -> lpp_rwlock_new w (Some p) = Ok (p, w') ->
    lstep (w, log) (w', log ++ [Other_call])
| l_rd w w' log t h : strict w h (rw_rd ra t) -> lpp_rwlock_rdlock w t h = Ok (Some w') -> lstep (w, log) (w', log ++ [Reading t h])
| l_wr w w' log t h : strict w h (rw_wr ra t) -> lpp_rwlock_wrlock w t h = Ok (Some w') -> lstep (w, log) (w', log ++ [Writing t h])
| l_rdun w w' log t h : h = 0 \/ (0 < r_inside log t h)%nat -> lpp_rwlock_rdunlock w t h = Ok w' -> lstep (w, log) (w', log ++ [ReadDone t h])
| l_wrun w w' log t h : h = 0 \/ (0 < w_inside log t h)%nat -> lpp_rwlock_wrunlock w t h = Ok w' -> lstep (w, log) (w', log ++ [WriteDone t h])
| l_rwfree w w' log h : lpp_rwlock_free w h = Ok w' -> lstep (w, log) (w', log ++ [Other_call]).

Definition locks0 : locks := mk_locks ∅ ∅.

(** ** The invariant *)

(** The object behind a handle agrees with the calls that were made. *)
Definition tracks {L} (o : option L) (n : L -> Z -> nat) (c : Z -> nat) : Prop :=
  match o with Some l => forall t, n l t = c t | None => forall t, c t = 0%nat end.

Record locks_ok (w : locks) (log : list did) : Prop := {
  ok_mutex : forall h, h <> 0 -> tracks (mutexes w !! h) (m_holds ma) (fun t => m_inside log t h);
  ok_reads : forall h, h <> 0 -> tracks (rwlocks w !! h) (rw_reads ra) (fun t => r_inside log t h);
  ok_writes : forall h, h <> 0 -> tracks (rwlocks w !! h) (rw_writes ra) (fun t => w_inside log t h);
  ok_one : forall h t u, h <> 0 -> (0 < m_inside log t h)%nat -> (0 < m_inside log u h)%nat -> t = u;
  ok_writer : forall h t u, h <> 0 -> (0 < w_inside log t h)%nat ->
    w_inside log t h = 1%nat /\ ((0 < w_inside log u h)%nat -> t = u) /\ r_inside log u h = 0%nat
}.

Lemma inside_snoc i o log e : inside i o (log ++ [e]) =
  if decide (e = i) then S (inside i o log) else if decide (e = o) then pred (inside i o log) else inside i o log.
Proof. unfold inside. by rewrite foldl_app. Qed.
Lemma inside_same i o log e : e <> i -> e <> o -> inside i o (log ++ [e]) = inside i o log.
Proof. intros. rewrite inside_snoc. by rewrite !decide_False. Qed.

Lemma locks0_ok : locks_ok locks0 [].
Proof.
  split; intros h; [intros _; unfold tracks; cbn [locks0 mutexes rwlocks]; by rewrite lookup_empty..| |]; intros t u _ Ht;
    unfold m_inside, w_inside, inside in Ht; simpl in Ht; lia.
Qed.

Section invariant.
Context `{!MutexLaws pl ma, !RwLaws pl ra}.

(** A call on one mutex. *)
Lemma mutex_step w log h l l' t (e : did) : locks_ok w log -> h <> 0 -> mutexes w !! h = Some l ->
  (e = Locked t h /\ (forall u, (0 < m_holds ma l u)%nat -> u = t) /\ one_more t (m_holds ma l) (m_holds ma l')) \/
  (e = Unlocked t h /\ one_less t (m_holds ma l) (m_holds ma l')) ->
  locks_ok (set_mutex w h l') (log ++ [e]).
Proof.
  intros [Hm Hr Hw Ho Hx] Hh Hl He.
  assert (Hhl : forall u, m_holds ma l u = m_inside log u h) by (intros u; specialize (Hm h Hh); by rewrite Hl in Hm).
  assert (Hnew : forall u, m_holds ma l' u = m_inside (log ++ [e]) u h).
  { intros u. unfold m_inside in *. rewrite inside_snoc, <- Hhl. destruct He as [(-> & _ & Hm')|(-> & _ & Hm')]; rewrite Hm'; clear Hm'.
    - destruct (decide (u = t)) as [->|]; [rewrite decide_True by done; lia|]. rewrite !decide_False by congruence. lia.
    - rewrite (decide_False (P := Unlocked t h = Locked u h)) by done. destruct (decide (u = t)) as [->|]; [rewrite decide_True by done; lia|].
      rewrite decide_False by congruence. lia. }
  assert (Hother : forall h' u, h' <> h -> m_inside (log ++ [e]) u h' = m_inside log u h').
  { intros h' u Hne. unfold m_inside. apply inside_same; destruct He as [[-> _]|[-> _]]; congruence. }
  assert (forall h' u, r_inside (log ++ [e]) u h' = r_inside log u h' /\ w_inside (log ++ [e]) u h' = w_inside log u h') as Hrw.
  { intros h' u. unfold r_inside, w_inside. destruct He as [[-> _]|[-> _]]; split; by apply inside_same. }
  split; cbn [mutexes rwlocks set_mutex].
  - intros h' Hh'. destruct (decide (h' = h)) as [->|Hne]; [by rewrite lookup_insert_eq|]. rewrite lookup_insert_ne by done.
    specialize (Hm h' Hh'). unfold tracks in *. case_match; intros u; rewrite Hother by done; apply Hm.
  - intros h' Hh'. specialize (Hr h' Hh'). unfold tracks in *. case_match; intros u; rewrite (proj1 (Hrw h' u)); apply Hr.
  - intros h' Hh'. specialize (Hw h' Hh'). unfold tracks in *. case_match; intros u; rewrite (proj2 (Hrw h' u)); apply Hw.
  - intros h' u v Hh'. destruct (decide (h' = h)) as [->|Hne]; [|rewrite !Hother by done; by apply Ho].
    rewrite <- !Hnew. destruct He as [(_ & Hfree & Hm')|(_ & _ & Hm')]; rewrite !Hm'.
    + intros Hu Hv. assert (forall x, (0 < m_holds ma l x + (if decide (x = t) then 1 else 0))%nat -> x = t) as Ht.
      { intros x Hx'. destruct (decide (x = t)); [done|]. apply Hfree. lia. }
      by rewrite (Ht u Hu), (Ht v Hv).
    + intros Hu Hv. apply (Ho h); [done| |]; rewrite <- Hhl; lia.
  - intros h' u v Hh'. rewrite (proj1 (Hrw h' v)), !(proj2 (Hrw h' _)). by apply Hx.
Qed.

(** A call on one read-write lock. *)
Lemma rwlock_step w log h l l' t (e : did) : locks_ok w log -> h <> 0 -> rwlocks w !! h = Some l ->
  (e = Reading t h /\ (forall u, rw_writes ra l u = 0%nat) /\ one_more t (rw_reads ra l) (rw_reads ra l') /\ (forall u, rw_writes ra l' u = rw_writes ra l u)) \/
  (e = Writing t h /\ (forall u, rw_writes ra l u = 0%nat /\ rw_reads ra l u = 0%nat) /\ one_more t (rw_writes ra l) (rw_writes ra l') /\ (forall u, rw_reads ra l' u = rw_reads ra l u)) \/
  (e = ReadDone t h /\ one_less t (rw_reads ra l) (rw_reads ra l') /\ (forall u, rw_writes ra l' u = rw_writes ra l u)) \/
  (e = WriteDone t h /\ one_less t (rw_writes ra l) (rw_writes ra l') /\ (forall u, rw_reads ra l' u = rw_reads ra l u)) ->
  locks_ok (set_rwlock w h l') (log ++ [e]).
Proof.
  intros [Hm Hr Hw Ho Hx] Hh Hl He.
  assert (Hrl : forall u, rw_reads ra l u = r_inside log u h) by (intros u; specialize (Hr h Hh); by rewrite Hl in Hr).
  assert (Hwl : forall u, rw_writes ra l u = w_inside log u h) by (intros u; specialize (Hw h Hh); by rewrite Hl in Hw).
  assert (Hnew : forall u, rw_reads ra l' u = r_inside (log ++ [e]) u h /\ rw_writes ra l' u = w_inside (log ++ [e]) u h).
  { intros u. unfold r_inside, w_inside in *. rewrite !inside_snoc, <- Hrl, <- Hwl.
    destruct He as [(-> & _ & H1 & H2)|[(-> & _ & H1 & H2)|[(-> & [_ H1] & H2)|(-> & [_ H1] & H2)]]]; rewrite H1, H2.
    - rewrite (decide_False (P := Reading t h = Writing u h)), (decide_False (P := Reading t h = WriteDone u h)) by done. split; [|done].
      destruct (decide (u = t)) as [->|]; [rewrite decide_True by done; lia|]. rewrite !decide_False by congruence. lia.
    - rewrite (decide_False (P := Writing t h = Reading u h)), (decide_False (P := Writing t h = ReadDone u h)) by done. split; [done|].
      destruct (decide (u = t)) as [->|]; [rewrite decide_True by done; lia|]. rewrite !decide_False by congruence. lia.
    - rewrite (decide_False (P := ReadDone t h = Writing u h)), (decide_False (P := ReadDone t h = WriteDone u h)), (decide_False (P := ReadDone t h = Reading u h)) by done.
      split; [|done]. destruct (decide (u = t)) as [->|]; [rewrite decide_True by done; lia|]. rewrite decide_False by congruence. lia.
    - rewrite (decide_False (P := WriteDone t h = Reading u h)), (decide_False (P := WriteDone t h = ReadDone u h)), (decide_False (P := WriteDone t h = Writing u h)) by done.
      split; [done|]. destruct (decide (u = t)) as [->|]; [rewrite decide_True by done; lia|]. rewrite decide_False by congruence. lia. }
  assert (Hother : forall h' u, h' <> h -> r_inside (log ++ [e]) u h' = r_inside log u h' /\ w_inside (log ++ [e]) u h' = w_inside log u h').
  { intros h' u Hne. unfold r_inside, w_inside. destruct He as [[-> _]|[[-> _]|[[-> _]|[-> _]]]]; split; apply inside_same; congruence. }
  assert (Hmu : forall h' u, m_inside (log ++ [e]) u h' = m_inside log u h').
  { intros h' u. unfold m_inside. destruct He as [[-> _]|[[-> _]|[[-> _]|[-> _]]]]; by apply inside_same. }
  split; cbn [mutexes rwlocks set_rwlock].
  - intros h' Hh'. specialize (Hm h' Hh'). unfold tracks in *. case_match; intros u; rewrite Hmu; apply Hm.
  - intros h' Hh'. destruct (decide (h' = h)) as [->|Hne]; [rewrite lookup_insert_eq; intros u; apply Hnew|]. rewrite lookup_insert_ne by done.
    specialize (Hr h' Hh'). unfold tracks in *. case_match; intros u; rewrite (proj1 (Hother h' u Hne)); apply Hr.
  - intros h' Hh'. destruct (decide (h' = h)) as [->|Hne]; [rewrite lookup_insert_eq; intros u; apply Hnew|]. rewrite lookup_insert_ne by done.
    specialize (Hw h' Hh'). unfold tracks in *. case_match; intros u; rewrite (proj2 (Hother h' u Hne)); apply Hw.
  - intros h' u v. rewrite !Hmu. apply Ho.
  - intros h' u v Hh'. destruct (decide (h' = h)) as [->|Hne]; [|rewrite (proj1 (Hother h' v Hne)), !(proj2 (Hother h' _ Hne)); by apply Hx].
    rewrite <- !(proj2 (Hnew _)), <- (proj1 (Hnew v)). specialize (Hx h u v Hh). rewrite <- !Hwl, <- Hrl in Hx.
    destruct He as [(-> & H0 & H1 & H2)|[(-> & H0 & H1 & H2)|[(-> & [_ H1] & H2)|(-> & [_ H1] & H2)]]]; rewrite ?H1, ?H2 in *.
    + rewrite !H0. lia.
    + destruct (H0 u) as [-> _], (H0 v) as [-> ->]. destruct (decide (u = t)), (decide (v = t)); subst; lia.
    + intros Hu. destruct (Hx Hu) as (? & ? & ?). split_and!; [done|done|lia].
    + intros Hu. destruct (decide (u = t)) as [->|].
      * exfalso. destruct Hx as (? & _); lia.
      * destruct Hx as (? & Hv & ?); [lia|]. split_and!; [lia| |done]. intros Hv'. apply Hv. lia.
Qed.
(** The counts of a real handle do not see a call on handle 0. *)
Definition null_call (e : did) : Prop :=
  match e with Locked _ h | Unlocked _ h | Reading _ h | ReadDone _ h | Writing _ h | WriteDone _ h => h = 0 | Other_call => True end.
Lemma null_counts log e t h : null_call e -> h <> 0 ->
  m_inside (log ++ [e]) t h = m_inside log t h /\ r_inside (log ++ [e]) t h = r_inside log t h /\ w_inside (log ++ [e]) t h = w_inside log t h.
Proof. intros He Hh. unfold m_inside, r_inside, w_inside. split_and!; apply inside_same; intros ->; simpl in He; congruence. Qed.

Lemma null_step w log e : locks_ok w log -> null_call e -> locks_ok w (log ++ [e]).
Proof.
  intros [Hm Hr Hw Ho Hx] He. split.
  - intros h Hh. specialize (Hm h Hh). unfold tracks in *. case_match; intros t; by rewrite (proj1 (null_counts log e t h He Hh)).
  - intros h Hh. specialize (Hr h Hh). unfold tracks in *. case_match; intros t; by rewrite (proj1 (proj2 (null_counts log e t h He Hh))).
  - intros h Hh. specialize (Hw h Hh). unfold tracks in *. case_match; intros t; by rewrite (proj2 (proj2 (null_counts log e t h He Hh))).
  - intros h t u Hh. rewrite !(proj1 (null_counts log e _ h He Hh)). by apply Ho.
  - intros h t u Hh. rewrite !(proj2 (proj2 (null_counts log e _ h He Hh))), (proj1 (proj2 (null_counts log e u h He Hh))). by apply Hx.
Qed.

(** An object that nobody holds comes or goes. *)
Lemma mutex_swap w log p o : locks_ok w log -> p <> 0 ->
  (forall u, match mutexes w !! p with Some l => m_holds ma l u = 0%nat | None => True end) ->
  (forall u, match o with Some l => m_holds ma l u = 0%nat | None => True end) ->
  locks_ok (mk_locks (partial_alter (fun _ => o) p (mutexes w)) (rwlocks w)) log.
Proof.
  intros [Hm Hr Hw Ho Hx] Hp Hold Hnew. split; try done. intros h Hh. cbn [mutexes].
  destruct (decide (h = p)) as [->|]; [|rewrite lookup_partial_alter_ne by done; by apply Hm]. rewrite lookup_partial_alter_eq.
  specialize (Hm p Hp). unfold tracks in *. assert (forall t, m_inside log t p = 0%nat) as H0.
  { intros t. specialize (Hold t). destruct (mutexes w !! p); [by rewrite <- Hm|apply Hm]. }
  destruct o; intros t; rewrite H0; [apply Hnew|done].
Qed.
Lemma rwlock_swap w log p o : locks_ok w log -> p <> 0 ->
  (forall u, match rwlocks w !! p with Some l => rw_reads ra l u = 0%nat /\ rw_writes ra l u = 0%nat | None => True end) ->
  (forall u, match o with Some l => rw_reads ra l u = 0%nat /\ rw_writes ra l u = 0%nat | None => True end) ->
  locks_ok (mk_locks (mutexes w) (partial_alter (fun _ => o) p (rwlocks w))) log.
Proof.
  intros [Hm Hr Hw Ho Hx] Hp Hold Hnew. split; try done; intros h Hh; cbn [rwlocks].
  all: destruct (decide (h = p)) as [->|]; [|rewrite lookup_partial_alter_ne by done; by (apply Hr || apply Hw)]; rewrite lookup_partial_alter_eq.
  all: specialize (Hr p Hp); specialize (Hw p Hp); unfold tracks in *.
  all: assert (forall t, r_inside log t p = 0%nat /\ w_inside log t p = 0%nat) as H0
    by (intros t; specialize (Hold t); destruct (rwlocks w !! p); [rewrite <- Hr, <- Hw; apply Hold|split; [apply Hr|apply Hw]]).
  all: destruct o; intros t; [rewrite ?(proj1 (H0 t)), ?(proj2 (H0 t)); apply Hnew|apply H0].
Qed.

(** Opens the object behind a handle that is not 0. *)
Ltac at_handle Hs h := destruct (Z.eqb_spec h 0) as [Hz|]; [apply null_step; by simplify_eq|]; case_match; [|done].

Lemma step_ok w log w' log' : locks_ok w log -> lstep (w, log) (w', log') -> locks_ok w' log'.
Proof.
  intros Hi Hs. inversion Hs as [? ? ? p Hp Hmn Hrn Hc|? ? ? t h Hc|? ? ? t h r Hc|? ? ? t h Hc|? ? ? h Hc|? ? ? p Hp Hmn Hrn Hc|
    ? ? ? t h Hst Hc|? ? ? t h Hst Hc|? ? ? t h Hin Hc|? ? ? t h Hin Hc|? ? ? h Hc]; subst; clear Hs.
  - unfold lpp_mutex_new in Hc. simplify_eq. apply null_step; [|done]. unfold set_mutex, insert, map_insert.
    apply mutex_swap; [done|done|by rewrite Hmn|]. intros u. apply init_free.
  - unfold lpp_mutex_lock in Hc. at_handle Hc h. destruct (relocked _ _); [done|]. destruct (m_enter _ _ _) as [l'|] eqn:He; simplify_eq/=.
    eapply mutex_step; [done|done|done|]. left. split; [done|]. by apply enter_takes.
  - unfold lpp_mutex_trylock in Hc. at_handle Hc h. destruct (m_try _ _ _) as [r' l'] eqn:He. simplify_eq/=.
    apply try_takes in He. unfold taken in He.
    destruct pl, (r' =? 0); cbn in He |- *; subst; try (eapply mutex_step; [done|done|done|]; left; by split).
    all: apply null_step; [|done]; unfold set_mutex; rewrite insert_id by done; by destruct w.
  - unfold lpp_mutex_unlock in Hc. at_handle Hc h. destruct (m_leave _ _ _) as [l'|] eqn:He; simplify_eq/=.
    eapply mutex_step; [done|done|done|]. right. split; [done|]. by eapply leave_gives.
  - unfold lpp_mutex_free in Hc. at_handle Hc h. destruct (m_destroy _ _) eqn:Hd; simplify_eq. apply null_step; [|done].
    apply mutex_swap; [done|done| |done]. intros u. rewrite H. by apply destroy_idle.
  - unfold lpp_rwlock_new in Hc. simplify_eq. apply null_step; [|done]. unfold set_rwlock, insert, map_insert.
    apply rwlock_swap; [done|done|by rewrite Hrn|]. intros u. apply rw_init_free.
  - unfold lpp_rwlock_rdlock in Hc. at_handle Hc h. destruct (rw_rd _ _ _) as [[e l']|] eqn:He; simplify_eq/=.
    specialize (Hst _ H). rewrite He in Hst. simpl in Hst. subst e. apply rd_takes in He. cbn in He.
    eapply rwlock_step; [done|done|done|]. by left.
  - unfold lpp_rwlock_wrlock in Hc. at_handle Hc h. destruct (rw_wr _ _ _) as [[e l']|] eqn:He; simplify_eq/=.
    specialize (Hst _ H). rewrite He in Hst. simpl in Hst. subst e. apply wr_takes in He. cbn in He.
    eapply rwlock_step; [done|done|done|]. by right; left.
  - unfold lpp_rwlock_rdunlock in Hc. at_handle Hc h. destruct Hin as [|Hin]; [done|].
    case_match eqn:He; simplify_eq. eapply rwlock_step; [done|done|done|]. right; right; left. split; [done|].
    destruct pl eqn:Hpl; [|by eapply shared_gives]. eapply unlock_gives in He; [|done].
    rewrite decide_True in He; [done|]. pose proof (ok_writer _ _ Hi h t t) as Hx. pose proof (ok_writes _ _ Hi h ltac:(done)) as Hw. rewrite H in Hw.
    rewrite Hw. destruct (decide (w_inside log t h = 0%nat)); [done|]. destruct Hx as (_ & _ & Hx); [done|lia|lia].
  - unfold lpp_rwlock_wrunlock in Hc. at_handle Hc h. destruct Hin as [|Hin]; [done|].
    case_match eqn:He; simplify_eq. eapply rwlock_step; [done|done|done|]. right; right; right. split; [done|].
    destruct pl eqn:Hpl; [|by eapply exclusive_gives]. eapply unlock_gives in He; [|done].
    rewrite decide_False in He; [done|]. pose proof (ok_writes _ _ Hi h ltac:(done)) as Hw. rewrite H in Hw. rewrite Hw. lia.
  - unfold lpp_rwlock_free in Hc. at_handle Hc h. destruct (rw_destroy _ _) eqn:Hd; simplify_eq. apply null_step; [|done].
    apply rwlock_swap; [done|done| |done]. intros u. rewrite H. by apply rw_destroy_idle.
Qed.

Lemma reach_ok w log : rtc lstep (locks0, []) (w, log) -> locks_ok w log.
Proof.
  set (P := fun s : locks * list did => locks_ok s.1 s.2). intros Hr. change (P (w, log)). revert Hr. generalize (w, log).
  apply (rtc_ind_r P); [apply locks0_ok|]. intros [w1 log1] [w2 log2] _ Hs Hi. by eapply step_ok.
Qed.
End invariant.
End locks.

(** ** Theorems *)

(** Mutual exclusion under every interleaving of the calls, on both platforms: between the return of
    [lpp_mutex_lock] (or of a [lpp_mutex_trylock] that returned 1) and the matching unlock no other thread
    is inside; a writer of a read-write lock is alone, as long as the platform reports no error and each thread
    unlocks for reading (writing) what it locked for reading (writing).  A thread waits for a
    mutex only while a thread holds it, the holder can always leave, and a mutex that is freed is held by nobody.
    Locking it again lets the holder in on Windows and is undefined on POSIX.  All of it is what the
    platform promises of its locks ([MutexLaws], [RwLaws]); the wrappers add the handles and null. *)
Theorem locks_exclude pl ma ra `{!MutexLaws pl ma, !RwLaws pl ra} w log h : rtc (lstep pl ma ra) (locks0 ma ra, []) (w, log) -> h <> 0 ->
  (forall t u, (0 < m_inside log t h)%nat -> (0 < m_inside log u h)%nat -> t = u) /\
  (forall t u, (0 < w_inside log t h)%nat -> w_inside log t h = 1%nat /\ ((0 < w_inside log u h)%nat -> t = u) /\ r_inside log u h = 0%nat) /\
  (forall t, lpp_mutex_lock pl ma ra w t h = Ok None -> exists u, (0 < m_inside log u h)%nat) /\
  (forall t, (0 < m_inside log t h)%nat ->
     (exists w', lpp_mutex_unlock ma ra w t h = Ok w') /\
     match pl with Posix => lpp_mutex_lock pl ma ra w t h = Undef | Windows => exists w', lpp_mutex_lock pl ma ra w t h = Ok (Some w') end) /\
  (forall w', lpp_mutex_free ma ra w h = Ok w' -> mutexes ma ra w' !! h = None /\ forall t, m_inside log t h = 0%nat).
Proof.
  intros Hr Hh. pose proof (reach_ok pl ma ra w log Hr) as [Hm _ _ Ho Hx]. specialize (Hm h Hh). unfold tracks in Hm.
  split_and!.
  - intros t u. by apply Ho.
  - intros t u. by apply Hx.
  - intros t. unfold lpp_mutex_lock. rewrite (proj2 (Z.eqb_neq _ _)) by done. case_match; [|done]. intros He.
    destruct (relocked _ _ _ _); [done|]. destruct (m_enter ma t _) eqn:Hen; [done|]. apply enter_waits in Hen as [u Hu]. exists u. by rewrite <- Hm.
  - intros t Ht. unfold lpp_mutex_unlock, lpp_mutex_lock. rewrite (proj2 (Z.eqb_neq _ _)) by done.
    destruct (mutexes ma ra w !! h) as [l|]; [|rewrite Hm in Ht; lia]. rewrite <- Hm in Ht. split.
    + destruct (holder_leaves t l Ht) as [l' ->]. by eexists.
    + destruct pl; unfold relocked; [rewrite (proj2 (Nat.eqb_neq _ _)) by lia; done|]. destruct (enter_again t l eq_refl Ht) as [l' ->]. by eexists.
  - intros w'. unfold lpp_mutex_free. rewrite (proj2 (Z.eqb_neq _ _)) by done. destruct (mutexes ma ra w !! h) as [l|]; [|done].
    destruct (m_destroy ma l) eqn:Hd; [|done]. intros [= <-]. split; [apply lookup_delete_eq|].
    intros t. rewrite <- Hm. by apply destroy_idle.
Qed.

(** ** Locks as the manuals describe them *)

Definition os_enter (pl : platform) (t : Z) (l : option (Z * nat)) : option (option (Z * nat)) :=
  match l, pl with
  | None, _ => Some (Some (t, 0%nat))
  | Some (u, n), Windows => if u =? t then Some (Some (t, S n)) else None
  | Some _, Posix => None
  end.
Definition os_mutex (pl : platform) : mutex_api := {|
  mutex := option (Z * nat);
  m_init := None;
  m_enter := os_enter pl;
  m_try := fun t l => match os_enter pl t l, pl with
                      | Some l', Posix => (0, l') | Some l', Windows => (1, l') | None, Posix => (16, l) | None, Windows => (0, l) end;
  m_leave := fun t l => match l with
                        | Some (u, n) => if u =? t then Some (match n with O => None | S n => Some (t, n) end) else None
                        | None => None end;
  m_destroy := fun l => match l with None => true | Some _ => false end;
  m_holds := fun l t => match l with Some (u, n) => if u =? t then S n else 0%nat | None => 0%nat end
|}.

Definition EDEADLK : Z := 35.
Fixpoint occurs (t : Z) (l : list Z) : nat := match l with [] => 0%nat | u :: l => ((if decide (t = u) then 1 else 0) + occurs t l)%nat end.
Fixpoint remove_first (t : Z) (l : list Z) : option (list Z) :=
  match l with [] => None | u :: l => if u =? t then Some l else (u ::.) <$> remove_first t l end.
Definition shared_off (t : Z) (l : list Z * option Z) : option (list Z * option Z) := (fun rs => (rs, l.2)) <$> remove_first t l.1.
Definition exclusive_off (t : Z) (l : list Z * option Z) : option (list Z * option Z) :=
  match l.2 with Some u => if u =? t then Some (l.1, None) else None | None => None end.
Definition os_rwlock (pl : platform) : rwlock_api := {|
  rwlock := list Z * option Z;
  rw_init := ([], None);
  rw_rd := fun t l => match l.2, pl with
                      | None, _ => Some (0, (t :: l.1, None))
                      | Some u, Posix => if u =? t then Some (EDEADLK, l) else None
                      | Some _, Windows => None end;
  rw_wr := fun t l => match l, pl with
                      | ([], None), _ => Some (0, ([], Some t))
                      | (_, Some u), Posix => if u =? t then Some (EDEADLK, l) else None
                      | _, _ => None end;
  rw_unlock := fun t l => match exclusive_off t l with Some l' => Some l' | None => shared_off t l end;
  rw_release_shared := shared_off;
  rw_release_exclusive := exclusive_off;
  rw_destroy := fun l => match l with ([], None) => true | _ => false end;
  rw_reads := fun l t => occurs t l.1;
  rw_writes := fun l t => match l.2 with Some u => if decide (t = u) then 1%nat else 0%nat | None => 0%nat end
|}.

Lemma os_enter_takes pl t (l l' : option (Z * nat)) : os_enter pl t l = Some l' ->
  (forall u, (0 < m_holds (os_mutex pl) l u)%nat -> u = t) /\ one_more t (m_holds (os_mutex pl) l) (m_holds (os_mutex pl) l').
Proof.
  unfold os_enter, one_more. cbn [m_holds os_mutex]. destruct l as [[v n]|]; destruct pl; intros He; try done; simplify_eq/=.
  - destruct (Z.eqb_spec v t); [|done]. simplify_eq. split; intros u; destruct (Z.eqb_spec t u), (decide (u = t)); try lia.
  - split; [lia|]. intros u. destruct (Z.eqb_spec t u), (decide (u = t)); lia.
  - split; [lia|]. intros u. destruct (Z.eqb_spec t u), (decide (u = t)); lia.
Qed.

#[export] Instance os_mutex_laws pl : MutexLaws pl (os_mutex pl).
Proof.
  split.
  - done.
  - apply os_enter_takes.
  - intros t [[v n]|] He; [|by destruct pl]. exists v. cbn. rewrite Z.eqb_refl. lia.
  - intros t l r l'. cbn [m_try os_mutex]. destruct (os_enter pl t l) as [x|] eqn:He; destruct pl; intros [= <- <-]; cbn [taken Z.eqb negb];
      try done; by apply os_enter_takes.
  - intros t [[v n]|] l' He; [|done]. cbn [m_leave os_mutex] in He. destruct (Z.eqb_spec v t) as [->|]; [|done]. simplify_eq.
    unfold one_less. cbn [m_holds os_mutex]. rewrite Z.eqb_refl. split; [lia|]. intros u.
    destruct n; destruct (Z.eqb_spec t u), (decide (u = t)); lia.
  - intros t [[v n]|]; cbn; [|lia]. destruct (Z.eqb_spec v t); [by eexists|lia].
  - intros [[v n]|]; cbn; split; try done. intros H. specialize (H v). rewrite Z.eqb_refl in H. done.
  - intros t [[v n]|] ->; cbn; [|lia]. destruct (Z.eqb_spec v t) as [->|]; [|lia]. by eexists.
Qed.

Lemma occurs_remove t l l' : remove_first t l = Some l' -> one_less t (fun u => occurs u l) (fun u => occurs u l').
Proof.
  revert l'. induction l as [|v l IH]; intros l' He; [done|]. cbn in He. unfold one_less. destruct (Z.eqb_spec v t) as [->|].
  - simplify_eq. split; [cbn; rewrite decide_True by done; lia|]. intros u. cbn. lia.
  - destruct (remove_first t l) as [r|]; simplify_eq/=. destruct (IH r eq_refl) as [H1 H2]. rewrite (decide_False (P := t = v)) by congruence.
    split; [lia|]. intros u. rewrite H2. destruct (decide (u = t)) as [->|]; [|lia]. rewrite decide_False by congruence. lia.
Qed.

Lemma shared_off_ok t l l' pl : shared_off t l = Some l' ->
  one_less t (rw_reads (os_rwlock pl) l) (rw_reads (os_rwlock pl) l') /\ (forall u, rw_writes (os_rwlock pl) l' u = rw_writes (os_rwlock pl) l u).
Proof.
  unfold shared_off. destruct (remove_first t l.1) as [rs|] eqn:Hr; [|done]. intros [= <-]. split; [|done]. by apply occurs_remove.
Qed.
Lemma exclusive_off_ok t l l' pl : exclusive_off t l = Some l' ->
  one_less t (rw_writes (os_rwlock pl) l) (rw_writes (os_rwlock pl) l') /\ (forall u, rw_reads (os_rwlock pl) l' u = rw_reads (os_rwlock pl) l u).
Proof.
  unfold exclusive_off. destruct l as [rs [v|]]; cbn; [|done]. destruct (Z.eqb_spec v t) as [->|]; [|done]. intros [= <-].
  split; [|done]. split; [cbn; rewrite decide_True by done; lia|]. intros u. cbn. destruct (decide (u = t)); lia.
Qed.

#[export] Instance os_rwlock_laws pl : RwLaws pl (os_rwlock pl).
Proof.
  split.
  - done.
  - intros t [rs [v|]] r l'; cbn [rw_rd os_rwlock snd fst].
    + destruct pl; [|done]. destruct (v =? t); [|done]. by intros [= <- <-].
    + destruct pl; intros [= <- <-]; cbn; split_and!; try done; intros u; cbn; destruct (decide (u = t)); lia.
  - intros t [[|v rs] [x|]] r l'; cbn [rw_wr os_rwlock snd fst].
    + destruct pl; [|done]. destruct (x =? t); [|done]. by intros [= <- <-].
    + destruct pl; intros [= <- <-]; cbn; split_and!; try done; intros u; cbn; destruct (decide (u = t)); lia.
    + destruct pl; [|done]. destruct (x =? t); [|done]. by intros [= <- <-].
    + by destruct pl.
  - intros t l l' _. cbn [rw_unlock os_rwlock]. destruct (exclusive_off t l) as [x|] eqn:He.
    + intros [= <-]. apply (exclusive_off_ok _ _ _ pl) in He as He'. rewrite decide_False; [done|]. destruct He' as [[? _] _]. lia.
    + intros Hs. rewrite decide_True; [by apply shared_off_ok|]. unfold exclusive_off in He. destruct l as [rs [v|]]; cbn in He |- *; [|done].
      destruct (Z.eqb_spec v t); [done|]. by rewrite decide_False by congruence.
  - intros t l l' _. apply shared_off_ok.
  - intros t l l' _. apply exclusive_off_ok.
  - intros [[|v rs] [x|]]; cbn; split; try done; intros H.
    + specialize (H x). rewrite decide_True in H by done. lia.
    + specialize (H x). rewrite (decide_True (P := x = x)) in H by done. lia.
    + specialize (H v). rewrite decide_True in H by done. lia.
Qed.

(** Thread 1 takes the mutex at 7, thread 2 tries in vain. *)
Definition demo_locks : outcome (locks (os_mutex Posix) (os_rwlock Posix)) :=
  let! '(p, w) := lpp_mutex_new _ _ (locks0 _ _) (Some 7) in
  let! o := lpp_mutex_lock Posix _ _ w 1 p in
  match o with
  | None => NoFuel
  | Some w => let! '(r, w) := lpp_mutex_trylock Posix _ _ w 2 p in if r =? 0 then Ok w else Undef
  end.

Lemma locks_exclude_witness : exists w log, demo_locks = Ok w /\ log = [Other_call; Locked 1 7; Other_call] /\
  lpp_mutex_lock Posix _ _ w 1 7 = Undef /\ (forall u, (0 < m_inside log u 7)%nat -> 1 = u).
Proof.
  destruct demo_locks as [w| | |] eqn:Hd; [|vm_compute in Hd; done..].
  exists w, [Other_call; Locked 1 7; Other_call].
  assert (rtc (lstep Posix (os_mutex Posix) (os_rwlock Posix)) (locks0 _ _, []) (w, [Other_call; Locked 1 7; Other_call])) as Hr.
  { set (w1 := set_mutex (os_mutex Posix) (os_rwlock Posix) (locks0 _ _) 7 None). set (w2 := set_mutex _ _ w1 7 (Some (1, 0%nat))).
    apply rtc_l with (y := (w1, [Other_call])); [by apply (l_new _ _ _ (locks0 _ _) w1 [] 7)|].
    apply rtc_l with (y := (w2, [Other_call; Locked 1 7])); [by apply (l_lock _ _ _ w1 w2 [Other_call] 1 7)|].
    apply rtc_once. injection Hd as <-. apply (l_try _ _ _ w2 _ [Other_call; Locked 1 7] 2 7 0); reflexivity. }
  destruct (locks_exclude Posix (os_mutex Posix) (os_rwlock Posix) w _ 7 Hr) as (H1 & _ & _ & H2 & _); [lia|].
  assert (0 < m_inside [Other_call; Locked 1 7; Other_call] 1 7)%nat as H0 by (vm_compute; lia).
  split; [reflexivity|]. split; [reflexivity|]. split; [exact (proj2 (H2 1 H0))|]. intros u Hu. by apply (H1 1 u).
Defined.

(** The error number of [pthread_rwlock_rdlock] is dropped: a thread that locks for reading what it holds for
    writing goes on (EDEADLK), its unlock for reading ends the writing, and another writer comes in
    while it still believes to be alone. *)
Example dropped_error_breaks_exclusion :
  (let! '(p, w) := lpp_rwlock_new (os_mutex Posix) (os_rwlock Posix) (locks0 _ _) (Some 7) in
   let! o := lpp_rwlock_wrlock _ _ w 1 p in let w := default w o in
   let! o := lpp_rwlock_rdlock _ _ w 1 p in let w := default w o in
   let! w := lpp_rwlock_rdunlock Posix _ _ w 1 p in
   let! o := lpp_rwlock_wrlock _ _ w 2 p in
   Ok (bool_decide (is_Some o))) = Ok true.
Proof. vm_compute. reflexivity. Qed.

(** Handle 0 is a lock that excludes nobody. *)
Example null_mutex_excludes_nobody pl ma ra w t u :
  lpp_mutex_lock pl ma ra w t 0 = Ok (Some w) /\ lpp_mutex_lock pl ma ra w u 0 = Ok (Some w) /\ lpp_mutex_trylock pl ma ra w t 0 = Ok (0, w).
Proof. done. Qed.
