(* ===== verification/ExecWin.v ===== *)
(** * Processes, environment and directories of the host runtime on Windows (runtime/lpp_exec.c, runtime/lpp_dir.c)

    The bodies for Windows, next to those for POSIX in [Exec]; where the two have the same code (the loop that
    reads the pipe, the loop over the entries of a directory, the joining of paths) the definitions of [Exec] are
    used.  What the system answers is an argument; the handles the runtime holds are counted. *)

From stdpp Require Import gmap.
From Stdlib Require Import Ascii String.
From stdpp Require Import list.
From S2P Require Import Prelude CInt Buf ListRt Str Json Net Http Exec.
Open Scope list_scope.
Open Scope Z_scope.

(** ** Commands *)

Definition lpp_command_exec_win (system : cstr -> Z) (cmdline : option cstr) : Z :=
  match cmdline with None => -1 | Some cmd => system cmd end.

(** [piped], [created]: whether [CreatePipe] and [CreateProcessA] succeed (the latter fails too when the
    command line could not be copied); [out]: what the command wants to write; [capacity]: how much a pipe
    holds before a writer has to wait.  [None]: the call never returns, because the runtime waits for a process
    that waits for the pipe to be read. *)
Definition lpp_command_output_win (al : allocator) (cut : nat -> nat) (capacity : Z) (piped created : bool) (out : list Z) (cmdline : option cstr)
  (handles : Z) : outcome (option (str_ret * Z)) :=
  match cmdline with
  | None => Ok (Some (SEmpty, handles))
  | Some _ =>
      if negb piped then Ok (Some (SEmpty, handles))
      else
        let handles := handles + 2 in
        let handles := (if created then handles + 2 else handles) in
        let handles := handles - 1 in
        if negb created then Ok (Some (SEmpty, handles - 1))
        else if slen out >? capacity then Ok None
        else
          let handles := handles - 1 - 1 in
          if negb (al 0%nat 4097) then Ok (Some (SEmpty, handles - 1))
          else
            let! '(buf, len) := output_loop al cut (S (List.length out)) 1 0 out 4096 0 (replicate 4097 0) in
            let handles := handles - 1 in
            let! buf := wr buf len 0 in Ok (Some (SOwned (until_nul buf), handles))
  end.

(** ** Environment

    [GetEnvironmentVariableA] fills a buffer of 4096 bytes; a value that does not fit is not stored. *)
Definition lpp_env_get_win (al : allocator) (env : gmap (list Z) (list Z)) (name : option cstr) : outcome str_ret :=
  match name with
  | None => Ok SEmpty
  | Some name =>
      let val := default [] (env !! name) in
      let n := if slen val <? 4096 then slen val else slen val + 1 in
      if (n =? 0) || (n >=? 4096) then Ok SEmpty
      else or_empty (fresh_str al 0 (n + 1) (fun out => let! out := memcpy out 0 val 0 n in wr out n 0))
  end.

(** [accepts]: the names the system takes. *)
Definition lpp_env_set_win (accepts : cstr -> bool) (env : gmap (list Z) (list Z)) (name value : option cstr) : Z * gmap (list Z) (list Z) :=
  match name with
  | None => (-1, env)
  | Some name => if accepts name then (0, <[name := default [] value]> env) else (-1, env)
  end.

(** ** Directories *)

Definition lpp_dir_create_win (ok : bool) (path : option cstr) : Z := match path with None => -1 | Some _ => if ok then 0 else -1 end.
(** [attr]: the result of [GetFileAttributesA]. *)
Definition INVALID_FILE_ATTRIBUTES : Z := 0xFFFFFFFF.
Definition lpp_path_exists_win (attr : Z) (path : option cstr) : Z :=
  match path with None => 0 | Some _ => if negb (attr =? INVALID_FILE_ATTRIBUTES) then 1 else 0 end.

(** [snprintf(pattern, MAX_PATH, "%s\\*", path)] keeps the first 259 bytes. *)
Definition find_pattern (path : cstr) : cstr := take 259 (path ++ [92; 42]).

(** [find]: the entries that match a pattern, if the search can be started (then there is at least one). *)
Definition lpp_dir_list_win (al : allocator) (la : allocation) (addr : nat -> Z) (list_ok : bool) (find : cstr -> option (list cstr)) (path : option cstr)
  : outcome (option (LppList * list arc_ev * list (Z * cstr))) :=
  if negb list_ok then Ok None
  else
    let! l := lpp_list_new_arc true in
    match path with
    | None => Ok (Some (l, [], []))
    | Some path =>
        match find (find_pattern path) with
        | None => Ok (Some (l, [], []))
        | Some entries => let! r := dir_loop al la addr 0 l entries in Ok (Some r)
        end
    end.

(** [char cmd[MAX_PATH + 32]; snprintf(cmd, sizeof(cmd), "rmdir /s /q \"%s\"", path)]. *)
Definition rmdir_command (path : cstr) : cstr := take 291 (txt "rmdir /s /q " ++ [34] ++ path ++ [34]).
Definition lpp_dir_remove_win (system : cstr -> Z) (path : option cstr) : Z :=
  match path with None => -1 | Some path => if system (rmdir_command path) =? 0 then 0 else -1 end.

Definition is_win_sep (c : Z) : bool := (c =? 92) || (c =? 47).
Definition lpp_path_join_win : allocator -> option cstr -> option cstr -> outcome str_ret := join_at is_win_sep 92.

(** ** Theorems *)

(** The output of a command on Windows.  The call returns if and only if the pipe holds all the command
    writes, because the runtime waits for the command before it reads; it then returns what the command wrote up
    to its first NUL (a prefix when memory runs out), stays inside its buffer, and has closed every handle it
    opened, on the paths of failure too. *)
Theorem command_output_win_exact (al : allocator) cut capacity piped created out cmd handles : slen out + 1024 < 2 ^ 30 ->
  (lpp_command_output_win al cut capacity piped created out (Some cmd) handles = Ok None <-> piped = true /\ created = true /\ capacity < slen out) /\
  (piped = false \/ created = false \/ slen out <= capacity ->
   exists r, lpp_command_output_win al cut capacity piped created out (Some cmd) handles = Ok (Some (r, handles)) /\
     (r = SEmpty \/ exists m, r = SOwned (until_nul (take m out))) /\
     (piped = true -> created = true -> (forall k n, al k n = true) -> r = SOwned (until_nul out))).
Proof.
  intros Hout. unfold lpp_command_output_win.
  destruct piped; cbn [negb]; [|split; [split; [done|by intros [? _]]|]; intros _; exists SEmpty; repeat split; auto; done].
  destruct created; cbn [negb].
  2: { split; [split; [done|by intros (_ & ? & _)]|]. intros _. exists SEmpty. repeat split; [|by left|done]. do 3 f_equal. lia. }
  destruct (slen out >? capacity) eqn:Hc; rewrite Z.gtb_ltb in Hc.
  { apply Z.ltb_lt in Hc. split; [done|]. intros [?|[?|?]]; [done|done|lia]. }
  apply Z.ltb_ge in Hc. replace (handles + 2 + 2 - 1 - 1 - 1 - 1) with handles by lia.
  enough (exists r, (if negb (al 0%nat 4097) then Ok (Some (SEmpty, handles)) else
      let! '(buf, len) := output_loop al cut (S (List.length out)) 1 0 out 4096 0 (replicate 4097 0) in
      let! buf := wr buf len 0 in Ok (Some (SOwned (until_nul buf), handles))) = Ok (Some (r, handles)) /\
     (r = SEmpty \/ exists m, r = SOwned (until_nul (take m out))) /\ ((forall k n, al k n = true) -> r = SOwned (until_nul out))) as (r & E & H1 & H2).
  { split; [split; [by rewrite E|intros (_ & _ & ?); lia]|]. intros _. exists r. by repeat split; auto. }
  destruct (al 0%nat 4097) eqn:E0; cbn [negb]; [|exists SEmpty; repeat split; [by left|]; intros Hal; by rewrite Hal in E0].
  destruct (output_loop_spec al cut out Hout (S (List.length out)) 1 0 4096 0 (replicate 4097 0)) as (b & m & E & Hm & Hb & Ht & Hall);
    [lia|lia|done|lia|lia|done|].
  change (Z.of_nat 0) with 0 in E. rewrite drop_0 in E. rewrite E. cbn [obind].
  destruct (until_nul_prefix m out b Hm Hb Ht) as (b' & -> & Hb'). cbn [obind]. eexists. split; [done|]. rewrite Hb'. split; [right; by eexists|].
  intros Hal. rewrite Hall by done. by rewrite firstn_all.
Qed.

(** Environment, paths and directories on Windows.  A value of up to 4095 bytes reads back, a longer one
    reads as unset; the parts of a path are joined by one backslash unless there is a separator; for paths of up
    to 257 bytes the entries of the directory are listed as on POSIX, and for paths of up to 277 bytes the command that removes
    it names the whole path in quotes. *)
Theorem host_win_exact (al : allocator) (la : allocation) `{!SysAlloc la} (addr : nat -> Z) : (forall k n, al k n = true) ->
  (forall accepts env name value, accepts name = true -> cstr_ok value ->
     let r := lpp_env_set_win accepts env (Some name) (Some value) in
     r.1 = 0 /\ lpp_env_get_win al r.2 (Some name) =
       Ok (if (slen value =? 0) || (slen value >? 4095) then SEmpty else SOwned value)) /\
  (forall base child, cstr_ok base -> cstr_ok child -> slen base + slen child < 2 ^ 60 ->
    lpp_path_join_win al (Some base) (Some child) = Ok (SOwned (joined_at is_win_sep 92 base child))) /\
  (forall find path, slen path <= 257 ->
     lpp_dir_list_win al la addr true find (Some path) = lpp_dir_list al la addr true (find (path ++ [92; 42])) (Some path)) /\
  (forall path, slen path <= 277 <-> rmdir_command path = txt "rmdir /s /q " ++ [34] ++ path ++ [34]).
Proof.
  intros Hal. split_and!.
  - intros accepts env name value Ha Hv. unfold lpp_env_set_win. rewrite Ha. split; [done|]. unfold lpp_env_get_win. cbn [snd default from_option id].
    rewrite lookup_insert_eq. cbn [default from_option id].
    rewrite Z.geb_leb, Z.gtb_ltb. destruct (Z.ltb_spec (slen value) 4096).
    + destruct (Z.eqb_spec (slen value) 0); [done|]. cbn [orb]. rewrite (proj2 (Z.leb_gt _ _)), (proj2 (Z.ltb_ge _ _)) by lia.
      unfold or_empty. by rewrite (fresh_str_ok al 0 _ _ value 1 (Hal _ _) Hv (copy_terminate value ltac:(unfold INT64_MAX; lia))).
    + rewrite (proj2 (Z.leb_le _ _)), (proj2 (Z.ltb_lt _ _)), !orb_true_r by lia. done.
  - intros base child Hb Hc Hl. by apply join_at_spec.
  - intros find path Hp. unfold lpp_dir_list_win, lpp_dir_list, find_pattern. unfold slen in Hp.
    rewrite take_ge by (rewrite length_app; cbn; lia). cbn [negb]. destruct (lpp_list_new_arc true); cbn [obind]; done.
  - intros path. unfold rmdir_command, slen. change (txt "rmdir /s /q ") with (txt "rmdir /s /q "). split.
    + intros Hl. rewrite take_ge; [done|]. rewrite !length_app. cbn [List.length]. change (List.length (txt "rmdir /s /q ")) with 12%nat. lia.
    + intros E. apply (f_equal List.length) in E. rewrite length_take, !length_app in E. cbn [List.length] in E.
      change (List.length (txt "rmdir /s /q ")) with 12%nat in E. lia.
Qed.

(** A path of 259 bytes or more loses the wildcard: the search finds the directory itself, or what its
    first 259 bytes name. *)
Theorem long_path_loses_wildcard path : 259 <= slen path -> find_pattern path = take 259 path.
Proof. unfold slen, find_pattern. intros H. by rewrite take_app_le by lia. Qed.

Lemma command_output_win_exact_witness :
  lpp_command_output_win (fun _ _ => true) (fun k => k) 4096 true true [104; 105; 10] (Some [100]) 0 = Ok (Some (SOwned [104; 105; 10], 0)) /\
  lpp_command_output_win (fun _ _ => true) (fun k => k) 4096 true true (replicate 5000 97) (Some [100]) 0 = Ok None.
Proof.
  split.
  - destruct (command_output_win_exact (fun _ _ => true) (fun k => k) 4096 true true [104; 105; 10] [100] 0) as (_ & H); [done|].
    destruct H as (r & -> & _ & H); [by right; right|]. by rewrite H.
  - destruct (command_output_win_exact (fun _ _ => true) (fun k => k) 4096 true true (replicate 5000 97) [100] 0) as (H & _); [vm_compute; reflexivity|].
    apply H. split; [done|]. split; [done|]. vm_compute. reflexivity.
Defined.
