(* ===== verification/WinMap.v ===== *)
(** * The hash map of freestanding Windows (runtime/windows_x86_64_min.c)

    The map of the host with its table in VirtualAlloc memory, and the snapshots of its keys and values in the
    lists of [WinList].  The state, the slots and the loops over them are those of [HashMap]; [mm n] tells
    whether VirtualAlloc serves [n] bytes, and the regions taken and given back are recorded. *)

From stdpp Require Import gmap.
From S2P Require Import Prelude HashMap ListRt FreeMap FreeList WinList.

Section win.
Context (mem : Z -> option cstr) (mm : Z -> bool).

Definition lpp_map_hash_str_w (p : Z) : outcome Z :=
  if p =? 0 then Ok 0
  else match mem p with
       | Some s => Ok (fold_left (fun hash c => u64 (Z.lxor hash c * 1099511628211)) s 14695981039346656037)
       | None => Undef
       end.
Definition lpp_map_hash_int_w (key : Z) : Z :=
  let k := u64 key in
  let k := u64 (u64 (Z.lnot k) + u64 (Z.shiftl k 21)) in
  let k := Z.lxor k (Z.shiftr k 24) in
  let k := u64 (u64 (k + u64 (Z.shiftl k 3)) + u64 (Z.shiftl k 8)) in
  let k := Z.lxor k (Z.shiftr k 14) in
  let k := u64 (u64 (k + u64 (Z.shiftl k 2)) + u64 (Z.shiftl k 4)) in
  let k := Z.lxor k (Z.shiftr k 28) in
  u64 (k + u64 (Z.shiftl k 31)).

(** The bytes of a table, and what VirtualFree gives back: the whole region; NULL has no slots. *)
Definition table_bytes (cap : Z) : Z := lpp_page_round_w (u64 (u64 cap * 24)).
Definition free_table (m : LppMap) : list vm_ev := match entries m with [] => [] | _ => [Munmap (table_bytes (mcap m))] end.

Definition lpp_map_destroy_w (m : LppMap) : LppMap * list arc_ev * list vm_ev :=
  (mk_map [] 0 0 (arc_values m), if arc_values m then release_values (entries m) else [], free_table m).

Definition lpp_map_new_with_mode_w (object_ok av : bool) : outcome (option LppMap * list vm_ev) :=
  if object_ok then
    if mm (table_bytes 16) then Ok (Some (mk_map (replicate 16 empty_entry) 16 0 av), [Mmap (table_bytes 16)]) else exit_101
  else Ok (None, []).
Definition lpp_map_new_w (object_ok : bool) := lpp_map_new_with_mode_w object_ok false.
Definition lpp_map_new_arc_w (object_ok : bool) := lpp_map_new_with_mode_w object_ok true.

(** The loop of [lpp_map_rehash]: entries that hold a key move to the first slot of their probe sequence that
    holds none. *)
Fixpoint rehash_loop_w (cap : Z) (old : list LppMapEntry) (es : list LppMapEntry) (n : Z) : outcome (list LppMapEntry * Z) :=
  match old with
  | [] => Ok (es, n)
  | e :: old =>
      if occupied e =? 1 then
        let! h := (if negb (is_str_key e =? 0) then lpp_map_hash_str_w (key e) else Ok (lpp_map_hash_int_w (key e))) in
        let! idx := free_slot (S (length es)) es cap (h mod cap) in
        let! es := wr es idx (mk_entry (key e) (val e) (is_str_key e) 1) in
        rehash_loop_w cap old es (n + 1)
      else rehash_loop_w cap old es n
  end.
Definition lpp_map_rehash_w (m : LppMap) (new_cap : Z) : outcome (LppMap * list vm_ev) :=
  if mm (table_bytes new_cap) then
    let! '(es, n) := rehash_loop_w new_cap (entries m) (replicate (Z.to_nat new_cap) empty_entry) 0 in
    Ok (mk_map es new_cap n (arc_values m), Mmap (table_bytes new_cap) :: free_table m)
  else exit_101.

Definition make_room_w (m : LppMap) : outcome (LppMap * list vm_ev) :=
  let! occupied10 := chk64 (count_used (entries m) * 10) in
  let! cap7 := chk64 (mcap m * 7) in
  if occupied10 >=? cap7 then
    let! len100 := chk64 (mlen m * 100) in
    let! cap35 := chk64 (mcap m * 35) in
    let! new_cap := (if len100 <? cap35 then Ok (mcap m) else chk64 (mcap m * 2)) in
    lpp_map_rehash_w m (if new_cap <? 16 then 16 else new_cap)
  else Ok (m, []).

Definition lpp_map_put_internal_w (mp : option LppMap) (k v is_str : Z) : outcome (option LppMap * list arc_ev * list vm_ev) :=
  match mp with
  | None => Ok (None, [], [])
  | Some m =>
      let! '(m, vm) := make_room_w m in
      let! h := (if negb (is_str =? 0) then lpp_map_hash_str_w k else Ok (lpp_map_hash_int_w k)) in
      let! slot := put_slot (hit_put mem is_str k) (S (length (entries m))) (entries m) (mcap m) (h mod mcap m) (-1) in
      match slot with
      | inl idx =>
          let! e := rd (entries m) idx in
          let ev := if arc_values m then [Retain v; Release (val e)] else [] in
          let! es := wr (entries m) idx (mk_entry (key e) v (is_str_key e) (occupied e)) in
          Ok (Some (mk_map es (mcap m) (mlen m) (arc_values m)), ev, vm)
      | inr (idx, first_tombstone) =>
          let idx := if negb (first_tombstone =? -1) then first_tombstone else idx in
          let ev := if arc_values m then [Retain v] else [] in
          let! es := wr (entries m) idx (mk_entry k v is_str 1) in
          Ok (Some (mk_map es (mcap m) (mlen m + 1) (arc_values m)), ev, vm)
      end
  end.
Definition lpp_map_put_w (mp : option LppMap) (k v : Z) := lpp_map_put_internal_w mp k v 0.
Definition lpp_map_put_str_w (mp : option LppMap) (p v : Z) := lpp_map_put_internal_w mp p v 1.

(** The search that [get], [has] and [remove] share. *)
Definition find_int_w (m : LppMap) (k : Z) : outcome (option Z) :=
  let idx := lpp_map_hash_int_w k mod mcap m in
  find_slot (hit_int k) (S (length (entries m))) (entries m) (mcap m) idx idx.
Definition find_str_w (m : LppMap) (p : Z) : outcome (option Z) :=
  let! h := lpp_map_hash_str_w p in
  let idx := h mod mcap m in
  find_slot (hit_str mem p) (S (length (entries m))) (entries m) (mcap m) idx idx.

Definition lpp_map_get_w (mp : option LppMap) (k : Z) : outcome Z :=
  match mp with None => Ok 0 | Some m => if mlen m =? 0 then Ok 0 else let! s := find_int_w m k in val_at m s end.
Definition lpp_map_get_str_w (mp : option LppMap) (p : Z) : outcome Z :=
  match mp with None => Ok 0 | Some m => if (p =? 0) || (mlen m =? 0) then Ok 0 else let! s := find_str_w m p in val_at m s end.
Definition lpp_map_has_w (mp : option LppMap) (k : Z) : outcome Z :=
  match mp with None => Ok 0 | Some m => if mlen m =? 0 then Ok 0 else let! s := find_int_w m k in Ok (found s) end.
Definition lpp_map_has_str_w (mp : option LppMap) (p : Z) : outcome Z :=
  match mp with None => Ok 0 | Some m => if (p =? 0) || (mlen m =? 0) then Ok 0 else let! s := find_str_w m p in Ok (found s) end.
Definition lpp_map_len_w (mp : option LppMap) : Z := match mp with Some m => mlen m | None => 0 end.
Definition lpp_map_capacity_w (mp : option LppMap) : Z := match mp with Some m => mcap m | None => 0 end.

(** The slot becomes a tombstone; its value is released first. *)
Definition lpp_map_remove_w (mp : option LppMap) (k : Z) : outcome (option LppMap * list arc_ev) :=
  match mp with
  | None => Ok (None, [])
  | Some m => if mlen m =? 0 then Ok (Some m, []) else let! s := find_int_w m k in let! '(m, ev) := remove_at m s in Ok (Some m, ev)
  end.
Definition lpp_map_remove_str_w (mp : option LppMap) (p : Z) : outcome (option LppMap * list arc_ev) :=
  match mp with
  | None => Ok (None, [])
  | Some m =>
      if (p =? 0) || (mlen m =? 0) then Ok (Some m, []) else let! s := find_str_w m p in let! '(m, ev) := remove_at m s in Ok (Some m, ev)
  end.

Definition lpp_map_put_float_w (mp : option LppMap) (k bits : Z) := lpp_map_put_w mp k (i64 bits).
Definition lpp_map_get_float_w (mp : option LppMap) (k : Z) : outcome Z := let! v := lpp_map_get_w mp k in Ok (u64 v).
Definition lpp_map_put_str_float_w (mp : option LppMap) (p bits : Z) := lpp_map_put_str_w mp p (i64 bits).

(** [!m->entries]: nothing to clear. *)
Definition lpp_map_clear_w (mp : option LppMap) : option LppMap * list arc_ev :=
  match mp with
  | None => (None, [])
  | Some m =>
      match entries m with
      | [] => (Some m, [])
      | es => (Some (mk_map (replicate (length es) empty_entry) (mcap m) 0 (arc_values m)), if arc_values m then release_values es else [])
      end
  end.

(** [mm'] serves the memory of the new list. *)
Fixpoint values_loop_w (mm' : Z -> bool) (arc : bool) (es : list LppMapEntry) (l : option LppList_fs)
  : outcome (option LppList_fs * list arc_ev * list vm_ev) :=
  match es with
  | [] => Ok (l, [], [])
  | e :: es =>
      if occupied e =? 1 then
        let! '(l, ev, vm) := (if arc then lpp_list_push_arc_w mm' l (val e) else lpp_list_push_w mm' l (val e)) in
        let! '(l, ev', vm') := values_loop_w mm' arc es l in Ok (l, ev ++ ev', vm ++ vm')
      else values_loop_w mm' arc es l
  end.
Definition lpp_map_values_w (mm' : Z -> bool) (list_ok : bool) (mp : option LppMap) : outcome (option LppList_fs * list arc_ev * list vm_ev) :=
  match mp with
  | Some m =>
      if mlen m =? 0 then Ok (lpp_list_new_w list_ok, [], [])
      else values_loop_w mm' (arc_values m) (entries m) (if arc_values m then lpp_list_new_arc_w list_ok else lpp_list_new_w list_ok)
  | None => Ok (lpp_list_new_w list_ok, [], [])
  end.

(** [dup n] is the address of the [n]-th copy (0 when it is refused); the copies are collected with their
    contents.  The copy is pushed (and retained) and its first reference is kept. *)
Fixpoint keys_loop_w (mm' : Z -> bool) (dup : nat -> Z) (es : list LppMapEntry) (n : nat) (l : option LppList_fs)
  : outcome (option LppList_fs * list arc_ev * list vm_ev * list (Z * cstr)) :=
  match es with
  | [] => Ok (l, [], [], [])
  | e :: es =>
      if occupied e =? 1 then
        if negb (is_str_key e =? 0) then
          let! s := (if key e =? 0 then Ok [] else match mem (key e) with Some s => Ok s | None => Undef end) in
          let copies := if dup n =? 0 then [] else [(dup n, s)] in
          let! '(l, ev, vm) := lpp_list_push_arc_w mm' l (dup n) in
          let! '(l, ev', vm', copies') := keys_loop_w mm' dup es (S n) l in
          Ok (l, ev ++ ev', vm ++ vm', copies ++ copies')
        else
          let! '(l, ev, vm) := lpp_list_push_w mm' l (key e) in
          let! '(l, ev', vm', copies') := keys_loop_w mm' dup es n l in
          Ok (l, ev ++ ev', vm ++ vm', copies')
      else keys_loop_w mm' dup es n l
  end.
Definition has_str_w (es : list LppMapEntry) : bool := existsb (fun e => (occupied e =? 1) && negb (is_str_key e =? 0)) es.
Definition lpp_map_keys_w (mm' : Z -> bool) (dup : nat -> Z) (list_ok : bool) (mp : option LppMap)
  : outcome (option LppList_fs * list arc_ev * list vm_ev * list (Z * cstr)) :=
  match mp with
  | Some m =>
      if mlen m =? 0 then Ok (lpp_list_new_w list_ok, [], [], [])
      else keys_loop_w mm' dup (entries m) 0 (if has_str_w (entries m) then lpp_list_new_arc_w list_ok else lpp_list_new_w list_ok)
  | None => Ok (lpp_list_new_w list_ok, [], [], [])
  end.

(** An operation as the code runs it. *)
Definition result_w (m : outcome (option LppMap * list arc_ev * list vm_ev)) : outcome (LppMap * Z * list arc_ev * list vm_ev) :=
  let! '(o, ev, vm) := m in match o with Some m => Ok (m, 0, ev, vm) | None => Undef end.
Definition quiet_w (m : outcome (option LppMap * list arc_ev)) : outcome (option LppMap * list arc_ev * list vm_ev) :=
  let! '(o, ev) := m in Ok (o, ev, []).
Definition map_step_w (op : map_op) (m : LppMap) : outcome (LppMap * Z * list arc_ev * list vm_ev) :=
  match op with
  | MPut (CInt k) v => result_w (lpp_map_put_w (Some m) k v)
  | MPut (CStr p) v => result_w (lpp_map_put_str_w (Some m) p v)
  | MRemove (CInt k) => result_w (quiet_w (lpp_map_remove_w (Some m) k))
  | MRemove (CStr p) => result_w (quiet_w (lpp_map_remove_str_w (Some m) p))
  | MClear => result_w (quiet_w (Ok (lpp_map_clear_w (Some m))))
  | MGet (CInt k) => let! v := lpp_map_get_w (Some m) k in Ok (m, v, [], [])
  | MGet (CStr p) => let! v := lpp_map_get_str_w (Some m) p in Ok (m, v, [], [])
  | MHas (CInt k) => let! v := lpp_map_has_w (Some m) k in Ok (m, v, [], [])
  | MHas (CStr p) => let! v := lpp_map_has_str_w (Some m) p in Ok (m, v, [], [])
  | MLen => Ok (m, lpp_map_len_w (Some m), [], [])
  end.
End win.

(** ** The same code *)

#[local] Transparent lpp_hash_int hash_bytes.
Lemma hash_int_w_eq k : lpp_map_hash_int_w k = lpp_hash_int k.
Proof. cbv delta [lpp_map_hash_int_w lpp_hash_int]. reflexivity. Qed.
Lemma hash_str_w_eq mem p : lpp_map_hash_str_w mem p = lpp_hash_str mem p.
Proof. cbv delta [lpp_map_hash_str_w lpp_hash_str hash_bytes hash_step]. reflexivity. Qed.
#[local] Opaque lpp_hash_int hash_bytes lpp_map_hash_int_w.

Lemma find_int_w_eq m k : find_int_w m k = find_int m k.
Proof. unfold find_int_w. by rewrite hash_int_w_eq. Qed.
Lemma find_str_w_eq mem m p : find_str_w mem m p = find_str mem m p.
Proof. unfold find_str_w. by rewrite hash_str_w_eq. Qed.
#[local] Opaque find_int_w find_str_w find_int find_str.
Lemma rehash_loop_w_eq mem cap old : forall es n, rehash_loop_w mem cap old es n = reinsert_all mem cap old (es, n).
Proof.
  induction old as [|e old IH]; intros es n; [done|]. cbn [rehash_loop_w reinsert_all reinsert].
  destruct (occupied e =? 1); [|apply IH]. rewrite hash_str_w_eq, hash_int_w_eq. fold (hash_key mem (is_str_key e) (key e)).
  destruct (hash_key mem (is_str_key e) (key e)) as [h| | |]; try done. cbn [obind]. destruct (free_slot _ _ _ _) as [i| | |]; try done. cbn [obind].
  destruct (wr _ _ _) as [es'| | |]; try done. apply IH.
Qed.
Lemma table_bytes_eq cap : table_bytes cap = table_size cap.
Proof. apply page_round_w_eq. Qed.

(** ** Agreement with the host *)

Definition moved (vm : list vm_ev) (m m' : LppMap) : Prop :=
  (vm = [] /\ mcap m' = mcap m) \/ vm = [Mmap (table_bytes (mcap m')); Munmap (table_bytes (mcap m))].

Section agree.
Context (mem : Z -> option cstr) (Hnull : mem 0 = None) (mm : Z -> bool) (al : allocation) `{!AddrSpace al}.
(** The host's allocator serves what VirtualAlloc serves here. *)
Context (Hal : forall n, 0 <= n < 2 ^ 63 -> granted al n = mm (lpp_page_round n)).

Lemma free_table_live m : map_wf mem m -> free_table m = [Munmap (table_bytes (mcap m))].
Proof.
  intros Hm. pose proof (m_cap _ _ Hm). pose proof (t_len _ _ _ (m_table _ _ Hm)). unfold free_table.
  destruct (entries m); [cbn in *; lia|done].
Qed.

Definition same_table (m a : LppMap) (b : LppMap * list vm_ev) : Prop := a = b.1 /\ moved b.2 m b.1.

Lemma make_room_w_agree m : map_wf mem m -> agrees (same_table m) (make_room mem al m) (make_room_w mem mm m).
Proof.
  intros Hm. unfold make_room, make_room_w. do 2 (apply (agrees_bind eq); [apply agrees_refl|]; intros ? ? <-).
  destruct (_ >=? _); [|split; [done|by left]]. do 2 (apply (agrees_bind eq); [apply agrees_refl|]; intros ? ? <-).
  pose proof (m_cap _ _ Hm) as Hcap. change (2 ^ 53) with 9007199254740992 in Hcap.
  eapply (agrees_bind (fun a b => a = b /\ 0 <= a <= 2 * mcap m)).
  { destruct (_ <? _); [cbn; split; [done|lia]|]. unfold chk64. destruct (is_i64 _); [|done]. cbn. split; [done|lia]. }
  intros c ? [<- Hc]. set (nc := if c <? 16 then 16 else c). assert (0 <= nc < 2 ^ 58) as Hnc.
  { change (2 ^ 58) with 288230376151711744. unfold nc. destruct (c <? 16); lia. }
  unfold lpp_map_rehash, lpp_map_rehash_w. destruct (table_size_cap nc Hnc) as [Ht Hr]. rewrite Hal, <- Ht, <- table_bytes_eq by done.
  destruct (mm (table_bytes nc)); [|done]. rewrite rehash_loop_w_eq. apply (agrees_bind eq); [apply agrees_refl|]. intros [es n] ? <-.
  split; [done|]. right. by rewrite free_table_live.
Qed.

Definition same_result (m : LppMap) (a : LppMap * Z * list arc_ev) (b : LppMap * Z * list arc_ev * list vm_ev) : Prop :=
  a = b.1 /\ moved b.2 m b.1.1.1.

Lemma put_w_agree m k v is_str : map_wf mem m ->
  agrees (same_result m) (map_result (lpp_map_put_internal mem al (Some m) k v is_str)) (result_w (lpp_map_put_internal_w mem mm (Some m) k v is_str)).
Proof.
  intros Hm. unfold lpp_map_put_internal, lpp_map_put_internal_w, map_result, result_w.
  eapply (agrees_bind (fun a b => a = b.1 /\ exists m', b.1.1 = Some m' /\ moved b.2 m m')).
  2: { intros [o ev] [[o' ev'] vm] [[= <- <-] (m' & Ho & Hmv)]. cbn in Ho, Hmv. subst o. by split. }
  eapply agrees_bind; [by apply make_room_w_agree|]. intros m1 [m2 vm] [E Hmv]. cbn [fst snd] in *. subst m2.
  rewrite hash_str_w_eq, hash_int_w_eq. fold (hash_key mem is_str k).
  apply (agrees_bind eq); [apply agrees_refl|]. intros h ? <-. apply (agrees_bind eq); [apply agrees_refl|]. intros slot ? <-.
  destruct slot as [idx|[idx ft]].
  - do 2 (apply (agrees_bind eq); [apply agrees_refl|]; intros ? ? <-). split; [done|]. by eexists.
  - apply (agrees_bind eq); [apply agrees_refl|]. intros ? ? <-. split; [done|]. by eexists.
Qed.

Lemma quiet_agree m (a : outcome (option LppMap * list arc_ev)) : (forall o ev, a = Ok (o, ev) -> exists m', o = Some m' /\ mcap m' = mcap m) ->
  agrees (same_result m) (map_result a) (result_w (quiet_w a)).
Proof.
  intros H. destruct a as [[o ev]| | |]; try done. destruct (H o ev eq_refl) as (m' & -> & Hc). split; [done|]. by left.
Qed.
Lemma query_w_agree m (a : outcome Z) : agrees (same_result m) (let! v := a in Ok (m, v, [])) (let! v := a in Ok (m, v, [], [])).
Proof. destruct a; try done. split; [done|]. by left. Qed.

Lemma remove_same_cap m (s : outcome (option Z)) o ev :
  (let! s := s in let! '(m, ev) := remove_at m s in Ok (Some m, ev)) = Ok (o, ev) -> exists m', o = Some m' /\ mcap m' = mcap m.
Proof.
  destruct s as [s| | |]; try done. cbn [obind]. destruct s as [i|]; cbn [remove_at]; [|intros [= <- _]; by eexists].
  destruct (rd _ _); try done. cbn [obind]. destruct (wr _ _ _); try done. intros [= <- _]. by eexists.
Qed.

Lemma win_step_agrees m op : map_wf mem m -> agrees (same_result m) (map_step mem al op m) (map_step_w mem mm op m).
Proof.
  intros Hm. destruct op as [[k|p] v|[k|p]| |[k|p]|[k|p]|]; cbn [map_step map_step_w].
  - by apply put_w_agree.
  - by apply put_w_agree.
  - unfold lpp_map_remove, lpp_map_remove_w. destruct (mlen m =? 0); [split; [done|by left]|]. rewrite (find_int_w_eq m k).
    apply quiet_agree. intros o ev. apply remove_same_cap.
  - unfold lpp_map_remove_str, lpp_map_remove_str_w. destruct (_ || _); [split; [done|by left]|]. rewrite (find_str_w_eq mem m p).
    apply quiet_agree. intros o ev. apply remove_same_cap.
  - unfold lpp_map_clear, lpp_map_clear_w. pose proof (m_cap _ _ Hm). pose proof (t_len _ _ _ (m_table _ _ Hm)) as Hl.
    destruct (entries m) eqn:E; [cbn in Hl; lia|]. rewrite <- E. apply quiet_agree. intros o ev [= <- _]. by eexists.
  - unfold lpp_map_get, lpp_map_get_w. rewrite (find_int_w_eq m k). apply query_w_agree.
  - unfold lpp_map_get_str, lpp_map_get_str_w. rewrite (find_str_w_eq mem m p). apply query_w_agree.
  - unfold lpp_map_has, lpp_map_has_w. rewrite (find_int_w_eq m k). apply query_w_agree.
  - unfold lpp_map_has_str, lpp_map_has_str_w. rewrite (find_str_w_eq mem m p). apply query_w_agree.
  - split; [done|by left].
Qed.

(** The table a live map owns is accounted for by what was taken and given back. *)
Lemma moved_balance vm m m' : moved vm m m' -> table_bytes (mcap m) :: mapped vm ≡ₚ table_bytes (mcap m') :: unmapped vm.
Proof. intros [[-> ->]| ->]; [done|]. apply Permutation_swap. Qed.

Definition same_run_w (m0 : LppMap) (a b : LppMap * list (Z * list arc_ev) * list vm_ev) : Prop :=
  a.1 = b.1 /\ map_wf mem a.1.1 /\ table_bytes (mcap m0) :: mapped b.2 ≡ₚ table_bytes (mcap b.1.1) :: unmapped b.2.

Lemma win_runs_agree ops : Forall (op_live mem) ops -> forall m, map_wf mem m ->
  agrees (same_run_w m) (run_with (hosted_step mem al) ops m) (run_with (map_step_w mem mm) ops m).
Proof.
  intros Hops. induction Hops as [|op ops Hop _ IH]; intros m Hm; cbn [run_with]; [done|].
  eapply (agrees_bind (fun a b => same_result m a.1 b /\ map_wf mem a.1.1.1)).
  { pose proof (win_step_agrees m op Hm) as Ha. destruct (map_step_spec mem Hnull al op m Hm Hop) as [Hyes Hno]. unfold hosted_step.
    destruct (map_step mem al op m) as [[[m1 r] ev]| | |] eqn:E; destruct (map_step_w mem mm op m) as [[[[m2 r2] ev2] vm2]| | |]; try done.
    cbn [obind agrees]. split; [exact Ha|]. destruct (map_served al op m).
    - specialize (Hyes eq_refl). unfold map_runs_as in Hyes. rewrite E in Hyes. by destruct Hyes.
    - by destruct (Hno eq_refl) as [msg ?]. }
  intros [[[m1 r1] ev1] vm1] [[[m2 r2] ev2] vm2] [[[= <- <- <-] Hmv] Hm1]. cbn [fst snd] in *.
  eapply agrees_bind; [by apply IH|]. intros [[m3 rs3] vm3] [[m4 rs4] vm4] ([= <- <-] & Hw & Hp). cbn [fst snd] in *. cbn.
  split; [done|]. split; [done|]. apply moved_balance in Hmv. cbn [fst snd]. rewrite mapped_app, unmapped_app.
  change (table_bytes (mcap m) :: mapped vm2 ++ mapped vm4) with ((table_bytes (mcap m) :: mapped vm2) ++ mapped vm4).
  rewrite Hmv. cbn [app]. rewrite (Permutation_app_comm (unmapped vm2) (mapped vm4)).
  change (table_bytes (mcap m1) :: mapped vm4 ++ unmapped vm2) with ((table_bytes (mcap m1) :: mapped vm4) ++ unmapped vm2).
  rewrite Hp. cbn [app]. by rewrite (Permutation_app_comm (unmapped vm4)).
Qed.
End agree.

(** ** Snapshots *)

Definition taken_w (arc : bool) (l : LppList_fs) (vs : list Z) (r : option LppList_fs * list arc_ev * list vm_ev) : Prop :=
  exists l', r.1.1 = Some l' /\ fsl_wf l' /\ arc_elements l' = arc /\ flen l' = flen l + Z.of_nat (length vs) /\
    felems l' = felems l ++ vs /\ heard r.1.2 = mbind (retains arc) vs /\ balanced l l' r.2.

Lemma push_taken mm (arc : bool) l v : fsl_wf l -> arc_elements l = arc -> ample mm (flen l) ->
  wp (if arc then lpp_list_push_arc_w mm (Some l) v else lpp_list_push_w mm (Some l) v) (taken_w arc l [v]).
Proof.
  intros Hl Ha Hm.
  assert ((if arc then lpp_list_push_arc_w mm (Some l) v else lpp_list_push_w mm (Some l) v) = lpp_list_push_w mm (Some l) v) as ->.
  { destruct arc; [|done]. unfold lpp_list_push_arc_w. cbn [fmap option_fmap option_map]. replace (set_owning l) with l; [done|]. destruct l. cbn in Ha. by subst. }
  eapply wp_mono; [apply push_w_ok; [done|by eapply ample_room]|].
  intros [[o ev] vm] (l' & -> & Hw & He & Hn & Ha' & Hh & Hb). exists l'. cbn [fst snd length]. rewrite Hh, Ha', Ha, bind_cons, app_nil_r.
  by split_and!.
Qed.

Lemma ample_le mm n k : k <= n -> ample mm n -> ample mm k.
Proof. intros Hk [H1 H2]. split; [lia|]. intros c Hc. apply H2. lia. Qed.

Lemma values_w_ok mem mm arc n es : ample mm n -> Forall (entry_ok mem) es -> forall l, fsl_wf l -> arc_elements l = arc ->
  flen l + Z.of_nat (length (kvs mem es)) <= n + 1 -> wp (values_loop_w mm arc es (Some l)) (taken_w arc l (kvs mem es).*2).
Proof.
  intros Hm. induction 1 as [|e es He _ IH]; intros l Hl Ha Hn; cbn [values_loop_w].
  { exists l. cbn [fst snd fmap list_fmap length]. rewrite app_nil_r, Z.add_0_r. split_and!; try done. by apply balanced_same. }
  destruct (Z.eqb_spec (occupied e) 1) as [Ho|Ho].
  - destruct (entry_ok_live mem e He Ho) as [K HK%lk_kv].
    assert (kvs mem (e :: es) = (K, val e) :: kvs mem es) as Hkv by (unfold kvs; cbn [omap list_omap]; by rewrite HK).
    rewrite Hkv in *. cbn [length] in Hn. cbn [fmap list_fmap snd]. apply wp_bind.
    eapply wp_mono; [apply push_taken; [done..|eapply ample_le; [|exact Hm]; lia]|].
    intros [[o ev] vm] (l1 & E & H1 & H2 & H3 & H4 & H5 & H6). cbn [fst snd length] in *. subst o. apply wp_bind.
    eapply wp_mono; [apply (IH l1 H1 H2); lia|]. intros [[o ev'] vm'] (l2 & E & G1 & G2 & G3 & G4 & G5 & G6). cbn [fst snd] in *. subst o.
    exists l2. cbn [fst snd length]. rewrite heard_app, H5, G4, H4, G5, <- (assoc_L (++)), <- bind_app. split_and!; try done; [lia|].
    by eapply balanced_trans.
  - assert (kvs mem (e :: es) = kvs mem es) as Hkv.
    { unfold kvs. cbn [omap list_omap]. unfold kv at 1. by rewrite (proj2 (Z.eqb_neq _ _)). }
    rewrite Hkv in *. by apply IH.
Qed.

(** [lpp_map_values] is a snapshot: the list holds each value of the finite map as often as it occurs and
    takes one reference for each when they are references. *)
Theorem win_map_values_snapshot mem mm m : map_wf mem m -> ample mm (mlen m) ->
  wp (lpp_map_values_w mm true (Some m)) (fun '(o, ev, vm) => exists l, o = Some l /\ fsl_wf l /\
    felems l ≡ₚ vals (mabs mem m) /\ heard ev = mbind (retains (arc_values m)) (felems l) /\ mapped vm ≡ₚ region_of l ++ unmapped vm).
Proof.
  intros Hm Ha. pose proof (m_len _ _ Hm) as Hlen. pose proof (vals_kvs mem m Hm) as Hv. unfold lpp_map_values_w.
  destruct (Z.eqb_spec (mlen m) 0) as [H0|H0].
  { exists (mk_fsl [] 0 0 0 false). split_and!; try done. cbn. rewrite Hv. assert (kvs mem (entries m) = []) as -> by (apply nil_length_inv; lia). done. }
  set (arc := arc_values m). assert ((if arc then lpp_list_new_arc_w true else lpp_list_new_w true) = Some (mk_fsl [] 0 0 0 arc)) as -> by (by destruct arc).
  eapply wp_mono; [apply (values_w_ok mem mm arc (mlen m) _ Ha (map_entries_ok mem m Hm)); [by split|done|cbn; lia]|].
  intros [[o ev] vm] (l & E & Hw & Hr & _ & He & Hh & Hb). cbn [fst snd] in *. subst o. exists l. cbn in He. rewrite He, Hv. by split_and!.
Qed.

(** ** Whole lives *)

(** C33. The map of freestanding Windows is the hosted map.  On any sequence of insertions, removals, queries
    and clearings with readable string keys the two give the same results, retain and release the same
    references in the same order and hold the same table - or both give up (one panics where the other exits
    with status 101); and over the life of the map, from creation to destruction, every table taken from
    VirtualAlloc is given back once, whole. *)
Theorem win_map_agrees mem mm al `{!AddrSpace al} arc ops m0 vm0 :
  mem 0 = None -> (forall n, 0 <= n < 2 ^ 63 -> granted al n = mm (lpp_page_round n)) -> Forall (op_live mem) ops ->
  lpp_map_new_with_mode_w mm true arc = Ok (Some m0, vm0) ->
  lpp_map_new_with_mode al true arc = Ok (Some m0) /\
  agrees (fun a b => a.1 = b.1 /\ (lpp_map_destroy b.1.1).2 = (lpp_map_destroy_w b.1.1).1.2 /\
      let vm := vm0 ++ b.2 ++ (lpp_map_destroy_w b.1.1).2 in mapped vm ≡ₚ unmapped vm)
    (run_with (hosted_step mem al) ops m0) (run_with (map_step_w mem mm) ops m0).
Proof.
  intros Hnull Hal Hops Hnew. unfold lpp_map_new_with_mode_w in Hnew. destruct (mm (table_bytes 16)) eqn:Emm; [|done]. injection Hnew as <- <-.
  assert (lpp_map_new_with_mode al true arc = Ok (Some (mk_map (replicate 16 empty_entry) 16 0 arc))) as Hh.
  { unfold lpp_map_new_with_mode. rewrite Hal by done. rewrite table_bytes_eq in Emm. change (lpp_page_round (16 * 24)) with (table_size 16). by rewrite Emm. }
  split; [exact Hh|]. set (m0 := mk_map _ _ _ _). assert (map_wf mem m0) as Hwf by (by eapply new_map_wf).
  pose proof (win_runs_agree mem Hnull mm al Hal ops Hops m0 Hwf) as Ha.
  destruct (run_with (hosted_step mem al) ops m0) as [[a vm1]| | |], (run_with (map_step_w mem mm) ops m0) as [[b vm2]| | |]; try done.
  destruct Ha as (E & Hw & Hp). cbn [fst snd] in *. subst a. split; [done|]. split; [done|]. cbn zeta.
  rewrite !mapped_app, !unmapped_app. cbn [lpp_map_destroy_w fst snd]. rewrite (free_table_live mem) by done. cbn [mapped unmapped omap list_omap app].
  change (mcap m0) with 16 in Hp. rewrite app_nil_r. cbn [app] in *. rewrite Hp. by rewrite Permutation_app_comm.
Qed.

Lemma win_map_agrees_witness :
  exists m0 vm0, lpp_map_new_with_mode_w (fun n => n <=? 4096) true true = Ok (Some m0, vm0) /\
    lpp_map_new_with_mode one_page true true = Ok (Some m0).
Proof.
  eexists _, _. split; [vm_compute; reflexivity|].
  refine (proj1 (win_map_agrees high_strings (fun n => n <=? 4096) one_page true [MPut (CStr 0x400010) 7; MGet (CInt 3); MClear] _ [Mmap 4096] _ _ _ _)).
  - reflexivity.
  - intros n Hn. cbn. rewrite (proj2 (Z.leb_le 0 n)), (proj2 (Z.ltb_lt n (2 ^ 63))) by lia. reflexivity.
  - repeat constructor; eexists; reflexivity.
  - vm_compute. reflexivity.
Defined.

(** [lpp_map_keys] hands out copies of the string keys; the list retains each copy and the reference the copy
    was born with is never dropped. *)
Example win_keys_leak :
  lpp_map_keys_w high_strings (fun n => n <=? 4096) (fun _ => 0x500010) true (Some (mk_map [mk_entry 0x400010 7 1 1] 1 1 false))
  = Ok (Some (mk_fsl (0x500010 :: replicate 511 0) 1 8 4096 true), [Retain 0x500010], [Mmap 4096], [(0x500010, [107; 49])]).
Proof. vm_compute. reflexivity. Qed.
