(* ===== verification/WinIO.v ===== *)
(** * Files of freestanding Windows (runtime/windows_x86_64_min.c)

    The builtins on files call CreateFileA, ReadFile, WriteFile and their companions of kernel32.  These work on
    [disk]: the content of the files, and the open handles with their positions.  What the system is free
    to do is [win32]: which handle a successful open returns, how much a transfer moves. *)

From stdpp Require Import gmap.
From S2P Require Import Prelude CInt Buf Str WinList.

(** ** The system *)

Record handle := mk_handle { hpath : list Z; hpos : Z; happend : bool }.
Record disk := mk_disk { files : gmap (list Z) (list Z); handles : gmap Z handle }.
Definition set_files (d : disk) f := mk_disk f (handles d).
Definition set_handles (d : disk) h := mk_disk (files d) h.

Inductive creation := CREATE_ALWAYS | OPEN_EXISTING | OPEN_ALWAYS.

(** [moves d n]: how many of [n] bytes a transfer moves, [None] when it fails.  [works]: whether another
    request on a handle or a name is granted. *)
Record win32 := mk_win32 {
  new_handle : disk -> list Z -> option Z;
  moves : disk -> Z -> option Z;
  works : disk -> bool
}.
Definition INVALID_HANDLE_VALUE : Z := -1.
Class Win32Files (k : win32) : Prop := {
  handle_fresh : forall d p h, new_handle k d p = Some h -> handles d !! h = None /\ 0 < h < 2 ^ 63;
  moves_bounds : forall d n m, 0 <= n -> moves k d n = Some m -> 0 <= m <= n
}.

Section kernel32.
Context (k : win32).

Definition CreateFileA (d : disk) (path : list Z) (append : bool) (c : creation) : Z * disk :=
  match c, files d !! path with
  | OPEN_EXISTING, None => (INVALID_HANDLE_VALUE, d)
  | _, file =>
      match new_handle k d path with
      | None => (INVALID_HANDLE_VALUE, d)
      | Some h =>
          let content := match c with CREATE_ALWAYS => [] | _ => default [] file end in
          (h, mk_disk (<[path := content]> (files d)) (<[h := mk_handle path 0 append]> (handles d)))
      end
  end.
Definition CloseHandle (d : disk) (h : Z) : disk := set_handles d (delete h (handles d)).

(** [GetFileSize] without a place for the high half; [GetFileSizeEx]. *)
Definition size_of (d : disk) (h : Z) : option Z :=
  match handles d !! h with None => None | Some s => Some (Z.of_nat (length (default [] (files d !! hpath s)))) end.
Definition GetFileSize (d : disk) (h : Z) : Z := match size_of d h with Some n => u32 n | None => 0xFFFFFFFF end.

(** [content] with [bytes] over it from [off]; a hole before them is zeros. *)
Definition over (content : list Z) (off : nat) (bytes : list Z) : list Z :=
  take off (content ++ replicate (off - length content) 0) ++ bytes ++ drop (off + length bytes) content.

(** What a read of [n] bytes gives; [at_] is the offset of an OVERLAPPED, which also says that the end of the
    file is an error (ERROR_HANDLE_EOF). *)
Inductive read_result := Read (got : list Z) | AtEnd | ReadFails.
Definition ReadFile (d : disk) (h n : Z) (at_ : option Z) : read_result * disk :=
  match handles d !! h with
  | None => (ReadFails, d)
  | Some s =>
      let off := default (hpos s) at_ in
      let rest := drop (Z.to_nat off) (default [] (files d !! hpath s)) in
      match at_, rest with
      | Some _, [] => (AtEnd, d)
      | _, _ =>
          match moves k d (Z.min n (Z.of_nat (length rest))) with
          | None => (ReadFails, d)
          | Some m => (Read (take (Z.to_nat m) rest), set_handles d (<[h := mk_handle (hpath s) (off + m) (happend s)]> (handles d)))
          end
      end
  end.
(** The number of bytes written, [None] when the call fails. *)
Definition WriteFile (d : disk) (h : Z) (bytes : list Z) (at_ : option Z) : option Z * disk :=
  match handles d !! h with
  | None => (None, d)
  | Some s =>
      let content := default [] (files d !! hpath s) in
      let off := if happend s then Z.of_nat (length content) else default (hpos s) at_ in
      match moves k d (Z.of_nat (length bytes)) with
      | None => (None, d)
      | Some m =>
          (Some m, mk_disk (<[hpath s := over content (Z.to_nat off) (take (Z.to_nat m) bytes)]> (files d))
                     (<[h := mk_handle (hpath s) (off + m) (happend s)]> (handles d)))
      end
  end.

(** ** Text *)

Definition put_text_w (d : disk) (path data : cstr) (append : bool) (c : creation) : Z * disk :=
  let '(h, d) := CreateFileA d path append c in
  if h =? INVALID_HANDLE_VALUE then (-1, d)
  else
    let '(r, d) := WriteFile d h (take (Z.to_nat (u32 (slen data))) data) None in
    (match r with Some n => if n =? u32 (slen data) then 0 else -1 | None => -1 end, CloseHandle d h).
Definition lpp_write_file_w (d : disk) (path data : option cstr) : Z * disk :=
  match path, data with Some path, Some data => put_text_w d path data false CREATE_ALWAYS | _, _ => (-1, d) end.
Definition lpp_append_file_w (d : disk) (path data : option cstr) : Z * disk :=
  match path, data with Some path, Some data => put_text_w d path data true OPEN_ALWAYS | _, _ => (-1, d) end.

(** The bytes in front of the first NUL. *)
Fixpoint text_of (b : list Z) : cstr := match b with [] => [] | c :: b => if c =? 0 then [] else c :: text_of b end.

(** A NULL path cannot be opened.  The blocks are used without a test. *)
Definition lpp_read_file_w (al : allocator) (d : disk) (path : option cstr) : outcome (cstr * disk) :=
  let '(h, d) := match path with Some p => CreateFileA d p false OPEN_EXISTING | None => (INVALID_HANDLE_VALUE, d) end in
  if h =? INVALID_HANDLE_VALUE then if al 0%nat 1 then Ok ([], d) else Undef
  else
    let size := GetFileSize d h in
    if al 0%nat (size + 1) then
      let '(r, d) := ReadFile d h size None in
      let got := match r with Read got => got | _ => [] end in
      Ok (text_of got, CloseHandle d h)
    else Undef.

Definition lpp_delete_file_w (d : disk) (path : option cstr) : Z * disk :=
  match path with
  | Some p => match files d !! p with Some _ => if works k d then (0, set_files d (delete p (files d))) else (-1, d) | None => (-1, d) end
  | None => (-1, d)
  end.
(** [MoveFileA] does not replace a file. *)
Definition lpp_file_move_w (d : disk) (source destination : option cstr) : Z * disk :=
  match source, destination with
  | Some s, Some t =>
      match files d !! s, files d !! t with
      | Some c, None => if works k d then (0, set_files d (<[t := c]> (delete s (files d)))) else (-1, d)
      | Some c, Some _ => if works k d && bool_decide (s = t) then (0, d) else (-1, d)
      | None, _ => (-1, d)
      end
  | _, _ => (-1, d)
  end.
Definition lpp_file_exists_w (d : disk) (path : option cstr) : Z :=
  match path with Some p => if decide (is_Some (files d !! p)) then 1 else 0 | None => 0 end.
Definition lpp_file_size_w (d : disk) (path : option cstr) : Z * disk :=
  let '(h, d) := match path with Some p => CreateFileA d p false OPEN_EXISTING | None => (INVALID_HANDLE_VALUE, d) end in
  if h =? INVALID_HANDLE_VALUE then (-1, d) else (GetFileSize d h, CloseHandle d h).

(** ** Buffers in files *)

(** A buffer of no bytes gets 64; [va n] tells whether VirtualAlloc serves [n] bytes. *)
Definition buf_alloc_w (va : Z -> bool) (size : Z) : option Buf :=
  let size := if size <=? 0 then 64 else size in
  if va (lpp_page_round_w (u64 (u64 size + 8))) then Some (mkBuf size (replicate (Z.to_nat size) 0)) else None.

(** [while (total < size)]: every turn but the last moves at least one byte. *)
Fixpoint read_loop_w (fuel : nat) (d : disk) (h size total : Z) (b : list Z) : outcome (Z * list Z * disk) :=
  match fuel with
  | O => NoFuel
  | S fuel =>
      if total <? size then
        let '(r, d) := ReadFile d h (size - total) None in
        match r with
        | Read ((_ :: _) as got) =>
            let! b := memcpy b total got 0 (Z.of_nat (length got)) in
            read_loop_w fuel d h size (u32 (total + Z.of_nat (length got))) b
        | _ => Ok (total, b, d)
        end
      else Ok (total, b, d)
  end.
Definition lpp_buf_read_w (va : Z -> bool) (d : disk) (path : option cstr) : outcome (option Buf * disk) :=
  match path with
  | None => Ok (None, d)
  | Some p =>
      let '(h, d) := CreateFileA d p false OPEN_EXISTING in
      if h =? INVALID_HANDLE_VALUE then Ok (None, d)
      else
        let size := GetFileSize d h in
        match buf_alloc_w va size with
        | None => Ok (None, CloseHandle d h)
        | Some buf =>
            let! '(total, b, d) := read_loop_w (S (Z.to_nat size)) d h size 0 (bdata buf) in
            let d := CloseHandle d h in
            Ok (if negb (total =? size) then None else Some (mkBuf (bsize buf) b), d)
        end
  end.

(** [total] is 32 bits wide. *)
Fixpoint write_loop_w (fuel : nat) (d : disk) (h size total : Z) (b : list Z) : outcome (bool * disk) :=
  match fuel with
  | O => NoFuel
  | S fuel =>
      if total <? size then
        let n := u32 (size - total) in
        if Z.of_nat (length b) <? total + n then Undef
        else
          let '(r, d) := WriteFile d h (take (Z.to_nat n) (drop (Z.to_nat total) b)) None in
          match r with
          | Some written => if written =? 0 then Ok (false, d) else write_loop_w fuel d h size (u32 (total + written)) b
          | None => Ok (false, d)
          end
      else Ok (true, d)
  end.
Definition lpp_buf_write_w (fuel : nat) (d : disk) (path : option cstr) (p : option Buf) : outcome (Z * disk) :=
  match path, p with
  | Some path, Some b =>
      let '(h, d) := CreateFileA d path false CREATE_ALWAYS in
      if h =? INVALID_HANDLE_VALUE then Ok (-1, d)
      else
        let! '(whole, d) := write_loop_w fuel d h (bsize b) 0 (bdata b) in
        Ok (if (whole : bool) then 0 else -1, CloseHandle d h)
  | _, _ => Ok (-1, d)
  end.

(** ** Positional transfers *)

Definition lpp_file_open_w (d : disk) (path : option cstr) (flags : Z) : Z * disk :=
  match path with None => (-1, d) | Some p => CreateFileA d p false OPEN_ALWAYS end.
Definition lpp_file_close_w (d : disk) (fd : Z) : disk :=
  if (fd <=? 0) || (fd =? INVALID_HANDLE_VALUE) then d else CloseHandle d fd.

(** The guards the two transfers share. *)
Definition allowed_w (fd : Z) (buf : option Buf) (buf_off file_off len : Z) : outcome (option Buf) :=
  match buf with
  | None => Ok None
  | Some b =>
      if (fd <=? 0) || (len <=? 0) || (file_off <? 0) || (buf_off <? 0) then Ok None
      else let! e := chk64 (buf_off + len) in Ok (if e >? bsize b then None else Some b)
  end.
(** The two halves of an offset in an OVERLAPPED, put together by the system. *)
Definition overlapped (file_off : Z) : Z :=
  Z.shiftl (Z.land (Z.shiftr file_off 32) 0xFFFFFFFF) 32 + Z.land file_off 0xFFFFFFFF.
Definition lpp_file_pread_w (d : disk) (fd : Z) (buf : option Buf) (buf_off file_off len : Z) : outcome (Z * option Buf * disk) :=
  let! o := allowed_w fd buf buf_off file_off len in
  match o with
  | None => Ok (-1, buf, d)
  | Some b =>
      let '(r, d) := ReadFile d fd (u32 len) (Some (overlapped file_off)) in
      match r with
      | Read got =>
          let! x := memcpy (bdata b) buf_off got 0 (Z.of_nat (length got)) in
          Ok (Z.of_nat (length got), Some (mkBuf (bsize b) x), d)
      | AtEnd => Ok (0, buf, d)
      | ReadFails => Ok (-1, buf, d)
      end
  end.
Definition lpp_file_pwrite_w (d : disk) (fd : Z) (buf : option Buf) (buf_off file_off len : Z) : outcome (Z * disk) :=
  let! o := allowed_w fd buf buf_off file_off len in
  match o with
  | None => Ok (-1, d)
  | Some b =>
      if Z.of_nat (length (bdata b)) <? buf_off + u32 len then Undef
      else
        let '(r, d) := WriteFile d fd (take (Z.to_nat (u32 len)) (drop (Z.to_nat buf_off) (bdata b))) (Some (overlapped file_off)) in
        Ok (default (-1) r, d)
  end.
Definition lpp_file_fsync_w (d : disk) (fd : Z) : Z :=
  if (fd <=? 0) || (fd =? INVALID_HANDLE_VALUE) then -1
  else match handles d !! fd with Some _ => if works k d then 0 else -1 | None => -1 end.
Definition lpp_file_fdatasync_w (d : disk) (fd : Z) : Z := lpp_file_fsync_w d fd.
Definition lpp_file_ftruncate_w (d : disk) (fd size : Z) : Z * disk :=
  if (fd <=? 0) || (size <? 0) then (-1, d)
  else
    match handles d !! fd with
    | None => (-1, d)
    | Some s =>
        let d := set_handles d (<[fd := mk_handle (hpath s) size (happend s)]> (handles d)) in
        if works k d then
          let c := default [] (files d !! hpath s) in
          (0, set_files d (<[hpath s := take (Z.to_nat size) (c ++ replicate (Z.to_nat size - length c) 0)]> (files d)))
        else (-1, d)
    end.
Definition lpp_fd_size_w (d : disk) (fd : Z) : Z :=
  if fd <=? 0 then -1 else default (-1) (size_of d fd).
End kernel32.

(** ** Handles *)

Section handles.
Context (k : win32) `{!Win32Files k}.

(** [d'] has the handles of [d] but for [h]. *)
Definition but (h : Z) (d d' : disk) : Prop := forall x, x <> h -> handles d' !! x = handles d !! x.
Lemma but_trans h d1 d2 d3 : but h d1 d2 -> but h d2 d3 -> but h d1 d3.
Proof. intros H1 H2 x Hx. by rewrite H2, H1. Qed.
Lemma create_cases d p a c : CreateFileA k d p a c = (INVALID_HANDLE_VALUE, d) \/
  exists h d', CreateFileA k d p a c = (h, d') /\ (h =? INVALID_HANDLE_VALUE) = false /\ handles d !! h = None /\ but h d d'.
Proof.
  unfold CreateFileA. assert (forall content : list Z, (match new_handle k d p with None => (INVALID_HANDLE_VALUE, d) | Some h =>
      (h, mk_disk (<[p := content]> (files d)) (<[h := mk_handle p 0 a]> (handles d))) end) = (INVALID_HANDLE_VALUE, d) \/
    exists h d', (match new_handle k d p with None => (INVALID_HANDLE_VALUE, d) | Some h =>
      (h, mk_disk (<[p := content]> (files d)) (<[h := mk_handle p 0 a]> (handles d))) end) = (h, d') /\ (h =? INVALID_HANDLE_VALUE) = false /\
      handles d !! h = None /\ but h d d') as Hgo.
  { intros content. destruct (new_handle k d p) as [h|] eqn:E; [right|by left]. destruct (handle_fresh d p h E) as [H1 H2].
    do 2 eexists. split; [done|]. split; [apply Z.eqb_neq; unfold INVALID_HANDLE_VALUE; lia|]. split; [done|]. intros x Hx. by apply lookup_insert_ne. }
  destruct c, (files d !! p); try apply Hgo. by left.
Qed.
Lemma read_but d h n o : but h d (ReadFile k d h n o).2.
Proof.
  unfold ReadFile. destruct (handles d !! h); [|by intros x]. destruct o, (drop _ _); try (by intros x); destruct (moves _ _ _); try (by intros x);
    intros x Hx; by apply lookup_insert_ne.
Qed.
Lemma write_but d h b o : but h d (WriteFile k d h b o).2.
Proof.
  unfold WriteFile. destruct (handles d !! h); [|by intros x]. destruct (moves _ _ _); [|by intros x]. intros x Hx. by apply lookup_insert_ne.
Qed.
Lemma wfile_closed_again d d' h : handles d !! h = None -> but h d d' -> handles (CloseHandle d' h) = handles d.
Proof.
  intros Hh Hb. apply map_eq. intros x. cbn. destruct (decide (x = h)) as [->|Hx]; [by rewrite lookup_delete_eq|].
  rewrite lookup_delete_ne by done. by apply Hb.
Qed.
Lemma but_refl h d : but h d d.
Proof. by intros x. Qed.

Lemma read_loop_but fuel h size : forall d total b, match read_loop_w k fuel d h size total b with Ok (_, _, d') => but h d d' | _ => True end.
Proof.
  induction fuel as [|fuel IH]; intros d total b; cbn [read_loop_w]; [done|]. destruct (total <? size); [|apply but_refl].
  pose proof (read_but d h (size - total) None) as Hb. destruct (ReadFile _ _ _ _ _) as [[[|c got]| |] d1]; try done. cbn [snd] in Hb.
  destruct (memcpy _ _ _ _ _) as [b'| | |]; try done. cbn [obind]. specialize (IH d1 (u32 (total + Z.of_nat (length (c :: got)))) b').
  destruct (read_loop_w _ _ _ _ _ _ _) as [[[? ?] ?]| | |]; try done. by eapply but_trans.
Qed.
Lemma write_loop_but fuel h size b : forall d total, match write_loop_w k fuel d h size total b with Ok (_, d') => but h d d' | _ => True end.
Proof.
  induction fuel as [|fuel IH]; intros d total; cbn [write_loop_w]; [done|]. destruct (total <? size); [|apply but_refl].
  destruct (_ <? _); [done|]. match goal with |- context [WriteFile k d h ?x None] => pose proof (write_but d h x None) as Hb; destruct (WriteFile k d h x None) as [[w|] d1] end;
    cbn [snd] in Hb; [|done]. destruct (w =? 0); [done|].
  specialize (IH d1 (u32 (total + w))). destruct (write_loop_w _ _ _ _ _ _ _) as [[? ?]| | |]; try done. by eapply but_trans.
Qed.

(** [r] leaves the open handles of [d] as they are. *)
Definition keeps {A} (d : disk) (m : outcome (A * disk)) : Prop := match m with Ok (_, d') => handles d' = handles d | _ => True end.

Lemma put_keeps d p t a c : handles (put_text_w k d p t a c).2 = handles d.
Proof.
  unfold put_text_w. destruct (create_cases d p a c) as [->|(h & d1 & -> & -> & Hh & H1)]; [done|].
  match goal with |- context [WriteFile k d1 h ?x None] => pose proof (write_but d1 h x None) as H2; destruct (WriteFile k d1 h x None) as [r d2] end.
  cbn [snd] in H2. by apply wfile_closed_again, (but_trans h d d1 d2).
Qed.

(** Whatever the system answers, no builtin that opens a file for itself leaves its handle open. *)
Theorem win_handles_closed al va fuel d p t b :
  handles (lpp_write_file_w k d p t).2 = handles d /\ handles (lpp_append_file_w k d p t).2 = handles d /\
  keeps d (lpp_read_file_w k al d p) /\ handles (lpp_file_size_w k d p).2 = handles d /\
  keeps d (lpp_buf_read_w k va d p) /\ keeps d (lpp_buf_write_w k fuel d p b).
Proof.
  split_and!.
  - unfold lpp_write_file_w. destruct p, t; try done. apply put_keeps.
  - unfold lpp_append_file_w. destruct p, t; try done. apply put_keeps.
  - unfold lpp_read_file_w. destruct p as [p|]; [|cbn; by destruct (al 0%nat 1)].
    destruct (create_cases d p false OPEN_EXISTING) as [->|(h & d1 & -> & -> & Hh & H1)]; [cbn; by destruct (al 0%nat 1)|].
    destruct (al _ _); [|done]. pose proof (read_but d1 h (GetFileSize d1 h) None) as H2. destruct (ReadFile k d1 h _ None) as [r d2]. cbn [snd] in H2.
    by apply wfile_closed_again, (but_trans h d d1 d2).
  - unfold lpp_file_size_w. destruct p as [p|]; [|done]. destruct (create_cases d p false OPEN_EXISTING) as [->|(h & d1 & -> & -> & Hh & H1)]; [done|].
    by apply wfile_closed_again.
  - unfold lpp_buf_read_w. destruct p as [p|]; [|done]. destruct (create_cases d p false OPEN_EXISTING) as [->|(h & d1 & -> & -> & Hh & H1)]; [done|].
    destruct (buf_alloc_w _ _) as [buf|]; [|by apply wfile_closed_again].
    pose proof (read_loop_but (S (Z.to_nat (GetFileSize d1 h))) h (GetFileSize d1 h) d1 0 (bdata buf)) as H2.
    destruct (read_loop_w _ _ _ _ _ _ _) as [[[total x] d2]| | |]; try done. cbn [obind]. by apply wfile_closed_again, (but_trans h d d1 d2).
  - unfold lpp_buf_write_w. destruct p as [p|], b as [b|]; try done. destruct (create_cases d p false CREATE_ALWAYS) as [->|(h & d1 & -> & -> & Hh & H1)]; [done|].
    pose proof (write_loop_but fuel h (bsize b) (bdata b) d1 0) as H2.
    destruct (write_loop_w _ _ _ _ _ _ _) as [[whole d2]| | |]; try done. cbn [obind]. by apply wfile_closed_again, (but_trans h d d1 d2).
Qed.
End handles.

(** ** Contents *)

Lemma dword_id z : 0 <= z < 2 ^ 32 -> u32 z = z.
Proof. intros Hz. by apply Z.mod_small. Qed.

(** A system that serves every request in full. *)
Record serves (k : win32) : Prop := {
  opens : forall d p, is_Some (new_handle k d p);
  moves_all : forall d n, 0 <= n -> moves k d n = Some n;
  grants : forall d, works k d = true
}.

Lemma over_end (c b : list Z) : over c (length c) b = c ++ b.
Proof. unfold over. rewrite Nat.sub_diag. cbn [replicate]. by rewrite app_nil_r, firstn_all, drop_ge, app_nil_r by lia. Qed.
Lemma over_read (c b : list Z) off : take (length b) (drop off (over c off b)) = b.
Proof.
  unfold over. rewrite drop_app_length' by (rewrite length_take, length_app, length_replicate; lia). by rewrite take_app_length.
Qed.

Section served.
Context (k : win32) `{!Win32Files k} (Hk : serves k).

Lemma wfile_create_ok d p a c : (c = OPEN_EXISTING -> is_Some (files d !! p)) -> exists h, handles d !! h = None /\ (h =? INVALID_HANDLE_VALUE) = false /\ 0 < h < 2 ^ 63 /\
  CreateFileA k d p a c = (h, mk_disk (<[p := match c with CREATE_ALWAYS => [] | _ => default [] (files d !! p) end]> (files d)) (<[h := mk_handle p 0 a]> (handles d))).
Proof.
  intros He. destruct (opens k Hk d p) as [h Hh]. destruct (handle_fresh d p h Hh) as [H1 H2]. exists h. split; [done|].
  split; [apply Z.eqb_neq; unfold INVALID_HANDLE_VALUE; lia|]. split; [done|]. unfold CreateFileA. rewrite Hh.
  destruct c, (files d !! p) eqn:E; try done. by destruct (He eq_refl).
Qed.
Lemma wfile_write_ok d h p pos a c b o : handles d !! h = Some (mk_handle p pos a) -> files d !! p = Some c ->
  let off := if a then Z.of_nat (length c) else default pos o in
  WriteFile k d h b o = (Some (Z.of_nat (length b)), mk_disk (<[p := over c (Z.to_nat off) b]> (files d)) (<[h := mk_handle p (off + Z.of_nat (length b)) a]> (handles d))).
Proof.
  intros Hh Hc. unfold WriteFile. rewrite Hh. cbn [hpath hpos happend]. rewrite Hc. cbn [default]. unfold id. rewrite (moves_all k Hk) by lia.
  by rewrite Nat2Z.id, firstn_all.
Qed.
Lemma wfile_read_ok d h p pos a c n : handles d !! h = Some (mk_handle p pos a) -> files d !! p = Some c -> 0 <= n ->
  (ReadFile k d h n None).1 = Read (take (Z.to_nat n) (drop (Z.to_nat pos) c)) /\ files (ReadFile k d h n None).2 = files d.
Proof.
  intros Hh Hc Hn. unfold ReadFile. rewrite Hh. cbn [hpath hpos happend default]. rewrite Hc. cbn [default]. unfold id. rewrite (moves_all k Hk) by lia.
  split; [|done]. cbn [fst]. f_equal. destruct (Z.le_ge_cases n (Z.of_nat (length (drop (Z.to_nat pos) c)))).
  - by rewrite Z.min_l by lia.
  - by rewrite Z.min_r, !take_ge by lia.
Qed.
Lemma wfile_size_ok d h p pos a c : handles d !! h = Some (mk_handle p pos a) -> files d !! p = Some c -> Z.of_nat (length c) < 2 ^ 32 -> GetFileSize d h = Z.of_nat (length c).
Proof. intros Hh Hc Hn. unfold GetFileSize, size_of. rewrite Hh. cbn [hpath]. rewrite Hc. cbn. apply dword_id. lia. Qed.

Lemma put_ok d p t a c : slen t < 2 ^ 32 -> (c = CREATE_ALWAYS /\ a = false \/ c = OPEN_ALWAYS /\ a = true) ->
  (put_text_w k d p t a c).1 = 0 /\ files (put_text_w k d p t a c).2 = <[p := match c with CREATE_ALWAYS => [] | _ => default [] (files d !! p) end ++ t]> (files d).
Proof.
  intros Ht Hc. unfold put_text_w. destruct (wfile_create_ok d p a c) as (h & Hh & Hne & _ & E); [by destruct Hc as [[-> _]|[-> _]]|]. rewrite E, Hne. clear E.
  assert (0 <= slen t) by (unfold slen; lia). rewrite dword_id by lia. unfold slen. rewrite Nat2Z.id, firstn_all.
  set (c0 := match c with CREATE_ALWAYS => [] | _ => _ end).
  rewrite (wfile_write_ok _ h p 0 a c0 t None) by (cbn; apply lookup_insert_eq). cbv zeta. cbn [default files handles]. rewrite Z.eqb_refl. split; [done|].
  cbn [CloseHandle set_handles files snd]. rewrite insert_insert_eq. f_equal. destruct Hc as [[-> ->]|[-> ->]]; [|by rewrite Nat2Z.id, over_end].
  exact (over_end [] t).
Qed.

Lemma text_of_ok c : cstr_ok c -> text_of c = c.
Proof. induction 1 as [|x c Hx _ IH]; [done|]. cbn. rewrite (proj2 (Z.eqb_neq x 0)) by lia. by rewrite IH. Qed.
End served.

Section whole.
Context (k : win32) `{!Win32Files k} (Hk : serves k).

Lemma read_text_ok al d p c : (forall i n, al i n = true) -> files d !! p = Some c -> cstr_ok c -> Z.of_nat (length c) < 2 ^ 32 ->
  exists d', lpp_read_file_w k al d (Some p) = Ok (c, d') /\ files d' = files d.
Proof.
  intros Hal Hc Ht Hn. unfold lpp_read_file_w. destruct (wfile_create_ok k Hk d p false OPEN_EXISTING ltac:(by eexists)) as (h & _ & Hne & _ & ->).
  rewrite Hne, Hal, Hc. cbn [default]. unfold id. rewrite (insert_id (files d)) by done. set (d1 := mk_disk _ _).
  assert (handles d1 !! h = Some (mk_handle p 0 false)) as H1 by apply lookup_insert_eq.
  rewrite (wfile_size_ok d1 h p 0 false c H1 Hc Hn). destruct (wfile_read_ok k Hk d1 h p 0 false c (Z.of_nat (length c)) H1 Hc ltac:(lia)) as [E1 E2].
  destruct (ReadFile k d1 h _ None) as [r d2]. cbn [fst snd] in E1, E2. subst r. rewrite Nat2Z.id, drop_0, firstn_all, text_of_ok by done.
  by eexists.
Qed.
Lemma file_size_ok d p c : files d !! p = Some c -> Z.of_nat (length c) < 2 ^ 32 -> (lpp_file_size_w k d (Some p)).1 = Z.of_nat (length c).
Proof.
  intros Hc Hn. unfold lpp_file_size_w. destruct (wfile_create_ok k Hk d p false OPEN_EXISTING ltac:(by eexists)) as (h & _ & Hne & _ & ->). rewrite Hne, Hc. cbn [fst default].
  apply (wfile_size_ok _ _ p 0 false); [apply lookup_insert_eq|apply lookup_insert_eq|done].
Qed.

Lemma buf_write_ok d p b : buf_ok b -> 0 < bsize b < 2 ^ 32 ->
  exists d', lpp_buf_write_w k 2 d (Some p) (Some b) = Ok (0, d') /\ files d' = <[p := bdata b]> (files d).
Proof.
  intros (Hn & _ & _) Hs. unfold lpp_buf_write_w. destruct (wfile_create_ok k Hk d p false CREATE_ALWAYS ltac:(done)) as (h & _ & Hne & _ & E). rewrite E, Hne. clear E.
  cbn [write_loop_w]. rewrite (proj2 (Z.ltb_lt 0 _)) by lia. rewrite Z.sub_0_r, dword_id by lia. rewrite (proj2 (Z.ltb_ge _ _)) by lia.
  change (drop (Z.to_nat 0) (bdata b)) with (bdata b). rewrite take_ge by lia.
  rewrite (wfile_write_ok k Hk _ h p 0 false [] (bdata b) None) by (cbn; apply lookup_insert_eq). cbv zeta. cbn [default Z.add].
  rewrite <- Hn. rewrite (proj2 (Z.eqb_neq _ _)) by lia. rewrite dword_id, Z.ltb_irrefl by lia. cbn [obind]. eexists. split; [done|].
  cbn [CloseHandle set_handles files]. rewrite insert_insert_eq. f_equal. exact (over_end [] (bdata b)).
Qed.

Lemma buf_read_ok va d p c : (forall n, va n = true) -> files d !! p = Some c -> 0 < Z.of_nat (length c) < 2 ^ 32 ->
  exists d', lpp_buf_read_w k va d (Some p) = Ok (Some (mkBuf (Z.of_nat (length c)) c), d') /\ files d' = files d.
Proof.
  intros Hva Hc Hn. unfold lpp_buf_read_w. destruct (wfile_create_ok k Hk d p false OPEN_EXISTING ltac:(by eexists)) as (h & _ & Hne & _ & ->).
  rewrite Hne, Hc. cbn [default]. unfold id. rewrite (insert_id (files d)) by done. set (d1 := mk_disk _ _).
  assert (handles d1 !! h = Some (mk_handle p 0 false)) as H1 by apply lookup_insert_eq.
  rewrite (wfile_size_ok d1 h p 0 false c H1 Hc) by lia. unfold buf_alloc_w. rewrite (proj2 (Z.leb_gt _ _)) by lia. rewrite Hva.
  cbn [read_loop_w bdata bsize]. rewrite (proj2 (Z.ltb_lt 0 _)) by lia. rewrite Z.sub_0_r.
  destruct (wfile_read_ok k Hk d1 h p 0 false c (Z.of_nat (length c)) H1 Hc ltac:(lia)) as [E1 E2].
  destruct (ReadFile k d1 h _ None) as [r d2]. cbn [fst snd] in E1, E2. subst r. change (drop (Z.to_nat 0) c) with c. rewrite !Nat2Z.id, firstn_all.
  destruct c as [|x c]; [cbn in Hn; lia|]. set (xs := x :: c) in *. 
  assert (memcpy (replicate (length xs) 0) 0 xs 0 (Z.of_nat (length xs)) = Ok xs) as ->.
  { pose proof (memcpy_in (replicate (length xs) 0) 0 xs 0 (length xs)) as Hm. rewrite Hm by (rewrite ?length_replicate; lia).
    cbn [Z.to_nat take app]. rewrite drop_0, firstn_all, drop_ge, app_nil_r by (rewrite length_replicate; lia). done. }
  cbn [obind]. rewrite Z.add_0_l, dword_id by lia. destruct (length xs) as [|n] eqn:El; [done|]. cbn [read_loop_w]. rewrite Z.ltb_irrefl. cbn [obind].
  rewrite Z.eqb_refl. cbn [negb]. by eexists.
Qed.
End whole.

(** What is written can be read back.  On a system that serves every request in full a text file holds exactly
    the data written, or its old content and the data appended; it is read back in full, has its size, exists,
    moves and goes; and a buffer of at least one byte comes back from its file as it was.  (Below 4 GiB:
    sizes are 32 bits wide.) *)
Theorem win_files_exact k `{!Win32Files k} al va d : serves k -> (forall i n, al i n = true) -> (forall n, va n = true) ->
  (forall p t, slen t < 2 ^ 32 -> let r := lpp_write_file_w k d (Some p) (Some t) in r.1 = 0 /\ files r.2 = <[p := t]> (files d)) /\
  (forall p t, slen t < 2 ^ 32 -> let r := lpp_append_file_w k d (Some p) (Some t) in r.1 = 0 /\ files r.2 = <[p := default [] (files d !! p) ++ t]> (files d)) /\
  (forall p c, files d !! p = Some c -> Z.of_nat (length c) < 2 ^ 32 ->
    (cstr_ok c -> exists d', lpp_read_file_w k al d (Some p) = Ok (c, d') /\ files d' = files d) /\
    (lpp_file_size_w k d (Some p)).1 = Z.of_nat (length c) /\ lpp_file_exists_w d (Some p) = 1 /\
    lpp_delete_file_w k d (Some p) = (0, set_files d (delete p (files d))) /\
    (forall q, files d !! q = None -> lpp_file_move_w k d (Some p) (Some q) = (0, set_files d (<[q := c]> (delete p (files d)))))) /\
  (forall p b, buf_ok b -> 0 < bsize b < 2 ^ 32 -> exists d1 d2, lpp_buf_write_w k 2 d (Some p) (Some b) = Ok (0, d1) /\
    lpp_buf_read_w k va d1 (Some p) = Ok (Some b, d2) /\ files d2 = <[p := bdata b]> (files d)).
Proof.
  intros Hk Hal Hva. split_and!.
  - intros p t Ht. apply put_ok; [done..|by left].
  - intros p t Ht. apply put_ok; [done..|by right].
  - intros p c Hc Hn. split; [intros Ht; by apply read_text_ok|]. split; [by apply file_size_ok|]. split; [|split].
    + unfold lpp_file_exists_w. by rewrite decide_True by (by eexists).
    + unfold lpp_delete_file_w. by rewrite Hc, (grants k Hk).
    + intros q Hq. unfold lpp_file_move_w. by rewrite Hc, Hq, (grants k Hk).
  - intros p b Hb Hs. destruct (buf_write_ok k Hk d p b Hb Hs) as (d1 & E1 & F1). destruct Hb as (Hn & _ & _).
    destruct (buf_read_ok k Hk va d1 p (bdata b) Hva) as (d2 & E2 & F2); [rewrite F1; apply lookup_insert_eq|lia|].
    exists d1, d2. split_and!; [done| |by rewrite F2]. rewrite E2. destruct b as [n x]. cbn in Hn. by rewrite Hn.
Qed.

(** ** Positional transfers *)

Lemma overlapped_id off : 0 <= off < 2 ^ 63 -> overlapped off = off.
Proof.
  intros Ho. unfold overlapped. change 0xFFFFFFFF with (Z.ones 32). rewrite !Z.land_ones by lia.
  rewrite Z.shiftr_div_pow2, Z.shiftl_mul_pow2 by lia. rewrite (Z.mod_small (off / 2 ^ 32)).
  - rewrite Z.mul_comm. symmetry. apply Z.div_mod. lia.
  - split; [apply Z.div_pos; lia|]. apply Z.div_lt_upper_bound; lia.
Qed.

(** The transfer is refused, or lies within the buffer. *)
Lemma allowed_cases fd b buf_off file_off len : buf_ok b -> buf_off + len <= INT64_MAX ->
  (allowed_w fd (Some b) buf_off file_off len = Ok None /\ ~ (0 < fd /\ 0 < len /\ 0 <= file_off /\ 0 <= buf_off /\ buf_off + len <= bsize b)) \/
  (allowed_w fd (Some b) buf_off file_off len = Ok (Some b) /\ 0 < fd /\ 0 < len /\ 0 <= file_off /\ 0 <= buf_off /\ buf_off + len <= bsize b).
Proof.
  intros (Hn & Hm & _) Hs. unfold allowed_w. destruct (Z.leb_spec fd 0); [left; split; [done|lia]|]. destruct (Z.leb_spec len 0); [left; split; [done|lia]|].
  destruct (Z.ltb_spec file_off 0); [left; split; [done|lia]|]. destruct (Z.ltb_spec buf_off 0); [left; split; [done|lia]|]. cbn [orb].
  rewrite chk64_ok by (unfold INT64_MIN in *; lia). cbn [obind]. rewrite Z.gtb_ltb. destruct (Z.ltb_spec (bsize b) (buf_off + len)); [left|right]; split; done || lia.
Qed.

Lemma over_inside (c x : list Z) off : (off <= length c)%nat -> over c off x = take off c ++ x ++ drop (off + length x) c.
Proof. intros H. unfold over. replace (off - length c)%nat with 0%nat by lia. cbn [replicate]. by rewrite app_nil_r. Qed.

Lemma read_at_cases k `{!Win32Files k} d h n o : 0 <= n -> match ReadFile k d h n (Some o) with
  | (Read got, d') => files d' = files d /\ Z.of_nat (length got) <= n | (_, d') => files d' = files d /\ True end.
Proof.
  intros Hn. unfold ReadFile. destruct (handles d !! h); [|done]. destruct (drop _ _) as [|x r]; [done|].
  destruct (moves k d _) as [m|] eqn:E; [|done]. apply moves_bounds in E; [|lia]. split; [done|]. rewrite length_take. lia.
Qed.

(** Positional transfers stay inside the buffer whatever the system answers: a call returns -1 without touching
    it, or moves at most [len] bytes, and what a read stores goes to [buf_off] and behind.  A system that serves
    in full gives back at an offset what was written there, and the size of the buffer never changes. *)
Theorem win_positional_exact k `{!Win32Files k} d fd b buf_off file_off len : buf_ok b -> buf_off + len <= INT64_MAX -> len < 2 ^ 32 ->
  wp (lpp_file_pread_w k d fd (Some b) buf_off file_off len) (fun '(r, b', d') => exists got, b' = Some (mkBuf (bsize b) (if r <? 0 then bdata b else
      over (bdata b) (Z.to_nat buf_off) got)) /\ (r = -1 \/ r = Z.of_nat (length got) /\ r <= len) /\ files d' = files d) /\
  wp (lpp_file_pwrite_w k d fd (Some b) buf_off file_off len) (fun '(r, _) => r = -1 \/ 0 <= r <= len) /\
  (serves k -> 0 < fd -> 0 < len -> 0 <= file_off < 2 ^ 63 -> 0 <= buf_off -> buf_off + len <= bsize b ->
    forall p pos c, handles d !! fd = Some (mk_handle p pos false) -> files d !! p = Some c ->
    exists d1 d2, lpp_file_pwrite_w k d fd (Some b) buf_off file_off len = Ok (len, d1) /\
      files d1 = <[p := over c (Z.to_nat file_off) (take (Z.to_nat len) (drop (Z.to_nat buf_off) (bdata b)))]> (files d) /\
      lpp_file_pread_w k d1 fd (Some b) buf_off file_off len = Ok (len, Some b, d2)).
Proof.
  intros Hb Hs Hl. pose proof Hb as (Hn & Hm & _). split_and!.
  - unfold lpp_file_pread_w. destruct (allowed_cases fd b buf_off file_off len Hb Hs) as [[-> _]|(-> & Hfd & Hlen & Hf & Ho & He)]; cbn [obind].
    { exists []. destruct b. split_and!; try done. by left. }
    rewrite (dword_id len) by lia. pose proof (read_at_cases k d fd len (overlapped file_off) ltac:(lia)) as Hr.
    destruct (ReadFile k d fd len _) as [[got| |] d1]; destruct Hr as [F Hr].
    + rewrite memcpy_in by (unfold INT64_MAX in *; pow2; lia). cbn [obind wp].
      exists got. rewrite (proj2 (Z.ltb_ge _ _)) by lia. rewrite over_inside by lia. split; [|split; [right; lia|done]].
      change (drop (Z.to_nat 0) got) with got. by rewrite firstn_all.
    + exists []. cbn. rewrite over_inside by (cbn; lia). cbn. rewrite Nat.add_0_r, take_drop. destruct b. split_and!; try done. right. cbn. lia.
    + exists []. cbn. destruct b. split_and!; try done. by left.
  - unfold lpp_file_pwrite_w. destruct (allowed_cases fd b buf_off file_off len Hb Hs) as [[-> _]|(-> & Hfd & Hlen & Hf & Ho & He)]; cbn [obind]; [by left|].
    rewrite (dword_id len) by lia. rewrite (proj2 (Z.ltb_ge _ _)) by lia. set (x := take _ _).
    assert (length x = Z.to_nat len) as Hx by (unfold x; rewrite length_take, length_drop; lia).
    unfold WriteFile. destruct (handles d !! fd); [|by left]. destruct (moves k d (Z.of_nat (length x))) as [m|] eqn:E; [|by left].
    apply moves_bounds in E; [|lia]. right. cbn. lia.
  - intros Hk Hfd Hlen Hf Ho He p pos c Hh Hc. set (x := take (Z.to_nat len) (drop (Z.to_nat buf_off) (bdata b))).
    assert (length x = Z.to_nat len) as Hx by (unfold x; rewrite length_take, length_drop; lia).
    unfold lpp_file_pwrite_w, lpp_file_pread_w. destruct (allowed_cases fd b buf_off file_off len Hb Hs) as [[_ Hno]|(-> & _)]; [lia|]. cbn [obind].
    rewrite (dword_id len) by lia. rewrite (proj2 (Z.ltb_ge _ _)) by lia. rewrite overlapped_id by done. fold x.
    rewrite (wfile_write_ok k Hk d fd p pos false c x (Some file_off) Hh Hc). cbv zeta. cbn [default]. rewrite Hx, Z2Nat.id by lia.
    set (d1 := mk_disk _ _). exists d1.
    assert (exists d2, ReadFile k d1 fd len (Some file_off) = (Read x, d2)) as [d2 ->].
    { unfold ReadFile. cbn [d1 handles files]. rewrite lookup_insert_eq. cbn [hpath hpos happend default]. unfold id. rewrite lookup_insert_eq. cbn [default]. unfold id.
      assert (exists y, drop (Z.to_nat file_off) (over c (Z.to_nat file_off) x) = x ++ y) as [y ->].
      { unfold over. rewrite drop_app_length' by (rewrite length_take, length_app, length_replicate; lia). by eexists. }
      destruct x as [|x0 x']; [cbn in Hx; lia|]. set (x := x0 :: x') in *. cbn [app]. change (x0 :: x' ++ y) with (x ++ y).
      rewrite length_app, (moves_all k Hk) by lia. rewrite Z.min_l by lia. rewrite <- Hx, take_app_length. by eexists. }
    eexists. split; [done|]. split; [done|]. rewrite memcpy_in by (unfold INT64_MAX in *; pow2; lia).
    cbn [obind]. change (drop (Z.to_nat 0) x) with x. rewrite firstn_all, Hx, Z2Nat.id by lia.
    assert (take (Z.to_nat buf_off) (bdata b) ++ x ++ drop (Z.to_nat buf_off + Z.to_nat len) (bdata b) = bdata b) as ->; [|by destruct b].
    rewrite <- drop_drop. unfold x. by rewrite !take_drop.
Qed.

Definition all_served : win32 := mk_win32 (fun d p => if decide (handles d !! 7 = None) then Some 7 else None) (fun d n => Some n) (fun d => true).
Lemma all_served_files : Win32Files all_served.
Proof.
  split.
  - intros d p h. cbn. destruct (decide _); [|done]. intros [= <-]. split; [done|]. by split.
  - intros d n m Hn. cbn. intros [= <-]. lia.
Qed.

(** A text that replaces a longer one, and a transfer into the middle of a file. *)
Example text_replaced : lpp_write_file_w all_served (mk_disk {[ [97] := [1; 2; 3] ]} ∅) (Some [97]) (Some [9]) = (0, mk_disk {[ [97] := [9] ]} ∅).
Proof. vm_compute. reflexivity. Qed.
Example written_inside :
  lpp_file_pwrite_w all_served (mk_disk {[ [97] := [1; 2; 3] ]} {[ 7 := mk_handle [97] 0 false ]}) 7 (Some (mkBuf 3 [4; 5; 6])) 1 2 2
  = Ok (2, mk_disk {[ [97] := [1; 2; 5; 6] ]} {[ 7 := mk_handle [97] 4 false ]}).
Proof. vm_compute. reflexivity. Qed.
(** An empty file reads as 64 zeros. *)
Example empty_file_reads_64 : exists b d, lpp_buf_read_w all_served (fun n => true) (mk_disk {[ [97] := [] ]} ∅) (Some [97]) = Ok (Some b, d) /\ bsize b = 64.
Proof. do 2 eexists. split; [vm_compute; reflexivity|done]. Qed.
