(* ===== verification/HostBuf.v ===== *)
(** * Buffers in files (runtime/lpp_buf.c, [lpp_buf_read] and [lpp_buf_write]) and the system metrics
    (runtime/lpp_runtime.c)

    The files are those of [HostIO]; [ftell] tells the size of what can be positioned in ([seekable]) and fails
    otherwise.  The metrics compute with what the system reports. *)

From stdpp Require Import gmap.
From S2P Require Import Prelude CInt Buf Net HostIO.

Section files.
Context (io : stdio) (seekable : list Z -> bool).

(** [fseek] to the end, [ftell], [fseek] back. *)
Definition file_end (w : fs) (f : Z) : Z :=
  match streams w !! f with
  | Some s => if seekable (spath s) then Z.of_nat (length (default [] (files w !! spath s))) else -1
  | None => -1
  end.

Definition lpp_buf_read (al : allocator) (w : fs) (path : option cstr) : outcome (option Buf * fs) :=
  match path with
  | None => Ok (None, w)
  | Some path =>
      match fopen io w path Rb with
      | (None, w) => Ok (None, w)
      | (Some f, w) =>
          let sz := file_end w f in
          if sz <? 0 then Ok (None, (fclose io w f).2)
          else
            let! o := lpp_buf_alloc al sz in
            match o with
            | None => Ok (None, (fclose io w f).2)
            | Some b =>
                let '(got, w) := fread io w f sz in
                let! d := memcpy (bdata b) 0 got 0 (Z.of_nat (length got)) in
                let w := (fclose io w f).2 in
                if negb (Z.of_nat (length got) =? sz) then Ok (None, w) else Ok (Some (mkBuf (bsize b) d), w)
            end
      end
  end.

(** What [fclose] says is not looked at. *)
Definition lpp_buf_write (w : fs) (path : option cstr) (ptr : option Buf) : outcome (Z * fs) :=
  match path, ptr with
  | Some path, Some b =>
      match fopen io w path Wb with
      | (None, w) => Ok (-1, w)
      | (Some f, w) =>
          if Z.of_nat (length (bdata b)) <? u64 (bsize b) then Undef
          else
            let '(written, w) := fwrite io w (take (Z.to_nat (u64 (bsize b))) (bdata b)) f in
            Ok (if written =? u64 (bsize b) then 0 else -1, (fclose io w f).2)
      end
  | _, _ => Ok (-1, w)
  end.
End files.

(** ** Metrics *)

(** [sysinfo] on Linux: the fields the code reads; [None] when the call fails. *)
Record sysinfo := mk_si { totalram : Z; freeram : Z; mem_unit : Z; load0 : Z; si_uptime : Z }.
Definition mem_mib (pages unit_ : Z) : Z := i64 (u64 (pages * unit_) / (1024 * 1024)).
Definition lpp_sys_mem_total (si : option sysinfo) : Z := match si with Some i => mem_mib (totalram i) (mem_unit i) | None => 16384 end.
Definition lpp_sys_mem_free (si : option sysinfo) : Z := match si with Some i => mem_mib (freeram i) (mem_unit i) | None => 8192 end.
Definition lpp_sys_cpu_usage (si : option sysinfo) : Z := match si with Some i => i64 (load0 i) | None => 5 end.
Definition lpp_sys_uptime (si : option sysinfo) : Z := match si with Some i => i64 (si_uptime i) | None => 3600 end.

(** [GlobalMemoryStatusEx] and [GetTickCount64] on Windows. *)
Definition lpp_sys_mem_total_win (ullTotalPhys : option Z) : Z := match ullTotalPhys with Some n => i64 (n / (1024 * 1024)) | None => 16384 end.
Definition lpp_sys_mem_free_win (ullAvailPhys : option Z) : Z := match ullAvailPhys with Some n => i64 (n / (1024 * 1024)) | None => 8192 end.
Definition lpp_sys_uptime_win (ticks : Z) : Z := i64 (ticks / 1000).

(** [GetSystemTimes]: the halves of three counters; the times of the kernel include the idle ones. *)
Record FILETIME := mk_ft { dwHighDateTime : Z; dwLowDateTime : Z }.
Record times := mk_times { idle : FILETIME; kernel : FILETIME; user : FILETIME }.
Definition lpp__filetime_to_u64 (ft : FILETIME) : Z := Z.lor (u64 (Z.shiftl (dwHighDateTime ft) 32)) (dwLowDateTime ft).

(** The static counters of the function. *)
Record last := mk_last { last_idle : Z; last_kernel : Z; last_user : Z }.
Definition last0 : last := mk_last 0 0 0.
Definition counters (t : times) : last :=
  mk_last (lpp__filetime_to_u64 (idle t)) (lpp__filetime_to_u64 (kernel t)) (lpp__filetime_to_u64 (user t)).

(** [first] and [second] are what the two calls report; the second is made on the first use, after a pause. *)
Definition lpp_sys_cpu_usage_win (l : last) (first second : option times) : Z * last :=
  match first with
  | None => (5, l)
  | Some t =>
      match (if last_idle l =? 0 then second else Some t) with
      | None => (5, l)
      | Some t =>
          let now := counters t in
          let idle_diff := u64 (last_idle now - last_idle l) in
          let kernel_diff := u64 (last_kernel now - last_kernel l) in
          let user_diff := u64 (last_user now - last_user l) in
          let total_diff := u64 (kernel_diff + user_diff) in
          let r := if total_diff =? 0 then 0
                   else if total_diff >=? idle_diff then i64 (u64 (u64 (total_diff - idle_diff) * 100) / total_diff)
                   else 0 in
          (r, now)
      end
  end.

(** ** Buffers in files *)

(** No stream is left open, whatever the library answers. *)
Lemma buf_streams io `{!Stdio io} seekable al w p b :
  keeps_streams w (lpp_buf_read io seekable al w p) /\ keeps_streams w (lpp_buf_write io w p b).
Proof.
  split.
  - unfold lpp_buf_read. destruct p as [p|]; [|done]. destruct (fopen_cases io w p Rb) as [->|(f & w1 & -> & Hf & H1 & _)]; [done|].
    destruct (_ <? 0); [exact (restored io w w1 f w1 Hf H1 ltac:(by intros x))|]. destruct (lpp_buf_alloc _ _) as [[b'|]| | |]; try done; cbn [obind].
    2: exact (restored io w w1 f w1 Hf H1 ltac:(by intros x)).
    pose proof (fread_outside io w1 f (file_end seekable w1 f)) as H2. destruct (fread io w1 f _) as [got w2]. cbn [snd] in H2.
    destruct (memcpy _ _ _ _ _); try done. cbn [obind]. destruct (negb _); exact (restored io w w1 f w2 Hf H1 H2).
  - unfold lpp_buf_write. destruct p as [p|], b as [b|]; try done. destruct (fopen_cases io w p Wb) as [->|(f & w1 & -> & Hf & H1 & _)]; [done|].
    destruct (_ <? _); [done|]. pose proof (fwrite_outside io w1 (take (Z.to_nat (u64 (bsize b))) (bdata b)) f) as H2.
    destruct (fwrite io w1 _ f) as [n w2]. cbn [snd] in H2. exact (restored io w w1 f w2 Hf H1 H2).
Qed.

Lemma buf_write_exact io `{!Stdio io} w p b : served io -> buf_ok b -> p ∉ dirs w -> parent_exists w p = true ->
  exists w', lpp_buf_write io w (Some p) (Some b) = Ok (0, w') /\ files w' = <[p := bdata b]> (files w).
Proof.
  intros Hio (Hn & Hmax & _) Hd Hp. unfold lpp_buf_write. destruct (fopen_new io Hio w p Wb ltac:(done) Hd Hp) as (f & Hf & ->).
  assert (u64 (bsize b) = bsize b) as -> by (apply u64_id; unfold INT64_MAX in *; pow2; lia).
  rewrite (proj2 (Z.ltb_ge _ _)) by lia. rewrite take_ge by lia.
  erewrite (fwrite_end io Hio); [|cbn; apply lookup_insert_eq|cbn; apply lookup_insert_eq|by right].
  rewrite <- Hn, Z.eqb_refl. eexists. split; [done|]. cbn. by rewrite insert_insert_eq.
Qed.

Lemma buf_read_exact io `{!Stdio io} seekable al w p c : served io -> seekable p = true -> (forall k n, al k n = true) ->
  files w !! p = Some c -> Z.of_nat (length c) <= INT64_MAX - 8 ->
  exists w', lpp_buf_read io seekable al w (Some p) = Ok (Some (mkBuf (Z.of_nat (length c)) c), w') /\ files w' = files w.
Proof.
  intros Hio Hs Hal Hc Hmax. unfold lpp_buf_read. destruct (fopen_existing io Hio w p c Hc) as (f & Hf & ->).
  unfold file_end. cbn [set_streams streams files]. rewrite lookup_insert_eq. cbn [spath]. rewrite Hs, Hc. cbn [default]. unfold id.
  rewrite (proj2 (Z.ltb_ge _ _)) by lia. unfold lpp_buf_alloc. rewrite (proj2 (Z.ltb_ge _ _)) by lia.
  rewrite chk64_ok by (unfold INT64_MAX, INT64_MIN in *; pow2; lia). cbn [obind]. rewrite Hal. cbn [obind].
  erewrite (fread_at io Hio); [|cbn; apply lookup_insert_eq|exact Hc|lia|lia]. change (drop (Z.to_nat 0) c) with c. rewrite Nat2Z.id, firstn_all. cbn [bdata bsize].
  rewrite memcpy_front by (rewrite ?length_replicate; unfold INT64_MAX in *; pow2; lia). cbn [obind]. rewrite Z.eqb_refl. cbn [negb]. eexists.
  rewrite drop_ge, app_nil_r by (rewrite length_replicate; lia). by split.
Qed.

(** What a buffer holds is what a later read of its file gives, with the size; the streams are as before. *)
Theorem buf_files_roundtrip io `{!Stdio io} seekable al w p b : served io -> seekable p = true -> (forall k n, al k n = true) ->
  buf_ok b -> p ∉ dirs w -> parent_exists w p = true ->
  exists w1 w2, lpp_buf_write io w (Some p) (Some b) = Ok (0, w1) /\ lpp_buf_read io seekable al w1 (Some p) = Ok (Some b, w2) /\
    files w2 = <[p := bdata b]> (files w) /\ streams w2 = streams w.
Proof.
  intros Hio Hs Hal Hb Hd Hp. destruct (buf_write_exact io w p b Hio Hb Hd Hp) as (w1 & E1 & F1).
  destruct (buf_read_exact io seekable al w1 p (bdata b) Hio Hs Hal) as (w2 & E2 & F2).
  - rewrite F1. apply lookup_insert_eq.
  - destruct Hb as (Hn & Hmax & _). lia.
  - exists w1, w2. split_and!; [done| |by rewrite F2|].
    + rewrite E2. destruct b as [n d], Hb as (Hn & _). cbn in Hn. by rewrite Hn.
    + destruct (buf_streams io seekable al w (Some p) (Some b)) as [_ S1], (buf_streams io seekable al w1 (Some p) (Some b)) as [S2 _].
      rewrite E1 in S1. rewrite E2 in S2. cbn in S1, S2. by rewrite S2.
Qed.

(** A write the library reports when it closes the stream counts as done. *)
Example close_error_ignored : exists w', lpp_buf_write failing_io fs0 (Some [98]) (Some (mkBuf 1 [7])) = Ok (0, w').
Proof. eexists. vm_compute. reflexivity. Qed.

(** ** Metrics *)

Definition ft_ok (ft : FILETIME) : Prop := 0 <= dwHighDateTime ft < 2 ^ 32 /\ 0 <= dwLowDateTime ft < 2 ^ 32.
Lemma filetime_value ft : ft_ok ft -> lpp__filetime_to_u64 ft = dwHighDateTime ft * 2 ^ 32 + dwLowDateTime ft.
Proof.
  intros [Hh Hl]. unfold lpp__filetime_to_u64. rewrite Z.shiftl_mul_pow2 by lia. rewrite u64_id by (pow2; lia).
  symmetry. rewrite <- Z.lxor_lor, Z.add_nocarry_lxor; try done.
  all: apply Z.bits_inj'; intros i Hi; rewrite Z.land_spec, Z.bits_0; destruct (Z.ltb_spec i 32) as [Hlt|Hge];
    [rewrite Z.mul_pow2_bits_low by lia; done|rewrite (testbit_high 32 (dwLowDateTime ft)) by lia; apply andb_false_r].
Qed.

(** Over an interval in which the counters advance, the usage on Windows is the share of the time that was not
    idle, in percent and rounded down. *)
Theorem cpu_usage_exact l t t2 : last_idle l <> 0 ->
  let now := counters t in
  let total := (last_kernel now - last_kernel l) + (last_user now - last_user l) in
  let idle := last_idle now - last_idle l in
  0 <= idle <= total -> 0 < total < 2 ^ 57 -> last_kernel l <= last_kernel now -> last_user l <= last_user now ->
  lpp_sys_cpu_usage_win l (Some t) t2 = ((total - idle) * 100 / total, now) /\ 0 <= (total - idle) * 100 / total <= 100.
Proof.
  intros H0 now total idle_ Hi Ht Hk Hu. subst now. change (2 ^ 57) with 144115188075855872 in Ht.
  assert (0 <= (total - idle_) * 100 / total <= 100) as Hr.
  { split; [apply Z.div_pos; lia|]. apply Z.div_le_upper_bound; lia. }
  split; [|exact Hr]. unfold lpp_sys_cpu_usage_win. rewrite (proj2 (Z.eqb_neq _ _) H0). cbv zeta.
  fold idle_. rewrite (u64_id idle_) by (pow2; lia).
  rewrite (u64_id (last_kernel _ - _)) by (pow2; lia). rewrite (u64_id (last_user _ - _)) by (pow2; lia). fold total.
  rewrite (u64_id total) by (pow2; lia). rewrite (proj2 (Z.eqb_neq total 0)) by lia. rewrite Z.geb_leb, (proj2 (Z.leb_le _ _)) by lia.
  rewrite (u64_id (total - idle_)) by (pow2; lia). rewrite u64_id by (pow2; lia). rewrite i64_id by (unfold INT64_MIN, INT64_MAX; lia). done.
Qed.

(** [loads[0]] is the load average times 65536, not a percentage: one busy process reads as 65536. *)
Example load_is_not_usage : lpp_sys_cpu_usage (Some (mk_si 0 0 1 65536 0)) = 65536.
Proof. reflexivity. Qed.
