(* ===== verification/WebView.v ===== *)
(** * Web view windows (runtime/lpp_webview.c, the Windows part)

    A table of eight windows, each with an environment, a controller and a core of WebView2: COM objects
    the system hands over in callbacks while the program waits for messages.  Every call on a COM object,
    every reference taken and dropped, every heap block and file handle is recorded ([ev]); what the system
    is free to choose is [WebSystem], and may depend on all that happened before.  COM calls are taken
    not to run the window procedure in between.  The other systems have stubs that do nothing. *)

From stdpp Require Import gmap.
From S2P Require Import Prelude CInt Str Http.

(** ** The system *)

Inductive com_call :=
| Close | put_Bounds | put_IsVisible (b : bool) | NotifyParentWindowPositionChanged
| get_CoreWebView2 | get_Settings | put_IsScriptEnabled | put_AreDefaultScriptDialogsEnabled
| put_IsWebMessageEnabled | put_AreDevToolsEnabled
| CreateCoreWebView2Controller (hwnd : Z) | Navigate (url : list Z) | NavigateToString (html : list Z).

(** [Given p] is a reference that comes with an out parameter. *)
Inductive ev :=
| AddRef (p : Z) | Given (p : Z) | Release (p : Z) | Call (p : Z) (c : com_call)
| HeapAlloc | HeapFree | FileOpen | FileClose
| WindowMade (h : Z) (title : list Z) (w h' : Z) | WindowGone (h : Z)
| Wrote (path html : cstr) | Deleted (path : cstr) | DirMade (path : cstr).

(** A handler is named by the slot it is embedded in. *)
Inductive request := EnvFor (i : Z) | CtrlFor (i : Z).
#[export] Instance request_eq_dec : EqDecision request.
Proof. solve_decision. Defined.

(** [SetWindowPos] sends the messages of a window that changes before it returns. *)
Inductive size_msg := Sized (minimized : bool) | Moved.
Inductive message := WM_SIZE (minimized : bool) | WM_MOVE | WM_DPICHANGED (rect : bool) (sent : list size_msg) | WM_ERASEBKGND | WM_PAINT
  | WM_CLOSE | WM_OTHER.

(** What dispatching a message does: call a window procedure, or complete a request. *)
Inductive event :=
| Msg (h : Z) (m : message)
| EnvDone (i : Z) (failed : bool) (created : Z)
| CtrlDone (i : Z) (failed : bool) (created core settings : Z).

Class WebSystem := {
  module_path : cstr;                              (** [GetModuleFileNameA] *)
  temp_dir : cstr;                                 (** [GetTempPathA] *)
  local_app_data : option cstr;
  loads : cstr -> bool;                            (** [LoadLibraryA] *)
  has_entry : bool;                                (** [CreateCoreWebView2EnvironmentWithOptions] is exported *)
  new_window : list ev -> gset Z -> Z;             (** 0: refused *)
  file_there : list ev -> cstr -> bool;            (** [GetFileAttributesA] *)
  full_path : list ev -> cstr -> option cstr;      (** [GetFullPathNameA]; [None] leaves the buffer empty *)
  file_data : list ev -> cstr -> option (Z * list Z);  (** size, and the bytes [ReadFile] delivers *)
  can_create : list ev -> cstr -> bool;
  heap : list ev -> Z -> bool;
  widen : cstr -> list Z;                          (** UTF-8 to UTF-16, without the terminator *)
  env_accepts : list ev -> bool;                   (** the request will be answered *)
  ctrl_accepts : list ev -> Z -> bool
}.

Definition MAX_PATH : Z := 260.
Definition MAX_WEBVIEWS : Z := 8.

(** [wsprintfA] or [lpp_strcpy] of [s] into an array of [n] characters. *)
Definition fits (n : Z) (s : cstr) : outcome cstr := if slen s <? n then Ok s else Undef.
(** [MultiByteToWideChar] into an array of [n] characters, for a reader that needs the terminator. *)
Definition to_wide `{WebSystem} (n : Z) (s : cstr) : outcome (list Z) :=
  if Z.of_nat (length (widen s)) <? n then Ok (widen s) else Undef.

(** ** The table *)

Record LppWinWebView := mk_wv {
  hwnd : Z; is_open : bool; is_ready : bool; width : Z; height : Z;
  current_url : cstr; temp_html_path : cstr;
  env : Z; controller : Z; core : Z;
  env_handler : option Z; ctrl_handler : option Z   (** the slot in a handler with its table of functions *)
}.
Definition zeroed : LppWinWebView := mk_wv 0 false false 0 0 [] [] 0 0 0 None None.
Definition set_hwnd w v := mk_wv v (is_open w) (is_ready w) (width w) (height w) (current_url w) (temp_html_path w) (env w) (controller w) (core w) (env_handler w) (ctrl_handler w).
Definition set_open w v := mk_wv (hwnd w) v (is_ready w) (width w) (height w) (current_url w) (temp_html_path w) (env w) (controller w) (core w) (env_handler w) (ctrl_handler w).
Definition set_ready w v := mk_wv (hwnd w) (is_open w) v (width w) (height w) (current_url w) (temp_html_path w) (env w) (controller w) (core w) (env_handler w) (ctrl_handler w).
Definition set_url w v := mk_wv (hwnd w) (is_open w) (is_ready w) (width w) (height w) v (temp_html_path w) (env w) (controller w) (core w) (env_handler w) (ctrl_handler w).
Definition set_temp w v := mk_wv (hwnd w) (is_open w) (is_ready w) (width w) (height w) (current_url w) v (env w) (controller w) (core w) (env_handler w) (ctrl_handler w).
Definition set_com w e c k := mk_wv (hwnd w) (is_open w) (is_ready w) (width w) (height w) (current_url w) (temp_html_path w) e c k (env_handler w) (ctrl_handler w).
Definition set_handlers w e c := mk_wv (hwnd w) (is_open w) (is_ready w) (width w) (height w) (current_url w) (temp_html_path w) (env w) (controller w) (core w) e c.

Record web := mk_web {
  g_webviews : list LppWinWebView;
  g_wv_class_registered : bool;
  initialized : bool;
  pCreate : bool;                (** [pCreateCoreWebView2EnvironmentWithOptions] is set *)
  windows : gset Z;              (** the windows that exist *)
  pending : list request;        (** what the system has accepted and not answered *)
  quit : bool;                   (** [PostQuitMessage] was called and WM_QUIT not yet taken *)
  trace : list ev
}.
Definition web0 : web := mk_web (replicate 8 zeroed) false false false ∅ [] false [].
Definition set_table (g : web) t := mk_web t (g_wv_class_registered g) (initialized g) (pCreate g) (windows g) (pending g) (quit g) (trace g).
Definition set_pending (g : web) p := mk_web (g_webviews g) (g_wv_class_registered g) (initialized g) (pCreate g) (windows g) p (quit g) (trace g).
Definition set_quit (g : web) q := mk_web (g_webviews g) (g_wv_class_registered g) (initialized g) (pCreate g) (windows g) (pending g) q (trace g).
Definition set_windows (g : web) ws := mk_web (g_webviews g) (g_wv_class_registered g) (initialized g) (pCreate g) ws (pending g) (quit g) (trace g).
Definition happened (g : web) (es : list ev) := mk_web (g_webviews g) (g_wv_class_registered g) (initialized g) (pCreate g) (windows g) (pending g) (quit g) (trace g ++ es).
Definition set_slot (g : web) (i : Z) (w : LppWinWebView) : outcome web := let! t := wr (g_webviews g) i w in Ok (set_table g t).

Section webview.
Context `{sys : WebSystem}.

(** ** Paths and pages *)

(** What is in front of the last [c], and behind it ([lpp_strrchr]). *)
Fixpoint lpp_strrchr (s : cstr) (c : Z) : option (cstr * cstr) :=
  match s with
  | [] => None
  | x :: s =>
      match lpp_strrchr s c with
      | Some (a, b) => Some (x :: a, b)
      | None => if x =? c then Some ([], s) else None
      end
  end.
Definition exe_dir : cstr := match lpp_strrchr module_path 92 with Some (d, _) => d | None => module_path end.
Definition file_name (path : cstr) : cstr :=
  match lpp_strrchr path 47 with
  | Some (_, f) => f
  | None => match lpp_strrchr path 92 with Some (_, f) => f | None => path end
  end.

(** The search for a file: as given, below the directory of the program, and there by its last part.  [last]
    tells what happens when it is nowhere. *)
Definition resolve (tr : list ev) (input : cstr) (last : option cstr) : outcome cstr :=
  if file_there tr input then Ok (default [] (full_path tr input))
  else
    let! candidate := fits MAX_PATH (exe_dir ++ [92] ++ input) in
    if file_there tr candidate then Ok (default [] (full_path tr candidate))
    else
      let! candidate := fits MAX_PATH (exe_dir ++ [92] ++ file_name input) in
      if file_there tr candidate then Ok (default [] (full_path tr candidate))
      else Ok (default [] last).

(** The bytes in front of the first NUL. *)
Fixpoint as_text (data : list Z) : cstr :=
  match data with [] => [] | c :: data => if c =? 0 then [] else c :: as_text data end.

(** The content as a C string, or NULL; the block is taken, the file closed. *)
Definition lpp_read_file_content (tr : list ev) (filepath : cstr) : option cstr * list ev :=
  match file_data tr filepath with
  | None => (None, [])
  | Some (size, data) =>
      if (size =? 0) || (size =? 0xFFFFFFFF) then (None, [FileOpen; FileClose])
      else if negb (heap tr (size + 1)) then (None, [FileOpen; FileClose])
      else (Some (as_text data), [FileOpen; HeapAlloc; FileClose])
  end.

Definition contains (s needle : cstr) : bool := match strstr s needle with Some _ => true | None => false end.
Definition begins (s needle : cstr) : bool := match strstr s needle with Some O => true | _ => false end.

Definition lpp_format_url (tr : list ev) (input : cstr) : outcome cstr :=
  match input with
  | [] => Ok (txt "about:blank")
  | _ =>
      if contains input (txt "://") || contains input (txt "data:") || contains input (txt "about:") then Ok input
      else
        let! p := resolve tr input (full_path tr input) in
        Ok (txt "file:///" ++ map (fun c => if c =? 92 then 47 else c) p)
  end.

Definition lpp_load_content_into_core (tr : list ev) (core : Z) (url_or_path : cstr) : outcome (list ev) :=
  if (core =? 0) || (slen url_or_path =? 0) then Ok []
  else if begins url_or_path (txt "http://") || begins url_or_path (txt "https://") || begins url_or_path (txt "data:") then
    let! wurl := to_wide 1024 url_or_path in Ok [Call core (Navigate wurl)]
  else
    let! resolved := resolve tr url_or_path None in
    let '(html, es) := match resolved with [] => (None, []) | _ => lpp_read_file_content tr resolved end in
    let '(shown, es) :=
      match html with
      | Some html =>
          let wlen := Z.of_nat (length (widen html)) + 1 in
          if (wlen >? 0) && heap (tr ++ es) ((wlen + 1) * 2)
          then (true, es ++ [HeapAlloc; Call core (NavigateToString (widen html)); HeapFree; HeapFree])
          else (false, es ++ [HeapFree])
      | None => (false, es)
      end in
    if (shown : bool) then Ok es
    else
      let! final := lpp_format_url (tr ++ es) url_or_path in
      let! final := fits 1024 final in
      let! wurl := to_wide 1024 final in
      Ok (es ++ [Call core (Navigate wurl)]).

(** ** The handlers *)

Record GUID := mk_guid { Data1 : Z; Data2 : Z; Data3 : Z; Data4 : list Z }.
#[export] Instance guid_eq_dec : EqDecision GUID.
Proof. solve_decision. Defined.
Definition LPP_IID_IUnknown : GUID := mk_guid 0 0 0 [0xC0; 0; 0; 0; 0; 0; 0; 0x46].
Definition LPP_IID_EnvCompleted : GUID := mk_guid 0x4E8A3389 0xC9D8 0x4BD2 [0xB6; 0xB5; 0x12; 0x4F; 0xEE; 0x6C; 0xC1; 0x4D].
Definition LPP_IID_CtrlCompleted : GUID := mk_guid 0x6C4819F3 0xC9B7 0x4260 [0x81; 0x27; 0xC9; 0xF5; 0xBD; 0xE7; 0xF6; 0x8C].
Definition lpp_guid_equal (a b : GUID) : bool := bool_decide (a = b).

(** The result code and what is stored through [ppvObject] when it is not NULL. *)
Definition Env_QueryInterface (this : Z) (riid : GUID) (ppvObject : bool) : Z * option Z :=
  if negb ppvObject then (0x80004003, None)
  else if lpp_guid_equal riid LPP_IID_IUnknown || lpp_guid_equal riid LPP_IID_EnvCompleted then (0, Some this)
  else (0x80004002, Some 0).
Definition Ctrl_QueryInterface (this : Z) (riid : GUID) (ppvObject : bool) : Z * option Z :=
  if negb ppvObject then (0x80004003, None)
  else if lpp_guid_equal riid LPP_IID_IUnknown || lpp_guid_equal riid LPP_IID_CtrlCompleted then (0, Some this)
  else (0x80004002, Some 0).

Definition in_table (slot : Z) : bool := negb ((slot <? 0) || (slot >=? MAX_WEBVIEWS)).
Definition make_ready (g : web) (slot : Z) : outcome web :=
  let! w := rd (g_webviews g) slot in set_slot g slot (set_ready w true).

(** [slot] is that of the handler. *)
Definition Env_Invoke (g : web) (slot : Z) (failed : bool) (created_environment : Z) : outcome web :=
  if negb (in_table slot) || failed || (created_environment =? 0) then
    if in_table slot then make_ready g slot else Ok g
  else
    let! wv := rd (g_webviews g) slot in
    let wv := set_handlers (set_com wv created_environment (controller wv) (core wv)) (env_handler wv) (Some slot) in
    let! g := set_slot g slot wv in
    let g := happened g [AddRef created_environment] in
    let accepted := ctrl_accepts (trace g) (hwnd wv) in
    let g := happened g [Call created_environment (CreateCoreWebView2Controller (hwnd wv))] in
    Ok (if accepted then set_pending g (pending g ++ [CtrlFor slot]) else g).

Definition bounds_calls (c : Z) : list ev := [Call c put_Bounds; Call c NotifyParentWindowPositionChanged].

(** [core_] and [settings] are what the two getters store, 0 when they fail. *)
Definition Ctrl_Invoke (g : web) (slot : Z) (failed : bool) (created_controller core_ settings : Z) : outcome web :=
  if negb (in_table slot) || failed || (created_controller =? 0) then
    if in_table slot then make_ready g slot else Ok g
  else
    let! wv := rd (g_webviews g) slot in
    let k := if core_ =? 0 then core wv else core_ in
    let wv := set_com wv (env wv) created_controller k in
    let! g := set_slot g slot wv in
    let g := happened g ([AddRef created_controller; Call created_controller get_CoreWebView2] ++ if core_ =? 0 then [] else [Given core_]) in
    let g :=
      if k =? 0 then g
      else happened g (Call k get_Settings :: if settings =? 0 then [] else
        [Given settings; Call settings put_IsScriptEnabled; Call settings put_AreDefaultScriptDialogsEnabled;
         Call settings put_IsWebMessageEnabled; Call settings put_AreDevToolsEnabled; Release settings]) in
    let g :=
      if hwnd wv =? 0 then g
      else happened g [Call created_controller put_Bounds; Call created_controller (put_IsVisible true);
                   Call created_controller NotifyParentWindowPositionChanged] in
    let target :=
      match current_url wv, temp_html_path wv with
      | [], [] => txt "webview_demo/index.html"
      | [], t => t
      | u, _ => u
      end in
    let! es := (if k =? 0 then Ok [] else lpp_load_content_into_core (trace g) k target) in
    make_ready (happened g es) slot.

(** The first library that loads is the one asked for its entry point. *)
Definition loader_paths : outcome (list cstr) :=
  let! p := fits MAX_PATH (match lpp_strrchr module_path 92 with
                           | Some (d, _) => d ++ [92] ++ txt "WebView2Loader.dll"
                           | None => txt "WebView2Loader.dll"
                           end) in
  Ok [p; txt "WebView2Loader.dll"; txt "webview_demo\WebView2Loader.dll"; txt "packages\samarbook-app\WebView2Loader.dll";
      txt "webview2_sdk\build\native\x64\WebView2Loader.dll"; txt "webview2_nuget\build\native\x64\WebView2Loader.dll"].
Definition lpp_init_handlers (g : web) : outcome web :=
  if initialized g then Ok g
  else
    let! paths := loader_paths in
    let loaded := existsb loads paths in
    Ok (mk_web (g_webviews g) (g_wv_class_registered g) true (if loaded then has_entry else pCreate g) (windows g) (pending g)
          (quit g) (trace g)).

(** ** The window procedure *)

(** The first slot that passes a test. *)
Fixpoint slot_loop (f : LppWinWebView -> bool) (i : Z) (t : list LppWinWebView) : option Z :=
  match t with
  | [] => None
  | w :: t => if f w then Some i else slot_loop f (i + 1) t
  end.
Definition hosting (g : web) (h : Z) : option Z := slot_loop (fun w => (hwnd w =? h) && negb (controller w =? 0)) 0 (g_webviews g).

Definition on_size (g : web) (h : Z) (minimized : bool) : outcome web :=
  match hosting g h with
  | None => Ok g
  | Some i =>
      let! w := rd (g_webviews g) i in
      let c := controller w in
      Ok (happened g (if minimized then [Call c (put_IsVisible false)] else Call c (put_IsVisible true) :: bounds_calls c))
  end.
Definition on_move (g : web) (h : Z) : outcome web :=
  match hosting g h with
  | None => Ok g
  | Some i => let! w := rd (g_webviews g) i in Ok (happened g (bounds_calls (controller w)))
  end.
Fixpoint on_sent (g : web) (h : Z) (sent : list size_msg) : outcome web :=
  match sent with
  | [] => Ok g
  | Sized m :: sent => let! g := on_size g h m in on_sent g h sent
  | Moved :: sent => let! g := on_move g h in on_sent g h sent
  end.

(** [Close] and [Release], [Release], [Release]: what WM_DESTROY and [lpp_webview_terminate] do with a slot. *)
Definition drop_com (w : LppWinWebView) : list ev :=
  (if controller w =? 0 then [] else [Call (controller w) Close; Release (controller w)]) ++
  (if core w =? 0 then [] else [Release (core w)]) ++ (if env w =? 0 then [] else [Release (env w)]).

Definition on_destroy (g : web) (h : Z) : outcome web :=
  let! g :=
    match slot_loop (fun w => hwnd w =? h) 0 (g_webviews g) with
    | None => Ok g
    | Some i =>
        let! w := rd (g_webviews g) i in
        let g := happened g (drop_com w ++ match temp_html_path w with [] => [] | t => [Deleted t] end) in
        set_slot g i (set_com (set_hwnd (set_open w false) 0) 0 0 0)
    end in
  Ok (set_quit g true).

(** [DestroyWindow] sends WM_DESTROY before it returns. *)
Definition DestroyWindow (g : web) (h : Z) : outcome web :=
  if decide (h ∈ windows g) then on_destroy (happened (set_windows g (windows g ∖ {[h]})) [WindowGone h]) h else Ok g.

Definition lpp_webview_wndproc (g : web) (h : Z) (m : message) : outcome web :=
  match m with
  | WM_SIZE minimized => on_size g h minimized
  | WM_MOVE => on_move g h
  | WM_DPICHANGED rect sent =>
      let! g := (if rect then on_sent g h sent else Ok g) in on_move g h
  | WM_ERASEBKGND | WM_PAINT | WM_OTHER => Ok g
  | WM_CLOSE => DestroyWindow g h
  end.

Fixpoint answer (r : request) (ps : list request) : list request :=
  match ps with [] => [] | x :: ps => if decide (x = r) then ps else x :: answer r ps end.

(** [DispatchMessageW]: a message goes to a window that exists; a request is completed once, through the
    table of functions of its handler, for the slot the handler names then. *)
Definition dispatch (g : web) (e : event) : outcome web :=
  match e with
  | Msg h m => if decide (h ∈ windows g) then lpp_webview_wndproc g h m else Ok g
  | EnvDone i failed created =>
      if decide (EnvFor i ∈ pending g) then
        let g := set_pending g (answer (EnvFor i) (pending g)) in
        let! w := rd (g_webviews g) i in
        match env_handler w with None => Undef | Some slot => Env_Invoke g slot failed created end
      else Ok g
  | CtrlDone i failed created k settings =>
      if decide (CtrlFor i ∈ pending g) then
        let g := set_pending g (answer (CtrlFor i) (pending g)) in
        let! w := rd (g_webviews g) i in
        match ctrl_handler w with None => Undef | Some slot => Ctrl_Invoke g slot failed created k settings end
      else Ok g
  end.

(** The message loops: [goal] is what the loop waits for, [es] what arrives before the queue is empty.  WM_QUIT
    is taken when nothing else is left; without it [GetMessageW] waits, and the loop does not end. *)
Inductive loop_end := Met | Quitted | Waits.
Fixpoint pump (goal : LppWinWebView -> bool) (i : Z) (es : list event) (g : web) : outcome (web * loop_end) :=
  let! w := rd (g_webviews g) i in
  if goal w then Ok (g, Met)
  else
    match es with
    | e :: es => let! g := dispatch g e in pump goal i es g
    | [] => if quit g then Ok (set_quit g false, Quitted) else Ok (g, Waits)
    end.

(** ** The builtins *)

Definition digit (i : Z) : cstr := [48 + i].
Definition user_data_dir (slot : Z) : outcome cstr :=
  fits MAX_PATH (match local_app_data with
                 | Some d => d ++ txt "\LppWebView2\slot_" ++ digit slot
                 | None => temp_dir ++ txt "\LppWebView2_slot_" ++ digit slot
                 end).

(** With no title the array holds the byte of an L and whatever was there before: no terminator. *)
Definition window_title (title : option cstr) : outcome (list Z) :=
  match title with Some ((_ :: _) as t) => to_wide 512 t | _ => Undef end.

(** [lpp_webview_window_create] up to its message loop: the slot (or -1), and whether the loop is entered. *)
Definition start_window (g : web) (title : option cstr) (wd ht : Z) : outcome (web * Z * bool) :=
  let! g := lpp_init_handlers g in
  match slot_loop (fun w => negb (is_open w)) 0 (g_webviews g) with
  | None => Ok (g, -1, false)
  | Some slot =>
      let g := mk_web (g_webviews g) true (initialized g) (pCreate g) (windows g) (pending g) (quit g) (trace g) in
      let! wtitle := window_title title in
      let w := if i32 wd >? 0 then i32 wd else 1360 in
      let h := if i32 ht >? 0 then i32 ht else 820 in
      let hw := new_window (trace g) (windows g) in
      if hw =? 0 then Ok (g, -1, false)
      else
        let g := happened (set_windows g (windows g ∪ {[hw]})) [WindowMade hw wtitle w h] in
        let! g := set_slot g slot (mk_wv hw true false w h [] [] 0 0 0 None None) in
        if pCreate g then
          let! dir := user_data_dir slot in
          let! _ := to_wide MAX_PATH dir in
          let! g := set_slot g slot (mk_wv hw true false w h [] [] 0 0 0 (Some slot) None) in
          let accepted := env_accepts (trace g) in
          let g := happened g [DirMade dir] in
          Ok (if accepted then set_pending g (pending g ++ [EnvFor slot]) else g, slot, true)
        else Ok (g, slot, false)
  end.

(** [None]: the call does not return. *)
Definition lpp_webview_window_create (es : list event) (g : web) (title : option cstr) (wd ht debug : Z) : outcome (web * option Z) :=
  let! '(g, slot, asked) := start_window g title wd ht in
  if (asked : bool) then
    let! '(g, r) := pump is_ready slot es g in
    Ok (g, match r with Waits => None | _ => Some slot end)
  else Ok (g, Some slot).

(** The slot of an open window. *)
Definition open_slot (g : web) (win_id : Z) : outcome (option LppWinWebView) :=
  if (win_id <? 0) || (win_id >=? MAX_WEBVIEWS) then Ok None
  else let! w := rd (g_webviews g) win_id in Ok (if is_open w then Some w else None).

Definition lpp_webview_set_html (g : web) (win_id : Z) (html : option cstr) : outcome web :=
  let! o := open_slot g win_id in
  match o, html with
  | Some wv, Some html =>
      let wlen := Z.of_nat (length (widen html)) + 1 in
      if negb (core wv =? 0) && (wlen >? 0) && heap (trace g) ((wlen + 1) * 2)
      then Ok (happened g [HeapAlloc; Call (core wv) (NavigateToString (widen html)); HeapFree])
      else
        let! file_path := fits MAX_PATH (temp_dir ++ txt "lpp_app_" ++ digit win_id ++ txt ".html") in
        let! g := set_slot g win_id (set_temp wv file_path) in
        Ok (if can_create (trace g) file_path then happened g [FileOpen; Wrote file_path html; FileClose] else g)
  | _, _ => Ok g
  end.

Definition lpp_webview_navigate (g : web) (win_id : Z) (url : option cstr) : outcome web :=
  let! o := open_slot g win_id in
  match o, url with
  | Some wv, Some url =>
      let! u := fits 1024 url in
      let! g := set_slot g win_id (set_url wv u) in
      if core wv =? 0 then Ok g
      else let! es := lpp_load_content_into_core (trace g) (core wv) url in Ok (happened g es)
  | _, _ => Ok g
  end.

Definition lpp_webview_run (es : list event) (g : web) (win_id : Z) : outcome (web * bool) :=
  let! o := open_slot g win_id in
  match o with
  | Some _ => let! '(g, r) := pump (fun w => negb (is_open w)) win_id es g in Ok (g, match r with Waits => false | _ => true end)
  | None => Ok (g, true)
  end.

Definition lpp_webview_terminate (g : web) (win_id : Z) : outcome web :=
  let! o := open_slot g win_id in
  match o with
  | Some wv =>
      let g := happened g (drop_com wv) in
      let wv := set_com (set_open wv false) 0 0 0 in
      let! g := set_slot g win_id wv in
      if hwnd wv =? 0 then Ok g
      else
        let! g := DestroyWindow g (hwnd wv) in
        let! wv := rd (g_webviews g) win_id in
        set_slot g win_id (set_hwnd wv 0)
  | None => Ok g
  end.
Definition lpp_webview_destroy (g : web) (win_id : Z) : outcome web := lpp_webview_terminate g win_id.

(** A program: its calls, with what the message loops of a call receive. *)
Inductive call :=
| Create (title : option cstr) (wd ht debug : Z) (es : list event)
| SetHtml (win_id : Z) (html : option cstr)
| NavigateTo (win_id : Z) (url : option cstr)
| Run (win_id : Z) (es : list event)
| Terminate (win_id : Z).

(** The flag is unset when the call waits forever. *)
Definition call_step (c : call) (g : web) : outcome (web * bool) :=
  match c with
  | Create title wd ht debug es => let! '(g, r) := lpp_webview_window_create es g title wd ht debug in Ok (g, bool_decide (r <> None))
  | SetHtml i html => let! g := lpp_webview_set_html g i html in Ok (g, true)
  | NavigateTo i url => let! g := lpp_webview_navigate g i url in Ok (g, true)
  | Run i es => lpp_webview_run es g i
  | Terminate i => let! g := lpp_webview_destroy g i in Ok (g, true)
  end.
Fixpoint run (calls : list call) (g : web) : outcome (web * bool) :=
  match calls with
  | [] => Ok (g, true)
  | c :: calls => let! '(g, back) := call_step c g in if back then run calls g else Ok (g, false)
  end.

(** ** What the records mean *)

Definition delta (p : Z) (e : ev) : Z :=
  match e with
  | AddRef q | Given q => if decide (p = q) then 1 else 0
  | Release q => if decide (p = q) then -1 else 0
  | _ => 0
  end.
Definition sum (f : ev -> Z) (tr : list ev) : Z := foldr (fun e n => f e + n) 0 tr.
(** References taken and not dropped, heap blocks and file handles not given back. *)
Definition held (tr : list ev) (p : Z) : Z := sum (delta p) tr.
Definition blocks (tr : list ev) : Z := sum (fun e => match e with HeapAlloc => 1 | HeapFree => -1 | _ => 0 end) tr.
Definition files (tr : list ev) : Z := sum (fun e => match e with FileOpen => 1 | FileClose => -1 | _ => 0 end) tr.

(** Every call and every release is on an object the program holds, [n] references at the start. *)
Fixpoint respects (n : Z -> Z) (tr : list ev) : Prop :=
  match tr with
  | [] => True
  | e :: tr => match e with Release p | Call p _ => 0 < n p | _ => True end /\ respects (fun p => n p + delta p e) tr
  end.

Definition uses (p : Z) (w : LppWinWebView) : Z :=
  (if decide (env w = p) then 1 else 0) + (if decide (controller w = p) then 1 else 0) + (if decide (core w = p) then 1 else 0).
Definition stored (t : list LppWinWebView) (p : Z) : Z := foldr (fun w n => uses p w + n) 0 t.

(** A slot whose environment or controller is still to come. *)
Definition busy (g : web) (i : Z) : bool := bool_decide (EnvFor i ∈ pending g) || bool_decide (CtrlFor i ∈ pending g).
(** No window is closed while its slot is busy. *)
Definition polite_event (g : web) (e : event) : bool :=
  match e with
  | Msg h WM_CLOSE => match slot_loop (fun w => hwnd w =? h) 0 (g_webviews g) with Some i => negb (busy g i) | None => true end
  | _ => true
  end.
Fixpoint polite_pump (goal : LppWinWebView -> bool) (i : Z) (es : list event) (g : web) : bool :=
  match rd (g_webviews g) i with
  | Ok w => if goal w then true
            else match es with
                 | [] => true
                 | e :: es => polite_event g e && match dispatch g e with Ok g => polite_pump goal i es g | _ => true end
                 end
  | _ => true
  end.
Definition polite_call (c : call) (g : web) : bool :=
  match c with
  | Create title wd ht _ es => match start_window g title wd ht with Ok (g, slot, true) => polite_pump is_ready slot es g | _ => true end
  | Run i es => match open_slot g i with Ok (Some _) => polite_pump (fun w => negb (is_open w)) i es g | _ => true end
  | Terminate i => negb (busy g i)
  | _ => true
  end.
Fixpoint polite (calls : list call) (g : web) : bool :=
  match calls with
  | [] => true
  | c :: calls => polite_call c g && match call_step c g with Ok (g, true) => polite calls g | _ => true end
  end.

(** What the arrays of the code have room for. *)
Definition url_fits (u : cstr) : bool :=
  (slen u <? 1024) &&
  (begins u (txt "http://") || begins u (txt "https://") || begins u (txt "data:") || (slen exe_dir + 1 + slen u <? MAX_PATH)).
Definition call_fits (c : call) : bool :=
  match c with
  | Create (Some ((_ :: _) as t)) _ _ _ _ => Z.of_nat (length (widen t)) <? 512
  | Create _ _ _ _ _ => false
  | NavigateTo _ (Some u) => url_fits u
  | _ => true
  end.
(** The program and its directories for temporary files and data lie where MAX_PATH has room for the names made
    from them. *)
Definition paths_fit : bool := (slen module_path + slen temp_dir + 40 <? MAX_PATH) && (slen (default [] local_app_data) + 30 <? MAX_PATH).
End webview.

Class WebLaws `{WebSystem} : Prop := {
  new_window_fresh : forall tr ws, new_window tr ws <> 0 -> new_window tr ws ∉ ws;
  full_path_short : forall tr s p, full_path tr s = Some p -> slen p < MAX_PATH;
  widen_short : forall s, Z.of_nat (length (widen s)) <= slen s
}.

(** ** Counting *)

Lemma web_sum_app f a b : sum f (a ++ b) = sum f a + sum f b.
Proof. induction a as [|e a IH]; [done|]. change (f e + sum f (a ++ b) = f e + sum f a + sum f b). rewrite IH. lia. Qed.
Lemma held_app a b p : held (a ++ b) p = held a p + held b p.
Proof. apply web_sum_app. Qed.
Lemma held_cons e a p : held (e :: a) p = delta p e + held a p.
Proof. done. Qed.

Lemma respects_ext tr : forall n m, (forall p, n p = m p) -> respects n tr -> respects m tr.
Proof.
  induction tr as [|e tr IH]; intros n m Hnm; [done|]. cbn. intros [He Ht]. split; [destruct e; rewrite <- ?Hnm; done|].
  eapply IH; [|exact Ht]. intros p. cbn. by rewrite Hnm.
Qed.
Lemma respects_app a b : forall n, respects n (a ++ b) <-> respects n a /\ respects (fun p => n p + held a p) b.
Proof.
  induction a as [|e a IH]; intros n; cbn [app respects].
  - split; [intros H; split; [done|]|intros [_ H]]; (eapply respects_ext; [|exact H]); intros p; cbn; lia.
  - rewrite IH. cbn [respects]. split; [intros (H1 & H2 & H3)|intros ((H1 & H2) & H3)]; split_and!; try done; (eapply respects_ext; [|exact H3]); intros p; cbv beta; rewrite ?held_cons; lia.
Qed.

Lemma stored_insert t i w w' p : t !! i = Some w -> stored (<[i:=w']> t) p = stored t p - uses p w + uses p w'.
Proof.
  revert i. induction t as [|x t IH]; intros [|i] H; try done; cbn [list_insert insert].
  - injection H as ->. change (uses p w' + stored t p = uses p w + stored t p - uses p w + uses p w'). lia.
  - change (uses p x + stored (<[i:=w']> t) p = uses p x + stored t p - uses p w + uses p w'). rewrite IH by done. lia.
Qed.
Lemma uses_nonneg p w : 0 <= uses p w.
Proof. unfold uses. repeat destruct (decide _); lia. Qed.
Lemma stored_cons w t p : stored (w :: t) p = uses p w + stored t p.
Proof. done. Qed.
Lemma stored_nonneg t p : 0 <= stored t p.
Proof. induction t as [|w t IH]; [done|]. rewrite stored_cons. pose proof (uses_nonneg p w). lia. Qed.
Lemma stored_lookup t i w p : t !! i = Some w -> uses p w <= stored t p.
Proof.
  revert i. induction t as [|x t IH]; intros [|i] H; try done; cbn in H; rewrite stored_cons.
  - injection H as ->. pose proof (stored_nonneg t p). lia.
  - specialize (IH i H). pose proof (uses_nonneg p x). lia.
Qed.

Lemma slot_loop_some f t : forall i j, slot_loop f i t = Some j -> exists k w, j = i + Z.of_nat k /\ t !! k = Some w /\ f w = true.
Proof.
  induction t as [|w t IH]; intros i j H; [done|]. cbn in H. destruct (f w) eqn:E.
  - injection H as <-. exists 0%nat, w. split_and!; [lia|done|done].
  - destruct (IH _ _ H) as (k & v & -> & Hk & Hv). exists (S k), v. split_and!; [lia|done|done].
Qed.
Lemma slot_loop_none f t : forall i, slot_loop f i t = None -> forall k w, t !! k = Some w -> f w = false.
Proof.
  induction t as [|w t IH]; intros i H k v Hk; [done|]. cbn in H. destruct (f w) eqn:E; [done|].
  destruct k as [|k]; [by injection Hk as <-|]. by eapply IH.
Qed.

(** ** The invariant *)

Section laws.
Context `{sys : WebSystem} {laws : WebLaws} (room : Prop) (Hpaths : room -> paths_fit = true).

Definition entry_ok (ws : gset Z) (w : LppWinWebView) : Prop :=
  (if is_open w then hwnd w <> 0 /\ hwnd w ∈ ws else hwnd w = 0 /\ env w = 0 /\ controller w = 0 /\ core w = 0) /\
  (room -> url_fits (current_url w) = true) /\ (room -> url_fits (temp_html_path w) = true).
Definition waits_for (ps : list request) (t : list LppWinWebView) (r : request) : Prop :=
  match r with
  | EnvFor i => 0 <= i /\ (CtrlFor i ∉ ps) /\ exists w, t !! Z.to_nat i = Some w /\ is_open w = true /\
      env w = 0 /\ controller w = 0 /\ core w = 0 /\ env_handler w = Some i
  | CtrlFor i => 0 <= i /\ exists w, t !! Z.to_nat i = Some w /\ is_open w = true /\ controller w = 0 /\ core w = 0 /\ ctrl_handler w = Some i
  end.

Record web_ok (g : web) : Prop := {
  o_len : length (g_webviews g) = 8%nat;
  o_entry : forall i w, g_webviews g !! i = Some w -> entry_ok (windows g) w;
  o_uniq : forall i j w v, g_webviews g !! i = Some w -> g_webviews g !! j = Some v -> hwnd w = hwnd v -> hwnd w <> 0 -> i = j;
  o_zero : 0 ∉ windows g;
  o_once : NoDup (pending g);
  o_pend : forall r, r ∈ pending g -> waits_for (pending g) (g_webviews g) r;
  o_held : forall p, p <> 0 -> held (trace g) p = stored (g_webviews g) p;
  o_respects : respects (fun _ => 0) (trace g);
  o_blocks : blocks (trace g) = 0;
  o_files : files (trace g) = 0
}.

(** Events that leave every count as it is. *)
Definition settled (n : Z -> Z) (es : list ev) : Prop :=
  respects n es /\ (forall p, held es p = 0) /\ blocks es = 0 /\ files es = 0.

Lemma happened_ok g es : web_ok g -> settled (held (trace g)) es -> web_ok (happened g es).
Proof.
  intros [] (H1 & H2 & H3 & H4). split; try done; cbn [happened g_webviews windows pending trace].
  - intros p Hp. rewrite held_app, H2, o_held0 by done. lia.
  - apply respects_app. split; [done|]. eapply respects_ext; [|exact H1]. done.
  - unfold blocks in *. rewrite web_sum_app. lia.
  - unfold files in *. rewrite web_sum_app. lia.
Qed.

(** A slot changes, with the calls that belong to the change. *)
Lemma change_ok g i w w' es ws ps (g' := mk_web (<[i:=w']> (g_webviews g)) (g_wv_class_registered g) (initialized g) (pCreate g) ws ps (quit g) (trace g ++ es)) :
  web_ok g -> g_webviews g !! i = Some w -> entry_ok ws w' -> 0 ∉ ws -> NoDup ps ->
  (forall j v, j <> i -> g_webviews g !! j = Some v -> hwnd v <> 0 -> hwnd v ∈ ws /\ hwnd v <> hwnd w') ->
  (forall r, r ∈ ps -> waits_for ps (<[i:=w']> (g_webviews g)) r) ->
  respects (held (trace g)) es -> (forall p, p <> 0 -> held es p = uses p w' - uses p w) -> blocks es = 0 -> files es = 0 ->
  web_ok g'.
Proof.
  intros Hg Hw Hw' H0 Hnd Ho Hp Hr Hh Hb Hf. pose proof (lookup_lt_Some _ _ _ Hw) as Hlt. destruct Hg. split; cbn [g' g_webviews windows pending trace].
  - by rewrite length_insert.
  - intros j v. destruct (decide (j = i)) as [->|Hj]; [rewrite list_lookup_insert_eq by done; by intros [= <-]|].
    rewrite list_lookup_insert_ne by done. intros Hv. pose proof (o_entry0 j v Hv) as (H1 & H2). split; [|done].
    destruct (is_open v); [|done]. destruct H1 as [H1 _]. split; [done|]. by apply (Ho j v).
  - assert (forall j v, j <> i -> g_webviews g !! j = Some v -> hwnd v = hwnd w' -> hwnd v <> 0 -> False) as Hne by (intros j v Hj Hv E Hz; by apply (Ho j v Hj Hv Hz)).
    intros j k v u. destruct (decide (j = i)) as [->|Hj], (decide (k = i)) as [->|Hk];
      rewrite ?list_lookup_insert_eq, ?list_lookup_insert_ne by done; try done.
    + intros [= <-] Hu E Hz. exfalso. eapply (Hne k u Hk Hu); [done|congruence].
    + intros Hv [= <-] E Hz. exfalso. by eapply (Hne j v Hj Hv).
    + intros Hv Hu. by eapply o_uniq0.
  - done.
  - done.
  - done.
  - intros p Hp0. rewrite held_app, Hh, (stored_insert _ _ w), o_held0 by done. lia.
  - apply respects_app. split; [done|]. eapply respects_ext; [|exact Hr]. done.
  - unfold blocks in *. rewrite web_sum_app. lia.
  - unfold files in *. rewrite web_sum_app. lia.
Qed.

Lemma slot_there g i : web_ok g -> 0 <= i < 8 -> exists w, g_webviews g !! Z.to_nat i = Some w /\ rd (g_webviews g) i = Ok w.
Proof.
  intros Hg Hi. destruct (lookup_lt_is_Some_2 (g_webviews g) (Z.to_nat i)) as [w Hw]; [rewrite (o_len g Hg); lia|].
  exists w. split; [done|]. apply rd_ok; [lia|done].
Qed.
Lemma set_slot_eq g i w : length (g_webviews g) = 8%nat -> 0 <= i < 8 -> set_slot g i w = Ok (set_table g (<[Z.to_nat i:=w]> (g_webviews g))).
Proof. intros Hl Hi. unfold set_slot. rewrite wr_ok by lia. done. Qed.
Lemma slot_held g i w : web_ok g -> g_webviews g !! i = Some w ->
  (controller w <> 0 -> 0 < held (trace g) (controller w)) /\ (core w <> 0 -> 0 < held (trace g) (core w)) /\ (env w <> 0 -> 0 < held (trace g) (env w)).
Proof.
  intros Hg Hw. pose proof (fun p => stored_lookup _ _ _ p Hw) as Hs. pose proof (o_held g Hg) as Hh.
  split_and!; intros Hn; rewrite Hh by done; eapply Z.lt_le_trans; try apply Hs; unfold uses; repeat destruct (decide _); done || lia.
Qed.

(** ** Pages *)

Lemma strrchr_spec s c a b : lpp_strrchr s c = Some (a, b) -> s = a ++ c :: b.
Proof.
  revert a b. induction s as [|x s IH]; intros a b Hs; [done|]; cbn in Hs. destruct (lpp_strrchr s c) as [[a' b']|] eqn:E.
  - injection Hs as <- <-. by rewrite (IH _ _ eq_refl).
  - destruct (Z.eqb_spec x c) as [->|]; [|done]. injection Hs as <- <-. done.
Qed.
Lemma exe_dir_short : slen exe_dir <= slen module_path.
Proof.
  unfold exe_dir. destruct (lpp_strrchr module_path 92) as [[a b]|] eqn:E; [|lia]. apply strrchr_spec in E. rewrite E. unfold slen. rewrite length_app. lia.
Qed.
Lemma file_name_short s : slen (file_name s) <= slen s.
Proof.
  assert (forall c a b, lpp_strrchr s c = Some (a, b) -> slen b <= slen s) as H.
  { intros c a b E%strrchr_spec. rewrite E. unfold slen. rewrite length_app. cbn. lia. }
  unfold file_name. destruct (lpp_strrchr s 47) as [[a b]|] eqn:E; [by eapply H|].
  destruct (lpp_strrchr s 92) as [[a b]|] eqn:E'; [by eapply H|lia].
Qed.

Lemma paths_short : room -> slen module_path + slen temp_dir + 40 < MAX_PATH /\ slen (default [] local_app_data) + 30 < MAX_PATH.
Proof. intros Hr. specialize (Hpaths Hr). unfold paths_fit in Hpaths. bool_to_prop. lia. Qed.
Lemma fits_ok n s (Q : cstr -> Prop) : (room -> slen s < n) -> (slen s < n -> Q s) -> within room (fits n s) Q.
Proof. intros H HQ. unfold fits. destruct (Z.ltb_spec (slen s) n); cbn; [by apply HQ|]. intros Hr%H. lia. Qed.
Lemma wide_ok n s (Q : list Z -> Prop) : (room -> slen s < n) -> Q (widen s) -> within room (to_wide n s) Q.
Proof.
  intros H HQ. unfold to_wide. pose proof (widen_short s). destruct (Z.ltb_spec (Z.of_nat (length (widen s))) n); cbn; [done|]. intros Hr%H. lia.
Qed.

Lemma found_short tr s : slen (default [] (full_path tr s)) < MAX_PATH.
Proof. destruct (full_path tr s) eqn:E; [by eapply full_path_short|done]. Qed.

Lemma resolve_ok tr s last : (room -> slen exe_dir + 1 + slen s < MAX_PATH) -> slen (default [] last) < MAX_PATH ->
  within room (resolve tr s last) (fun p => slen p < MAX_PATH).
Proof.
  intros Hs Hl. unfold resolve. destruct (file_there tr s); [apply found_short|].
  pose proof (file_name_short s). assert (forall x, slen x <= slen s -> room -> slen (exe_dir ++ [92] ++ x) < MAX_PATH) as Hx.
  { intros x Hx Hr. specialize (Hs Hr). unfold slen in *. rewrite !length_app. cbn. lia. }
  apply within_bind, fits_ok; [by apply Hx|intros _]. destruct (file_there tr _); [apply found_short|].
  apply within_bind, fits_ok; [by apply Hx|intros _]. destruct (file_there tr _); [apply found_short|]. done.
Qed.

Lemma format_url_ok tr s : (room -> slen s < 1024) -> (room -> slen exe_dir + 1 + slen s < MAX_PATH) ->
  within room (lpp_format_url tr s) (fun u => room -> slen u < 1024).
Proof.
  intros H1 H2. destruct s as [|c s]; [done|]. cbn [lpp_format_url]. set (u := c :: s) in *. destruct (_ || _); [done|].
  apply within_bind. eapply within_mono; [apply resolve_ok; [done|apply found_short]|]. intros p Hp. unfold slen in *. cbn [within]. intros _. rewrite length_app, length_map.
  change (Z.of_nat (length (txt "file:///") + length p) < 1024). unfold MAX_PATH in Hp. cbn. lia.
Qed.

Lemma settled_nil n : settled n [].
Proof. done. Qed.
Lemma held_nil p : held [] p = 0.
Proof. done. Qed.

Lemma load_ok tr k u n : (room -> url_fits u = true) -> k <> 0 -> 0 < n k -> within room (lpp_load_content_into_core tr k u) (settled n).
Proof.
  intros Hu Hk Hn. unfold lpp_load_content_into_core. destruct ((k =? 0) || (slen u =? 0)); [apply settled_nil|].
  assert (room -> slen u < 1024) as H1 by (intros Hr; specialize (Hu Hr); unfold url_fits in Hu; bool_to_prop; lia).
  destruct (begins u _ || begins u _ || begins u _) eqn:E.
  { apply within_bind, wide_ok; [done|]. split_and!; done. }
  assert (room -> slen exe_dir + 1 + slen u < MAX_PATH) as H2.
  { intros Hr. specialize (Hu Hr). unfold url_fits in Hu. rewrite E in Hu. cbn [orb] in Hu. bool_to_prop. lia. }
  apply within_bind. eapply within_mono; [by apply resolve_ok|]. intros p _.
  assert (forall es, settled n es -> within room (let! final := lpp_format_url (tr ++ es) u in let! final := fits 1024 final in
      let! wurl := to_wide 1024 final in Ok (es ++ [Call k (Navigate wurl)])) (settled n)) as Hend.
  { intros es (S1 & S2 & S3 & S4). apply within_bind. eapply within_mono; [by apply format_url_ok|]. intros f Hf. apply within_bind, fits_ok; [done|intros _].
    apply within_bind, wide_ok; [done|]. split_and!.
    - apply respects_app. split; [done|]. cbn. rewrite S2. split; [lia|done].
    - intros q. rewrite held_app, S2. done.
    - unfold blocks in *. by rewrite web_sum_app, S3.
    - unfold files in *. by rewrite web_sum_app, S4. }
  assert (forall q, Z.of_nat (length (widen q)) + 1 >? 0 = true) as Hlen by (intros q; rewrite Z.gtb_ltb; apply Z.ltb_lt; lia).
  destruct p as [|c p]; [apply Hend, settled_nil|]. unfold lpp_read_file_content. set (path := c :: p).
  destruct (file_data tr path) as [[size data]|]; [|apply Hend, settled_nil].
  clear E. destruct ((size =? 0) || (size =? 4294967295)); [apply Hend; by split_and!|].
  destruct (negb (heap tr (size + 1))); [apply Hend; by split_and!|].
  cbv zeta. rewrite Hlen. cbn [andb]. destruct (heap _ _).
  - unfold settled. split_and!; cbn; [split_and!; try done; lia|done..].
  - apply Hend. by split_and!.
Qed.

Lemma short_url u : slen exe_dir + 1 + slen u < MAX_PATH -> url_fits u = true.
Proof.
  intros H. unfold url_fits, MAX_PATH in *. assert (0 <= slen exe_dir) by (unfold slen; lia). rewrite !(proj2 (Z.ltb_lt _ _)) by lia. by rewrite orb_true_r.
Qed.
Lemma index_fits : room -> url_fits (txt "webview_demo/index.html") = true.
Proof.
  intros Hr. apply short_url. pose proof exe_dir_short. destruct (paths_short Hr) as [Hp _]. assert (0 <= slen temp_dir) by (unfold slen; lia).
  change (slen (txt "webview_demo/index.html")) with 23. unfold MAX_PATH in *. lia.
Qed.
Lemma empty_fits : room -> url_fits [] = true.
Proof.
  intros Hr. apply short_url. pose proof exe_dir_short. destruct (paths_short Hr) as [Hp _]. assert (0 <= slen temp_dir) by (unfold slen; lia).
  change (slen []) with 0. unfold MAX_PATH in *. lia.
Qed.
Lemma temp_fits i : room -> url_fits (temp_dir ++ txt "lpp_app_" ++ digit i ++ txt ".html") = true /\ slen (temp_dir ++ txt "lpp_app_" ++ digit i ++ txt ".html") < MAX_PATH.
Proof.
  intros Hr. assert (slen (temp_dir ++ txt "lpp_app_" ++ digit i ++ txt ".html") = slen temp_dir + 14) as E by (unfold slen; rewrite length_app; cbn; lia).
  pose proof exe_dir_short. destruct (paths_short Hr) as [H1 _]. assert (0 <= slen temp_dir) by (unfold slen; lia). assert (0 <= slen exe_dir) by (unfold slen; lia).
  split; [apply short_url|]; rewrite E; unfold MAX_PATH in *; lia.
Qed.

(** ** Steps *)

Lemma quit_ok g q : web_ok g -> web_ok (set_quit g q).
Proof. intros []. by split. Qed.

Lemma others_ok g i w' : web_ok g -> hwnd w' = 0 \/ (exists w, g_webviews g !! i = Some w /\ hwnd w' = hwnd w) ->
  forall j v, j <> i -> g_webviews g !! j = Some v -> hwnd v <> 0 -> hwnd v ∈ windows g /\ hwnd v <> hwnd w'.
Proof.
  intros Hg Hw' j v Hj Hv Hz. split.
  - destruct (o_entry g Hg j v Hv) as [He _]. destruct (is_open v); [by destruct He|]. by destruct He.
  - destruct Hw' as [->|(w & Hw & ->)]; [done|]. intros E. by apply Hj, (o_uniq g Hg j i v w Hv Hw E).
Qed.

(** The requests of other slots. *)
Definition slot_of (r : request) : Z := match r with EnvFor i | CtrlFor i => i end.
Lemma waits_mono ps ps' t r : (forall r, r ∈ ps' -> r ∈ ps) -> waits_for ps t r -> waits_for ps' t r.
Proof. intros Hps. destruct r; cbn; [|done]. intros (H1 & H2 & H3). split_and!; try done. intros H4. by apply H2, Hps. Qed.
Lemma waits_other ps t r i w' : waits_for ps t r -> slot_of r <> i -> 0 <= i -> waits_for ps (<[Z.to_nat i:=w']> t) r.
Proof.
  intros Hr Hs Hi. destruct r as [j|j]; cbn in *.
  - destruct Hr as (H1 & H2 & w & Hw & Hrest). split_and!; try done. exists w. rewrite list_lookup_insert_ne by lia. done.
  - destruct Hr as (H1 & w & Hw & Hrest). split_and!; try done. exists w. rewrite list_lookup_insert_ne by lia. done.
Qed.
Lemma not_busy g i r : busy g i = false -> r ∈ pending g -> slot_of r <> i.
Proof.
  unfold busy. intros [H1 H2]%orb_false_iff Hr <-. apply bool_decide_eq_false in H1, H2. destruct r; cbn in *; done.
Qed.
Lemma answer_sub r ps x : x ∈ answer r ps -> x ∈ ps.
Proof.
  induction ps as [|y ps IH]; [done|]. cbn. destruct (decide (y = r)); [by right|]. intros [->|Hx]%elem_of_cons; [by left|right; by apply IH].
Qed.
Lemma answer_once r ps : NoDup ps -> NoDup (answer r ps) /\ r ∉ answer r ps.
Proof.
  induction 1 as [|y ps Hy Hps [IH1 IH2]]; [split; [constructor|apply not_elem_of_nil]|]. cbn. destruct (decide (y = r)) as [->|Hne]; [done|].
  split; [constructor; [|done]; intros Hin; by apply Hy, (answer_sub r)|]. intros [->|Hx]%elem_of_cons; done.
Qed.
Lemma answered_ok g r : web_ok g -> web_ok (set_pending g (answer r (pending g))).
Proof.
  intros []. split; try done; cbn [set_pending pending g_webviews]; [by apply answer_once|]. intros x Hx%answer_sub.
  eapply waits_mono; [|by apply o_pend0]. intros y Hy. by eapply answer_sub.
Qed.

(** A change of what the invariant does not speak of. *)
Lemma touch_ok g i w w' : web_ok g -> g_webviews g !! i = Some w ->
  hwnd w' = hwnd w -> is_open w' = is_open w -> env w' = env w -> controller w' = controller w -> core w' = core w ->
  env_handler w' = env_handler w -> ctrl_handler w' = ctrl_handler w ->
  (room -> url_fits (current_url w') = true) -> (room -> url_fits (temp_html_path w') = true) -> web_ok (set_table g (<[i:=w']> (g_webviews g))).
Proof.
  intros Hg Hw E1 E2 E3 E4 E5 E6 E7 Hu Ht. pose proof (change_ok g i w w' [] (windows g) (pending g) Hg Hw) as Hc. rewrite app_nil_r in Hc.
  apply Hc; try done.
  - destruct (o_entry g Hg i w Hw) as [He _]. split; [|done]. by rewrite E2, E1, E3, E4, E5.
  - apply o_zero, Hg.
  - apply o_once, Hg.
  - apply others_ok; [done|]. right. by exists w.
  - intros r Hr. pose proof (o_pend g Hg r Hr) as Hp. assert (i < length (g_webviews g))%nat as Hi by (by apply lookup_lt_Some in Hw).
    destruct (decide (Z.to_nat (slot_of r) = i)) as [Es|Es].
    + destruct r as [j|j]; cbn in *; subst i.
      * destruct Hp as (H1 & H2 & v & Hv & Hrest). split_and!; try done. exists w'. rewrite list_lookup_insert_eq by done.
        rewrite Hw in Hv. injection Hv as <-. by rewrite E2, E3, E4, E5, E6.
      * destruct Hp as (H1 & v & Hv & Hrest). split_and!; try done. exists w'. rewrite list_lookup_insert_eq by done.
        rewrite Hw in Hv. injection Hv as <-. by rewrite E2, E4, E5, E7.
    + rewrite <- (Nat2Z.id i). apply waits_other; [done|lia|lia].
  - intros p Hp. rewrite held_nil. unfold uses. rewrite E3, E4, E5. lia.
Qed.

Lemma make_ready_ok g i : web_ok g -> 0 <= i < 8 -> within room (make_ready g i) web_ok.
Proof.
  intros Hg Hi. destruct (slot_there g i Hg Hi) as (w & Hw & Hrd). unfold make_ready. rewrite Hrd. cbn [obind].
  rewrite set_slot_eq by (done || apply o_len, Hg). destruct (o_entry g Hg _ w Hw) as (_ & H1 & H2). by apply (touch_ok g _ w).
Qed.

Lemma calls_settled n c es : 0 < n c -> Forall (fun e => exists x, e = Call c x) es -> settled n es.
Proof.
  intros Hn Hes. revert n Hn. induction Hes as [|e es [x ->] _ IH]; intros n Hn; [apply settled_nil|].
  destruct (IH (fun p => n p + 0)) as (H1 & H2 & H3 & H4); [lia|]. split_and!; try done.
Qed.

Lemma hosting_some g h i : hosting g h = Some i -> exists k w, i = Z.of_nat k /\ g_webviews g !! k = Some w /\ hwnd w = h /\ controller w <> 0.
Proof.
  intros (k & w & -> & Hw & Hf)%slot_loop_some. apply andb_true_iff in Hf as [H1%Z.eqb_eq H2]. exists k, w. split_and!; [lia|done|done|].
  intros E. by rewrite E in H2.
Qed.
Lemma host_calls_ok g h (f : Z -> list ev) : web_ok g -> (forall c, Forall (fun e => exists x, e = Call c x) (f c)) ->
  within room (match hosting g h with None => Ok g | Some i => let! w := rd (g_webviews g) i in Ok (happened g (f (controller w))) end) web_ok.
Proof.
  intros Hg Hf. destruct (hosting g h) as [i|] eqn:E; [|done]. destruct (hosting_some g h i E) as (k & w & -> & Hw & _ & Hc).
  rewrite (rd_ok _ _ w) by (rewrite ?Nat2Z.id; done || lia). cbn [obind within]. apply happened_ok; [done|]. eapply calls_settled; [|apply Hf].
  by apply (slot_held g k w).
Qed.
Ltac all_calls := repeat (constructor; [by eexists|]); constructor.
Lemma web_on_size_ok g h m : web_ok g -> within room (on_size g h m) web_ok.
Proof.
  intros Hg. apply (host_calls_ok g h (fun c => if m then [Call c (put_IsVisible false)] else Call c (put_IsVisible true) :: bounds_calls c)); [done|].
  intros c. destruct m; all_calls.
Qed.
Lemma on_move_ok g h : web_ok g -> within room (on_move g h) web_ok.
Proof. intros Hg. apply (host_calls_ok g h bounds_calls); [done|]. intros c. all_calls. Qed.
Lemma on_sent_ok h sent : forall g, web_ok g -> within room (on_sent g h sent) web_ok.
Proof.
  induction sent as [|[m|] sent IH]; intros g Hg; cbn [on_sent]; [done| |]; apply within_bind; (eapply within_mono; [|apply IH]).
  - by apply web_on_size_ok.
  - by apply on_move_ok.
Qed.

(** Closing: the references of the slot are dropped. *)
Definition drop_one (c : Z) (pre : list ev) : list ev := if c =? 0 then [] else pre ++ [Release c].
Definition same (a p : Z) : Z := if decide (a = p) then 1 else 0.
Lemma drop_one_ok n c (b : bool) : (c <> 0 -> 0 < n c) ->
  let es := drop_one c (if b then [Call c Close] else []) in
  respects n es /\ (forall p, p <> 0 -> held es p = - same c p) /\ blocks es = 0 /\ files es = 0.
Proof.
  intros Hn. unfold drop_one, same. destruct (Z.eqb_spec c 0) as [->|Hc].
  - split_and!; try done. intros p Hp. rewrite decide_False by congruence. done.
  - specialize (Hn Hc). destruct b; split_and!; cbn; try done; try (split_and!; done || lia); intros p Hp; unfold held, sum; cbn;
      destruct (decide (p = c)), (decide (c = p)); done || congruence.
Qed.
Lemma uses_same p w : uses p w = same (env w) p + same (controller w) p + same (core w) p.
Proof. done. Qed.
Lemma same_bound a p : 0 <= same a p /\ same a a = 1.
Proof. unfold same. split; [destruct (decide _); lia|by rewrite decide_True]. Qed.

Lemma drop_ok n w : (forall p, p <> 0 -> uses p w <= n p) ->
  respects n (drop_com w) /\ (forall p, p <> 0 -> held (drop_com w) p = - uses p w) /\ blocks (drop_com w) = 0 /\ files (drop_com w) = 0.
Proof.
  intros Hn. change (drop_com w) with (drop_one (controller w) [Call (controller w) Close] ++ drop_one (core w) [] ++ drop_one (env w) []).
  destruct (drop_one_ok n (controller w) true) as (A1 & A2 & A3 & A4).
  { intros Hc. specialize (Hn _ Hc). rewrite uses_same in Hn. pose proof (same_bound (controller w) (controller w)). pose proof (same_bound (env w) (controller w)).
    pose proof (same_bound (core w) (controller w)). lia. }
  destruct (drop_one_ok (fun p => n p + held (drop_one (controller w) [Call (controller w) Close]) p) (core w) false) as (B1 & B2 & B3 & B4).
  { intros Hc. specialize (Hn _ Hc). rewrite uses_same in Hn. rewrite A2 by done. pose proof (same_bound (core w) (core w)). pose proof (same_bound (env w) (core w)). lia. }
  destruct (drop_one_ok (fun p => n p + held (drop_one (controller w) [Call (controller w) Close]) p + held (drop_one (core w) []) p) (env w) false) as (C1 & C2 & C3 & C4).
  { intros Hc. specialize (Hn _ Hc). rewrite uses_same in Hn. rewrite A2, B2 by done. pose proof (same_bound (env w) (env w)). lia. }
  split_and!.
  - rewrite !respects_app. split_and!; [done|exact B1|exact C1].
  - intros p Hp. rewrite !held_app, A2, B2, C2, uses_same by done. lia.
  - unfold blocks in *. rewrite !web_sum_app. lia.
  - unfold files in *. rewrite !web_sum_app. lia.
Qed.

Definition closed (w : LppWinWebView) : LppWinWebView := set_com (set_hwnd (set_open w false) 0) 0 0 0.
Definition temp_gone (w : LppWinWebView) : list ev := match temp_html_path w with [] => [] | t => [Deleted t] end.

(** [a] and [b] are what else is recorded while the slot is closed. *)
Lemma web_close_ok g i w a b q : web_ok g -> g_webviews g !! i = Some w -> busy g (Z.of_nat i) = false -> hwnd w <> 0 ->
  (forall n, settled n a) -> (forall n, settled n b) ->
  web_ok (mk_web (<[i:=closed w]> (g_webviews g)) (g_wv_class_registered g) (initialized g) (pCreate g) (windows g ∖ {[hwnd w]}) (pending g)
    q (trace g ++ (a ++ drop_com w ++ b))).
Proof.
  intros Hg Hw Hb Hz Ha Hb'. destruct (drop_ok (held (trace g)) w) as (D1 & D2 & D3 & D4).
  { intros p Hp. rewrite (o_held g Hg) by done. by apply stored_lookup with i. }
  destruct (o_entry g Hg i w Hw) as (_ & Hu & Ht). 
  refine (quit_ok (mk_web (<[i:=closed w]> (g_webviews g)) (g_wv_class_registered g) (initialized g) (pCreate g) (windows g ∖ {[hwnd w]}) (pending g)
    (quit g) (trace g ++ (a ++ drop_com w ++ b))) q _).
  apply (change_ok g i w (closed w) (a ++ drop_com w ++ b) (windows g ∖ {[hwnd w]}) (pending g)); try done.
  - intros [H0 _]%elem_of_difference. by apply (o_zero g Hg).
  - apply (o_once g Hg).
  - intros j v Hj Hv Hn. destruct (others_ok g i (closed w) Hg (or_introl eq_refl) j v Hj Hv Hn) as [H1 H2]. split; [|done].
    assert (hwnd v <> hwnd w) by (intros E; by apply Hj, (o_uniq g Hg j i v w)). apply elem_of_difference. by rewrite elem_of_singleton.
  - intros r Hr. rewrite <- (Nat2Z.id i). apply waits_other; [by apply (o_pend g Hg)| |lia]. by eapply not_busy.
  - destruct (Ha (held (trace g))) as (A1 & A2 & _). rewrite !respects_app. split_and!; [done| |apply Hb'].
    eapply respects_ext; [|exact D1]. intros p. cbv beta. rewrite A2. lia.
  - intros p Hp. destruct (Ha (held (trace g))) as (_ & A2 & _), (Hb' (held (trace g))) as (_ & B2 & _). rewrite !held_app, A2, D2, B2 by done.
    assert (uses p (closed w) = 0) as ->; [|lia]. unfold uses. cbn. by rewrite !decide_False by congruence.
  - destruct (Ha (held (trace g))) as (_ & _ & A3 & _), (Hb' (held (trace g))) as (_ & _ & B3 & _). unfold blocks in *. rewrite !web_sum_app. lia.
  - destruct (Ha (held (trace g))) as (_ & _ & _ & A4), (Hb' (held (trace g))) as (_ & _ & _ & B4). unfold files in *. rewrite !web_sum_app. lia.
Qed.

Lemma slot_range g i w : web_ok g -> g_webviews g !! i = Some w -> (i < 8)%nat.
Proof. intros Hg Hw%lookup_lt_Some. by rewrite (o_len g Hg) in Hw. Qed.
Lemma window_nonzero g h : web_ok g -> h ∈ windows g -> h <> 0.
Proof. intros Hg Hh ->. by apply (o_zero g Hg). Qed.

Lemma destroy_ok g h : web_ok g -> match slot_loop (fun w => hwnd w =? h) 0 (g_webviews g) with Some i => busy g i = false | None => True end ->
  within room (DestroyWindow g h) web_ok.
Proof.
  intros Hg Hb. unfold DestroyWindow. destruct (decide (h ∈ windows g)) as [Hh|]; [|done]. pose proof (window_nonzero g h Hg Hh) as Hz.
  unfold on_destroy. cbn [happened set_windows g_webviews]. destruct (slot_loop _ 0 (g_webviews g)) as [i|] eqn:E.
  - destruct (slot_loop_some _ _ _ _ E) as (k & w & -> & Hw & Hf%Z.eqb_eq). rewrite Z.add_0_l in *. subst h.
    rewrite (rd_ok _ _ w) by (rewrite ?Nat2Z.id; done || lia). cbn [obind]. pose proof (slot_range g k w Hg Hw).
    rewrite set_slot_eq by first [exact (o_len g Hg)|lia]. cbn [obind within]. unfold set_quit, set_table, happened, set_windows.
    cbn [g_webviews g_wv_class_registered initialized pCreate windows pending quit trace].
    rewrite Nat2Z.id, <- (assoc_L (++)). apply (web_close_ok g k w [WindowGone (hwnd w)] (temp_gone w) true); try done.
    intros n. unfold temp_gone. by destruct (temp_html_path w).
  - cbn [obind within]. apply quit_ok. pose proof (slot_loop_none _ _ _ E) as Hnone.
    assert (web_ok (set_windows g (windows g ∖ {[h]}))) as Hg'; [|by apply (happened_ok _ [WindowGone h]) in Hg'].
    destruct Hg. split; try done; cbn [set_windows windows g_webviews].
    + intros j v Hv. destruct (o_entry0 j v Hv) as [He Hrest]. split; [|done]. destruct (is_open v); [|done]. destruct He as [H1 H2]. split; [done|].
      pose proof (Hnone j v Hv) as Hne%Z.eqb_neq. apply elem_of_difference. by rewrite elem_of_singleton.
    + by intros [H0 _]%elem_of_difference.
Qed.

Lemma wndproc_ok g h m : web_ok g -> polite_event g (Msg h m) = true -> within room (lpp_webview_wndproc g h m) web_ok.
Proof.
  intros Hg Hp. destruct m as [b| |rect sent| | | |]; cbn [lpp_webview_wndproc]; try done.
  - by apply web_on_size_ok.
  - by apply on_move_ok.
  - apply within_bind. eapply within_mono; [destruct rect; [by apply on_sent_ok|exact Hg]|]. intros g' Hg'. by apply on_move_ok.
  - apply destroy_ok; [done|]. cbn in Hp. destruct (slot_loop _ _ _); [|done]. by apply negb_true_iff in Hp.
Qed.

Lemma in_table_ok i : 0 <= i < 8 -> in_table i = true.
Proof. intros Hi. unfold in_table, MAX_WEBVIEWS. rewrite (proj2 (Z.ltb_ge i 0)), Z.geb_leb, (proj2 (Z.leb_gt 8 i)) by lia. done. Qed.

(** A slot that had no such pointer gets one (or two), with the reference taken for it. *)
Lemma take_ok g i w w' es ps : web_ok g -> g_webviews g !! Z.to_nat i = Some w -> 0 <= i -> is_open w = true ->
  NoDup ps -> hwnd w' = hwnd w -> is_open w' = true -> current_url w' = current_url w -> temp_html_path w' = temp_html_path w ->
  (forall r, r ∈ ps -> slot_of r <> i -> r ∈ pending g) -> (forall r, r ∈ ps -> slot_of r = i -> waits_for ps (<[Z.to_nat i:=w']> (g_webviews g)) r) ->
  respects (held (trace g)) es -> (forall p, p <> 0 -> held es p = uses p w' - uses p w) -> blocks es = 0 -> files es = 0 ->
  web_ok (mk_web (<[Z.to_nat i:=w']> (g_webviews g)) (g_wv_class_registered g) (initialized g) (pCreate g) (windows g) ps (quit g) (trace g ++ es)).
Proof.
  intros Hg Hw Hi Ho Hnd E1 E2 E3 E4 Hps Hnew. destruct (o_entry g Hg _ w Hw) as (He & Hu & Ht). rewrite Ho in He.
  apply change_ok with (w:=w); try done.
  - unfold entry_ok. by rewrite E1, E2, E3, E4.
  - apply (o_zero g Hg).
  - apply others_ok; [done|]. right. by exists w.
  - intros r Hr. destruct (decide (slot_of r = i)) as [Hs|Hs]; [by apply Hnew|]. apply waits_other; [|done|done].
    pose proof (o_pend g Hg r (Hps r Hr Hs)) as Hp. destruct r as [j|j]; cbn in *; [|done].
    destruct Hp as (H1 & H2 & H3). split_and!; try done. intros Hc. by apply H2, (Hps (CtrlFor j)).
Qed.

Lemma Env_Invoke_ok g i w failed c : web_ok g -> g_webviews g !! Z.to_nat i = Some w -> 0 <= i < 8 -> is_open w = true ->
  env w = 0 -> controller w = 0 -> core w = 0 -> EnvFor i ∉ pending g -> CtrlFor i ∉ pending g -> within room (Env_Invoke g i failed c) web_ok.
Proof.
  intros Hg Hw Hi Ho E1 E2 E3 P1 P2. unfold Env_Invoke. rewrite in_table_ok by done. cbn [negb orb].
  destruct (failed || (c =? 0)) eqn:E; [by apply make_ready_ok|]. apply orb_false_iff in E as [_ Hc%Z.eqb_neq].
  rewrite (rd_ok _ _ w) by (done || lia). cbn [obind]. rewrite set_slot_eq by (done || apply (o_len g Hg)). cbn [obind within].
  set (w' := set_handlers _ _ _).
  assert (forall b : bool, web_ok (mk_web (<[Z.to_nat i:=w']> (g_webviews g)) (g_wv_class_registered g) (initialized g) (pCreate g) (windows g)
     (if b then pending g ++ [CtrlFor i] else pending g) (quit g) (trace g ++ [AddRef c; Call c (CreateCoreWebView2Controller (hwnd w))]))) as H.
  { intros b. apply take_ok with (w:=w); try done; [lia| | | | |].
    - pose proof (o_once g Hg). destruct b; [|done]. apply NoDup_app. split_and!; [done| |apply NoDup_singleton].
      intros x Hx ->%list_elem_of_singleton. done.
    - intros r. destruct b; [|done]. rewrite elem_of_app, list_elem_of_singleton. intros [Hr| ->]; done.
    - intros r Hr Hs. assert (r ∉ pending g) as Hn by (destruct r; cbn in Hs; by subst). destruct b; [|done].
      apply elem_of_app in Hr as [Hr|Hr%list_elem_of_singleton]; [done|]. subst r. split; [lia|]. exists w'. apply lookup_lt_Some in Hw.
      rewrite list_lookup_insert_eq by done. done.
    - cbn. split; [done|]. rewrite decide_True by done. split; [|done]. rewrite (o_held g Hg) by done.
      pose proof (stored_nonneg (g_webviews g) c). lia.
    - intros p Hp. rewrite !uses_same. unfold held, sum, same, w'. cbn. rewrite E1, E2, E3.
      destruct (decide (p = c)), (decide (c = p)), (decide (0 = p)); congruence || lia. }
  specialize (H (ctrl_accepts (trace g ++ [AddRef c]) (hwnd w))). 
  unfold happened, set_table. cbn [trace pending g_webviews g_wv_class_registered initialized pCreate windows quit]. rewrite <- (assoc_L (++)). cbn [app].
  change (hwnd w') with (hwnd w). by destruct (ctrl_accepts (trace g ++ [AddRef c]) (hwnd w)).
Qed.

Lemma settings_settled n k s : k <> 0 -> 0 < n k -> (forall p, p <> 0 -> 0 <= n p) -> settled n (Call k get_Settings :: if s =? 0 then [] else
  [Given s; Call s put_IsScriptEnabled; Call s put_AreDefaultScriptDialogsEnabled; Call s put_IsWebMessageEnabled; Call s put_AreDevToolsEnabled; Release s]).
Proof.
  intros Hk Hn Hnn. destruct (Z.eqb_spec s 0) as [->|Hs]; [by split_and!|]. specialize (Hnn s Hs).
  split_and!; [|intros p; unfold held, sum; cbn; destruct (decide (p = s)); lia|done|done]. cbn. rewrite !decide_True by done. split_and!; done || lia.
Qed.

Lemma Ctrl_Invoke_ok g i w failed c k s : web_ok g -> g_webviews g !! Z.to_nat i = Some w -> 0 <= i < 8 -> is_open w = true ->
  controller w = 0 -> core w = 0 -> EnvFor i ∉ pending g -> CtrlFor i ∉ pending g -> within room (Ctrl_Invoke g i failed c k s) web_ok.
Proof.
  intros Hg Hw Hi Ho E2 E3 P1 P2. unfold Ctrl_Invoke. rewrite in_table_ok by done. cbn [negb orb].
  destruct (failed || (c =? 0)) eqn:E; [by apply make_ready_ok|]. apply orb_false_iff in E as [_ Hc%Z.eqb_neq].
  rewrite (rd_ok _ _ w) by (done || lia). cbn [obind]. rewrite set_slot_eq by (done || apply (o_len g Hg)). cbn [obind].
  assert ((if k =? 0 then core w else k) = k) as -> by (rewrite E3; by destruct (Z.eqb_spec k 0)).
  set (w' := set_com w (env w) c k). set (taken := _ ++ _). set (g1 := happened _ taken).
  assert (web_ok g1) as H1.
  { refine (take_ok g i w w' taken (pending g) Hg Hw _ Ho (o_once g Hg) eq_refl Ho eq_refl eq_refl _ _ _ _ _ _);
      [lia|done| | | |unfold taken; by destruct (k =? 0)|unfold taken; by destruct (k =? 0)].
    - intros r Hr Hs. exfalso. destruct r; cbn in Hs; by subst.
    - unfold taken. rewrite respects_app. split; [|by destruct (k =? 0)]. cbn. split; [done|]. rewrite decide_True by done. split; [|done].
      rewrite (o_held g Hg) by done. pose proof (stored_nonneg (g_webviews g) c). lia.
    - intros p Hp. rewrite !uses_same, E2, E3. unfold taken. rewrite held_app. unfold held, sum, same, w'.
      destruct (Z.eqb_spec k 0) as [->|]; cbn; destruct (decide (p = c)), (decide (c = p)), (decide (0 = p)); try destruct (decide (p = k)), (decide (k = p)); congruence || lia. }
  assert (g_webviews g1 !! Z.to_nat i = Some w') as Hw1 by (apply list_lookup_insert_eq; rewrite (o_len g Hg); lia).
  clearbody g1. clear taken.
  assert (forall p, p <> 0 -> 0 <= held (trace g1) p) as Hnn by (intros p Hp; rewrite (o_held g1 H1) by done; apply stored_nonneg).
  set (g2 := if k =? 0 then g1 else _). assert (web_ok g2 /\ g_webviews g2 = g_webviews g1) as [H2 T2].
  { unfold g2. destruct (Z.eqb_spec k 0) as [|Hk]; [done|]. split; [|done]. apply happened_ok; [done|]. apply settings_settled; try done.
    by apply (slot_held g1 _ w' H1 Hw1). }
  clearbody g2. change (hwnd w') with (hwnd w).
  set (g3 := if hwnd w =? 0 then g2 else _). assert (web_ok g3 /\ g_webviews g3 = g_webviews g1) as [H3 T3].
  { unfold g3. destruct (hwnd w =? 0); [done|]. split; [|done]. apply happened_ok; [done|]. apply calls_settled with (c:=c); [|all_calls].
    rewrite <- T2 in Hw1. by apply (slot_held g2 _ w' H2 Hw1). }
  clearbody g3. cbv zeta. rewrite <- T3 in Hw1. apply within_bind.
  assert (forall es, settled (held (trace g3)) es -> within room (make_ready (happened g3 es) i) web_ok) as Hend.
  { intros es Hes. apply make_ready_ok; [by apply happened_ok|done]. }
  destruct (Z.eqb_spec k 0) as [|Hk]; [apply Hend, settled_nil|]. eapply within_mono; [apply load_ok|exact Hend]; [|done|].
  - destruct (o_entry g Hg _ w Hw) as (_ & Hu & Ht). change (current_url w') with (current_url w). change (temp_html_path w') with (temp_html_path w).
    destruct (current_url w); [|done]. destruct (temp_html_path w); [apply index_fits|done].
  - by apply (slot_held g3 _ w' H3 Hw1).
Qed.

Lemma answer_gone g r : web_ok g -> r ∉ pending (set_pending g (answer r (pending g))).
Proof. intros Hg. by apply answer_once, o_once. Qed.
Lemma pending_slot g r w : web_ok g -> g_webviews g !! Z.to_nat (slot_of r) = Some w -> 0 <= slot_of r -> 0 <= slot_of r < 8.
Proof. intros Hg Hw%(slot_range g _ _ Hg). lia. Qed.

Lemma dispatch_ok g e : web_ok g -> polite_event g e = true -> within room (dispatch g e) web_ok.
Proof.
  intros Hg Hp. destruct e as [h m|i failed c|i failed c k s]; cbn [dispatch].
  - destruct (decide _); [by apply wndproc_ok|done].
  - destruct (decide _) as [Hin|]; [|done]. pose proof (o_pend g Hg _ Hin) as (Hi & Hn & w & Hw & Ho & E1 & E2 & E3 & E4).
    pose proof (pending_slot g (EnvFor i) w Hg Hw Hi) as Hr. cbn [slot_of] in Hr. cbv zeta. cbn [set_pending g_webviews].
    rewrite (rd_ok _ _ w) by (done || lia). cbn [obind]. rewrite E4. apply Env_Invoke_ok with (w:=w); try done; [by apply answered_ok|by apply answer_gone|].
    cbn. by intros H%answer_sub.
  - destruct (decide _) as [Hin|]; [|done]. pose proof (o_pend g Hg _ Hin) as (Hi & w & Hw & Ho & E2 & E3 & E4).
    pose proof (pending_slot g (CtrlFor i) w Hg Hw Hi) as Hr. cbn [slot_of] in Hr. cbv zeta. cbn [set_pending g_webviews].
    rewrite (rd_ok _ _ w) by (done || lia). cbn [obind]. rewrite E4. apply Ctrl_Invoke_ok with (w:=w); try done; [by apply answered_ok| |by apply answer_gone].
    cbn. intros H%answer_sub. by destruct (o_pend g Hg _ H) as (_ & Hc & _).
Qed.

Lemma pump_ok goal i es : forall g, web_ok g -> 0 <= i < 8 -> polite_pump goal i es g = true -> within room (pump goal i es g) (fun r => web_ok r.1).
Proof.
  induction es as [|e es IH]; intros g Hg Hi; destruct (slot_there g i Hg Hi) as (w & _ & Hrd); cbn [polite_pump pump]; rewrite Hrd; cbn [obind];
    (destruct (goal w); [done|]).
  - destruct (quit g); [|done]. intros _. cbn. by apply quit_ok.
  - intros [Hp Hps]%andb_true_iff. pose proof (dispatch_ok g e Hg Hp) as Hd. destruct (dispatch g e) as [g'| | |]; try done. by apply IH.
Qed.

Lemma loader_paths_ok : within room loader_paths (fun _ => True).
Proof.
  unfold loader_paths. apply within_bind, fits_ok; [|done]. intros Hr. destruct (paths_short Hr) as [Hp _]. assert (0 <= slen temp_dir) by (unfold slen; lia). unfold MAX_PATH in *.
  destruct (lpp_strrchr module_path 92) as [[d f]|] eqn:E; [|by vm_compute]. apply strrchr_spec in E. rewrite E in Hp. unfold slen in *.
  rewrite !length_app in *. cbn [length] in *. change (length (txt "WebView2Loader.dll")) with 18%nat. lia.
Qed.
Lemma web_init_ok g : web_ok g -> within room (lpp_init_handlers g) web_ok.
Proof.
  intros Hg. unfold lpp_init_handlers. destruct (initialized g); [done|]. apply within_bind. eapply within_mono; [apply loader_paths_ok|].
  intros paths _. destruct Hg. by split.
Qed.
Lemma data_dir_ok i : within room (user_data_dir i) (fun d => slen d < MAX_PATH).
Proof.
  assert (room -> slen (match local_app_data with Some d => d ++ txt "\LppWebView2\slot_" ++ digit i | None => temp_dir ++ txt "\LppWebView2_slot_" ++ digit i end) < MAX_PATH) as H.
  { intros Hr. destruct (paths_short Hr) as [Hp Hd]. assert (0 <= slen module_path) by (unfold slen; lia). unfold MAX_PATH in *.
    destruct local_app_data as [d|]; unfold slen in *; rewrite !length_app; cbn in *; lia. }
  unfold user_data_dir. by apply fits_ok.
Qed.

(** A closed slot becomes the one of a new window. *)
Lemma web_open_ok g i w h tt wd ht eh (r : bool) : web_ok g -> g_webviews g !! Z.to_nat i = Some w -> 0 <= i < 8 -> is_open w = false -> h <> 0 -> h ∉ windows g ->
  (r = true -> eh = Some i) -> forall es, (forall n, settled n es) ->
  web_ok (mk_web (<[Z.to_nat i:=mk_wv h true false wd ht [] [] 0 0 0 eh None]> (g_webviews g)) (g_wv_class_registered g) (initialized g) (pCreate g)
    (windows g ∪ {[h]}) (if r then pending g ++ [EnvFor i] else pending g) (quit g) (trace g ++ (WindowMade h tt wd ht :: es))).
Proof.
  intros Hg Hw Hi Ho Hh Hf Hr es Hes. destruct (o_entry g Hg _ w Hw) as [He _]. rewrite Ho in He. destruct He as (E0 & E1 & E2 & E3).
  set (w' := mk_wv _ _ _ _ _ _ _ _ _ _ _ _).
  assert (forall x, x ∈ pending g -> slot_of x <> i) as Hother.
  { intros x Hx Hs. pose proof (o_pend g Hg x Hx) as Hp. destruct x as [j|j]; cbn in Hs, Hp; subst j.
    - destruct Hp as (_ & _ & v & Hv & Hov & _). congruence.
    - destruct Hp as (_ & v & Hv & Hov & _). congruence. }
  apply change_ok with (w:=w); try done.
  - unfold w'. split; [|split; apply empty_fits]. cbn. split; [done|]. set_solver.
  - intros [H0|H0%elem_of_singleton]%elem_of_union; [by apply (o_zero g Hg)|done].
  - pose proof (o_once g Hg). destruct r; [|done]. apply NoDup_app. split_and!; [done| |apply NoDup_singleton].
    intros x Hx ->%list_elem_of_singleton. by apply (Hother _ Hx).
  - intros j v Hj Hv Hz. assert (hwnd v ∈ windows g) as Hin.
    { destruct (o_entry g Hg j v Hv) as [Hev _]. destruct (is_open v); by destruct Hev. }
    split; [set_solver|]. cbn. intros E. by rewrite E in Hin.
  - intros x Hx. assert (x ∈ pending g \/ r = true /\ x = EnvFor i) as [Hin|[-> ->]].
    { destruct r; [|by left]. apply elem_of_app in Hx as [Hx|Hx%list_elem_of_singleton]; [by left|by right]. }
    + apply waits_other; [|by apply Hother|lia]. pose proof (o_pend g Hg x Hin) as Hp. destruct x as [j|j]; [|done].
      destruct Hp as (H1 & H2 & H3). split_and!; try done. destruct r; [|done]. rewrite elem_of_app, list_elem_of_singleton. by intros [?|?].
    + split; [lia|]. split.
      * rewrite elem_of_app, list_elem_of_singleton. intros [Hc|?]; [|done]. by apply (Hother _ Hc).
      * exists w'. apply lookup_lt_Some in Hw. rewrite list_lookup_insert_eq by done. unfold w'. cbn. rewrite Hr by done. done.
  - cbn. split; [done|]. apply Hes.
  - intros p Hp. rewrite held_cons. destruct (Hes (held [])) as (_ & Hh0 & _). rewrite Hh0, !uses_same, E1, E2, E3. unfold w'. cbn. lia.
  - destruct (Hes (held [])) as (_ & _ & Hb & _). exact Hb.
  - destruct (Hes (held [])) as (_ & _ & _ & Hb). exact Hb.
Qed.

Lemma start_ok g title wd ht : web_ok g -> (room -> call_fits (Create title wd ht 0 []) = true) ->
  within room (start_window g title wd ht) (fun '(g, slot, asked) => web_ok g /\ (asked = true -> 0 <= slot < 8)).
Proof.
  intros Hg0 Ht. unfold start_window. apply within_bind. eapply within_mono; [by apply web_init_ok|]. clear g Hg0. intros g Hg.
  destruct (slot_loop _ 0 (g_webviews g)) as [slot|] eqn:E; [|done].
  destruct (slot_loop_some _ _ _ _ E) as (k & w & -> & Hw & Ho%negb_true_iff). rewrite Z.add_0_l in *.
  pose proof (slot_range g k w Hg Hw) as Hk.
  set (g1 := mk_web _ _ _ _ _ _ _ _). assert (web_ok g1) as H1 by (destruct Hg; by split).
  destruct title as [[|c t]|]; [by intros Hr%Ht| |by intros Hr%Ht].
  cbn in Ht. unfold window_title, to_wide at 1. destruct (_ <? 512); [|by intros Hr%Ht]. cbn [obind].
  cbv zeta. destruct (Z.eqb_spec (new_window (trace g1) (windows g1)) 0) as [|Hh]; [done|]. pose proof (new_window_fresh _ _ Hh) as Hf.
  set (h := new_window _ _) in *. set (iw := if _ >? 0 then _ else 1360). set (ih := if _ >? 0 then _ else 820).
  assert (g_webviews g1 !! Z.to_nat (Z.of_nat k) = Some w) as Hw1 by (by rewrite Nat2Z.id).
  rewrite set_slot_eq by first [exact (o_len g Hg)|lia]. cbn [obind].
  destruct (pCreate _) eqn:Ec.
  - apply within_bind. eapply within_mono; [apply data_dir_ok|]. intros dir Hdir. apply within_bind, wide_ok; [done|].
    rewrite set_slot_eq by first [cbn; rewrite length_insert; exact (o_len g Hg)|lia]. cbn [obind within]. split; [|intros _; lia].
    pose proof (fun r H => web_open_ok g1 (Z.of_nat k) w h (widen (c :: t)) iw ih (Some (Z.of_nat k)) r H1 Hw1 ltac:(lia) Ho Hh Hf (fun _ => eq_refl) [DirMade dir] H) as Hopen.
    specialize (fun r => Hopen r ltac:(by intros n; split_and!)).
    unfold set_pending, happened, set_table, set_windows in *. cbn [g_webviews g_wv_class_registered initialized pCreate windows pending quit trace] in *.
    rewrite list_insert_insert_eq, <- (assoc_L (++)). destruct (env_accepts _); [exact (Hopen true)|exact (Hopen false)].
  - cbn [within]. split; [|done].
    apply (web_open_ok g1 (Z.of_nat k) w h (widen (c :: t)) iw ih None false H1 Hw1); try done; lia.
Qed.

Lemma open_slot_ok g i : web_ok g -> within room (open_slot g i) (fun o => match o with
  | Some w => 0 <= i < 8 /\ g_webviews g !! Z.to_nat i = Some w /\ is_open w = true | None => True end).
Proof.
  intros Hg. unfold open_slot, MAX_WEBVIEWS. destruct (Z.ltb_spec i 0); [done|]. rewrite Z.geb_leb. destruct (Z.leb_spec 8 i); [done|]. cbn [orb].
  destruct (slot_there g i Hg) as (w & Hw & Hrd); [lia|]. rewrite Hrd. cbn. destruct (is_open w) eqn:E; [|done]. split_and!; done || lia.
Qed.

Lemma html_ok g i html : web_ok g -> within room (lpp_webview_set_html g i html) web_ok.
Proof.
  intros Hg. unfold lpp_webview_set_html. apply within_bind. eapply within_mono; [by apply open_slot_ok|]. intros [w|] Ho; [|done]. destruct html as [html|]; [|done].
  destruct Ho as (Hi & Hw & Hop). cbv zeta. destruct (_ && _ && _) eqn:E.
  - apply andb_true_iff in E as [[E%negb_true_iff _]%andb_true_iff _]. apply Z.eqb_neq in E. cbn. apply happened_ok; [done|].
    destruct (slot_held g _ w Hg Hw) as (_ & Hk & _). split_and!; try done. cbn. split_and!; try done. specialize (Hk E). lia.
  - apply within_bind, fits_ok; [intros Hr; by apply temp_fits|intros _]. rewrite set_slot_eq by first [exact (o_len g Hg)|lia]. cbn [obind within].
    destruct (o_entry g Hg _ w Hw) as (_ & Hu & _).
    assert (web_ok (set_table g (<[Z.to_nat i:=set_temp w (temp_dir ++ txt "lpp_app_" ++ digit i ++ txt ".html")]> (g_webviews g)))) as Hg' by (apply touch_ok with (w:=w); try done; intros Hr; by apply temp_fits).
    destruct (can_create _ _); [|done]. apply happened_ok; [done|]. by split_and!.
Qed.

Lemma navigate_ok g i url : web_ok g -> (room -> call_fits (NavigateTo i url) = true) -> within room (lpp_webview_navigate g i url) web_ok.
Proof.
  intros Hg Hu. unfold lpp_webview_navigate. apply within_bind. eapply within_mono; [by apply open_slot_ok|]. intros [w|] Ho; [|done]. destruct url as [url|]; [|done].
  destruct Ho as (Hi & Hw & Hop). cbn in Hu. apply within_bind, fits_ok; [by intros Hr; specialize (Hu Hr); apply andb_true_iff in Hu as [?%Z.ltb_lt _]|intros _].
  rewrite set_slot_eq by first [exact (o_len g Hg)|lia]. cbn [obind]. destruct (o_entry g Hg _ w Hw) as (_ & _ & Ht).
  assert (web_ok (set_table g (<[Z.to_nat i:=set_url w url]> (g_webviews g)))) as Hg' by (by apply touch_ok with (w:=w)).
  destruct (Z.eqb_spec (core w) 0) as [|Hk]; [done|]. apply within_bind. eapply within_mono; [apply load_ok; [done|done|]|intros es Hes; by apply happened_ok].
  by apply (slot_held g _ w Hg Hw).
Qed.

Ltac flat := unfold happened, set_table, set_quit, set_windows; cbn [g_webviews g_wv_class_registered initialized pCreate windows pending quit trace].
Lemma terminate_ok g i : web_ok g -> busy g i = false -> within room (lpp_webview_terminate g i) web_ok.
Proof.
  intros Hg Hb. unfold lpp_webview_terminate. apply within_bind. eapply within_mono; [by apply open_slot_ok|]. intros [w|] Ho; [|done].
  destruct Ho as (Hi & Hw & Hop). rewrite set_slot_eq by first [exact (o_len g Hg)|lia]. cbn [obind].
  destruct (o_entry g Hg _ w Hw) as [He _]. rewrite Hop in He. destruct He as [Hz Hin]. pose proof (o_len g Hg) as Hlen.
  pose proof (fun k v Hv E => o_uniq g Hg k (Z.to_nat i) v w Hv Hw E) as Huniq.
  pose proof (web_close_ok g (Z.to_nat i) w [] (WindowGone (hwnd w) :: temp_gone w) true Hg Hw) as Hc. rewrite Z2Nat.id in Hc by lia.
  specialize (Hc Hb Hz ltac:(done) ltac:(intros n; unfold temp_gone; by destruct (temp_html_path w))). clear Hg Hb.
  destruct g as [t c0 n0 p0 ws ps q tr]. cbn [g_webviews g_wv_class_registered initialized pCreate windows pending quit trace] in *. flat.
  set (w1 := set_com _ 0 0 0). change (hwnd w1) with (hwnd w). rewrite (proj2 (Z.eqb_neq _ _) Hz). unfold DestroyWindow. flat.
  rewrite decide_True by done. unfold on_destroy. flat. assert (Z.to_nat i < length t)%nat as Hlt by lia.
  assert (slot_loop (fun v => hwnd v =? hwnd w) 0 (<[Z.to_nat i:=w1]> t) = Some i) as ->.
  { destruct (slot_loop _ _ _) as [j|] eqn:E.
    - destruct (slot_loop_some _ _ _ _ E) as (k & v & -> & Hv & Hf%Z.eqb_eq). f_equal. destruct (decide (k = Z.to_nat i)) as [->|Hk]; [lia|].
      rewrite list_lookup_insert_ne in Hv by done. exfalso. apply Hk, (Huniq k v Hv Hf). congruence.
    - pose proof (slot_loop_none _ _ _ E (Z.to_nat i) w1) as Hn. rewrite list_lookup_insert_eq in Hn by done. specialize (Hn eq_refl).
      cbn in Hn. by rewrite Z.eqb_refl in Hn. }
  rewrite (rd_ok _ i w1) by (rewrite ?list_lookup_insert_eq; done || lia). cbn [obind].
  rewrite set_slot_eq by first [cbn; rewrite length_insert; done|lia]. cbn [obind]. flat. rewrite list_insert_insert_eq.
  rewrite (rd_ok _ i (closed w1)) by first [lia|by apply list_lookup_insert_eq]. cbn [obind].
  rewrite set_slot_eq by first [cbn; rewrite length_insert; done|lia]. cbn [within]. flat. rewrite list_insert_insert_eq.
  change (drop_com w1) with (@nil ev). rewrite <- !(assoc_L (++)). exact Hc.
Qed.

Lemma call_ok c g : web_ok g -> (room -> call_fits c = true) -> polite_call c g = true -> within room (call_step c g) (fun r => web_ok r.1).
Proof.
  intros Hg Hf Hp. destruct c as [title wd ht debug es|i html|i url|i es|i]; cbn [call_step polite_call] in *.
  - unfold lpp_webview_window_create. pose proof (start_ok g title wd ht Hg Hf) as Hs. destruct (start_window g title wd ht) as [[[g1 slot] asked]| | |]; try done.
    destruct Hs as [H1 H2]. cbn [obind]. destruct asked; [|done]. specialize (H2 eq_refl). do 2 apply within_bind.
    eapply within_mono; [by apply pump_ok|]. by intros [g2 r] H.
  - apply within_bind. eapply within_mono; [by apply html_ok|done].
  - apply within_bind. eapply within_mono; [by apply navigate_ok|done].
  - unfold lpp_webview_run. pose proof (open_slot_ok g i Hg) as Ho. destruct (open_slot g i) as [[w|]| | |]; try done.
    destruct Ho as (Hi & _ & _). cbn [obind]. apply within_bind. eapply within_mono; [by apply pump_ok|]. by intros [g2 r] H.
  - apply within_bind. eapply within_mono; [apply terminate_ok; [done|by apply negb_true_iff]|done].
Qed.

Lemma web_run_ok calls : forall g, web_ok g -> (room -> forallb call_fits calls = true) -> polite calls g = true -> within room (run calls g) (fun r => web_ok r.1).
Proof.
  induction calls as [|c calls IH]; intros g Hg; cbn [forallb polite run]; [done|]. intros Hf [Hp Hps]%andb_true_iff.
  pose proof (call_ok c g Hg ltac:(intros Hr; by apply andb_true_iff in Hf as [? _]) Hp) as Hc. destruct (call_step c g) as [[g1 back]| | |]; try done. cbn [obind]. destruct back; [|done]. apply IH; [done| |done]. intros Hr. by apply andb_true_iff in Hf as [_ ?].
Qed.
Lemma web0_ok : web_ok web0.
Proof.
  assert (forall i w, g_webviews web0 !! i = Some w -> w = zeroed) as Hz by (intros i w H; by apply lookup_replicate in H as [-> _]).
  split; try done.
  - intros i w ->%Hz. split; [done|]. split; apply empty_fits.
  - by intros i j w v ->%Hz.
  - apply NoDup_nil_2.
  - intros r H. cbn in H. by apply not_elem_of_nil in H.
  - intros p Hp. change (g_webviews web0) with (replicate 8 zeroed). cbn [replicate]. rewrite !stored_cons.
    assert (uses p zeroed = 0) as -> by (unfold uses; cbn; by rewrite decide_False by congruence). done.
Qed.
End laws.

(** ** References *)

(** C37. Web views hold exactly the objects of their windows.  However the system answers, and whatever
    messages and completions the loops receive, a run of the builtins in which no window is closed while its
    environment or controller is still awaited never uses an object it does not hold: every call and every
    release is on a COM object the program has a reference to; the references it has are at all times
    those stored in the table; the slot of a closed window stores none, so when all windows are closed
    nothing is left; and every heap block and file handle is given back.  The run leaves no table and no
    string unless a text does not fit its array, and only then is it undefined: a window without a title or with
    one of 512 wide characters or more, an address of 1024 bytes or more or too long to look up next to the
    program, or a program, temporary or data directory whose path has no room in MAX_PATH for the names the
    runtime appends. *)
Theorem webview_references_accounted `{WebSystem} `{!WebLaws} calls : polite calls web0 = true ->
  within (paths_fit && forallb call_fits calls = true) (run calls web0) (fun '(g, _) =>
    respects (fun _ => 0) (trace g) /\
    (forall p, p <> 0 -> held (trace g) p = stored (g_webviews g) p) /\
    (forall i w, g_webviews g !! i = Some w -> is_open w = false -> forall p, p <> 0 -> uses p w = 0) /\
    ((forall i w, g_webviews g !! i = Some w -> is_open w = false) -> forall p, p <> 0 -> held (trace g) p = 0) /\
    blocks (trace g) = 0 /\ files (trace g) = 0).
Proof.
  intros Hp. set (room := paths_fit && forallb call_fits calls = true).
  assert (room -> paths_fit = true) as Hpaths by (by intros [? _]%andb_true_iff).
  assert (room -> forallb call_fits calls = true) as Hf by (by intros [_ ?]%andb_true_iff).
  eapply within_mono; [by apply (web_run_ok room Hpaths calls web0); [apply (web0_ok room Hpaths)| |]|]. intros [g back] Hg. cbn in Hg.
  assert (forall i w, g_webviews g !! i = Some w -> is_open w = false -> forall p, p <> 0 -> uses p w = 0) as Hclosed.
  { intros i w Hw Ho p Hp0. destruct (o_entry room g Hg i w Hw) as [He _]. rewrite Ho in He. destruct He as (_ & E1 & E2 & E3).
    unfold uses. rewrite E1, E2, E3. by rewrite decide_False by congruence. }
  split_and!; try apply Hg; [done|]. intros Hall p Hp0. rewrite (o_held room g Hg) by done.
  assert (Forall (fun w => uses p w = 0) (g_webviews g)) as Hz.
  { apply Forall_lookup. intros i w Hw. by eapply Hclosed; [|eapply Hall|]. }
  clear -Hz. induction Hz as [|w t Hw _ IH]; [done|]. rewrite stored_cons. lia.
Qed.

#[local] Instance demo_web : WebSystem := {
  module_path := txt "C:\app\l.exe"; temp_dir := txt "C:\tmp\"; local_app_data := None;
  loads := fun p => true; has_entry := true;
  new_window := fun tr ws => if decide (ws = ∅) then 77 else 0;
  file_there := fun tr p => bool_decide (p = txt "a.html"); full_path := fun tr p => if slen p <? 100 then Some p else None;
  file_data := fun tr p => Some (3, [60; 98; 62]); can_create := fun tr p => true; heap := fun tr n => n <? 4096;
  widen := fun s => s; env_accepts := fun tr => true; ctrl_accepts := fun tr h => true
}.
#[local] Instance demo_web_laws : WebLaws.
Proof.
  split.
  - intros tr ws. cbn. destruct (decide (ws = ∅)) as [->|]; [|done]. intros _. apply not_elem_of_empty.
  - intros tr s p. cbn. destruct (Z.ltb_spec (slen s) 100); [|done]. intros [= <-]. unfold MAX_PATH. lia.
  - intros s. cbn. unfold slen. lia.
Qed.

(** A window that is opened, shown a page, closed by its user. *)
Definition demo_calls : list call := [
  Create (Some (txt "L++")) 800 600 0 [Msg 77 WM_PAINT; EnvDone 0 false 1000; CtrlDone 0 false 2000 3000 4000];
  NavigateTo 0 (Some (txt "a.html")); Run 0 [Msg 77 (WM_SIZE false); Msg 77 WM_CLOSE]].

Lemma webview_references_accounted_witness :
  exists g, run demo_calls web0 = Ok (g, true) /\ forall p, p <> 0 -> held (trace g) p = 0.
Proof.
  destruct (run demo_calls web0) as [[g back]| | |] eqn:E; [|vm_compute in E; discriminate E..].
  assert (back = true /\ forallb (fun w => negb (is_open w)) (g_webviews g) = true) as [-> Hall].
  { vm_compute in E. injection E as <- <-. by vm_compute. }
  exists g. split; [reflexivity|].
  pose proof (@webview_references_accounted demo_web demo_web_laws demo_calls ltac:(vm_compute; reflexivity)) as H. rewrite E in H.
  destruct H as (_ & _ & _ & Hrel & _). apply Hrel. intros i w Hw. apply negb_true_iff.
  apply (proj1 (forallb_forall _ _) Hall), list_elem_of_In, list_elem_of_lookup. by exists i.
Defined.

(** ** What goes wrong otherwise *)

(** A window that is closed while its environment is awaited: the environment arrives for the closed slot, and
    the next window clears the slot with its reference: one of the two is lost. *)
Example late_environment_leaks :
  match run [Create (Some (txt "L++")) 800 600 0 [Msg 77 WM_CLOSE];
             Create (Some (txt "L++")) 800 600 0 [EnvDone 0 false 1000; EnvDone 0 false 1000; CtrlDone 0 true 0 0 0; CtrlDone 0 true 0 0 0];
             Terminate 0] web0 with
  | Ok (g, _) => forallb (fun w => negb (is_open w)) (g_webviews g) = true /\ held (trace g) 1000 = 1
  | _ => False
  end.
Proof. vm_compute. done. Qed.

(** Its controller awaited: the completion that comes while the next window starts goes through a handler that
    has been cleared. *)
Example late_controller_crashes :
  run [Create (Some (txt "L++")) 800 600 0 [EnvDone 0 false 1000; Msg 77 WM_CLOSE];
       Create (Some (txt "L++")) 800 600 0 [CtrlDone 0 false 2000 3000 0]] web0 = Undef.
Proof. vm_compute. reflexivity. Qed.

(** WM_QUIT of a closed window that no loop has taken ends the loop of the next creation at once: the window is
    handed out without its page. *)
Example quit_left_over :
  match run [Create (Some (txt "L++")) 800 600 0 [EnvDone 0 false 1000; CtrlDone 0 false 2000 3000 0]; Terminate 0;
             Create (Some (txt "L++")) 800 600 0 []] web0 with
  | Ok (g, back) => back = true /\ (is_ready <$> g_webviews g !! 0%nat) = Some false
  | _ => False
  end.
Proof. vm_compute. done. Qed.

(** The answer of the request itself is ignored: when WebView2 refuses it, the creation waits for ever. *)
Definition refusing : WebSystem := {|
  module_path := module_path; temp_dir := temp_dir; local_app_data := None; loads := loads; has_entry := has_entry; new_window := new_window;
  file_there := file_there; full_path := full_path; file_data := file_data; can_create := can_create; heap := heap; widen := widen;
  env_accepts := fun tr => false; ctrl_accepts := ctrl_accepts
|}.
Example refused_request_waits : exists g, @run refusing [Create (Some (txt "L++")) 800 600 0 [Msg 77 WM_PAINT]] web0 = Ok (g, false).
Proof. eexists. vm_compute. reflexivity. Qed.

(** No title: the array has no terminator.  A URL behind the room of the array overwrites the table. *)
Example no_title_reads_garbage wd ht es : run [Create None wd ht 0 es] web0 = Undef.
Proof. vm_compute. reflexivity. Qed.
Lemma long_url_overwrites `{WebSystem} g i w u : g_webviews g !! Z.to_nat i = Some w -> 0 <= i < MAX_WEBVIEWS -> is_open w = true -> 1024 <= slen u ->
  lpp_webview_navigate g i (Some u) = Undef.
Proof.
  intros Hw Hi Ho Hu. unfold lpp_webview_navigate, open_slot. rewrite (proj2 (Z.ltb_ge i 0)), Z.geb_leb, (proj2 (Z.leb_gt _ i)) by lia. cbn [orb].
  rewrite (rd_ok _ _ w) by (done || lia). cbn [obind]. rewrite Ho. unfold fits. by rewrite (proj2 (Z.ltb_ge _ _)) by lia.
Qed.

(** The handlers answer to IUnknown and to their own interface. *)
Lemma query_interface this riid :
  (Env_QueryInterface this riid true).2 = Some (if decide (riid = LPP_IID_IUnknown \/ riid = LPP_IID_EnvCompleted) then this else 0) /\
  (Ctrl_QueryInterface this riid true).2 = Some (if decide (riid = LPP_IID_IUnknown \/ riid = LPP_IID_CtrlCompleted) then this else 0).
Proof.
  unfold Env_QueryInterface, Ctrl_QueryInterface, lpp_guid_equal. cbn [negb].
  split; repeat case_bool_decide; destruct (decide _); cbn; try done; naive_solver.
Qed.
